(* ===== verification/_CoqProject ===== *)
-Q . S2P
Prelude.v
Floats.v
Bresenham.v
VoxelGrid.v
Costmap2D.v
LineIterator.v
Footprint.v
CostmapLayer.v
LayeredCostmap.v
ObservationBuffer.v
ObstacleLayer.v
VoxelLayer.v
Messages.v
StaticLayer.v
LabelTrees.v
Components.v
Denoise.v
InflationLayer.v
CrcTables.v
Crc.v
SdkProtocol.v
FloatOrder.v
KdTree.v
ParticleFilter.v
CollisionChecker.v
PriorityQueue.v
ThetaStar.v
ThetaStarSearch.v
ThetaStarPlanner.v
RouteTypes.v
RoutePlanner.v
RouteScorers.v
FilterBase.v
Ekf.v
Ukf.v
RosFilter.v
Estimator.v
FilterNodes.v
NavFn.v
NavFnPath.v
ActionServer.v
LifecycleManager.v
ControlNodes.v
