(* ===== verification/Prelude.v ===== *)
(** * Verification of the navigation core of RTK-global-localization

    The repository is a robot stack: RTK positioning (Python nodes), sensor
    fusion (robot_localization, FAST-LIO), the Livox lidar SDK and driver, and
    the navigation system nav2, which holds most of the code. What is verified
    here, under src/src/:

    - the costmaps (navigation2/nav2_costmap_2d): a map message is checked
      (nav2_util/validate_messages.hpp) and loaded by the static layer; the
      layers (static, obstacle, voxel, denoise, inflation), each a plugin, are merged by
      the layered costmap into a master grid, which also fills footprints; the
      voxel layer keeps its obstacles in a voxel grid (nav2_voxel_grid);
    - planning: the NavFn planner (nav2_navfn_planner/navfn.cpp) spreads a
      potential over the master grid and descends it into a path; the Theta*
      planner (nav2_theta_star_planner) joins cells in sight of each other; the route
      planner (nav2_route/route_planner.cpp) searches a graph of nodes and
      edges scored by plugins;
    - supervision: the simple action server (nav2_util) that runs the goals of
      all nav2 servers, the lifecycle manager that brings the nodes up and
      down, and the control nodes of the behavior tree;
    - localization (robot_localization): the filter base, the extended and the
      unscented Kalman filters, the queue and history of measurements of the
      filter node, and the estimator that answers for past and future times;
      and the particle filter of nav2_amcl with its histogram, a k-d tree;
    - the packets of the lidar (Livox-SDK2): framing, checksums, sequence
      numbers.

    ** Files

    - Prelude.v (this file): machine integers as [Z] with their wrap-around
      ([u8], [u16], [u32], [s32]), arrays as lists accessed through a checked
      [Z] index ([aget], [aset]: [None] is an access out of range), the loops
      [loop] and [for_range] with their invariant rules, and the tactics and
      hint databases the other files use.
    - Floats.v, FloatOrder.v: [double] and [float] as the [spec_float] of the
      Standard Library, with the comparisons, the conversions to integers
      (undefined when the value does not fit), and when rounded sums keep the
      order.
    - Bresenham.v: the error accumulator of the line walks, in closed form, and
      the properties of the sequences of cells it gives; shared by the 2D walk
      of Costmap2D.v and the 3D walk of VoxelGrid.v.
    - VoxelGrid.v: class VoxelGrid. The record [VoxelGrid] has its sizes and
      the words of its columns; one definition per method.
    - Costmap2D.v: class Costmap2D. [costmap_] is [None] for the NULL pointer.
      The memory [new] returns is filled by the parameter [fresh_byte].
    - Footprint.v: the footprint functions and the distances of costmap_math.
    - LineIterator.v: the line iterator of nav2_util. CollisionChecker.v: the
      footprint checker of nav2_costmap_2d that walks it, and the grid checker
      of nav2_smac_planner built on it.
    - CostmapLayer.v: the base class of the layers: bounds and the four merges.
    - LayeredCostmap.v: class LayeredCostmap, over any type of layers of the
      class [LayerOps] (the virtual methods of layer.hpp) that satisfies the
      laws [LayerLaws] (what a layer may change, and when it is ready to update
      its bounds); layers of two classes make layers of their sum type.
    - ObservationBuffer.v: observations of the sensors and class
      ObservationBuffer, against a clock read once per call of [now].
      ObstacleLayer.v: class ObstacleLayer over these buffers; it is a layer
      together with the number of the next reading of the clock. VoxelLayer.v:
      class VoxelLayer, an obstacle layer with a voxel grid; [voxel_step] is one
      event and [reaches] its reachable states.
    - Messages.v: the messages and every overload of validateMsg.
    - StaticLayer.v, Denoise.v, InflationLayer.v: the classes of these layers,
      each, as ObstacleLayer.v, an instance of [LayerOps] and [LayerLaws]. LabelTrees.v is the
      union-find of the denoise layer, Components.v its connected components
      (denoise/image_processing.hpp).
    - NavFn.v, NavFnPath.v: class NavFn: cost translation, the propagation by
      Dijkstra and A* over the three priority buffers, then gradients and path
      extraction.
    - ThetaStar.v: class ThetaStar (nav2_theta_star_planner/theta_star.cpp),
      where a pointer to a node is its position in [nodes_data_], and its lines
      of sight. ThetaStarSearch.v: the invariant of its search.
      ThetaStarPlanner.v: the plugin (theta_star_planner.cpp).
    - PriorityQueue.v: [std::priority_queue] as an interface with laws.
      RouteTypes.v: the graph of the route server. RoutePlanner.v: the search;
      the nodes of the graph carry its state. RouteScorers.v: the scorers of
      edges by distance, penalty and dynamic closure, and the composition.
    - ActionServer.v: class SimpleActionServer: [step] is one event (a callback
      of ROS, a test of the worker, an operation of the user's callback) under
      the mutex; the goal handles of rclcpp_action are an interface.
    - LifecycleManager.v: class LifecycleManager and the service clients it
      calls. The record [Sys] joins the manager, the world (class [World]: the
      nodes, bonds, clock and context) and the calls made so far; [handle] runs
      a callback and [step] is one event of the service thread.
    - ControlNodes.v: classes RecoveryNode, RoundRobinNode and PipelineSequence
      ([recovery_tick], [rr_tick], [ps_tick] and the halts) over children of
      the class [ControlNode], with the trace of what was asked of them.
    - FilterBase.v: class FilterBase, over the matrices of Eigen (class [Eigen]
      with the sizes as laws) and the trigonometry of the C library; the virtual
      methods of a filter are the class [Filter] with [FilterLaws]. Ekf.v and
      Ukf.v are its two instances. RosFilter.v: the queue, the history and the
      integration of the filter node. Estimator.v: the estimator over a filter
      and a circular buffer. FilterNodes.v: concrete nodes, on which the
      theorems of these files are applied.
    - KdTree.v: pf/pf_kdtree.c. Pointers to nodes are indices in the array of
      nodes. ParticleFilter.v: pf/pf.c and pf/pf_vector.c. The two sample sets
      are a list indexed by [current_set]; the random generator and the
      callbacks are functions on a state [G].
    - CrcTables.v, Crc.v: the checksums of FastCRC. SdkProtocol.v: packing and
      parsing of packets, sequence numbers.

    ** Conventions

    Undefined behaviour (an index out of an array, a NULL pointer, a
    conversion of a number that does not fit) and exceptions the code does not
    catch make a function return [None]; where the source distinguishes, an
    exception is a value of its own ([answer] in LifecycleManager.v, the
    outcomes of RoutePlanner.v). So a theorem that ends in [Some] also says that
    nothing undefined happened.

    A loop that is not a plain iteration is [loop fuel body], where [None]
    means that the rounds ran out. The fuel is an explicit bound and a theorem
    shows that it is enough (so that a theorem never speaks only of the runs
    that end): the exchange sort of the polygon fill has n * n + n
    + 1 rounds for n cells, more than its measure of inversions and position;
    its scans have one round per cell or column left, plus the last test; the
    rows of a window one per row; the bit counts 33, one more than the bits; the
    propagations one round per cycle allowed and the path one per point allowed,
    which are the bounds of the source itself; the recovery node two rounds per
    retry left, the round robin node one per child that has not failed, the
    pipeline one per child; the route search one more than the iterations
    allowed, its walk back two more than the nodes; a checksum one more than
    the bytes; an integration one per measurement queued, plus the last test; a
    bin of the inflation its length and four per cell not yet seen, since a
    visit adds at most four; a descent in the histogram tree two more than its
    nodes, which exceeds its height and, for the recursive labelling, its
    leaves; the resampling one more than the samples wanted; a line of the
    iterator a round per pixel and the last test; a line of sight one per cell
    of its longer axis and the last test, the walk back of the Theta* search
    two more than its nodes. The rounds of that search have no bound in the
    source: the theorem gives one, the costs that the nodes may still lose.

    Functions of the C library that IEEE 754 does not determine ([hypot],
    [hypotf], [exp], [sin], [cos]), fresh memory, what lies past the end of a
    table that the code may read, the transforms of tf2 and the decompositions
    of Eigen are parameters, with no hypothesis on them except where a theorem
    says so. The inflation supposes [hypot_cells]: compared with the radius,
    [hypot] of two small integers is on the side of the exact distance.

    ** What is shown

    - VoxelGrid.v: the operations refine pointwise updates of an abstract 3D
      map ([voxel_ops_refine]); the walk visits an explicit list of cells next
      to the ideal line ([raytraceLine_visits], [voxel_line_refines]); columns
      are classified by their counts, and the bit tricks count bits.
    - Costmap2D.v: what each window operation writes and that it writes nothing
      else; the rolling origin ([updateOrigin_scrolls]); polygon filling stays
      on the map and covers the outline ([setConvexPolygonCost_fills]) with a
      sort that ends and sorts; conversions between coordinates and indices.
    - Footprint.v: the two distances bound every vertex and edge.
    - CollisionChecker.v: the iterator visits the cells of the ray tracing, and
      the cost of a footprint is the largest one on its outline
      ([footprintCost_outline]), except that an unknown cell can hide the
      obstacles of other edges ([unknown_hides_collision]).
    - CostmapLayer.v: the four merges cell by cell, their order independence
      for the maximum, clearing and extra bounds.
    - LayeredCostmap.v: the invariant of the grids and layers is established by
      resizing and kept by updating, and an update is a window, a merge of the
      plugins, and a merge of the filters into a copy.
    - ObservationBuffer.v, ObstacleLayer.v: an update of the bounds clears what
      the rays of the sensors see through, then marks the points
      ([updateBounds_marks]), inside its array, with a box over the hits, the
      footprint and the origins and ends of the rays;
      two defects of the buffers and of their use ([late_cloud_empties_buffer],
      [silent_source_stops_clearing]). VoxelLayer.v: the costmap stays the
      projection of the voxels ([voxel_projection]) and an update leaves its
      points marked ([updateBounds_shows_hits]).
    - Messages.v, StaticLayer.v: what an accepted message is, how its data
      become costs, partial updates, and the parameters.
    - Components.v, Denoise.v: two obstacles get the same label exactly when
      they are connected ([connectedComponents_correct]), and the layer removes
      exactly the groups below its size ([updateCosts_denoises]). The code may
      read a vector past the size it was shrunk to; both theorems hold where no
      such read happens, whatever it gives, and otherwise where it gives the
      old element.
    - InflationLayer.v: the levels of the bins follow the exact distances, the
      expansion ends and stays in its tables, and which obstacle each cell is
      inflated from ([updateCosts_inflates]); the inflation is approximate
      ([inflation_gap]).
    - NavFn.v, NavFnPath.v: both propagations are free of out-of-range accesses
      on every cost array and keep the invariant of the buffers, all three
      empty when Dijkstra's answers true without having reached the start; the
      path
      extraction ends and ends at the goal, or reports failure.
    - ThetaStar.v, ThetaStarSearch.v, ThetaStarPlanner.v: the line of sight
      tests the cells that a segment crosses ([losCheck_supercover]); the search
      ends, in its arrays, with a chain of cells in sight
      ([generatePath_plans]), which becomes a plan from the start to the goal
      ([createPlan_arrives]). They suppose costs that are not negative, a
      passable start, room for the nodes, a first row whose passable cells see
      each other, and a heap that only rearranges its pointers although the
      search changes their keys, which the standard leaves undefined.
    - RoutePlanner.v: a route found is a path of the graph of least cost among
      all paths ([findRoute_optimal]), for scores without rounding surprises;
      the search ends and leaves the queue empty ([findShortestGraphTraversal_safe]).
    - ActionServer.v: safety over every interleaving, the end of every goal
      that runs under a fair schedule, and of every pending one when there is a
      completion callback ([every_goal_ends]), and two interleavings that lose
      a goal.
    - LifecycleManager.v: safety over every sequence of events, the order of
      bring-up and take-down, the reaction to a broken bond, and the two cases
      in which the manager does not do what its comments promise.
    - ControlNodes.v: every tick ends; what each status means, in terms of what
      the children answered since the last reset.
    - Ekf.v, Ukf.v, FilterBase.v: no access of predict and correct is out of
      range, sizes are kept, components that are not finite are ignored.
      RosFilter.v: measurements that arrive late are fused as if they had come
      in order ([lagged_data_in_order], [arrival_order_irrelevant]), with
      smooth_lagged_data on, use_control and predict_to_current_time off, a
      history that covers the delay, and ROS up during the loop. Estimator.v:
      the buffer stays in order and what a lookup answers.
    - KdTree.v: the tree refines a finite map from cells to weights in an array
      of nodes that is large enough ([histogram_refines]), and the clusters are
      the connected components of its cells ([pf_kdtree_cluster_components]).
      ParticleFilter.v: allocation and initialisation establish the invariant
      ([pf_alloc_init_ready]), what the sensor update does to the weights, and
      when resampling passes its assertions ([pf_update_resample_safe]) and
      when it does not ([pf_update_resample_asserts]).
    - Crc.v, SdkProtocol.v: the tables compute the polynomials, a packet packed
      is parsed back, a corrupted one is rejected.

    Some of the theorems record behaviour that the authors did not intend:
    [calcPath_border_unsafe], [clearing_parameter_ignored],
    [validateMsg_sound] (its overflow case), [worldToMap_bounds] (the index
    one past the last), [hard_reset_scope], [shutdown_disables_manager],
    [inflation_gap], [pending_goal_lost], [deactivate_strands_goals],
    [short_history_repeats], [yaw_wraps_first_axis], [ukf_ignores_control],
    [pf_update_resample_asserts], [unknown_hides_collision],
    [silent_source_stops_clearing], [late_cloud_empties_buffer],
    [plan_through_obstacle], [goal_popped_last], [losCheck_reads_below],
    [corners_unchecked].

    ** What is not modelled

    Log output, debug printing and files; mutexes and threads (each class is
    used by one thread at a time, and the callbacks of the lifecycle manager
    are in a mutually exclusive group), except in the action server, whose steps
    interleave; subscriptions and parameters declarations of ROS. Of the other
    parts of the repository, FAST-LIO, the sensor and motion models of the
    particle filter and its Gaussian sampler, the controllers and the smoothers
    are numeric code over matrices and trigonometry; the servers,
    publishers, drivers and visual tools are calls of ROS and of the devices;
    the RTK nodes, launch files and tests are Python, and rapidjson, spdlog are
    third-party code. What remains to be added, in this order: the tracker
    of the route server, the decorators of the behavior tree, and the sensor
    callbacks of the filter node. *)

From stdpp Require Export prelude.
From Stdlib Require Export ZArith Lia.

#[global] Open Scope Z_scope.

(** ** Machine integers

    A C++ integer is a [Z]; every operation the source performs modulo [2^w]
    is written with the wrap-around below. *)

Definition u8 (z : Z) : Z := z mod 2 ^ 8.
Definition u16 (z : Z) : Z := z mod 2 ^ 16.
Definition u32 (z : Z) : Z := z mod 2 ^ 32.

(** Conversion of a 32-bit pattern to [int] (two's complement). *)
Definition s32 (z : Z) : Z :=
  let m := z mod 2 ^ 32 in if m <? 2 ^ 31 then m else m - 2 ^ 32.

Definition is_u8 (z : Z) : Prop := 0 <= z < 2 ^ 8.
Definition is_u16 (z : Z) : Prop := 0 <= z < 2 ^ 16.
Definition is_u32 (z : Z) : Prop := 0 <= z < 2 ^ 32.
Definition is_s32 (z : Z) : Prop := - 2 ^ 31 <= z < 2 ^ 31.

(** An [int]; its overflow is undefined. *)
Definition checked_s32 (z : Z) : option Z := if bool_decide (is_s32 z) then Some z else None.
Lemma checked_s32_ok z : is_s32 z -> checked_s32 z = Some z.
Proof. intros Hz. unfold checked_s32. by rewrite bool_decide_eq_true_2. Qed.

(** Unfolds the width predicates and conversions everywhere. *)
Ltac unfold_ints := unfold u8, u16, u32, s32, is_u8, is_u16, is_u32, is_s32 in *.

(** Arithmetic with the powers of two of the machine widths made literal. *)
Ltac ilia :=
  unfold_ints;
  change (2 ^ 8) with 256 in *; change (2 ^ 16) with 65536 in *;
  change (2 ^ 31) with 2147483648 in *; change (2 ^ 32) with 4294967296 in *;
  try lia; try (Z.div_mod_to_equations; lia).

(** Turns every boolean integer comparison of the context and the goal into
    the proposition it decides. *)
Ltac zbool :=
  repeat first
    [ rewrite andb_true_iff in * | rewrite andb_false_iff in *
    | rewrite orb_true_iff in * | rewrite orb_false_iff in *
    | rewrite negb_true_iff in * | rewrite negb_false_iff in *
    | rewrite Z.ltb_lt in * | rewrite Z.ltb_ge in *
    | rewrite Z.leb_le in * | rewrite Z.leb_gt in *
    | rewrite Z.eqb_eq in * | rewrite Z.eqb_neq in *
    | rewrite Z.gtb_lt in * | rewrite Z.geb_le in * ].

(** A closed range fact, by computation. *)
Ltac closed_range := vm_compute; split; [discriminate | reflexivity].

(** Case analysis on every comparison a goal branches on. *)
Ltac zcases :=
  repeat match goal with
    | |- context [if ?a <? ?b then _ else _] => destruct (Z.ltb_spec a b)
    | |- context [if ?a <=? ?b then _ else _] => destruct (Z.leb_spec a b)
    | |- context [if ?a =? ?b then _ else _] => destruct (Z.eqb_spec a b)
    end.

Lemma u32_small (z : Z) : is_u32 z -> u32 z = z.
Proof. intros H. unfold u32. apply Z.mod_small. exact H. Qed.

Lemma u16_small (z : Z) : is_u16 z -> u16 z = z.
Proof. intros H. unfold u16. apply Z.mod_small. exact H. Qed.

Lemma s32_small (z : Z) : is_s32 z -> s32 z = z.
Proof. intros H. unfold s32. ilia. destruct (Z.ltb_spec (z mod 4294967296) 2147483648); Z.div_mod_to_equations; lia. Qed.

Lemma u32_range (z : Z) : is_u32 (u32 z).
Proof. ilia. Qed.

Lemma u32_u32 (z : Z) : u32 (u32 z) = u32 z.
Proof. apply u32_small, u32_range. Qed.

Lemma u32_add_l (a b : Z) : u32 (u32 a + b) = u32 (a + b).
Proof. unfold u32. apply Zplus_mod_idemp_l. Qed.

Lemma u32_add_r (a b : Z) : u32 (a + u32 b) = u32 (a + b).
Proof. unfold u32. apply Zplus_mod_idemp_r. Qed.

Lemma u32_mul_l (a b : Z) : u32 (u32 a * b) = u32 (a * b).
Proof. unfold u32. apply Zmult_mod_idemp_l. Qed.

Lemma u32_mul_r (a b : Z) : u32 (a * u32 b) = u32 (a * b).
Proof. unfold u32. apply Zmult_mod_idemp_r. Qed.

Lemma u32_s32 (z : Z) : u32 (s32 z) = u32 z.
Proof.
  unfold s32, u32. destruct (Z.ltb_spec (z mod 2 ^ 32) (2 ^ 31)).
  - apply Z.mod_mod. lia.
  - replace (z mod 2 ^ 32 - 2 ^ 32) with (z mod 2 ^ 32 + (-1) * 2 ^ 32) by lia.
    rewrite Z.mod_add by lia. apply Z.mod_mod. lia.
Qed.

Create HintDb ints.
Create Rewrite HintDb int_wrap.
#[export] Hint Rewrite u32_u32 u32_add_l u32_add_r u32_mul_l u32_mul_r u32_s32 : int_wrap.
#[export] Hint Resolve u32_range : ints.

(** A product index [y * w + x] determines its row and its column. *)
Lemma index_div (w x y : Z) : 0 <= x < w -> (y * w + x) / w = y.
Proof. intros H. rewrite Z.div_add_l by lia. rewrite Z.div_small by lia. lia. Qed.

Lemma index_mod (w x y : Z) : 0 <= x < w -> (y * w + x) mod w = x.
Proof.
  intros H. rewrite Z.add_comm, Z.mod_add by lia. apply Z.mod_small. lia.
Qed.

Lemma index_inj (w x y x' y' : Z) :
  0 <= x < w -> 0 <= x' < w -> y * w + x = y' * w + x' -> x = x' /\ y = y'.
Proof.
  intros Hx Hx' He.
  pose proof (index_div w x y Hx) as H1. pose proof (index_div w x' y' Hx') as H2.
  rewrite He, H2 in H1. subst. lia.
Qed.

Lemma index_bound (w h x y : Z) :
  0 <= x < w -> 0 <= y < h -> 0 <= y * w + x < w * h.
Proof. nia. Qed.

(** ** Undefined behaviour

    An operation the language leaves undefined (an access out of the bounds of
    an array, a conversion of a floating point value that does not fit) has no
    result: the models return [None] there. [assert_ub b] is the test that the
    operation is defined. *)

Definition assert_ub (b : bool) : option unit := if b then Some tt else None.

Lemma assert_ub_true (b : bool) : b = true -> assert_ub b = Some tt.
Proof. intros ->. reflexivity. Qed.

(** ** Arrays

    An array is the list of its cells, indexed by a C++ integer. *)

Definition alen {A} (l : list A) : Z := Z.of_nat (length l).

Definition in_array {A} (l : list A) (i : Z) : bool := (0 <=? i) && (i <? alen l).

Definition aget {A} (l : list A) (i : Z) : option A :=
  if in_array l i then l !! Z.to_nat i else None.

Definition aset {A} (l : list A) (i : Z) (x : A) : option (list A) :=
  if in_array l i then Some (<[Z.to_nat i := x]> l) else None.

Definition anew {A} (n : Z) (x : A) : list A := replicate (Z.to_nat n) x.

Section arrays.
Context {A : Type}.
Implicit Types (l : list A) (i j : Z) (x y : A).

Lemma in_array_spec l i : in_array l i = true <-> 0 <= i < alen l.
Proof. unfold in_array. zbool. tauto. Qed.

Lemma aget_bounds l i x : aget l i = Some x -> 0 <= i < alen l.
Proof.
  unfold aget. destruct (in_array l i) eqn:E; [|done].
  intros _. by apply in_array_spec.
Qed.

Lemma aget_is_Some l i : 0 <= i < alen l -> exists x, aget l i = Some x.
Proof.
  intros H. unfold aget. rewrite (proj2 (in_array_spec l i) H).
  apply lookup_lt_is_Some. unfold alen in H. lia.
Qed.

Lemma aset_Some l i x : 0 <= i < alen l -> aset l i x = Some (<[Z.to_nat i := x]> l).
Proof. intros H. unfold aset. by rewrite (proj2 (in_array_spec l i) H). Qed.

Lemma aset_inv l i x l' :
  aset l i x = Some l' -> 0 <= i < alen l /\ l' = <[Z.to_nat i := x]> l.
Proof.
  unfold aset. destruct (in_array l i) eqn:E; [|done].
  intros [= <-]. split; [by apply in_array_spec | done].
Qed.

Lemma aset_is_Some l i x : 0 <= i < alen l -> exists l', aset l i x = Some l'.
Proof. intros Hi. eexists. by apply aset_Some. Qed.

Lemma aset_len l i x l' : aset l i x = Some l' -> alen l' = alen l.
Proof. intros [_ ->]%aset_inv. unfold alen. by rewrite length_insert. Qed.

Lemma aget_aset l i x l' j :
  aset l i x = Some l' -> aget l' j = if i =? j then Some x else aget l j.
Proof.
  intros H. pose proof (aset_len _ _ _ _ H) as Hl.
  apply aset_inv in H as [Hb ->].
  unfold aget, in_array. rewrite Hl.
  destruct (Z.eqb_spec i j) as [<-|Hne].
  - rewrite (proj2 (Z.leb_le 0 i)), (proj2 (Z.ltb_lt i (alen l))) by lia. simpl.
    apply list_lookup_insert_eq. unfold alen in Hb. lia.
  - destruct ((0 <=? j) && (j <? alen l)) eqn:E; [|done]. zbool.
    apply list_lookup_insert_ne. lia.
Qed.

Lemma alen_anew (n : Z) x : 0 <= n -> alen (anew n x) = n.
Proof. intros H. unfold alen, anew. rewrite length_replicate. lia. Qed.

Lemma aget_anew (n : Z) x i : 0 <= i < n -> aget (anew n x) i = Some x.
Proof.
  intros H. unfold aget, in_array. rewrite alen_anew by lia.
  rewrite (proj2 (Z.leb_le 0 i)), (proj2 (Z.ltb_lt i n)) by lia. simpl.
  apply lookup_replicate_2. lia.
Qed.

Lemma aget_cons_0 l x : aget (x :: l) 0 = Some x.
Proof. done. Qed.

Lemma aget_cons_S l x k : 0 <= k -> aget (x :: l) (k + 1) = aget l k.
Proof.
  intros H. unfold aget, in_array, alen. simpl length.
  rewrite (proj2 (Z.leb_le 0 k)), (proj2 (Z.leb_le 0 (k + 1))) by lia. simpl.
  destruct (Z.ltb_spec k (Z.of_nat (length l))), (Z.ltb_spec (k + 1) (Z.of_nat (S (length l))));
    try lia; [|done].
  by replace (Z.to_nat (k + 1)) with (S (Z.to_nat k)) by lia.
Qed.

Lemma aget_app_l l1 l2 k : k < Z.of_nat (length l1) -> aget (l1 ++ l2) k = aget l1 k.
Proof.
  intros H. unfold aget, in_array, alen. rewrite length_app.
  destruct (Z.leb_spec 0 k); simpl; [|done].
  rewrite (proj2 (Z.ltb_lt k (Z.of_nat (length l1)))), (proj2 (Z.ltb_lt k _)) by lia.
  apply lookup_app_l. lia.
Qed.

Lemma aget_snoc l x j y : aget (l ++ [x]) j = Some y -> aget l j = Some y \/ j = alen l /\ y = x.
Proof.
  intros E. pose proof (aget_bounds _ _ _ E) as Hb. unfold alen in Hb. rewrite length_app in Hb. cbn in Hb.
  destruct (decide (j < alen l)) as [Hj|Hj]; [left; by rewrite aget_app_l in E|right].
  assert (j = alen l) as -> by (unfold alen in *; lia). split; [done|].
  unfold aget in E. rewrite (proj2 (in_array_spec _ _)) in E by (unfold alen; rewrite length_app; cbn; lia).
  unfold alen in E. rewrite Nat2Z.id, lookup_app_r in E by lia. rewrite Nat.sub_diag in E. by injection E.
Qed.

Lemma aget_elem l k x : aget l k = Some x -> x ∈ l.
Proof.
  unfold aget. destruct (in_array l k); [|done]. intros H.
  apply list_elem_of_lookup. by eexists.
Qed.

Lemma elem_aget l x : x ∈ l -> exists k, aget l k = Some x.
Proof.
  intros [k Hk]%list_elem_of_lookup. exists (Z.of_nat k). unfold aget.
  pose proof (lookup_lt_Some _ _ _ Hk). rewrite (proj2 (in_array_spec l _)), Nat2Z.id
    by (unfold alen; lia). done.
Qed.

Lemma Forall_aget (P : A -> Prop) l : Forall P l <-> forall i x, aget l i = Some x -> P x.
Proof.
  rewrite Forall_forall. split; [intros H i x Hx; by apply H, (aget_elem _ i)|]. intros H x (i & Hi)%elem_aget. by apply (H i).
Qed.

Lemma alen_nonneg l : 0 <= alen l.
Proof. unfold alen. lia. Qed.

(** Two arrays of the same length with the same cells are equal. *)
Lemma aget_ext l1 l2 :
  alen l1 = alen l2 -> (forall i, 0 <= i < alen l1 -> aget l1 i = aget l2 i) -> l1 = l2.
Proof.
  intros Hl H. apply list_eq. intros n.
  destruct (decide (n < length l1)%nat) as [Hn|Hn].
  - specialize (H (Z.of_nat n)). unfold aget in H.
    rewrite (proj2 (in_array_spec l1 _)), (proj2 (in_array_spec l2 _)), Nat2Z.id in H
      by (unfold alen in *; lia).
    apply H. unfold alen; lia.
  - rewrite !lookup_ge_None_2; [done | unfold alen in *; lia | lia].
Qed.
End arrays.

Lemma aget_fmap {A B} (f : A -> B) (l : list A) i : aget (f <$> l) i = f <$> aget l i.
Proof. unfold aget, in_array, alen. rewrite length_fmap. destruct (_ && _); [apply list_lookup_fmap|done]. Qed.

(** The cell of an index known to be in the array; 0 out of it. *)
Definition lget (l : list Z) (i : Z) : Z := default 0 (aget l i).

Lemma aget_lget l i : 0 <= i < alen l -> aget l i = Some (lget l i).
Proof. intros Hi. unfold lget. by destruct (aget_is_Some l i Hi) as [x ->]. Qed.

Lemma lget_aset l i x l' j : aset l i x = Some l' -> lget l' j = if i =? j then x else lget l j.
Proof. intros E. unfold lget. rewrite (aget_aset _ _ _ _ j E). by destruct (i =? j). Qed.

#[export] Hint Resolve alen_nonneg : ints.

(** ** Loops *)

(** [for_up n i body s]: [n] rounds of a loop whose counter starts at [i]. *)
Fixpoint for_up {S} (n : nat) (i : Z) (body : Z -> S -> option S) (s : S) : option S :=
  match n with
  | O => Some s
  | S n => s' ← body i s; for_up n (i + 1) body s'
  end.

(** [for (i = lo; i < hi; ++i) body]. *)
Definition for_range {S} (lo hi : Z) (body : Z -> S -> option S) (s : S) : option S :=
  for_up (Z.to_nat (hi - lo)) lo body s.

(** What a round of a loop with early exits does. *)
Inductive ctl (S : Type) : Type :=
| Next (s : S)
| Break (s : S).
Arguments Next {S} _.
Arguments Break {S} _.

(** [while (true) body] with at most [fuel] rounds; [None] when they run out. *)
Fixpoint loop {S} (fuel : nat) (body : S -> option (ctl S)) (s : S) : option S :=
  match fuel with
  | O => None
  | S fuel =>
      c ← body s;
      match c with Next s' => loop fuel body s' | Break s' => Some s' end
  end.

Section loops.
Context {S : Type}.

Lemma for_up_inv (P : Z -> S -> Prop) (body : Z -> S -> option S) (n : nat) (i : Z) (s : S) :
  P i s ->
  (forall j t, i <= j < i + Z.of_nat n -> P j t -> exists t', body j t = Some t' /\ P (j + 1) t') ->
  exists s', for_up n i body s = Some s' /\ P (i + Z.of_nat n) s'.
Proof.
  revert i s. induction n as [|n IH]; intros i s Hi Hb; simpl.
  - exists s. split; [done|]. by replace (i + Z.of_nat 0) with i by lia.
  - destruct (Hb i s ltac:(lia) Hi) as (s1 & -> & H1). simpl.
    destruct (IH (i + 1) s1 H1) as (s' & E & H').
    + intros j t Hj. apply Hb. lia.
    + exists s'. split; [done|]. by replace (i + Z.of_nat (Datatypes.S n)) with (i + 1 + Z.of_nat n) by lia.
Qed.

(** Invariant rule of a counting loop: it runs to the end. *)
Lemma for_range_inv (P : Z -> S -> Prop) (body : Z -> S -> option S) (lo hi : Z) (s : S) :
  lo <= hi -> P lo s ->
  (forall i t, lo <= i < hi -> P i t -> exists t', body i t = Some t' /\ P (i + 1) t') ->
  exists s', for_range lo hi body s = Some s' /\ P hi s'.
Proof.
  intros Hle H0 Hb. unfold for_range.
  destruct (for_up_inv P body (Z.to_nat (hi - lo)) lo s H0) as (s' & E & H').
  - intros j t Hj. apply Hb. lia.
  - exists s'. split; [done|]. by replace (lo + Z.of_nat (Z.to_nat (hi - lo))) with hi in H' by lia.
Qed.

(** Invariant rule of a counting loop known to have finished. *)
Lemma for_up_post (P : Z -> S -> Prop) (body : Z -> S -> option S) (n : nat) (i : Z) (s s' : S) :
  for_up n i body s = Some s' -> P i s ->
  (forall j t t', i <= j < i + Z.of_nat n -> P j t -> body j t = Some t' -> P (j + 1) t') ->
  P (i + Z.of_nat n) s'.
Proof.
  revert i s. induction n as [|n IH]; intros i s E Hi Hb; simpl in E.
  - injection E as ->. by replace (i + Z.of_nat 0) with i by lia.
  - destruct (body i s) as [s1|] eqn:E1; [|done]. simpl in E.
    replace (i + Z.of_nat (Datatypes.S n)) with (i + 1 + Z.of_nat n) by lia.
    eapply IH; [exact E| |].
    + eapply Hb; [|exact Hi|exact E1]. lia.
    + intros j t t' Hj. apply Hb. lia.
Qed.

Lemma for_range_post (P : Z -> S -> Prop) (body : Z -> S -> option S) (lo hi : Z) (s s' : S) :
  lo <= hi -> for_range lo hi body s = Some s' -> P lo s ->
  (forall i t t', lo <= i < hi -> P i t -> body i t = Some t' -> P (i + 1) t') ->
  P hi s'.
Proof.
  intros Hle E H0 Hb. replace hi with (lo + Z.of_nat (Z.to_nat (hi - lo))) by lia.
  eapply for_up_post; [exact E|exact H0|]. intros j t t' Hj. apply Hb. lia.
Qed.

Lemma for_range_nil (body : Z -> S -> option S) (lo hi : Z) (s : S) :
  hi <= lo -> for_range lo hi body s = Some s.
Proof. intros H. unfold for_range. by replace (Z.to_nat (hi - lo)) with O by lia. Qed.

(** The first round of a counting loop, split off. *)
Lemma for_range_step (body : Z -> S -> option S) (lo hi : Z) (s : S) :
  lo < hi -> for_range lo hi body s = s' ← body lo s; for_range (lo + 1) hi body s'.
Proof.
  intros H. unfold for_range.
  replace (Z.to_nat (hi - lo)) with (Datatypes.S (Z.to_nat (hi - (lo + 1)))) by lia.
  reflexivity.
Qed.

(** Termination and invariant rule of a [while] loop: every round that goes
    on decreases the measure [m], so [fuel > m s] rounds are enough. *)
Lemma loop_inv (I Q : S -> Prop) (m : S -> nat) (body : S -> option (ctl S)) :
  (forall s, I s -> exists c, body s = Some c /\
     match c with Next s' => I s' /\ (m s' < m s)%nat | Break s' => Q s' end) ->
  forall fuel s, I s -> (m s < fuel)%nat -> exists s', loop fuel body s = Some s' /\ Q s'.
Proof.
  intros Hb. induction fuel as [|fuel IH]; intros s Hs Hm; [lia|]. simpl.
  destruct (Hb s Hs) as ([s'|s'] & -> & H); simpl.
  - destruct H as [H Hlt]. apply IH; [done|lia].
  - by exists s'.
Qed.

(** Invariant rule of a [while] loop known to have finished. *)
Lemma loop_post (I Q : S -> Prop) (body : S -> option (ctl S)) :
  (forall s c, I s -> body s = Some c ->
     match c with Next s' => I s' | Break s' => Q s' end) ->
  forall fuel s s', I s -> loop fuel body s = Some s' -> Q s'.
Proof.
  intros Hb. induction fuel as [|fuel IH]; intros s s' Hs E; simpl in E; [done|].
  destruct (body s) as [[t|t]|] eqn:Et; simpl in E; [| |done].
  - eapply IH; [|exact E]. apply (Hb s (Next t) Hs Et).
  - injection E as <-. apply (Hb s (Break t) Hs Et).
Qed.
End loops.

Lemma mbind_Some {A B} (a : A) (f : A -> option B) : Some a ≫= f = f a.
Proof. reflexivity. Qed.

(** Runs the next step of a monadic computation whose head is known. *)
Ltac mred := rewrite ?mbind_Some; cbv beta.

(** [y] is defined at least where [x] is, with the same result. *)
Definition refines {A} (x y : option A) : Prop := forall r, x = Some r -> y = Some r.

Lemma refines_refl {A} (x : option A) : refines x x.
Proof. by intros r. Qed.

Lemma refines_bind {A B} (x y : option A) (f g : A -> option B) : refines x y -> (forall a, refines (f a) (g a)) -> refines (x ≫= f) (y ≫= g).
Proof. intros Hxy Hfg r. destruct x as [a|]; [|done]. rewrite (Hxy a eq_refl). apply Hfg. Qed.

Lemma refines_for_range {S} (f g : Z -> S -> option S) lo hi s : (forall i s, refines (f i s) (g i s)) -> refines (for_range lo hi f s) (for_range lo hi g s).
Proof.
  intros Hb. unfold for_range. generalize (Z.to_nat (hi - lo)). intros n. revert lo s. induction n as [|n IH]; intros lo s; [apply refines_refl|]. apply refines_bind; [apply Hb|intros s'; apply IH].
Qed.

(** Two counting loops side by side. *)
Lemma for_range_rel {S T} (R : Z -> S -> T -> Prop) (f : Z -> S -> option S) (g : Z -> T -> option T) lo hi s t s' t' :
  lo <= hi -> (forall i a b a' b', lo <= i < hi -> R i a b -> f i a = Some a' -> g i b = Some b' -> R (i + 1) a' b') ->
  R lo s t -> for_range lo hi f s = Some s' -> for_range lo hi g t = Some t' -> R hi s' t'.
Proof.
  intros Hle Hb. unfold for_range. assert (E : hi = lo + Z.of_nat (Z.to_nat (hi - lo))) by lia. revert E. generalize (Z.to_nat (hi - lo)). intros n.
  revert lo Hle Hb s t. induction n as [|n IH]; intros lo Hle Hb s t E Hst.
  - cbn. intros [= <-] [= <-]. by replace hi with lo by lia.
  - cbn [for_up]. destruct (f lo s) as [s1|] eqn:E1; [|done]. destruct (g lo t) as [t1|] eqn:E2; [|done]. mred.
    apply (IH (lo + 1)); [lia| |lia|]; [intros i a b a' b' Hi; apply Hb; lia|]. by apply (Hb lo s t); [lia|..].
Qed.

(** Splits a hypothesis that a monadic computation returned. *)
Ltac unbind H :=
  repeat first
    [ apply bind_Some in H; let x := fresh "r" in let E := fresh "E" in destruct H as (x & E & H)
    | progress simplify_option_eq ].

(** ** Memory *)

(** [memset(p + at, value, n)] and [memcpy(dst + di, src + si, n)]: every byte
    must be in its array. *)
Definition memset (l : list Z) (at_ value n : Z) : option (list Z) :=
  for_range 0 n (fun i l => aset l (at_ + i) value) l.
Definition memcpy (dst : list Z) (di : Z) (src : list Z) (si n : Z) : option (list Z) :=
  for_range 0 n (fun i dst => v ← aget src (si + i); aset dst (di + i) v) dst.

Lemma memset_spec l at_ v n :
  0 <= at_ -> 0 <= n -> at_ + n <= alen l ->
  exists l', memset l at_ v n = Some l' /\ alen l' = alen l /\
    forall i, aget l' i = if bool_decide (at_ <= i < at_ + n) then Some v else aget l i.
Proof.
  intros Ha Hn Hl. unfold memset.
  apply (for_range_inv (fun k l' => alen l' = alen l /\
    forall i, aget l' i = if bool_decide (at_ <= i < at_ + k) then Some v else aget l i)
    (fun i l => aset l (at_ + i) v) 0 n l); [lia| |].
  - split; [done|]. intros i. by rewrite bool_decide_eq_false_2 by lia.
  - intros k t Hk [Ht Hg]. pose proof (aset_Some t (at_ + k) v ltac:(lia)) as E.
    eexists. split; [exact E|]. split; [by rewrite (aset_len _ _ _ _ E)|].
    intros i. rewrite (aget_aset _ _ _ _ i E), Hg.
    destruct (Z.eqb_spec (at_ + k) i) as [<-|]; repeat case_bool_decide; done || lia.
Qed.

Lemma memcpy_spec dst di src si n :
  0 <= di -> 0 <= si -> 0 <= n -> di + n <= alen dst -> si + n <= alen src ->
  exists l', memcpy dst di src si n = Some l' /\ alen l' = alen dst /\
    forall i, aget l' i = if bool_decide (di <= i < di + n) then aget src (si + (i - di)) else aget dst i.
Proof.
  intros Hd Hs Hn Hdl Hsl. unfold memcpy.
  apply (for_range_inv (fun k l' => alen l' = alen dst /\
    forall i, aget l' i = if bool_decide (di <= i < di + k) then aget src (si + (i - di)) else aget dst i)
    (fun i dst => v ← aget src (si + i); aset dst (di + i) v) 0 n dst); [lia| |].
  - split; [done|]. intros i. by rewrite bool_decide_eq_false_2 by lia.
  - intros k t Hk [Ht Hg]. destruct (aget_is_Some src (si + k)) as [v Hv]; [lia|]. rewrite Hv. mred.
    pose proof (aset_Some t (di + k) v ltac:(lia)) as E.
    eexists. split; [exact E|]. split; [by rewrite (aset_len _ _ _ _ E)|].
    intros i. rewrite (aget_aset _ _ _ _ i E), Hg.
    destruct (Z.eqb_spec (di + k) i) as [<-|].
    + rewrite bool_decide_eq_true_2 by lia. by replace (si + (di + k - di)) with (si + k) by lia.
    + repeat case_bool_decide; done || lia.
Qed.

Lemma memcpy_nil dst di src si : memcpy dst di src si 0 = Some dst.
Proof. done. Qed.
