(* ===== verification/Floats.v ===== *)
(** IEEE 754 arithmetic: the [double] and [float] of the source, on the
    executable [spec_float] model of the Standard Library (round to nearest,
    ties to even; one quiet NaN). *)

From Corelib Require Export SpecFloat.
From S2P Require Import Prelude.

(** ** binary64 ([double]) *)

Definition f64_prec : Z := 53.
Definition f64_emax : Z := 1024.

Definition fadd (x y : spec_float) : spec_float := SFadd f64_prec f64_emax x y.
Definition fsub (x y : spec_float) : spec_float := SFsub f64_prec f64_emax x y.
Definition fmul (x y : spec_float) : spec_float := SFmul f64_prec f64_emax x y.
Definition fdiv (x y : spec_float) : spec_float := SFdiv f64_prec f64_emax x y.
Definition fsqrt (x : spec_float) : spec_float := SFsqrt f64_prec f64_emax x.

(** Conversion of an integer to [double]. *)
Definition f_of_Z (z : Z) : spec_float := binary_normalize f64_prec f64_emax z 0 false.

(** The literal [m * 2^e]. *)
Definition f_lit (m e : Z) : spec_float := binary_normalize f64_prec f64_emax m e false.

Definition f_zero : spec_float := S754_zero false.
Definition f_one : spec_float := f_of_Z 1.
Definition f_half : spec_float := f_lit 1 (-1).

(** ** binary32 ([float]) *)

Definition f32_prec : Z := 24.
Definition f32_emax : Z := 128.

Definition sadd (x y : spec_float) : spec_float := SFadd f32_prec f32_emax x y.
Definition ssub (x y : spec_float) : spec_float := SFsub f32_prec f32_emax x y.
Definition smul (x y : spec_float) : spec_float := SFmul f32_prec f32_emax x y.
Definition sdiv (x y : spec_float) : spec_float := SFdiv f32_prec f32_emax x y.
Definition ssqrt (x : spec_float) : spec_float := SFsqrt f32_prec f32_emax x.
Definition s_of_Z (z : Z) : spec_float := binary_normalize f32_prec f32_emax z 0 false.

(** Conversion between the two formats: rounding, exact when it fits. *)
Definition f_round (prec emax : Z) (x : spec_float) : spec_float :=
  match x with
  | S754_finite s m e => binary_round prec emax s m e
  | _ => x
  end.
Definition s_of_f (x : spec_float) : spec_float := f_round f32_prec f32_emax x.
Definition f_of_s (x : spec_float) : spec_float := f_round f64_prec f64_emax x.

(** ** Comparisons *)

Definition flt (x y : spec_float) : bool := SFltb x y.
Definition fle (x y : spec_float) : bool := SFleb x y.
Definition fgt (x y : spec_float) : bool := SFltb y x.
Definition fge (x y : spec_float) : bool := SFleb y x.
Definition feq (x y : spec_float) : bool := SFeqb x y.

(** [std::min] and [std::max] return their first argument on a tie. *)
Definition fmin (a b : spec_float) : spec_float := if flt b a then b else a.
Definition fmax (a b : spec_float) : spec_float := if flt a b then b else a.

Definition is_nan (x : spec_float) : bool := match x with S754_nan => true | _ => false end.
Definition is_finite (x : spec_float) : bool :=
  match x with S754_zero _ | S754_finite _ _ _ => true | _ => false end.

(** ** Conversions to integers *)

(** Truncation towards zero; none for an infinity or a NaN. *)
Definition f_trunc (x : spec_float) : option Z :=
  match x with
  | S754_zero _ => Some 0
  | S754_finite s m e =>
      let q := if 0 <=? e then Z.pos m * 2 ^ e else Z.pos m / 2 ^ (- e) in
      Some (if s then - q else q)
  | _ => None
  end.

(** A conversion is defined only when the truncated value fits the type. *)
Definition f_to_u32 (x : spec_float) : option Z :=
  z ← f_trunc x; _ ← assert_ub ((0 <=? z) && (z <? 2 ^ 32)); Some z.
Definition f_to_s32 (x : spec_float) : option Z :=
  z ← f_trunc x; _ ← assert_ub ((- 2 ^ 31 <=? z) && (z <? 2 ^ 31)); Some z.
Definition f_to_u8 (x : spec_float) : option Z :=
  z ← f_trunc x; _ ← assert_ub ((0 <=? z) && (z <? 2 ^ 8)); Some z.

(** [std::ceil], [std::floor] and [std::round] (half away from zero). *)
Definition f_signed_int (s : bool) (z : Z) : spec_float :=
  if z =? 0 then S754_zero s else f_of_Z z.
Definition fceil (x : spec_float) : spec_float :=
  match x with
  | S754_finite s m e =>
      if 0 <=? e then x
      else f_signed_int s (if s then - (Z.pos m / 2 ^ (- e))
                           else - ((- Z.pos m) / 2 ^ (- e)))
  | _ => x
  end.
Definition ffloor (x : spec_float) : spec_float :=
  match x with
  | S754_finite s m e =>
      if 0 <=? e then x
      else f_signed_int s (if s then (- Z.pos m) / 2 ^ (- e) else Z.pos m / 2 ^ (- e))
  | _ => x
  end.
Definition fround (x : spec_float) : spec_float :=
  match x with
  | S754_finite s m e =>
      if 0 <=? e then x
      else
        let q := (2 * Z.pos m + 2 ^ (- e)) / (2 * 2 ^ (- e)) in
        f_signed_int s (if s then - q else q)
  | _ => x
  end.

(** ** Laws *)

Lemma SFcompare_refl x : is_nan x = false -> SFcompare x x = Some Eq.
Proof.
  destruct x as [s|s| |s m e]; simpl; try done; intros _.
  - by destruct s.
  - destruct s; rewrite Z.compare_refl; rewrite Pos.compare_cont_refl; done.
Qed.

Lemma flt_irrefl x : flt x x = false.
Proof.
  unfold flt, SFltb. destruct (is_nan x) eqn:E.
  - by destruct x.
  - by rewrite SFcompare_refl.
Qed.

(** The comparison of two numbers reversed. *)
Lemma SFcompare_antisym x y :
  SFcompare y x = option_map CompOpp (SFcompare x y).
Proof.
  destruct x as [[]|[]| |[] m e], y as [[]|[]| |[] m' e']; simpl; try done;
    rewrite (Z.compare_antisym e e'); destruct (e ?= e'); simpl; try done;
    f_equal; rewrite Pos.compare_cont_antisym; simpl; rewrite ?CompOpp_involutive; done.
Qed.

Lemma flt_asym x y : flt x y = true -> flt y x = false.
Proof.
  unfold flt, SFltb. rewrite (SFcompare_antisym x y).
  destruct (SFcompare x y) as [[]|]; done.
Qed.

(** [x <= y] is [x < y] or equality, on numbers. *)
Lemma fle_flt x y : is_nan x = false -> is_nan y = false -> fle x y = negb (flt y x).
Proof.
  intros Hx Hy. unfold fle, flt, SFleb, SFltb. rewrite (SFcompare_antisym x y).
  destruct (SFcompare x y) as [[]|] eqn:E; try done.
  by destruct x as [[]|[]| |[] m e], y as [[]|[]| |[] m' e'].
Qed.

(** The rank of a number in the order: sign, exponent, mantissa. *)
Definition f_rank (x : spec_float) : Z * Z * Z :=
  match x with
  | S754_infinity true => (-2, 0, 0)
  | S754_finite true m e => (-1, - e, - Z.pos m)
  | S754_finite false m e => (1, e, Z.pos m)
  | S754_infinity false => (2, 0, 0)
  | _ => (0, 0, 0)
  end.

Definition lex3 (a b : Z * Z * Z) : Prop :=
  let '(a1, a2, a3) := a in let '(b1, b2, b3) := b in
  a1 < b1 \/ (a1 = b1 /\ (a2 < b2 \/ (a2 = b2 /\ a3 < b3))).

Lemma flt_rank x y :
  is_nan x = false -> is_nan y = false -> (flt x y = true <-> lex3 (f_rank x) (f_rank y)).
Proof.
  unfold flt, SFltb.
  destruct x as [[]|[]| |[] m e], y as [[]|[]| |[] m' e']; simpl; try done; intros _ _;
    try (split; [done | lia]); try (split; [lia | done]);
    try (change (Pos.compare_cont Eq m m') with (m ?= m')%positive);
    try (destruct (Z.compare_spec e e'), (Pos.compare_spec m m')); simpl;
    split; try done; lia.
Qed.

Lemma flt_nan_l x : flt S754_nan x = false.
Proof. done. Qed.

Lemma flt_nan_r x : flt x S754_nan = false.
Proof. by destruct x as [[]|[]| |[] m e]. Qed.

Lemma flt_not_nan x y : flt x y = true -> is_nan x = false /\ is_nan y = false.
Proof.
  intros H. destruct (is_nan x) eqn:Ex, (is_nan y) eqn:Ey; try done; exfalso;
    (destruct x; try done; destruct y; try done); by rewrite ?flt_nan_r, ?flt_nan_l in H.
Qed.

Lemma flt_trans x y z : flt x y = true -> flt y z = true -> flt x z = true.
Proof.
  intros H1 H2. pose proof (flt_not_nan _ _ H1) as [Hx Hy].
  pose proof (flt_not_nan _ _ H2) as [_ Hz].
  rewrite flt_rank in * by done. unfold lex3 in *.
  destruct (f_rank x) as [[a1 a2] a3], (f_rank y) as [[b1 b2] b3], (f_rank z) as [[c1 c2] c3].
  lia.
Qed.

Lemma fle_refl x : is_nan x = false -> fle x x = true.
Proof. intros H. rewrite fle_flt by done. by rewrite flt_irrefl. Qed.

Lemma fle_trans x y z :
  is_nan x = false -> is_nan y = false -> is_nan z = false ->
  fle x y = true -> fle y z = true -> fle x z = true.
Proof.
  intros Hx Hy Hz. rewrite !fle_flt, !negb_true_iff, <- !not_true_iff_false by done.
  rewrite !flt_rank by done. unfold lex3.
  destruct (f_rank x) as [[a1 a2] a3], (f_rank y) as [[b1 b2] b3], (f_rank z) as [[c1 c2] c3].
  lia.
Qed.

Lemma flt_le x y : flt x y = true -> fle x y = true.
Proof.
  intros H. pose proof (flt_not_nan _ _ H) as [Hx Hy]. rewrite fle_flt by done.
  by rewrite flt_asym.
Qed.

Lemma fle_not_nan x y : fle x y = true -> is_nan x = false /\ is_nan y = false.
Proof.
  unfold fle, SFleb. destruct x as [[]|[]| |[] m e]; try done; destruct y as [[]|[]| |[] m' e']; done.
Qed.

Lemma fle_antisym x y : fle x y = true -> fle y x = true -> feq x y = true.
Proof.
  unfold fle, feq, SFleb, SFeqb. rewrite (SFcompare_antisym x y). by destruct (SFcompare x y) as [[]|].
Qed.

Lemma flt_le_trans x y z :
  flt x y = true -> fle y z = true -> is_nan z = false -> flt x z = true.
Proof.
  intros H1 H2 Hz. pose proof (flt_not_nan _ _ H1) as [Hx Hy].
  rewrite fle_flt, negb_true_iff, <- not_true_iff_false in H2 by done.
  rewrite !flt_rank in * by done. unfold lex3 in *.
  destruct (f_rank x) as [[a1 a2] a3], (f_rank y) as [[b1 b2] b3], (f_rank z) as [[c1 c2] c3].
  lia.
Qed.

(** Adding a zero to a finite nonzero number, or multiplying a finite number
    by a zero, is exact. *)
Lemma fadd_zero_r x s : is_finite x = true -> feq x f_zero = false -> fadd x (S754_zero s) = x.
Proof. destruct x as [[]|[]| |[] m e]; try done. Qed.

Lemma fmul_zero_r x s : is_finite x = true -> exists s', fmul x (S754_zero s) = S754_zero s'.
Proof. destruct x as [t|t| |t m e]; try done; intros _; eexists; reflexivity. Qed.

Lemma fadd_zero_trunc x s : is_finite x = true -> f_trunc (fadd x (S754_zero s)) = f_trunc x.
Proof. destruct x as [[]|[]| |[] m e]; destruct s; try done. Qed.

Lemma f_to_s32_trunc x z : f_trunc x = Some z -> is_s32 z -> f_to_s32 x = Some z.
Proof.
  intros E H. unfold f_to_s32, is_s32 in *. rewrite E. simpl.
  rewrite (proj2 (Z.leb_le _ _)), (proj2 (Z.ltb_lt _ _)) by apply H. done.
Qed.

Lemma f_to_u32_trunc x z : f_trunc x = Some z -> is_u32 z -> f_to_u32 x = Some z.
Proof.
  intros E H. unfold f_to_u32, is_u32 in *. rewrite E. simpl.
  rewrite (proj2 (Z.leb_le _ _)), (proj2 (Z.ltb_lt _ _)) by apply H. done.
Qed.

Lemma f_to_u32_inv x z : f_to_u32 x = Some z -> f_trunc x = Some z /\ is_u32 z.
Proof.
  unfold f_to_u32, is_u32. destruct (f_trunc x) as [t|]; simpl; [|done].
  unfold assert_ub. destruct (_ && _) eqn:B; simpl; [|done]. intros [= <-]. zbool. done.
Qed.

Lemma f_to_s32_inv x z : f_to_s32 x = Some z -> f_trunc x = Some z /\ is_s32 z.
Proof.
  unfold f_to_s32, is_s32. destruct (f_trunc x) as [t|]; simpl; [|done].
  unfold assert_ub. destruct (_ && _) eqn:B; simpl; [|done]. intros [= <-]. zbool. done.
Qed.

Lemma f_trunc_finite x z : f_trunc x = Some z -> is_finite x = true.
Proof. by destruct x. Qed.

(** A zero displacement leaves the truncated value of a finite number alone. *)
Lemma fadd_fmul_zero_trunc x y :
  is_finite x = true -> is_finite y = true -> f_trunc (fadd x (fmul y (f_of_Z 0))) = f_trunc x.
Proof.
  intros Hx Hy. change (f_of_Z 0) with (S754_zero false).
  destruct (fmul_zero_r y false Hy) as [s' ->]. by apply fadd_zero_trunc.
Qed.

(** ** Minimum and maximum *)

Lemma fmin_le_l x y : is_nan x = false -> fle (fmin x y) x = true.
Proof. intros H. unfold fmin. destruct (flt y x) eqn:E; [by apply flt_le | by apply fle_refl]. Qed.
Lemma fmin_le_r x y : is_nan x = false -> is_nan y = false -> fle (fmin x y) y = true.
Proof.
  intros Hx Hy. unfold fmin. destruct (flt y x) eqn:E; [by apply fle_refl|].
  by rewrite fle_flt, E.
Qed.
Lemma fmax_le_l x y : is_nan x = false -> fle x (fmax x y) = true.
Proof. intros H. unfold fmax. destruct (flt x y) eqn:E; [by apply flt_le | by apply fle_refl]. Qed.
Lemma fmax_le_r x y : is_nan x = false -> is_nan y = false -> fle y (fmax x y) = true.
Proof.
  intros Hx Hy. unfold fmax. destruct (flt x y) eqn:E; [by apply fle_refl|].
  by rewrite fle_flt, E.
Qed.
Lemma fmin_not_nan x y : is_nan x = false -> is_nan y = false -> is_nan (fmin x y) = false.
Proof. intros. unfold fmin. by destruct (flt _ _). Qed.
Lemma fmax_not_nan x y : is_nan x = false -> is_nan y = false -> is_nan (fmax x y) = false.
Proof. intros. unfold fmax. by destruct (flt _ _). Qed.

Create HintDb floats.
#[export] Hint Resolve fmin_le_l fmin_le_r fmax_le_l fmax_le_r fmin_not_nan fmax_not_nan : floats.
