(* ===== verification/Bresenham.v ===== *)
(** The integer line walk shared by the grids: the error accumulator of
    Bresenham's algorithm, its closed form, and the sequence of cells it
    visits.  Costmap2D and VoxelGrid instantiate it. *)

From S2P Require Import Prelude.

(** One round of the accumulator: [error_b += abs_db], the test against
    [abs_da], [error_b -= abs_da]; the flag says whether the minor axis moves. *)
Definition bres_step (abs_da abs_db error_b : Z) : bool * Z :=
  let error_b := s32 (u32 error_b + abs_db) in
  if abs_da <=? u32 error_b then (true, s32 (u32 error_b - abs_da)) else (false, error_b).

(** The number of minor moves after [i] rounds, and the error left. *)
Definition minor_moves (abs_da abs_db i : Z) : Z := (abs_da / 2 + i * abs_db) / abs_da.
Definition error_after (abs_da abs_db i : Z) : Z := (abs_da / 2 + i * abs_db) mod abs_da.

(** Runs an action on every element of a list of cells, in order. *)
Fixpoint run_cells {S C} (act : S -> C -> option S) (cells : list C) (s : S) : option S :=
  match cells with
  | [] => Some s
  | c :: cells => s' ← act s c; run_cells act cells s'
  end.

(** The integers [lo, lo+1, .., hi-1]. *)
Definition zrange (lo hi : Z) : list Z := (fun k => lo + Z.of_nat k) <$> seq 0 (Z.to_nat (hi - lo)).

Section accumulator.
Context (da db : Z) (Hda : 0 < da < 2 ^ 31) (Hdb : 0 <= db <= da).

Lemma bres_step_spec e :
  0 <= e < da ->
  bres_step da db e = (bool_decide (da <= e + db), (e + db) mod da).
Proof.
  intros He. unfold bres_step.
  rewrite (u32_small e) by ilia. rewrite u32_s32, u32_small by ilia.
  destruct (Z.leb_spec da (e + db)).
  - rewrite bool_decide_eq_true_2, s32_small by ilia. f_equal.
    apply Z.mod_unique with 1; lia.
  - rewrite bool_decide_eq_false_2, s32_small by ilia. f_equal. symmetry.
    apply Z.mod_small. lia.
Qed.

Lemma error_after_0 : error_after da db 0 = da / 2.
Proof. unfold error_after. rewrite Z.add_0_r. apply Z.mod_small. Z.div_mod_to_equations; lia. Qed.

Lemma minor_moves_0 : minor_moves da db 0 = 0.
Proof. unfold minor_moves. rewrite Z.add_0_r. apply Z.div_small. Z.div_mod_to_equations; lia. Qed.

(** A round advances the closed form by one. *)
Lemma bres_step_after i :
  0 <= i ->
  bres_step da db (error_after da db i)
  = (bool_decide (minor_moves da db (i + 1) = minor_moves da db i + 1),
     error_after da db (i + 1)).
Proof.
  intros Hi. unfold error_after, minor_moves.
  set (t := da / 2 + i * db). replace (da / 2 + (i + 1) * db) with (t + db) by (unfold t; lia).
  rewrite bres_step_spec by (apply Z.mod_pos_bound; lia).
  rewrite Zplus_mod_idemp_l. f_equal. apply bool_decide_ext.
  assert (t = da * (t / da) + t mod da) as Ht by (apply Z.div_mod; lia).
  pose proof (Z.mod_pos_bound t da ltac:(lia)) as Hm.
  split; intros H.
  - symmetry. apply Z.div_unique with (t mod da + db - da); lia.
  - assert (t + db = da * (t / da + 1) + (t + db) mod da) as Ht'
      by (rewrite <- H; apply Z.div_mod; lia).
    pose proof (Z.mod_pos_bound (t + db) da ltac:(lia)). lia.
Qed.

Lemma minor_moves_succ i :
  0 <= i ->
  minor_moves da db (i + 1) = minor_moves da db i + 1
  \/ minor_moves da db (i + 1) = minor_moves da db i.
Proof.
  intros Hi. unfold minor_moves.
  set (t := da / 2 + i * db). replace (da / 2 + (i + 1) * db) with (t + db) by (unfold t; lia).
  pose proof (Z.div_mod t da ltac:(lia)). pose proof (Z.mod_pos_bound t da ltac:(lia)).
  pose proof (Z.div_mod (t + db) da ltac:(lia)). pose proof (Z.mod_pos_bound (t + db) da ltac:(lia)).
  nia.
Qed.

(** The walk never leaves the box of its end points ... *)
Lemma minor_moves_range i : 0 <= i <= da -> 0 <= minor_moves da db i <= db.
Proof.
  intros Hi. unfold minor_moves. split.
  - apply Z.div_pos; [|lia]. assert (0 <= da / 2) by (apply Z.div_pos; lia). nia.
  - assert (da / 2 + i * db < da * (db + 1)).
    { assert (da / 2 < da) by (apply Z.div_lt; lia). nia. }
    assert ((da / 2 + i * db) / da < db + 1) by (apply Z.div_lt_upper_bound; lia). lia.
Qed.

(** ... reaches the far corner after [da] rounds ... *)
Lemma minor_moves_end : minor_moves da db da = db.
Proof.
  unfold minor_moves. rewrite Z.mul_comm, Z.div_add by lia.
  rewrite Z.div_small; [lia|]. Z.div_mod_to_equations; lia.
Qed.

Lemma minor_moves_same i : 0 <= i -> minor_moves da da i = i.
Proof.
  intros Hi. unfold minor_moves. rewrite Z.div_add by lia.
  rewrite Z.div_small; [lia|]. Z.div_mod_to_equations; lia.
Qed.

(** ... and stays within half a cell of the ideal line [i * db / da]. *)
Lemma minor_moves_close i :
  0 <= i -> Z.abs (2 * (minor_moves da db i * da - i * db)) <= da.
Proof.
  intros Hi. unfold minor_moves.
  pose proof (Z.div_mod (da / 2 + i * db) da ltac:(lia)).
  pose proof (Z.mod_pos_bound (da / 2 + i * db) da ltac:(lia)).
  pose proof (Z.div_mod da 2 ltac:(lia)). pose proof (Z.mod_pos_bound da 2 ltac:(lia)).
  lia.
Qed.
End accumulator.

Section ranges.
Lemma zrange_length lo hi : length (zrange lo hi) = Z.to_nat (hi - lo).
Proof. unfold zrange. by rewrite length_fmap, length_seq. Qed.

Lemma elem_of_zrange lo hi i : i ∈ zrange lo hi <-> lo <= i < hi.
Proof.
  unfold zrange. rewrite list_elem_of_fmap. split.
  - intros (k & -> & Hk%elem_of_seq). lia.
  - intros H. exists (Z.to_nat (i - lo)). rewrite elem_of_seq. lia.
Qed.

Lemma zrange_cons lo hi : lo < hi -> zrange lo hi = lo :: zrange (lo + 1) hi.
Proof.
  intros H. unfold zrange.
  replace (Z.to_nat (hi - lo)) with (Datatypes.S (Z.to_nat (hi - (lo + 1)))) by lia.
  simpl. f_equal; [lia|]. rewrite <- fmap_S_seq, <- list_fmap_compose.
  apply list_fmap_ext. intros k ? _. simpl. lia.
Qed.

Lemma zrange_nil lo hi : hi <= lo -> zrange lo hi = [].
Proof. intros H. unfold zrange. by replace (Z.to_nat (hi - lo)) with O by lia. Qed.

Lemma zrange_snoc lo hi : lo <= hi -> zrange lo (hi + 1) = zrange lo hi ++ [hi].
Proof.
  intros H. unfold zrange.
  replace (Z.to_nat (hi + 1 - lo)) with (Z.to_nat (hi - lo) + 1)%nat by lia.
  rewrite seq_app, fmap_app. simpl. do 2 f_equal. lia.
Qed.
End ranges.

Section cells.
Context {S C : Type} (act : S -> C -> option S).

Lemma run_cells_app l1 l2 s :
  run_cells act (l1 ++ l2) s = s' ← run_cells act l1 s; run_cells act l2 s'.
Proof.
  revert s. induction l1 as [|c l1 IH]; intros s; simpl; [done|].
  destruct (act s c); simpl; [apply IH | done].
Qed.

(** Invariant rule: the action is defined on every cell of the walk. *)
Lemma run_cells_inv (I : S -> Prop) (l : list C) (s : S) :
  I s -> (forall c t, c ∈ l -> I t -> exists t', act t c = Some t' /\ I t') ->
  exists s', run_cells act l s = Some s' /\ I s'.
Proof.
  revert s. induction l as [|c l IH]; intros s Hs Hact; simpl; [by exists s|].
  destruct (Hact c s ltac:(set_solver) Hs) as (t & -> & Ht). simpl.
  apply IH; [done|]. intros c' t' Hc'. apply Hact. set_solver.
Qed.

Lemma run_cells_post (I : S -> Prop) (l : list C) (s s' : S) :
  run_cells act l s = Some s' -> I s ->
  (forall c t t', c ∈ l -> I t -> act t c = Some t' -> I t') -> I s'.
Proof.
  revert s. induction l as [|c l IH]; intros s E Hs Hact; simpl in E; [congruence|].
  destruct (act s c) as [t|] eqn:Et; [|done]. simpl in E.
  eapply IH; [exact E| |]; [eapply Hact; [|exact Hs|exact Et]; set_solver|].
  intros c' t1 t2 Hc'. apply Hact. set_solver.
Qed.

(** What each step tells of its cell, if the later steps keep it ([R]). *)
Lemma run_cells_each (I : S -> Prop) (R : S -> S -> Prop) (Q : C -> S -> Prop) (l : list C) (s s' : S) :
  (forall t, R t t) -> (forall t1 t2 t3, R t1 t2 -> R t2 t3 -> R t1 t3) -> (forall c t t', Q c t -> R t t' -> Q c t') ->
  (forall c t t', c ∈ l -> I t -> act t c = Some t' -> I t' /\ R t t' /\ Q c t') ->
  I s -> run_cells act l s = Some s' -> I s' /\ R s s' /\ forall c, c ∈ l -> Q c s'.
Proof.
  intros Hr Ht Hq. revert s. induction l as [|c l IH]; intros s Hact Hs E; simpl in E.
  - injection E as <-. split; [done|]. split; [done|]. intros c Hc. by apply elem_of_nil in Hc.
  - destruct (act s c) as [t|] eqn:Et; [|done]. simpl in E. destruct (Hact c s t ltac:(left) Hs Et) as (H1 & H2 & H3).
    destruct (IH t) as (H4 & H5 & H6); [intros; apply Hact; [by right|done..]|done|done|]. split; [done|]. split; [by eapply Ht|].
    intros c' [->|Hc']%elem_of_cons; [by eapply Hq|by apply H6].
Qed.
End cells.
