(* ===== verification/VoxelGrid.v ===== *)
(** The voxel grid of [nav2_voxel_grid] (voxel_grid.hpp, voxel_grid.cpp): a 3D
    grid whose column is a 32-bit word, the voxel [z] being the pair of bits
    [z] and [z + 16].  Operations, the abstract grid they implement, and the
    3D Bresenham walk. *)

From S2P Require Import Prelude Floats Bresenham.

Inductive VoxelStatus := FREE | UNKNOWN | MARKED.

#[export] Instance VoxelStatus_eq_dec : EqDecision VoxelStatus.
Proof. solve_decision. Defined.

(** The object: its sizes, the columns [data_], and the [costmap] pointer with
    the array it points to ([None]: NULL or not yet set). *)
Record VoxelGrid := mkVoxelGrid {
  size_x_ : Z;
  size_y_ : Z;
  size_z_ : Z;
  data_ : list Z;
  costmap : option (list Z);
}.

Definition set_data (g : VoxelGrid) (d : list Z) : VoxelGrid :=
  mkVoxelGrid (size_x_ g) (size_y_ g) (size_z_ g) d (costmap g).
Definition set_costmap (g : VoxelGrid) (m : option (list Z)) : VoxelGrid :=
  mkVoxelGrid (size_x_ g) (size_y_ g) (size_z_ g) (data_ g) m.

(** ** Bits *)

(** [((uint32_t)1 << z << 16) | (1 << z)]; a shift of 32 or more is undefined. *)
Definition full_mask (z : Z) : option Z :=
  _ ← assert_ub (z <? 32);
  Some (Z.lor (u32 (Z.shiftl (u32 (Z.shiftl 1 z)) 16)) (u32 (Z.shiftl 1 z))).

(** [~m] on 32 bits. *)
Definition not32 (m : Z) : Z := u32 (Z.lnot m).

(** [~((uint32_t)0) >> 16] *)
Definition unknown_col : Z := Z.shiftr (not32 0) 16.

(** The loop of [bitsBelowThreshold]; 33 rounds are enough for 32 bits. *)
Fixpoint bits_below (fuel : nat) (n bit_count bit_threshold : Z) : option bool :=
  match fuel with
  | O => None
  | S fuel =>
      if n =? 0 then Some true
      else
        let bit_count := u32 (bit_count + 1) in
        if bit_threshold <? bit_count then Some false
        else bits_below fuel (Z.land n (u32 (n - 1))) bit_count bit_threshold
  end.

Definition bitsBelowThreshold (n bit_threshold : Z) : option bool :=
  bits_below 33 n 0 bit_threshold.

Fixpoint num_bits (fuel : nat) (n bit_count : Z) : option Z :=
  match fuel with
  | O => None
  | S fuel =>
      if n =? 0 then Some bit_count
      else num_bits fuel (Z.land n (u32 (n - 1))) (u32 (bit_count + 1))
  end.

Definition numBits (n : Z) : option Z := num_bits 33 n 0.

(** The exclusive or of the two 16-bit halves of a column, and its high half. *)
Definition unknown_bits (col : Z) : Z := Z.lxor (u16 (Z.shiftr col 16)) (u16 col).
Definition marked_bits (col : Z) : Z := Z.shiftr col 16.

(** ** Construction *)

Definition new_data (size_x size_y : Z) : list Z := anew (u32 (size_x * size_y)) unknown_col.

Definition VoxelGrid_new (size_x size_y size_z : Z) : VoxelGrid :=
  mkVoxelGrid size_x size_y (if 16 <? size_z then 16 else size_z) (new_data size_x size_y) None.

(** [data_] is overwritten on its first [size_x_ * size_y_] words. *)
Definition reset (g : VoxelGrid) : option VoxelGrid :=
  d ← for_range 0 (u32 (size_x_ g * size_y_ g)) (fun i d => aset d i unknown_col) (data_ g);
  Some (set_data g d).

Definition resize (g : VoxelGrid) (size_x size_y size_z : Z) : option VoxelGrid :=
  if (size_x =? size_x_ g) && (size_y =? size_y_ g) && (size_z =? size_z_ g) then reset g
  else Some (mkVoxelGrid size_x size_y (if 16 <? size_z then 16 else size_z)
               (new_data size_x size_y) (costmap g)).

(** ** Single voxels *)

Definition out_of_bounds (g : VoxelGrid) (x y z : Z) : bool :=
  (size_x_ g <=? x) || (size_y_ g <=? y) || (size_z_ g <=? z).

Definition cell_index (g : VoxelGrid) (x y : Z) : Z := u32 (u32 (y * size_x_ g) + x).

Definition markVoxel (g : VoxelGrid) (x y z : Z) : option VoxelGrid :=
  if out_of_bounds g x y z then Some g
  else
    m ← full_mask z;
    c ← aget (data_ g) (cell_index g x y);
    d ← aset (data_ g) (cell_index g x y) (Z.lor c m);
    Some (set_data g d).

Definition markVoxelInMap (g : VoxelGrid) (x y z marked_threshold : Z) : option (bool * VoxelGrid) :=
  if out_of_bounds g x y z then Some (false, g)
  else
    let index := s32 (cell_index g x y) in
    m ← full_mask z;
    c ← aget (data_ g) index;
    d ← aset (data_ g) index (Z.lor c m);
    b ← bitsBelowThreshold (marked_bits (Z.lor c m)) marked_threshold;
    Some (negb b, set_data g d).

Definition clearVoxel (g : VoxelGrid) (x y z : Z) : option VoxelGrid :=
  if out_of_bounds g x y z then Some g
  else
    m ← full_mask z;
    c ← aget (data_ g) (cell_index g x y);
    d ← aset (data_ g) (cell_index g x y) (Z.land c (not32 m));
    Some (set_data g d).

(** The assertion stops the program: no result. *)
Definition clearVoxelColumn (g : VoxelGrid) (index : Z) : option VoxelGrid :=
  _ ← assert_ub (index <? u32 (size_x_ g * size_y_ g));
  d ← aset (data_ g) index 0;
  Some (set_data g d).

Definition clearVoxelInMap (g : VoxelGrid) (x y z : Z) : option VoxelGrid :=
  if out_of_bounds g x y z then Some g
  else
    let index := s32 (cell_index g x y) in
    m ← full_mask z;
    c ← aget (data_ g) index;
    let c := Z.land c (not32 m) in
    d ← aset (data_ g) index c;
    bu ← bitsBelowThreshold (unknown_bits c) 1;
    bm ← bitsBelowThreshold (marked_bits c) 1;
    if bu && bm then
      cm ← costmap g;
      cm' ← aset cm index 0;
      Some (set_costmap (set_data g d) (Some cm'))
    else Some (set_data g d).

(** The static [getVoxel], on a raw array. *)
Definition getVoxel_static (x y z size_x size_y size_z : Z) (data : list Z) : option VoxelStatus :=
  if (size_x <=? x) || (size_y <=? y) || (size_z <=? z) then Some UNKNOWN
  else
    m ← full_mask z;
    c ← aget data (u32 (u32 (y * size_x) + x));
    bits ← numBits (Z.land c m);
    if bits <? 2 then if bits <? 1 then Some FREE else Some UNKNOWN else Some MARKED.

Definition getVoxel (g : VoxelGrid) (x y z : Z) : option VoxelStatus :=
  if out_of_bounds g x y z then Some UNKNOWN
  else
    m ← full_mask z;
    c ← aget (data_ g) (cell_index g x y);
    bits ← numBits (Z.land c m);
    if bits <? 2 then if bits <? 1 then Some FREE else Some UNKNOWN else Some MARKED.

Definition getVoxelColumn (g : VoxelGrid) (x y unknown_threshold marked_threshold : Z) :
    option VoxelStatus :=
  if (size_x_ g <=? x) || (size_y_ g <=? y) then Some UNKNOWN
  else
    col ← aget (data_ g) (cell_index g x y);
    bm ← bitsBelowThreshold (marked_bits col) marked_threshold;
    if negb bm then Some MARKED
    else
      bu ← bitsBelowThreshold (unknown_bits col) unknown_threshold;
      if negb bu then Some UNKNOWN else Some FREE.

(** ** Lines *)

(** The functors [GridOffset] and [ZOffset], on the pair of references
    (offset, z_mask). *)
Inductive Offset := GridOffset | ZOffset.

Definition apply_offset (o : Offset) (offset_val : Z) (p : Z * Z) : Z * Z :=
  match o with
  | GridOffset => (u32 (fst p + offset_val), snd p)
  | ZOffset => (fst p, if 0 <? offset_val then u32 (Z.shiftl (snd p) 1) else Z.shiftr (snd p) 1)
  end.

Definition sign (i : Z) : Z := if 0 <? i then 1 else -1.
Definition umax (x y : Z) : Z := if y <? x then x else y.

(** The state of the 3D walk: the references (offset, z_mask), the errors. *)
Definition bres3_body {S} (at_ : S -> Z * Z -> option S) (off_a off_b off_c : Offset)
    (abs_da abs_db abs_dc offset_a offset_b offset_c : Z)
    (st : S * (Z * Z) * Z * Z) : option (S * (Z * Z) * Z * Z) :=
  let '(s, p, error_b, error_c) := st in
  s ← at_ s p;
  let p := apply_offset off_a offset_a p in
  let '(carry_b, error_b) := bres_step abs_da abs_db error_b in
  let p := if carry_b : bool then apply_offset off_b offset_b p else p in
  let '(carry_c, error_c) := bres_step abs_da abs_dc error_c in
  let p := if carry_c : bool then apply_offset off_c offset_c p else p in
  Some (s, p, error_b, error_c).

Definition bresenham3D {S} (at_ : S -> Z * Z -> option S) (off_a off_b off_c : Offset)
    (abs_da abs_db abs_dc error_b error_c offset_a offset_b offset_c : Z)
    (p : Z * Z) (max_length : Z) (s : S) : option S :=
  let end_ := Z.min max_length abs_da in
  st ← for_range 0 end_
         (fun _ => bres3_body at_ off_a off_b off_c abs_da abs_db abs_dc offset_a offset_b offset_c)
         (s, p, error_b, error_c);
  let '(s, p, _, _) := st in
  at_ s p.

(** [int] arithmetic whose overflow is undefined. *)
Definition sint (z : Z) : option Z :=
  _ ← assert_ub ((- 2 ^ 31 <=? z) && (z <? 2 ^ 31)); Some z.

Definition sq_dist (x0 y0 z0 x1 y1 z1 : spec_float) : spec_float :=
  fadd (fadd (fmul (fsub x0 x1) (fsub x0 x1)) (fmul (fsub y0 y1) (fsub y0 y1)))
       (fmul (fsub z0 z1) (fsub z0 z1)).

(** The integer half of [raytraceLine]: the walk from the truncated start
    point to the truncated end point. *)
Definition raytrace_cells {S} (at_ : S -> Z * Z -> option S) (size_x : Z) (scale : spec_float)
    (min_x0 min_y0 min_z0 x1 y1 z1 : spec_float) (s : S) : option S :=
  ix1 ← f_to_s32 x1; ix0 ← f_to_s32 min_x0; dx ← sint (ix1 - ix0);
  iy1 ← f_to_s32 y1; iy0 ← f_to_s32 min_y0; dy ← sint (iy1 - iy0);
  iz1 ← f_to_s32 z1; iz0 ← f_to_s32 min_z0; dz ← sint (iz1 - iz0);
  abs_dx ← sint (Z.abs dx); abs_dy ← sint (Z.abs dy); abs_dz ← sint (Z.abs dz);
  let offset_dx := sign dx in
  let offset_dy := s32 (sign dy * size_x) in
  let offset_dz := sign dz in
  uz0 ← f_to_u32 min_z0; _ ← assert_ub (uz0 <? 32);
  let z_mask := u32 (Z.shiftl 65537 uz0) in
  uy0 ← f_to_u32 min_y0; ux0 ← f_to_u32 min_x0;
  let offset := u32 (u32 (uy0 * size_x) + ux0) in
  if umax abs_dy abs_dz <=? abs_dx then
    len ← f_to_u32 (fmul scale (f_of_Z abs_dx));
    bresenham3D at_ GridOffset GridOffset ZOffset abs_dx abs_dy abs_dz (abs_dx / 2) (abs_dx / 2)
      offset_dx offset_dy offset_dz (offset, z_mask) len s
  else if abs_dz <=? abs_dy then
    len ← f_to_u32 (fmul scale (f_of_Z abs_dy));
    bresenham3D at_ GridOffset GridOffset ZOffset abs_dy abs_dx abs_dz (abs_dy / 2) (abs_dy / 2)
      offset_dy offset_dx offset_dz (offset, z_mask) len s
  else
    len ← f_to_u32 (fmul scale (f_of_Z abs_dz));
    bresenham3D at_ ZOffset GridOffset GridOffset abs_dz abs_dx abs_dy (abs_dz / 2) (abs_dz / 2)
      offset_dz offset_dx offset_dy (offset, z_mask) len s.

(** The point at distance [min_length] of the start, on one axis. *)
Definition min_start (a0 a1 dist : spec_float) (min_length : Z) : spec_float :=
  fadd a0 (fmul (fdiv (fsub a1 a0) dist) (f_of_Z min_length)).

Definition raytraceLine {S} (at_ : S -> Z * Z -> option S) (size_x : Z)
    (x0 y0 z0 x1 y1 z1 : spec_float) (max_length min_length : Z) (s : S) : option S :=
  let dist := fsqrt (sq_dist x0 y0 z0 x1 y1 z1) in
  udist ← f_to_u32 dist;
  if udist <? min_length then Some s
  else if fgt dist f_zero then
    raytrace_cells at_ size_x (fmin f_one (fdiv (f_of_Z max_length) dist))
      (min_start x0 x1 dist min_length) (min_start y0 y1 dist min_length)
      (min_start z0 z1 dist min_length) x1 y1 z1 s
  else raytrace_cells at_ size_x f_one x0 y0 z0 x1 y1 z1 s.

(** The action functors. *)
Definition MarkVoxel (d : list Z) (p : Z * Z) : option (list Z) :=
  c ← aget d (fst p); aset d (fst p) (Z.lor c (snd p)).

Definition ClearVoxel (d : list Z) (p : Z * Z) : option (list Z) :=
  c ← aget d (fst p); aset d (fst p) (Z.land c (not32 (snd p))).

Definition ClearVoxelInMap (unknown_clear_threshold marked_clear_threshold free_cost unknown_cost : Z)
    (st : list Z * list Z) (p : Z * Z) : option (list Z * list Z) :=
  let '(d, cm) := st in
  c ← aget d (fst p);
  let col := Z.land c (not32 (snd p)) in
  d ← aset d (fst p) col;
  bm ← bitsBelowThreshold (marked_bits col) marked_clear_threshold;
  if bm : bool then
    bu ← bitsBelowThreshold (unknown_bits col) unknown_clear_threshold;
    cm ← aset cm (fst p) (if bu : bool then free_cost else unknown_cost);
    Some (d, cm)
  else Some (d, cm).

Definition endpoint_out (g : VoxelGrid) (x0 y0 z0 x1 y1 z1 : spec_float) : bool :=
  fge x0 (f_of_Z (size_x_ g)) || fge y0 (f_of_Z (size_y_ g)) || fge z0 (f_of_Z (size_z_ g)) ||
  fge x1 (f_of_Z (size_x_ g)) || fge y1 (f_of_Z (size_y_ g)) || fge z1 (f_of_Z (size_z_ g)).

Definition markVoxelLine (g : VoxelGrid) (x0 y0 z0 x1 y1 z1 : spec_float) (max_length : Z) :
    option VoxelGrid :=
  if endpoint_out g x0 y0 z0 x1 y1 z1 then Some g
  else
    d ← raytraceLine MarkVoxel (size_x_ g) x0 y0 z0 x1 y1 z1 max_length 0 (data_ g);
    Some (set_data g d).

Definition clearVoxelLine (g : VoxelGrid) (x0 y0 z0 x1 y1 z1 : spec_float)
    (max_length min_length : Z) : option VoxelGrid :=
  if endpoint_out g x0 y0 z0 x1 y1 z1 then Some g
  else
    d ← raytraceLine ClearVoxel (size_x_ g) x0 y0 z0 x1 y1 z1 max_length min_length (data_ g);
    Some (set_data g d).

Definition clearVoxelLineInMap (g : VoxelGrid) (x0 y0 z0 x1 y1 z1 : spec_float)
    (map_2d : option (list Z)) (unknown_threshold mark_threshold free_cost unknown_cost : Z)
    (max_length min_length : Z) : option VoxelGrid :=
  let g := set_costmap g map_2d in
  match map_2d with
  | None => clearVoxelLine g x0 y0 z0 x1 y1 z1 max_length min_length
  | Some cm =>
      if endpoint_out g x0 y0 z0 x1 y1 z1 then Some g
      else
        st ← raytraceLine (ClearVoxelInMap unknown_threshold mark_threshold free_cost unknown_cost)
               (size_x_ g) x0 y0 z0 x1 y1 z1 max_length min_length (data_ g, cm);
        Some (set_costmap (set_data g (fst st)) (Some (snd st)))
  end.

(** ** Counting bits *)

(** The number of ones among the [k] low bits. *)
Fixpoint popcount (k : nat) (n : Z) : Z :=
  match k with
  | O => 0
  | S k => Z.b2z (Z.odd n) + popcount k (Z.div2 n)
  end.

Lemma popcount_nonneg k n : 0 <= popcount k n.
Proof.
  revert n. induction k as [|k IH]; intros n; simpl; [lia|].
  specialize (IH (Z.div2 n)). destruct (Z.odd n); simpl; lia.
Qed.

Lemma popcount_le k n : popcount k n <= Z.of_nat k.
Proof.
  revert n. induction k as [|k IH]; intros n; cbn [popcount]; [lia|].
  specialize (IH (Z.div2 n)). destruct (Z.odd n); cbn [Z.b2z]; lia.
Qed.

Lemma popcount_0 k : popcount k 0 = 0.
Proof. induction k; simpl; [done|]. by rewrite IHk. Qed.

(** Clearing the least significant one. *)
Lemma popcount_clear k n :
  0 < n < 2 ^ Z.of_nat k -> popcount k (Z.land n (n - 1)) = popcount k n - 1.
Proof.
  revert n. induction k as [|k IH]; intros n Hn; [simpl in Hn; lia|].
  cbn [popcount]. rewrite Z.div2_spec, Z.shiftr_land, <- !Z.div2_spec.
  assert (Z.odd (Z.land n (n - 1)) = Z.odd n && Z.odd (n - 1)) as ->
    by (rewrite <- !Z.bit0_odd; apply Z.land_spec).
  rewrite Z.odd_sub. replace (Z.odd 1) with true by done.
  pose proof (Zdiv2_odd_eqn n) as Hd. rewrite Nat2Z.inj_succ, Z.pow_succ_r in Hn by lia.
  destruct (Z.odd n) eqn:Ho; simpl xorb; cbn [andb Z.b2z].
  - replace (n - 1) with (2 * Z.div2 n) by lia.
    rewrite (Z.div2_div (2 * _)), Z.mul_comm, Z.div_mul, Z.land_diag by lia. lia.
  - replace (Z.div2 (n - 1)) with (Z.div2 n - 1).
    + rewrite IH by lia. lia.
    + cbn [Z.b2z] in Hd. rewrite (Z.div2_div (n - 1)). revert Hd. generalize (Z.div2 n).
      intros h Hd. Z.div_mod_to_equations; lia.
Qed.

Lemma popcount_pos k n : 0 < n < 2 ^ Z.of_nat k -> 0 < popcount k n.
Proof. intros H. pose proof (popcount_clear k n H). pose proof (popcount_nonneg k (Z.land n (n - 1))). lia. Qed.

Lemma land_pred_range n : 0 < n < 2 ^ 32 -> 0 <= Z.land n (n - 1) < n.
Proof.
  intros H. split; [apply Z.land_nonneg; lia|].
  assert (Z.land n (n - 1) <= n - 1); [|lia].
  assert (0 <= n - 1) as H1 by lia. revert H1. generalize (n - 1). intros m Hm.
  assert (Z.ldiff m (Z.land n m) = m - Z.land n m) as E.
  { rewrite <- Z.sub_nocarry_ldiff; [done|]. apply Z.bits_inj'. intros i Hi.
    rewrite Z.ldiff_spec, Z.land_spec, Z.bits_0. destruct (Z.testbit n i), (Z.testbit m i); done. }
  assert (0 <= Z.ldiff m (Z.land n m)) by (apply Z.ldiff_nonneg; lia). lia.
Qed.

Section bit_loops.
Local Ltac clear_step n Hn :=
  rewrite (u32_small (n - 1)) by (unfold is_u32; lia);
  pose proof (land_pred_range n ltac:(lia));
  pose proof (popcount_clear 32 n ltac:(lia));
  pose proof (popcount_pos 32 n ltac:(lia)).

Lemma bits_below_spec fuel n bc t :
  is_u32 n -> 0 <= bc -> bc + popcount 32 n < 2 ^ 32 -> popcount 32 n < Z.of_nat fuel -> bc <= t ->
  bits_below fuel n bc t = Some (bc + popcount 32 n <=? t).
Proof.
  unfold is_u32.
  revert n bc. induction fuel as [|fuel IH]; intros n bc Hn Hb Hs Hf Ht.
  { pose proof (popcount_nonneg 32 n). lia. }
  cbn [bits_below]. destruct (Z.eqb_spec n 0) as [->|Hz].
  - rewrite popcount_0. f_equal. symmetry. apply Z.leb_le. lia.
  - clear_step n Hn. rewrite u32_small by (unfold is_u32; lia).
    destruct (Z.ltb_spec t (bc + 1)).
    + f_equal. symmetry. apply Z.leb_gt. lia.
    + rewrite IH by lia. f_equal. f_equal. lia.
Qed.

Lemma num_bits_spec fuel n bc :
  is_u32 n -> 0 <= bc -> bc + popcount 32 n < 2 ^ 32 -> popcount 32 n < Z.of_nat fuel ->
  num_bits fuel n bc = Some (bc + popcount 32 n).
Proof.
  unfold is_u32.
  revert n bc. induction fuel as [|fuel IH]; intros n bc Hn Hb Hs Hf.
  { pose proof (popcount_nonneg 32 n). lia. }
  cbn [num_bits]. destruct (Z.eqb_spec n 0) as [->|Hz].
  - rewrite popcount_0. f_equal. lia.
  - clear_step n Hn. rewrite (u32_small (bc + 1)) by (unfold is_u32; lia).
    rewrite IH by lia. f_equal. lia.
Qed.

Lemma bitsBelow_popcount n t :
  is_u32 n -> 0 <= t -> bitsBelowThreshold n t = Some (popcount 32 n <=? t).
Proof.
  intros Hn Ht. pose proof (popcount_nonneg 32 n). pose proof (popcount_le 32 n).
  change (Z.of_nat 32) with 32 in *. unfold bitsBelowThreshold.
  rewrite bits_below_spec; [done | done | lia | lia | | lia].
  change (Z.of_nat 33) with 33. lia.
Qed.

Lemma numBits_popcount n : is_u32 n -> numBits n = Some (popcount 32 n).
Proof.
  intros Hn. pose proof (popcount_nonneg 32 n). pose proof (popcount_le 32 n).
  change (Z.of_nat 32) with 32 in *. unfold numBits.
  rewrite num_bits_spec; [done | done | lia | lia |].
  change (Z.of_nat 33) with 33. lia.
Qed.
End bit_loops.

(** The number of [i] in [0..k-1] that satisfy [P]. *)
Fixpoint count (k : nat) (P : Z -> bool) : Z :=
  match k with
  | O => 0
  | S k => Z.b2z (P 0) + count k (fun i => P (i + 1))
  end.

Lemma count_ext k P Q : (forall i, 0 <= i < Z.of_nat k -> P i = Q i) -> count k P = count k Q.
Proof.
  revert P Q. induction k as [|k IH]; intros P Q H; cbn [count]; [done|].
  rewrite (H 0) by lia. rewrite (IH (fun i => P (i + 1)) (fun i => Q (i + 1))); [done|].
  intros i Hi. apply H. lia.
Qed.

Lemma count_false k P : (forall i, 0 <= i < Z.of_nat k -> P i = false) -> count k P = 0.
Proof.
  revert P. induction k as [|k IH]; intros P H; cbn [count]; [done|].
  rewrite (H 0), IH by lia || (intros i Hi; apply H; lia). done.
Qed.

Lemma count_mono k P Q : (forall i, 0 <= i < Z.of_nat k -> P i = true -> Q i = true) -> count k P <= count k Q.
Proof.
  revert P Q. induction k as [|k IH]; intros P Q H; cbn [count]; [done|].
  assert (Z.b2z (P 0) <= Z.b2z (Q 0)) by (specialize (H 0 ltac:(lia)); destruct (P 0), (Q 0); cbn; try lia; by specialize (H eq_refl)).
  pose proof (IH (fun i => P (i + 1)) (fun i => Q (i + 1)) ltac:(intros i Hi; apply H; lia)). lia.
Qed.

Lemma count_split a b P : count (a + b) P = count a P + count b (fun i => P (i + Z.of_nat a)).
Proof.
  revert P. induction a as [|a IH]; intros P; cbn [count Nat.add].
  - apply count_ext. intros i _. f_equal. lia.
  - rewrite IH, <- Z.add_assoc. do 2 f_equal. apply count_ext. intros i _. f_equal. lia.
Qed.

Lemma count_or k P Q :
  (forall i, 0 <= i < Z.of_nat k -> P i && Q i = false) ->
  count k (fun i => P i || Q i) = count k P + count k Q.
Proof.
  revert P Q. induction k as [|k IH]; intros P Q H; cbn [count]; [done|].
  rewrite (IH (fun i => P (i + 1)) (fun i => Q (i + 1))) by (intros i Hi; apply H; lia).
  specialize (H 0 ltac:(lia)). destruct (P 0), (Q 0); simpl in *; try done; lia.
Qed.

Lemma count_single k P j :
  0 <= j < Z.of_nat k -> count k (fun i => P i && (i =? j)) = Z.b2z (P j).
Proof.
  revert P j. induction k as [|k IH]; intros P j Hj; [lia|]. cbn [count].
  destruct (Z.eqb_spec 0 j) as [<-|Hne].
  - rewrite andb_true_r, (count_false k); [lia|]. intros i Hi.
    rewrite (proj2 (Z.eqb_neq (i + 1) 0)) by lia. apply andb_false_r.
  - rewrite andb_false_r. cbn [Z.b2z].
    rewrite (count_ext k _ (fun i => P (i + 1) && (i =? j - 1))).
    + rewrite (IH (fun i => P (i + 1))) by lia.
      replace (j - 1 + 1) with j by lia. lia.
    + intros i Hi. f_equal. apply eq_true_iff_eq. rewrite !Z.eqb_eq. lia.
Qed.

Lemma popcount_count k n : 0 <= n -> popcount k n = count k (Z.testbit n).
Proof.
  revert n. induction k as [|k IH]; intros n Hn; cbn [popcount count]; [done|].
  rewrite Z.bit0_odd, IH by (rewrite Z.div2_nonneg; lia). f_equal. apply count_ext.
  intros i Hi. rewrite Z.div2_spec, Z.shiftr_spec by lia. done.
Qed.

(** More bits, higher count. *)
Lemma popcount_mono k a b : 0 <= a -> 0 <= b -> (forall i, Z.testbit a i = true -> Z.testbit b i = true) -> popcount k a <= popcount k b.
Proof. intros Ha Hb H. rewrite !popcount_count by done. apply count_mono. auto. Qed.

#[global] Arguments popcount : simpl never.
#[global] Arguments count : simpl never.
#[global] Arguments bitsBelowThreshold : simpl never.
#[global] Arguments numBits : simpl never.

(** ** Columns *)

(** A column is well formed when a marked voxel never has its "not known" bit
    cleared: of the four states of a pair of bits, [10] does not occur. *)
Definition valid_column (c : Z) : Prop :=
  is_u32 c /\
  forall z, 0 <= z < 16 -> Z.testbit c (z + 16) = true -> Z.testbit c z = true.

(** The status a pair of bits stands for. *)
Definition voxel_of (c z : Z) : VoxelStatus :=
  match Z.testbit c (z + 16), Z.testbit c z with
  | true, true => MARKED
  | false, false => FREE
  | _, _ => UNKNOWN
  end.

Definition pair_mask (z : Z) : Z := Z.lor (Z.shiftl 1 z) (Z.shiftl 1 (z + 16)).

(** How many of the 16 voxels of a column have a status. *)
Definition column_count (s : VoxelStatus) (c : Z) : Z :=
  count 16 (fun z => bool_decide (voxel_of c z = s)).

(** Case analysis on a layer [0 <= z < 16]. *)
Ltac layer_cases z H :=
  let C := fresh in
  assert (z = 0 \/ z = 1 \/ z = 2 \/ z = 3 \/ z = 4 \/ z = 5 \/ z = 6 \/ z = 7 \/ z = 8 \/ z = 9 \/
          z = 10 \/ z = 11 \/ z = 12 \/ z = 13 \/ z = 14 \/ z = 15) as C by lia;
  repeat (destruct C as [C|C]); subst z.

Lemma shiftl_1_testbit z i : 0 <= z -> 0 <= i -> Z.testbit (Z.shiftl 1 z) i = (i =? z).
Proof.
  intros Hz Hi. rewrite Z.shiftl_1_l, Z.pow2_bits_eqb by lia. apply Z.eqb_sym.
Qed.

Lemma pair_mask_testbit z i :
  0 <= z -> 0 <= i -> Z.testbit (pair_mask z) i = (i =? z) || (i =? z + 16).
Proof. intros Hz Hi. unfold pair_mask. rewrite Z.lor_spec, !shiftl_1_testbit by lia. done. Qed.

Lemma full_mask_pair z : 0 <= z < 16 -> full_mask z = Some (pair_mask z).
Proof. intros H. layer_cases z H; reflexivity. Qed.

Lemma pair_mask_u32 z : 0 <= z < 16 -> is_u32 (pair_mask z).
Proof. intros H. layer_cases z H; closed_range. Qed.

Lemma u32_testbit_high c i : is_u32 c -> 32 <= i -> Z.testbit c i = false.
Proof.
  intros Hc Hi. destruct (Z.eq_dec c 0) as [->|Hne]; [apply Z.bits_0|].
  apply Z.bits_above_log2; [unfold is_u32 in Hc; lia|].
  assert (Z.log2 c < 32); [|lia]. apply Z.log2_lt_pow2; unfold is_u32 in Hc; lia.
Qed.

(** A nonnegative number without bits from 32 on is a 32-bit word. *)
Lemma u32_of_bits c : 0 <= c -> (forall i, 32 <= i -> Z.testbit c i = false) -> is_u32 c.
Proof.
  intros Hc H. split; [done|]. destruct (Z.eq_dec c 0) as [->|Hne]; [lia|].
  apply Z.log2_lt_pow2; [lia|]. destruct (Z.lt_ge_cases (Z.log2 c) 32); [done|].
  pose proof (Z.bit_log2 c ltac:(lia)) as E. by rewrite H in E.
Qed.

Lemma not32_testbit m i : 0 <= i < 32 -> Z.testbit (not32 m) i = negb (Z.testbit m i).
Proof.
  intros Hi. unfold not32, u32. rewrite Z.mod_pow2_bits_low by lia. apply Z.lnot_spec. lia.
Qed.

Lemma lor_u32 a b : is_u32 a -> is_u32 b -> is_u32 (Z.lor a b).
Proof.
  intros Ha Hb. apply u32_of_bits; [apply Z.lor_nonneg; unfold is_u32 in *; lia|].
  intros i Hi. rewrite Z.lor_spec, !u32_testbit_high by done. done.
Qed.

Lemma land_u32 a b : is_u32 a -> is_u32 (Z.land a b).
Proof.
  intros Ha. apply u32_of_bits; [apply Z.land_nonneg; unfold is_u32 in *; lia|].
  intros i Hi. rewrite Z.land_spec, u32_testbit_high by done. done.
Qed.

Lemma valid_u32 c : valid_column c -> is_u32 c.
Proof. by intros []. Qed.
#[export] Hint Resolve valid_u32 lor_u32 land_u32 pair_mask_u32 : ints.

(** Marking a voxel. *)
Lemma voxel_of_mark c z z' :
  0 <= z < 16 -> 0 <= z' < 16 ->
  voxel_of (Z.lor c (pair_mask z)) z' = if z =? z' then MARKED else voxel_of c z'.
Proof.
  intros Hz Hz'. unfold voxel_of. rewrite !Z.lor_spec, !pair_mask_testbit by lia.
  destruct (Z.eqb_spec z z') as [<-|Hne].
  - rewrite !Z.eqb_refl, !orb_true_r. done.
  - rewrite (proj2 (Z.eqb_neq z' z)), (proj2 (Z.eqb_neq z' (z + 16))),
      (proj2 (Z.eqb_neq (z' + 16) z)), (proj2 (Z.eqb_neq (z' + 16) (z + 16))) by lia.
    by rewrite !orb_false_r.
Qed.

(** Clearing a voxel. *)
Lemma voxel_of_clear c z z' :
  0 <= z < 16 -> 0 <= z' < 16 ->
  voxel_of (Z.land c (not32 (pair_mask z))) z' = if z =? z' then FREE else voxel_of c z'.
Proof.
  intros Hz Hz'. unfold voxel_of.
  rewrite !Z.land_spec, !not32_testbit, !pair_mask_testbit by lia.
  destruct (Z.eqb_spec z z') as [<-|Hne].
  - rewrite !Z.eqb_refl, !orb_true_r, !andb_false_r. done.
  - rewrite (proj2 (Z.eqb_neq z' z)), (proj2 (Z.eqb_neq z' (z + 16))),
      (proj2 (Z.eqb_neq (z' + 16) z)), (proj2 (Z.eqb_neq (z' + 16) (z + 16))) by lia.
    simpl. by rewrite !andb_true_r.
Qed.

Lemma valid_mark c z : 0 <= z < 16 -> valid_column c -> valid_column (Z.lor c (pair_mask z)).
Proof.
  intros Hz [Hc Hv]. split; [auto with ints|]. intros z' Hz'.
  rewrite !Z.lor_spec, !pair_mask_testbit by lia. rewrite !orb_true_iff, !Z.eqb_eq.
  intros [H|[H|H]]; [left; by apply Hv | lia | right; left; lia].
Qed.

Lemma valid_clear c z :
  0 <= z < 16 -> valid_column c -> valid_column (Z.land c (not32 (pair_mask z))).
Proof.
  intros Hz [Hc Hv]. split; [auto with ints|]. intros z' Hz'.
  rewrite !Z.land_spec, !not32_testbit, !pair_mask_testbit by lia.
  rewrite !andb_true_iff, !negb_true_iff, !orb_false_iff, !Z.eqb_neq.
  intros (H & H1 & H2). repeat split; [by apply Hv | lia | lia].
Qed.

Lemma unknown_col_valid : valid_column unknown_col.
Proof.
  split; [closed_range|].
  intros z Hz. layer_cases z Hz; done.
Qed.

Lemma voxel_of_unknown z : 0 <= z < 16 -> voxel_of unknown_col z = UNKNOWN.
Proof. intros Hz. layer_cases z Hz; reflexivity. Qed.
#[export] Hint Resolve unknown_col_valid valid_mark valid_clear : ints.

(** ** The 3D walk in closed form *)

Section walk.
Context {S : Type} (at_ : S -> Z * Z -> option S).
Context (off_a off_b off_c : Offset) (da db dc oa ob oc : Z).
(** [E a b c]: the references after [a], [b], [c] moves along the axes. *)
Context (E : Z -> Z -> Z -> Z * Z).
Context (Hda : 0 <= da < 2 ^ 31) (Hdb : 0 <= db <= da) (Hdc : 0 <= dc <= da).
Context (Ha : forall a b c, 0 <= a < da -> 0 <= b <= db -> 0 <= c <= dc ->
                apply_offset off_a oa (E a b c) = E (a + 1) b c).
Context (Hb : forall a b c, 0 <= a <= da -> 0 <= b < db -> 0 <= c <= dc ->
                apply_offset off_b ob (E a b c) = E a (b + 1) c).
Context (Hc : forall a b c, 0 <= a <= da -> 0 <= b <= db -> 0 <= c < dc ->
                apply_offset off_c oc (E a b c) = E a b (c + 1)).

Definition walk_cell (i : Z) : Z * Z := E i (minor_moves da db i) (minor_moves da dc i).

Definition walk_state (s : S) (i : Z) : S * (Z * Z) * Z * Z :=
  (s, walk_cell i, error_after da db i, error_after da dc i).

Lemma bres3_body_spec s i :
  0 <= i < da ->
  bres3_body at_ off_a off_b off_c da db dc oa ob oc (walk_state s i)
  = s' ← at_ s (walk_cell i); Some (walk_state s' (i + 1)).
Proof.
  intros Hi. unfold bres3_body, walk_state.
  destruct (at_ s (walk_cell i)) as [s'|]; simpl; [|done].
  rewrite !bres_step_after by lia. unfold walk_cell.
  pose proof (minor_moves_range da db ltac:(lia) ltac:(lia) i ltac:(lia)).
  pose proof (minor_moves_range da dc ltac:(lia) ltac:(lia) i ltac:(lia)).
  pose proof (minor_moves_range da db ltac:(lia) ltac:(lia) (i + 1) ltac:(lia)).
  pose proof (minor_moves_range da dc ltac:(lia) ltac:(lia) (i + 1) ltac:(lia)).
  pose proof (minor_moves_succ da db ltac:(lia) ltac:(lia) i ltac:(lia)) as Mb.
  pose proof (minor_moves_succ da dc ltac:(lia) ltac:(lia) i ltac:(lia)) as Mc.
  rewrite Ha by lia. do 4 f_equal.
  case_bool_decide as B; case_bool_decide as C; rewrite ?Hb, ?Hc by lia;
    repeat match goal with
      | H : ?x = _ |- context [?x] => rewrite H
      | H : _ \/ ?x = _ |- context [?x] => destruct H as [H|H]; [lia|rewrite H]
      end; done.
Qed.

Lemma walk_loop n i s :
  0 <= i -> i + Z.of_nat n <= da ->
  for_up n i (fun _ => bres3_body at_ off_a off_b off_c da db dc oa ob oc) (walk_state s i)
  = s' ← run_cells at_ (walk_cell <$> zrange i (i + Z.of_nat n)) s;
    Some (walk_state s' (i + Z.of_nat n)).
Proof.
  revert i s. induction n as [|n IH]; intros i s Hi Hn.
  - rewrite zrange_nil by lia. simpl. by replace (i + Z.of_nat 0) with i by lia.
  - rewrite zrange_cons by lia. cbn [for_up]. rewrite bres3_body_spec by lia. simpl.
    destruct (at_ s (walk_cell i)) as [s'|]; simpl; [|done].
    rewrite IH by lia.
    by replace (i + 1 + Z.of_nat n) with (i + Z.of_nat (Datatypes.S n)) by lia.
Qed.

(** The walk is the action run over the cells of the closed form. *)
Lemma bresenham3D_spec max_length s :
  0 <= max_length ->
  bresenham3D at_ off_a off_b off_c da db dc (da / 2) (da / 2) oa ob oc (E 0 0 0) max_length s
  = run_cells at_ (walk_cell <$> zrange 0 (Z.min max_length da + 1)) s.
Proof.
  intros Hm. unfold bresenham3D, for_range.
  assert ((s, E 0 0 0, da / 2, da / 2) = walk_state s 0) as ->.
  { unfold walk_state, walk_cell. destruct (Z.eq_dec da 0) as [Z0|Hne].
    - assert (db = 0) as Zb by lia. assert (dc = 0) as Zc by lia. by rewrite Zb, Zc, Z0.
    - rewrite !error_after_0, !minor_moves_0 by lia. done. }
  rewrite walk_loop by lia.
  replace (0 + Z.of_nat (Z.to_nat (Z.min max_length da - 0))) with (Z.min max_length da) by lia.
  rewrite zrange_snoc, fmap_app, run_cells_app by lia.
  destruct (run_cells at_ _ s) as [s'|]; simpl; [|done].
  by destruct (at_ s' _).
Qed.
End walk.

(** A cell of the grid and the references that stand for it. *)
Definition cell : Type := Z * Z * Z.
Definition encode (size_x : Z) (p : cell) : Z * Z :=
  let '(x, y, z) := p in (y * size_x + x, pair_mask z).

(** The dominant extent of a segment and its [i]-th point: every axis moves by
    its share of the dominant one. *)
Definition extent (p q : cell) : Z :=
  let '(x0, y0, z0) := p in let '(x1, y1, z1) := q in
  Z.max (Z.abs (x1 - x0)) (Z.max (Z.abs (y1 - y0)) (Z.abs (z1 - z0))).
#[global] Arguments extent : simpl never.
Definition axis_at (a b da i : Z) : Z := a + sign (b - a) * minor_moves da (Z.abs (b - a)) i.
Definition line_point (p q : cell) (i : Z) : cell :=
  let '(x0, y0, z0) := p in let '(x1, y1, z1) := q in
  let da := extent p q in
  (axis_at x0 x1 da i, axis_at y0 y1 da i, axis_at z0 z1 da i).

(** The cells of the first [n] rounds and the final one. *)
Definition line_cells (p q : cell) (n : Z) : list cell :=
  line_point p q <$> zrange 0 (Z.min n (extent p q) + 1).

Definition in_box (size_x size_y size_z : Z) (p : cell) : Prop :=
  let '(x, y, z) := p in 0 <= x < size_x /\ 0 <= y < size_y /\ 0 <= z < size_z.

Lemma sign_abs d : sign d * Z.abs d = d.
Proof. unfold sign. destruct (Z.ltb_spec 0 d); lia. Qed.

Lemma sign_pm d : sign d = 1 /\ 0 < d \/ sign d = -1 /\ d <= 0.
Proof. unfold sign. destruct (Z.ltb_spec 0 d); lia. Qed.

(** Every coordinate stays between those of the end points. *)
Lemma axis_at_between a b da i :
  0 < da < 2 ^ 31 -> Z.abs (b - a) <= da -> 0 <= i <= da ->
  Z.min a b <= axis_at a b da i <= Z.max a b.
Proof.
  intros Hda Hd Hi. unfold axis_at.
  pose proof (minor_moves_range da (Z.abs (b - a)) Hda ltac:(lia) i Hi).
  destruct (sign_pm (b - a)) as [[-> ?]|[-> ?]]; lia.
Qed.

Lemma axis_at_0 a b da : 0 <= da < 2 ^ 31 -> Z.abs (b - a) <= da -> axis_at a b da 0 = a.
Proof.
  intros Hda Hd. unfold axis_at. destruct (Z.eq_dec da 0) as [->|Hne].
  - replace (Z.abs (b - a)) with 0 by lia. change (minor_moves 0 0 0) with 0. lia.
  - rewrite minor_moves_0 by lia. lia.
Qed.

Lemma axis_at_end a b da : 0 <= da < 2 ^ 31 -> Z.abs (b - a) <= da -> axis_at a b da da = b.
Proof.
  intros Hda Hd. destruct (Z.eq_dec da 0) as [->|Hne].
  - rewrite axis_at_0 by lia. lia.
  - unfold axis_at. rewrite minor_moves_end by lia. pose proof (sign_abs (b - a)). lia.
Qed.

Lemma extent_range sx sy sz p q :
  in_box sx sy sz p -> in_box sx sy sz q -> sx <= 2 ^ 31 -> sy <= 2 ^ 31 -> sz <= 16 ->
  0 <= extent p q < 2 ^ 31.
Proof. destruct p as [[x0 y0] z0], q as [[x1 y1] z1]. unfold in_box, extent. ilia. Qed.

(** The points of a line whose end points are in a box are in the box. *)
Lemma line_point_in_box sx sy sz p q i :
  in_box sx sy sz p -> in_box sx sy sz q -> sx <= 2 ^ 31 -> sy <= 2 ^ 31 -> sz <= 16 ->
  0 <= i <= extent p q -> in_box sx sy sz (line_point p q i).
Proof.
  intros Hp Hq Hx Hy Hz Hi. pose proof (extent_range sx sy sz p q Hp Hq Hx Hy Hz) as He.
  destruct p as [[x0 y0] z0], q as [[x1 y1] z1]. unfold line_point.
  destruct (Z.eq_dec (extent (x0, y0, z0) (x1, y1, z1)) 0) as [E0|Hne].
  - assert (i = 0) as -> by lia. unfold extent in *. rewrite !axis_at_0 by lia. exact Hp.
  - unfold in_box in *. set (da := extent (x0, y0, z0) (x1, y1, z1)) in *.
    assert (Z.abs (x1 - x0) <= da /\ Z.abs (y1 - y0) <= da /\ Z.abs (z1 - z0) <= da) as (?&?&?)
      by (unfold da, extent; lia).
    pose proof (axis_at_between x0 x1 da i ltac:(lia) ltac:(lia) Hi).
    pose proof (axis_at_between y0 y1 da i ltac:(lia) ltac:(lia) Hi).
    pose proof (axis_at_between z0 z1 da i ltac:(lia) ltac:(lia) Hi). lia.
Qed.

Lemma sint_small z : is_s32 z -> sint z = Some z.
Proof.
  intros [H1 H2]. unfold sint. rewrite (proj2 (Z.leb_le _ _)), (proj2 (Z.ltb_lt _ _)) by done.
  done.
Qed.

(** A monotone coordinate stays in its range. *)
Lemma axis_range lo hi a0 a1 k :
  lo <= a0 < hi -> lo <= a1 < hi -> 0 <= k <= Z.abs (a1 - a0) ->
  lo <= a0 + sign (a1 - a0) * k < hi.
Proof. intros. destruct (sign_pm (a1 - a0)) as [[E ?]|[E ?]]; rewrite E; lia. Qed.

(** The moves of the functors are the moves of the coordinates. *)
Section moves.
Context (sx sy : Z) (Hs : sx * sy <= 2 ^ 31).

Lemma encode_move_x x0 x1 y z a :
  0 <= x0 < sx -> 0 <= x1 < sx -> 0 <= y < sy -> 0 <= a < Z.abs (x1 - x0) ->
  apply_offset GridOffset (sign (x1 - x0)) (encode sx (x0 + sign (x1 - x0) * a, y, z))
  = encode sx (x0 + sign (x1 - x0) * (a + 1), y, z).
Proof.
  intros H0 H1 Hy Ha. unfold apply_offset, encode. simpl. f_equal.
  rewrite u32_small; [lia|].
  pose proof (axis_range 0 sx x0 x1 (a + 1) H0 H1 ltac:(lia)) as Hx.
  pose proof (index_bound sx sy _ y Hx Hy). unfold is_u32. ilia.
Qed.

Lemma encode_move_y x y0 y1 z a :
  0 <= x < sx -> 0 <= y0 < sy -> 0 <= y1 < sy -> 0 <= a < Z.abs (y1 - y0) ->
  apply_offset GridOffset (s32 (sign (y1 - y0) * sx)) (encode sx (x, y0 + sign (y1 - y0) * a, z))
  = encode sx (x, y0 + sign (y1 - y0) * (a + 1), z).
Proof.
  intros Hx H0 H1 Ha. unfold apply_offset, encode. simpl. f_equal.
  rewrite <- u32_add_r, u32_s32, u32_add_r.
  replace ((y0 + sign (y1 - y0) * a) * sx + x + sign (y1 - y0) * sx)
    with ((y0 + sign (y1 - y0) * (a + 1)) * sx + x) by lia.
  apply u32_small.
  pose proof (axis_range 0 sy y0 y1 (a + 1) H0 H1 ltac:(lia)) as Hy.
  pose proof (index_bound sx sy x _ Hx Hy). unfold is_u32. ilia.
Qed.

Lemma pair_mask_up z : 0 <= z < 15 -> u32 (Z.shiftl (pair_mask z) 1) = pair_mask (z + 1).
Proof. intros H. assert (0 <= z < 16) as H' by lia. layer_cases z H'; reflexivity || lia. Qed.

Lemma pair_mask_down z : 0 < z < 16 -> Z.shiftr (pair_mask z) 1 = pair_mask (z - 1).
Proof. intros H. assert (0 <= z < 16) as H' by lia. layer_cases z H'; reflexivity || lia. Qed.

Lemma encode_move_z x y z0 z1 a :
  0 <= z0 < 16 -> 0 <= z1 < 16 -> 0 <= a < Z.abs (z1 - z0) ->
  apply_offset ZOffset (sign (z1 - z0)) (encode sx (x, y, z0 + sign (z1 - z0) * a))
  = encode sx (x, y, z0 + sign (z1 - z0) * (a + 1)).
Proof.
  intros H0 H1 Ha. unfold apply_offset, encode. simpl. f_equal.
  destruct (sign_pm (z1 - z0)) as [[E ?]|[E ?]]; rewrite E.
  - rewrite pair_mask_up by lia. f_equal. lia.
  - change (0 <? -1) with false. cbv iota. rewrite pair_mask_down by lia. f_equal. lia.
Qed.
End moves.

Lemma pair_mask_start z : 0 <= z < 16 -> u32 (Z.shiftl 65537 z) = pair_mask z.
Proof. intros H. layer_cases z H; reflexivity. Qed.

Lemma umax_max a b : umax a b = Z.max a b.
Proof. unfold umax. destruct (Z.ltb_spec b a); lia. Qed.

Section raytrace.
Context {S : Type} (at_ : S -> Z * Z -> option S) (sx sy : Z).
Context (Hs : sx * sy <= 2 ^ 31) (Hsx : sx <= 2 ^ 31) (Hsy : sy <= 2 ^ 31).

Lemma dominant_moves da i : da < 2 ^ 31 -> 0 <= i <= da -> minor_moves da da i = i.
Proof.
  intros ? H. destruct (Z.eq_dec da 0) as [->|Hne]; [by replace i with 0 by lia|].
  apply minor_moves_same; lia.
Qed.

(** One call of the 3D walk, [F] being the cell after [a], [b], [c] moves. *)
Lemma line_walk (F : Z -> Z -> Z -> cell) off_a off_b off_c da db dc oa ob oc p q len s :
  0 <= da < 2 ^ 31 -> 0 <= db <= da -> 0 <= dc <= da -> 0 <= len ->
  extent p q = da -> F 0 0 0 = p ->
  (forall i, 0 <= i <= da -> F i (minor_moves da db i) (minor_moves da dc i) = line_point p q i) ->
  (forall a b c, 0 <= a < da -> 0 <= b <= db -> 0 <= c <= dc ->
     apply_offset off_a oa (encode sx (F a b c)) = encode sx (F (a + 1) b c)) ->
  (forall a b c, 0 <= a <= da -> 0 <= b < db -> 0 <= c <= dc ->
     apply_offset off_b ob (encode sx (F a b c)) = encode sx (F a (b + 1) c)) ->
  (forall a b c, 0 <= a <= da -> 0 <= b <= db -> 0 <= c < dc ->
     apply_offset off_c oc (encode sx (F a b c)) = encode sx (F a b (c + 1))) ->
  bresenham3D at_ off_a off_b off_c da db dc (da / 2) (da / 2) oa ob oc (encode sx p) len s
  = run_cells at_ (encode sx <$> line_cells p q len) s.
Proof.
  intros Hda Hdb Hdc Hlen He H0 HF Ma Mb Mc. rewrite <- H0 at 1.
  rewrite (bresenham3D_spec at_ off_a off_b off_c da db dc oa ob oc
             (fun a b c => encode sx (F a b c))) by done.
  f_equal. unfold line_cells. rewrite He, <- list_fmap_compose.
  apply list_fmap_ext. intros k i Hi%list_elem_of_lookup_2. apply elem_of_zrange in Hi.
  unfold walk_cell. simpl. by rewrite HF by lia.
Qed.

Local Ltac moves F := intros; unfold F; first [apply encode_move_x with sy | apply encode_move_y with sy
                                  | apply encode_move_z];
                    solve [lia | apply axis_range; lia | done].

Local Ltac points He :=
  intros i Hi; unfold line_point, axis_at; rewrite He, dominant_moves by lia; reflexivity.

(** The integer half of [raytraceLine] visits the cells of the line between
    the truncated end points. *)
Lemma raytrace_cells_spec scale mx0 my0 mz0 x1 y1 z1 ax ay az bx by_ bz len s :
  f_trunc mx0 = Some ax -> f_trunc my0 = Some ay -> f_trunc mz0 = Some az ->
  f_trunc x1 = Some bx -> f_trunc y1 = Some by_ -> f_trunc z1 = Some bz ->
  in_box sx sy 16 (ax, ay, az) -> in_box sx sy 16 (bx, by_, bz) ->
  f_to_u32 (fmul scale (f_of_Z (extent (ax, ay, az) (bx, by_, bz)))) = Some len ->
  raytrace_cells at_ sx scale mx0 my0 mz0 x1 y1 z1 s
  = run_cells at_ (encode sx <$> line_cells (ax, ay, az) (bx, by_, bz) len) s.
Proof.
  intros T1 T2 T3 T4 T5 T6 Hp Hq Hlen.
  pose proof (f_to_u32_inv _ _ Hlen) as [_ [Hl _]].
  pose proof (extent_range sx sy 16 _ _ Hp Hq Hsx Hsy ltac:(lia)) as He.
  unfold in_box in Hp, Hq. unfold raytrace_cells.
  rewrite (f_to_s32_trunc mx0 ax), (f_to_s32_trunc my0 ay), (f_to_s32_trunc mz0 az),
    (f_to_s32_trunc x1 bx), (f_to_s32_trunc y1 by_), (f_to_s32_trunc z1 bz),
    (f_to_u32_trunc mx0 ax), (f_to_u32_trunc my0 ay), (f_to_u32_trunc mz0 az)
    by (done || ilia).
  mred. repeat (rewrite sint_small by ilia; mred).
  rewrite assert_ub_true by (apply Z.ltb_lt; lia). mred.
  rewrite pair_mask_start by lia.
  assert (u32 (u32 (ay * sx) + ax) = ay * sx + ax) as ->.
  { rewrite u32_add_l. apply u32_small. pose proof (index_bound sx sy ax ay). ilia. }
  change (ay * sx + ax, pair_mask az) with (encode sx (ax, ay, az)). rewrite umax_max.
  set (F := fun a b c => (ax + sign (bx - ax) * a, ay + sign (by_ - ay) * b,
                          az + sign (bz - az) * c) : cell).
  assert (F 0 0 0 = (ax, ay, az)) as F0 by (unfold F; do 2 f_equal; lia).
  destruct (Z.leb_spec (Z.max (Z.abs (by_ - ay)) (Z.abs (bz - az))) (Z.abs (bx - ax)));
    [|destruct (Z.leb_spec (Z.abs (bz - az)) (Z.abs (by_ - ay)))].
  - assert (extent (ax, ay, az) (bx, by_, bz) = Z.abs (bx - ax)) as Ee by (unfold extent; lia).
    rewrite Ee in *. rewrite Hlen. mred.
    apply (line_walk (fun a b c => F a b c)); try lia; try done; [points Ee|moves F..].
  - assert (extent (ax, ay, az) (bx, by_, bz) = Z.abs (by_ - ay)) as Ee by (unfold extent; lia).
    rewrite Ee in *. rewrite Hlen. mred.
    apply (line_walk (fun a b c => F b a c)); try lia; try done; [points Ee|moves F..].
  - assert (extent (ax, ay, az) (bx, by_, bz) = Z.abs (bz - az)) as Ee by (unfold extent; lia).
    rewrite Ee in *. rewrite Hlen. mred.
    apply (line_walk (fun a b c => F b c a)); try lia; try done; [points Ee|moves F..].
Qed.
End raytrace.

(** *** Counting the voxels of a column *)

Lemma marked_bits_u32 c : is_u32 c -> is_u32 (marked_bits c).
Proof.
  intros Hc. unfold marked_bits. apply u32_of_bits; [apply Z.shiftr_nonneg, Hc|].
  intros i Hi. rewrite Z.shiftr_spec by lia. apply u32_testbit_high; [done | lia].
Qed.

Lemma marked_lor_le c m : is_u32 c -> is_u32 m -> popcount 32 (marked_bits c) <= popcount 32 (marked_bits (Z.lor c m)).
Proof.
  intros Hc Hm. apply popcount_mono; [apply (marked_bits_u32 _ Hc)|apply (marked_bits_u32 _ (lor_u32 _ _ Hc Hm))|].
  intros i. unfold marked_bits. rewrite Z.shiftr_lor, Z.lor_spec. intros ->. done.
Qed.

Lemma marked_land_le c m : is_u32 c -> popcount 32 (marked_bits (Z.land c m)) <= popcount 32 (marked_bits c).
Proof.
  intros Hc. apply popcount_mono; [apply (marked_bits_u32 _ (land_u32 c m Hc))|apply (marked_bits_u32 _ Hc)|].
  intros i. unfold marked_bits. rewrite Z.shiftr_land, Z.land_spec. intros [? _]%andb_true_iff. done.
Qed.

Lemma unknown_col_unmarked : popcount 32 (marked_bits unknown_col) = 0.
Proof. reflexivity. Qed.

Lemma full_mask_u32 z m : full_mask z = Some m -> is_u32 m.
Proof.
  unfold full_mask. destruct (assert_ub _); [|done]. mred. intros [= <-]. apply lor_u32; unfold is_u32, u32; apply Z.mod_pos_bound; lia.
Qed.

Lemma unknown_bits_testbit c i :
  0 <= i -> Z.testbit (unknown_bits c) i = (i <? 16) && xorb (Z.testbit c (i + 16)) (Z.testbit c i).
Proof.
  intros Hi. unfold unknown_bits, u16. rewrite Z.lxor_spec.
  destruct (Z.ltb_spec i 16).
  - rewrite !Z.mod_pow2_bits_low, Z.shiftr_spec by lia. done.
  - rewrite !Z.mod_pow2_bits_high by lia. done.
Qed.

Lemma unknown_bits_u32 c : is_u32 (unknown_bits c).
Proof.
  apply u32_of_bits.
  - unfold unknown_bits, u16. apply Z.lxor_nonneg.
    pose proof (Z.mod_pos_bound (Z.shiftr c 16) (2 ^ 16)). pose proof (Z.mod_pos_bound c (2 ^ 16)). lia.
  - intros i Hi. rewrite unknown_bits_testbit by lia. by rewrite (proj2 (Z.ltb_ge i 16)) by lia.
Qed.
#[export] Hint Resolve marked_bits_u32 unknown_bits_u32 : ints.

(** A word whose ones are all in the low half. *)
Lemma popcount_low n (P : Z -> bool) :
  0 <= n -> (forall i, 0 <= i < 16 -> Z.testbit n i = P i) ->
  (forall i, 16 <= i < 32 -> Z.testbit n i = false) -> popcount 32 n = count 16 P.
Proof.
  intros Hn Hl Hh. rewrite popcount_count by done.
  change 32%nat with (16 + 16)%nat. rewrite count_split.
  rewrite (count_false 16 (fun i => Z.testbit n (i + Z.of_nat 16))) by (intros i Hi; apply Hh; lia).
  rewrite Z.add_0_r. apply count_ext. intros i Hi. apply Hl. lia.
Qed.

Lemma popcount_marked c :
  valid_column c -> popcount 32 (marked_bits c) = column_count MARKED c.
Proof.
  intros [Hc Hv]. apply popcount_low; [apply marked_bits_u32, Hc | |]; intros i Hi;
    unfold marked_bits; rewrite Z.shiftr_spec by lia.
  - unfold voxel_of. specialize (Hv i Hi).
    destruct (Z.testbit c (i + 16)), (Z.testbit c i); try done. by specialize (Hv eq_refl).
  - apply u32_testbit_high; [done | lia].
Qed.

Lemma popcount_unknown c : popcount 32 (unknown_bits c) = column_count UNKNOWN c.
Proof.
  apply popcount_low; [apply unknown_bits_u32 | |]; intros i Hi;
    rewrite unknown_bits_testbit by lia.
  - rewrite (proj2 (Z.ltb_lt i 16)) by lia. unfold voxel_of.
    by destruct (Z.testbit c (i + 16)), (Z.testbit c i).
  - by rewrite (proj2 (Z.ltb_ge i 16)) by lia.
Qed.

(** ** Well-formed grids and the abstract grid *)

Record wf_grid (g : VoxelGrid) : Prop := {
  wf_x : 0 <= size_x_ g <= 2 ^ 31;
  wf_y : 0 <= size_y_ g <= 2 ^ 31;
  wf_z : 0 <= size_z_ g <= 16;
  wf_size : size_x_ g * size_y_ g <= 2 ^ 31;
  wf_len : alen (data_ g) = size_x_ g * size_y_ g;
  wf_cols : forall i c, aget (data_ g) i = Some c -> valid_column c;
  wf_map : forall cm, costmap g = Some cm -> alen cm = size_x_ g * size_y_ g;
}.

Definition in_grid (g : VoxelGrid) (p : cell) : Prop := in_box (size_x_ g) (size_y_ g) (size_z_ g) p.

#[global] Arguments in_grid : simpl never.

(** The status of a voxel; everything outside of the columns is unknown. *)
Definition view (g : VoxelGrid) (p : cell) : VoxelStatus :=
  let '(x, y, z) := p in
  match aget (data_ g) (y * size_x_ g + x) with
  | Some c => voxel_of c z
  | None => UNKNOWN
  end.

(** The state of the array when the column at [(x, y)] becomes [f] of itself. *)
Definition update_column (g : VoxelGrid) (x y : Z) (f : Z -> Z) (d : list Z) : Prop :=
  alen d = alen (data_ g) /\
  forall i, aget d i = if i =? y * size_x_ g + x then f <$> aget (data_ g) i else aget (data_ g) i.

Lemma cell_index_small g x y :
  wf_grid g -> 0 <= x < size_x_ g -> 0 <= y < size_y_ g ->
  cell_index g x y = y * size_x_ g + x /\ s32 (cell_index g x y) = y * size_x_ g + x /\
  0 <= y * size_x_ g + x < size_x_ g * size_y_ g.
Proof.
  intros [] Hx Hy. pose proof (index_bound (size_x_ g) (size_y_ g) x y Hx Hy) as Hb.
  unfold cell_index. rewrite u32_add_l, u32_small by (unfold is_u32; ilia).
  split; [done|]. split; [|done]. apply s32_small. unfold is_s32. ilia.
Qed.

Lemma column_exists g x y :
  wf_grid g -> 0 <= x < size_x_ g -> 0 <= y < size_y_ g ->
  exists c, aget (data_ g) (y * size_x_ g + x) = Some c /\ valid_column c.
Proof.
  intros Hw Hx Hy. destruct (cell_index_small g x y Hw Hx Hy) as (_ & _ & Hb).
  destruct (aget_is_Some (data_ g) (y * size_x_ g + x)) as [c Hc].
  { rewrite (wf_len g Hw). lia. }
  exists c. split; [done|]. eapply wf_cols; done.
Qed.

(** Writing [f col] in a column keeps the grid well formed when [f] keeps
    columns valid. *)
Lemma set_column g x y c f :
  wf_grid g -> 0 <= x < size_x_ g -> 0 <= y < size_y_ g ->
  aget (data_ g) (y * size_x_ g + x) = Some c -> valid_column (f c) ->
  exists d, aset (data_ g) (y * size_x_ g + x) (f c) = Some d /\
    update_column g x y f d /\ wf_grid (set_data g d).
Proof.
  intros Hw Hx Hy Hc Hf. pose proof (aget_bounds _ _ _ Hc) as Hb.
  exists (<[Z.to_nat (y * size_x_ g + x) := f c]> (data_ g)).
  pose proof (aset_Some (data_ g) _ (f c) Hb) as Es. split; [done|].
  assert (update_column g x y f (<[Z.to_nat (y * size_x_ g + x) := f c]> (data_ g))) as Hu.
  { split; [by eapply aset_len|]. intros i. rewrite (aget_aset _ _ _ _ i Es), Z.eqb_sym.
    destruct (Z.eqb_spec i (y * size_x_ g + x)) as [->|]; [by rewrite Hc | done]. }
  split; [done|]. destruct Hu as [Hl Hu]. destruct Hw.
  constructor; simpl; try done; [congruence|].
  intros i c' Hi. rewrite Hu in Hi. destruct (Z.eqb_spec i (y * size_x_ g + x)) as [->|].
  - rewrite Hc in Hi. by injection Hi as <-.
  - by eapply wf_cols0.
Qed.

(** The effect on the abstract grid of a change of one voxel of a column. *)
Lemma view_update g x y z f d s :
  wf_grid g -> in_grid g (x, y, z) -> update_column g x y f d ->
  (forall c z', 0 <= z' < 16 -> voxel_of (f c) z' = if z =? z' then s else voxel_of c z') ->
  forall p, in_grid g p ->
    view (set_data g d) p = if bool_decide (p = (x, y, z)) then s else view g p.
Proof.
  intros Hw Hp [Hl Hu] Hf [[x' y'] z'] Hp'. unfold view, in_grid, in_box in *. simpl. rewrite Hu.
  pose proof (wf_z g Hw).
  destruct (Z.eqb_spec (y' * size_x_ g + x') (y * size_x_ g + x)) as [Ei|Hne].
  - apply index_inj in Ei as [-> ->]; [|lia..].
    destruct (column_exists g x y Hw ltac:(lia) ltac:(lia)) as (c & -> & _). simpl.
    rewrite Hf by lia. case_bool_decide as E; destruct (Z.eqb_spec z z'); try done; congruence.
  - rewrite bool_decide_eq_false_2; [done|]. intros [= -> -> ->]. done.
Qed.

Lemma out_of_bounds_false g x y z :
  0 <= x -> 0 <= y -> 0 <= z -> out_of_bounds g x y z = false <-> in_grid g (x, y, z).
Proof. intros. unfold out_of_bounds, in_grid, in_box. zbool. lia. Qed.

Lemma out_of_bounds_true g x y z :
  out_of_bounds g x y z = true -> ~ in_grid g (x, y, z).
Proof. unfold out_of_bounds, in_grid, in_box. intros H. zbool. lia. Qed.

(** *** Reading *)

Lemma pair_mask_count c z :
  is_u32 c -> 0 <= z < 16 ->
  popcount 32 (Z.land c (pair_mask z)) = Z.b2z (Z.testbit c z) + Z.b2z (Z.testbit c (z + 16)).
Proof.
  intros Hc Hz. rewrite popcount_count by (apply Z.land_nonneg; left; apply Hc).
  rewrite (count_ext 32 _ (fun i => (Z.testbit c i && (i =? z)) || (Z.testbit c i && (i =? z + 16)))).
  - rewrite count_or, !count_single; [done | lia | lia |].
    intros i _. destruct (Z.eqb_spec i z), (Z.eqb_spec i (z + 16)); try lia;
      by rewrite ?andb_false_r.
  - intros i Hi. rewrite Z.land_spec, pair_mask_testbit by lia. apply andb_orb_distrib_r.
Qed.

(** Reading the pair of bits of a valid column. *)
Lemma read_voxel c z :
  valid_column c -> 0 <= z < 16 ->
  (bits ← numBits (Z.land c (pair_mask z));
   if bits <? 2 then if bits <? 1 then Some FREE else Some UNKNOWN else Some MARKED)
  = Some (voxel_of c z).
Proof.
  intros [Hc Hv] Hz. rewrite numBits_popcount by auto with ints. mred.
  rewrite pair_mask_count by done. unfold voxel_of.
  by destruct (Z.testbit c (z + 16)), (Z.testbit c z).
Qed.

Lemma getVoxel_view g x y z :
  wf_grid g -> in_grid g (x, y, z) -> getVoxel g x y z = Some (view g (x, y, z)).
Proof.
  intros Hw Hp. unfold getVoxel. rewrite (proj2 (out_of_bounds_false g x y z
    ltac:(apply Hp) ltac:(apply Hp) ltac:(apply Hp)) Hp).
  unfold in_grid, in_box in Hp. pose proof (wf_z g Hw).
  rewrite full_mask_pair by lia. mred.
  destruct (cell_index_small g x y Hw ltac:(lia) ltac:(lia)) as (-> & _ & _).
  destruct (column_exists g x y Hw ltac:(lia) ltac:(lia)) as (c & Hc & Hv).
  unfold view. rewrite Hc. mred. apply read_voxel; [done | lia].
Qed.

(** *** Writing *)

(** What an operation on a grid guarantees: same sizes, still well formed, and
    the abstract grid [v] on its cells. *)
Definition becomes (g g' : VoxelGrid) (v : cell -> VoxelStatus) : Prop :=
  wf_grid g' /\
  size_x_ g' = size_x_ g /\ size_y_ g' = size_y_ g /\ size_z_ g' = size_z_ g /\
  (costmap g = None <-> costmap g' = None) /\
  forall p, in_grid g p -> view g' p = v p.

Definition assign (p0 : cell) (s : VoxelStatus) (v : cell -> VoxelStatus) (p : cell) : VoxelStatus :=
  if bool_decide (p = p0) then s else v p.

Lemma becomes_same g x y z s :
  wf_grid g -> out_of_bounds g x y z = true -> becomes g g (assign (x, y, z) s (view g)).
Proof.
  intros Hw Ho%out_of_bounds_true. do 5 (split; [done|]). intros p Hp. unfold assign. rewrite bool_decide_eq_false_2; [done|]. by intros ->.
Qed.

(** The shared step of every operation on one voxel: the column is read and
    the word [f c] is written back. *)
Lemma write_voxel g x y z (f : Z -> Z) s :
  wf_grid g -> in_grid g (x, y, z) ->
  (forall c, valid_column c -> valid_column (f c)) ->
  (forall c z', 0 <= z' < 16 -> voxel_of (f c) z' = if z =? z' then s else voxel_of c z') ->
  exists c d, aget (data_ g) (y * size_x_ g + x) = Some c /\ valid_column c /\
    aset (data_ g) (y * size_x_ g + x) (f c) = Some d /\
    becomes g (set_data g d) (assign (x, y, z) s (view g)).
Proof.
  intros Hw Hp Hf Hs. pose proof Hp as Hp0. unfold in_grid, in_box in Hp0.
  destruct (column_exists g x y Hw ltac:(lia) ltac:(lia)) as (c & Hc & Hv).
  destruct (set_column g x y c f Hw ltac:(lia) ltac:(lia) Hc (Hf c Hv)) as (d & Hd & Hu & Hw').
  exists c, d. do 3 (split; [done|]). do 5 (split; [done|]). intros p Hp'. by apply (view_update g x y z f d s).
Qed.

Section single_voxel.
Context (g : VoxelGrid) (Hw : wf_grid g) (x y z : Z) (Hx : 0 <= x) (Hy : 0 <= y) (Hz : 0 <= z).

(** The voxel is in the grid: its index and its mask. *)
Local Ltac locate Ho :=
  apply out_of_bounds_false in Ho; [|done..];
  pose proof Ho as Ho'; unfold in_grid, in_box in Ho'; pose proof (wf_z g Hw);
  destruct (cell_index_small g x y Hw ltac:(lia) ltac:(lia)) as (Ei & Es & _);
  cbv zeta; rewrite ?Es, ?Ei, full_mask_pair by lia; mred.

Local Ltac in_or_out :=
  destruct (out_of_bounds g x y z) eqn:Ho; [eexists; split; [reflexivity|by apply becomes_same]|];
  locate Ho.

Lemma markVoxel_becomes :
  exists g', markVoxel g x y z = Some g' /\ becomes g g' (assign (x, y, z) MARKED (view g)).
Proof.
  unfold markVoxel. in_or_out.
  destruct (write_voxel g x y z (fun c => Z.lor c (pair_mask z)) MARKED) as (c & d & -> & _ & E & B);
    try done; [intros; apply valid_mark; [lia|done]|
    intros; apply voxel_of_mark; lia|].
  mred. rewrite E. mred. eauto.
Qed.

Lemma clearVoxel_becomes :
  exists g', clearVoxel g x y z = Some g' /\ becomes g g' (assign (x, y, z) FREE (view g)).
Proof.
  unfold clearVoxel. in_or_out.
  destruct (write_voxel g x y z (fun c => Z.land c (not32 (pair_mask z))) FREE)
    as (c & d & -> & _ & E & B); try done;
    [intros; apply valid_clear; [lia|done]|intros; apply voxel_of_clear; lia|].
  mred. rewrite E. mred. eauto.
Qed.
(** The number of marked voxels of the column decides the result. *)
Lemma markVoxelInMap_becomes t :
  0 <= t ->
  exists b g', markVoxelInMap g x y z t = Some (b, g') /\
    becomes g g' (assign (x, y, z) MARKED (view g)) /\
    (in_grid g (x, y, z) -> exists c, aget (data_ g') (y * size_x_ g + x) = Some c /\
       b = bool_decide (t < column_count MARKED c)).
Proof.
  intros Ht. unfold markVoxelInMap.
  destruct (out_of_bounds g x y z) eqn:Ho.
  { exists false, g. split; [done|]. split; [by apply becomes_same|].
    intros Hp. by apply out_of_bounds_true in Ho. }
  locate Ho.
  destruct (write_voxel g x y z (fun c => Z.lor c (pair_mask z)) MARKED) as (c & d & -> & Hv & E & B);
    try done; [intros; apply valid_mark; [lia|done]|intros; apply voxel_of_mark; lia|].
  mred. rewrite E. mred. assert (valid_column (Z.lor c (pair_mask z))) as Hv' by (apply valid_mark; [lia|done]).
  rewrite bitsBelow_popcount, popcount_marked by auto with ints. mred.
  eexists _, _. split; [done|]. split; [done|]. intros _.
  exists (Z.lor c (pair_mask z)). split.
  - simpl. by rewrite (aget_aset _ _ _ _ _ E), Z.eqb_refl.
  - rewrite <- Z.ltb_antisym. case_bool_decide as H'; [by apply Z.ltb_lt | apply Z.ltb_ge; lia].
Qed.

(** The 2D map is only written at the column, with the free cost, when at
    most one voxel of it is unknown and at most one is marked. *)
Lemma clearVoxelInMap_becomes cm :
  costmap g = Some cm ->
  exists g' cm', clearVoxelInMap g x y z = Some g' /\
    becomes g g' (assign (x, y, z) FREE (view g)) /\ costmap g' = Some cm' /\
    forall i, aget cm' i = aget cm i \/
      aget cm' i = Some 0 /\ i = y * size_x_ g + x /\
      exists c, aget (data_ g') i = Some c /\ column_count UNKNOWN c <= 1 /\ column_count MARKED c <= 1.
Proof.
  intros Hcm. unfold clearVoxelInMap.
  destruct (out_of_bounds g x y z) eqn:Ho.
  { exists g, cm. split; [done|]. split; [by apply becomes_same|]. auto. }
  locate Ho.
  destruct (write_voxel g x y z (fun c => Z.land c (not32 (pair_mask z))) FREE)
    as (c & d & -> & Hv & E & B); try done;
    [intros; apply valid_clear; [lia|done]|intros; apply voxel_of_clear; lia|].
  mred. rewrite E. mred. set (c' := Z.land c (not32 (pair_mask z))) in *.
  assert (valid_column c') as Hv' by (apply valid_clear; [lia|done]).
  rewrite !bitsBelow_popcount, popcount_marked, popcount_unknown by (auto with ints; lia). mred.
  destruct (_ && _) eqn:Hb; [|by exists (set_data g d), cm; auto].
  rewrite Hcm. mred.
  assert (0 <= y * size_x_ g + x < alen cm) as Hi.
  { rewrite (wf_map g Hw cm Hcm). apply index_bound; lia. }
  pose proof (aset_Some cm _ 0 Hi) as Ec. rewrite Ec. mred.
  eexists _, _. split; [done|]. split; [|split; [done|]].
  - destruct B as ([] & ? & ? & ? & ? & Bv).
    split; [|simpl; repeat split; try done; simpl in *; congruence].
    constructor; simpl in *; try done. intros cm' [= <-]. rewrite <- (wf_map g Hw cm Hcm).
    unfold alen. by rewrite length_insert.
  - intros i. rewrite (aget_aset _ _ _ _ i Ec). destruct (Z.eqb_spec (y * size_x_ g + x) i) as [<-|]; [|auto].
    right. split; [done|]. split; [done|]. exists c'. zbool. simpl.
    by rewrite (aget_aset _ _ _ _ _ E), Z.eqb_refl.
Qed.
End single_voxel.

(** Filling an array from the front. *)
Lemma fill_array {A} (l : list A) (n : Z) (x : A) :
  0 <= n <= alen l ->
  exists l', for_range 0 n (fun i d => aset d i x) l = Some l' /\ alen l' = alen l /\
    forall i, aget l' i = if bool_decide (0 <= i < n) then Some x else aget l i.
Proof.
  intros Hn.
  apply (for_range_inv (fun k l' => alen l' = alen l /\
    forall i, aget l' i = if bool_decide (0 <= i < k) then Some x else aget l i)
    (fun i d => aset d i x) 0 n l); [lia| |].
  - split; [done|]. intros i. rewrite bool_decide_eq_false_2 by lia. done.
  - intros k t Hk [Hl Ht]. pose proof (aset_Some t k x ltac:(lia)) as E. eexists. split; [exact E|].
    split; [rewrite (aset_len _ _ _ _ E); done|]. intros i. rewrite (aget_aset _ _ _ _ i E), Ht.
    destruct (Z.eqb_spec k i) as [->|]; repeat case_bool_decide; try done; lia.
Qed.

Lemma reset_becomes g :
  wf_grid g -> exists g', reset g = Some g' /\ becomes g g' (fun _ => UNKNOWN).
Proof.
  intros Hw. pose proof Hw as []. unfold reset. rewrite u32_small by (unfold is_u32; ilia; nia).
  destruct (fill_array (data_ g) (size_x_ g * size_y_ g) unknown_col) as (d & E & Hl & Hd); [nia|].
  rewrite E. mred. eexists. split; [done|]. split; [|do 4 (split; [done|])].
  - constructor; simpl; try done; [congruence|]. intros i c Hi. rewrite Hd in Hi.
    case_bool_decide; [injection Hi as <-; auto with ints|]. apply aget_bounds in Hi. lia.
  - intros [[x y] z] Hp. unfold view. simpl. unfold in_grid, in_box in Hp.
    pose proof (index_bound (size_x_ g) (size_y_ g) x y ltac:(lia) ltac:(lia)).
    rewrite Hd, bool_decide_eq_true_2 by lia. apply voxel_of_unknown. lia.
Qed.

(** The sizes a grid can be built with: the product of the plane fits [int]. *)
Definition size_ok (sx sy sz : Z) : Prop :=
  0 <= sx <= 2 ^ 31 /\ 0 <= sy <= 2 ^ 31 /\ 0 <= sz /\ sx * sy <= 2 ^ 31.

Lemma new_data_spec sx sy :
  0 <= sx -> 0 <= sy -> sx * sy <= 2 ^ 31 -> new_data sx sy = anew (sx * sy) unknown_col.
Proof. intros. unfold new_data. rewrite u32_small by (unfold is_u32; ilia; nia). done. Qed.

Lemma fresh_wf sx sy sz m :
  size_ok sx sy sz -> (forall cm, m = Some cm -> alen cm = sx * sy) ->
  let g := mkVoxelGrid sx sy (if 16 <? sz then 16 else sz) (new_data sx sy) m in
  wf_grid g /\ forall p, in_grid g p -> view g p = UNKNOWN.
Proof.
  intros (Hx & Hy & Hz & Hs) Hm. cbv zeta. rewrite new_data_spec by lia.
  pose proof (Zlt_cases 16 sz) as Hc.
  assert (0 <= (if 16 <? sz then 16 else sz) <= 16) by (destruct (16 <? sz); lia).
  split.
  - constructor; simpl; try done; [apply alen_anew; nia|].
    intros i c Hi. pose proof (aget_bounds _ _ _ Hi) as Hb. rewrite alen_anew in Hb by nia.
    rewrite aget_anew in Hi by lia. injection Hi as <-. auto with ints.
  - intros [[x y] z] Hp. unfold in_grid, in_box in Hp. simpl in Hp. unfold view. simpl.
    rewrite aget_anew by (apply index_bound; lia). apply voxel_of_unknown. lia.
Qed.

(** ** Sequences of operations and the abstract grid *)

Inductive voxel_op :=
| OpMark (x y z : Z)
| OpMarkInMap (x y z marked_threshold : Z)
| OpClear (x y z : Z)
| OpClearInMap (x y z : Z)
| OpReset.

Definition run_op (g : VoxelGrid) (op : voxel_op) : option VoxelGrid :=
  match op with
  | OpMark x y z => markVoxel g x y z
  | OpMarkInMap x y z t => snd <$> markVoxelInMap g x y z t
  | OpClear x y z => clearVoxel g x y z
  | OpClearInMap x y z => clearVoxelInMap g x y z
  | OpReset => reset g
  end.

(** The arguments are unsigned; [clearVoxelInMap] needs its map. *)
Definition op_ok (g : VoxelGrid) (op : voxel_op) : Prop :=
  match op with
  | OpMark x y z | OpClear x y z => 0 <= x /\ 0 <= y /\ 0 <= z
  | OpMarkInMap x y z t => 0 <= x /\ 0 <= y /\ 0 <= z /\ 0 <= t
  | OpClearInMap x y z => 0 <= x /\ 0 <= y /\ 0 <= z /\ costmap g <> None
  | OpReset => True
  end.

(** The same operation on an abstract grid. *)
Definition abs_op (v : cell -> VoxelStatus) (op : voxel_op) : cell -> VoxelStatus :=
  match op with
  | OpMark x y z | OpMarkInMap x y z _ => assign (x, y, z) MARKED v
  | OpClear x y z | OpClearInMap x y z => assign (x, y, z) FREE v
  | OpReset => fun _ => UNKNOWN
  end.

Fixpoint run_ops (g : VoxelGrid) (ops : list voxel_op) : option VoxelGrid :=
  match ops with
  | [] => Some g
  | op :: ops => g' ← run_op g op; run_ops g' ops
  end.

Lemma run_op_becomes g op :
  wf_grid g -> op_ok g op -> exists g', run_op g op = Some g' /\ becomes g g' (abs_op (view g) op).
Proof.
  intros Hw. destruct op as [x y z|x y z t|x y z|x y z|]; simpl; intros Hok.
  - apply markVoxel_becomes; [done | lia..].
  - destruct (markVoxelInMap_becomes g Hw x y z ltac:(lia) ltac:(lia) ltac:(lia) t ltac:(lia))
      as (b & g' & -> & B & _). by exists g'.
  - apply clearVoxel_becomes; [done | lia..].
  - destruct (costmap g) as [cm|] eqn:Hcm; [|tauto].
    destruct (clearVoxelInMap_becomes g Hw x y z ltac:(lia) ltac:(lia) ltac:(lia) cm Hcm)
      as (g' & cm' & -> & B & _). by exists g'.
  - by apply reset_becomes.
Qed.

Lemma abs_op_ext v v' op p (P : cell -> Prop) :
  (forall q, P q -> v q = v' q) -> P p -> abs_op v op p = abs_op v' op p.
Proof. intros H Hp. destruct op; simpl; unfold assign; try case_bool_decide; auto. Qed.

Lemma abs_ops_ext ops v v' p (P : cell -> Prop) :
  (forall q, P q -> v q = v' q) -> P p -> foldl abs_op v ops p = foldl abs_op v' ops p.
Proof.
  revert v v'. induction ops as [|op ops IH]; intros v v' H Hp; simpl; [by apply H|].
  apply IH; [|done]. intros q Hq. by apply (abs_op_ext v v' op q P).
Qed.

(** C1. Refinement of the voxel grid: any sequence of mark, mark-in-map,
    clear, clear-in-map and reset operations on a well-formed grid runs without
    undefined behaviour, keeps the grid well formed with the same sizes, and
    [getVoxel] then answers what the same sequence of pointwise assignments on
    an abstract map from cells to statuses gives; operations out of the grid
    change nothing and reads out of it answer UNKNOWN. *)
Theorem voxel_ops_refine (g : VoxelGrid) (ops : list voxel_op) :
  wf_grid g -> Forall (op_ok g) ops ->
  exists g', run_ops g ops = Some g' /\ wf_grid g' /\
    forall x y z, 0 <= x -> 0 <= y -> 0 <= z ->
      getVoxel g' x y z
      = Some (if bool_decide (in_grid g (x, y, z)) then foldl abs_op (view g) ops (x, y, z) else UNKNOWN).
Proof.
  intros Hw Hops. revert g Hw Hops. induction ops as [|op ops IH]; intros g Hw Hops; simpl.
  - exists g. split; [done|]. split; [done|]. intros x y z Hx Hy Hz.
    case_bool_decide as Hp; [by apply getVoxel_view|].
    unfold getVoxel. destruct (out_of_bounds g x y z) eqn:Ho; [done|].
    by apply out_of_bounds_false in Ho.
  - apply Forall_cons_1 in Hops as [Hop Hops].
    destruct (run_op_becomes g op Hw Hop) as (g1 & -> & Hw1 & Ex & Ey & Ez & Em & Hv). mred.
    destruct (IH g1 Hw1) as (g' & -> & Hw' & Hget).
    { eapply Forall_impl; [exact Hops|]. intros [] Ho; simpl in *; try done.
      destruct Ho as (? & ? & ? & Ho). do 3 (split; [done|]). by rewrite <- Em. }
    exists g'. split; [done|]. split; [done|]. intros x y z Hx Hy Hz. rewrite Hget by done.
    assert (in_grid g1 (x, y, z) <-> in_grid g (x, y, z)) as Hg
      by (unfold in_grid; by rewrite Ex, Ey, Ez).
    f_equal. rewrite (bool_decide_ext _ _ Hg). case_bool_decide as Hp; [|done].
    apply (abs_ops_ext _ _ _ _ (in_grid g)); done.
Qed.

Definition example_grid : VoxelGrid := VoxelGrid_new 3 2 5.

Lemma example_grid_wf : wf_grid example_grid.
Proof. apply (fresh_wf 3 2 5 None); [unfold size_ok; lia | done]. Qed.

Lemma voxel_ops_refine_witness :
  exists g', run_ops example_grid [OpMark 2 1 4; OpClear 0 0 0; OpMark 7 0 0] = Some g' /\ wf_grid g' /\
    getVoxel g' 2 1 4 = Some MARKED.
Proof.
  destruct (voxel_ops_refine example_grid [OpMark 2 1 4; OpClear 0 0 0; OpMark 7 0 0]
              example_grid_wf) as (g' & E & Hw & H).
  - repeat constructor; simpl; lia.
  - exists g'. split; [exact E|]. split; [exact Hw|].
    rewrite (H 2 1 4) by lia. vm_compute. reflexivity.
Defined.

(** [getVoxelColumn] counts the voxels of the column: MARKED when more
    than [marked_threshold] of them are marked, else UNKNOWN when more than
    [unknown_threshold] are unknown, else FREE.  All 16 layers count, those
    above [size_z_] included; a query out of the plane answers UNKNOWN. *)
Theorem getVoxelColumn_counts (g : VoxelGrid) (x y unknown_threshold marked_threshold : Z) :
  wf_grid g -> 0 <= x -> 0 <= y -> 0 <= unknown_threshold -> 0 <= marked_threshold ->
  (size_x_ g <= x \/ size_y_ g <= y ->
     getVoxelColumn g x y unknown_threshold marked_threshold = Some UNKNOWN) /\
  (x < size_x_ g -> y < size_y_ g ->
     exists c, aget (data_ g) (y * size_x_ g + x) = Some c /\ valid_column c /\
       getVoxelColumn g x y unknown_threshold marked_threshold
       = Some (if marked_threshold <? column_count MARKED c then MARKED
               else if unknown_threshold <? column_count UNKNOWN c then UNKNOWN else FREE)).
Proof.
  intros Hw Hx Hy Hu Hm. unfold getVoxelColumn. split.
  - intros H. destruct ((size_x_ g <=? x) || (size_y_ g <=? y)) eqn:E; [done|]. zbool. lia.
  - intros Hx' Hy'. rewrite (proj2 (Z.leb_gt _ _) Hx'), (proj2 (Z.leb_gt _ _) Hy'). simpl orb.
    cbv iota. destruct (cell_index_small g x y Hw ltac:(lia) ltac:(lia)) as (-> & _ & _).
    destruct (column_exists g x y Hw ltac:(lia) ltac:(lia)) as (c & Hc & Hv).
    exists c. split; [done|]. split; [done|]. rewrite Hc. mred.
    rewrite !bitsBelow_popcount, popcount_marked, popcount_unknown by auto with ints. mred.
    rewrite !(Z.ltb_antisym (column_count _ _)).
    by destruct (column_count MARKED c <=? _), (column_count UNKNOWN c <=? _).
Qed.

Lemma getVoxelColumn_counts_witness :
  getVoxelColumn example_grid 1 1 0 0 = Some UNKNOWN /\
  getVoxelColumn example_grid 1 1 16 0 = Some FREE.
Proof.
  pose proof (proj2 (getVoxelColumn_counts example_grid 1 1 16 0 example_grid_wf
    ltac:(lia) ltac:(lia) ltac:(lia) ltac:(lia)) ltac:(reflexivity) ltac:(reflexivity)) as (c & Hc & _ & H).
  split; [reflexivity|]. rewrite H. vm_compute in Hc. injection Hc as <-. vm_compute. reflexivity.
Defined.

(** [bitsBelowThreshold] and [numBits] terminate on every 32-bit word
    within 33 rounds and agree with the reference population count: the first
    tests it against the threshold, the second returns it. *)
Theorem bit_counting_correct (n bit_threshold : Z) :
  is_u32 n -> 0 <= bit_threshold ->
  numBits n = Some (count 32 (Z.testbit n)) /\
  bitsBelowThreshold n bit_threshold = Some (count 32 (Z.testbit n) <=? bit_threshold).
Proof.
  intros Hn Ht. rewrite <- popcount_count by apply Hn.
  split; [by apply numBits_popcount | by apply bitsBelow_popcount].
Qed.

Lemma bit_counting_correct_witness :
  numBits 4026531841 = Some 5 /\ bitsBelowThreshold 4026531841 4 = Some false.
Proof.
  destruct (bit_counting_correct 4026531841 4) as [H1 H2]; [unfold is_u32; lia | lia |].
  rewrite H1, H2. vm_compute. split; reflexivity.
Defined.

(** ** Lines between truncated end points *)

Definition ray_scale (dist : spec_float) (max_length : Z) : spec_float :=
  if fgt dist f_zero then fmin f_one (fdiv (f_of_Z max_length) dist) else f_one.

(** What a call of [raytraceLine] with [min_length = 0] needs to be defined:
    the end points truncate to the cells [p] and [q] of a grid, the distance
    and the number of rounds [len] convert to [unsigned int], and the unit
    direction is finite. *)
Record ray_ok (sx sy sz : Z) (x0 y0 z0 x1 y1 z1 : spec_float) (max_length : Z) (p q : cell) (len : Z) : Prop := {
  ray_p : f_trunc x0 = Some (fst (fst p)) /\ f_trunc y0 = Some (snd (fst p)) /\ f_trunc z0 = Some (snd p);
  ray_q : f_trunc x1 = Some (fst (fst q)) /\ f_trunc y1 = Some (snd (fst q)) /\ f_trunc z1 = Some (snd q);
  ray_in_p : in_box sx sy sz p;
  ray_in_q : in_box sx sy sz q;
  ray_dist : is_Some (f_to_u32 (fsqrt (sq_dist x0 y0 z0 x1 y1 z1)));
  ray_dir : let dist := fsqrt (sq_dist x0 y0 z0 x1 y1 z1) in
            is_finite (fdiv (fsub x1 x0) dist) && is_finite (fdiv (fsub y1 y0) dist)
            && is_finite (fdiv (fsub z1 z0) dist) || negb (fgt dist f_zero) = true;
  ray_len : f_to_u32 (fmul (ray_scale (fsqrt (sq_dist x0 y0 z0 x1 y1 z1)) max_length)
                        (f_of_Z (extent p q))) = Some len;
}.

Lemma raytraceLine_run {S} (at_ : S -> Z * Z -> option S) sx sy sz x0 y0 z0 x1 y1 z1 max_length p q len s :
  sx * sy <= 2 ^ 31 -> sx <= 2 ^ 31 -> sy <= 2 ^ 31 -> sz <= 16 ->
  ray_ok sx sy sz x0 y0 z0 x1 y1 z1 max_length p q len ->
  raytraceLine at_ sx x0 y0 z0 x1 y1 z1 max_length 0 s
  = run_cells at_ (encode sx <$> line_cells p q len) s.
Proof.
  intros Hs Hsx Hsy Hsz [(P1 & P2 & P3) (Q1 & Q2 & Q3) Hp Hq [ud Hd] Hdir Hlen].
  destruct p as [[ax ay] az], q as [[bx by_] bz]. simpl in *.
  pose proof (f_to_u32_inv _ _ Hd) as [_ [Hd0 _]].
  unfold raytraceLine. rewrite Hd. mred. rewrite (proj2 (Z.ltb_ge ud 0)) by done.
  unfold ray_scale in Hlen. destruct (fgt _ f_zero) eqn:Hgt.
  - rewrite orb_false_r in Hdir. apply andb_true_iff in Hdir as [[F1 F2]%andb_true_iff F3].
    unfold min_start. eapply raytrace_cells_spec; try done; try lia;
      rewrite ?fadd_fmul_zero_trunc; eauto using f_trunc_finite.
    all: unfold in_box in *; lia.
  - eapply raytrace_cells_spec; try done; unfold in_box in *; lia.
Qed.

(** A walk keeps what its action keeps. *)
Section walk_inv.
Context {S : Type} (at_ : S -> Z * Z -> option S) (I : S -> Prop) (Hat : forall s p s', I s -> at_ s p = Some s' -> I s').

Lemma bresenham3D_inv oa ob oc da db dc eb ec fa fb fc p n s s' : 0 <= Z.min n da -> bresenham3D at_ oa ob oc da db dc eb ec fa fb fc p n s = Some s' -> I s -> I s'.
Proof using Hat.
  intros Hn H Hs. unfold bresenham3D in H. destruct (for_range _ _ _ _) as [[[[s1 p1] eb1] ec1]|] eqn:E; [|done]. rewrite mbind_Some in H.
  apply (Hat s1 p1); [|exact H].
  apply (for_range_post (fun _ st => I (fst (fst (fst st)))) _ _ _ _ _ Hn E Hs). intros i [[[s2 p2] b2] c2] t' _ H2 Eb. unfold bres3_body in Eb.
  destruct (at_ s2 p2) as [s3|] eqn:E3; [|done]. rewrite mbind_Some in Eb. destruct (bres_step _ _ b2), (bres_step _ _ c2). injection Eb as <-. exact (Hat _ _ _ H2 E3).
Qed.

Lemma raytrace_cells_inv size_x scale mx0 my0 mz0 x1 y1 z1 s s' : raytrace_cells at_ size_x scale mx0 my0 mz0 x1 y1 z1 s = Some s' -> I s -> I s'.
Proof using Hat.
  unfold raytrace_cells. intros H Hs.
  repeat match type of H with (?x ≫= _) = Some _ => let E := fresh in destruct x eqn:E; [|done]; rewrite mbind_Some in H; cbv beta zeta in H end.
  assert (forall a b, sint (Z.abs a) = Some b -> 0 <= b) as Hpos. { intros a b. unfold sint. destruct (_ && _); [|done]. intros [= <-]. lia. }
  assert (forall x n, f_to_u32 x = Some n -> 0 <= n) as Hu. { intros x n Hx. apply f_to_u32_inv in Hx as [_ [? _]]. done. }
  destruct (_ <=? _); [|destruct (_ <=? _)]; (destruct (f_to_u32 (fmul _ _)) as [len|] eqn:El; [|done]); rewrite mbind_Some in H;
    (eapply bresenham3D_inv; [|exact H|exact Hs]); apply Z.min_glb; eauto.
Qed.

Lemma raytraceLine_inv size_x x0 y0 z0 x1 y1 z1 far near s s' : raytraceLine at_ size_x x0 y0 z0 x1 y1 z1 far near s = Some s' -> I s -> I s'.
Proof using Hat.
  unfold raytraceLine. cbv zeta. intros H Hs. destruct (f_to_u32 _) as [n|]; [|done]. rewrite mbind_Some in H. destruct (n <? near); [by injection H as <-|].
  destruct (fgt _ _); eapply raytrace_cells_inv; eauto.
Qed.
End walk_inv.

Definition adjacent (p q : cell) : Prop :=
  let '(x0, y0, z0) := p in let '(x1, y1, z1) := q in
  Z.abs (x1 - x0) <= 1 /\ Z.abs (y1 - y0) <= 1 /\ Z.abs (z1 - z0) <= 1.

Lemma axis_at_step a b da i :
  0 < da < 2 ^ 31 -> Z.abs (b - a) <= da -> 0 <= i ->
  Z.abs (axis_at a b da (i + 1) - axis_at a b da i) <= 1.
Proof.
  intros Hda Hd Hi. unfold axis_at.
  destruct (minor_moves_succ da (Z.abs (b - a)) Hda ltac:(lia) i Hi) as [-> | ->];
    destruct (sign_pm (b - a)) as [[-> _]|[-> _]]; lia.
Qed.

Lemma line_point_adjacent p q i :
  0 < extent p q < 2 ^ 31 -> 0 <= i -> adjacent (line_point p q i) (line_point p q (i + 1)).
Proof.
  destruct p as [[x0 y0] z0], q as [[x1 y1] z1]. intros He Hi. unfold line_point, adjacent.
  set (da := extent (x0, y0, z0) (x1, y1, z1)) in *.
  assert (Z.abs (x1 - x0) <= da /\ Z.abs (y1 - y0) <= da /\ Z.abs (z1 - z0) <= da) as (?&?&?)
    by (unfold da, extent; lia).
  pose proof (axis_at_step x0 x1 da i He ltac:(lia) Hi).
  pose proof (axis_at_step y0 y1 da i He ltac:(lia) Hi).
  pose proof (axis_at_step z0 z1 da i He ltac:(lia) Hi). lia.
Qed.

Lemma line_point_0 p q : 0 <= extent p q < 2 ^ 31 -> line_point p q 0 = p.
Proof.
  destruct p as [[x0 y0] z0], q as [[x1 y1] z1]. intros He. unfold line_point.
  unfold extent in *. rewrite !axis_at_0 by lia. done.
Qed.

Lemma line_point_end p q : 0 <= extent p q < 2 ^ 31 -> line_point p q (extent p q) = q.
Proof.
  destruct p as [[x0 y0] z0], q as [[x1 y1] z1]. intros He. unfold line_point.
  unfold extent in *. rewrite !axis_at_end by lia. done.
Qed.

Lemma zrange_lookup lo hi k :
  (k < Z.to_nat (hi - lo))%nat -> zrange lo hi !! k = Some (lo + Z.of_nat k).
Proof. intros H. unfold zrange. rewrite list_lookup_fmap, lookup_seq_lt by done. done. Qed.

Lemma line_cells_lookup p q n k c :
  0 <= extent p q -> 0 <= n -> line_cells p q n !! k = Some c ->
  Z.of_nat k <= Z.min n (extent p q) /\ c = line_point p q (Z.of_nat k).
Proof.
  intros He Hn H. pose proof (lookup_lt_Some _ _ _ H) as Hk. unfold line_cells in *.
  rewrite length_fmap, zrange_length in Hk.
  rewrite list_lookup_fmap, zrange_lookup in H by lia. injection H as <-. split; [lia|].
  f_equal.
Qed.

Lemma line_cells_in_box sx sy sz p q n c :
  in_box sx sy sz p -> in_box sx sy sz q -> sx <= 2 ^ 31 -> sy <= 2 ^ 31 -> sz <= 16 -> 0 <= n ->
  c ∈ line_cells p q n -> in_box sx sy sz c.
Proof.
  intros Hp Hq Hx Hy Hz Hn [k Hk]%list_elem_of_lookup.
  pose proof (extent_range _ _ _ _ _ Hp Hq Hx Hy Hz) as He.
  apply line_cells_lookup in Hk as [Hk ->]; [|lia..].
  apply line_point_in_box; try done. lia.
Qed.

(** On one axis [x] is within half a cell of where the ideal line from [a] to [b],
    of [da] steps, is after the step [k]. *)
Definition near_line (da a b k x : Z) : Prop := Z.abs (2 * ((x - a) * da - k * (b - a))) <= da.

Lemma axis_at_near a b da k : da < 2 ^ 31 -> Z.abs (b - a) <= da -> 0 <= k <= da -> near_line da a b k (axis_at a b da k).
Proof.
  intros Hda Hab Hk. unfold near_line, axis_at.
  destruct (Z.eq_dec da 0) as [->|Hne]; [assert (k = 0) as -> by lia; assert (b = a) as -> by lia; rewrite Z.sub_diag; cbn; lia|].
  pose proof (minor_moves_close da (Z.abs (b - a)) ltac:(lia) k) as Hc.
  destruct (sign_pm (b - a)) as [[-> ?]|[-> ?]];
    [rewrite (Z.abs_eq (b - a)) in * by lia | rewrite (Z.abs_neq (b - a)) in * by lia]; lia.
Qed.

(** C12. [raytraceLine]: for every action functor, a call between two points of
    the grid runs the action, in order, on an explicit list of cells.  The list
    starts at the start cell, has [min(len, extent) + 1] cells, never leaves the
    grid, moves by at most one on every axis, stays within half a cell of the
    ideal line on every axis, and ends on the end cell when the length limit
    does not cut it. *)
Theorem raytraceLine_visits {S} (at_ : S -> Z * Z -> option S) sx sy sz x0 y0 z0 x1 y1 z1
    (max_length : Z) (p q : cell) (len : Z) (s : S) :
  sx * sy <= 2 ^ 31 -> sx <= 2 ^ 31 -> sy <= 2 ^ 31 -> sz <= 16 ->
  ray_ok sx sy sz x0 y0 z0 x1 y1 z1 max_length p q len ->
  exists cells : list cell,
    raytraceLine at_ sx x0 y0 z0 x1 y1 z1 max_length 0 s = run_cells at_ (encode sx <$> cells) s /\
    length cells = Z.to_nat (Z.min len (extent p q) + 1) /\
    cells !! 0%nat = Some p /\
    (forall c, c ∈ cells -> in_box sx sy sz c) /\
    (forall k c c', cells !! k = Some c -> cells !! Datatypes.S k = Some c' -> adjacent c c') /\
    (forall k x y z, cells !! k = Some (x, y, z) ->
       near_line (extent p q) (fst (fst p)) (fst (fst q)) (Z.of_nat k) x /\
       near_line (extent p q) (snd (fst p)) (snd (fst q)) (Z.of_nat k) y /\
       near_line (extent p q) (snd p) (snd q) (Z.of_nat k) z) /\
    (extent p q <= len -> last cells = Some q).
Proof.
  intros Hs Hsx Hsy Hsz Hr. exists (line_cells p q len).
  split; [by eapply raytraceLine_run|].
  destruct Hr as [_ _ Hp Hq _ _ Hlen]. apply f_to_u32_inv in Hlen as [_ [Hl _]].
  pose proof (extent_range _ _ _ _ _ Hp Hq Hsx Hsy Hsz) as He.
  assert (length (line_cells p q len) = Z.to_nat (Z.min len (extent p q) + 1)) as Hlength.
  { unfold line_cells. rewrite length_fmap, zrange_length. lia. }
  split; [done|]. split; [|split; [|split; [|split]]].
  - unfold line_cells. rewrite list_lookup_fmap, zrange_lookup by lia. simpl. by rewrite line_point_0.
  - intros c Hc. by apply (line_cells_in_box sx sy sz p q len).
  - intros k c c' Hk Hk'. apply line_cells_lookup in Hk as [Hk ->]; [|lia..].
    apply line_cells_lookup in Hk' as [Hk' ->]; [|lia..].
    replace (Z.of_nat (Datatypes.S k)) with (Z.of_nat k + 1) by lia.
    apply line_point_adjacent; lia.
  - intros k x y z Hk. apply line_cells_lookup in Hk as [Hk E]; [|lia..].
    destruct p as [[px py] pz], q as [[qx qy] qz]. unfold line_point in E. cbn [fst snd] in *.
    assert (Z.abs (qx - px) <= extent (px, py, pz) (qx, qy, qz) /\ Z.abs (qy - py) <= extent (px, py, pz) (qx, qy, qz) /\
      Z.abs (qz - pz) <= extent (px, py, pz) (qx, qy, qz)) as (? & ? & ?) by (unfold extent; lia).
    injection E as -> -> ->. split_and!; apply axis_at_near; lia.
  - intros Hle. rewrite last_lookup, Hlength. unfold line_cells.
    rewrite list_lookup_fmap, zrange_lookup by lia. simpl. f_equal.
    replace (0 + Z.of_nat _) with (extent p q) by lia. by rewrite line_point_end.
Qed.

(** A call from (0.5, 0.5, 0.5) to (2.5, 1.5, 4.5) in the example grid. *)
Definition half_of (n : Z) : spec_float := f_lit n (-1).

Lemma example_ray : ray_ok 3 2 5 (half_of 1) (half_of 1) (half_of 1) (half_of 5) (half_of 3) (half_of 9)
  4294967295 (0, 0, 0) (2, 1, 4) 4.
Proof.
  constructor; try (vm_compute; intuition (discriminate || reflexivity)).
  vm_compute. eexists. reflexivity.
Qed.

Lemma raytraceLine_visits_witness :
  exists cells : list cell, length cells = 5%nat /\ last cells = Some (2, 1, 4) /\
    raytraceLine MarkVoxel 3 (half_of 1) (half_of 1) (half_of 1) (half_of 5) (half_of 3) (half_of 9)
      4294967295 0 (data_ example_grid) = run_cells MarkVoxel (encode 3 <$> cells) (data_ example_grid).
Proof.
  destruct (raytraceLine_visits MarkVoxel 3 2 5 _ _ _ _ _ _ _ _ _ _ (data_ example_grid)
    ltac:(lia) ltac:(lia) ltac:(lia) ltac:(lia) example_ray) as (cells & E & L & _ & _ & _ & _ & F).
  exists cells. split; [exact L|]. split; [apply F; vm_compute; discriminate | exact E].
Defined.

(** *** Lines on the abstract grid *)

Lemma run_voxel_writes g (act : list Z -> Z * Z -> option (list Z)) (f : Z -> Z -> Z) s cells :
  wf_grid g -> Forall (in_grid g) cells ->
  (forall d i z, act d (i, pair_mask z) = c ← aget d i; aset d i (f z c)) ->
  (forall z c, 0 <= z < 16 -> valid_column c -> valid_column (f z c)) ->
  (forall z c z', 0 <= z < 16 -> 0 <= z' < 16 ->
     voxel_of (f z c) z' = if z =? z' then s else voxel_of c z') ->
  exists d, run_cells act (encode (size_x_ g) <$> cells) (data_ g) = Some d /\
    becomes g (set_data g d) (fun p => if bool_decide (p ∈ cells) then s else view g p).
Proof.
  intros Hw Hc Hact Hf Hs. revert g Hw Hc. induction cells as [|[[x y] z] cells IH]; intros g Hw Hc.
  - exists (data_ g). split; [done|].
    replace (set_data g (data_ g)) with g by (by destruct g). do 5 (split; [done|]).
    intros p _. rewrite bool_decide_eq_false_2; [done|set_solver].
  - apply Forall_cons_1 in Hc as [Hp Hc]. simpl. rewrite Hact.
    pose proof Hp as Hz. unfold in_grid, in_box in Hz. pose proof (wf_z g Hw).
    destruct (write_voxel g x y z (f z) s Hw Hp) as (c & d & -> & _ & E & B);
      [intros; apply Hf; lia || done | intros; apply Hs; lia|].
    mred. rewrite E. mred. destruct B as (Hw1 & _ & _ & _ & _ & Hv).
    destruct (IH (set_data g d) Hw1 Hc) as (d' & E' & B'). simpl in E'. exists d'. split; [exact E'|].
    destruct B' as (Hw' & ? & ? & ? & ? & Hv'). do 5 (split; [done|]). intros p Hp'.
    specialize (Hv' p Hp'). change (set_data (set_data g d) d') with (set_data g d') in Hv'.
    rewrite Hv', Hv by done. unfold assign.
    repeat case_bool_decide; try done; set_solver.
Qed.

(** [markVoxelLine] and [clearVoxelLine] (no minimal length) mark,
    respectively clear, exactly the cells of the line: no other voxel changes
    and the grid stays well formed.  A call with an end point on or beyond the
    size of the grid changes nothing. *)
Theorem voxel_line_refines (g : VoxelGrid) x0 y0 z0 x1 y1 z1 (max_length : Z) (p q : cell) (len : Z) :
  wf_grid g ->
  (endpoint_out g x0 y0 z0 x1 y1 z1 = true ->
     markVoxelLine g x0 y0 z0 x1 y1 z1 max_length = Some g /\
     clearVoxelLine g x0 y0 z0 x1 y1 z1 max_length 0 = Some g) /\
  (endpoint_out g x0 y0 z0 x1 y1 z1 = false ->
   ray_ok (size_x_ g) (size_y_ g) (size_z_ g) x0 y0 z0 x1 y1 z1 max_length p q len ->
   (exists g', markVoxelLine g x0 y0 z0 x1 y1 z1 max_length = Some g' /\
      becomes g g' (fun c => if bool_decide (c ∈ line_cells p q len) then MARKED else view g c)) /\
   (exists g', clearVoxelLine g x0 y0 z0 x1 y1 z1 max_length 0 = Some g' /\
      becomes g g' (fun c => if bool_decide (c ∈ line_cells p q len) then FREE else view g c))).
Proof.
  intros Hw. unfold markVoxelLine, clearVoxelLine. split; [by intros ->|]. intros -> Hr.
  pose proof Hw as [? ? ? ? _ _ _].
  assert (Forall (in_grid g) (line_cells p q len)) as Hc.
  { apply Forall_forall. intros c Hc. unfold in_grid.
    destruct Hr as [_ _ ? ? _ _ Hlen]. apply f_to_u32_inv in Hlen as [_ [? _]].
    eapply line_cells_in_box; [..|exact Hc]; done || lia. }
  split.
  - rewrite (raytraceLine_run _ _ (size_y_ g) (size_z_ g) _ _ _ _ _ _ _ p q len) by (done || lia).
    destruct (run_voxel_writes g MarkVoxel (fun z c => Z.lor c (pair_mask z)) MARKED
                (line_cells p q len)) as (d & E & B); try done; intros;
      [by apply valid_mark | by apply voxel_of_mark | rewrite E; mred; eauto].
  - rewrite (raytraceLine_run _ _ (size_y_ g) (size_z_ g) _ _ _ _ _ _ _ p q len) by (done || lia).
    destruct (run_voxel_writes g ClearVoxel (fun z c => Z.land c (not32 (pair_mask z))) FREE
                (line_cells p q len)) as (d & E & B); try done; intros;
      [by apply valid_clear | by apply voxel_of_clear | rewrite E; mred; eauto].
Qed.

Lemma voxel_line_refines_witness :
  exists g', markVoxelLine example_grid (half_of 1) (half_of 1) (half_of 1)
               (half_of 5) (half_of 3) (half_of 9) 4294967295 = Some g' /\
    view g' (2, 1, 4) = MARKED.
Proof.
  destruct (proj1 (proj2 (voxel_line_refines example_grid (half_of 1) (half_of 1) (half_of 1)
    (half_of 5) (half_of 3) (half_of 9) 4294967295 (0, 0, 0) (2, 1, 4) 4 example_grid_wf)
    ltac:(vm_compute; reflexivity) example_ray)) as (g' & E & _ & _ & _ & _ & _ & V).
  exists g'. split; [exact E|]. rewrite V; [vm_compute; reflexivity|].
  unfold in_grid, in_box. simpl. lia.
Defined.
