(* ===== verification/Costmap2D.v ===== *)
(** The 2D cost grid of [nav2_costmap_2d] (costmap_2d.hpp, costmap_2d.cpp,
    cost_values.hpp): storage, coordinate conversions, window copies, rolling
    origin, line walk and convex polygon fill. *)

From Stdlib Require Import Sorting.Sorted.
From S2P Require Import Prelude Floats Bresenham.

(** ** Cost values *)

Definition NO_INFORMATION : Z := 255.
Definition LETHAL_OBSTACLE : Z := 254.
Definition INSCRIBED_INFLATED_OBSTACLE : Z := 253.
Definition MAX_NON_OBSTACLE : Z := 252.
Definition FREE_SPACE : Z := 0.

Record MapLocation := mkLoc { loc_x : Z; loc_y : Z }.

#[export] Instance MapLocation_eq_dec : EqDecision MapLocation.
Proof. solve_decision. Defined.

(** The object; [costmap_] is [None] when the pointer is NULL. *)
Record Costmap2D := mkCostmap2D {
  size_x_ : Z;
  size_y_ : Z;
  resolution_ : spec_float;
  origin_x_ : spec_float;
  origin_y_ : spec_float;
  costmap_ : option (list Z);
  default_value_ : Z;
}.

Definition with_costmap (m : Costmap2D) (c : option (list Z)) : Costmap2D :=
  mkCostmap2D (size_x_ m) (size_y_ m) (resolution_ m) (origin_x_ m) (origin_y_ m) c (default_value_ m).

Definition getIndex (m : Costmap2D) (mx my : Z) : Z := u32 (u32 (my * size_x_ m) + mx).

(** Division by a null size is undefined. *)
Definition indexToCells (m : Costmap2D) (index : Z) : option MapLocation :=
  _ ← assert_ub (negb (size_x_ m =? 0));
  let my := index / size_x_ m in
  Some (mkLoc (u32 (index - u32 (my * size_x_ m))) my).

Definition getCost (m : Costmap2D) (mx my : Z) : option Z :=
  c ← costmap_ m; aget c (getIndex m mx my).
Definition getCost_index (m : Costmap2D) (undex : Z) : option Z :=
  c ← costmap_ m; aget c undex.
Definition setCost (m : Costmap2D) (mx my cost : Z) : option Costmap2D :=
  c ← costmap_ m; c ← aset c (getIndex m mx my) cost; Some (with_costmap m (Some c)).

(** The default constructor leaves [default_value_] to be set. *)
Definition Costmap2D_empty (default_value : Z) : Costmap2D :=
  mkCostmap2D 0 0 f_zero f_zero f_zero None default_value.

Definition getSizeInMetersX (m : Costmap2D) : spec_float :=
  fmul (fadd (f_of_Z (u32 (size_x_ m - 1))) f_half) (resolution_ m).
Definition getSizeInMetersY (m : Costmap2D) : spec_float :=
  fmul (fadd (f_of_Z (u32 (size_y_ m - 1))) f_half) (resolution_ m).

(** ** Copies *)

(** The bounds of the indices advance row by row. *)
Definition copyMapRegion (source_map : list Z) (sm_lower_left_x sm_lower_left_y sm_size_x : Z)
    (dest_map : list Z) (dm_lower_left_x dm_lower_left_y dm_size_x region_size_x region_size_y : Z) :
    option (list Z) :=
  let sm_index := u32 (u32 (sm_lower_left_y * sm_size_x) + sm_lower_left_x) in
  let dm_index := u32 (u32 (dm_lower_left_y * dm_size_x) + dm_lower_left_x) in
  st ← for_range 0 region_size_y
         (fun _ '(dest, sm, dm) =>
            dest ← memcpy dest dm source_map sm region_size_x;
            Some (dest, sm + sm_size_x, dm + dm_size_x))
         (dest_map, sm_index, dm_index);
  Some (fst (fst st)).

(** [min(max(v, 0), hi)] *)
Definition clamp (v hi : Z) : Z := Z.min (Z.max v 0) hi.

Section memory.
(** The bytes of freshly allocated memory are arbitrary. *)
Context (fresh_byte : Z -> Z).

Definition fresh (n : Z) : list Z := fresh_byte <$> zrange 0 n.

Definition deleteMaps (m : Costmap2D) : Costmap2D := with_costmap m None.

Definition initMaps (m : Costmap2D) (size_x size_y : Z) : Costmap2D :=
  with_costmap m (Some (fresh (u32 (size_x * size_y)))).

Definition resetMaps (m : Costmap2D) : option Costmap2D :=
  c ← costmap_ m;
  c ← memset c 0 (default_value_ m) (u32 (size_x_ m * size_y_ m));
  Some (with_costmap m (Some c)).

Definition Costmap2D_new (cells_size_x cells_size_y : Z) (resolution origin_x origin_y : spec_float)
    (default_value : Z) : option Costmap2D :=
  let m := mkCostmap2D cells_size_x cells_size_y resolution origin_x origin_y None default_value in
  resetMaps (initMaps m cells_size_x cells_size_y).

Definition resizeMap (m : Costmap2D) (size_x size_y : Z) (resolution origin_x origin_y : spec_float) :
    option Costmap2D :=
  let m := mkCostmap2D size_x size_y resolution origin_x origin_y (costmap_ m) (default_value_ m) in
  resetMaps (initMaps m size_x size_y).

(** The rows from [y0] to [yn]; the row index is an offset in the array. *)
Definition resetMapToValue (m : Costmap2D) (x0 y0 xn yn value : Z) : option Costmap2D :=
  c ← costmap_ m;
  let len := u32 (xn - x0) in
  st ← loop (S (Z.to_nat yn))
         (fun '(y, c) =>
            if y <? u32 (u32 (yn * size_x_ m) + x0) then
              c ← memset c y value len;
              Some (Next (u32 (y + size_x_ m), c))
            else Some (Break (y, c)))
         (u32 (u32 (y0 * size_x_ m) + x0), c);
  Some (with_costmap m (Some (snd st))).

Definition resetMap (m : Costmap2D) (x0 y0 xn yn : Z) : option Costmap2D :=
  resetMapToValue m x0 y0 xn yn (default_value_ m).

(** ** World coordinates *)

Definition cellDistance (m : Costmap2D) (world_dist : spec_float) : option Z :=
  f_to_u32 (fmax f_zero (fceil (fdiv world_dist (resolution_ m)))).

Definition mapToWorld (m : Costmap2D) (mx my : Z) : spec_float * spec_float :=
  (fadd (origin_x_ m) (fmul (fadd (f_of_Z mx) f_half) (resolution_ m)),
   fadd (origin_y_ m) (fmul (fadd (f_of_Z my) f_half) (resolution_ m))).

(** [Some None] is the answer false. *)
Definition worldToMap (m : Costmap2D) (wx wy : spec_float) : option (option MapLocation) :=
  if flt wx (origin_x_ m) || flt wy (origin_y_ m) then Some None
  else
    mx ← f_to_u32 (fdiv (fsub wx (origin_x_ m)) (resolution_ m));
    my ← f_to_u32 (fdiv (fsub wy (origin_y_ m)) (resolution_ m));
    if (mx <? size_x_ m) && (my <? size_y_ m) then Some (Some (mkLoc mx my)) else Some None.

Definition worldToMapNoBounds (m : Costmap2D) (wx wy : spec_float) : option (Z * Z) :=
  mx ← f_to_s32 (fdiv (fsub wx (origin_x_ m)) (resolution_ m));
  my ← f_to_s32 (fdiv (fsub wy (origin_y_ m)) (resolution_ m));
  Some (mx, my).

(** One axis of [worldToMapEnforceBounds]. *)
Definition enforce_axis (w origin resolution : spec_float) (size : Z) : option Z :=
  if flt w origin then Some 0
  else if fgt w (fadd (fmul resolution (f_of_Z size)) origin) then Some (s32 (u32 (size - 1)))
  else f_to_s32 (fdiv (fsub w origin) resolution).

Definition worldToMapEnforceBounds (m : Costmap2D) (wx wy : spec_float) : option (Z * Z) :=
  mx ← enforce_axis wx (origin_x_ m) (resolution_ m) (size_x_ m);
  my ← enforce_axis wy (origin_y_ m) (resolution_ m) (size_y_ m);
  Some (mx, my).

(** ** Windows *)

(** [map] is another object ([this == &map] is the case [self]). *)
Definition copyCostmapWindow (m : Costmap2D) (self : bool) (map : Costmap2D)
    (win_origin_x win_origin_y win_size_x win_size_y : spec_float) : option (bool * Costmap2D) :=
  if self then Some (false, m)
  else
    let m := deleteMaps m in
    lower_left ← worldToMap map win_origin_x win_origin_y;
    match lower_left with
    | None => Some (false, m)
    | Some ll =>
        upper_right ← worldToMap map (fadd win_origin_x win_size_x) (fadd win_origin_y win_size_y);
        match upper_right with
        | None => Some (false, m)
        | Some ur =>
            let sx := u32 (loc_x ur - loc_x ll) in
            let sy := u32 (loc_y ur - loc_y ll) in
            let m := initMaps (mkCostmap2D sx sy (resolution_ map) win_origin_x win_origin_y
                                 (costmap_ m) (default_value_ m)) sx sy in
            c ← costmap_ m; src ← costmap_ map;
            c ← copyMapRegion src (loc_x ll) (loc_y ll) (size_x_ map) c 0 0 sx sx sy;
            Some (true, with_costmap m (Some c))
        end
    end.

Definition copyWindow (m source : Costmap2D) (sx0 sy0 sxn syn dx0 dy0 : Z) :
    option (bool * Costmap2D) :=
  let sz_x := u32 (sxn - sx0) in
  let sz_y := u32 (syn - sy0) in
  if (size_x_ source <? sxn) || (size_y_ source <? syn) then Some (false, m)
  else if (size_x_ m <? u32 (dx0 + sz_x)) || (size_y_ m <? u32 (dy0 + sz_y)) then Some (false, m)
  else
    src ← costmap_ source; dst ← costmap_ m;
    c ← copyMapRegion src sx0 sy0 (size_x_ source) dst dx0 dy0 (size_x_ m) sz_x sz_y;
    Some (true, with_costmap m (Some c)).

(** [operator=] between two distinct objects; [default_value_] is kept. *)
Definition assign_map (m map : Costmap2D) : option Costmap2D :=
  let m := initMaps (mkCostmap2D (size_x_ map) (size_y_ map) (resolution_ map) (origin_x_ map)
                       (origin_y_ map) None (default_value_ m)) (size_x_ map) (size_y_ map) in
  c ← costmap_ m; src ← costmap_ map;
  c ← memcpy c 0 src 0 (u32 (size_x_ m * size_y_ m));
  Some (with_costmap m (Some c)).

Definition updateOrigin (m : Costmap2D) (new_origin_x new_origin_y : spec_float) : option Costmap2D :=
  cell_ox ← f_to_s32 (fdiv (fsub new_origin_x (origin_x_ m)) (resolution_ m));
  cell_oy ← f_to_s32 (fdiv (fsub new_origin_y (origin_y_ m)) (resolution_ m));
  let new_grid_ox := fadd (origin_x_ m) (fmul (f_of_Z cell_ox) (resolution_ m)) in
  let new_grid_oy := fadd (origin_y_ m) (fmul (f_of_Z cell_oy) (resolution_ m)) in
  let size_x := s32 (size_x_ m) in
  let size_y := s32 (size_y_ m) in
  let lower_left_x := clamp cell_ox size_x in
  let lower_left_y := clamp cell_oy size_y in
  let upper_right_x := clamp (cell_ox + size_x) size_x in
  let upper_right_y := clamp (cell_oy + size_y) size_y in
  _ ← assert_ub ((- 2 ^ 31 <=? cell_ox + size_x) && (cell_ox + size_x <? 2 ^ 31));
  _ ← assert_ub ((- 2 ^ 31 <=? cell_oy + size_y) && (cell_oy + size_y <? 2 ^ 31));
  let cell_size_x := u32 (upper_right_x - lower_left_x) in
  let cell_size_y := u32 (upper_right_y - lower_left_y) in
  let local_map := fresh (u32 (cell_size_x * cell_size_y)) in
  c ← costmap_ m;
  local_map ← copyMapRegion c (u32 lower_left_x) (u32 lower_left_y) (size_x_ m)
                local_map 0 0 cell_size_x cell_size_x cell_size_y;
  m ← resetMaps m;
  let start_x := lower_left_x - cell_ox in
  let start_y := lower_left_y - cell_oy in
  c ← costmap_ m;
  c ← copyMapRegion local_map 0 0 cell_size_x c (u32 start_x) (u32 start_y) (size_x_ m)
        cell_size_x cell_size_y;
  Some (mkCostmap2D (size_x_ m) (size_y_ m) (resolution_ m) new_grid_ox new_grid_oy (Some c)
          (default_value_ m)).
End memory.

(** ** From an occupancy grid *)

Definition OCC_GRID_UNKNOWN : Z := -1.

(** [std::round(double(data) * (254 - 0) / (100 - 0))] *)
Definition occ_to_cost (data : Z) : option Z :=
  if data =? OCC_GRID_UNKNOWN then Some NO_INFORMATION
  else f_to_u8 (fround (fdiv (fmul (f_of_Z data) (f_of_Z (LETHAL_OBSTACLE - FREE_SPACE))) (f_of_Z 100))).

(** The grid message: sizes, the [float] resolution, origin and cells. *)
Definition Costmap2D_of_grid (fresh_byte : Z -> Z) (width height : Z) (resolution : spec_float)
    (ox oy : spec_float) (data : list Z) : option Costmap2D :=
  c ← for_range 0 (u32 (width * height))
        (fun it c => d ← aget data it; v ← occ_to_cost d; aset c it v)
        (fresh fresh_byte (u32 (width * height)));
  Some (mkCostmap2D width height (f_of_s resolution) ox oy (Some c) FREE_SPACE).

(** ** Lines *)

Definition sign (x : Z) : Z := if 0 <? x then 1 else -1.

Definition bresenham2D {S} (at_ : S -> Z -> option S)
    (abs_da abs_db error_b offset_a offset_b offset max_length : Z) (s : S) : option S :=
  let end_ := Z.min max_length abs_da in
  st ← for_range 0 end_
         (fun _ '(s, offset, error_b) =>
            s ← at_ s offset;
            let offset := u32 (offset + offset_a) in
            let '(carry, error_b) := bres_step abs_da abs_db error_b in
            Some (s, if carry : bool then u32 (offset + offset_b) else offset, error_b))
         (s, offset, error_b);
  let '(s, offset, _) := st in
  at_ s offset.

Section lines.
(** [std::hypot], whose last bit the standard leaves to the implementation. *)
Context (hypot : spec_float -> spec_float -> spec_float).

Definition raytraceLine {S} (size_x : Z) (at_ : S -> Z -> option S) (x0 y0 x1 y1 max_length min_length : Z)
    (s : S) : option S :=
  let dx_full := s32 (x1 - x0) in
  let dy_full := s32 (y1 - y0) in
  let dist := hypot (f_of_Z dx_full) (f_of_Z dy_full) in
  if flt dist (f_of_Z min_length) then Some s
  else
    min_x0 ← (if fgt dist f_zero then
                f_to_u32 (fadd (f_of_Z x0) (fmul (fdiv (f_of_Z dx_full) dist) (f_of_Z min_length)))
              else Some x0);
    min_y0 ← (if fgt dist f_zero then
                f_to_u32 (fadd (f_of_Z y0) (fmul (fdiv (f_of_Z dy_full) dist) (f_of_Z min_length)))
              else Some y0);
    let offset := u32 (u32 (min_y0 * size_x) + min_x0) in
    let dx := s32 (x1 - min_x0) in
    let dy := s32 (y1 - min_y0) in
    let abs_dx := Z.abs dx in
    let abs_dy := Z.abs dy in
    let offset_dx := sign dx in
    let offset_dy := s32 (sign dy * size_x) in
    let scale := if feq dist f_zero then f_one else fmin f_one (fdiv (f_of_Z max_length) dist) in
    if abs_dy <=? abs_dx then
      len ← f_to_u32 (fmul scale (f_of_Z abs_dx));
      bresenham2D at_ abs_dx abs_dy (abs_dx / 2) offset_dx offset_dy offset len s
    else
      len ← f_to_u32 (fmul scale (f_of_Z abs_dy));
      bresenham2D at_ abs_dy abs_dx (abs_dy / 2) offset_dy offset_dx offset len s.

Definition UINT_MAX : Z := 2 ^ 32 - 1.

(** The functors: mark a cell, gather the cells of an outline. *)
Definition MarkCell (value : Z) (costmap : list Z) (offset : Z) : option (list Z) :=
  aset costmap offset value.
Definition PolygonOutlineCells (m : Costmap2D) (cells : list MapLocation) (offset : Z) :
    option (list MapLocation) :=
  loc ← indexToCells m offset; Some (cells ++ [loc]).

(** ** Polygons *)

Definition outline_edge (m : Costmap2D) (polygon : list MapLocation) (i j : Z)
    (cells : list MapLocation) : option (list MapLocation) :=
  p ← aget polygon i; q ← aget polygon j;
  raytraceLine (size_x_ m) (PolygonOutlineCells m) (loc_x p) (loc_y p) (loc_x q) (loc_y q)
    UINT_MAX 0 cells.

(** [polygon.size() - 1] wraps on an empty polygon: the loop then reads out
    of the vector at once. *)
Definition polygonOutlineCells (m : Costmap2D) (polygon polygon_cells : list MapLocation) :
    option (list MapLocation) :=
  let n := alen polygon in
  cells ← (if n =? 0 then None
           else for_range 0 (n - 1) (fun i cells => outline_edge m polygon i (i + 1) cells)
                  polygon_cells);
  outline_edge m polygon (n - 1) 0 cells.

(** The sort by [x]: adjacent cells are swapped, stepping back after a swap. *)
Definition sort_step (st : Z * list MapLocation) : option (ctl (Z * list MapLocation)) :=
  let '(i, cells) := st in
  if i <? alen cells - 1 then
    a ← aget cells i; b ← aget cells (i + 1);
    if loc_x b <? loc_x a then
      cells ← aset cells i b;
      cells ← aset cells (i + 1) a;
      Some (Next (if 0 <? i then i - 1 else i, cells))
    else Some (Next (i + 1, cells))
  else Some (Break (i, cells)).

Definition sort_fuel (cells : list MapLocation) : nat :=
  S (length cells * length cells + length cells).

Definition sort_cells (cells : list MapLocation) : option (list MapLocation) :=
  snd <$> loop (sort_fuel cells) sort_step (0, cells).

(** The cells [i, i+1, ..] of the column [x] widen the range. *)
Definition scan_step (x : Z) (cells : list MapLocation) (st : Z * MapLocation * MapLocation) :
    option (ctl (Z * MapLocation * MapLocation)) :=
  let '(i, min_pt, max_pt) := st in
  if i <? alen cells then
    c ← aget cells i;
    if loc_x c =? x then
      if loc_y c <? loc_y min_pt then Some (Next (i + 1, c, max_pt))
      else if loc_y max_pt <? loc_y c then Some (Next (i + 1, min_pt, c))
      else Some (Next (i + 1, min_pt, max_pt))
    else Some (Break (i, min_pt, max_pt))
  else Some (Break (i, min_pt, max_pt)).

(** One column of the fill; the state is [x], [i] and the growing vector. *)
Definition fill_column (max_x : Z) (st : Z * Z * list MapLocation) :
    option (ctl (Z * Z * list MapLocation)) :=
  let '(x, i, cells) := st in
  if max_x <? x then Some (Break (x, i, cells))
  else if alen cells - 1 <=? i then Some (Break (x, i, cells))
  else
    a ← aget cells i; b ← aget cells (i + 1);
    let '(min_pt, max_pt) := if loc_y a <? loc_y b then (a, b) else (b, a) in
    sc ← loop (S (length cells)) (scan_step x cells) (i + 2, min_pt, max_pt);
    let '(i, min_pt, max_pt) := sc in
    Some (Next (x + 1, i,
      cells ++ (mkLoc x <$> zrange (loc_y min_pt) (loc_y max_pt + 1)))).

Definition convexFillCells (m : Costmap2D) (polygon polygon_cells : list MapLocation) :
    option (list MapLocation) :=
  if alen polygon <? 3 then Some polygon_cells
  else
    cells ← polygonOutlineCells m polygon polygon_cells;
    cells ← sort_cells cells;
    first ← aget cells 0;
    last ← aget cells (alen cells - 1);
    st ← loop (S (S (Z.to_nat (loc_x last - loc_x first)))) (fill_column (loc_x last))
           (loc_x first, 0, cells);
    Some (snd st).

Fixpoint map_polygon (m : Costmap2D) (polygon : list (spec_float * spec_float)) :
    option (option (list MapLocation)) :=
  match polygon with
  | [] => Some (Some [])
  | (wx, wy) :: polygon =>
      loc ← worldToMap m wx wy;
      match loc with
      | None => Some None
      | Some loc =>
          rest ← map_polygon m polygon;
          Some (option_map (cons loc) rest)
      end
  end.

Definition setConvexPolygonCost (m : Costmap2D) (polygon : list (spec_float * spec_float))
    (cost_value : Z) : option (bool * Costmap2D) :=
  locs ← map_polygon m polygon;
  match locs with
  | None => Some (false, m)
  | Some locs =>
      polygon_cells ← convexFillCells m locs [];
      c ← costmap_ m;
      c ← run_cells (fun c loc => aset c (getIndex m (loc_x loc) (loc_y loc)) cost_value)
            polygon_cells c;
      Some (true, with_costmap m (Some c))
  end.
End lines.

(** ** Grids *)

(** The array of a map of width [w] seen as a grid. *)
Definition grid_at (c : list Z) (w x y : Z) : option Z := aget c (y * w + x).

(** A region that fits in a grid of [w] by [h] cells. *)
Definition region_in (w h x0 y0 rx ry : Z) : Prop :=
  0 <= x0 /\ 0 <= y0 /\ 0 <= rx /\ 0 <= ry /\ x0 + rx <= w /\ y0 + ry <= h.

(** Rows of two grids are disjoint: the row of an index is unique. *)
Lemma row_range w x y a b k :
  0 <= x < w -> 0 <= a -> a + b <= w ->
  k * w + a <= y * w + x < k * w + a + b <-> y = k /\ a <= x < a + b.
Proof.
  intros Hx Ha Hb. split; [|intros [-> ?]; lia]. intros H.
  destruct (index_inj w x y (y * w + x - k * w) k Hx) as [H1 H2]; lia.
Qed.

Lemma copyMapRegion_nil src sx sy sw dst dx dy dw rx ry :
  rx = 0 \/ ry <= 0 -> copyMapRegion src sx sy sw dst dx dy dw rx ry = Some dst.
Proof.
  intros [->|Hr]; unfold copyMapRegion; [|by rewrite for_range_nil by lia].
  assert (forall n i p q, exists p' q',
    for_up n i (fun _ '(dest, sm, dm) =>
            dest ← memcpy dest dm src sm 0; Some (dest, sm + sw, dm + dw)) (dst, p, q)
    = Some (dst, p', q')) as H.
  { induction n as [|n IH]; intros i p q; simpl; [by eexists _, _|]. apply IH. }
  unfold for_range. destruct (H (Z.to_nat (ry - 0)) 0 (u32 (u32 (sy * sw) + sx))
    (u32 (u32 (dy * dw) + dx))) as (p' & q' & ->). done.
Qed.

Lemma copyMapRegion_spec src sw sh sx sy dst dw dh dx dy rx ry :
  alen src = sw * sh -> alen dst = dw * dh -> sw * sh < 2 ^ 32 -> dw * dh < 2 ^ 32 ->
  region_in sw sh sx sy rx ry -> region_in dw dh dx dy rx ry ->
  exists dst', copyMapRegion src sx sy sw dst dx dy dw rx ry = Some dst' /\ alen dst' = alen dst /\
    forall x y, 0 <= x < dw -> 0 <= y < dh ->
      grid_at dst' dw x y
      = if bool_decide (dx <= x < dx + rx /\ dy <= y < dy + ry)
        then grid_at src sw (sx + (x - dx)) (sy + (y - dy)) else grid_at dst dw x y.
Proof.
  intros Hsl Hdl Hs Hd (?&?&?&?&?&?) (?&?&?&?&?&?).
  destruct (decide (rx = 0 \/ ry <= 0)) as [Hr|Hr].
  { rewrite copyMapRegion_nil by done. exists dst. split; [done|]. split; [done|].
    intros x y Hx Hy. by rewrite bool_decide_eq_false_2 by lia. }
  unfold copyMapRegion.
  assert (u32 (u32 (sy * sw) + sx) = sy * sw + sx) as ->
    by (rewrite u32_add_l; apply u32_small; unfold is_u32; nia).
  assert (u32 (u32 (dy * dw) + dx) = dy * dw + dx) as ->
    by (rewrite u32_add_l; apply u32_small; unfold is_u32; nia).
  destruct (for_range_inv (fun k '(l, sm, dm) =>
      sm = (sy + k) * sw + sx /\ dm = (dy + k) * dw + dx /\ alen l = alen dst /\
      forall x y, 0 <= x < dw -> 0 <= y < dh ->
        grid_at l dw x y = if bool_decide (dx <= x < dx + rx /\ dy <= y < dy + k)
                      then grid_at src sw (sx + (x - dx)) (sy + (y - dy)) else grid_at dst dw x y)
    (fun _ '(dest, sm, dm) =>
       dest ← memcpy dest dm src sm rx; Some (dest, sm + sw, dm + dw))
    0 ry (dst, sy * sw + sx, dy * dw + dx)) as ([[l sm] dm] & -> & _ & _ & Hl & Hg); [lia| | |].
  - split; [lia|]. split; [lia|]. split; [done|]. intros x y Hx Hy. by rewrite bool_decide_eq_false_2 by lia.
  - intros k [[l sm] dm] Hk (-> & -> & Hl & Hg).
    destruct (memcpy_spec l ((dy + k) * dw + dx) src ((sy + k) * sw + sx) rx) as (l' & -> & Hl' & Hg');
      [nia|nia|lia|nia|nia|]. mred. eexists. split; [done|].
    split; [lia|]. split; [lia|]. split; [congruence|]. intros x y Hx Hy.
    unfold grid_at at 1. rewrite Hg', (bool_decide_ext _ _ (row_range dw x y dx rx (dy + k) Hx ltac:(lia) ltac:(lia))).
    case_bool_decide as C1.
    + rewrite bool_decide_eq_true_2 by lia. destruct C1 as [-> ?]. unfold grid_at. f_equal. lia.
    + change (aget l (y * dw + x)) with (grid_at l dw x y). rewrite Hg by done.
      repeat case_bool_decide; done || lia.
  - mred. simpl. exists l. done.
Qed.

Lemma alen_fresh fb n : 0 <= n -> alen (fresh fb n) = n.
Proof. intros H. unfold alen, fresh. rewrite length_fmap, zrange_length. lia. Qed.

(** ** Well-formed maps *)

Record wf_map (m : Costmap2D) (c : list Z) : Prop := {
  wf_sx : 0 <= size_x_ m < 2 ^ 31;
  wf_sy : 0 <= size_y_ m < 2 ^ 31;
  wf_area : size_x_ m * size_y_ m <= 2 ^ 31;
  wf_some : costmap_ m = Some c;
  wf_alen : alen c = size_x_ m * size_y_ m;
}.

Definition on_map (m : Costmap2D) (x y : Z) : Prop := 0 <= x < size_x_ m /\ 0 <= y < size_y_ m.

Definition cost_at (m : Costmap2D) (x y : Z) : option Z := c ← costmap_ m; grid_at c (size_x_ m) x y.

Lemma getIndex_small m c x y :
  wf_map m c -> on_map m x y ->
  getIndex m x y = y * size_x_ m + x /\ 0 <= y * size_x_ m + x < size_x_ m * size_y_ m.
Proof.
  intros [] [Hx Hy]. pose proof (index_bound _ _ _ _ Hx Hy) as Hb.
  unfold getIndex. rewrite u32_add_l, u32_small by (unfold is_u32; ilia). done.
Qed.

Lemma wf_with_costmap m c c' :
  wf_map m c -> alen c' = alen c -> wf_map (with_costmap m (Some c')) c'.
Proof. intros [] Hl. constructor; simpl; done || congruence. Qed.

(** Every index of the array is that of a cell. *)
Lemma index_on_map m c i : wf_map m c -> 0 <= i < alen c -> exists x y, on_map m x y /\ i = y * size_x_ m + x.
Proof.
  intros [Hx Hy Ha Hc Hl] Hi. assert (0 < size_x_ m) as Hpos by nia.
  pose proof (Z.div_mod i (size_x_ m) ltac:(lia)) as Ei. exists (i mod size_x_ m), (i / size_x_ m). split; [|lia].
  split; [by apply Z.mod_pos_bound|]. split; [apply Z.div_pos; lia | apply Z.div_lt_upper_bound; lia].
Qed.

Lemma grid_Forall (P : Z -> Prop) m c c' : wf_map m c -> alen c' = alen c ->
  (forall x y v, on_map m x y -> grid_at c' (size_x_ m) x y = Some v -> P v) -> Forall P c'.
Proof.
  intros Hw Hl Hg. apply Forall_aget. intros i v Hi. pose proof (aget_bounds _ _ _ Hi). destruct (index_on_map m c i Hw ltac:(lia)) as (x & y & Hp & ->). by apply (Hg x y).
Qed.

Lemma resetMaps_spec m c :
  wf_map m c ->
  exists c', resetMaps m = Some (with_costmap m (Some c')) /\ alen c' = alen c /\
    forall x y, on_map m x y -> grid_at c' (size_x_ m) x y = Some (default_value_ m).
Proof.
  intros Hw. pose proof Hw as []. unfold resetMaps. rewrite wf_some0. mred.
  rewrite u32_small by (unfold is_u32; ilia; nia).
  destruct (memset_spec c 0 (default_value_ m) (size_x_ m * size_y_ m)) as (c' & -> & Hl & Hg);
    [lia|nia|lia|]. mred. exists c'. split; [done|]. split; [done|]. intros x y [Hx Hy].
  unfold grid_at. rewrite Hg. pose proof (index_bound _ _ _ _ Hx Hy).
  by rewrite bool_decide_eq_true_2 by lia.
Qed.

Lemma index_cells_inv m c :
  wf_map m c -> forall x y, on_map m x y ->
  getIndex m x y = y * size_x_ m + x /\ indexToCells m (y * size_x_ m + x) = Some (mkLoc x y).
Proof.
  intros Hw x y Hp. destruct (getIndex_small m c x y Hw Hp) as [Ei Hb]. destruct Hp as [Hpx Hpy].
  pose proof Hw as [Hx Hy Ha Hc Hl]. split; [done|].
  unfold indexToCells. rewrite assert_ub_true by (zbool; lia). mred.
  rewrite index_div by done. rewrite !u32_small by (unfold is_u32; ilia; nia). do 2 f_equal; lia.
Qed.

(** Cell indices: on a well-formed map [getIndex] and [indexToCells] are
    inverse bijections between the cells and the indices of the array, and a
    [setCost] is read back by [getCost], the other cells keeping their cost. *)
Theorem index_cells_roundtrip (m : Costmap2D) (c : list Z) :
  wf_map m c ->
  (forall x y, on_map m x y -> indexToCells m (getIndex m x y) = Some (mkLoc x y)) /\
  (forall i, 0 <= i < alen c -> exists x y, indexToCells m i = Some (mkLoc x y) /\
     on_map m x y /\ getIndex m x y = i) /\
  (forall x y v, on_map m x y -> exists m', setCost m x y v = Some m' /\
     forall x' y', on_map m x' y' ->
       getCost m' x' y' = if bool_decide (x' = x /\ y' = y) then Some v else getCost m x' y').
Proof.
  intros Hw. pose proof Hw as [Hx Hy Ha Hc Hl]. split; [|split].
  - intros x y Hp. destruct (index_cells_inv m c Hw x y Hp) as [-> ?]. done.
  - intros i Hi. assert (0 < size_x_ m) as Hpos by nia.
    exists (i mod size_x_ m), (i / size_x_ m).
    pose proof (Z.div_mod i (size_x_ m) ltac:(lia)). pose proof (Z.mod_pos_bound i (size_x_ m) Hpos).
    assert (on_map m (i mod size_x_ m) (i / size_x_ m)) as Hp.
    { split; [done|]. split; [apply Z.div_pos; lia|]. apply Z.div_lt_upper_bound; lia. }
    split; [|split; [done|destruct (getIndex_small m c _ _ Hw Hp) as [-> _]; lia]].
    unfold indexToCells. rewrite assert_ub_true by (zbool; lia). mred.
    assert (0 <= i / size_x_ m) by (apply Z.div_pos; lia).
    rewrite !u32_small by (unfold is_u32; ilia; nia). do 2 f_equal; lia.
  - intros x y v Hp. destruct (getIndex_small m c x y Hw Hp) as [Ei Hb].
    unfold setCost. rewrite Hc. mred. rewrite Ei.
    pose proof (aset_Some c (y * size_x_ m + x) v ltac:(lia)) as E. rewrite E. mred.
    eexists. split; [done|]. intros x' y' Hp'.
    destruct (getIndex_small m c x' y' Hw Hp') as [Ei' _].
    unfold getCost. change (getIndex (with_costmap _ _) x' y') with (getIndex m x' y').
    rewrite Hc, Ei'. simpl. rewrite (aget_aset _ _ _ _ _ E).
    destruct (Z.eqb_spec (y * size_x_ m + x) (y' * size_x_ m + x')) as [E'|Hne].
    + destruct (index_inj _ _ _ _ _ (proj1 Hp) (proj1 Hp') E') as [-> ->]. by rewrite bool_decide_eq_true_2.
    + rewrite bool_decide_eq_false_2; [done|]. intros [-> ->]. done.
Qed.

Definition example_map : Costmap2D :=
  mkCostmap2D 4 3 f_one f_zero f_zero (Some [1; 2; 3; 4; 5; 6; 7; 8; 9; 10; 11; 12]) 0.
Definition example_cells : list Z := [1; 2; 3; 4; 5; 6; 7; 8; 9; 10; 11; 12].

Lemma example_map_wf : wf_map example_map example_cells.
Proof. constructor; vm_compute; intuition discriminate. Qed.

Lemma index_cells_roundtrip_witness : indexToCells example_map (getIndex example_map 3 2) = Some (mkLoc 3 2).
Proof.
  apply (proj1 (index_cells_roundtrip example_map example_cells example_map_wf)).
  unfold on_map. simpl. lia.
Defined.

(** One row of the window: the cells [x0, xn) of row [k] become [value]. *)
Lemma reset_row m c l x0 xn k value :
  wf_map m c -> alen l = alen c -> 0 <= x0 <= xn -> xn <= size_x_ m -> 0 <= k < size_y_ m ->
  exists l', memset l (k * size_x_ m + x0) value (xn - x0) = Some l' /\ alen l' = alen c /\
    forall x y, on_map m x y -> grid_at l' (size_x_ m) x y
      = if bool_decide (x0 <= x < xn /\ y = k) then Some value else grid_at l (size_x_ m) x y.
Proof.
  intros Hw Hl Hx Hxn Hk. pose proof Hw as [Hsx Hsy Ha Hc Hlc].
  destruct (memset_spec l (k * size_x_ m + x0) value (xn - x0)) as (l' & E & Hl' & Hg); [nia|lia|nia|].
  exists l'. split; [done|]. split; [congruence|]. intros x y [Hpx Hpy].
  unfold grid_at at 1.
  rewrite Hg, (bool_decide_ext _ _ (row_range (size_x_ m) x y x0 (xn - x0) k Hpx ltac:(lia) ltac:(lia))).
  unfold grid_at. repeat case_bool_decide; done || lia.
Qed.

Lemma resetMapToValue_spec m c x0 y0 xn yn value :
  wf_map m c -> 0 <= x0 <= xn -> xn <= size_x_ m -> 0 <= y0 <= yn -> yn <= size_y_ m ->
  exists c', resetMapToValue m x0 y0 xn yn value = Some (with_costmap m (Some c')) /\
    alen c' = alen c /\ forall x y, on_map m x y -> grid_at c' (size_x_ m) x y
      = if bool_decide (x0 <= x < xn /\ y0 <= y < yn) then Some value else grid_at c (size_x_ m) x y.
Proof.
  intros Hw Hx Hxn Hy Hyn. pose proof Hw as [Hsx Hsy Ha Hc Hl].
  unfold resetMapToValue. rewrite Hc. mred.
  rewrite (u32_small (xn - x0)) by (unfold is_u32; ilia).
  assert (forall k, 0 <= k <= size_y_ m -> u32 (u32 (k * size_x_ m) + x0) = k * size_x_ m + x0) as Hk.
  { intros k Hk. rewrite u32_add_l. apply u32_small. unfold is_u32. ilia. nia. }
  rewrite !Hk by lia.
  destruct (decide (size_x_ m = 0)) as [Hz|Hz].
  { exists c. rewrite Hz. simpl. rewrite !Z.mul_0_r, Z.ltb_irrefl. simpl.
    split; [done|]. split; [done|]. intros x y [? ?]. lia. }
  destruct (loop_inv (fun '(y, l) => exists k, y0 <= k <= yn /\ y = k * size_x_ m + x0 /\ alen l = alen c /\
      forall x y, on_map m x y -> grid_at l (size_x_ m) x y
        = if bool_decide (x0 <= x < xn /\ y0 <= y < k) then Some value else grid_at c (size_x_ m) x y)
    (fun '(y, l) => alen l = alen c /\ forall x y, on_map m x y -> grid_at l (size_x_ m) x y
        = if bool_decide (x0 <= x < xn /\ y0 <= y < yn) then Some value else grid_at c (size_x_ m) x y)
    (fun '(y, l) => Z.to_nat (yn - (y - x0) / size_x_ m))
    (fun '(y, c) => if y <? yn * size_x_ m + x0 then
          c ← memset c y value (xn - x0); Some (Next (u32 (y + size_x_ m), c))
        else Some (Break (y, c))))
    with (fuel := S (Z.to_nat yn)) (s := (y0 * size_x_ m + x0, c)) as ([y' l'] & -> & Hl' & Hg').
  - intros [y l] (k & Hk1 & -> & Hlen & Hg). cbv beta iota.
    destruct (Z.ltb_spec (k * size_x_ m + x0) (yn * size_x_ m + x0)) as [Hlt|Hge].
    + assert (k < yn) by nia.
      destruct (reset_row m c l x0 xn k value Hw Hlen) as (l' & -> & Hl' & Hg'); [lia..|].
      mred. eexists. split; [done|]. rewrite u32_small by (unfold is_u32; ilia; nia).
      replace (k * size_x_ m + x0 + size_x_ m) with ((k + 1) * size_x_ m + x0) by lia.
      rewrite !Z.add_simpl_r, !Z.div_mul by lia. split; [|lia].
      exists (k + 1). split; [lia|]. split; [done|]. split; [done|]. intros x y Hp.
      rewrite Hg', Hg by done. repeat case_bool_decide; done || lia.
    + assert (k = yn) as -> by nia. eexists. split; [done|]. done.
  - exists y0. split; [lia|]. split; [done|]. split; [done|]. intros x y _.
    by rewrite bool_decide_eq_false_2 by lia.
  - rewrite Z.add_simpl_r, Z.div_mul by lia. lia.
  - mred. by exists l'.
Qed.

(** [resetMapToValue] writes [value] in exactly the cells of the window
    [x0, xn) x [y0, yn) and leaves every other cell; the row loop ends. *)
Theorem resetMapToValue_window (m : Costmap2D) (c : list Z) (x0 y0 xn yn value : Z) :
  wf_map m c -> 0 <= x0 <= xn -> xn <= size_x_ m -> 0 <= y0 <= yn -> yn <= size_y_ m ->
  exists m' c', resetMapToValue m x0 y0 xn yn value = Some m' /\ wf_map m' c' /\
    forall x y, on_map m x y ->
      cost_at m' x y
      = if bool_decide (x0 <= x < xn /\ y0 <= y < yn) then Some value else cost_at m x y.
Proof.
  intros Hw Hx Hxn Hy Hyn.
  destruct (resetMapToValue_spec m c x0 y0 xn yn value Hw) as (c' & -> & Hl & Hg); [done..|].
  eexists _, c'. split; [done|]. split; [by apply wf_with_costmap with c|].
  intros x y Hp. unfold cost_at. rewrite (wf_some _ _ Hw). simpl. by apply Hg.
Qed.

Lemma resetMapToValue_window_witness :
  exists m', resetMapToValue example_map 1 1 3 3 99 = Some m' /\ cost_at m' 2 2 = Some 99 /\
    cost_at m' 3 2 = Some 12.
Proof.
  destruct (resetMapToValue_window example_map example_cells 1 1 3 3 99 example_map_wf)
    as (m' & c' & E & _ & H); [simpl; lia..|].
  exists m'. split; [exact E|].
  split; rewrite H by (unfold on_map; simpl; lia); vm_compute; reflexivity.
Defined.

Lemma assert_range z : - 2 ^ 31 <= z < 2 ^ 31 ->
  assert_ub ((- 2 ^ 31 <=? z) && (z <? 2 ^ 31)) = Some tt.
Proof. intros H. apply assert_ub_true. zbool. exact H. Qed.

(** The copy of the kept region into the new position: it may be empty. *)
Lemma scroll_copy_back m c lm c1 llx lly urx ury cell_ox cell_oy :
  wf_map m c -> alen c1 = alen c -> alen lm = (urx - llx) * (ury - lly) ->
  llx = clamp cell_ox (size_x_ m) -> lly = clamp cell_oy (size_y_ m) ->
  urx = clamp (cell_ox + size_x_ m) (size_x_ m) -> ury = clamp (cell_oy + size_y_ m) (size_y_ m) ->
  exists c2, copyMapRegion lm 0 0 (urx - llx) c1 (u32 (llx - cell_ox)) (u32 (lly - cell_oy))
      (size_x_ m) (urx - llx) (ury - lly) = Some c2 /\ alen c2 = alen c1 /\
    forall x y, on_map m x y -> grid_at c2 (size_x_ m) x y
      = if bool_decide (llx - cell_ox <= x < urx - cell_ox /\ lly - cell_oy <= y < ury - cell_oy)
        then grid_at lm (urx - llx) (x - (llx - cell_ox)) (y - (lly - cell_oy))
        else grid_at c1 (size_x_ m) x y.
Proof.
  intros Hw Hl1 Hlm Ex Ey Eux Euy. pose proof Hw as [Hsx Hsy Ha Hc Hl].
  assert (0 <= llx <= size_x_ m /\ 0 <= lly <= size_y_ m /\ llx <= urx <= size_x_ m /\
          lly <= ury <= size_y_ m) as (?&?&?&?) by (unfold clamp in *; lia).
  destruct (decide (urx - llx = 0 \/ ury - lly <= 0)) as [Hn|Hn].
  - rewrite copyMapRegion_nil by done. exists c1. split; [done|]. split; [done|].
    intros x y _. by rewrite bool_decide_eq_false_2 by lia.
  - assert (0 <= llx - cell_ox /\ urx - cell_ox <= size_x_ m /\
            0 <= lly - cell_oy /\ ury - cell_oy <= size_y_ m) as (?&?&?&?) by (unfold clamp in *; lia).
    assert (0 <= (urx - llx) * (ury - lly) <= size_x_ m * size_y_ m) as Harea by nia.
    rewrite !u32_small by (unfold is_u32; ilia).
    destruct (copyMapRegion_spec lm (urx - llx) (ury - lly) 0 0 c1 (size_x_ m) (size_y_ m)
        (llx - cell_ox) (lly - cell_oy) (urx - llx) (ury - lly)) as (c2 & -> & Hl2 & Hg2);
      [done | lia | ilia | ilia | unfold region_in; lia | unfold region_in; lia|].
    exists c2. split; [done|]. split; [done|]. intros x y [Hx Hy]. rewrite Hg2 by done.
    repeat case_bool_decide; try done; lia.
Qed.

(** The two copies of a scroll: the window that is kept goes through fresh
    memory, and back over an array of equal values. *)
Lemma scroll_window fresh_cell m c r v cell_ox cell_oy :
  wf_map m c -> is_s32 (cell_ox + size_x_ m) -> is_s32 (cell_oy + size_y_ m) ->
  alen r = alen c -> (forall x y, on_map m x y -> grid_at r (size_x_ m) x y = Some v) ->
  let llx := clamp cell_ox (size_x_ m) in
  let lly := clamp cell_oy (size_y_ m) in
  let wx := u32 (clamp (cell_ox + size_x_ m) (size_x_ m) - llx) in
  let wy := u32 (clamp (cell_oy + size_y_ m) (size_y_ m) - lly) in
  exists lm c', copyMapRegion c (u32 llx) (u32 lly) (size_x_ m) (fresh fresh_cell (u32 (wx * wy))) 0 0 wx wx wy = Some lm /\
    copyMapRegion lm 0 0 wx r (u32 (llx - cell_ox)) (u32 (lly - cell_oy)) (size_x_ m) wx wy = Some c' /\
    alen c' = alen c /\ forall x y, on_map m x y ->
      grid_at c' (size_x_ m) x y
      = if bool_decide (on_map m (x + cell_ox) (y + cell_oy))
        then grid_at c (size_x_ m) (x + cell_ox) (y + cell_oy) else Some v.
Proof.
  intros Hw Hox Hoy Hlr Hr llx lly wx wy. pose proof Hw as [Hsx Hsy Ha Hc Hl].
  set (urx := clamp (cell_ox + size_x_ m) (size_x_ m)) in wx.
  set (ury := clamp (cell_oy + size_y_ m) (size_y_ m)) in wy.
  assert (0 <= llx <= size_x_ m /\ 0 <= lly <= size_y_ m /\ llx <= urx <= size_x_ m /\
          lly <= ury <= size_y_ m) as (?&?&?&?)
    by (unfold llx, lly, urx, ury, clamp; lia).
  assert (0 <= (urx - llx) * (ury - lly) <= size_x_ m * size_y_ m) as Harea by nia.
  unfold wx, wy. rewrite !(u32_small (urx - llx)), !(u32_small (ury - lly)), !(u32_small llx), !(u32_small lly)
    by (unfold is_u32; ilia).
  rewrite (u32_small ((urx - llx) * (ury - lly))) by (unfold is_u32; ilia).
  destruct (copyMapRegion_spec c (size_x_ m) (size_y_ m) llx lly
      (fresh fresh_cell ((urx - llx) * (ury - lly))) (urx - llx) (ury - lly) 0 0 (urx - llx) (ury - lly))
    as (lm & E1 & Hlm & Hg1);
    [done | apply alen_fresh; lia | ilia | ilia | unfold region_in; lia | unfold region_in; lia|].
  rewrite alen_fresh in Hlm by lia.
  destruct (scroll_copy_back m c lm r llx lly urx ury cell_ox cell_oy Hw Hlr Hlm)
    as (c2 & E2 & Hl2 & Hg2); [done..|].
  exists lm, c2. split; [exact E1|]. split; [exact E2|]. split; [congruence|].
  intros x y Hp. rewrite Hg2 by done. destruct Hp as [Hx Hy].
  case_bool_decide as C1.
  - rewrite bool_decide_eq_true_2 by (unfold on_map, llx, lly, urx, ury, clamp in *; lia).
    rewrite Hg1, bool_decide_eq_true_2 by lia. unfold grid_at. f_equal. lia.
  - rewrite bool_decide_eq_false_2 by (unfold on_map, llx, lly, urx, ury, clamp in *; lia).
    by apply Hr.
Qed.

Lemma updateOrigin_spec fresh_byte m c new_origin_x new_origin_y cell_ox cell_oy :
  wf_map m c ->
  f_to_s32 (fdiv (fsub new_origin_x (origin_x_ m)) (resolution_ m)) = Some cell_ox ->
  f_to_s32 (fdiv (fsub new_origin_y (origin_y_ m)) (resolution_ m)) = Some cell_oy ->
  is_s32 (cell_ox + size_x_ m) -> is_s32 (cell_oy + size_y_ m) ->
  exists c', updateOrigin fresh_byte m new_origin_x new_origin_y
    = Some (mkCostmap2D (size_x_ m) (size_y_ m) (resolution_ m)
        (fadd (origin_x_ m) (fmul (f_of_Z cell_ox) (resolution_ m)))
        (fadd (origin_y_ m) (fmul (f_of_Z cell_oy) (resolution_ m))) (Some c') (default_value_ m)) /\
    alen c' = alen c /\ forall x y, on_map m x y ->
      grid_at c' (size_x_ m) x y
      = if bool_decide (on_map m (x + cell_ox) (y + cell_oy))
        then grid_at c (size_x_ m) (x + cell_ox) (y + cell_oy) else Some (default_value_ m).
Proof.
  intros Hw Ex Ey Hox Hoy. pose proof Hw as [Hsx Hsy Ha Hc Hl].
  unfold updateOrigin. rewrite Ex, Ey. mred.
  rewrite !(s32_small (size_x_ m)), !(s32_small (size_y_ m)) by (unfold is_s32; ilia).
  rewrite !assert_range by done. mred. rewrite Hc. mred.
  destruct (resetMaps_spec m c Hw) as (c1 & Er & Hl1 & Hr1).
  destruct (scroll_window fresh_byte m c c1 _ cell_ox cell_oy Hw Hox Hoy Hl1 Hr1) as (lm & c2 & E1 & E2 & Hl2 & Hg2).
  rewrite E1. mred. rewrite Er. mred.
  change (costmap_ (with_costmap m (Some c1))) with (Some c1). mred.
  change (size_x_ (with_costmap m (Some c1))) with (size_x_ m). rewrite E2. mred. by exists c2.
Qed.

(** C3. [updateOrigin] scrolls the map: when the new origin projects to the
    cell [(cell_ox, cell_oy)], the new cell [(x, y)] holds the old cell
    [(x + cell_ox, y + cell_oy)] if that one was on the map and the default
    value otherwise; sizes and resolution stay and the origin moves by a whole
    number of cells. *)
Theorem updateOrigin_scrolls (fresh_byte : Z -> Z) (m : Costmap2D) (c : list Z)
    (new_origin_x new_origin_y : spec_float) (cell_ox cell_oy : Z) :
  wf_map m c ->
  f_to_s32 (fdiv (fsub new_origin_x (origin_x_ m)) (resolution_ m)) = Some cell_ox ->
  f_to_s32 (fdiv (fsub new_origin_y (origin_y_ m)) (resolution_ m)) = Some cell_oy ->
  is_s32 (cell_ox + size_x_ m) -> is_s32 (cell_oy + size_y_ m) ->
  exists m' c', updateOrigin fresh_byte m new_origin_x new_origin_y = Some m' /\ wf_map m' c' /\
    size_x_ m' = size_x_ m /\ size_y_ m' = size_y_ m /\ resolution_ m' = resolution_ m /\
    origin_x_ m' = fadd (origin_x_ m) (fmul (f_of_Z cell_ox) (resolution_ m)) /\
    origin_y_ m' = fadd (origin_y_ m) (fmul (f_of_Z cell_oy) (resolution_ m)) /\
    forall x y, on_map m x y ->
      cost_at m' x y
      = if bool_decide (on_map m (x + cell_ox) (y + cell_oy))
        then cost_at m (x + cell_ox) (y + cell_oy) else Some (default_value_ m).
Proof.
  intros Hw Ex Ey Hox Hoy. pose proof Hw as [Hsx Hsy Ha Hc Hl].
  destruct (updateOrigin_spec fresh_byte m c new_origin_x new_origin_y cell_ox cell_oy)
    as (c' & -> & Hl' & Hg); [done..|].
  eexists _, c'. split; [done|]. split; [constructor; simpl; done || congruence|].
  do 5 (split; [done|]). unfold cost_at. rewrite Hc. exact Hg.
Qed.

Lemma updateOrigin_scrolls_witness :
  exists m', updateOrigin (fun _ => 77) example_map (f_of_Z 1) (f_of_Z (-1)) = Some m' /\
    cost_at m' 0 1 = Some 2 /\ cost_at m' 0 0 = Some 0 /\ cost_at m' 3 2 = Some 0.
Proof.
  destruct (updateOrigin_scrolls (fun _ => 77) example_map example_cells (f_of_Z 1) (f_of_Z (-1)) 1 (-1)
    example_map_wf) as (m' & c' & E & _ & _ & _ & _ & _ & _ & H);
    [vm_compute; reflexivity | vm_compute; reflexivity | unfold is_s32; simpl; lia | unfold is_s32; simpl; lia|].
  exists m'. split; [exact E|].
  split; [|split]; rewrite H by (unfold on_map; simpl; lia); vm_compute; reflexivity.
Defined.

Lemma copyWindow_spec m source c src sx0 sy0 sxn syn dx0 dy0 :
  wf_map m c -> wf_map source src ->
  0 <= sx0 <= sxn -> 0 <= sy0 <= syn -> 0 <= dx0 -> 0 <= dy0 ->
  sxn <= size_x_ source -> syn <= size_y_ source ->
  dx0 + (sxn - sx0) <= size_x_ m -> dy0 + (syn - sy0) <= size_y_ m ->
  exists c', copyWindow m source sx0 sy0 sxn syn dx0 dy0 = Some (true, with_costmap m (Some c')) /\
    alen c' = alen c /\ forall x y, on_map m x y -> grid_at c' (size_x_ m) x y
      = if bool_decide (dx0 <= x < dx0 + (sxn - sx0) /\ dy0 <= y < dy0 + (syn - sy0))
        then grid_at src (size_x_ source) (sx0 + (x - dx0)) (sy0 + (y - dy0))
        else grid_at c (size_x_ m) x y.
Proof.
  intros Hw Hws Hx Hy Hdx Hdy H1 H2 H3 H4. pose proof Hw as [Hsx Hsy Ha Hc Hl].
  pose proof Hws as [Hsx' Hsy' Ha' Hc' Hl']. unfold copyWindow.
  rewrite !(u32_small (sxn - sx0)), !(u32_small (syn - sy0)) by (unfold is_u32; ilia).
  rewrite !(u32_small (_ + _)) by (unfold is_u32; ilia).
  rewrite !(proj2 (Z.ltb_ge _ _)) by lia. simpl orb. cbv iota. rewrite Hc, Hc'. mred.
  destruct (copyMapRegion_spec src (size_x_ source) (size_y_ source) sx0 sy0 c (size_x_ m) (size_y_ m)
      dx0 dy0 (sxn - sx0) (syn - sy0)) as (c2 & -> & Hl2 & Hg);
    [done|done|ilia|ilia|unfold region_in; lia|unfold region_in; lia|]. mred.
  exists c2. split; [done|]. split; [done|]. intros x y [Hpx Hpy]. by apply Hg.
Qed.

(** [copyWindow] answers false and changes nothing when the window leaves
    either map; otherwise it copies exactly the cells of the window, leaving
    the rest of the destination. *)
Theorem copyWindow_copies (m source : Costmap2D) (c src : list Z) (sx0 sy0 sxn syn dx0 dy0 : Z) :
  wf_map m c -> wf_map source src ->
  0 <= sx0 <= sxn -> 0 <= sy0 <= syn -> 0 <= dx0 < 2 ^ 31 -> 0 <= dy0 < 2 ^ 31 ->
  (sxn <= size_x_ source /\ syn <= size_y_ source /\
   dx0 + (sxn - sx0) <= size_x_ m /\ dy0 + (syn - sy0) <= size_y_ m ->
   exists m' c', copyWindow m source sx0 sy0 sxn syn dx0 dy0 = Some (true, m') /\ wf_map m' c' /\
     forall x y, on_map m x y ->
       cost_at m' x y
       = if bool_decide (dx0 <= x < dx0 + (sxn - sx0) /\ dy0 <= y < dy0 + (syn - sy0))
         then cost_at source (sx0 + (x - dx0)) (sy0 + (y - dy0)) else cost_at m x y) /\
  (~ (sxn <= size_x_ source /\ syn <= size_y_ source /\
      dx0 + (sxn - sx0) <= size_x_ m /\ dy0 + (syn - sy0) <= size_y_ m) ->
   copyWindow m source sx0 sy0 sxn syn dx0 dy0 = Some (false, m)).
Proof.
  intros Hw Hws Hx Hy Hdx Hdy. pose proof Hw as [Hsx Hsy Ha Hc Hl].
  pose proof Hws as [Hsx' Hsy' Ha' Hc' Hl']. split.
  - intros (H1 & H2 & H3 & H4).
    destruct (copyWindow_spec m source c src sx0 sy0 sxn syn dx0 dy0) as (c2 & -> & Hl2 & Hg);
      [done || lia..|].
    eexists _, c2. split; [done|]. split; [by apply wf_with_costmap with c|].
    unfold cost_at. rewrite Hc, Hc'. exact Hg.
  - unfold copyWindow. intros Hn.
    destruct ((size_x_ source <? sxn) || (size_y_ source <? syn)) eqn:E; [done|].
    zbool. rewrite !(u32_small (sxn - sx0)), !(u32_small (syn - sy0)) by (unfold is_u32; ilia).
    rewrite !(u32_small (_ + _)) by (unfold is_u32; ilia).
    destruct ((size_x_ m <? _) || _) eqn:E'; [done|]. zbool. lia.
Qed.

Lemma copyWindow_copies_witness :
  exists m', copyWindow example_map (with_costmap example_map (Some (rev example_cells))) 0 0 2 2 1 1
             = Some (true, m') /\ cost_at m' 1 1 = Some 12 /\
  copyWindow example_map example_map 0 0 2 2 3 0 = Some (false, example_map).
Proof.
  assert (wf_map (with_costmap example_map (Some (rev example_cells))) (rev example_cells)) as Hw
    by (constructor; vm_compute; intuition discriminate).
  destruct (proj1 (copyWindow_copies example_map _ example_cells _ 0 0 2 2 1 1 example_map_wf Hw
    ltac:(lia) ltac:(lia) ltac:(lia) ltac:(lia))) as (m' & c' & E & _ & H); [simpl; lia|].
  exists m'. split; [exact E|]. split.
  - rewrite H by (unfold on_map; simpl; lia). vm_compute. reflexivity.
  - apply (copyWindow_copies example_map _ example_cells example_cells); try exact example_map_wf; simpl; lia.
Defined.

(** [worldToMap] only answers cells of the map, but
    [worldToMapEnforceBounds] does not: a coordinate on the upper edge of the
    map, neither below the origin nor beyond the edge, is converted to the
    index one past the last cell, although its comment promises a result that
    lies within the map. *)
Theorem worldToMap_bounds :
  (forall m wx wy loc, worldToMap m wx wy = Some (Some loc) ->
     on_map m (loc_x loc) (loc_y loc)) /\
  (exists m c wx wy mx my, wf_map m c /\ on_map m 0 0 /\
     worldToMapEnforceBounds m wx wy = Some (mx, my) /\ mx = size_x_ m /\ ~ on_map m mx my).
Proof.
  split.
  - intros m wx wy loc. unfold worldToMap. destruct (_ || _); [done|].
    destruct (f_to_u32 (fdiv (fsub wx _) _)) as [mx|] eqn:Ex; [|done]. mred.
    destruct (f_to_u32 (fdiv (fsub wy _) _)) as [my|] eqn:Ey; [|done]. mred.
    apply f_to_u32_inv in Ex as [_ Hx]. apply f_to_u32_inv in Ey as [_ Hy].
    destruct (_ && _) eqn:B; intros H; [|done]. injection H as <-. simpl. zbool.
    unfold on_map, is_u32 in *. lia.
  - exists example_map, example_cells, (f_of_Z 4), (f_of_Z 1), 4, 1.
    split; [exact example_map_wf|]. split; [unfold on_map; simpl; lia|].
    split; [vm_compute; reflexivity|]. split; [reflexivity|]. unfold on_map. simpl. lia.
Qed.

(** ** The sort of the outline *)

Definition le_x (a b : MapLocation) : Prop := loc_x a <= loc_x b.

(** The number of pairs out of order. *)
Fixpoint inversions (l : list MapLocation) : nat :=
  match l with
  | [] => 0
  | a :: l => length (filter (fun b => loc_x b < loc_x a) l) + inversions l
  end.

Lemma inversions_swap l1 a b l2 :
  loc_x b < loc_x a ->
  inversions (l1 ++ a :: b :: l2) = S (inversions (l1 ++ b :: a :: l2)).
Proof.
  intros H. induction l1 as [|c l1 IH]; cbn [inversions app].
  - rewrite !filter_cons. rewrite (decide_True (P := loc_x b < loc_x a)) by done.
    rewrite (decide_False (P := loc_x a < loc_x b)) by lia. simpl. lia.
  - rewrite IH. assert (length (filter (fun b => loc_x b < loc_x c) (l1 ++ a :: b :: l2))
      = length (filter (fun b => loc_x b < loc_x c) (l1 ++ b :: a :: l2))) as ->; [|lia].
    rewrite !filter_app, !filter_cons, !length_app. repeat case_decide; simpl; lia.
Qed.

Lemma inversions_bound l : (2 * inversions l <= length l * length l)%nat.
Proof.
  induction l as [|a l IH]; simpl; [lia|].
  pose proof (length_filter (fun b => loc_x b < loc_x a) l). lia.
Qed.

(** Two adjacent cells of an array, and the array after a swap. *)
Lemma split_adjacent {A} (l : list A) i a b :
  aget l i = Some a -> aget l (i + 1) = Some b ->
  exists l1 l2, l = l1 ++ a :: b :: l2 /\ Z.of_nat (length l1) = i /\
    (l' ← aset l i b; aset l' (i + 1) a) = Some (l1 ++ b :: a :: l2).
Proof.
  intros Ha Hb. pose proof (aget_bounds _ _ _ Ha) as Bi. pose proof (aget_bounds _ _ _ Hb) as Bj.
  unfold aget in Ha, Hb. rewrite (proj2 (in_array_spec l i) Bi) in Ha.
  rewrite (proj2 (in_array_spec l (i + 1)) Bj) in Hb.
  exists (take (Z.to_nat i) l), (drop (S (S (Z.to_nat i))) l).
  replace (Z.to_nat (i + 1)) with (S (Z.to_nat i)) in Hb by lia.
  assert (l = take (Z.to_nat i) l ++ a :: b :: drop (S (S (Z.to_nat i))) l) as El.
  { rewrite <- (drop_S l b (S (Z.to_nat i))) by done. rewrite <- (drop_S l a (Z.to_nat i)) by done.
    by rewrite take_drop. }
  assert (length (take (Z.to_nat i) l) = Z.to_nat i) as Elen
    by (rewrite length_take; unfold alen in *; lia).
  split; [done|]. split; [lia|].
  rewrite (aset_Some l i b Bi). mred.
  rewrite aset_Some by (unfold alen in *; rewrite length_insert; lia). f_equal.
  rewrite El at 1. rewrite insert_app_r_alt, Elen, Nat.sub_diag by lia. simpl.
  rewrite insert_app_r_alt, Elen by lia.
  by replace (Z.to_nat (i + 1) - Z.to_nat i)%nat with 1%nat by lia.
Qed.

(** The cells up to the position [i] are in order. *)
Definition sorted_to (i : Z) (l : list MapLocation) : Prop :=
  forall k a b, 0 <= k < i -> aget l k = Some a -> aget l (k + 1) = Some b -> loc_x a <= loc_x b.

Definition sort_measure (st : Z * list MapLocation) : nat :=
  (2 * inversions (snd st) + Z.to_nat (alen (snd st) - fst st))%nat.

Lemma sort_step_spec l0 i l :
  0 <= i -> sorted_to i l -> l ≡ₚ l0 ->
  exists c, sort_step (i, l) = Some c /\
    match c with
    | Next (j, l') => 0 <= j /\ sorted_to j l' /\ l' ≡ₚ l0 /\
        (sort_measure (j, l') < sort_measure (i, l))%nat
    | Break (j, l') => l' ≡ₚ l0 /\ alen l' - 1 <= j /\ sorted_to j l'
    end.
Proof.
  intros Hi Hs Hp. unfold sort_step. destruct (Z.ltb_spec i (alen l - 1)) as [Hlt|Hge].
  2: { eexists. split; [done|]. cbv beta iota. auto. }
  destruct (aget_is_Some l i ltac:(lia)) as [a Ha]. destruct (aget_is_Some l (i + 1) ltac:(lia)) as [b Hb].
  rewrite Ha, Hb. mred. destruct (Z.ltb_spec (loc_x b) (loc_x a)) as [Hinv|Hok].
  - destruct (split_adjacent l i a b Ha Hb) as (l1 & l2 & El & Elen & Es).
    assert ((l' ← aset l i b; l'' ← aset l' (i + 1) a; Some (Next (if 0 <? i then i - 1 else i, l'')))
      = Some (Next (if 0 <? i then i - 1 else i, l1 ++ b :: a :: l2))) as Es'.
    { destruct (aset l i b) as [t|]; [|done]. revert Es. mred. intros ->. done. }
    setoid_rewrite Es'. eexists. split; [done|]. cbv beta iota.
    assert (alen (l1 ++ b :: a :: l2) = alen l) as Hal.
    { rewrite El. unfold alen. rewrite !length_app. done. }
    split; [destruct (Z.ltb_spec 0 i); lia|]. split; [|split].
    + intros k u v Hk Hu Hv. assert (0 < i) by (destruct (Z.ltb_spec 0 i); lia).
      rewrite (proj2 (Z.ltb_lt 0 i)) in Hk by lia.
      rewrite aget_app_l in Hu, Hv by lia. apply (Hs k); [lia| |]; rewrite El, aget_app_l; done || lia.
    + rewrite <- Hp, El. apply Permutation_app_head. constructor.
    + unfold sort_measure. simpl. rewrite Hal, El, (inversions_swap l1 a b l2) by done.
      destruct (Z.ltb_spec 0 i); lia.
  - eexists. split; [done|]. cbv beta iota. split; [lia|]. split; [|split; [done|]].
    + intros k u v Hk Hu Hv. destruct (decide (k = i)) as [->|]; [|apply (Hs k); done || lia].
      rewrite Ha in Hu. rewrite Hb in Hv. by simplify_eq.
    + unfold sort_measure. simpl. lia.
Qed.

Lemma sorted_to_all l : sorted_to (alen l - 1) l -> Sorted le_x l.
Proof.
  intros H. induction l as [|a l IH]; [constructor|]. constructor.
  - apply IH. intros k u v Hk Hu Hv.
    apply (H (k + 1)); [unfold alen in *; simpl; lia | by rewrite aget_cons_S by lia |].
    by rewrite aget_cons_S by lia.
  - destruct l as [|b l]; constructor. apply (H 0); [unfold alen; simpl; lia | done |].
    by rewrite (aget_cons_S _ _ 0) by lia.
Qed.

Lemma sort_cells_correct cells :
  exists l, sort_cells cells = Some l /\ l ≡ₚ cells /\ Sorted le_x l.
Proof.
  unfold sort_cells.
  destruct (loop_inv (fun '(i, l) => 0 <= i /\ sorted_to i l /\ l ≡ₚ cells)
    (fun '(i, l) => l ≡ₚ cells /\ Sorted le_x l) sort_measure sort_step) with
    (fuel := sort_fuel cells) (s := (0, cells)) as ([i l] & -> & Hl).
  - intros [i l] (Hi & Hs & Hp). destruct (sort_step_spec cells i l Hi Hs Hp) as ([[j l']|[j l']] & -> & H).
    + eexists. split; [done|]. tauto.
    + eexists. split; [done|]. destruct H as (Hp' & Hj & Hs'). split; [done|].
      apply sorted_to_all. intros k a b Hk. apply Hs'. lia.
  - split; [lia|]. split; [|done]. intros k a b Hk. lia.
  - unfold sort_measure, sort_fuel. simpl. pose proof (inversions_bound cells). unfold alen. lia.
  - exists l. done.
Qed.

(** The in-place exchange sort of [convexFillCells] (which steps back
    after every swap) terminates on every vector of cells, and the result is
    the same cells in increasing order of [x]. *)
Theorem outline_sort_correct (cells : list MapLocation) :
  exists sorted, sort_cells cells = Some sorted /\ Permutation sorted cells /\ StronglySorted le_x sorted.
Proof.
  destruct (sort_cells_correct cells) as (l & E & Hp & Hs). exists l. split; [done|]. split; [done|].
  apply Sorted_StronglySorted; [|done]. intros a b c H1 H2. unfold le_x in *. lia.
Qed.

(** ** The 2D walk in closed form *)

Section walk2.
Context {S : Type} (at_ : S -> Z -> option S) (da db oa ob : Z) (E : Z -> Z -> Z).
Context (Hda : 0 <= da < 2 ^ 31) (Hdb : 0 <= db <= da).
Context (Ha : forall a b, 0 <= a < da -> 0 <= b <= db -> u32 (E a b + oa) = E (a + 1) b).
Context (Hb : forall a b, 0 <= a <= da -> 0 <= b < db -> u32 (E a b + ob) = E a (b + 1)).

Definition walk2_cell (i : Z) : Z := E i (minor_moves da db i).

Definition walk2_body (st : S * Z * Z) : option (S * Z * Z) :=
  let '(s, offset, error_b) := st in
  s ← at_ s offset;
  let offset := u32 (offset + oa) in
  let '(carry, error_b) := bres_step da db error_b in
  Some (s, if carry : bool then u32 (offset + ob) else offset, error_b).

Lemma walk2_step s i :
  0 <= i < da ->
  walk2_body (s, walk2_cell i, error_after da db i)
  = s' ← at_ s (walk2_cell i); Some (s', walk2_cell (i + 1), error_after da db (i + 1)).
Proof.
  intros Hi. unfold walk2_body. destruct (at_ s (walk2_cell i)) as [s'|]; mred; [|done].
  rewrite bres_step_after by lia. unfold walk2_cell.
  pose proof (minor_moves_range da db ltac:(lia) ltac:(lia) i ltac:(lia)).
  pose proof (minor_moves_range da db ltac:(lia) ltac:(lia) (i + 1) ltac:(lia)).
  pose proof (minor_moves_succ da db ltac:(lia) ltac:(lia) i ltac:(lia)) as Mb.
  rewrite Ha by lia. do 2 f_equal. f_equal. case_bool_decide as B.
  - rewrite Hb by lia. by rewrite B.
  - destruct Mb as [Mb|Mb]; [done|]. by rewrite Mb.
Qed.

Lemma walk2_loop n i s :
  0 <= i -> i + Z.of_nat n <= da ->
  for_up n i (fun _ => walk2_body) (s, walk2_cell i, error_after da db i)
  = s' ← run_cells at_ (walk2_cell <$> zrange i (i + Z.of_nat n)) s;
    Some (s', walk2_cell (i + Z.of_nat n), error_after da db (i + Z.of_nat n)).
Proof.
  revert i s. induction n as [|n IH]; intros i s Hi Hn.
  - rewrite zrange_nil by lia. simpl. by replace (i + Z.of_nat 0) with i by lia.
  - rewrite zrange_cons by lia. cbn [for_up]. rewrite walk2_step by lia. simpl.
    destruct (at_ s (walk2_cell i)) as [s'|]; simpl; [|done].
    rewrite IH by lia.
    by replace (i + 1 + Z.of_nat n) with (i + Z.of_nat (Datatypes.S n)) by lia.
Qed.

Lemma bresenham2D_spec max_length s :
  0 <= max_length ->
  bresenham2D at_ da db (da / 2) oa ob (E 0 0) max_length s
  = run_cells at_ (walk2_cell <$> zrange 0 (Z.min max_length da + 1)) s.
Proof.
  intros Hm. unfold bresenham2D, for_range.
  assert ((s, E 0 0, da / 2) = (s, walk2_cell 0, error_after da db 0)) as ->.
  { unfold walk2_cell. destruct (Z.eq_dec da 0) as [Z0|Hne].
    - assert (db = 0) as Zb by lia. by rewrite Zb, Z0.
    - rewrite error_after_0, minor_moves_0 by lia. done. }
  change (fun (_ : Z) '(s, offset, error_b) => _) with (fun _ : Z => walk2_body).
  rewrite walk2_loop by lia.
  replace (0 + Z.of_nat (Z.to_nat (Z.min max_length da - 0))) with (Z.min max_length da) by lia.
  rewrite zrange_snoc, fmap_app, run_cells_app by lia.
  destruct (run_cells at_ _ s) as [s'|]; simpl; [|done].
  by destruct (at_ s' _).
Qed.
End walk2.

(** The cells between [p] and [q]. *)
Definition extent2 (p q : MapLocation) : Z :=
  Z.max (Z.abs (loc_x q - loc_x p)) (Z.abs (loc_y q - loc_y p)).
#[global] Arguments extent2 : simpl never.

Definition toward (a b da i : Z) : Z := a + sign (b - a) * minor_moves da (Z.abs (b - a)) i.

Definition line2 (p q : MapLocation) : list MapLocation :=
  (fun i => mkLoc (toward (loc_x p) (loc_x q) (extent2 p q) i)
                  (toward (loc_y p) (loc_y q) (extent2 p q) i)) <$> zrange 0 (extent2 p q + 1).

(** The first [n + 1] of them. *)
Definition line2_upto (p q : MapLocation) (n : Z) : list MapLocation :=
  (fun i => mkLoc (toward (loc_x p) (loc_x q) (extent2 p q) i)
                  (toward (loc_y p) (loc_y q) (extent2 p q) i)) <$> zrange 0 (Z.min n (extent2 p q) + 1).

Lemma line2_upto_all p q n : extent2 p q <= n -> line2_upto p q n = line2 p q.
Proof. intros Hn. unfold line2_upto. by rewrite Z.min_r. Qed.

Lemma sign_cases d : sign d = 1 /\ 0 < d \/ sign d = -1 /\ d <= 0.
Proof. unfold sign. destruct (Z.ltb_spec 0 d); lia. Qed.

(** The box of two cells. *)
Definition in_box2 (p q r : MapLocation) : Prop :=
  Z.min (loc_x p) (loc_x q) <= loc_x r <= Z.max (loc_x p) (loc_x q) /\
  Z.min (loc_y p) (loc_y q) <= loc_y r <= Z.max (loc_y p) (loc_y q).

Lemma toward_between a b da i :
  da < 2 ^ 31 -> Z.abs (b - a) <= da -> 0 <= i <= da ->
  Z.min a b <= toward a b da i <= Z.max a b.
Proof.
  intros Hda Hd Hi. unfold toward. destruct (Z.eq_dec da 0) as [->|Hne].
  - assert (Z.abs (b - a) = 0) as -> by lia. assert (i = 0) as -> by lia.
    change (minor_moves 0 0 0) with 0. lia.
  - pose proof (minor_moves_range da (Z.abs (b - a)) ltac:(lia) ltac:(lia) i Hi).
    destruct (sign_cases (b - a)) as [[-> ?]|[-> ?]]; lia.
Qed.

Lemma line2_in_box p q r : extent2 p q < 2 ^ 31 -> r ∈ line2 p q -> in_box2 p q r.
Proof.
  intros He (i & -> & Hi%elem_of_zrange)%list_elem_of_fmap. unfold in_box2. simpl.
  split; apply toward_between; try done; unfold extent2 in *; lia.
Qed.

Lemma line2_upto_in p q n r : r ∈ line2_upto p q n -> r ∈ line2 p q.
Proof.
  intros (i & -> & Hi%elem_of_zrange)%list_elem_of_fmap. apply list_elem_of_fmap. exists i. split; [done|].
  apply elem_of_zrange. lia.
Qed.

Lemma minor_same da i : da < 2 ^ 31 -> 0 <= i <= da -> minor_moves da da i = i.
Proof.
  intros ? H. destruct (Z.eq_dec da 0) as [->|Hne]; [by replace i with 0 by lia|].
  apply minor_moves_same; lia.
Qed.

Lemma line2_start p q : extent2 p q < 2 ^ 31 -> p ∈ line2 p q.
Proof.
  intros He. apply list_elem_of_fmap. exists 0. split.
  - assert (forall a b, Z.abs (b - a) <= extent2 p q -> toward a b (extent2 p q) 0 = a) as H.
    { intros a b Hab. unfold toward. destruct (Z.eq_dec (extent2 p q) 0) as [Z0|Hne].
      - rewrite Z0 in *. assert (Z.abs (b - a) = 0) as -> by lia. change (minor_moves 0 0 0) with 0. lia.
      - rewrite minor_moves_0 by lia. lia. }
    rewrite !H by (unfold extent2; lia). by destruct p.
  - apply elem_of_zrange. unfold extent2. lia.
Qed.

Section raytrace2.
Context (hypot : spec_float -> spec_float -> spec_float).

(** The cell where a ray starts, [min_length] away from [p]: none when the ray
    is shorter than that. *)
Definition ray_start (p q : MapLocation) (min_length : Z) : option (option MapLocation) :=
  let dx := f_of_Z (loc_x q - loc_x p) in
  let dy := f_of_Z (loc_y q - loc_y p) in
  let dist := hypot dx dy in
  if flt dist (f_of_Z min_length) then Some None
  else if fgt dist f_zero then
    x ← f_to_u32 (fadd (f_of_Z (loc_x p)) (fmul (fdiv dx dist) (f_of_Z min_length)));
    y ← f_to_u32 (fadd (f_of_Z (loc_y p)) (fmul (fdiv dy dist) (f_of_Z min_length)));
    Some (Some (mkLoc x y))
  else Some (Some p).

(** How far a ray from [p], walked from [start], goes. *)
Definition ray_length (p q start : MapLocation) (max_length : Z) : option Z :=
  let dist := hypot (f_of_Z (loc_x q - loc_x p)) (f_of_Z (loc_y q - loc_y p)) in
  let scale := if feq dist f_zero then f_one else fmin f_one (fdiv (f_of_Z max_length) dist) in
  f_to_u32 (fmul scale (f_of_Z (extent2 start q))).

Definition ray_cells (p q : MapLocation) (max_length min_length : Z) : option (list MapLocation) :=
  start ← ray_start p q min_length;
  match start with
  | None => Some []
  | Some start => len ← ray_length p q start max_length; Some (line2_upto start q len)
  end.

Lemma raytrace_run {S} (at_ : S -> Z -> option S) sx sy p q max_length min_length cells (s : S) :
  0 <= sx < 2 ^ 31 -> 0 <= sy < 2 ^ 31 -> sx * sy <= 2 ^ 31 ->
  0 <= loc_x p < sx -> 0 <= loc_y p < sy -> 0 <= loc_x q < sx -> 0 <= loc_y q < sy ->
  (forall start, ray_start p q min_length = Some (Some start) -> 0 <= loc_x start < sx /\ 0 <= loc_y start < sy) ->
  ray_cells p q max_length min_length = Some cells ->
  raytraceLine hypot sx at_ (loc_x p) (loc_y p) (loc_x q) (loc_y q) max_length min_length s
  = run_cells at_ ((fun c => loc_y c * sx + loc_x c) <$> cells) s.
Proof.
  destruct p as [px py], q as [qx qy]. unfold ray_cells, ray_start, ray_length. cbn [loc_x loc_y]. cbv zeta.
  intros Hsx Hsy Ha Hpx Hpy Hqx Hqy Hst Hc. unfold raytraceLine. cbv zeta.
  rewrite !(s32_small (qx - px)), !(s32_small (qy - py)) by (unfold is_s32; ilia).
  set (dist := hypot _ _) in *. destruct (flt dist (f_of_Z min_length)); [by injection Hc as <-|].
  assert (exists start, (if fgt dist f_zero then
      x ← f_to_u32 (fadd (f_of_Z px) (fmul (fdiv (f_of_Z (qx - px)) dist) (f_of_Z min_length)));
      y ← f_to_u32 (fadd (f_of_Z py) (fmul (fdiv (f_of_Z (qy - py)) dist) (f_of_Z min_length)));
      Some (Some (mkLoc x y)) else Some (Some (mkLoc px py))) = Some (Some start)) as [[ux uy] Es].
  { revert Hc. destruct (fgt dist f_zero); [|by eexists]. destruct (f_to_u32 (fadd (f_of_Z px) _)); [|done]. destruct (f_to_u32 (fadd (f_of_Z py) _)); [|done]. by eexists. }
  rewrite Es in Hc. mred. destruct (Hst _ Es) as [Hux Huy]. cbn [loc_x loc_y] in Hux, Huy.
  assert ((if fgt dist f_zero then f_to_u32 (fadd (f_of_Z px) (fmul (fdiv (f_of_Z (qx - px)) dist) (f_of_Z min_length))) else Some px) = Some ux /\
          (if fgt dist f_zero then f_to_u32 (fadd (f_of_Z py) (fmul (fdiv (f_of_Z (qy - py)) dist) (f_of_Z min_length))) else Some py) = Some uy) as [-> ->].
  { destruct (fgt dist f_zero); [|by injection Es as <- <-]. revert Es. destruct (f_to_u32 (fadd (f_of_Z px) _)); [|done]. destruct (f_to_u32 (fadd (f_of_Z py) _)); [|done]. mred. by intros [= <- <-]. }
  clear Es. mred. rewrite mbind_Some in Hc. rewrite !(s32_small (qx - ux)), !(s32_small (qy - uy)) by (unfold is_s32; ilia).
  assert (u32 (u32 (uy * sx) + ux) = uy * sx + ux) as ->.
  { rewrite u32_add_l. apply u32_small. pose proof (index_bound sx sy ux uy Hux Huy). unfold is_u32. ilia. }
  destruct (f_to_u32 _) as [len|] eqn:Hl in Hc; [|done]. injection Hc as <-.
  pose proof (f_to_u32_inv _ _ Hl) as [_ [Hl0 _]].
  assert (forall e x y, 0 <= x < sx -> 0 <= y < sy -> e = y * sx + x -> u32 e = y * sx + x) as Hsmall.
  { intros e x y Hx Hy ->. apply u32_small. pose proof (index_bound sx sy x y Hx Hy). unfold is_u32. ilia. }
  assert (forall a b hi k, 0 <= a < hi -> 0 <= b < hi -> 0 <= k <= Z.abs (b - a) ->
    0 <= a + sign (b - a) * k < hi) as Hrange.
  { intros a b hi k ? ? ?. destruct (sign_cases (b - a)) as [[-> ?]|[-> ?]]; lia. }
  unfold line2_upto. rewrite <- list_fmap_compose.
  destruct (Z.leb_spec (Z.abs (qy - uy)) (Z.abs (qx - ux))) as [Hd|Hd].
  - assert (extent2 (mkLoc ux uy) (mkLoc qx qy) = Z.abs (qx - ux)) as Ee by (unfold extent2; simpl; lia).
    rewrite Ee in *. rewrite Hl. mred.
    pose (E := fun a b => (uy + sign (qy - uy) * b) * sx + (ux + sign (qx - ux) * a)).
    replace (uy * sx + ux) with (E 0 0) by (unfold E; lia).
    rewrite (bresenham2D_spec at_ _ _ _ _ E); [| ilia | lia | | | done].
    + f_equal. apply list_fmap_ext. intros k i Hi%list_elem_of_lookup_2. apply elem_of_zrange in Hi.
      unfold walk2_cell, E, toward. simpl. rewrite minor_same by ilia. done.
    + intros a b Hab Hbb. apply Hsmall; [apply Hrange; lia..|unfold E; lia].
    + intros a b Hab Hbb. rewrite <- u32_add_r, u32_s32, u32_add_r.
      apply Hsmall; [apply Hrange; lia..|unfold E; lia].
  - assert (extent2 (mkLoc ux uy) (mkLoc qx qy) = Z.abs (qy - uy)) as Ee by (unfold extent2; simpl; lia).
    rewrite Ee in *. rewrite Hl. mred.
    pose (E := fun a b => (uy + sign (qy - uy) * a) * sx + (ux + sign (qx - ux) * b)).
    replace (uy * sx + ux) with (E 0 0) by (unfold E; lia).
    rewrite (bresenham2D_spec at_ _ _ _ _ E); [| ilia | lia | | | done].
    + f_equal. apply list_fmap_ext. intros k i Hi%list_elem_of_lookup_2. apply elem_of_zrange in Hi.
      unfold walk2_cell, E, toward. simpl. rewrite minor_same by ilia. done.
    + intros a b Hab Hbb. rewrite <- u32_add_r, u32_s32, u32_add_r.
      apply Hsmall; [apply Hrange; lia..|unfold E; lia].
    + intros a b Hab Hbb. apply Hsmall; [apply Hrange; lia..|unfold E; lia].
Qed.

(** The conversions of a full-length walk between two cells are defined and
    do not shorten it. *)
Definition edge_ok (p q : MapLocation) : Prop :=
  let dx := f_of_Z (loc_x q - loc_x p) in
  let dy := f_of_Z (loc_y q - loc_y p) in
  let dist := hypot dx dy in
  let scale := if feq dist f_zero then f_one else fmin f_one (fdiv (f_of_Z UINT_MAX) dist) in
  flt dist (f_of_Z 0) = false /\
  (fgt dist f_zero = true ->
     is_finite (fdiv dx dist) = true /\ is_finite (fdiv dy dist) = true /\
     f_trunc (f_of_Z (loc_x p)) = Some (loc_x p) /\ f_trunc (f_of_Z (loc_y p)) = Some (loc_y p)) /\
  exists len, f_to_u32 (fmul scale (f_of_Z (extent2 p q))) = Some len /\ extent2 p q <= len.

(** Such a walk starts at its first cell. *)
Lemma edge_start p q : is_u32 (loc_x p) -> is_u32 (loc_y p) -> edge_ok p q -> ray_start p q 0 = Some (Some p).
Proof.
  destruct p as [px py]. unfold ray_start, edge_ok. cbv zeta. cbn [loc_x loc_y]. intros Hpx Hpy (-> & Hf & _).
  set (dist := hypot _ _) in *. destruct (fgt dist f_zero); [|done]. destruct (Hf eq_refl) as (F1 & F2 & F3 & F4).
  assert (forall a d, is_u32 a -> is_finite (fdiv (f_of_Z d) dist) = true -> f_trunc (f_of_Z a) = Some a ->
    f_to_u32 (fadd (f_of_Z a) (fmul (fdiv (f_of_Z d) dist) (f_of_Z 0))) = Some a) as Hstart.
  { intros a d Hau G1 G2. apply f_to_u32_trunc; [|done]. rewrite fadd_fmul_zero_trunc; [done| |done]. by eapply f_trunc_finite. }
  rewrite (Hstart px) by done. mred. by rewrite (Hstart py).
Qed.

Lemma raytrace2_run {S} (at_ : S -> Z -> option S) sx sy p q (s : S) :
  0 <= sx < 2 ^ 31 -> 0 <= sy < 2 ^ 31 -> sx * sy <= 2 ^ 31 ->
  0 <= loc_x p < sx -> 0 <= loc_y p < sy -> 0 <= loc_x q < sx -> 0 <= loc_y q < sy ->
  edge_ok p q ->
  raytraceLine hypot sx at_ (loc_x p) (loc_y p) (loc_x q) (loc_y q) UINT_MAX 0 s
  = run_cells at_ ((fun c => loc_y c * sx + loc_x c) <$> line2 p q) s.
Proof.
  intros Hsx Hsy Ha Hpx Hpy Hqx Hqy He.
  assert (ray_start p q 0 = Some (Some p)) as Es by (apply edge_start; [unfold is_u32; ilia..|done]).
  apply (raytrace_run at_ sx sy); [done..| |].
  - rewrite Es. by intros start [= <-].
  - unfold ray_cells. rewrite Es. mred. destruct He as (_ & _ & len & Hl & Hle). unfold ray_length. cbv zeta in Hl |- *.
    rewrite Hl. mred. by rewrite line2_upto_all.
Qed.
End raytrace2.

(** ** Filling a polygon *)

Definition loc_on (m : Costmap2D) (r : MapLocation) : Prop := on_map m (loc_x r) (loc_y r).

(** A box of cells. *)
Definition boxed (lo hi r : MapLocation) : Prop :=
  loc_x lo <= loc_x r <= loc_x hi /\ loc_y lo <= loc_y r <= loc_y hi.

Lemma boxed_between lo hi p q r : boxed lo hi p -> boxed lo hi q -> in_box2 p q r -> boxed lo hi r.
Proof. unfold boxed, in_box2. lia. Qed.

(** The edge that starts at the vertex [i] of a closed polygon. *)
Definition closed_edge (polygon : list MapLocation) (i : Z) (p q : MapLocation) : Prop :=
  aget polygon i = Some p /\ aget polygon (if i =? alen polygon - 1 then 0 else i + 1) = Some q.

Section fill.
Context (hypot : spec_float -> spec_float -> spec_float).
Context (m : Costmap2D) (c : list Z) (Hw : wf_map m c).
Context (lo hi : MapLocation).

Lemma gather_cells l cells :
  Forall (loc_on m) l ->
  run_cells (PolygonOutlineCells m) ((fun r => loc_y r * size_x_ m + loc_x r) <$> l) cells
  = Some (cells ++ l).
Proof.
  revert cells. induction l as [|r l IH]; intros cells Hl; [by rewrite app_nil_r|].
  apply Forall_cons_1 in Hl as [Hr Hl]. rewrite fmap_cons. cbn [run_cells].
  assert (PolygonOutlineCells m cells (loc_y r * size_x_ m + loc_x r) = Some (cells ++ [r])) as ->.
  { unfold PolygonOutlineCells. destruct (index_cells_inv m c Hw _ _ Hr) as [_ ->]. by destruct r. }
  mred. rewrite IH by done. by rewrite <- app_assoc.
Qed.

Definition edges_ok (polygon : list MapLocation) : Prop :=
  forall i p q, closed_edge polygon i p q -> edge_ok hypot p q.

Context (polygon : list MapLocation).
Context (Hon : forall v, v ∈ polygon -> loc_on m v /\ boxed lo hi v).
Context (Hedges : edges_ok polygon).

Lemma outline_edge_spec i j p q cells :
  aget polygon i = Some p -> aget polygon j = Some q -> edge_ok hypot p q ->
  outline_edge hypot m polygon i j cells = Some (cells ++ line2 p q) /\
  (forall r, r ∈ line2 p q -> loc_on m r /\ boxed lo hi r).
Proof.
  intros Hp Hq He. destruct (Hon p (aget_elem _ _ _ Hp)) as [[Px Py] Pb].
  destruct (Hon q (aget_elem _ _ _ Hq)) as [[Qx Qy] Qb]. pose proof Hw as [Hsx Hsy Ha _ _].
  assert (extent2 p q < 2 ^ 31) as Hex by (unfold extent2; ilia).
  assert (forall r, r ∈ line2 p q -> loc_on m r /\ boxed lo hi r) as Hr.
  { intros r Hr%line2_in_box; [|done]. split; [|by apply (boxed_between lo hi p q)].
    unfold in_box2 in Hr. unfold loc_on, on_map. lia. }
  split; [|done]. unfold outline_edge. rewrite Hp, Hq. mred.
  rewrite (raytrace2_run hypot _ _ (size_y_ m)) by done. apply gather_cells.
  apply Forall_forall. intros r Hin. by apply Hr.
Qed.

(** The gathered outline: on the map, in the box, and every edge complete. *)
Definition outline_of (n : Z) (out : list MapLocation) : Prop :=
  (forall r, r ∈ out -> loc_on m r /\ boxed lo hi r) /\
  (forall i p q, 0 <= i < n -> closed_edge polygon i p q -> forall r, r ∈ line2 p q -> r ∈ out).

Lemma polygonOutlineCells_spec cells :
  0 < alen polygon ->
  exists out, polygonOutlineCells hypot m polygon cells = Some (cells ++ out) /\
    outline_of (alen polygon) out.
Proof.
  intros Hn. unfold polygonOutlineCells. cbv zeta. rewrite (proj2 (Z.eqb_neq _ _)) by lia.
  destruct (for_range_inv (fun k l => exists out, l = cells ++ out /\ outline_of k out)
    (fun i cells => outline_edge hypot m polygon i (i + 1) cells) 0 (alen polygon - 1) cells)
    as (l & -> & out & -> & Hout & Hedge); [lia| | |].
  - exists []. split; [by rewrite app_nil_r|]. split; [set_solver|]. intros i p q Hi. lia.
  - intros k t Hk (out & -> & Hout & Hedge).
    destruct (aget_is_Some polygon k ltac:(lia)) as [p Hp].
    destruct (aget_is_Some polygon (k + 1) ltac:(lia)) as [q Hq].
    assert (closed_edge polygon k p q) as Hc
      by (split; [done|]; by rewrite (proj2 (Z.eqb_neq k _)) by lia).
    destruct (outline_edge_spec k (k + 1) p q (cells ++ out) Hp Hq (Hedges _ _ _ Hc)) as [-> Hr].
    eexists. split; [done|]. exists (out ++ line2 p q). split; [by rewrite app_assoc|]. split.
    + intros r [?|?]%elem_of_app; auto.
    + intros i p' q' Hi Hc' r Hin. apply elem_of_app.
      destruct (decide (i = k)) as [->|]; [|left; eapply (Hedge i); done || lia].
      destruct Hc as [C1 C2], Hc' as [C1' C2']. simplify_eq. by right.
  - mred. destruct (aget_is_Some polygon (alen polygon - 1) ltac:(lia)) as [p Hp].
    destruct (aget_is_Some polygon 0 ltac:(lia)) as [q Hq].
    assert (closed_edge polygon (alen polygon - 1) p q) as Hc by (split; [done|]; by rewrite Z.eqb_refl).
    destruct (outline_edge_spec _ 0 p q (cells ++ out) Hp Hq (Hedges _ _ _ Hc)) as [-> Hr].
    exists (out ++ line2 p q). split; [by rewrite app_assoc|]. split.
    + intros r [?|?]%elem_of_app; auto.
    + intros i p' q' Hi Hc' r Hin. apply elem_of_app.
      destruct (decide (i = alen polygon - 1)) as [->|]; [|left; eapply (Hedge i); done || lia].
      destruct Hc as [C1 C2], Hc' as [C1' C2']. simplify_eq. by right.
Qed.

Lemma scan_spec x cells i a b :
  Forall (boxed lo hi) cells -> 0 <= i -> loc_y lo <= loc_y a -> loc_y b <= loc_y hi ->
  exists i' a' b', loop (S (length cells)) (scan_step x cells) (i, a, b) = Some (i', a', b') /\
    i <= i' /\ loc_y lo <= loc_y a' /\ loc_y b' <= loc_y hi.
Proof.
  intros Hc Hi Ha Hb.
  destruct (loop_inv (fun '(j, u, v) => i <= j /\ loc_y lo <= loc_y u /\ loc_y v <= loc_y hi)
    (fun '(j, u, v) => i <= j /\ loc_y lo <= loc_y u /\ loc_y v <= loc_y hi)
    (fun '(j, u, v) => Z.to_nat (alen cells - j)) (scan_step x cells)) with
    (fuel := S (length cells)) (s := (i, a, b)) as ([[i' a'] b'] & E & H).
  - intros [[j u] v] (Hj & Hu & Hv). unfold scan_step.
    destruct (Z.ltb_spec j (alen cells)); [|eexists; split; [done|]; done].
    destruct (aget_is_Some cells j ltac:(lia)) as [r Hr]. rewrite Hr. mred.
    pose proof (proj1 (Forall_forall _ _) Hc r (aget_elem _ _ _ Hr)) as [_ Hry].
    destruct (loc_x r =? x); [|eexists; split; [done|]; done].
    destruct (Z.ltb_spec (loc_y r) (loc_y u)); [eexists; split; [done|]; cbv beta iota; lia|].
    destruct (Z.ltb_spec (loc_y v) (loc_y r)); (eexists; split; [done|]; cbv beta iota; lia).
  - done.
  - unfold alen. lia.
  - exists i', a', b'. done.
Qed.

Lemma fill_loop_spec max_x x0 cells :
  Forall (boxed lo hi) cells -> 0 < alen cells -> loc_x lo <= x0 -> max_x <= loc_x hi ->
  exists x i ext, loop (S (S (Z.to_nat (max_x - x0)))) (fill_column max_x) (x0, 0, cells)
                  = Some (x, i, cells ++ ext) /\ Forall (boxed lo hi) ext.
Proof.
  intros Hc Hn Hx0 Hmx.
  destruct (loop_inv (fun '(x, i, l) => loc_x lo <= x /\ 0 <= i /\ exists ext, l = cells ++ ext /\ Forall (boxed lo hi) ext)
    (fun '(x, i, l) => exists ext, l = cells ++ ext /\ Forall (boxed lo hi) ext)
    (fun '(x, i, l) => Z.to_nat (max_x + 1 - x)) (fill_column max_x)) with
    (fuel := S (S (Z.to_nat (max_x - x0)))) (s := (x0, 0, cells)) as ([[x i] l] & E & ext & -> & He).
  - intros [[x i] l] (Hx & Hi & ext & -> & He). unfold fill_column.
    assert (Forall (boxed lo hi) (cells ++ ext)) as Hall by (by apply Forall_app).
    destruct (Z.ltb_spec max_x x); [eexists; split; [done|]; cbv beta iota; eauto|].
    destruct (Z.leb_spec (alen (cells ++ ext) - 1) i); [eexists; split; [done|]; cbv beta iota; eauto|].
    destruct (aget_is_Some (cells ++ ext) i ltac:(lia)) as [a Ha].
    destruct (aget_is_Some (cells ++ ext) (i + 1) ltac:(lia)) as [b Hb]. rewrite Ha, Hb. mred.
    pose proof (proj1 (Forall_forall _ _) Hall a (aget_elem _ _ _ Ha)) as [_ Hay].
    pose proof (proj1 (Forall_forall _ _) Hall b (aget_elem _ _ _ Hb)) as [_ Hby].
    destruct (if loc_y a <? loc_y b then (a, b) else (b, a)) as [u v] eqn:Euv.
    assert (loc_y lo <= loc_y u /\ loc_y v <= loc_y hi) as [Hu Hv]
      by (destruct (loc_y a <? loc_y b); simplify_eq; lia).
    destruct (scan_spec x (cells ++ ext) (i + 2) u v Hall ltac:(lia) Hu Hv) as (i' & u' & v' & -> & Hi' & Hu' & Hv').
    mred. eexists. split; [done|]. split; [|lia]. split; [lia|]. split; [lia|].
    exists (ext ++ (mkLoc x <$> zrange (loc_y u') (loc_y v' + 1))). split; [by rewrite app_assoc|].
    apply Forall_app. split; [done|]. apply Forall_forall. intros r (y & -> & Hy)%list_elem_of_fmap.
    apply elem_of_zrange in Hy. unfold boxed. simpl. lia.
  - split; [done|]. split; [lia|]. exists []. by rewrite app_nil_r.
  - lia.
  - exists x, i, ext. done.
Qed.

Lemma convexFillCells_spec :
  3 <= alen polygon -> loc_x lo <= loc_x hi ->
  exists cells, convexFillCells hypot m polygon [] = Some cells /\
    Forall (boxed lo hi) cells /\
    (forall i p q r, closed_edge polygon i p q -> r ∈ line2 p q -> r ∈ cells).
Proof.
  intros Hn Hlohi. unfold convexFillCells. rewrite (proj2 (Z.ltb_ge _ _)) by lia.
  destruct (polygonOutlineCells_spec [] ltac:(lia)) as (out & -> & Hout & Hedge). mred. simpl app.
  destruct (sort_cells_correct out) as (l & -> & Hp & Hs). mred.
  assert (Forall (boxed lo hi) l) as Hl.
  { apply Forall_forall. intros r Hr. apply Hout. by rewrite <- Hp. }
  assert (forall i p q r, closed_edge polygon i p q -> r ∈ line2 p q -> r ∈ l) as Hall.
  { intros i p q r Hc Hr. rewrite Hp. eapply (Hedge i); [|exact Hc|exact Hr].
    destruct Hc as [Hc _]. by apply aget_bounds in Hc. }
  assert (0 < alen l) as Hpos.
  { destruct (aget_is_Some polygon 0 ltac:(lia)) as [p Hp0].
    destruct (aget_is_Some polygon 1 ltac:(lia)) as [q Hq0].
    assert (closed_edge polygon 0 p q) as Hc by (split; [done|]; by rewrite (proj2 (Z.eqb_neq 0 _)) by lia).
    assert (p ∈ l) as Hin.
    { apply (Hall 0 p q p Hc). apply line2_start.
      destruct (Hon p (aget_elem _ _ _ Hp0)) as [[Px Py] _].
      destruct (Hon q (aget_elem _ _ _ Hq0)) as [[Qx Qy] _].
      pose proof Hw as [Hsx Hsy _ _ _]. unfold extent2. ilia. }
    destruct l; [by apply not_elem_of_nil in Hin|]. unfold alen. simpl. lia. }
  destruct (aget_is_Some l 0 ltac:(lia)) as [f Hf]. destruct (aget_is_Some l (alen l - 1) ltac:(lia)) as [e He].
  rewrite Hf, He. mred.
  pose proof (proj1 (Forall_forall _ _) Hl f (aget_elem _ _ _ Hf)) as [Hfx _].
  pose proof (proj1 (Forall_forall _ _) Hl e (aget_elem _ _ _ He)) as [Hex _].
  destruct (fill_loop_spec (loc_x e) (loc_x f) l Hl Hpos ltac:(lia) ltac:(lia)) as (x & i & ext & -> & Hext).
  mred. exists (l ++ ext). split; [done|]. split; [by apply Forall_app|].
  intros i' p q r Hc Hr. apply elem_of_app. left. by apply (Hall i' p q).
Qed.
End fill.

(** Writing a list of cells of the map. *)
Lemma write_cells m c0 cells v c :
  wf_map m c0 -> Forall (loc_on m) cells -> alen c = alen c0 ->
  exists c', run_cells (fun c loc => aset c (getIndex m (loc_x loc) (loc_y loc)) v) cells c = Some c' /\
    alen c' = alen c /\
    forall x y, on_map m x y ->
      grid_at c' (size_x_ m) x y
      = if bool_decide (mkLoc x y ∈ cells) then Some v else grid_at c (size_x_ m) x y.
Proof.
  intros Hw. revert c. induction cells as [|[rx ry] cells IH]; intros c Hc Hl.
  - exists c. split; [done|]. split; [done|]. intros x y _. rewrite bool_decide_eq_false_2; [done|set_solver].
  - apply Forall_cons_1 in Hc as [Hr Hc]. cbn [run_cells].
    change (on_map m rx ry) in Hr.
    destruct (getIndex_small m c0 rx ry Hw Hr) as [Ei Hb]. cbn [loc_x loc_y]. rewrite Ei.
    assert (0 <= ry * size_x_ m + rx < alen c) as Hi by (rewrite Hl, (wf_alen m c0 Hw); lia).
    pose proof (aset_Some c (ry * size_x_ m + rx) v Hi) as E.
    rewrite E. mred. pose proof (aset_len _ _ _ _ E) as Hlen.
    destruct (IH _ Hc (eq_trans Hlen Hl)) as (c' & E' & Hl' & Hg').
    exists c'. split; [exact E'|]. split; [congruence|]. intros x y Hp. rewrite Hg' by done.
    unfold grid_at at 1. rewrite (aget_aset _ _ _ _ _ E).
    destruct (Z.eqb_spec (ry * size_x_ m + rx) (y * size_x_ m + x)) as [Ee|Hne].
    + destruct (index_inj _ _ _ _ _ (proj1 Hr) (proj1 Hp) Ee) as [-> ->].
      rewrite (bool_decide_eq_true_2 (mkLoc x y ∈ mkLoc x y :: cells)) by set_solver. by case_bool_decide.
    + assert (mkLoc x y ∈ mkLoc rx ry :: cells <-> mkLoc x y ∈ cells) as Hiff.
      { rewrite elem_of_cons. split; [|auto]. intros [[= -> ->]|?]; done. }
      by rewrite (bool_decide_ext _ _ Hiff).
Qed.

Lemma map_polygon_length m polygon locs :
  map_polygon m polygon = Some (Some locs) -> length locs = length polygon /\ Forall (loc_on m) locs.
Proof.
  revert locs. induction polygon as [|[wx wy] polygon IH]; intros locs; simpl.
  - intros [= <-]. done.
  - unfold worldToMap. destruct (_ || _); [done|].
    destruct (f_to_u32 (fdiv (fsub wx _) _)) as [mx|] eqn:Ex; [|done]. mred.
    destruct (f_to_u32 (fdiv (fsub wy _) _)) as [my|] eqn:Ey; [|done]. mred.
    apply f_to_u32_inv in Ex as [_ Hx]. apply f_to_u32_inv in Ey as [_ Hy].
    destruct (_ && _) eqn:B; mred; [|done].
    destruct (map_polygon m polygon) as [[rest|]|]; mred; simpl; try done.
    intros [= <-]. destruct (IH rest eq_refl) as [Hl Hf]. split; [simpl; congruence|].
    constructor; [|done]. zbool. unfold loc_on, on_map, is_u32 in *. simpl. lia.
Qed.

(** C13. [setConvexPolygonCost]: when a vertex is off the map it answers false
    and the map is unchanged.  Otherwise, for a polygon of three vertices or
    more whose edges convert, it runs without undefined behaviour (every loop
    ends, every index is on the map), answers true, writes the cost in every
    cell of every edge of the closed polygon, vertices included, and changes no
    cell out of any box that contains the vertices. *)
Theorem setConvexPolygonCost_fills (hypot : spec_float -> spec_float -> spec_float)
    (m : Costmap2D) (c : list Z) (polygon : list (spec_float * spec_float)) (cost_value : Z) :
  wf_map m c ->
  (map_polygon m polygon = Some None ->
     setConvexPolygonCost hypot m polygon cost_value = Some (false, m)) /\
  (forall locs, map_polygon m polygon = Some (Some locs) -> 3 <= alen locs -> edges_ok hypot locs ->
   exists m' c', setConvexPolygonCost hypot m polygon cost_value = Some (true, m') /\ wf_map m' c' /\
     (forall i p q r, closed_edge locs i p q -> r ∈ line2 p q ->
        cost_at m' (loc_x r) (loc_y r) = Some cost_value) /\
     (forall lo hi x y, (forall v, v ∈ locs -> boxed lo hi v) -> on_map m x y ->
        ~ boxed lo hi (mkLoc x y) -> cost_at m' x y = cost_at m x y)).
Proof.
  intros Hw. unfold setConvexPolygonCost. split; [by intros ->|].
  intros locs Hlocs Hn He. rewrite Hlocs. mred.
  destruct (map_polygon_length m polygon locs Hlocs) as [_ Hon].
  assert (forall v, v ∈ locs -> loc_on m v) as Hon' by (by apply Forall_forall).
  assert (forall lo hi, (forall v, v ∈ locs -> boxed lo hi v) -> loc_x lo <= loc_x hi ->
    exists cells, convexFillCells hypot m locs [] = Some cells /\ Forall (boxed lo hi) cells /\
      (forall i p q r, closed_edge locs i p q -> r ∈ line2 p q -> r ∈ cells)) as Hfill.
  { intros lo hi Hb Hlh. apply (convexFillCells_spec hypot m c Hw); auto. }
  destruct (aget_is_Some locs 0 ltac:(lia)) as [v0 Hv0]. pose proof (Hon' v0 (aget_elem _ _ _ Hv0)) as [X0 Y0].
  destruct (Hfill (mkLoc 0 0) (mkLoc (size_x_ m - 1) (size_y_ m - 1))) as (cells & Hcells & Hbox & Hedge).
  { intros v Hv. apply Hon' in Hv as [? ?]. unfold boxed. simpl. lia. }
  { simpl. lia. }
  rewrite Hcells. mred. rewrite (wf_some m c Hw). mred.
  destruct (write_cells m c cells cost_value c Hw) as (c' & -> & Hl' & Hg'); [|done|].
  { eapply Forall_impl; [exact Hbox|]. intros r Hr. unfold boxed, loc_on, on_map in *. simpl in Hr. lia. }
  mred. exists (with_costmap m (Some c')), c'. split; [done|]. split; [by apply wf_with_costmap with c|].
  split.
  - intros i p q r Hc Hr. assert (r ∈ cells) as Hin by (by eapply Hedge).
    pose proof (proj1 (Forall_forall _ _) Hbox r Hin) as [Hx Hy]. simpl in Hx, Hy.
    unfold cost_at. simpl. rewrite Hg' by (unfold on_map; lia).
    rewrite bool_decide_eq_true_2; [done|]. by destruct r.
  - intros lo hi x y Hb Hp Hout. unfold cost_at. simpl. rewrite (wf_some m c Hw). simpl.
    rewrite Hg' by done. rewrite bool_decide_eq_false_2; [done|]. intros Hin. apply Hout.
    destruct (Hfill lo hi Hb) as (cells' & Hcells' & Hbox' & _).
    { pose proof (Hb v0 (aget_elem _ _ _ Hv0)) as [? _]. lia. }
    rewrite Hcells in Hcells'. injection Hcells' as <-.
    by apply (proj1 (Forall_forall _ _) Hbox').
Qed.

(** The square root of the sum of the squares, for the witnesses. *)
Definition hypot_sqrt (x y : spec_float) : spec_float := fsqrt (fadd (fmul x x) (fmul y y)).

Definition example_triangle : list (spec_float * spec_float) :=
  [(f_zero, f_zero); (f_of_Z 3, f_zero); (f_of_Z 3, f_of_Z 2)].

Lemma triangle_edges : edges_ok hypot_sqrt [mkLoc 0 0; mkLoc 3 0; mkLoc 3 2].
Proof.
  intros i p q [Hp Hq]. pose proof (aget_bounds _ _ _ Hp) as Hi.
  unfold alen in Hi. simpl in Hi. assert (i = 0 \/ i = 1 \/ i = 2) as [-> | [-> | ->]] by lia;
    vm_compute in Hp, Hq; injection Hp as <-; injection Hq as <-; unfold edge_ok; cbv zeta;
    (split; [vm_compute; reflexivity|]); (split; [intros _; repeat split; vm_compute; reflexivity|]);
    (eexists; split; [vm_compute; reflexivity|]); vm_compute; discriminate.
Qed.

Lemma setConvexPolygonCost_fills_witness :
  exists m', setConvexPolygonCost hypot_sqrt example_map example_triangle 200 = Some (true, m') /\
    cost_at m' 3 2 = Some 200 /\ cost_at m' 2 0 = Some 200.
Proof.
  destruct (proj2 (setConvexPolygonCost_fills hypot_sqrt example_map example_cells example_triangle 200
    example_map_wf) [mkLoc 0 0; mkLoc 3 0; mkLoc 3 2] ltac:(vm_compute; reflexivity)
    ltac:(vm_compute; discriminate) triangle_edges) as (m' & c' & E & _ & H & _).
  exists m'. split; [exact E|]. split.
  - apply (H 2 (mkLoc 3 2) (mkLoc 0 0) (mkLoc 3 2)); [split; reflexivity|].
    vm_compute. constructor.
  - apply (H 0 (mkLoc 0 0) (mkLoc 3 0) (mkLoc 2 0)); [split; reflexivity|].
    vm_compute. do 2 constructor. constructor.
Defined.

(** ** Import of an occupancy grid *)

(** The cost of an occupancy of [0..100] percent, with integers: the nearest
    to [254 * data / 100], halves up. *)
Definition scaled_cost (data : Z) : Z := (508 * data + 100) / 200.

Definition occ_value_ok (data : Z) : bool :=
  match occ_to_cost data with
  | Some v => if data =? -1 then v =? 255 else v =? scaled_cost data
  | None => false
  end.

Lemma occ_values_ok : forallb occ_value_ok (zrange (-1) 101) = true.
Proof. vm_compute. reflexivity. Qed.

Lemma occ_to_cost_spec data :
  -1 <= data <= 100 -> occ_to_cost data = Some (if data =? -1 then NO_INFORMATION else scaled_cost data).
Proof.
  intros H. pose proof (proj1 (forallb_forall _ _) occ_values_ok data) as Hd.
  rewrite <- list_elem_of_In, elem_of_zrange in Hd. specialize (Hd ltac:(lia)).
  unfold occ_value_ok in Hd. destruct (occ_to_cost data); [|done].
  destruct (data =? -1); zbool; by subst.
Qed.

(** The constructor from an occupancy grid: a grid whose cells are -1
    (unknown) or an occupancy in [0, 100] is imported without undefined
    behaviour; every cell gets NO_INFORMATION or the occupancy scaled to
    [FREE_SPACE, LETHAL_OBSTACLE] with rounding to nearest, so that the import
    is monotone, 0 becomes free and 100 lethal. *)
Theorem occupancy_grid_import (fresh_byte : Z -> Z) (width height : Z) (resolution ox oy : spec_float)
    (data : list Z) :
  0 <= width < 2 ^ 31 -> 0 <= height < 2 ^ 31 -> width * height <= 2 ^ 31 ->
  width * height <= alen data -> Forall (fun d => -1 <= d <= 100) data ->
  scaled_cost 0 = FREE_SPACE /\ scaled_cost 100 = LETHAL_OBSTACLE /\
  (forall a b, 0 <= a <= b -> scaled_cost a <= scaled_cost b) /\
  exists m c, Costmap2D_of_grid fresh_byte width height resolution ox oy data = Some m /\ wf_map m c /\
    size_x_ m = width /\ size_y_ m = height /\
    forall x y d, on_map m x y -> aget data (y * width + x) = Some d ->
      cost_at m x y = Some (if d =? -1 then NO_INFORMATION else scaled_cost d).
Proof.
  intros Hx Hy Ha Hl Hd. split; [done|]. split; [done|]. split.
  { intros a b Hab. unfold scaled_cost. apply Z.div_le_mono; lia. }
  unfold Costmap2D_of_grid. rewrite u32_small by (unfold is_u32; ilia; nia).
  assert (0 <= width * height) as Hnn by nia.
  destruct (for_range_inv (fun k c => alen c = width * height /\
      forall i d, 0 <= i < k -> aget data i = Some d ->
        aget c i = Some (if d =? -1 then NO_INFORMATION else scaled_cost d))
    (fun it c => d ← aget data it; v ← occ_to_cost d; aset c it v)
    0 (width * height) (fresh fresh_byte (width * height))) as (c & -> & Hc & Hg); [lia| | |].
  - split; [by apply alen_fresh|]. intros i d Hi. lia.
  - intros k t Hk [Ht Hg]. destruct (aget_is_Some data k ltac:(lia)) as [d Hdk]. rewrite Hdk. mred.
    pose proof (proj1 (Forall_forall _ _) Hd d (aget_elem _ _ _ Hdk)) as Hdr.
    rewrite occ_to_cost_spec by done. mred.
    pose proof (aset_Some t k (if d =? -1 then NO_INFORMATION else scaled_cost d) ltac:(lia)) as E.
    eexists. split; [exact E|]. split; [by rewrite (aset_len _ _ _ _ E)|].
    intros i d' Hi Hdi. rewrite (aget_aset _ _ _ _ i E). destruct (Z.eqb_spec k i) as [<-|].
    + rewrite Hdk in Hdi. by injection Hdi as <-.
    + apply Hg; [lia|done].
  - mred. eexists _, c. split; [done|]. split; [constructor; simpl; done || lia|].
    split; [done|]. split; [done|]. intros x y d [Hpx Hpy] Hdxy. unfold cost_at. simpl in *.
    apply Hg; [|done]. by apply index_bound.
Qed.

Lemma occupancy_grid_import_witness :
  exists m, Costmap2D_of_grid (fun _ => 7) 2 2 (s_of_Z 1) f_zero f_zero [0; 100; -1; 50] = Some m /\
    cost_at m 1 0 = Some 254 /\ cost_at m 0 1 = Some 255 /\ cost_at m 1 1 = Some 127.
Proof.
  destruct (occupancy_grid_import (fun _ => 7) 2 2 (s_of_Z 1) f_zero f_zero [0; 100; -1; 50])
    as (_ & _ & _ & m & c & E & Hw & Ex & Ey & H); [lia|lia|lia|vm_compute; discriminate|repeat constructor; lia|].
  exists m. split; [exact E|].
  rewrite (H 1 0 100), (H 0 1 (-1)), (H 1 1 50); [|unfold on_map; rewrite ?Ex, ?Ey; lia || reflexivity..];
    vm_compute; auto.
Defined.
