(* ===== verification/LineIterator.v ===== *)
(** The line iterator of nav2_util (line_iterator.hpp): its cells are those of
    the ray tracing of the costmap. *)

From S2P Require Import Prelude Floats Bresenham Costmap2D.

(** ** The iterator *)

Record LineIterator := mkLineIterator {
  x0_ : Z; y0_ : Z; x1_ : Z; y1_ : Z;
  li_x_ : Z; li_y_ : Z;
  deltax_ : Z; deltay_ : Z;
  curpixel_ : Z;
  xinc1_ : Z; xinc2_ : Z; yinc1_ : Z; yinc2_ : Z;
  den_ : Z; num_ : Z; numadd_ : Z; numpixels_ : Z;
}.

(** [abs] of an [int] difference. *)
Definition abs_diff (a b : Z) : option Z := d ← checked_s32 (a - b); checked_s32 (Z.abs d).

Definition LineIterator_new (x0 y0 x1 y1 : Z) : option LineIterator :=
  deltax ← abs_diff x1 x0;
  deltay ← abs_diff y1 y0;
  let xinc := if x0 <=? x1 then 1 else -1 in
  let yinc := if y0 <=? y1 then 1 else -1 in
  Some (if deltay <=? deltax
        then mkLineIterator x0 y0 x1 y1 x0 y0 deltax deltay 0 0 xinc yinc 0 deltax (Z.quot deltax 2) deltay deltax
        else mkLineIterator x0 y0 x1 y1 x0 y0 deltax deltay 0 xinc 0 0 yinc deltay (Z.quot deltay 2) deltax deltay).

Definition isValid (it : LineIterator) : bool := curpixel_ it <=? numpixels_ it.

Definition advance (it : LineIterator) : option LineIterator :=
  num ← checked_s32 (num_ it + numadd_ it);
  '(num, x, y) ← (if den_ it <=? num then
                    num ← checked_s32 (num - den_ it); x ← checked_s32 (li_x_ it + xinc1_ it); y ← checked_s32 (li_y_ it + yinc1_ it); Some (num, x, y)
                  else Some (num, li_x_ it, li_y_ it));
  x ← checked_s32 (x + xinc2_ it);
  y ← checked_s32 (y + yinc2_ it);
  pixel ← checked_s32 (curpixel_ it + 1);
  Some (mkLineIterator (x0_ it) (y0_ it) (x1_ it) (y1_ it) x y (deltax_ it) (deltay_ it) pixel
          (xinc1_ it) (xinc2_ it) (yinc1_ it) (yinc2_ it) (den_ it) num (numadd_ it) (numpixels_ it)).

(** [for (LineIterator line(x0, y0, x1, y1); line.isValid(); line.advance())]
    over a body that may stop the loop. A round per pixel, and the last test. *)
Definition iterate_line {S} (x0 y0 x1 y1 : Z) (body : Z -> Z -> S -> option (ctl S)) (s : S) : option S :=
  line ← LineIterator_new x0 y0 x1 y1;
  '(_, s) ← loop (Z.to_nat (numpixels_ line) + 2) (fun '(line, s) =>
    if isValid line then
      c ← body (li_x_ line) (li_y_ line) s;
      match c with Break s => Some (Break (line, s)) | Next s => line ← advance line; Some (Next (line, s)) end
    else Some (Break (line, s))) (line, s);
  Some s.

(** ** Its cells *)

(** Runs a body that may stop over a list of cells. *)
Fixpoint run_until {S} (body : Z -> Z -> S -> option (ctl S)) (cells : list MapLocation) (s : S) : option S :=
  match cells with
  | [] => Some s
  | p :: cells => c ← body (loc_x p) (loc_y p) s; match c with Break s => Some s | Next s => run_until body cells s end
  end.

(** Coordinates for which no sum overflows. *)
Definition small (z : Z) : Prop := Z.abs z < 2 ^ 29.

Section line.
Context (p q : MapLocation) (Hp : small (loc_x p) /\ small (loc_y p)) (Hq : small (loc_x q) /\ small (loc_y q)).

Local Abbreviation da := (extent2 p q).
Local Abbreviation cell := (fun i => mkLoc (toward (loc_x p) (loc_x q) da i) (toward (loc_y p) (loc_y q) da i)).

Definition direction (a b : Z) : Z := if a <=? b then 1 else -1.

(** After [i] rounds. *)
Record at_pixel (i : Z) (it : LineIterator) : Prop := {
  ap_x : li_x_ it = toward (loc_x p) (loc_x q) da i;
  ap_y : li_y_ it = toward (loc_y p) (loc_y q) da i;
  ap_pixel : curpixel_ it = i;
  ap_pixels : numpixels_ it = da;
  ap_den : den_ it = da;
  ap_num : 0 < da -> num_ it = error_after da (numadd_ it) i;
  ap_zero : da = 0 -> num_ it = 0;
  ap_incs : (numadd_ it = Z.abs (loc_y q - loc_y p) /\ da = Z.abs (loc_x q - loc_x p) /\ xinc1_ it = 0 /\ xinc2_ it = direction (loc_x p) (loc_x q) /\ yinc1_ it = direction (loc_y p) (loc_y q) /\ yinc2_ it = 0) \/
            (numadd_ it = Z.abs (loc_x q - loc_x p) /\ da = Z.abs (loc_y q - loc_y p) /\ xinc1_ it = direction (loc_x p) (loc_x q) /\ xinc2_ it = 0 /\ yinc1_ it = 0 /\ yinc2_ it = direction (loc_y p) (loc_y q));
}.

Lemma da_bounds : 0 <= da < 2 ^ 30.
Proof using Hp Hq. destruct Hp as [? ?], Hq as [? ?]. unfold small, extent2 in *. lia. Qed.

Lemma toward_0 a b : Z.abs (b - a) <= da -> toward a b da 0 = a.
Proof using Hp Hq.
  intros Hab. pose proof da_bounds. unfold toward. destruct (Z.eq_dec da 0) as [E|Hne].
  - rewrite E. assert (Z.abs (b - a) = 0) as -> by lia. change (minor_moves 0 0 0) with 0. lia.
  - rewrite minor_moves_0 by lia. lia.
Qed.

Lemma abs_diff_ok a b : small a -> small b -> abs_diff a b = Some (Z.abs (a - b)).
Proof using Type. unfold small. intros Ha Hb. unfold abs_diff. rewrite checked_s32_ok by (unfold is_s32; lia). mred. apply checked_s32_ok. unfold is_s32; lia. Qed.

Lemma start_num N : 0 < da -> Z.quot da 2 = error_after da N 0.
Proof using Hp Hq.
  intros H0. unfold error_after. rewrite Z.mul_0_l, Z.add_0_r, Z.quot_div_nonneg, Z.mod_small by lia || (Z.to_euclidean_division_equations; lia). done.
Qed.

Lemma new_ok : exists it, LineIterator_new (loc_x p) (loc_y p) (loc_x q) (loc_y q) = Some it /\ at_pixel 0 it.
Proof using Hp Hq.
  pose proof da_bounds as Hb. destruct Hp as [Px Py], Hq as [Qx Qy]. unfold LineIterator_new. rewrite !abs_diff_ok by done. mred. eexists. split; [done|].
  assert (Hz : da = 0 -> Z.quot da 2 = 0) by (by intros ->). destruct (Z.leb_spec (Z.abs (loc_y q - loc_y p)) (Z.abs (loc_x q - loc_x p))) as [Hle|Hlt].
  - assert (E : Z.abs (loc_x q - loc_x p) = da) by (unfold extent2; lia). rewrite E. split; cbn; try done.
    + by rewrite toward_0 by lia.
    + by rewrite toward_0 by lia.
    + intros H0. by apply start_num.
    + left. done.
  - assert (E : Z.abs (loc_y q - loc_y p) = da) by (unfold extent2; lia). rewrite E. split; cbn; try done.
    + by rewrite toward_0 by lia.
    + by rewrite toward_0 by lia.
    + intros H0. by apply start_num.
    + right. done.
Qed.

(** A move of the major axis, and one of the minor axis. *)
Lemma toward_major a b i : Z.abs (b - a) = da -> 0 <= i < da -> toward a b da (i + 1) = toward a b da i + direction a b.
Proof using Hp Hq.
  intros E Hi. pose proof da_bounds. unfold toward. rewrite E, !minor_same by lia. unfold direction. destruct (sign_cases (b - a)) as [[-> ?]|[-> ?]], (Z.leb_spec a b); lia.
Qed.

Lemma toward_minor a b i : Z.abs (b - a) <= da -> 0 <= i < da ->
  toward a b da (i + 1) = if da <=? error_after da (Z.abs (b - a)) i + Z.abs (b - a) then toward a b da i + direction a b else toward a b da i.
Proof using Hp Hq.
  intros Hab Hi. pose proof da_bounds. set (db := Z.abs (b - a)) in *. unfold toward. fold db.
  pose proof (bres_step_after da db ltac:(lia) ltac:(lia) i ltac:(lia)) as Hs. assert (He : 0 <= error_after da db i < da) by (apply Z.mod_pos_bound; lia).
  rewrite bres_step_spec in Hs by lia. apply (f_equal fst) in Hs. cbn [fst] in Hs. pose proof (minor_moves_succ da db ltac:(lia) ltac:(lia) i ltac:(lia)) as Hm.
  destruct (Z.leb_spec da (error_after da db i + db)) as [Hle|Hgt].
  - rewrite bool_decide_eq_true_2 in Hs by lia. symmetry in Hs. apply bool_decide_eq_true in Hs. rewrite Hs. unfold direction. destruct (sign_cases (b - a)) as [[-> ?]|[-> ?]], (Z.leb_spec a b); try lia.
  - rewrite bool_decide_eq_false_2 in Hs by lia. symmetry in Hs. apply bool_decide_eq_false in Hs. destruct Hm as [Hm| ->]; [by destruct Hs|done].
Qed.

Lemma next_error N i : 0 < da -> 0 <= N <= da -> 0 <= i -> error_after da N (i + 1) = if da <=? error_after da N i + N then error_after da N i + N - da else error_after da N i + N.
Proof using Hp Hq.
  intros H0 HN Hi. pose proof da_bounds. pose proof (bres_step_after da N ltac:(lia) ltac:(lia) i Hi) as Hs. assert (He : 0 <= error_after da N i < da) by (apply Z.mod_pos_bound; lia).
  rewrite bres_step_spec in Hs by lia. apply (f_equal snd) in Hs. cbn [snd] in Hs. rewrite <- Hs. destruct (Z.leb_spec da (error_after da N i + N)); [symmetry; apply Z.mod_unique with 1; lia|apply Z.mod_small; lia].
Qed.

Lemma coordinates_small i : 0 <= i <= da -> small (toward (loc_x p) (loc_x q) da i) /\ small (toward (loc_y p) (loc_y q) da i).
Proof using Hp Hq.
  intros Hi. pose proof da_bounds. destruct Hp as [Px Py], Hq as [Qx Qy]. unfold small in *.
  pose proof (toward_between (loc_x p) (loc_x q) da i ltac:(lia) ltac:(unfold extent2; lia) Hi). pose proof (toward_between (loc_y p) (loc_y q) da i ltac:(lia) ltac:(unfold extent2; lia) Hi). lia.
Qed.

Lemma at_pixel_num i it : at_pixel i it -> 0 <= num_ it <= da /\ 0 <= numadd_ it <= da.
Proof using Hp Hq.
  intros Ha. pose proof da_bounds. assert (HN : 0 <= numadd_ it <= da) by (destruct (ap_incs _ _ Ha) as [(-> & ? & _)|(-> & ? & _)]; unfold extent2; lia). split; [|done].
  destruct (Z.eq_dec da 0) as [E|Hne]; [rewrite (ap_zero _ _ Ha E); lia|]. rewrite (ap_num _ _ Ha) by lia. unfold error_after. pose proof (Z.mod_pos_bound (da / 2 + i * numadd_ it) da). lia.
Qed.

(** Every round is defined; the last one only leaves the line. *)
Lemma advance_ok i it : 0 <= i <= da -> at_pixel i it ->
  exists it', advance it = Some it' /\ curpixel_ it' = i + 1 /\ numpixels_ it' = da /\ (i < da -> at_pixel (i + 1) it').
Proof using Hp Hq.
  intros Hi Ha. pose proof da_bounds as Hb. destruct (coordinates_small i Hi) as [Sx Sy]. destruct (at_pixel_num i it Ha) as [Hn HN]. unfold small in *. pose proof Ha as [Ex Ey Epix Epxs Eden Enum Ezero Eincs].
  assert (Hinc : forall z, z = xinc1_ it \/ z = xinc2_ it \/ z = yinc1_ it \/ z = yinc2_ it -> -1 <= z <= 1).
  { intros z Hz. assert (forall a b, -1 <= direction a b <= 1) as Hd by (intros a b; unfold direction; destruct (a <=? b); lia). pose proof (Hd (loc_x p) (loc_x q)). pose proof (Hd (loc_y p) (loc_y q)).
    destruct Eincs as [(_ & _ & E1 & E2 & E3 & E4)|(_ & _ & E1 & E2 & E3 & E4)]; rewrite E1, E2, E3, E4 in Hz; lia. }
  pose proof (Hinc (xinc1_ it) ltac:(auto)). pose proof (Hinc (xinc2_ it) ltac:(auto)). pose proof (Hinc (yinc1_ it) ltac:(auto)). pose proof (Hinc (yinc2_ it) ltac:(auto)).
  set (c := da <=? num_ it + numadd_ it).
  assert (E : advance it = Some (mkLineIterator (x0_ it) (y0_ it) (x1_ it) (y1_ it) ((if c then li_x_ it + xinc1_ it else li_x_ it) + xinc2_ it) ((if c then li_y_ it + yinc1_ it else li_y_ it) + yinc2_ it)
    (deltax_ it) (deltay_ it) (i + 1) (xinc1_ it) (xinc2_ it) (yinc1_ it) (yinc2_ it) da (if c then num_ it + numadd_ it - da else num_ it + numadd_ it) (numadd_ it) da)).
  { unfold advance. rewrite Eden, Epix, Epxs. rewrite (checked_s32_ok (num_ it + numadd_ it)) by (unfold is_s32; lia). mred. fold c. destruct c.
    - rewrite (checked_s32_ok (num_ it + numadd_ it - da)) by (unfold is_s32; lia). mred. rewrite (checked_s32_ok (li_x_ it + xinc1_ it)) by (unfold is_s32; lia). mred. rewrite (checked_s32_ok (li_y_ it + yinc1_ it)) by (unfold is_s32; lia). mred.
      rewrite (checked_s32_ok (li_x_ it + xinc1_ it + xinc2_ it)) by (unfold is_s32; lia). mred. rewrite (checked_s32_ok (li_y_ it + yinc1_ it + yinc2_ it)) by (unfold is_s32; lia). mred. by rewrite (checked_s32_ok (i + 1)) by (unfold is_s32; lia).
    - mred. rewrite (checked_s32_ok (li_x_ it + xinc2_ it)) by (unfold is_s32; lia). mred. rewrite (checked_s32_ok (li_y_ it + yinc2_ it)) by (unfold is_s32; lia). mred. by rewrite (checked_s32_ok (i + 1)) by (unfold is_s32; lia). }
  eexists. split; [exact E|]. split; [done|]. split; [done|]. intros Hlt. specialize (Enum ltac:(lia)).
  assert (Enext : (if c then num_ it + numadd_ it - da else num_ it + numadd_ it) = error_after da (numadd_ it) (i + 1)) by (unfold c; rewrite (next_error (numadd_ it) i) by lia; rewrite <- Enum; reflexivity).
  destruct Eincs as [(EN & Ed & E1 & E2 & E3 & E4)|(EN & Ed & E1 & E2 & E3 & E4)]; split; cbn [li_x_ li_y_ curpixel_ numpixels_ den_ num_ numadd_ xinc1_ xinc2_ yinc1_ yinc2_]; [| |reflexivity|reflexivity|reflexivity|intros _; exact Enext|clear -Hi Hlt; lia| | | |reflexivity|reflexivity|reflexivity|intros _; exact Enext|clear -Hi Hlt; lia|].
  - rewrite E1, E2, Ex, (toward_major (loc_x p) (loc_x q) i) by lia. destruct c; lia.
  - rewrite E3, E4, Ey, (toward_minor (loc_y p) (loc_y q) i) by (rewrite <- ?EN; lia). rewrite <- EN, <- Enum. fold c. destruct c; lia.
  - left. exact (conj EN (conj Ed (conj E1 (conj E2 (conj E3 E4))))).
  - rewrite E1, E2, Ex, (toward_minor (loc_x p) (loc_x q) i) by (rewrite <- ?EN; lia). rewrite <- EN, <- Enum. fold c. destruct c; lia.
  - rewrite E3, E4, Ey, (toward_major (loc_y p) (loc_y q) i) by lia. destruct c; lia.
  - right. exact (conj EN (conj Ed (conj E1 (conj E2 (conj E3 E4))))).
Qed.

Lemma valid_at i it : at_pixel i it -> 0 <= i <= da -> isValid it = true.
Proof using Type. intros Ha Hi. unfold isValid. rewrite (ap_pixel _ _ Ha), (ap_pixels _ _ Ha). apply Z.leb_le. lia. Qed.

(** The loop runs its body over the cells of the ray tracing. *)
Lemma iterate_line_cells {S} (body : Z -> Z -> S -> option (ctl S)) s : iterate_line (loc_x p) (loc_y p) (loc_x q) (loc_y q) body s = run_until body (line2 p q) s.
Proof using Hp Hq.
  unfold iterate_line. destruct new_ok as (it & -> & Ha). mred. rewrite (ap_pixels _ _ Ha). pose proof da_bounds as Hb. unfold line2.
  assert (Hgen : forall n i it s, Z.of_nat n = da - i -> 0 <= i <= da -> at_pixel i it ->
    ('(_, s) ← loop (n + 2) (fun '(line, s) => if isValid line then c ← body (li_x_ line) (li_y_ line) s; match c with Break s => Some (Break (line, s)) | Next s => line ← advance line; Some (Next (line, s)) end else Some (Break (line, s))) (it, s); Some s)
    = run_until body (cell <$> zrange i (da + 1)) s).
  { clear Ha it s. induction n as [|n IH]; intros i it s Hn Hi Ha; rewrite zrange_cons by lia; cbn [fmap list_fmap run_until loc_x loc_y].
    - assert (i = da) as -> by lia. rewrite zrange_nil by lia. change (0 + 2)%nat with 2%nat. cbn [loop fmap list_fmap run_until]. rewrite (valid_at da it Ha Hi). rewrite (ap_x _ _ Ha), (ap_y _ _ Ha).
      destruct (body _ _ s) as [[s'|s']|]; mred; try done. destruct (advance_ok da it Hi Ha) as (it' & -> & Ep & Epx & _). mred. assert (isValid it' = false) as -> by (unfold isValid; rewrite Ep, Epx; apply Z.leb_gt; lia). done.
    - change (Datatypes.S n + 2)%nat with (Datatypes.S (n + 2)). cbn [loop]. rewrite (valid_at i it Ha Hi). rewrite (ap_x _ _ Ha), (ap_y _ _ Ha).
      destruct (body _ _ s) as [[s'|s']|]; mred; try done. destruct (advance_ok i it Hi Ha) as (it' & -> & Ep & Epx & Hnext). mred. apply IH; [lia|lia|apply Hnext; lia]. }
  apply Hgen; [lia|lia|done].
Qed.
End line.
