(* ===== verification/Footprint.v ===== *)
(** The robot footprint ([footprint.cpp], [costmap_math.hpp],
    [costmap_math.cpp]): distances, orientation, padding. *)

From S2P Require Import Prelude Floats Bresenham.

Record Point := mkPoint { px : spec_float; py : spec_float; pz : spec_float }.

(** ** costmap_math *)

Definition sign0 (x : spec_float) : spec_float :=
  if flt x f_zero then f_of_Z (-1) else if fgt x f_zero then f_one else f_zero.

Section footprint.
(** The functions of the mathematical library, which the standard does not
    round exactly. *)
Context (hypot : spec_float -> spec_float -> spec_float) (cos sin : spec_float -> spec_float).

Definition distance (x0 y0 x1 y1 : spec_float) : spec_float := hypot (fsub x1 x0) (fsub y1 y0).

Definition distanceToLine (pX pY x0 y0 x1 y1 : spec_float) : spec_float :=
  let A := fsub pX x0 in
  let B := fsub pY y0 in
  let C := fsub x1 x0 in
  let D := fsub y1 y0 in
  let dot := fadd (fmul A C) (fmul B D) in
  let len_sq := fadd (fmul C C) (fmul D D) in
  let param := fdiv dot len_sq in
  let '(xx, yy) :=
    if flt param f_zero then (x0, y0)
    else if fgt param f_one then (x1, y1)
    else (fadd x0 (fmul param C), fadd y0 (fmul param D)) in
  distance pX pY xx yy.

(** ** footprint *)

(** [std::numeric_limits<double>::max()] *)
Definition DBL_MAX : spec_float := S754_finite false (2 ^ 53 - 1) 971.

Definition vertex_dist (p : Point) : spec_float := distance f_zero f_zero (px p) (py p).
Definition edge_dist (p q : Point) : spec_float :=
  distanceToLine f_zero f_zero (px p) (py p) (px q) (py q).

(** The two distances of one vertex and the edge that leaves it. *)
Definition min_max_step (d : spec_float * spec_float) (p q : Point) : spec_float * spec_float :=
  let '(min_dist, max_dist) := d in
  (fmin min_dist (fmin (vertex_dist p) (edge_dist p q)),
   fmax max_dist (fmax (vertex_dist p) (edge_dist p q))).

Definition calculateMinAndMaxDistances (footprint : list Point) : option (spec_float * spec_float) :=
  let d := (DBL_MAX, f_zero) in
  if alen footprint <=? 2 then Some d
  else
    d ← for_range 0 (alen footprint - 1) (fun i d =>
          p ← aget footprint i; q ← aget footprint (i + 1); Some (min_max_step d p q)) d;
    back ← aget footprint (alen footprint - 1);
    front ← aget footprint 0;
    Some (min_max_step d back front).

(** A point of [oriented_footprint] keeps the [z] of a fresh point, which is 0. *)
Definition orient (x y cos_th sin_th : spec_float) (p : Point) : spec_float * spec_float :=
  (fadd x (fsub (fmul (px p) cos_th) (fmul (py p) sin_th)),
   fadd y (fadd (fmul (px p) sin_th) (fmul (py p) cos_th))).

(** The first overload resizes its result, so that the points it already had
    keep their [z]. *)
Definition transformFootprint (x y theta : spec_float) (footprint_spec oriented_footprint : list Point) :
    option (list Point) :=
  let n := alen footprint_spec in
  let resized := take (Z.to_nat n) oriented_footprint
    ++ replicate (length footprint_spec - length oriented_footprint) (mkPoint f_zero f_zero f_zero) in
  let cos_th := cos theta in
  let sin_th := sin theta in
  for_range 0 n (fun i oriented =>
    p ← aget footprint_spec i;
    new_pt ← aget oriented i;
    let '(new_x, new_y) := orient x y cos_th sin_th p in
    aset oriented i (mkPoint new_x new_y (pz new_pt))) resized.

(** The second one builds single precision points. *)
Definition transformFootprint32 (x y theta : spec_float) (footprint_spec : list Point) :
    option (list Point) :=
  let cos_th := cos theta in
  let sin_th := sin theta in
  for_range 0 (alen footprint_spec) (fun i points =>
    p ← aget footprint_spec i;
    let '(new_x, new_y) := orient x y cos_th sin_th p in
    Some (points ++ [mkPoint (s_of_f new_x) (s_of_f new_y) f_zero])) [].

Definition padFootprint (footprint : list Point) (padding : spec_float) : option (list Point) :=
  for_range 0 (alen footprint) (fun i footprint =>
    pt ← aget footprint i;
    aset footprint i (mkPoint (fadd (px pt) (fmul (sign0 (px pt)) padding))
                        (fadd (py pt) (fmul (sign0 (py pt)) padding)) (pz pt))) footprint.

(** Conversions between double and single precision points. *)
Definition toPoint32 (pt : Point) : Point := mkPoint (s_of_f (px pt)) (s_of_f (py pt)) (s_of_f (pz pt)).
Definition toPoint (pt : Point) : Point := mkPoint (f_of_s (px pt)) (f_of_s (py pt)) (f_of_s (pz pt)).

Definition toPolygon (pts : list Point) : option (list Point) :=
  for_range 0 (alen pts) (fun i polygon => p ← aget pts i; Some (polygon ++ [toPoint32 p])) [].
Definition toPointVector (polygon : list Point) : option (list Point) :=
  for_range 0 (alen polygon) (fun i pts => p ← aget polygon i; Some (pts ++ [toPoint p])) [].

(** [M_PI] is the double 884279719003555 * 2^-48. *)
Definition M_PI : spec_float := f_lit 884279719003555 (-48).

Definition makeFootprintFromRadius (radius : spec_float) : option (list Point) :=
  let N := 16 in
  for_range 0 N (fun i points =>
    let angle := fdiv (fmul (f_of_Z (i * 2)) M_PI) (f_of_Z N) in
    Some (points ++ [mkPoint (fmul (cos angle) radius) (fmul (sin angle) radius) f_zero])) [].

(** ** Laws *)

(** The pairs of consecutive vertices, the last one joined to the first. *)
Definition footprint_edge (footprint : list Point) (i : Z) (p q : Point) : Prop :=
  aget footprint i = Some p /\
  aget footprint (if i =? alen footprint - 1 then 0 else i + 1) = Some q.

Definition edge_not_nan (p q : Point) : Prop :=
  is_nan (vertex_dist p) = false /\ is_nan (edge_dist p q) = false.

Definition between (d : spec_float * spec_float) (v : spec_float) : Prop :=
  fle (fst d) v = true /\ fle v (snd d) = true.

Definition dists_ok (d : spec_float * spec_float) : Prop :=
  is_nan (fst d) = false /\ is_nan (snd d) = false.

Lemma between_widen d p q v :
  dists_ok d -> edge_not_nan p q -> is_nan v = false -> between d v -> between (min_max_step d p q) v.
Proof.
  destruct d as [lo hi]. unfold dists_ok, between. simpl. intros [Hlo Hhi] [Hv He] Hn [H1 H2].
  split; [apply fle_trans with lo | apply fle_trans with hi]; auto with floats.
Qed.

Lemma min_max_step_ok d p q :
  dists_ok d -> edge_not_nan p q ->
  dists_ok (min_max_step d p q) /\ between (min_max_step d p q) (vertex_dist p) /\
  between (min_max_step d p q) (edge_dist p q).
Proof.
  destruct d as [lo hi]. unfold dists_ok, between. simpl. intros [Hlo Hhi] [Hv He].
  split; [auto with floats|].
  split; (split; [apply fle_trans with (fmin (vertex_dist p) (edge_dist p q))
                 | apply fle_trans with (fmax (vertex_dist p) (edge_dist p q))]); auto with floats.
Qed.

(** The distances after the edges before [n]. *)
Definition dists_upto (footprint : list Point) (n : Z) (d : spec_float * spec_float) : Prop :=
  dists_ok d /\ forall i p q, 0 <= i < n -> footprint_edge footprint i p q ->
    between d (vertex_dist p) /\ between d (edge_dist p q).

Lemma dists_upto_step footprint n d p q :
  (forall i p q, footprint_edge footprint i p q -> edge_not_nan p q) ->
  footprint_edge footprint n p q -> dists_upto footprint n d ->
  dists_upto footprint (n + 1) (min_max_step d p q).
Proof.
  intros Hnn He [Hd H]. pose proof (Hnn _ _ _ He) as Hpq.
  destruct (min_max_step_ok d p q Hd Hpq) as (Hd' & Hv & Hedge). split; [done|].
  intros i p' q' Hi He'. destruct (decide (i = n)) as [->|].
  - destruct He as [E1 E2], He' as [E1' E2']. by simplify_eq.
  - destruct (H i p' q' ltac:(lia) He') as [H1 H2]. pose proof (Hnn _ _ _ He') as [? ?].
    split; by apply between_widen.
Qed.

(** The inscribed and circumscribed distances bound the footprint: every
    vertex and every edge of a polygon of at least three vertices, the closing
    edge included, is at a distance between the two; a shorter footprint gives
    the largest double and zero. *)
Theorem min_max_distances_bound (footprint : list Point) :
  (forall i p q, footprint_edge footprint i p q -> edge_not_nan p q) ->
  exists d, calculateMinAndMaxDistances footprint = Some d /\
    (2 < alen footprint -> dists_ok d /\ forall i p q, footprint_edge footprint i p q ->
       between d (vertex_dist p) /\ between d (edge_dist p q)) /\
    (alen footprint <= 2 -> d = (DBL_MAX, f_zero)).
Proof.
  intros Hnn. unfold calculateMinAndMaxDistances. set (n := alen footprint).
  destruct (Z.leb_spec n 2) as [Hs|Hs]; [by eexists; split; [|split; [lia|]]|].
  match goal with |- context [for_range 0 (n - 1) ?b _] => set (body := b) end.
  destruct (for_range_inv (fun i d => dists_upto footprint i d) body 0 (n - 1) (DBL_MAX, f_zero))
    as (d & -> & Hd); [lia| | |].
  - split; [done|]. lia.
  - intros i d Hi Hd. unfold body.
    destruct (aget_is_Some footprint i ltac:(fold n; lia)) as [p Ep].
    destruct (aget_is_Some footprint (i + 1) ltac:(fold n; lia)) as [q Eq]. rewrite Ep, Eq. mred.
    eexists. split; [done|]. apply dists_upto_step; [done| |done]. split; [done|].
    fold n. by rewrite (proj2 (Z.eqb_neq i (n - 1))) by lia.
  - mred. destruct (aget_is_Some footprint (n - 1) ltac:(fold n; lia)) as [p Ep].
    destruct (aget_is_Some footprint 0 ltac:(fold n; lia)) as [q Eq]. rewrite Ep, Eq. mred.
    eexists. split; [done|]. split; [intros _|lia].
    destruct (dists_upto_step footprint (n - 1) d p q Hnn) as [Hok H]; [|done|].
    + split; [done|]. fold n. by rewrite Z.eqb_refl.
    + split; [done|]. intros i p' q' He. apply (H i); [|done]. destruct He as [E _].
      apply aget_bounds in E. fold n in E. lia.
Qed.
End footprint.

Definition square : list Point :=
  (fun '(x, y) => mkPoint (f_of_Z x) (f_of_Z y) f_zero) <$> [(2, 2); (-2, 2); (-2, -2); (2, -2)].

(** The distance as the square root of the sum of squares. *)
Definition hypot_of_squares (x y : spec_float) : spec_float := fsqrt (fadd (fmul x x) (fmul y y)).

Lemma min_max_distances_bound_witness :
  exists d, calculateMinAndMaxDistances hypot_of_squares square = Some d /\
    between d (edge_dist hypot_of_squares (mkPoint (f_of_Z 2) (f_of_Z 2) f_zero)
                 (mkPoint (f_of_Z (-2)) (f_of_Z 2) f_zero)).
Proof.
  destruct (min_max_distances_bound hypot_of_squares square) as (d & E & H & _).
  - intros i p q [Ep Eq]. pose proof (aget_bounds _ _ _ Ep) as Hb. change (alen square) with 4 in *.
    assert (i = 0 \/ i = 1 \/ i = 2 \/ i = 3) as [->|[->|[->| ->]]] by lia;
      vm_compute in Ep, Eq; simplify_eq; split; vm_compute; reflexivity.
  - exists d. split; [exact E|]. apply (H ltac:(reflexivity)) with 0. split; vm_compute; reflexivity.
Defined.
