(* ===== verification/CostmapLayer.v ===== *)
(** Costmap layers ([costmap_layer.cpp], [costmap_layer.hpp], [layer.hpp]): a
    grid of its own, the bounding box it asks to update, and the four ways it
    is merged into the master grid. *)

From stdpp Require Import strings.
From S2P Require Import Prelude Floats Bresenham Costmap2D.

(** ** The object *)

(** The bounding box the update functions grow. *)
Record Bounds := mkBounds { min_x : spec_float; min_y : spec_float; max_x : spec_float; max_y : spec_float }.

Record CostmapLayer := mkCostmapLayer {
  layer_map : Costmap2D;
  current_ : bool;
  enabled_ : bool;
  has_extra_bounds_ : bool;
  extra_min_x_ : spec_float;
  extra_max_x_ : spec_float;
  extra_min_y_ : spec_float;
  extra_max_y_ : spec_float;
}.

Definition million : spec_float := f_of_Z 1000000.
Definition minus_million : spec_float := f_of_Z (-1000000).

(** [Layer] leaves the layer disabled and not current. *)
Definition CostmapLayer_new (m : Costmap2D) : CostmapLayer :=
  mkCostmapLayer m false false false million minus_million million minus_million.

Definition with_layer_map (l : CostmapLayer) (m : Costmap2D) : CostmapLayer :=
  mkCostmapLayer m (current_ l) (enabled_ l) (has_extra_bounds_ l) (extra_min_x_ l) (extra_max_x_ l)
    (extra_min_y_ l) (extra_max_y_ l).

(** ** Bounds *)

Definition touch (x y : spec_float) (b : Bounds) : Bounds :=
  mkBounds (fmin x (min_x b)) (fmin y (min_y b)) (fmax x (max_x b)) (fmax y (max_y b)).

Definition addExtraBounds (l : CostmapLayer) (mx0 my0 mx1 my1 : spec_float) : CostmapLayer :=
  mkCostmapLayer (layer_map l) (current_ l) (enabled_ l) true
    (fmin mx0 (extra_min_x_ l)) (fmax mx1 (extra_max_x_ l))
    (fmin my0 (extra_min_y_ l)) (fmax my1 (extra_max_y_ l)).

Definition useExtraBounds (l : CostmapLayer) (b : Bounds) : CostmapLayer * Bounds :=
  if negb (has_extra_bounds_ l) then (l, b)
  else
    (mkCostmapLayer (layer_map l) (current_ l) (enabled_ l) false million minus_million million minus_million,
     mkBounds (fmin (extra_min_x_ l) (min_x b)) (fmin (extra_min_y_ l) (min_y b))
       (fmax (extra_max_x_ l) (max_x b)) (fmax (extra_max_y_ l) (max_y b))).

(** ** The grid of the layer *)

Definition matchSize (fresh_byte : Z -> Z) (l : CostmapLayer) (master : Costmap2D) : option CostmapLayer :=
  m ← resizeMap fresh_byte (layer_map l) (size_x_ master) (size_y_ master) (resolution_ master)
        (origin_x_ master) (origin_y_ master);
  Some (with_layer_map l m).

(** Columns in the outer loop, rows in the inner one; [continue] keeps the cell. *)
Definition clearArea (l : CostmapLayer) (start_x start_y end_x end_y : Z) (invert : bool) :
    option CostmapLayer :=
  let m := layer_map l in
  grid ← costmap_ m;
  grid ← for_range 0 (s32 (size_x_ m)) (fun x grid =>
    let xrange := (start_x <? x) && (x <? end_x) in
    for_range 0 (s32 (size_y_ m)) (fun y grid =>
      if eqb (xrange && (start_y <? y) && (y <? end_y)) invert then Some grid
      else
        let index := s32 (getIndex m x y) in
        v ← aget grid index;
        if negb (v =? NO_INFORMATION) then aset grid index NO_INFORMATION else Some grid) grid) grid;
  Some (mkCostmapLayer (with_costmap m (Some grid)) false (enabled_ l) (has_extra_bounds_ l)
          (extra_min_x_ l) (extra_max_x_ l) (extra_min_y_ l) (extra_max_y_ l)).

(** ** Merging into the master grid *)

(** The loop the four functions share: [cell] is run at the index of every
    cell of the window, row by row, the index wrapping as [unsigned int]. *)
Definition window_loop (span min_i min_j max_i max_j : Z) (cell : Z -> list Z -> option (list Z))
    (master : list Z) : option (list Z) :=
  for_range min_j max_j (fun j master =>
    st ← for_range min_i max_i (fun _ '(it, master) =>
           master ← cell it master; Some (u32 (it + 1), master))
           (u32 (u32 (j * span) + min_i), master);
    Some (snd st)) master.

Definition updateWithMax (l : CostmapLayer) (master_grid : Costmap2D) (min_i min_j max_i max_j : Z) :
    option Costmap2D :=
  if negb (enabled_ l) then Some master_grid
  else
    src ← costmap_ (layer_map l); master ← costmap_ master_grid;
    master ← window_loop (size_x_ master_grid) min_i min_j max_i max_j (fun it master =>
      v ← aget src it;
      if v =? NO_INFORMATION then Some master
      else
        old_cost ← aget master it;
        if (old_cost =? NO_INFORMATION) || (old_cost <? v) then aset master it v else Some master)
      master;
    Some (with_costmap master_grid (Some master)).

(** [Some (inr _)] is the exception of a layer whose grid is NULL. *)
Definition updateWithTrueOverwrite (l : CostmapLayer) (master_grid : Costmap2D)
    (min_i min_j max_i max_j : Z) : option (Costmap2D + string) :=
  if negb (enabled_ l) then Some (inl master_grid)
  else
    match costmap_ (layer_map l) with
    | None => Some (inr "Can't update costmap layer: It has't been initialized yet!"%string)
    | Some src =>
        master ← costmap_ master_grid;
        master ← window_loop (size_x_ master_grid) min_i min_j max_i max_j (fun it master =>
          v ← aget src it; aset master it v) master;
        Some (inl (with_costmap master_grid (Some master)))
    end.

Definition updateWithOverwrite (l : CostmapLayer) (master_grid : Costmap2D)
    (min_i min_j max_i max_j : Z) : option Costmap2D :=
  if negb (enabled_ l) then Some master_grid
  else
    src ← costmap_ (layer_map l); master ← costmap_ master_grid;
    master ← window_loop (size_x_ master_grid) min_i min_j max_i max_j (fun it master =>
      v ← aget src it;
      if negb (v =? NO_INFORMATION) then aset master it v else Some master) master;
    Some (with_costmap master_grid (Some master)).

Definition updateWithAddition (l : CostmapLayer) (master_grid : Costmap2D)
    (min_i min_j max_i max_j : Z) : option Costmap2D :=
  if negb (enabled_ l) then Some master_grid
  else
    src ← costmap_ (layer_map l); master ← costmap_ master_grid;
    master ← window_loop (size_x_ master_grid) min_i min_j max_i max_j (fun it master =>
      v ← aget src it;
      if v =? NO_INFORMATION then Some master
      else
        old_cost ← aget master it;
        if old_cost =? NO_INFORMATION then aset master it v
        else
          let sum := old_cost + v in
          if INSCRIBED_INFLATED_OBSTACLE <=? sum then aset master it (INSCRIBED_INFLATED_OBSTACLE - 1)
          else aset master it (u8 sum))
      master;
    Some (with_costmap master_grid (Some master)).

(** ** Specification: the value of one merged cell *)

Definition merge_max (v old : Z) : Z :=
  if v =? NO_INFORMATION then old
  else if (old =? NO_INFORMATION) || (old <? v) then v else old.
Definition merge_overwrite (v old : Z) : Z := if v =? NO_INFORMATION then old else v.
Definition merge_true_overwrite (v old : Z) : Z := v.
Definition merge_addition (v old : Z) : Z :=
  if v =? NO_INFORMATION then old
  else if old =? NO_INFORMATION then v
  else Z.min (old + v) (INSCRIBED_INFLATED_OBSTACLE - 1).

Definition in_window (min_i min_j max_i max_j x y : Z) : Prop := min_i <= x < max_i /\ min_j <= y < max_j.

#[export] Instance in_window_dec min_i min_j max_i max_j x y :
  Decision (in_window min_i min_j max_i max_j x y).
Proof. unfold in_window. apply _. Defined.

(** [master'] is [master] with the cells of [src] merged into the window. *)
Definition merged (merge : Z -> Z -> Z) (src master master' : list Z) (w h min_i min_j max_i max_j : Z) : Prop :=
  alen master' = alen master /\
  forall x y, 0 <= x < w -> 0 <= y < h ->
    grid_at master' w x y
    = if bool_decide (in_window min_i min_j max_i max_j x y)
      then v ← grid_at src w x y; old ← grid_at master w x y; Some (merge v old)
      else grid_at master w x y.

(** ** The shared loop *)

(** [cell] merges the value of [src] at one index. *)
Definition merges_cell (merge : Z -> Z -> Z) (src : list Z) (cell : Z -> list Z -> option (list Z)) : Prop :=
  forall it l v old, aget src it = Some v -> aget l it = Some old -> is_u8 v -> is_u8 old ->
    exists l', cell it l = Some l' /\ alen l' = alen l /\
      forall k, aget l' k = if it =? k then Some (merge v old) else aget l k.

Section window.
Context (merge : Z -> Z -> Z) (src : list Z) (cell : Z -> list Z -> option (list Z)).
Context (Hcell : merges_cell merge src cell) (Hbytes : Forall is_u8 src).
Context (w h : Z) (Hw : 0 <= w < 2 ^ 31) (Hh : 0 <= h < 2 ^ 31) (Harea : w * h <= 2 ^ 31).
Context (Hsrc : alen src = w * h).

Lemma window_row l j a n :
  alen l = w * h -> 0 <= a -> 0 <= n -> a + n <= w -> 0 <= j < h ->
  (forall x old, a <= x < a + n -> grid_at l w x j = Some old -> is_u8 old) ->
  exists it l', for_range a (a + n) (fun _ '(it, master) =>
       master ← cell it master; Some (u32 (it + 1), master)) (u32 (u32 (j * w) + a), l) = Some (it, l') /\
    alen l' = w * h /\ forall x y, 0 <= x < w -> 0 <= y < h ->
      grid_at l' w x y = if bool_decide (a <= x < a + n /\ y = j)
        then v ← grid_at src w x y; old ← grid_at l w x y; Some (merge v old) else grid_at l w x y.
Proof.
  intros Hl Ha Hn Hle Hj Hb.
  rewrite u32_add_l, u32_small by (unfold is_u32; ilia; nia).
  destruct (for_range_inv (fun i '(it, l1) => it = j * w + i /\ alen l1 = w * h /\
      forall x y, 0 <= x < w -> 0 <= y < h ->
      grid_at l1 w x y = if bool_decide (a <= x < i /\ y = j)
        then v ← grid_at src w x y; old ← grid_at l w x y; Some (merge v old) else grid_at l w x y)
    (fun _ '(it, master) => master ← cell it master; Some (u32 (it + 1), master))
    a (a + n) (j * w + a, l)) as ([it l'] & -> & H).
  - lia.
  - split; [done|]. split; [done|]. intros x y _ _. by rewrite bool_decide_eq_false_2 by lia.
  - intros i [it l1] Hi (-> & Hl1 & Hg).
    pose proof (index_bound w h i j ltac:(lia) Hj) as Hib.
    destruct (aget_is_Some src (j * w + i) ltac:(lia)) as [v Ev].
    destruct (aget_is_Some l (j * w + i) ltac:(lia)) as [old Eo].
    assert (aget l1 (j * w + i) = Some old) as E1.
    { change (grid_at l1 w i j = Some old). rewrite Hg, bool_decide_eq_false_2 by lia. exact Eo. }
    assert (is_u8 v) as Hv by (eapply Forall_forall; [exact Hbytes | by eapply aget_elem]).
    assert (is_u8 old) as Ho by (apply (Hb i); done).
    destruct (Hcell _ l1 v old Ev E1 Hv Ho) as (l2 & -> & Hl2 & Hg2). mred.
    eexists. split; [done|]. rewrite u32_small by (unfold is_u32; ilia).
    split; [lia|]. split; [congruence|]. intros x y Hx Hy. unfold grid_at at 1. rewrite Hg2.
    destruct (Z.eqb_spec (j * w + i) (y * w + x)) as [E|E].
    + destruct (index_inj w i j x y) as [-> ->]; [lia|lia|done|].
      rewrite bool_decide_eq_true_2 by lia. unfold grid_at. by rewrite Ev, Eo.
    + change (aget l1 (y * w + x)) with (grid_at l1 w x y). rewrite Hg by done.
      assert (x <> i \/ y <> j) by (destruct (decide (x = i /\ y = j)) as [[-> ->]|]; lia).
      repeat case_bool_decide; done || lia.
  - exists it, l'. split; [done|]. apply H.
Qed.

Lemma window_loop_merged l min_i min_j max_i max_j :
  alen l = w * h -> Forall is_u8 l ->
  0 <= min_i <= max_i -> max_i <= w -> 0 <= min_j <= max_j -> max_j <= h ->
  exists l', window_loop w min_i min_j max_i max_j cell l = Some l' /\
    merged merge src l l' w h min_i min_j max_i max_j.
Proof.
  intros Hl Hb Hi Hmi Hj Hmj. unfold window_loop.
  match goal with |- context [for_range _ _ ?b _] => set (body := b) end.
  destruct (for_range_inv (fun j l1 => alen l1 = w * h /\ forall x y, 0 <= x < w -> 0 <= y < h ->
      grid_at l1 w x y = if bool_decide (in_window min_i min_j max_i j x y)
        then v ← grid_at src w x y; old ← grid_at l w x y; Some (merge v old) else grid_at l w x y)
    body min_j max_j l) as (l' & -> & Hl' & Hg'); [lia| | |].
  - split; [done|]. intros x y _ _. unfold in_window. by rewrite bool_decide_eq_false_2 by lia.
  - intros j l1 Hjr [Hl1 Hg1]. unfold body.
    destruct (window_row l1 j min_i (max_i - min_i)) as (it & l2 & E & Hl2 & Hg2); [done|lia..| |].
    { intros x old Hx E. rewrite Hg1, bool_decide_eq_false_2 in E by (unfold in_window; lia).
      eapply Forall_forall; [exact Hb | by eapply aget_elem]. }
    replace (min_i + (max_i - min_i)) with max_i in * by lia. rewrite E. mred. simpl.
    exists l2. split; [done|]. split; [done|]. intros x y Hx Hy. rewrite Hg2, !Hg1 by done.
    unfold in_window. repeat case_bool_decide; done || lia.
  - exists l'. split; [done|]. split; [congruence|done].
Qed.
End window.

(** ** The four merges *)

Lemma merged_keep (l : list Z) it old :
  aget l it = Some old ->
  exists l', Some l = Some l' /\ alen l' = alen l /\
    forall k, aget l' k = if it =? k then Some old else aget l k.
Proof.
  intros E. exists l. split; [done|]. split; [done|]. intros k.
  destruct (Z.eqb_spec it k) as [<-|]; done.
Qed.

Lemma merged_set (l : list Z) it v old x :
  aget l it = Some old -> v = x ->
  exists l', aset l it v = Some l' /\ alen l' = alen l /\
    forall k, aget l' k = if it =? k then Some x else aget l k.
Proof.
  intros E <-. apply aget_bounds in E. pose proof (aset_Some l it v E) as Es.
  eexists. split; [exact Es|]. split; [by eapply aset_len|]. intros k. by apply aget_aset.
Qed.

Lemma max_cell_ok src : merges_cell merge_max src (fun it master =>
  v ← aget src it;
  if v =? NO_INFORMATION then Some master
  else
    old_cost ← aget master it;
    if (old_cost =? NO_INFORMATION) || (old_cost <? v) then aset master it v else Some master).
Proof.
  intros it l v old Ev Eo Hv Ho. rewrite Ev. mred. unfold merge_max.
  destruct (v =? NO_INFORMATION) eqn:B.
  - eapply (merged_keep); done.
  - rewrite Eo. mred. destruct (_ || _).
    + by eapply merged_set.
    + by eapply (merged_keep).
Qed.

Lemma true_overwrite_cell_ok src : merges_cell merge_true_overwrite src (fun it master =>
  v ← aget src it; aset master it v).
Proof. intros it l v old Ev Eo Hv Ho. rewrite Ev. mred. by eapply merged_set. Qed.

Lemma overwrite_cell_ok src : merges_cell merge_overwrite src (fun it master =>
  v ← aget src it; if negb (v =? NO_INFORMATION) then aset master it v else Some master).
Proof.
  intros it l v old Ev Eo Hv Ho. rewrite Ev. mred. unfold merge_overwrite.
  destruct (v =? NO_INFORMATION) eqn:B; simpl.
  - by eapply (merged_keep).
  - by eapply merged_set.
Qed.

Lemma addition_cell_ok src : merges_cell merge_addition src (fun it master =>
  v ← aget src it;
  if v =? NO_INFORMATION then Some master
  else
    old_cost ← aget master it;
    if old_cost =? NO_INFORMATION then aset master it v
    else
      let sum := old_cost + v in
      if INSCRIBED_INFLATED_OBSTACLE <=? sum then aset master it (INSCRIBED_INFLATED_OBSTACLE - 1)
      else aset master it (u8 sum)).
Proof.
  intros it l v old Ev Eo Hv Ho. rewrite Ev. mred. unfold merge_addition.
  destruct (v =? NO_INFORMATION) eqn:B.
  - by eapply (merged_keep).
  - rewrite Eo. mred. destruct (old =? NO_INFORMATION) eqn:B'; [by eapply merged_set|].
    cbv zeta. destruct (Z.leb_spec INSCRIBED_INFLATED_OBSTACLE (old + v));
      unfold INSCRIBED_INFLATED_OBSTACLE in *.
    + eapply merged_set; [done|lia].
    + eapply merged_set; [done|]. unfold u8. unfold is_u8 in *. rewrite Z.mod_small by lia. lia.
Qed.

(** A layer and the master grid it is merged into: same sizes, byte cells. *)
Record fits (l : CostmapLayer) (src : list Z) (master_grid : Costmap2D) (master : list Z) : Prop := {
  fits_layer : wf_map (layer_map l) src;
  fits_master : wf_map master_grid master;
  fits_sx : size_x_ (layer_map l) = size_x_ master_grid;
  fits_sy : size_y_ (layer_map l) = size_y_ master_grid;
  fits_src : Forall is_u8 src;
  fits_dst : Forall is_u8 master;
}.

Definition window_ok (m : Costmap2D) (min_i min_j max_i max_j : Z) : Prop :=
  0 <= min_i <= max_i /\ max_i <= size_x_ m /\ 0 <= min_j <= max_j /\ max_j <= size_y_ m.

(** [with_costmap]: the master grid after a merge of [src]. *)
Definition merged_grid (merge : Z -> Z -> Z) (src : list Z) (m : Costmap2D) (master : list Z)
    (min_i min_j max_i max_j : Z) (m' : Costmap2D) : Prop :=
  exists master', m' = with_costmap m (Some master') /\
    merged merge src master master' (size_x_ m) (size_y_ m) min_i min_j max_i max_j.

Section merges.
Context (l : CostmapLayer) (src : list Z) (m : Costmap2D) (master : list Z).
Context (Hf : fits l src m master) (min_i min_j max_i max_j : Z).
Context (Hwin : window_ok m min_i min_j max_i max_j) (Hon : enabled_ l = true).

Lemma merge_window merge cell :
  merges_cell merge src cell ->
  exists master', window_loop (size_x_ m) min_i min_j max_i max_j cell master = Some master' /\
    merged_grid merge src m master min_i min_j max_i max_j (with_costmap m (Some master')).
Proof.
  intros Hc. destruct Hf as [[] [] Hx Hy Hs Hd]. destruct Hwin as (?&?&?&?).
  destruct (window_loop_merged merge src cell Hc Hs (size_x_ m) (size_y_ m)) with
    (l := master) (min_i := min_i) (min_j := min_j) (max_i := max_i) (max_j := max_j)
    as (l' & E & H'); [done || congruence..|].
  exists l'. split; [done|]. by exists l'.
Qed.

Lemma updateWithMax_merged :
  exists m', updateWithMax l m min_i min_j max_i max_j = Some m' /\
    merged_grid merge_max src m master min_i min_j max_i max_j m'.
Proof.
  unfold updateWithMax. rewrite Hon, (wf_some _ _ (fits_layer _ _ _ _ Hf)),
    (wf_some _ _ (fits_master _ _ _ _ Hf)). cbn [negb]. mred.
  destruct (merge_window _ _ (max_cell_ok src)) as (l' & -> & H). mred. by eexists.
Qed.

Lemma updateWithTrueOverwrite_merged :
  exists m', updateWithTrueOverwrite l m min_i min_j max_i max_j = Some (inl m') /\
    merged_grid merge_true_overwrite src m master min_i min_j max_i max_j m'.
Proof.
  unfold updateWithTrueOverwrite. rewrite Hon, (wf_some _ _ (fits_layer _ _ _ _ Hf)),
    (wf_some _ _ (fits_master _ _ _ _ Hf)). cbn [negb]. mred.
  destruct (merge_window _ _ (true_overwrite_cell_ok src)) as (l' & -> & H). mred. by eexists.
Qed.

Lemma updateWithOverwrite_merged :
  exists m', updateWithOverwrite l m min_i min_j max_i max_j = Some m' /\
    merged_grid merge_overwrite src m master min_i min_j max_i max_j m'.
Proof.
  unfold updateWithOverwrite. rewrite Hon, (wf_some _ _ (fits_layer _ _ _ _ Hf)),
    (wf_some _ _ (fits_master _ _ _ _ Hf)). cbn [negb]. mred.
  destruct (merge_window _ _ (overwrite_cell_ok src)) as (l' & -> & H). mred. by eexists.
Qed.

Lemma updateWithAddition_merged :
  exists m', updateWithAddition l m min_i min_j max_i max_j = Some m' /\
    merged_grid merge_addition src m master min_i min_j max_i max_j m'.
Proof.
  unfold updateWithAddition. rewrite Hon, (wf_some _ _ (fits_layer _ _ _ _ Hf)),
    (wf_some _ _ (fits_master _ _ _ _ Hf)). cbn [negb]. mred.
  destruct (merge_window _ _ (addition_cell_ok src)) as (l' & E & H). cbv zeta in *.
  rewrite E. mred. by eexists.
Qed.
End merges.

(** Merging a layer into the master grid never leaves the grids and
    changes the cells of the window only: each becomes the maximum of the two
    costs, the cost of the layer where it is known, the cost of the layer, or
    the sum capped below the inscribed cost, the other cells keeping their
    cost; a layer that is not enabled changes nothing, and a layer without a
    grid makes [updateWithTrueOverwrite] throw. *)
Theorem layer_updates_merge (l : CostmapLayer) (src : list Z) (m : Costmap2D) (master : list Z)
    (min_i min_j max_i max_j : Z) :
  fits l src m master -> window_ok m min_i min_j max_i max_j ->
  (enabled_ l = true ->
     (exists m', updateWithMax l m min_i min_j max_i max_j = Some m' /\
        merged_grid merge_max src m master min_i min_j max_i max_j m') /\
     (exists m', updateWithTrueOverwrite l m min_i min_j max_i max_j = Some (inl m') /\
        merged_grid merge_true_overwrite src m master min_i min_j max_i max_j m') /\
     (exists m', updateWithOverwrite l m min_i min_j max_i max_j = Some m' /\
        merged_grid merge_overwrite src m master min_i min_j max_i max_j m') /\
     (exists m', updateWithAddition l m min_i min_j max_i max_j = Some m' /\
        merged_grid merge_addition src m master min_i min_j max_i max_j m') /\
     updateWithTrueOverwrite (with_layer_map l (with_costmap (layer_map l) None)) m min_i min_j max_i max_j
     = Some (inr "Can't update costmap layer: It has't been initialized yet!"%string)) /\
  (enabled_ l = false ->
     updateWithMax l m min_i min_j max_i max_j = Some m /\
     updateWithTrueOverwrite l m min_i min_j max_i max_j = Some (inl m) /\
     updateWithOverwrite l m min_i min_j max_i max_j = Some m /\
     updateWithAddition l m min_i min_j max_i max_j = Some m).
Proof.
  intros Hf Hw. split.
  - intros Hon. split; [by apply updateWithMax_merged|].
    split; [by apply updateWithTrueOverwrite_merged|]. split; [by apply updateWithOverwrite_merged|].
    split; [by apply updateWithAddition_merged|]. unfold updateWithTrueOverwrite. simpl. by rewrite Hon.
  - intros Hoff. unfold updateWithMax, updateWithTrueOverwrite, updateWithOverwrite, updateWithAddition.
    by rewrite Hoff.
Qed.

Definition example_layer (cells : list Z) : CostmapLayer :=
  mkCostmapLayer (with_costmap example_map (Some cells)) true true false million minus_million
    million minus_million.
Definition example_layer_cells : list Z := [255; 9; 9; 9; 9; 255; 200; 0; 253; 254; 255; 7].

Lemma example_layer_fits cells :
  alen cells = 12 -> Forall is_u8 cells ->
  fits (example_layer cells) cells example_map example_cells.
Proof.
  intros Hl Hb. constructor; [ | exact example_map_wf | done | done | exact Hb |].
  - pose proof example_map_wf as [A1 A2 A3 A4 A5].
    constructor; [exact A1 | exact A2 | exact A3 | reflexivity | exact Hl].
  - repeat constructor; unfold is_u8; lia.
Qed.

Lemma example_layer_bytes : Forall is_u8 example_layer_cells.
Proof. repeat constructor; unfold is_u8; lia. Qed.

Lemma layer_updates_merge_witness :
  exists m', updateWithMax (example_layer example_layer_cells) example_map 1 0 3 2 = Some m' /\
    cost_at m' 1 0 = Some 9 /\ cost_at m' 1 1 = Some 6 /\ cost_at m' 2 1 = Some 200 /\
    cost_at m' 3 1 = Some 8.
Proof.
  destruct (proj1 (layer_updates_merge (example_layer example_layer_cells) example_layer_cells example_map
    example_cells 1 0 3 2 (example_layer_fits example_layer_cells eq_refl example_layer_bytes)
    ltac:(unfold window_ok; simpl; lia)) eq_refl) as [(m' & E & c' & -> & _ & H) _].
  eexists. split; [exact E|]. unfold cost_at. simpl.
  repeat split; rewrite H by (simpl; lia); vm_compute; reflexivity.
Defined.

(** ** The maximum is a join *)

(** Case analysis on comparisons of atoms first. *)
Ltac atom_cases :=
  repeat (match goal with
    | |- context [?a =? ?b] => is_var a; destruct (Z.eqb_spec a b); subst
    | |- context [?a <? ?b] => is_var a; is_var b; destruct (Z.ltb_spec a b)
    end; cbn [orb]); try lia.

Lemma merge_max_comm v w old :
  merge_max v (merge_max w old) = merge_max w (merge_max v old).
Proof. unfold merge_max, NO_INFORMATION. atom_cases. Qed.

Lemma merge_max_idem v old : merge_max v (merge_max v old) = merge_max v old.
Proof. unfold merge_max, NO_INFORMATION. atom_cases. Qed.

Lemma merge_max_u8 v old : is_u8 v -> is_u8 old -> is_u8 (merge_max v old).
Proof. unfold merge_max. intros. destruct (_ =? _); [done|]. by destruct (_ || _). Qed.

(** The cells of a merged grid stay bytes. *)
Lemma merged_bytes merge src m master min_i min_j max_i max_j master' :
  (forall v old, is_u8 v -> is_u8 old -> is_u8 (merge v old)) ->
  wf_map m master -> Forall is_u8 src -> Forall is_u8 master ->
  merged merge src master master' (size_x_ m) (size_y_ m) min_i min_j max_i max_j ->
  Forall is_u8 master'.
Proof.
  intros Hm Hw Hs Hd [Hl Hg]. pose proof Hw as [Hx Hy Ha Hc Hlen].
  apply Forall_forall. intros v (k & Hk)%elem_aget. pose proof (aget_bounds _ _ _ Hk) as Hb.
  assert (0 < size_x_ m) as Hpos by nia.
  pose proof (Z.div_mod k (size_x_ m) ltac:(lia)) as Ek.
  pose proof (Z.mod_pos_bound k (size_x_ m) Hpos) as Hr.
  assert (grid_at master' (size_x_ m) (k mod size_x_ m) (k / size_x_ m) = Some v) as Hv.
  { unfold grid_at. rewrite <- Hk. f_equal. lia. }
  rewrite Hg in Hv; [|done|split; [apply Z.div_pos; lia | apply Z.div_lt_upper_bound; lia]].
  assert (forall l x y u, Forall is_u8 l -> grid_at l (size_x_ m) x y = Some u -> is_u8 u) as Hbyte.
  { intros l x y u HF E. eapply Forall_forall; [exact HF | by eapply aget_elem]. }
  case_bool_decide; [|by eapply Hbyte].
  destruct (grid_at src _ _ _) as [a|] eqn:Ea; [|done]. simpl in Hv.
  destruct (grid_at master _ _ _) as [b|] eqn:Eb; [|done]. injection Hv as <-.
  apply Hm; [by eapply (Hbyte src) | by eapply (Hbyte master)].
Qed.

(** What a merge leaves to the layered costmap: bytes, and the cells out of the
    window as they were. *)
Lemma merged_grid_window merge l src m master min_i min_j max_i max_j m' :
  fits l src m master -> (forall v old, is_u8 v -> is_u8 old -> is_u8 (merge v old)) ->
  merged_grid merge src m master min_i min_j max_i max_j m' ->
  exists master', m' = with_costmap m (Some master') /\ alen master' = alen master /\ Forall is_u8 master' /\
    forall x y, on_map m x y -> ~ in_window min_i min_j max_i max_j x y ->
      grid_at master' (size_x_ m) x y = grid_at master (size_x_ m) x y.
Proof.
  intros Hf Hmb (c' & -> & Hg). exists c'. split; [done|]. split; [apply Hg|].
  split; [exact (merged_bytes merge src m master _ _ _ _ c' Hmb (fits_master _ _ _ _ Hf) (fits_src _ _ _ _ Hf) (fits_dst _ _ _ _ Hf) Hg)|].
  intros x y [? ?] Hn. destruct Hg as [_ Hg]. rewrite Hg by done. by rewrite bool_decide_eq_false_2.
Qed.

Lemma fits_merged merge l src l2 src2 m master min_i min_j max_i max_j master' :
  (forall v old, is_u8 v -> is_u8 old -> is_u8 (merge v old)) ->
  fits l src m master -> fits l2 src2 m master ->
  merged merge src master master' (size_x_ m) (size_y_ m) min_i min_j max_i max_j ->
  fits l2 src2 (with_costmap m (Some master')) master'.
Proof.
  intros Hm [H1 H2 H3 H4 H5 H6] [H1' H2' H3' H4' H5' H6'] Hg. constructor; simpl; try done.
  - apply wf_with_costmap with master; [done|apply Hg].
  - exact (merged_bytes merge src m master _ _ _ _ _ Hm H2 H5 H6 Hg).
Qed.

(** Two arrays that agree on every cell of a map are equal. *)
Lemma grid_ext m c (c1 c2 : list Z) :
  wf_map m c -> alen c1 = alen c -> alen c2 = alen c ->
  (forall x y, on_map m x y -> grid_at c1 (size_x_ m) x y = grid_at c2 (size_x_ m) x y) -> c1 = c2.
Proof.
  intros [Hx Hy Ha Hc Hl] H1 H2 Hg. apply aget_ext; [congruence|]. intros k Hk.
  assert (0 < size_x_ m) as Hpos by nia.
  pose proof (Z.div_mod k (size_x_ m) ltac:(lia)) as Ek.
  specialize (Hg (k mod size_x_ m) (k / size_x_ m)). unfold grid_at in Hg.
  replace (k / size_x_ m * size_x_ m + k mod size_x_ m) with k in Hg by lia. apply Hg.
  split; [by apply Z.mod_pos_bound|].
  split; [apply Z.div_pos; lia | apply Z.div_lt_upper_bound; lia].
Qed.

(** Two enabled layers merged one after the other by maximum. *)
Lemma max_twice l src l2 src2 m master min_i min_j max_i max_j :
  fits l src m master -> fits l2 src2 m master -> window_ok m min_i min_j max_i max_j ->
  enabled_ l = true -> enabled_ l2 = true ->
  exists c', (m1 ← updateWithMax l m min_i min_j max_i max_j; updateWithMax l2 m1 min_i min_j max_i max_j)
    = Some (with_costmap m (Some c')) /\ alen c' = alen master /\
    forall x y, on_map m x y -> grid_at c' (size_x_ m) x y =
      if bool_decide (in_window min_i min_j max_i max_j x y)
      then v ← grid_at src (size_x_ m) x y; v2 ← grid_at src2 (size_x_ m) x y;
           old ← grid_at master (size_x_ m) x y; Some (merge_max v2 (merge_max v old))
      else grid_at master (size_x_ m) x y.
Proof.
  intros Hf Hf2 Hw Hon Hon2.
  destruct (updateWithMax_merged l src m master Hf _ _ _ _ Hw Hon) as (m1 & -> & c1 & -> & Hm1). mred.
  pose proof (fits_merged _ l src l2 src2 m master _ _ _ _ c1 merge_max_u8 Hf Hf2 Hm1) as Hf1.
  destruct (updateWithMax_merged l2 src2 _ c1 Hf1 _ _ _ _ Hw Hon2) as (m2 & -> & c2 & -> & Hl2 & Hg2).
  destruct Hm1 as [Hl1 Hg1]. exists c2. split; [done|]. split; [congruence|]. intros x y [Hx Hy].
  simpl in Hg2. rewrite Hg2, Hg1 by done. case_bool_decide; [|done].
  destruct (grid_at src _ _ _), (grid_at src2 _ _ _), (grid_at master _ _ _); done.
Qed.

(** Layers merged by maximum do not depend on the order they are listed
    in, and merging a layer again changes nothing: unknown is the bottom of
    the order that [updateWithMax] joins. *)
Theorem max_layers_commute (l l2 : CostmapLayer) (src src2 : list Z) (m : Costmap2D) (master : list Z)
    (min_i min_j max_i max_j : Z) :
  fits l src m master -> fits l2 src2 m master -> window_ok m min_i min_j max_i max_j ->
  enabled_ l = true -> enabled_ l2 = true ->
  (m1 ← updateWithMax l m min_i min_j max_i max_j; updateWithMax l2 m1 min_i min_j max_i max_j)
  = (m1 ← updateWithMax l2 m min_i min_j max_i max_j; updateWithMax l m1 min_i min_j max_i max_j) /\
  (m1 ← updateWithMax l m min_i min_j max_i max_j; updateWithMax l m1 min_i min_j max_i max_j)
  = updateWithMax l m min_i min_j max_i max_j /\
  is_Some (updateWithMax l m min_i min_j max_i max_j).
Proof.
  intros Hf Hf2 Hw Hon Hon2. split; [|split].
  - destruct (max_twice l src l2 src2 m master _ _ _ _ Hf Hf2 Hw Hon Hon2) as (c1 & -> & Hl1 & H1).
    destruct (max_twice l2 src2 l src m master _ _ _ _ Hf2 Hf Hw Hon2 Hon) as (c2 & -> & Hl2 & H2).
    do 3 f_equal. eapply (grid_ext m master); [apply Hf|done..|]. intros x y Hp. rewrite H1, H2 by done.
    case_bool_decide; [|done].
    destruct (grid_at src _ _ _), (grid_at src2 _ _ _), (grid_at master _ _ _); try done.
    simpl. by rewrite merge_max_comm.
  - destruct (max_twice l src l src m master _ _ _ _ Hf Hf Hw Hon Hon) as (c1 & -> & Hl1 & H1).
    destruct (updateWithMax_merged l src m master Hf _ _ _ _ Hw Hon) as (m2 & -> & c2 & -> & Hl2 & H2).
    do 3 f_equal. eapply (grid_ext m master); [apply Hf|done..|]. intros x y Hp.
    rewrite H1 by done. destruct Hp as [Hx Hy]. rewrite H2 by done. case_bool_decide; [|done].
    destruct (grid_at src _ _ _), (grid_at master _ _ _); try done. simpl. by rewrite merge_max_idem.
  - destruct (updateWithMax_merged l src m master Hf _ _ _ _ Hw Hon) as (m2 & -> & _). by eexists.
Qed.

Lemma max_layers_commute_witness :
  let l := example_layer example_layer_cells in let l2 := example_layer (rev example_layer_cells) in
  (m1 ← updateWithMax l example_map 0 0 4 3; updateWithMax l2 m1 0 0 4 3)
  = (m1 ← updateWithMax l2 example_map 0 0 4 3; updateWithMax l m1 0 0 4 3).
Proof.
  assert (Forall is_u8 (rev example_layer_cells)) as Hb by (repeat constructor; unfold is_u8; lia).
  apply (max_layers_commute _ _ example_layer_cells (rev example_layer_cells) example_map example_cells);
    [apply example_layer_fits; [done|exact example_layer_bytes] | apply example_layer_fits; [done|exact Hb]
    | unfold window_ok; simpl; lia | reflexivity | reflexivity].
Defined.

(** ** Clearing an area *)

Definition area_hit (start_x start_y end_x end_y : Z) (invert : bool) (x y : Z) : bool :=
  negb (eqb ((start_x <? x) && (x <? end_x) && (start_y <? y) && (y <? end_y)) invert).

(** The cells cleared when the loops are at column [cx] and row [cy]. *)
Definition cleared_until (m : Costmap2D) (hit : Z -> Z -> bool) (c : list Z) (cx cy : Z) (l : list Z) : Prop :=
  alen l = alen c /\ forall x y, on_map m x y -> grid_at l (size_x_ m) x y =
    if bool_decide (x < cx \/ x = cx /\ y < cy) && hit x y then Some NO_INFORMATION
    else grid_at c (size_x_ m) x y.

Lemma clear_cell m c hit cx cy l :
  wf_map m c -> on_map m cx cy -> cleared_until m hit c cx cy l ->
  exists l', (if negb (hit cx cy) then Some l
    else v ← aget l (s32 (getIndex m cx cy));
         if negb (v =? NO_INFORMATION) then aset l (s32 (getIndex m cx cy)) NO_INFORMATION else Some l)
    = Some l' /\ cleared_until m hit c cx (cy + 1) l'.
Proof.
  intros Hw Hp [Hl Hg]. pose proof Hw as [Hx Hy Ha Hc Hlc].
  destruct (getIndex_small m c cx cy Hw Hp) as [-> Hb].
  rewrite s32_small by (unfold is_s32; ilia).
  assert (forall l' b, alen l' = alen c ->
      (forall k, aget l' k = if (cy * size_x_ m + cx =? k) && b then Some NO_INFORMATION else aget l k) ->
      hit cx cy = b -> cleared_until m hit c cx (cy + 1) l') as Hstep.
  { intros l' b Hl' Hg' Hh. split; [done|]. intros x y Hq. unfold grid_at at 1. rewrite Hg'.
    change (aget l (y * size_x_ m + x)) with (grid_at l (size_x_ m) x y). rewrite Hg by done.
    destruct (Z.eqb_spec (cy * size_x_ m + cx) (y * size_x_ m + x)) as [E|E].
    - destruct (index_inj _ _ _ _ _ (proj1 Hp) (proj1 Hq) E) as [-> ->].
      rewrite Hh, (bool_decide_eq_true_2 (_ \/ _ /\ y < y + 1)), bool_decide_eq_false_2 by lia. by destruct b.
    - assert (x <> cx \/ y <> cy) by (destruct (decide (x = cx /\ y = cy)) as [[-> ->]|]; lia).
      by rewrite (bool_decide_ext (x < cx \/ x = cx /\ y < cy) (x < cx \/ x = cx /\ y < cy + 1)) by lia. }
  destruct (hit cx cy) eqn:Hh; cbn [negb].
  - destruct (aget_is_Some l (cy * size_x_ m + cx) ltac:(lia)) as [v Ev]. rewrite Ev. mred.
    destruct (Z.eqb_spec v NO_INFORMATION) as [->|Hne]; cbn [negb].
    + exists l. split; [done|]. apply (Hstep l true); [done| |done]. intros k.
      rewrite andb_true_r. destruct (Z.eqb_spec (cy * size_x_ m + cx) k) as [<-|]; done.
    + pose proof (aset_Some l (cy * size_x_ m + cx) NO_INFORMATION ltac:(lia)) as Es.
      eexists. split; [exact Es|]. apply (Hstep _ true); [|intros k; rewrite andb_true_r; by apply aget_aset|done].
      rewrite (aset_len _ _ _ _ Es). done.
  - exists l. split; [done|]. apply (Hstep l false); [done| |done]. intros k. by rewrite andb_false_r.
Qed.

(** [clearArea] forgets exactly the cells strictly inside the rectangle,
    or exactly the others when [invert] is set, and marks the layer as not
    current. *)
Theorem clearArea_clears (l : CostmapLayer) (c : list Z) (start_x start_y end_x end_y : Z) (invert : bool) :
  wf_map (layer_map l) c ->
  exists l' c', clearArea l start_x start_y end_x end_y invert = Some l' /\
    layer_map l' = with_costmap (layer_map l) (Some c') /\ alen c' = alen c /\
    current_ l' = false /\ enabled_ l' = enabled_ l /\
    forall x y, on_map (layer_map l) x y ->
      cost_at (layer_map l') x y
      = if bool_decide (start_x < x < end_x /\ start_y < y < end_y) then
          if invert then cost_at (layer_map l) x y else Some NO_INFORMATION
        else if invert then Some NO_INFORMATION else cost_at (layer_map l) x y.
Proof.
  intros Hw. pose proof Hw as [Hx Hy Ha Hc Hl]. set (m := layer_map l) in *.
  unfold clearArea. fold m. rewrite Hc. mred.
  rewrite !s32_small by (unfold is_s32; ilia).
  set (hit := area_hit start_x start_y end_x end_y invert).
  match goal with |- context [for_range 0 (size_x_ m) ?b c] => set (body := b) end.
  destruct (for_range_inv (fun x l => cleared_until m hit c x 0 l) body 0 (size_x_ m) c)
    as (c' & -> & Hl' & Hg'); [lia| | |].
  - split; [done|]. intros x y [? ?]. by rewrite bool_decide_eq_false_2 by lia.
  - intros x l1 Hxr H1. unfold body.
    match goal with |- context [for_range 0 (size_y_ m) ?b l1] => set (row := b) end.
    destruct (for_range_inv (fun y l => cleared_until m hit c x y l) row 0 (size_y_ m) l1)
      as (l2 & -> & H2); [lia|done| |].
    + intros y l2 Hyr H2. destruct (clear_cell m c hit x y l2 Hw (conj Hxr Hyr) H2) as (l3 & E & H3).
      exists l3. split; [|done]. rewrite <- E. unfold row, hit, area_hit. by rewrite negb_involutive.
    + exists l2. split; [done|]. destruct H2 as [Hl2 Hg2]. split; [done|]. intros x' y' Hp.
      rewrite Hg2 by done. destruct Hp as [? ?]. repeat case_bool_decide; done || lia.
  - mred. eexists _, c'. split; [done|]. simpl. do 4 (split; [done|]). intros x y Hp.
    unfold cost_at. rewrite Hc. simpl. rewrite Hg' by done. destruct Hp as [? ?].
    rewrite bool_decide_eq_true_2 by lia. unfold hit, area_hit. simpl.
    case_bool_decide as D.
    + rewrite !(proj2 (Z.ltb_lt _ _)) by lia. by destruct invert.
    + destruct (_ && _) eqn:B; [zbool; lia|]. by destruct invert.
Qed.

Lemma clearArea_clears_witness :
  exists l', clearArea (example_layer example_cells) 0 0 3 2 true = Some l' /\
    cost_at (layer_map l') 1 1 = Some 6 /\ cost_at (layer_map l') 3 1 = Some 255.
Proof.
  destruct (clearArea_clears (example_layer example_cells) example_cells 0 0 3 2 true example_map_wf)
    as (l' & c' & E & _ & _ & _ & _ & H).
  exists l'. split; [exact E|]. split; rewrite H by (unfold on_map; simpl; lia); vm_compute; reflexivity.
Defined.

(** ** Bounds *)

(** The box [b] covers the point [(x, y)]. *)
Definition covers (b : Bounds) (x y : spec_float) : Prop :=
  fle (min_x b) x = true /\ fle (min_y b) y = true /\ fle x (max_x b) = true /\ fle y (max_y b) = true.

Definition no_nan (b : Bounds) : Prop :=
  is_nan (min_x b) = false /\ is_nan (min_y b) = false /\ is_nan (max_x b) = false /\ is_nan (max_y b) = false.

(** [b] lies within [b']. *)
Definition box_in (b b' : Bounds) : Prop :=
  fle (min_x b') (min_x b) = true /\ fle (min_y b') (min_y b) = true /\
  fle (max_x b) (max_x b') = true /\ fle (max_y b) (max_y b') = true.

Definition extra_box (l : CostmapLayer) : Bounds :=
  mkBounds (extra_min_x_ l) (extra_min_y_ l) (extra_max_x_ l) (extra_max_y_ l).

(** No extra bounds are pending. *)
Definition drained (l : CostmapLayer) : Prop :=
  has_extra_bounds_ l = false /\ extra_box l = mkBounds million million minus_million minus_million.

Definition join (b b' : Bounds) : Bounds :=
  mkBounds (fmin (min_x b) (min_x b')) (fmin (min_y b) (min_y b'))
    (fmax (max_x b) (max_x b')) (fmax (max_y b) (max_y b')).

Lemma join_no_nan b b' : no_nan b -> no_nan b' -> no_nan (join b b').
Proof. intros (?&?&?&?) (?&?&?&?). repeat split; simpl; auto with floats. Qed.
Lemma join_l b b' : no_nan b -> no_nan b' -> box_in b (join b b').
Proof. intros (?&?&?&?) (?&?&?&?). repeat split; simpl; auto with floats. Qed.
Lemma join_r b b' : no_nan b -> no_nan b' -> box_in b' (join b b').
Proof. intros (?&?&?&?) (?&?&?&?). repeat split; simpl; auto with floats. Qed.
Lemma box_in_trans b1 b2 b3 : no_nan b1 -> no_nan b2 -> no_nan b3 -> box_in b1 b2 -> box_in b2 b3 -> box_in b1 b3.
Proof.
  intros (?&?&?&?) (?&?&?&?) (?&?&?&?) (?&?&?&?) (?&?&?&?).
  split; [|split; [|split]]; (eapply fle_trans; [| | |eassumption|eassumption]; done).
Qed.

Definition add_box (l : CostmapLayer) (b : Bounds) : CostmapLayer :=
  addExtraBounds l (min_x b) (min_y b) (max_x b) (max_y b).

Lemma add_box_extra l b : extra_box (add_box l b) = join b (extra_box l).
Proof. reflexivity. Qed.

Lemma add_boxes l boxes :
  no_nan (extra_box l) -> Forall no_nan boxes ->
  let l' := foldl add_box l boxes in
  no_nan (extra_box l') /\ box_in (extra_box l) (extra_box l') /\ Forall (fun b => box_in b (extra_box l')) boxes /\
  layer_map l' = layer_map l /\ current_ l' = current_ l /\ enabled_ l' = enabled_ l /\
  (boxes <> [] -> has_extra_bounds_ l' = true).
Proof.
  revert l. induction boxes as [|b bs IH]; intros l Hl Hbs; simpl.
  - split; [done|]. split; [|done]. destruct Hl as (?&?&?&?). repeat split; by apply fle_refl.
  - inversion Hbs as [|? ? Hb Hbs']; subst.
    pose proof (join_no_nan _ _ Hb Hl) as Hj. rewrite <- add_box_extra in Hj.
    destruct (IH (add_box l b) Hj Hbs') as (Hn & Hin & Hall & Hm & Hc & He & Hh).
    rewrite add_box_extra in Hin.
    split; [done|]. split; [|split; [constructor; [|done]|]].
    + eapply box_in_trans; [| |exact Hn|by apply (join_r b)|exact Hin]; done.
    + eapply box_in_trans; [| |exact Hn|by apply (join_l b (extra_box l))|exact Hin]; done.
    + split; [done|]. split; [done|]. split; [done|]. intros _. destruct bs; [done|by apply Hh].
Qed.

(** The boxes announced with [addExtraBounds] are not lost: the next
    [useExtraBounds] returns a box that contains the given one and all of
    them, and leaves the layer with no box pending, so that calling it again
    changes nothing. *)
Theorem extra_bounds_covered (l : CostmapLayer) (boxes : list Bounds) (b : Bounds) :
  drained l -> no_nan b -> Forall no_nan boxes ->
  let '(l', b') := useExtraBounds (foldl add_box l boxes) b in
  l' = l /\ no_nan b' /\ Forall (fun bx => box_in bx b') (b :: boxes) /\ useExtraBounds l' b' = (l', b').
Proof.
  intros [Hh Hx] Hb Hbs. assert (no_nan (extra_box l)) as Hn by (rewrite Hx; done).
  destruct (add_boxes l boxes Hn Hbs) as (Hn' & _ & Hall & Hm & Hc & He & Hhas).
  destruct boxes as [|bx bs].
  - simpl. unfold useExtraBounds. rewrite Hh. simpl. split; [done|]. split; [done|]. split; [|by rewrite Hh].
    constructor; [|done]. destruct Hb as (?&?&?&?). repeat split; by apply fle_refl.
  - set (l1 := foldl add_box l (bx :: bs)) in *. unfold useExtraBounds at 1. rewrite Hhas by done. cbn [negb].
    change (mkBounds (fmin (extra_min_x_ l1) (min_x b)) _ _ _) with (join (extra_box l1) b).
    split; [|split; [by apply join_no_nan|split]].
    + rewrite Hm, Hc, He. destruct l. simpl in *. unfold extra_box in Hx. simpl in Hx. by simplify_eq.
    + constructor; [by apply join_r|]. eapply Forall_impl; [eapply Forall_and; split; [exact Hbs|exact Hall]|].
      intros y [Hy Hyin]. apply (box_in_trans y (extra_box l1)); [done|done|by apply join_no_nan|done|by apply join_l].
    + done.
Qed.

Definition box (a b : Z) : Bounds := mkBounds (f_of_Z a) (f_of_Z a) (f_of_Z b) (f_of_Z b).

Lemma extra_bounds_covered_witness :
  let r := useExtraBounds (foldl add_box (CostmapLayer_new example_map) [box 3 5; box (-2) 1]) (box 0 1) in
  Forall (fun bx => box_in bx (snd r)) [box 0 1; box 3 5; box (-2) 1] /\ snd r = box (-2) 5.
Proof.
  pose proof (extra_bounds_covered (CostmapLayer_new example_map) [box 3 5; box (-2) 1] (box 0 1)
    (conj eq_refl eq_refl) ltac:(done) ltac:(repeat constructor)) as H.
  destruct (useExtraBounds _ _) as [l' b'] eqn:E in H. destruct H as (_ & _ & H & _). cbv zeta. rewrite E.
  split; [exact H|]. vm_compute in E. injection E as _ <-. vm_compute. reflexivity.
Defined.
