(* ===== verification/LayeredCostmap.v ===== *)
(** The layered costmap ([layered_costmap.cpp]): the plugins and the filters
    it drives through the interface of [layer.hpp], the master grids they are
    merged into, and the window that one update recomputes. *)

From stdpp Require Import strings.
From S2P Require Import Prelude Floats Bresenham Costmap2D Footprint CostmapLayer.

(** ** The interface of a layer *)

(** What a layer reads of the layered costmap it belongs to: [isRolling()],
    [isSizeLocked()], [getCostmap()], [getFootprint()] and
    [getInscribedRadius()]. *)
Record LayeredView := mkView {
  v_rolling : bool;
  v_size_locked : bool;
  v_master : Costmap2D;
  v_footprint : list Point;
  v_inscribed : spec_float;
}.

(** The virtual functions of [Layer] the layered costmap calls. *)
Class LayerOps (L : Type) := {
  updateBounds : L -> LayeredView -> spec_float -> spec_float -> spec_float -> Bounds -> option (L * Bounds);
  updateCosts : L -> LayeredView -> Costmap2D -> Z -> Z -> Z -> Z -> option (L * Costmap2D);
  layer_matchSize : L -> LayeredView -> option L;
  onFootprintChanged : L -> LayeredView -> option L;
  layer_isCurrent : L -> bool;
  layer_isEnabled : L -> bool;
}.

(** What a layer promises to a costmap that rolls or not: once sized to the
    master grid ([layer_fits]), which [matchSize] does to any layer in a
    proper state for the resolution and the sizes of the grid ([layer_inv]), it updates its
    bounds at a pose it can work at ([layer_ready]), merging its costs writes bytes into the cells of the window only,
    and it follows a footprint it can work with ([layer_footprint]). *)
Class LayerLaws (L : Type) (rolling : bool) `{LayerOps L} := {
  layer_inv : L -> spec_float -> Z -> Z -> Prop;
  layer_footprint : L -> LayeredView -> Prop;
  layer_fits : L -> Z -> Z -> Prop;
  layer_ready : L -> LayeredView -> spec_float -> spec_float -> spec_float -> Prop;
  updateBounds_fits l v sx sy x y yaw b :
    v_rolling v = rolling -> layer_fits l sx sy -> layer_ready l v x y yaw ->
    exists l' b', updateBounds l v x y yaw b = Some (l', b') /\ layer_fits l' sx sy;
  updateCosts_window l v m c min_i min_j max_i max_j :
    v_rolling v = rolling -> layer_fits l (size_x_ m) (size_y_ m) -> wf_map m c -> Forall is_u8 c ->
    window_ok m min_i min_j max_i max_j ->
    exists l' c', updateCosts l v m min_i min_j max_i max_j = Some (l', with_costmap m (Some c')) /\
      alen c' = alen c /\ Forall is_u8 c' /\ layer_fits l' (size_x_ m) (size_y_ m) /\
      forall x y, on_map m x y -> ~ in_window min_i min_j max_i max_j x y ->
        grid_at c' (size_x_ m) x y = grid_at c (size_x_ m) x y;
  matchSize_fits l v c :
    v_rolling v = rolling -> layer_inv l (resolution_ (v_master v)) (size_x_ (v_master v)) (size_y_ (v_master v)) -> wf_map (v_master v) c -> is_u8 (default_value_ (v_master v)) ->
    exists l', layer_matchSize l v = Some l' /\ layer_fits l' (size_x_ (v_master v)) (size_y_ (v_master v));
  footprint_fits l v sx sy : layer_fits l sx sy -> layer_footprint l v -> exists l', onFootprintChanged l v = Some l' /\ layer_fits l' sx sy;
}.

(** ** The object *)

Record LayeredCostmap (L : Type) := mkLayered {
  primary_costmap_ : Costmap2D;
  combined_costmap_ : Costmap2D;
  global_frame_ : string;
  rolling_window_ : bool;
  lc_current_ : bool;
  bounds_ : Bounds;
  bx0_ : Z;
  bxn_ : Z;
  by0_ : Z;
  byn_ : Z;
  plugins_ : list L;
  filters_ : list L;
  initialized_ : bool;
  size_locked_ : bool;
  circumscribed_radius_ : spec_float;
  inscribed_radius_ : spec_float;
  footprint_ : list Point;
}.
Arguments mkLayered {L}.
Arguments primary_costmap_ {L}. Arguments combined_costmap_ {L}. Arguments global_frame_ {L}.
Arguments rolling_window_ {L}. Arguments lc_current_ {L}. Arguments bounds_ {L}.
Arguments bx0_ {L}. Arguments bxn_ {L}. Arguments by0_ {L}. Arguments byn_ {L}.
Arguments plugins_ {L}. Arguments filters_ {L}. Arguments initialized_ {L}. Arguments size_locked_ {L}.
Arguments circumscribed_radius_ {L}. Arguments inscribed_radius_ {L}. Arguments footprint_ {L}.

(** Functional updates of the fields the operations assign. *)
Definition with_maps {L} (lc : LayeredCostmap L) (primary combined : Costmap2D) : LayeredCostmap L :=
  mkLayered primary combined (global_frame_ lc) (rolling_window_ lc) (lc_current_ lc) (bounds_ lc)
    (bx0_ lc) (bxn_ lc) (by0_ lc) (byn_ lc) (plugins_ lc) (filters_ lc) (initialized_ lc) (size_locked_ lc)
    (circumscribed_radius_ lc) (inscribed_radius_ lc) (footprint_ lc).
Definition with_layers {L} (lc : LayeredCostmap L) (plugins filters : list L) : LayeredCostmap L :=
  mkLayered (primary_costmap_ lc) (combined_costmap_ lc) (global_frame_ lc) (rolling_window_ lc)
    (lc_current_ lc) (bounds_ lc) (bx0_ lc) (bxn_ lc) (by0_ lc) (byn_ lc) plugins filters (initialized_ lc)
    (size_locked_ lc) (circumscribed_radius_ lc) (inscribed_radius_ lc) (footprint_ lc).
Definition with_bounds {L} (lc : LayeredCostmap L) (b : Bounds) : LayeredCostmap L :=
  mkLayered (primary_costmap_ lc) (combined_costmap_ lc) (global_frame_ lc) (rolling_window_ lc)
    (lc_current_ lc) b (bx0_ lc) (bxn_ lc) (by0_ lc) (byn_ lc) (plugins_ lc) (filters_ lc) (initialized_ lc)
    (size_locked_ lc) (circumscribed_radius_ lc) (inscribed_radius_ lc) (footprint_ lc).
Definition with_window {L} (lc : LayeredCostmap L) (x0 xn y0 yn : Z) : LayeredCostmap L :=
  mkLayered (primary_costmap_ lc) (combined_costmap_ lc) (global_frame_ lc) (rolling_window_ lc)
    (lc_current_ lc) (bounds_ lc) x0 xn y0 yn (plugins_ lc) (filters_ lc) true (size_locked_ lc)
    (circumscribed_radius_ lc) (inscribed_radius_ lc) (footprint_ lc).
Definition with_current {L} (lc : LayeredCostmap L) (b : bool) : LayeredCostmap L :=
  mkLayered (primary_costmap_ lc) (combined_costmap_ lc) (global_frame_ lc) (rolling_window_ lc)
    b (bounds_ lc) (bx0_ lc) (bxn_ lc) (by0_ lc) (byn_ lc) (plugins_ lc) (filters_ lc) (initialized_ lc)
    (size_locked_ lc) (circumscribed_radius_ lc) (inscribed_radius_ lc) (footprint_ lc).
Definition with_size_locked {L} (lc : LayeredCostmap L) (b : bool) : LayeredCostmap L :=
  mkLayered (primary_costmap_ lc) (combined_costmap_ lc) (global_frame_ lc) (rolling_window_ lc)
    (lc_current_ lc) (bounds_ lc) (bx0_ lc) (bxn_ lc) (by0_ lc) (byn_ lc) (plugins_ lc) (filters_ lc)
    (initialized_ lc) b (circumscribed_radius_ lc) (inscribed_radius_ lc) (footprint_ lc).
Definition with_footprint {L} (lc : LayeredCostmap L) (f : list Point) (inscribed circumscribed : spec_float) :
    LayeredCostmap L :=
  mkLayered (primary_costmap_ lc) (combined_costmap_ lc) (global_frame_ lc) (rolling_window_ lc)
    (lc_current_ lc) (bounds_ lc) (bx0_ lc) (bxn_ lc) (by0_ lc) (byn_ lc) (plugins_ lc) (filters_ lc)
    (initialized_ lc) (size_locked_ lc) circumscribed inscribed f.

(** What the layers see of it. *)
Definition view {L} (lc : LayeredCostmap L) : LayeredView :=
  mkView (rolling_window_ lc) (size_locked_ lc) (combined_costmap_ lc) (footprint_ lc) (inscribed_radius_ lc).

Section layered.
Context {L : Type} `{LayerOps L}.
Context (fresh_byte : Z -> Z) (hypot : spec_float -> spec_float -> spec_float).

(** 0.1 as a double. *)
Definition tenth : spec_float := fdiv f_one (f_of_Z 10).

Definition LayeredCostmap_new (global_frame : string) (rolling_window track_unknown : bool) : LayeredCostmap L :=
  let m := Costmap2D_empty (if track_unknown then 255 else 0) in
  mkLayered m m global_frame rolling_window false (mkBounds f_zero f_zero f_zero f_zero) 0 0 0 0 [] []
    false false f_one tenth [].

Definition addPlugin (lc : LayeredCostmap L) (plugin : L) : LayeredCostmap L :=
  with_layers lc (plugins_ lc ++ [plugin]) (filters_ lc).
Definition addFilter (lc : LayeredCostmap L) (filter : L) : LayeredCostmap L :=
  with_layers lc (plugins_ lc) (filters_ lc ++ [filter]).

Definition isTrackingUnknown (lc : LayeredCostmap L) : bool :=
  default_value_ (combined_costmap_ lc) =? NO_INFORMATION.

(** Runs a call of every layer, in order. *)
Fixpoint for_layers (f : L -> option L) (ls : list L) : option (list L) :=
  match ls with
  | [] => Some []
  | l :: ls => l ← f l; ls ← for_layers f ls; Some (l :: ls)
  end.

Definition resizeMap (lc : LayeredCostmap L) (size_x size_y : Z) (resolution origin_x origin_y : spec_float)
    (size_locked : bool) : option (LayeredCostmap L) :=
  let lc := with_size_locked lc size_locked in
  primary ← Costmap2D.resizeMap fresh_byte (primary_costmap_ lc) size_x size_y resolution origin_x origin_y;
  combined ← Costmap2D.resizeMap fresh_byte (combined_costmap_ lc) size_x size_y resolution origin_x origin_y;
  let lc := with_maps lc primary combined in
  plugins ← for_layers (fun l => layer_matchSize l (view lc)) (plugins_ lc);
  filters ← for_layers (fun l => layer_matchSize l (view lc)) (filters_ lc);
  Some (with_layers lc plugins filters).

Definition isOutofBounds (lc : LayeredCostmap L) (robot_x robot_y : spec_float) : option bool :=
  r ← worldToMap (combined_costmap_ lc) robot_x robot_y;
  Some (match r with Some _ => false | None => true end).

(** The origin follows the robot. *)
Definition roll (lc : LayeredCostmap L) (robot_x robot_y : spec_float) : option (LayeredCostmap L) :=
  if rolling_window_ lc then
    let new_origin_x := fsub robot_x (fdiv (getSizeInMetersX (combined_costmap_ lc)) (f_of_Z 2)) in
    let new_origin_y := fsub robot_y (fdiv (getSizeInMetersY (combined_costmap_ lc)) (f_of_Z 2)) in
    primary ← updateOrigin fresh_byte (primary_costmap_ lc) new_origin_x new_origin_y;
    combined ← updateOrigin fresh_byte (combined_costmap_ lc) new_origin_x new_origin_y;
    Some (with_maps lc primary combined)
  else Some lc.

(** One loop over layers that grow the bounds; an illegal change is logged only. *)
Fixpoint updateBounds_all (v : LayeredView) (robot_x robot_y robot_yaw : spec_float) (ls : list L) (b : Bounds) :
    option (list L * Bounds) :=
  match ls with
  | [] => Some ([], b)
  | l :: ls =>
      r ← updateBounds l v robot_x robot_y robot_yaw b;
      rs ← updateBounds_all v robot_x robot_y robot_yaw ls (snd r);
      Some (fst r :: fst rs, snd rs)
  end.

Fixpoint updateCosts_all (v : LayeredView) (ls : list L) (m : Costmap2D) (x0 y0 xn yn : Z) : option (list L * Costmap2D) :=
  match ls with
  | [] => Some ([], m)
  | l :: ls =>
      r ← updateCosts l v m x0 y0 xn yn;
      rs ← updateCosts_all v ls (snd r) x0 y0 xn yn;
      Some (fst r :: fst rs, snd rs)
  end.

(** The cells of the window; [xn + 1] must be an [int]. *)
Definition update_window (m : Costmap2D) (b : Bounds) : option (Z * Z * Z * Z) :=
  p ← worldToMapEnforceBounds m (min_x b) (min_y b);
  q ← worldToMapEnforceBounds m (max_x b) (max_y b);
  _ ← assert_ub ((fst q + 1 <? 2 ^ 31) && (snd q + 1 <? 2 ^ 31));
  Some (Z.max 0 (fst p), Z.min (s32 (size_x_ m)) (fst q + 1),
        Z.max 0 (snd p), Z.min (s32 (size_y_ m)) (snd q + 1)).

Definition DBL_LOWEST : spec_float := S754_finite true (2 ^ 53 - 1) 971.

(** The costs of the window, with or without filters; the exception is the
    failure of [copyWindow]. *)
Definition update_costs (lc : LayeredCostmap L) (x0 y0 xn yn : Z) : option (LayeredCostmap L + string) :=
  match filters_ lc with
  | [] =>
      combined ← resetMap (combined_costmap_ lc) (u32 x0) (u32 y0) (u32 xn) (u32 yn);
      r ← updateCosts_all (view lc) (plugins_ lc) combined x0 y0 xn yn;
      Some (inl (with_layers (with_maps lc (primary_costmap_ lc) (snd r)) (fst r) []))
  | filters =>
      primary ← resetMap (primary_costmap_ lc) (u32 x0) (u32 y0) (u32 xn) (u32 yn);
      r ← updateCosts_all (view lc) (plugins_ lc) primary x0 y0 xn yn;
      let primary := snd r in
      w ← copyWindow (combined_costmap_ lc) primary (u32 x0) (u32 y0) (u32 xn) (u32 yn) (u32 x0) (u32 y0);
      if negb (fst w) then Some (inr "Can not copy costmap"%string)
      else
        f ← updateCosts_all (view lc) filters (snd w) x0 y0 xn yn;
        Some (inl (with_layers (with_maps lc primary (snd f)) (fst r) (fst f)))
  end.

Definition updateMap (lc : LayeredCostmap L) (robot_x robot_y robot_yaw : spec_float) :
    option (LayeredCostmap L + string) :=
  lc ← roll lc robot_x robot_y;
  _ ← isOutofBounds lc robot_x robot_y;
  match plugins_ lc, filters_ lc with
  | [], [] => Some (inl lc)
  | plugins, filters =>
      p ← updateBounds_all (view lc) robot_x robot_y robot_yaw plugins (mkBounds DBL_MAX DBL_MAX DBL_LOWEST DBL_LOWEST);
      f ← updateBounds_all (view lc) robot_x robot_y robot_yaw filters (snd p);
      let lc := with_bounds (with_layers lc (fst p) (fst f)) (snd f) in
      w ← update_window (combined_costmap_ lc) (bounds_ lc);
      let '(x0, xn, y0, yn) := w in
      if (xn <? x0) || (yn <? y0) then Some (inl lc)
      else
        r ← update_costs lc x0 y0 xn yn;
        Some (match r with
              | inl lc => inl (with_window lc (u32 x0) (u32 xn) (u32 y0) (u32 yn))
              | inr e => inr e
              end)
  end.

Definition isCurrent (lc : LayeredCostmap L) : LayeredCostmap L * bool :=
  let current :=
    foldl (fun b l => b && (layer_isCurrent l || negb (layer_isEnabled l))) true (plugins_ lc ++ filters_ lc) in
  (with_current lc current, current).

Definition setFootprint (lc : LayeredCostmap L) (footprint_spec : list Point) : option (LayeredCostmap L) :=
  d ← calculateMinAndMaxDistances hypot footprint_spec;
  let lc := with_footprint lc footprint_spec (fst d) (snd d) in
  plugins ← for_layers (fun l => onFootprintChanged l (view lc)) (plugins_ lc);
  filters ← for_layers (fun l => onFootprintChanged l (view lc)) (filters_ lc);
  Some (with_layers lc plugins filters).
End layered.

(** ** The invariant *)

(** Both master grids are well formed, of the same size, with byte cells, and
    every layer is sized to them. *)
Record layered_ok {L rolling} `{LayerLaws L rolling} (lc : LayeredCostmap L) (cp cc : list Z) : Prop := {
  lo_rolling : rolling_window_ lc = rolling;
  lo_primary : wf_map (primary_costmap_ lc) cp;
  lo_combined : wf_map (combined_costmap_ lc) cc;
  lo_sx : size_x_ (primary_costmap_ lc) = size_x_ (combined_costmap_ lc);
  lo_sy : size_y_ (primary_costmap_ lc) = size_y_ (combined_costmap_ lc);
  lo_bytes_p : Forall is_u8 cp;
  lo_bytes_c : Forall is_u8 cc;
  lo_default_p : is_u8 (default_value_ (primary_costmap_ lc));
  lo_default_c : is_u8 (default_value_ (combined_costmap_ lc));
  lo_plugins : Forall (fun l => layer_fits l (size_x_ (combined_costmap_ lc)) (size_y_ (combined_costmap_ lc)))
                 (plugins_ lc);
  lo_filters : Forall (fun l => layer_fits l (size_x_ (combined_costmap_ lc)) (size_y_ (combined_costmap_ lc)))
                 (filters_ lc);
}.

Lemma grid_bytes (w x y : Z) (c : list Z) v : Forall is_u8 c -> grid_at c w x y = Some v -> is_u8 v.
Proof. intros HF E. eapply Forall_forall; [exact HF | by eapply aget_elem]. Qed.

(** Cells that are all bytes make an array of bytes. *)
Lemma bytes_of_grid m c c' :
  wf_map m c -> alen c' = alen c ->
  (forall x y v, on_map m x y -> grid_at c' (size_x_ m) x y = Some v -> is_u8 v) -> Forall is_u8 c'.
Proof. intros Hw Hl Hg. by apply (grid_Forall is_u8 m c c'). Qed.

(** [resetMap] on a window. *)
Lemma resetMap_window m c x0 y0 xn yn :
  wf_map m c -> Forall is_u8 c -> is_u8 (default_value_ m) -> window_ok m x0 y0 xn yn ->
  exists c', resetMap m (u32 x0) (u32 y0) (u32 xn) (u32 yn) = Some (with_costmap m (Some c')) /\
    alen c' = alen c /\ Forall is_u8 c' /\
    forall x y, on_map m x y -> grid_at c' (size_x_ m) x y
      = if bool_decide (in_window x0 y0 xn yn x y) then Some (default_value_ m)
        else grid_at c (size_x_ m) x y.
Proof.
  intros Hw Hb Hd (?&?&?&?). pose proof Hw as [Hsx Hsy Ha Hc Hl]. unfold resetMap.
  rewrite !u32_small by (unfold is_u32; ilia).
  destruct (resetMapToValue_spec m c x0 y0 xn yn (default_value_ m) Hw) as (c' & -> & Hl' & Hg); [done..|].
  exists c'. split; [done|]. split; [done|]. split; [|done].
  apply (bytes_of_grid m c); [done..|]. intros x y v Hp E. rewrite Hg in E by done.
  case_bool_decide; [by simplify_eq | by eapply grid_bytes].
Qed.

Section layers_laws.
Context {L : Type} {rolling : bool} `{LL : LayerLaws L rolling}.

Lemma updateBounds_all_fits v x y yaw ls sx sy b :
  v_rolling v = rolling -> Forall (fun l => layer_fits l sx sy) ls -> Forall (fun l => layer_ready l v x y yaw) ls ->
  exists ls' b', updateBounds_all v x y yaw ls b = Some (ls', b') /\ Forall (fun l => layer_fits l sx sy) ls' /\
    length ls' = length ls.
Proof.
  intros Hv HF HR. revert b. induction HF as [|l ls Hl _ IH]; intros b; simpl; [by eexists _, _|]. apply Forall_cons in HR as [Hr HR].
  destruct (updateBounds_fits l v sx sy x y yaw b Hv Hl Hr) as (l' & b' & -> & Hl'). mred. simpl.
  destruct (IH HR b') as (ls' & b'' & -> & HF' & Hn). mred. simpl.
  eexists _, _. split; [done|]. split; [by constructor|]. simpl. lia.
Qed.

Lemma updateCosts_all_window v ls m c x0 y0 xn yn :
  v_rolling v = rolling -> Forall (fun l => layer_fits l (size_x_ m) (size_y_ m)) ls ->
  wf_map m c -> Forall is_u8 c -> window_ok m x0 y0 xn yn ->
  exists ls' c', updateCosts_all v ls m x0 y0 xn yn = Some (ls', with_costmap m (Some c')) /\
    alen c' = alen c /\ Forall is_u8 c' /\
    Forall (fun l => layer_fits l (size_x_ m) (size_y_ m)) ls' /\
    forall x y, on_map m x y -> ~ in_window x0 y0 xn yn x y ->
      grid_at c' (size_x_ m) x y = grid_at c (size_x_ m) x y.
Proof.
  intros Hv HF. revert m c HF. induction ls as [|l ls IH]; intros m c HF Hw Hb Hwin; simpl.
  - exists [], c. split; [by destruct m, Hw; simpl in *; subst|]. done.
  - apply Forall_cons in HF as [Hl HF'].
    destruct (updateCosts_window l v m c x0 y0 xn yn Hv Hl Hw Hb Hwin) as (l' & c1 & -> & Hl1 & Hb1 & Hl' & Ho1).
    mred. simpl.
    destruct (IH (with_costmap m (Some c1)) c1 HF' (wf_with_costmap _ _ _ Hw Hl1) Hb1 Hwin)
      as (ls' & c2 & -> & Hl2 & Hb2 & HF2 & Ho2). mred. simpl in *.
    exists (l' :: ls'), c2. split; [done|]. split; [congruence|]. split; [done|].
    split; [by constructor|]. intros x y Hp Hn. rewrite Ho2, Ho1; done.
Qed.

(** ** One update *)

(** The grids after the costs of the window were recomputed. *)
Record updated (lc lc' : LayeredCostmap L) (cp cc cp' cc' : list Z) (x0 y0 xn yn : Z) : Prop := {
  up_ok : layered_ok lc' cp' cc';
  up_outside x y : on_map (combined_costmap_ lc) x y -> ~ in_window x0 y0 xn yn x y ->
    cost_at (primary_costmap_ lc') x y = cost_at (primary_costmap_ lc) x y /\
    cost_at (combined_costmap_ lc') x y = cost_at (combined_costmap_ lc) x y;
  up_plain : filters_ lc = [] ->
    primary_costmap_ lc' = primary_costmap_ lc /\ filters_ lc' = [] /\
    exists start, updateCosts_all (view lc) (plugins_ lc) start x0 y0 xn yn = Some (plugins_ lc', combined_costmap_ lc') /\
      forall x y, on_map (combined_costmap_ lc) x y -> in_window x0 y0 xn yn x y ->
        cost_at start x y = Some (default_value_ (combined_costmap_ lc));
  up_filtered : filters_ lc <> [] ->
    exists start start',
      updateCosts_all (view lc) (plugins_ lc) start x0 y0 xn yn = Some (plugins_ lc', primary_costmap_ lc') /\
      updateCosts_all (view lc) (filters_ lc) start' x0 y0 xn yn = Some (filters_ lc', combined_costmap_ lc') /\
      forall x y, on_map (combined_costmap_ lc) x y -> in_window x0 y0 xn yn x y ->
        cost_at start x y = Some (default_value_ (primary_costmap_ lc)) /\
        cost_at start' x y = cost_at (primary_costmap_ lc') x y;
}.

Lemma update_plain lc cp cc x0 y0 xn yn :
  layered_ok lc cp cc -> window_ok (combined_costmap_ lc) x0 y0 xn yn -> filters_ lc = [] ->
  exists lc' cc', update_costs lc x0 y0 xn yn = Some (inl lc') /\ updated lc lc' cp cc cp cc' x0 y0 xn yn.
Proof.
  intros [] Hwin Hf. unfold update_costs. rewrite Hf.
  destruct (resetMap_window (combined_costmap_ lc) cc x0 y0 xn yn) as (c1 & -> & Hl1 & Hb1 & Hg1); [done..|].
  mred. destruct (updateCosts_all_window (view lc) (plugins_ lc) (with_costmap (combined_costmap_ lc) (Some c1)) c1
    x0 y0 xn yn) as (ls & c2 & E & Hl2 & Hb2 & HF & Ho); [exact lo_rolling0|exact lo_plugins0| |exact Hb1|exact Hwin|].
  { by apply wf_with_costmap with cc. }
  rewrite E. mred. simpl in *. eexists _, c2. split; [done|]. constructor; simpl.
  - constructor; simpl; try done. { apply (wf_with_costmap (combined_costmap_ lc) cc); [done|congruence]. }
  - intros x y Hp Hn. split; [done|]. unfold cost_at. simpl. rewrite (wf_some _ _ lo_combined0). simpl.
    rewrite Ho by done. rewrite Hg1 by done. by rewrite bool_decide_eq_false_2.
  - intros _. split; [done|]. split; [done|]. eexists. split; [exact E|]. intros x y Hp Hin.
    unfold cost_at. simpl. rewrite Hg1 by done. by rewrite bool_decide_eq_true_2.
  - by rewrite Hf.
Qed.

Lemma window_u32 m c x0 y0 xn yn :
  wf_map m c -> window_ok m x0 y0 xn yn -> u32 x0 = x0 /\ u32 y0 = y0 /\ u32 xn = xn /\ u32 yn = yn.
Proof.
  intros [] (?&?&?&?). rewrite !u32_small by (unfold is_u32; ilia). done.
Qed.

Lemma update_filtered lc cp cc x0 y0 xn yn :
  layered_ok lc cp cc -> window_ok (combined_costmap_ lc) x0 y0 xn yn -> filters_ lc <> [] ->
  exists lc' cp' cc', update_costs lc x0 y0 xn yn = Some (inl lc') /\
    updated lc lc' cp cc cp' cc' x0 y0 xn yn.
Proof.
  intros [] Hwin Hf. set (mp := primary_costmap_ lc) in *. set (mc := combined_costmap_ lc) in *.
  assert (window_ok mp x0 y0 xn yn) as Hwp by (unfold window_ok in *; lia).
  unfold update_costs. destruct (filters_ lc) as [|f0 fs] eqn:Ef; [done|]. rewrite <- Ef in *. fold mp mc.
  destruct (resetMap_window mp cp x0 y0 xn yn) as (c1 & -> & Hl1 & Hb1 & Hg1); [done..|]. mred.
  assert (wf_map (with_costmap mp (Some c1)) c1) as Hw1 by (by apply wf_with_costmap with cp).
  destruct (updateCosts_all_window (view lc) (plugins_ lc) (with_costmap mp (Some c1)) c1 x0 y0 xn yn)
    as (ls & c2 & E2 & Hl2 & Hb2 & HF2 & Ho2); [exact lo_rolling0| |exact Hw1|exact Hb1|exact Hwp|].
  { simpl. by rewrite lo_sx0, lo_sy0. }
  rewrite E2. mred. simpl in *.
  assert (wf_map (with_costmap mp (Some c2)) c2) as Hw2 by (apply (wf_with_costmap mp cp); [done|congruence]).
  destruct (window_u32 mc cc x0 y0 xn yn lo_combined0 Hwin) as (-> & -> & -> & ->).
  pose proof Hwin as (?&?&?&?). pose proof Hwp as (?&?&?&?).
  destruct (copyWindow_spec mc (with_costmap mp (Some c2)) cc c2 x0 y0 xn yn x0 y0)
    as (c3 & E3 & Hl3 & Hg3); [done|done|simpl; lia..|].
  change (with_costmap (with_costmap mp (Some c1)) (Some c2)) with (with_costmap mp (Some c2)) in *.
  rewrite E3. mred. simpl.
  assert (Forall is_u8 c3) as Hb3.
  { apply (bytes_of_grid mc cc); [done..|]. intros x y v Hp E. rewrite Hg3 in E by done.
    case_bool_decide; (eapply grid_bytes; [|exact E]); done. }
  assert (wf_map (with_costmap mc (Some c3)) c3) as Hw3 by (by apply wf_with_costmap with cc).
  destruct (updateCosts_all_window (view lc) (filters_ lc) (with_costmap mc (Some c3)) c3 x0 y0 xn yn)
    as (ls' & c4 & E4 & Hl4 & Hb4 & HF4 & Ho4); [exact lo_rolling0|exact lo_filters0|exact Hw3|exact Hb3|exact Hwin|].
  rewrite E4. mred. simpl in *. eexists _, c2, c4. split; [done|]. constructor; simpl.
  - constructor; simpl; try done; [apply (wf_with_costmap mc cc); [done|congruence]|].
    by rewrite <- lo_sx0, <- lo_sy0.
  - intros x y Hp Hn. unfold cost_at. simpl. fold mp mc.
    rewrite (wf_some _ _ lo_primary0), (wf_some _ _ lo_combined0). simpl.
    assert (on_map mp x y) as Hpp by (unfold on_map in *; by rewrite lo_sx0, lo_sy0).
    rewrite Ho2, Hg1, bool_decide_eq_false_2 by done. split; [done|].
    rewrite Ho4, Hg3, bool_decide_eq_false_2; [done| |done..]. unfold in_window in Hn. lia.
  - intros Hn. by rewrite Hn in Ef.
  - intros _. eexists _, _. split; [exact E2|]. split; [exact E4|]. intros x y Hp Hin. unfold cost_at. simpl.
    assert (on_map mp x y) as Hpp by (unfold on_map in *; by rewrite lo_sx0, lo_sy0).
    rewrite Hg1, bool_decide_eq_true_2 by done. split; [done|].
    rewrite Hg3, bool_decide_eq_true_2; [|unfold in_window in Hin; lia|done]. f_equal; lia.
Qed.

Lemma update_costs_ok lc cp cc x0 y0 xn yn :
  layered_ok lc cp cc -> window_ok (combined_costmap_ lc) x0 y0 xn yn ->
  exists lc' cp' cc', update_costs lc x0 y0 xn yn = Some (inl lc') /\
    updated lc lc' cp cc cp' cc' x0 y0 xn yn.
Proof.
  intros Hok Hwin. destruct (filters_ lc) as [|f fs] eqn:E.
  - destruct (update_plain lc cp cc x0 y0 xn yn Hok Hwin E) as (lc' & cc' & ? & ?). by exists lc', cp, cc'.
  - apply update_filtered; [done..|]. by rewrite E.
Qed.

(** An [updateOrigin] that is defined keeps the map well formed. *)
Lemma updateOrigin_wf fresh_byte m c ox oy m' :
  wf_map m c -> Forall is_u8 c -> is_u8 (default_value_ m) -> updateOrigin fresh_byte m ox oy = Some m' ->
  exists c', wf_map m' c' /\ Forall is_u8 c' /\ size_x_ m' = size_x_ m /\ size_y_ m' = size_y_ m /\
    default_value_ m' = default_value_ m.
Proof.
  intros Hw Hb Hd E. pose proof Hw as [Hsx Hsy Ha Hc Hl]. pose proof E as E0. unfold updateOrigin in E0.
  destruct (f_to_s32 (fdiv (fsub ox _) _)) as [cx|] eqn:Ex; [|done]. rewrite mbind_Some in E0.
  destruct (f_to_s32 (fdiv (fsub oy _) _)) as [cy|] eqn:Ey; [|done]. rewrite mbind_Some in E0. cbv zeta in E0.
  rewrite (s32_small (size_x_ m)), (s32_small (size_y_ m)) in E0 by (unfold is_s32; ilia).
  destruct (assert_ub (_ && (cx + _ <? _))) eqn:A1; [|done]. rewrite mbind_Some in E0.
  destruct (assert_ub (_ && (cy + _ <? _))) eqn:A2; [|done]. clear E0.
  unfold assert_ub in A1, A2. destruct (_ && (cx + _ <? _)) eqn:B1; [|done].
  destruct (_ && (cy + _ <? _)) eqn:B2; [|done]. clear A1 A2. zbool.
  destruct (updateOrigin_spec fresh_byte m c ox oy cx cy Hw Ex Ey) as (c' & E' & Hl' & Hg); [done..|].
  rewrite E in E'. injection E' as ->. exists c'. split; [constructor; simpl; done || congruence|].
  split; [|done]. apply (bytes_of_grid m c); [done..|]. intros x y v Hp Ev. rewrite Hg in Ev by done.
  case_bool_decide; [by eapply grid_bytes | by simplify_eq].
Qed.

Lemma roll_ok fresh_byte lc cp cc x y lc1 :
  layered_ok lc cp cc -> roll fresh_byte lc x y = Some lc1 ->
  exists cp1 cc1, layered_ok lc1 cp1 cc1 /\ plugins_ lc1 = plugins_ lc /\ filters_ lc1 = filters_ lc.
Proof.
  intros Hok. pose proof Hok as []. unfold roll.
  destruct (rolling_window_ lc) eqn:Er; [|intros [= <-]; by exists cp, cc].
  destruct (updateOrigin _ (primary_costmap_ lc) _ _) as [mp|] eqn:Ep; [|done]. mred.
  destruct (updateOrigin _ (combined_costmap_ lc) _ _) as [mc|] eqn:Ec; [|done]. mred. intros [= <-].
  destruct (updateOrigin_wf _ _ cp _ _ _ lo_primary0 lo_bytes_p0 lo_default_p0 Ep) as (cp1 & ? & ? & Hx & Hy & Hd).
  destruct (updateOrigin_wf _ _ cc _ _ _ lo_combined0 lo_bytes_c0 lo_default_c0 Ec) as (cc1 & ? & ? & Hx' & Hy' & Hd').
  exists cp1, cc1. split; [|done].
  constructor; simpl; rewrite ?Hx, ?Hy, ?Hx', ?Hy', ?Hd, ?Hd'; congruence || done.
Qed.

(** The window of an update lies in the map. *)
Lemma update_window_ok m c b x0 xn y0 yn :
  wf_map m c -> update_window m b = Some (x0, xn, y0, yn) -> x0 <= xn -> y0 <= yn ->
  window_ok m x0 y0 xn yn.
Proof.
  intros [] E Hx Hy. unfold update_window in E.
  destruct (worldToMapEnforceBounds m (min_x b) _) as [p|]; [|done]. rewrite mbind_Some in E.
  destruct (worldToMapEnforceBounds m (max_x b) _) as [q|]; [|done]. rewrite mbind_Some in E.
  destruct (assert_ub _); [|done]. rewrite mbind_Some in E. injection E as <- <- <- <-.
  rewrite !s32_small in * by (unfold is_s32; ilia). unfold window_ok. lia.
Qed.

(** What one [updateMap] computes before the costs: the moved origin, the
    layers, ready for the pose, and bounds after every [updateBounds], and the
    window. *)
Record update_plan (fresh_byte : Z -> Z) (lc lc1 : LayeredCostmap L) (x y yaw : spec_float) (x0 xn y0 yn : Z) :
    Prop := {
  plan_layers : plugins_ lc <> [] \/ filters_ lc <> [];
  plan_defined : exists lc0 b ps fs b1,
    roll fresh_byte lc x y = Some lc0 /\ isOutofBounds lc0 x y = Some b /\
    Forall (fun l => layer_ready l (view lc0) x y yaw) (plugins_ lc0 ++ filters_ lc0) /\
    updateBounds_all (view lc0) x y yaw (plugins_ lc0) (mkBounds DBL_MAX DBL_MAX DBL_LOWEST DBL_LOWEST) = Some (ps, b1) /\
    updateBounds_all (view lc0) x y yaw (filters_ lc0) b1 = Some (fs, bounds_ lc1) /\
    lc1 = with_bounds (with_layers lc0 ps fs) (bounds_ lc1) /\
    update_window (combined_costmap_ lc1) (bounds_ lc1) = Some (x0, xn, y0, yn);
}.

Lemma updateMap_run fresh_byte lc cp cc lc1 x y yaw x0 xn y0 yn :
  layered_ok lc cp cc -> update_plan fresh_byte lc lc1 x y yaw x0 xn y0 yn ->
  (exists cp1 cc1, layered_ok lc1 cp1 cc1) /\
  updateMap fresh_byte lc x y yaw =
    if (xn <? x0) || (yn <? y0) then Some (inl lc1)
    else r ← update_costs lc1 x0 y0 xn yn;
         Some (match r with
               | inl lc => inl (with_window lc (u32 x0) (u32 xn) (u32 y0) (u32 yn)) | inr e => inr e end).
Proof.
  intros Hok [Hne (lc0 & b & ps & fs & b1 & Er & Eo & Hready & Ep & Ef & Elc & Ew)]. apply Forall_app in Hready as [HRp HRf].
  destruct (roll_ok _ _ _ _ _ _ _ Hok Er) as (cp1 & cc1 & Hok0 & Hpl & Hfl). split.
  - exists cp1, cc1. destruct Hok0.
    destruct (updateBounds_all_fits (view lc0) x y yaw (plugins_ lc0) _ _ (mkBounds DBL_MAX DBL_MAX DBL_LOWEST DBL_LOWEST)
      lo_rolling0 lo_plugins0 HRp) as (ps' & b' & Ep' & HFp & _).
    destruct (updateBounds_all_fits (view lc0) x y yaw (filters_ lc0) _ _ b1 lo_rolling0 lo_filters0 HRf) as (fs' & b'' & Ef' & HFf & _).
    rewrite Ep in Ep'. rewrite Ef in Ef'. simplify_eq. rewrite Elc. constructor; done.
  - unfold updateMap. rewrite Er. mred. rewrite Eo. mred. rewrite Hpl, Hfl in *.
    destruct (plugins_ lc) as [|p0 pl] eqn:E1, (filters_ lc) as [|f0 fl] eqn:E2; [by destruct Hne|..];
      rewrite Ep; mred; simpl snd; rewrite Ef; mred; simpl fst; simpl snd; rewrite <- Elc, Ew; mred; done.
Qed.

(** C27. One [updateMap] of a well-formed layered costmap ends normally. The
    bounds of the layers give a window of the map; the cells outside it keep
    their cost in both grids. Without filters the plugins are merged into the
    window of the combined grid reset to the default cost, the primary grid
    being left alone. With filters the plugins are merged into the primary grid
    reset to the default cost, and the filters into a copy of that result in
    the combined grid, so that nothing the filters write reaches the grid the
    plugins work on. *)
Theorem updateMap_stages (fresh_byte : Z -> Z) (lc lc1 : LayeredCostmap L) (cp cc : list Z)
    (x y yaw : spec_float) (x0 xn y0 yn : Z) :
  layered_ok lc cp cc -> update_plan fresh_byte lc lc1 x y yaw x0 xn y0 yn ->
  (x0 <= xn /\ y0 <= yn -> exists lc2 cp1 cc1 cp' cc',
     updateMap fresh_byte lc x y yaw = Some (inl (with_window lc2 x0 xn y0 yn)) /\
     window_ok (combined_costmap_ lc1) x0 y0 xn yn /\ updated lc1 lc2 cp1 cc1 cp' cc' x0 y0 xn yn) /\
  (xn < x0 \/ yn < y0 ->
     updateMap fresh_byte lc x y yaw = Some (inl lc1) /\ exists cp1 cc1, layered_ok lc1 cp1 cc1).
Proof.
  intros Hok Hplan. destruct (updateMap_run _ _ _ _ _ _ _ _ _ _ _ _ Hok Hplan) as ((cp1 & cc1 & Hok1) & ->).
  destruct Hplan as [_ (_ & _ & _ & _ & _ & _ & _ & _ & _ & _ & _ & Ew)]. split.
  - intros [Hx Hy]. pose proof (update_window_ok _ cc1 _ _ _ _ _ (lo_combined _ _ _ Hok1) Ew Hx Hy) as Hwin.
    rewrite (proj2 (Z.ltb_ge xn x0)), (proj2 (Z.ltb_ge yn y0)) by lia. cbn [orb].
    destruct (update_costs_ok lc1 cp1 cc1 x0 y0 xn yn Hok1 Hwin) as (lc2 & cp' & cc' & -> & Hup). mred.
    destruct (window_u32 _ _ _ _ _ _ (lo_combined _ _ _ Hok1) Hwin) as (-> & -> & -> & ->).
    by exists lc2, cp1, cc1, cp', cc'.
  - intros Hlt. replace ((xn <? x0) || (yn <? y0)) with true by (symmetry; zbool; lia).
    split; [done|]. by exists cp1, cc1.
Qed.

(** A resized map is filled with its default cost. *)
Lemma resizeMap_cells fresh_byte m sx sy res ox oy :
  0 <= sx < 2 ^ 31 -> 0 <= sy < 2 ^ 31 -> sx * sy <= 2 ^ 31 -> is_u8 (default_value_ m) ->
  exists m' c', Costmap2D.resizeMap fresh_byte m sx sy res ox oy = Some m' /\ wf_map m' c' /\
    Forall is_u8 c' /\ size_x_ m' = sx /\ size_y_ m' = sy /\ default_value_ m' = default_value_ m /\
    forall x y, on_map m' x y -> cost_at m' x y = Some (default_value_ m).
Proof.
  intros Hx Hy Ha Hd. unfold Costmap2D.resizeMap.
  match goal with |- context [resetMaps ?a] => set (m1 := a) end.
  assert (wf_map m1 (fresh fresh_byte (sx * sy))) as Hw1.
  { constructor; simpl; try done; [|rewrite alen_fresh; nia].
    by rewrite u32_small by (unfold is_u32; ilia; nia). }
  destruct (resetMaps_spec m1 _ Hw1) as (c' & -> & Hl & Hg). eexists _, c'. split; [done|].
  split; [by apply wf_with_costmap with (fresh fresh_byte (sx * sy))|].
  split; [|by repeat (split; [done|])].
  apply (bytes_of_grid m1 _ _ Hw1 Hl). intros x y v Hp E. rewrite Hg in E by done. by simplify_eq.
Qed.

Lemma resizeMap_resolution fresh_byte m sx sy res ox oy m' : Costmap2D.resizeMap fresh_byte m sx sy res ox oy = Some m' -> resolution_ m' = res.
Proof.
  unfold Costmap2D.resizeMap, resetMaps, initMaps. cbn [costmap_ with_costmap]. mred. destruct (memset _ _ _ _); [|done]. mred. by intros [= <-].
Qed.

Lemma for_layers_match v c ls :
  v_rolling v = rolling -> wf_map (v_master v) c -> is_u8 (default_value_ (v_master v)) ->
  Forall (fun l => layer_inv l (resolution_ (v_master v)) (size_x_ (v_master v)) (size_y_ (v_master v))) ls ->
  exists ls', for_layers (fun l => layer_matchSize l v) ls = Some ls' /\
    Forall (fun l => layer_fits l (size_x_ (v_master v)) (size_y_ (v_master v))) ls'.
Proof.
  intros Hv Hw Hd. induction 1 as [|l ls Hl _ (ls' & E & HF)]; simpl; [by exists []|].
  destruct (matchSize_fits l v c Hv Hl Hw Hd) as (l' & -> & Hfit). mred. rewrite E. mred.
  eexists. split; [done|]. by constructor.
Qed.

(** [resizeMap] establishes the invariant of the layered costmap whatever
    the grids were, for layers in a proper state: both grids get the size, every cell the default cost, and
    every plugin and filter is sized to them. *)
Theorem resizeMap_establishes (fresh_byte : Z -> Z) (lc : LayeredCostmap L) (sx sy : Z)
    (res ox oy : spec_float) (size_locked : bool) :
  0 <= sx < 2 ^ 31 -> 0 <= sy < 2 ^ 31 -> sx * sy <= 2 ^ 31 ->
  is_u8 (default_value_ (primary_costmap_ lc)) -> is_u8 (default_value_ (combined_costmap_ lc)) ->
  rolling_window_ lc = rolling -> Forall (fun l => layer_inv l res sx sy) (plugins_ lc) -> Forall (fun l => layer_inv l res sx sy) (filters_ lc) ->
  exists lc' cp cc, resizeMap fresh_byte lc sx sy res ox oy size_locked = Some lc' /\ layered_ok lc' cp cc /\
    size_x_ (combined_costmap_ lc') = sx /\ size_y_ (combined_costmap_ lc') = sy /\
    size_locked_ lc' = size_locked /\
    forall x y, 0 <= x < sx -> 0 <= y < sy ->
      cost_at (primary_costmap_ lc') x y = Some (default_value_ (primary_costmap_ lc)) /\
      cost_at (combined_costmap_ lc') x y = Some (default_value_ (combined_costmap_ lc)).
Proof.
  intros Hx Hy Ha Hdp Hdc Hro Hip Hif. unfold resizeMap. simpl.
  destruct (resizeMap_cells fresh_byte (primary_costmap_ lc) sx sy res ox oy) as (mp & cp & -> & Hwp & Hbp & Ep1 & Ep2 & Ep3 & Hgp); [done..|].
  destruct (resizeMap_cells fresh_byte (combined_costmap_ lc) sx sy res ox oy) as (mc & cc & Emc & Hwc & Hbc & Ec1 & Ec2 & Ec3 & Hgc); [done..|]. rewrite Emc. apply resizeMap_resolution in Emc as Eres.
  mred. match goal with |- context [for_layers (fun l => layer_matchSize l ?w) _] => set (v := w) end.
  assert (is_u8 (default_value_ (v_master v))) as Hdv by (simpl; congruence).
  change (resolution_ mc) with (resolution_ (v_master v)) in Eres. rewrite <- Eres in Hip, Hif. rewrite <- Ec1, <- Ec2 in Hip, Hif.
  destruct (for_layers_match v cc (plugins_ lc) Hro Hwc Hdv Hip) as (ps & -> & HFp). mred.
  destruct (for_layers_match v cc (filters_ lc) Hro Hwc Hdv Hif) as (fs & -> & HFf). mred.
  eexists _, cp, cc. split; [done|]. split; [constructor; simpl; done || congruence|].
  do 3 (split; [done|]). intros x y Hpx Hpy.
  split; [apply Hgp | apply Hgc]; unfold on_map; rewrite ?Ep1, ?Ep2, ?Ec1, ?Ec2; done.
Qed.

Lemma for_layers_footprint v sx sy ls : Forall (fun l => layer_fits l sx sy) ls -> Forall (fun l => layer_footprint l v) ls ->
  exists ls', for_layers (fun l => onFootprintChanged l v) ls = Some ls' /\ Forall (fun l => layer_fits l sx sy) ls'.
Proof.
  induction 1 as [|l ls Hl _ IH]; intros Hf; simpl; [by exists []|]. apply Forall_cons in Hf as [Hfl Hf]. destruct (footprint_fits l v sx sy Hl Hfl) as (l' & -> & Hl'). mred.
  destruct (IH Hf) as (ls' & -> & Hls). mred. eexists. split; [done|]. by constructor.
Qed.

(** A new footprint keeps the invariant of the layered costmap, when the
    layers can work with it. *)
Lemma setFootprint_ok hypot (lc : LayeredCostmap L) cp cc footprint_spec d :
  layered_ok lc cp cc -> calculateMinAndMaxDistances hypot footprint_spec = Some d ->
  let v := view (with_footprint lc footprint_spec (fst d) (snd d)) in
  Forall (fun l => layer_footprint l v) (plugins_ lc) -> Forall (fun l => layer_footprint l v) (filters_ lc) ->
  exists lc', setFootprint hypot lc footprint_spec = Some lc' /\ layered_ok lc' cp cc /\ footprint_ lc' = footprint_spec.
Proof.
  intros [] E v Hp Hf. unfold setFootprint. rewrite E. mred. fold v. cbn [plugins_ filters_ with_footprint].
  destruct (for_layers_footprint v _ _ _ lo_plugins0 Hp) as (ps & -> & Hps). mred. destruct (for_layers_footprint v _ _ _ lo_filters0 Hf) as (fs & -> & Hfs). mred.
  eexists. split; [done|]. split; [by constructor|done].
Qed.
End layers_laws.

(** ** Layers of two classes in one costmap *)

Section two_classes.
Context {A B : Type} {rolling : bool} `{LA : LayerLaws A rolling} `{LB : LayerLaws B rolling}.

Definition inl_fst {X Y Z} (r : option (X * Z)) : option ((X + Y) * Z) := p ← r; Some (inl (fst p), snd p).
Definition inr_fst {X Y Z} (r : option (Y * Z)) : option ((X + Y) * Z) := p ← r; Some (inr (fst p), snd p).

#[local] Instance sum_ops : LayerOps (A + B) := {
  updateBounds l v x y yaw b := match l with inl l => inl_fst (updateBounds l v x y yaw b) | inr l => inr_fst (updateBounds l v x y yaw b) end;
  updateCosts l v m min_i min_j max_i max_j :=
    match l with inl l => inl_fst (updateCosts l v m min_i min_j max_i max_j) | inr l => inr_fst (updateCosts l v m min_i min_j max_i max_j) end;
  layer_matchSize l v := match l with inl l => inl <$> layer_matchSize l v | inr l => inr <$> layer_matchSize l v end;
  onFootprintChanged l v := match l with inl l => inl <$> onFootprintChanged l v | inr l => inr <$> onFootprintChanged l v end;
  layer_isCurrent l := match l with inl l => layer_isCurrent l | inr l => layer_isCurrent l end;
  layer_isEnabled l := match l with inl l => layer_isEnabled l | inr l => layer_isEnabled l end;
}.

#[local] Instance sum_laws : LayerLaws (A + B) rolling.
Proof.
  refine {| layer_inv l := match l with inl l => layer_inv l | inr l => layer_inv l end;
    layer_footprint l := match l with inl l => layer_footprint l | inr l => layer_footprint l end;
    layer_fits l := match l with inl l => layer_fits l | inr l => layer_fits l end;
    layer_ready l := match l with inl l => layer_ready l | inr l => layer_ready l end |}.
  - intros [l|l] v sx sy x y yaw b Hv Hf Hr; cbn; destruct (updateBounds_fits l v sx sy x y yaw b Hv Hf Hr) as (l' & b' & -> & Hl'); by eexists _, b'.
  - intros [l|l] v m c i0 j0 i1 j1 Hv Hf Hw Hb Hwin; cbn; destruct (updateCosts_window l v m c i0 j0 i1 j1 Hv Hf Hw Hb Hwin) as (l' & c' & -> & ?); by eexists _, c'.
  - intros [l|l] v c Hv Hi Hw Hd; cbn; destruct (matchSize_fits l v c Hv Hi Hw Hd) as (l' & -> & Hl'); by eexists.
  - intros [l|l] v sx sy Hf Hp; cbn; destruct (footprint_fits l v sx sy Hf Hp) as (l' & -> & Hl'); by eexists.
Defined.
End two_classes.
