(* ===== verification/ObservationBuffer.v ===== *)
(** The observations of the sensors and their buffers (observation.hpp,
    observation_buffer.cpp). *)

From stdpp Require Import strings.
From S2P Require Import Prelude Floats Footprint.

(** ** The data *)

(** A PointCloud2 read through its iterators: the fields x, y and z of each
    point are single precision. Times and durations are nanoseconds. *)
Record PointCloud2 := mkCloud { cloud_stamp : Z; cloud_frame : string; cloud_points : list Point }.

Record Observation := mkObservation {
  origin_ : Point;
  cloud_ : PointCloud2;
  obstacle_max_range_ : spec_float;
  obstacle_min_range_ : spec_float;
  raytrace_max_range_ : spec_float;
  raytrace_min_range_ : spec_float;
}.

Definition point_zero : Point := mkPoint f_zero f_zero f_zero.
Definition Observation_empty : Observation := mkObservation point_zero (mkCloud 0 "" []) f_zero f_zero f_zero f_zero.

Record ObservationBuffer := mkObservationBuffer {
  observation_keep_time_ : Z;
  expected_update_rate_ : Z;
  last_updated_ : Z;
  buffer_global_frame_ : string;
  sensor_frame_ : string;
  observation_list_ : list Observation;
  topic_name_ : string;
  buffer_min_obstacle_height_ : spec_float;
  buffer_max_obstacle_height_ : spec_float;
  buffer_obstacle_max_range_ : spec_float;
  buffer_obstacle_min_range_ : spec_float;
  buffer_raytrace_max_range_ : spec_float;
  buffer_raytrace_min_range_ : spec_float;
  tf_tolerance_ : Z;
}.

Definition set_observations (b : ObservationBuffer) (l : list Observation) : ObservationBuffer :=
  mkObservationBuffer (observation_keep_time_ b) (expected_update_rate_ b) (last_updated_ b) (buffer_global_frame_ b) (sensor_frame_ b) l (topic_name_ b)
    (buffer_min_obstacle_height_ b) (buffer_max_obstacle_height_ b) (buffer_obstacle_max_range_ b) (buffer_obstacle_min_range_ b)
    (buffer_raytrace_max_range_ b) (buffer_raytrace_min_range_ b) (tf_tolerance_ b).
Definition set_last_updated (b : ObservationBuffer) (t : Z) : ObservationBuffer :=
  mkObservationBuffer (observation_keep_time_ b) (expected_update_rate_ b) t (buffer_global_frame_ b) (sensor_frame_ b) (observation_list_ b) (topic_name_ b)
    (buffer_min_obstacle_height_ b) (buffer_max_obstacle_height_ b) (buffer_obstacle_max_range_ b) (buffer_obstacle_min_range_ b)
    (buffer_raytrace_max_range_ b) (buffer_raytrace_min_range_ b) (tf_tolerance_ b).

(** The transforms of tf2, for a stamp, the frame of the data, the target frame
    and the tolerance; none when they throw a TransformException. *)
Record Tf := mkTf {
  transform_point : Point -> Z -> string -> string -> Z -> option Point;
  transform_cloud : PointCloud2 -> string -> Z -> option PointCloud2;
}.

(** ** The operations *)

Section clock.
(** The successive readings of the clock: an operation gets the number of the
    next reading and returns that of the first one it has not made. *)
Context (now : nat -> Z).

(** [from_seconds] is that of rclcpp. *)
Definition ObservationBuffer_new (from_seconds : spec_float -> Z) (t : nat) (topic_name : string) (observation_keep_time expected_update_rate
    min_obstacle_height max_obstacle_height obstacle_max_range obstacle_min_range raytrace_max_range raytrace_min_range : spec_float)
    (global_frame sensor_frame : string) (tf_tolerance : Z) : nat * ObservationBuffer :=
  (S t, mkObservationBuffer (from_seconds observation_keep_time) (from_seconds expected_update_rate) (now t) global_frame sensor_frame [] topic_name
          min_obstacle_height max_obstacle_height obstacle_max_range obstacle_min_range raytrace_max_range raytrace_min_range tf_tolerance).

(** The list up to the first observation that is out of date. *)
Fixpoint drop_stale (keep_time : Z) (t : nat) (l : list Observation) : nat * list Observation :=
  match l with
  | [] => (t, [])
  | obs :: l =>
      if keep_time <? now t - cloud_stamp (cloud_ obs) then (S t, [])
      else let '(t, l) := drop_stale keep_time (S t) l in (t, obs :: l)
  end.

Definition purgeStaleObservations (t : nat) (b : ObservationBuffer) : nat * ObservationBuffer :=
  match observation_list_ b with
  | [] => (t, b)
  | obs :: _ =>
      if observation_keep_time_ b =? 0 then (t, set_observations b [obs])
      else let '(t, l) := drop_stale (observation_keep_time_ b) t (observation_list_ b) in (t, set_observations b l)
  end.

Definition within_heights (b : ObservationBuffer) (p : Point) : bool :=
  fle (f_of_s (pz p)) (buffer_max_obstacle_height_ b) && fge (f_of_s (pz p)) (buffer_min_obstacle_height_ b).

(** The observation a cloud gives; none when a transform throws. *)
Definition observe (tf : Tf) (b : ObservationBuffer) (cloud : PointCloud2) : option Observation :=
  let origin_frame := if String.eqb (sensor_frame_ b) "" then cloud_frame cloud else sensor_frame_ b in
  origin ← transform_point tf point_zero (cloud_stamp cloud) origin_frame (buffer_global_frame_ b) (tf_tolerance_ b);
  global_frame_cloud ← transform_cloud tf cloud (buffer_global_frame_ b) (tf_tolerance_ b);
  Some (mkObservation origin
          (mkCloud (cloud_stamp cloud) (cloud_frame global_frame_cloud) (List.filter (within_heights b) (cloud_points global_frame_cloud)))
          (buffer_obstacle_max_range_ b) (buffer_obstacle_min_range_ b) (buffer_raytrace_max_range_ b) (buffer_raytrace_min_range_ b)).

Definition bufferCloud (tf : Tf) (t : nat) (b : ObservationBuffer) (cloud : PointCloud2) : nat * ObservationBuffer :=
  let b := set_observations b (Observation_empty :: observation_list_ b) in
  match observe tf b cloud with
  | None => (t, set_observations b (tail (observation_list_ b)))
  | Some obs =>
      let b := set_observations b (obs :: tail (observation_list_ b)) in
      purgeStaleObservations (S t) (set_last_updated b (now t))
  end.

(** Appends to the observations it is given. *)
Definition getObservations (t : nat) (b : ObservationBuffer) (observations : list Observation) : nat * ObservationBuffer * list Observation :=
  let '(t, b) := purgeStaleObservations t b in (t, b, observations ++ observation_list_ b).

(** The warning about a buffer that is not current reads the clock once more. *)
Definition isCurrent (t : nat) (b : ObservationBuffer) : nat * bool :=
  if expected_update_rate_ b =? 0 then (t, true)
  else
    let current := now t - last_updated_ b <=? expected_update_rate_ b in
    (if current then S t else S (S t), current).

Definition resetLastUpdated (t : nat) (b : ObservationBuffer) : nat * ObservationBuffer := (S t, set_last_updated b (now t)).

(** ** What a buffer keeps *)

(** Out of date at a reading. *)
Definition stale_at (keep_time : Z) (obs : Observation) (i : nat) : Prop := keep_time < now i - cloud_stamp (cloud_ obs).

Lemma drop_stale_prefix keep t l :
  exists n, snd (drop_stale keep t l) = take n l /\
    (forall i obs, l !! i = Some obs -> (i < n)%nat -> ~ stale_at keep obs (t + i)) /\
    (forall obs, l !! n = Some obs -> stale_at keep obs (t + n)) /\ (n <= length l)%nat.
Proof.
  revert t. induction l as [|o l IH]; intros t; cbn [drop_stale].
  - exists 0%nat. split; [done|]. split; [intros i obs Hi; by rewrite lookup_nil in Hi|]. split; [done|cbn; lia].
  - destruct (Z.ltb_spec keep (now t - cloud_stamp (cloud_ o))) as [Hs|Hf].
    + exists 0%nat. split; [done|]. split; [intros; lia|]. split; [|cbn; lia]. intros obs [= <-]. unfold stale_at. by rewrite Nat.add_0_r.
    + destruct (IH (S t)) as (n & E & Hk & Hd & Hn). destruct (drop_stale keep (S t) l) as [t' l'] eqn:El. cbn [snd] in *. exists (S n). split; [by rewrite E|]. split; [|split; [|cbn; lia]].
      * intros [|i] obs Hi Hlt; cbn in Hi; [injection Hi as <-; unfold stale_at; rewrite Nat.add_0_r; lia|]. replace (t + S i)%nat with (S t + i)%nat by lia. apply (Hk i obs Hi). lia.
      * intros obs Hi. cbn in Hi. replace (t + S n)%nat with (S t + n)%nat by lia. by apply Hd.
Qed.

(** What a purge keeps: the newest observation when observations are not to be
    kept, otherwise those before the first one out of date. *)
Definition purged (t : nat) (b : ObservationBuffer) (l kept : list Observation) : Prop :=
  if observation_keep_time_ b =? 0 then kept = take 1 l
  else exists n, kept = take n l /\ (n <= length l)%nat /\
    (forall i obs, l !! i = Some obs -> (i < n)%nat -> ~ stale_at (observation_keep_time_ b) obs (t + i)) /\
    (forall obs, l !! n = Some obs -> stale_at (observation_keep_time_ b) obs (t + n)).

Lemma purge_spec t b : exists kept, snd (purgeStaleObservations t b) = set_observations b kept /\ purged t b (observation_list_ b) kept.
Proof.
  unfold purgeStaleObservations, purged. destruct (observation_list_ b) as [|o l] eqn:El.
  - exists []. split; [destruct b; cbn in *; by subst|]. destruct (_ =? 0); [done|]. exists 0%nat. split; [done|]. split; [cbn; lia|]. split; [intros; lia|done].
  - destruct (_ =? 0); [by exists [o]|]. destruct (drop_stale_prefix (observation_keep_time_ b) t (o :: l)) as (n & E & Hk & Hd & Hn).
    destruct (drop_stale _ t (o :: l)) as [t' l']. cbn [snd] in *. exists l'. split; [done|]. by exists n.
Qed.

Lemma purged_sublist t b l kept : purged t b l kept -> exists n, kept = take n l.
Proof. unfold purged. destruct (_ =? 0); [by exists 1%nat|]. intros (n & -> & _). by exists n. Qed.
End clock.

(** ** Examples *)

Definition still_tf : Tf := mkTf (fun p _ _ _ _ => Some p) (fun c _ _ => Some c).
Definition example_buffer : ObservationBuffer :=
  mkObservationBuffer 100 0 0 "map" "" [] "scan" f_zero (f_of_Z 2) (f_of_Z 3) f_zero (f_of_Z 3) f_zero 0.
Definition cloud_at (stamp : Z) (points : list (Z * Z)) : PointCloud2 := mkCloud stamp "map" ((fun p => mkPoint (s_of_Z (fst p)) (s_of_Z (snd p)) (s_of_Z 1)) <$> points).

(** C40. A cloud that arrives late takes the newer ones with it: when the cloud that
    is buffered is out of date as it is purged, nothing is left in the buffer,
    whatever it held, although the buffer counts as just updated. *)
Theorem late_cloud_empties_buffer (now : nat -> Z) tf t b cloud obs :
  observation_keep_time_ b <> 0 -> observe tf b cloud = Some obs ->
  observation_keep_time_ b < now (S t) - cloud_stamp cloud ->
  snd (bufferCloud now tf t b cloud) = set_observations (set_last_updated b (now t)) [].
Proof.
  intros Hk Ho Hlate. unfold bufferCloud. cbv zeta.
  assert (E : observe tf (set_observations b (Observation_empty :: observation_list_ b)) cloud = Some obs) by exact Ho. rewrite E.
  assert (Es : cloud_stamp (cloud_ obs) = cloud_stamp cloud). { unfold observe in Ho. destruct (transform_point _ _ _ _ _ _); [|done]. destruct (transform_cloud _ _ _ _); [|done]. by injection Ho as <-. }
  unfold purgeStaleObservations. cbn. rewrite (proj2 (Z.eqb_neq _ 0)) by done. rewrite Es, (proj2 (Z.ltb_lt _ _)) by done. done.
Qed.

(** A fresh observation is dropped. *)
Definition fresh_observation : Observation := mkObservation point_zero (cloud_at 1000 [(1, 1)]) (f_of_Z 3) f_zero (f_of_Z 3) f_zero.

Lemma late_cloud_empties_buffer_witness :
  observe still_tf example_buffer (cloud_at 1000 [(1, 1)]) = Some fresh_observation /\
  observation_list_ (snd (bufferCloud (fun _ => 1010) still_tf 0 (set_observations example_buffer [fresh_observation]) (cloud_at 900 [(1, 1)]))) = [].
Proof.
  split; [vm_compute; reflexivity|].
  rewrite (late_cloud_empties_buffer (fun _ => 1010) still_tf 0 (set_observations example_buffer [fresh_observation]) (cloud_at 900 [(1, 1)])
    (mkObservation point_zero (cloud_at 900 [(1, 1)]) (f_of_Z 3) f_zero (f_of_Z 3) f_zero)); [reflexivity|by vm_compute|vm_compute; reflexivity|by vm_compute].
Defined.
