(* ===== verification/ObstacleLayer.v ===== *)
(** The obstacle layer (obstacle_layer.cpp): it marks the points the sensors
    see as obstacles and clears the cells the sensors see through. *)

From stdpp Require Import strings.
From S2P Require Import Prelude Floats Bresenham Costmap2D Footprint CostmapLayer LayeredCostmap ObservationBuffer.

(** ** The object *)

(** The three vectors of shared pointers to buffers are the vector of all
    buffers and the positions of those used to mark and to clear. *)
Record ObstacleLayer := mkObstacle {
  ol_base : CostmapLayer;
  transformed_footprint_ : list Point;
  footprint_clearing_enabled_ : bool;
  ol_global_frame_ : string;
  min_obstacle_height_ : spec_float;
  max_obstacle_height_ : spec_float;
  observation_buffers_ : list ObservationBuffer;
  marking_buffers_ : list Z;
  clearing_buffers_ : list Z;
  static_clearing_observations_ : list Observation;
  static_marking_observations_ : list Observation;
  ol_rolling_window_ : bool;
  was_reset_ : bool;
  combination_method_ : Z;
}.

(** Functional updates of the fields the operations assign. *)
Section setters.
Context (l : ObstacleLayer).
Definition set_base (b : CostmapLayer) : ObstacleLayer :=
  mkObstacle b (transformed_footprint_ l) (footprint_clearing_enabled_ l) (ol_global_frame_ l) (min_obstacle_height_ l) (max_obstacle_height_ l)
    (observation_buffers_ l) (marking_buffers_ l) (clearing_buffers_ l) (static_clearing_observations_ l) (static_marking_observations_ l)
    (ol_rolling_window_ l) (was_reset_ l) (combination_method_ l).
Definition set_transformed (f : list Point) : ObstacleLayer :=
  mkObstacle (ol_base l) f (footprint_clearing_enabled_ l) (ol_global_frame_ l) (min_obstacle_height_ l) (max_obstacle_height_ l)
    (observation_buffers_ l) (marking_buffers_ l) (clearing_buffers_ l) (static_clearing_observations_ l) (static_marking_observations_ l)
    (ol_rolling_window_ l) (was_reset_ l) (combination_method_ l).
Definition set_params (clearing : bool) (lo hi : spec_float) (method : Z) : ObstacleLayer :=
  mkObstacle (ol_base l) (transformed_footprint_ l) clearing (ol_global_frame_ l) lo hi
    (observation_buffers_ l) (marking_buffers_ l) (clearing_buffers_ l) (static_clearing_observations_ l) (static_marking_observations_ l)
    (ol_rolling_window_ l) (was_reset_ l) method.
Definition set_window (frame : string) (rolling reset : bool) : ObstacleLayer :=
  mkObstacle (ol_base l) (transformed_footprint_ l) (footprint_clearing_enabled_ l) frame (min_obstacle_height_ l) (max_obstacle_height_ l)
    (observation_buffers_ l) (marking_buffers_ l) (clearing_buffers_ l) (static_clearing_observations_ l) (static_marking_observations_ l)
    rolling reset (combination_method_ l).
Definition set_buffers (buffers : list ObservationBuffer) (marking clearing : list Z) : ObstacleLayer :=
  mkObstacle (ol_base l) (transformed_footprint_ l) (footprint_clearing_enabled_ l) (ol_global_frame_ l) (min_obstacle_height_ l) (max_obstacle_height_ l)
    buffers marking clearing (static_clearing_observations_ l) (static_marking_observations_ l)
    (ol_rolling_window_ l) (was_reset_ l) (combination_method_ l).
Definition set_static (clearing marking : list Observation) : ObstacleLayer :=
  mkObstacle (ol_base l) (transformed_footprint_ l) (footprint_clearing_enabled_ l) (ol_global_frame_ l) (min_obstacle_height_ l) (max_obstacle_height_ l)
    (observation_buffers_ l) (marking_buffers_ l) (clearing_buffers_ l) clearing marking
    (ol_rolling_window_ l) (was_reset_ l) (combination_method_ l).
End setters.

Definition own_map (l : ObstacleLayer) : Costmap2D := layer_map (ol_base l).
Definition set_own_map (l : ObstacleLayer) (m : Costmap2D) : ObstacleLayer := set_base l (with_layer_map (ol_base l) m).
Definition set_flags (l : ObstacleLayer) (current enabled : bool) : ObstacleLayer :=
  let b := ol_base l in
  set_base l (mkCostmapLayer (layer_map b) current enabled (has_extra_bounds_ b) (extra_min_x_ b) (extra_max_x_ b) (extra_min_y_ b) (extra_max_y_ b)).
Definition set_reset (l : ObstacleLayer) (reset : bool) : ObstacleLayer := set_window l (ol_global_frame_ l) (ol_rolling_window_ l) reset.
Definition only_buffers (l : ObstacleLayer) (buffers : list ObservationBuffer) : ObstacleLayer := set_buffers l buffers (marking_buffers_ l) (clearing_buffers_ l).

(** The array of the grid. *)
Definition own_cells (l : ObstacleLayer) : option (list Z) := costmap_ (own_map l).
Definition set_cells (l : ObstacleLayer) (c : list Z) : ObstacleLayer := set_own_map l (with_costmap (own_map l) (Some c)).

(** The numbers of the source, in double precision. *)
Definition f_0001 : spec_float := f_lit 7378697629483821 (-66).
Definition f_001 : spec_float := f_lit 4611686018427388 (-62).

Section obstacle.
Context (fresh_byte : Z -> Z) (hypot : spec_float -> spec_float -> spec_float) (cos sin : spec_float -> spec_float) (now : nat -> Z).

(** ** Buffers *)

(** The buffers at some positions, in turn: the observations they append and
    whether they are all current. *)
Fixpoint gather (t : nat) (buffers : list ObservationBuffer) (positions : list Z) (observations : list Observation) (current : bool) :
    option (nat * list ObservationBuffer * list Observation * bool) :=
  match positions with
  | [] => Some (t, buffers, observations, current)
  | i :: positions =>
      b ← aget buffers i;
      let '(t, b, observations) := getObservations now t b observations in
      let '(t, is_current) := isCurrent now t b in
      buffers ← aset buffers i b;
      gather t buffers positions observations (is_current && current)
  end.

Definition getMarkingObservations (t : nat) (l : ObstacleLayer) (marking_observations : list Observation) :
    option (nat * ObstacleLayer * list Observation * bool) :=
  '(t, buffers, observations, current) ← gather t (observation_buffers_ l) (marking_buffers_ l) marking_observations true;
  Some (t, only_buffers l buffers, observations ++ static_marking_observations_ l, current).

Definition getClearingObservations (t : nat) (l : ObstacleLayer) (clearing_observations : list Observation) :
    option (nat * ObstacleLayer * list Observation * bool) :=
  '(t, buffers, observations, current) ← gather t (observation_buffers_ l) (clearing_buffers_ l) clearing_observations true;
  Some (t, only_buffers l buffers, observations ++ static_clearing_observations_ l, current).

Definition addStaticObservation (l : ObstacleLayer) (obs : Observation) (marking clearing : bool) : ObstacleLayer :=
  set_static l (if clearing then static_clearing_observations_ l ++ [obs] else static_clearing_observations_ l)
    (if marking then static_marking_observations_ l ++ [obs] else static_marking_observations_ l).

Definition clearStaticObservations (l : ObstacleLayer) (marking clearing : bool) : ObstacleLayer :=
  set_static l (if clearing then [] else static_clearing_observations_ l) (if marking then [] else static_marking_observations_ l).

Fixpoint reset_all (t : nat) (buffers : list ObservationBuffer) : nat * list ObservationBuffer :=
  match buffers with
  | [] => (t, [])
  | b :: buffers => let '(t, b) := resetLastUpdated now t b in let '(t, buffers) := reset_all t buffers in (t, b :: buffers)
  end.

Definition resetBuffersLastUpdated (t : nat) (l : ObstacleLayer) : nat * ObstacleLayer :=
  let '(t, buffers) := reset_all t (observation_buffers_ l) in (t, only_buffers l buffers).

(** ** The callbacks of the sensors *)

(** A cloud for the buffer at a position. *)
Definition pointCloud2Callback (tf : Tf) (t : nat) (l : ObstacleLayer) (message : PointCloud2) (buffer : Z) : option (nat * ObstacleLayer) :=
  b ← aget (observation_buffers_ l) buffer;
  let '(t, b) := bufferCloud now tf t b message in
  buffers ← aset (observation_buffers_ l) buffer b;
  Some (t, only_buffers l buffers).

(** What laser_geometry makes of a scan: a cloud, the cloud of the plain
    projection after a TransformException, or a runtime error. *)
Inductive Projection := Projected (cloud : PointCloud2) | Malformed.

Record LaserScan := mkScan { range_max : spec_float; ranges : list spec_float }.

Definition laserScanCallback (project : LaserScan -> Projection) (tf : Tf) (t : nat) (l : ObstacleLayer) (message : LaserScan) (buffer : Z) :
    option (nat * ObstacleLayer) :=
  match project message with
  | Projected cloud => pointCloud2Callback tf t l cloud buffer
  | Malformed => Some (t, l)
  end.

(** [float epsilon]. *)
Definition epsilon : spec_float := s_of_f f_0001.
Definition valid_inf (message : LaserScan) : LaserScan :=
  mkScan (range_max message) ((fun range => if negb (is_finite range) && fgt range f_zero then ssub (range_max message) epsilon else range) <$> ranges message).

Definition laserScanValidInfCallback (project : LaserScan -> Projection) (tf : Tf) (t : nat) (l : ObstacleLayer) (raw_message : LaserScan) (buffer : Z) :
    option (nat * ObstacleLayer) :=
  laserScanCallback project tf t l (valid_inf raw_message) buffer.

(** ** Updating the bounds *)

(** The end of a ray, brought back onto the map. *)
Definition clip_endpoint (m : Costmap2D) (ox oy wx wy : spec_float) : spec_float * spec_float :=
  let origin_x := origin_x_ m in
  let origin_y := origin_y_ m in
  let map_end_x := fadd origin_x (fmul (f_of_Z (size_x_ m)) (resolution_ m)) in
  let map_end_y := fadd origin_y (fmul (f_of_Z (size_y_ m)) (resolution_ m)) in
  let a := fsub wx ox in
  let b := fsub wy oy in
  let '(wx, wy) := if flt wx origin_x then let t := fdiv (fsub origin_x ox) a in (origin_x, fadd oy (fmul b t)) else (wx, wy) in
  let '(wx, wy) := if flt wy origin_y then let t := fdiv (fsub origin_y oy) b in (fadd ox (fmul a t), origin_y) else (wx, wy) in
  let '(wx, wy) := if fgt wx map_end_x then let t := fdiv (fsub map_end_x ox) a in (fsub map_end_x f_001, fadd oy (fmul b t)) else (wx, wy) in
  if fgt wy map_end_y then let t := fdiv (fsub map_end_y oy) b in (fadd ox (fmul a t), fsub map_end_y f_001) else (wx, wy).

Definition updateRaytraceBounds (ox oy wx wy max_range min_range : spec_float) (b : Bounds) : Bounds :=
  let dx := fsub wx ox in
  let dy := fsub wy oy in
  let full_distance := hypot dx dy in
  if flt full_distance min_range then b
  else
    let scale := fmin f_one (fdiv max_range full_distance) in
    touch (fadd ox (fmul dx scale)) (fadd oy (fmul dy scale)) b.

(** One point of a clearing observation, from the cell [p0] of its origin. *)
Definition clear_point (m : Costmap2D) (obs : Observation) (p0 : MapLocation) (st : list Z * Bounds) (pt : Point) : option (list Z * Bounds) :=
  let '(costmap, b) := st in
  let ox := px (origin_ obs) in
  let oy := py (origin_ obs) in
  let '(wx, wy) := clip_endpoint m ox oy (f_of_s (px pt)) (f_of_s (py pt)) in
  loc ← worldToMap m wx wy;
  match loc with
  | None => Some (costmap, b)
  | Some p1 =>
      cell_raytrace_max_range ← cellDistance m (raytrace_max_range_ obs);
      cell_raytrace_min_range ← cellDistance m (raytrace_min_range_ obs);
      costmap ← raytraceLine hypot (size_x_ m) (MarkCell FREE_SPACE) (loc_x p0) (loc_y p0) (loc_x p1) (loc_y p1)
                  cell_raytrace_max_range cell_raytrace_min_range costmap;
      Some (costmap, updateRaytraceBounds ox oy wx wy (raytrace_max_range_ obs) (raytrace_min_range_ obs) b)
  end.

Definition raytraceFreespace (m : Costmap2D) (st : list Z * Bounds) (clearing_observation : Observation) : option (list Z * Bounds) :=
  let ox := px (origin_ clearing_observation) in
  let oy := py (origin_ clearing_observation) in
  origin ← worldToMap m ox oy;
  match origin with
  | None => Some st
  | Some p0 => run_cells (clear_point m clearing_observation p0) (cloud_points (cloud_ clearing_observation)) (fst st, touch ox oy (snd st))
  end.

(** One point of a marking observation. *)
Definition mark_point (l : ObstacleLayer) (m : Costmap2D) (p0 : MapLocation) (max_range_cells min_range_cells : Z) (st : list Z * Bounds) (pt : Point) :
    option (list Z * Bounds) :=
  let '(costmap, b) := st in
  let x := f_of_s (px pt) in
  let y := f_of_s (py pt) in
  let z := f_of_s (pz pt) in
  if flt z (min_obstacle_height_ l) then Some st
  else if fgt z (max_obstacle_height_ l) then Some st
  else
    loc ← worldToMap m x y;
    match loc with
    | None => Some st
    | Some p =>
        dx ← checked_s32 (s32 (loc_x p) - s32 (loc_x p0));
        dy ← checked_s32 (s32 (loc_y p) - s32 (loc_y p0));
        dist ← f_to_u32 (hypot (f_of_Z dx) (f_of_Z dy));
        if max_range_cells <? dist then Some st
        else if dist <? min_range_cells then Some st
        else
          costmap ← aset costmap (getIndex m (loc_x p) (loc_y p)) LETHAL_OBSTACLE;
          Some (costmap, touch x y b)
    end.

Definition mark_observation (l : ObstacleLayer) (m : Costmap2D) (st : list Z * Bounds) (obs : Observation) : option (list Z * Bounds) :=
  max_range_cells ← cellDistance m (obstacle_max_range_ obs);
  min_range_cells ← cellDistance m (obstacle_min_range_ obs);
  origin ← worldToMap m (px (origin_ obs)) (py (origin_ obs));
  match origin with
  | None => Some st
  | Some p0 => run_cells (mark_point l m p0 max_range_cells min_range_cells) (cloud_points (cloud_ obs)) st
  end.

Definition updateFootprint (l : ObstacleLayer) (v : LayeredView) (robot_x robot_y robot_yaw : spec_float) (b : Bounds) : option (ObstacleLayer * Bounds) :=
  if negb (footprint_clearing_enabled_ l) then Some (l, b)
  else
    f ← transformFootprint cos sin robot_x robot_y robot_yaw (v_footprint v) (transformed_footprint_ l);
    Some (set_transformed l f, foldl (fun b p => touch (px p) (py p) b) b f).

(** A rolling grid follows the robot. *)
Definition scroll (l : ObstacleLayer) (robot_x robot_y : spec_float) : option ObstacleLayer :=
  if ol_rolling_window_ l then
    m ← updateOrigin fresh_byte (own_map l) (fsub robot_x (fdiv (getSizeInMetersX (own_map l)) (f_of_Z 2)))
          (fsub robot_y (fdiv (getSizeInMetersY (own_map l)) (f_of_Z 2)));
    Some (set_own_map l m)
  else Some l.

Definition updateBounds (t : nat) (l : ObstacleLayer) (v : LayeredView) (robot_x robot_y robot_yaw : spec_float) (b : Bounds) :
    option (nat * ObstacleLayer * Bounds) :=
  l ← scroll l robot_x robot_y;
  if negb (enabled_ (ol_base l)) then Some (t, l, b)
  else
    let '(base, b) := useExtraBounds (ol_base l) b in
    let l := set_base l base in
    '(t, l, observations, marking_current) ← getMarkingObservations t l [];
    '(t, l, clearing_observations, current) ← (if marking_current : bool then getClearingObservations t l [] else Some (t, l, [], false));
    let l := set_flags l current (enabled_ (ol_base l)) in
    let m := own_map l in
    costmap ← costmap_ m;
    st ← run_cells (raytraceFreespace m) clearing_observations (costmap, b);
    '(costmap, b) ← run_cells (mark_observation l m) observations st;
    '(l, b) ← updateFootprint (set_cells l costmap) v robot_x robot_y robot_yaw b;
    Some (t, l, b).

(** ** Updating the costs *)

Definition updateCosts (l : ObstacleLayer) (master_grid : Costmap2D) (min_i min_j max_i max_j : Z) : option (ObstacleLayer * Costmap2D) :=
  if negb (enabled_ (ol_base l)) then Some (l, master_grid)
  else
    let l := if negb (current_ (ol_base l)) && was_reset_ l then set_flags (set_reset l false) true (enabled_ (ol_base l)) else l in
    l ← (if footprint_clearing_enabled_ l then
           '(_, m) ← setConvexPolygonCost hypot (own_map l) ((fun p => (px p, py p)) <$> transformed_footprint_ l) FREE_SPACE;
           Some (set_own_map l m)
         else Some l);
    if combination_method_ l =? 0 then
      m ← updateWithOverwrite (ol_base l) master_grid min_i min_j max_i max_j; Some (l, m)
    else if combination_method_ l =? 1 then
      m ← updateWithMax (ol_base l) master_grid min_i min_j max_i max_j; Some (l, m)
    else Some (l, master_grid).

(** What follows the reset of the maps. *)
Definition after_reset (t : nat) (l : ObstacleLayer) : nat * ObstacleLayer :=
  let '(t, l) := resetBuffersLastUpdated t l in (t, set_reset (set_flags l false (enabled_ (ol_base l))) true).

Definition reset (t : nat) (l : ObstacleLayer) : option (nat * ObstacleLayer) :=
  m ← resetMaps (own_map l); Some (after_reset t (set_own_map l m)).

(** The subscriptions aside, activation only marks the buffers as updated. *)
Definition activate (t : nat) (l : ObstacleLayer) : nat * ObstacleLayer := resetBuffersLastUpdated t l.

Definition obstacle_matchSize (l : ObstacleLayer) (v : LayeredView) : option ObstacleLayer :=
  base ← matchSize fresh_byte (ol_base l) (v_master v); Some (set_base l base).

(** ** Parameters *)

(** The parameters of a source, and those of the layer. *)
Record Source := mkSource {
  src_topic : string; src_sensor_frame : string; src_data_type : string;
  src_observation_keep_time : spec_float; src_expected_update_rate : spec_float;
  src_min_obstacle_height : spec_float; src_max_obstacle_height : spec_float;
  src_marking : bool; src_clearing : bool;
  src_obstacle_max_range : spec_float; src_obstacle_min_range : spec_float;
  src_raytrace_max_range : spec_float; src_raytrace_min_range : spec_float;
}.

(** A source adds its buffer; the answer tells that its type is not supported,
    an exception that ends the initialization. *)
Definition add_source (from_seconds : spec_float -> Z) (transform_tolerance : Z) (t : nat) (l : ObstacleLayer) (s : Source) : (nat * ObstacleLayer) + ObstacleLayer :=
  if negb (String.eqb (src_data_type s) "PointCloud2" || String.eqb (src_data_type s) "LaserScan") then inr l
  else
    let '(t, b) := ObservationBuffer_new now from_seconds t (src_topic s) (src_observation_keep_time s) (src_expected_update_rate s)
      (src_min_obstacle_height s) (src_max_obstacle_height s) (src_obstacle_max_range s) (src_obstacle_min_range s)
      (src_raytrace_max_range s) (src_raytrace_min_range s) (ol_global_frame_ l) (src_sensor_frame s) transform_tolerance in
    let back := alen (observation_buffers_ l) in
    inl (t, set_buffers l (observation_buffers_ l ++ [b])
              (if src_marking s then marking_buffers_ l ++ [back] else marking_buffers_ l)
              (if src_clearing s then clearing_buffers_ l ++ [back] else clearing_buffers_ l)).

Fixpoint add_sources (from_seconds : spec_float -> Z) (transform_tolerance : Z) (t : nat) (l : ObstacleLayer) (sources : list Source) : (nat * ObstacleLayer) + ObstacleLayer :=
  match sources with
  | [] => inl (t, l)
  | s :: sources =>
      match add_source from_seconds transform_tolerance t l s with
      | inl (t, l) => add_sources from_seconds transform_tolerance t l sources
      | inr l => inr l
      end
  end.

Definition set_default (m : Costmap2D) (default_value : Z) : Costmap2D :=
  mkCostmap2D (size_x_ m) (size_y_ m) (resolution_ m) (origin_x_ m) (origin_y_ m) (costmap_ m) default_value.

Definition onInitialize (from_seconds : spec_float -> Z) (t : nat) (l : ObstacleLayer) (v : LayeredView) (global_frame : string)
    (enabled footprint_clearing : bool) (min_obstacle_height max_obstacle_height : spec_float) (combination_method : Z) (track_unknown_space : bool)
    (transform_tolerance : Z) (sources : list Source) : option ((nat * ObstacleLayer) + ObstacleLayer) :=
  let l := set_params (set_flags l (current_ (ol_base l)) enabled) footprint_clearing min_obstacle_height max_obstacle_height combination_method in
  let l := set_window l (ol_global_frame_ l) (v_rolling v) (was_reset_ l) in
  let l := set_own_map l (set_default (own_map l) (if track_unknown_space then NO_INFORMATION else FREE_SPACE)) in
  l ← obstacle_matchSize l v;
  let l := set_window (set_flags l true (enabled_ (ol_base l))) global_frame (ol_rolling_window_ l) false in
  Some (add_sources from_seconds transform_tolerance t l sources).

Inductive ParameterValue :=
| PARAMETER_BOOL (b : bool)
| PARAMETER_DOUBLE (d : spec_float)
| PARAMETER_INTEGER (z : Z)
| PARAMETER_OTHER.

(** [combination_method_] is an [int], the parameter an [int64_t]. *)
Definition set_parameter (name : string) (l : ObstacleLayer) (param : string * ParameterValue) : ObstacleLayer :=
  let named s := String.eqb (fst param) (name ++ "." ++ s)%string in
  match snd param with
  | PARAMETER_DOUBLE d =>
      if named "min_obstacle_height"%string then set_params l (footprint_clearing_enabled_ l) d (max_obstacle_height_ l) (combination_method_ l)
      else if named "max_obstacle_height"%string then set_params l (footprint_clearing_enabled_ l) (min_obstacle_height_ l) d (combination_method_ l)
      else l
  | PARAMETER_BOOL b =>
      if named "enabled"%string && negb (eqb (enabled_ (ol_base l)) b) then
        set_flags l (if b then false else current_ (ol_base l)) b
      else if named "footprint_clearing_enabled"%string then set_params l b (min_obstacle_height_ l) (max_obstacle_height_ l) (combination_method_ l)
      else l
  | PARAMETER_INTEGER z =>
      if named "combination_method"%string then set_params l (footprint_clearing_enabled_ l) (min_obstacle_height_ l) (max_obstacle_height_ l) (s32 z)
      else l
  | PARAMETER_OTHER => l
  end.

Definition dynamicParametersCallback (name : string) (l : ObstacleLayer) (parameters : list (string * ParameterValue)) : ObstacleLayer :=
  foldl (set_parameter name) l parameters.
End obstacle.

(** ** Painting cells *)

(** [c'] is [c] with the value [v] in some cells. *)
Definition paints (m : Costmap2D) (v : Z) (cells : list MapLocation) (c c' : list Z) : Prop :=
  alen c' = alen c /\ forall x y, on_map m x y ->
    grid_at c' (size_x_ m) x y = if bool_decide (mkLoc x y ∈ cells) then Some v else grid_at c (size_x_ m) x y.

Lemma paints_nil m v c : paints m v [] c c.
Proof. split; [done|]. intros x y _. rewrite bool_decide_eq_false_2; [done|]. by intros ?%elem_of_nil. Qed.

Lemma paints_app m v cells1 cells2 c c1 c2 : paints m v cells1 c c1 -> paints m v cells2 c1 c2 -> paints m v (cells1 ++ cells2) c c2.
Proof.
  intros [L1 H1] [L2 H2]. split; [congruence|]. intros x y Hxy. rewrite H2, H1 by done.
  rewrite (bool_decide_ext _ _ (elem_of_app cells1 cells2 (mkLoc x y))). destruct (decide (mkLoc x y ∈ cells1)), (decide (mkLoc x y ∈ cells2)); repeat case_bool_decide; done || tauto.
Qed.

Section painting.
Context (m : Costmap2D) (c0 : list Z) (Hm : wf_map m c0).

Lemma paint_cell v p c : loc_on m p -> alen c = alen c0 -> exists c', aset c (loc_y p * size_x_ m + loc_x p) v = Some c' /\ paints m v [p] c c'.
Proof using Hm.
  intros Hp Hl. destruct (getIndex_small m c0 _ _ Hm Hp) as [_ Hb]. pose proof (wf_alen _ _ Hm) as Hlen.
  assert (0 <= loc_y p * size_x_ m + loc_x p < alen c) as Hi by lia. destruct (aset_is_Some c _ v Hi) as [c' E]. exists c'. split; [done|]. split; [by apply aset_len in E|].
  intros x y Hxy. unfold grid_at. rewrite (aget_aset _ _ _ _ _ E). destruct (Z.eqb_spec (loc_y p * size_x_ m + loc_x p) (y * size_x_ m + x)) as [Ee|Hne].
  - destruct (index_inj _ _ _ _ _ (proj1 Hp) (proj1 Hxy) Ee) as [Ex Ey]. rewrite bool_decide_eq_true_2; [done|]. apply list_elem_of_singleton. destruct p; cbn in *. by subst.
  - rewrite bool_decide_eq_false_2; [done|]. intros Ep%list_elem_of_singleton. subst p. done.
Qed.

Lemma paint_cells v cells c : Forall (loc_on m) cells -> alen c = alen c0 ->
  exists c', run_cells (MarkCell v) ((fun r => loc_y r * size_x_ m + loc_x r) <$> cells) c = Some c' /\ paints m v cells c c'.
Proof using Hm.
  intros Hc. revert c. induction Hc as [|p cells Hp _ IH]; intros c Hl; [exists c; split; [done|apply paints_nil]|].
  destruct (paint_cell v p c Hp Hl) as (c1 & E1 & P1). destruct (IH c1) as (c2 & E2 & P2); [rewrite (proj1 P1); done|].
  exists c2. split; [|exact (paints_app m v [p] cells c c1 c2 P1 P2)]. cbn [fmap list_fmap run_cells]. change (MarkCell v c (loc_y p * size_x_ m + loc_x p)) with (aset c (loc_y p * size_x_ m + loc_x p) v). rewrite E1. exact E2.
Qed.

(** A walk over elements, each of which paints the cells of the marks it gives
    and tells something ([K]) of the rest of the state. *)
Context {X E B : Type} (v : Z) (cell : E -> MapLocation) (K : list E -> B -> B -> Prop) (act : list Z * B -> X -> option (list Z * B)) (marks : X -> option (list E)).
Context (K_nil : forall b, K [] b b) (K_app : forall es1 es2 b b1 b2, K es1 b b1 -> K es2 b1 b2 -> K (es1 ++ es2) b b2).

Definition paints_marks (x : X) : Prop := forall es c b, marks x = Some es -> Forall (loc_on m) (cell <$> es) -> alen c = alen c0 ->
  exists c' b', act (c, b) x = Some (c', b') /\ paints m v (cell <$> es) c c' /\ K es b b'.

Lemma run_paints xs : (forall x, x ∈ xs -> paints_marks x) -> forall ess c b, mapM marks xs = Some ess -> Forall (loc_on m) (cell <$> concat ess) -> alen c = alen c0 ->
  exists c' b', run_cells act xs (c, b) = Some (c', b') /\ paints m v (cell <$> concat ess) c c' /\ K (concat ess) b b'.
Proof using K_nil K_app.
  induction xs as [|x xs IH]; intros Hact ess c b Hess Hon Hl.
  - injection Hess as <-. exists c, b. split; [done|]. split; [apply paints_nil|apply K_nil].
  - cbn [mapM] in Hess. destruct (marks x) as [es|] eqn:Ex; [|done]. rewrite mbind_Some in Hess. destruct (mapM marks xs) as [ess'|] eqn:Exs; [|done]. injection Hess as <-.
    cbn [concat] in *. rewrite fmap_app in *. apply Forall_app in Hon as [Hon1 Hon2].
    destruct (Hact x ltac:(left) es c b Ex Hon1 Hl) as (c1 & b1 & E1 & P1 & K1). destruct (IH ltac:(intros y Hy; apply Hact; by right) ess' c1 b1 eq_refl Hon2) as (c2 & b2 & E2 & P2 & K2); [rewrite (proj1 P1); done|].
    exists c2, b2. split; [cbn [run_cells]; rewrite E1; exact E2|]. split; [by eapply paints_app|by eapply K_app].
Qed.
End painting.

(** ** What the observations mark and clear *)

Lemma line2_upto_start p q n : 0 <= n -> p ∈ line2_upto p q n.
Proof.
  intros Hn. apply list_elem_of_fmap. exists 0. split; [|apply elem_of_zrange; unfold extent2; lia].
  assert (forall a b, toward a b (extent2 p q) 0 = a) as H; [|rewrite !H; by destruct p].
  intros a b. unfold toward, minor_moves. rewrite Z.mul_0_l, Z.add_0_r. assert (0 <= extent2 p q) by (unfold extent2; lia).
  destruct (Z.eq_dec (extent2 p q) 0) as [->|]; [change (0 / 2 / 0) with 0; lia|]. rewrite (Z.div_small (extent2 p q / 2)); [lia|]. Z.to_euclidean_division_equations; lia.
Qed.

Section effect.
Context (hypot : spec_float -> spec_float -> spec_float).

(** The cells seen through up to a point. *)
Definition ray_of (m : Costmap2D) (obs : Observation) (p0 : MapLocation) (pt : Point) : option (list MapLocation) :=
  let '(wx, wy) := clip_endpoint m (px (origin_ obs)) (py (origin_ obs)) (f_of_s (px pt)) (f_of_s (py pt)) in
  loc ← worldToMap m wx wy;
  match loc with
  | None => Some []
  | Some p1 => far ← cellDistance m (raytrace_max_range_ obs); near ← cellDistance m (raytrace_min_range_ obs); ray_cells hypot p0 p1 far near
  end.

Definition rays_of (m : Costmap2D) (obs : Observation) : option (list MapLocation) :=
  origin ← worldToMap m (px (origin_ obs)) (py (origin_ obs));
  match origin with None => Some [] | Some p0 => @concat _ <$> mapM (ray_of m obs p0) (cloud_points (cloud_ obs)) end.

Definition seen_through (m : Costmap2D) (observations : list Observation) : option (list MapLocation) := @concat _ <$> mapM (rays_of m) observations.

(** The cell in which a point is an obstacle, with the point. *)
Definition hit_of (l : ObstacleLayer) (m : Costmap2D) (p0 : MapLocation) (far near : Z) (pt : Point) : option (list (MapLocation * Point)) :=
  if flt (f_of_s (pz pt)) (min_obstacle_height_ l) || fgt (f_of_s (pz pt)) (max_obstacle_height_ l) then Some []
  else
    loc ← worldToMap m (f_of_s (px pt)) (f_of_s (py pt));
    match loc with
    | None => Some []
    | Some p =>
        dist ← f_to_u32 (hypot (f_of_Z (loc_x p - loc_x p0)) (f_of_Z (loc_y p - loc_y p0)));
        Some (if (near <=? dist) && (dist <=? far) then [(p, pt)] else [])
    end.

Definition hits_of (l : ObstacleLayer) (m : Costmap2D) (obs : Observation) : option (list (MapLocation * Point)) :=
  far ← cellDistance m (obstacle_max_range_ obs); near ← cellDistance m (obstacle_min_range_ obs);
  origin ← worldToMap m (px (origin_ obs)) (py (origin_ obs));
  match origin with None => Some [] | Some p0 => @concat _ <$> mapM (hit_of l m p0 far near) (cloud_points (cloud_ obs)) end.

Definition hits (l : ObstacleLayer) (m : Costmap2D) (observations : list Observation) : option (list (MapLocation * Point)) := @concat _ <$> mapM (hits_of l m) observations.

Context (m : Costmap2D) (c0 : list Z) (Hm : wf_map m c0).

Lemma worldToMap_on wx wy p : worldToMap m wx wy = Some (Some p) -> loc_on m p.
Proof using Type. exact (proj1 worldToMap_bounds m wx wy p). Qed.

Lemma worldToMap_number wx wy p : worldToMap m wx wy = Some (Some p) -> is_nan wx = false /\ is_nan wy = false.
Proof using Type.
  unfold worldToMap. destruct (_ || _); [done|]. destruct (f_to_u32 (fdiv (fsub wx _) _)) as [mx|] eqn:Ex; [|done]. rewrite mbind_Some. destruct (f_to_u32 (fdiv (fsub wy _) _)) as [my|] eqn:Ey; [|done]. intros _.
  split; [destruct wx|destruct wy]; try reflexivity; [by destruct (origin_x_ m), (resolution_ m)|by destruct (origin_y_ m), (resolution_ m)].
Qed.

Lemma clear_point_paints obs p0 pt : loc_on m p0 -> paints_marks (B := Bounds) m c0 FREE_SPACE id (fun _ _ _ => True) (clear_point hypot m obs p0) (ray_of m obs p0) pt.
Proof using Hm.
  intros Hp0 cells c b Hr Hon Hl. unfold clear_point, ray_of in *. destruct (clip_endpoint _ _ _ _ _) as [wx wy] in Hr |- *. destruct (worldToMap m wx wy) as [[p1|]|] eqn:Ew in Hr |- *; [|injection Hr as <-; exists c, b; split; [done|split; [apply paints_nil|done]]|done].
  rewrite mbind_Some in Hr. rewrite mbind_Some. destruct (cellDistance m (raytrace_max_range_ obs)) as [far|] in Hr |- *; [|done]. rewrite mbind_Some in Hr. rewrite mbind_Some. destruct (cellDistance m (raytrace_min_range_ obs)) as [near|] in Hr |- *; [|done]. rewrite mbind_Some in Hr. rewrite mbind_Some.
  pose proof (worldToMap_on _ _ _ Ew) as Hp1. destruct Hm as [Hsx Hsy Ha _ _]. rewrite list_fmap_id in Hon.
  rewrite (raytrace_run hypot (MarkCell FREE_SPACE) (size_x_ m) (size_y_ m) p0 p1 far near cells); [|done|done|done|apply Hp0|apply Hp0|apply Hp1|apply Hp1| |done].
  - destruct (paint_cells m c0 Hm FREE_SPACE cells c Hon Hl) as (c' & -> & P). mred. eexists _, _. split; [done|]. rewrite list_fmap_id. done.
  - intros start Es. unfold ray_cells in Hr. rewrite Es, mbind_Some in Hr. destruct (ray_length hypot p0 p1 start far) as [len|] eqn:El; [|done]. injection Hr as <-.
    rewrite Forall_forall in Hon. apply Hon. apply line2_upto_start. unfold ray_length in El. by apply f_to_u32_inv in El as [_ [? _]].
Qed.

Lemma raytraceFreespace_paints obs : paints_marks (B := Bounds) m c0 FREE_SPACE id (fun _ _ _ => True) (raytraceFreespace hypot m) (rays_of m) obs.
Proof using Hm.
  intros cells c b Hr Hon Hl. unfold raytraceFreespace, rays_of in *. cbn [fst snd]. destruct (worldToMap m _ _) as [[p0|]|] eqn:Ew in Hr |- *; [|injection Hr as <-; exists c, b; split; [done|split; [apply paints_nil|done]]|done].
  rewrite mbind_Some in Hr. rewrite mbind_Some. destruct (mapM _ _) as [ess|] eqn:Ess in Hr; [|done]. injection Hr as <-. pose proof (worldToMap_on _ _ _ Ew) as Hp0.
  apply (run_paints m c0 FREE_SPACE id (fun _ _ _ => True) _ (ray_of m obs p0)); [done|done|intros pt _; by apply clear_point_paints|done|done|done].
Qed.

Lemma clearing_paints observations cells c b : seen_through m observations = Some cells -> Forall (loc_on m) cells -> alen c = alen c0 ->
  exists c' b', run_cells (raytraceFreespace hypot m) observations (c, b) = Some (c', b') /\ paints m FREE_SPACE cells c c'.
Proof using Hm.
  unfold seen_through. intros Hs Hon Hl. destruct (mapM _ _) as [ess|] eqn:Ess; [|done]. injection Hs as <-.
  destruct (run_paints m c0 FREE_SPACE id (fun _ _ _ => True) (raytraceFreespace hypot m) (rays_of m) ltac:(done) ltac:(done) observations ltac:(intros; apply raytraceFreespace_paints) ess c b Ess) as (c' & b' & E & P & _); [by rewrite list_fmap_id|done|].
  exists c', b'. rewrite list_fmap_id in P. done.
Qed.

(** *** Bounds *)

Definition sees (b : Bounds) (pt : Point) : Prop := covers b (f_of_s (px pt)) (f_of_s (py pt)).

(** The boxes grow, and cover the points. *)
Definition grows_over (es : list (MapLocation * Point)) (b b' : Bounds) : Prop :=
  (forall x y, covers b x y -> covers b' x y) /\ Forall (fun e => sees b' (snd e)) es.

Lemma touch_grows x y b a a' : is_nan x = false -> is_nan y = false -> covers b a a' -> covers (touch x y b) a a'.
Proof using Type.
  intros Hx Hy (H1 & H2 & H3 & H4). destruct (fle_not_nan _ _ H1), (fle_not_nan _ _ H2), (fle_not_nan _ _ H3), (fle_not_nan _ _ H4). repeat split; cbn.
  - eapply fle_trans; [| | |apply fmin_le_r|exact H1]; auto with floats.
  - eapply fle_trans; [| | |apply fmin_le_r|exact H2]; auto with floats.
  - eapply fle_trans; [| | |exact H3|apply fmax_le_r]; auto with floats.
  - eapply fle_trans; [| | |exact H4|apply fmax_le_r]; auto with floats.
Qed.

Lemma touch_covers x y b : is_nan x = false -> is_nan y = false -> covers (touch x y b) x y.
Proof using Type. intros Hx Hy. repeat split; cbn; auto with floats. Qed.

Lemma grows_nil b : grows_over [] b b.
Proof using Type. done. Qed.

Lemma grows_app es1 es2 b b1 b2 : grows_over es1 b b1 -> grows_over es2 b1 b2 -> grows_over (es1 ++ es2) b b2.
Proof using Type.
  intros [G1 S1] [G2 S2]. split; [auto|]. apply Forall_app. split; [|done]. eapply Forall_impl; [exact S1|]. intros e. apply G2.
Qed.

Lemma mark_point_paints l p0 far near pt : loc_on m p0 -> paints_marks m c0 LETHAL_OBSTACLE fst grows_over (mark_point hypot l m p0 far near) (hit_of l m p0 far near) pt.
Proof using Hm.
  intros Hp0 es c b Hh Hon Hl. unfold mark_point, hit_of in *. cbv zeta.
  assert (Hskip : es = [] -> exists c' b', Some (c, b) = Some (c', b') /\ paints m LETHAL_OBSTACLE (fst <$> es) c c' /\ grows_over es b b') by (intros ->; exists c, b; split; [done|split; [apply paints_nil|apply grows_nil]]).
  destruct (flt _ _) in Hh |- *; cbn [orb] in Hh; [injection Hh as <-; by apply Hskip|]. destruct (fgt _ _) in Hh |- *; [injection Hh as <-; by apply Hskip|].
  destruct (worldToMap m _ _) as [[p|]|] eqn:Ew in Hh |- *; [|injection Hh as <-; by apply Hskip|done]. rewrite mbind_Some in Hh. rewrite mbind_Some. pose proof (worldToMap_on _ _ _ Ew) as [Px Py]. destruct (worldToMap_number _ _ _ Ew) as [Nx Ny].
  destruct Hp0 as [P0x P0y]. pose proof Hm as [Hsx Hsy _ _ _].
  rewrite !s32_small by (unfold is_s32; ilia). rewrite (checked_s32_ok (loc_x p - loc_x p0)) by (unfold is_s32; ilia). mred. rewrite (checked_s32_ok (loc_y p - loc_y p0)) by (unfold is_s32; ilia). mred.
  destruct (f_to_u32 _) as [dist|] in Hh |- *; [|done]. rewrite mbind_Some in Hh. rewrite mbind_Some. injection Hh as <-. destruct (Z.ltb_spec far dist) as [Hf|Hf]; [rewrite (proj2 (Z.leb_gt dist far)), andb_false_r in Hskip |- * by done; by apply Hskip|].
  destruct (Z.ltb_spec dist near) as [Hn|Hn]; [rewrite (proj2 (Z.leb_gt near dist)) in Hskip |- * by done; by apply Hskip|]. clear Hskip. rewrite !(proj2 (Z.leb_le _ _)) in Hon |- * by done. cbn [andb] in *.
  destruct (getIndex_small m c0 (loc_x p) (loc_y p) Hm (conj Px Py)) as [-> _]. destruct (paint_cell m c0 Hm LETHAL_OBSTACLE p c (conj Px Py) Hl) as (c' & -> & P). mred. eexists _, _. split; [done|]. split; [exact P|]. split.
  - intros a a' Ha. by apply touch_grows.
  - apply Forall_singleton. by apply touch_covers.
Qed.

Lemma mark_observation_paints l obs : paints_marks m c0 LETHAL_OBSTACLE fst grows_over (mark_observation hypot l m) (hits_of l m) obs.
Proof using Hm.
  intros es c b Hh Hon Hl. unfold mark_observation, hits_of in *. destruct (cellDistance m (obstacle_max_range_ obs)) as [far|] in Hh |- *; [|done]. rewrite mbind_Some in Hh. rewrite mbind_Some. destruct (cellDistance m (obstacle_min_range_ obs)) as [near|] in Hh |- *; [|done]. rewrite mbind_Some in Hh. rewrite mbind_Some.
  destruct (worldToMap m _ _) as [[p0|]|] eqn:Ew in Hh |- *; [|injection Hh as <-; exists c, b; split; [done|split; [apply paints_nil|apply grows_nil]]|done].
  rewrite mbind_Some in Hh. rewrite mbind_Some. destruct (mapM _ _) as [ess|] eqn:Ess in Hh; [|done]. injection Hh as <-. pose proof (worldToMap_on _ _ _ Ew) as Hp0.
  apply (run_paints m c0 LETHAL_OBSTACLE fst grows_over _ (hit_of l m p0 far near)); [apply grows_nil|apply grows_app|intros pt _; by apply mark_point_paints|done|done|done].
Qed.

(** *** The rays and the bounds *)

(** A ray of the observation up to the point ends there: at the end of the
    clipped ray, or at the largest range on it. *)
Definition ray_reaches (obs : Observation) (pt : Point) (x y : spec_float) : Prop :=
  let ox := px (origin_ obs) in
  let oy := py (origin_ obs) in
  let '(wx, wy) := clip_endpoint m ox oy (f_of_s (px pt)) (f_of_s (py pt)) in
  let full_distance := hypot (fsub wx ox) (fsub wy oy) in
  let scale := fmin f_one (fdiv (raytrace_max_range_ obs) full_distance) in
  (exists p1, worldToMap m wx wy = Some (Some p1)) /\ flt full_distance (raytrace_min_range_ obs) = false /\
  x = fadd ox (fmul (fsub wx ox) scale) /\ y = fadd oy (fmul (fsub wy oy) scale).

(** The rays of the observation start or end there. *)
Definition swept (obs : Observation) (x y : spec_float) : Prop :=
  (exists p0, worldToMap m (px (origin_ obs)) (py (origin_ obs)) = Some (Some p0)) /\
  (x = px (origin_ obs) /\ y = py (origin_ obs) \/ exists pt, pt ∈ cloud_points (cloud_ obs) /\ ray_reaches obs pt x y).

(** The box grows over the places [P]. *)
Definition grows_to (P : spec_float -> spec_float -> Prop) (b b' : Bounds) : Prop :=
  (forall x y, covers b x y -> covers b' x y) /\ forall x y, P x y -> covers b' x y.

Definition numbers (P : spec_float -> spec_float -> Prop) : Prop := forall x y, P x y -> is_nan x = false /\ is_nan y = false.

Lemma run_grows {X} (act : list Z * Bounds -> X -> option (list Z * Bounds)) (P : X -> spec_float -> spec_float -> Prop) xs :
  (forall x st st', x ∈ xs -> act st x = Some st' -> grows_to (P x) (snd st) (snd st')) ->
  forall st st', run_cells act xs st = Some st' -> grows_to (fun a a' => exists x, x ∈ xs /\ P x a a') (snd st) (snd st').
Proof using Type.
  induction xs as [|x xs IH]; intros Hact st st' H; [injection H as <-; by split; [|intros a a' (x & []%not_elem_of_nil & _)]|].
  cbn [run_cells] in H. destruct (act st x) as [st1|] eqn:E1; [|done]. rewrite mbind_Some in H. destruct (Hact x st st1 ltac:(left) E1) as [G1 S1]. destruct (IH ltac:(intros y s s' Hy; apply Hact; by right) st1 st' H) as [G2 S2].
  split; [auto|]. intros a a' (y & [->|Hy]%elem_of_cons & Hp); [by apply G2, S1|apply S2; by exists y].
Qed.

Lemma touch_grows_to x y b : is_nan x = false -> is_nan y = false -> grows_to (fun a a' => a = x /\ a' = y) b (touch x y b).
Proof using Type. intros Hx Hy. split; [intros a a'; by apply touch_grows|]. intros a a' [-> ->]. by apply touch_covers. Qed.

Lemma clear_point_grows obs p0 pt st st' : numbers (ray_reaches obs pt) -> clear_point hypot m obs p0 st pt = Some st' -> grows_to (ray_reaches obs pt) (snd st) (snd st').
Proof using Type.
  unfold numbers, clear_point, ray_reaches. destruct st as [c b]. destruct (clip_endpoint _ _ _ _ _) as [wx wy]. intros Hn H.
  destruct (worldToMap m wx wy) as [[p1|]|] eqn:Ew; [|injection H as <-; by split; [|intros x y ([p1 [=]] & _)]|done].
  rewrite mbind_Some in H. destruct (cellDistance m (raytrace_max_range_ obs)) as [far|]; [|done]. rewrite mbind_Some in H. destruct (cellDistance m (raytrace_min_range_ obs)) as [near|]; [|done]. rewrite mbind_Some in H.
  destruct (raytraceLine _ _ _ _ _ _ _ _ _ _) as [c'|]; [|done]. rewrite mbind_Some in H. injection H as <-. cbn [snd]. unfold updateRaytraceBounds.
  destruct (flt _ _); [split; [done|]; by intros x y (_ & [=] & _)|]. destruct (Hn _ _ (conj (ex_intro _ p1 eq_refl) (conj eq_refl (conj eq_refl eq_refl)))) as [Nx Ny].
  destruct (touch_grows_to _ _ b Nx Ny) as [G S]. split; [exact G|]. intros x y (_ & _ & Ex & Ey). by apply S.
Qed.

Lemma raytraceFreespace_grows obs st st' : numbers (swept obs) -> raytraceFreespace hypot m st obs = Some st' -> grows_to (swept obs) (snd st) (snd st').
Proof using Type.
  intros Hn H. unfold raytraceFreespace in H. destruct (worldToMap m _ _) as [[p0|]|] eqn:Ew in H; [|rewrite mbind_Some in H; injection H as <-; split; [done|]; intros x y ([p0 E] & _); congruence|done].
  rewrite mbind_Some in H. assert (Hp : exists p0, worldToMap m (px (origin_ obs)) (py (origin_ obs)) = Some (Some p0)) by by exists p0.
  apply (run_grows _ (ray_reaches obs)) in H as [G S].
  - destruct (Hn (px (origin_ obs)) (py (origin_ obs))) as [Nx Ny]; [split; [done|by left]|]. destruct (touch_grows_to _ _ (snd st) Nx Ny) as [G0 S0]. split; [intros x y Hc; by apply G, G0|].
    intros x y (_ & [Hxy|(pt & Hpt & He)]); [by apply G, S0|apply S; by exists pt].
  - intros pt st1 st2 Hpt. apply clear_point_grows. intros x y He. apply Hn. split; [done|]. right. by exists pt.
Qed.

Lemma clearing_grows observations st st' : (forall obs, obs ∈ observations -> numbers (swept obs)) -> run_cells (raytraceFreespace hypot m) observations st = Some st' ->
  grows_to (fun x y => exists obs, obs ∈ observations /\ swept obs x y) (snd st) (snd st').
Proof using Type. intros Hn. apply run_grows. intros obs st1 st2 Ho. by apply raytraceFreespace_grows, Hn. Qed.

Lemma hits_on l observations es : hits l m observations = Some es -> Forall (loc_on m) (fst <$> es).
Proof using Type.
  unfold hits. intros H. destruct (mapM _ _) as [ess|] eqn:Ess; [|done]. injection H as <-. apply Forall_fmap, Forall_concat. apply mapM_Some in Ess. eapply Forall2_Forall_r; [exact Ess|]. apply Forall_true. clear. intros obs es H.
  unfold hits_of in H. destruct (cellDistance m (obstacle_max_range_ obs)) as [far|]; [|done]. rewrite mbind_Some in H. destruct (cellDistance m (obstacle_min_range_ obs)) as [near|]; [|done]. rewrite mbind_Some in H.
  destruct (worldToMap m _ _) as [[p0|]|] eqn:Ew; [|by injection H as <-|done]. rewrite mbind_Some in H. destruct (mapM _ _) as [ess|] eqn:Ess; [|done]. injection H as <-. apply Forall_concat. apply mapM_Some in Ess. eapply Forall2_Forall_r; [exact Ess|]. apply Forall_true. clear.
  intros pt es H. unfold hit_of in H. destruct (_ || _); [by injection H as <-|]. destruct (worldToMap m _ _) as [[p|]|] eqn:Ew; [|by injection H as <-|done]. rewrite mbind_Some in H. destruct (f_to_u32 _); [|done]. rewrite mbind_Some in H. injection H as <-.
  destruct (_ && _); [|done]. apply Forall_singleton. by apply worldToMap_on in Ew.
Qed.

Lemma marking_paints l observations es c b : hits l m observations = Some es -> alen c = alen c0 ->
  exists c' b', run_cells (mark_observation hypot l m) observations (c, b) = Some (c', b') /\ paints m LETHAL_OBSTACLE (fst <$> es) c c' /\ grows_over es b b'.
Proof using Hm.
  intros Hh Hl. pose proof (hits_on l observations es Hh) as Hon. unfold hits in Hh. destruct (mapM _ _) as [ess|] eqn:Ess; [|done]. injection Hh as <-.
  by apply (run_paints m c0 LETHAL_OBSTACLE fst grows_over (mark_observation hypot l m) (hits_of l m) grows_nil grows_app observations ltac:(intros; apply mark_observation_paints) ess c b Ess).
Qed.
End effect.

(** ** The observations of an update *)

Section gathering.
Context (now : nat -> Z).

(** The observations one update marks and clears with, and whether the layer
    is then current. *)
Definition gathered (t : nat) (l : ObstacleLayer) : option (nat * ObstacleLayer * list Observation * list Observation * bool) :=
  '(t, l, marking, marking_current) ← getMarkingObservations now t l [];
  '(t, l, clearing, current) ← (if marking_current : bool then getClearingObservations now t l [] else Some (t, l, [], false));
  Some (t, l, marking, clearing, current).

Lemma gather_length positions : forall t buffers observations current t' buffers' observations' current', gather now t buffers positions observations current = Some (t', buffers', observations', current') -> alen buffers' = alen buffers.
Proof.
  induction positions as [|i positions IH]; intros t buffers observations current t' buffers' observations' current' H; [by injection H as _ <- _ _|]. cbn [gather] in H.
  destruct (aget buffers i) as [b|]; [|done]. rewrite mbind_Some in H. destruct (getObservations now t b observations) as [[t1 b1] obs1]. destruct (isCurrent now t1 b1) as [t2 cur]. destruct (aset buffers i b1) as [bufs|] eqn:E; [|done]. rewrite mbind_Some in H.
  apply IH in H. apply aset_len in E. congruence.
Qed.

Lemma gathered_buffers t l t' l' marking clearing current : gathered t l = Some (t', l', marking, clearing, current) -> exists buffers, l' = only_buffers l buffers /\ alen buffers = alen (observation_buffers_ l).
Proof.
  unfold gathered, getMarkingObservations, getClearingObservations. intros H. destruct (gather now t _ _ _ _) as [[[[t1 bufs] obs] cur]|] eqn:E; [|done]. rewrite !mbind_Some in H. apply gather_length in E. destruct cur.
  - destruct (gather _ _ _ _ _ _) as [[[[t2 bufs'] obs'] cur']|] eqn:E'; [|done]. rewrite !mbind_Some in H. injection H as _ <- _ _ _. apply gather_length in E'. exists bufs'. split; [done|exact (eq_trans E' E)].
  - rewrite !mbind_Some in H. injection H as _ <- _ _ _. by exists bufs.
Qed.

(** The buffers used are among those of the layer. *)
Definition buffers_ok (l : ObstacleLayer) : Prop :=
  Forall (fun i => 0 <= i < alen (observation_buffers_ l)) (marking_buffers_ l) /\ Forall (fun i => 0 <= i < alen (observation_buffers_ l)) (clearing_buffers_ l).

Lemma gather_ok positions : forall t buffers observations current, Forall (fun i => 0 <= i < alen buffers) positions ->
  exists t' buffers' observations' current', gather now t buffers positions observations current = Some (t', buffers', observations', current') /\ alen buffers' = alen buffers.
Proof.
  induction positions as [|i positions IH]; intros t buffers observations current Hp; [by eexists _, _, _, _|]. apply Forall_cons in Hp as [Hi Hp]. cbn [gather].
  destruct (aget_is_Some buffers i Hi) as [b ->]. mred. destruct (getObservations now t b observations) as [[t1 b1] obs1]. destruct (isCurrent now t1 b1) as [t2 cur]. destruct (aset_is_Some buffers i b1 Hi) as [bufs E]. rewrite E. mred.
  pose proof (aset_len _ _ _ _ E) as Hl. destruct (IH t2 bufs obs1 (cur && current)) as (t' & bufs' & obs' & cur' & -> & Hl'); [by rewrite Hl|]. eexists _, _, _, _. split; [done|congruence].
Qed.

Lemma gathered_ok t l : buffers_ok l -> exists t' l' marking clearing current, gathered t l = Some (t', l', marking, clearing, current).
Proof.
  intros [Hma Hcl]. unfold gathered, getMarkingObservations, getClearingObservations. destruct (gather_ok _ t _ [] true Hma) as (t1 & bufs & obs & cur & -> & Hl). mred. destruct cur; [|by eexists _, _, _, _, _].
  destruct (gather_ok (clearing_buffers_ l) t1 bufs [] true) as (t2 & bufs' & obs' & cur' & E & _); [by rewrite Hl|]. cbn [only_buffers set_buffers observation_buffers_ clearing_buffers_ ol_base]. cbn. rewrite E. by eexists _, _, _, _, _.
Qed.

(** A source has not been heard of for too long. *)
Definition silent (t : nat) (b : ObservationBuffer) : Prop :=
  expected_update_rate_ b <> 0 /\ forall k, (t <= k)%nat -> expected_update_rate_ b < now k - last_updated_ b.

Lemma drop_stale_time keep l : forall t, (t <= fst (drop_stale now keep t l))%nat.
Proof.
  induction l as [|o l IH]; intros t; cbn [drop_stale]; [done|]. destruct (_ <? _); [cbn; lia|]. specialize (IH (S t)). destruct (drop_stale now keep (S t) l). cbn in *. lia.
Qed.

Lemma getObservations_buffer t b observations t' b' observations' : getObservations now t b observations = (t', b', observations') ->
  (t <= t')%nat /\ expected_update_rate_ b' = expected_update_rate_ b /\ last_updated_ b' = last_updated_ b.
Proof.
  unfold getObservations, purgeStaleObservations. pose proof (drop_stale_time (observation_keep_time_ b) (observation_list_ b) t) as Ht. destruct (observation_list_ b) as [|o os] eqn:Eo; [by intros [= <- <- _]|].
  destruct (_ =? 0); [by intros [= <- <- _]|]. destruct (drop_stale now (observation_keep_time_ b) t (o :: os)) as [t1 l1]. by intros [= <- <- _].
Qed.

Lemma gather_silent i positions : forall t buffers observations current t' buffers' observations' current' b,
  gather now t buffers positions observations current = Some (t', buffers', observations', current') ->
  aget buffers i = Some b -> silent t b -> i ∈ positions \/ current = false -> current' = false.
Proof.
  induction positions as [|j positions IH]; intros t buffers observations current t' buffers' observations' current' b H Hb Hs Hin.
  - cbn in H. injection H as _ _ _ <-. destruct Hin as [?%elem_of_nil|?]; done.
  - cbn [gather] in H. destruct (aget buffers j) as [bj|] eqn:Ej; [|done]. rewrite mbind_Some in H. destruct (getObservations now t bj observations) as [[t1 b1] obs1] eqn:Eg. destruct (getObservations_buffer _ _ _ _ _ _ Eg) as (Ht & Er & Eu).
    destruct (isCurrent now t1 b1) as [t2 cur] eqn:Ec. destruct (aset buffers j b1) as [bufs|] eqn:Es; [|done]. rewrite mbind_Some in H.
    assert (Ht2 : (t1 <= t2)%nat). { unfold isCurrent in Ec. destruct (_ =? 0); injection Ec as <- _; [|destruct (_ <=? _)]; lia. }
    pose proof (aget_aset _ _ _ _ i Es) as Eb. destruct Hs as [Hr Hs]. destruct (Z.eqb_spec j i) as [->|Hne].
    + assert (bj = b) as -> by congruence. apply (IH _ _ _ _ _ _ _ _ b1 H Eb).
      * split; [congruence|]. intros k Hk. rewrite Er, Eu. apply Hs. lia.
      * right. unfold isCurrent in Ec. rewrite Er, Eu, (proj2 (Z.eqb_neq _ _)) in Ec by done. injection Ec as _ <-. rewrite (proj2 (Z.leb_gt _ _)); [done|]. apply Hs. lia.
    + apply (IH _ _ _ _ _ _ _ _ b H); [by rewrite Eb| |].
      * split; [done|]. intros k Hk. apply Hs. lia.
      * destruct Hin as [[?|?]%elem_of_cons|Hin]; [by subst|by left|right; by rewrite Hin, andb_false_r].
Qed.

Lemma gathered_silent t l i b : buffers_ok l -> i ∈ marking_buffers_ l -> aget (observation_buffers_ l) i = Some b -> silent t b ->
  exists t' l' marking, gathered t l = Some (t', l', marking, [], false).
Proof.
  intros [Hma _] Hi Hb Hs. unfold gathered, getMarkingObservations. destruct (gather_ok _ t _ [] true Hma) as (t1 & bufs & obs & cur & E & _).
  rewrite (gather_silent i _ _ _ _ _ _ _ _ _ b E Hb Hs (or_introl Hi)) in E. rewrite E. mred. by eexists _, _, _.
Qed.
End gathering.

(** ** An update *)

Section update.
Context (fresh_byte : Z -> Z) (hypot : spec_float -> spec_float -> spec_float) (cos sin : spec_float -> spec_float) (now : nat -> Z).

Definition point_number (p : Point) : Prop := is_nan (px p) = false /\ is_nan (py p) = false.

(** The layer whose observations an update gathers: scrolled, its extra bounds
    taken. *)
Definition begun (l : ObstacleLayer) (b : Bounds) : ObstacleLayer := set_base l (fst (useExtraBounds (ol_base l) b)).

Lemma transformFootprint_total x y theta spec oriented : exists f, transformFootprint cos sin x y theta spec oriented = Some f.
Proof using Type.
  unfold transformFootprint. set (resized := take _ _ ++ _).
  assert (Hl : alen resized = alen spec). { unfold resized, alen. rewrite length_app, length_take, length_replicate. lia. }
  destruct (for_range_inv (fun _ f => alen f = alen spec) (fun i oriented => p ← aget spec i; new_pt ← aget oriented i; let '(new_x, new_y) := orient x y (cos theta) (sin theta) p in aset oriented i (mkPoint new_x new_y (pz new_pt))) 0 (alen spec) resized)
    as (f & E & _); [apply alen_nonneg|done| |by exists f].
  intros i f Hi Hf. destruct (aget_is_Some spec i Hi) as [p ->]. mred. destruct (aget_is_Some f i ltac:(lia)) as [q ->]. mred. destruct (orient _ _ _ _ _) as [nx ny].
  destruct (aset_is_Some f i (mkPoint nx ny (pz q)) ltac:(lia)) as [f' E]. exists f'. split; [done|]. apply aset_len in E. congruence.
Qed.

(** The boxes a list of points makes. *)
Lemma touches_grow f : Forall point_number f -> forall b, (forall x y, covers b x y -> covers (foldl (fun b p => touch (px p) (py p) b) b f) x y) /\ Forall (fun p => covers (foldl (fun b p => touch (px p) (py p) b) b f) (px p) (py p)) f.
Proof using Type.
  induction 1 as [|p f [Hx Hy] _ IH]; intros b; [done|]. cbn [foldl]. destruct (IH (touch (px p) (py p) b)) as [Hg Hc]. split; [intros x y H; by apply Hg, touch_grows|].
  constructor; [by apply Hg, touch_covers|done].
Qed.

Lemma own_cells_base l b : layer_map (fst (useExtraBounds (ol_base l) b)) = own_map l.
Proof using Type. unfold useExtraBounds. by destruct (negb _). Qed.

Lemma enabled_base l b : enabled_ (fst (useExtraBounds (ol_base l) b)) = enabled_ (ol_base l).
Proof using Type. unfold useExtraBounds. by destruct (negb _). Qed.

(** What an update does, once its observations are gathered. *)
Lemma updateBounds_run t l l0 v x y yaw b c t' l2 marking clearing current seen es :
  scroll fresh_byte l x y = Some l0 -> enabled_ (ol_base l0) = true -> wf_map (own_map l0) c ->
  gathered now t (begun l0 b) = Some (t', l2, marking, clearing, current) ->
  seen_through hypot (own_map l0) clearing = Some seen -> Forall (loc_on (own_map l0)) seen -> hits hypot l0 (own_map l0) marking = Some es ->
  exists l' b' c', updateBounds fresh_byte hypot cos sin now t l v x y yaw b = Some (t', l', b') /\
    own_map l' = with_costmap (own_map l0) (Some c') /\ wf_map (own_map l') c' /\ current_ (ol_base l') = current /\ enabled_ (ol_base l') = true /\
    (forall i j, on_map (own_map l0) i j -> grid_at c' (size_x_ (own_map l0)) i j =
       if bool_decide (mkLoc i j ∈ fst <$> es) then Some LETHAL_OBSTACLE else if bool_decide (mkLoc i j ∈ seen) then Some FREE_SPACE else grid_at c (size_x_ (own_map l0)) i j) /\
    (Forall point_number (transformed_footprint_ l') \/ footprint_clearing_enabled_ l0 = false -> Forall (fun e => sees b' (snd e)) es) /\
    (footprint_clearing_enabled_ l0 = true -> Forall point_number (transformed_footprint_ l') -> Forall (fun p => covers b' (px p) (py p)) (transformed_footprint_ l')) /\
    footprint_clearing_enabled_ l' = footprint_clearing_enabled_ l0 /\ (buffers_ok l0 -> buffers_ok l') /\
    (footprint_clearing_enabled_ l0 = true -> transformFootprint cos sin x y yaw (v_footprint v) (transformed_footprint_ l0) = Some (transformed_footprint_ l')) /\
    (Forall point_number (transformed_footprint_ l') \/ footprint_clearing_enabled_ l0 = false -> (forall obs, obs ∈ clearing -> numbers (swept hypot (own_map l0) obs)) ->
      forall obs a a', obs ∈ clearing -> swept hypot (own_map l0) obs a a' -> covers b' a a').
Proof using Type.
  intros Es Hen Hm Hg Hseen Hon Hhits. unfold updateBounds. rewrite Es. mred. rewrite Hen. cbn [negb]. unfold begun in Hg.
  destruct (gathered_buffers _ _ _ _ _ _ _ _ Hg) as (bufs & E2 & Elen). unfold gathered in Hg. pose proof (own_cells_base l0 b) as Emap. pose proof (enabled_base l0 b) as Een. destruct (useExtraBounds (ol_base l0) b) as [base b0]. cbn [fst] in *.
  destruct (getMarkingObservations now t (set_base l0 base) []) as [[[[t1 l1] obs] mcur]|]; [|done]. rewrite mbind_Some in Hg. mred.
  destruct (if mcur : bool then _ else _) as [[[[t2 l2'] clr] cur]|]; [|done]. rewrite mbind_Some in Hg. injection Hg as -> -> -> -> ->. mred.
  set (m := own_map l0) in *.
  assert (Em : own_map (set_flags l2 current (enabled_ (ol_base l2))) = m) by (by rewrite E2). rewrite Em, (wf_some _ _ Hm). mred.
  destruct (clearing_paints hypot m c Hm clearing seen c b0 Hseen Hon eq_refl) as (c1 & b1 & E1 & P1). rewrite E1. mred.
  assert (Hhits' : hits hypot (set_flags l2 current (enabled_ (ol_base l2))) m marking = Some es) by (rewrite E2; exact Hhits).
  destruct (marking_paints hypot m c Hm (set_flags l2 current (enabled_ (ol_base l2))) marking es c1 b1 Hhits' (proj1 P1)) as (c2 & b2 & -> & P2 & G2). mred.
  assert (Hl : alen c2 = alen c) by (rewrite (proj1 P2); apply P1).
  assert (Hgrid : forall i j, on_map m i j -> grid_at c2 (size_x_ m) i j = if bool_decide (mkLoc i j ∈ fst <$> es) then Some LETHAL_OBSTACLE else if bool_decide (mkLoc i j ∈ seen) then Some FREE_SPACE else grid_at c (size_x_ m) i j).
  { intros i j Hij. rewrite (proj2 P2) by done. case_bool_decide; [done|]. by rewrite (proj2 P1). }
  assert (Hen2 : enabled_ (ol_base l2) = true) by (by rewrite E2; cbn; rewrite Een).
  assert (Hfc : footprint_clearing_enabled_ l2 = footprint_clearing_enabled_ l0) by (by rewrite E2). destruct G2 as [G2 S2].
  assert (Hsw : (forall obs, obs ∈ clearing -> numbers (swept hypot m obs)) -> forall obs a a', obs ∈ clearing -> swept hypot m obs a a' -> covers b2 a a').
  { intros Hn obs a a' Ho Ha. destruct (clearing_grows hypot m clearing _ _ Hn E1) as [_ S1]. apply G2, S1. by exists obs. }
  assert (Htf : transformed_footprint_ l2 = transformed_footprint_ l0) by (by rewrite E2).
  assert (Hbo : buffers_ok l0 -> buffers_ok l2) by (intros [? ?]; rewrite E2; unfold buffers_ok; cbn [only_buffers set_buffers observation_buffers_ marking_buffers_ clearing_buffers_]; rewrite Elen; done).
  unfold updateFootprint. change (footprint_clearing_enabled_ (set_cells (set_flags l2 current (enabled_ (ol_base l2))) c2)) with (footprint_clearing_enabled_ l2). rewrite Hfc. destruct (footprint_clearing_enabled_ l0); cbn [negb].
  - destruct (transformFootprint_total x y yaw (v_footprint v) (transformed_footprint_ l0)) as [f Ef]. rewrite <- Htf in Ef. change (transformed_footprint_ (set_cells (set_flags l2 current (enabled_ (ol_base l2))) c2)) with (transformed_footprint_ l2). rewrite Ef. mred. rewrite Htf in Ef. eexists _, _, c2. split; [done|].
    assert (Eo : own_map (set_transformed (set_cells (set_flags l2 current (enabled_ (ol_base l2))) c2) f) = with_costmap m (Some c2)) by (by rewrite <- Em).
    rewrite Eo. split; [done|]. split; [by eapply wf_with_costmap|]. split; [done|]. split; [exact Hen2|]. split; [exact Hgrid|]. cbn [transformed_footprint_ set_transformed]. split.
    + intros [Hf|?]; [|done]. eapply Forall_impl; [exact S2|]. intros e He. by apply (touches_grow f Hf b2).
    + split; [intros _ Hf; by apply touches_grow|]. split; [exact Hfc|]. split; [exact Hbo|]. split; [intros _; exact Ef|].
      intros [Hf|?] Hn obs a a' Ho Ha; [|done]. by apply (touches_grow f Hf b2), (Hsw Hn obs).
  - mred. eexists _, _, c2. split; [done|].
    assert (Eo : own_map (set_cells (set_flags l2 current (enabled_ (ol_base l2))) c2) = with_costmap m (Some c2)) by (by rewrite <- Em).
    rewrite Eo. split; [done|]. split; [by eapply wf_with_costmap|]. split; [done|]. split; [exact Hen2|]. split; [exact Hgrid|]. split; [intros _; exact S2|]. split; [done|]. split; [exact Hfc|]. split; [exact Hbo|]. split; [done|]. intros _. exact Hsw.
Qed.
End update.

(** ** A layer of the layered costmap *)

(** The fill of the footprint is defined. *)
Definition fills (hypot : spec_float -> spec_float -> spec_float) (m : Costmap2D) (f : list Point) : Prop := is_Some (setConvexPolygonCost hypot m ((fun p => (px p, py p)) <$> f) FREE_SPACE).

Lemma write_defined (f : MapLocation -> Z) v cells : forall (c1 c2 c1' : list Z), run_cells (fun c loc => aset c (f loc) v) cells c1 = Some c1' -> alen c2 = alen c1 -> exists c2', run_cells (fun c loc => aset c (f loc) v) cells c2 = Some c2'.
Proof.
  induction cells as [|p cells IH]; intros c1 c2 c1' H Hl; [by eexists|]. cbn [run_cells] in *. destruct (aset c1 (f p) v) as [d1|] eqn:E1; [|done]. rewrite mbind_Some in H. pose proof (aset_len _ _ _ _ E1) as Hd1.
  destruct (aset_is_Some c2 (f p) v) as [d2 E2]. { rewrite Hl. by apply aset_inv in E1 as [? _]. } rewrite E2. mred. apply aset_len in E2. apply (IH d1 d2 c1' H). congruence.
Qed.

Lemma map_polygon_same m c polygon : map_polygon (with_costmap m c) polygon = map_polygon m polygon.
Proof.
  induction polygon as [|[wx wy] polygon IH]; [done|]. cbn [map_polygon]. change (worldToMap (with_costmap m c) wx wy) with (worldToMap m wx wy). destruct (worldToMap m wx wy) as [[loc|]|]; [|done..]. rewrite !mbind_Some. by rewrite IH.
Qed.

(** A fill depends on the geometry only. *)
Lemma fills_same hypot m c c' f : costmap_ m = Some c -> alen c' = alen c -> fills hypot m f -> fills hypot (with_costmap m (Some c')) f.
Proof.
  intros Ec Hl [[r m1] H]. unfold fills, setConvexPolygonCost in *. set (poly := _ <$> f) in *. rewrite map_polygon_same. destruct (map_polygon m poly) as [[locs|]|]; [|by eexists|done].
  rewrite mbind_Some in H. rewrite mbind_Some. change (convexFillCells hypot (with_costmap m (Some c')) locs []) with (convexFillCells hypot m locs []). destruct (convexFillCells hypot m locs []) as [cells|]; [|done]. rewrite mbind_Some in H. mred.
  rewrite Ec, mbind_Some in H. cbn [costmap_ with_costmap]. mred. destruct (run_cells _ _ c) as [c1|] eqn:E1; [|done]. destruct (write_defined _ _ _ c c' c1 E1 Hl) as [c2 E2].
  change (getIndex (with_costmap m (Some c'))) with (getIndex m). rewrite E2. mred. by eexists.
Qed.

(** Filling a polygon leaves each cell as it was or gives it the value. *)
Lemma polygon_writes hypot m c polygon v r m' : costmap_ m = Some c -> setConvexPolygonCost hypot m polygon v = Some (r, m') ->
  exists c', m' = with_costmap m (Some c') /\ alen c' = alen c /\ forall i, aget c' i = aget c i \/ aget c' i = Some v.
Proof.
  intros Hc H. unfold setConvexPolygonCost in H. destruct (map_polygon m polygon) as [[locs|]|]; [| |done]; rewrite mbind_Some in H.
  - destruct (convexFillCells hypot m locs []) as [cells|]; [|done]. rewrite mbind_Some, Hc, mbind_Some in H. destruct (run_cells _ _ c) as [c'|] eqn:E; [|done]. rewrite mbind_Some in H. injection H as _ <-. exists c'. split; [done|].
    apply (run_cells_post _ (fun d => alen d = alen c /\ forall i, aget d i = aget c i \/ aget d i = Some v) _ _ _ E); [by split; [|left]|]. intros p d d' _ [Hl Hd] Ed. split; [apply aset_len in Ed; congruence|]. intros i. rewrite (aget_aset _ _ _ _ i Ed). destruct (_ =? i); [by right|apply Hd].
  - injection H as _ <-. exists c. split; [destruct m; cbn in *; by subst|]. by split; [|left].
Qed.

Lemma fills_write hypot m c polygon v r m' : wf_map m c -> Forall is_u8 c -> is_u8 v -> setConvexPolygonCost hypot m polygon v = Some (r, m') ->
  exists c', m' = with_costmap m (Some c') /\ alen c' = alen c /\ Forall is_u8 c'.
Proof.
  intros Hm Hb Hv H. destruct (polygon_writes _ _ _ _ _ _ _ (wf_some _ _ Hm) H) as (c' & E & Hl & Hc). exists c'. split; [done|]. split; [done|].
  apply Forall_aget. intros i w Hi. destruct (Hc i) as [Hc'|Hc']; rewrite Hc' in Hi; [by apply (proj1 (Forall_aget _ _) Hb i)|by injection Hi as <-].
Qed.

Lemma overwrite_u8 v old : is_u8 v -> is_u8 old -> is_u8 (merge_overwrite v old).
Proof. unfold merge_overwrite. intros ? ?. by destruct (_ =? _). Qed.

Section layer.
Context (fresh_byte : Z -> Z) (hypot : spec_float -> spec_float -> spec_float) (cos sin : spec_float -> spec_float) (now : nat -> Z).

(** The layer goes with the number of the next reading of the clock. *)
#[local] Instance obstacle_ops : LayerOps (nat * ObstacleLayer) := {
  LayeredCostmap.updateBounds l v x y yaw b := '(t, l, b) ← updateBounds fresh_byte hypot cos sin now (fst l) (snd l) v x y yaw b; Some (t, l, b);
  LayeredCostmap.updateCosts l v m min_i min_j max_i max_j := '(l', m) ← updateCosts hypot (snd l) m min_i min_j max_i max_j; Some (fst l, l', m);
  layer_matchSize l v := l' ← obstacle_matchSize fresh_byte (snd l) v; Some (fst l, l');
  onFootprintChanged l v := Some l;
  layer_isCurrent l := current_ (ol_base (snd l));
  layer_isEnabled l := enabled_ (ol_base (snd l));
}.

(** An enabled layer that clears the footprint can fill the last one. *)
Definition footprint_fills (l : ObstacleLayer) : Prop := enabled_ (ol_base l) = true -> footprint_clearing_enabled_ l = true -> fills hypot (own_map l) (transformed_footprint_ l).

Definition obstacle_fits (tl : nat * ObstacleLayer) (sx sy : Z) : Prop :=
  let l := snd tl in
  (exists c, wf_map (own_map l) c /\ Forall is_u8 c) /\ is_u8 (default_value_ (own_map l)) /\ size_x_ (own_map l) = sx /\ size_y_ (own_map l) = sy /\ buffers_ok l /\ footprint_fills l.

(** At a pose: the grid can follow, the observations can be placed on it, and
    the footprint can be filled. *)
Definition obstacle_ready (tl : nat * ObstacleLayer) (v : LayeredView) (x y yaw : spec_float) : Prop :=
  exists l0, scroll fresh_byte (snd tl) x y = Some l0 /\
    if enabled_ (ol_base l0) then
      (forall b t' l2 marking clearing current, gathered now (fst tl) (begun l0 b) = Some (t', l2, marking, clearing, current) ->
         exists seen es, seen_through hypot (own_map l0) clearing = Some seen /\ Forall (loc_on (own_map l0)) seen /\ hits hypot l0 (own_map l0) marking = Some es) /\
      (footprint_clearing_enabled_ l0 = true -> forall f, transformFootprint cos sin x y yaw (v_footprint v) (transformed_footprint_ l0) = Some f -> fills hypot (own_map l0) f)
    else True.

(** Before its first update, or without footprint clearing. *)
Definition obstacle_inv (tl : nat * ObstacleLayer) : Prop :=
  is_u8 (default_value_ (own_map (snd tl))) /\ buffers_ok (snd tl) /\ (footprint_clearing_enabled_ (snd tl) = true -> transformed_footprint_ (snd tl) = []).

Lemma scroll_ok l l0 x y c : wf_map (own_map l) c -> Forall is_u8 c -> is_u8 (default_value_ (own_map l)) -> scroll fresh_byte l x y = Some l0 ->
  l0 = set_own_map l (own_map l0) /\ exists c0, wf_map (own_map l0) c0 /\ Forall is_u8 c0 /\ size_x_ (own_map l0) = size_x_ (own_map l) /\ size_y_ (own_map l0) = size_y_ (own_map l) /\ default_value_ (own_map l0) = default_value_ (own_map l).
Proof using Type.
  intros Hm Hb Hd. unfold scroll. destruct (ol_rolling_window_ l).
  - destruct (updateOrigin _ _ _ _) as [m'|] eqn:E; [|done]. mred. intros [= <-]. destruct (updateOrigin_wf _ _ c _ _ _ Hm Hb Hd E) as (c0 & ? & ? & ? & ? & ?). split; [done|]. by exists c0.
  - intros [= <-]. split; [by destruct l as [[] ? ? ? ? ? ? ? ? ? ? ? ? ?]|by exists c].
Qed.

Lemma obstacle_updateBounds l v sx sy x y yaw b : obstacle_fits l sx sy -> obstacle_ready l v x y yaw ->
  exists l' b', LayeredCostmap.updateBounds l v x y yaw b = Some (l', b') /\ obstacle_fits l' sx sy.
Proof using Type.
  destruct l as [t l]. intros ((c & Hm & Hb) & Hd & Hx & Hy & Hbuf & _) (l0 & Es & Hready). cbn [fst snd] in *. cbn [LayeredCostmap.updateBounds obstacle_ops fst snd].
  destruct (scroll_ok l l0 x y c Hm Hb Hd Es) as (El & c0 & Hm0 & Hb0 & Hx0 & Hy0 & Hd0). assert (Hbuf0 : buffers_ok l0) by (rewrite El; exact Hbuf).
  destruct (enabled_ (ol_base l0)) eqn:Hen.
  - destruct Hready as [Hobs Hfoot]. destruct (gathered_ok now t (begun l0 b) Hbuf0) as (t' & l2 & marking & clearing & current & Hg). destruct (Hobs b _ _ _ _ _ Hg) as (seen & es & Hseen & Hon & Hhits).
    destruct (updateBounds_run fresh_byte hypot cos sin now t l l0 v x y yaw b c0 t' l2 marking clearing current seen es Es Hen Hm0 Hg Hseen Hon Hhits) as (l' & b' & c' & -> & Em & Hw & _ & _ & Hgrid & _ & _ & Hfc & Hbo & Hf & _).
    mred. exists (t', l'), b'. split; [done|]. unfold obstacle_fits. cbn [snd]. assert (Hl : alen c' = alen c0) by (rewrite (wf_alen _ _ Hw), (wf_alen _ _ Hm0), Em; done). split.
    + exists c'. split; [done|]. apply (bytes_of_grid (own_map l0) c0 c' Hm0 Hl). intros i j w Hij Ew. rewrite Hgrid in Ew by done. case_bool_decide; [by simplify_eq|]. case_bool_decide; [by simplify_eq|by eapply grid_bytes].
    + rewrite Em. cbn [default_value_ size_x_ size_y_ with_costmap]. split; [by rewrite Hd0|]. split; [congruence|]. split; [congruence|]. split; [by apply Hbo|]. intros _ Hcl. rewrite Em. rewrite Hfc in Hcl.
      apply (fills_same hypot _ c0); [by apply wf_some|done|]. by apply (Hfoot Hcl), Hf.
  - unfold updateBounds. rewrite Es. mred. rewrite Hen. cbn [negb]. mred. exists (t, l0), b. split; [done|]. unfold obstacle_fits. cbn [snd]. split; [by exists c0|]. split; [by rewrite Hd0|]. split; [congruence|]. split; [congruence|]. split; [done|].
    intros He. by rewrite Hen in He.
Qed.

Lemma clear_footprint_ok l c : wf_map (own_map l) c -> Forall is_u8 c -> footprint_fills l -> enabled_ (ol_base l) = true ->
  exists l' c', (if footprint_clearing_enabled_ l then '(_, m) ← setConvexPolygonCost hypot (own_map l) ((fun p => (px p, py p)) <$> transformed_footprint_ l) FREE_SPACE; Some (set_own_map l m) else Some l) = Some l' /\
    l' = set_own_map l (with_costmap (own_map l) (Some c')) /\ alen c' = alen c /\ Forall is_u8 c'.
Proof using Type.
  intros Hm Hb Hf Hen. destruct (footprint_clearing_enabled_ l) eqn:Ec.
  - destruct (Hf Hen Ec) as [[r m'] E]. rewrite E. mred. destruct (fills_write hypot _ c _ FREE_SPACE r m' Hm Hb ltac:(done) E) as (c' & -> & Hl & Hb'). by exists (set_own_map l (with_costmap (own_map l) (Some c'))), c'.
  - exists l, c. split; [done|]. split; [|done]. pose proof (wf_some _ _ Hm) as E. destruct l as [[[] ? ? ? ? ? ? ?] ? ? ? ? ? ? ? ? ? ? ? ? ?]. cbn in *. by subst.
Qed.

Lemma obstacle_updateCosts l (v : LayeredView) m c min_i min_j max_i max_j :
  obstacle_fits l (size_x_ m) (size_y_ m) -> wf_map m c -> Forall is_u8 c -> window_ok m min_i min_j max_i max_j ->
  exists l' c', LayeredCostmap.updateCosts l v m min_i min_j max_i max_j = Some (l', with_costmap m (Some c')) /\
    alen c' = alen c /\ Forall is_u8 c' /\ obstacle_fits l' (size_x_ m) (size_y_ m) /\
    forall x y, on_map m x y -> ~ in_window min_i min_j max_i max_j x y -> grid_at c' (size_x_ m) x y = grid_at c (size_x_ m) x y.
Proof using Type.
  destruct l as [t l]. intros Hf Hm Hb Hwin. pose proof Hf as ((src & Hsm & Hsb) & Hd & Hx & Hy & Hbuf & Hfill). cbn [snd] in *. cbn [LayeredCostmap.updateCosts obstacle_ops fst snd]. unfold updateCosts.
  assert (Em : m = with_costmap m (Some c)) by (destruct m, Hm; simpl in *; by subst).
  destruct (enabled_ (ol_base l)) eqn:Hen; cbn [negb]; [|mred; exists (t, l), c; by rewrite <- Em].
  set (l1 := if _ && _ then _ else l).
  assert (E1 : own_map l1 = own_map l /\ enabled_ (ol_base l1) = true /\ transformed_footprint_ l1 = transformed_footprint_ l /\ footprint_clearing_enabled_ l1 = footprint_clearing_enabled_ l /\ (buffers_ok l -> buffers_ok l1)).
  { unfold l1. destruct (_ && _); [|done]. by split_and!. }
  clearbody l1. destruct E1 as (Eo & Hen1 & Et & Ef & Eb).
  destruct (clear_footprint_ok l1 src) as (l2 & s2 & E & El2 & Hl2 & Hb2); [by rewrite Eo|done| |done|].
  { intros _ H. rewrite Eo, Et. apply Hfill; congruence. }
  rewrite E. mred. rewrite Eo in El2.
  assert (Hw2 : wf_map (own_map l2) s2) by (rewrite El2; by eapply wf_with_costmap).
  assert (Hfit2 : obstacle_fits (t, l2) (size_x_ m) (size_y_ m)).
  { unfold obstacle_fits. cbn [snd]. split; [by exists s2|]. rewrite El2. split; [done|]. split; [done|]. split; [done|]. split; [by apply Eb|]. intros _ Hcl. change (fills hypot (with_costmap (own_map l) (Some s2)) (transformed_footprint_ l1)). rewrite Et.
    apply (fills_same hypot _ src); [by apply wf_some|done|]. apply Hfill; [done|]. rewrite <- Ef. exact Hcl. }
  assert (Hfits : fits (ol_base l2) s2 m c) by (destruct Hfit2 as (_ & _ & ? & ? & _); by constructor).
  assert (Hen2 : enabled_ (ol_base l2) = true) by (by rewrite El2).
  destruct (combination_method_ l2 =? 0); [|destruct (combination_method_ l2 =? 1)].
  - destruct (updateWithOverwrite_merged (ol_base l2) s2 m c Hfits _ _ _ _ Hwin Hen2) as (m' & -> & Hmg). mred.
    destruct (merged_grid_window _ _ _ _ _ _ _ _ _ _ Hfits overwrite_u8 Hmg) as (c' & -> & ? & ? & ?). by exists (t, l2), c'.
  - destruct (updateWithMax_merged (ol_base l2) s2 m c Hfits _ _ _ _ Hwin Hen2) as (m' & -> & Hmg). mred.
    destruct (merged_grid_window _ _ _ _ _ _ _ _ _ _ Hfits merge_max_u8 Hmg) as (c' & -> & ? & ? & ?). by exists (t, l2), c'.
  - mred. exists (t, l2), c. by rewrite <- Em.
Qed.

Lemma obstacle_matches l v c : obstacle_inv l -> wf_map (v_master v) c -> exists l', layer_matchSize l v = Some l' /\ obstacle_fits l' (size_x_ (v_master v)) (size_y_ (v_master v)).
Proof using Type.
  destruct l as [t l]. intros (Hd & Hbuf & Hf) [Hsx Hsy Ha _ _]. cbn [snd] in *. cbn [layer_matchSize obstacle_ops fst snd]. unfold obstacle_matchSize, matchSize.
  destruct (resizeMap_cells fresh_byte (layer_map (ol_base l)) (size_x_ (v_master v)) (size_y_ (v_master v)) (resolution_ (v_master v)) (origin_x_ (v_master v)) (origin_y_ (v_master v)))
    as (m' & c' & -> & Hw & Hb & Hx & Hy & Hdm & _); [done..|]. mred. eexists. split; [done|]. unfold obstacle_fits. cbn [snd]. split; [by exists c'|]. split; [change (is_u8 (default_value_ m')); by rewrite Hdm|]. split; [done|]. split; [done|]. split; [done|].
  intros _ Hcl. specialize (Hf Hcl). change (fills hypot m' (transformed_footprint_ l)). rewrite Hf. unfold fills, setConvexPolygonCost. cbn [fmap list_fmap map_polygon]. mred. unfold convexFillCells. cbn. rewrite (wf_some _ _ Hw). mred. by eexists.
Qed.

(** The obstacle layer keeps the promises of a layer, rolling or not. *)
#[local] Instance obstacle_laws rolling : LayerLaws (nat * ObstacleLayer) rolling := {
  layer_inv l _ _ _ := obstacle_inv l;
  layer_footprint _ _ := True;
  layer_fits := obstacle_fits;
  layer_ready := obstacle_ready;
  updateBounds_fits l v sx sy x y yaw b _ := obstacle_updateBounds l v sx sy x y yaw b;
  updateCosts_window l v m c min_i min_j max_i max_j _ := obstacle_updateCosts l v m c min_i min_j max_i max_j;
  matchSize_fits l v c _ H Hw _ := obstacle_matches l v c H Hw;
  footprint_fits l v sx sy H _ := ex_intro _ l (conj eq_refl H);
}.
End layer.

(** C14. An update of the bounds over a grid that followed the robot, with the
    observations gathered from the buffers: when the cells seen through by the
    clearing observations and the hits of the marking ones are defined, the
    update is, and each cell is LETHAL when a point within the heights and the
    ranges hits it, else FREE when it is seen through, else as before; the
    layer is current when all its buffers are; and, when these are numbers, the
    bounds cover the hits, the footprint, and the origin and the end of each
    ray that clears. *)
Theorem updateBounds_marks fresh_byte hypot cos sin now t l l0 v x y yaw b c :
  scroll fresh_byte l x y = Some l0 -> enabled_ (ol_base l0) = true -> wf_map (own_map l0) c -> buffers_ok l0 ->
  exists t' l2 marking clearing current, gathered now t (begun l0 b) = Some (t', l2, marking, clearing, current) /\
  forall seen es, seen_through hypot (own_map l0) clearing = Some seen -> Forall (loc_on (own_map l0)) seen -> hits hypot l0 (own_map l0) marking = Some es ->
  exists l' b' c', updateBounds fresh_byte hypot cos sin now t l v x y yaw b = Some (t', l', b') /\
    own_map l' = with_costmap (own_map l0) (Some c') /\ wf_map (own_map l') c' /\ current_ (ol_base l') = current /\
    (forall i j, on_map (own_map l0) i j -> grid_at c' (size_x_ (own_map l0)) i j =
       if bool_decide (mkLoc i j ∈ fst <$> es) then Some LETHAL_OBSTACLE else if bool_decide (mkLoc i j ∈ seen) then Some FREE_SPACE else grid_at c (size_x_ (own_map l0)) i j) /\
    (Forall point_number (transformed_footprint_ l') \/ footprint_clearing_enabled_ l0 = false -> Forall (fun e => sees b' (snd e)) es) /\
    (footprint_clearing_enabled_ l0 = true -> Forall point_number (transformed_footprint_ l') -> Forall (fun p => covers b' (px p) (py p)) (transformed_footprint_ l')) /\
    (Forall point_number (transformed_footprint_ l') \/ footprint_clearing_enabled_ l0 = false -> (forall obs, obs ∈ clearing -> numbers (swept hypot (own_map l0) obs)) ->
      forall obs a a', obs ∈ clearing -> swept hypot (own_map l0) obs a a' -> covers b' a a').
Proof.
  intros Es Hen Hm Hb. destruct (gathered_ok now t (begun l0 b) Hb) as (t' & l2 & marking & clearing & current & Hg). exists t', l2, marking, clearing, current. split; [exact Hg|]. intros seen es Hseen Hon Hhits.
  destruct (updateBounds_run fresh_byte hypot cos sin now t l l0 v x y yaw b c t' l2 marking clearing current seen es Es Hen Hm Hg Hseen Hon Hhits) as (l' & b' & c' & E & H1 & H2 & H3 & _ & H5 & H6 & H7 & _ & _ & _ & H8).
  by exists l', b', c'.
Qed.

(** C39. One silent source stops all the clearing: when a buffer used to mark has
    not been updated for longer than its expected period, no cell is freed by
    the update, whatever the buffers used to clear hold: they are not even
    read. Cells only become LETHAL. *)
Theorem silent_source_stops_clearing fresh_byte hypot cos sin now t l l0 v x y yaw b c i buffer :
  scroll fresh_byte l x y = Some l0 -> enabled_ (ol_base l0) = true -> wf_map (own_map l0) c -> buffers_ok l0 ->
  i ∈ marking_buffers_ l0 -> aget (observation_buffers_ l0) i = Some buffer -> silent now t buffer ->
  exists t' l2 marking, gathered now t (begun l0 b) = Some (t', l2, marking, [], false) /\
  forall es, hits hypot l0 (own_map l0) marking = Some es ->
  exists l' b' c', updateBounds fresh_byte hypot cos sin now t l v x y yaw b = Some (t', l', b') /\ own_map l' = with_costmap (own_map l0) (Some c') /\ current_ (ol_base l') = false /\
    forall p, loc_on (own_map l0) p -> grid_at c' (size_x_ (own_map l0)) (loc_x p) (loc_y p) = Some LETHAL_OBSTACLE \/ grid_at c' (size_x_ (own_map l0)) (loc_x p) (loc_y p) = grid_at c (size_x_ (own_map l0)) (loc_x p) (loc_y p).
Proof.
  intros Es Hen Hm Hb Hi Hbi Hs. destruct (gathered_silent now t (begun l0 b) i buffer Hb Hi Hbi Hs) as (t' & l2 & marking & Hg). exists t', l2, marking. split; [exact Hg|]. intros es Hhits.
  destruct (updateBounds_run fresh_byte hypot cos sin now t l l0 v x y yaw b c t' l2 marking [] false [] es Es Hen Hm Hg eq_refl ltac:(constructor) Hhits) as (l' & b' & c' & E & H1 & _ & H3 & _ & H5 & _).
  exists l', b', c'. split; [exact E|]. split; [exact H1|]. split; [exact H3|]. intros p Hp. rewrite H5 by exact Hp. case_bool_decide; [by left|right]. by rewrite bool_decide_eq_false_2 by apply not_elem_of_nil.
Qed.

(** ** Examples *)

(** A grid of 5 by 5 cells of one metre, lethal but for its last row; a laser in the cell (0, 2)
    that sees a point in the cell (3, 2), and a camera that sees one in (2, 4). *)
Definition wall_cells : list Z := replicate 20 LETHAL_OBSTACLE ++ replicate 5 FREE_SPACE.
Definition wall_map : Costmap2D := mkCostmap2D 5 5 f_one f_zero f_zero (Some wall_cells) 0.
Definition half_point (x y z : Z) : Point := mkPoint (fdiv (f_of_Z x) (f_of_Z 2)) (fdiv (f_of_Z y) (f_of_Z 2)) (fdiv (f_of_Z z) (f_of_Z 2)).
Definition half_point32 (x y z : Z) : Point := mkPoint (sdiv (s_of_Z x) (s_of_Z 2)) (sdiv (s_of_Z y) (s_of_Z 2)) (sdiv (s_of_Z z) (s_of_Z 2)).
Definition seen_at (stamp : Z) (p : Point) : Observation := mkObservation (half_point 1 5 1) (mkCloud stamp "map" [p]) (f_of_Z 10) f_zero (f_of_Z 10) f_zero.
Definition sensor (rate last : Z) (obs : Observation) : ObservationBuffer :=
  mkObservationBuffer 0 rate last "map" "" [obs] "scan" f_zero (f_of_Z 2) (f_of_Z 10) f_zero (f_of_Z 10) f_zero 0.
Definition laser : ObservationBuffer := sensor 50 990 (seen_at 990 (half_point32 7 5 1)).
Definition camera (last : Z) : ObservationBuffer := sensor 50 last (seen_at last (half_point32 5 9 1)).
Definition example_obstacle (camera_updated : Z) : ObstacleLayer :=
  mkObstacle (mkCostmapLayer wall_map true true false million minus_million million minus_million) [] true "map" f_zero (f_of_Z 2)
    [laser; camera camera_updated] [0; 1] [0] [] [] false false 1.
Definition example_view : LayeredView := mkView false false wall_map [] f_zero.
Definition no_box : Bounds := mkBounds million million minus_million minus_million.
Definition update_at (camera_updated : Z) : option (nat * ObstacleLayer * Bounds) :=
  updateBounds (fun _ => 0) hypot_sqrt (fun x => x) (fun x => x) (fun _ => 1000) 0 (example_obstacle camera_updated) example_view f_zero f_zero f_zero no_box.
Definition cells_after (camera_updated : Z) : option (list Z) := '(_, l, _) ← update_at camera_updated; own_cells l.

Lemma wall_map_wf : wf_map wall_map wall_cells.
Proof. split; vm_compute; intuition discriminate. Qed.

Lemma example_buffers u : buffers_ok (example_obstacle u).
Proof. split; repeat constructor; vm_compute; intuition discriminate. Qed.


Definition laser_sight : Observation := seen_at 990 (half_point32 7 5 1).
Definition camera_sight (last : Z) : Observation := seen_at last (half_point32 5 9 1).

Lemma gathered_both : gathered (fun _ => 1000) 0 (begun (example_obstacle 990) no_box) = Some (3%nat, example_obstacle 990, [laser_sight; camera_sight 990], [laser_sight], true).
Proof. vm_compute. reflexivity. Qed.

Lemma laser_numbers obs : obs ∈ [laser_sight] -> numbers (swept hypot_sqrt wall_map obs).
Proof.
  intros ->%list_elem_of_singleton x y (_ & [[-> ->]|(pt & Hpt & He)]); [by split; vm_compute|]. unfold cloud_points, laser_sight, seen_at in Hpt. apply list_elem_of_singleton in Hpt as ->.
  unfold ray_reaches in He. destruct (clip_endpoint _ _ _ _ _) as [wx wy] eqn:Ec in He. vm_compute in Ec. injection Ec as <- <-. destruct He as (_ & _ & -> & ->). by split; vm_compute.
Qed.

Lemma updateBounds_marks_witness : exists l' b' c', update_at 990 = Some (3%nat, l', b') /\ own_cells l' = Some c' /\
  grid_at c' 5 0 2 = Some FREE_SPACE /\ grid_at c' 5 3 2 = Some LETHAL_OBSTACLE /\ grid_at c' 5 2 4 = Some LETHAL_OBSTACLE /\ sees b' (half_point32 5 9 1) /\
  covers b' (px (origin_ laser_sight)) (py (origin_ laser_sight)).
Proof.
  destruct (updateBounds_marks (fun _ => 0) hypot_sqrt (fun x => x) (fun x => x) (fun _ => 1000) 0 (example_obstacle 990) (example_obstacle 990) example_view f_zero f_zero f_zero no_box wall_cells eq_refl eq_refl wall_map_wf (example_buffers 990))
    as (t' & l2 & marking & clearing & current & Hg & H).
  rewrite gathered_both in Hg. injection Hg as <- <- <- <- <-.
  destruct (H [mkLoc 0 2; mkLoc 1 2; mkLoc 2 2; mkLoc 3 2] [(mkLoc 3 2, half_point32 7 5 1); (mkLoc 2 4, half_point32 5 9 1)]) as (l' & b' & c' & E & Em & _ & _ & Hc & Hs & _ & Hw).
  - vm_compute. reflexivity.
  - repeat constructor; vm_compute; intuition discriminate.
  - vm_compute. reflexivity.
  - exists l', b', c'. split; [exact E|]. split; [unfold own_cells; by rewrite Em|].
    split; [eapply eq_trans; [apply (Hc 0 2); vm_compute; intuition discriminate|vm_compute; reflexivity]|]. split; [eapply eq_trans; [apply (Hc 3 2); vm_compute; intuition discriminate|vm_compute; reflexivity]|].
    split; [eapply eq_trans; [apply (Hc 2 4); vm_compute; intuition discriminate|vm_compute; reflexivity]|].
    assert (Hf : transformed_footprint_ l' = []). { vm_compute in E. injection E as <- _. reflexivity. }
    rewrite Hf in Hs, Hw. split.
    2: { apply (Hw (or_introl (Forall_nil_2 _)) laser_numbers laser_sight); [left|]. split; [|left; split; reflexivity]. eexists. vm_compute. reflexivity. }
    specialize (Hs (or_introl (Forall_nil_2 _))). rewrite Forall_forall in Hs. apply (Hs (mkLoc 2 4, half_point32 5 9 1)). right. left.
Defined.

Lemma silent_source_stops_clearing_witness : exists l' b' c', update_at 900 = Some (3%nat, l', b') /\ own_cells l' = Some c' /\ grid_at c' 5 0 2 = Some LETHAL_OBSTACLE /\ current_ (ol_base l') = false.
Proof.
  destruct (silent_source_stops_clearing (fun _ => 0) hypot_sqrt (fun x => x) (fun x => x) (fun _ => 1000) 0 (example_obstacle 900) (example_obstacle 900) example_view f_zero f_zero f_zero no_box wall_cells 1 (camera 900) eq_refl eq_refl wall_map_wf (example_buffers 900))
    as (t' & l2 & marking & Hg & H).
  - right. left.
  - reflexivity.
  - split; [discriminate|]. intros k _. vm_compute. reflexivity.
  - assert (E : gathered (fun _ => 1000) 0 (begun (example_obstacle 900) no_box) = Some (3%nat, example_obstacle 900, [laser_sight; camera_sight 900], [], false)) by (vm_compute; reflexivity).
    rewrite E in Hg. injection Hg as <- <- <-.
    destruct (H [(mkLoc 3 2, half_point32 7 5 1); (mkLoc 2 4, half_point32 5 9 1)]) as (l' & b' & c' & Eu & Em & Ec & Hc); [vm_compute; reflexivity|].
    exists l', b', c'. split; [exact Eu|]. split; [unfold own_cells; by rewrite Em|]. split; [|exact Ec].
    assert (E2 : grid_at wall_cells 5 0 2 = Some LETHAL_OBSTACLE) by reflexivity. rewrite <- E2. destruct (Hc (mkLoc 0 2)) as [Hl|Hl]; [vm_compute; intuition discriminate|by rewrite E2|exact Hl].
Defined.
