(* ===== verification/VoxelLayer.v ===== *)
(** The voxel layer (voxel_layer.cpp, voxel_layer.hpp): an obstacle layer that
    keeps its obstacles in a voxel grid and projects them on its costmap. *)

From stdpp Require Import strings.
From S2P Require Import Prelude Floats VoxelGrid Bresenham Costmap2D Footprint CostmapLayer LayeredCostmap ObservationBuffer ObstacleLayer.

(** ** The object *)

(** The pointer of the grid to the costmap is the array passed to each call
    that uses it. *)
Record VoxelLayer := mkVoxelLayer {
  vl_base : ObstacleLayer;
  publish_voxel_ : bool;
  voxel_grid_ : VoxelGrid;
  z_resolution_ : spec_float;
  origin_z_ : spec_float;
  unknown_threshold_ : Z;
  mark_threshold_ : Z;
  vl_size_z_ : Z;
}.

Definition VOXEL_BITS : Z := 16.

(** Functional updates. *)
Definition set_obstacle (l : VoxelLayer) (o : ObstacleLayer) : VoxelLayer :=
  mkVoxelLayer o (publish_voxel_ l) (voxel_grid_ l) (z_resolution_ l) (origin_z_ l) (unknown_threshold_ l) (mark_threshold_ l) (vl_size_z_ l).
Definition set_grid (l : VoxelLayer) (g : VoxelGrid) : VoxelLayer :=
  mkVoxelLayer (vl_base l) (publish_voxel_ l) g (z_resolution_ l) (origin_z_ l) (unknown_threshold_ l) (mark_threshold_ l) (vl_size_z_ l).
Definition set_voxels (l : VoxelLayer) (publish : bool) (z_resolution origin_z : spec_float) (unknown mark size_z : Z) : VoxelLayer :=
  mkVoxelLayer (vl_base l) publish (voxel_grid_ l) z_resolution origin_z unknown mark size_z.

Definition voxel_map (l : VoxelLayer) : Costmap2D := own_map (vl_base l).
Definition set_voxel_map (l : VoxelLayer) (m : Costmap2D) : VoxelLayer := set_obstacle l (set_own_map (vl_base l) m).

Section voxel.
Context (fresh_byte fresh_word : Z -> Z) (hypot : spec_float -> spec_float -> spec_float) (cos sin : spec_float -> spec_float) (now : nat -> Z).

(** ** Coordinates *)

(** None is the answer false. *)
Definition worldToMap3DFloat (l : VoxelLayer) (wx wy wz : spec_float) : option (spec_float * spec_float * spec_float) :=
  let m := voxel_map l in
  if flt wx (origin_x_ m) || flt wy (origin_y_ m) || flt wz (origin_z_ l) then None
  else
    let mx := fdiv (fsub wx (origin_x_ m)) (resolution_ m) in
    let my := fdiv (fsub wy (origin_y_ m)) (resolution_ m) in
    let mz := fdiv (fsub wz (origin_z_ l)) (z_resolution_ l) in
    if flt mx (f_of_Z (size_x_ m)) && flt my (f_of_Z (size_y_ m)) && flt mz (f_of_Z (vl_size_z_ l)) then Some (mx, my, mz) else None.

Definition worldToMap3D (l : VoxelLayer) (wx wy wz : spec_float) : option (option (Z * Z * Z)) :=
  let m := voxel_map l in
  if flt wx (origin_x_ m) || flt wy (origin_y_ m) || flt wz (origin_z_ l) then Some None
  else
    mx ← f_to_u32 (fdiv (fsub wx (origin_x_ m)) (resolution_ m));
    my ← f_to_u32 (fdiv (fsub wy (origin_y_ m)) (resolution_ m));
    mz ← f_to_u32 (fdiv (fsub wz (origin_z_ l)) (z_resolution_ l));
    if (mx <? size_x_ m) && (my <? size_y_ m) && (mz <? u32 (vl_size_z_ l)) then Some (Some (mx, my, mz)) else Some None.

Definition mapToWorld3D (l : VoxelLayer) (mx my mz : Z) : spec_float * spec_float * spec_float :=
  let m := voxel_map l in
  (fadd (origin_x_ m) (fmul (fadd (f_of_Z mx) f_half) (resolution_ m)), fadd (origin_y_ m) (fmul (fadd (f_of_Z my) f_half) (resolution_ m)),
   fadd (origin_z_ l) (fmul (fadd (f_of_Z mz) f_half) (z_resolution_ l))).

Definition dist (x0 y0 z0 x1 y1 z1 : spec_float) : spec_float := fsqrt (sq_dist x1 y1 z1 x0 y0 z0).

Definition getSizeInMetersZ (l : VoxelLayer) : option spec_float :=
  n ← checked_s32 (vl_size_z_ l - 1); Some (fmul (fadd (f_of_Z n) f_half) (z_resolution_ l)).

(** ** Resets and sizes *)

Definition resetMaps (l : VoxelLayer) : option VoxelLayer :=
  m ← Costmap2D.resetMaps (voxel_map l);
  g ← VoxelGrid.reset (voxel_grid_ l);
  Some (set_grid (set_voxel_map l m) g).

(** The reset of the obstacle layer calls the virtual [resetMaps]. *)
Definition reset (t : nat) (l : VoxelLayer) : option (nat * VoxelLayer) :=
  l ← resetMaps l;
  let '(t, o) := after_reset now t (vl_base l) in
  l ← resetMaps (set_obstacle l o);
  Some (t, l).

(** The size of the obstacle layer; its resizing calls the virtual
    [resetMaps], which resets the voxels too. *)
Definition base_matchSize (l : VoxelLayer) (v : LayeredView) : option VoxelLayer :=
  o ← obstacle_matchSize fresh_byte (vl_base l) v;
  g ← VoxelGrid.reset (voxel_grid_ l);
  Some (set_grid (set_obstacle l o) g).

Definition voxel_matchSize (l : VoxelLayer) (v : LayeredView) : option VoxelLayer :=
  l ← base_matchSize l v;
  g ← VoxelGrid.resize (voxel_grid_ l) (size_x_ (voxel_map l)) (size_y_ (voxel_map l)) (u32 (vl_size_z_ l));
  _ ← assert_ub ((VoxelGrid.size_x_ g =? size_x_ (voxel_map l)) && (VoxelGrid.size_y_ g =? size_y_ (voxel_map l)));
  Some (set_grid l g).

(** ** The rolling window *)

(** The words [new] returns are those of [fresh_word]. *)
Definition updateOrigin (l : VoxelLayer) (new_origin_x new_origin_y : spec_float) : option VoxelLayer :=
  let m := voxel_map l in
  cell_ox ← f_to_s32 (fdiv (fsub new_origin_x (origin_x_ m)) (resolution_ m));
  cell_oy ← f_to_s32 (fdiv (fsub new_origin_y (origin_y_ m)) (resolution_ m));
  let new_grid_ox := fadd (origin_x_ m) (fmul (f_of_Z cell_ox) (resolution_ m)) in
  let new_grid_oy := fadd (origin_y_ m) (fmul (f_of_Z cell_oy) (resolution_ m)) in
  let size_x := s32 (size_x_ m) in
  let size_y := s32 (size_y_ m) in
  let lower_left_x := clamp cell_ox size_x in
  let lower_left_y := clamp cell_oy size_y in
  let upper_right_x := clamp (cell_ox + size_x) size_x in
  let upper_right_y := clamp (cell_oy + size_y) size_y in
  _ ← assert_ub ((- 2 ^ 31 <=? cell_ox + size_x) && (cell_ox + size_x <? 2 ^ 31));
  _ ← assert_ub ((- 2 ^ 31 <=? cell_oy + size_y) && (cell_oy + size_y <? 2 ^ 31));
  let cell_size_x := u32 (upper_right_x - lower_left_x) in
  let cell_size_y := u32 (upper_right_y - lower_left_y) in
  let local_map := fresh fresh_byte (u32 (cell_size_x * cell_size_y)) in
  let local_voxel_map := fresh fresh_word (u32 (cell_size_x * cell_size_y)) in
  c ← costmap_ m;
  local_map ← copyMapRegion c (u32 lower_left_x) (u32 lower_left_y) (size_x_ m) local_map 0 0 cell_size_x cell_size_x cell_size_y;
  local_voxel_map ← copyMapRegion (data_ (voxel_grid_ l)) (u32 lower_left_x) (u32 lower_left_y) (size_x_ m) local_voxel_map 0 0 cell_size_x
                      cell_size_x cell_size_y;
  l ← resetMaps l;
  let start_x := lower_left_x - cell_ox in
  let start_y := lower_left_y - cell_oy in
  c ← costmap_ (voxel_map l);
  c ← copyMapRegion local_map 0 0 cell_size_x c (u32 start_x) (u32 start_y) (size_x_ m) cell_size_x cell_size_y;
  d ← copyMapRegion local_voxel_map 0 0 cell_size_x (data_ (voxel_grid_ l)) (u32 start_x) (u32 start_y) (size_x_ m) cell_size_x cell_size_y;
  Some (set_grid (set_voxel_map l (mkCostmap2D (size_x_ m) (size_y_ m) (resolution_ m) new_grid_ox new_grid_oy (Some c) (default_value_ m)))
         (set_data (voxel_grid_ l) d)).

Definition voxel_scroll (l : VoxelLayer) (robot_x robot_y : spec_float) : option VoxelLayer :=
  if ol_rolling_window_ (vl_base l) then
    updateOrigin l (fsub robot_x (fdiv (getSizeInMetersX (voxel_map l)) (f_of_Z 2))) (fsub robot_y (fdiv (getSizeInMetersY (voxel_map l)) (f_of_Z 2)))
  else Some l.

(** ** Clearing *)

(** The end of a ray: two cells short of the point, and inside the map. *)
Definition ray_end (l : VoxelLayer) (map_end_x map_end_y map_end_z ox oy oz : spec_float) (pt : Point) : spec_float * spec_float * spec_float :=
  let m := voxel_map l in
  let wpx := f_of_s (px pt) in
  let wpy := f_of_s (py pt) in
  let wpz := f_of_s (pz pt) in
  let distance := dist ox oy oz wpx wpy wpz in
  let scaling_fact := fmax (fmin f_one (fdiv (fsub distance (fmul (f_of_Z 2) (resolution_ m))) distance)) f_zero in
  let wpx := fadd (fmul scaling_fact (fsub wpx ox)) ox in
  let wpy := fadd (fmul scaling_fact (fsub wpy oy)) oy in
  let wpz := fadd (fmul scaling_fact (fsub wpz oz)) oz in
  let a := fsub wpx ox in
  let b := fsub wpy oy in
  let c := fsub wpz oz in
  let t := f_one in
  let t := if fgt wpz map_end_z then fmax f_zero (fmin t (fdiv (fsub (fsub map_end_z f_001) oz) c))
           else if flt wpz (origin_z_ l) then fmin t (fdiv (fsub (origin_z_ l) oz) c) else t in
  let t := if flt wpx (origin_x_ m) then fmin t (fdiv (fsub (origin_x_ m) ox) a) else t in
  let t := if flt wpy (origin_y_ m) then fmin t (fdiv (fsub (origin_y_ m) oy) b) else t in
  let t := if fgt wpx map_end_x then fmin t (fdiv (fsub map_end_x ox) a) else t in
  let t := if fgt wpy map_end_y then fmin t (fdiv (fsub map_end_y oy) b) else t in
  (fadd ox (fmul a t), fadd oy (fmul b t), fadd oz (fmul c t)).

(** What the rays and the points change: the voxels, the cells, the bounds. *)
Definition painted : Type := VoxelGrid * list Z * Bounds.

Definition clear_ray (l : VoxelLayer) (obs : Observation) (map_end_x map_end_y map_end_z : spec_float) (sensor : spec_float * spec_float * spec_float)
    (st : painted) (pt : Point) : option painted :=
  let '(g, costmap, b) := st in
  let '(sensor_x, sensor_y, sensor_z) := sensor in
  let ox := px (origin_ obs) in
  let oy := py (origin_ obs) in
  let '(wpx, wpy, wpz) := ray_end l map_end_x map_end_y map_end_z ox oy (pz (origin_ obs)) pt in
  match worldToMap3DFloat l wpx wpy wpz with
  | None => Some st
  | Some (point_x, point_y, point_z) =>
      cell_raytrace_max_range ← cellDistance (voxel_map l) (raytrace_max_range_ obs);
      cell_raytrace_min_range ← cellDistance (voxel_map l) (raytrace_min_range_ obs);
      g ← clearVoxelLineInMap g sensor_x sensor_y sensor_z point_x point_y point_z (Some costmap) (u32 (unknown_threshold_ l)) (u32 (mark_threshold_ l))
            FREE_SPACE NO_INFORMATION cell_raytrace_max_range cell_raytrace_min_range;
      costmap ← VoxelGrid.costmap g;
      Some (g, costmap, updateRaytraceBounds hypot ox oy wpx wpy (raytrace_max_range_ obs) (raytrace_min_range_ obs) b)
  end.

Definition raytraceFreespace (l : VoxelLayer) (st : painted) (clearing_observation : Observation) : option painted :=
  let m := voxel_map l in
  let ox := px (origin_ clearing_observation) in
  let oy := py (origin_ clearing_observation) in
  let oz := pz (origin_ clearing_observation) in
  match cloud_points (cloud_ clearing_observation) with
  | [] => Some st
  | points =>
      match worldToMap3DFloat l ox oy oz with
      | None => Some st
      | Some sensor =>
          let map_end_x := fadd (origin_x_ m) (getSizeInMetersX m) in
          let map_end_y := fadd (origin_y_ m) (getSizeInMetersY m) in
          size_z ← getSizeInMetersZ l;
          run_cells (clear_ray l clearing_observation map_end_x map_end_y (fadd (origin_z_ l) size_z) sensor) points st
      end
  end.

(** ** Marking *)

(** The voxel of a point that is to be marked, if any. *)
Definition voxel_hit (l : VoxelLayer) (obs : Observation) (pt : Point) : option (option (Z * Z * Z)) :=
  let sq_obstacle_max_range := fmul (obstacle_max_range_ obs) (obstacle_max_range_ obs) in
  let sq_obstacle_min_range := fmul (obstacle_min_range_ obs) (obstacle_min_range_ obs) in
  let x := f_of_s (px pt) in
  let y := f_of_s (py pt) in
  let z := f_of_s (pz pt) in
  if fgt z (max_obstacle_height_ (vl_base l)) then Some None
  else
    let o := origin_ obs in
    let sq_dist := sq_dist x y z (px o) (py o) (pz o) in
    if fge sq_dist sq_obstacle_max_range then Some None
    else if flt sq_dist sq_obstacle_min_range then Some None
    else if flt z (origin_z_ l) then worldToMap3D l x y (origin_z_ l)
    else worldToMap3D l x y z.

Definition mark_voxel (l : VoxelLayer) (obs : Observation) (st : painted) (pt : Point) : option painted :=
  let '(g, costmap, b) := st in
  hit ← voxel_hit l obs pt;
  match hit with
  | None => Some st
  | Some (mx, my, mz) =>
      '(marked, g) ← markVoxelInMap g mx my mz (u32 (mark_threshold_ l));
      if marked : bool then
        costmap ← aset costmap (getIndex (voxel_map l) mx my) LETHAL_OBSTACLE;
        Some (g, costmap, touch (f_of_s (px pt)) (f_of_s (py pt)) b)
      else Some (g, costmap, b)
  end.

Definition mark_voxels (l : VoxelLayer) (st : painted) (obs : Observation) : option painted :=
  run_cells (mark_voxel l obs) (cloud_points (cloud_ obs)) st.

(** ** The handlers of the layer *)

(** Both lists of observations are always read. *)
Definition updateBounds (t : nat) (l : VoxelLayer) (v : LayeredView) (robot_x robot_y robot_yaw : spec_float) (b : Bounds) :
    option (nat * VoxelLayer * Bounds) :=
  l ← voxel_scroll l robot_x robot_y;
  if negb (enabled_ (ol_base (vl_base l))) then Some (t, l, b)
  else
    let '(base, b) := useExtraBounds (ol_base (vl_base l)) b in
    let o := set_base (vl_base l) base in
    '(t, o, observations, marking_current) ← getMarkingObservations now t o [];
    '(t, o, clearing_observations, clearing_current) ← getClearingObservations now t o [];
    let l := set_obstacle l (set_flags o (clearing_current && marking_current) (enabled_ (ol_base o))) in
    costmap ← costmap_ (voxel_map l);
    st ← run_cells (raytraceFreespace l) clearing_observations (voxel_grid_ l, costmap, b);
    '(g, costmap, b) ← run_cells (mark_voxels l) observations st;
    let l := set_grid l g in
    '(o, b) ← updateFootprint cos sin (set_cells (vl_base l) costmap) v robot_x robot_y robot_yaw b;
    Some (t, set_obstacle l o, b).

(** Inherited from the obstacle layer. *)
Definition voxel_updateCosts (l : VoxelLayer) (master_grid : Costmap2D) (min_i min_j max_i max_j : Z) : option (VoxelLayer * Costmap2D) :=
  '(o, master_grid) ← updateCosts hypot (vl_base l) master_grid min_i min_j max_i max_j;
  Some (set_obstacle l o, master_grid).

(** ** Parameters *)

(** The parameters of the voxel layer; an exception of the obstacle layer, for
    a source of an unknown type, leaves the rest undone. *)
Definition voxel_onInitialize (from_seconds : spec_float -> Z) (t : nat) (l : VoxelLayer) (v : LayeredView) (global_frame : string)
    (enabled footprint_clearing : bool) (min_obstacle_height max_obstacle_height : spec_float) (combination_method : Z) (track_unknown_space : bool)
    (transform_tolerance : Z) (sources : list Source) (z_voxels : Z) (origin_z z_resolution : spec_float) (unknown_threshold mark_threshold : Z)
    (publish_voxel_map : bool) : option ((nat * VoxelLayer) + VoxelLayer) :=
  r ← ObstacleLayer.onInitialize fresh_byte now from_seconds t (vl_base l) v global_frame enabled footprint_clearing min_obstacle_height max_obstacle_height
        combination_method track_unknown_space transform_tolerance sources;
  g ← VoxelGrid.reset (voxel_grid_ l);
  match r with
  | inr o => Some (inr (set_grid (set_obstacle l o) g))
  | inl (t, o) =>
      let o := set_params (set_flags o (current_ (ol_base o)) enabled) footprint_clearing (min_obstacle_height_ o) max_obstacle_height combination_method in
      offset ← checked_s32 (VOXEL_BITS - s32 z_voxels);
      unknown ← checked_s32 (s32 unknown_threshold + offset);
      let l := set_voxels (set_grid (set_obstacle l o) g) publish_voxel_map z_resolution origin_z unknown (s32 mark_threshold) (s32 z_voxels) in
      l ← voxel_matchSize l v;
      Some (inl (t, l))
  end.

(** The second component says whether a resize is needed. *)
Definition set_parameter (name : string) (st : VoxelLayer * bool) (param : string * ParameterValue) : option (VoxelLayer * bool) :=
  let '(l, resize) := st in
  let o := vl_base l in
  let named s := String.eqb (fst param) (name ++ "." ++ s)%string in
  let set_o clearing hi method := set_obstacle l (set_params o clearing (min_obstacle_height_ o) hi method) in
  match snd param with
  | PARAMETER_DOUBLE d =>
      if named "max_obstacle_height"%string then Some (set_o (footprint_clearing_enabled_ o) d (combination_method_ o), resize)
      else if named "origin_z"%string then Some (set_voxels l (publish_voxel_ l) (z_resolution_ l) d (unknown_threshold_ l) (mark_threshold_ l) (vl_size_z_ l), true)
      else if named "z_resolution"%string then Some (set_voxels l (publish_voxel_ l) d (origin_z_ l) (unknown_threshold_ l) (mark_threshold_ l) (vl_size_z_ l), true)
      else Some st
  | PARAMETER_BOOL b =>
      if named "enabled"%string then Some (set_obstacle l (set_flags o false b), resize)
      else if named "footprint_clearing_enabled"%string then Some (set_o b (max_obstacle_height_ o) (combination_method_ o), resize)
      else Some st
  | PARAMETER_INTEGER z =>
      if named "z_voxels"%string then Some (set_voxels l (publish_voxel_ l) (z_resolution_ l) (origin_z_ l) (unknown_threshold_ l) (mark_threshold_ l) (s32 z), true)
      else if named "unknown_threshold"%string then
        offset ← checked_s32 (VOXEL_BITS - vl_size_z_ l);
        Some (set_voxels l (publish_voxel_ l) (z_resolution_ l) (origin_z_ l) (s32 (z + offset)) (mark_threshold_ l) (vl_size_z_ l), resize)
      else if named "mark_threshold"%string then
        Some (set_voxels l (publish_voxel_ l) (z_resolution_ l) (origin_z_ l) (unknown_threshold_ l) (s32 z) (vl_size_z_ l), resize)
      else if named "combination_method"%string then Some (set_o (footprint_clearing_enabled_ o) (max_obstacle_height_ o) (s32 z), resize)
      else Some st
  | PARAMETER_OTHER => Some st
  end.

Definition dynamicParametersCallback (name : string) (v : LayeredView) (l : VoxelLayer) (parameters : list (string * ParameterValue)) : option VoxelLayer :=
  '(l, resize) ← run_cells (set_parameter name) parameters (l, false);
  if resize : bool then voxel_matchSize l v else Some l.
End voxel.

(** ** The costmap as a projection of the voxels *)

(** The number of marked voxels of a column. *)
Definition marks_of (w : Z) : Z := popcount 32 (marked_bits w).

(** The cells and the columns: a LETHAL cell stands on a column with more than
    [t] marked voxels and, when [full], every such column is LETHAL. *)
Record projection (full : bool) (t : Z) (c d : list Z) : Prop := {
  pj_len : alen d = alen c;
  pj_words : Forall is_u32 d;
  pj_backed : forall i w, aget c i = Some LETHAL_OBSTACLE -> aget d i = Some w -> t < marks_of w;
  pj_full : full = true -> forall i v w, aget c i = Some v -> aget d i = Some w -> t < marks_of w -> v = LETHAL_OBSTACLE;
}.

(** One column and one cell change, the cell as the column asks. *)
Lemma projection_set full t c d i w w' c' d' v :
  projection full t c d -> aget d i = Some w -> aset d i w' = Some d' -> is_u32 w' -> aset c i v = Some c' ->
  (v = LETHAL_OBSTACLE <-> t < marks_of w') -> projection full t c' d'.
Proof.
  intros [Hl Hw Hb Hf] Hi Hd Hw' Hc Hv. constructor.
  - apply aset_len in Hd, Hc. congruence.
  - apply aset_inv in Hd as [_ ->]. by apply Forall_insert.
  - intros j u. rewrite (aget_aset _ _ _ _ j Hc), (aget_aset _ _ _ _ j Hd). destruct (i =? j); [|apply Hb]. intros [= ->] [= <-]. by apply Hv.
  - intros Hfull j a u. rewrite (aget_aset _ _ _ _ j Hc), (aget_aset _ _ _ _ j Hd). destruct (i =? j); [|by apply Hf]. intros [= <-] [= <-] Ht. by apply Hv.
Qed.

(** One column changes and stays on its side of the threshold, or leaves the
    cell no reason to change. *)
Lemma projection_word full t c d i w w' d' :
  projection full t c d -> aget d i = Some w -> aset d i w' = Some d' -> is_u32 w' -> (t < marks_of w' <-> t < marks_of w) -> projection full t c d'.
Proof.
  intros [Hl Hw Hb Hf] Hi Hd Hw' Hm. constructor.
  - apply aset_len in Hd. congruence.
  - apply aset_inv in Hd as [_ ->]. by apply Forall_insert.
  - intros j u Hj. rewrite (aget_aset _ _ _ _ j Hd). destruct (Z.eqb_spec i j) as [<-|]; [|by apply Hb]. intros [= <-]. apply Hm. by eapply Hb.
  - intros Hfull j a u Hj. rewrite (aget_aset _ _ _ _ j Hd). destruct (Z.eqb_spec i j) as [<-|]; [|by apply Hf]. intros [= <-] Ht. apply Hm in Ht. by eapply Hf.
Qed.

Lemma word_at full t c d i w : projection full t c d -> aget d i = Some w -> is_u32 w.
Proof. intros [_ Hw _ _]. by apply (proj1 (Forall_aget _ _) Hw). Qed.

Section clearing.
Context (full : bool) (t : Z) (Ht : 0 <= t).

(** Clearing a voxel clears the cell when too few voxels are left. *)
Lemma projection_clear unknown st p st' :
  projection full t (snd st) (fst st) -> ClearVoxelInMap unknown t FREE_SPACE NO_INFORMATION st p = Some st' ->
  projection full t (snd st') (fst st') /\ alen (snd st') = alen (snd st).
Proof using Ht.
  destruct st as [d c]. cbn [fst snd]. intros Hp H. unfold ClearVoxelInMap in H. destruct (aget d (fst p)) as [w|] eqn:Ew; [|done]. rewrite mbind_Some in H. cbv zeta in H.
  pose proof (word_at _ _ _ _ _ _ Hp Ew) as Hw. set (w' := Z.land w (not32 (snd p))) in *. assert (Hw' : is_u32 w') by (by apply land_u32).
  destruct (aset d (fst p) w') as [d'|] eqn:Ed; [|done]. rewrite mbind_Some, (bitsBelow_popcount (marked_bits w') t), mbind_Some in H by (first [done|by apply marked_bits_u32]).
  change (popcount 32 (marked_bits w')) with (marks_of w') in H. pose proof (marked_land_le w (not32 (snd p)) Hw : marks_of w' <= marks_of w) as Hle.
  destruct (Z.leb_spec (marks_of w') t) as [Hbelow|Habove].
  - destruct (bitsBelowThreshold (unknown_bits w') unknown) as [bu|]; [|done]. rewrite mbind_Some in H. destruct (aset c (fst p) _) as [c'|] eqn:Ec; [|done]. rewrite mbind_Some in H. injection H as <-. cbn [fst snd].
    split; [|by apply aset_len in Ec]. apply (projection_set _ _ _ _ _ _ _ _ _ _ Hp Ew Ed Hw' Ec). split; [by destruct bu|lia].
  - injection H as <-. cbn [fst snd]. split; [|done]. apply (projection_word _ _ _ _ _ _ _ _ Hp Ew Ed Hw'). lia.
Qed.

(** Grids of the same sizes. *)
Definition same_sizes (g g' : VoxelGrid) : Prop := VoxelGrid.size_x_ g' = VoxelGrid.size_x_ g /\ VoxelGrid.size_y_ g' = VoxelGrid.size_y_ g.

Lemma projection_clear_line g x0 y0 z0 x1 y1 z1 c unknown far near g' c' :
  projection full t c (data_ g) ->
  clearVoxelLineInMap g x0 y0 z0 x1 y1 z1 (Some c) unknown t FREE_SPACE NO_INFORMATION far near = Some g' -> VoxelGrid.costmap g' = Some c' ->
  projection full t c' (data_ g') /\ alen c' = alen c /\ same_sizes g g'.
Proof using Ht.
  intros Hp H Hc. unfold clearVoxelLineInMap in H. cbv zeta in H. destruct (endpoint_out _ _ _ _ _ _ _).
  - injection H as <-. cbn in Hc. injection Hc as <-. done.
  - destruct (VoxelGrid.raytraceLine _ _ _ _ _ _ _ _ _ _ _) as [st|] eqn:E; [|done]. rewrite mbind_Some in H. injection H as <-. cbn in Hc. injection Hc as <-. cbn.
    assert (Hst : projection full t (snd st) (fst st) /\ alen (snd st) = alen c); [|by destruct Hst].
    apply (raytraceLine_inv _ (fun st => projection full t (snd st) (fst st) /\ alen (snd st) = alen c)) with (2 := E); [|done]. intros s p s' [Hs Hl] Es. destruct (projection_clear unknown s p s' Hs Es) as [Hs' Hl']. by rewrite Hl'.
Qed.

(** Marking a voxel marks the cell when enough of them are. *)
Lemma projection_mark g c x y z b g' :
  projection full t c (data_ g) -> markVoxelInMap g x y z t = Some (b, g') ->
  same_sizes g g' /\ if b then forall c', aset c (s32 (cell_index g x y)) LETHAL_OBSTACLE = Some c' -> projection full t c' (data_ g') else projection full t c (data_ g').
Proof using Ht.
  intros Hp H. unfold markVoxelInMap in H. destruct (out_of_bounds g x y z); [by injection H as <- <-|]. cbv zeta in H.
  destruct (full_mask z) as [m|] eqn:Em; [|done]. rewrite mbind_Some in H. destruct (aget _ _) as [w|] eqn:Ew; [|done]. rewrite mbind_Some in H.
  destruct (aset _ _ _) as [d|] eqn:Ed; [|done]. rewrite mbind_Some in H. pose proof (word_at _ _ _ _ _ _ Hp Ew) as Hw. pose proof (lor_u32 w m Hw (full_mask_u32 _ _ Em)) as Hw'.
  rewrite bitsBelow_popcount, mbind_Some in H by (first [done|by apply marked_bits_u32]). injection H as <- <-. split; [done|]. change (popcount 32 (marked_bits (Z.lor w m))) with (marks_of (Z.lor w m)).
  pose proof (marked_lor_le w m Hw (full_mask_u32 _ _ Em) : marks_of w <= marks_of (Z.lor w m)) as Hle.
  destruct (Z.leb_spec (marks_of (Z.lor w m)) t) as [Hbelow|Habove]; cbn [negb].
  - apply (projection_word _ _ _ _ _ _ _ _ Hp Ew Ed Hw'). lia.
  - intros c' Ec. by apply (projection_set _ _ _ _ _ _ _ _ _ _ Hp Ew Ed Hw' Ec).
Qed.
End clearing.

(** A full projection of nothing: no cell is LETHAL and no voxel is marked. *)
Lemma projection_fresh full t c d : 0 <= t -> alen d = alen c ->
  (forall i v, aget c i = Some v -> v <> LETHAL_OBSTACLE) -> (forall i w, aget d i = Some w -> w = unknown_col) -> projection full t c d.
Proof.
  intros Ht Hl Hc Hd. constructor; [done| | |].
  - apply Forall_aget. intros i w ->%Hd. apply (valid_u32 _ unknown_col_valid).
  - intros i w Hi. by apply Hc in Hi.
  - intros _ i v w _ ->%Hd. unfold marks_of. rewrite unknown_col_unmarked. lia.
Qed.

(** ** The invariant of the layer *)

Record voxel_inv (full : bool) (l : VoxelLayer) (c : list Z) : Prop := {
  vi_map : wf_map (voxel_map l) c;
  vi_sx : VoxelGrid.size_x_ (voxel_grid_ l) = size_x_ (voxel_map l);
  vi_sy : VoxelGrid.size_y_ (voxel_grid_ l) = size_y_ (voxel_map l);
  vi_default : is_u8 (default_value_ (voxel_map l)) /\ default_value_ (voxel_map l) <> LETHAL_OBSTACLE;
  vi_proj : projection full (u32 (mark_threshold_ l)) c (data_ (voxel_grid_ l));
}.

Lemma u32_nonneg z : 0 <= u32 z.
Proof. unfold u32. by apply Z.mod_pos_bound. Qed.

Lemma area_u32 m c : wf_map m c -> u32 (size_x_ m * size_y_ m) = alen c.
Proof.
  intros [Hx Hy Ha _ ->]. apply u32_small. unfold is_u32. assert (0 <= size_x_ m * size_y_ m) by (apply Z.mul_nonneg_nonneg; [apply Hx|apply Hy]). clear -Ha H. set (n := size_x_ m * size_y_ m) in *. clearbody n.
  change (2 ^ 31) with 2147483648 in Ha. change (2 ^ 32) with 4294967296. lia.
Qed.

Lemma projection_grid full t m c d : wf_map m c -> alen d = alen c ->
  (forall x y v w, on_map m x y -> grid_at c (size_x_ m) x y = Some v -> grid_at d (size_x_ m) x y = Some w ->
     is_u32 w /\ (v = LETHAL_OBSTACLE -> t < marks_of w) /\ (full = true -> t < marks_of w -> v = LETHAL_OBSTACLE)) ->
  projection full t c d.
Proof.
  intros Hm Hl H.
  assert (Hi : forall i v w, aget c i = Some v -> aget d i = Some w -> is_u32 w /\ (v = LETHAL_OBSTACLE -> t < marks_of w) /\ (full = true -> t < marks_of w -> v = LETHAL_OBSTACLE)).
  { intros i v w Hv Hw. destruct (index_on_map m c i Hm (aget_bounds _ _ _ Hv)) as (x & y & Hp & ->). by apply (H x y). }
  constructor; [done| | |].
  - apply Forall_aget. intros i w Hw. destruct (aget_is_Some c i) as [v Hv]; [apply aget_bounds in Hw; lia|]. by apply (Hi i v w).
  - intros i w Hv Hw. by apply (Hi i _ w Hv Hw).
  - intros Hf i v w Hv Hw Ht. by apply (Hi i v w Hv Hw).
Qed.

(** The grid of a map, as far as sizes go. *)
Definition grid_sized (g : VoxelGrid) : Prop := alen (data_ g) = u32 (VoxelGrid.size_x_ g * VoxelGrid.size_y_ g).

Lemma grid_reset_fresh g g' : grid_sized g -> VoxelGrid.reset g = Some g' ->
  same_sizes g g' /\ grid_sized g' /\ forall i w, aget (data_ g') i = Some w -> w = unknown_col.
Proof.
  unfold grid_sized, VoxelGrid.reset. intros Hl H. destruct (fill_array (data_ g) (u32 (VoxelGrid.size_x_ g * VoxelGrid.size_y_ g)) unknown_col) as (d & E & Hd & Hg); [pose proof (u32_nonneg (VoxelGrid.size_x_ g * VoxelGrid.size_y_ g)); lia|].
  rewrite E, mbind_Some in H. injection H as <-. split; [done|]. cbn. split; [by rewrite Hd|]. intros i w Hi. rewrite Hg in Hi. case_bool_decide as Hb; [by injection Hi as <-|]. apply aget_bounds in Hi. lia.
Qed.

Lemma grid_resize_fresh g sx sy sz g' : grid_sized g -> VoxelGrid.resize g sx sy sz = Some g' ->
  VoxelGrid.size_x_ g' = sx /\ VoxelGrid.size_y_ g' = sy /\ grid_sized g' /\ forall i w, aget (data_ g') i = Some w -> w = unknown_col.
Proof.
  unfold VoxelGrid.resize. intros Hl H. destruct (_ && _) eqn:E.
  - apply grid_reset_fresh in H as ([-> ->] & ? & ?); [|done]. zbool. destruct E as [[-> ->] _]. done.
  - injection H as <-. cbn. split; [done|]. split; [done|]. unfold grid_sized, new_data. cbn. pose proof (u32_nonneg (sx * sy)). split; [unfold alen, anew; rewrite length_replicate; lia|].
    intros i w Hi. pose proof (aget_bounds _ _ _ Hi) as Hb. unfold alen, anew in Hb. rewrite length_replicate in Hb. rewrite aget_anew in Hi by lia. by injection Hi.
Qed.

(** Fresh cells over fresh voxels. *)
Lemma voxel_inv_fresh full l c : wf_map (voxel_map l) c -> is_u8 (default_value_ (voxel_map l)) -> default_value_ (voxel_map l) <> LETHAL_OBSTACLE ->
  VoxelGrid.size_x_ (voxel_grid_ l) = size_x_ (voxel_map l) -> VoxelGrid.size_y_ (voxel_grid_ l) = size_y_ (voxel_map l) -> grid_sized (voxel_grid_ l) ->
  (forall x y, on_map (voxel_map l) x y -> grid_at c (size_x_ (voxel_map l)) x y = Some (default_value_ (voxel_map l))) ->
  (forall i w, aget (data_ (voxel_grid_ l)) i = Some w -> w = unknown_col) -> voxel_inv full l c.
Proof.
  intros Hm Hu Hd Hx Hy Hs Hc Hg. constructor; [done..|]. apply projection_fresh; [apply u32_nonneg| | |done].
  - unfold grid_sized in Hs. by rewrite Hx, Hy, (area_u32 _ _ Hm) in Hs.
  - apply Forall_aget. apply (grid_Forall _ (voxel_map l) c); [done..|]. intros x y v Hp Hv. rewrite Hc in Hv by done. by injection Hv as <-.
Qed.

Lemma voxel_inv_sized full l c : voxel_inv full l c -> grid_sized (voxel_grid_ l).
Proof.
  intros [Hm Hx Hy _ [Hlen _ _ _]]. unfold grid_sized. by rewrite Hx, Hy, (area_u32 _ _ Hm).
Qed.

Lemma resetMaps_inv full full' l c l' : voxel_inv full l c -> resetMaps l = Some l' ->
  (exists c', voxel_inv full' l' c') /\ voxel_map l' = with_costmap (voxel_map l) (costmap_ (voxel_map l')) /\ mark_threshold_ l' = mark_threshold_ l.
Proof.
  intros Hi H. unfold resetMaps in H. destruct (resetMaps_spec _ c (vi_map _ _ _ Hi)) as (c' & E & Hl & Hg). rewrite E, mbind_Some in H. clear E.
  destruct (VoxelGrid.reset (voxel_grid_ l)) as [g|] eqn:Eg; [|done]. rewrite mbind_Some in H. injection H as <-. apply (grid_reset_fresh _ _ (voxel_inv_sized _ _ _ Hi)) in Eg as ([Hx Hy] & Hs & Hw).
  destruct (vi_default _ _ _ Hi) as [Hu Hd]. pose proof (vi_sx _ _ _ Hi). pose proof (vi_sy _ _ _ Hi).
  split; [|split; [done|done]]. exists c'. apply voxel_inv_fresh; [|done..|exact (eq_trans Hx (vi_sx _ _ _ Hi))|exact (eq_trans Hy (vi_sy _ _ _ Hi))|done|exact Hg|done].
  apply (wf_with_costmap _ c); [apply Hi|done].
Qed.

Section handlers.
Context (fresh_byte fresh_word : Z -> Z) (hypot : spec_float -> spec_float -> spec_float) (cos sin : spec_float -> spec_float) (now : nat -> Z).

(** Changes that leave the map and the voxels alone. *)
Lemma voxel_inv_same full l l' c : voxel_inv full l c -> voxel_map l' = voxel_map l -> voxel_grid_ l' = voxel_grid_ l -> mark_threshold_ l' = mark_threshold_ l -> voxel_inv full l' c.
Proof using Type. intros [? ? ? ? ?] Em Eg Et. constructor; rewrite ?Em, ?Eg, ?Et; done. Qed.

Lemma reset_inv full l c t t' l' : voxel_inv full l c -> reset now t l = Some (t', l') -> exists c', voxel_inv true l' c'.
Proof using Type.
  intros Hi H. unfold reset in H. destruct (resetMaps l) as [l1|] eqn:E1; [|done]. rewrite mbind_Some in H. destruct (resetMaps_inv _ true _ _ _ Hi E1) as ((c1 & H1) & _).
  destruct (after_reset now t (vl_base l1)) as [t1 o] eqn:Eo. destruct (resetMaps (set_obstacle l1 o)) as [l2|] eqn:E2; [|done]. rewrite mbind_Some in H. injection H as _ <-.
  assert (H1' : voxel_inv true (set_obstacle l1 o) c1). { apply (voxel_inv_same _ _ _ _ H1); [|done..]. unfold after_reset, resetBuffersLastUpdated in Eo. destruct (reset_all _ _ _). by injection Eo as _ <-. }
  by destruct (resetMaps_inv _ true _ _ _ H1' E2) as (? & _).
Qed.

(** ** Sizes *)

Lemma matchSize_inv l v cm l' : grid_sized (voxel_grid_ l) -> wf_map (v_master v) cm -> is_u8 (default_value_ (voxel_map l)) -> default_value_ (voxel_map l) <> LETHAL_OBSTACLE ->
  voxel_matchSize fresh_byte l v = Some l' -> exists c, voxel_inv true l' c.
Proof using Type.
  intros Hs [Hsx Hsy Ha _ _] Hu Hd H. unfold voxel_matchSize, base_matchSize, obstacle_matchSize, matchSize in H.
  destruct (resizeMap_cells fresh_byte (layer_map (ol_base (vl_base l))) (size_x_ (v_master v)) (size_y_ (v_master v)) (resolution_ (v_master v)) (origin_x_ (v_master v)) (origin_y_ (v_master v)) Hsx Hsy Ha Hu)
    as (m & c & E & Hw & Hb & Hx & Hy & Hdm & Hc).
  rewrite E, !mbind_Some in H. clear E. destruct (VoxelGrid.reset (voxel_grid_ l)) as [g1|] eqn:E1; [|done]. rewrite !mbind_Some in H. apply (grid_reset_fresh _ _ Hs) in E1 as (_ & Hs1 & _).
  destruct (VoxelGrid.resize _ _ _ _) as [g2|] eqn:E2; [|done]. rewrite mbind_Some in H. destruct (assert_ub _); [|done]. rewrite mbind_Some in H. injection H as <-.
  apply (grid_resize_fresh _ _ _ _ _ Hs1) in E2 as (Hgx & Hgy & Hs2 & Hw2). exists c. change (default_value_ m = default_value_ (voxel_map l)) in Hdm.
  apply voxel_inv_fresh; [exact Hw|change (is_u8 (default_value_ m)); by rewrite Hdm|change (default_value_ m <> LETHAL_OBSTACLE); by rewrite Hdm|exact Hgx|exact Hgy|exact Hs2| |exact Hw2].
  intros x y Hp. change (on_map m x y) in Hp. change (grid_at c (size_x_ m) x y = Some (default_value_ m)). rewrite Hdm. etransitivity; [|exact (Hc x y Hp)]. unfold cost_at. by rewrite (wf_some _ _ Hw).
Qed.

(** ** The rolling window *)

(** The cells and the voxels move together. *)
Lemma updateOrigin_inv full l c ox oy l' : voxel_inv full l c -> updateOrigin fresh_byte fresh_word l ox oy = Some l' ->
  (exists c', voxel_inv full l' c') /\ vl_base l' = set_own_map (vl_base l) (voxel_map l') /\ mark_threshold_ l' = mark_threshold_ l.
Proof using Type.
  intros Hi H. pose proof Hi as [Hm Hx Hy [Hu Hd] Hp]. pose proof Hm as [Hsx Hsy Ha Hc Hl]. unfold updateOrigin in H. cbv zeta in H.
  destruct (f_to_s32 (fdiv (fsub ox _) _)) as [cx|]; [|done]. rewrite mbind_Some in H. destruct (f_to_s32 (fdiv (fsub oy _) _)) as [cy|]; [|done]. rewrite mbind_Some in H.
  rewrite !(s32_small (size_x_ (voxel_map l))), !(s32_small (size_y_ (voxel_map l))) in H by (unfold is_s32; clear -Hsx Hsy; ilia).
  destruct (assert_ub (_ && (cx + _ <? _))) eqn:A1; [|done]. rewrite mbind_Some in H. destruct (assert_ub (_ && (cy + _ <? _))) eqn:A2; [|done]. rewrite mbind_Some in H.
  assert (Hcx : is_s32 (cx + size_x_ (voxel_map l))) by (unfold assert_ub in A1; destruct (_ && (cx + _ <? _)) eqn:B1; [|done]; clear -B1; zbool; exact B1).
  assert (Hcy : is_s32 (cy + size_y_ (voxel_map l))) by (unfold assert_ub in A2; destruct (_ && (cy + _ <? _)) eqn:B2; [|done]; clear -B2; zbool; exact B2).
  clear A1 A2. rewrite Hc, mbind_Some in H. set (m := voxel_map l) in *. set (d := data_ (voxel_grid_ l)) in *.
  destruct (resetMaps_spec m c Hm) as (c1 & Er & Hl1 & Hr1).
  destruct (scroll_window fresh_byte m c c1 _ cx cy Hm Hcx Hcy Hl1 Hr1) as (lm & c2 & E1 & E2 & Hl2 & Hg2). rewrite E1, mbind_Some in H.
  destruct (copyMapRegion d _ _ _ _ _ _ _ _ _) as [lv|] eqn:Ev; [|done]. rewrite mbind_Some in H.
  unfold resetMaps in H. change (voxel_map l) with m in H. rewrite Er, mbind_Some in H. destruct (VoxelGrid.reset (voxel_grid_ l)) as [g1|] eqn:Eg; [|done]. rewrite !mbind_Some in H.
  apply (grid_reset_fresh _ _ (voxel_inv_sized _ _ _ Hi)) in Eg as ([Hgx Hgy] & Hs1 & Hw1).
  pose proof (pj_len _ _ _ _ Hp) as Hld. change (alen d = alen c) in Hld.
  assert (Hld1 : alen (data_ g1) = alen d) by (unfold grid_sized in Hs1; rewrite Hs1, Hgx, Hgy, Hx, Hy, Hld; apply (area_u32 _ _ Hm)).
  set (md := with_costmap m (Some d)) in *. assert (Hmd : wf_map md d) by (by apply (wf_with_costmap _ c)).
  assert (Hr1' : forall x y, on_map md x y -> grid_at (data_ g1) (size_x_ md) x y = Some unknown_col).
  { intros x y Hxy. destruct (getIndex_small _ _ _ _ Hm Hxy) as [_ Hb]. unfold grid_at. change (size_x_ md) with (size_x_ m). destruct (aget_is_Some (data_ g1) (y * size_x_ m + x)) as [w Hw]; [rewrite Hld1, Hld, Hl; exact Hb|]. rewrite Hw. f_equal. by eapply Hw1. }
  destruct (scroll_window fresh_word md d (data_ g1) unknown_col cx cy Hmd Hcx Hcy Hld1 Hr1') as (lv' & d2 & E3 & E4 & Hl4 & Hg4).
  change (size_x_ md) with (size_x_ m) in E3, E4. change (size_y_ md) with (size_y_ m) in E3, E4. rewrite E3 in Ev. injection Ev as <-.
  change (costmap_ (voxel_map (set_grid (set_voxel_map l (with_costmap m (Some c1))) g1))) with (Some c1) in H. rewrite mbind_Some in H. change (size_x_ (voxel_map _)) with (size_x_ m) in H. rewrite E2, mbind_Some in H.
  change (data_ (voxel_grid_ (set_grid (set_voxel_map l (with_costmap m (Some c1))) g1))) with (data_ g1) in H. rewrite E4, mbind_Some in H. injection H as <-.
  split; [|split; [done|done]]. exists c2. constructor; [|exact (eq_trans Hgx Hx)|exact (eq_trans Hgy Hy)|done|].
  - constructor; [exact Hsx|exact Hsy|exact Ha|done|]. rewrite Hl2. exact Hl.
  - change (projection full (u32 (mark_threshold_ l)) c2 d2). apply (projection_grid _ _ (with_costmap m (Some c2))); [by apply (wf_with_costmap _ c)|congruence|]. intros x y v w Hxy Hv Hw. change (on_map m x y) in Hxy. change (size_x_ (with_costmap m (Some c2))) with (size_x_ m) in Hv, Hw. rewrite Hg2 in Hv by done. change (size_x_ m) with (size_x_ md) in Hw. rewrite Hg4 in Hw by done.
    destruct (decide (on_map m (x + cx) (y + cy))) as [Ho|Ho]; [rewrite bool_decide_eq_true_2 in Hv, Hw by exact Ho|rewrite bool_decide_eq_false_2 in Hv, Hw by exact Ho].
    + split; [by apply (word_at _ _ _ _ _ _ Hp Hw)|]. split; [intros ->; by apply (pj_backed _ _ _ _ Hp _ _ Hv)|]. intros Hf. by apply (pj_full _ _ _ _ Hp Hf _ _ _ Hv).
    + injection Hv as <-. injection Hw as <-. split; [apply (valid_u32 _ unknown_col_valid)|]. split; [done|]. unfold marks_of. rewrite unknown_col_unmarked. intros _ Ht. pose proof (u32_nonneg (mark_threshold_ l)). lia.
Qed.

Lemma scroll_inv full l c x y l' : voxel_inv full l c -> voxel_scroll fresh_byte fresh_word l x y = Some l' ->
  (exists c', voxel_inv full l' c') /\ vl_base l' = set_own_map (vl_base l) (voxel_map l') /\ mark_threshold_ l' = mark_threshold_ l.
Proof using Type.
  intros Hi. unfold voxel_scroll. destruct (ol_rolling_window_ (vl_base l)); [by apply updateOrigin_inv with c|]. intros [= <-]. split; [by exists c|]. split; [|done]. by destruct l as [[[] ? ? ? ? ? ? ? ? ? ? ? ? ?] ? ? ? ? ? ? ?].
Qed.
(** ** Rays and marks *)

Definition painted_ok (full : bool) (l : VoxelLayer) (n : Z) (st : painted) : Prop :=
  projection full (u32 (mark_threshold_ l)) (snd (fst st)) (data_ (fst (fst st))) /\ alen (snd (fst st)) = n /\ same_sizes (voxel_grid_ l) (fst (fst st)).

Lemma clear_ray_ok full l n obs ex ey ez sensor st pt st' : painted_ok full l n st -> clear_ray hypot l obs ex ey ez sensor st pt = Some st' -> painted_ok full l n st'.
Proof using Type.
  destruct st as [[g c] b], sensor as [[sx sy] sz]. intros (Hp & Hn & Hs) H. cbn [fst snd] in Hp, Hn, Hs. unfold clear_ray in H. destruct (ray_end _ _ _ _ _ _ _ _) as [[wx wy] wz].
  destruct (worldToMap3DFloat _ _ _ _) as [[[x y] z]|]; [|by injection H as <-].
  destruct (cellDistance _ (raytrace_max_range_ obs)) as [far|]; [|done]. rewrite mbind_Some in H. destruct (cellDistance _ (raytrace_min_range_ obs)) as [near|]; [|done]. rewrite mbind_Some in H.
  destruct (clearVoxelLineInMap _ _ _ _ _ _ _ _ _ _ _ _ _ _) as [g'|] eqn:Eg; [|done]. rewrite mbind_Some in H. destruct (VoxelGrid.costmap g') as [c'|] eqn:Ec; [|done]. rewrite mbind_Some in H. injection H as <-.
  destruct (projection_clear_line full _ (u32_nonneg _) _ _ _ _ _ _ _ _ _ _ _ _ _ Hp Eg Ec) as (Hp' & Hn' & [Hx Hy]). unfold painted_ok. cbn [fst snd]. split; [done|]. split; [congruence|]. destruct Hs as [Hx' Hy']. split; congruence.
Qed.

Lemma raytraceFreespace_ok full l n st obs st' : painted_ok full l n st -> raytraceFreespace hypot l st obs = Some st' -> painted_ok full l n st'.
Proof using Type.
  intros Hp H. unfold raytraceFreespace in H. cbv zeta in H. destruct (cloud_points _) as [|pt points]; [by injection H as <-|]. destruct (worldToMap3DFloat _ _ _ _) as [sensor|]; [|by injection H as <-].
  destruct (getSizeInMetersZ l) as [sz|]; [|done]. rewrite mbind_Some in H. apply (run_cells_post _ (painted_ok full l n) _ _ _ H Hp). intros p s s' _ Hs E. by eapply clear_ray_ok.
Qed.

Lemma worldToMap3D_inv l wx wy wz mx my mz : worldToMap3D l wx wy wz = Some (Some (mx, my, mz)) ->
  on_map (voxel_map l) mx my /\ 0 <= mz /\ is_nan wx = false /\ is_nan wy = false.
Proof using Type.
  unfold worldToMap3D. cbv zeta. destruct (_ || _ || _); [done|]. destruct (f_to_u32 (fdiv (fsub wx _) _)) as [x|] eqn:Ex; [|done]. rewrite mbind_Some.
  destruct (f_to_u32 (fdiv (fsub wy _) _)) as [y|] eqn:Ey; [|done]. rewrite mbind_Some. destruct (f_to_u32 (fdiv (fsub wz _) _)) as [z|] eqn:Ez; [|done]. rewrite mbind_Some.
  assert (is_nan wx = false) by (by destruct wx). assert (is_nan wy = false) by (by destruct wy).
  destruct (_ && _ && _) eqn:Eb; [|done]. intros [= <- <- <-]. apply f_to_u32_inv in Ex as [_ [? _]], Ey as [_ [? _]], Ez as [_ [? _]]. zbool. destruct Eb as [[? ?] _]. split; [split; by split|done].
Qed.

Lemma voxel_hit_inv l obs pt mx my mz : voxel_hit l obs pt = Some (Some (mx, my, mz)) ->
  on_map (voxel_map l) mx my /\ 0 <= mz /\ is_nan (f_of_s (px pt)) = false /\ is_nan (f_of_s (py pt)) = false.
Proof using Type.
  unfold voxel_hit. cbv zeta. destruct (fgt _ _); [done|]. destruct (fge _ _); [done|]. destruct (flt _ (fmul _ _)); [done|]. destruct (flt _ _); apply worldToMap3D_inv.
Qed.

Lemma same_index m c g x y : wf_map m c -> on_map m x y -> VoxelGrid.size_x_ g = size_x_ m -> s32 (cell_index g x y) = getIndex m x y.
Proof using Type.
  intros Hm Hp Hx. destruct (getIndex_small m c x y Hm Hp) as [E Hb]. unfold cell_index. rewrite Hx. change (u32 (u32 (y * size_x_ m) + x)) with (getIndex m x y). apply s32_small. rewrite E. pose proof (wf_area _ _ Hm) as Ha. clear -Hb Ha. unfold is_s32. lia.
Qed.

Lemma mark_voxel_ok full l c0 obs st pt st' : wf_map (voxel_map l) c0 -> VoxelGrid.size_x_ (voxel_grid_ l) = size_x_ (voxel_map l) ->
  painted_ok full l (alen c0) st -> mark_voxel l obs st pt = Some st' -> painted_ok full l (alen c0) st'.
Proof using Type.
  destruct st as [[g c] b]. intros Hm Hx (Hp & Hn & [Hgx Hgy]) H. cbn [fst snd] in Hp, Hn, Hgx, Hgy. unfold mark_voxel in H. destruct (voxel_hit l obs pt) as [[[[mx my] mz]|]|] eqn:Eh; [| |done]; rewrite mbind_Some in H; [|by injection H as <-].
  destruct (markVoxelInMap _ _ _ _ _) as [[marked g']|] eqn:Eg; [|done]. rewrite mbind_Some in H. destruct (projection_mark full _ (u32_nonneg _) _ _ _ _ _ _ _ Hp Eg) as [[Hgx' Hgy'] Hp'].
  rewrite (same_index (voxel_map l) c0) in Hp' by (first [done|exact (proj1 (voxel_hit_inv _ _ _ _ _ _ Eh))|congruence]). destruct marked.
  - destruct (aset _ _ _) as [c'|] eqn:Ec; [|done]. rewrite mbind_Some in H. injection H as <-. unfold painted_ok. cbn [fst snd]. split; [by apply Hp'|]. apply aset_len in Ec. split; [congruence|]. split; congruence.
  - injection H as <-. unfold painted_ok. cbn [fst snd]. split; [done|]. split; [done|]. split; congruence.
Qed.

Lemma mark_voxels_ok full l c0 st obs st' : wf_map (voxel_map l) c0 -> VoxelGrid.size_x_ (voxel_grid_ l) = size_x_ (voxel_map l) ->
  painted_ok full l (alen c0) st -> mark_voxels l st obs = Some st' -> painted_ok full l (alen c0) st'.
Proof using Type.
  intros Hm Hx Hp H. unfold mark_voxels in H. apply (run_cells_post _ (painted_ok full l (alen c0)) _ _ _ H Hp). intros p s s' _ Hs E. exact (mark_voxel_ok _ _ _ _ _ _ _ Hm Hx Hs E).
Qed.

(** ** The handlers *)

Lemma gather_marking t o os t' o' os' cur : getMarkingObservations now t o os = Some (t', o', os', cur) -> exists buffers, o' = only_buffers o buffers.
Proof using Type.
  unfold getMarkingObservations. destruct (gather _ _ _ _ _ _) as [[[[t1 bufs] obs] c]|]; [|done]. rewrite mbind_Some. intros [= _ <- _ _]. by exists bufs.
Qed.

Lemma gather_clearing t o os t' o' os' cur : getClearingObservations now t o os = Some (t', o', os', cur) -> exists buffers, o' = only_buffers o buffers.
Proof using Type.
  unfold getClearingObservations. destruct (gather _ _ _ _ _ _) as [[[[t1 bufs] obs] c]|]; [|done]. rewrite mbind_Some. intros [= _ <- _ _]. by exists bufs.
Qed.

(** The parts of an update of an enabled layer: the state after the scroll and
    the reading of the buffers, what the rays leave, what the marks leave. *)
Record update_parts (full : bool) (l0 : VoxelLayer) (c0 : list Z) (observations : list Observation) (l' : VoxelLayer) (b' : Bounds) (l1 : VoxelLayer) (st1 st2 : painted) : Prop := {
  up_inv : voxel_inv full l1 c0;
  up_map : voxel_map l1 = voxel_map l0;
  up_hit : forall obs pt, voxel_hit l1 obs pt = voxel_hit l0 obs pt;
  up_threshold : mark_threshold_ l1 = mark_threshold_ l0;
  up_rays : painted_ok full l1 (alen c0) st1;
  up_run : run_cells (mark_voxels l1) observations st1 = Some st2;
  up_marks : painted_ok full l1 (alen c0) st2;
  up_cells : voxel_map l' = with_costmap (voxel_map l1) (Some (snd (fst st2)));
  up_grid : voxel_grid_ l' = fst (fst st2);
  up_threshold' : mark_threshold_ l' = mark_threshold_ l1;
  up_bounds : Forall point_number (transformed_footprint_ (vl_base l')) \/ footprint_clearing_enabled_ (vl_base l0) = false -> forall x y, covers (snd st2) x y -> covers b' x y;
}.

Lemma updateBounds_parts full l l0 c t v x y yaw b t1 o1 observations cur t' l' b' : voxel_inv full l c ->
  voxel_scroll fresh_byte fresh_word l x y = Some l0 -> enabled_ (ol_base (vl_base l0)) = true -> getMarkingObservations now t (begun (vl_base l0) b) [] = Some (t1, o1, observations, cur) ->
  updateBounds fresh_byte fresh_word hypot cos sin now t l v x y yaw b = Some (t', l', b') ->
  exists c0 l1 st1 st2, update_parts full l0 c0 observations l' b' l1 st1 st2.
Proof using Type.
  intros Hi Es Hen Em H. unfold updateBounds in H. rewrite Es, mbind_Some, Hen in H. cbn [negb] in H. destruct (scroll_inv _ _ _ _ _ _ Hi Es) as ((c0 & H0) & _). clear Hi Es c l.
  pose proof (own_cells_base (vl_base l0) b) as Emap. unfold begun in Em. destruct (useExtraBounds _ b) as [base b0]. cbn [fst] in Emap, Em. cbv zeta in H. rewrite Em, mbind_Some in H. apply gather_marking in Em as (bufs1 & ->).
  destruct (getClearingObservations _ _ _ _) as [[[[t2 o2] clr] cur2]|] eqn:Ec; [|done]. rewrite mbind_Some in H. apply gather_clearing in Ec as (bufs2 & ->). cbv zeta in H.
  match type of H with context [set_obstacle l0 ?o] => set (l1 := set_obstacle l0 o) in * end.
  assert (E1 : voxel_map l1 = voxel_map l0) by exact Emap. assert (H1 : voxel_inv full l1 c0) by (by apply (voxel_inv_same full l0)).
  pose proof H1 as [Hm Hx Hy Hd Hp]. rewrite (wf_some _ _ Hm), mbind_Some in H.
  destruct (run_cells (raytraceFreespace hypot l1) clr _) as [st1|] eqn:Er; [|done]. rewrite mbind_Some in H. destruct (run_cells (mark_voxels l1) observations st1) as [[[g c2] b2]|] eqn:Ek; [|done]. rewrite mbind_Some in H.
  assert (P0 : painted_ok full l1 (alen c0) (voxel_grid_ l1, c0, b0)) by (by split).
  assert (P1 : painted_ok full l1 (alen c0) st1) by (apply (run_cells_post _ (painted_ok full l1 (alen c0)) _ _ _ Er P0); intros p s s' _ Hs E; by eapply raytraceFreespace_ok).
  assert (P2 : painted_ok full l1 (alen c0) (g, c2, b2)) by (apply (run_cells_post _ (painted_ok full l1 (alen c0)) _ _ _ Ek P1); intros p s s' _ Hs E; by eapply mark_voxels_ok).
  assert (Hhit : forall obs pt, voxel_hit l1 obs pt = voxel_hit l0 obs pt) by (intros obs pt; unfold voxel_hit, worldToMap3D; by rewrite E1).
  destruct (updateFootprint _ _ _ _ _ _ _ _) as [[o3 b3]|] eqn:Ef; [|done]. rewrite mbind_Some in H. injection H as _ <- <-. exists c0, l1, st1, (g, c2, b2).
  assert (Eo : own_map o3 = with_costmap (voxel_map l1) (Some c2) /\ (Forall point_number (transformed_footprint_ o3) \/ footprint_clearing_enabled_ (vl_base l0) = false -> forall x y, covers b2 x y -> covers b3 x y)).
  { unfold updateFootprint in Ef. change (footprint_clearing_enabled_ (set_cells _ c2)) with (footprint_clearing_enabled_ (vl_base l0)) in Ef. destruct (footprint_clearing_enabled_ (vl_base l0)); cbn [negb] in Ef; [|by injection Ef as <- <-].
    destruct (transformFootprint _ _ _ _ _ _ _) as [f|]; [|done]. rewrite mbind_Some in Ef. injection Ef as <- <-. split; [done|]. intros [Hf|?]; [|done]. by apply (touches_grow f Hf b2). }
  destruct Eo as [Eo Eb]. by constructor.
Qed.

Lemma updateBounds_inv full l c t v x y yaw b t' l' b' : voxel_inv full l c ->
  updateBounds fresh_byte fresh_word hypot cos sin now t l v x y yaw b = Some (t', l', b') -> exists c', voxel_inv full l' c'.
Proof using Type.
  intros Hi H. pose proof H as H'. unfold updateBounds in H'. destruct (voxel_scroll fresh_byte fresh_word l x y) as [l0|] eqn:Es; [|done]. rewrite mbind_Some in H'.
  destruct (enabled_ (ol_base (vl_base l0))) eqn:Een; cbn [negb] in H'.
  - assert (Em : exists t1 o1 observations cur, getMarkingObservations now t (begun (vl_base l0) b) [] = Some (t1, o1, observations, cur)).
    { unfold begun. destruct (useExtraBounds _ b). cbn [fst]. cbv zeta in H'. destruct (getMarkingObservations _ _ _ _) as [[[[t1 o1] obs] cur]|]; [|done]. by exists t1, o1, obs, cur. }
    destruct Em as (t1 & o1 & obs & cur & Em). destruct (updateBounds_parts _ _ _ _ _ _ _ _ _ _ _ _ _ _ _ _ _ Hi Es Een Em H) as (c0 & l1 & st1 & [[g c2] b2] & [[Hm Hx Hy Hd Hp] E1 _ _ _ _ (P2 & Hl2 & [Hgx Hgy]) Eo Eg Et _]). cbn [fst snd] in *.
    exists c2. constructor; rewrite ?Eo, ?Eg, ?Et; [by apply (wf_with_costmap _ c0)|exact (eq_trans Hgx Hx)|exact (eq_trans Hgy Hy)|exact Hd|exact P2].
  - injection H' as _ <- _. by destruct (scroll_inv _ _ _ _ _ _ Hi Es) as (? & _).
Qed.

(** Clearing the footprint may free cells that the voxels still mark. *)
Definition clears_footprint (l : VoxelLayer) : bool := enabled_ (ol_base (vl_base l)) && footprint_clearing_enabled_ (vl_base l).

Lemma projection_write full t c c' d : projection full t c d -> alen c' = alen c -> (forall i, aget c' i = aget c i \/ aget c' i = Some FREE_SPACE) -> projection false t c' d.
Proof using Type.
  intros [Hl Hw Hb _] Hl' Hc. constructor; [congruence|done| |done]. intros i w Hi. destruct (Hc i) as [E|E]; rewrite E in Hi; [by apply Hb|done].
Qed.

Lemma updateCosts_inv full l c m i j i' j' l' m' : voxel_inv full l c -> voxel_updateCosts hypot l m i j i' j' = Some (l', m') ->
  exists c', voxel_inv (full && negb (clears_footprint l)) l' c'.
Proof using Type.
  intros Hi H. unfold voxel_updateCosts in H. destruct (updateCosts hypot (vl_base l) m i j i' j') as [[o m1]|] eqn:E; [|done]. rewrite mbind_Some in H. injection H as <- _. unfold updateCosts in E. unfold clears_footprint.
  destruct (enabled_ (ol_base (vl_base l))); cbn [negb andb] in *; [|injection E as <- _; rewrite andb_true_r; exists c; by apply (voxel_inv_same full l)].
  match type of E with context [if _ && _ then ?a else _] => set (o0 := if _ && _ then a else _) in * end.
  assert (E0 : own_map o0 = voxel_map l /\ footprint_clearing_enabled_ o0 = footprint_clearing_enabled_ (vl_base l)) by (unfold o0; by destruct (_ && _)). destruct E0 as [E0 E1]. rewrite E1 in E. clearbody o0.
  assert (Hfin : forall o1, (if combination_method_ o1 =? 0 then m ← updateWithOverwrite (ol_base o1) m i j i' j'; Some (o1, m) else if combination_method_ o1 =? 1 then m ← updateWithMax (ol_base o1) m i j i' j'; Some (o1, m) else Some (o1, m)) = Some (o, m1) -> o = o1).
  { intros o1 Eo. destruct (_ =? 0); [|destruct (_ =? 1); [|by injection Eo as <- _]]; destruct (_ (ol_base o1) m i j i' j'); try done; rewrite mbind_Some in Eo; by injection Eo as <- _. }
  destruct (footprint_clearing_enabled_ (vl_base l)); cbn [negb].
  - rewrite andb_false_r. destruct (setConvexPolygonCost _ _ _ _) as [[r mp]|] eqn:Ep; [|done]. rewrite !mbind_Some in E. apply Hfin in E as ->.
    rewrite E0 in Ep. destruct (polygon_writes _ _ _ _ _ _ _ (wf_some _ _ (vi_map _ _ _ Hi)) Ep) as (c' & -> & Hl & Hc). exists c'. destruct Hi as [Hm Hx Hy Hd Hp].
    constructor; [by apply (wf_with_costmap _ c)|done..|]. by apply (projection_write full _ c).
  - rewrite andb_true_r. rewrite mbind_Some in E. apply Hfin in E as ->. exists c. by apply (voxel_inv_same full l).
Qed.
(** ** Parameters *)

Definition keeps_voxels (l l' : VoxelLayer) : Prop := voxel_map l' = voxel_map l /\ voxel_grid_ l' = voxel_grid_ l /\ mark_threshold_ l' = mark_threshold_ l.

Lemma set_parameter_keeps name st p st' : fst p <> (name ++ "." ++ "mark_threshold")%string -> set_parameter name st p = Some st' -> keeps_voxels (fst st) (fst st').
Proof using Type.
  destruct st as [l r], p as [n v]. cbn [fst]. intros Hn H. unfold set_parameter in H. cbv zeta in H. cbn [fst snd] in H. destruct v.
  - destruct (String.eqb _ _); [by injection H as <-|]. destruct (String.eqb _ _); by injection H as <-.
  - destruct (String.eqb _ _); [by injection H as <-|]. destruct (String.eqb _ _); [by injection H as <-|]. destruct (String.eqb _ _); by injection H as <-.
  - destruct (String.eqb _ _); [by injection H as <-|]. destruct (String.eqb _ _).
    + destruct (checked_s32 _); [|done]. rewrite mbind_Some in H. by injection H as <-.
    + destruct (String.eqb_spec n (name ++ "." ++ "mark_threshold")); [done|]. destruct (String.eqb _ _); by injection H as <-.
  - by injection H as <-.
Qed.

Lemma parameters_inv full l c name v cm ps l' : voxel_inv full l c -> wf_map (v_master v) cm -> Forall (fun p => fst p <> (name ++ "." ++ "mark_threshold")%string) ps ->
  dynamicParametersCallback fresh_byte name v l ps = Some l' -> exists c', voxel_inv full l' c'.
Proof using Type.
  intros Hi Hv Hps H. unfold dynamicParametersCallback in H. destruct (run_cells _ _ _) as [[l1 resize]|] eqn:E; [|done]. rewrite mbind_Some in H.
  assert (Hk : keeps_voxels l l1).
  { apply (run_cells_post _ (fun st => keeps_voxels l (fst st)) _ _ _ E); [done|]. intros p s s' Hin (K1 & K2 & K3) Es. rewrite Forall_forall in Hps. destruct (set_parameter_keeps _ _ _ _ (Hps p Hin) Es) as (Q1 & Q2 & Q3). unfold keeps_voxels. by rewrite Q1, Q2, Q3. }
  destruct Hk as (K1 & K2 & K3). assert (H1 : voxel_inv full l1 c) by (by apply (voxel_inv_same full l)). destruct resize; [|injection H as <-; by exists c].
  destruct (vi_default _ _ _ H1) as [Hu Hd]. destruct (matchSize_inv _ _ _ _ (voxel_inv_sized _ _ _ H1) Hv Hu Hd H) as [c' H2]. exists c'. destruct H2 as [? ? ? ? [? ? ? Hf]]. constructor; [done..|]. constructor; [done..|]. intros _. by apply Hf.
Qed.

Lemma obstacle_parameters_keep name ps : forall o, own_map (ObstacleLayer.dynamicParametersCallback name o ps) = own_map o.
Proof using Type.
  unfold ObstacleLayer.dynamicParametersCallback. induction ps as [|[n v] ps IH]; intros o; [done|]. cbn [foldl]. rewrite IH. unfold ObstacleLayer.set_parameter. cbv zeta. cbn [fst snd].
  destruct v; repeat match goal with |- context [if ?b then _ else _] => destruct b end; done.
Qed.

(** ** Initialization *)

Lemma add_sources_base from_seconds tol sources : forall t o t' o', add_sources now from_seconds tol t o sources = inl (t', o') -> ol_base o' = ol_base o.
Proof using Type.
  induction sources as [|s sources IH]; intros t o t' o' H; [by injection H as _ <-|]. cbn [add_sources] in H. unfold add_source in H. destruct (negb _); [done|]. apply IH in H. exact H.
Qed.

(** What the constructor gives. *)
Definition voxel_new (l : VoxelLayer) : Prop := voxel_grid_ l = VoxelGrid_new 0 0 0.

Lemma onInitialize_inv from_seconds t l v cm frame en fc lo hi method track tol sources zv oz rz unknown mark pub t' l' : voxel_new l -> wf_map (v_master v) cm ->
  voxel_onInitialize fresh_byte now from_seconds t l v frame en fc lo hi method track tol sources zv oz rz unknown mark pub = Some (inl (t', l')) -> exists c, voxel_inv true l' c.
Proof using Type.
  intros Hn Hv H. unfold voxel_onInitialize in H. destruct (ObstacleLayer.onInitialize _ _ _ _ _ _ _ _ _ _ _ _ _ _ _) as [r|] eqn:Eo; [|done]. rewrite mbind_Some in H.
  destruct (VoxelGrid.reset _) as [g|] eqn:Eg; [|done]. rewrite mbind_Some in H. apply grid_reset_fresh in Eg as (_ & Hs & _); [|by rewrite Hn]. destruct r as [[t1 o]|o]; [|done].
  destruct (checked_s32 _) as [offset|]; [|done]. rewrite mbind_Some in H. destruct (checked_s32 _) as [un|]; [|done]. rewrite mbind_Some in H.
  destruct (voxel_matchSize _ _ _) as [l2|] eqn:E2; [|done]. rewrite mbind_Some in H. injection H as _ <-.
  assert (Hd : is_u8 (default_value_ (own_map o)) /\ default_value_ (own_map o) <> LETHAL_OBSTACLE).
  { unfold ObstacleLayer.onInitialize, obstacle_matchSize, matchSize in Eo. cbv zeta in Eo. destruct (Costmap2D.resizeMap _ _ _ _ _ _ _) as [m|] eqn:Er; [|done]. rewrite !mbind_Some in Eo. injection Eo as Eo. apply add_sources_base in Eo. unfold own_map. rewrite Eo. cbn.
    unfold Costmap2D.resizeMap, Costmap2D.resetMaps in Er. cbn in Er. destruct (memset _ _ _ _); [|done]. rewrite mbind_Some in Er. injection Er as <-. cbn. by destruct track. }
  destruct Hd as [Hu Hd]. refine (matchSize_inv _ v cm l2 _ Hv _ _ E2); [exact Hs|exact Hu|exact Hd].
Qed.

(** ** Reachable states *)

Inductive voxel_event :=
| OnBounds (t : nat) (v : LayeredView) (x y yaw : spec_float) (b : Bounds)
| OnCosts (master_grid : Costmap2D) (min_i min_j max_i max_j : Z)
| OnReset (t : nat)
| OnMatchSize (v : LayeredView)
| OnCloud (tf : Tf) (t : nat) (message : PointCloud2) (buffer : Z)
| OnParameters (name : string) (v : LayeredView) (parameters : list (string * ParameterValue))
| OnObstacleParameters (name : string) (parameters : list (string * ParameterValue)).

Definition voxel_step (l : VoxelLayer) (e : voxel_event) : option VoxelLayer :=
  match e with
  | OnBounds t v x y yaw b => '(_, l, _) ← updateBounds fresh_byte fresh_word hypot cos sin now t l v x y yaw b; Some l
  | OnCosts master_grid min_i min_j max_i max_j => fst <$> voxel_updateCosts hypot l master_grid min_i min_j max_i max_j
  | OnReset t => snd <$> reset now t l
  | OnMatchSize v => voxel_matchSize fresh_byte l v
  | OnCloud tf t message buffer => (fun r => set_obstacle l (snd r)) <$> pointCloud2Callback now tf t (vl_base l) message buffer
  | OnParameters name v parameters => dynamicParametersCallback fresh_byte name v l parameters
  | OnObstacleParameters name parameters => Some (set_obstacle l (ObstacleLayer.dynamicParametersCallback name (vl_base l) parameters))
  end.

(** The master grid is always a map, and the threshold of the marks stays. *)
Definition voxel_allowed (e : voxel_event) : Prop :=
  match e with
  | OnMatchSize v => exists cm, wf_map (v_master v) cm
  | OnParameters name v parameters => (exists cm, wf_map (v_master v) cm) /\ Forall (fun p => fst p <> (name ++ "." ++ "mark_threshold")%string) parameters
  | _ => True
  end.

(** Whether every column above the threshold still has a LETHAL cell: not
    after the footprint was cleared, until the next reset. *)
Definition full_after (full : bool) (l : VoxelLayer) (e : voxel_event) : bool :=
  match e with
  | OnCosts _ _ _ _ _ => full && negb (clears_footprint l)
  | OnReset _ | OnMatchSize _ => true
  | _ => full
  end.

Inductive reaches : bool -> VoxelLayer -> Prop :=
| reaches_init from_seconds t l v cm frame en fc lo hi method track tol sources zv oz rz unknown mark pub t' l' :
    voxel_new l -> wf_map (v_master v) cm ->
    voxel_onInitialize fresh_byte now from_seconds t l v frame en fc lo hi method track tol sources zv oz rz unknown mark pub = Some (inl (t', l')) ->
    reaches true l'
| reaches_step full l e l' : reaches full l -> voxel_allowed e -> voxel_step l e = Some l' -> reaches (full_after full l e) l'.

Lemma voxel_step_inv full l c e l' : voxel_inv full l c -> voxel_allowed e -> voxel_step l e = Some l' -> exists c', voxel_inv (full_after full l e) l' c'.
Proof using Type.
  intros Hi Ha H. destruct e; cbn [voxel_step voxel_allowed full_after] in *.
  - destruct (updateBounds _ _ _ _ _ _ _ _ _ _ _ _ _) as [[[t1 l1] b1]|] eqn:E; [|done]. rewrite mbind_Some in H. injection H as <-. by eapply updateBounds_inv.
  - apply fmap_Some in H as ([l1 m1] & E & ->). by eapply updateCosts_inv.
  - apply fmap_Some in H as ([t1 l1] & E & ->). by eapply reset_inv.
  - destruct Ha as [cm Hv]. destruct (vi_default _ _ _ Hi). by apply (matchSize_inv _ _ _ _ (voxel_inv_sized _ _ _ Hi) Hv) in H.
  - apply fmap_Some in H as ([t1 o] & E & ->). exists c. apply (voxel_inv_same full l); [done| |done..]. unfold pointCloud2Callback in E. destruct (aget _ _) as [bf|]; [|done]. rewrite mbind_Some in E. destruct (bufferCloud _ _ _ _ _). destruct (aset _ _ _); [|done]. rewrite mbind_Some in E. by injection E as _ <-.
  - destruct Ha as [[cm Hv] Hps]. by eapply parameters_inv.
  - injection H as <-. exists c. apply (voxel_inv_same full l); [done| |done..]. apply obstacle_parameters_keep.
Qed.

Lemma reaches_inv full l : reaches full l -> exists c, voxel_inv full l c.
Proof using Type. induction 1 as [|full l e l' _ [c Hi] Ha H]; [by eapply onInitialize_inv|by eapply voxel_step_inv]. Qed.

(** ** What marking leaves *)

(** Marks only add voxels, LETHAL cells and bounds. *)
Definition adds_marks (s s' : painted) : Prop :=
  VoxelGrid.size_z_ (fst (fst s')) = VoxelGrid.size_z_ (fst (fst s)) /\
  (forall i w, aget (data_ (fst (fst s))) i = Some w -> exists w', aget (data_ (fst (fst s'))) i = Some w' /\ forall k, Z.testbit w k = true -> Z.testbit w' k = true) /\
  (forall i, aget (snd (fst s)) i = Some LETHAL_OBSTACLE -> aget (snd (fst s')) i = Some LETHAL_OBSTACLE) /\
  (forall x y, covers (snd s) x y -> covers (snd s') x y).

Lemma adds_refl s : adds_marks s s.
Proof using Type. split; [done|]. split; [intros i w Hi; by exists w|done]. Qed.

Lemma adds_trans s1 s2 s3 : adds_marks s1 s2 -> adds_marks s2 s3 -> adds_marks s1 s3.
Proof using Type.
  intros (Z1 & W1 & C1 & B1) (Z2 & W2 & C2 & B2). split; [congruence|]. split; [|split; auto].
  intros i w (w1 & E1 & K1)%W1. destruct (W2 i w1 E1) as (w2 & E2 & K2). exists w2. auto.
Qed.

(** The voxel of a point is marked and, when one mark is enough, so is its cell. *)
Definition shows_hit (l : VoxelLayer) (obs : Observation) (pt : Point) (s : painted) : Prop :=
  forall mx my mz, voxel_hit l obs pt = Some (Some (mx, my, mz)) -> mz < VoxelGrid.size_z_ (fst (fst s)) -> mz < 16 ->
  (exists w, aget (data_ (fst (fst s))) (getIndex (voxel_map l) mx my) = Some w /\ Z.testbit w mz = true /\ Z.testbit w (mz + 16) = true) /\
  (u32 (mark_threshold_ l) = 0 -> aget (snd (fst s)) (getIndex (voxel_map l) mx my) = Some LETHAL_OBSTACLE /\ covers (snd s) (f_of_s (px pt)) (f_of_s (py pt))).

Lemma shows_hit_adds l obs pt s s' : shows_hit l obs pt s -> adds_marks s s' -> shows_hit l obs pt s'.
Proof using Type.
  intros H (Hz & Hw & Hc & Hb) mx my mz Eh H1 H2. rewrite Hz in H1. destruct (H mx my mz Eh H1 H2) as [(w & Ew & T1 & T2) Hm]. split.
  - destruct (Hw _ _ Ew) as (w' & Ew' & K). exists w'. auto.
  - intros [Hl Hcov]%Hm. auto.
Qed.

Lemma pair_mask_bits z : 0 <= z < 16 -> Z.testbit (pair_mask z) z = true /\ Z.testbit (pair_mask z) (z + 16) = true.
Proof using Type. intros Hz. rewrite !pair_mask_testbit by lia. rewrite !Z.eqb_refl, orb_true_r. done. Qed.

(** A column with a marked bit has a mark. *)
Lemma marked_bit_counts w z : is_u32 w -> 0 <= z < 16 -> Z.testbit w (z + 16) = true -> 0 < marks_of w.
Proof using Type.
  intros Hw Hz Hb. apply popcount_pos. pose proof (marked_bits_u32 w Hw) as [H0 H1]. split; [|exact H1]. destruct (Z.eq_dec (marked_bits w) 0) as [E|]; [|lia].
  assert (Et : Z.testbit (marked_bits w) z = true) by (unfold marked_bits; by rewrite Z.shiftr_spec by lia). rewrite E, Z.bits_0 in Et. done.
Qed.

(** One point. *)
Lemma mark_voxel_shows full l c0 obs st pt st' : wf_map (voxel_map l) c0 -> VoxelGrid.size_x_ (voxel_grid_ l) = size_x_ (voxel_map l) -> VoxelGrid.size_y_ (voxel_grid_ l) = size_y_ (voxel_map l) ->
  painted_ok full l (alen c0) st -> mark_voxel l obs st pt = Some st' -> adds_marks st st' /\ shows_hit l obs pt st'.
Proof using Type.
  destruct st as [[g c] b]. intros Hm Hx Hy (Hp & Hn & [Hgx Hgy]) H. cbn [fst snd] in Hp, Hn, Hgx, Hgy. unfold mark_voxel in H.
  destruct (voxel_hit l obs pt) as [[[[mx my] mz]|]|] eqn:Eh; [| |done]; rewrite mbind_Some in H; [|injection H as <-; split; [apply adds_refl|intros mx my mz E; by rewrite E in Eh]].
  destruct (voxel_hit_inv _ _ _ _ _ _ Eh) as (Hon & Hz0 & Nx & Ny).
  assert (Ei : s32 (cell_index g mx my) = getIndex (voxel_map l) mx my) by (apply (same_index _ c0); [done|done|congruence]).
  unfold markVoxelInMap in H. cbv zeta in H. destruct (out_of_bounds g mx my mz) eqn:Eo.
  - rewrite mbind_Some in H. injection H as <-. split; [apply adds_refl|]. intros mx' my' mz' E H1 _. rewrite E in Eh. injection Eh as -> -> ->. exfalso. cbn [fst] in H1. unfold out_of_bounds in Eo. destruct Hon as [Hox Hoy]. zbool. destruct Eo as [[?|?]|?]; lia.
  - rewrite Ei in H. set (i := getIndex (voxel_map l) mx my) in *. destruct (full_mask mz) as [m|] eqn:Em; [|done]. rewrite mbind_Some in H. destruct (aget (data_ g) i) as [w|] eqn:Ew; [|done]. rewrite mbind_Some in H.
    destruct (aset (data_ g) i (Z.lor w m)) as [d|] eqn:Ed; [|done]. rewrite mbind_Some in H. pose proof (word_at _ _ _ _ _ _ Hp Ew) as Hw. pose proof (lor_u32 w m Hw (full_mask_u32 _ _ Em)) as Hw'.
    rewrite bitsBelow_popcount, !mbind_Some in H by (first [done|by apply marked_bits_u32|apply u32_nonneg]). change (popcount 32 (marked_bits (Z.lor w m))) with (marks_of (Z.lor w m)) in H.
    assert (Hdata : forall j u, aget (data_ g) j = Some u -> exists u', aget d j = Some u' /\ forall k, Z.testbit u k = true -> Z.testbit u' k = true).
    { intros j u Hj. rewrite (aget_aset _ _ _ _ j Ed). destruct (Z.eqb_spec i j) as [<-|]; [|by exists u]. exists (Z.lor w m). split; [done|]. rewrite Ew in Hj. injection Hj as <-. intros k Hk. by rewrite Z.lor_spec, Hk. }
    assert (Hword : forall mz', mz' = mz -> mz' < 16 -> aget d i = Some (Z.lor w m) /\ Z.testbit (Z.lor w m) mz' = true /\ Z.testbit (Z.lor w m) (mz' + 16) = true).
    { intros mz' -> Hz. rewrite full_mask_pair in Em by lia. injection Em as <-. destruct (pair_mask_bits mz ltac:(lia)) as [B1 B2]. rewrite (aget_aset _ _ _ _ i Ed), Z.eqb_refl, !Z.lor_spec, B1, B2, !orb_true_r. done. }
    destruct (Z.leb_spec (marks_of (Z.lor w m)) (u32 (mark_threshold_ l))) as [Hb|Hb]; cbn [negb] in H.
    + injection H as <-. split; [split; [done|]; split; [exact Hdata|done]|]. intros mx' my' mz' E H1 H2. rewrite E in Eh. injection Eh as -> -> ->. fold i. destruct (Hword mz eq_refl H2) as (D1 & D2 & D3). split; [by exists (Z.lor w m)|].
      intros H0. pose proof (marked_bit_counts _ mz Hw' ltac:(lia) D3). lia.
    + destruct (aset c i LETHAL_OBSTACLE) as [c'|] eqn:Ec; [|done]. rewrite mbind_Some in H. injection H as <-. split; [split; [done|]; split; [exact Hdata|]; split|].
      * intros j Hj. cbn [fst snd]. rewrite (aget_aset _ _ _ _ j Ec). by destruct (_ =? j).
      * intros x y Hc. by apply touch_grows.
      * intros mx' my' mz' E H1 H2. rewrite E in Eh. injection Eh as -> -> ->. fold i. destruct (Hword mz eq_refl H2) as (D1 & D2 & D3). split; [by exists (Z.lor w m)|]. intros _. cbn [fst snd]. split; [by rewrite (aget_aset _ _ _ _ i Ec), Z.eqb_refl|by apply touch_covers].
Qed.

(** All the points of all the observations. *)
Lemma marks_show full l c0 observations st st' : wf_map (voxel_map l) c0 -> VoxelGrid.size_x_ (voxel_grid_ l) = size_x_ (voxel_map l) -> VoxelGrid.size_y_ (voxel_grid_ l) = size_y_ (voxel_map l) ->
  painted_ok full l (alen c0) st -> run_cells (mark_voxels l) observations st = Some st' ->
  adds_marks st st' /\ forall obs pt, obs ∈ observations -> pt ∈ cloud_points (cloud_ obs) -> shows_hit l obs pt st'.
Proof using Type.
  intros Hm Hx Hy Hp H.
  destruct (run_cells_each (mark_voxels l) (painted_ok full l (alen c0)) adds_marks (fun obs s => forall pt, pt ∈ cloud_points (cloud_ obs) -> shows_hit l obs pt s) observations st st') as (_ & Ha & Hs); [apply adds_refl|apply adds_trans| | |done|done|].
  - intros obs s s' Hq Hr pt Hpt. by eapply shows_hit_adds; [apply Hq|].
  - intros obs s s' _ Hs E. unfold mark_voxels in E. apply (run_cells_each (mark_voxel l obs) (painted_ok full l (alen c0)) adds_marks (shows_hit l obs) _ s s'); [apply adds_refl|apply adds_trans|intros; by eapply shows_hit_adds| |done|done].
    intros pt t t' _ Ht Et. split; [by eapply mark_voxel_ok|]. by eapply mark_voxel_shows.
  - split; [done|]. intros obs pt Ho Hpt. by apply Hs.
Qed.
End handlers.

(** ** The theorems *)

(** C15. The costmap of a voxel layer is the projection of its voxels: whatever the
    sequence of updates, resets, changes of size or of parameters (other than
    the threshold of the marks) since the initialization, a LETHAL cell stands
    on a column with more marked voxels than the threshold, and every such
    column has a LETHAL cell as long as no footprint was cleared since the
    last reset. *)
Theorem voxel_projection fresh_byte fresh_word hypot cos sin now full l :
  reaches fresh_byte fresh_word hypot cos sin now full l ->
  exists c, wf_map (voxel_map l) c /\ forall x y, on_map (voxel_map l) x y ->
    exists v w, grid_at c (size_x_ (voxel_map l)) x y = Some v /\ aget (data_ (voxel_grid_ l)) (cell_index (voxel_grid_ l) x y) = Some w /\
      (v = LETHAL_OBSTACLE -> u32 (mark_threshold_ l) < marks_of w) /\
      (full = true -> (v = LETHAL_OBSTACLE <-> u32 (mark_threshold_ l) < marks_of w)).
Proof.
  intros [c [Hm Hx Hy Hd Hp]]%reaches_inv. exists c. split; [done|]. intros x y Hxy. destruct (getIndex_small _ _ _ _ Hm Hxy) as [Ei Hb]. pose proof (wf_alen _ _ Hm) as Hl. pose proof (pj_len _ _ _ _ Hp) as Hld.
  assert (Ec : cell_index (voxel_grid_ l) x y = y * size_x_ (voxel_map l) + x) by (rewrite <- Ei; unfold cell_index; by rewrite Hx). rewrite Ec. unfold grid_at.
  destruct (aget_is_Some c (y * size_x_ (voxel_map l) + x)) as [v Ev]; [lia|]. destruct (aget_is_Some (data_ (voxel_grid_ l)) (y * size_x_ (voxel_map l) + x)) as [w Ew]; [lia|]. exists v, w. split; [done|]. split; [done|].
  assert (Hback : v = LETHAL_OBSTACLE -> u32 (mark_threshold_ l) < marks_of w) by (intros ->; by apply (pj_backed _ _ _ _ Hp _ _ Ev)). split; [done|]. intros Hf. split; [done|]. by apply (pj_full _ _ _ _ Hp Hf _ _ _ Ev).
Qed.

(** C16. An update ends with its marks in place: the voxel of every point of a
    marking observation that is neither too high, too far nor too near is read
    as MARKED and, when one marked voxel is enough, its cell is LETHAL and in
    the bounds; the grid only has 16 levels, and the points above are lost. *)
Theorem updateBounds_shows_hits fresh_byte fresh_word hypot cos sin now full t l l0 c v x y yaw b t1 o1 observations current t' l' b' :
  voxel_inv full l c -> voxel_scroll fresh_byte fresh_word l x y = Some l0 -> enabled_ (ol_base (vl_base l0)) = true ->
  getMarkingObservations now t (begun (vl_base l0) b) [] = Some (t1, o1, observations, current) ->
  updateBounds fresh_byte fresh_word hypot cos sin now t l v x y yaw b = Some (t', l', b') ->
  forall obs pt mx my mz, obs ∈ observations -> pt ∈ cloud_points (cloud_ obs) -> voxel_hit l0 obs pt = Some (Some (mx, my, mz)) ->
    mz < VoxelGrid.size_z_ (voxel_grid_ l') -> mz < 16 ->
    getVoxel (voxel_grid_ l') mx my mz = Some MARKED /\
    (u32 (mark_threshold_ l) = 0 -> getCost (voxel_map l') mx my = Some LETHAL_OBSTACLE /\
       (Forall point_number (transformed_footprint_ (vl_base l')) \/ footprint_clearing_enabled_ (vl_base l0) = false -> covers b' (f_of_s (px pt)) (f_of_s (py pt)))).
Proof.
  intros Hi Es Een Em H obs pt mx my mz Ho Hpt Hhit Hz H16. destruct (scroll_inv _ _ _ _ _ _ _ _ Hi Es) as (_ & _ & Et0).
  destruct (updateBounds_parts _ _ _ _ _ _ _ _ _ _ _ _ _ _ _ _ _ _ _ _ _ _ _ Hi Es Een Em H) as (c0 & l1 & st1 & [[g c2] b2] & [[Hm Hx Hy _ _] _ Eh Et P1 Er (P2 & Hl2 & [Hgx Hgy]) Eo Eg _ Hb]). cbn [fst snd] in *.
  destruct (marks_show _ _ _ _ _ _ Hm Hx Hy P1 Er) as [_ Hs]. rewrite <- Eh in Hhit. rewrite Eg in Hz. destruct (Hs obs pt Ho Hpt mx my mz Hhit Hz H16) as [(w & Ew & T1 & T2) Hc]. cbn [fst snd] in *.
  destruct (voxel_hit_inv _ _ _ _ _ _ Hhit) as ([Hox Hoy] & Hz0 & _). rewrite Eg, Eo, Et, Et0 in *. split.
  - unfold getVoxel. assert (Eob : out_of_bounds g mx my mz = false) by (unfold out_of_bounds; rewrite Hgx, Hgy, Hx, Hy; clear -Hox Hoy Hz; zbool; lia). rewrite Eob, full_mask_pair by lia. mred.
    assert (Ei : cell_index g mx my = getIndex (voxel_map l1) mx my) by (unfold cell_index, getIndex; by rewrite Hgx, Hx). rewrite Ei, Ew. mred. pose proof (word_at _ _ _ _ _ _ P2 Ew) as Hw.
    rewrite numBits_popcount by (by apply land_u32). mred. rewrite pair_mask_count, T1, T2 by (done || lia). done.
  - intros H0. destruct (Hc H0) as [Hl Hcov]. split; [|intros Hf; by apply Hb]. unfold getCost. cbn [costmap_ with_costmap]. mred. exact Hl.
Qed.

(** ** Examples *)

Definition voxel_master : Costmap2D := mkCostmap2D 6 6 f_one f_zero f_zero (Some (replicate 36 0)) 0.
Definition voxel_view : LayeredView := mkView false false voxel_master [] f_zero.
Definition blank_layer : VoxelLayer :=
  mkVoxelLayer (mkObstacle (mkCostmapLayer (mkCostmap2D 0 0 f_zero f_zero f_zero None 0) false false false f_zero f_zero f_zero f_zero) [] false "" f_zero f_zero [] [] [] [] [] false false 0)
    false (VoxelGrid_new 0 0 0) f_zero f_zero 0 0 0.
Definition depth_camera : Source := mkSource "points" "" "PointCloud2" f_zero f_zero f_zero (f_of_Z 2) true true (f_of_Z 10) f_zero (f_of_Z 10) f_zero.
Definition example_hypot (x y : spec_float) : spec_float := fsqrt (fadd (fmul x x) (fmul y y)).
Definition example_init : option ((nat * VoxelLayer) + VoxelLayer) :=
  voxel_onInitialize (fun _ => 7) (fun _ => 1000) (fun _ => 0) 0 blank_layer voxel_view "map" true false f_zero (f_of_Z 2) 1 false 0 [depth_camera] 10 f_zero f_half 15 0 false.
Definition example_step : VoxelLayer -> voxel_event -> option VoxelLayer := voxel_step (fun _ => 7) (fun _ => 9) example_hypot (fun x => x) (fun x => x) (fun _ => 1000).
(** A point half a metre high, four metres away. *)
Definition cloud_event : voxel_event := OnCloud still_tf 0 (mkCloud 1000 "map" [half_point32 7 7 1]) 0.
Definition bounds_event : voxel_event := OnBounds 0 voxel_view f_zero f_zero f_zero no_box.
Definition example_now : nat -> Z := fun _ => 1000.
Definition example_run : option VoxelLayer :=
  r ← example_init;
  match r with inl (_, l) => run_cells example_step [cloud_event; bounds_event] l | inr _ => None end.


Definition example_cells : list Z := replicate 21 FREE_SPACE ++ LETHAL_OBSTACLE :: replicate 14 FREE_SPACE.

Lemma voxel_master_wf : wf_map voxel_master (replicate 36 0).
Proof. constructor; vm_compute; done. Qed.

Definition example_reaches : bool -> VoxelLayer -> Prop := reaches (fun _ => 7) (fun _ => 9) example_hypot (fun x => x) (fun x => x) (fun _ => 1000).

(** The state after the cloud. *)
Definition loaded : option VoxelLayer :=
  r ← example_init; match r with inl (_, l) => example_step l cloud_event | inr _ => None end.

(** The conversions below unfold the examples first. *)
Strategy expand [example_init example_step example_reaches cloud_event bounds_event example_run loaded].

Lemma example_init_reaches t l : example_init = Some (inl (t, l)) -> example_reaches true l.
Proof. intros E. unfold example_init in E. eapply (reaches_init _ _ _ _ _ _ _ 0%nat blank_layer voxel_view (replicate 36 0)); [reflexivity|exact voxel_master_wf|exact E]. Qed.

Lemma cloud_reaches l l' : example_reaches true l -> example_step l cloud_event = Some l' -> example_reaches true l'.
Proof. intros H E. exact (reaches_step _ _ _ _ _ _ _ _ cloud_event _ H I E). Qed.

Lemma bounds_reaches l l' : example_reaches true l -> example_step l bounds_event = Some l' -> example_reaches true l'.
Proof. intros H E. exact (reaches_step _ _ _ _ _ _ _ _ bounds_event _ H I E). Qed.

(** The only LETHAL cell is that of the point, over its marked voxel. *)
Lemma voxel_projection_witness : exists l c w, example_run = Some l /\ costmap_ (voxel_map l) = Some c /\ c = example_cells /\
  aget (data_ (voxel_grid_ l)) (cell_index (voxel_grid_ l) 3 3) = Some w /\ u32 (mark_threshold_ l) < marks_of w.
Proof.
  assert (E : (fun l => (costmap_ (voxel_map l), size_x_ (voxel_map l), size_y_ (voxel_map l))) <$> example_run = Some (Some example_cells, 6, 6)) by (vm_compute; reflexivity).
  destruct example_run as [l|] eqn:Er; [|discriminate E]. injection E as Ec Ex Ey. unfold example_run in Er.
  destruct example_init as [[[t0 l0]|]|] eqn:E0; [|discriminate Er|discriminate Er]. cbn [mbind option_bind run_cells] in Er.
  destruct (example_step l0 cloud_event) as [l1|] eqn:E1; [|discriminate Er]. cbn [mbind option_bind] in Er. destruct (example_step l1 bounds_event) as [l2|] eqn:E2; [|discriminate Er]. cbn [mbind option_bind] in Er. injection Er as ->.
  destruct (voxel_projection (fun _ => 7) (fun _ => 9) example_hypot (fun x => x) (fun x => x) (fun _ => 1000) true l) as (c & Hm & Hc).
  { eapply bounds_reaches; [|exact E2]. eapply cloud_reaches; [|exact E1]. exact (example_init_reaches _ _ E0). }
  rewrite (wf_some _ _ Hm) in Ec. injection Ec as ->. destruct (Hc 3 3) as (v & w & Hv & Hw & Hb & _); [unfold on_map; rewrite Ex, Ey; split; (split; [discriminate|reflexivity])|].
  exists l, example_cells, w. split; [reflexivity|]. split; [exact (wf_some _ _ Hm)|]. split; [reflexivity|]. split; [exact Hw|]. apply Hb. rewrite Ex in Hv. vm_compute in Hv. injection Hv as <-. reflexivity.
Defined.

Lemma updateBounds_shows_hits_witness : exists l t' l' b', loaded = Some l /\
  updateBounds (fun _ => 7) (fun _ => 9) example_hypot (fun x => x) (fun x => x) (fun _ => 1000) 0 l voxel_view f_zero f_zero f_zero no_box = Some (t', l', b') /\
  getVoxel (voxel_grid_ l') 3 3 1 = Some MARKED /\ getCost (voxel_map l') 3 3 = Some LETHAL_OBSTACLE.
Proof.
  assert (exists l, loaded = Some l) as [l El] by (eexists; vm_compute; reflexivity). pose proof El as El'. unfold loaded in El'.
  destruct example_init as [[[t0 l0]|]|] eqn:E0; [|discriminate El'|discriminate El']. cbn [mbind option_bind] in El'.
  destruct (reaches_inv _ _ _ _ _ _ _ _ (cloud_reaches _ _ (example_init_reaches _ _ E0) El')) as [c Hi]. clear El' E0 t0 l0.
  assert (Hscroll : voxel_scroll (fun _ => 7) (fun _ => 9) l f_zero f_zero = Some l /\ enabled_ (ol_base (vl_base l)) = true /\ footprint_clearing_enabled_ (vl_base l) = false /\ u32 (mark_threshold_ l) = 0).
  { vm_compute in El. injection El as <-. vm_compute. done. }
  destruct Hscroll as (Hscroll & Hen & Hfc & Hmark).
  assert (Hm : exists t1 o1 obs, getMarkingObservations (fun _ => 1000) 0 (begun (vl_base l) no_box) [] = Some (t1, o1, [obs], true) /\ cloud_points (cloud_ obs) = [half_point32 7 7 1] /\ voxel_hit l obs (half_point32 7 7 1) = Some (Some (3, 3, 1))).
  { vm_compute in El. injection El as <-. eexists _, _, _. split; [vm_compute; reflexivity|]. split; vm_compute; reflexivity. }
  destruct Hm as (t1 & o1 & obs & Hmarking & Hcloud & Hhit).
  assert (Hrun : exists t' l' b', updateBounds (fun _ => 7) (fun _ => 9) example_hypot (fun x => x) (fun x => x) (fun _ => 1000) 0 l voxel_view f_zero f_zero f_zero no_box = Some (t', l', b') /\ VoxelGrid.size_z_ (voxel_grid_ l') = 10).
  { vm_compute in El. injection El as <-. eexists _, _, _. split; vm_compute; reflexivity. }
  destruct Hrun as (t' & l' & b' & Hrun & Hz). exists l, t', l', b'. split; [exact El|]. split; [exact Hrun|].
  destruct (updateBounds_shows_hits _ _ _ _ _ _ _ _ _ _ _ _ _ _ _ _ _ _ _ _ _ _ _ Hi Hscroll Hen Hmarking Hrun obs (half_point32 7 7 1) 3 3 1) as [Hv Hc]; [left|rewrite Hcloud; left|exact Hhit|rewrite Hz; reflexivity|reflexivity|].
  split; [exact Hv|exact (proj1 (Hc Hmark))].
Defined.
