(* ===== verification/Messages.v ===== *)
(** The messages the nodes receive and the check they pass
    ([nav2_util/validate_messages.hpp]). *)

From stdpp Require Import strings.
From S2P Require Import Prelude Floats Bresenham Footprint.

(** ** Message types *)

Record Time := mkTime { sec : Z; nanosec : Z }.
Record Header := mkHeader { stamp : Time; frame_id : string }.
Record Quaternion := mkQuaternion { qx : spec_float; qy : spec_float; qz : spec_float; qw : spec_float }.
Record Pose := mkPose { position : Point; orientation : Quaternion }.
Record PoseWithCovariance := mkPoseCov { pc_pose : Pose; covariance : list spec_float }.
Record PoseWithCovarianceStamped := mkPoseCovStamped { pcs_header : Header; pcs_pose : PoseWithCovariance }.
Record MapMetaData := mkMeta {
  map_load_time : Time; resolution : spec_float; width : Z; height : Z; origin : Pose }.
Record OccupancyGrid := mkGrid { header : Header; info : MapMetaData; data : list Z }.
Record OccupancyGridUpdate := mkUpdate {
  up_header : Header; up_x : Z; up_y : Z; up_width : Z; up_height : Z; up_data : list Z }.

(** ** Validation *)

Definition f_abs (x : spec_float) : spec_float :=
  match x with
  | S754_zero _ => S754_zero false
  | S754_infinity _ => S754_infinity false
  | S754_nan => S754_nan
  | S754_finite _ m e => S754_finite false m e
  end.

Definition is_inf (x : spec_float) : bool := match x with S754_infinity _ => true | _ => false end.

Definition validate_double (num : spec_float) : bool :=
  if is_inf num then false else if is_nan num then false else true.

Fixpoint validate_array (msg : list spec_float) : bool :=
  match msg with
  | [] => true
  | element :: msg => if negb (validate_double element) then false else validate_array msg
  end.

Definition NSEC_PER_SEC : Z := 1000000000.
Definition validate_time (msg : Time) : bool := if NSEC_PER_SEC <=? nanosec msg then false else true.

Definition validate_header (msg : Header) : bool :=
  if negb (validate_time (stamp msg)) then false
  else if String.eqb (frame_id msg) ""%string then false else true.

Definition validate_point (msg : Point) : bool :=
  if negb (validate_double (px msg)) then false
  else if negb (validate_double (py msg)) then false
  else if negb (validate_double (pz msg)) then false else true.

(** 1e-4 as a double. *)
Definition epsilon : spec_float := fdiv f_one (f_of_Z 10000).

Definition validate_quaternion (msg : Quaternion) : bool :=
  if negb (validate_double (qx msg)) then false
  else if negb (validate_double (qy msg)) then false
  else if negb (validate_double (qz msg)) then false
  else if negb (validate_double (qw msg)) then false
  else
    let norm := fadd (fadd (fadd (fmul (qx msg) (qx msg)) (fmul (qy msg) (qy msg)))
                       (fmul (qz msg) (qz msg))) (fmul (qw msg) (qw msg)) in
    if fge (f_abs (fsub norm f_one)) epsilon then false else true.

Definition validate_pose (msg : Pose) : bool :=
  if negb (validate_point (position msg)) then false
  else if negb (validate_quaternion (orientation msg)) then false else true.

Definition validate_pose_cov (msg : PoseWithCovariance) : bool :=
  if negb (validate_pose (pc_pose msg)) then false
  else if negb (validate_array (covariance msg)) then false else true.

Definition validate_pose_cov_stamped (msg : PoseWithCovarianceStamped) : bool :=
  if negb (validate_header (pcs_header msg)) then false
  else if negb (validate_pose_cov (pcs_pose msg)) then false else true.

(** The [float] resolution is converted to [double]. *)
Definition validate_meta (msg : MapMetaData) : bool :=
  if negb (validate_pose (origin msg)) then false
  else if negb (validate_double (f_of_s (resolution msg))) then false
  else if (height msg =? 0) || (width msg =? 0) then false else true.

(** The product of the sizes is computed on 32 bits. *)
Definition validateMsg (msg : OccupancyGrid) : bool :=
  if negb (validate_header (header msg)) then false
  else if negb (validate_meta (info msg)) then false
  else if negb (alen (data msg) =? u32 (width (info msg) * height (info msg))) then false else true.

(** ** Laws *)

Lemma if_false_true (b : bool) (k : bool) : (if negb b then false else k) = b && k.
Proof. by destruct b. Qed.

Lemma validate_double_finite x : validate_double x = true <-> is_finite x = true.
Proof. by destruct x. Qed.

Definition finite_pose (p : Pose) : Prop :=
  Forall (fun x => is_finite x = true)
    [px (position p); py (position p); pz (position p);
     qx (orientation p); qy (orientation p); qz (orientation p); qw (orientation p)].

Lemma validate_pose_finite p : validate_pose p = true -> finite_pose p.
Proof.
  unfold validate_pose, validate_point, validate_quaternion. rewrite !if_false_true.
  rewrite !andb_true_iff, !validate_double_finite. unfold finite_pose.
  intros [(? & ? & ? & _) [(? & ? & ? & ? & _) _]]. by repeat constructor.
Qed.

(** A grid that passes [validateMsg] has a frame, a finite origin and
    resolution and no empty side, and when its sides are below 2^16 exactly one
    cell per position; the product of the sizes being computed on 32 bits, a
    grid of 2^16 by 2^16 positions with no cell at all passes too. *)
Theorem validateMsg_sound :
  (forall msg, validateMsg msg = true ->
     frame_id (header msg) <> ""%string /\ nanosec (stamp (header msg)) < NSEC_PER_SEC /\
     finite_pose (origin (info msg)) /\ is_finite (f_of_s (resolution (info msg))) = true /\
     width (info msg) <> 0 /\ height (info msg) <> 0 /\
     (0 <= width (info msg) < 2 ^ 16 -> 0 <= height (info msg) < 2 ^ 16 ->
      alen (data msg) = width (info msg) * height (info msg))) /\
  (exists msg, validateMsg msg = true /\ width (info msg) = 2 ^ 16 /\ height (info msg) = 2 ^ 16 /\
     data msg = []).
Proof.
  split.
  - intros msg. unfold validateMsg, validate_header, validate_meta, validate_time.
    rewrite !if_false_true, !andb_true_iff.
    intros [[Ht Hf] [[Hp [Hr Hs]] [Hl _]]].
    split; [|split; [|split; [|split; [|split; [|split]]]]].
    + intros E. rewrite E in Hf. done.
    + destruct (Z.leb_spec NSEC_PER_SEC (nanosec (stamp (header msg)))); done.
    + by apply validate_pose_finite.
    + by apply validate_double_finite.
    + intros E. rewrite E, orb_true_r in Hs. done.
    + intros E. rewrite E in Hs. done.
    + intros Hw Hh. apply Z.eqb_eq in Hl. rewrite Hl. apply u32_small. unfold is_u32. nia.
  - exists (mkGrid (mkHeader (mkTime 0 0) "map"%string)
      (mkMeta (mkTime 0 0) (s_of_Z 1) (2 ^ 16) (2 ^ 16)
        (mkPose (mkPoint f_zero f_zero f_zero) (mkQuaternion f_zero f_zero f_zero f_one))) []).
    split; [vm_compute; reflexivity|]. done.
Qed.
