(* ===== verification/StaticLayer.v ===== *)
(** The static map layer ([static_layer.cpp], [static_layer.hpp]): it copies
    an occupancy grid into its own grid, keeps it up to date, and is merged
    into the master grid. It is an instance of the layer interface. *)

From stdpp Require Import strings.
From S2P Require Import Prelude Floats Bresenham Costmap2D Footprint CostmapLayer LayeredCostmap Messages.

(** ** The object *)

Record StaticLayer := mkStatic {
  base : CostmapLayer;
  map_frame_ : string;
  has_updated_data_ : bool;
  x_ : Z;
  y_ : Z;
  width_ : Z;
  height_ : Z;
  track_unknown_space_ : bool;
  use_maximum_ : bool;
  lethal_threshold_ : Z;
  unknown_cost_value_ : Z;
  trinary_costmap_ : bool;
  map_received_ : bool;
  map_received_in_update_bounds_ : bool;
  map_buffer_ : option OccupancyGrid;
  footprint_clearing_enabled_ : bool;
  transformed_footprint_ : list Point;
}.

(** Functional updates of the fields the operations assign. *)
Definition set_base (l : StaticLayer) (b : CostmapLayer) : StaticLayer :=
  mkStatic b (map_frame_ l) (has_updated_data_ l) (x_ l) (y_ l) (width_ l) (height_ l)
    (track_unknown_space_ l) (use_maximum_ l) (lethal_threshold_ l) (unknown_cost_value_ l) (trinary_costmap_ l)
    (map_received_ l) (map_received_in_update_bounds_ l) (map_buffer_ l) (footprint_clearing_enabled_ l)
    (transformed_footprint_ l).
Definition set_frame (l : StaticLayer) (f : string) : StaticLayer :=
  mkStatic (base l) f (has_updated_data_ l) (x_ l) (y_ l) (width_ l) (height_ l)
    (track_unknown_space_ l) (use_maximum_ l) (lethal_threshold_ l) (unknown_cost_value_ l) (trinary_costmap_ l)
    (map_received_ l) (map_received_in_update_bounds_ l) (map_buffer_ l) (footprint_clearing_enabled_ l)
    (transformed_footprint_ l).
Definition set_updated (l : StaticLayer) (b : bool) : StaticLayer :=
  mkStatic (base l) (map_frame_ l) b (x_ l) (y_ l) (width_ l) (height_ l)
    (track_unknown_space_ l) (use_maximum_ l) (lethal_threshold_ l) (unknown_cost_value_ l) (trinary_costmap_ l)
    (map_received_ l) (map_received_in_update_bounds_ l) (map_buffer_ l) (footprint_clearing_enabled_ l)
    (transformed_footprint_ l).
Definition set_area (l : StaticLayer) (x y w h : Z) : StaticLayer :=
  mkStatic (base l) (map_frame_ l) (has_updated_data_ l) x y w h
    (track_unknown_space_ l) (use_maximum_ l) (lethal_threshold_ l) (unknown_cost_value_ l) (trinary_costmap_ l)
    (map_received_ l) (map_received_in_update_bounds_ l) (map_buffer_ l) (footprint_clearing_enabled_ l)
    (transformed_footprint_ l).
Definition set_received (l : StaticLayer) (b : bool) : StaticLayer :=
  mkStatic (base l) (map_frame_ l) (has_updated_data_ l) (x_ l) (y_ l) (width_ l) (height_ l)
    (track_unknown_space_ l) (use_maximum_ l) (lethal_threshold_ l) (unknown_cost_value_ l) (trinary_costmap_ l)
    b (map_received_in_update_bounds_ l) (map_buffer_ l) (footprint_clearing_enabled_ l)
    (transformed_footprint_ l).
Definition set_received_in_bounds (l : StaticLayer) (b : bool) : StaticLayer :=
  mkStatic (base l) (map_frame_ l) (has_updated_data_ l) (x_ l) (y_ l) (width_ l) (height_ l)
    (track_unknown_space_ l) (use_maximum_ l) (lethal_threshold_ l) (unknown_cost_value_ l) (trinary_costmap_ l)
    (map_received_ l) b (map_buffer_ l) (footprint_clearing_enabled_ l)
    (transformed_footprint_ l).
Definition set_buffer (l : StaticLayer) (b : option OccupancyGrid) : StaticLayer :=
  mkStatic (base l) (map_frame_ l) (has_updated_data_ l) (x_ l) (y_ l) (width_ l) (height_ l)
    (track_unknown_space_ l) (use_maximum_ l) (lethal_threshold_ l) (unknown_cost_value_ l) (trinary_costmap_ l)
    (map_received_ l) (map_received_in_update_bounds_ l) b (footprint_clearing_enabled_ l)
    (transformed_footprint_ l).
Definition set_transformed (l : StaticLayer) (f : list Point) : StaticLayer :=
  mkStatic (base l) (map_frame_ l) (has_updated_data_ l) (x_ l) (y_ l) (width_ l) (height_ l)
    (track_unknown_space_ l) (use_maximum_ l) (lethal_threshold_ l) (unknown_cost_value_ l) (trinary_costmap_ l)
    (map_received_ l) (map_received_in_update_bounds_ l) (map_buffer_ l) (footprint_clearing_enabled_ l) f.

Definition own_map (l : StaticLayer) : Costmap2D := layer_map (base l).
Definition set_own_map (l : StaticLayer) (m : Costmap2D) : StaticLayer := set_base l (with_layer_map (base l) m).
Definition set_flags (b : CostmapLayer) (current enabled : bool) : CostmapLayer :=
  mkCostmapLayer (layer_map b) current enabled (has_extra_bounds_ b) (extra_min_x_ b) (extra_max_x_ b)
    (extra_min_y_ b) (extra_max_y_ b).
Definition set_current (l : StaticLayer) (c : bool) : StaticLayer :=
  set_base l (set_flags (base l) c (enabled_ (base l))).

Section static.
Context (fresh_byte : Z -> Z) (hypot : spec_float -> spec_float -> spec_float) (cos sin : spec_float -> spec_float).
(** [tf_->lookupTransform(map_frame_, global_frame_)] applied to a point; none
    when the lookup throws. *)
Context (lookupTransform : string -> option (spec_float * spec_float -> spec_float * spec_float)).

(** ** Values *)

Definition interpretValue (l : StaticLayer) (value : Z) : option Z :=
  if track_unknown_space_ l && (value =? unknown_cost_value_ l) then Some NO_INFORMATION
  else if negb (track_unknown_space_ l) && (value =? unknown_cost_value_ l) then Some FREE_SPACE
  else if lethal_threshold_ l <=? value then Some LETHAL_OBSTACLE
  else if trinary_costmap_ l then Some FREE_SPACE
  else
    let scale := fdiv (f_of_Z value) (f_of_Z (lethal_threshold_ l)) in
    f_to_u8 (fmul scale (f_of_Z LETHAL_OBSTACLE)).

(** ** Maps *)

(** The whole map, cell by cell; [data] holds [int8_t] values. *)
Definition copy_data (l : StaticLayer) (size_x size_y : Z) (data costmap : list Z) : option (list Z) :=
  st ← for_range 0 size_y (fun _ st =>
         for_range 0 size_x (fun _ '(index, costmap) =>
           d ← aget data index;
           v ← interpretValue l (u8 d);
           costmap ← aset costmap index v;
           Some (u32 (index + 1), costmap)) st) (0, costmap);
  Some (snd st).

Definition geometry_differs (m : Costmap2D) (size_x size_y : Z) (res ox oy : spec_float) : bool :=
  negb (size_x_ m =? size_x) || negb (size_y_ m =? size_y) || negb (feq (resolution_ m) res) ||
  negb (feq (origin_x_ m) ox) || negb (feq (origin_y_ m) oy).

(** The answer [true] tells that the layered costmap, and with it every other
    layer, is resized to the new map; this layer is then resized by its own
    [matchSize]. *)
Definition processMap (l : StaticLayer) (v : LayeredView) (new_map : OccupancyGrid) : option (StaticLayer * bool) :=
  let size_x := width (info new_map) in
  let size_y := height (info new_map) in
  let res := f_of_s (resolution (info new_map)) in
  let ox := px (position (origin (info new_map))) in
  let oy := py (position (origin (info new_map))) in
  r ← (if negb (v_rolling v) && (geometry_differs (v_master v) size_x size_y res ox oy || negb (v_size_locked v))
       then
         m ← Costmap2D.resizeMap fresh_byte (own_map l) size_x size_y res ox oy;
         Some (set_own_map l m, true)
       else if geometry_differs (own_map l) size_x size_y res ox oy then
         m ← Costmap2D.resizeMap fresh_byte (own_map l) size_x size_y res ox oy;
         Some (set_own_map l m, false)
       else Some (l, false));
  let l := fst r in
  c ← costmap_ (own_map l);
  c ← copy_data l size_x size_y (data new_map) c;
  let l := set_own_map l (with_costmap (own_map l) (Some c)) in
  let l := set_frame l (frame_id (header new_map)) in
  let l := set_area l 0 0 (size_x_ (own_map l)) (size_y_ (own_map l)) in
  Some (set_current (set_updated l true) true, snd r).

Definition matchSize (l : StaticLayer) (v : LayeredView) : option StaticLayer :=
  if negb (v_rolling v) then
    let master := v_master v in
    m ← Costmap2D.resizeMap fresh_byte (own_map l) (size_x_ master) (size_y_ master) (resolution_ master)
          (origin_x_ master) (origin_y_ master);
    Some (set_own_map l m)
  else Some l.

Definition reset (l : StaticLayer) : StaticLayer := set_current (set_updated l true) false.

Definition incomingMap (l : StaticLayer) (v : LayeredView) (new_map : OccupancyGrid) :
    option (StaticLayer * bool) :=
  if negb (validateMsg new_map) then Some (l, false)
  else if negb (map_received_ l) then
    r ← processMap l v new_map;
    Some (set_received (fst r) true, snd r)
  else Some (set_buffer l (Some new_map), false).

(** The offsets of the update are [int32_t], its sizes [uint32_t]. *)
Definition update_ignored (l : StaticLayer) (u : OccupancyGridUpdate) : bool :=
  (up_y u <? s32 (y_ l)) || (u32 (y_ l + height_ l) <? u32 (up_y u + up_height u)) ||
  (up_x u <? s32 (x_ l)) || (u32 (x_ l + width_ l) <? u32 (up_x u + up_width u)).

Definition apply_update (l : StaticLayer) (u : OccupancyGridUpdate) (costmap : list Z) : option (list Z) :=
  st ← for_range 0 (up_height u) (fun y st =>
         let index_base := u32 (u32 (up_y u + y) * size_x_ (own_map l)) in
         for_range 0 (up_width u) (fun x '(di, costmap) =>
           let index := u32 (u32 (index_base + x) + up_x u) in
           d ← aget (up_data u) di;
           v ← interpretValue l (u8 d);
           costmap ← aset costmap index v;
           Some (u32 (di + 1), costmap)) st) (0, costmap);
  Some (snd st).

Definition incomingUpdate (l : StaticLayer) (u : OccupancyGridUpdate) : option StaticLayer :=
  if update_ignored l u then Some l
  else if negb (String.eqb (frame_id (up_header u)) (map_frame_ l)) then Some l
  else
    c ← costmap_ (own_map l);
    c ← apply_update l u c;
    Some (set_updated (set_own_map l (with_costmap (own_map l) (Some c))) true).

(** ** Updates *)

Definition updateFootprint (l : StaticLayer) (v : LayeredView) (robot_x robot_y robot_yaw : spec_float) (b : Bounds) :
    option (StaticLayer * Bounds) :=
  if negb (footprint_clearing_enabled_ l) then Some (l, b)
  else
    f ← transformFootprint cos sin robot_x robot_y robot_yaw (v_footprint v) (transformed_footprint_ l);
    b ← for_range 0 (alen f) (fun i b => p ← aget f i; Some (touch (px p) (py p) b)) b;
    Some (set_transformed l f, b).

(** The last answer is that of [processMap]. *)
Definition updateBounds (l : StaticLayer) (v : LayeredView) (robot_x robot_y robot_yaw : spec_float) (b : Bounds) :
    option (StaticLayer * Bounds * bool) :=
  if negb (map_received_ l) then Some (set_received_in_bounds l false, b, false)
  else
    let l := set_received_in_bounds l true in
    r ← match map_buffer_ l with
        | Some m => r ← processMap l v m; Some (set_buffer (fst r) None, snd r)
        | None => Some (l, false)
        end;
    let '(l, resized) := r in
    if negb (v_rolling v) && negb (has_updated_data_ l || has_extra_bounds_ (base l)) then Some (l, b, resized)
    else
      let '(cl, b) := useExtraBounds (base l) b in
      let l := set_base l cl in
      let '(wx, wy) := mapToWorld (own_map l) (x_ l) (y_ l) in
      let b := mkBounds (fmin wx (min_x b)) (fmin wy (min_y b)) (max_x b) (max_y b) in
      let '(wx, wy) := mapToWorld (own_map l) (u32 (x_ l + width_ l)) (u32 (y_ l + height_ l)) in
      let b := mkBounds (min_x b) (min_y b) (fmax wx (max_x b)) (fmax wy (max_y b)) in
      r ← updateFootprint (set_updated l false) v robot_x robot_y robot_yaw b;
      Some (r, resized).

(** The rolling case: each cell of the window takes the cost of the static map
    at the transformed centre of the cell. *)
Definition transform_costs (l : StaticLayer) (v : LayeredView)
    (tf2_transform : spec_float * spec_float -> spec_float * spec_float)
    (master_grid : Costmap2D) (min_i min_j max_i max_j : Z) : option Costmap2D :=
  for_range min_i max_i (fun i master_grid =>
    for_range min_j max_j (fun j master_grid =>
      let '(px, py) := tf2_transform (mapToWorld (v_master v) (u32 i) (u32 j)) in
      r ← worldToMap (own_map l) px py;
      match r with
      | None => Some master_grid
      | Some loc =>
          cost ← getCost (own_map l) (loc_x loc) (loc_y loc);
          if negb (use_maximum_ l) then setCost master_grid (u32 i) (u32 j) cost
          else
            old ← getCost master_grid (u32 i) (u32 j);
            setCost master_grid (u32 i) (u32 j) (Z.max cost old)
      end) master_grid) master_grid.

Definition clear_footprint (l : StaticLayer) : option StaticLayer :=
  if footprint_clearing_enabled_ l then
    r ← setConvexPolygonCost hypot (own_map l)
          ((fun p => (px p, py p)) <$> transformed_footprint_ l) FREE_SPACE;
    Some (set_own_map l (snd r))
  else Some l.

(** [inr] is an exception. *)
Definition updateCosts (l : StaticLayer) (v : LayeredView) (master_grid : Costmap2D)
    (min_i min_j max_i max_j : Z) : option (StaticLayer * Costmap2D + string) :=
  if negb (enabled_ (base l)) then Some (inl (l, master_grid))
  else if negb (map_received_in_update_bounds_ l) then Some (inl (l, master_grid))
  else
    l ← clear_footprint l;
    if negb (v_rolling v) then
      if negb (use_maximum_ l) then
        r ← updateWithTrueOverwrite (base l) master_grid min_i min_j max_i max_j;
        Some (match r with inl m => inl (set_current l true, m) | inr e => inr e end)
      else
        m ← updateWithMax (base l) master_grid min_i min_j max_i max_j;
        Some (inl (set_current l true, m))
    else
      match lookupTransform (map_frame_ l) with
      | None => Some (inl (l, master_grid))
      | Some t =>
          m ← transform_costs l v t master_grid min_i min_j max_i max_j;
          Some (inl (set_current l true, m))
      end.

(** ** Parameters *)

Inductive ParameterValue :=
| PARAMETER_BOOL (b : bool)
| PARAMETER_DOUBLE (d : spec_float)
| PARAMETER_OTHER.

(** One parameter of the callback; [name_] prefixes the names. The second
    branch on a boolean is the code's and is never reached. *)
Definition set_parameter (name : string) (l : StaticLayer) (param : string * ParameterValue) : StaticLayer :=
  let named s := String.eqb (fst param) (name ++ "." ++ s)%string in
  if named "map_subscribe_transient_local"%string || named "map_topic"%string || named "subscribe_to_updates"%string then l
  else
    match snd param with
    | PARAMETER_DOUBLE _ => l
    | PARAMETER_BOOL b =>
        if named "enabled"%string && negb (eqb (enabled_ (base l)) b) then
          let l := set_base l (set_flags (base l) (current_ (base l)) b) in
          let l := set_area l 0 0 (size_x_ (own_map l)) (size_y_ (own_map l)) in
          set_current (set_updated l true) false
        else l
    | PARAMETER_OTHER => l
    end.

Definition dynamicParametersCallback (name : string) (l : StaticLayer) (parameters : list (string * ParameterValue)) :
    StaticLayer :=
  foldl (set_parameter name) l parameters.
End static.

(** ** The value of a cell *)

(** The threshold [getParameters] enforces. *)
Definition threshold_ok (l : StaticLayer) : Prop := 0 <= lethal_threshold_ l <= 100.

Definition scaled (value threshold : Z) : option Z :=
  f_to_u8 (fmul (fdiv (f_of_Z value) (f_of_Z threshold)) (f_of_Z LETHAL_OBSTACLE)).

Definition scaled_ok (threshold value : Z) : bool :=
  match scaled value threshold with Some c => c =? 254 * value / threshold | None => false end.

(** The floating point scale is exact for every value and threshold. *)
Lemma scaled_table : forallb (fun t => forallb (scaled_ok t) (zrange 0 t)) (zrange 1 101) = true.
Proof. vm_compute. reflexivity. Qed.

Lemma scaled_exact t v : 1 <= t <= 100 -> 0 <= v < t -> scaled v t = Some (254 * v / t).
Proof.
  intros Ht Hv. pose proof scaled_table as H. rewrite forallb_forall in H.
  specialize (H t (proj1 (list_elem_of_In _ _) (proj2 (elem_of_zrange 1 101 t) ltac:(lia)))).
  rewrite forallb_forall in H.
  specialize (H v (proj1 (list_elem_of_In _ _) (proj2 (elem_of_zrange 0 t v) ltac:(lia)))).
  unfold scaled_ok in H. destruct (scaled v t); [|done]. by apply Z.eqb_eq in H as ->.
Qed.

(** The cost of an occupancy, without floating point. *)
Definition interpreted (l : StaticLayer) (value : Z) : Z :=
  if value =? unknown_cost_value_ l then if track_unknown_space_ l then NO_INFORMATION else FREE_SPACE
  else if lethal_threshold_ l <=? value then LETHAL_OBSTACLE
  else if trinary_costmap_ l then FREE_SPACE else 254 * value / lethal_threshold_ l.

Lemma interpretValue_exact l value :
  threshold_ok l -> 0 <= value -> interpretValue l value = Some (interpreted l value).
Proof.
  intros Ht Hv. unfold interpretValue, interpreted.
  destruct (value =? unknown_cost_value_ l), (track_unknown_space_ l); simpl; try done;
    destruct (Z.leb_spec (lethal_threshold_ l) value); try done;
    destruct (trinary_costmap_ l); try done; apply scaled_exact; unfold threshold_ok in Ht; lia.
Qed.

Lemma interpreted_u8 l value : threshold_ok l -> 0 <= value -> is_u8 (interpreted l value).
Proof.
  intros Ht Hv. unfold interpreted, NO_INFORMATION, FREE_SPACE, LETHAL_OBSTACLE, is_u8.
  destruct (_ =? _), (track_unknown_space_ l); try lia;
    destruct (Z.leb_spec (lethal_threshold_ l) value); try lia; destruct (trinary_costmap_ l); try lia;
    (split; [apply Z.div_pos; lia | apply Z.div_lt_upper_bound; lia]).
Qed.

Lemma interpreted_below l value :
  threshold_ok l -> 0 <= value < lethal_threshold_ l -> value <> unknown_cost_value_ l ->
  interpreted l value <= MAX_NON_OBSTACLE.
Proof.
  intros Ht Hv Hu. unfold interpreted, threshold_ok, MAX_NON_OBSTACLE, FREE_SPACE in *.
  rewrite (proj2 (Z.eqb_neq _ _) Hu), (proj2 (Z.leb_gt _ _)) by lia.
  destruct (trinary_costmap_ l); [lia|]. apply Z.lt_succ_r, Z.div_lt_upper_bound; lia.
Qed.

(** [interpretValue] is defined for every byte and every threshold the
    parameters allow, with the exact integer quotient in place of the floating
    point scale: unknown maps to unknown or free, a value at the threshold to a
    lethal cost, and a known value below it to a cost that is neither lethal
    nor inscribed, larger values giving larger costs. *)
Theorem interpretValue_scales (l : StaticLayer) (value : Z) :
  threshold_ok l -> is_u8 value ->
  interpretValue l value = Some (interpreted l value) /\ is_u8 (interpreted l value) /\
  (value <> unknown_cost_value_ l ->
     (interpreted l value = LETHAL_OBSTACLE <-> lethal_threshold_ l <= value) /\
     (value < lethal_threshold_ l -> interpreted l value <= MAX_NON_OBSTACLE) /\
     forall value', value <= value' -> value' <> unknown_cost_value_ l ->
       interpreted l value <= interpreted l value').
Proof.
  intros Ht [Hv _]. split; [by apply interpretValue_exact|]. split; [by apply interpreted_u8|].
  intros Hu. split; [|split].
  - split; [|intros Hle; unfold interpreted; by rewrite (proj2 (Z.eqb_neq _ _) Hu), (proj2 (Z.leb_le _ _) Hle)].
    intros E. destruct (Z.le_gt_cases (lethal_threshold_ l) value) as [|Hlt]; [done|].
    pose proof (interpreted_below l value Ht (conj Hv Hlt) Hu). rewrite E in *.
    unfold LETHAL_OBSTACLE, MAX_NON_OBSTACLE in *. lia.
  - intros Hlt. by apply interpreted_below.
  - intros value' Hle Hu'. unfold interpreted, threshold_ok, LETHAL_OBSTACLE, FREE_SPACE in *.
    rewrite (proj2 (Z.eqb_neq _ _) Hu), (proj2 (Z.eqb_neq _ _) Hu').
    destruct (Z.leb_spec (lethal_threshold_ l) value), (Z.leb_spec (lethal_threshold_ l) value'); try lia;
      destruct (trinary_costmap_ l); try lia.
    + apply Z.lt_le_incl, Z.div_lt_upper_bound; lia.
    + apply Z.div_le_mono; lia.
Qed.

Definition example_static (cells : list Z) : StaticLayer :=
  mkStatic (example_layer cells) "map"%string true 0 0 4 3 true false 65 255 false true true None false [].

Lemma interpretValue_scales_witness :
  interpretValue (example_static example_cells) 64 = Some 250 /\
  interpretValue (example_static example_cells) 65 = Some 254.
Proof.
  destruct (interpretValue_scales (example_static example_cells) 64) as (E & _ & _);
    [unfold threshold_ok; simpl; lia | unfold is_u8; lia |].
  destruct (interpretValue_scales (example_static example_cells) 65) as (E' & _ & _);
    [unfold threshold_ok; simpl; lia | unfold is_u8; lia |].
  rewrite E, E'. split; reflexivity.
Defined.

(** ** Loading a map *)

(** The cells before [n] hold the interpreted data. *)
Definition loaded (l : StaticLayer) (data : list Z) (n : Z) (c : list Z) : Prop :=
  forall k d, 0 <= k < n -> aget data k = Some d -> aget c k = Some (interpreted l (u8 d)).

Lemma u8_range z : is_u8 (u8 z).
Proof. ilia. Qed.

Lemma copy_row l data w h i c :
  threshold_ok l -> alen data = w * h -> alen c = w * h -> 0 <= w -> 0 <= i < h -> w * h < 2 ^ 32 ->
  loaded l data (i * w) c ->
  exists c', for_range 0 w (fun _ '(index, costmap) =>
       d ← aget data index; v ← interpretValue l (u8 d); costmap ← aset costmap index v;
       Some (u32 (index + 1), costmap)) (u32 (i * w), c) = Some (u32 ((i + 1) * w), c') /\
    alen c' = w * h /\ loaded l data ((i + 1) * w) c'.
Proof.
  intros Ht Hd Hc Hw Hi Ha Hld.
  match goal with |- context [for_range 0 w ?b _] => set (body := b) end.
  destruct (for_range_inv (fun j '(index, c1) => index = u32 (i * w + j) /\ alen c1 = w * h /\
      loaded l data (i * w + j) c1) body 0 w (u32 (i * w), c)) as ([idx c'] & E & -> & Hl' & H'); [lia| | |].
  - rewrite Z.add_0_r. done.
  - intros j [idx c1] Hj (-> & Hl1 & H1). unfold body.
    pose proof (index_bound w h j i Hj Hi) as Hb.
    rewrite (u32_small (i * w + j)) by (unfold is_u32; lia).
    destruct (aget_is_Some data (i * w + j) ltac:(lia)) as [d Ed]. rewrite Ed. mred.
    rewrite interpretValue_exact by (done || apply u8_range). mred.
    pose proof (aset_Some c1 (i * w + j) (interpreted l (u8 d)) ltac:(lia)) as Es. rewrite Es. mred.
    eexists. split; [done|]. split; [f_equal; lia|]. split; [by rewrite (aset_len _ _ _ _ Es)|].
    intros k d' Hk Ek. rewrite (aget_aset _ _ _ _ k Es).
    destruct (Z.eqb_spec (i * w + j) k) as [<-|]; [by simplify_eq|]. apply H1; [lia|done].
  - exists c'. rewrite E. split; [do 3 f_equal; lia|]. split; [done|].
    by replace ((i + 1) * w) with (i * w + w) by lia.
Qed.

Lemma copy_data_spec l data w h c :
  threshold_ok l -> alen data = w * h -> alen c = w * h -> 0 <= w -> 0 <= h -> w * h < 2 ^ 32 ->
  exists c', copy_data l w h data c = Some c' /\ alen c' = w * h /\ loaded l data (w * h) c'.
Proof.
  intros Ht Hd Hc Hw Hh Ha. unfold copy_data.
  match goal with |- context [for_range 0 h ?b _] => set (body := b) end.
  destruct (for_range_inv (fun i '(index, c1) => index = u32 (i * w) /\ alen c1 = w * h /\
      loaded l data (i * w) c1) body 0 h (0, c)) as ([idx c'] & E & -> & Hl' & H'); [done| | |].
  - split; [done|]. split; [done|]. intros k d Hk. lia.
  - intros i [idx c1] Hi (-> & Hl1 & H1). unfold body.
    destruct (copy_row l data w h i c1) as (c2 & -> & Hl2 & H2); [done..|].
    eexists. split; [done|]. done.
  - rewrite E. mred. exists c'. simpl. split; [done|]. split; [done|].
    by replace (w * h) with (h * w) by lia.
Qed.

Lemma loaded_bytes l data c :
  threshold_ok l -> alen data = alen c -> loaded l data (alen c) c -> Forall is_u8 c.
Proof.
  intros Ht Hl Hld. apply Forall_forall. intros v (k & Hk)%elem_aget.
  pose proof (aget_bounds _ _ _ Hk) as Hb. destruct (aget_is_Some data k ltac:(lia)) as [d Ed].
  rewrite (Hld k d Hb Ed) in Hk. injection Hk as <-. apply interpreted_u8; [done|apply u8_range].
Qed.

(** A layer whose own grid is well formed and of byte cells. *)
Definition own_ok (l : StaticLayer) (c : list Z) : Prop :=
  wf_map (own_map l) c /\ Forall is_u8 c /\ is_u8 (default_value_ (own_map l)) /\ threshold_ok l.

(** The grid after the size of the layer was adapted to the map. *)
Lemma processMap_sized fresh_byte l c v new_map :
  let w := width (info new_map) in let h := height (info new_map) in
  let res := f_of_s (resolution (info new_map)) in
  let ox := px (position (origin (info new_map))) in
  let oy := py (position (origin (info new_map))) in
  own_ok l c -> 0 <= w < 2 ^ 31 -> 0 <= h < 2 ^ 31 -> w * h <= 2 ^ 31 ->
  exists l' resized c', (if negb (v_rolling v) && (geometry_differs (v_master v) w h res ox oy || negb (v_size_locked v))
       then m ← Costmap2D.resizeMap fresh_byte (own_map l) w h res ox oy; Some (set_own_map l m, true)
       else if geometry_differs (own_map l) w h res ox oy then
         m ← Costmap2D.resizeMap fresh_byte (own_map l) w h res ox oy; Some (set_own_map l m, false)
       else Some (l, false)) = Some (l', resized) /\
    own_ok l' c' /\ size_x_ (own_map l') = w /\ size_y_ (own_map l') = h /\
    interpreted l' = interpreted l /\
    (resized = true <-> v_rolling v = false /\
       (geometry_differs (v_master v) w h res ox oy = true \/ v_size_locked v = false)).
Proof.
  intros w h res ox oy (Hw & Hb & Hd & Ht) Hx Hy Ha.
  destruct (resizeMap_cells fresh_byte (own_map l) w h res ox oy) as (m & c' & -> & Hwm & Hbm & Hsx & Hsy & Hdm & _);
    [done..|]. mred.
  assert (own_ok (set_own_map l m) c') as Hok.
  { split; [done|]. split; [done|]. split; [by change (default_value_ (own_map (set_own_map l m))) with (default_value_ m); rewrite Hdm|done]. }
  destruct (negb (v_rolling v) && (geometry_differs (v_master v) w h res ox oy || negb (v_size_locked v))) eqn:B1.
  - eexists _, _, c'. split; [done|]. split; [done|]. do 3 (split; [done|]). zbool. tauto.
  - destruct (geometry_differs (own_map l) w h res ox oy) eqn:B2.
    + eexists _, _, c'. split; [done|]. split; [done|]. do 3 (split; [done|]). split; [done|].
      intros H. zbool. destruct B1 as [B1|[B1 B1']], H as [H [H'|H']]; congruence.
    + eexists _, _, c. split; [done|]. split; [done|]. unfold geometry_differs in B2. zbool.
      destruct B2 as [[[[Bx By] _] _] _]. do 3 (split; [done|]). split; [done|].
      intros H. destruct B1 as [B1|[B1 B1']], H as [H [H'|H']]; congruence.
Qed.

(** [processMap] loads the whole map: the layer gets the size of the map,
    cell [(x, y)] the cost of [data[y * width + x]], the full area is marked
    as updated and the layer as current, and the layered costmap is resized
    exactly when it does not roll and either differs from the map or is not
    locked in size. *)
Theorem processMap_loads (fresh_byte : Z -> Z) (l : StaticLayer) (c : list Z) (v : LayeredView)
    (new_map : OccupancyGrid) :
  let w := width (info new_map) in let h := height (info new_map) in
  own_ok l c -> 0 <= w < 2 ^ 31 -> 0 <= h < 2 ^ 31 -> w * h <= 2 ^ 31 -> alen (data new_map) = w * h ->
  exists l' c' resized, processMap fresh_byte l v new_map = Some (l', resized) /\ own_ok l' c' /\
    size_x_ (own_map l') = w /\ size_y_ (own_map l') = h /\
    (forall x y d, 0 <= x < w -> 0 <= y < h -> aget (data new_map) (y * w + x) = Some d ->
       cost_at (own_map l') x y = Some (interpreted l (u8 d))) /\
    (x_ l', y_ l', width_ l', height_ l') = (0, 0, w, h) /\
    has_updated_data_ l' = true /\ current_ (base l') = true /\ map_frame_ l' = frame_id (header new_map) /\
    (resized = true <-> v_rolling v = false /\
       (geometry_differs (v_master v) w h (f_of_s (resolution (info new_map)))
          (px (position (origin (info new_map)))) (py (position (origin (info new_map)))) = true \/
        v_size_locked v = false)).
Proof.
  intros w h Hok Hx Hy Ha Hlen. unfold processMap. cbv zeta.
  destruct (processMap_sized fresh_byte l c v new_map Hok Hx Hy Ha)
    as (l1 & resized & c1 & E & Hok1 & Hsx & Hsy & Hi & Hr).
  unfold w, h in *. rewrite E. mred. simpl fst. simpl snd. destruct Hok1 as (Hw1 & Hb1 & Hd1 & Ht1).
  rewrite (wf_some _ _ Hw1). mred. pose proof (wf_alen _ _ Hw1) as Hl1. rewrite Hsx, Hsy in Hl1.
  destruct (copy_data_spec l1 (data new_map) (width (info new_map)) (height (info new_map)) c1)
    as (c2 & -> & Hl2 & Hld); [done..|lia|lia|ilia|]. mred.
  eexists _, c2, resized. split; [done|]. split; [|split; [done|split; [done|split]]].
  - split; [by apply wf_with_costmap with c1; [|congruence]|].
    split; [apply (loaded_bytes l1 (data new_map)); [done|congruence|by rewrite Hl2]|done].
  - intros x y d Hpx Hpy Ed. unfold cost_at. simpl. unfold grid_at. rewrite Hsx, <- Hi.
    apply Hld; [|done]. by apply index_bound.
  - simpl. rewrite Hsx, Hsy. done.
Qed.

Definition example_grid_msg : OccupancyGrid :=
  mkGrid (mkHeader (mkTime 0 0) "map"%string)
    (mkMeta (mkTime 0 0) (s_of_Z 1) 2 3
      (mkPose (mkPoint f_zero f_zero f_zero) (mkQuaternion f_zero f_zero f_zero f_one)))
    [0; 100; -1; 30; 64; 65].

Definition example_view : LayeredView := mkView false true example_map [] f_zero.

Lemma example_cells_bytes : Forall is_u8 example_cells.
Proof. repeat constructor; unfold is_u8; lia. Qed.

Lemma example_static_ok : own_ok (example_static example_cells) example_cells.
Proof.
  split; [exact example_map_wf|]. split; [exact example_cells_bytes|].
  split; [unfold is_u8 | unfold threshold_ok]; simpl; lia.
Qed.

Lemma processMap_loads_witness :
  exists l' r, processMap (fun _ => 0) (example_static example_cells) example_view example_grid_msg = Some (l', r) /\
    cost_at (own_map l') 1 0 = Some 254 /\ cost_at (own_map l') 0 1 = Some 255 /\
    cost_at (own_map l') 0 2 = Some 250.
Proof.
  destruct (processMap_loads (fun _ => 0) (example_static example_cells) example_cells example_view
    example_grid_msg example_static_ok) as (l' & c' & r & E & _ & _ & _ & H & _); [simpl; lia..|reflexivity|].
  exists l', r. split; [exact E|]. simpl in H. split; [|split].
  - apply (H 1 0 100); [lia..|reflexivity].
  - apply (H 0 1 (-1)); [lia..|reflexivity].
  - apply (H 0 2 64); [lia..|reflexivity].
Defined.

(** ** Partial updates *)

(** The rectangle of an update, and the part of it written when the loops are
    at row [iy] and column [ix]. *)
Definition in_update (u : OccupancyGridUpdate) (x y : Z) : Prop :=
  up_x u <= x < up_x u + up_width u /\ up_y u <= y < up_y u + up_height u.

Definition update_cell (l : StaticLayer) (u : OccupancyGridUpdate) (x y : Z) : option Z :=
  d ← aget (up_data u) ((y - up_y u) * up_width u + (x - up_x u)); Some (interpreted l (u8 d)).

Definition written (u : OccupancyGridUpdate) (iy ix x y : Z) : Prop :=
  up_x u <= x < up_x u + up_width u /\
  (up_y u <= y < up_y u + iy \/ y = up_y u + iy /\ x < up_x u + ix).

#[export] Instance written_dec u iy ix x y : Decision (written u iy ix x y).
Proof. unfold written. apply _. Defined.
#[export] Instance in_update_dec u x y : Decision (in_update u x y).
Proof. unfold in_update. apply _. Defined.

Definition updated_until (l : StaticLayer) (u : OccupancyGridUpdate) (c : list Z) (iy ix : Z) (c1 : list Z) : Prop :=
  alen c1 = alen c /\ forall x y, on_map (own_map l) x y ->
    grid_at c1 (size_x_ (own_map l)) x y =
      if bool_decide (written u iy ix x y) then update_cell l u x y else grid_at c (size_x_ (own_map l)) x y.

(** An update that lies in the map, with a value per cell. *)
Record update_fits (l : StaticLayer) (u : OccupancyGridUpdate) : Prop := {
  uf_x : 0 <= up_x u;
  uf_y : 0 <= up_y u;
  uf_w : 0 <= up_width u;
  uf_h : 0 <= up_height u;
  uf_right : up_x u + up_width u <= size_x_ (own_map l);
  uf_top : up_y u + up_height u <= size_y_ (own_map l);
  uf_data : alen (up_data u) = up_width u * up_height u;
}.

Section update.
Context (l : StaticLayer) (c : list Z) (Hok : own_ok l c) (u : OccupancyGridUpdate) (Hf : update_fits l u).
#[local] Abbreviation m := (own_map l).

Lemma update_index iy ix :
  0 <= iy < up_height u -> 0 <= ix < up_width u ->
  u32 (u32 (u32 (u32 (up_y u + iy) * size_x_ m) + ix) + up_x u) = (up_y u + iy) * size_x_ m + (up_x u + ix) /\
  on_map m (up_x u + ix) (up_y u + iy).
Proof.
  intros Hy Hx. destruct Hf, Hok as ([] & _). 
  assert (on_map m (up_x u + ix) (up_y u + iy)) as [Hpx Hpy] by (unfold on_map; lia).
  pose proof (index_bound _ _ _ _ Hpx Hpy).
  split; [|done]. rewrite u32_mul_l, u32_add_l, <- Z.add_assoc, u32_add_l, u32_small by (unfold is_u32; ilia). lia.
Qed.

Lemma update_step iy ix c1 :
  0 <= iy < up_height u -> 0 <= ix < up_width u -> updated_until l u c iy ix c1 ->
  exists d c2, aget (up_data u) (iy * up_width u + ix) = Some d /\
    aset c1 ((up_y u + iy) * size_x_ m + (up_x u + ix)) (interpreted l (u8 d)) = Some c2 /\
    updated_until l u c iy (ix + 1) c2.
Proof.
  intros Hy Hx [Hl1 Hg1]. destruct (update_index iy ix Hy Hx) as [_ Hp].
  pose proof (index_bound _ _ _ _ (proj1 Hp) (proj2 Hp)) as Hb. destruct Hok as ([] & _). 
  destruct (aget_is_Some (up_data u) (iy * up_width u + ix)) as [d Ed].
  { rewrite (uf_data _ _ Hf). by apply index_bound. }
  pose proof (aset_Some c1 ((up_y u + iy) * size_x_ m + (up_x u + ix)) (interpreted l (u8 d)) ltac:(lia)) as Es.
  exists d. eexists. split; [done|]. split; [exact Es|]. split; [by rewrite (aset_len _ _ _ _ Es)|].
  intros x y Hq. unfold grid_at at 1.  rewrite (aget_aset _ _ _ _ _ Es).
  destruct (Z.eqb_spec ((up_y u + iy) * size_x_ m + (up_x u + ix)) (y * size_x_ m + x)) as [E|E].
  - destruct (index_inj _ _ _ _ _ (proj1 Hp) (proj1 Hq) E) as [<- <-].
    rewrite bool_decide_eq_true_2 by (unfold written; lia). unfold update_cell.
    replace ((up_y u + iy - up_y u) * up_width u + (up_x u + ix - up_x u)) with (iy * up_width u + ix) by lia.
    by rewrite Ed.
  - change (aget c1 (y * size_x_ m + x)) with (grid_at c1 (size_x_ m) x y).  rewrite Hg1 by done.
    assert (x <> up_x u + ix \/ y <> up_y u + iy)
      by (destruct (decide (x = up_x u + ix /\ y = up_y u + iy)) as [[-> ->]|]; lia).
    rewrite (bool_decide_ext (written u iy ix x y) (written u iy (ix + 1) x y)); [done|]. unfold written. lia.
Qed.

Lemma apply_update_spec :
  exists c', apply_update l u c = Some c' /\ alen c' = alen c /\
    forall x y, on_map m x y -> grid_at c' (size_x_ m) x y =
      if bool_decide (in_update u x y) then update_cell l u x y else grid_at c (size_x_ m) x y.
Proof.
  unfold apply_update.  pose proof Hok as (Hw & _ & _ & Ht). pose proof Hw as [Hsx Hsy Ha _ _].
  destruct Hf.  assert (0 <= up_width u * up_height u <= size_x_ m * size_y_ m) as Hsz by nia.
  match goal with |- context [for_range 0 (up_height u) ?b _] => set (body := b) end.
  destruct (for_range_inv (fun iy '(di, c1) => di = u32 (iy * up_width u) /\ updated_until l u c iy 0 c1)
    body 0 (up_height u) (0, c)) as ([di c'] & -> & -> & Hl' & Hg'); [done| | |].
  - split; [done|]. split; [done|]. intros x y _. by rewrite bool_decide_eq_false_2 by (unfold written; lia).
  - intros iy [di c1] Hy [-> H1]. unfold body.
    match goal with |- context [for_range 0 (up_width u) ?b _] => set (row := b) end.
    destruct (for_range_inv (fun ix '(di, c1) => di = u32 (iy * up_width u + ix) /\ updated_until l u c iy ix c1)
      row 0 (up_width u) (u32 (iy * up_width u), c1)) as ([di c2] & E & -> & Hl2 & Hg2); [done| | |].
    + rewrite Z.add_0_r. done.
    + intros ix [di c2] Hx [-> H2]. unfold row.
      destruct (update_index iy ix Hy Hx) as [-> _].
      destruct (update_step iy ix c2 Hy Hx H2) as (d & c3 & Ed & Es & H3).
      pose proof (index_bound _ _ _ _ Hx Hy) as Hb. rewrite (u32_small (iy * up_width u + ix)) by (unfold is_u32; ilia).
      rewrite Ed. mred. rewrite interpretValue_exact by (done || apply u8_range). mred. rewrite Es. mred.
      eexists. split; [done|]. split; [f_equal; lia|done].
    + rewrite E. eexists. split; [done|]. split; [f_equal; lia|]. split; [done|]. intros x y Hp.
      rewrite Hg2 by done.
      rewrite (bool_decide_ext (written u iy (up_width u) x y) (written u (iy + 1) 0 x y)); [done|].
      unfold written. lia.
  - mred. exists c'. split; [done|]. split; [done|]. intros x y Hp. rewrite Hg' by done.
    rewrite (bool_decide_ext (written u (up_height u) 0 x y) (in_update u x y)); [done|].
    unfold written, in_update. lia.
Qed.
End update.

(** The area of the layer is its whole grid, as [processMap] leaves it. *)
Definition whole_area (l : StaticLayer) : Prop :=
  x_ l = 0 /\ y_ l = 0 /\ width_ l = size_x_ (own_map l) /\ height_ l = size_y_ (own_map l).

(** The fields of an update message, its sizes below 2^31. *)
Definition update_typed (u : OccupancyGridUpdate) : Prop :=
  is_s32 (up_x u) /\ is_s32 (up_y u) /\ 0 <= up_width u < 2 ^ 31 /\ 0 <= up_height u < 2 ^ 31 /\
  alen (up_data u) = up_width u * up_height u.

Lemma update_ignored_spec l c u :
  wf_map (own_map l) c -> whole_area l -> update_typed u -> update_ignored l u = false <-> update_fits l u.
Proof.
  intros [] (Hx & Hy & Hw & Hh) (Ux & Uy & Uw & Uh & Ud). unfold update_ignored.
  rewrite Hx, Hy, Hw, Hh, (s32_small 0), !Z.add_0_l by (unfold is_s32; ilia).
  rewrite (u32_small (size_x_ _)), (u32_small (size_y_ _)) by (unfold is_u32; ilia). split.
  - intros H. zbool. rewrite !u32_small in H by (unfold is_u32; unfold is_s32 in *; ilia). constructor; lia.
  - intros []. rewrite !u32_small by (unfold is_u32; ilia). zbool. lia.
Qed.

(** [incomingUpdate] drops an update that leaves the map or is in another
    frame, leaving the layer as it was; otherwise it rewrites exactly the cells
    of the rectangle, from the data in row order, and marks the layer as
    updated. *)
Theorem incomingUpdate_rectangle (l : StaticLayer) (c : list Z) (u : OccupancyGridUpdate) :
  own_ok l c -> whole_area l -> update_typed u ->
  (~ update_fits l u \/ frame_id (up_header u) <> map_frame_ l -> incomingUpdate l u = Some l) /\
  (update_fits l u -> frame_id (up_header u) = map_frame_ l ->
     exists l' c', incomingUpdate l u = Some l' /\ own_ok l' c' /\ has_updated_data_ l' = true /\
       own_map l' = with_costmap (own_map l) (Some c') /\
       forall x y, on_map (own_map l) x y ->
         cost_at (own_map l') x y
         = if bool_decide (in_update u x y) then update_cell l u x y else cost_at (own_map l) x y).
Proof.
  intros Hok Harea Hu. pose proof Hok as (Hw & Hb & Hd & Ht).
  pose proof (update_ignored_spec l c u Hw Harea Hu) as Hi. unfold incomingUpdate. split.
  - intros Hn. destruct (update_ignored l u) eqn:Ei; [done|].
    destruct (String.eqb_spec (frame_id (up_header u)) (map_frame_ l)); [|done].
    destruct Hn as [Hn|Hn]; [|done]. by destruct Hn; apply Hi.
  - intros Hf Hframe. rewrite (proj2 Hi Hf), (proj2 (String.eqb_eq _ _) Hframe). cbn [negb].
    rewrite (wf_some _ _ Hw). mred. destruct (apply_update_spec l c Hok u Hf) as (c' & -> & Hl & Hg). mred.
    eexists _, c'. split; [done|]. split; [|split; [done|split; [done|]]].
    + split; [by apply wf_with_costmap with c|]. split; [|done].
      apply (bytes_of_grid (own_map l) c); [done..|]. intros x y v Hp E. rewrite Hg in E by done.
      case_bool_decide; [|by eapply grid_bytes]. unfold update_cell in E.
      destruct (aget (up_data u) _); [|done]. injection E as <-. apply interpreted_u8; [done|apply u8_range].
    + intros x y Hp. unfold cost_at. rewrite (wf_some _ _ Hw). simpl. by apply Hg.
Qed.

Definition example_update : OccupancyGridUpdate :=
  mkUpdate (mkHeader (mkTime 0 0) "map"%string) 1 1 2 2 [100; 0; -1; 13].

Lemma incomingUpdate_rectangle_witness :
  exists l', incomingUpdate (example_static example_cells) example_update = Some l' /\
    cost_at (own_map l') 1 1 = Some 254 /\ cost_at (own_map l') 2 2 = Some 50 /\ cost_at (own_map l') 0 0 = Some 1.
Proof.
  destruct (incomingUpdate_rectangle (example_static example_cells) example_cells example_update
    example_static_ok) as [_ H]; [done | unfold update_typed, is_s32; simpl; unfold alen; simpl; lia |].
  destruct H as (l' & c' & E & _ & _ & _ & H); [constructor; simpl; unfold alen; simpl; lia | reflexivity |].
  exists l'. split; [exact E|]. split; [|split]; rewrite H by (unfold on_map; simpl; lia); vm_compute; reflexivity.
Defined.

(** ** Parameters *)

Lemma set_parameter_clearing name l p :
  footprint_clearing_enabled_ (set_parameter name l p) = footprint_clearing_enabled_ l.
Proof.
  unfold set_parameter. destruct (_ || _); [done|]. destruct (snd p); try done. by destruct (_ && _).
Qed.

(** No parameter update reaches [footprint_clearing_enabled]: its branch
    repeats the type test of the branch before it, so a client that sets it is
    told of a success and the field keeps its value. *)
Theorem clearing_parameter_ignored (name : string) (l : StaticLayer) (parameters : list (string * ParameterValue)) :
  footprint_clearing_enabled_ (dynamicParametersCallback name l parameters) = footprint_clearing_enabled_ l.
Proof.
  unfold dynamicParametersCallback. revert l.
  induction parameters as [|p ps IH]; intros l; simpl; [done|]. by rewrite IH, set_parameter_clearing.
Qed.

(** ** The layer interface *)

Section static_layer.
Context (fresh_byte : Z -> Z) (hypot : spec_float -> spec_float -> spec_float) (cos sin : spec_float -> spec_float).
Context (lookupTransform : string -> option (spec_float * spec_float -> spec_float * spec_float)).

(** [updateBounds] has no answer here for a layer about to load a new map: it
    would resize the layered costmap that called it. *)
#[local] Instance static_ops : LayerOps StaticLayer := {
  LayeredCostmap.updateBounds l v x y yaw b :=
    r ← updateBounds fresh_byte cos sin l v x y yaw b;
    let '(l, b, resized) := r in if resized : bool then None else Some (l, b);
  LayeredCostmap.updateCosts l v m min_i min_j max_i max_j :=
    r ← updateCosts hypot lookupTransform l v m min_i min_j max_i max_j;
    match r with inl r => Some r | inr _ => None end;
  layer_matchSize l v := matchSize fresh_byte l v;
  onFootprintChanged l v := Some l;
  layer_isCurrent l := current_ (base l);
  layer_isEnabled l := enabled_ (base l);
}.

(** No map is pending and the footprint is not cleared. *)
Definition static_inv (l : StaticLayer) : Prop :=
  map_buffer_ l = None /\ footprint_clearing_enabled_ l = false /\ threshold_ok l /\
  is_u8 (default_value_ (own_map l)).

Definition static_fits (l : StaticLayer) (sx sy : Z) : Prop :=
  static_inv l /\ exists c, own_ok l c /\ size_x_ (own_map l) = sx /\ size_y_ (own_map l) = sy.

Lemma static_updateBounds l v sx sy x y yaw b :
  v_rolling v = false -> static_fits l sx sy ->
  exists l' b', LayeredCostmap.updateBounds l v x y yaw b = Some (l', b') /\ static_fits l' sx sy.
Proof.
  intros Hv Hf. pose proof Hf as ((Hbuf & Hclear & _) & _). simpl. unfold updateBounds.
  destruct (map_received_ l); cbn [negb]; [|by eexists _, _].
  cbv zeta. simpl map_buffer_. rewrite Hbuf. mred. rewrite Hv. cbn [negb andb].
  destruct (has_updated_data_ _ || _); cbn [negb]; [|by eexists _, _].
  simpl base. unfold useExtraBounds. simpl.
  destruct (has_extra_bounds_ (base l)) eqn:Ex; cbn [negb];
    unfold updateFootprint; simpl; rewrite Hclear; simpl; by eexists _, _.
Qed.

Lemma static_fits_base l c m master :
  own_ok l c -> wf_map m master -> Forall is_u8 master ->
  size_x_ (own_map l) = size_x_ m -> size_y_ (own_map l) = size_y_ m -> fits (base l) c m master.
Proof. intros (Hw & Hb & _) Hm Hbm Hx Hy. by constructor. Qed.

Lemma static_updateCosts l v m c min_i min_j max_i max_j :
  v_rolling v = false -> static_fits l (size_x_ m) (size_y_ m) -> wf_map m c -> Forall is_u8 c ->
  window_ok m min_i min_j max_i max_j ->
  exists l' c', LayeredCostmap.updateCosts l v m min_i min_j max_i max_j = Some (l', with_costmap m (Some c')) /\
    alen c' = alen c /\ Forall is_u8 c' /\ static_fits l' (size_x_ m) (size_y_ m) /\
    forall x y, on_map m x y -> ~ in_window min_i min_j max_i max_j x y ->
      grid_at c' (size_x_ m) x y = grid_at c (size_x_ m) x y.
Proof.
  intros Hv Hf Hm Hb Hwin. pose proof Hf as ((Hbuf & Hclear & _) & src & Hsrc & Hx & Hy).
  pose proof (static_fits_base l src m c Hsrc Hm Hb Hx Hy) as Hfit.
  assert (m = with_costmap m (Some c)) as Em by (destruct m, Hm; simpl in *; by subst).
  simpl. unfold updateCosts. destruct (enabled_ (base l)) eqn:Hon; cbn [negb]; [|exists l, c; by rewrite <- Em].
  destruct (map_received_in_update_bounds_ l); cbn [negb]; [|exists l, c; by rewrite <- Em].
  unfold clear_footprint. rewrite Hclear. mred. rewrite Hv. cbn [negb].
  destruct (use_maximum_ l); cbn [negb].
  - destruct (updateWithMax_merged (base l) src m c Hfit _ _ _ _ Hwin Hon) as (m' & -> & Hmg). mred.
    destruct (merged_grid_window _ _ _ _ _ _ _ _ _ _ Hfit merge_max_u8 Hmg) as (c' & -> & ? & ? & ?). by exists (set_current l true), c'.
  - destruct (updateWithTrueOverwrite_merged (base l) src m c Hfit _ _ _ _ Hwin Hon) as (m' & -> & Hmg). mred.
    destruct (merged_grid_window _ _ _ _ _ _ _ _ _ _ Hfit (fun a _ Ha _ => Ha) Hmg) as (c' & -> & ? & ? & ?). by exists (set_current l true), c'.
Qed.

Lemma static_matchSize l v c :
  v_rolling v = false -> static_inv l -> wf_map (v_master v) c -> is_u8 (default_value_ (v_master v)) ->
  exists l', layer_matchSize l v = Some l' /\
    static_fits l' (size_x_ (v_master v)) (size_y_ (v_master v)).
Proof.
  intros Hv (Hbuf & Hclear & Ht & Hd) [Hsx Hsy Ha _ _] _. simpl. unfold matchSize. rewrite Hv. cbn [negb].
  destruct (resizeMap_cells fresh_byte (own_map l) (size_x_ (v_master v)) (size_y_ (v_master v))
    (resolution_ (v_master v)) (origin_x_ (v_master v)) (origin_y_ (v_master v)))
    as (m' & c' & -> & Hw & Hb & Hx & Hy & Hdm & _); [done..|]. mred.
  assert (is_u8 (default_value_ m')) as Hd' by (by rewrite Hdm).
  eexists. split; [done|]. split; [done|]. exists c'. done.
Qed.

(** The static layer keeps the promises of a layer in a costmap that does not
    roll. *)
#[local] Instance static_laws : LayerLaws StaticLayer false := {
  layer_inv l _ _ _ := static_inv l;
  layer_fits := static_fits;
  layer_ready _ _ _ _ _ := True;
  updateBounds_fits l v sx sy x y yaw b Hv Hf _ := static_updateBounds l v sx sy x y yaw b Hv Hf;
  updateCosts_window := static_updateCosts;
  matchSize_fits := static_matchSize;
  layer_footprint _ _ := True;
  footprint_fits l v sx sy H _ := ex_intro _ l (conj eq_refl H);
}.
End static_layer.

(** ** A layered costmap of static layers *)

Section example.
#[local] Instance example_ops : LayerOps StaticLayer :=
  static_ops (fun _ => 0) hypot_sqrt (fun x => x) (fun x => x) (fun _ => None).
#[local] Instance example_laws : LayerLaws StaticLayer false :=
  static_laws (fun _ => 0) hypot_sqrt (fun x => x) (fun x => x) (fun _ => None).

Definition example_layered : LayeredCostmap StaticLayer :=
  mkLayered example_map example_map "map"%string false false (mkBounds f_zero f_zero f_zero f_zero) 0 0 0 0
    [example_static example_layer_cells] [example_static (rev example_layer_cells)] false true f_one tenth [].

Lemma example_static_fits cells :
  alen cells = 12 -> Forall is_u8 cells -> static_fits (example_static cells) 4 3.
Proof.
  intros Hl Hb. assert (threshold_ok (example_static cells)) as Ht by (unfold threshold_ok; simpl; lia).
  assert (is_u8 (default_value_ (own_map (example_static cells)))) as Hd by (unfold is_u8; simpl; lia).
  split; [done|]. exists cells. split; [|done]. split; [|done].
  apply (fits_layer _ _ _ _ (example_layer_fits cells Hl Hb)).
Qed.

Lemma example_layered_ok : layered_ok example_layered example_cells example_cells.
Proof.
  pose proof example_map_wf as Hw. pose proof example_cells_bytes as Hb.
  constructor; try done; try (unfold is_u8; simpl; lia); simpl; constructor; try done; apply example_static_fits;
    try done; repeat constructor; unfold is_u8; lia.
Qed.

(** The layers after [updateBounds]. *)
Definition example_layered1 : LayeredCostmap StaticLayer :=
  with_bounds (with_layers example_layered
      [set_updated (example_static example_layer_cells) false]
      [set_updated (example_static (rev example_layer_cells)) false])
    (mkBounds f_half f_half (f_lit 9 (-1)) (f_lit 7 (-1))).

Lemma updateMap_stages_witness :
  exists lc', updateMap (fun _ => 0) example_layered f_one f_one f_zero = Some (inl lc') /\
    (bx0_ lc', bxn_ lc', by0_ lc', byn_ lc') = (0, 4, 0, 3).
Proof.
  destruct (updateMap_stages (fun _ => 0) example_layered example_layered1 example_cells example_cells
    f_one f_one f_zero 0 4 0 3 example_layered_ok) as [H _].
  - split; [by left|].
    exists example_layered, false, (plugins_ example_layered1), (filters_ example_layered1),
      (bounds_ example_layered1).
    do 2 (split; [vm_compute; reflexivity|]). split; [by repeat constructor|]. repeat (split; [vm_compute; reflexivity|]). vm_compute. reflexivity.
  - destruct (H ltac:(lia)) as (lc2 & cp1 & cc1 & cp' & cc' & E & _). eexists. split; [exact E|]. reflexivity.
Defined.

Lemma resizeMap_establishes_witness :
  exists lc', resizeMap (fun _ => 0) example_layered 5 2 f_one f_zero f_zero true = Some lc' /\
    cost_at (combined_costmap_ lc') 4 1 = Some 0.
Proof.
  destruct (resizeMap_establishes (fun _ => 0) example_layered 5 2 f_one f_zero f_zero true)
    as (lc' & cp & cc & E & _ & _ & _ & _ & H); try (unfold is_u8; simpl; lia); try reflexivity.
  - simpl. constructor; [apply (example_static_fits example_layer_cells eq_refl example_layer_bytes)|constructor].
  - simpl. constructor; [|constructor].
    apply (example_static_fits (rev example_layer_cells) eq_refl).
    repeat constructor; unfold is_u8; lia.
  - exists lc'. split; [exact E|]. apply (H 4 1); lia.
Defined.
End example.
