(* ===== verification/LabelTrees.v ===== *)
(** The union-find structure of the denoise layer: [EquivalenceLabelTrees] of
    [nav2_costmap_2d/denoise/image_processing.hpp]. A label is the index of its
    parent in an array; a root is its own parent. *)

From S2P Require Import Prelude.

(** ** Exceptions *)

(** A computation that may throw [LabelOverflow] or [std::logic_error];
    undefined behaviour is the [None] around it. *)
Inductive attempt (A : Type) := Done (a : A) | LabelOverflow | LogicError.
Arguments Done {A} _.
Arguments LabelOverflow {A}.
Arguments LogicError {A}.

Definition try_bind {A B} (m : option (attempt A)) (k : A -> option (attempt B)) : option (attempt B) :=
  match m with
  | Some (Done a) => k a
  | Some LabelOverflow => Some LabelOverflow
  | Some LogicError => Some LogicError
  | None => None
  end.

Declare Scope denoise_scope.
Notation "x ⇐ m ; k" := (try_bind m (fun x => k)) (at level 100, m at next level, right associativity) : denoise_scope.
#[local] Open Scope denoise_scope.

(** The computation is defined; it returns what [P] says, or throws
    [LabelOverflow] for the reason [over]. *)
Definition ends {A} (over : Prop) (P : A -> Prop) (o : option (attempt A)) : Prop :=
  match o with
  | Some (Done a) => P a
  | Some LabelOverflow => over
  | Some LogicError | None => False
  end.

Lemma ends_bind {A B} (over : Prop) (P : A -> Prop) (Q : B -> Prop) m k :
  ends over P m -> (forall a, P a -> ends over Q (k a)) -> ends over Q (try_bind m k).
Proof. destruct m as [[a| |]|]; cbn; auto. Qed.

Lemma ends_mono {A} (over over' : Prop) (P Q : A -> Prop) o :
  ends over P o -> (over -> over') -> (forall a, P a -> Q a) -> ends over' Q o.
Proof. destruct o as [[a| |]|]; cbn; auto. Qed.

(** ** The structure *)

Definition u64 (z : Z) : Z := z mod 2 ^ 64.

Inductive ConnectivityType := Way4 | Way8.

Record EquivalenceLabelTrees := mkTrees { labels_ : list Z; labels_size_ : Z; next_free_ : Z }.

Section trees.
(** [std::numeric_limits<Label>::max()]. *)
Context (label_max : Z).

Definition label (z : Z) : Z := z mod (label_max + 1).

Definition maxLabels (rows columns : Z) (connectivity : ConnectivityType) : Z :=
  let max_labels :=
    match connectivity with
    | Way4 => u64 (u64 (rows * columns) / 2 + 1)
    | Way8 => u64 (u64 (rows * columns) / 3 + 1)
    end in
  Z.min (u64 (max_labels + 1)) label_max.

(** The state before does not matter. *)
Definition trees_reset (rows columns : Z) (connectivity : ConnectivityType) : EquivalenceLabelTrees :=
  mkTrees [0] (label (Z.min (maxLabels rows columns connectivity) label_max)) 1.

Definition makeLabel (t : EquivalenceLabelTrees) : attempt (Z * EquivalenceLabelTrees) :=
  if next_free_ t =? labels_size_ t then LabelOverflow
  else Done (next_free_ t, mkTrees (labels_ t ++ [next_free_ t]) (labels_size_ t) (label (next_free_ t + 1))).

Definition find_step (l : list Z) (root : Z) : option (ctl Z) :=
  p ← aget l root;
  if p <? root then Some (Next p) else Some (Break root).

(** Parents decrease: a node has at most [i] ancestors. *)
Definition findRoot (l : list Z) (i : Z) : option Z := loop (S (Z.to_nat i)) (find_step l) i.

Definition set_step (root : Z) (s : list Z * Z) : option (ctl (list Z * Z)) :=
  let '(l, i) := s in
  j ← aget l i;
  l ← aset l i root;
  if j <? i then Some (Next (l, j)) else Some (Break (l, i)).

Definition setRoot (l : list Z) (i root : Z) : option (list Z) :=
  s ← loop (S (Z.to_nat i)) (set_step root) (l, i);
  Some (fst s).

Definition unionTrees (t : EquivalenceLabelTrees) (i j : Z) : option (Z * EquivalenceLabelTrees) :=
  root ← findRoot (labels_ t) i;
  s ← (if i =? j then Some (root, labels_ t)
       else
         root_j ← findRoot (labels_ t) j;
         let root := Z.min root root_j in
         l ← setRoot (labels_ t) j root;
         Some (root, l));
  l ← setRoot (snd s) i (fst s);
  Some (fst s, mkTrees l (labels_size_ t) (next_free_ t)).

Definition relabel_step (i : Z) (s : list Z * Z) : option (list Z * Z) :=
  let '(l, k) := s in
  p ← aget l i;
  if p <? i then
    v ← aget l p;
    l ← aset l i v;
    Some (l, k)
  else
    l ← aset l i k;
    Some (l, label (k + 1)).

(** The elements the vector held, and its size after the last line resized it. *)
Definition getLabels (t : EquivalenceLabelTrees) : option (list Z * Z) :=
  for_range 1 (next_free_ t) relabel_step (labels_ t, 1).
End trees.

(** ** Roots *)

Fixpoint root_within (n : nat) (l : list Z) (i : Z) : Z :=
  match n with
  | O => i
  | S n => if lget l i <? i then root_within n l (lget l i) else i
  end.

(** The root of the tree of [i]. *)
Definition root (l : list Z) (i : Z) : Z := root_within (Z.to_nat i) l i.

(** Parents do not increase, and stay in the array. *)
Record forest (l : list Z) : Prop := {
  forest_zero : 0 < alen l;
  forest_parent : forall i, 0 <= i < alen l -> 0 <= lget l i <= i;
}.

Section roots.
Context (l : list Z) (F : forest l).

Lemma root_within_enough n m i :
  0 <= i < alen l -> (Z.to_nat i <= n)%nat -> (Z.to_nat i <= m)%nat -> root_within n l i = root_within m l i.
Proof.
  revert m i. induction n as [|n IH]; intros m i Hi Hn Hm; pose proof (forest_parent l F i Hi).
  - destruct m as [|m]; cbn; [done|]. destruct (Z.ltb_spec (lget l i) i); [lia|done].
  - destruct m as [|m]; cbn; (destruct (Z.ltb_spec (lget l i) i); [|done]); [lia|]. apply IH; lia.
Qed.

Lemma root_eq i : 0 <= i < alen l -> root l i = if lget l i <? i then root l (lget l i) else i.
Proof.
  intros Hi. pose proof (forest_parent l F i Hi). unfold root.
  rewrite (root_within_enough _ (S (Z.to_nat i)) i) by lia. cbn.
  destruct (Z.ltb_spec (lget l i) i); [|done]. apply root_within_enough; lia.
Qed.

(** Induction on the parent relation. *)
Lemma forest_ind (P : Z -> Prop) :
  (forall i, 0 <= i < alen l -> (lget l i < i -> P (lget l i)) -> P i) -> forall i, 0 <= i < alen l -> P i.
Proof.
  intros Hs i Hi. assert (H0 : 0 <= i) by lia. revert Hi. pattern i. apply Z_lt_induction; [clear i H0|exact H0].
  intros x IH Hx. apply Hs; [done|]. intros Hlt. pose proof (forest_parent l F x Hx). apply IH; lia.
Qed.

Lemma root_spec i : 0 <= i < alen l -> 0 <= root l i <= i /\ lget l (root l i) = root l i.
Proof.
  revert i. apply forest_ind. intros i Hi IH. pose proof (forest_parent l F i Hi). rewrite root_eq by done.
  destruct (Z.ltb_spec (lget l i) i) as [Hlt|Hge]; [|lia]. destruct (IH Hlt). lia.
Qed.

Lemma root_of_root r : 0 <= r < alen l -> lget l r = r -> root l r = r.
Proof. intros Hr E. rewrite root_eq by done. rewrite E. by rewrite Z.ltb_irrefl. Qed.

Lemma root_idem i : 0 <= i < alen l -> root l (root l i) = root l i.
Proof. intros Hi. destruct (root_spec i Hi). apply root_of_root; [lia|done]. Qed.

Lemma findRoot_spec i : 0 <= i < alen l -> findRoot l i = Some (root l i).
Proof.
  intros Hi. unfold findRoot.
  destruct (loop_inv (fun r => 0 <= r < alen l /\ root l r = root l i) (fun r => r = root l i) Z.to_nat (find_step l))
    with (fuel := S (Z.to_nat i)) (s := i) as (r & -> & ->); [|done|lia|done].
  intros r [Hr E]. unfold find_step. rewrite aget_lget by done. mred. pose proof (forest_parent l F r Hr).
  rewrite root_eq in E by done. destruct (Z.ltb_spec (lget l r) r); eexists; (split; [done|]); [|done].
  split; [split; [lia|done]|lia].
Qed.
End roots.

(** Hanging the node [i] below the root [r]: the nodes whose path went through
    [i], which had the root of [i], get the root [r]; the others keep theirs. *)
Lemma forest_hang l i r l' :
  forest l -> 0 <= i < alen l -> 0 <= r <= i -> aset l i r = Some l' -> forest l'.
Proof.
  intros [Hz Hp] Hi Hr E. pose proof (aset_len _ _ _ _ E) as Hl. split; [lia|].
  intros k Hk. rewrite (lget_aset _ _ _ _ k E). destruct (Z.eqb_spec i k); [lia|apply Hp; lia].
Qed.

Lemma root_hang l i r l' :
  forest l -> 0 <= i < alen l -> 0 <= r <= i -> (r < i -> lget l r = r) -> aset l i r = Some l' ->
  (forall k, 0 <= k < alen l -> root l' k = root l k \/ root l' k = r /\ root l k = root l i) /\
  root l' i = r /\ (forall k, 0 <= k < i -> root l' k = root l k).
Proof.
  intros F Hi Hr Hroot E. pose proof (forest_hang l i r l' F Hi Hr E) as F'.
  pose proof (aset_len _ _ _ _ E) as Hl. pose proof (fun k => lget_aset _ _ _ _ k E) as Hg.
  assert (Er : root l' r = r).
  { apply root_of_root; [done|lia|]. rewrite Hg. destruct (Z.eqb_spec i r); [done|apply Hroot; lia]. }
  assert (Ei : root l' i = r).
  { rewrite root_eq by (done || lia). rewrite Hg, Z.eqb_refl. destruct (Z.ltb_spec r i); [done|lia]. }
  split; [|split; [done|]].
  - refine (forest_ind l F _ _). intros k Hk IH. pose proof (forest_parent l F k Hk). destruct (Z.eqb_spec i k) as [<-|Hne]; [by right|].
    rewrite (root_eq l' F' k), (root_eq l F k) by lia. rewrite Hg, (proj2 (Z.eqb_neq i k)) by done.
    destruct (Z.ltb_spec (lget l k) k) as [Hlt|]; [by apply IH|by left].
  - intros k Hk. revert Hk. assert (Hk : k < i -> 0 <= k -> root l' k = root l k); [|lia].
    intros Hki H0. assert (Hkl : 0 <= k < alen l) by lia. revert k Hkl Hki H0. refine (forest_ind l F _ _).
    intros k Hk IH Hki _. pose proof (forest_parent l F k Hk).
    rewrite (root_eq l' F' k), (root_eq l F k) by lia. rewrite Hg, (proj2 (Z.eqb_neq i k)) by lia.
    destruct (Z.ltb_spec (lget l k) k); [apply IH; lia|done].
Qed.

(** What [setRoot] and [unionTrees] do to the roots. *)
Definition reroots (l l' : list Z) (moved : Z -> bool) (r : Z) : Prop :=
  forest l' /\ alen l' = alen l /\
  forall k, 0 <= k < alen l -> root l' k = if moved (root l k) then r else root l k.

Section set_root.
Context (l0 : list Z) (i0 r : Z).

(** Between two steps: the node [i] still carries the tree to move. *)
Record setting (l : list Z) (i : Z) : Prop := {
  set_forest : forest l;
  set_len : alen l = alen l0;
  set_in : 0 <= i < alen l;
  set_root : lget l r = r;
  set_le : 0 <= r <= root l i;
  set_moves : forall k, 0 <= k < alen l ->
    (if root l k =? root l i then r else root l k) = (if root l0 k =? root l0 i0 then r else root l0 k);
}.

Lemma set_step_spec l i :
  setting l i -> exists c, set_step r (l, i) = Some c /\
    match c with
    | Next (l', j) => setting l' j /\ (Z.to_nat j < Z.to_nat i)%nat
    | Break (l', _) => reroots l0 l' (fun k => k =? root l0 i0) r
    end.
Proof.
  intros [F Hl Hi Hr Hle Hm]. unfold set_step. rewrite aget_lget by done. mred.
  rewrite (aset_Some l i r Hi). mred. set (l' := <[_ := _]> l).
  assert (E : aset l i r = Some l') by by apply aset_Some.
  pose proof (forest_parent l F i Hi) as Hp. pose proof (root_spec l F i Hi) as [Hri _].
  pose proof (forest_hang l i r l' F Hi ltac:(lia) E) as F'. pose proof (aset_len _ _ _ _ E) as Hl'.
  destruct (root_hang l i r l' F Hi ltac:(lia) ltac:(auto) E) as (Hk & Hri' & Hlow).
  pose proof (root_eq l F i Hi) as Hreq.
  destruct (Z.ltb_spec (lget l i) i) as [Hlt|Hge]; (eexists; split; [done|]).
  - rewrite <- (Hlow (lget l i)) in Hreq by lia. split; [|lia]. split; [done|lia|lia| |lia|].
    + rewrite (lget_aset _ _ _ _ r E). by destruct (i =? r).
    + intros k Hkl. rewrite Hl' in Hkl. rewrite <- (Hm k Hkl), <- Hreq. destruct (Hk k Hkl) as [->|[-> ->]]; [done|].
      rewrite Z.eqb_refl. by destruct (r =? _).
  - split; [done|]. split; [lia|]. intros k Hkl. rewrite <- Hl in Hkl. rewrite <- (Hm k Hkl), Hreq.
    destruct (Hk k Hkl) as [Ek|[-> ->]]; [|by rewrite Hreq, Z.eqb_refl].
    rewrite Ek. destruct (Z.eqb_spec (root l k) i) as [Eki|]; [|done].
    pose proof (root_idem l' F' k ltac:(lia)) as Hid. rewrite Ek, Eki, Hri' in Hid. by rewrite Eki.
Qed.
End set_root.

(** [setRoot] gives the root [r] to the whole tree of [i]. *)
Lemma setRoot_spec l i r :
  forest l -> 0 <= i < alen l -> 0 <= r <= root l i -> lget l r = r ->
  exists l', setRoot l i r = Some l' /\ reroots l l' (fun k => k =? root l i) r.
Proof.
  intros F Hi Hr Hroot. unfold setRoot.
  destruct (loop_inv (fun s => setting l i r (fst s) (snd s)) (fun s => reroots l (fst s) (fun k => k =? root l i) r)
    (fun s => Z.to_nat (snd s)) (set_step r)) with (fuel := S (Z.to_nat i)) (s := (l, i)) as ([l' j] & -> & H).
  - intros [l1 i1] HI. destruct (set_step_spec l i r l1 i1 HI) as (c & E & Hc). exists c. split; [done|].
    destruct c as [[l2 j]|[l2 j]]; exact Hc.
  - by split.
  - cbn. lia.
  - mred. by eexists.
Qed.

(** [unionTrees] joins two trees under the smaller of their roots. *)
Lemma unionTrees_spec t i j :
  forest (labels_ t) -> 0 <= i < alen (labels_ t) -> 0 <= j < alen (labels_ t) ->
  let ri := root (labels_ t) i in let rj := root (labels_ t) j in
  exists l', unionTrees t i j = Some (Z.min ri rj, mkTrees l' (labels_size_ t) (next_free_ t)) /\
    reroots (labels_ t) l' (fun k => (k =? ri) || (k =? rj)) (Z.min ri rj).
Proof.
  intros F Hi Hj ri rj. unfold unionTrees. set (l := labels_ t) in *.
  rewrite (findRoot_spec l F i Hi). mred. fold ri.
  pose proof (root_spec l F i Hi) as [Hri Hri']. pose proof (root_spec l F j Hj) as [Hrj Hrj']. fold ri in Hri, Hri'. fold rj in Hrj, Hrj'.
  destruct (Z.eqb_spec i j) as [Eij|Hne].
  - mred. cbn [fst snd]. destruct (setRoot_spec l i ri) as (l' & -> & F' & Hl' & Hk); [done|done|fold ri; lia|done|]. mred.
    assert (Er : rj = ri) by (unfold ri, rj; by rewrite Eij). rewrite Er, Z.min_id. exists l'. split; [done|]. split; [done|]. split; [done|].
    intros k Hkl. rewrite (Hk k Hkl). fold ri. by destruct (root l k =? ri).
  - rewrite (findRoot_spec l F j Hj). mred. fold rj. set (m := Z.min ri rj).
    assert (Hm : lget l m = m) by (unfold m; destruct (Z.min_spec ri rj) as [[_ ->]|[_ ->]]; done).
    destruct (setRoot_spec l j m) as (l1 & -> & F1 & Hl1 & Hk1); [done|done|fold rj; lia|done|]. mred. cbn [fst snd]. fold rj in Hk1.
    assert (Em : root l1 m = m). { rewrite Hk1 by lia. rewrite root_of_root by (done || lia). by destruct (m =? rj). }
    assert (Ei : root l1 i = if ri =? rj then m else ri) by by rewrite Hk1.
    destruct (setRoot_spec l1 i m) as (l' & -> & F' & Hl' & Hk); [done|lia|rewrite Ei; destruct (ri =? rj); lia| |].
    { pose proof (root_spec l1 F1 m ltac:(lia)) as [_ Hx]. by rewrite Em in Hx. }
    mred. exists l'. split; [done|]. split; [done|]. split; [lia|].
    intros k Hkl. rewrite Hk by lia. rewrite Ei, Hk1 by lia.
    destruct (Z.eqb_spec (root l k) rj) as [Ek|Hk2]; [|rewrite orb_false_r].
    + rewrite orb_true_r. by destruct (m =? _).
    + destruct (Z.eqb_spec ri rj) as [Eij|]; destruct (Z.eqb_spec (root l k) ri); try done; [congruence|].
      destruct (Z.eqb_spec (root l k) m) as [Ekm|]; [|done]. unfold m in Ekm. lia.
Qed.

(** A new label is a tree of its own and changes no other. *)
Lemma lget_app_l l x k : 0 <= k < alen l -> lget (l ++ [x]) k = lget l k.
Proof. intros Hk. unfold lget. by rewrite aget_app_l by (unfold alen in Hk; lia). Qed.

Lemma lget_app_last l x : lget (l ++ [x]) (alen l) = x.
Proof.
  unfold lget, aget. rewrite (proj2 (in_array_spec _ _)) by (unfold alen; rewrite length_app; cbn; lia).
  unfold alen. rewrite Nat2Z.id, lookup_app_r, Nat.sub_diag by lia. done.
Qed.

Lemma forest_snoc l : forest l -> forest (l ++ [alen l]).
Proof.
  intros [Hz Hp]. unfold alen in *. split; unfold alen; rewrite length_app; cbn; [lia|].
  intros k Hk. destruct (decide (k = Z.of_nat (length l))) as [->|Hne].
  - rewrite (lget_app_last l). unfold alen. lia.
  - rewrite lget_app_l by (unfold alen; lia). apply Hp. lia.
Qed.

Lemma root_snoc l k :
  forest l -> 0 <= k <= alen l -> root (l ++ [alen l]) k = if k =? alen l then alen l else root l k.
Proof.
  intros F Hk. pose proof (forest_snoc l F) as F'.
  assert (Hl : alen (l ++ [alen l]) = alen l + 1) by (unfold alen; rewrite length_app; cbn; lia).
  destruct (Z.eqb_spec k (alen l)) as [->|Hne].
  - apply root_of_root; [done|lia|apply lget_app_last].
  - assert (Hkl : 0 <= k < alen l) by lia. clear Hk Hne. revert k Hkl. refine (forest_ind l F _ _). intros k Hk IH.
    rewrite root_eq, lget_app_l, (root_eq l) by (done || lia). destruct (Z.ltb_spec (lget l k) k); [by apply IH|done].
Qed.

(** ** Final labels *)

(** The number of roots among the labels [1 .. n]. *)
Fixpoint count_roots (l : list Z) (n : nat) : Z :=
  match n with
  | O => 0
  | S n => count_roots l n + (if lget l (Z.of_nat (S n)) =? Z.of_nat (S n) then 1 else 0)
  end.

(** The final label of the trees: their roots numbered from one. *)
Definition number (l : list Z) (i : Z) : Z := count_roots l (Z.to_nat (root l i)).

Lemma count_roots_step l i :
  0 < i -> count_roots l (Z.to_nat i) = count_roots l (Z.to_nat (i - 1)) + (if lget l i =? i then 1 else 0).
Proof. intros Hi. replace (Z.to_nat i) with (S (Z.to_nat (i - 1))) by lia. cbn [count_roots]. by replace (Z.of_nat (S (Z.to_nat (i - 1)))) with i by lia. Qed.

Lemma count_roots_mono l n m : (n <= m)%nat -> count_roots l n <= count_roots l m <= count_roots l n + Z.of_nat (m - n).
Proof. induction 1 as [|m Hm IH]; [lia|]. cbn [count_roots]. destruct (_ =? _); lia. Qed.

Lemma count_roots_lt l r s : 0 <= r < s -> lget l s = s -> count_roots l (Z.to_nat r) < count_roots l (Z.to_nat s).
Proof.
  intros Hr Es. rewrite (count_roots_step l s) by lia. rewrite Es, Z.eqb_refl.
  pose proof (count_roots_mono l (Z.to_nat r) (Z.to_nat (s - 1)) ltac:(lia)). lia.
Qed.

Lemma count_roots_onto l n c :
  1 <= c <= count_roots l n -> exists r, 1 <= r <= Z.of_nat n /\ lget l r = r /\ count_roots l (Z.to_nat r) = c.
Proof.
  induction n as [|n IH]; cbn [count_roots]; [lia|]. intros Hc.
  destruct (decide (c <= count_roots l n)) as [Hle|Hgt]; [destruct IH as (r & ? & ? & ?); [lia|exists r; split; [lia|done]]|].
  destruct (Z.eqb_spec (lget l (Z.of_nat (S n))) (Z.of_nat (S n))) as [E|]; [|lia].
  exists (Z.of_nat (S n)). split; [lia|]. split; [done|]. rewrite Nat2Z.id. cbn [count_roots]. rewrite E, Z.eqb_refl. lia.
Qed.

Lemma number_inj l i j :
  forest l -> 0 <= i < alen l -> 0 <= j < alen l -> number l i = number l j <-> root l i = root l j.
Proof.
  intros F Hi Hj. split; [|intros E; unfold number; by rewrite E]. unfold number.
  destruct (root_spec l F i Hi) as [Hri Ei], (root_spec l F j Hj) as [Hrj Ej]. intros E.
  destruct (Z.lt_trichotomy (root l i) (root l j)) as [Hlt|[Heq|Hlt]]; [|done|].
  - pose proof (count_roots_lt l _ _ (conj (proj1 Hri) Hlt) Ej). lia.
  - pose proof (count_roots_lt l _ _ (conj (proj1 Hrj) Hlt) Ei). lia.
Qed.

Lemma number_range l i :
  forest l -> 0 <= i < alen l -> 0 <= number l i <= count_roots l (Z.to_nat (alen l - 1)) /\ (0 < root l i -> 0 < number l i).
Proof.
  intros F Hi. unfold number. destruct (root_spec l F i Hi) as [Hri Ei].
  pose proof (count_roots_mono l 0 (Z.to_nat (root l i)) ltac:(lia)).
  pose proof (count_roots_mono l (Z.to_nat (root l i)) (Z.to_nat (alen l - 1)) ltac:(lia)).
  change (count_roots l 0) with 0 in *. split; [lia|]. intros Hp.
  pose proof (count_roots_lt l 0 (root l i) ltac:(lia) Ei) as Hlt. change (count_roots l (Z.to_nat 0)) with 0 in Hlt. lia.
Qed.

(** The table that [getLabels] leaves, all of it, and its size. *)
Lemma getLabels_spec label_max t :
  forest (labels_ t) -> lget (labels_ t) 0 = 0 -> next_free_ t = alen (labels_ t) -> next_free_ t <= label_max ->
  exists L, getLabels label_max t = Some (L, 1 + count_roots (labels_ t) (Z.to_nat (alen (labels_ t) - 1))) /\
    alen L = alen (labels_ t) /\ (forall i, 0 <= i < alen L -> aget L i = Some (number (labels_ t) i)).
Proof.
  intros F E0 En Hmax. unfold getLabels. set (l := labels_ t) in *. pose proof (forest_zero l F). rewrite En.
  destruct (for_range_inv (fun i (s : list Z * Z) => alen (fst s) = alen l /\ snd s = 1 + count_roots l (Z.to_nat (i - 1)) /\
      (forall j, 0 <= j < i -> lget (fst s) j = number l j) /\ (forall j, i <= j < alen l -> lget (fst s) j = lget l j))
    (relabel_step label_max) 1 (alen l) (l, 1)) as ([L k] & -> & HL & Hk & Hlow & _); [lia| | |].
  - cbn. split; [done|]. split; [done|]. split; [|done]. intros j Hj. replace j with 0 by lia. rewrite E0. unfold number.
    by rewrite root_of_root by (done || lia).
  - intros i [L k] Hi (HL & Hk & Hlow & Hup). cbn in HL, Hk, Hlow, Hup. unfold relabel_step.
    rewrite aget_lget by lia. mred. rewrite Hup by lia. pose proof (forest_parent l F i ltac:(lia)) as Hp.
    pose proof (root_eq l F i ltac:(lia)) as Hr.
    assert (Hrest : forall v L', aset L i v = Some L' -> v = number l i ->
      alen L' = alen l /\ (forall j, 0 <= j < i + 1 -> lget L' j = number l j) /\ (forall j, i + 1 <= j < alen l -> lget L' j = lget l j)).
    { intros v L' E Ev. pose proof (aset_len _ _ _ _ E). split; [lia|].
      split; intros j Hj; rewrite (lget_aset _ _ _ _ j E); destruct (Z.eqb_spec i j) as [<-|]; try done; [apply Hlow; lia|lia|apply Hup; lia]. }
    rewrite (count_roots_step l (i + 1 - 1)) by lia. replace (i + 1 - 1) with i by lia.
    destruct (Z.ltb_spec (lget l i) i) as [Hlt|Hge].
    + rewrite aget_lget by lia. mred. rewrite Hlow by lia. rewrite aset_Some by lia. mred.
      eexists. split; [done|]. cbn [fst snd]. destruct (Hrest (number l (lget l i)) _ (aset_Some L i _ ltac:(lia))) as (? & ? & ?).
      { unfold number. by rewrite Hr. }
      split; [done|]. split; [|done]. rewrite (proj2 (Z.eqb_neq (lget l i) i)) by lia. lia.
    + assert (Ei : lget l i = i) by lia. rewrite aset_Some by lia. mred.
      eexists. split; [done|]. cbn [fst snd]. destruct (Hrest k _ (aset_Some L i _ ltac:(lia))) as (? & ? & ?).
      { unfold number. rewrite Hr, (count_roots_step l i), Ei, Z.eqb_refl by lia. lia. }
      split; [done|]. split; [|done]. rewrite Ei, Z.eqb_refl. unfold label.
      pose proof (count_roots_mono l 0 (Z.to_nat (i - 1)) ltac:(lia)) as Hm. change (count_roots l 0) with 0 in Hm.
      rewrite Z.mod_small by lia. lia.
  - cbn in *. subst k. exists L. split; [done|]. split; [done|]. intros i Hi. rewrite aget_lget by done. by rewrite Hlow by lia.
Qed.
