(* ===== verification/Components.v ===== *)
(** Images and their connected components: class [Image]
    (denoise/image.hpp), the sliding windows, the decision trees and the two
    passes of [connectedComponents] (denoise/image_processing.hpp). *)

From S2P Require Import Prelude LabelTrees.
#[local] Open Scope denoise_scope.

(** ** Images

    An image is a view of a memory, given apart; a pointer is an index in it. *)

Record Image := mkImage { rows_ : Z; columns_ : Z; data_start_ : Z; step_ : Z }.

Definition row (im : Image) (r : Z) : Z := data_start_ im + r * step_ im.

Definition image_empty (im : Image) : bool := (rows_ im =? 0) || (columns_ im =? 0).

(** [fn] receives the pointer to each pixel. *)
Definition forEach {S} (im : Image) (fn : Z -> S -> option S) (s : S) : option S :=
  for_range 0 (rows_ im) (fun r => for_range (row im r) (row im r + columns_ im) fn) s.

(** [converter] receives the two pointers, in the source and in the target. *)
Definition convert {S} (im target : Image) (converter : Z -> Z -> S -> option S) (s : S) : option (attempt S) :=
  if negb (rows_ im =? rows_ target) || negb (columns_ im =? columns_ target) then Some LogicError
  else
    s ← for_range 0 (rows_ im) (fun r =>
          for_range 0 (columns_ im) (fun c => converter (row im r + c) (row target r + c))) s;
    Some (Done s).

(** ** Sliding windows *)

(** [ReplaceToZero]; the row above is [None] when its pointer is NULL. *)
Record Border := mkBorder { up_row_start_ : option Z; down_row_start_ : Z; border_columns_ : Z }.

(** The border is [None] for [DoNothing]. *)
Record Window := mkWindow { up_row_ : Z; down_row_ : Z; border_ : option Border }.

Definition replaceOutOfBounds (mem : list Z) (v begin columns : Z) : option Z :=
  if (v <? begin) || (begin + columns <=? v) then Some 0 else aget mem v.

Definition border_up (mem : list Z) (w : Window) (v : Z) : option Z :=
  match border_ w with
  | None => aget mem v
  | Some b =>
      match up_row_start_ b with
      | None => Some 0
      | Some start => replaceOutOfBounds mem v start (border_columns_ b)
      end
  end.

Definition border_down (mem : list Z) (w : Window) (v : Z) : option Z :=
  match border_ w with
  | None => aget mem v
  | Some b => replaceOutOfBounds mem v (down_row_start_ b) (border_columns_ b)
  end.

Definition win_a (mem : list Z) (w : Window) : option Z := border_up mem w (up_row_ w - 1).
Definition win_b (mem : list Z) (w : Window) : option Z := border_up mem w (up_row_ w).
Definition win_c (mem : list Z) (w : Window) : option Z := border_up mem w (up_row_ w + 1).
Definition win_d (mem : list Z) (w : Window) : option Z := border_down mem w (down_row_ w - 1).
Definition win_e (mem : list Z) (w : Window) : option Z := aget mem (down_row_ w).

(** [k] times [next]. *)
Definition shift (w : Window) (k : Z) : Window := mkWindow (up_row_ w + k) (down_row_ w + k) (border_ w).

Definition makeSafeWindow (up_row : option Z) (down_row columns offset : Z) : Window :=
  mkWindow (default 0 up_row + offset) (down_row + offset) (Some (mkBorder up_row down_row columns)).

Definition makeUnsafeWindow (up_row down_row : Z) : Window := mkWindow up_row down_row None.

(** ** The first pass *)

Section scan.
Context (label_max : Z) (is_bg : Z -> bool).

(** A decision: the label of the current pixel and the trees. *)
Definition decision : Type := option (attempt (Z * EquivalenceLabelTrees)).

Definition take_label (v : option Z) (t : EquivalenceLabelTrees) : decision := l ← v; Some (Done (l, t)).

Definition join_labels (v w : option Z) (t : EquivalenceLabelTrees) : decision :=
  i ← v; j ← w; r ← unionTrees t i j; Some (Done r).

(** Branches on whether a pixel is an obstacle. *)
Definition if_obstacle (v : option Z) (yes no : decision) : decision :=
  p ← v; if negb (is_bg p) then yes else no.

(** [ProcessPixel<Way8>::pass], up to the store of the label. *)
Definition decide8 (im : list Z) (image : Window) (lm : list Z) (lbl : Window) (t : EquivalenceLabelTrees) : decision :=
  if_obstacle (win_e im image)
    (b ← win_b lm lbl;
     if negb (b =? 0) then Some (Done (b, t))
     else
       if_obstacle (win_c im image)
         (if_obstacle (win_a im image)
            (join_labels (win_c lm lbl) (win_a lm lbl) t)
            (if_obstacle (win_d im image)
               (join_labels (win_c lm lbl) (win_d lm lbl) t)
               (take_label (win_c lm lbl) t)))
         (if_obstacle (win_a im image)
            (take_label (win_a lm lbl) t)
            (if_obstacle (win_d im image)
               (take_label (win_d lm lbl) t)
               (Some (makeLabel label_max t)))))
    (Some (Done (0, t))).

(** [ProcessPixel<Way4>::pass]. *)
Definition decide4 (im : list Z) (image : Window) (lm : list Z) (lbl : Window) (t : EquivalenceLabelTrees) : decision :=
  if_obstacle (win_e im image)
    (if_obstacle (win_b im image)
       (if_obstacle (win_d im image)
          (join_labels (win_d lm lbl) (win_b lm lbl) t)
          (take_label (win_b lm lbl) t))
       (if_obstacle (win_d im image)
          (take_label (win_d lm lbl) t)
          (Some (makeLabel label_max t))))
    (Some (Done (0, t))).

(** The labels written so far, and the trees. *)
Definition scan_state : Type := list Z * EquivalenceLabelTrees.

Definition pass (connectivity : ConnectivityType) (im : list Z) (image lbl : Window) (s : scan_state) :
    option (attempt scan_state) :=
  r ⇐ match connectivity with
      | Way4 => decide4 im image (fst s) lbl (snd s)
      | Way8 => decide8 im image (fst s) lbl (snd s)
      end;
  lm ← aset (fst s) (down_row_ lbl) (fst r);
  Some (Done (lm, snd r)).

(** [for (i = lo; i < hi; ++i)] with a body that may throw. *)
Fixpoint try_up {S} (n : nat) (i : Z) (body : Z -> S -> option (attempt S)) (s : S) : option (attempt S) :=
  match n with
  | O => Some (Done s)
  | S n => s ⇐ body i s; try_up n (i + 1) body s
  end.

Definition try_range {S} (lo hi : Z) (body : Z -> S -> option (attempt S)) (s : S) : option (attempt S) :=
  try_up (Z.to_nat (hi - lo)) lo body s.

Definition scan_first_row (connectivity : ConnectivityType) (im : list Z) (image labels : Image) (s : scan_state) :
    option (attempt scan_state) :=
  let img := makeSafeWindow None (row image 0) (columns_ image) 0 in
  let lbl := makeSafeWindow None (row labels 0) (columns_ image) 0 in
  try_range 0 (columns_ image) (fun c => pass connectivity im (shift img c) (shift lbl c)) s.

(** The row below [r]. *)
Definition scan_row (connectivity : ConnectivityType) (im : list Z) (image labels : Image) (r : Z) (s : scan_state) :
    option (attempt scan_state) :=
  let label_mask := makeUnsafeWindow (row labels r) (row labels (r + 1)) in
  let up := row image r in
  let current := row image (r + 1) in
  let columns := columns_ image in
  s ⇐ pass connectivity im (makeSafeWindow (Some up) current columns 0) label_mask s;
  s ⇐ try_range 1 (columns - 1) (fun c =>
        pass connectivity im (shift (makeUnsafeWindow up current) c) (shift label_mask c)) s;
  if 1 <? columns then
    pass connectivity im (makeSafeWindow (Some up) current columns (columns - 1))
      (makeSafeWindow (Some (row labels r)) (row labels (r + 1)) columns (columns - 1)) s
  else Some (Done s).

(** The scanning phase. *)
Definition scan (connectivity : ConnectivityType) (im : list Z) (image labels : Image) (s : scan_state) :
    option (attempt scan_state) :=
  s ⇐ scan_first_row connectivity im image labels s;
  try_range 0 (rows_ image - 1) (scan_row connectivity im image labels) s.

(** ** The second pass *)

(** What the implementation gives for an element at or past the size of a
    vector that held the list: the language leaves it undefined. *)
Context (past_end : list Z -> Z -> option Z).

Definition vector_at (held : list Z) (size i : Z) : option Z :=
  if (0 <=? i) && (i <? size) then aget held i else past_end held i.

Definition connectedComponentsImpl (connectivity : ConnectivityType) (im : list Z) (image labels : Image) (s : scan_state) :
    option (attempt (list Z * Z)) :=
  s ⇐ scan connectivity im image labels s;
  labels_map ← getLabels label_max (snd s);
  lm ← forEach labels (fun p lm =>
         l ← aget lm p;
         v ← vector_at (fst labels_map) (snd labels_map) l;
         aset lm p v) (fst s);
  Some (Done (lm, label label_max (snd labels_map))).

(** The labels in a memory of their own, whose bytes were anything. *)
Definition connectedComponents (junk : Z -> Z) (connectivity : ConnectivityType) (im : list Z) (image : Image) :
    option (attempt (list Z * Image * Z)) :=
  let pixels := u64 (rows_ image * columns_ image) in
  if pixels =? 0 then Some (Done ([], mkImage 0 0 0 0, 0))
  else
    let labels := mkImage (rows_ image) (columns_ image) 0 (columns_ image) in
    r ⇐ connectedComponentsImpl connectivity im image labels
          (junk <$> seqZ 0 pixels, trees_reset label_max (rows_ image) (columns_ image) connectivity);
    Some (Done (fst r, labels, snd r)).
End scan.

(** Reading a shrunk vector past its size is undefined in the language. *)
Definition undefined_past (held : list Z) (i : Z) : option Z := None.

Lemma refines_try_bind {A B} (x y : option (attempt A)) (f g : A -> option (attempt B)) : refines x y -> (forall a, refines (f a) (g a)) -> refines (try_bind x f) (try_bind y g).
Proof. intros Hxy Hfg r. destruct x as [a|]; [|done]. rewrite (Hxy a eq_refl). destruct a as [a| |]; [apply Hfg|done..]. Qed.

(** More elements defined past the end: the labelling is defined more often,
    and where it was, it is the same. *)
Lemma connectedComponents_refines label_max is_bg pe pe' junk connectivity im image : (forall held i, refines (pe held i) (pe' held i)) ->
  refines (connectedComponents label_max is_bg pe junk connectivity im image) (connectedComponents label_max is_bg pe' junk connectivity im image).
Proof.
  intros Hpe. unfold connectedComponents. destruct (_ =? 0); [apply refines_refl|]. apply refines_try_bind; [|intros a; apply refines_refl]. unfold connectedComponentsImpl.
  apply refines_try_bind; [apply refines_refl|]. intros s. apply refines_bind; [apply refines_refl|]. intros T. apply refines_bind; [|intros lm; apply refines_refl].
  unfold forEach. apply refines_for_range. intros r lm. apply refines_for_range. intros p lm'. apply refines_bind; [apply refines_refl|]. intros l. apply refines_bind; [|intros v; apply refines_refl].
  unfold vector_at. destruct (_ && _); [apply refines_refl|apply Hpe].
Qed.

Lemma try_range_ends {S} (over : Prop) (P : Z -> S -> Prop) lo hi body s :
  lo <= hi -> P lo s -> (forall i s, lo <= i < hi -> P i s -> ends over (P (i + 1)) (body i s)) ->
  ends over (P hi) (try_range lo hi body s).
Proof.
  intros Hle H0 Hb. unfold try_range. replace hi with (lo + Z.of_nat (Z.to_nat (hi - lo))) at 1 by lia.
  assert (Hb' : forall i s, lo <= i < lo + Z.of_nat (Z.to_nat (hi - lo)) -> P i s -> ends over (P (i + 1)) (body i s)) by (intros; apply Hb; [lia|done]).
  clear Hb Hle. revert Hb'. generalize (Z.to_nat (hi - lo)). intros n. clear hi. revert lo s H0. induction n as [|n IH]; intros lo s H0 Hb; cbn [try_up].
  - change (P (lo + 0) s). by rewrite Z.add_0_r.
  - eapply ends_bind; [apply Hb; [lia|exact H0]|]. intros s' Hs. replace (lo + Z.of_nat (Datatypes.S n)) with (lo + 1 + Z.of_nat n) by lia.
    apply IH; [done|]. intros i s1 Hi. apply Hb. lia.
Qed.

(** ** Pixels and their connection *)

(** A pixel is its row and its column. *)
Definition adjacent (connectivity : ConnectivityType) (p q : Z * Z) : Prop :=
  match connectivity with
  | Way8 => p <> q /\ Z.abs (p.1 - q.1) <= 1 /\ Z.abs (p.2 - q.2) <= 1
  | Way4 => Z.abs (p.1 - q.1) + Z.abs (p.2 - q.2) = 1
  end.

#[export] Instance adjacent_dec connectivity p q : Decision (adjacent connectivity p q).
Proof. destruct connectivity; cbn; solve_decision. Defined.

Lemma adjacent_irrefl connectivity p : ~ adjacent connectivity p p.
Proof. destruct connectivity; cbn; [lia|by intros [? _]]. Qed.

Section picture.
Context (R C : Z) (HR : 1 <= R) (HC : 1 <= C).
Context (pix : Z * Z -> Z) (is_bg : Z -> bool) (Hbg : is_bg 0 = true).
Context (connectivity : ConnectivityType).

Definition inside (p : Z * Z) : Prop := 0 <= p.1 < R /\ 0 <= p.2 < C.

#[export] Instance inside_dec p : Decision (inside p).
Proof. solve_decision. Defined.

(** An obstacle pixel of the image. *)
Definition obstacle (p : Z * Z) : Prop := inside p /\ is_bg (pix p) = false.

#[export] Instance obstacle_dec p : Decision (obstacle p).
Proof. solve_decision. Defined.

Definition linked (p q : Z * Z) : Prop := obstacle p /\ obstacle q /\ adjacent connectivity p q.

(** Connected by a path of obstacles. *)
Definition connected : Z * Z -> Z * Z -> Prop := rtc linked.

Lemma adjacent_sym p q : adjacent connectivity p q -> adjacent connectivity q p.
Proof. destruct connectivity; cbn; [lia|]. intros (? & ? & ?). split; [congruence|lia]. Qed.

Lemma linked_sym p q : linked p q -> linked q p.
Proof. intros (? & ? & ?). split; [done|]. split; [done|]. by apply adjacent_sym. Qed.

#[export] Instance connected_equivalence : Equivalence connected.
Proof.
  split; [intros p; apply rtc_refl| |intros p q r ? ?; by etrans].
  intros p q Hpq. induction Hpq as [|p q r Hl _ IH]; [apply rtc_refl|]. eapply rtc_r; [exact IH|by apply linked_sym].
Qed.

(** Raster order. *)
Definition idx (p : Z * Z) : Z := p.1 * C + p.2.

Lemma idx_range p : inside p -> 0 <= idx p < R * C.
Proof. intros [? ?]. unfold idx. nia. Qed.

Lemma idx_inj p q : inside p -> inside q -> idx p = idx q -> p = q.
Proof.
  destruct p as [r c], q as [r' c']. unfold inside, idx; cbn. intros [? ?] [? ?] E.
  destruct (index_inj C c r c' r'); [lia|lia|lia|]. by subst.
Qed.

Lemma idx_onto i : 0 <= i < R * C -> exists p, inside p /\ idx p = i.
Proof.
  intros Hi. exists (i / C, i mod C). unfold inside, idx. cbn. pose proof (Z.mod_pos_bound i C ltac:(lia)).
  pose proof (Z.div_mod i C ltac:(lia)). assert (0 <= i / C) by (apply Z.div_pos; lia). nia.
Qed.

(** ** Blocks

    Two different pixels of a block are adjacent, so no two of the pixels that
    open a label share one: their number bounds the number of labels. *)

Definition half (n : Z) : Z := (n + 1) / 2.

Definition block (p : Z * Z) : Z :=
  match connectivity with
  | Way8 => p.1 / 2 * half C + p.2 / 2
  | Way4 => (p.1 * C + (if Z.even p.1 then p.2 else C - 1 - p.2)) / 2
  end.

Definition blocks : Z :=
  match connectivity with
  | Way8 => half R * half C
  | Way4 => half (R * C)
  end.

Lemma block_range p : inside p -> 0 <= block p < blocks.
Proof.
  destruct p as [r c]. unfold inside, block, blocks, half. cbn. intros [Hr Hc]. destruct connectivity.
  - destruct (Z.even r); Z.div_mod_to_equations; nia.
  - assert (0 <= r / 2 < (R + 1) / 2) by (Z.div_mod_to_equations; lia).
    assert (0 <= c / 2 < (C + 1) / 2) by (Z.div_mod_to_equations; lia). nia.
Qed.

Lemma block_adjacent p q : inside p -> inside q -> block p = block q -> p <> q -> adjacent connectivity p q.
Proof.
  destruct p as [r c], q as [r' c']. unfold inside, block, half; cbn. intros [Hr Hc] [Hr' Hc'] E Hne.
  assert (Hne' : r <> r' \/ c <> c') by (destruct (decide (r = r')), (decide (c = c')); auto; congruence).
  destruct connectivity; cbn.
  - destruct (Z.lt_trichotomy r r') as [Hlt|[<-|Hlt]].
    + assert (r' = r + 1) as -> by (destruct (Z.even r), (Z.even r'); Z.div_mod_to_equations; nia).
      replace (r + 1) with (Z.succ r) in E by lia. rewrite Z.even_succ, <- Z.negb_even in E.
      destruct (Z.even r); cbn in E; Z.div_mod_to_equations; nia.
    + destruct (Z.even r); Z.div_mod_to_equations; nia.
    + assert (r = r' + 1) as -> by (destruct (Z.even r), (Z.even r'); Z.div_mod_to_equations; nia).
      replace (r' + 1) with (Z.succ r') in E by lia. rewrite Z.even_succ, <- Z.negb_even in E.
      destruct (Z.even r'); cbn in E; Z.div_mod_to_equations; nia.
  - assert (0 <= c / 2 < (C + 1) / 2) by (Z.div_mod_to_equations; lia).
    assert (0 <= c' / 2 < (C + 1) / 2) by (Z.div_mod_to_equations; lia).
    destruct (index_inj ((C + 1) / 2) (c / 2) (r / 2) (c' / 2) (r' / 2)); [lia..|].
    split; [congruence|]. Z.div_mod_to_equations; lia.
Qed.

(** ** The state of the first pass *)

Context (size : Z).

Definition lab (L : list Z) (p : Z * Z) : Z := lget L (idx p).

(** An obstacle already scanned. *)
Definition seen (n : Z) (p : Z * Z) : Prop := obstacle p /\ idx p < n.

(** After [n] pixels: two obstacles seen have labels of the same tree when they
    are adjacent, and only if they are connected. *)
Record scanned (n : Z) (L : list Z) (t : EquivalenceLabelTrees) : Prop := {
  sc_len : alen L = R * C;
  sc_forest : forest (labels_ t);
  sc_zero : lget (labels_ t) 0 = 0;
  sc_pos : forall i, 0 < i < alen (labels_ t) -> 0 < root (labels_ t) i;
  sc_next : next_free_ t = alen (labels_ t);
  sc_size : labels_size_ t = size;
  sc_room : next_free_ t <= size;
  sc_bg : forall p, inside p -> idx p < n -> ~ obstacle p -> lab L p = 0;
  sc_fg : forall p, seen n p -> 0 < lab L p < next_free_ t;
  sc_adj : forall p q, seen n p -> seen n q -> adjacent connectivity p q ->
    root (labels_ t) (lab L p) = root (labels_ t) (lab L q);
  sc_conn : forall p q, seen n p -> seen n q ->
    root (labels_ t) (lab L p) = root (labels_ t) (lab L q) -> connected p q;
  sc_used : forall i, 0 < i < next_free_ t -> exists p, seen n p /\ root (labels_ t) (lab L p) = root (labels_ t) i;
  sc_openers : exists cs, alen cs = next_free_ t - 1 /\ NoDup (block <$> cs) /\ Forall (seen n) cs;
}.

Lemma seen_mono n m p : seen n p -> n <= m -> seen m p.
Proof. intros [? ?] ?. split; [done|lia]. Qed.

Lemma seen_next n e p : obstacle e -> idx e = n -> seen (n + 1) p -> p = e \/ seen n p /\ p <> e.
Proof.
  intros [He _] En [Hp Hlt]. destruct (decide (p = e)) as [->|Hne]; [by left|right]. split; [|done]. split; [done|].
  pose proof (proj1 Hp) as Hi. assert (idx p <> idx e) by (intros E; by apply idx_inj in E). lia.
Qed.

Lemma seen_here e : obstacle e -> seen (idx e + 1) e.
Proof. intros He. split; [done|lia]. Qed.

Lemma seen_ne n e p : idx e = n -> seen n p -> p <> e.
Proof. intros En [_ Hlt] ->. lia. Qed.

(** The pixels that opened a label, and one that is about to, are in different
    blocks. *)
Lemma openers_cons n cs e :
  obstacle e -> idx e = n -> (forall q, seen n q -> ~ adjacent connectivity q e) -> NoDup (block <$> cs) ->
  Forall (seen n) cs -> NoDup (block <$> e :: cs).
Proof.
  intros Ho He Halone Hnd Hf. cbn. constructor; [|done]. intros (x & Ex & Hx)%list_elem_of_fmap.
  pose proof (proj1 (Forall_forall _ _) Hf x Hx) as Hsx. pose proof (seen_ne n e x He Hsx) as Hne.
  destruct (Halone x Hsx). apply block_adjacent; [by destruct Hsx as [[? _] _]|apply Ho|done|done].
Qed.

Lemma blocks_bound cs : NoDup (block <$> cs) -> Forall inside cs -> alen cs <= blocks.
Proof.
  intros Hnd Hf.
  assert (Hle : (block <$> cs) ⊆+ seqZ 0 blocks).
  { apply NoDup_submseteq; [done|]. intros b (x & -> & Hx)%list_elem_of_fmap. apply elem_of_seqZ.
    pose proof (proj1 (Forall_forall _ _) Hf x Hx) as Hin. pose proof (block_range x Hin). lia. }
  apply submseteq_length in Hle. rewrite length_fmap, length_seqZ in Hle. unfold alen.
  assert (0 <= blocks) by (unfold blocks, half; destruct connectivity; Z.div_mod_to_equations; nia). lia.
Qed.

Section store.
Context (n : Z) (L : list Z) (t : EquivalenceLabelTrees) (S : scanned n L t).
Context (e : Z * Z) (Hin : inside e) (He : idx e = n) (cur : Z) (L' : list Z) (E : aset L n cur = Some L').

Lemma lab_here : lab L' e = cur.
Proof. unfold lab. rewrite (lget_aset _ _ _ _ _ E), He. by rewrite Z.eqb_refl. Qed.

Lemma lab_before p : inside p -> idx p < n -> lab L' p = lab L p.
Proof. intros Hp Hlt. unfold lab. rewrite (lget_aset _ _ _ _ _ E). by rewrite (proj2 (Z.eqb_neq n (idx p))) by lia. Qed.

Lemma lab_seen p : seen n p -> lab L' p = lab L p.
Proof. intros [[Hp _] Hlt]. by apply lab_before. Qed.

(** The current pixel is background. *)
Lemma scanned_background : ~ obstacle e -> cur = 0 -> scanned (n + 1) L' t.
Proof.
  intros Ho Hc. pose proof (aset_len _ _ _ _ E) as Hl.
  assert (Hs : forall p, seen (n + 1) p -> seen n p).
  { intros p [Hp Hlt]. split; [done|]. destruct (decide (idx p = n)) as [Ep|]; [|lia].
    destruct (idx_inj p e (proj1 Hp) Hin ltac:(lia)). done. }
  destruct S as [? ? ? ? ? ? ? Hbg0 Hfg Hadj Hconn Hused (cs & Hcs & Hnd & Hf)]. split; try done; [lia| | | | | |].
  - intros p Hp Hlt Hno. destruct (decide (idx p = n)) as [Ep|].
    + rewrite (idx_inj p e Hp Hin) by lia. rewrite lab_here. done.
    + rewrite lab_before by (done || lia). apply Hbg0; [done|lia|done].
  - intros p Hp. rewrite lab_seen by auto. apply Hfg. auto.
  - intros p q Hp Hq. rewrite !lab_seen by auto. apply Hadj; auto.
  - intros p q Hp Hq. rewrite !lab_seen by auto. apply Hconn; auto.
  - intros i Hi. destruct (Hused i Hi) as (p & Hp & Er). exists p. split; [exact (seen_mono n (n + 1) p Hp ltac:(lia))|by rewrite lab_seen].
  - exists cs. split; [done|]. split; [done|]. eapply Forall_impl; [done|]. intros p Hp. eapply seen_mono; [done|lia].
Qed.

(** The current pixel joins the trees of two obstacles seen next to it, which
    cover all the others. *)
Lemma scanned_join x y l' :
  obstacle e -> seen n x -> seen n y -> adjacent connectivity x e -> adjacent connectivity y e ->
  let rx := root (labels_ t) (lab L x) in let ry := root (labels_ t) (lab L y) in
  reroots (labels_ t) l' (fun k => (k =? rx) || (k =? ry)) (Z.min rx ry) ->
  0 < cur < next_free_ t -> root l' cur = Z.min rx ry ->
  (forall q, seen n q -> adjacent connectivity q e ->
     root (labels_ t) (lab L q) = rx \/ root (labels_ t) (lab L q) = ry) ->
  scanned (n + 1) L' (mkTrees l' (labels_size_ t) (next_free_ t)).
Proof.
  intros Ho Hx Hy Ax Ay rx ry (F' & Hl' & Hroot) Hcur Hrc Hcover. pose proof (aset_len _ _ _ _ E) as Hl.
  destruct S as [Hlen F Hz Hpos Hnext Hsize Hroom Hbg0 Hfg Hadj Hconn Hused (cs & Hcs & Hnd & Hf)].
  pose proof (seen_next n e) as Hs. pose proof (fun p Hp => seen_mono n (n + 1) p Hp ltac:(lia)) as Hm.
  assert (Hrange : forall p, seen n p -> 0 <= lab L p < alen (labels_ t)) by (intros p Hp; specialize (Hfg p Hp); lia).
  assert (Hr : forall p, seen n p -> root l' (lab L' p) =
    if (root (labels_ t) (lab L p) =? rx) || (root (labels_ t) (lab L p) =? ry) then Z.min rx ry else root (labels_ t) (lab L p)).
  { intros p Hp. rewrite lab_seen by done. auto. }
  assert (Hrx : 0 < rx /\ 0 < ry).
  { split; apply Hpos; [specialize (Hfg x Hx)|specialize (Hfg y Hy)]; lia. }
  assert (Hce : connected x e /\ connected y e).
  { split; apply rtc_once; (split; [|split]); try done; [apply Hx|apply Hy]. }
  (* a seen pixel whose tree is moved is connected to the current one *)
  assert (Hmoved : forall p, seen n p -> root l' (lab L' p) = Z.min rx ry -> connected p e).
  { intros p Hp Ep. rewrite Hr in Ep by done.
    assert (Hor : root (labels_ t) (lab L p) = rx \/ root (labels_ t) (lab L p) = ry).
    { destruct (Z.eqb_spec (root (labels_ t) (lab L p)) rx), (Z.eqb_spec (root (labels_ t) (lab L p)) ry); cbn in Ep; lia. }
    destruct Hor as [Hor|Hor]; etrans; [by apply (Hconn p x)|apply Hce|by apply (Hconn p y)|apply Hce]. }
  assert (Hnear : forall q, seen n q -> adjacent connectivity q e -> root l' (lab L' q) = Z.min rx ry).
  { intros q Hq Aq. rewrite Hr by done. destruct (Hcover q Hq Aq) as [->| ->]; rewrite Z.eqb_refl, ?orb_true_r; done. }
  assert (Hhere : lab L' e = cur) by exact lab_here.
  split; cbn [labels_ labels_size_ next_free_]; try done; [lia| | |lia| | | | | |].
  - pose proof (forest_parent l' F' 0). pose proof (forest_zero l' F'). lia.
  - intros i Hi. rewrite Hroot by lia. specialize (Hpos i ltac:(lia)). destruct (_ || _); lia.
  - intros p Hp Hlt Hno. rewrite lab_before; [apply Hbg0; try done|done|].
    all: destruct (decide (idx p = n)) as [Ep|]; [|lia]; destruct Hno; by rewrite (idx_inj p e Hp Hin) by lia.
  - intros p Hp. destruct (Hs p Ho He Hp) as [->|[Hp' _]]; [by rewrite Hhere|]. rewrite lab_seen by done. by apply Hfg.
  - intros p q Hp Hq Apq. destruct (Hs p Ho He Hp) as [->|[Hp' _]], (Hs q Ho He Hq) as [->|[Hq' _]]; [done| | |].
    + rewrite Hhere, Hrc. symmetry. apply Hnear; [done|by apply adjacent_sym].
    + rewrite Hhere, Hrc. by apply Hnear.
    + rewrite !Hr by done. by rewrite (Hadj p q).
  - intros p q Hp Hq Epq. destruct (Hs p Ho He Hp) as [->|[Hp' _]], (Hs q Ho He Hq) as [->|[Hq' _]].
    + done.
    + rewrite Hhere, Hrc in Epq. symmetry. by apply Hmoved.
    + rewrite Hhere, Hrc in Epq. by apply Hmoved.
    + destruct (decide (root l' (lab L' p) = Z.min rx ry)) as [Em|Hne].
      { etrans; [by apply Hmoved|]. symmetry. apply Hmoved; congruence. }
      rewrite (Hr p Hp'), (Hr q Hq') in Epq. rewrite (Hr p Hp') in Hne.
      apply Hconn; [done|done|]. destruct ((root (labels_ t) (lab L p) =? rx) || _); [done|].
      destruct ((root (labels_ t) (lab L q) =? rx) || _); [congruence|done].
  - intros i Hi. destruct (Hused i Hi) as (p & Hp & Er). exists p. split; [by apply Hm|]. rewrite Hr by done. rewrite Hroot by lia. by rewrite Er.
  - exists cs. split; [done|]. split; [done|]. eapply Forall_impl; [done|]. auto.
Qed.

(** The current pixel, with no obstacle seen next to it, opens a label. *)
Lemma scanned_open label_max :
  obstacle e -> (forall q, seen n q -> ~ adjacent connectivity q e) -> cur = next_free_ t ->
  next_free_ t < size -> size <= label_max ->
  scanned (n + 1) L' (mkTrees (labels_ t ++ [next_free_ t]) (labels_size_ t) (label label_max (next_free_ t + 1))).
Proof.
  intros Ho Halone Hcur Hlt Hmax. pose proof (aset_len _ _ _ _ E) as Hl.
  destruct S as [Hlen F Hz Hpos Hnext Hsize Hroom Hbg0 Hfg Hadj Hconn Hused (cs & Hcs & Hnd & Hf)].
  pose proof (seen_next n e) as Hs. pose proof (fun p Hp => seen_mono n (n + 1) p Hp ltac:(lia)) as Hm.
  pose proof (forest_zero _ F) as H0. pose proof (root_snoc (labels_ t)) as Hsn. rewrite <- Hnext in Hsn.
  assert (Hlab : label label_max (next_free_ t + 1) = next_free_ t + 1) by (unfold label; rewrite Z.mod_small; lia). rewrite Hlab.
  assert (Hal : alen (labels_ t ++ [next_free_ t]) = next_free_ t + 1) by (rewrite Hnext; unfold alen; rewrite length_app; cbn; lia).
  assert (Hhere : lab L' e = next_free_ t) by (rewrite <- Hcur; exact lab_here).
  assert (Hr : forall p, seen n p -> root (labels_ t ++ [next_free_ t]) (lab L' p) = root (labels_ t) (lab L p)).
  { intros p Hp. specialize (Hfg p Hp). rewrite lab_seen by done. rewrite Hsn by (done || lia).
    by rewrite (proj2 (Z.eqb_neq _ _)) by lia. }
  assert (Hre : root (labels_ t ++ [next_free_ t]) (next_free_ t) = next_free_ t).
  { rewrite Hsn by (done || lia). by rewrite Z.eqb_refl. }
  assert (Hsmall : forall p, seen n p -> root (labels_ t) (lab L p) < next_free_ t).
  { intros p Hp. specialize (Hfg p Hp). destruct (root_spec _ F (lab L p)); lia. }
  split; cbn [labels_ labels_size_ next_free_]; try done; [lia| | | | | | | | | |].
  - rewrite Hnext. by apply forest_snoc.
  - rewrite lget_app_l by lia. done.
  - intros i Hi. rewrite Hsn by (done || lia). destruct (Z.eqb_spec i (next_free_ t)); [lia|apply Hpos; lia].
  - lia.
  - intros p Hp Hlt' Hno. rewrite lab_before; [apply Hbg0; try done|done|].
    all: destruct (decide (idx p = n)) as [Ep|]; [|lia]; destruct Hno; by rewrite (idx_inj p e Hp Hin) by lia.
  - intros p Hp. destruct (Hs p Ho He Hp) as [->|[Hp' _]]; [lia|]. rewrite lab_seen by done. specialize (Hfg p Hp'). lia.
  - intros p q Hp Hq Apq. destruct (Hs p Ho He Hp) as [->|[Hp' _]], (Hs q Ho He Hq) as [->|[Hq' _]]; [done| | |].
    + destruct (Halone q Hq'). by apply adjacent_sym.
    + by destruct (Halone p Hp').
    + rewrite !Hr by done. by apply Hadj.
  - intros p q Hp Hq Epq. destruct (Hs p Ho He Hp) as [->|[Hp' _]], (Hs q Ho He Hq) as [->|[Hq' _]]; [done| | |].
    + rewrite Hhere, Hre, Hr in Epq by done. specialize (Hsmall q Hq'). lia.
    + rewrite Hhere, Hre, Hr in Epq by done. specialize (Hsmall p Hp'). lia.
    + rewrite (Hr p Hp'), (Hr q Hq') in Epq. by apply Hconn.
  - intros i Hi. destruct (decide (i = next_free_ t)) as [->|Hne].
    + exists e. split; [rewrite <- He; by apply seen_here|by rewrite Hhere].
    + destruct (Hused i) as (p & Hp & Er); [lia|]. exists p. split; [by apply Hm|]. rewrite Hr, Er by done.
      rewrite Hsn by (done || lia). by rewrite (proj2 (Z.eqb_neq _ _)) by lia.
  - exists (e :: cs). split; [unfold alen in *; cbn; lia|]. split.
    + by apply (openers_cons n).
    + constructor; [rewrite <- He; by apply seen_here|]. eapply Forall_impl; [done|]. auto.
Qed.
End store.

(** The label of one more component needs one more block. *)
Lemma opener_bound n L t e :
  scanned n L t -> obstacle e -> idx e = n -> (forall q, seen n q -> ~ adjacent connectivity q e) -> next_free_ t <= blocks.
Proof.
  intros S Ho He Halone. destruct (sc_openers _ _ _ S) as (cs & Hcs & Hnd & Hf).
  pose proof (blocks_bound (e :: cs) (openers_cons n cs e Ho He Halone Hnd Hf)) as Hb.
  assert (Hi : Forall inside (e :: cs)).
  { constructor; [apply Ho|]. eapply Forall_impl; [exact Hf|]. by intros x [[? _] _]. }
  specialize (Hb Hi). unfold alen in *. cbn in Hb. lia.
Qed.

(** ** Windows *)

Definition na (e : Z * Z) : Z * Z := (e.1 - 1, e.2 - 1).
Definition nb (e : Z * Z) : Z * Z := (e.1 - 1, e.2).
Definition nc (e : Z * Z) : Z * Z := (e.1 - 1, e.2 + 1).
Definition nd (e : Z * Z) : Z * Z := (e.1, e.2 - 1).

Definition address (im : Image) (p : Z * Z) : Z := row im p.1 + p.2.

(** The window is on the pixel [e] and reads its neighbours in the image. *)
Record looks (mem : list Z) (im : Image) (w : Window) (e : Z * Z) : Prop := {
  look_a : inside (na e) -> win_a mem w = aget mem (address im (na e));
  look_b : inside (nb e) -> win_b mem w = aget mem (address im (nb e));
  look_c : inside (nc e) -> win_c mem w = aget mem (address im (nc e));
  look_d : inside (nd e) -> win_d mem w = aget mem (address im (nd e));
  look_e : down_row_ w = address im e;
}.

(** It reads 0 outside the image. *)
Record blanks (mem : list Z) (w : Window) (e : Z * Z) : Prop := {
  blank_a : ~ inside (na e) -> win_a mem w = Some 0;
  blank_b : ~ inside (nb e) -> win_b mem w = Some 0;
  blank_c : ~ inside (nc e) -> win_c mem w = Some 0;
  blank_d : ~ inside (nd e) -> win_d mem w = Some 0;
}.

Definition row_above (im : Image) (r : Z) : option Z := if r =? 0 then None else Some (row im (r - 1)).

Lemma replace_inside mem v begin columns :
  begin <= v < begin + columns -> replaceOutOfBounds mem v begin columns = aget mem v.
Proof. intros H. unfold replaceOutOfBounds. by rewrite (proj2 (Z.ltb_ge v begin)), (proj2 (Z.leb_gt (begin + columns) v)) by lia. Qed.

Lemma replace_outside mem v begin columns :
  ~ begin <= v < begin + columns -> replaceOutOfBounds mem v begin columns = Some 0.
Proof.
  intros H. unfold replaceOutOfBounds. destruct (Z.ltb_spec v begin); [done|]. by rewrite (proj2 (Z.leb_le (begin + columns) v)) by lia.
Qed.

Lemma safe_window mem im r c off k :
  inside (r, c) -> off + k = c ->
  let w := shift (makeSafeWindow (row_above im r) (row im r) C off) k in
  looks mem im w (r, c) /\ blanks mem w (r, c).
Proof.
  intros [Hr Hc] Hoff. cbn in Hr, Hc. unfold row_above.
  split; split; unfold inside, na, nb, nc, nd, win_a, win_b, win_c, win_d, border_up, border_down, address;
    cbn; destruct (Z.eqb_spec r 0); cbn; try lia; try done; intros Hi.
  all: first [rewrite replace_inside by lia; f_equal; lia | by rewrite replace_outside by lia].
Qed.

Lemma unsafe_window mem im r c k :
  inside (r, c) -> 0 < r -> k = c ->
  let w := shift (makeUnsafeWindow (row im (r - 1)) (row im r)) k in
  looks mem im w (r, c) /\ (0 < c < C - 1 -> blanks mem w (r, c)) /\ (~ inside (nb (r, c)) -> win_b mem w = Some 0).
Proof.
  intros [Hr Hc] Hr0 ->. cbn in Hr, Hc.
  assert (Hb : inside (nb (r, c))) by (unfold inside; cbn; lia).
  split; [|split; [|done]].
  - split; unfold win_a, win_b, win_c, win_d, border_up, border_down, address; cbn; try (intros _; f_equal; lia). lia.
  - intros Hm. split; intros []; unfold inside, na, nb, nc, nd; cbn; lia.
Qed.

(** ** One pixel *)

Section pixel.
Context (label_max : Z) (Hmax : size <= label_max).
Context (im : list Z) (image labels : Image).
Context (Himg : forall p, inside p -> aget im (address image p) = Some (pix p)).
Context (Hlbl : forall p, address labels p = idx p).

Lemma if_obstacle_at v q yes no :
  (inside q -> v = aget im (address image q)) -> (~ inside q -> v = Some 0) ->
  if_obstacle is_bg v yes no = if decide (obstacle q) then yes else no.
Proof.
  intros Hi Ho. unfold if_obstacle. destruct (decide (inside q)) as [Hq|Hq].
  - rewrite Hi, Himg by done. mred. destruct (decide (obstacle q)) as [[_ Eq]|Hn]; [by rewrite Eq|].
    destruct (is_bg (pix q)) eqn:Eq; [done|]. destruct Hn. by split.
  - rewrite Ho by done. mred. rewrite Hbg. destruct (decide (obstacle q)) as [[? _]|]; done.
Qed.

(** The neighbours already scanned. *)
Lemma seen_near n e q : idx e = n -> inside e -> seen n q -> adjacent connectivity q e ->
  match connectivity with
  | Way8 => q = na e \/ q = nb e \/ q = nc e \/ q = nd e
  | Way4 => q = nb e \/ q = nd e
  end.
Proof.
  intros <- He [[Hq _] Hlt] Ha. destruct q as [r' c'], e as [r c]. unfold inside, idx, na, nb, nc, nd in *. cbn in *.
  assert (Hrow : r' < r \/ r' = r /\ c' < c) by (destruct (decide (r' < r)); [by left|right]; nia).
  destruct connectivity; cbn in Ha.
  - destruct (decide (c' = c)) as [->|]; [left|right]; f_equal; lia.
  - destruct Ha as (_ & Ha & Hb). destruct Hrow as [|[-> ?]]; [|do 3 right; f_equal; lia].
    destruct (decide (c' = c)) as [->|]; [right; left; f_equal; lia|].
    destruct (decide (c' = c - 1)) as [->|]; [left; f_equal; lia|do 2 right; left; f_equal; lia].
Qed.

Lemma near_seen n e q : idx e = n -> inside e -> obstacle q -> q ∈ [na e; nb e; nc e; nd e] -> seen n q.
Proof.
  intros <- He Hq Hin. split; [done|]. destruct Hq as [[? Hq] _], He as [? ?]. unfold idx.
  rewrite !elem_of_cons, elem_of_nil in Hin. destruct e as [r c]. unfold na, nb, nc, nd in Hin. cbn in *.
  destruct Hin as [->|[->|[->|[->|[]]]]]; cbn in *; nia.
Qed.
Section decide.
Context (n : Z) (L : list Z) (t : EquivalenceLabelTrees) (S : scanned n L t).
Context (e : Z * Z) (Hin : inside e) (He : idx e = n).
Context (wi wl : Window) (LI : looks im image wi e) (BI : blanks im wi e).
Context (LL : looks L labels wl e) (BL : ~ inside (nb e) -> win_b L wl = Some 0).

Let tree (q : Z * Z) : Z := root (labels_ t) (lab L q).

(** A decision that leaves the pass in a good state. *)
Definition decided : decision -> Prop :=
  ends (size <= blocks) (fun r => forall L', aset L n r.1 = Some L' -> scanned (n + 1) L' r.2).

Lemma lab_read q : inside q -> aget L (address labels q) = Some (lab L q).
Proof. intros Hq. rewrite Hlbl. apply aget_lget. rewrite (sc_len _ _ _ S). by apply idx_range. Qed.

Lemma background_decided : ~ obstacle e -> decided (Some (Done (0, t))).
Proof. intros Ho L' E. by eapply (scanned_background n L t S e Hin He 0 L'). Qed.

Lemma join_decided x y :
  obstacle e -> seen n x -> seen n y -> adjacent connectivity x e -> adjacent connectivity y e ->
  (forall q, seen n q -> adjacent connectivity q e -> tree q = tree x \/ tree q = tree y) ->
  decided (join_labels (Some (lab L x)) (Some (lab L y)) t).
Proof.
  intros Ho Hx Hy Ax Ay Hcover. unfold join_labels. mred.
  pose proof (sc_fg _ _ _ S x Hx) as Hlx. pose proof (sc_fg _ _ _ S y Hy) as Hly. rewrite (sc_next _ _ _ S) in Hlx, Hly.
  pose proof (sc_forest _ _ _ S) as F. pose proof (sc_next _ _ _ S) as Hn.
  destruct (unionTrees_spec t (lab L x) (lab L y)) as (l' & -> & Hre); [done|lia|lia|]. mred. intros L' E. cbn in E |- *.
  fold (tree x) (tree y) in Hre, E |- *.
  assert (Hr : 0 < Z.min (tree x) (tree y) < alen (labels_ t)).
  { pose proof (sc_pos _ _ _ S (lab L x) ltac:(lia)). pose proof (sc_pos _ _ _ S (lab L y) ltac:(lia)).
    destruct (root_spec _ F (lab L x)); [lia|]. unfold tree. lia. }
  eapply (scanned_join n L t S e Hin He _ L' E x y); try done; [rewrite Hn; exact Hr|].
  destruct Hre as (_ & _ & Hroot). rewrite Hroot by lia. fold (tree x) (tree y).
  assert (Hm : root (labels_ t) (Z.min (tree x) (tree y)) = Z.min (tree x) (tree y)).
  { destruct (Z.min_spec (tree x) (tree y)) as [[_ ->]|[_ ->]]; unfold tree; by rewrite root_idem by (done || lia). }
  rewrite Hm. by destruct (_ || _).
Qed.

Lemma take_decided x :
  obstacle e -> seen n x -> adjacent connectivity x e ->
  (forall q, seen n q -> adjacent connectivity q e -> tree q = tree x) -> decided (take_label (Some (lab L x)) t).
Proof.
  intros Ho Hx Ax Hcover. unfold take_label. mred. intros L' E. cbn in E |- *. destruct t as [l sz nx] eqn:Et. cbn in *.
  pose proof (sc_fg _ _ _ S x Hx) as Hlx. cbn in Hlx.
  eapply (scanned_join n L _ S e Hin He _ L' E x x); try done; cbn.
  - split; [apply (sc_forest _ _ _ S)|]. split; [done|]. intros k Hk. fold (tree x). rewrite Z.min_id, orb_diag. by destruct (Z.eqb_spec (root l k) (tree x)).
  - by rewrite Z.min_id.
  - intros q Hq Aq. left. by apply Hcover.
Qed.

Lemma open_decided : obstacle e -> (forall q, seen n q -> ~ adjacent connectivity q e) -> decided (Some (makeLabel label_max t)).
Proof.
  intros Ho Halone. unfold makeLabel. pose proof (sc_size _ _ _ S) as Hsz. pose proof (sc_room _ _ _ S).
  assert (Hopen : forall L', aset L n (next_free_ t) = Some L' -> next_free_ t < size ->
    scanned (n + 1) L' (mkTrees (labels_ t ++ [next_free_ t]) (labels_size_ t) (label label_max (next_free_ t + 1)))).
  { intros L' E Hlt. by eapply (scanned_open n L t S e Hin He _ L' E label_max). }
  destruct (Z.eqb_spec (next_free_ t) (labels_size_ t)) as [Eq|Hne]; cbn.
  - pose proof (opener_bound n L t e S Ho He Halone). lia.
  - intros L' E. apply Hopen; [done|lia].
Qed.
(** Two neighbours already scanned that are adjacent have one tree. *)
Lemma near_tree q q' : q ∈ [na e; nb e; nc e; nd e] -> q' ∈ [na e; nb e; nc e; nd e] ->
  obstacle q -> obstacle q' -> adjacent connectivity q q' -> tree q = tree q'.
Proof. intros Hq Hq' Oq Oq' A. by apply (sc_adj _ _ _ S); [apply (near_seen n e)..|]. Qed.

Lemma read_label (v : option Z) q : obstacle q -> (inside q -> v = aget L (address labels q)) -> v = Some (lab L q).
Proof. intros [Hq _] ->; [|done]. by apply lab_read. Qed.

Ltac near := rewrite !elem_of_cons, elem_of_nil; tauto.

Lemma obstacle_e v yes no : v = win_e im wi -> if_obstacle is_bg v yes no = if decide (obstacle e) then yes else no.
Proof.
  intros ->. apply if_obstacle_at; [|done]. intros _. unfold win_e. by rewrite (look_e _ _ _ _ LI).
Qed.

Lemma near4 q : connectivity = Way4 -> seen n q -> adjacent connectivity q e -> q = nb e \/ q = nd e.
Proof. intros K Hq Aq. pose proof (seen_near n e q He Hin Hq Aq) as H. by rewrite K in H. Qed.

Lemma near8 q : connectivity = Way8 -> seen n q -> adjacent connectivity q e -> q = na e \/ q = nb e \/ q = nc e \/ q = nd e.
Proof. intros K Hq Aq. pose proof (seen_near n e q He Hin Hq Aq) as H. by rewrite K in H. Qed.

Lemma adjacent8 p q : connectivity = Way8 -> p <> q -> Z.abs (p.1 - q.1) <= 1 -> Z.abs (p.2 - q.2) <= 1 -> adjacent connectivity p q.
Proof. intros -> ? ? ?. by split. Qed.

(** Closes the adjacency of two pixels of the window. *)
Ltac by_position := apply adjacent8; [done|intros E; pose proof (f_equal fst E); pose proof (f_equal snd E)| |]; unfold na, nb, nc, nd in *; cbn in *; lia.

Lemma decide4_spec : connectivity = Way4 -> decided (decide4 label_max is_bg im wi L wl t).
Proof.
  intros K. pose proof (fun q => near4 q K) as Hn. unfold decide4. rewrite obstacle_e by done.
  rewrite (if_obstacle_at (win_b im wi) (nb e)) by (apply LI || apply BI). rewrite !(if_obstacle_at (win_d im wi) (nd e)) by (apply LI || apply BI).
  destruct (decide (obstacle e)) as [Oe|]; [|by apply background_decided].
  assert (Ab : adjacent connectivity (nb e) e) by (rewrite K; unfold nb; cbn; lia).
  assert (Ad : adjacent connectivity (nd e) e) by (rewrite K; unfold nd; cbn; lia).
  pose proof (fun O => near_seen n e (nb e) He Hin O ltac:(near)) as Sb.
  pose proof (fun O => near_seen n e (nd e) He Hin O ltac:(near)) as Sd.
  destruct (decide (obstacle (nb e))) as [Ob|Nb], (decide (obstacle (nd e))) as [Od|Nd].
  all: rewrite ?(read_label (win_b L wl) (nb e)), ?(read_label (win_d L wl) (nd e)) by (done || apply LL).
  - apply join_decided; auto. intros q Hq Aq. destruct (Hn q Hq Aq) as [->| ->]; auto.
  - apply take_decided; auto. intros q Hq Aq. destruct (Hn q Hq Aq) as [->| ->]; [done|by destruct Nd, Hq].
  - apply take_decided; auto. intros q Hq Aq. destruct (Hn q Hq Aq) as [->| ->]; [by destruct Nb, Hq|done].
  - apply open_decided; [done|]. intros q Hq Aq. destruct (Hn q Hq Aq) as [->| ->]; [by destruct Nb, Hq|by destruct Nd, Hq].
Qed.

Lemma label_b_test : exists b, win_b L wl = Some b /\ (obstacle (nb e) -> b = lab L (nb e)) /\ (b =? 0) = negb (bool_decide (obstacle (nb e))).
Proof.
  destruct (decide (inside (nb e))) as [Hb|Hb].
  - exists (lab L (nb e)). split; [rewrite (look_b _ _ _ _ LL) by done; by apply lab_read|]. split; [done|].
    case_bool_decide as Ob.
    + assert (Sb : seen n (nb e)) by (apply (near_seen n e); try done; near). pose proof (sc_fg _ _ _ S _ Sb). cbn. lia.
    + rewrite (sc_bg _ _ _ S); [done|done| |done]. rewrite <- He. destruct Hin, Hb. unfold idx, nb in *. cbn in *. nia.
  - exists 0. split; [auto|]. rewrite bool_decide_eq_false_2 by (intros [? _]; done). split; [by intros [? _]|done].
Qed.

Lemma decide8_spec : connectivity = Way8 -> decided (decide8 label_max is_bg im wi L wl t).
Proof.
  intros K. pose proof (fun q => near8 q K) as Hn. unfold decide8. rewrite obstacle_e by done.
  destruct label_b_test as (b & -> & Eb & Tb). mred. rewrite Tb, negb_involutive.
  rewrite (if_obstacle_at (win_c im wi) (nc e)) by (apply LI || apply BI). rewrite !(if_obstacle_at (win_a im wi) (na e)) by (apply LI || apply BI).
  rewrite !(if_obstacle_at (win_d im wi) (nd e)) by (apply LI || apply BI).
  destruct (decide (obstacle e)) as [Oe|]; [|by apply background_decided].
  assert (Aa : adjacent connectivity (na e) e) by by_position. assert (Ab : adjacent connectivity (nb e) e) by by_position.
  assert (Ac : adjacent connectivity (nc e) e) by by_position. assert (Ad : adjacent connectivity (nd e) e) by by_position.
  pose proof (fun O => near_seen n e (na e) He Hin O ltac:(near)) as Sa. pose proof (fun O => near_seen n e (nb e) He Hin O ltac:(near)) as Sb.
  pose proof (fun O => near_seen n e (nc e) He Hin O ltac:(near)) as Sc. pose proof (fun O => near_seen n e (nd e) He Hin O ltac:(near)) as Sd.
  assert (Tab : obstacle (na e) -> obstacle (nb e) -> tree (na e) = tree (nb e)) by (intros; apply near_tree; (near || done || by_position)).
  assert (Tcb : obstacle (nc e) -> obstacle (nb e) -> tree (nc e) = tree (nb e)) by (intros; apply near_tree; (near || done || by_position)).
  assert (Tdb : obstacle (nd e) -> obstacle (nb e) -> tree (nd e) = tree (nb e)) by (intros; apply near_tree; (near || done || by_position)).
  assert (Tda : obstacle (nd e) -> obstacle (na e) -> tree (nd e) = tree (na e)) by (intros; apply near_tree; (near || done || by_position)).
  case_bool_decide as Ob.
  { rewrite Eb by done. apply (take_decided (nb e)); auto. intros q Hq Aq. pose proof (proj1 Hq) as Oq. destruct (Hn q Hq Aq) as [->|[->|[->| ->]]]; auto. }
  destruct (decide (obstacle (na e))) as [Oa|Na], (decide (obstacle (nc e))) as [Oc|Nc], (decide (obstacle (nd e))) as [Od|Nd].
  all: rewrite ?(read_label (win_a L wl) (na e)), ?(read_label (win_c L wl) (nc e)), ?(read_label (win_d L wl) (nd e)) by (done || apply LL).
  all: first [apply join_decided; auto | apply take_decided; auto | apply open_decided; auto].
  all: intros q Hq Aq; pose proof (proj1 Hq) as Oq; destruct (Hn q Hq Aq) as [->|[->|[->| ->]]]; auto; contradiction.
Qed.

(** One pixel more. *)
Lemma pass_spec : ends (size <= blocks) (fun s => scanned (n + 1) s.1 s.2) (pass label_max is_bg connectivity im wi wl (L, t)).
Proof.
  unfold pass. eapply (ends_bind _ (fun r => forall L', aset L n r.1 = Some L' -> scanned (n + 1) L' r.2)).
  - destruct connectivity eqn:K; [by apply decide4_spec|by apply decide8_spec].
  - intros [cur t'] Hr. cbn in Hr |- *. rewrite (look_e _ _ _ _ LL), Hlbl, He.
    pose proof (idx_range e Hin) as Hi. rewrite He, <- (sc_len _ _ _ S) in Hi.
    pose proof (aset_Some L n cur Hi) as E. rewrite E. mred. cbn. by apply Hr.
Qed.
End decide.

(** ** All the pixels *)

Context (Hrows : rows_ image = R) (Hcols : columns_ image = C).

Let good (n : Z) (s : scan_state) : Prop := scanned n s.1 s.2.

(** A round of the scan with windows from [safe_window] or [unsafe_window]. *)
Lemma pass_at r c wi wl s :
  inside (r, c) -> good (r * C + c) s -> looks im image wi (r, c) -> blanks im wi (r, c) -> looks s.1 labels wl (r, c) ->
  (~ inside (nb (r, c)) -> win_b s.1 wl = Some 0) ->
  ends (size <= blocks) (good (r * C + c + 1)) (pass label_max is_bg connectivity im wi wl s).
Proof. intros Hin Hs LI BI LL BL. destruct s as [L t]. by apply (pass_spec (r * C + c) L t Hs (r, c)). Qed.

Lemma scan_first_row_spec s :
  good 0 s -> ends (size <= blocks) (good C) (scan_first_row label_max is_bg connectivity im image labels s).
Proof.
  intros Hs. unfold scan_first_row. rewrite Hcols. apply (try_range_ends _ good); [lia|done|]. intros c t Hc Ht.
  assert (Hin : inside (0, c)) by (unfold inside; cbn; lia).
  destruct (safe_window im image 0 c 0 c Hin ltac:(lia)) as [LI BI]. destruct (safe_window t.1 labels 0 c 0 c Hin ltac:(lia)) as [LL BL].
  apply (pass_at 0 c); try done.
Qed.

Lemma scan_row_spec r s :
  0 <= r < R - 1 -> good ((r + 1) * C) s ->
  ends (size <= blocks) (good ((r + 1 + 1) * C)) (scan_row label_max is_bg connectivity im image labels r s).
Proof.
  intros Hr Hs. unfold scan_row. rewrite Hcols. set (r' := r + 1) in *.
  assert (Habove : forall i : Image, row_above i r' = Some (row i r)).
  { intros i. unfold row_above. rewrite (proj2 (Z.eqb_neq r' 0)) by lia. f_equal. f_equal. lia. }
  assert (Hin : forall c, 0 <= c < C -> inside (r', c)) by (intros c Hc; unfold inside; cbn; lia).
  assert (Hu : forall mem i c, 0 <= c < C -> looks mem i (shift (makeUnsafeWindow (row i r) (row i r')) c) (r', c) /\
     (0 < c < C - 1 -> blanks mem (shift (makeUnsafeWindow (row i r) (row i r')) c) (r', c)) /\
     (~ inside (nb (r', c)) -> win_b mem (shift (makeUnsafeWindow (row i r) (row i r')) c) = Some 0)).
  { intros mem i c Hc. replace r with (r' - 1) by lia. apply unsafe_window; [auto|lia|done]. }
  assert (Hsafe : forall mem i c, 0 <= c < C -> looks mem i (makeSafeWindow (Some (row i r)) (row i r') C c) (r', c) /\
     blanks mem (makeSafeWindow (Some (row i r)) (row i r') C c) (r', c)).
  { intros mem i c Hc. rewrite <- Habove. pose proof (safe_window mem i r' c c 0 (Hin c Hc) ltac:(lia)) as H.
    unfold shift, makeSafeWindow in *. cbn in *. by rewrite !Z.add_0_r in H. }
  assert (Hshift : forall i, makeUnsafeWindow (row i r) (row i r') = shift (makeUnsafeWindow (row i r) (row i r')) 0).
  { intros i. unfold shift, makeUnsafeWindow. cbn. by rewrite !Z.add_0_r. }
  eapply (ends_bind _ (good (r' * C + 1))).
  { rewrite <- (Z.add_0_r (r' * C)). rewrite <- (Z.add_0_r (r' * C)) in Hs. rewrite Hshift.
    apply pass_at; [apply Hin; lia|done|apply Hsafe; lia|apply Hsafe; lia|apply Hu; lia|apply Hu; lia]. }
  clear s Hs. intros s Hs.
  eapply (ends_bind _ (good (r' * C + Z.max 1 (C - 1)))).
  { destruct (decide (1 <= C - 1)).
    - rewrite Z.max_r by lia. apply (try_range_ends _ (fun c => good (r' * C + c))); [done|done|]. intros c t Hc Ht. rewrite Z.add_assoc.
      apply pass_at; [apply Hin; lia|done|apply Hu; lia|apply Hu; lia|apply Hu; lia|apply Hu; lia].
    - unfold try_range. replace (Z.to_nat (C - 1 - 1)) with O by lia. cbn. by rewrite Z.max_l by lia. }
  clear s Hs. intros s Hs. destruct (Z.ltb_spec 1 C).
  - rewrite Z.max_r in Hs by lia. replace ((r' + 1) * C) with (r' * C + (C - 1) + 1) by lia.
    apply pass_at; [apply Hin; lia|done|apply Hsafe; lia|apply Hsafe; lia|apply Hsafe; lia|apply (Hsafe s.1 labels); lia].
  - assert (C = 1) by lia. cbn. replace ((r' + 1) * C) with (r' * C + Z.max 1 (C - 1)) by lia. done.
Qed.

Lemma scan_labels s :
  good 0 s -> ends (size <= blocks) (good (R * C)) (scan label_max is_bg connectivity im image labels s).
Proof.
  intros Hs. unfold scan. eapply ends_bind; [by apply scan_first_row_spec|]. clear s Hs. intros s Hs. rewrite Hrows.
  replace R with (R - 1 + 1) at 1 by lia. apply (try_range_ends _ (fun r => good ((r + 1) * C))); [lia|by replace ((0 + 1) * C) with C by lia|].
  intros r t Hr Ht. by apply scan_row_spec.
Qed.
End pixel.
(** Nothing scanned yet. *)
Lemma scanned_start L : alen L = R * C -> 1 <= size -> scanned 0 L (mkTrees [0] size 1).
Proof.
  intros Hl Hs. assert (Hno : forall p, ~ seen 0 p) by (intros p [[Hp _] Hlt]; pose proof (idx_range p Hp); lia).
  split; cbn; try done; try lia.
  - split; [done|]. intros i Hi. unfold alen in Hi. cbn in Hi. replace i with 0 by lia. done.
  - unfold alen. cbn. lia.
  - intros p Hp. pose proof (idx_range p Hp). lia.
  - intros p Hp. by destruct (Hno p).
  - intros p q Hp. by destruct (Hno p).
  - intros p q Hp. by destruct (Hno p).
  - exists []. split; [done|]. split; constructor.
Qed.

(** ** The final labels *)

(** Two obstacles have the same label exactly when they are connected, the
    background has the label 0, and every label below [k] is used. *)
Record labelling (L : list Z) (k : Z) : Prop := {
  lb_len : alen L = R * C;
  lb_range : forall p, inside p -> 0 <= lab L p < k;
  lb_background : forall p, inside p -> lab L p = 0 <-> ~ obstacle p;
  lb_connected : forall p q, obstacle p -> obstacle q -> lab L p = lab L q <-> connected p q;
  lb_used : forall c, 0 < c < k -> exists p, obstacle p /\ lab L p = c;
}.

(** Obstacles that touch are connected: equal roots are exactly connection. *)
Lemma scanned_all L t p q :
  scanned (R * C) L t -> obstacle p -> obstacle q -> root (labels_ t) (lab L p) = root (labels_ t) (lab L q) <-> connected p q.
Proof.
  intros S Hp Hq. assert (Hs : forall x, obstacle x -> seen (R * C) x) by (intros x Hx; split; [done|apply idx_range, Hx]).
  split; [intros E; apply (sc_conn _ _ _ S); auto|]. intros Hc. clear Hq. induction Hc as [|x y z (Ox & Oy & A) _ IH]; [done|].
  rewrite <- IH by done. apply (sc_adj _ _ _ S); auto.
Qed.

Lemma relabelled L t L' :
  scanned (R * C) L t -> alen L' = alen L -> (forall i, 0 <= i < alen L -> lget L' i = number (labels_ t) (lget L i)) ->
  labelling L' (1 + count_roots (labels_ t) (Z.to_nat (alen (labels_ t) - 1))).
Proof.
  intros S Hl Hget. pose proof (sc_forest _ _ _ S) as F. pose proof (sc_next _ _ _ S) as Hn.
  assert (Hlab : forall p, inside p -> lab L' p = number (labels_ t) (lab L p)).
  { intros p Hp. apply Hget. rewrite (sc_len _ _ _ S). by apply idx_range. }
  assert (Hob : forall p, obstacle p -> 0 < lab L p < alen (labels_ t)).
  { intros p Hp. rewrite <- Hn. apply (sc_fg _ _ _ S). split; [done|apply idx_range, Hp]. }
  assert (Hno : forall p, inside p -> ~ obstacle p -> lab L p = 0) by (intros p Hp Ho; apply (sc_bg _ _ _ S); [done|by apply idx_range|done]).
  pose proof (forest_zero _ F) as H0.
  assert (Hz : number (labels_ t) 0 = 0) by (unfold number; by rewrite root_of_root by (done || apply S || lia)).
  split.
  - rewrite Hl. apply S.
  - intros p Hp. rewrite Hlab by done. destruct (decide (obstacle p)) as [Ho|Ho].
    + destruct (number_range (labels_ t) (lab L p) F); [specialize (Hob p Ho); lia|lia].
    + rewrite Hno, Hz by done. pose proof (count_roots_mono (labels_ t) 0 (Z.to_nat (alen (labels_ t) - 1)) ltac:(lia)) as Hm.
      change (count_roots (labels_ t) 0) with 0 in Hm. lia.
  - intros p Hp. rewrite Hlab by done. destruct (decide (obstacle p)) as [Ho|Ho].
    + specialize (Hob p Ho). pose proof (sc_pos _ _ _ S (lab L p) ltac:(lia)).
      destruct (number_range (labels_ t) (lab L p) F) as [_ Hpos]; [lia|]. split; [intros E; lia|done].
    + by rewrite Hno, Hz.
  - intros p q Hp Hq. rewrite !Hlab by (apply Hp || apply Hq). pose proof (Hob p Hp). pose proof (Hob q Hq).
    rewrite number_inj by (done || lia). by apply (scanned_all L t).
  - intros c Hc. destruct (count_roots_onto (labels_ t) (Z.to_nat (alen (labels_ t) - 1)) c) as (r & Hr & Er & Ec); [lia|].
    destruct (sc_used _ _ _ S r) as (p & [Hp _] & Erp); [lia|]. exists p. split; [done|]. rewrite Hlab by apply Hp. unfold number.
    rewrite Erp, (root_of_root _ F r) by (done || lia). done.
Qed.
End picture.

(** ** Passing over an image *)

(** A pass over the pixels of an image stored without gaps is one over the
    cells of its memory. *)
Lemma forEach_dense {S} R C (HR : 0 <= R) (HC : 0 <= C) (P : Z -> S -> Prop) fn s :
  P 0 s -> (forall p s, 0 <= p < R * C -> P p s -> exists s', fn p s = Some s' /\ P (p + 1) s') ->
  exists s', forEach (mkImage R C 0 C) fn s = Some s' /\ P (R * C) s'.
Proof.
  intros H0 Hb. unfold forEach. cbn [rows_]. apply (for_range_inv (fun r => P (r * C))); [done|done|].
  intros r t Hr Ht. unfold row. cbn. rewrite Z.mul_add_distr_r, Z.mul_1_l.
  apply for_range_inv; [lia|done|]. intros p u Hp Hu. apply Hb; [nia|done].
Qed.

(** ** Connected components *)

(** The value of a pixel. *)
Definition pixel (im : list Z) (image : Image) (p : Z * Z) : Z := lget im (address image p).

(** The rows of an image are in its memory. *)
Definition in_memory (im : list Z) (image : Image) : Prop :=
  forall p, inside (rows_ image) (columns_ image) p -> 0 <= address image p < alen im.

(** The elements that a vector held stay readable when it shrinks. *)
Definition keeps_elements (past_end : list Z -> Z -> option Z) : Prop :=
  forall held i, 0 <= i < alen held -> past_end held i = aget held i.

Section components.
Context (label_max : Z) (Hmax : 1 <= label_max) (is_bg : Z -> bool) (Hbg : is_bg 0 = true).
Context (past_end : list Z -> Z -> option Z) (Hpast : keeps_elements past_end).
Context (connectivity : ConnectivityType) (im : list Z) (image : Image).
Context (HR : 1 <= rows_ image) (HC : 1 <= columns_ image) (Hsmall : rows_ image * columns_ image < 2 ^ 64).
Context (Hmem : in_memory im image).

Let R : Z := rows_ image.
Let C : Z := columns_ image.

Lemma maxLabels_eq :
  maxLabels label_max R C connectivity = Z.min (R * C / (match connectivity with Way4 => 2 | Way8 => 3 end) + 2) label_max.
Proof.
  unfold maxLabels, u64. assert (0 < R * C) by (subst R C; nia). rewrite (Z.mod_small (R * C)) by (subst R C; lia).
  destruct connectivity; rewrite !Z.mod_small; f_equal; try lia; Z.div_mod_to_equations; lia.
Qed.

(** Every run of the two passes. *)
Lemma connectedComponents_ends junk :
  ends (Z.min (maxLabels label_max R C connectivity) label_max <= blocks R C connectivity)
    (fun r => r.1.2 = mkImage R C 0 C /\ labelling R C (pixel im image) is_bg connectivity r.1.1 r.2 /\ r.2 <= label_max)
    (connectedComponents label_max is_bg past_end junk connectivity im image).
Proof.
  unfold connectedComponents. assert (0 < R * C) by (subst R C; nia). pose proof maxLabels_eq as Hm.
  fold R C. unfold u64. rewrite Z.mod_small by (subst R C; lia). rewrite (proj2 (Z.eqb_neq _ _)) by lia.
  set (size := Z.min _ label_max). assert (Hsize : 1 <= size <= label_max).
  { unfold size. rewrite Hm. destruct connectivity; Z.div_mod_to_equations; lia. }
  eapply (ends_bind _ (fun r => labelling R C (pixel im image) is_bg connectivity r.1 r.2 /\ r.2 <= label_max)); [|by intros r [? ?]].
  unfold connectedComponentsImpl, trees_reset. fold size.
  replace (label label_max size) with size by (unfold label; rewrite Z.mod_small; lia).
  eapply ends_bind.
  - refine (scan_labels R C HR HC (pixel im image) is_bg Hbg connectivity size label_max (proj2 Hsize) im image _ _ _ eq_refl eq_refl _ _).
    + intros p Hp. apply aget_lget. by apply Hmem.
    + intros p. unfold address, row, idx. cbn. lia.
    + apply scanned_start; [done..| |lia]. cbn. unfold alen. rewrite length_fmap, length_seqZ. lia.
  - intros [L t] S. cbn [fst snd] in S |- *. pose proof (sc_forest _ _ _ _ _ _ _ _ _ S) as F.
    destruct (getLabels_spec label_max t) as (T & -> & HT & Hnum); [done|apply S|apply S|pose proof (sc_room _ _ _ _ _ _ _ _ _ S); lia|].
    mred. cbn [fst snd]. pose proof (sc_next _ _ _ _ _ _ _ _ _ S) as Hn.
    pose proof (sc_room _ _ _ _ _ _ _ _ _ S) as Hroom. pose proof (sc_len _ _ _ _ _ _ _ _ _ S) as HL.
    set (k := 1 + count_roots _ _).
    assert (Hk : 1 <= k <= alen (labels_ t)).
    { pose proof (count_roots_mono (labels_ t) 0 (Z.to_nat (alen (labels_ t) - 1)) ltac:(lia)) as Hc.
      change (count_roots (labels_ t) 0) with 0 in Hc. pose proof (forest_zero _ F). lia. }
    assert (Hin : forall i, 0 <= i < R * C -> 0 <= lget L i < alen (labels_ t)).
    { intros i Hi. rewrite <- Hn. pose proof (forest_zero _ F). destruct (idx_onto R C HR HC i Hi) as (p & Hp & <-). change (lget L (idx C p)) with (lab C L p).
      destruct (decide (obstacle R C (pixel im image) is_bg p)) as [Ho|Ho].
      - pose proof (sc_fg _ _ _ _ _ _ _ _ _ S p (conj Ho (proj2 Hi))). lia.
      - rewrite (sc_bg _ _ _ _ _ _ _ _ _ S p Hp (proj2 Hi) Ho). lia. }
    destruct (forEach_dense R C ltac:(lia) ltac:(lia)
      (fun p lm => alen lm = alen L /\ forall i, 0 <= i < alen L -> lget lm i = if i <? p then number (labels_ t) (lget L i) else lget L i)
      (fun p lm => l ← aget lm p; v ← vector_at past_end T k l; aset lm p v) L) as (L' & -> & Hl' & Hget).
    + split; [done|]. intros i Hi. by rewrite (proj2 (Z.ltb_ge i 0)) by lia.
    + intros p lm Hp [Hlm Hg]. rewrite aget_lget by lia. mred. rewrite Hg by lia. rewrite Z.ltb_irrefl.
      assert (Hv : vector_at past_end T k (lget L p) = Some (number (labels_ t) (lget L p))).
      { unfold vector_at. specialize (Hin p Hp). destruct (_ && _); [|rewrite Hpast by lia]; apply Hnum; lia. }
      rewrite Hv. mred. rewrite aset_Some by lia. eexists. split; [done|].
      pose proof (aset_Some lm p (number (labels_ t) (lget L p)) ltac:(lia)) as E. split; [by rewrite (aset_len _ _ _ _ E)|].
      intros i Hi. rewrite (lget_aset _ _ _ _ i E). destruct (Z.eqb_spec p i) as [<-|]; [by rewrite (proj2 (Z.ltb_lt p (p + 1))) by lia|].
      rewrite Hg by done. destruct (Z.ltb_spec i p), (Z.ltb_spec i (p + 1)); done || lia.
    + mred. cbn. replace (label label_max k) with k by (unfold label; rewrite Z.mod_small; lia). split; [|lia].
      apply (relabelled R C HC (pixel im image) is_bg connectivity size L t L' S Hl'). intros i Hi. rewrite Hget by done. by rewrite (proj2 (Z.ltb_lt i (R * C))) by lia.
Qed.
End components.
