(* ===== verification/Denoise.v ===== *)
(** The denoise layer: dilation, histogram and removal of groups
    (denoise/image_processing.hpp) and class [DenoiseLayer]
    (plugins/denoise_layer.cpp). *)

From S2P Require Import Prelude Floats Costmap2D Footprint CostmapLayer LayeredCostmap LabelTrees Components.
#[local] Open Scope denoise_scope.

(** ** Dilation *)

(** The nine bytes of [createShape], by rows. *)
Definition shape : Type := list Z * list Z * list Z.

Definition createShape (connectivity : ConnectivityType) : shape :=
  match connectivity with
  | Way8 => ([255; 255; 255], [255; 0; 255], [255; 255; 255])
  | Way4 => ([0; 255; 0], [255; 0; 255], [0; 255; 0])
  end.

(** [touch_fn res lst], with the new value of [res]. *)
Definition pixel_touch : Type := Z -> Z * Z * Z -> Z.

Section probe.
(** The memory of the input; the output has a memory of its own. *)
Context (mem : list Z) (input output : Image).

Definition apply_shape (row : list Z) (value index : Z) : option Z := s ← aget row index; Some (Z.land value s).

Definition read_masked (row_shape : list Z) (p index : Z) : option Z := v ← aget mem p; apply_shape row_shape v index.

Definition touch_pixel (touch_fn : pixel_touch) (p : Z) (overlay : Z * Z * Z) (out : list Z) : option (list Z) :=
  o ← aget out p; aset out p (touch_fn o overlay).

(** A row of two pixels at least, from [src] to [dst]. *)
Definition probe_row (row_shape : list Z) (touch_fn : pixel_touch) (src dst : Z) (out : list Z) : option (list Z) :=
  let columns := columns_ input in
  m ← read_masked row_shape src 1;
  r ← read_masked row_shape (src + 1) 2;
  out ← touch_pixel touch_fn dst (0, m, r) out;
  out ← for_range 1 (columns - 1) (fun c out =>
          l ← read_masked row_shape (src + c - 1) 0;
          m ← read_masked row_shape (src + c) 1;
          r ← read_masked row_shape (src + c + 1) 2;
          touch_pixel touch_fn (dst + c) (l, m, r) out) out;
  l ← read_masked row_shape (src + (columns - 1) - 1) 0;
  m ← read_masked row_shape (src + (columns - 1)) 1;
  touch_pixel touch_fn (dst + (columns - 1)) (l, m, 0) out.

Definition probeRows (first_input_row first_output_row : Z) (row_shape : list Z) (touch_fn : pixel_touch) (out : list Z) : option (list Z) :=
  let rows := u64 (rows_ input - Z.max first_input_row first_output_row) in
  let columns := columns_ input in
  if columns =? 1 then
    for_range 0 rows (fun i out =>
      m ← read_masked row_shape (row input (i + first_input_row)) 1;
      touch_pixel touch_fn (row output (i + first_output_row)) (0, m, 0) out) out
  else
    for_range 0 rows (fun i =>
      probe_row row_shape touch_fn (row input (i + first_input_row)) (row output (i + first_output_row))) out.

(** [wrong shape size] cannot happen: the only shapes are those above. *)
Definition morphologyOperation (s : shape) (aggregate : Z * Z * Z -> Z) (out : list Z) : option (attempt (list Z)) :=
  if negb (rows_ input =? rows_ output) || negb (columns_ input =? columns_ output) then Some LogicError
  else if image_empty input then Some (Done out)
  else
    let set (res : Z) (lst : Z * Z * Z) := aggregate lst in
    let update (res : Z) (lst : Z * Z * Z) := aggregate (res, aggregate lst, 0) in
    let '(s0, s1, s2) := s in
    out ← probeRows 0 0 s1 set out;
    if 1 <? rows_ input then
      out ← probeRows 0 1 s0 update out;
      out ← probeRows 1 0 s2 update out;
      Some (Done out)
    else Some (Done out).

Definition dilate (connectivity : ConnectivityType) (max_function : Z * Z * Z -> Z) (out : list Z) : option (attempt (list Z)) :=
  morphologyOperation (createShape connectivity) max_function out.
End probe.

(** ** Groups *)

(** Bins of type [size_t]. *)
Definition histogram (mem : list Z) (image : Image) (image_max bin_max : Z) : option (list Z) :=
  if image_empty image then Some []
  else
    forEach image (fun p bins =>
      pixel ← aget mem p;
      h ← aget bins pixel;
      aset bins pixel (Z.min (u64 (h + 1)) bin_max)) (anew (image_max + 1) 0).

Section groups.
Context (past_end : list Z -> Z -> option Z) (junk : Z -> Z).

Definition label_max16 : Z := 2 ^ 16 - 1.
Definition label_max32 : Z := 2 ^ 32 - 1.

Section label_type.
Context (label_max : Z) (is_background : Z -> bool) (connectivity : ConnectivityType).

(** [transform_fn] *)
Definition is_noise (minimal_group_size bin_value : Z) : bool := bin_value <? minimal_group_size.

Definition clean (lm : list Z) (noise_labels_table : list bool) (src trg : Z) (mem : list Z) : option (list Z) :=
  l ← aget lm src;
  t ← aget mem trg;
  if is_background t then Some mem
  else
    noise ← aget noise_labels_table l;
    if (noise : bool) then aset mem trg 0 else Some mem.

Definition removeGroupsImpl (image : Image) (minimal_group_size : Z) (mem : list Z) : option (attempt (list Z)) :=
  r ⇐ connectedComponents label_max is_background past_end junk connectivity mem image;
  let '(lm, labels, groups_count) := r in
  let max_label_value := label label_max (groups_count - 1) in
  groups_sizes ← histogram lm labels max_label_value (u64 (minimal_group_size + 1));
  groups_sizes ← aset groups_sizes 0 0;
  let noise_labels_table := is_noise minimal_group_size <$> groups_sizes in
  convert labels image (clean lm noise_labels_table) mem.

(** Whether it succeeded, and the pixels. *)
Definition tryRemoveGroupsWithLabelType (image : Image) (minimal_group_size : Z) (throw_on_label_overflow : bool) (mem : list Z) :
    option (attempt (bool * list Z)) :=
  r ← removeGroupsImpl image minimal_group_size mem;
  match r with
  | Done mem => Some (Done (true, mem))
  | LabelOverflow => if throw_on_label_overflow then Some LabelOverflow else Some (Done (false, mem))
  | LogicError => Some LogicError
  end.
End label_type.

(** [wide]: the stored label tree is the 32-bit one. It stays so when the
    second attempt throws. *)
Definition removeGroupsPickLabelType (is_background : Z -> bool) (connectivity : ConnectivityType) (image : Image)
    (minimal_group_size : Z) (wide : bool) (mem : list Z) : option (bool * attempt (list Z)) :=
  r ← (if negb wide then tryRemoveGroupsWithLabelType label_max16 is_background connectivity image minimal_group_size false mem
       else Some (Done (false, mem)));
  match r with
  | Done (true, mem) => Some (wide, Done mem)
  | Done (false, mem) =>
      r ← tryRemoveGroupsWithLabelType label_max32 is_background connectivity image minimal_group_size true mem;
      Some (true, match r with Done (_, mem) => Done mem | LabelOverflow => LabelOverflow | LogicError => LogicError end)
  | LabelOverflow => Some (wide, LabelOverflow)
  | LogicError => Some (wide, LogicError)
  end.

(** [GroupsRemover::removeGroups]: the template parameter from the value. *)
Definition GroupsRemover_removeGroups (is_background : Z -> bool) (connectivity : ConnectivityType) (image : Image)
    (minimal_group_size : Z) (wide : bool) (mem : list Z) : option (bool * attempt (list Z)) :=
  match connectivity with
  | Way4 => removeGroupsPickLabelType is_background Way4 image minimal_group_size wide mem
  | Way8 => removeGroupsPickLabelType is_background Way8 image minimal_group_size wide mem
  end.

(** ** The layer *)

(** [groups_wide] is the state of [groups_remover_]; the contents of [buffer_]
    are [junk] whenever it is taken. *)
Record DenoiseLayer := mkDenoise {
  dn_enabled : bool;
  dn_current : bool;
  minimal_group_size_ : Z;
  group_connectivity_type_ : ConnectivityType;
  groups_wide : bool;
  no_information_is_obstacle_ : bool;
}.

(** With the values of the parameters that [get_parameter] found. *)
Definition onInitialize (l : DenoiseLayer) (enabled : option bool) (minimal_group_size_param group_connectivity_type_param : Z) : DenoiseLayer :=
  mkDenoise (default (dn_enabled l) enabled) true
    (if minimal_group_size_param <=? 1 then 1 else minimal_group_size_param)
    (if group_connectivity_type_param =? 4 then Way4 else Way8)
    (groups_wide l) (no_information_is_obstacle_ l).

Definition reset (l : DenoiseLayer) : DenoiseLayer :=
  mkDenoise (dn_enabled l) false (minimal_group_size_ l) (group_connectivity_type_ l) (groups_wide l) (no_information_is_obstacle_ l).

Definition isClearable : bool := false.

Definition isBackground (no_information_is_obstacle : bool) (pixel : Z) : bool :=
  negb ((pixel =? LETHAL_OBSTACLE) || (pixel =? INSCRIBED_INFLATED_OBSTACLE) ||
        ((pixel =? NO_INFORMATION) && no_information_is_obstacle)).

Definition replace_to_free (v : Z) : Z := if v =? NO_INFORMATION then FREE_SPACE else v.

(** The maximum of three bytes, with or without [replace_to_free]. *)
Definition max_neighbor (no_information_is_obstacle : bool) (lst : Z * Z * Z) : Z :=
  let '(a, b, c) := lst in
  if negb no_information_is_obstacle then Z.max (Z.max (replace_to_free a) (replace_to_free b)) (replace_to_free c)
  else Z.max (Z.max a b) c.

Definition free_single (no_information_is_obstacle : bool) (neighbors : list Z) (src trg : Z) (mem : list Z) : option (list Z) :=
  m ← aget neighbors src;
  p ← aget mem trg;
  if negb (isBackground no_information_is_obstacle p) && isBackground no_information_is_obstacle m
  then aset mem trg FREE_SPACE else Some mem.

Definition removeSinglePixels (l : DenoiseLayer) (image : Image) (mem : list Z) : option (attempt (list Z)) :=
  let noi := no_information_is_obstacle_ l in
  let pixels := u64 (rows_ image * columns_ image) in
  let max_neighbors_image := mkImage (rows_ image) (columns_ image) 0 (columns_ image) in
  neighbors ⇐ dilate mem image max_neighbors_image (group_connectivity_type_ l) (max_neighbor noi) (junk <$> seqZ 0 pixels);
  convert max_neighbors_image image (free_single noi neighbors) mem.

Definition with_wide (l : DenoiseLayer) (wide : bool) : DenoiseLayer :=
  mkDenoise (dn_enabled l) (dn_current l) (minimal_group_size_ l) (group_connectivity_type_ l) wide (no_information_is_obstacle_ l).

Definition removeGroups (l : DenoiseLayer) (image : Image) (mem : list Z) : option (DenoiseLayer * attempt (list Z)) :=
  r ← GroupsRemover_removeGroups (isBackground (no_information_is_obstacle_ l)) (group_connectivity_type_ l) image
        (minimal_group_size_ l) (groups_wide l) mem;
  Some (with_wide l (fst r), snd r).

Definition denoise (l : DenoiseLayer) (image : Image) (mem : list Z) : option (DenoiseLayer * attempt (list Z)) :=
  if image_empty image then Some (l, Done mem)
  else if minimal_group_size_ l <=? 1 then Some (l, Done mem)
  else if minimal_group_size_ l =? 2 then
    r ← removeSinglePixels l image mem; Some (l, r)
  else removeGroups l image mem.

(** The pixels are changed last: an exception leaves them alone. *)
Definition updateCosts (l : DenoiseLayer) (master_grid : Costmap2D) (min_x min_y max_x max_y : Z) : option (DenoiseLayer * Costmap2D) :=
  if negb (dn_enabled l) then Some (l, master_grid)
  else if (max_x <=? min_x) || (max_y <=? min_y) then Some (l, master_grid)
  else
    let l := mkDenoise (dn_enabled l) (dn_current l) (minimal_group_size_ l) (group_connectivity_type_ l) (groups_wide l)
               (negb (default_value_ master_grid =? NO_INFORMATION)) in
    mem ← costmap_ master_grid;
    let step := s32 (size_x_ master_grid) in
    _ ← assert_ub (bool_decide (is_s32 (min_y * step)));
    _ ← assert_ub (bool_decide (is_s32 (max_x - min_x)) && bool_decide (is_s32 (max_y - min_y)));
    let roi_image := mkImage (max_y - min_y) (max_x - min_x) (min_y * step + min_x) step in
    r ← denoise l roi_image mem;
    let mem := match snd r with Done mem => mem | _ => mem end in
    let l := fst r in
    Some (mkDenoise (dn_enabled l) true (minimal_group_size_ l) (group_connectivity_type_ l) (groups_wide l) (no_information_is_obstacle_ l),
          with_costmap master_grid (Some mem)).
End groups.

(** The update is defined more often when more reads past the end are. *)
Lemma removeGroups_refines pe pe' junk l image mem : (forall held i, refines (pe held i) (pe' held i)) -> refines (removeGroups pe junk l image mem) (removeGroups pe' junk l image mem).
Proof.
  intros Hpe. assert (Htry : forall label_max is_bg conn k throw mem, refines (tryRemoveGroupsWithLabelType pe junk label_max is_bg conn image k throw mem) (tryRemoveGroupsWithLabelType pe' junk label_max is_bg conn image k throw mem)).
  { intros label_max is_bg conn k throw m. apply refines_bind; [|intros r; apply refines_refl]. apply refines_try_bind; [by apply connectedComponents_refines|intros r; apply refines_refl]. }
  apply refines_bind; [|intros r; apply refines_refl]. unfold GroupsRemover_removeGroups. destruct (group_connectivity_type_ l); (apply refines_bind; [destruct (negb _); [apply Htry|apply refines_refl]|]);
    intros [[[|] m]| |]; try apply refines_refl; (apply refines_bind; [apply Htry|intros r; apply refines_refl]).
Qed.

Lemma updateCosts_refines pe pe' junk l m min_x min_y max_x max_y : (forall held i, refines (pe held i) (pe' held i)) ->
  refines (updateCosts pe junk l m min_x min_y max_x max_y) (updateCosts pe' junk l m min_x min_y max_x max_y).
Proof.
  intros Hpe. unfold updateCosts. destruct (negb _); [apply refines_refl|]. destruct (_ || _); [apply refines_refl|]. cbv zeta. repeat (apply refines_bind; [apply refines_refl|intros ?]).
  apply refines_bind; [|intros r; apply refines_refl]. unfold denoise. destruct (image_empty _); [apply refines_refl|]. destruct (_ <=? 1); [apply refines_refl|]. destruct (_ =? 2); [apply refines_refl|]. by apply removeGroups_refines.
Qed.

(** ** Passing over two images *)

Lemma aset_same l i : 0 <= i < alen l -> aset l i (lget l i) = Some l.
Proof.
  intros Hi. rewrite aset_Some by done. f_equal. apply list_insert_id. pose proof (aget_lget l i Hi) as E.
  unfold aget in E. by destruct (in_array l i).
Qed.

(** The rows of the image are in the memory and do not overlap. *)
Record view (mem : list Z) (image : Image) : Prop := {
  view_rows : 1 <= rows_ image;
  view_columns : 1 <= columns_ image <= step_ image;
  view_memory : in_memory mem image;
}.

(** [mem'] is [mem] with the values [new] in the pixels of the image. *)
Record repainted (mem : list Z) (image : Image) (new : Z * Z -> Z) (mem' : list Z) : Prop := {
  rp_len : alen mem' = alen mem;
  rp_pixel : forall p, inside (rows_ image) (columns_ image) p -> pixel mem' image p = new p;
  rp_other : forall i, (forall p, inside (rows_ image) (columns_ image) p -> address image p <> i) -> lget mem' i = lget mem i;
}.

Lemma address_inj mem image p q :
  view mem image -> inside (rows_ image) (columns_ image) p -> inside (rows_ image) (columns_ image) q ->
  address image p = address image q -> p = q.
Proof.
  intros V [Hpr Hpc] [Hqr Hqc] E. pose proof (view_columns _ _ V). destruct p as [r c], q as [r' c']. unfold address, row in E. cbn in *.
  destruct (index_inj (step_ image) c r c' r') as [-> ->]; [lia|lia|lia|done].
Qed.

Lemma convert_spec image mem converter new :
  view mem image ->
  (forall p m, inside (rows_ image) (columns_ image) p -> alen m = alen mem -> pixel m image p = pixel mem image p ->
     converter (idx (columns_ image) p) (address image p) m = aset m (address image p) (new p)) ->
  exists mem', convert (mkImage (rows_ image) (columns_ image) 0 (columns_ image)) image converter mem = Some (Done mem') /\
    repainted mem image new mem'.
Proof.
  intros V Hconv. unfold convert. cbn [rows_ columns_]. rewrite !Z.eqb_refl. cbn [negb orb].
  set (R := rows_ image) in *. set (C := columns_ image) in *. pose proof (view_rows _ _ V) as HR. pose proof (view_columns _ _ V) as HC. fold R in HR. fold C in HC.
  set (P := fun n m => alen m = alen mem /\ (forall p, inside R C p -> pixel m image p = if idx C p <? n then new p else pixel mem image p) /\
    (forall i, (forall p, inside R C p -> address image p <> i) -> lget m i = lget mem i)).
  assert (Hstep : forall p m, inside R C p -> P (idx C p) m -> exists m', converter (idx C p) (address image p) m = Some m' /\ P (idx C p + 1) m').
  { intros p m Hp (Hl & Hpix & Hoth). pose proof (Hpix p Hp) as Ep. rewrite Z.ltb_irrefl in Ep. rewrite Hconv by done.
    pose proof (view_memory _ _ V p Hp) as Hm. rewrite aset_Some by lia. eexists. split; [done|].
    pose proof (aset_Some m (address image p) (new p) ltac:(lia)) as E. split; [by rewrite (aset_len _ _ _ _ E)|]. split.
    - intros q Hq. unfold pixel. rewrite (lget_aset _ _ _ _ _ E). destruct (Z.eqb_spec (address image p) (address image q)) as [Ea|Hne].
      + rewrite <- (address_inj mem image p q V Hp Hq Ea). by rewrite (proj2 (Z.ltb_lt _ _)) by lia.
      + fold (pixel m image q). rewrite Hpix by done. assert (idx C q <> idx C p) by (intros Ei; apply Hne; f_equal; symmetry; eapply idx_inj; [..|exact Ei]; done || lia).
        destruct (Z.ltb_spec (idx C q) (idx C p)), (Z.ltb_spec (idx C q) (idx C p + 1)); done || lia.
    - intros i Hi. rewrite (lget_aset _ _ _ _ _ E). by rewrite (proj2 (Z.eqb_neq _ _)), Hoth by auto. }
  destruct (for_range_inv (fun r => P (r * C)) (fun r => for_range 0 C (fun c => converter (row (mkImage R C 0 C) r + c) (row image r + c))) 0 R mem)
    as (m' & -> & Hl & Hpix & Hoth); [lia| | |].
  - split; [done|]. split; [|done]. intros p [Hr Hc]. unfold idx. by rewrite (proj2 (Z.ltb_ge _ _)) by nia.
  - intros r m Hr Hm. rewrite Z.mul_add_distr_r, Z.mul_1_l. apply (for_range_inv (fun c => P (r * C + c))); [lia|by rewrite Z.add_0_r|].
    intros c m1 Hc Hm1. rewrite Z.add_assoc. apply (Hstep (r, c)); [unfold inside; cbn; lia|done].
  - mred. exists m'. split; [done|]. split; [done| |done]. intros p Hp. rewrite Hpix by done. pose proof (idx_range R C (proj1 HC) p Hp).
    by rewrite (proj2 (Z.ltb_lt _ _)) by lia.
Qed.

(** ** The histogram *)

(** The pixels with the value [v] among the first [n]. *)
Definition with_value (L : list Z) (n v : Z) : list Z := filter (fun i => lget L i = v) (seqZ 0 n).

Lemma with_value_step L n v : 0 <= n -> alen (with_value L (n + 1) v) = alen (with_value L n v) + (if lget L n =? v then 1 else 0).
Proof.
  intros Hn. unfold with_value, alen. rewrite seqZ_app, filter_app, length_app by lia. rewrite Z.add_0_l, (seqZ_cons n 1), (seqZ_nil (Z.succ n)) by lia.
  rewrite filter_cons. case_decide; destruct (Z.eqb_spec (lget L n) v); try done; cbn; lia.
Qed.

Lemma histogram_spec R C L image_max bin_max :
  1 <= R -> 1 <= C -> alen L = R * C -> (forall i, 0 <= i < R * C -> 0 <= lget L i <= image_max) -> 0 <= bin_max < 2 ^ 64 - 1 ->
  exists bins, histogram L (mkImage R C 0 C) image_max bin_max = Some bins /\ alen bins = image_max + 1 /\
    forall v, 0 <= v <= image_max -> lget bins v = Z.min (alen (with_value L (R * C) v)) bin_max.
Proof.
  intros HR HC HL Hrange Hbin. unfold histogram, image_empty. cbn [rows_ columns_].
  rewrite (proj2 (Z.eqb_neq R 0)), (proj2 (Z.eqb_neq C 0)) by lia. cbn [orb].
  pose proof (Hrange 0 ltac:(nia)) as H0.
  apply (forEach_dense R C ltac:(lia) ltac:(lia) (fun n bins => alen bins = image_max + 1 /\
    forall v, 0 <= v <= image_max -> lget bins v = Z.min (alen (with_value L n v)) bin_max)).
  - split; [apply alen_anew; lia|]. intros v Hv. unfold lget, with_value. rewrite aget_anew, seqZ_nil by lia. rewrite filter_nil. change (alen (@nil Z)) with 0. cbn [default]. unfold id. lia.
  - intros p bins Hp [Hl Hb]. pose proof (Hrange p Hp) as Hv. rewrite aget_lget by lia. mred. rewrite aget_lget by lia. mred.
    set (x := lget L p) in *. pose proof (Hb x Hv) as Hx. unfold u64. rewrite Z.mod_small by (unfold alen in Hx; lia). rewrite aset_Some by lia.
    eexists. split; [done|]. pose proof (aset_Some bins x (Z.min (lget bins x + 1) bin_max) ltac:(lia)) as E.
    split; [by rewrite (aset_len _ _ _ _ E)|]. intros v Hv'. rewrite (lget_aset _ _ _ _ v E), with_value_step by lia. fold x.
    destruct (Z.eqb_spec x v) as [<-|]; [lia|]. rewrite Hb by done. lia.
Qed.

(** ** What removal means *)

Section removal.
Context (image : Image) (is_bg : Z -> bool) (Hbg : is_bg 0 = true) (connectivity : ConnectivityType) (mem : list Z).

Let R : Z := rows_ image.
Let C : Z := columns_ image.
Let obs : Z * Z -> Prop := obstacle R C (pixel mem image) is_bg.
Let con : Z * Z -> Z * Z -> Prop := connected R C (pixel mem image) is_bg connectivity.

(** The group of the obstacle [p] has fewer than [k] pixels. *)
Definition small_group (k : Z) (p : Z * Z) : Prop := exists l, (forall q, con p q -> q ∈ l) /\ alen l < k.

(** The obstacles of the groups of fewer than [k] pixels are freed, and no
    other cell of the memory changes. *)
Record cleaned (k : Z) (mem' : list Z) : Prop := {
  cl_len : alen mem' = alen mem;
  cl_freed : forall p, obs p -> small_group k p -> pixel mem' image p = 0;
  cl_kept : forall p, inside R C p -> ~ (obs p /\ small_group k p) -> pixel mem' image p = pixel mem image p;
  cl_other : forall i, (forall p, inside R C p -> address image p <> i) -> lget mem' i = lget mem i;
}.

Lemma cleaned_unique k m1 m2 : view mem image -> cleaned k m1 -> cleaned k m2 -> m1 = m2.
Proof.
  intros V [Hl1 Hf1 Hk1 Ho1] [Hl2 Hf2 Hk2 Ho2]. apply aget_ext; [lia|]. intros i Hi. rewrite !aget_lget by lia. f_equal.
  destruct (decide (lget m1 i = lget m2 i)) as [|Hne]; [done|exfalso].
  assert (Hno : ~ forall p, inside R C p -> address image p <> i) by (intros Hno; apply Hne; by rewrite Ho1, Ho2).
  apply Hno. intros p Hp <-. apply Hno. intros q Hq Ea. apply Hne. fold (pixel m1 image p) (pixel m2 image p).
  assert (Hns : ~ (obs p /\ small_group k p)) by (intros [Op Sp]; apply Hne; fold (pixel m1 image p) (pixel m2 image p); by rewrite Hf1, Hf2).
  by rewrite Hk1, Hk2.
Qed.

(** A pixel alone is a group of one. *)
Lemma small_group_single p : obs p -> small_group 2 p <-> forall q, adjacent connectivity p q -> ~ obs q.
Proof.
  intros Op. split.
  - intros (l & Hl & Hlen) q A Oq. assert (Hne : p <> q) by (intros <-; by apply (adjacent_irrefl connectivity p)).
    assert (Hp : p ∈ l) by (apply Hl; apply rtc_refl). assert (Hq : q ∈ l) by (apply Hl; apply rtc_once; by split).
    unfold alen in Hlen. destruct l as [|x [|y l]]; [by apply elem_of_nil in Hp| |cbn in Hlen; lia].
    apply list_elem_of_singleton in Hp as ->. by apply list_elem_of_singleton in Hq as ->.
  - intros Hno. exists [p]. split; [|done]. intros q Hq. apply list_elem_of_singleton.
    destruct Hq as [|x y z (Ox & Oy & A) _]; [done|by destruct (Hno y A)].
Qed.

(** No group has fewer than one pixel. *)
Lemma small_group_none k p : k <= 1 -> ~ small_group k p.
Proof.
  intros Hk (l & Hl & Hlen). assert (Hp : p ∈ l) by (apply Hl; apply rtc_refl).
  unfold alen in Hlen. destruct l; [by apply elem_of_nil in Hp|cbn in Hlen; lia].
Qed.

Lemma cleaned_none k : k <= 1 -> cleaned k mem.
Proof. intros Hk. split; try done. intros p _ Hs. by apply (small_group_none k p) in Hs. Qed.

(** Counting the pixels with the label of [p]. *)
Lemma small_group_count L n k p :
  1 <= C -> labelling R C (pixel mem image) is_bg connectivity L n -> obs p ->
  small_group k p <-> alen (with_value L (R * C) (lab C L p)) < k.
Proof.
  intros HC B Op. set (cells := with_value L (R * C) (lab C L p)).
  set (at_ := fun i => (i / C, i mod C)).
  assert (Hat : forall q, inside R C q -> at_ (idx C q) = q).
  { intros [r c] [Hr Hc]. unfold at_, idx. cbn in *. by rewrite index_div, index_mod by lia. }
  assert (Hin : forall q, q ∈ at_ <$> cells <-> con p q).
  { intros q. rewrite list_elem_of_fmap. unfold cells, with_value. split.
    - intros (i & -> & [Ei Hi]%list_elem_of_filter). apply elem_of_seqZ in Hi.
      destruct (idx_onto R C ltac:(nia) HC i ltac:(lia)) as (q & Hq & <-). rewrite Hat by done.
      apply (lb_connected _ _ _ _ _ _ _ B); [done| |done]. destruct (decide (obstacle R C (pixel mem image) is_bg q)) as [|Hn]; [done|].
      apply (lb_background _ _ _ _ _ _ _ B q Hq) in Hn. change (lget L (idx C q)) with (lab C L q) in Ei.
      pose proof (proj1 (lb_background _ _ _ _ _ _ _ B p (proj1 Op)) ltac:(congruence)). done.
    - intros Hq. assert (Oq : obs q).
      { destruct Hq as [|x y z (Ox & Oy & A) Hr]; [done|]. clear -Hr Oy. induction Hr as [|a b d (Oa & Ob & _) _ IH]; auto. }
      exists (idx C q). split; [by rewrite Hat by apply Oq|]. apply list_elem_of_filter. split.
      + symmetry. by apply (lb_connected _ _ _ _ _ _ _ B).
      + apply elem_of_seqZ. pose proof (idx_range R C HC q (proj1 Oq)). lia. }
  assert (Hlen : alen (at_ <$> cells) = alen cells) by (unfold alen; by rewrite length_fmap). split.
  - intros (l & Hl & Hk). assert (Hsub : at_ <$> cells ⊆+ l).
    { apply NoDup_submseteq; [|intros q Hq; by apply Hl, Hin]. apply NoDup_fmap_2_strong; [|by apply NoDup_filter, NoDup_seqZ].
      intros i j Hi Hj E. unfold at_ in E. injection E as E1 E2. rewrite (Z.div_mod i C), (Z.div_mod j C) by lia. congruence. }
    apply submseteq_length in Hsub. unfold alen in *. lia.
  - intros Hk. exists (at_ <$> cells). split; [intros q Hq; by apply Hin|lia].
Qed.
End removal.

(** ** Removal by segmentation *)

Lemma half_product R C : 2 <= R -> 2 <= C -> half R * half C <= R * C / 3 + 1.
Proof.
  intros HR HC. unfold half. apply Z.le_sub_le_add_r, Z.div_le_lower_bound; [lia|].
  set (a := (R + 1) / 2). set (b := (C + 1) / 2).
  assert (Ha : 2 * a <= R + 1 /\ 1 <= a) by (subst a; Z.div_mod_to_equations; lia). assert (Hb : 2 * b <= C + 1 /\ 1 <= b) by (subst b; Z.div_mod_to_equations; lia).
  clearbody a b. destruct (decide (a = 1)) as [->|]; [nia|]. destruct (decide (b = 1)) as [->|]; [nia|].
  assert (0 <= (a - 2) * (b - 2)) by nia. assert ((2 * a - 1) * (2 * b - 1) <= R * C) by nia. lia.
Qed.

Section segmentation.
Context (past_end : list Z -> Z -> option Z) (Hpast : keeps_elements past_end) (junk : Z -> Z).
Context (is_bg : Z -> bool) (Hbg : is_bg 0 = true) (connectivity : ConnectivityType).
Context (image : Image) (mem : list Z) (V : view mem image) (Hsmall : rows_ image * columns_ image < 2 ^ 32).
Context (k : Z) (Hk : 0 <= k < 2 ^ 32).

Let R : Z := rows_ image.
Let C : Z := columns_ image.

(** The labels may run out. *)
Definition short (label_max : Z) : Prop := Z.min (maxLabels label_max R C connectivity) label_max <= blocks R C connectivity.

Lemma removeGroupsImpl_ends label_max :
  1 <= label_max ->
  ends (short label_max) (cleaned image is_bg connectivity mem k)
    (removeGroupsImpl past_end junk label_max is_bg connectivity image k mem).
Proof.
  intros Hm. pose proof (view_rows _ _ V) as HR. pose proof (view_columns _ _ V) as HC. unfold removeGroupsImpl.
  eapply ends_bind.
  { apply (connectedComponents_ends label_max Hm is_bg Hbg past_end Hpast connectivity mem image HR (proj1 HC)); [lia|apply V]. }
  intros [[L labels] n] (El & B & Hn). cbn [fst snd] in El, B, Hn. subst labels. fold R C in B.
  assert (Hn1 : 1 <= n).
  { pose proof (lb_range _ _ _ _ _ _ _ B (0, 0)) as H. assert (Hin : inside R C (0, 0)) by (unfold inside; cbn; lia). specialize (H Hin). lia. }
  assert (Hidx : forall i, 0 <= i < R * C -> 0 <= lget L i <= n - 1).
  { intros i Hi. destruct (idx_onto R C HR (proj1 HC) i Hi) as (p & Hp & <-). pose proof (lb_range _ _ _ _ _ _ _ B p Hp). unfold lab in *. lia. }
  unfold label. rewrite Z.mod_small by lia. unfold u64. rewrite Z.mod_small by lia.
  destruct (histogram_spec R C L (n - 1) (k + 1) HR (proj1 HC) (lb_len _ _ _ _ _ _ _ B) Hidx ltac:(lia)) as (bins & Eb & Hlb & Hbins).
  fold R C. rewrite Eb. mred. rewrite aset_Some by lia. mred. set (bins' := <[_ := _]> bins).
  assert (E0 : aset bins 0 0 = Some bins') by (apply aset_Some; lia).
  assert (Hnoise : forall v, 0 <= v < n -> aget (is_noise k <$> bins') v = Some (if v =? 0 then is_noise k 0 else bool_decide (alen (with_value L (R * C) v) < k))).
  { intros v Hv. pose proof (aset_len _ _ _ _ E0) as Hl. rewrite aget_fmap, aget_lget by lia. cbn. f_equal.
    rewrite (lget_aset _ _ _ _ v E0), (Z.eqb_sym 0 v). destruct (Z.eqb_spec v 0); [done|]. rewrite Hbins by lia. unfold is_noise.
    case_bool_decide; [apply Z.ltb_lt|apply Z.ltb_ge]; lia. }
  destruct (convert_spec image mem (clean is_bg L (is_noise k <$> bins'))
    (fun p => if decide (obstacle R C (pixel mem image) is_bg p /\ alen (with_value L (R * C) (lab C L p)) < k) then 0 else pixel mem image p) V)
    as (mem' & Em & [Hl Hp Ho]).
  - intros p m Hp Hl Epix. fold R C in Hp |- *. unfold clean. pose proof (idx_range R C (proj1 HC) p Hp) as Hi. pose proof (view_memory _ _ V p Hp) as Ha.
    assert (Hsame : aset m (address image p) (pixel mem image p) = Some m) by (rewrite <- Epix; apply aset_same; lia).
    rewrite (aget_lget L) by (rewrite (lb_len _ _ _ _ _ _ _ B); lia). mred. rewrite aget_lget by lia. mred.
    fold (pixel m image p). rewrite Epix. fold (lab C L p). pose proof (lb_background _ _ _ _ _ _ _ B p Hp) as Hb.
    destruct (is_bg (pixel mem image p)) eqn:Eq.
    { rewrite decide_False by (intros [[_ Hx] _]; congruence). done. }
    assert (Op : obstacle R C (pixel mem image) is_bg p) by done. pose proof (lb_range _ _ _ _ _ _ _ B p Hp) as Hr.
    rewrite Hnoise by lia. mred. rewrite (proj2 (Z.eqb_neq _ _)) by (intros Ez; by apply Hb in Ez). case_bool_decide.
    + by rewrite decide_True.
    + by rewrite decide_False by tauto.
  - fold R C in Em. rewrite Em. cbn. fold R C in Hp, Ho. split; [done| | |done].
    + intros p Op Sp. rewrite Hp by apply Op. rewrite decide_True; [done|]. split; [done|]. by apply (small_group_count image is_bg connectivity mem L n k p (proj1 HC) B Op).
    + intros p Hin Hns. rewrite Hp by done. rewrite decide_False; [done|]. intros [Op Hlt]. apply Hns. split; [done|]. by apply (small_group_count image is_bg connectivity mem L n k p (proj1 HC) B Op).
Qed.
(** Enough labels: images of two rows and columns at least, or in which only
    sides connect. *)
Lemma not_short label_max :
  connectivity = Way4 \/ 2 <= R /\ 2 <= C -> R * C <= 2 * label_max - 3 -> ~ short label_max.
Proof using V Hsmall.
  clear k Hk junk. intros Hc Hl. pose proof (view_rows _ _ V) as HR. pose proof (view_columns _ _ V) as HC. fold R in HR. fold C in HC. unfold short. unfold R, C at 1.
  rewrite (maxLabels_eq label_max connectivity image HR (proj1 HC)) by (fold R C; lia). fold R C. unfold blocks, half. destruct connectivity.
  - Z.div_mod_to_equations; lia.
  - destruct Hc as [|[HR2 HC2]]; [done|]. pose proof (half_product R C HR2 HC2). unfold half in *.
    assert (R * C / 3 <= R * C / 2) by (Z.div_mod_to_equations; lia). Z.div_mod_to_equations; lia.
Qed.

(** Whatever the label trees in store: the image is cleaned, or the 32-bit
    labels did not suffice either. *)
Lemma GroupsRemover_ends wide :
  exists wide' r, GroupsRemover_removeGroups past_end junk is_bg connectivity image k wide mem = Some (wide', r) /\
    ends (short label_max32) (cleaned image is_bg connectivity mem k) (Some r).
Proof.
  assert (H32 : exists r, tryRemoveGroupsWithLabelType past_end junk label_max32 is_bg connectivity image k true mem = Some r /\
    ends (short label_max32) (fun r => cleaned image is_bg connectivity mem k r.2) (Some r)).
  { unfold tryRemoveGroupsWithLabelType. pose proof (removeGroupsImpl_ends label_max32 ltac:(unfold label_max32; lia)) as E.
    destruct (removeGroupsImpl _ _ _ _ _ _ _ _) as [[m| |]|]; cbn in E |- *; try done; by eexists. }
  assert (H16 : exists r, tryRemoveGroupsWithLabelType past_end junk label_max16 is_bg connectivity image k false mem = Some (Done r) /\
    if r.1 then cleaned image is_bg connectivity mem k r.2 else r.2 = mem).
  { unfold tryRemoveGroupsWithLabelType. pose proof (removeGroupsImpl_ends label_max16 ltac:(unfold label_max16; lia)) as E.
    destruct (removeGroupsImpl _ _ _ _ _ _ _ _) as [[m| |]|]; cbn in E |- *; try done; by eexists. }
  assert (H : exists wide' r, removeGroupsPickLabelType past_end junk is_bg connectivity image k wide mem = Some (wide', r) /\
    ends (short label_max32) (cleaned image is_bg connectivity mem k) (Some r)).
  { unfold removeGroupsPickLabelType. destruct H32 as (r32 & E32 & H32).
    destruct wide; cbn [negb]; mred; [rewrite E32; mred; destruct r32 as [[? ?]| |]; do 2 eexists; (split; [reflexivity|exact H32])|].
    destruct H16 as ([ok m] & -> & H16). mred. destruct ok; [do 2 eexists; split; [reflexivity|exact H16]|].
    cbn in H16. subst m. rewrite E32. mred. destruct r32 as [[? ?]| |]; do 2 eexists; (split; [reflexivity|exact H32]). }
  unfold GroupsRemover_removeGroups. by destruct connectivity.
Qed.
End segmentation.

(** ** Dilation *)

Section dilation.
Context (image : Image) (mem : list Z) (V : view mem image).

Let R : Z := rows_ image.
Let C : Z := columns_ image.
Let output : Image := mkImage R C 0 C.

(** A pixel under a cell [s] of a shape; 0 outside the image. *)
Definition masked (p : Z * Z) (s : Z) : Z := if decide (inside R C p) then Z.land (pixel mem image p) s else 0.

(** The shape row [s0 s1 s2] centered on the pixel [p]. *)
Definition overlay (s0 s1 s2 : Z) (p : Z * Z) : Z * Z * Z := (masked (p.1, p.2 - 1) s0, masked p s1, masked (p.1, p.2 + 1) s2).

Lemma masked_read sh i s q p :
  inside R C p -> q = address image p -> aget sh i = Some s -> read_masked mem sh q i = Some (masked p s).
Proof.
  intros Hp -> Es. unfold read_masked. rewrite aget_lget by (by apply V). mred. unfold masked, apply_shape. rewrite Es. mred. by rewrite decide_True.
Qed.

Section rows_of_shape.
Context (fi fo s0 s1 s2 : Z) (touch_fn : pixel_touch) (out : list Z).
Context (Hfi : 0 <= fi) (Hfo : 0 <= fo) (Hrows : Z.max fi fo < R) (Hout : alen out = R * C).

Let rows : Z := R - Z.max fi fo.
Let sh : list Z := [s0; s1; s2].

(** The new value of the pixel [p] of the output, a row of the shape applied. *)
Definition touched (p : Z * Z) : Z := touch_fn (lget out (idx C p)) (overlay s0 s1 s2 (p.1 - fo + fi, p.2)).

(** The pixels touched before the cell [n] of the output. *)
Definition probed (n : Z) (o : list Z) : Prop :=
  alen o = R * C /\ forall p, inside R C p ->
    lget o (idx C p) = if decide (fo <= p.1 < fo + rows /\ idx C p < n) then touched p else lget out (idx C p).

Lemma probe_store i c o ov p :
  0 <= i < rows -> 0 <= c < C -> p = (i + fo) * C + c -> ov = overlay s0 s1 s2 (i + fi, c) -> probed p o ->
  exists o', touch_pixel touch_fn p ov o = Some o' /\ probed (p + 1) o'.
Proof.
  intros Hi Hc Ep -> [Hl Hg]. assert (Hin : inside R C (i + fo, c)) by (unfold inside; cbn; lia). unfold touch_pixel.
  pose proof (idx_range R C (proj1 (view_columns _ _ V)) _ Hin) as Hx. assert (Ei : idx C (i + fo, c) = p) by (unfold idx; cbn; lia).
  assert (Eo : lget o p = lget out p).
  { rewrite <- Ei, Hg by done. rewrite decide_False; [done|]. intros [_ ?]. lia. }
  rewrite aget_lget by lia. mred. rewrite aset_Some by lia. eexists. split; [done|].
  pose proof (aset_Some o p (touch_fn (lget o p) (overlay s0 s1 s2 (i + fi, c))) ltac:(lia)) as E. split; [by rewrite (aset_len _ _ _ _ E)|].
  intros q Hq. rewrite (lget_aset _ _ _ _ _ E). destruct (Z.eqb_spec p (idx C q)) as [Eq|Hne].
  - rewrite (idx_inj R C q (i + fo, c) Hq Hin) by lia. cbn. rewrite decide_True by lia. unfold touched. rewrite Ei, Eo. cbn.
    by replace (i + fo - fo + fi) with (i + fi) by lia.
  - rewrite Hg by done. destruct (decide (fo <= q.1 < fo + rows /\ idx C q < p)), (decide (fo <= q.1 < fo + rows /\ idx C q < p + 1)); done || lia.
Qed.

Lemma probe_read i c k s q :
  0 <= i < rows -> 0 <= c < C -> aget sh k = Some s -> q = row image (i + fi) + c -> read_masked mem sh q k = Some (masked (i + fi, c) s).
Proof. intros Hi Hc Hk ->. apply masked_read; [unfold inside; cbn; lia|done|done]. Qed.

Lemma masked_left i s : masked (i, -1) s = 0.
Proof. unfold masked. rewrite decide_False; [done|]. unfold inside. cbn. lia. Qed.

Lemma masked_right i s : masked (i, C) s = 0.
Proof. unfold masked. rewrite decide_False; [done|]. unfold inside. cbn. lia. Qed.

Lemma probe_row_spec i o :
  C <> 1 -> 0 <= i < rows -> probed ((i + fo) * C) o ->
  exists o', probe_row mem image sh touch_fn (row image (i + fi)) (row output (i + fo)) o = Some o' /\ probed ((i + fo + 1) * C) o'.
Proof.
  intros HC1 Hi Ho. pose proof (view_columns _ _ V) as HC. fold C in HC. unfold probe_row. fold C.
  replace (row output (i + fo)) with ((i + fo) * C) by (unfold row, output; cbn; lia).
  rewrite (probe_read i 0 1 s1 (row image (i + fi))) by (done || lia). mred.
  rewrite (probe_read i 1 2 s2 (row image (i + fi) + 1)) by (done || lia). mred.
  destruct (probe_store i 0 o (0, masked (i + fi, 0) s1, masked (i + fi, 1) s2) ((i + fo) * C) Hi ltac:(lia) ltac:(lia)) as (o1 & E & Ho1); [|done|].
  { unfold overlay. cbn. by rewrite masked_left. }
  rewrite E. mred. clear E Ho o.
  match goal with |- context [for_range 1 (C - 1) ?body o1] =>
    destruct (for_range_inv (fun c => probed ((i + fo) * C + c)) body 1 (C - 1) o1 ltac:(lia) Ho1) as (o2 & E & Ho2) end.
  { intros c o Hc Ho. rewrite (probe_read i (c - 1) 0 s0 (row image (i + fi) + c - 1)) by (done || lia). mred.
    rewrite (probe_read i c 1 s1 (row image (i + fi) + c)) by (done || lia). mred.
    rewrite (probe_read i (c + 1) 2 s2 (row image (i + fi) + c + 1)) by (done || lia). mred. rewrite Z.add_assoc.
    by apply (probe_store i c); [|lia..| |]. }
  rewrite E. mred. clear E.
  rewrite (probe_read i (C - 1 - 1) 0 s0) by (done || lia). mred. rewrite (probe_read i (C - 1) 1 s1) by (done || lia). mred.
  replace ((i + fo + 1) * C) with ((i + fo) * C + (C - 1) + 1) by lia. apply (probe_store i (C - 1)); [done|lia..| |done].
  unfold overlay. cbn. replace (C - 1 + 1) with C by lia. by rewrite masked_right.
Qed.

(** [probeRows] touches the rows from [fo] on. *)
Lemma probeRows_spec :
  R < 2 ^ 64 ->
  exists out', probeRows mem image output fi fo sh touch_fn out = Some out' /\ alen out' = R * C /\
    forall p, inside R C p -> lget out' (idx C p) = if decide (fo <= p.1 < fo + rows) then touched p else lget out (idx C p).
Proof.
  intros Hbig. pose proof (view_columns _ _ V) as HC. fold C in HC.
  assert (H0 : probed ((0 + fo) * C) out).
  { split; [done|]. intros p [Hr Hc]. rewrite decide_False; [done|]. unfold idx. nia. }
  assert (Hend : forall m, (exists o, m = Some o /\ probed ((rows + fo) * C) o) -> exists o, m = Some o /\ alen o = R * C /\
    forall p, inside R C p -> lget o (idx C p) = if decide (fo <= p.1 < fo + rows) then touched p else lget out (idx C p)).
  { intros m (o & -> & Hl & Hg). exists o. split; [done|]. split; [done|]. intros p Hp. rewrite Hg by done. destruct Hp as [Hr Hc].
    assert (p.1 < fo + rows -> idx C p < (rows + fo) * C) by (unfold idx; nia).
    destruct (decide (fo <= p.1 < fo + rows /\ _)), (decide (fo <= p.1 < fo + rows)); done || lia. }
  apply Hend. unfold probeRows. fold R C. unfold u64. rewrite Z.mod_small by lia. fold rows.
  destruct (Z.eqb_spec C 1) as [EC|HC1]; apply (for_range_inv (fun i => probed ((i + fo) * C))); try done; try lia; intros i o Hi Ho.
  - rewrite (probe_read i 0 1 s1) by (done || lia). mred. replace ((i + 1 + fo) * C) with ((i + fo) * C + 1) by lia.
    replace (row output (i + fo)) with ((i + fo) * C) by (unfold row, output; cbn; lia). apply (probe_store i 0); [done|lia..| |done].
    unfold overlay. cbn. rewrite masked_left. replace 1 with C by lia. by rewrite masked_right.
  - replace (i + 1 + fo) with (i + fo + 1) by lia. by apply probe_row_spec.
Qed.
End rows_of_shape.

(** A maximum, seen through [is_bg]. *)
Context (is_bg : Z -> bool) (Hbg : is_bg 0 = true) (aggregate : Z * Z * Z -> Z).
Context (Hagg : forall a b c, is_u8 a -> is_u8 b -> is_u8 c ->
  is_u8 (aggregate (a, b, c)) /\ is_bg (aggregate (a, b, c)) = is_bg a && is_bg b && is_bg c).
Context (Hbytes : forall i, is_u8 (lget mem i)) (connectivity : ConnectivityType).

Let obs : Z * Z -> Prop := obstacle R C (pixel mem image) is_bg.

(** A cell [s] of a shape finds no obstacle in the pixel [p]. *)
Definition free (s : Z) (p : Z * Z) : bool := negb ((s =? 255) && bool_decide (obs p)).

Definition free_row (s0 s1 s2 : Z) (r c : Z) : bool := free s0 (r, c - 1) && free s1 (r, c) && free s2 (r, c + 1).

Definition mask_byte (s : Z) : Prop := s = 0 \/ s = 255.

Lemma free_spec s p : free s p = true <-> (s = 255 -> ~ obs p).
Proof.
  unfold free. rewrite negb_true_iff, andb_false_iff. rewrite Z.eqb_neq, bool_decide_eq_false.
  destruct (decide (s = 255)); tauto.
Qed.

Lemma masked_free s p : mask_byte s -> is_u8 (masked p s) /\ is_bg (masked p s) = free s p.
Proof.
  intros Hs. unfold masked, free, obs, obstacle. pose proof (Hbytes (address image p)) as Hb. fold (pixel mem image p) in Hb.
  destruct (decide (inside R C p)) as [Hp|Hp]; [|].
  - destruct Hs as [->| ->]; [rewrite Z.land_0_r; cbn; split; [by unfold is_u8|done]|].
    change 255 with (Z.ones 8) at 1 2. rewrite Z.land_ones, Z.mod_small by (exact Hb || lia). split; [done|]. cbn.
    case_bool_decide as Ho; [by rewrite (proj2 Ho)|]. destruct (is_bg (pixel mem image p)) eqn:E; [done|]. by destruct Ho.
  - rewrite bool_decide_eq_false_2 by (intros [? _]; done). rewrite andb_false_r, Hbg. by split.
Qed.

(** The rows of the shape over a pixel. *)
Lemma overlay_free s0 s1 s2 p :
  mask_byte s0 -> mask_byte s1 -> mask_byte s2 ->
  is_u8 (aggregate (overlay s0 s1 s2 p)) /\ is_bg (aggregate (overlay s0 s1 s2 p)) = free_row s0 s1 s2 p.1 p.2.
Proof.
  intros H0 H1 H2. unfold overlay, free_row. destruct p as [r c]. cbn [fst snd].
  destruct (masked_free s0 (r, c - 1) H0) as [B0 <-], (masked_free s1 (r, c) H1) as [B1 <-], (masked_free s2 (r, c + 1) H2) as [B2 <-].
  by apply Hagg.
Qed.

Lemma free_row_outside s0 s1 s2 r c : ~ 0 <= r < R -> free_row s0 s1 s2 r c = true.
Proof.
  intros Hr. unfold free_row. rewrite !andb_true_iff, !free_spec. split_and!; intros _ [[? _] _]; cbn in *; lia.
Qed.

(** The output after some rows of the shape, those of [done_]. *)
Definition dilated (done_ : Z -> Z -> bool) (out : list Z) : Prop :=
  alen out = R * C /\ forall p, inside R C p -> is_u8 (lget out (idx C p)) /\ is_bg (lget out (idx C p)) = done_ p.1 p.2.

(** A row of the shape other than the central one. *)
Lemma update_spec done_ fi fo s0 s1 s2 out :
  R < 2 ^ 64 -> 1 < R -> (fi = 0 /\ fo = 1 \/ fi = 1 /\ fo = 0) -> mask_byte s0 -> mask_byte s1 -> mask_byte s2 -> dilated done_ out ->
  exists out', probeRows mem image output fi fo [s0; s1; s2] (fun res lst => aggregate (res, aggregate lst, 0)) out = Some out' /\
    dilated (fun r c => done_ r c && free_row s0 s1 s2 (r - fo + fi) c) out'.
Proof.
  intros Hbig HR Hf H0 H1 H2 [Hl Hd].
  destruct (probeRows_spec fi fo s0 s1 s2 (fun res lst => aggregate (res, aggregate lst, 0)) out) as (out' & E & Hl' & Hout); [lia..|done|].
  exists out'. split; [exact E|]. split; [done|]. intros p Hp. rewrite Hout by done. unfold touched. destruct (Hd p Hp) as [Bp Ep].
  destruct (decide (fo <= p.1 < fo + (R - Z.max fi fo))) as [Hin|Hno].
  - destruct (overlay_free s0 s1 s2 (p.1 - fo + fi, p.2) H0 H1 H2) as [Bo Eo].
    destruct (Hagg _ _ 0 Bp Bo ltac:(by unfold is_u8)) as [Ba Ea]. split; [done|]. rewrite Ea, Ep, Eo, Hbg. cbn. by rewrite andb_true_r.
  - split; [done|]. rewrite Ep. destruct Hp as [Hr Hc]. rewrite free_row_outside by lia. by rewrite andb_true_r.
Qed.

(** The rows of the shapes. *)
Lemma createShape_rows : exists a0 a1 b0, createShape connectivity = ([a0; a1; a0], [b0; 0; b0], [a0; a1; a0]) /\
  mask_byte a0 /\ a1 = 255 /\ b0 = 255 /\ (a0 = 255 <-> connectivity = Way8).
Proof. unfold mask_byte. destruct connectivity; cbn; do 3 eexists; (split; [reflexivity|]); split_and!; auto; done. Qed.

(** No obstacle in a cell of the shape: none next to the pixel. *)
Lemma free_neighbors a0 p :
  mask_byte a0 -> (a0 = 255 <-> connectivity = Way8) -> inside R C p ->
  free_row 255 0 255 p.1 p.2 && free_row a0 255 a0 (p.1 - 1) p.2 && free_row a0 255 a0 (p.1 + 1) p.2 = true <->
  forall q, adjacent connectivity p q -> ~ obs q.
Proof.
  intros Ha Hw Hp. destruct p as [r c]. cbn [fst snd]. unfold free_row. rewrite !andb_true_iff, !free_spec. split.
  - intros H [r' c'] A. destruct H as [[[[M1 _] M2] [[U1 U2] U3]] [[D1 D2] D3]].
    assert (Hk : connectivity = Way4 \/ a0 = 255) by (destruct connectivity; [by left|right; by apply Hw]).
    assert (Hcase : (r' = r - 1 \/ r' = r \/ r' = r + 1) /\ (c' = c - 1 \/ c' = c \/ c' = c + 1) /\ (r' = r /\ c' <> c \/ r' <> r /\ c' = c \/ a0 = 255 /\ r' <> r /\ c' <> c)).
    { destruct Hk as [Hk|Hk]; [rewrite Hk in A; cbn in A; lia|]. destruct connectivity; cbn in A; [lia|]. destruct A as (Hne & A1 & A2).
      assert (r <> r' \/ c <> c') by (destruct (decide (r = r')), (decide (c = c')); subst; auto). lia. }
    destruct Hcase as ([->|[->| ->]] & [->|[->| ->]] & Hcase); try first [by apply M1|by apply M2|by apply U2|by apply D2|exfalso; lia].
    all: assert (E8 : a0 = 255) by lia; auto.
  - intros H. assert (H4 : forall q, Z.abs (r - q.1) + Z.abs (c - q.2) = 1 -> ~ obs q).
    { intros q Hq. apply H. destruct connectivity; cbn; [done|]. split; [|lia]. intros E. subst q. cbn in Hq. lia. }
    assert (H8 : forall q, a0 = 255 -> (r, c) <> q -> Z.abs (r - q.1) <= 1 -> Z.abs (c - q.2) <= 1 -> ~ obs q).
    { intros q E Hne A1 A2. apply H. by rewrite (proj1 Hw E). }
    split_and!; intros E; first [apply H4; cbn; lia|done|apply (H8 _ E); [intros [=]; lia|cbn; lia..]].
Qed.

(** The dilation is background exactly where no neighbour is an obstacle. *)
Lemma dilate_spec out :
  R < 2 ^ 64 -> alen out = R * C ->
  exists out', dilate mem image output connectivity aggregate out = Some (Done out') /\ alen out' = R * C /\
    forall p, inside R C p -> is_bg (lget out' (idx C p)) = true <-> forall q, adjacent connectivity p q -> ~ obs q.
Proof.
  intros Hbig Hout. pose proof (view_rows _ _ V) as HR. pose proof (view_columns _ _ V) as HC. fold R in HR. fold C in HC.
  destruct createShape_rows as (a0 & a1 & b0 & Es & Ha & -> & -> & Hw).
  assert (M0 : mask_byte 0) by by left. assert (M255 : mask_byte 255) by by right.
  enough (E : exists out', dilate mem image output connectivity aggregate out = Some (Done out') /\
    dilated (fun r c => free_row 255 0 255 r c && free_row a0 255 a0 (r - 1) c && free_row a0 255 a0 (r + 1) c) out').
  { destruct E as (out' & E & Hl & Hd). exists out'. split; [done|]. split; [done|]. intros p Hp. destruct (Hd p Hp) as [_ ->]. by apply free_neighbors. }
  unfold dilate, morphologyOperation, image_empty. rewrite Es. unfold output at 1 2 5. cbn [rows_ columns_]. rewrite !Z.eqb_refl. fold R C.
  rewrite (proj2 (Z.eqb_neq R 0)), (proj2 (Z.eqb_neq C 0)) by lia. cbn [negb orb].
  destruct (probeRows_spec 0 0 255 0 255 (fun _ lst => aggregate lst) out) as (o1 & E1 & Hl1 & H1); [lia..|done|]. fold output. rewrite E1. mred.
  assert (D1 : dilated (free_row 255 0 255) o1).
  { split; [done|]. intros p Hp. rewrite H1 by done. destruct Hp as [Hr Hc]. rewrite decide_True by lia. unfold touched.
    replace (p.1 - 0 + 0) with p.1 by lia. by apply (overlay_free 255 0 255 (p.1, p.2)). }
  destruct (Z.ltb_spec 1 R).
  - destruct (update_spec _ 0 1 a0 255 a0 o1 Hbig ltac:(done) ltac:(lia) Ha M255 Ha D1) as (o2 & E2 & D2). rewrite E2. mred.
    destruct (update_spec _ 1 0 a0 255 a0 o2 Hbig ltac:(done) ltac:(lia) Ha M255 Ha D2) as (o3 & E3 & D3). rewrite E3. mred.
    exists o3. split; [done|]. destruct D3 as [Hl3 H3]. split; [done|]. intros p Hp. destruct (H3 p Hp) as [B ->]. split; [done|].
    by replace (p.1 - 1 + 0) with (p.1 - 1) by lia; replace (p.1 - 0 + 1) with (p.1 + 1) by lia.
  - exists o1. split; [done|]. split; [done|]. intros p Hp. destruct (proj2 D1 p Hp) as [B ->]. split; [done|]. destruct Hp as [Hr Hc].
    rewrite (free_row_outside _ _ _ (p.1 - 1)), (free_row_outside _ _ _ (p.1 + 1)) by lia. by rewrite !andb_true_r.
Qed.
End dilation.

(** ** The layer *)

Lemma max_neighbor_laws noi a b c :
  is_u8 a -> is_u8 b -> is_u8 c ->
  is_u8 (max_neighbor noi (a, b, c)) /\
  isBackground noi (max_neighbor noi (a, b, c)) = isBackground noi a && isBackground noi b && isBackground noi c.
Proof.
  assert (Hbg : forall v, is_u8 v -> isBackground noi v = (replace_to_free v <? 253) && (negb noi || (v <? 253))).
  { intros v Hv. unfold isBackground, replace_to_free, LETHAL_OBSTACLE, INSCRIBED_INFLATED_OBSTACLE, NO_INFORMATION, FREE_SPACE. ilia.
    destruct (Z.eqb_spec v 254), (Z.eqb_spec v 253), (Z.eqb_spec v 255); try lia; destruct noi; cbn; try done; subst; try done.
    all: destruct (Z.ltb_spec v 253); done || lia. }
  intros Ha Hb Hc.
  assert (Hr : forall v, is_u8 v -> is_u8 (replace_to_free v) /\ (replace_to_free v = v /\ v <> 255 \/ replace_to_free v = 0 /\ v = 255)).
  { intros v Hv. unfold replace_to_free, NO_INFORMATION, FREE_SPACE, is_u8 in *. destruct (Z.eqb_spec v 255); lia. }
  assert (Hm : is_u8 (max_neighbor noi (a, b, c))).
  { unfold max_neighbor. pose proof (Hr a Ha). pose proof (Hr b Hb). pose proof (Hr c Hc). unfold is_u8 in *. destruct noi; cbn; lia. }
  split; [done|]. rewrite !Hbg by done. unfold max_neighbor in *. pose proof (Hr a Ha). pose proof (Hr b Hb). pose proof (Hr c Hc).
  apply Bool.eq_iff_eq_true. rewrite !andb_true_iff, !orb_true_iff, !Z.ltb_lt. destruct noi; cbn [negb].
  - set (m := Z.max (Z.max a b) c) in *. pose proof (Hr m Hm). split; intros; [split_and!; try (right; lia); lia|split; [lia|right; lia]].
  - set (m := Z.max _ _) in *. pose proof (Hr m Hm). split; intros; [split_and!; try (left; done); lia|split; [lia|by left]].
Qed.

Section layer.
Context (past_end : list Z -> Z -> option Z) (Hpast : keeps_elements past_end) (junk : Z -> Z).

Section image_of_layer.
Context (l : DenoiseLayer) (image : Image) (mem : list Z) (V : view mem image) (Hsmall : rows_ image * columns_ image < 2 ^ 32).
Context (Hbytes : Forall is_u8 mem).

Let noi : bool := no_information_is_obstacle_ l.
Let conn : ConnectivityType := group_connectivity_type_ l.

Lemma isBackground_0 : isBackground noi 0 = true.
Proof. done. Qed.

Lemma bytes_at i : is_u8 (lget mem i).
Proof.
  unfold lget. destruct (aget mem i) as [v|] eqn:E; [|by unfold is_u8]. cbn.
  exact (proj1 (Forall_forall _ _) Hbytes v (aget_elem _ _ _ E)).
Qed.

(** The fast path does what the removal of groups of one pixel means. *)
Lemma removeSinglePixels_cleans :
  exists mem', removeSinglePixels junk l image mem = Some (Done mem') /\ cleaned image (isBackground noi) conn mem 2 mem'.
Proof.
  pose proof (view_rows _ _ V) as HR. pose proof (view_columns _ _ V) as HC. unfold removeSinglePixels. fold noi conn.
  unfold u64. rewrite Z.mod_small by nia.
  destruct (dilate_spec image mem V (isBackground noi) isBackground_0 (max_neighbor noi) (max_neighbor_laws noi) bytes_at conn
    (junk <$> seqZ 0 (rows_ image * columns_ image))) as (nb_ & -> & Hl & Hd).
  { nia. }
  { unfold alen. rewrite length_fmap, length_seqZ. nia. }
  cbn [try_bind].
  destruct (convert_spec image mem (free_single noi nb_)
    (fun p => if negb (isBackground noi (pixel mem image p)) && isBackground noi (lget nb_ (idx (columns_ image) p)) then 0 else pixel mem image p) V)
    as (mem' & -> & [Hlen Hp Ho]).
  - intros p m Hp Hlen Epix. unfold free_single. pose proof (idx_range _ _ (proj1 HC) p Hp). pose proof (view_memory _ _ V p Hp) as Ha.
    rewrite (aget_lget nb_) by lia. mred. rewrite (aget_lget m) by lia. mred. fold (pixel m image p). rewrite Epix.
    destruct (_ && _); [done|]. rewrite <- Epix. symmetry. apply aset_same. lia.
  - exists mem'. split; [done|].
    assert (Hsmallg : forall p, obstacle (rows_ image) (columns_ image) (pixel mem image) (isBackground noi) p ->
      small_group image (isBackground noi) conn mem 2 p <-> isBackground noi (lget nb_ (idx (columns_ image) p)) = true).
    { intros p Op. rewrite (Hd p (proj1 Op)). by apply small_group_single. }
    split; [done| | |done].
    + intros p Op Sp. rewrite Hp by apply Op. rewrite (proj2 Op). cbn. apply Hsmallg in Sp; [|done]. by rewrite Sp.
    + intros p Hin Hns. rewrite Hp by done. destruct (isBackground noi (pixel mem image p)) eqn:Eb; [done|]. cbn.
      destruct (isBackground noi (lget nb_ (idx (columns_ image) p))) eqn:En; [|done]. destruct Hns. split; [done|]. by apply Hsmallg.
Qed.

(** The labels suffice. *)
Definition labels_fit : Prop := conn = Way4 \/ 2 <= rows_ image /\ 2 <= columns_ image.

Lemma removeGroups_ends :
  0 <= minimal_group_size_ l < 2 ^ 32 ->
  exists wide r, removeGroups past_end junk l image mem = Some (with_wide l wide, r) /\
    ends (~ labels_fit) (cleaned image (isBackground noi) conn mem (minimal_group_size_ l)) (Some r).
Proof.
  intros Hk. unfold removeGroups. fold noi conn.
  destruct (GroupsRemover_ends past_end Hpast junk (isBackground noi) isBackground_0 conn image mem V Hsmall _ Hk (groups_wide l)) as (wide & r & -> & Hr).
  mred. exists wide, r. split; [done|]. eapply ends_mono; [exact Hr| |done]. intros Hs Hf.
  eapply (not_short conn image mem V Hsmall label_max32); [exact Hf| |exact Hs]. unfold label_max32. lia.
Qed.

Lemma denoise_ends :
  minimal_group_size_ l < 2 ^ 32 ->
  exists wide r, denoise past_end junk l image mem = Some (with_wide l wide, r) /\
    ends (~ labels_fit) (cleaned image (isBackground noi) conn mem (minimal_group_size_ l)) (Some r).
Proof.
  intros Hk. pose proof (view_rows _ _ V) as HR. pose proof (view_columns _ _ V) as HC. unfold denoise, image_empty.
  rewrite (proj2 (Z.eqb_neq (rows_ image) 0)), (proj2 (Z.eqb_neq (columns_ image) 0)) by lia. cbn [orb].
  assert (Hl : l = with_wide l (groups_wide l)) by by destruct l.
  destruct (Z.leb_spec (minimal_group_size_ l) 1) as [H1|H1].
  { exists (groups_wide l). rewrite <- Hl. eexists. split; [reflexivity|]. cbn. by apply cleaned_none. }
  destruct (Z.eqb_spec (minimal_group_size_ l) 2) as [E2|].
  - destruct removeSinglePixels_cleans as (mem' & -> & Hc). mred. exists (groups_wide l). rewrite <- Hl. eexists. split; [reflexivity|]. by rewrite E2.
  - apply removeGroups_ends. lia.
Qed.
End image_of_layer.
(** ** The window of the master grid *)

(** [roi_image]: its pixel [(r, c)] is the cell [(min_x + c, min_y + r)]. *)
Definition roi (m : Costmap2D) (min_x min_y max_x max_y : Z) : Image :=
  mkImage (max_y - min_y) (max_x - min_x) (min_y * size_x_ m + min_x) (size_x_ m).

Lemma roi_view m c min_x min_y max_x max_y :
  wf_map m c -> window_ok m min_x min_y max_x max_y -> min_x < max_x -> min_y < max_y ->
  view c (roi m min_x min_y max_x max_y) /\ (max_y - min_y) * (max_x - min_x) < 2 ^ 32.
Proof.
  intros W Hw Hx Hy. unfold window_ok in Hw. pose proof (wf_area _ _ W). pose proof (wf_sx _ _ W). pose proof (wf_alen _ _ W). split; [|nia].
  split; cbn; [lia|lia|]. intros p [Hr Hc]. unfold address, row. cbn in *. nia.
Qed.

Lemma roi_pixel m c min_x min_y max_x max_y x y :
  lget c (y * size_x_ m + x) = pixel c (roi m min_x min_y max_x max_y) (y - min_y, x - min_x).
Proof. unfold pixel, address, row. cbn. f_equal. lia. Qed.

(** A cell outside the window is outside the image. *)
Lemma roi_outside m min_x min_y max_x max_y x y p :
  window_ok m min_x min_y max_x max_y -> on_map m x y -> ~ in_window min_x min_y max_x max_y x y ->
  inside (max_y - min_y) (max_x - min_x) p -> address (roi m min_x min_y max_x max_y) p <> y * size_x_ m + x.
Proof.
  intros Hw [Hx Hy] Hn [Hr Hc] E. apply Hn. destruct p as [r c]. unfold address, row, window_ok in *. cbn in *.
  destruct (index_inj (size_x_ m) (min_x + c) (min_y + r) x y) as [<- <-]; [lia|lia|lia|]. unfold in_window. lia.
Qed.

Lemma cleaned_bytes image is_bg conn mem k mem' : Forall is_u8 mem -> cleaned image is_bg conn mem k mem' -> Forall is_u8 mem'.
Proof.
  intros Hb [Hl Hf Hk Ho]. apply Forall_forall. intros v (i & Ei)%elem_aget.
  assert (Hv : v = lget mem' i) by (unfold lget; by rewrite Ei). subst v. apply dec_stable. intros Hn.
  assert (Hno : ~ forall p, inside (rows_ image) (columns_ image) p -> address image p <> i).
  { intros H. apply Hn. rewrite Ho by done. by apply bytes_at. }
  apply Hno. intros p Hp <-. apply Hn. fold (pixel mem' image p).
  assert (Hns : ~ (obstacle (rows_ image) (columns_ image) (pixel mem image) is_bg p /\ small_group image is_bg conn mem k p)).
  { intros [Op Sp]. apply Hn. fold (pixel mem' image p). rewrite Hf by done. by unfold is_u8. }
  rewrite Hk by done. by apply bytes_at.
Qed.

(** The part of [isBackground] the master grid decides. *)
Definition no_info_obstacle (m : Costmap2D) : bool := negb (default_value_ m =? NO_INFORMATION).

(** Every update of a proper window of a proper grid. *)
Lemma updateCosts_ends l m c min_x min_y max_x max_y :
  wf_map m c -> Forall is_u8 c -> window_ok m min_x min_y max_x max_y -> min_x < max_x -> min_y < max_y ->
  dn_enabled l = true -> minimal_group_size_ l < 2 ^ 32 ->
  exists wide r, updateCosts past_end junk l m min_x min_y max_x max_y =
      Some (mkDenoise true true (minimal_group_size_ l) (group_connectivity_type_ l) wide (no_info_obstacle m),
            with_costmap m (Some (match r with Done c' => c' | _ => c end))) /\
    ends (~ (group_connectivity_type_ l = Way4 \/ 2 <= max_y - min_y /\ 2 <= max_x - min_x))
      (cleaned (roi m min_x min_y max_x max_y) (isBackground (no_info_obstacle m)) (group_connectivity_type_ l) c (minimal_group_size_ l)) (Some r).
Proof.
  intros W Hb Hw Hx Hy He Hk. destruct (roi_view m c _ _ _ _ W Hw Hx Hy) as [V Hsmall]. pose proof Hw as Hw'. unfold window_ok in Hw'.
  pose proof (wf_sx _ _ W). pose proof (wf_sy _ _ W). pose proof (wf_area _ _ W). unfold updateCosts. rewrite He. cbn [negb].
  rewrite (proj2 (Z.leb_gt max_x min_x)), (proj2 (Z.leb_gt max_y min_y)) by lia. cbn [orb]. rewrite (wf_some _ _ W). mred.
  rewrite s32_small by ilia. rewrite (bool_decide_eq_true_2 (is_s32 (min_y * _))) by (unfold is_s32; nia). cbn [assert_ub]. mred.
  rewrite !bool_decide_eq_true_2 by ilia. cbn [assert_ub andb]. mred. fold (roi m min_x min_y max_x max_y) (no_info_obstacle m).
  set (l1 := mkDenoise _ _ _ _ _ _).
  destruct (denoise_ends l1 (roi m min_x min_y max_x max_y) c V Hsmall Hb Hk) as (wide & r & -> & Hr). mred. cbn [fst snd].
  exists wide, r. split; [by destruct r|exact Hr].
Qed.
End layer.

(** ** The layer in a layered costmap *)

Section laws.
Context (past_end : list Z -> Z -> option Z) (junk : Z -> Z).

#[local] Instance denoise_ops : LayerOps DenoiseLayer := {
  LayeredCostmap.updateBounds l v x y yaw b := Some (l, b);
  LayeredCostmap.updateCosts l v m := updateCosts past_end junk l m;
  layer_matchSize l v := Some l;
  onFootprintChanged l v := Some l;
  layer_isCurrent l := dn_current l;
  layer_isEnabled l := dn_enabled l;
}.

Context (Hpast : keeps_elements past_end) (rolling : bool).

(** [minimal_group_size_] comes from an [int]. *)
Definition denoise_fits (l : DenoiseLayer) : Prop := minimal_group_size_ l < 2 ^ 32.

Lemma denoise_updateCosts l v m c min_x min_y max_x max_y :
  v_rolling v = rolling -> denoise_fits l -> wf_map m c -> Forall is_u8 c -> window_ok m min_x min_y max_x max_y ->
  exists l' c', LayeredCostmap.updateCosts l v m min_x min_y max_x max_y = Some (l', with_costmap m (Some c')) /\
    alen c' = alen c /\ Forall is_u8 c' /\ denoise_fits l' /\
    forall x y, on_map m x y -> ~ in_window min_x min_y max_x max_y x y -> grid_at c' (size_x_ m) x y = grid_at c (size_x_ m) x y.
Proof.
  intros _ Hf W Hb Hw. cbn [LayeredCostmap.updateCosts denoise_ops].
  assert (Em : m = with_costmap m (Some c)) by (destruct m; unfold with_costmap; pose proof (wf_some _ _ W) as E; cbn in *; by rewrite E).
  destruct (decide (dn_enabled l = true /\ min_x < max_x /\ min_y < max_y)) as [(He & Hx & Hy)|Hno].
  - destruct (updateCosts_ends past_end Hpast junk l m c _ _ _ _ W Hb Hw Hx Hy He Hf) as (wide & r & E & Hr). rewrite E.
    do 2 eexists. split; [reflexivity|]. destruct r as [c'| |]; [|done..]. cbn in Hr. destruct (Hr) as [Hl _ _ Ho].
    split; [done|]. split; [exact (cleaned_bytes _ _ _ _ _ _ Hb Hr)|]. split; [done|]. intros x y Hon Hn.
    pose proof (proj2 (getIndex_small m c x y W Hon)) as Hi. rewrite <- (wf_alen _ _ W) in Hi. unfold grid_at. rewrite !aget_lget by lia.
    f_equal. apply Ho. intros p Hp. by apply roi_outside.
  - exists l, c. rewrite <- Em. split; [|done]. unfold updateCosts. destruct (dn_enabled l); [|done]. cbn [negb].
    destruct (Z.leb_spec max_x min_x), (Z.leb_spec max_y min_y); try done. destruct Hno. split; [done|lia].
Qed.

(** The denoise layer keeps the promises of a layer, in a costmap that rolls
    or not. *)
#[local] Instance denoise_laws : LayerLaws DenoiseLayer rolling := {
  layer_inv l _ _ _ := denoise_fits l;
  layer_fits l _ _ := denoise_fits l;
  layer_ready _ _ _ _ _ := True;
  updateBounds_fits l v sx sy x y yaw b _ H _ := ex_intro _ l (ex_intro _ b (conj eq_refl H));
  updateCosts_window := denoise_updateCosts;
  matchSize_fits l v c _ H _ _ := ex_intro _ l (conj eq_refl H);
  layer_footprint _ _ := True;
  footprint_fits l v sx sy H _ := ex_intro _ l (conj eq_refl H);
}.
End laws.

(** ** Properties *)

Lemma aget_keeps : keeps_elements aget.
Proof. by intros held i _. Qed.

Lemma keeps_refines past_end : keeps_elements past_end -> forall held i, refines (aget held i) (past_end held i).
Proof. intros Hp held i r Hr. by rewrite Hp by by apply aget_bounds in Hr. Qed.

Lemma undefined_refines pe : forall held i, refines (undefined_past held i) (pe held i).
Proof. by intros held i r. Qed.

(** What is computed when the shrunk vector keeps its elements is what is
    computed with any vector of which nothing past the end is read. *)
Lemma past_end_cases {A} (f : (list Z -> Z -> option Z) -> option A) past_end r :
  (forall pe pe', (forall held i, refines (pe held i) (pe' held i)) -> refines (f pe) (f pe')) -> f aget = Some r ->
  (keeps_elements past_end -> f past_end = Some r) /\ (f undefined_past = None \/ f undefined_past = Some r /\ f past_end = Some r).
Proof.
  intros Hmono Hr. split; [intros Hp; by apply (Hmono aget); [apply keeps_refines|]|]. destruct (f undefined_past) as [r'|] eqn:E; [right|by left].
  assert (r' = r) as ->; [|by split; [|apply (Hmono undefined_past); [apply undefined_refines|]]]. pose proof (Hmono undefined_past aget (undefined_refines aget) r' E). congruence.
Qed.

(** C4. With enough labels the two passes have one labelling: equal labels
    exactly for connected obstacles, 0 exactly for the background, and all the
    labels below the count are used. The second pass may look up labels past
    the new size of the vector it shrank, which the language does not define:
    this labelling is the result when such reads give the old elements, and
    whatever they give when there are none. *)
Theorem connectedComponents_correct label_max is_bg past_end junk connectivity mem image :
  is_bg 0 = true -> view mem image -> rows_ image * columns_ image < 2 ^ 32 ->
  connectivity = Way4 \/ 2 <= rows_ image /\ 2 <= columns_ image -> rows_ image * columns_ image <= 2 * label_max - 3 ->
  let run pe := connectedComponents label_max is_bg pe junk connectivity mem image in
  exists L k, let r := Some (Done (L, mkImage (rows_ image) (columns_ image) 0 (columns_ image), k)) in
    labelling (rows_ image) (columns_ image) (pixel mem image) is_bg connectivity L k /\
    (keeps_elements past_end -> run past_end = r) /\ (run undefined_past = None \/ run undefined_past = r /\ run past_end = r).
Proof.
  intros Hbg V Hs Hc Hl run. pose proof (view_rows _ _ V) as HR. pose proof (view_columns _ _ V) as HC.
  pose proof (connectedComponents_ends label_max ltac:(nia) is_bg Hbg aget aget_keeps connectivity mem image HR (proj1 HC) ltac:(lia) (view_memory _ _ V) junk) as H.
  destruct (connectedComponents label_max is_bg aget junk connectivity mem image) as [[[[L im] k]| |]|] eqn:E; cbn in H; try done; [|by destruct (not_short connectivity image mem V Hs label_max Hc Hl)].
  destruct H as (-> & B & _). exists L, k. split; [done|]. apply (past_end_cases run); [|exact E]. intros pe pe' Hpe. by apply connectedComponents_refines.
Qed.

(** The labels are only looked up for groups of more than one cell. *)
Lemma updateCosts_small pe pe' junk l m min_x min_y max_x max_y : minimal_group_size_ l <= 2 ->
  updateCosts pe junk l m min_x min_y max_x max_y = updateCosts pe' junk l m min_x min_y max_x max_y.
Proof.
  intros Hk. unfold updateCosts, denoise. cbn [minimal_group_size_]. destruct (Z.leb_spec (minimal_group_size_ l) 1) as [|Hgt]; [done|].
  by rewrite (proj2 (Z.eqb_eq (minimal_group_size_ l) 2)) by lia.
Qed.

(** C2. Inside the window the obstacles of the groups (of the window) of fewer
    than the minimal number of cells become free, and nothing else changes in
    the master grid. For groups of one cell this is what the update computes in
    any case. For larger ones the code may read past the new size of the table
    of labels it shrank, which the language does not define: this is then the
    result when such reads give the old elements, and whatever they give when
    there are none. *)
Theorem updateCosts_denoises past_end junk l m c min_x min_y max_x max_y :
  wf_map m c -> Forall is_u8 c -> window_ok m min_x min_y max_x max_y -> min_x < max_x -> min_y < max_y ->
  dn_enabled l = true -> minimal_group_size_ l < 2 ^ 32 ->
  group_connectivity_type_ l = Way4 \/ 2 <= max_y - min_y /\ 2 <= max_x - min_x ->
  let pix := pixel c (roi m min_x min_y max_x max_y) in let is_bg := isBackground (no_info_obstacle m) in
  let noise p := obstacle (max_y - min_y) (max_x - min_x) pix is_bg p /\
    exists group, (forall q, connected (max_y - min_y) (max_x - min_x) pix is_bg (group_connectivity_type_ l) p q -> q ∈ group) /\
                  alen group < minimal_group_size_ l in
  let run pe := updateCosts pe junk l m min_x min_y max_x max_y in
  exists l' c', let r := Some (l', with_costmap m (Some c')) in
    (minimal_group_size_ l <= 2 -> run undefined_past = r) /\
    (keeps_elements past_end -> run past_end = r) /\ (run undefined_past = None \/ run undefined_past = r /\ run past_end = r) /\ dn_current l' = true /\
    forall x y, on_map m x y ->
      (~ in_window min_x min_y max_x max_y x y -> grid_at c' (size_x_ m) x y = grid_at c (size_x_ m) x y) /\
      (in_window min_x min_y max_x max_y x y ->
        (noise (y - min_y, x - min_x) -> grid_at c' (size_x_ m) x y = Some FREE_SPACE) /\
        (~ noise (y - min_y, x - min_x) -> grid_at c' (size_x_ m) x y = grid_at c (size_x_ m) x y)).
Proof.
  intros W Hb Hw Hx Hy He Hk Hf pix is_bg noise run.
  destruct (updateCosts_ends aget aget_keeps junk l m c _ _ _ _ W Hb Hw Hx Hy He Hk) as (wide & r & E & Hr).
  destruct r as [c'| |]; cbn in Hr; [|done..]. destruct Hr as [Hl Hfree Hkept Hother]. eexists _, c'.
  destruct (past_end_cases run past_end _ (fun pe pe' => updateCosts_refines pe pe' junk l m min_x min_y max_x max_y) E) as [H1 H2].
  split; [intros H; unfold run; by rewrite (updateCosts_small undefined_past aget) by done|]. split; [exact H1|]. split; [exact H2|]. clear H1 H2.
  split; [done|]. intros x y Hon. pose proof (proj2 (getIndex_small m c x y W Hon)) as Hi. rewrite <- (wf_alen _ _ W) in Hi.
  unfold grid_at. rewrite !aget_lget by lia. split.
  - intros Hn. f_equal. apply Hother. intros p Hpi. by apply roi_outside.
  - intros Hin. rewrite !(roi_pixel m _ min_x min_y max_x max_y). split.
    + intros [Ho Hg]. f_equal. by apply Hfree.
    + intros Hn. f_equal. apply Hkept; [|done]. unfold in_window, inside in *. cbn. lia.
Qed.

(** For groups of one cell the dilation of the fast path and the labelling of
    the slow path give the same grid. *)
Theorem removeSinglePixels_as_groups past_end junk l image mem :
  keeps_elements past_end -> view mem image -> rows_ image * columns_ image < 2 ^ 32 -> Forall is_u8 mem -> minimal_group_size_ l = 2 ->
  group_connectivity_type_ l = Way4 \/ 2 <= rows_ image /\ 2 <= columns_ image ->
  exists mem' l', removeSinglePixels junk l image mem = Some (Done mem') /\ removeGroups past_end junk l image mem = Some (l', Done mem').
Proof.
  intros Hp V Hs Hb Hk Hf. destruct (removeSinglePixels_cleans junk l image mem V Hs Hb) as (m1 & E1 & H1).
  destruct (removeGroups_ends past_end Hp junk l image mem V Hs ltac:(lia)) as (wide & r & E2 & H2). rewrite Hk in H2.
  destruct r as [m2| |]; cbn in H2; [|done..]. rewrite (cleaned_unique _ _ _ _ _ _ _ V H1 H2) in E1. by exists m2, (with_wide l wide).
Qed.

(** ** On a small map *)

Definition denoise_cells : list Z :=
  [254; 0; 254; 0; 254;
   254; 254; 254; 0; 0;
   0; 0; 0; 0; 254;
   0; 0; 254; 0; 0].
Definition denoise_map : Costmap2D := mkCostmap2D 5 4 f_one f_zero f_zero (Some denoise_cells) 0.
Definition denoise_layer (k : Z) : DenoiseLayer := mkDenoise true false k Way8 false false.

Lemma denoise_map_wf : wf_map denoise_map denoise_cells.
Proof. split; cbn; lia || done. Qed.

Lemma denoise_cells_bytes : Forall is_u8 denoise_cells.
Proof. unfold is_u8. repeat constructor; lia. Qed.

Lemma denoise_map_view : view denoise_cells (roi denoise_map 0 0 5 4).
Proof. by apply (roi_view denoise_map _ 0 0 5 4 denoise_map_wf). Qed.

(** The whole window: the five obstacles of the group at the left stay. *)
Example denoise_example :
  updateCosts aget (fun i => i) (denoise_layer 3) denoise_map 0 0 5 4 =
  Some (mkDenoise true true 3 Way8 false true,
        with_costmap denoise_map (Some
          [254; 0; 254; 0; 0;
           254; 254; 254; 0; 0;
           0; 0; 0; 0; 0;
           0; 0; 0; 0; 0])).
Proof. vm_compute. reflexivity. Qed.

(** When reading a shrunk vector past its size is not defined, neither is the
    update: the labels of the group are joined, so one is past the size. *)
Example denoise_past_end : updateCosts (fun _ _ => None) (fun i => i) (denoise_layer 3) denoise_map 0 0 5 4 = None.
Proof. vm_compute. reflexivity. Qed.

(** With two rows apart from each other no labels are joined and no read is
    past the size. *)
Example denoise_apart : updateCosts undefined_past (fun i => i) (denoise_layer 3) (with_costmap denoise_map (Some
    [254; 254; 254; 0; 254;
     0; 0; 0; 0; 0;
     0; 0; 0; 254; 254;
     0; 0; 0; 0; 0])) 0 0 5 4 =
  Some (mkDenoise true true 3 Way8 false true, with_costmap denoise_map (Some
    [254; 254; 254; 0; 0;
     0; 0; 0; 0; 0;
     0; 0; 0; 0; 0;
     0; 0; 0; 0; 0])).
Proof. vm_compute. reflexivity. Qed.

(** In a window of one row the labels run out, also the 32-bit ones, and the
    noise stays. *)
Example denoise_one_row : updateCosts aget (fun i => i) (denoise_layer 3) denoise_map 0 0 5 1 =
  Some (mkDenoise true true 3 Way8 true true, denoise_map).
Proof. vm_compute. reflexivity. Qed.

Lemma corner_alone : forall q, adjacent Way8 (0, 4) q -> ~ obstacle 4 5 (pixel denoise_cells (roi denoise_map 0 0 5 4)) (isBackground true) q.
Proof.
  intros [r c] (Hne & Hr & Hc) [[Hr' Hc'] Ho]. cbn in *.
  assert (Hcase : (r = 0 \/ r = 1) /\ (c = 3 \/ c = 4)) by lia.
  destruct Hcase as [[->| ->] [->| ->]]; first [done|vm_compute in Ho; discriminate].
Qed.

Lemma corner_group : small_group (roi denoise_map 0 0 5 4) (isBackground true) Way8 denoise_cells 2 (0, 4).
Proof. apply small_group_single; [by split; [unfold inside; cbn; lia|]|]. exact corner_alone. Qed.

Lemma left_group : connected 4 5 (pixel denoise_cells (roi denoise_map 0 0 5 4)) (isBackground true) Way8 (0, 0) (0, 2).
Proof.
  apply (rtc_l _ _ (1, 1)); [|apply rtc_once].
  all: split_and!; try (split; [unfold inside; cbn; lia|vm_compute; reflexivity]); cbn; split; [done|lia].
Qed.

Lemma connectedComponents_correct_witness :
  exists L k, connectedComponents label_max16 (isBackground true) aget (fun i => i) Way8 denoise_cells (roi denoise_map 0 0 5 4) =
    Some (Done (L, mkImage 4 5 0 5, k)) /\ lab 5 L (0, 0) = lab 5 L (0, 2).
Proof.
  destruct (connectedComponents_correct label_max16 (isBackground true) aget (fun i => i) Way8 denoise_cells (roi denoise_map 0 0 5 4)) as (L & k & B & E & _).
  - done.
  - apply denoise_map_view.
  - cbn. lia.
  - cbn. lia.
  - cbn. unfold label_max16. lia.
  - exists L, k. split; [exact (E aget_keeps)|]. apply (lb_connected _ _ _ _ _ _ _ B); [|by split; [unfold inside; cbn; lia|]|apply left_group].
    split; [unfold inside; cbn; lia|done].
Defined.

Lemma updateCosts_denoises_witness :
  exists l' c', updateCosts aget (fun i => i) (denoise_layer 3) denoise_map 0 0 5 4 = Some (l', with_costmap denoise_map (Some c')) /\
    grid_at c' 5 4 0 = Some 0.
Proof.
  destruct (updateCosts_denoises aget (fun i => i) (denoise_layer 3) denoise_map denoise_cells 0 0 5 4) as (l' & c' & _ & E & _ & _ & H).
  - apply denoise_map_wf.
  - apply denoise_cells_bytes.
  - unfold window_ok. cbn. lia.
  - lia.
  - lia.
  - done.
  - cbn. lia.
  - right. lia.
  - exists l', c'. split; [exact (E aget_keeps)|]. apply (H 4 0); [unfold on_map; cbn; lia|unfold in_window; lia|]. split; [split; [unfold inside; cbn; lia|done]|].
    destruct corner_group as (group & Hg & Hl). exists group. split; [exact Hg|]. change (minimal_group_size_ (denoise_layer 3)) with 3. lia.
Defined.

Lemma removeSinglePixels_as_groups_witness :
  exists mem' l', removeSinglePixels (fun i => i) (denoise_layer 2) (roi denoise_map 0 0 5 4) denoise_cells = Some (Done mem') /\
    removeGroups aget (fun i => i) (denoise_layer 2) (roi denoise_map 0 0 5 4) denoise_cells = Some (l', Done mem').
Proof.
  apply (removeSinglePixels_as_groups aget (fun i => i) (denoise_layer 2) (roi denoise_map 0 0 5 4) denoise_cells).
  - apply aget_keeps.
  - apply denoise_map_view.
  - cbn. lia.
  - apply denoise_cells_bytes.
  - done.
  - right. cbn. lia.
Defined.
