(* ===== verification/InflationLayer.v ===== *)
(** The inflation layer ([inflation_layer.cpp], [inflation_layer.hpp]): the
    tables of distances and costs, the expansion from the obstacles by bins of
    increasing distance, the parameters, and its place in a layered costmap. *)

From stdpp Require Import strings sorting.
From S2P Require Import Prelude Floats Bresenham Costmap2D Footprint CostmapLayer LayeredCostmap StaticLayer.

(** ** The data *)

(** A cell to visit and the obstacle it was reached from. *)
Record CellData := mkCell { index_ : Z; x_ : Z; y_ : Z; src_x_ : Z; src_y_ : Z }.

Record InflationLayer := mkInflation {
  il_name_ : string;
  il_enabled_ : bool;
  il_current_ : bool;
  inflation_radius_ : spec_float;
  il_inscribed_radius_ : spec_float;
  cost_scaling_factor_ : spec_float;
  inflate_unknown_ : bool;
  inflate_around_unknown_ : bool;
  cell_inflation_radius_ : Z;
  cached_cell_inflation_radius_ : Z;
  inflation_cells_ : list (list CellData);
  il_resolution_ : spec_float;
  seen_ : list bool;
  cached_costs_ : list Z;
  cached_distances_ : list spec_float;
  distance_matrix_ : list (list Z);
  cache_length_ : Z;
  last_bounds_ : Bounds;
  need_reinflation_ : bool;
}.

Definition InflationLayer_new (name : string) : InflationLayer :=
  mkInflation name false false f_zero f_zero f_zero false false 0 0 [] f_zero [] [] [] [] 0 (mkBounds DBL_LOWEST DBL_LOWEST DBL_MAX DBL_MAX) false.

Section setters.
Context (l : InflationLayer).

Definition set_radii (inscribed : spec_float) (cells : Z) : InflationLayer :=
  mkInflation (il_name_ l) (il_enabled_ l) (il_current_ l) (inflation_radius_ l) inscribed (cost_scaling_factor_ l) (inflate_unknown_ l) (inflate_around_unknown_ l)
    cells (cached_cell_inflation_radius_ l) (inflation_cells_ l) (il_resolution_ l) (seen_ l) (cached_costs_ l) (cached_distances_ l) (distance_matrix_ l) (cache_length_ l)
    (last_bounds_ l) (need_reinflation_ l).
Definition set_caches (cached : Z) (distances : list spec_float) (costs : list Z) (matrix : list (list Z)) (bins : list (list CellData)) (len : Z) : InflationLayer :=
  mkInflation (il_name_ l) (il_enabled_ l) (il_current_ l) (inflation_radius_ l) (il_inscribed_radius_ l) (cost_scaling_factor_ l) (inflate_unknown_ l) (inflate_around_unknown_ l)
    (cell_inflation_radius_ l) cached bins (il_resolution_ l) (seen_ l) costs distances matrix len (last_bounds_ l) (need_reinflation_ l).
Definition set_grid (resolution : spec_float) (seen : list bool) : InflationLayer :=
  mkInflation (il_name_ l) (il_enabled_ l) (il_current_ l) (inflation_radius_ l) (il_inscribed_radius_ l) (cost_scaling_factor_ l) (inflate_unknown_ l) (inflate_around_unknown_ l)
    (cell_inflation_radius_ l) (cached_cell_inflation_radius_ l) (inflation_cells_ l) resolution seen (cached_costs_ l) (cached_distances_ l) (distance_matrix_ l) (cache_length_ l)
    (last_bounds_ l) (need_reinflation_ l).
Definition set_last_bounds (b : Bounds) (need : bool) : InflationLayer :=
  mkInflation (il_name_ l) (il_enabled_ l) (il_current_ l) (inflation_radius_ l) (il_inscribed_radius_ l) (cost_scaling_factor_ l) (inflate_unknown_ l) (inflate_around_unknown_ l)
    (cell_inflation_radius_ l) (cached_cell_inflation_radius_ l) (inflation_cells_ l) (il_resolution_ l) (seen_ l) (cached_costs_ l) (cached_distances_ l) (distance_matrix_ l) (cache_length_ l)
    b need.
Definition set_il_current (current : bool) : InflationLayer :=
  mkInflation (il_name_ l) (il_enabled_ l) current (inflation_radius_ l) (il_inscribed_radius_ l) (cost_scaling_factor_ l) (inflate_unknown_ l) (inflate_around_unknown_ l)
    (cell_inflation_radius_ l) (cached_cell_inflation_radius_ l) (inflation_cells_ l) (il_resolution_ l) (seen_ l) (cached_costs_ l) (cached_distances_ l) (distance_matrix_ l) (cache_length_ l)
    (last_bounds_ l) (need_reinflation_ l).
(** The parameters; each change asks for a new inflation of the whole map. *)
Definition set_parameters (enabled current : bool) (radius factor : spec_float) (unknown around : bool) : InflationLayer :=
  mkInflation (il_name_ l) enabled current radius (il_inscribed_radius_ l) factor unknown around
    (cell_inflation_radius_ l) (cached_cell_inflation_radius_ l) (inflation_cells_ l) (il_resolution_ l) (seen_ l) (cached_costs_ l) (cached_distances_ l) (distance_matrix_ l) (cache_length_ l)
    (last_bounds_ l) true.
End setters.

(** ** Levels of distance *)

Definition norm2 (p : Z * Z) : Z := fst p * fst p + snd p * snd p.
Definition closer (p q : Z * Z) : Prop := norm2 p <= norm2 q.
#[export] Instance closer_dec p q : Decision (closer p q).
Proof. unfold closer. apply _. Defined.

(** The points of the disc of radius [r], by rows. *)
Definition disc_points (r : Z) : list (Z * Z) :=
  y ← zrange (- r) (r + 1); filter (fun p => norm2 p <= r * r) ((fun x => (x, y)) <$> zrange (- r) (r + 1)).

Definition matrix_get (m : list (list Z)) (i j : Z) : option Z := row ← aget m i; aget row j.
Definition matrix_set (m : list (list Z)) (i j v : Z) : option (list (list Z)) := row ← aget m i; row ← aset row j v; aset m i row.

Definition level_step (r : Z) (st : list (list Z) * (Z * Z) * Z) (p : Z * Z) : option (list (list Z) * (Z * Z) * Z) :=
  let '(matrix, last, level) := st in
  let level := if negb (norm2 p =? norm2 last) then level + 1 else level in
  matrix ← matrix_set matrix (fst p + r) (snd p + r) level;
  Some (matrix, p, level).

Fixpoint level_steps (r : Z) (ps : list (Z * Z)) (st : list (list Z) * (Z * Z) * Z) : option (list (list Z) * (Z * Z) * Z) :=
  match ps with [] => Some st | p :: ps => st ← level_step r st p; level_steps r ps st end.

(** [generateIntegerDistances]: the matrix and the last level. The squares
    have to be ints. *)
Definition generateIntegerDistances (cell_inflation_radius : Z) : option (list (list Z) * Z) :=
  let r := cell_inflation_radius + 2 in
  _ ← assert_ub (2 * (r * r) <? 2 ^ 31);
  let size := r * 2 + 1 in
  st ← level_steps r (merge_sort closer (disc_points r)) (anew size (anew size 0), (0, 0), 0);
  let '(matrix, _, level) := st in Some (matrix, level).

(** ** Tables and expansion *)

(** [std::vector::resize]. *)
Definition vresize {A} (l : list A) (n : Z) (x : A) : list A := take (Z.to_nat n) l ++ anew (n - alen l) x.

Section inflation.
Context (hypot : spec_float -> spec_float -> spec_float) (exp : spec_float -> spec_float).

Definition computeCost (l : InflationLayer) (distance : spec_float) : option Z :=
  if feq distance f_zero then Some LETHAL_OBSTACLE
  else if fle (fmul distance (il_resolution_ l)) (il_inscribed_radius_ l) then Some INSCRIBED_INFLATED_OBSTACLE
  else
    let factor := exp (fmul (fmul (f_of_Z (-1)) (cost_scaling_factor_ l)) (fsub (fmul distance (il_resolution_ l)) (il_inscribed_radius_ l))) in
    f_to_u8 (fmul (f_of_Z (INSCRIBED_INFLATED_OBSTACLE - 1)) factor).

Definition computeCaches (l : InflationLayer) : option InflationLayer :=
  if cell_inflation_radius_ l =? 0 then Some l
  else
    let len := u32 (cell_inflation_radius_ l + 2) in
    let area := u32 (len * len) in
    '(distances, costs, cached) ← (if negb (cell_inflation_radius_ l =? cached_cell_inflation_radius_ l) then
        distances ← for_range 0 len (fun i d => for_range 0 len (fun j d => aset d (u32 (u32 (i * len) + j)) (hypot (f_of_Z i) (f_of_Z j))) d) (vresize (cached_distances_ l) area f_zero);
        Some (distances, vresize (cached_costs_ l) area 0, cell_inflation_radius_ l)
      else Some (cached_distances_ l, cached_costs_ l, cached_cell_inflation_radius_ l));
    costs ← for_range 0 len (fun i c => for_range 0 len (fun j c =>
      d ← aget distances (u32 (u32 (i * len) + j)); v ← computeCost l d; aset c (u32 (u32 (i * len) + j)) v) c) costs;
    '(matrix, max_dist) ← generateIntegerDistances (cell_inflation_radius_ l);
    Some (set_caches l cached distances costs matrix (anew (max_dist + 1) []) len).

Definition table_index (l : InflationLayer) (mx my src_x src_y : Z) : Z :=
  let dx := if src_x <? mx then mx - src_x else src_x - mx in
  let dy := if src_y <? my then my - src_y else src_y - my in
  u32 (u32 (dx * cache_length_ l) + dy).
Definition distanceLookup (l : InflationLayer) (mx my src_x src_y : Z) : option spec_float := aget (cached_distances_ l) (table_index l mx my src_x src_y).
Definition costLookup (l : InflationLayer) (mx my src_x src_y : Z) : option Z := aget (cached_costs_ l) (table_index l mx my src_x src_y).

Definition enqueue (l : InflationLayer) (seen : list bool) (index mx my src_x src_y : Z) (bins : list (list CellData)) : option (list (list CellData)) :=
  s ← aget seen index;
  if (s : bool) then Some bins
  else
    distance ← distanceLookup l mx my src_x src_y;
    if fgt distance (f_of_Z (cell_inflation_radius_ l)) then Some bins
    else
      let r := u32 (cell_inflation_radius_ l + 2) in
      level ← matrix_get (distance_matrix_ l) (u32 (u32 (mx - src_x) + r)) (u32 (u32 (my - src_y) + r));
      bin ← aget bins level;
      aset bins level (bin ++ [mkCell index mx my src_x src_y]).

(** The cost of a cell of the window, from its old cost. *)
Definition inflated (l : InflationLayer) (old_cost cost : Z) : Z :=
  if (old_cost =? NO_INFORMATION) && (if inflate_unknown_ l then FREE_SPACE <? cost else INSCRIBED_INFLATED_OBSTACLE <=? cost) then cost else Z.max old_cost cost.

(** A cell taken from a bin: the costs, the cells seen, the bins. *)
Definition visit (l : InflationLayer) (size_x size_y : Z) (base_min_i base_min_j base_max_i base_max_j : Z) (cell : CellData)
  (st : list Z * list bool * list (list CellData)) : option (list Z * list bool * list (list CellData)) :=
  let '(master_array, seen, bins) := st in
  let index := index_ cell in let mx := x_ cell in let my := y_ cell in let sx := src_x_ cell in let sy := src_y_ cell in
  s ← aget seen index;
  if (s : bool) then Some (master_array, seen, bins)
  else
    seen ← aset seen index true;
    cost ← costLookup l mx my sx sy;
    old_cost ← aget master_array index;
    master_array ← (if (base_min_i <=? s32 mx) && (base_min_j <=? s32 my) && (s32 mx <? base_max_i) && (s32 my <? base_max_j)
      then aset master_array index (inflated l old_cost cost) else Some master_array);
    bins ← (if 0 <? mx then enqueue l seen (u32 (index - 1)) (mx - 1) my sx sy bins else Some bins);
    bins ← (if 0 <? my then enqueue l seen (u32 (index - size_x)) mx (my - 1) sx sy bins else Some bins);
    bins ← (if mx <? u32 (size_x - 1) then enqueue l seen (u32 (index + 1)) (u32 (mx + 1)) my sx sy bins else Some bins);
    bins ← (if my <? u32 (size_y - 1) then enqueue l seen (u32 (index + size_x)) mx (u32 (my + 1)) sx sy bins else Some bins);
    Some (master_array, seen, bins).

(** The cells of a bin, which may grow meanwhile. A round that visits a cell
    for the first time adds at most four. *)
Definition visit_bin (l : InflationLayer) (size_x size_y : Z) (base_min_i base_min_j base_max_i base_max_j : Z) (b : Z)
  (st : list Z * list bool * list (list CellData)) : option (list Z * list bool * list (list CellData)) :=
  bin ← aget (snd st) b;
  r ← loop (S (length bin + 4 * length (snd (fst st)))) (fun '(i, st) =>
    bin ← aget (snd st) b;
    match aget bin i with
    | None => Some (Break (i, st))
    | Some cell => st ← visit l size_x size_y base_min_i base_min_j base_max_i base_max_j cell st; Some (Next (i + 1, st))
    end) (0, st);
  Some (snd r).

(** The obstacles of a window, by rows. *)
Definition is_source (l : InflationLayer) (cost : Z) : bool := (cost =? LETHAL_OBSTACLE) || (inflate_around_unknown_ l && (cost =? NO_INFORMATION)).
Definition obstacle_bin (l : InflationLayer) (m : Costmap2D) (master_array : list Z) (min_i min_j max_i max_j : Z) : option (list CellData) :=
  for_range min_j max_j (fun j bin => for_range min_i max_i (fun i bin =>
    let index := s32 (getIndex m (u32 i) (u32 j)) in
    cost ← aget master_array index;
    Some (if is_source l cost then bin ++ [mkCell (u32 index) (u32 i) (u32 j) (u32 i) (u32 j)] else bin)) bin) [].

Definition updateCosts (l : InflationLayer) (master_grid : Costmap2D) (min_i min_j max_i max_j : Z) : option (InflationLayer * Costmap2D) :=
  if negb (il_enabled_ l) || (cell_inflation_radius_ l =? 0) then Some (l, master_grid)
  else
    master_array ← costmap_ master_grid;
    let size_x := size_x_ master_grid in let size_y := size_y_ master_grid in
    let seen := if negb (alen (seen_ l) =? u32 (size_x * size_y)) then anew (u32 (size_x * size_y)) false else seen_ l in
    let seen := anew (alen seen) false in
    let r := s32 (cell_inflation_radius_ l) in
    _ ← assert_ub (bool_decide (is_s32 (min_i - r) /\ is_s32 (min_j - r) /\ is_s32 (max_i + r) /\ is_s32 (max_j + r)));
    bin0 ← aget (inflation_cells_ l) 0;
    obstacles ← obstacle_bin l master_grid master_array (Z.max 0 (min_i - r)) (Z.max 0 (min_j - r)) (Z.min (s32 size_x) (max_i + r)) (Z.min (s32 size_y) (max_j + r));
    bins ← aset (inflation_cells_ l) 0 (bin0 ++ obstacles);
    '(master_array, seen, bins) ← for_range 0 (alen bins) (visit_bin l size_x size_y min_i min_j max_i max_j) (master_array, seen, bins);
    let l := set_grid l (il_resolution_ l) seen in
    let l := set_caches l (cached_cell_inflation_radius_ l) (cached_distances_ l) (cached_costs_ l) (distance_matrix_ l) ((fun _ => []) <$> bins) (cache_length_ l) in
    Some (set_il_current l true, with_costmap master_grid (Some master_array)).

(** *** The rest of the layer *)

Definition matchSize (l : InflationLayer) (v : LayeredView) : option InflationLayer :=
  let costmap := v_master v in
  let l := set_grid l (resolution_ costmap) (seen_ l) in
  cells ← cellDistance costmap (inflation_radius_ l);
  l ← computeCaches (set_radii l (il_inscribed_radius_ l) cells);
  Some (set_grid l (il_resolution_ l) (anew (u32 (size_x_ costmap * size_y_ costmap)) false)).

(** [onInitialize], given the values of the parameters. *)
Definition onInitialize (l : InflationLayer) (v : LayeredView) (enabled : bool) (inflation_radius cost_scaling_factor : spec_float) (inflate_unknown inflate_around_unknown : bool) :
  option InflationLayer :=
  let l := set_parameters l enabled true inflation_radius cost_scaling_factor inflate_unknown inflate_around_unknown in
  let l := set_caches (set_grid l (il_resolution_ l) []) (cached_cell_inflation_radius_ l) [] [] (distance_matrix_ l) (inflation_cells_ l) (cache_length_ l) in
  let l := set_last_bounds l (last_bounds_ l) false in
  cells ← cellDistance (v_master v) (inflation_radius_ l);
  matchSize (set_radii l (il_inscribed_radius_ l) cells) v.

Definition reset (l : InflationLayer) (v : LayeredView) : option InflationLayer := l ← matchSize l v; Some (set_il_current l false).

Definition onFootprintChanged (l : InflationLayer) (v : LayeredView) : option InflationLayer :=
  cells ← cellDistance (v_master v) (inflation_radius_ l);
  l ← computeCaches (set_radii l (v_inscribed v) cells);
  Some (set_last_bounds l (last_bounds_ l) true).

Definition updateBounds (l : InflationLayer) (b : Bounds) : InflationLayer * Bounds :=
  if need_reinflation_ l then (set_last_bounds l b false, mkBounds DBL_LOWEST DBL_LOWEST DBL_MAX DBL_MAX)
  else
    let t := last_bounds_ l in let r := inflation_radius_ l in
    (set_last_bounds l b false,
     mkBounds (fsub (fmin (min_x t) (min_x b)) r) (fsub (fmin (min_y t) (min_y b)) r) (fadd (fmax (max_x t) (max_x b)) r) (fadd (fmax (max_y t) (max_y b)) r)).

(** Parameters of the node. *)
Inductive ParameterValue := PARAMETER_DOUBLE (x : spec_float) | PARAMETER_BOOL (b : bool) | PARAMETER_OTHER.

Definition set_parameter (l : InflationLayer) (name : string) (value : ParameterValue) : InflationLayer * bool :=
  let full s := (il_name_ l ++ "." ++ s)%string in
  match value with
  | PARAMETER_DOUBLE x =>
      if bool_decide (name = full "inflation_radius") && negb (feq (inflation_radius_ l) x)
      then (set_parameters l (il_enabled_ l) (il_current_ l) x (cost_scaling_factor_ l) (inflate_unknown_ l) (inflate_around_unknown_ l), true)
      else if bool_decide (name = full "cost_scaling_factor") && negb (feq (cost_scaling_factor_ l) x)
      then (set_parameters l (il_enabled_ l) (il_current_ l) (inflation_radius_ l) x (inflate_unknown_ l) (inflate_around_unknown_ l), true)
      else (l, false)
  | PARAMETER_BOOL b =>
      if bool_decide (name = full "enabled") && negb (eqb (il_enabled_ l) b)
      then (set_parameters l b false (inflation_radius_ l) (cost_scaling_factor_ l) (inflate_unknown_ l) (inflate_around_unknown_ l), false)
      else if bool_decide (name = full "inflate_unknown") && negb (eqb (inflate_unknown_ l) b)
      then (set_parameters l (il_enabled_ l) (il_current_ l) (inflation_radius_ l) (cost_scaling_factor_ l) b (inflate_around_unknown_ l), false)
      else if bool_decide (name = full "inflate_around_unknown") && negb (eqb (inflate_around_unknown_ l) b)
      then (set_parameters l (il_enabled_ l) (il_current_ l) (inflation_radius_ l) (cost_scaling_factor_ l) (inflate_unknown_ l) b, false)
      else (l, false)
  | PARAMETER_OTHER => (l, false)
  end.

Definition dynamicParametersCallback (l : InflationLayer) (v : LayeredView) (parameters : list (string * ParameterValue)) : option InflationLayer :=
  let '(l, need_cache_recompute) := foldl (fun '(l, need) p => let '(l, n) := set_parameter l (fst p) (snd p) in (l, need || n)) (l, false) parameters in
  if need_cache_recompute : bool then matchSize l v else Some l.

End inflation.

(** ** The levels follow the distances *)

#[export] Instance closer_trans : Transitive closer.
Proof. intros p q s. unfold closer. lia. Qed.
#[export] Instance closer_total : Total closer.
Proof. intros p q. unfold closer. lia. Qed.

Lemma elem_of_disc r p : 0 <= r -> p ∈ disc_points r <-> norm2 p <= r * r.
Proof.
  intros Hr. destruct p as [x y]. unfold disc_points. rewrite list_elem_of_bind. split.
  - intros (y' & Hp & _). by apply list_elem_of_filter in Hp as [Hn _].
  - intros Hn. unfold norm2 in Hn. cbn [fst snd] in Hn. exists y. split; [|apply elem_of_zrange; nia]. apply list_elem_of_filter. split; [done|].
    apply list_elem_of_fmap. exists x. split; [done|]. apply elem_of_zrange. nia.
Qed.

Definition square (n : Z) (m : list (list Z)) : Prop := alen m = n /\ Forall (fun row => alen row = n) m.

Lemma square_get n m i j : square n m -> 0 <= i < n -> 0 <= j < n -> exists v, matrix_get m i j = Some v.
Proof.
  intros [Hm Hr] Hi Hj. unfold matrix_get. destruct (aget_is_Some m i) as [row Er]; [lia|]. rewrite Er. mred.
  apply aget_is_Some. rewrite (proj1 (Forall_forall _ _) Hr row); [done|]. by apply (aget_elem _ i).
Qed.

Lemma square_set n m i j v : square n m -> 0 <= i < n -> 0 <= j < n -> exists m', matrix_set m i j v = Some m' /\ square n m' /\
  forall i' j', matrix_get m' i' j' = if bool_decide ((i, j) = (i', j')) then Some v else matrix_get m i' j'.
Proof.
  intros [Hm Hr] Hi Hj. unfold matrix_set. destruct (aget_is_Some m i) as [row Er]; [lia|]. rewrite Er. mred.
  assert (Hrow : alen row = n) by (apply (proj1 (Forall_forall _ _) Hr row); by apply (aget_elem _ i)).
  destruct (aset row j v) as [row'|] eqn:E1; [|by rewrite aset_Some in E1 by lia]. mred. destruct (aset m i row') as [m'|] eqn:E2; [|by rewrite aset_Some in E2 by lia].
  exists m'. split; [done|]. split.
  - split; [by rewrite (aset_len _ _ _ _ E2)|]. rewrite aset_Some in E2 by lia. injection E2 as <-. apply Forall_insert; [done|]. by rewrite (aset_len _ _ _ _ E1).
  - intros i' j'. unfold matrix_get. rewrite (aget_aset _ _ _ _ i' E2). destruct (Z.eqb_spec i i') as [<-|Hne].
    + mred. rewrite (aget_aset _ _ _ _ j' E1), Er. mred. destruct (Z.eqb_spec j j') as [<-|Hne]; [by rewrite bool_decide_eq_true_2|]. rewrite bool_decide_eq_false_2; [done|congruence].
    + rewrite bool_decide_eq_false_2; [done|congruence].
Qed.

Section levels.
Context (r : Z) (Hr : 0 <= r).

Definition level_at (m : list (list Z)) (p : Z * Z) : option Z := matrix_get m (fst p + r) (snd p + r).

(** After the points [ps], in the order of their norms. *)
Record levelled (ps : list (Z * Z)) (m : list (list Z)) (last : Z * Z) (level : Z) : Prop := {
  lv_square : square (r * 2 + 1) m;
  lv_level : 0 <= level /\ (norm2 last = 0 -> level = 0);
  lv_points p : p ∈ ps -> norm2 p <= norm2 last /\ exists k, level_at m p = Some k /\ 0 <= k <= level /\ (norm2 p < norm2 last -> k < level) /\ (norm2 p = 0 -> k = 0);
  lv_order p q k k' : p ∈ ps -> q ∈ ps -> level_at m p = Some k -> level_at m q = Some k' -> norm2 p < norm2 q -> k < k';
}.

Lemma level_step_ok ps m last level p : levelled ps m last level -> norm2 last <= norm2 p -> norm2 p <= r * r ->
  exists m' level', level_step r (m, last, level) p = Some (m', p, level') /\ levelled (ps ++ [p]) m' p level'.
Proof.
  intros [Hsq [Hl0 Hl] Hp Ho] Hle Hd. unfold level_step.
  set (level' := if negb (norm2 p =? norm2 last) then level + 1 else level).
  assert (Hl' : level <= level' /\ (norm2 last < norm2 p -> level < level') /\ (norm2 p = norm2 last -> level' = level)) by (unfold level'; destruct (Z.eqb_spec (norm2 p) (norm2 last)); cbn [negb]; lia).
  assert (Hin : 0 <= fst p + r < r * 2 + 1 /\ 0 <= snd p + r < r * 2 + 1) by (unfold norm2 in Hd; nia).
  destruct (square_set _ m (fst p + r) (snd p + r) level' Hsq (proj1 Hin) (proj2 Hin)) as (m' & -> & Hsq' & Hg). mred.
  assert (Hat : forall q, level_at m' q = if bool_decide (p = q) then Some level' else level_at m q).
  { intros q. unfold level_at. rewrite Hg. rewrite (bool_decide_ext _ (p = q)); [done|]. destruct p as [p1 p2], q as [q1 q2]. cbn. split; intros E; injection E as E1 E2; f_equal; lia. }
  assert (Hn0 : 0 <= norm2 last) by (unfold norm2; nia).
  exists m', level'. split; [done|]. split; [done|split; [lia|intros E; rewrite (proj2 (proj2 Hl')) by lia; apply Hl; lia]| |].
  - intros q Hq. rewrite Hat. case_bool_decide as Epq.
    + subst q. split; [done|]. exists level'. split; [done|]. split; [lia|]. split; [lia|]. intros E. rewrite (proj2 (proj2 Hl')) by lia. apply Hl. lia.
    + apply elem_of_app in Hq as [Hq|Hq%list_elem_of_singleton]; [|congruence]. destruct (Hp q Hq) as (Hql & k & -> & Hk & Hlt & Hz). split; [lia|]. exists k. split; [done|]. split; [lia|]. split; [|done].
      intros Hqp. destruct (Z.lt_ge_cases (norm2 q) (norm2 last)) as [Hc|Hc]; [specialize (Hlt Hc)|]; lia.
  - intros q s k k' Hq Hs. rewrite !Hat. intros E1 E2 Hlt. assert (Hq' : q ∈ ps \/ q = p) by (apply elem_of_app in Hq as [?|Hx%list_elem_of_singleton]; auto).
    assert (Hs' : s ∈ ps \/ s = p) by (apply elem_of_app in Hs as [?|Hx%list_elem_of_singleton]; auto).
    destruct (bool_decide_reflect (p = q)) as [Eq|Eq]; [subst q|].
    + destruct (bool_decide_reflect (p = s)) as [Es|Es]; [subst s; lia|]. destruct Hs' as [Hs'|]; [|congruence]. destruct (Hp s Hs') as (? & _). lia.
    + destruct Hq' as [Hq'|]; [|congruence]. destruct (Hp q Hq') as (Hql & k1 & E3 & Hk1 & Hlt1 & _). rewrite E1 in E3. injection E3 as <-. destruct (bool_decide_reflect (p = s)) as [Es|Es].
      * subst s. injection E2 as <-. destruct (Z.lt_ge_cases (norm2 q) (norm2 last)) as [Hc|Hc]; [specialize (Hlt1 Hc)|]; lia.
      * destruct Hs' as [Hs'|]; [|congruence]. by apply (Ho q s).
Qed.

Lemma level_steps_ok todo : forall ps m last level, levelled ps m last level -> StronglySorted closer todo -> Forall (fun p => norm2 last <= norm2 p /\ norm2 p <= r * r) todo ->
  exists m' last' level', level_steps r todo (m, last, level) = Some (m', last', level') /\ levelled (ps ++ todo) m' last' level'.
Proof.
  induction todo as [|p todo IH]; intros ps m last level Hl Hs Hf; cbn [level_steps].
  - exists m, last, level. by rewrite app_nil_r.
  - apply StronglySorted_inv in Hs as [Hs Hp]. apply Forall_cons in Hf as [[H1 H2] Hf]. destruct (level_step_ok ps m last level p Hl H1 H2) as (m1 & l1 & -> & Hl1). mred.
    destruct (IH (ps ++ [p]) m1 p l1 Hl1 Hs) as (m' & last' & level' & E & Hl'); [|exists m', last', level'; by rewrite <- app_assoc in Hl'].
    rewrite Forall_forall in Hp, Hf |- *. intros q Hq. split; [by apply Hp|]. by apply Hf.
Qed.
End levels.

(** Strictly farther points of the disc have strictly higher levels, from 0 at
    the centre to the last level. *)
Record levels_table (r : Z) (m : list (list Z)) (max : Z) : Prop := {
  lt_at p : norm2 p <= r * r -> exists k, level_at r m p = Some k /\ 0 <= k <= max /\ (norm2 p = 0 -> k = 0);
  lt_order p q k k' : norm2 p <= r * r -> norm2 q <= r * r -> level_at r m p = Some k -> level_at r m q = Some k' -> norm2 p < norm2 q -> k < k';
  lt_max : 0 <= max;
}.

Lemma generateIntegerDistances_ok R : 0 <= R -> 2 * ((R + 2) * (R + 2)) < 2 ^ 31 ->
  exists m max, generateIntegerDistances R = Some (m, max) /\ levels_table (R + 2) m max.
Proof.
  intros HR Hb. unfold generateIntegerDistances. rewrite assert_ub_true by (by apply Z.ltb_lt). mred. set (r := R + 2).
  assert (Hin : forall p, p ∈ merge_sort closer (disc_points r) <-> norm2 p <= r * r) by (intros p; rewrite merge_sort_Permutation; apply elem_of_disc; lia).
  destruct (level_steps_ok r ltac:(lia) (merge_sort closer (disc_points r)) [] (anew (r * 2 + 1) (anew (r * 2 + 1) 0)) (0, 0) 0) as (m & last & max & -> & Hl).
  - split; [|done|by intros p Hp%not_elem_of_nil|by intros p q k k' Hp%not_elem_of_nil].
    split; [apply alen_anew; lia|]. unfold anew at 1. apply Forall_replicate, alen_anew. lia.
  - apply (StronglySorted_merge_sort closer).
  - apply Forall_forall. intros p Hp. apply Hin in Hp. split; [unfold norm2; cbn; nia|done].
  - mred. exists m, max. split; [done|]. destruct Hl as [_ [H0 _] Hp Ho]. cbn [app] in *. split; [|intros p q k k' H1 H2; apply Ho; by apply Hin|done].
    intros p Hn. destruct (Hp p) as (_ & k & E & Hk & _ & Hz); [by apply Hin|]. by exists k.
Qed.

(** ** The tables *)

Lemma cell_index_inj len i j i' j' : 0 <= j < len -> 0 <= j' < len -> i * len + j = i' * len + j' -> i = i' /\ j = j'.
Proof. intros Hj Hj' E. assert (i = i') by nia. subst. lia. Qed.

Lemma for_range_ext {S} (f g : Z -> S -> option S) lo hi s : (forall i s, lo <= i < hi -> f i s = g i s) -> for_range lo hi f s = for_range lo hi g s.
Proof.
  unfold for_range. intros Hfg. assert (Hn : forall i, lo <= i < lo + Z.of_nat (Z.to_nat (hi - lo)) -> forall s, f i s = g i s) by (intros i Hi t; apply Hfg; lia). clear Hfg.
  revert Hn. generalize (Z.to_nat (hi - lo)). intros n. revert lo s. induction n as [|n IH]; intros lo s Hn; [done|]. cbn [for_up]. rewrite Hn by lia. destruct (g lo s); [|done]. mred. apply IH. intros i Hi. apply Hn. lia.
Qed.

(** A table of [len] by [len] filled by rows. *)
Lemma fill_table {A} (g : Z -> Z -> option A) (v : Z -> Z -> A) len c : 0 <= len -> len * len < 2 ^ 32 -> alen c = len * len ->
  (forall i j, 0 <= i < len -> 0 <= j < len -> g i j = Some (v i j)) ->
  exists c', for_range 0 len (fun i c => for_range 0 len (fun j c => x ← g i j; aset c (u32 (u32 (i * len) + j)) x) c) c = Some c' /\ alen c' = len * len /\
    forall i j, 0 <= i < len -> 0 <= j < len -> aget c' (i * len + j) = Some (v i j).
Proof.
  intros Hn Hb Hc Hg.
  destruct (for_range_inv (fun i c => alen c = len * len /\ forall i' j, 0 <= i' < i -> 0 <= j < len -> aget c (i' * len + j) = Some (v i' j))
    (fun i c => for_range 0 len (fun j c => x ← g i j; aset c (u32 (u32 (i * len) + j)) x) c) 0 len c) as (c' & E & Hl & Hv).
  - done.
  - split; [done|]. intros i' j Hi. lia.
  - intros i c1 Hi [Hl1 Hv1].
    destruct (for_range_inv (fun j c => alen c = len * len /\ (forall i' j', 0 <= i' < i -> 0 <= j' < len -> aget c (i' * len + j') = Some (v i' j')) /\
      forall j', 0 <= j' < j -> aget c (i * len + j') = Some (v i j')) (fun j c => x ← g i j; aset c (u32 (u32 (i * len) + j)) x) 0 len c1) as (c2 & -> & Hl2 & Hv2 & Hw2).
    + done.
    + split; [done|]. split; [done|]. intros j' Hj. lia.
    + intros j c2 Hj (Hl2 & Hv2 & Hw2). rewrite Hg by done. mred. rewrite u32_add_l, u32_small by (unfold is_u32; nia).
      pose proof (index_bound len len j i Hj Hi) as Hk. destruct (aset c2 (i * len + j) (v i j)) as [c3|] eqn:E3; [|rewrite aset_Some in E3 by lia; done].
      exists c3. split; [done|]. split; [by rewrite (aset_len _ _ _ _ E3)|]. split.
      * intros i' j' Hi' Hj'. rewrite (aget_aset _ _ _ _ _ E3). destruct (Z.eqb_spec (i * len + j) (i' * len + j')) as [Eq|_]; [|by apply Hv2].
        apply cell_index_inj in Eq as [-> ->]; done || lia.
      * intros j' Hj'. rewrite (aget_aset _ _ _ _ _ E3). destruct (Z.eqb_spec (i * len + j) (i * len + j')) as [Eq|Hne]; [by replace j' with j by lia|]. apply Hw2. lia.
    + exists c2. split; [done|]. split; [done|]. intros i' j Hi' Hj. destruct (Z.eq_dec i' i) as [->|]; [by apply Hw2|]. apply Hv2; lia.
  - exists c'. split; [exact E|]. split; [done|]. intros i j Hi Hj. by apply Hv.
Qed.

Lemma vresize_len {A} (l : list A) n x : 0 <= n -> alen (vresize l n x) = n.
Proof. intros Hn. unfold vresize, anew. unfold alen in *. rewrite length_app, length_take, length_replicate. lia. Qed.

Section tables.
Context (hypot : spec_float -> spec_float -> spec_float) (exp : spec_float -> spec_float).
Implicit Types l : InflationLayer.

(** [l] has the distances of the radius [R]. *)
Record distances_ok (R : Z) (l : InflationLayer) : Prop := {
  do_len : alen (cached_distances_ l) = (R + 2) * (R + 2);
  do_costs : alen (cached_costs_ l) = (R + 2) * (R + 2);
  do_at i j : 0 <= i < R + 2 -> 0 <= j < R + 2 -> aget (cached_distances_ l) (i * (R + 2) + j) = Some (hypot (f_of_Z i) (f_of_Z j));
}.

(** A radius whose tables are small. *)
Definition small_radius (R : Z) : Prop := 0 <= R /\ 2 * ((R + 2) * (R + 2)) < 2 ^ 31.

(** The distances are those of the radius remembered. *)
Definition cached_ok l : Prop := cached_cell_inflation_radius_ l = 0 \/ distances_ok (cached_cell_inflation_radius_ l) l.

Definition cost_of l (i j : Z) : option Z := computeCost exp l (hypot (f_of_Z i) (f_of_Z j)).
Definition costs_defined l : Prop := forall i j, 0 <= i < cell_inflation_radius_ l + 2 -> 0 <= j < cell_inflation_radius_ l + 2 -> exists v, cost_of l i j = Some v /\ is_u8 v.

Record caches_ok l : Prop := {
  co_radius : 0 < cell_inflation_radius_ l /\ small_radius (cell_inflation_radius_ l);
  co_cached : cached_cell_inflation_radius_ l = cell_inflation_radius_ l;
  co_length : cache_length_ l = cell_inflation_radius_ l + 2;
  co_distances : distances_ok (cell_inflation_radius_ l) l;
  co_costs i j : 0 <= i < cell_inflation_radius_ l + 2 -> 0 <= j < cell_inflation_radius_ l + 2 ->
    exists v, aget (cached_costs_ l) (i * (cell_inflation_radius_ l + 2) + j) = Some v /\ cost_of l i j = Some v /\ is_u8 v;
  co_levels : exists max, levels_table (cell_inflation_radius_ l + 2) (distance_matrix_ l) max /\ inflation_cells_ l = anew (max + 1) [];
}.

(** The layer can update costs, or has nothing to do. *)
Definition caches_ready l : Prop := cached_ok l /\ (cell_inflation_radius_ l = 0 \/ caches_ok l).

Lemma computeCaches_ok l : cached_ok l -> small_radius (cell_inflation_radius_ l) -> costs_defined l ->
  exists l', computeCaches hypot exp l = Some l' /\ caches_ready l' /\
    l' = set_caches l (cached_cell_inflation_radius_ l') (cached_distances_ l') (cached_costs_ l') (distance_matrix_ l') (inflation_cells_ l') (cache_length_ l').
Proof.
  intros Hc Hs Hd. unfold computeCaches. destruct (Z.eqb_spec (cell_inflation_radius_ l) 0) as [E0|Hne]; [exists l; split; [done|]; split; [split; [done|by left]|by destruct l]|].
  set (R := cell_inflation_radius_ l) in *. destruct Hs as [HR Hb]. assert (Hlen : u32 (R + 2) = R + 2) by (apply u32_small; unfold is_u32; nia). rewrite Hlen.
  assert (Harea : u32 ((R + 2) * (R + 2)) = (R + 2) * (R + 2)) by (apply u32_small; unfold is_u32; nia). rewrite Harea.
  match goal with |- context [if ?b then _ else _] => set (cond := b) end.
  assert (Hdist : exists ds cs ca, (if cond then
      distances ← for_range 0 (R + 2) (fun i d => for_range 0 (R + 2) (fun j d => aset d (u32 (u32 (i * (R + 2)) + j)) (hypot (f_of_Z i) (f_of_Z j))) d)
        (vresize (cached_distances_ l) ((R + 2) * (R + 2)) f_zero); Some (distances, vresize (cached_costs_ l) ((R + 2) * (R + 2)) 0, R)
    else Some (cached_distances_ l, cached_costs_ l, cached_cell_inflation_radius_ l)) = Some (ds, cs, ca) /\
    ca = R /\ alen ds = (R + 2) * (R + 2) /\ alen cs = (R + 2) * (R + 2) /\ forall i j, 0 <= i < R + 2 -> 0 <= j < R + 2 -> aget ds (i * (R + 2) + j) = Some (hypot (f_of_Z i) (f_of_Z j))).
  { unfold cond. destruct (Z.eqb_spec R (cached_cell_inflation_radius_ l)) as [Eq|Hneq]; cbn [negb].
    - exists (cached_distances_ l), (cached_costs_ l), R. rewrite <- Eq. destruct Hc as [Hc|[]]; [congruence|]. by rewrite <- Eq in *.
    - destruct (fill_table (fun i j => Some (hypot (f_of_Z i) (f_of_Z j))) (fun i j => hypot (f_of_Z i) (f_of_Z j)) (R + 2) (vresize (cached_distances_ l) ((R + 2) * (R + 2)) f_zero))
        as (ds & E & Hl & Hv); [lia|lia|apply vresize_len; nia|done|].
      exists ds, (vresize (cached_costs_ l) ((R + 2) * (R + 2)) 0), R.
      split; [exact (f_equal (fun o => distances ← o; Some (distances, vresize (cached_costs_ l) ((R + 2) * (R + 2)) 0, R)) E)|]. split_and!; try done. apply vresize_len. nia. }
  destruct Hdist as (ds & cs & ca & -> & -> & Hld & Hlc & Hds). mred.
  assert (Hcost : forall i j, 0 <= i < R + 2 -> 0 <= j < R + 2 -> (d ← aget ds (u32 (u32 (i * (R + 2)) + j)); computeCost exp l d) = Some (default 0 (cost_of l i j))).
  { intros i j Hi Hj. rewrite u32_add_l, u32_small by (unfold is_u32; pose proof (index_bound (R + 2) (R + 2) j i Hj Hi); lia). rewrite Hds by done. mred.
    destruct (Hd i j Hi Hj) as (v & Ev & _). by rewrite Ev. }
  destruct (fill_table (fun i j => d ← aget ds (u32 (u32 (i * (R + 2)) + j)); computeCost exp l d) (fun i j => default 0 (cost_of l i j)) (R + 2) cs) as (cs' & E & Hl' & Hv);
    [lia|lia|done|exact Hcost|].
  assert (E' : for_range 0 (R + 2) (fun i c => for_range 0 (R + 2) (fun j c => d ← aget ds (u32 (u32 (i * (R + 2)) + j)); v ← computeCost exp l d; aset c (u32 (u32 (i * (R + 2)) + j)) v) c) cs = Some cs').
  { rewrite <- E. apply for_range_ext. intros i c Hi. apply for_range_ext. intros j c2 Hj. by destruct (aget ds _). }
  rewrite E'. mred. destruct (generateIntegerDistances_ok R HR Hb) as (m & max & -> & Hlv). mred.
  eexists. split; [done|]. split; [|reflexivity]. split; [right; split; done|]. right. split; cbn; try done.
  - split; [lia|done].
  - intros i j Hi Hj. destruct (Hd i j Hi Hj) as (v & Ev & Hv8). exists v. rewrite Hv by done. rewrite Ev. split_and!; try done.
  - by exists max.
Qed.
End tables.

(** ** The expansion *)

(** What [hypot] has to do with the radius: the comparison with an integer is
    exact, which an error of less than one unit in the last place gives. *)
Definition hypot_cells (hypot : spec_float -> spec_float -> spec_float) (R : Z) : Prop :=
  forall dx dy, 0 <= dx <= R + 1 -> 0 <= dy <= R + 1 -> fgt (hypot (f_of_Z dx) (f_of_Z dy)) (f_of_Z R) = (R * R <? dx * dx + dy * dy).

Definition offset (p s : Z * Z) : Z * Z := (fst p - fst s, snd p - snd s).
(** The square of the distance of two cells. *)
Definition dist2 (p s : Z * Z) : Z := norm2 (offset p s).
Definition adjacent (p q : Z * Z) : Prop := Z.abs (fst p - fst q) + Z.abs (snd p - snd q) = 1.

Definition unseen (seen : list bool) : nat := length (filter (fun b => b = false) seen).

Lemma unseen_set seen k seen' : aget seen k = Some false -> aset seen k true = Some seen' -> unseen seen = Datatypes.S (unseen seen').
Proof.
  intros E E'. apply aget_bounds in E as Hk. rewrite aset_Some in E' by done. injection E' as <-. unfold aget in E. rewrite (proj2 (in_array_spec _ _)) in E by done.
  unfold unseen. rewrite <- (take_drop_middle seen (Z.to_nat k) false E) at 1. rewrite (insert_take_drop _ _ _ (proj1 (lookup_lt_is_Some seen _) (ex_intro _ false E))).
  rewrite !filter_app, !length_app, !filter_cons. cbn. rewrite decide_True by done. rewrite decide_False by done. cbn. lia.
Qed.

Lemma near_axes R x y : 0 <= R -> x * x + y * y <= R * R -> - R <= x <= R /\ - R <= y <= R.
Proof. nia. Qed.

Lemma radius_u32 R : small_radius R -> is_u32 (R + 2) /\ R < 2 ^ 31 - 2.
Proof. intros [HR Hb]. unfold is_u32. ilia; nia. Qed.

Lemma table_u32 R x y : small_radius R -> 0 <= x <= R + 1 -> 0 <= y <= R + 1 -> is_u32 (x * (R + 2) + y).
Proof.
  intros [HR Hb] Hx Hy. assert (Hp : 0 <= x * (R + 2) <= (R + 1) * (R + 2)) by (split; [apply Z.mul_nonneg_nonneg; lia|apply Z.mul_le_mono_nonneg_r; lia]).
  replace ((R + 1) * (R + 2)) with ((R + 2) * (R + 2) - (R + 2)) in Hp by ring. unfold is_u32. ilia.
Qed.

Section expansion.
Context (hypot : spec_float -> spec_float -> spec_float) (exp : spec_float -> spec_float).
Context (l : InflationLayer) (m : Costmap2D) (c : list Z) (min_i min_j max_i max_j : Z).
Context (Hl : caches_ok hypot exp l) (Hm : wf_map m c) (Hw : window_ok m min_i min_j max_i max_j).

Let R := cell_inflation_radius_ l.
Let W := size_x_ m.
Let N := size_y_ m.
Context (Hhyp : hypot_cells hypot R).

Implicit Types (src : Z * Z -> option (Z * Z)) (p q s n : Z * Z) (bins : list (list CellData)).

Definition on_grid (p : Z * Z) : Prop := on_map m (fst p) (snd p).
Definition cell_id (p : Z * Z) : Z := snd p * W + fst p.
Definition data_of (p s : Z * Z) : CellData := mkCell (cell_id p) (fst p) (snd p) (fst s) (snd s).

(** The obstacles inflated: those at most a radius away from the window. *)
Definition source (s : Z * Z) : Prop :=
  on_grid s /\ min_i - R <= fst s < max_i + R /\ min_j - R <= snd s < max_j + R /\ is_source l (lget c (cell_id s)) = true.

(** The cost of an offset, from the table. *)
Definition offset_cost (p s : Z * Z) : Z := default 0 (cost_of hypot exp l (Z.abs (fst p - fst s)) (Z.abs (snd p - snd s))).

(** The cost of a cell reached from [o]. *)
Definition cost_from (o : option (Z * Z)) (p : Z * Z) : Z :=
  let old := lget c (cell_id p) in
  match o with Some s => if bool_decide (in_window min_i min_j max_i max_j (fst p) (snd p)) then inflated l old (offset_cost p s) else old | None => old end.

Record expanding (src : Z * Z -> option (Z * Z)) (arr : list Z) (seen : list bool) (bins : list (list CellData)) : Prop := {
  ex_arr : alen arr = W * N /\ forall p, on_grid p -> aget arr (cell_id p) = Some (cost_from (src p) p);
  ex_seen : alen seen = W * N /\ forall p, on_grid p -> aget seen (cell_id p) = Some (bool_decide (is_Some (src p)));
  ex_bins : alen bins = alen (inflation_cells_ l) /\ forall b bin d, aget bins b = Some bin -> d ∈ bin ->
    exists p s, d = data_of p s /\ on_grid p /\ source s /\ dist2 p s <= R * R /\ level_at (R + 2) (distance_matrix_ l) (offset p s) = Some b;
  ex_src p s : src p = Some s -> on_grid p /\ source s /\ dist2 p s <= R * R;
}.

(** The cell waits in a bin after [b], or among the cells [todo] of [b]. *)
Definition pending (b : Z) (todo : list CellData) (bins : list (list CellData)) (p s : Z * Z) : Prop :=
  exists b', level_at (R + 2) (distance_matrix_ l) (offset p s) = Some b' /\ (b < b' /\ (exists bin, aget bins b' = Some bin /\ data_of p s ∈ bin) \/ b' = b /\ data_of p s ∈ todo).

Definition reached (src : Z * Z -> option (Z * Z)) (p s : Z * Z) : Prop := exists s', src p = Some s' /\ dist2 p s' <= dist2 p s.

Record frontier (b : Z) (todo : list CellData) (src : Z * Z -> option (Z * Z)) (bins : list (list CellData)) : Prop := {
  fr_level p s : src p = Some s -> exists k, level_at (R + 2) (distance_matrix_ l) (offset p s) = Some k /\ k <= b;
  fr_next p s n : src p = Some s -> adjacent p n -> on_grid n -> dist2 p s < dist2 n s -> dist2 n s <= R * R -> reached src n s \/ pending b todo bins n s;
  fr_source s : source s -> src s = Some s \/ pending b todo bins s s;
}.

Lemma cell_id_range p : on_grid p -> 0 <= cell_id p < W * N.
Proof using All. intros [Hx Hy]. apply index_bound; done. Qed.

Lemma cell_id_inj p q : on_grid p -> on_grid q -> cell_id p = cell_id q -> p = q.
Proof using All. intros [Hp _] [Hq _] E. destruct p as [x y], q as [x' y']. unfold cell_id, W in E. cbn [fst snd] in *. apply cell_index_inj in E as [-> ->]; done. Qed.

Lemma dist2_self s : dist2 s s = 0.
Proof using All. unfold dist2, offset, norm2. cbn. nia. Qed.

Lemma close_levels p s q t k k' : dist2 p s <= R * R -> dist2 q t <= R * R -> level_at (R + 2) (distance_matrix_ l) (offset p s) = Some k ->
  level_at (R + 2) (distance_matrix_ l) (offset q t) = Some k' -> k <= k' -> dist2 p s <= dist2 q t.
Proof using All.
  intros Hp Hq E E' Hk. destruct (Z.le_gt_cases (dist2 p s) (dist2 q t)) as [|Hlt]; [done|exfalso]. destruct (co_radius _ _ _ Hl) as [HR _]. fold R in HR.
  destruct (co_levels _ _ _ Hl) as (max & Ht & _). fold R in Ht. pose proof (lt_order _ _ _ Ht (offset q t) (offset p s) k' k) as Ho. unfold dist2 in *.
  assert (HRR : R * R <= (R + 2) * (R + 2)) by (apply Z.mul_le_mono_nonneg; lia). assert (k' < k) by (apply Ho; done || lia). lia.
Qed.

Lemma level_of p s : dist2 p s <= R * R -> exists k, level_at (R + 2) (distance_matrix_ l) (offset p s) = Some k.
Proof using All.
  intros Hd. destruct (co_radius _ _ _ Hl) as [HR _]. fold R in HR. destruct (co_levels _ _ _ Hl) as (max & Ht & _). fold R in Ht.
  destruct (lt_at _ _ _ Ht (offset p s)) as (k & E & _); [|by exists k]. unfold dist2 in Hd. assert (R * R <= (R + 2) * (R + 2)) by (apply Z.mul_le_mono_nonneg; lia). lia.
Qed.

Lemma farther_levels p s q t k k' : dist2 q t <= R * R -> dist2 p s < dist2 q t -> level_at (R + 2) (distance_matrix_ l) (offset p s) = Some k ->
  level_at (R + 2) (distance_matrix_ l) (offset q t) = Some k' -> k < k'.
Proof using All.
  intros Hq Hlt E E'. destruct (Z.lt_ge_cases k k') as [|Hge]; [done|]. pose proof (close_levels q t p s k' k Hq ltac:(lia) E' E Hge). lia.
Qed.

(** A bin added to. *)
Definition grown (bins bins' : list (list CellData)) : Prop :=
  alen bins' = alen bins /\ forall b bin, aget bins b = Some bin -> exists ext, aget bins' b = Some (bin ++ ext) /\ (length ext <= 1)%nat.

Lemma enqueue_ok src seen bins p s n : (alen seen = W * N /\ forall p, on_grid p -> aget seen (cell_id p) = Some (bool_decide (is_Some (src p)))) ->
  alen bins = alen (inflation_cells_ l) -> source s -> on_grid n -> adjacent p n -> dist2 p s <= R * R ->
  exists bins', enqueue l seen (cell_id n) (fst n) (snd n) (fst s) (snd s) bins = Some bins' /\
    (bins' = bins /\ (is_Some (src n) \/ R * R < dist2 n s) \/
     src n = None /\ dist2 n s <= R * R /\ exists b bin, level_at (R + 2) (distance_matrix_ l) (offset n s) = Some b /\ aget bins b = Some bin /\ aset bins b (bin ++ [data_of n s]) = Some bins').
Proof using All.
  intros [Hls Hs] Hbl Hsrc Hn Ha Hd. unfold enqueue. rewrite Hs by done. mred. case_bool_decide as Hsome; [exists bins; split; [done|]; left; by split; [|left]|].
  assert (Hnone : src n = None) by (destruct (src n); [by destruct Hsome|done]).
  destruct (co_radius _ _ _ Hl) as (HR & Hsr). fold R in HR, Hsr. destruct (radius_u32 R Hsr) as [Hru HR31]. destruct Hsrc as ([Hsx Hsy] & _). destruct Hn as [Hnx Hny]. pose proof Hm as [Hsz1 Hsz2 Har _ _].
  set (dx := fst n - fst s). set (dy := snd n - snd s).
  assert (Hdx : - (R + 1) <= dx <= R + 1 /\ - (R + 1) <= dy <= R + 1).
  { destruct (near_axes R (fst p - fst s) (snd p - snd s) ltac:(lia) Hd) as [H1 H2]. unfold adjacent in Ha. subst dx dy. lia. }
  assert (Hti : table_index l (fst n) (snd n) (fst s) (snd s) = Z.abs dx * (R + 2) + Z.abs dy).
  { unfold table_index. rewrite (co_length _ _ _ Hl). fold R.
    replace (if fst s <? fst n then fst n - fst s else fst s - fst n) with (Z.abs dx) by (destruct (Z.ltb_spec (fst s) (fst n)); lia).
    replace (if snd s <? snd n then snd n - snd s else snd s - snd n) with (Z.abs dy) by (destruct (Z.ltb_spec (snd s) (snd n)); lia).
    rewrite u32_add_l, u32_small; [done|]. apply table_u32; [done|lia|lia]. }
  unfold distanceLookup. rewrite Hti, (do_at _ _ _ (co_distances _ _ _ Hl)) by (fold R; lia). mred. rewrite Hhyp by lia.
  assert (Hnorm : Z.abs dx * Z.abs dx + Z.abs dy * Z.abs dy = dist2 n s) by (rewrite !Z.abs_square; reflexivity). rewrite Hnorm.
  destruct (Z.ltb_spec (R * R) (dist2 n s)) as [Hfar|Hnear]; [exists bins; split; [done|]; left; by split; [|right]|].
  fold R. assert (Hu : u32 (R + 2) = R + 2) by (by apply u32_small). rewrite Hu.
  assert (Hx : u32 (u32 dx + (R + 2)) = dx + (R + 2)) by (rewrite u32_add_l, u32_small; [done|unfold is_u32 in *; lia]).
  assert (Hy : u32 (u32 dy + (R + 2)) = dy + (R + 2)) by (rewrite u32_add_l, u32_small; [done|unfold is_u32 in *; lia]). rewrite Hx, Hy.
  destruct (co_levels _ _ _ Hl) as (max & Ht & Ebins). fold R in Ht. destruct (lt_at _ _ _ Ht (offset n s)) as (b & Eb & Hbm & _); [transitivity (R * R); [exact Hnear|apply Z.mul_le_mono_nonneg; lia]|].
  change (matrix_get (distance_matrix_ l) (dx + (R + 2)) (dy + (R + 2))) with (level_at (R + 2) (distance_matrix_ l) (offset n s)). rewrite Eb. mred.
  assert (Hbl2 : alen bins = max + 1) by (rewrite Hbl, Ebins, alen_anew; lia).
  destruct (aget_is_Some bins b) as [bin Ebin]; [lia|]. rewrite Ebin. mred. change (mkCell (cell_id n) (fst n) (snd n) (fst s) (snd s)) with (data_of n s).
  destruct (aset bins b (bin ++ [data_of n s])) as [bins'|] eqn:E'; [|rewrite aset_Some in E' by lia; done].
  exists bins'. split; [done|]. right. split; [done|]. split; [done|]. by exists b, bin.
Qed.

(** The bins hold cells of their level, near an obstacle. *)
Definition bins_ok bins : Prop := alen bins = alen (inflation_cells_ l) /\ forall b bin d, aget bins b = Some bin -> d ∈ bin ->
  exists p s, d = data_of p s /\ on_grid p /\ source s /\ dist2 p s <= R * R /\ level_at (R + 2) (distance_matrix_ l) (offset p s) = Some b.

Definition grows (k : nat) bins bins' : Prop := forall b bin, aget bins b = Some bin -> exists ext, aget bins' b = Some (bin ++ ext) /\ (length ext <= k)%nat.

Lemma grows_0 bins : grows 0 bins bins.
Proof using All. intros b bin E. exists []. by rewrite app_nil_r. Qed.

Lemma grows_trans j k bins bins1 bins2 : grows j bins bins1 -> grows k bins1 bins2 -> grows (j + k) bins bins2.
Proof using All.
  intros H1 H2 b bin E. destruct (H1 b bin E) as (e1 & E1 & L1). destruct (H2 b _ E1) as (e2 & E2 & L2). exists (e1 ++ e2). rewrite <- app_assoc in E2. split; [done|]. rewrite length_app. lia.
Qed.

Definition offered bins p s : Prop := exists b bin, level_at (R + 2) (distance_matrix_ l) (offset p s) = Some b /\ aget bins b = Some bin /\ data_of p s ∈ bin.

Lemma offered_grows k bins bins' p s : grows k bins bins' -> offered bins p s -> offered bins' p s.
Proof using All. intros Hg (b & bin & E & Eb & Hin). destruct (Hg b bin Eb) as (ext & E' & _). exists b, (bin ++ ext). split; [done|]. split; [done|]. apply elem_of_app. by left. Qed.

(** One of the four calls of [enqueue]. *)
Lemma offer_ok src seen bins p s n (cond : bool) index nx ny : (alen seen = W * N /\ forall p, on_grid p -> aget seen (cell_id p) = Some (bool_decide (is_Some (src p)))) ->
  bins_ok bins -> source s -> adjacent p n -> dist2 p s <= R * R -> (cond = true -> on_grid n /\ index = cell_id n /\ nx = fst n /\ ny = snd n) ->
  exists bins', (if cond then enqueue l seen index nx ny (fst s) (snd s) bins else Some bins) = Some bins' /\ bins_ok bins' /\ grows 1 bins bins' /\
    (cond = true -> is_Some (src n) \/ R * R < dist2 n s \/ offered bins' n s).
Proof using All.
  intros Hs [Hbl Hb] Hsrc Ha Hd Hc. destruct cond; [|exists bins; split; [done|]; split; [done|]; split; [|done]; intros b bin E; exists []; rewrite app_nil_r; split; [done|cbn; lia]].
  destruct (Hc eq_refl) as (Hn & -> & -> & ->). destruct (enqueue_ok src seen bins p s n Hs Hbl Hsrc Hn Ha Hd) as (bins' & E & [[-> Hor]|(Hnone & Hnear & b & bin & Eb & Ebin & Eset)]).
  - exists bins. split; [done|]. split; [done|]. split; [intros b bin Eb; exists []; rewrite app_nil_r; split; [done|cbn; lia]|]. intros _. destruct Hor as [?|?]; [by left|right; by left].
  - exists bins'. split; [done|]. assert (Hg : forall b', aget bins' b' = if b =? b' then Some (bin ++ [data_of n s]) else aget bins b') by (intros b'; apply (aget_aset _ _ _ _ _ Eset)).
    split; [split; [by rewrite (aset_len _ _ _ _ Eset)|]|split].
    + intros b' bin' d E' Hd'. rewrite Hg in E'. destruct (Z.eqb_spec b b') as [<-|Hne]; [|by apply (Hb b' bin')]. injection E' as <-. apply elem_of_app in Hd' as [Hd'|Hd']; [by apply (Hb b bin)|].
      apply list_elem_of_singleton in Hd' as ->. exists n, s. split_and!; done.
    + intros b' bin' E'. rewrite Hg. destruct (Z.eqb_spec b b') as [<-|Hne]; [|exists []; rewrite app_nil_r; split; [done|cbn; lia]]. rewrite Ebin in E'. injection E' as <-. by exists [data_of n s].
    + intros _. right. right. exists b, (bin ++ [data_of n s]). split; [done|]. split; [by rewrite Hg, Z.eqb_refl|]. apply elem_of_app. right. by apply list_elem_of_singleton.
Qed.

Definition mark src p s : Z * Z -> option (Z * Z) := fun q => if decide (q = p) then Some s else src q.

Lemma mark_same src p s : mark src p s p = Some s.
Proof using All. unfold mark. by rewrite decide_True. Qed.
Lemma mark_other src p s q : q <> p -> mark src p s q = src q.
Proof using All. intros Hne. unfold mark. by rewrite decide_False. Qed.

Lemma set_cell {A} (a a' : list A) p x (f f' : Z * Z -> option A) : alen a = W * N -> on_grid p -> aset a (cell_id p) x = Some a' ->
  (forall q, on_grid q -> aget a (cell_id q) = f q) -> f' p = Some x -> (forall q, q <> p -> f' q = f q) -> forall q, on_grid q -> aget a' (cell_id q) = f' q.
Proof using All.
  intros Hla Hp E Hf Hx Ho q Hq. rewrite (aget_aset _ _ _ _ _ E). destruct (Z.eqb_spec (cell_id p) (cell_id q)) as [Eq|Hne].
  - apply cell_id_inj in Eq as <-; done.
  - rewrite Ho; [by apply Hf|]. intros ->. done.
Qed.

Lemma costLookup_ok p s : dist2 p s <= R * R -> costLookup l (fst p) (snd p) (fst s) (snd s) = Some (offset_cost p s).
Proof using All.
  intros Hd. destruct (co_radius _ _ _ Hl) as (HR & Hsr). fold R in HR, Hsr. unfold costLookup, table_index. rewrite (co_length _ _ _ Hl). fold R.
  destruct (near_axes R (fst p - fst s) (snd p - snd s) ltac:(lia) Hd) as [H1 H2].
  replace (if fst s <? fst p then fst p - fst s else fst s - fst p) with (Z.abs (fst p - fst s)) by (destruct (Z.ltb_spec (fst s) (fst p)); lia).
  replace (if snd s <? snd p then snd p - snd s else snd s - snd p) with (Z.abs (snd p - snd s)) by (destruct (Z.ltb_spec (snd s) (snd p)); lia).
  rewrite u32_add_l, u32_small by (apply table_u32; [done|lia|lia]).
  destruct (co_costs _ _ _ Hl (Z.abs (fst p - fst s)) (Z.abs (snd p - snd s))) as (v & E & Ev & _); [fold R; lia..|]. fold R in E. rewrite E. unfold offset_cost. by rewrite Ev.
Qed.

Lemma pending_cons b p s todo bins q t : pending b (data_of p s :: todo) bins q t ->
  (q = p /\ level_at (R + 2) (distance_matrix_ l) (offset p t) = Some b) \/ pending b todo bins q t.
Proof using All.
  intros (b' & E' & [(Hlt & Hin)|[-> Hin]]); [right; exists b'; split; [done|]; by left|]. apply elem_of_cons in Hin as [Hin|Hin]; [|right; exists b; split; [done|]; by right].
  left. assert (q = p) as ->; [|done]. injection Hin as _ Hx Hy _ _. destruct p, q. cbn in *. congruence.
Qed.

Lemma pending_grows k b todo bins bins' q t : grows k bins bins' -> pending b todo bins q t -> pending b todo bins' q t.
Proof using All.
  intros Hg (b' & E & [(Hlt & bin & Eb & Hin)|?]); [|exists b'; split; [done|]; by right]. destruct (Hg b' bin Eb) as (ext & E' & _). exists b'. split; [done|]. left. split; [done|].
  exists (bin ++ ext). split; [done|]. apply elem_of_app. by left.
Qed.

(** Later levels are farther. *)
Lemma pending_farther b todo bins p s q t : pending b todo bins q t -> dist2 q t <= R * R -> dist2 p s <= R * R -> level_at (R + 2) (distance_matrix_ l) (offset p s) = Some b ->
  dist2 p s <= dist2 q t.
Proof using All. intros (b' & E & Hor) Hq Hp Eb. apply (close_levels p s q t b b'); try done. destruct Hor as [[? _]|[-> _]]; lia. Qed.

Lemma dist2_zero p s : dist2 p s <= 0 -> s = p.
Proof using All. intros Hz. destruct (near_axes 0 (fst p - fst s) (snd p - snd s) ltac:(lia) Hz). destruct p as [px py], s as [qx qy]. cbn [fst snd] in *. f_equal; lia. Qed.

(** A cell of the bin [b], visited. *)
Lemma visit_ok b todo src arr seen bins p s : expanding src arr seen bins -> frontier b (data_of p s :: todo) src bins -> 0 <= b ->
  on_grid p -> source s -> dist2 p s <= R * R -> level_at (R + 2) (distance_matrix_ l) (offset p s) = Some b ->
  exists src' arr' seen' bins', visit l W N min_i min_j max_i max_j (data_of p s) (arr, seen, bins) = Some (arr', seen', bins') /\
    expanding src' arr' seen' bins' /\ frontier b todo src' bins' /\
    (seen' = seen /\ bins' = bins \/ unseen seen = Datatypes.S (unseen seen') /\ grows 4 bins bins').
Proof using All.
  intros [[Hla Ha] [Hls Hs] Hb Hsrc] [Hfl Hfn Hfs] Hb0 Hp Hss Hd Hlv. unfold visit. cbn [index_ x_ y_ src_x_ src_y_ data_of]. rewrite (Hs p Hp). mred. case_bool_decide as Hseen.
  - exists src, arr, seen, bins. split; [done|]. split; [by split|]. split; [|by left]. destruct Hseen as [s' Es'].
    split; [done| |].
    + intros q t n Eq Hadj Hn Hlt Hle. destruct (Hfn q t n Eq Hadj Hn Hlt Hle) as [?|Hpend]; [by left|]. apply pending_cons in Hpend as [[-> Hlv']|?]; [left|by right].
      exists s'. split; [done|]. destruct (Hfl p s' Es') as (k & Ek & Hk). apply (close_levels p s' p t k b); [by apply Hsrc|done|done|done|done].
    + intros t Ht. destruct (Hfs t Ht) as [?|Hpend]; [by left|]. apply pending_cons in Hpend as [[-> Hlv']|?]; [left|by right].
      destruct (Hfl p s' Es') as (k & Ek & Hk). pose proof (close_levels p s' p p k b (proj2 (proj2 (Hsrc _ _ Es'))) ltac:(rewrite dist2_self; apply Z.square_nonneg) Ek Hlv' Hk) as Hz. rewrite dist2_self in Hz.
      apply dist2_zero in Hz. congruence.
  - assert (Hnone : src p = None) by (destruct (src p); [by destruct Hseen|done]). pose proof (cell_id_range p Hp) as Hid.
    destruct (aset seen (cell_id p) true) as [seen'|] eqn:Eseen; [|by rewrite aset_Some in Eseen by lia]. mred. rewrite costLookup_ok by done. mred. rewrite (Ha p Hp), Hnone. mred.
    destruct Hp as [Hpx Hpy]. pose proof Hm as [Hsz1 Hsz2 Har _ _]. assert (Hp : on_grid p) by done.
    rewrite (s32_small (fst p)), (s32_small (snd p)) by (unfold is_s32; lia).
    assert (Hwin : ((min_i <=? fst p) && (min_j <=? snd p) && (fst p <? max_i) && (snd p <? max_j)) = bool_decide (in_window min_i min_j max_i max_j (fst p) (snd p))).
    { destruct (bool_decide_reflect (in_window min_i min_j max_i max_j (fst p) (snd p))) as [[Hx Hy]|Hn]; [zbool; lia|]. apply not_true_is_false. intros E. apply Hn. unfold in_window. zbool. lia. }
    rewrite Hwin. set (src' := mark src p s).
    assert (Harr : exists arr', (if bool_decide (in_window min_i min_j max_i max_j (fst p) (snd p)) then aset arr (cell_id p) (inflated l (cost_from None p) (offset_cost p s)) else Some arr) = Some arr' /\
      alen arr' = W * N /\ forall q, on_grid q -> aget arr' (cell_id q) = Some (cost_from (src' q) q)).
    { case_bool_decide as Hin.
      - destruct (aset arr (cell_id p) _) as [arr'|] eqn:Earr; [|by rewrite aset_Some in Earr by lia]. exists arr'. split; [done|]. split; [by rewrite (aset_len _ _ _ _ Earr)|].
        apply (set_cell arr arr' p _ (fun q => Some (cost_from (src q) q)) (fun q => Some (cost_from (src' q) q)) Hla Hp Earr Ha).
        + unfold src'. rewrite mark_same. cbn [cost_from]. by rewrite bool_decide_eq_true_2.
        + intros q Hq. unfold src'. by rewrite mark_other.
      - exists arr. split; [done|]. split; [done|]. intros q Hq. rewrite Ha by done. unfold src'. destruct (decide (q = p)) as [->|Hne]; [|by rewrite mark_other].
        rewrite mark_same, Hnone. cbn [cost_from]. by rewrite bool_decide_eq_false_2. }
    destruct Harr as (arr' & -> & Hla' & Ha'). mred.
    assert (Hs' : alen seen' = W * N /\ forall q, on_grid q -> aget seen' (cell_id q) = Some (bool_decide (is_Some (src' q)))).
    { split; [by rewrite (aset_len _ _ _ _ Eseen)|].
      apply (set_cell seen seen' p true (fun q => Some (bool_decide (is_Some (src q)))) (fun q => Some (bool_decide (is_Some (src' q)))) Hls Hp Eseen Hs).
      - unfold src'. by rewrite mark_same.
      - intros q Hq. unfold src'. by rewrite mark_other. }
    assert (Hcid : forall dx dy, on_grid (fst p + dx, snd p + dy) -> cell_id (fst p + dx, snd p + dy) = cell_id p + dy * W + dx) by (intros dx dy _; unfold cell_id; cbn [fst snd]; lia).
    assert (HWN : W * N <= 2 ^ 31) by exact Har. assert (Hog : forall dx dy, on_grid (fst p + dx, snd p + dy) <-> (0 <= fst p + dx < W /\ 0 <= snd p + dy < N)) by done.
    destruct (offer_ok src' seen' bins p s (fst p + -1, snd p + 0) (0 <? fst p) (u32 (cell_id p - 1)) (fst p - 1) (snd p) Hs' Hb Hss) as (b1 & -> & Hb1 & G1 & O1); [unfold adjacent; cbn; lia|done| |].
    { intros Hc%Z.ltb_lt. assert (Hg : on_grid (fst p + -1, snd p + 0)) by (apply Hog; unfold W, N; lia). pose proof (cell_id_range _ Hg) as Hr. rewrite Hcid in Hr |- * by done. split; [done|].
      rewrite u32_small by (unfold is_u32; lia). cbn. split_and!; lia. }
    mred. destruct (offer_ok src' seen' b1 p s (fst p + 0, snd p + -1) (0 <? snd p) (u32 (cell_id p - W)) (fst p) (snd p - 1) Hs' Hb1 Hss) as (b2 & -> & Hb2 & G2 & O2); [unfold adjacent; cbn; lia|done| |].
    { intros Hc%Z.ltb_lt. assert (Hg : on_grid (fst p + 0, snd p + -1)) by (apply Hog; unfold W, N; lia). pose proof (cell_id_range _ Hg) as Hr. rewrite Hcid in Hr |- * by done. split; [done|].
      rewrite u32_small by (unfold is_u32; lia). cbn. split_and!; lia. }
    mred. rewrite (u32_small (W - 1)), (u32_small (N - 1)) by (unfold is_u32, W, N; lia).
    destruct (offer_ok src' seen' b2 p s (fst p + 1, snd p + 0) (fst p <? W - 1) (u32 (cell_id p + 1)) (u32 (fst p + 1)) (snd p) Hs' Hb2 Hss) as (b3 & -> & Hb3 & G3 & O3); [unfold adjacent; cbn; lia|done| |].
    { intros Hc%Z.ltb_lt. assert (Hg : on_grid (fst p + 1, snd p + 0)) by (apply Hog; unfold W, N in *; lia). pose proof (cell_id_range _ Hg) as Hr. rewrite Hcid in Hr |- * by done. split; [done|].
      rewrite !u32_small by (unfold is_u32, W in *; lia). cbn. split_and!; lia. }
    mred. destruct (offer_ok src' seen' b3 p s (fst p + 0, snd p + 1) (snd p <? N - 1) (u32 (cell_id p + W)) (fst p) (u32 (snd p + 1)) Hs' Hb3 Hss) as (b4 & -> & Hb4 & G4 & O4); [unfold adjacent; cbn; lia|done| |].
    { intros Hc%Z.ltb_lt. assert (Hg : on_grid (fst p + 0, snd p + 1)) by (apply Hog; unfold W, N in *; lia). pose proof (cell_id_range _ Hg) as Hr. rewrite Hcid in Hr |- * by done. split; [done|].
      rewrite !u32_small by (unfold is_u32, N in *; lia). cbn. split_and!; lia. }
    mred. exists src', arr', seen', b4. split; [done|].
    assert (Hgrow : grows 4 bins b4) by exact (grows_trans 3 1 _ _ _ (grows_trans 2 1 _ _ _ (grows_trans 1 1 _ _ _ G1 G2) G3) G4).
    assert (Hother : forall q t, src q = Some t -> src' q = Some t) by (intros q t Eq; unfold src'; rewrite mark_other; [done|congruence]).
    split; [split; [done|done|done|]|split; [split|by right; split; [by apply (unseen_set _ (cell_id p)); [rewrite Hs, Hnone|]|]]].
    + intros q t. unfold src', mark. destruct (decide (q = p)) as [->|]; [intros [= <-]; done|apply Hsrc].
    + intros q t. unfold src', mark. destruct (decide (q = p)) as [->|]; [intros [= <-]; by exists b|apply Hfl].
    + intros q t n Eq Hadj Hn Hlt Hle. destruct (decide (q = p)) as [->|Hne].
      * unfold src' in Eq. rewrite mark_same in Eq. injection Eq as <-.
        assert (Hoff : is_Some (src' n) \/ offered b4 n s).
        { assert (Hd4 : n = (fst p + -1, snd p + 0) \/ n = (fst p + 0, snd p + -1) \/ n = (fst p + 1, snd p + 0) \/ n = (fst p + 0, snd p + 1)).
          { unfold adjacent in Hadj. destruct n as [nx ny], p as [px py]. cbn [fst snd] in *. destruct (Z.eq_dec nx px) as [->|]; [destruct (Z.lt_ge_cases ny py)|destruct (Z.lt_ge_cases nx px)].
            - right. left. f_equal; lia.
            - right. right. right. f_equal; lia.
            - left. f_equal; lia.
            - right. right. left. f_equal; lia. }
          destruct Hn as [Hnx Hny]. fold W in Hnx. fold N in Hny. destruct Hd4 as [-> | [-> | [-> | ->]]]; cbn [fst snd] in Hnx, Hny.
          - destruct O1 as [?|[?|?]]; [apply Z.ltb_lt; lia|by left|lia|right]. apply (offered_grows 3 b1); [exact (grows_trans 2 1 _ _ _ (grows_trans 1 1 _ _ _ G2 G3) G4)|done].
          - destruct O2 as [?|[?|?]]; [apply Z.ltb_lt; lia|by left|lia|right]. apply (offered_grows 2 b2); [exact (grows_trans 1 1 _ _ _ G3 G4)|done].
          - destruct O3 as [?|[?|?]]; [apply Z.ltb_lt; lia|by left|lia|right]. by apply (offered_grows 1 b3).
          - destruct O4 as [?|[?|?]]; [apply Z.ltb_lt; lia|by left|lia|by right]. }
        destruct (level_of n s Hle) as (kn & Ekn). assert (Hbk : b < kn) by (apply (farther_levels p s n s); done). destruct Hoff as [[s' Es']|(b' & bin & E' & Ebin & Hin)].
        -- left. exists s'. split; [done|]. unfold src' in Es'. rewrite mark_other in Es' by (intros ->; lia). destruct (Hfl n s' Es') as (k & Ek & Hk).
           apply (close_levels n s' n s k kn); [by apply Hsrc|done|done|done|lia].
        -- right. rewrite Ekn in E'. injection E' as <-. exists kn. split; [done|]. left. split; [done|]. by exists bin.
      * unfold src' in Eq. rewrite mark_other in Eq by done. destruct (Hfn q t n Eq Hadj Hn Hlt Hle) as [(s' & Es' & Hs'')|Hpend]; [left; exists s'; split; [by apply Hother|done]|].
        apply pending_cons in Hpend as Hpend'. destruct Hpend' as [[-> Hlv']|Hpend']; [left|right; by apply (pending_grows 4 _ _ bins)].
        exists s. split; [apply mark_same|]. by apply (pending_farther b (data_of p s :: todo) bins).
    + intros t Ht. destruct (Hfs t Ht) as [Et|Hpend]; [left; by apply Hother|]. apply pending_cons in Hpend as Hpend'. destruct Hpend' as [[-> Hlv']|Hpend']; [left|right; by apply (pending_grows 4 _ _ bins)].
      assert (Hz : dist2 p s <= dist2 p p) by (apply (pending_farther b (data_of p s :: todo) bins); [done|rewrite dist2_self; apply Z.square_nonneg|done|done]).
      rewrite dist2_self in Hz. apply dist2_zero in Hz. transitivity (Some s); [apply mark_same|by f_equal].
Qed.


Lemma frontier_more b todo todo' src bins : (forall d, d ∈ todo -> d ∈ todo') -> frontier b todo src bins -> frontier b todo' src bins.
Proof using All.
  intros Hsub [Hfl Hfn Hfs]. assert (Hp : forall p s, pending b todo bins p s -> pending b todo' bins p s).
  { intros p s (b' & E & [?|[-> Hin]]); [exists b'; split; [done|]; by left|exists b; split; [done|]; right; auto]. }
  split; [done| |].
  - intros p s n Es Ha Hn H1 H2. destruct (Hfn p s n Es Ha Hn H1 H2); auto.
  - intros s Hs. destruct (Hfs s Hs); auto.
Qed.

(** From the end of a bin to the next. *)
Lemma frontier_next b src bins bin : aget bins (b + 1) = Some bin -> frontier b [] src bins -> frontier (b + 1) bin src bins.
Proof using All.
  intros Ebin [Hfl Hfn Hfs]. assert (Hp : forall p s, pending b [] bins p s -> pending (b + 1) bin bins p s).
  { intros p s (b' & E & [[Hlt (bin' & E' & Hin)]|[_ Hin%not_elem_of_nil]]); [|done]. exists b'. split; [done|]. destruct (Z.eq_dec b' (b + 1)) as [->|].
    - right. split; [done|]. congruence.
    - left. split; [lia|]. by exists bin'. }
  split; [intros p s Es; destruct (Hfl p s Es) as (k & E & Hk); exists k; split; [done|lia]| |].
  - intros p s n Es Ha Hn H1 H2. destruct (Hfn p s n Es Ha Hn H1 H2); auto.
  - intros s Hs. destruct (Hfs s Hs); auto.
Qed.

(** A bin emptied. *)
Lemma visit_bin_ok b bin src arr seen bins : expanding src arr seen bins -> aget bins b = Some bin -> frontier b bin src bins ->
  exists src' arr' seen' bins', visit_bin l W N min_i min_j max_i max_j b (arr, seen, bins) = Some (arr', seen', bins') /\
    expanding src' arr' seen' bins' /\ frontier b [] src' bins'.
Proof using All.
  intros Hex Ebin Hfr. unfold visit_bin. cbn [fst snd]. rewrite Ebin. mred. apply aget_bounds in Ebin as Hb.
  destruct (loop_inv (fun '(i, (arr, seen, bins)) => exists src bin, 0 <= i <= alen bin /\ aget bins b = Some bin /\ expanding src arr seen bins /\ frontier b (drop (Z.to_nat i) bin) src bins)
    (fun '(i, (arr, seen, bins)) => exists src, expanding src arr seen bins /\ frontier b [] src bins)
    (fun '(i, (arr, seen, bins)) => (length (default [] (aget bins b)) - Z.to_nat i + 4 * unseen seen)%nat)
    (fun '(i, st) => bin ← aget (snd st) b; match aget bin i with
      | None => Some (Break (i, st))
      | Some cell => st ← visit l W N min_i min_j max_i max_j cell st; Some (Next (i + 1, st)) end)) with (fuel := Datatypes.S (length bin + 4 * length seen)) (s := (0, (arr, seen, bins)))
    as ([i [[arr' seen'] bins']] & -> & src' & Hex' & Hfr').
  - clear src arr seen bins Hex bin Ebin Hfr Hb. intros [i [[arr seen] bins]] (src & bin & Hi & Ebin & Hex & Hfr). cbn [snd]. rewrite Ebin. mred. destruct (aget bin i) as [d|] eqn:Ed.
    + assert (Hdrop : drop (Z.to_nat i) bin = d :: drop (Datatypes.S (Z.to_nat i)) bin).
      { apply drop_S. apply aget_bounds in Ed as Hd. unfold aget in Ed. by rewrite (proj2 (in_array_spec _ _)) in Ed. }
      destruct (ex_bins _ _ _ _ Hex) as [Hbl Hbs]. destruct (Hbs b bin d Ebin (aget_elem _ _ _ Ed)) as (p & s & -> & Hp & Hs & Hd & Hlv). rewrite Hdrop in Hfr.
      apply aget_bounds in Ebin as Hb. apply aget_bounds in Ed as Hid.
      destruct (visit_ok b (drop (Datatypes.S (Z.to_nat i)) bin) src arr seen bins p s Hex Hfr ltac:(lia) Hp Hs Hd Hlv) as (src' & arr' & seen' & bins' & -> & Hex' & Hfr' & Hor). mred.
      eexists. split; [done|]. assert (HS : Z.to_nat (i + 1) = Datatypes.S (Z.to_nat i)) by lia. destruct Hor as [[-> ->]|[Hun Hg]].
      * split; [|rewrite ?Ebin; cbn [default]; unfold id, alen in *; lia]. exists src', bin. rewrite HS. split_and!; [lia|lia|done|done|done].
      * destruct (Hg b bin Ebin) as (ext & E' & Hext). split; [|rewrite E'; cbn [default]; unfold id; rewrite length_app; unfold alen in *; lia].
        exists src', (bin ++ ext). rewrite HS. split; [unfold alen in *; rewrite length_app; lia|]. split; [done|]. split; [done|]. apply (frontier_more _ (drop (Datatypes.S (Z.to_nat i)) bin)); [|done].
        intros d Hin. rewrite drop_app. apply elem_of_app. by left.
    + eexists. split; [done|]. exists src. split; [done|]. rewrite drop_ge in Hfr; [done|]. destruct (Z.le_gt_cases (alen bin) i); [unfold alen in *; lia|].
      destruct (aget_is_Some bin i) as [x Ex]; [lia|congruence].
  - exists src, bin. split; [unfold alen; lia|]. by rewrite drop_0.
  - rewrite Ebin. cbn [default]. unfold id, unseen. pose proof (length_filter (fun b => b = false) seen). lia.
  - exists src', arr', seen', bins'. done.
Qed.

(** The obstacles of a window of the map. *)
Lemma obstacle_bin_ok lo_i lo_j hi_i hi_j : 0 <= lo_i <= hi_i -> hi_i <= W -> 0 <= lo_j <= hi_j -> hi_j <= N ->
  exists bin, obstacle_bin l m c lo_i lo_j hi_i hi_j = Some bin /\
    forall d, d ∈ bin <-> exists s, d = data_of s s /\ lo_i <= fst s < hi_i /\ lo_j <= snd s < hi_j /\ is_source l (lget c (cell_id s)) = true.
Proof using All.
  intros Hi1 Hi2 Hj1 Hj2. unfold obstacle_bin. pose proof Hm as [Hsz1 Hsz2 Har _ Hlen].
  destruct (for_range_inv (fun j bin => forall d, d ∈ bin <-> exists s, d = data_of s s /\ lo_i <= fst s < hi_i /\ lo_j <= snd s < j /\ is_source l (lget c (cell_id s)) = true)
    (fun j bin => for_range lo_i hi_i (fun i bin => let index := s32 (getIndex m (u32 i) (u32 j)) in cost ← aget c index;
      Some (if is_source l cost then bin ++ [mkCell (u32 index) (u32 i) (u32 j) (u32 i) (u32 j)] else bin)) bin) lo_j hi_j []) as (bin & E & Hbin); [lia| | |by exists bin].
  - intros d. split; [intros Hd%not_elem_of_nil|intros (s & _ & _ & Hj & _); lia]. done.
  - intros j bin Hj Hbin. destruct (for_range_inv (fun i bin' => forall d, d ∈ bin' <-> d ∈ bin \/ exists s, d = data_of s s /\ lo_i <= fst s < i /\ snd s = j /\ is_source l (lget c (cell_id s)) = true)
      (fun i bin => let index := s32 (getIndex m (u32 i) (u32 j)) in cost ← aget c index;
      Some (if is_source l cost then bin ++ [mkCell (u32 index) (u32 i) (u32 j) (u32 i) (u32 j)] else bin)) lo_i hi_i bin) as (bin' & -> & Hbin'); [lia| | |].
    + intros d. split; [by left|intros [?|(s & _ & Hi & _)]; [done|lia]].
    + intros i bin' Hi Hbin'. cbv zeta. assert (Hid : on_grid (i, j)) by (split; cbn; lia). pose proof (cell_id_range _ Hid) as Hr.
      rewrite (u32_small i), (u32_small j) by (unfold is_u32; lia).
      assert (Hix : s32 (getIndex m i j) = cell_id (i, j)).
      { unfold getIndex. rewrite u32_add_l. change (j * size_x_ m + i) with (cell_id (i, j)). rewrite u32_small by (unfold is_u32; lia). apply s32_small. unfold is_s32. lia. }
      rewrite Hix, (u32_small (cell_id (i, j))) by (unfold is_u32; lia). rewrite (aget_lget c) by (fold W N in Hlen; lia). mred. change (mkCell (cell_id (i, j)) i j i j) with (data_of (i, j) (i, j)).
      eexists. split; [done|]. intros d. destruct (is_source l (lget c (cell_id (i, j)))) eqn:Eso.
      * rewrite elem_of_app, list_elem_of_singleton, Hbin'. split.
        -- intros [[?|(s & -> & Hs & Hs2 & Hs3)]| ->]; [by left|right; exists s; split_and!; [done|lia|lia|done|done]|right; exists (i, j); cbn [fst snd]; split_and!; [done|lia|lia|done|done]].
        -- intros [?|([x y] & -> & Hs & Hs2 & Hs3)]; [by left; left|]. cbn [fst snd] in *. subst y. destruct (Z.eq_dec x i) as [->|]; [by right|]. left. right. exists (x, j). cbn [fst snd]. split_and!; [done|lia|lia|done|done].
      * rewrite Hbin'. split; (intros [?|([x y] & -> & Hs & Hs2 & Hs3)]; [by left|right; cbn [fst snd] in *; subst y; exists (x, j); cbn [fst snd]]); [split_and!; [done|lia|lia|done|done]|].
        split_and!; [done|lia| |done|done]. destruct (Z.eq_dec x i) as [->|]; [congruence|lia].
    + exists bin'. split; [done|]. intros d. rewrite Hbin', Hbin. split.
      * intros [(s & -> & Hs & Hs2 & Hs3)|(s & -> & Hs & Hs2 & Hs3)]; exists s; split_and!; done || lia.
      * intros (s & -> & Hs & Hs2 & Hs3). destruct (Z.eq_dec (snd s) j); [right|left]; exists s; split_and!; done || lia.
Qed.
(** What the inflation of a window makes of the costs: every cell keeps its
    cost or takes the cost of its distance to an obstacle at most a radius
    away, an obstacle is its own, and a cell one step farther from the obstacle
    of a neighbour is reached, from an obstacle at least as near as that one. *)
Record inflates (src : Z * Z -> option (Z * Z)) (c' : list Z) : Prop := {
  in_cells : alen c' = alen c /\ forall p, on_grid p -> aget c' (cell_id p) = Some (cost_from (src p) p);
  in_source p s : src p = Some s -> source s /\ dist2 p s <= R * R;
  in_obstacle s : source s -> src s = Some s;
  in_next p s n : src p = Some s -> adjacent p n -> on_grid n -> dist2 p s < dist2 n s -> dist2 n s <= R * R -> reached src n s;
}.

Lemma empty_bins : exists max, levels_table (R + 2) (distance_matrix_ l) max /\ inflation_cells_ l = anew (max + 1) [] /\ 0 <= max.
Proof using All. destruct (co_levels _ _ _ Hl) as (max & Ht & E). exists max. split_and!; try done. by apply (lt_max _ _ _ Ht). Qed.

(** Nothing is seen and the obstacles are in the first bin. *)
Lemma expansion_starts obstacles bins seen : (forall d, d ∈ obstacles <-> exists s, d = data_of s s /\ source s) -> aset (inflation_cells_ l) 0 obstacles = Some bins ->
  alen seen = W * N -> (forall k, 0 <= k < W * N -> aget seen k = Some false) ->
  expanding (fun _ => None) c seen bins /\ frontier (-1) [] (fun _ => None) bins.
Proof using All.
  intros Ho Eb Hls Hs. destruct empty_bins as (max & Ht & Ei & Hmax). pose proof Hm as [Hsz1 Hsz2 Har _ Hlen].
  assert (H0 : forall s, level_at (R + 2) (distance_matrix_ l) (offset s s) = Some 0).
  { intros s. pose proof (dist2_self s) as Hz. unfold dist2 in Hz. destruct (lt_at _ _ _ Ht (offset s s)) as (k & E & _ & Hk); [rewrite Hz; apply Z.square_nonneg|]. by rewrite E, Hk. }
  assert (Hg : forall b bin, aget bins b = Some bin -> b = 0 /\ bin = obstacles \/ bin = []).
  { intros b bin E. rewrite (aget_aset _ _ _ _ b Eb) in E. destruct (Z.eqb_spec 0 b) as [<-|Hne]; [left; split; congruence|right].
    apply aget_elem in E. rewrite Ei in E. unfold anew in E. by apply elem_of_replicate in E as [-> _]. }
  split; split.
  - split; [done|]. intros p Hp. apply aget_lget. rewrite Hlen. by apply cell_id_range.
  - split; [done|]. intros p Hp. rewrite Hs by (by apply cell_id_range). by rewrite bool_decide_eq_false_2 by (by intros []).
  - split; [by rewrite (aset_len _ _ _ _ Eb)|]. intros b bin d E Hd. destruct (Hg b bin E) as [[-> ->]| ->]; [|by apply not_elem_of_nil in Hd].
    apply Ho in Hd as (s & -> & Hsrc). exists s, s. split_and!; [done|apply Hsrc|done| |done]. rewrite dist2_self. apply Z.square_nonneg.
  - done.
  - done.
  - done.
  - intros s Hsrc. right. exists 0. split; [done|]. left. split; [lia|]. exists obstacles. split; [by rewrite (aget_aset _ _ _ _ 0 Eb)|]. apply Ho. by exists s.
Qed.

Lemma cost_from_u8 src p : Forall is_u8 c -> on_grid p -> (forall s, src p = Some s -> dist2 p s <= R * R) -> is_u8 (cost_from (src p) p).
Proof using All.
  intros Hb Hp Hs. pose proof Hm as [_ _ _ _ Hlen]. pose proof (cell_id_range p Hp) as Hid. fold W N in Hlen.
  assert (Hold : is_u8 (lget c (cell_id p))) by (apply (proj1 (Forall_forall _ _) Hb), (aget_elem _ (cell_id p)), aget_lget; lia).
  unfold cost_from. destruct (src p) as [s|] eqn:Es; [|done]. case_bool_decide as Hin; [|done]. specialize (Hs s eq_refl). destruct (co_radius _ _ _ Hl) as [HR _]. fold R in HR.
  destruct (near_axes R (fst p - fst s) (snd p - snd s) ltac:(lia) Hs) as [H1 H2].
  destruct (co_costs _ _ _ Hl (Z.abs (fst p - fst s)) (Z.abs (snd p - snd s))) as (v & _ & Ev & Hv); [fold R; lia..|].
  unfold offset_cost. rewrite Ev. cbn [default]. unfold id, inflated. destruct (_ && _); [done|]. unfold is_u8 in *. lia.
Qed.

Lemma updateCosts_ok : il_enabled_ l = true -> W + R < 2 ^ 31 -> N + R < 2 ^ 31 -> Forall is_u8 c ->
  exists l' c' src, updateCosts l m min_i min_j max_i max_j = Some (l', with_costmap m (Some c')) /\ inflates src c' /\ Forall is_u8 c' /\
    l' = set_il_current (set_grid l (il_resolution_ l) (seen_ l')) true.
Proof using All.
  intros Hon HW HN Hbytes. unfold updateCosts. destruct (co_radius _ _ _ Hl) as [HR Hsr]. fold R in HR, Hsr. fold R W N. rewrite Hon. destruct (Z.eqb_spec R 0) as [|_]; [lia|]. cbn [negb orb].
  pose proof Hm as [Hsz1 Hsz2 Har Ec Hlen]. destruct Hw as (Hwi & Hwi2 & Hwj & Hwj2). fold W in Hsz1, Hwi2. fold N in Hsz2, Hwj2. fold W N in Har, Hlen. rewrite Ec. mred.
  rewrite (u32_small (W * N)) by (unfold is_u32; nia).
  set (seen := anew (alen (if negb (alen (seen_ l) =? W * N) then anew (W * N) false else seen_ l)) false).
  assert (Hseen : alen seen = W * N /\ forall k, 0 <= k < W * N -> aget seen k = Some false).
  { assert (E : seen = anew (W * N) false); [|rewrite E; split; [apply alen_anew; lia|intros; by apply aget_anew]].
    unfold seen. f_equal. destruct (Z.eqb_spec (alen (seen_ l)) (W * N)) as [E|_]; cbn [negb]; [exact E|]. apply alen_anew. lia. }
  clearbody seen. assert (HR31 : R < 2 ^ 31) by lia. rewrite (s32_small R) by (unfold is_s32; lia).
  rewrite assert_ub_true by (apply bool_decide_eq_true_2; unfold is_s32; lia). mred.
  destruct empty_bins as (max & Ht & Ei & Hmax). assert (E0 : aget (inflation_cells_ l) 0 = Some []) by (rewrite Ei; apply aget_anew; lia). rewrite E0. mred. cbn [app].
  rewrite (s32_small W), (s32_small N) by (unfold is_s32; lia).
  destruct (obstacle_bin_ok (Z.max 0 (min_i - R)) (Z.max 0 (min_j - R)) (Z.min W (max_i + R)) (Z.min N (max_j + R))) as (obstacles & -> & Ho); [lia..|]. mred.
  destruct (aset (inflation_cells_ l) 0 obstacles) as [bins|] eqn:Eb; [|rewrite aset_Some in Eb by (rewrite Ei, alen_anew; lia); done]. mred.
  destruct (expansion_starts obstacles bins seen) as [Hex Hfr]; [|done|apply Hseen|apply Hseen|].
  { intros d. rewrite Ho. split; intros (s & -> & Hs); exists s; (split; [done|]).
    - split; [unfold on_grid, on_map; fold W N; lia|]. split; [lia|]. split; [lia|apply Hs].
    - destruct Hs as ([Hx Hy] & Hi & Hj & Hso). fold W in Hx. fold N in Hy. split; [lia|]. split; [lia|done]. }
  assert (Hbl : alen bins = max + 1) by (rewrite (aset_len _ _ _ _ Eb), Ei; apply alen_anew; lia).
  destruct (for_range_inv (fun b '(arr, seen, bins) => exists src, expanding src arr seen bins /\ frontier (b - 1) [] src bins) (visit_bin l W N min_i min_j max_i max_j) 0 (alen bins) (c, seen, bins))
    as ([[c' seen'] bins'] & -> & src & Hex' & Hfr'); [lia|by exists (fun _ => None)| |].
  { intros b [[arr1 seen1] bins1] Hb (src1 & Hex1 & Hfr1). destruct (ex_bins _ _ _ _ Hex1) as [Hbl1 _]. destruct (aget_is_Some bins1 b) as [bin Ebin]; [rewrite Hbl1, Ei, alen_anew; lia|].
    destruct (visit_bin_ok b bin src1 arr1 seen1 bins1 Hex1 Ebin) as (src2 & arr2 & seen2 & bins2 & -> & Hex2 & Hfr2).
    - replace b with (b - 1 + 1) by lia. apply frontier_next; [|done]. by replace (b - 1 + 1) with b by lia.
    - eexists. split; [done|]. exists src2. by replace (b + 1 - 1) with b by lia. }
  mred. destruct Hex' as [[Hla' Ha'] _ [Hbl' Hbs'] Hsrc']. destruct Hfr' as [_ Hfn' Hfs'].
  assert (Hnone : forall p s, ~ pending (alen bins - 1) [] bins' p s).
  { intros p s (b' & _ & [(Hlt & bin & E & _)|[_ Hin%not_elem_of_nil]]); [|done]. apply aget_bounds in E. rewrite Hbl', Ei, alen_anew in E by lia. lia. }
  eexists. exists c', src. split; [done|]. split; [split|split].
  - split; [lia|done].
  - intros p s E. destruct (Hsrc' p s E) as (_ & ? & ?). done.
  - intros s Hs. destruct (Hfs' s Hs) as [?|Hp]; [done|]. by apply Hnone in Hp.
  - intros p s n E Ha Hn H1 H2. destruct (Hfn' p s n E Ha Hn H1 H2) as [?|Hp]; [done|]. by apply Hnone in Hp.
  - apply (bytes_of_grid m c c' Hm); [lia|]. intros x y v Hp E. change (aget c' (cell_id (x, y)) = Some v) in E. rewrite Ha' in E by exact Hp. injection E as <-. apply (cost_from_u8 src); [done|exact Hp|].
    intros s Es. apply (Hsrc' _ _ Es).
  - assert (Ebins : (fun _ => []) <$> bins' = inflation_cells_ l).
    { rewrite Ei. unfold anew. rewrite Ei, alen_anew in Hbl' by lia. apply list_eq. intros i. rewrite list_lookup_fmap. destruct (decide (i < length bins')%nat) as [Hi|Hi].
      - destruct (lookup_lt_is_Some_2 _ _ Hi) as [x ->]. cbn. symmetry. apply lookup_replicate. split; [done|]. unfold alen in Hbl'. lia.
      - rewrite (lookup_ge_None_2 bins') by lia. symmetry. apply lookup_replicate_None. unfold alen in Hbl'. lia. }
    rewrite Ebins. reflexivity.
Qed.

(** One step back towards [s]. *)
Lemma step_back p s : on_grid p -> on_grid s -> p <> s ->
  exists q, on_grid q /\ adjacent q p /\ dist2 q s < dist2 p s /\ Z.abs (fst q - fst s) + Z.abs (snd q - snd s) < Z.abs (fst p - fst s) + Z.abs (snd p - snd s).
Proof using All.
  destruct p as [px py], s as [sx sy]. intros [Hpx Hpy] [Hsx Hsy] Hne. unfold on_grid, on_map, adjacent, dist2, offset, norm2 in *. cbn [fst snd] in *. destruct (Z.eq_dec px sx) as [->|Hx].
  - destruct (Z.lt_ge_cases py sy); [exists (sx, py + 1)|exists (sx, py - 1)]; cbn [fst snd]; assert (py <> sy) by congruence; split_and!; lia || nia.
  - destruct (Z.lt_ge_cases px sx); [exists (px + 1, py)|exists (px - 1, py)]; cbn [fst snd]; split_and!; lia || nia.
Qed.

(** A single obstacle reaches the whole disc. *)
Lemma inflates_disc src c' s p : inflates src c' -> source s -> (forall s', source s' -> s' = s) -> on_grid p -> dist2 p s <= R * R -> src p = Some s.
Proof using All.
  intros Hin Hs Hone. assert (Hn : forall (k : nat) p, (Z.to_nat (Z.abs (fst p - fst s) + Z.abs (snd p - snd s)) < k)%nat -> on_grid p -> dist2 p s <= R * R -> src p = Some s); [|by apply (Hn (Datatypes.S (Z.to_nat (Z.abs (fst p - fst s) + Z.abs (snd p - snd s))))); lia].
  induction k as [|k IH]; intros q Hq Hog Hd; [lia|]. destruct (decide (q = s)) as [->|Hne]; [by apply (in_obstacle _ _ Hin)|].
  destruct (step_back q s Hog (proj1 Hs) Hne) as (t & Ht & Ha & Hlt & Hm').
  destruct (in_next _ _ Hin t s q) as (s' & E & _); [apply IH; [lia|done|lia]|done..|]. rewrite E. f_equal. apply Hone. by apply (in_source _ _ Hin q).
Qed.

(** The cells next to an obstacle are reached. *)
Lemma inflates_next src c' s p : inflates src c' -> source s -> on_grid p -> adjacent s p -> reached src p s.
Proof using All.
  intros Hin Hs Hp Ha. destruct (co_radius _ _ _ Hl) as [HR _]. fold R in HR.
  assert (E : dist2 p s = 1) by (unfold adjacent in Ha; unfold dist2, offset, norm2; cbn [fst snd]; assert (Z.abs (fst s - fst p) = 0 /\ Z.abs (snd s - snd p) = 1 \/ Z.abs (fst s - fst p) = 1 /\ Z.abs (snd s - snd p) = 0) by lia; nia).
  apply (in_next _ _ Hin s s p); [by apply (in_obstacle _ _ Hin)|done|done|rewrite dist2_self; lia|nia].
Qed.

Lemma inflates_outside src c' x y : inflates src c' -> on_map m x y -> ~ in_window min_i min_j max_i max_j x y -> grid_at c' W x y = grid_at c W x y.
Proof using All.
  intros Hin Hp Hn. change (aget c' (cell_id (x, y)) = aget c (cell_id (x, y))). rewrite (proj2 (in_cells _ _ Hin)) by exact Hp. pose proof Hm as [_ _ _ _ Hlen]. pose proof (cell_id_range (x, y) Hp).
  rewrite aget_lget by (fold W N in Hlen; lia). unfold cost_from. destruct (src (x, y)); [|done]. rewrite bool_decide_eq_false_2; [done|exact Hn].
Qed.
End expansion.

Lemma caches_ok_seen hypot exp l r seen current : r = il_resolution_ l -> caches_ok hypot exp l -> caches_ok hypot exp (set_il_current (set_grid l r seen) current).
Proof. by intros -> [? ? ? [] ? ?]. Qed.

(** C11. The inflation of a window of a map of bytes ends, never leaves its
    arrays, touches no cell outside the window and keeps the caches ready for
    the next one. It raises costs only by the cost of the distance to an
    obstacle at most the radius away; every obstacle inflates its own cell and
    reaches its neighbours, and cell by cell the expansion goes on as long as
    it leaves the obstacle it started from. A single obstacle inflates the
    whole disc around it. *)
Theorem updateCosts_inflates (hypot : spec_float -> spec_float -> spec_float) (exp : spec_float -> spec_float) (l : InflationLayer) (m : Costmap2D) (c : list Z) (min_i min_j max_i max_j : Z) :
  let R := cell_inflation_radius_ l in
  caches_ok hypot exp l -> il_enabled_ l = true -> hypot_cells hypot R -> wf_map m c -> Forall is_u8 c -> window_ok m min_i min_j max_i max_j ->
  size_x_ m + R < 2 ^ 31 -> size_y_ m + R < 2 ^ 31 ->
  exists l' c' reached_from, updateCosts l m min_i min_j max_i max_j = Some (l', with_costmap m (Some c')) /\ caches_ok hypot exp l' /\ il_current_ l' = true /\ Forall is_u8 c' /\
    inflates hypot exp l m c min_i min_j max_i max_j reached_from c' /\
    (forall x y, on_map m x y -> ~ in_window min_i min_j max_i max_j x y -> grid_at c' (size_x_ m) x y = grid_at c (size_x_ m) x y) /\
    (forall s p, source l m c min_i min_j max_i max_j s -> on_grid m p -> adjacent s p -> reached reached_from p s) /\
    (forall s p, source l m c min_i min_j max_i max_j s -> (forall s', source l m c min_i min_j max_i max_j s' -> s' = s) -> on_grid m p -> dist2 p s <= R * R -> reached_from p = Some s).
Proof.
  intros R Hl Hon Hh Hm Hb Hw HW HN. destruct (updateCosts_ok hypot exp l m c min_i min_j max_i max_j Hl Hm Hw Hh Hon HW HN Hb) as (l' & c' & src & E & Hin & Hb' & El).
  exists l', c', src. split; [done|]. split; [rewrite El; by apply caches_ok_seen|]. split; [by rewrite El|]. split; [done|]. split; [done|]. split_and!.
  - intros x y. by apply (inflates_outside hypot exp l m c min_i min_j max_i max_j Hl Hm Hw Hh src).
  - intros s p. by apply (inflates_next hypot exp l m c min_i min_j max_i max_j Hl Hm Hw Hh src c').
  - intros s p. by apply (inflates_disc hypot exp l m c min_i min_j max_i max_j Hl Hm Hw Hh src c').
Qed.

(** ** A layer of the layered costmap *)

Section layer.
Context (hypot : spec_float -> spec_float -> spec_float) (exp : spec_float -> spec_float).

#[local] Instance inflation_ops : LayerOps InflationLayer := {
  LayeredCostmap.updateBounds l v x y yaw b := Some (updateBounds l b);
  LayeredCostmap.updateCosts l v m min_i min_j max_i max_j := updateCosts l m min_i min_j max_i max_j;
  layer_matchSize l v := matchSize hypot exp l v;
  LayeredCostmap.onFootprintChanged l v := onFootprintChanged hypot exp l v;
  layer_isCurrent := il_current_;
  layer_isEnabled := il_enabled_;
}.

(** The radius suits a grid of [sx] by [sy] cells. *)
Definition radius_fits (R sx sy : Z) : Prop := small_radius R /\ hypot_cells hypot R /\ sx + R < 2 ^ 31 /\ sy + R < 2 ^ 31.

(** The radius and the costs at a resolution. *)
Definition inflation_inv (l : InflationLayer) (resolution : spec_float) (sx sy : Z) : Prop :=
  cached_ok hypot l /\ exists R, f_to_u32 (fmax f_zero (fceil (fdiv (inflation_radius_ l) resolution))) = Some R /\ radius_fits R sx sy /\
    costs_defined hypot exp (set_radii (set_grid l resolution []) (il_inscribed_radius_ l) R).

Definition inflation_fits (l : InflationLayer) (sx sy : Z) : Prop := caches_ready hypot exp l /\ radius_fits (cell_inflation_radius_ l) sx sy.

(** The footprint leaves the radius, and its costs are bytes. *)
Definition inflation_footprint (l : InflationLayer) (v : LayeredView) : Prop :=
  cellDistance (v_master v) (inflation_radius_ l) = Some (cell_inflation_radius_ l) /\ costs_defined hypot exp (set_radii l (v_inscribed v) (cell_inflation_radius_ l)).

Lemma caches_ready_update l l' : caches_ready hypot exp l ->
  (cached_cell_inflation_radius_ l', cached_distances_ l', cached_costs_ l', cell_inflation_radius_ l') = (cached_cell_inflation_radius_ l, cached_distances_ l, cached_costs_ l, cell_inflation_radius_ l) ->
  (cache_length_ l', distance_matrix_ l', inflation_cells_ l') = (cache_length_ l, distance_matrix_ l, inflation_cells_ l) ->
  (il_resolution_ l', il_inscribed_radius_ l', cost_scaling_factor_ l') = (il_resolution_ l, il_inscribed_radius_ l, cost_scaling_factor_ l) -> caches_ready hypot exp l'.
Proof.
  intros Hr E1 E2 E3. destruct l, l'. cbn in E1, E2, E3. simplify_eq. destruct Hr as [Hc Hr]. split.
  - destruct Hc as [?|[]]; [by left|right; by split].
  - destruct Hr as [?|[? ? ? [] ? ?]]; [by left|right; by split].
Qed.

Lemma caches_ok_radius l : cell_inflation_radius_ l <> 0 -> caches_ready hypot exp l -> caches_ok hypot exp l.
Proof. by intros Hne [_ [?|?]]. Qed.

Lemma inflation_updateBounds l v sx sy x y yaw b : inflation_fits l sx sy ->
  exists l' b', LayeredCostmap.updateBounds l v x y yaw b = Some (l', b') /\ inflation_fits l' sx sy.
Proof.
  intros [Hr Hf]. cbn [LayeredCostmap.updateBounds inflation_ops]. unfold updateBounds. destruct (need_reinflation_ l); eexists _, _; (split; [done|]); (split; [by apply (caches_ready_update l)|done]).
Qed.

Lemma inflation_updateCosts l (v : LayeredView) m c min_i min_j max_i max_j :
  inflation_fits l (size_x_ m) (size_y_ m) -> wf_map m c -> Forall is_u8 c -> window_ok m min_i min_j max_i max_j ->
  exists l' c', LayeredCostmap.updateCosts l v m min_i min_j max_i max_j = Some (l', with_costmap m (Some c')) /\
    alen c' = alen c /\ Forall is_u8 c' /\ inflation_fits l' (size_x_ m) (size_y_ m) /\
    forall x y, on_map m x y -> ~ in_window min_i min_j max_i max_j x y -> grid_at c' (size_x_ m) x y = grid_at c (size_x_ m) x y.
Proof.
  intros [Hr Hf] Hm Hb Hw. pose proof Hf as (Hsr & Hh & HW & HN). cbn [LayeredCostmap.updateCosts inflation_ops].
  destruct (negb (il_enabled_ l) || (cell_inflation_radius_ l =? 0)) eqn:Eoff.
  - exists l, c. unfold updateCosts. rewrite Eoff. split_and!; try done. destruct Hm as [_ _ _ Ec _]. destruct m. cbn in Ec. by subst.
  - apply orb_false_iff in Eoff as [Eon%negb_false_iff Ene%Z.eqb_neq]. pose proof (caches_ok_radius l Ene Hr) as Hl.
    destruct (updateCosts_ok hypot exp l m c min_i min_j max_i max_j Hl Hm Hw Hh Eon HW HN Hb) as (l' & c' & src & -> & Hin & Hb' & El). exists l', c'. split; [done|]. split; [apply (in_cells _ _ _ _ _ _ _ _ _ _ _ Hin)|].
    split; [done|]. split; [rewrite El; split; [by apply (caches_ready_update l)|done]|].
    intros x y. by apply (inflates_outside hypot exp l m c min_i min_j max_i max_j Hl Hm Hw Hh src).
Qed.

Lemma inflation_matchSize l v c : inflation_inv l (resolution_ (v_master v)) (size_x_ (v_master v)) (size_y_ (v_master v)) -> wf_map (v_master v) c ->
  exists l', layer_matchSize l v = Some l' /\ inflation_fits l' (size_x_ (v_master v)) (size_y_ (v_master v)).
Proof.
  intros (Hc & R & ER & Hf & Hcosts) _. cbn [layer_matchSize inflation_ops]. unfold matchSize, cellDistance. cbn [set_grid inflation_radius_]. rewrite ER. mred.
  match goal with |- context [computeCaches hypot exp ?l1] => destruct (computeCaches_ok hypot exp l1) as (l2 & -> & Hr & El) end.
  - destruct Hc as [?|[]]; [by left|right; by split].
  - apply Hf.
  - exact Hcosts.
  - mred. eexists. split; [done|]. split; [by apply (caches_ready_update l2)|]. rewrite El. exact Hf.
Qed.

Lemma inflation_onFootprintChanged l v sx sy : inflation_fits l sx sy -> inflation_footprint l v ->
  exists l', LayeredCostmap.onFootprintChanged l v = Some l' /\ inflation_fits l' sx sy.
Proof.
  intros [[Hc Hr] Hf] [Ed Hcosts]. cbn [LayeredCostmap.onFootprintChanged inflation_ops]. unfold onFootprintChanged. rewrite Ed. mred.
  match goal with |- context [computeCaches hypot exp ?l1] => destruct (computeCaches_ok hypot exp l1) as (l2 & -> & Hr2 & El) end.
  - destruct Hc as [?|[]]; [by left|right; by split].
  - apply Hf.
  - exact Hcosts.
  - mred. eexists. split; [done|]. split; [by apply (caches_ready_update l2)|]. rewrite El. exact Hf.
Qed.

Lemma costs_defined_same l l' : costs_defined hypot exp l ->
  (cell_inflation_radius_ l', il_resolution_ l', il_inscribed_radius_ l', cost_scaling_factor_ l') = (cell_inflation_radius_ l, il_resolution_ l, il_inscribed_radius_ l, cost_scaling_factor_ l) ->
  costs_defined hypot exp l'.
Proof. intros Hc E. destruct l, l'. cbn in E. simplify_eq. exact Hc. Qed.

(** The initialization of a new layer makes it fit the master grid. *)
Lemma onInitialize_ok l v c enabled radius factor unknown around : cached_cell_inflation_radius_ l = 0 -> wf_map (v_master v) c ->
  inflation_inv (set_parameters l enabled true radius factor unknown around) (resolution_ (v_master v)) (size_x_ (v_master v)) (size_y_ (v_master v)) ->
  exists l', onInitialize hypot exp l v enabled radius factor unknown around = Some l' /\ inflation_fits l' (size_x_ (v_master v)) (size_y_ (v_master v)).
Proof.
  intros E0 Hw (_ & R & ER & Hf & Hc). unfold onInitialize. cbv zeta. set (l1 := set_last_bounds _ _ _). assert (ER1 : cellDistance (v_master v) (inflation_radius_ l1) = Some R) by exact ER. rewrite ER1. mred.
  assert (E1 : (cached_cell_inflation_radius_ l1, il_inscribed_radius_ l1, cost_scaling_factor_ l1) = (0, il_inscribed_radius_ l, factor)) by (rewrite <- E0; reflexivity).
  clearbody l1. injection E1 as Ea Eb Ec. apply (inflation_matchSize _ v c); [|done]. split; [by left|]. exists R. split; [exact ER1|]. split; [exact Hf|]. eapply costs_defined_same; [exact Hc|].
  destruct l1. cbn in *. congruence.
Qed.

(** The inflation layer keeps the promises of a layer, rolling or not. *)
#[local] Instance inflation_laws rolling : LayerLaws InflationLayer rolling := {
  layer_inv := inflation_inv;
  layer_footprint := inflation_footprint;
  layer_fits := inflation_fits;
  layer_ready _ _ _ _ _ := True;
  updateBounds_fits l v sx sy x y yaw b _ H _ := inflation_updateBounds l v sx sy x y yaw b H;
  updateCosts_window l v m c min_i min_j max_i max_j _ := inflation_updateCosts l v m c min_i min_j max_i max_j;
  matchSize_fits l v c _ H Hw _ := inflation_matchSize l v c H Hw;
  footprint_fits := inflation_onFootprintChanged;
}.
End layer.

(** ** Examples *)

(** The tables of a concrete layer, checked. *)
Definition table_bytes (hypot : spec_float -> spec_float -> spec_float) (exp : spec_float -> spec_float) (l : InflationLayer) : bool :=
  forallb (fun i => forallb (fun j => match cost_of hypot exp l i j with Some v => (0 <=? v) && (v <? 256) | None => false end)
    (zrange 0 (cell_inflation_radius_ l + 2))) (zrange 0 (cell_inflation_radius_ l + 2)).
Definition table_cells (hypot : spec_float -> spec_float -> spec_float) (R : Z) : bool :=
  forallb (fun i => forallb (fun j => Bool.eqb (fgt (hypot (f_of_Z i) (f_of_Z j)) (f_of_Z R)) (R * R <? i * i + j * j)) (zrange 0 (R + 2))) (zrange 0 (R + 2)).

Lemma table_bytes_ok hypot exp l : table_bytes hypot exp l = true -> costs_defined hypot exp l.
Proof.
  intros Ht i j Hi Hj. unfold table_bytes in Ht. rewrite forallb_forall in Ht. specialize (Ht i ltac:(apply list_elem_of_In, elem_of_zrange; lia)). cbv beta in Ht.
  rewrite forallb_forall in Ht. specialize (Ht j ltac:(apply list_elem_of_In, elem_of_zrange; lia)). cbv beta in Ht. destruct (cost_of hypot exp l i j) as [v|]; [|done]. exists v. split; [done|]. unfold is_u8. zbool. lia.
Qed.

Lemma table_cells_ok hypot R : table_cells hypot R = true -> hypot_cells hypot R.
Proof.
  intros Ht i j Hi Hj. unfold table_cells in Ht. rewrite forallb_forall in Ht. specialize (Ht i ltac:(apply list_elem_of_In, elem_of_zrange; lia)). cbv beta in Ht.
  rewrite forallb_forall in Ht. specialize (Ht j ltac:(apply list_elem_of_In, elem_of_zrange; lia)). cbv beta in Ht. by apply eqb_prop in Ht.
Qed.

Section example.
Let half_cost : spec_float -> spec_float := fun _ => f_half.

(** Three obstacles on a map of 8 by 10 cells of 1 m. *)
Definition gap_map : Costmap2D :=
  mkCostmap2D 8 10 f_one f_zero f_zero (Some ((fun k => if bool_decide ((k mod 8, k / 8) ∈ [(2, 2); (3, 4); (6, 6)]) then LETHAL_OBSTACLE else 0) <$> zrange 0 80)) 0.

(** A layer of radius [r], initialized for a map. *)
Definition example_inflation (m : Costmap2D) (r : Z) : InflationLayer :=
  default (InflationLayer_new "inflation") (onInitialize hypot_sqrt half_cost (InflationLayer_new "inflation") (mkView false false m [] f_zero) true (f_of_Z r) f_one true false).

(** The inflation has gaps: with a radius of 5 cells, the cell (7, 1) is
    exactly 5 cells away from the obstacle (3, 4), within the radius, where the table gives
    the cost 126; but the update of the whole map leaves it free. The cells on
    the way to it are nearer to other obstacles, which are more than 5 cells
    away from it. *)
Theorem inflation_gap :
  exists l' m', updateCosts (example_inflation gap_map 5) gap_map 0 0 8 10 = Some (l', m') /\ il_enabled_ (example_inflation gap_map 5) = true /\
    cell_inflation_radius_ (example_inflation gap_map 5) = 5 /\ cost_at gap_map 3 4 = Some LETHAL_OBSTACLE /\ dist2 (7, 1) (3, 4) = 5 * 5 /\
    costLookup (example_inflation gap_map 5) 7 1 3 4 = Some 126 /\ cost_at gap_map 7 1 = Some FREE_SPACE /\ cost_at m' 7 1 = Some FREE_SPACE.
Proof. eexists _, _. split; [vm_compute; reflexivity|]. by repeat split; vm_compute. Qed.

(** One obstacle in the middle of a map of 5 by 5 cells. *)
Definition spot_cells : list Z := (fun k => if k =? 12 then LETHAL_OBSTACLE else 0) <$> zrange 0 25.
Definition spot_map : Costmap2D := mkCostmap2D 5 5 f_one f_zero f_zero (Some spot_cells) 0.

Lemma spot_map_wf : wf_map spot_map spot_cells.
Proof. by split; vm_compute. Qed.

Lemma spot_cells_bytes : Forall is_u8 spot_cells.
Proof. unfold spot_cells. apply Forall_forall. intros x (k & -> & _)%list_elem_of_fmap. destruct (k =? 12); by split. Qed.

Lemma example_inflation_fits : inflation_fits hypot_sqrt half_cost (example_inflation spot_map 2) 5 5.
Proof.
  destruct (onInitialize_ok hypot_sqrt half_cost (InflationLayer_new "inflation") (mkView false false spot_map [] f_zero) spot_cells true (f_of_Z 2) f_one true false) as (l & E & Hl).
  - done.
  - exact spot_map_wf.
  - split; [by left|]. exists 2. split; [by vm_compute|]. split; [|by apply table_bytes_ok; vm_compute]. split; [by split; vm_compute|]. split; [by apply table_cells_ok; vm_compute|]. by split; vm_compute.
  - unfold example_inflation. rewrite E. exact Hl.
Qed.

Lemma spot_source k : 0 <= k < 25 -> is_source (example_inflation spot_map 2) (lget spot_cells k) = true -> k = 12.
Proof.
  intros Hk Hs. assert (Ha : forallb (fun k => implb (is_source (example_inflation spot_map 2) (lget spot_cells k)) (k =? 12)) (zrange 0 25) = true) by (vm_compute; reflexivity).
  rewrite forallb_forall in Ha. specialize (Ha k ltac:(apply list_elem_of_In, elem_of_zrange; lia)). cbv beta in Ha. rewrite Hs in Ha. by apply Z.eqb_eq in Ha.
Qed.

Lemma updateCosts_inflates_witness :
  exists l' c' src, updateCosts (example_inflation spot_map 2) spot_map 1 1 5 5 = Some (l', with_costmap spot_map (Some c')) /\ src (4, 2) = Some (2, 2) /\ il_current_ l' = true.
Proof.
  destruct example_inflation_fits as [Hr (Hs & Hh & HW & HN)]. assert (Hne : cell_inflation_radius_ (example_inflation spot_map 2) = 2) by (vm_compute; reflexivity).
  destruct (updateCosts_inflates hypot_sqrt half_cost (example_inflation spot_map 2) spot_map spot_cells 1 1 5 5) as (l' & c' & src & E & _ & Ecur & _ & Hin & _ & _ & Hdisc).
  - apply caches_ok_radius; [|exact Hr]. rewrite Hne. lia.
  - vm_compute. reflexivity.
  - exact Hh.
  - exact spot_map_wf.
  - exact spot_cells_bytes.
  - unfold window_ok. cbn [size_x_ size_y_ spot_map]. lia.
  - exact HW.
  - exact HN.
  - exists l', c', src. split; [exact E|]. split; [|exact Ecur]. apply Hdisc.
    + split; [split; split; vm_compute; congruence || reflexivity|]. rewrite Hne. cbn [fst snd]. split; [lia|]. split; [lia|]. vm_compute. reflexivity.
    + intros [x y] ([Hx Hy] & _ & _ & Hso). unfold on_map in Hx, Hy. cbn [fst snd size_x_ size_y_ spot_map] in Hx, Hy.
      unfold is_source, cell_id in Hso. cbn [fst snd size_x_ spot_map] in Hso.
      pose proof (spot_source (y * 5 + x) ltac:(lia) Hso). f_equal; lia.
    + split; split; vm_compute; congruence || reflexivity.
    + rewrite Hne. vm_compute. congruence.
Defined.
End example.
