(* ===== verification/CrcTables.v ===== *)
(** The tables of the two checksums of the Livox protocol
    (3rdparty/FastCRC/FastCRC_tables.h), four of 256 words each. *)

From S2P Require Import Prelude.

Definition crc_table_ccitt : list Z := [
  0x0000; 0x2110; 0x4220; 0x6330; 0x8440; 0xa550; 0xc660; 0xe770;
  0x0881; 0x2991; 0x4aa1; 0x6bb1; 0x8cc1; 0xadd1; 0xcee1; 0xeff1;
  0x3112; 0x1002; 0x7332; 0x5222; 0xb552; 0x9442; 0xf772; 0xd662;
  0x3993; 0x1883; 0x7bb3; 0x5aa3; 0xbdd3; 0x9cc3; 0xfff3; 0xdee3;
  0x6224; 0x4334; 0x2004; 0x0114; 0xe664; 0xc774; 0xa444; 0x8554;
  0x6aa5; 0x4bb5; 0x2885; 0x0995; 0xeee5; 0xcff5; 0xacc5; 0x8dd5;
  0x5336; 0x7226; 0x1116; 0x3006; 0xd776; 0xf666; 0x9556; 0xb446;
  0x5bb7; 0x7aa7; 0x1997; 0x3887; 0xdff7; 0xfee7; 0x9dd7; 0xbcc7;
  0xc448; 0xe558; 0x8668; 0xa778; 0x4008; 0x6118; 0x0228; 0x2338;
  0xccc9; 0xedd9; 0x8ee9; 0xaff9; 0x4889; 0x6999; 0x0aa9; 0x2bb9;
  0xf55a; 0xd44a; 0xb77a; 0x966a; 0x711a; 0x500a; 0x333a; 0x122a;
  0xfddb; 0xdccb; 0xbffb; 0x9eeb; 0x799b; 0x588b; 0x3bbb; 0x1aab;
  0xa66c; 0x877c; 0xe44c; 0xc55c; 0x222c; 0x033c; 0x600c; 0x411c;
  0xaeed; 0x8ffd; 0xeccd; 0xcddd; 0x2aad; 0x0bbd; 0x688d; 0x499d;
  0x977e; 0xb66e; 0xd55e; 0xf44e; 0x133e; 0x322e; 0x511e; 0x700e;
  0x9fff; 0xbeef; 0xdddf; 0xfccf; 0x1bbf; 0x3aaf; 0x599f; 0x788f;
  0x8891; 0xa981; 0xcab1; 0xeba1; 0x0cd1; 0x2dc1; 0x4ef1; 0x6fe1;
  0x8010; 0xa100; 0xc230; 0xe320; 0x0450; 0x2540; 0x4670; 0x6760;
  0xb983; 0x9893; 0xfba3; 0xdab3; 0x3dc3; 0x1cd3; 0x7fe3; 0x5ef3;
  0xb102; 0x9012; 0xf322; 0xd232; 0x3542; 0x1452; 0x7762; 0x5672;
  0xeab5; 0xcba5; 0xa895; 0x8985; 0x6ef5; 0x4fe5; 0x2cd5; 0x0dc5;
  0xe234; 0xc324; 0xa014; 0x8104; 0x6674; 0x4764; 0x2454; 0x0544;
  0xdba7; 0xfab7; 0x9987; 0xb897; 0x5fe7; 0x7ef7; 0x1dc7; 0x3cd7;
  0xd326; 0xf236; 0x9106; 0xb016; 0x5766; 0x7676; 0x1546; 0x3456;
  0x4cd9; 0x6dc9; 0x0ef9; 0x2fe9; 0xc899; 0xe989; 0x8ab9; 0xaba9;
  0x4458; 0x6548; 0x0678; 0x2768; 0xc018; 0xe108; 0x8238; 0xa328;
  0x7dcb; 0x5cdb; 0x3feb; 0x1efb; 0xf98b; 0xd89b; 0xbbab; 0x9abb;
  0x754a; 0x545a; 0x376a; 0x167a; 0xf10a; 0xd01a; 0xb32a; 0x923a;
  0x2efd; 0x0fed; 0x6cdd; 0x4dcd; 0xaabd; 0x8bad; 0xe89d; 0xc98d;
  0x267c; 0x076c; 0x645c; 0x454c; 0xa23c; 0x832c; 0xe01c; 0xc10c;
  0x1fef; 0x3eff; 0x5dcf; 0x7cdf; 0x9baf; 0xbabf; 0xd98f; 0xf89f;
  0x176e; 0x367e; 0x554e; 0x745e; 0x932e; 0xb23e; 0xd10e; 0xf01e;
  0x0000; 0x3133; 0x6266; 0x5355; 0xc4cc; 0xf5ff; 0xa6aa; 0x9799;
  0xa989; 0x98ba; 0xcbef; 0xfadc; 0x6d45; 0x5c76; 0x0f23; 0x3e10;
  0x7303; 0x4230; 0x1165; 0x2056; 0xb7cf; 0x86fc; 0xd5a9; 0xe49a;
  0xda8a; 0xebb9; 0xb8ec; 0x89df; 0x1e46; 0x2f75; 0x7c20; 0x4d13;
  0xe606; 0xd735; 0x8460; 0xb553; 0x22ca; 0x13f9; 0x40ac; 0x719f;
  0x4f8f; 0x7ebc; 0x2de9; 0x1cda; 0x8b43; 0xba70; 0xe925; 0xd816;
  0x9505; 0xa436; 0xf763; 0xc650; 0x51c9; 0x60fa; 0x33af; 0x029c;
  0x3c8c; 0x0dbf; 0x5eea; 0x6fd9; 0xf840; 0xc973; 0x9a26; 0xab15;
  0xcc0d; 0xfd3e; 0xae6b; 0x9f58; 0x08c1; 0x39f2; 0x6aa7; 0x5b94;
  0x6584; 0x54b7; 0x07e2; 0x36d1; 0xa148; 0x907b; 0xc32e; 0xf21d;
  0xbf0e; 0x8e3d; 0xdd68; 0xec5b; 0x7bc2; 0x4af1; 0x19a4; 0x2897;
  0x1687; 0x27b4; 0x74e1; 0x45d2; 0xd24b; 0xe378; 0xb02d; 0x811e;
  0x2a0b; 0x1b38; 0x486d; 0x795e; 0xeec7; 0xdff4; 0x8ca1; 0xbd92;
  0x8382; 0xb2b1; 0xe1e4; 0xd0d7; 0x474e; 0x767d; 0x2528; 0x141b;
  0x5908; 0x683b; 0x3b6e; 0x0a5d; 0x9dc4; 0xacf7; 0xffa2; 0xce91;
  0xf081; 0xc1b2; 0x92e7; 0xa3d4; 0x344d; 0x057e; 0x562b; 0x6718;
  0x981b; 0xa928; 0xfa7d; 0xcb4e; 0x5cd7; 0x6de4; 0x3eb1; 0x0f82;
  0x3192; 0x00a1; 0x53f4; 0x62c7; 0xf55e; 0xc46d; 0x9738; 0xa60b;
  0xeb18; 0xda2b; 0x897e; 0xb84d; 0x2fd4; 0x1ee7; 0x4db2; 0x7c81;
  0x4291; 0x73a2; 0x20f7; 0x11c4; 0x865d; 0xb76e; 0xe43b; 0xd508;
  0x7e1d; 0x4f2e; 0x1c7b; 0x2d48; 0xbad1; 0x8be2; 0xd8b7; 0xe984;
  0xd794; 0xe6a7; 0xb5f2; 0x84c1; 0x1358; 0x226b; 0x713e; 0x400d;
  0x0d1e; 0x3c2d; 0x6f78; 0x5e4b; 0xc9d2; 0xf8e1; 0xabb4; 0x9a87;
  0xa497; 0x95a4; 0xc6f1; 0xf7c2; 0x605b; 0x5168; 0x023d; 0x330e;
  0x5416; 0x6525; 0x3670; 0x0743; 0x90da; 0xa1e9; 0xf2bc; 0xc38f;
  0xfd9f; 0xccac; 0x9ff9; 0xaeca; 0x3953; 0x0860; 0x5b35; 0x6a06;
  0x2715; 0x1626; 0x4573; 0x7440; 0xe3d9; 0xd2ea; 0x81bf; 0xb08c;
  0x8e9c; 0xbfaf; 0xecfa; 0xddc9; 0x4a50; 0x7b63; 0x2836; 0x1905;
  0xb210; 0x8323; 0xd076; 0xe145; 0x76dc; 0x47ef; 0x14ba; 0x2589;
  0x1b99; 0x2aaa; 0x79ff; 0x48cc; 0xdf55; 0xee66; 0xbd33; 0x8c00;
  0xc113; 0xf020; 0xa375; 0x9246; 0x05df; 0x34ec; 0x67b9; 0x568a;
  0x689a; 0x59a9; 0x0afc; 0x3bcf; 0xac56; 0x9d65; 0xce30; 0xff03;
  0x0000; 0x3037; 0x606e; 0x5059; 0xc0dc; 0xf0eb; 0xa0b2; 0x9085;
  0xa1a9; 0x919e; 0xc1c7; 0xf1f0; 0x6175; 0x5142; 0x011b; 0x312c;
  0x6343; 0x5374; 0x032d; 0x331a; 0xa39f; 0x93a8; 0xc3f1; 0xf3c6;
  0xc2ea; 0xf2dd; 0xa284; 0x92b3; 0x0236; 0x3201; 0x6258; 0x526f;
  0xc686; 0xf6b1; 0xa6e8; 0x96df; 0x065a; 0x366d; 0x6634; 0x5603;
  0x672f; 0x5718; 0x0741; 0x3776; 0xa7f3; 0x97c4; 0xc79d; 0xf7aa;
  0xa5c5; 0x95f2; 0xc5ab; 0xf59c; 0x6519; 0x552e; 0x0577; 0x3540;
  0x046c; 0x345b; 0x6402; 0x5435; 0xc4b0; 0xf487; 0xa4de; 0x94e9;
  0xad1d; 0x9d2a; 0xcd73; 0xfd44; 0x6dc1; 0x5df6; 0x0daf; 0x3d98;
  0x0cb4; 0x3c83; 0x6cda; 0x5ced; 0xcc68; 0xfc5f; 0xac06; 0x9c31;
  0xce5e; 0xfe69; 0xae30; 0x9e07; 0x0e82; 0x3eb5; 0x6eec; 0x5edb;
  0x6ff7; 0x5fc0; 0x0f99; 0x3fae; 0xaf2b; 0x9f1c; 0xcf45; 0xff72;
  0x6b9b; 0x5bac; 0x0bf5; 0x3bc2; 0xab47; 0x9b70; 0xcb29; 0xfb1e;
  0xca32; 0xfa05; 0xaa5c; 0x9a6b; 0x0aee; 0x3ad9; 0x6a80; 0x5ab7;
  0x08d8; 0x38ef; 0x68b6; 0x5881; 0xc804; 0xf833; 0xa86a; 0x985d;
  0xa971; 0x9946; 0xc91f; 0xf928; 0x69ad; 0x599a; 0x09c3; 0x39f4;
  0x5a3b; 0x6a0c; 0x3a55; 0x0a62; 0x9ae7; 0xaad0; 0xfa89; 0xcabe;
  0xfb92; 0xcba5; 0x9bfc; 0xabcb; 0x3b4e; 0x0b79; 0x5b20; 0x6b17;
  0x3978; 0x094f; 0x5916; 0x6921; 0xf9a4; 0xc993; 0x99ca; 0xa9fd;
  0x98d1; 0xa8e6; 0xf8bf; 0xc888; 0x580d; 0x683a; 0x3863; 0x0854;
  0x9cbd; 0xac8a; 0xfcd3; 0xcce4; 0x5c61; 0x6c56; 0x3c0f; 0x0c38;
  0x3d14; 0x0d23; 0x5d7a; 0x6d4d; 0xfdc8; 0xcdff; 0x9da6; 0xad91;
  0xfffe; 0xcfc9; 0x9f90; 0xafa7; 0x3f22; 0x0f15; 0x5f4c; 0x6f7b;
  0x5e57; 0x6e60; 0x3e39; 0x0e0e; 0x9e8b; 0xaebc; 0xfee5; 0xced2;
  0xf726; 0xc711; 0x9748; 0xa77f; 0x37fa; 0x07cd; 0x5794; 0x67a3;
  0x568f; 0x66b8; 0x36e1; 0x06d6; 0x9653; 0xa664; 0xf63d; 0xc60a;
  0x9465; 0xa452; 0xf40b; 0xc43c; 0x54b9; 0x648e; 0x34d7; 0x04e0;
  0x35cc; 0x05fb; 0x55a2; 0x6595; 0xf510; 0xc527; 0x957e; 0xa549;
  0x31a0; 0x0197; 0x51ce; 0x61f9; 0xf17c; 0xc14b; 0x9112; 0xa125;
  0x9009; 0xa03e; 0xf067; 0xc050; 0x50d5; 0x60e2; 0x30bb; 0x008c;
  0x52e3; 0x62d4; 0x328d; 0x02ba; 0x923f; 0xa208; 0xf251; 0xc266;
  0xf34a; 0xc37d; 0x9324; 0xa313; 0x3396; 0x03a1; 0x53f8; 0x63cf;
  0x0000; 0xb476; 0x68ed; 0xdc9b; 0xf1ca; 0x45bc; 0x9927; 0x2d51;
  0xc385; 0x77f3; 0xab68; 0x1f1e; 0x324f; 0x8639; 0x5aa2; 0xeed4;
  0xa71b; 0x136d; 0xcff6; 0x7b80; 0x56d1; 0xe2a7; 0x3e3c; 0x8a4a;
  0x649e; 0xd0e8; 0x0c73; 0xb805; 0x9554; 0x2122; 0xfdb9; 0x49cf;
  0x4e37; 0xfa41; 0x26da; 0x92ac; 0xbffd; 0x0b8b; 0xd710; 0x6366;
  0x8db2; 0x39c4; 0xe55f; 0x5129; 0x7c78; 0xc80e; 0x1495; 0xa0e3;
  0xe92c; 0x5d5a; 0x81c1; 0x35b7; 0x18e6; 0xac90; 0x700b; 0xc47d;
  0x2aa9; 0x9edf; 0x4244; 0xf632; 0xdb63; 0x6f15; 0xb38e; 0x07f8;
  0x9c6e; 0x2818; 0xf483; 0x40f5; 0x6da4; 0xd9d2; 0x0549; 0xb13f;
  0x5feb; 0xeb9d; 0x3706; 0x8370; 0xae21; 0x1a57; 0xc6cc; 0x72ba;
  0x3b75; 0x8f03; 0x5398; 0xe7ee; 0xcabf; 0x7ec9; 0xa252; 0x1624;
  0xf8f0; 0x4c86; 0x901d; 0x246b; 0x093a; 0xbd4c; 0x61d7; 0xd5a1;
  0xd259; 0x662f; 0xbab4; 0x0ec2; 0x2393; 0x97e5; 0x4b7e; 0xff08;
  0x11dc; 0xa5aa; 0x7931; 0xcd47; 0xe016; 0x5460; 0x88fb; 0x3c8d;
  0x7542; 0xc134; 0x1daf; 0xa9d9; 0x8488; 0x30fe; 0xec65; 0x5813;
  0xb6c7; 0x02b1; 0xde2a; 0x6a5c; 0x470d; 0xf37b; 0x2fe0; 0x9b96;
  0x38dd; 0x8cab; 0x5030; 0xe446; 0xc917; 0x7d61; 0xa1fa; 0x158c;
  0xfb58; 0x4f2e; 0x93b5; 0x27c3; 0x0a92; 0xbee4; 0x627f; 0xd609;
  0x9fc6; 0x2bb0; 0xf72b; 0x435d; 0x6e0c; 0xda7a; 0x06e1; 0xb297;
  0x5c43; 0xe835; 0x34ae; 0x80d8; 0xad89; 0x19ff; 0xc564; 0x7112;
  0x76ea; 0xc29c; 0x1e07; 0xaa71; 0x8720; 0x3356; 0xefcd; 0x5bbb;
  0xb56f; 0x0119; 0xdd82; 0x69f4; 0x44a5; 0xf0d3; 0x2c48; 0x983e;
  0xd1f1; 0x6587; 0xb91c; 0x0d6a; 0x203b; 0x944d; 0x48d6; 0xfca0;
  0x1274; 0xa602; 0x7a99; 0xceef; 0xe3be; 0x57c8; 0x8b53; 0x3f25;
  0xa4b3; 0x10c5; 0xcc5e; 0x7828; 0x5579; 0xe10f; 0x3d94; 0x89e2;
  0x6736; 0xd340; 0x0fdb; 0xbbad; 0x96fc; 0x228a; 0xfe11; 0x4a67;
  0x03a8; 0xb7de; 0x6b45; 0xdf33; 0xf262; 0x4614; 0x9a8f; 0x2ef9;
  0xc02d; 0x745b; 0xa8c0; 0x1cb6; 0x31e7; 0x8591; 0x590a; 0xed7c;
  0xea84; 0x5ef2; 0x8269; 0x361f; 0x1b4e; 0xaf38; 0x73a3; 0xc7d5;
  0x2901; 0x9d77; 0x41ec; 0xf59a; 0xd8cb; 0x6cbd; 0xb026; 0x0450;
  0x4d9f; 0xf9e9; 0x2572; 0x9104; 0xbc55; 0x0823; 0xd4b8; 0x60ce;
  0x8e1a; 0x3a6c; 0xe6f7; 0x5281; 0x7fd0; 0xcba6; 0x173d; 0xa34b].

Definition crc_table_crc32_big : list Z := [
  0x00000000; 0x77073096; 0xee0e612c; 0x990951ba; 0x076dc419; 0x706af48f; 0xe963a535; 0x9e6495a3;
  0x0edb8832; 0x79dcb8a4; 0xe0d5e91e; 0x97d2d988; 0x09b64c2b; 0x7eb17cbd; 0xe7b82d07; 0x90bf1d91;
  0x1db71064; 0x6ab020f2; 0xf3b97148; 0x84be41de; 0x1adad47d; 0x6ddde4eb; 0xf4d4b551; 0x83d385c7;
  0x136c9856; 0x646ba8c0; 0xfd62f97a; 0x8a65c9ec; 0x14015c4f; 0x63066cd9; 0xfa0f3d63; 0x8d080df5;
  0x3b6e20c8; 0x4c69105e; 0xd56041e4; 0xa2677172; 0x3c03e4d1; 0x4b04d447; 0xd20d85fd; 0xa50ab56b;
  0x35b5a8fa; 0x42b2986c; 0xdbbbc9d6; 0xacbcf940; 0x32d86ce3; 0x45df5c75; 0xdcd60dcf; 0xabd13d59;
  0x26d930ac; 0x51de003a; 0xc8d75180; 0xbfd06116; 0x21b4f4b5; 0x56b3c423; 0xcfba9599; 0xb8bda50f;
  0x2802b89e; 0x5f058808; 0xc60cd9b2; 0xb10be924; 0x2f6f7c87; 0x58684c11; 0xc1611dab; 0xb6662d3d;
  0x76dc4190; 0x01db7106; 0x98d220bc; 0xefd5102a; 0x71b18589; 0x06b6b51f; 0x9fbfe4a5; 0xe8b8d433;
  0x7807c9a2; 0x0f00f934; 0x9609a88e; 0xe10e9818; 0x7f6a0dbb; 0x086d3d2d; 0x91646c97; 0xe6635c01;
  0x6b6b51f4; 0x1c6c6162; 0x856530d8; 0xf262004e; 0x6c0695ed; 0x1b01a57b; 0x8208f4c1; 0xf50fc457;
  0x65b0d9c6; 0x12b7e950; 0x8bbeb8ea; 0xfcb9887c; 0x62dd1ddf; 0x15da2d49; 0x8cd37cf3; 0xfbd44c65;
  0x4db26158; 0x3ab551ce; 0xa3bc0074; 0xd4bb30e2; 0x4adfa541; 0x3dd895d7; 0xa4d1c46d; 0xd3d6f4fb;
  0x4369e96a; 0x346ed9fc; 0xad678846; 0xda60b8d0; 0x44042d73; 0x33031de5; 0xaa0a4c5f; 0xdd0d7cc9;
  0x5005713c; 0x270241aa; 0xbe0b1010; 0xc90c2086; 0x5768b525; 0x206f85b3; 0xb966d409; 0xce61e49f;
  0x5edef90e; 0x29d9c998; 0xb0d09822; 0xc7d7a8b4; 0x59b33d17; 0x2eb40d81; 0xb7bd5c3b; 0xc0ba6cad;
  0xedb88320; 0x9abfb3b6; 0x03b6e20c; 0x74b1d29a; 0xead54739; 0x9dd277af; 0x04db2615; 0x73dc1683;
  0xe3630b12; 0x94643b84; 0x0d6d6a3e; 0x7a6a5aa8; 0xe40ecf0b; 0x9309ff9d; 0x0a00ae27; 0x7d079eb1;
  0xf00f9344; 0x8708a3d2; 0x1e01f268; 0x6906c2fe; 0xf762575d; 0x806567cb; 0x196c3671; 0x6e6b06e7;
  0xfed41b76; 0x89d32be0; 0x10da7a5a; 0x67dd4acc; 0xf9b9df6f; 0x8ebeeff9; 0x17b7be43; 0x60b08ed5;
  0xd6d6a3e8; 0xa1d1937e; 0x38d8c2c4; 0x4fdff252; 0xd1bb67f1; 0xa6bc5767; 0x3fb506dd; 0x48b2364b;
  0xd80d2bda; 0xaf0a1b4c; 0x36034af6; 0x41047a60; 0xdf60efc3; 0xa867df55; 0x316e8eef; 0x4669be79;
  0xcb61b38c; 0xbc66831a; 0x256fd2a0; 0x5268e236; 0xcc0c7795; 0xbb0b4703; 0x220216b9; 0x5505262f;
  0xc5ba3bbe; 0xb2bd0b28; 0x2bb45a92; 0x5cb36a04; 0xc2d7ffa7; 0xb5d0cf31; 0x2cd99e8b; 0x5bdeae1d;
  0x9b64c2b0; 0xec63f226; 0x756aa39c; 0x026d930a; 0x9c0906a9; 0xeb0e363f; 0x72076785; 0x05005713;
  0x95bf4a82; 0xe2b87a14; 0x7bb12bae; 0x0cb61b38; 0x92d28e9b; 0xe5d5be0d; 0x7cdcefb7; 0x0bdbdf21;
  0x86d3d2d4; 0xf1d4e242; 0x68ddb3f8; 0x1fda836e; 0x81be16cd; 0xf6b9265b; 0x6fb077e1; 0x18b74777;
  0x88085ae6; 0xff0f6a70; 0x66063bca; 0x11010b5c; 0x8f659eff; 0xf862ae69; 0x616bffd3; 0x166ccf45;
  0xa00ae278; 0xd70dd2ee; 0x4e048354; 0x3903b3c2; 0xa7672661; 0xd06016f7; 0x4969474d; 0x3e6e77db;
  0xaed16a4a; 0xd9d65adc; 0x40df0b66; 0x37d83bf0; 0xa9bcae53; 0xdebb9ec5; 0x47b2cf7f; 0x30b5ffe9;
  0xbdbdf21c; 0xcabac28a; 0x53b39330; 0x24b4a3a6; 0xbad03605; 0xcdd70693; 0x54de5729; 0x23d967bf;
  0xb3667a2e; 0xc4614ab8; 0x5d681b02; 0x2a6f2b94; 0xb40bbe37; 0xc30c8ea1; 0x5a05df1b; 0x2d02ef8d;
  0x00000000; 0x191b3141; 0x32366282; 0x2b2d53c3; 0x646cc504; 0x7d77f445; 0x565aa786; 0x4f4196c7;
  0xc8d98a08; 0xd1c2bb49; 0xfaefe88a; 0xe3f4d9cb; 0xacb54f0c; 0xb5ae7e4d; 0x9e832d8e; 0x87981ccf;
  0x4ac21251; 0x53d92310; 0x78f470d3; 0x61ef4192; 0x2eaed755; 0x37b5e614; 0x1c98b5d7; 0x05838496;
  0x821b9859; 0x9b00a918; 0xb02dfadb; 0xa936cb9a; 0xe6775d5d; 0xff6c6c1c; 0xd4413fdf; 0xcd5a0e9e;
  0x958424a2; 0x8c9f15e3; 0xa7b24620; 0xbea97761; 0xf1e8e1a6; 0xe8f3d0e7; 0xc3de8324; 0xdac5b265;
  0x5d5daeaa; 0x44469feb; 0x6f6bcc28; 0x7670fd69; 0x39316bae; 0x202a5aef; 0x0b07092c; 0x121c386d;
  0xdf4636f3; 0xc65d07b2; 0xed705471; 0xf46b6530; 0xbb2af3f7; 0xa231c2b6; 0x891c9175; 0x9007a034;
  0x179fbcfb; 0x0e848dba; 0x25a9de79; 0x3cb2ef38; 0x73f379ff; 0x6ae848be; 0x41c51b7d; 0x58de2a3c;
  0xf0794f05; 0xe9627e44; 0xc24f2d87; 0xdb541cc6; 0x94158a01; 0x8d0ebb40; 0xa623e883; 0xbf38d9c2;
  0x38a0c50d; 0x21bbf44c; 0x0a96a78f; 0x138d96ce; 0x5ccc0009; 0x45d73148; 0x6efa628b; 0x77e153ca;
  0xbabb5d54; 0xa3a06c15; 0x888d3fd6; 0x91960e97; 0xded79850; 0xc7cca911; 0xece1fad2; 0xf5facb93;
  0x7262d75c; 0x6b79e61d; 0x4054b5de; 0x594f849f; 0x160e1258; 0x0f152319; 0x243870da; 0x3d23419b;
  0x65fd6ba7; 0x7ce65ae6; 0x57cb0925; 0x4ed03864; 0x0191aea3; 0x188a9fe2; 0x33a7cc21; 0x2abcfd60;
  0xad24e1af; 0xb43fd0ee; 0x9f12832d; 0x8609b26c; 0xc94824ab; 0xd05315ea; 0xfb7e4629; 0xe2657768;
  0x2f3f79f6; 0x362448b7; 0x1d091b74; 0x04122a35; 0x4b53bcf2; 0x52488db3; 0x7965de70; 0x607eef31;
  0xe7e6f3fe; 0xfefdc2bf; 0xd5d0917c; 0xcccba03d; 0x838a36fa; 0x9a9107bb; 0xb1bc5478; 0xa8a76539;
  0x3b83984b; 0x2298a90a; 0x09b5fac9; 0x10aecb88; 0x5fef5d4f; 0x46f46c0e; 0x6dd93fcd; 0x74c20e8c;
  0xf35a1243; 0xea412302; 0xc16c70c1; 0xd8774180; 0x9736d747; 0x8e2de606; 0xa500b5c5; 0xbc1b8484;
  0x71418a1a; 0x685abb5b; 0x4377e898; 0x5a6cd9d9; 0x152d4f1e; 0x0c367e5f; 0x271b2d9c; 0x3e001cdd;
  0xb9980012; 0xa0833153; 0x8bae6290; 0x92b553d1; 0xddf4c516; 0xc4eff457; 0xefc2a794; 0xf6d996d5;
  0xae07bce9; 0xb71c8da8; 0x9c31de6b; 0x852aef2a; 0xca6b79ed; 0xd37048ac; 0xf85d1b6f; 0xe1462a2e;
  0x66de36e1; 0x7fc507a0; 0x54e85463; 0x4df36522; 0x02b2f3e5; 0x1ba9c2a4; 0x30849167; 0x299fa026;
  0xe4c5aeb8; 0xfdde9ff9; 0xd6f3cc3a; 0xcfe8fd7b; 0x80a96bbc; 0x99b25afd; 0xb29f093e; 0xab84387f;
  0x2c1c24b0; 0x350715f1; 0x1e2a4632; 0x07317773; 0x4870e1b4; 0x516bd0f5; 0x7a468336; 0x635db277;
  0xcbfad74e; 0xd2e1e60f; 0xf9ccb5cc; 0xe0d7848d; 0xaf96124a; 0xb68d230b; 0x9da070c8; 0x84bb4189;
  0x03235d46; 0x1a386c07; 0x31153fc4; 0x280e0e85; 0x674f9842; 0x7e54a903; 0x5579fac0; 0x4c62cb81;
  0x8138c51f; 0x9823f45e; 0xb30ea79d; 0xaa1596dc; 0xe554001b; 0xfc4f315a; 0xd7626299; 0xce7953d8;
  0x49e14f17; 0x50fa7e56; 0x7bd72d95; 0x62cc1cd4; 0x2d8d8a13; 0x3496bb52; 0x1fbbe891; 0x06a0d9d0;
  0x5e7ef3ec; 0x4765c2ad; 0x6c48916e; 0x7553a02f; 0x3a1236e8; 0x230907a9; 0x0824546a; 0x113f652b;
  0x96a779e4; 0x8fbc48a5; 0xa4911b66; 0xbd8a2a27; 0xf2cbbce0; 0xebd08da1; 0xc0fdde62; 0xd9e6ef23;
  0x14bce1bd; 0x0da7d0fc; 0x268a833f; 0x3f91b27e; 0x70d024b9; 0x69cb15f8; 0x42e6463b; 0x5bfd777a;
  0xdc656bb5; 0xc57e5af4; 0xee530937; 0xf7483876; 0xb809aeb1; 0xa1129ff0; 0x8a3fcc33; 0x9324fd72;
  0x00000000; 0x01c26a37; 0x0384d46e; 0x0246be59; 0x0709a8dc; 0x06cbc2eb; 0x048d7cb2; 0x054f1685;
  0x0e1351b8; 0x0fd13b8f; 0x0d9785d6; 0x0c55efe1; 0x091af964; 0x08d89353; 0x0a9e2d0a; 0x0b5c473d;
  0x1c26a370; 0x1de4c947; 0x1fa2771e; 0x1e601d29; 0x1b2f0bac; 0x1aed619b; 0x18abdfc2; 0x1969b5f5;
  0x1235f2c8; 0x13f798ff; 0x11b126a6; 0x10734c91; 0x153c5a14; 0x14fe3023; 0x16b88e7a; 0x177ae44d;
  0x384d46e0; 0x398f2cd7; 0x3bc9928e; 0x3a0bf8b9; 0x3f44ee3c; 0x3e86840b; 0x3cc03a52; 0x3d025065;
  0x365e1758; 0x379c7d6f; 0x35dac336; 0x3418a901; 0x3157bf84; 0x3095d5b3; 0x32d36bea; 0x331101dd;
  0x246be590; 0x25a98fa7; 0x27ef31fe; 0x262d5bc9; 0x23624d4c; 0x22a0277b; 0x20e69922; 0x2124f315;
  0x2a78b428; 0x2bbade1f; 0x29fc6046; 0x283e0a71; 0x2d711cf4; 0x2cb376c3; 0x2ef5c89a; 0x2f37a2ad;
  0x709a8dc0; 0x7158e7f7; 0x731e59ae; 0x72dc3399; 0x7793251c; 0x76514f2b; 0x7417f172; 0x75d59b45;
  0x7e89dc78; 0x7f4bb64f; 0x7d0d0816; 0x7ccf6221; 0x798074a4; 0x78421e93; 0x7a04a0ca; 0x7bc6cafd;
  0x6cbc2eb0; 0x6d7e4487; 0x6f38fade; 0x6efa90e9; 0x6bb5866c; 0x6a77ec5b; 0x68315202; 0x69f33835;
  0x62af7f08; 0x636d153f; 0x612bab66; 0x60e9c151; 0x65a6d7d4; 0x6464bde3; 0x662203ba; 0x67e0698d;
  0x48d7cb20; 0x4915a117; 0x4b531f4e; 0x4a917579; 0x4fde63fc; 0x4e1c09cb; 0x4c5ab792; 0x4d98dda5;
  0x46c49a98; 0x4706f0af; 0x45404ef6; 0x448224c1; 0x41cd3244; 0x400f5873; 0x4249e62a; 0x438b8c1d;
  0x54f16850; 0x55330267; 0x5775bc3e; 0x56b7d609; 0x53f8c08c; 0x523aaabb; 0x507c14e2; 0x51be7ed5;
  0x5ae239e8; 0x5b2053df; 0x5966ed86; 0x58a487b1; 0x5deb9134; 0x5c29fb03; 0x5e6f455a; 0x5fad2f6d;
  0xe1351b80; 0xe0f771b7; 0xe2b1cfee; 0xe373a5d9; 0xe63cb35c; 0xe7fed96b; 0xe5b86732; 0xe47a0d05;
  0xef264a38; 0xeee4200f; 0xeca29e56; 0xed60f461; 0xe82fe2e4; 0xe9ed88d3; 0xebab368a; 0xea695cbd;
  0xfd13b8f0; 0xfcd1d2c7; 0xfe976c9e; 0xff5506a9; 0xfa1a102c; 0xfbd87a1b; 0xf99ec442; 0xf85cae75;
  0xf300e948; 0xf2c2837f; 0xf0843d26; 0xf1465711; 0xf4094194; 0xf5cb2ba3; 0xf78d95fa; 0xf64fffcd;
  0xd9785d60; 0xd8ba3757; 0xdafc890e; 0xdb3ee339; 0xde71f5bc; 0xdfb39f8b; 0xddf521d2; 0xdc374be5;
  0xd76b0cd8; 0xd6a966ef; 0xd4efd8b6; 0xd52db281; 0xd062a404; 0xd1a0ce33; 0xd3e6706a; 0xd2241a5d;
  0xc55efe10; 0xc49c9427; 0xc6da2a7e; 0xc7184049; 0xc25756cc; 0xc3953cfb; 0xc1d382a2; 0xc011e895;
  0xcb4dafa8; 0xca8fc59f; 0xc8c97bc6; 0xc90b11f1; 0xcc440774; 0xcd866d43; 0xcfc0d31a; 0xce02b92d;
  0x91af9640; 0x906dfc77; 0x922b422e; 0x93e92819; 0x96a63e9c; 0x976454ab; 0x9522eaf2; 0x94e080c5;
  0x9fbcc7f8; 0x9e7eadcf; 0x9c381396; 0x9dfa79a1; 0x98b56f24; 0x99770513; 0x9b31bb4a; 0x9af3d17d;
  0x8d893530; 0x8c4b5f07; 0x8e0de15e; 0x8fcf8b69; 0x8a809dec; 0x8b42f7db; 0x89044982; 0x88c623b5;
  0x839a6488; 0x82580ebf; 0x801eb0e6; 0x81dcdad1; 0x8493cc54; 0x8551a663; 0x8717183a; 0x86d5720d;
  0xa9e2d0a0; 0xa820ba97; 0xaa6604ce; 0xaba46ef9; 0xaeeb787c; 0xaf29124b; 0xad6fac12; 0xacadc625;
  0xa7f18118; 0xa633eb2f; 0xa4755576; 0xa5b73f41; 0xa0f829c4; 0xa13a43f3; 0xa37cfdaa; 0xa2be979d;
  0xb5c473d0; 0xb40619e7; 0xb640a7be; 0xb782cd89; 0xb2cddb0c; 0xb30fb13b; 0xb1490f62; 0xb08b6555;
  0xbbd72268; 0xba15485f; 0xb853f606; 0xb9919c31; 0xbcde8ab4; 0xbd1ce083; 0xbf5a5eda; 0xbe9834ed;
  0x00000000; 0xb8bc6765; 0xaa09c88b; 0x12b5afee; 0x8f629757; 0x37def032; 0x256b5fdc; 0x9dd738b9;
  0xc5b428ef; 0x7d084f8a; 0x6fbde064; 0xd7018701; 0x4ad6bfb8; 0xf26ad8dd; 0xe0df7733; 0x58631056;
  0x5019579f; 0xe8a530fa; 0xfa109f14; 0x42acf871; 0xdf7bc0c8; 0x67c7a7ad; 0x75720843; 0xcdce6f26;
  0x95ad7f70; 0x2d111815; 0x3fa4b7fb; 0x8718d09e; 0x1acfe827; 0xa2738f42; 0xb0c620ac; 0x087a47c9;
  0xa032af3e; 0x188ec85b; 0x0a3b67b5; 0xb28700d0; 0x2f503869; 0x97ec5f0c; 0x8559f0e2; 0x3de59787;
  0x658687d1; 0xdd3ae0b4; 0xcf8f4f5a; 0x7733283f; 0xeae41086; 0x525877e3; 0x40edd80d; 0xf851bf68;
  0xf02bf8a1; 0x48979fc4; 0x5a22302a; 0xe29e574f; 0x7f496ff6; 0xc7f50893; 0xd540a77d; 0x6dfcc018;
  0x359fd04e; 0x8d23b72b; 0x9f9618c5; 0x272a7fa0; 0xbafd4719; 0x0241207c; 0x10f48f92; 0xa848e8f7;
  0x9b14583d; 0x23a83f58; 0x311d90b6; 0x89a1f7d3; 0x1476cf6a; 0xaccaa80f; 0xbe7f07e1; 0x06c36084;
  0x5ea070d2; 0xe61c17b7; 0xf4a9b859; 0x4c15df3c; 0xd1c2e785; 0x697e80e0; 0x7bcb2f0e; 0xc377486b;
  0xcb0d0fa2; 0x73b168c7; 0x6104c729; 0xd9b8a04c; 0x446f98f5; 0xfcd3ff90; 0xee66507e; 0x56da371b;
  0x0eb9274d; 0xb6054028; 0xa4b0efc6; 0x1c0c88a3; 0x81dbb01a; 0x3967d77f; 0x2bd27891; 0x936e1ff4;
  0x3b26f703; 0x839a9066; 0x912f3f88; 0x299358ed; 0xb4446054; 0x0cf80731; 0x1e4da8df; 0xa6f1cfba;
  0xfe92dfec; 0x462eb889; 0x549b1767; 0xec277002; 0x71f048bb; 0xc94c2fde; 0xdbf98030; 0x6345e755;
  0x6b3fa09c; 0xd383c7f9; 0xc1366817; 0x798a0f72; 0xe45d37cb; 0x5ce150ae; 0x4e54ff40; 0xf6e89825;
  0xae8b8873; 0x1637ef16; 0x048240f8; 0xbc3e279d; 0x21e91f24; 0x99557841; 0x8be0d7af; 0x335cb0ca;
  0xed59b63b; 0x55e5d15e; 0x47507eb0; 0xffec19d5; 0x623b216c; 0xda874609; 0xc832e9e7; 0x708e8e82;
  0x28ed9ed4; 0x9051f9b1; 0x82e4565f; 0x3a58313a; 0xa78f0983; 0x1f336ee6; 0x0d86c108; 0xb53aa66d;
  0xbd40e1a4; 0x05fc86c1; 0x1749292f; 0xaff54e4a; 0x322276f3; 0x8a9e1196; 0x982bbe78; 0x2097d91d;
  0x78f4c94b; 0xc048ae2e; 0xd2fd01c0; 0x6a4166a5; 0xf7965e1c; 0x4f2a3979; 0x5d9f9697; 0xe523f1f2;
  0x4d6b1905; 0xf5d77e60; 0xe762d18e; 0x5fdeb6eb; 0xc2098e52; 0x7ab5e937; 0x680046d9; 0xd0bc21bc;
  0x88df31ea; 0x3063568f; 0x22d6f961; 0x9a6a9e04; 0x07bda6bd; 0xbf01c1d8; 0xadb46e36; 0x15080953;
  0x1d724e9a; 0xa5ce29ff; 0xb77b8611; 0x0fc7e174; 0x9210d9cd; 0x2aacbea8; 0x38191146; 0x80a57623;
  0xd8c66675; 0x607a0110; 0x72cfaefe; 0xca73c99b; 0x57a4f122; 0xef189647; 0xfdad39a9; 0x45115ecc;
  0x764dee06; 0xcef18963; 0xdc44268d; 0x64f841e8; 0xf92f7951; 0x41931e34; 0x5326b1da; 0xeb9ad6bf;
  0xb3f9c6e9; 0x0b45a18c; 0x19f00e62; 0xa14c6907; 0x3c9b51be; 0x842736db; 0x96929935; 0x2e2efe50;
  0x2654b999; 0x9ee8defc; 0x8c5d7112; 0x34e11677; 0xa9362ece; 0x118a49ab; 0x033fe645; 0xbb838120;
  0xe3e09176; 0x5b5cf613; 0x49e959fd; 0xf1553e98; 0x6c820621; 0xd43e6144; 0xc68bceaa; 0x7e37a9cf;
  0xd67f4138; 0x6ec3265d; 0x7c7689b3; 0xc4caeed6; 0x591dd66f; 0xe1a1b10a; 0xf3141ee4; 0x4ba87981;
  0x13cb69d7; 0xab770eb2; 0xb9c2a15c; 0x017ec639; 0x9ca9fe80; 0x241599e5; 0x36a0360b; 0x8e1c516e;
  0x866616a7; 0x3eda71c2; 0x2c6fde2c; 0x94d3b949; 0x090481f0; 0xb1b8e695; 0xa30d497b; 0x1bb12e1e;
  0x43d23e48; 0xfb6e592d; 0xe9dbf6c3; 0x516791a6; 0xccb0a91f; 0x740cce7a; 0x66b96194; 0xde0506f1].

