(* ===== verification/Crc.v ===== *)
(** The two checksums of the Livox protocol, [FastCRC16::ccitt] and
    [FastCRC32::crc32] (3rdparty/FastCRC/FastCRCsw.cpp, with the large tables):
    four bytes at a time through four tables. They are proved equal to the
    bitwise definition of a cyclic redundancy check. *)

From S2P Require Import Prelude CrcTables.

(** ** The code *)

(** Reads from the tables. [unsigned long] has 64 bits: the second function
    also reads the next word of the table; [past_table] is what it finds after
    the last one, which the language leaves undefined. *)
Definition pgm_read_word (table : list Z) (i : Z) : option Z := aget table i.

Definition pgm_read_dword (past_table : option Z) (table : list Z) (i : Z) : option Z :=
  low ← aget table i;
  high ← (if i + 1 <? alen table then aget table (i + 1) else past_table);
  Some (low + 2 ^ 32 * high).

Definition REV16 (value : Z) : Z := Z.lor (Z.shiftr value 8) (Z.shiftl (Z.land value 0xff) 8).

(** The four bytes at [p], least significant first. *)
Definition read_u32 (mem : list Z) (p : Z) : option Z :=
  b0 ← aget mem p; b1 ← aget mem (p + 1); b2 ← aget mem (p + 2); b3 ← aget mem (p + 3);
  Some (b0 + 2 ^ 8 * b1 + 2 ^ 16 * b2 + 2 ^ 24 * b3).

Section update.
(** The width of [crc]. *)
Context (width : Z) (read : Z -> option Z).

Definition crc_byte (crc byte : Z) : option Z :=
  w ← read (Z.lxor (Z.land crc 0xff) byte);
  Some (Z.lxor (Z.shiftr crc 8) w mod 2 ^ width).

(** [crc_n4]: the upper half of a 16-bit [crc] is that of [data]. *)
Definition crc_n4 (crc data : Z) : option Z :=
  let crc := Z.lxor crc data mod 2 ^ width in
  w3 ← read (Z.land crc 0xff + 0x300);
  w2 ← read (Z.land (Z.shiftr crc 8) 0xff + 0x200);
  w1 ← read (Z.land (Z.shiftr data 16) 0xff + 0x100);
  w0 ← read (Z.shiftr data 24);
  Some (Z.lxor (Z.lxor (Z.lxor w3 w2) w1) w0 mod 2 ^ width).

(** [crc_n4d] *)
Definition crc_n4d (crc data : Z) : option Z :=
  let crc := Z.lxor crc data mod 2 ^ width in
  w3 ← read (Z.land crc 0xff + 0x300);
  w2 ← read (Z.land (Z.shiftr crc 8) 0xff + 0x200);
  w1 ← read (Z.land (Z.shiftr crc 16) 0xff + 0x100);
  w0 ← read (Z.land (Z.shiftr crc 24) 0xff);
  Some (Z.lxor (Z.lxor (Z.lxor w3 w2) w1) w0 mod 2 ^ width).

(** The state of the loops: [crc], [data] and [len]. *)
Definition crc_state : Type := Z * Z * Z.

Definition one_byte (mem : list Z) (s : crc_state) : option crc_state :=
  let '(crc, p, len) := s in
  b ← aget mem p; crc ← crc_byte crc b; Some (crc, p + 1, len - 1).

Definition one_word (word : Z -> Z -> option Z) (mem : list Z) (s : crc_state) : option crc_state :=
  let '(crc, p, len) := s in
  d ← read_u32 mem p; crc ← word crc d; Some (crc, p + 4, len - 4).

(** The three loops, over the memory whose first byte has the address [base]. *)
Definition crc_update (word : Z -> Z -> option Z) (base : Z) (mem : list Z) (crc p len : Z) : option Z :=
  let fuel := S (Z.to_nat len) in
  s ← loop fuel (fun s : crc_state => let '(_, p, len) := s in
        if negb (Z.land (base + p) 3 =? 0) && negb (len =? 0) then s ← one_byte mem s; Some (Next s) else Some (Break s)) (crc, p, len);
  s ← loop fuel (fun s : crc_state => let '(_, _, len) := s in
        if 16 <=? len then
          s ← one_word word mem s; s ← one_word word mem s; s ← one_word word mem s; s ← one_word word mem s; Some (Next s)
        else Some (Break s)) s;
  s ← loop fuel (fun s : crc_state => let '(_, _, len) := s in
        if negb (len =? 0) then s ← one_byte mem s; Some (Next s) else Some (Break s)) s;
  Some (fst (fst s)).
End update.

(** The new seed and the checksum. *)
Definition ccitt_upd (base : Z) (mem : list Z) (seed p len : Z) : option (Z * Z) :=
  crc ← crc_update 16 (pgm_read_word crc_table_ccitt) (crc_n4 16 (pgm_read_word crc_table_ccitt)) base mem seed p len;
  Some (crc, REV16 crc mod 2 ^ 16).

Definition crc32_upd (past_table : option Z) (base : Z) (mem : list Z) (seed p len : Z) : option (Z * Z) :=
  let read := pgm_read_dword past_table crc_table_crc32_big in
  crc ← crc_update 32 read (crc_n4d 32 read) base mem seed p len;
  Some (crc, u32 (Z.lnot crc)).

Definition FastCRC16_ccitt (base : Z) (mem : list Z) (p len : Z) : option Z :=
  r ← ccitt_upd base mem 0xffff p len; Some (snd r).

Definition FastCRC32_crc32 (past_table : option Z) (base : Z) (mem : list Z) (p len : Z) : option Z :=
  r ← crc32_upd past_table base mem 0xffffffff p len; Some (snd r).

(** The check values of the comments, on "123456789". *)
Example ccitt_check : FastCRC16_ccitt 1 [49; 50; 51; 52; 53; 54; 55; 56; 57] 0 9 = Some 0x29b1.
Proof. vm_compute. reflexivity. Qed.

Example crc32_check : FastCRC32_crc32 (Some 0) 1 [49; 50; 51; 52; 53; 54; 55; 56; 57] 0 9 = Some 0xcbf43926.
Proof. vm_compute. reflexivity. Qed.

(** ** Linear functions

    Over bit vectors, with the exclusive or as sum. *)

Definition linear (f : Z -> Z) : Prop :=
  (forall x, 0 <= x -> 0 <= f x) /\ forall x y, 0 <= x -> 0 <= y -> f (Z.lxor x y) = Z.lxor (f x) (f y).

Lemma lxor_range n x y : 0 <= x < 2 ^ n -> 0 <= y < 2 ^ n -> 0 <= Z.lxor x y < 2 ^ n.
Proof.
  intros Hx Hy. assert (Hn : 0 <= n) by (destruct (Z.neg_nonneg_cases n); [rewrite Z.pow_neg_r in Hx by done; lia|done]).
  assert (H0 : 0 <= Z.lxor x y) by (apply Z.lxor_nonneg; lia). split; [done|].
  destruct (decide (Z.lxor x y = 0)) as [->|Hne]; [lia|]. apply Z.log2_lt_pow2; [lia|].
  pose proof (Z.log2_lxor x y ltac:(lia) ltac:(lia)).
  assert (Hlog : forall z, 0 <= z < 2 ^ n -> 0 < n -> Z.log2 z < n).
  { intros z Hz Hp. destruct (decide (z = 0)) as [->|]; [rewrite Z.log2_nonpos; lia|]. apply Z.log2_lt_pow2; lia. }
  destruct (decide (n = 0)) as [->|]; [replace x with 0 in * by lia; replace y with 0 in * by lia; done|].
  pose proof (Hlog x Hx ltac:(lia)). pose proof (Hlog y Hy ltac:(lia)). lia.
Qed.

Lemma linear_0 f : linear f -> f 0 = 0.
Proof. intros [_ H]. specialize (H 0 0 ltac:(lia) ltac:(lia)). rewrite Z.lxor_0_l in H. rewrite H at 1. apply Z.lxor_nilpotent. Qed.

Lemma testbit_above n x i : 0 <= x < 2 ^ n -> n <= i -> Z.testbit x i = false.
Proof.
  intros Hx Hi. destruct (decide (x = 0)) as [->|]; [apply Z.bits_0|]. apply Z.bits_above_log2; [lia|].
  assert (Z.log2 x < n) by (apply Z.log2_lt_pow2; lia). lia.
Qed.

Lemma top_bit n x : 0 <= n -> 2 ^ n <= x < 2 ^ (n + 1) -> x = Z.lxor (2 ^ n) (x - 2 ^ n) /\ 0 <= x - 2 ^ n < 2 ^ n.
Proof.
  intros Hn Hx. rewrite Z.pow_add_r in Hx by lia. split; [|lia]. rewrite <- Z.add_nocarry_lxor; [lia|].
  apply Z.bits_inj'. intros i Hi. rewrite Z.land_spec, Z.bits_0, Z.pow2_bits_eqb by lia.
  destruct (Z.eqb_spec n i) as [<-|]; [|done]. by rewrite (testbit_above n) by lia.
Qed.

(** Two linear functions that agree on the single bits agree. *)
Lemma linear_ext f g n :
  linear f -> linear g -> forallb (fun i => f (2 ^ Z.of_nat i) =? g (2 ^ Z.of_nat i)) (seq 0 n) = true ->
  forall x, 0 <= x < 2 ^ Z.of_nat n -> f x = g x.
Proof.
  intros Lf Lg. induction n as [|n IH]; intros Hb x Hx.
  - replace x with 0 by (cbn in Hx; lia). by rewrite (linear_0 f Lf), (linear_0 g Lg).
  - rewrite seq_S, forallb_app, andb_true_iff in Hb. destruct Hb as [Hb Hn]. cbn in Hn. rewrite andb_true_r in Hn. apply Z.eqb_eq in Hn.
    destruct (decide (x < 2 ^ Z.of_nat n)) as [Hlt|Hge]; [apply IH; [done|lia]|].
    destruct (top_bit (Z.of_nat n) x) as [E Hr]; [lia|replace (Z.of_nat n + 1) with (Z.of_nat (S n)) by lia; lia|].
    rewrite E. pose proof (Z.pow_nonneg 2 (Z.of_nat n)). rewrite (proj2 Lf), (proj2 Lg), Hn, IH by (done || lia). done.
Qed.

Lemma linear_comp f g : linear f -> linear g -> linear (fun x => f (g x)).
Proof. intros [Hf Lf] [Hg Lg]. split; [auto|]. intros x y Hx Hy. rewrite Lg, Lf; auto. Qed.

Lemma linear_lxor f g : linear f -> linear g -> linear (fun x => Z.lxor (f x) (g x)).
Proof.
  intros [Hf Lf] [Hg Lg]. split; [intros x Hx; apply Z.lxor_nonneg; split; auto|]. intros x y Hx Hy. rewrite Lf, Lg by done.
  rewrite !Z.lxor_assoc. f_equal. rewrite <- !Z.lxor_assoc. f_equal. apply Z.lxor_comm.
Qed.

Lemma linear_shiftr n : 0 <= n -> linear (fun x => Z.shiftr x n).
Proof. intros Hn. split; [intros x Hx; by apply Z.shiftr_nonneg|]. intros x y _ _. apply Z.shiftr_lxor. Qed.

Lemma linear_shiftl n : 0 <= n -> linear (fun x => Z.shiftl x n).
Proof. intros Hn. split; [intros x Hx; by apply Z.shiftl_nonneg|]. intros x y _ _. apply Z.shiftl_lxor. Qed.

Lemma linear_land m : 0 <= m -> linear (fun x => Z.land x m).
Proof.
  intros Hm. split; [intros x Hx; apply Z.land_nonneg; by right|]. intros x y _ _. apply Z.bits_inj'. intros i Hi.
  rewrite !Z.lxor_spec, !Z.land_spec, Z.lxor_spec. by destruct (Z.testbit x i), (Z.testbit y i), (Z.testbit m i).
Qed.

Lemma linear_if n c : 0 <= c -> linear (fun x => if Z.testbit x n then c else 0).
Proof.
  intros Hc. split; [intros x _; by destruct (Z.testbit x n)|]. intros x y _ _. rewrite Z.lxor_spec.
  destruct (Z.testbit x n), (Z.testbit y n); cbn; by rewrite ?Z.lxor_nilpotent, ?Z.lxor_0_r, ?Z.lxor_0_l.
Qed.

Lemma linear_iter f n : linear f -> linear (Nat.iter n f).
Proof.
  intros Lf. induction n as [|n IH]; [by split|]. exact (linear_comp f (Nat.iter n f) Lf IH).
Qed.

Lemma lxor_mod n x y : 0 <= n -> Z.lxor x y mod 2 ^ n = Z.lxor (x mod 2 ^ n) (y mod 2 ^ n).
Proof.
  intros Hn. rewrite <- !Z.land_ones by done. apply Z.bits_inj'. intros i Hi.
  rewrite !Z.lxor_spec, !Z.land_spec, Z.lxor_spec. by destruct (Z.testbit x i), (Z.testbit y i), (Z.testbit (Z.ones n) i).
Qed.

Lemma land_byte x : is_u8 (Z.land x 255).
Proof. unfold is_u8. change 255 with (Z.ones 8). rewrite Z.land_ones by lia. apply Z.mod_pos_bound. lia. Qed.

Lemma byte_land b : is_u8 b -> Z.land b 255 = b.
Proof. intros Hb. change 255 with (Z.ones 8). rewrite Z.land_ones by lia. by apply Z.mod_small. Qed.

Lemma byte_shiftr b : is_u8 b -> Z.shiftr b 8 = 0.
Proof. intros Hb. rewrite Z.shiftr_div_pow2 by lia. by apply Z.div_small. Qed.

(** A byte followed by the others. *)
Lemma low_byte b y : is_u8 b -> 0 <= y -> b + 2 ^ 8 * y = Z.lxor b (Z.shiftl y 8).
Proof.
  intros Hb Hy. rewrite <- Z.add_nocarry_lxor; [rewrite Z.shiftl_mul_pow2 by lia; lia|].
  apply Z.bits_inj'. intros i Hi. rewrite Z.land_spec, Z.bits_0, Z.shiftl_spec by done.
  destruct (decide (i < 8)); [rewrite (Z.testbit_neg_r y) by lia; apply andb_false_r|].
  by rewrite (testbit_above 8 b) by (exact Hb || lia).
Qed.

(** ** Four tables *)

Section sliced.
Context (width : Z) (Hwidth : 8 <= width) (table : list Z) (L : Z -> Z) (HL : linear L).

Let T (i : Z) : Z := lget table i.

(** One byte of zeros. *)
Definition crc_shift (x : Z) : Z := Z.lxor (Z.shiftr x 8) (L (Z.land x 255)).

(** What is checked of a table: the first 256 words are given by a linear
    function, and each of the others is the shift of the one 256 before. *)
Definition table_ok : bool :=
  (alen table =? 1024) &&
  forallb (fun i => (0 <=? T i) && (T i <? 2 ^ width)) (seqZ 0 1024) &&
  forallb (fun i => T i =? L i) (seqZ 0 256) &&
  forallb (fun i => T (i + 256) =? crc_shift (T i)) (seqZ 0 768).

Context (Hok : table_ok = true).

Lemma forallb_seqZ f n : forallb f (seqZ 0 n) = true -> forall i, 0 <= i < n -> f i = true.
Proof. rewrite forallb_forall. intros H i Hi. apply H, list_elem_of_In, elem_of_seqZ. lia. Qed.

Lemma table_len : alen table = 1024.
Proof. unfold table_ok in Hok. rewrite !andb_true_iff, Z.eqb_eq in Hok. tauto. Qed.

Lemma table_range i : 0 <= i < 1024 -> 0 <= T i < 2 ^ width.
Proof.
  intros Hi. unfold table_ok in Hok. rewrite !andb_true_iff in Hok. destruct Hok as [[[_ H] _] _].
  pose proof (forallb_seqZ _ _ H i Hi) as Hb. cbn in Hb. rewrite andb_true_iff, Z.leb_le, Z.ltb_lt in Hb. lia.
Qed.

Lemma table_linear i : is_u8 i -> T i = L i.
Proof.
  intros Hi. unfold table_ok in Hok. rewrite !andb_true_iff in Hok. destruct Hok as [[_ H] _].
  apply Z.eqb_eq. exact (forallb_seqZ _ _ H i Hi).
Qed.

Lemma table_next i : 0 <= i < 768 -> T (i + 256) = crc_shift (T i).
Proof.
  intros Hi. unfold table_ok in Hok. rewrite !andb_true_iff in Hok. destruct Hok as [_ H].
  apply Z.eqb_eq. exact (forallb_seqZ _ _ H i Hi).
Qed.

Lemma shift_linear : linear crc_shift.
Proof.
  apply linear_lxor; [apply linear_shiftr; lia|]. apply (linear_comp L); [done|]. apply linear_land. lia.
Qed.

Lemma shift_byte i : is_u8 i -> crc_shift i = L i.
Proof. intros Hi. unfold crc_shift. by rewrite byte_shiftr, byte_land, Z.lxor_0_l. Qed.

Lemma shift_high x y : 0 <= x -> 0 <= y -> crc_shift (Z.lxor x (Z.shiftl y 8)) = Z.lxor (crc_shift x) y.
Proof.
  intros Hx Hy. rewrite (proj2 shift_linear) by (done || by apply Z.shiftl_nonneg). f_equal. unfold crc_shift.
  rewrite Z.shiftr_shiftl_l by lia. rewrite Z.shiftl_0_r.
  assert (E : Z.land (Z.shiftl y 8) 255 = 0).
  { change 255 with (Z.ones 8). rewrite Z.land_ones, Z.shiftl_mul_pow2 by lia. apply Z.mod_mul. lia. }
  rewrite E, (linear_0 L HL). apply Z.lxor_0_r.
Qed.

Lemma shift_range x : 0 <= x < 2 ^ width -> 0 <= crc_shift x < 2 ^ width.
Proof.
  intros Hx. unfold crc_shift. apply lxor_range.
  - rewrite Z.shiftr_div_pow2 by lia. split; [apply Z.div_pos; lia|]. apply Z.div_lt_upper_bound; [lia|]. nia.
  - pose proof (land_byte x) as Hb. rewrite <- table_linear by done. apply table_range. unfold is_u8 in Hb. lia.
Qed.

(** The table [k] shifts a byte [k + 1] times. *)
Lemma table_iter k i : (k < 4)%nat -> is_u8 i -> T (i + 256 * Z.of_nat k) = Nat.iter (S k) crc_shift i.
Proof.
  intros Hk Hi. induction k as [|k IH].
  - rewrite Z.mul_0_r, Z.add_0_r. cbn. by rewrite table_linear, shift_byte.
  - replace (i + 256 * Z.of_nat (S k)) with (i + 256 * Z.of_nat k + 256) by lia. unfold is_u8 in Hi. rewrite table_next by lia.
    rewrite IH by lia. done.
Qed.

Lemma iter_split n x : 0 <= x -> Nat.iter (S n) crc_shift x = Z.lxor (Nat.iter (S n) crc_shift (Z.land x 255)) (Nat.iter n crc_shift (Z.shiftr x 8)).
Proof.
  intros Hx. pose proof (linear_iter crc_shift n shift_linear) as Ln. rewrite !Nat.iter_succ_r.
  rewrite (shift_byte (Z.land x 255)) by apply land_byte. unfold crc_shift at 2. rewrite (proj2 Ln).
  - apply Z.lxor_comm.
  - by apply Z.shiftr_nonneg.
  - apply HL. pose proof (land_byte x). unfold is_u8 in *. lia.
Qed.

(** The four look-ups of a word. *)
Lemma word_lookup x :
  0 <= x < 2 ^ 32 ->
  Nat.iter 4 crc_shift x =
  Z.lxor (Z.lxor (Z.lxor (T (Z.land x 255 + 768)) (T (Z.land (Z.shiftr x 8) 255 + 512))) (T (Z.land (Z.shiftr x 16) 255 + 256)))
    (T (Z.land (Z.shiftr x 24) 255)).
Proof.
  intros Hx. assert (Hn : forall n, 0 <= Z.shiftr x n) by (intros n; apply Z.shiftr_nonneg; lia).
  rewrite (iter_split 3) by lia. rewrite (iter_split 2) by done. rewrite (iter_split 1) by (apply Z.shiftr_nonneg; done).
  rewrite !Z.shiftr_shiftr by lia. rewrite <- !Z.lxor_assoc. change (8 + 8) with 16. change (16 + 8) with 24.
  rewrite <- !table_iter by (lia || apply land_byte). change (256 * Z.of_nat 3) with 768. change (256 * Z.of_nat 2) with 512. change (256 * Z.of_nat 1) with 256.
  f_equal. cbn [Nat.iter nat_rect].
  assert (Hb : is_u8 (Z.shiftr x 24)).
  { unfold is_u8. rewrite Z.shiftr_div_pow2 by lia. split; [apply Z.div_pos; lia|apply Z.div_lt_upper_bound; lia]. }
  rewrite byte_land, table_linear, shift_byte by done. done.
Qed.
End sliced.

(** ** The loops *)

(** [len] bytes of a memory. *)
Definition bytes_of (mem : list Z) (p len : Z) : list Z := take (Z.to_nat len) (drop (Z.to_nat p) mem).

Lemma bytes_of_nil mem p : bytes_of mem p 0 = [].
Proof. done. Qed.

Lemma bytes_of_snoc mem p n : 0 <= p -> 0 <= n -> p + n < alen mem -> bytes_of mem p (n + 1) = bytes_of mem p n ++ [lget mem (p + n)].
Proof.
  intros Hp Hn Hl. unfold bytes_of. replace (Z.to_nat (n + 1)) with (S (Z.to_nat n)) by lia.
  apply take_S_r. rewrite lookup_drop. pose proof (aget_lget mem (p + n) ltac:(lia)) as E. unfold aget in E.
  destruct (in_array mem (p + n)); [|done]. by replace (Z.to_nat p + Z.to_nat n)%nat with (Z.to_nat (p + n)) by lia.
Qed.

Section loops.
Context (width : Z) (Hwidth : 8 <= width) (table : list Z) (L : Z -> Z) (HL : linear L) (Hok : table_ok width table L = true).
Context (read : Z -> option Z).
Context (Hread : forall i, 0 <= i < 1024 -> exists w, read i = Some w /\ w mod 2 ^ width = lget table i).

(** The bytes one by one. *)
Definition crc_feed (crc b : Z) : Z := crc_shift L (Z.lxor crc b).

Let in_width (crc : Z) : Prop := 0 <= crc < 2 ^ width.

Lemma width_pow : 2 ^ 8 <= 2 ^ width.
Proof. apply Z.pow_le_mono_r; lia. Qed.

Lemma feed_range crc b : in_width crc -> is_u8 b -> in_width (crc_feed crc b).
Proof.
  intros Hc Hb. pose proof width_pow. apply (shift_range width Hwidth table L Hok). apply lxor_range; [done|unfold is_u8 in Hb; lia].
Qed.

Lemma crc_byte_spec crc b : in_width crc -> is_u8 b -> crc_byte width read crc b = Some (crc_feed crc b).
Proof.
  intros Hc Hb. unfold crc_byte. change 0xff with 255.
  assert (Ei : Z.lxor (Z.land crc 255) b = Z.land (Z.lxor crc b) 255).
  { rewrite (proj2 (linear_land 255 ltac:(lia))) by (unfold is_u8, in_width in *; lia). by rewrite (byte_land b). }
  pose proof (land_byte (Z.lxor crc b)) as Hx. rewrite Ei. destruct (Hread (Z.land (Z.lxor crc b) 255)) as (w & -> & Hw); [unfold is_u8 in Hx; lia|].
  mred. f_equal. rewrite lxor_mod, Hw by lia. rewrite (table_linear width table L Hok) by done. unfold crc_feed, crc_shift. f_equal.
  rewrite Z.shiftr_lxor, (byte_shiftr b), Z.lxor_0_r by done. apply Z.mod_small. unfold in_width in Hc.
  rewrite Z.shiftr_div_pow2 by lia. split; [apply Z.div_pos; lia|]. apply Z.div_lt_upper_bound; lia.
Qed.

(** A look-up of four reads. *)
Lemma four_reads x i3 i2 i1 i0 :
  0 <= x < 2 ^ 32 -> i3 = Z.land x 255 + 768 -> i2 = Z.land (Z.shiftr x 8) 255 + 512 ->
  i1 = Z.land (Z.shiftr x 16) 255 + 256 -> i0 = Z.land (Z.shiftr x 24) 255 ->
  (w3 ← read i3; w2 ← read i2; w1 ← read i1; w0 ← read i0; Some (Z.lxor (Z.lxor (Z.lxor w3 w2) w1) w0 mod 2 ^ width))
  = Some (Nat.iter 4 (crc_shift L) x).
Proof.
  intros Hx -> -> -> ->. rewrite (word_lookup width table L HL Hok x Hx).
  pose proof (land_byte x) as B3. pose proof (land_byte (Z.shiftr x 8)) as B2. pose proof (land_byte (Z.shiftr x 16)) as B1. pose proof (land_byte (Z.shiftr x 24)) as B0.
  unfold is_u8 in *.
  destruct (Hread (Z.land x 255 + 768)) as (w3 & -> & <-); [lia|]. destruct (Hread (Z.land (Z.shiftr x 8) 255 + 512)) as (w2 & -> & <-); [lia|].
  destruct (Hread (Z.land (Z.shiftr x 16) 255 + 256)) as (w1 & -> & <-); [lia|]. destruct (Hread (Z.land (Z.shiftr x 24) 255)) as (w0 & -> & <-); [lia|].
  mred. by rewrite !lxor_mod by lia.
Qed.

(** Four bytes fed one by one, or together. *)
Lemma feed_word crc b0 b1 b2 b3 :
  0 <= crc -> is_u8 b0 -> is_u8 b1 -> is_u8 b2 -> is_u8 b3 ->
  Nat.iter 4 (crc_shift L) (Z.lxor crc (b0 + 2 ^ 8 * b1 + 2 ^ 16 * b2 + 2 ^ 24 * b3)) = foldl crc_feed crc [b0; b1; b2; b3].
Proof.
  intros Hc H0 H1 H2 H3. pose proof (shift_linear L HL) as [Hpos _].
  assert (Hstep : forall c b y, 0 <= c -> is_u8 b -> 0 <= y -> crc_shift L (Z.lxor c (b + 2 ^ 8 * y)) = Z.lxor (crc_feed c b) y).
  { intros c b y Hcc Hb Hy. rewrite (low_byte b y Hb Hy), <- Z.lxor_assoc. apply shift_high; [done| |done].
    apply Z.lxor_nonneg. unfold is_u8 in Hb. lia. }
  assert (Hf : forall c b, 0 <= c -> is_u8 b -> 0 <= crc_feed c b).
  { intros c b Hcc Hb. apply Hpos, Z.lxor_nonneg. unfold is_u8 in Hb. lia. }
  unfold is_u8 in *.
  replace (b0 + 2 ^ 8 * b1 + 2 ^ 16 * b2 + 2 ^ 24 * b3) with (b0 + 2 ^ 8 * (b1 + 2 ^ 8 * (b2 + 2 ^ 8 * (b3 + 2 ^ 8 * 0)))) by lia.
  rewrite !Nat.iter_succ_r. cbn [Nat.iter nat_rect]. rewrite !Hstep by (unfold is_u8; auto 6; lia). cbn [foldl]. by rewrite Z.lxor_0_r.
Qed.
(** The state of the loops [k] bytes after the position [p0]. *)
Section run.
Context (word : Z -> Z -> option Z).
Context (Hword : forall crc d, in_width crc -> 0 <= d < 2 ^ 32 -> word crc d = Some (Nat.iter 4 (crc_shift L) (Z.lxor crc d))).
Context (base : Z) (mem : list Z) (Hmem : forall i, is_u8 (lget mem i)) (crc0 p0 len0 : Z).
Context (Hcrc : in_width crc0) (Hp : 0 <= p0) (Hlen : 0 <= len0) (Hin : p0 + len0 <= alen mem).

Definition fed (s : crc_state) : Prop :=
  let '(crc, p, len) := s in
  p + len = p0 + len0 /\ 0 <= len <= len0 /\ in_width crc /\ crc = foldl crc_feed crc0 (bytes_of mem p0 (p - p0)).

Lemma one_byte_fed crc p len :
  fed (crc, p, len) -> 0 < len -> exists crc', one_byte width read mem (crc, p, len) = Some (crc', p + 1, len - 1) /\ fed (crc', p + 1, len - 1).
Proof.
  intros (Ep & Hl & Hc & E) Hpos. unfold one_byte. rewrite aget_lget by lia. mred. rewrite crc_byte_spec by done. mred.
  eexists. split; [done|]. split; [lia|]. split; [lia|]. split; [by apply feed_range|].
  replace (p + 1 - p0) with (p - p0 + 1) by lia. rewrite bytes_of_snoc, foldl_app by lia. cbn. rewrite <- E. by replace (p0 + (p - p0)) with p by lia.
Qed.

Lemma one_word_fed crc p len :
  fed (crc, p, len) -> 4 <= len -> exists crc', one_word word mem (crc, p, len) = Some (crc', p + 4, len - 4) /\ fed (crc', p + 4, len - 4).
Proof.
  intros (Ep & Hl & Hc & E) Hpos. unfold one_word, read_u32. rewrite !aget_lget by lia. mred.
  pose proof (Hmem p) as H0. pose proof (Hmem (p + 1)) as H1. pose proof (Hmem (p + 2)) as H2. pose proof (Hmem (p + 3)) as H3.
  rewrite Hword by (done || unfold is_u8 in *; lia). mred. rewrite feed_word by (done || unfold in_width in Hc; lia).
  eexists. split; [done|]. split; [lia|]. split; [lia|].
  split; [cbn [foldl]; by repeat apply feed_range|].
  replace (p + 4 - p0) with (p - p0 + 1 + 1 + 1 + 1) by lia. rewrite !bytes_of_snoc by lia. rewrite <- !app_assoc, foldl_app, <- E. cbn [app].
  by replace (p0 + (p - p0)) with p by lia; replace (p0 + (p - p0 + 1)) with (p + 1) by lia; replace (p0 + (p - p0 + 1 + 1)) with (p + 2) by lia;
    replace (p0 + (p - p0 + 1 + 1 + 1)) with (p + 3) by lia.
Qed.

Let left_ (s : crc_state) : nat := Z.to_nat s.2.

(** Whatever the alignment, the bytes are fed one after the other. *)
Lemma crc_update_spec : crc_update width read word base mem crc0 p0 len0 = Some (foldl crc_feed crc0 (bytes_of mem p0 len0)).
Proof.
  assert (Hfuel : forall s, fed s -> (left_ s < S (Z.to_nat len0))%nat) by (intros [[crc p] len] (_ & Hl & _); unfold left_; cbn; lia).
  unfold crc_update. set (fuel := S (Z.to_nat len0)).
  match goal with |- context [loop fuel ?body (crc0, p0, len0)] =>
    destruct (loop_inv fed fed left_ body) with (fuel := fuel) (s := (crc0, p0, len0)) as (s1 & -> & H1) end.
  - intros [[crc p] len] Hs. destruct (negb (Z.land (base + p) 3 =? 0)); cbn [andb]; [|by eexists].
    destruct (Z.eqb_spec len 0) as [->|Hne]; cbn [negb]; [by eexists|]. assert (Hl : 0 < len) by (destruct Hs as (_ & ? & _); lia).
    destruct (one_byte_fed crc p len Hs Hl) as (crc' & -> & Hs'). mred. eexists. split; [done|]. split; [done|]. unfold left_. cbn. lia.
  - split; [done|]. split; [lia|]. split; [done|]. by rewrite Z.sub_diag.
  - apply Hfuel. split; [done|]. split; [lia|]. split; [done|]. by rewrite Z.sub_diag.
  - mred. match goal with |- context [loop fuel ?body s1] => destruct (loop_inv fed fed left_ body) with (fuel := fuel) (s := s1) as (s2 & -> & H2) end; [|done|by apply Hfuel|].
    { intros [[crc p] len] Hs. destruct (Z.leb_spec 16 len) as [Hl|]; [|by eexists].
      destruct (one_word_fed crc p len Hs) as (c1 & -> & Hs1); [lia|]. mred. destruct (one_word_fed _ _ _ Hs1) as (c2 & -> & Hs2); [lia|]. mred.
      destruct (one_word_fed _ _ _ Hs2) as (c3 & -> & Hs3); [lia|]. mred. destruct (one_word_fed _ _ _ Hs3) as (c4 & -> & Hs4); [lia|]. mred.
      eexists. split; [done|]. split; [done|]. unfold left_. cbn. lia. }
    mred. match goal with |- context [loop fuel ?body s2] =>
      destruct (loop_inv fed (fun s => fed s /\ s.2 = 0) left_ body) with (fuel := fuel) (s := s2) as ([[crc p] len] & -> & Hs & E0) end; [|done|by apply Hfuel|].
    { intros [[crc p] len] Hs. destruct (Z.eqb_spec len 0) as [->|Hne]; cbn [negb]; [by eexists|].
      destruct (one_byte_fed crc p len Hs) as (crc' & -> & Hs'); [destruct Hs as (_ & ? & _); lia|]. mred. eexists. split; [done|]. split; [done|]. unfold left_. cbn.
      destruct Hs as (_ & ? & _). lia. }
    mred. cbn in *. destruct Hs as (Ep & _ & _ & ->). by replace (p - p0) with len0 by lia.
Qed.
End run.
End loops.

(** ** The definition of a cyclic redundancy check

    The parameters are those of the comments of the code: the polynomial, the
    initial value, whether the bytes and the result are reflected, and the
    final exclusive or. *)

Fixpoint reflect_bits (n : nat) (w x : Z) : Z :=
  match n with
  | O => 0
  | S n => Z.lxor (reflect_bits n w x) (if Z.testbit x (Z.of_nat n) then 2 ^ (w - 1 - Z.of_nat n) else 0)
  end.

Definition reflect (w x : Z) : Z := reflect_bits (Z.to_nat w) w x.

(** A bit goes out at the left: the polynomial is subtracted. *)
Definition crc_bit (w poly x : Z) : Z := Z.lxor (Z.land (Z.shiftl x 1) (Z.ones w)) (if Z.testbit x (w - 1) then poly else 0).

Definition crc_octet (w poly : Z) (refin : bool) (x b : Z) : Z :=
  Nat.iter 8 (crc_bit w poly) (Z.lxor x (Z.shiftl (if refin then reflect 8 b else b) (w - 8))).

Definition crc_reference (w poly init : Z) (refin refout : bool) (xorout : Z) (message : list Z) : Z :=
  let x := foldl (crc_octet w poly refin) init message in
  Z.lxor (if refout then reflect w x else x) xorout.

Lemma reflect_linear w : 0 <= w -> linear (reflect w).
Proof.
  intros Hw. unfold reflect. assert (Hn : (Z.to_nat w <= Z.to_nat w)%nat) by lia. revert Hn. generalize (Z.to_nat w) at 1 3.
  induction n as [|n IH]; intros Hn; [by split|]. apply (linear_lxor (reflect_bits n w)); [apply IH; lia|].
  apply linear_if. apply Z.pow_nonneg. lia.
Qed.

Lemma crc_bit_linear w poly : 0 <= w -> 0 <= poly -> linear (crc_bit w poly).
Proof.
  intros Hw Hp. apply linear_lxor; [|by apply linear_if].
  apply (linear_comp (fun x => Z.land x (Z.ones w)) (fun x => Z.shiftl x 1)); [apply linear_land; rewrite Z.ones_equiv; pose proof (Z.pow_pos_nonneg 2 w); lia|apply linear_shiftl; lia].
Qed.

Lemma crc_bit_range w poly x : 0 <= w -> 0 <= poly < 2 ^ w -> 0 <= crc_bit w poly x < 2 ^ w.
Proof.
  intros Hw Hp. apply lxor_range; [rewrite Z.land_ones by done; apply Z.mod_pos_bound; lia|]. by destruct (Z.testbit x (w - 1)); [|lia].
Qed.

Lemma octet_linear w (refin : bool) : 8 <= w -> linear (fun b => Z.shiftl (if refin then reflect 8 b else b) (w - 8)).
Proof.
  intros Hw. pose proof (linear_shiftl (w - 8) ltac:(lia)) as Ls. destruct refin; [|done].
  exact (linear_comp _ _ Ls (reflect_linear 8 ltac:(lia))).
Qed.

Lemma reflect8_range b : is_u8 (reflect 8 b).
Proof.
  unfold reflect. change (Z.to_nat 8) with 8%nat. cbn [reflect_bits]. unfold is_u8.
  repeat apply lxor_range; try lia; destruct (Z.testbit _ _); cbn; lia.
Qed.

Lemma octet_range w (refin : bool) b : 8 <= w -> is_u8 b -> 0 <= Z.shiftl (if refin then reflect 8 b else b) (w - 8) < 2 ^ w.
Proof.
  intros Hw Hb. assert (Hr : is_u8 (if refin then reflect 8 b else b)) by (destruct refin; [apply reflect8_range|done]).
  unfold is_u8 in Hr. rewrite Z.shiftl_mul_pow2 by lia. replace w with (8 + (w - 8)) at 3 by lia. rewrite Z.pow_add_r by lia.
  pose proof (Z.pow_pos_nonneg 2 (w - 8)). nia.
Qed.

(** ** The tables compute the definition

    [enc] gives the register of the code from the register of the definition:
    its bytes exchanged, or its bits reversed. *)

Section simulation.
Context (n : nat) (poly : Z) (refin : bool) (enc L : Z -> Z).

Let w : Z := Z.of_nat n.

Context (Hw : 8 <= w) (Hpoly : 0 <= poly < 2 ^ w) (Henc : linear enc) (HL : linear L).
Context (Hstep : forallb (fun i => enc (Nat.iter 8 (crc_bit w poly) (2 ^ Z.of_nat i)) =? crc_shift L (enc (2 ^ Z.of_nat i))) (seq 0 n) = true).
Context (Hbyte : forallb (fun i => enc (Z.shiftl (if refin then reflect 8 (2 ^ Z.of_nat i) else 2 ^ Z.of_nat i) (w - 8)) =? 2 ^ Z.of_nat i) (seq 0 8) = true).

Lemma feed_octet x b : 0 <= x < 2 ^ w -> is_u8 b -> crc_feed L (enc x) b = enc (crc_octet w poly refin x b) /\ 0 <= crc_octet w poly refin x b < 2 ^ w.
Proof.
  intros Hx Hb. unfold crc_octet. set (y := Z.shiftl _ _). pose proof (octet_range w refin b Hw Hb) as Hy. fold y in Hy.
  assert (Hxy : 0 <= Z.lxor x y < 2 ^ w) by by apply lxor_range. pose proof (crc_bit_linear w poly ltac:(lia) ltac:(lia)) as Lb. split.
  - unfold crc_feed. assert (Eb : enc y = b).
    { unfold y. apply (linear_ext (fun b => enc (Z.shiftl (if refin then reflect 8 b else b) (w - 8))) (fun b => b) 8); [|by split|exact Hbyte|exact Hb].
      exact (linear_comp _ _ Henc (octet_linear w refin Hw)). }
    rewrite <- Eb at 1. rewrite <- (proj2 Henc) by lia. symmetry.
    apply (linear_ext (fun x => enc (Nat.iter 8 (crc_bit w poly) x)) (fun x => crc_shift L (enc x)) n); [| |exact Hstep|exact Hxy].
    + exact (linear_comp _ _ Henc (linear_iter _ 8 Lb)).
    + exact (linear_comp _ _ (shift_linear L HL) Henc).
  - cbn [Nat.iter nat_rect]. apply crc_bit_range; [lia|done].
Qed.

Lemma feed_message message x : 0 <= x < 2 ^ w -> Forall is_u8 message ->
  foldl (crc_feed L) (enc x) message = enc (foldl (crc_octet w poly refin) x message) /\ 0 <= foldl (crc_octet w poly refin) x message < 2 ^ w.
Proof.
  intros Hx Hm. revert x Hx. induction Hm as [|b m Hb Hm IH]; intros x Hx; cbn [foldl]; [done|].
  destruct (feed_octet x b Hx Hb) as [E Hr]. rewrite E. by apply IH.
Qed.
End simulation.

Definition swap16 (x : Z) : Z := Z.lxor (Z.shiftr x 8) (Z.shiftl (Z.land x 255) 8).

Definition ccitt_octet (i : Z) : Z := swap16 (Nat.iter 8 (crc_bit 16 0x1021) (Z.shiftl i 8)).

Definition crc32_octet (i : Z) : Z := reflect 32 (Nat.iter 8 (crc_bit 32 0x04c11db7) (Z.shiftl (reflect 8 i) 24)).

Lemma swap16_linear : linear swap16.
Proof.
  apply linear_lxor; [apply linear_shiftr; lia|].
  apply (linear_comp (fun x => Z.shiftl x 8) (fun x => Z.land x 255)); [apply linear_shiftl; lia|apply linear_land; lia].
Qed.

Lemma ccitt_octet_linear : linear ccitt_octet.
Proof.
  apply (linear_comp swap16); [apply swap16_linear|]. apply (linear_comp (Nat.iter 8 (crc_bit 16 0x1021))); [|apply linear_shiftl; lia].
  apply linear_iter, crc_bit_linear; lia.
Qed.

Lemma crc32_octet_linear : linear crc32_octet.
Proof.
  apply (linear_comp (reflect 32)); [apply reflect_linear; lia|]. apply (linear_comp (Nat.iter 8 (crc_bit 32 0x04c11db7))); [apply linear_iter, crc_bit_linear; lia|].
  apply (linear_comp (fun x => Z.shiftl x 24)); [apply linear_shiftl; lia|apply reflect_linear; lia].
Qed.

(** The words of the header file are the ones of the polynomials. *)
Lemma ccitt_table_ok : table_ok 16 crc_table_ccitt ccitt_octet = true.
Proof. vm_compute. reflexivity. Qed.

Lemma crc32_table_ok : table_ok 32 crc_table_crc32_big crc32_octet = true.
Proof. vm_compute. reflexivity. Qed.

(** ** The checksums *)

Lemma bytes_of_u8 mem p len : Forall is_u8 mem -> Forall is_u8 (bytes_of mem p len).
Proof. intros H. by apply Forall_take, Forall_drop. Qed.

Lemma lget_u8 mem i : Forall is_u8 mem -> is_u8 (lget mem i).
Proof.
  intros H. unfold lget. destruct (aget mem i) as [v|] eqn:E; [|by unfold is_u8]. cbn.
  exact (proj1 (Forall_forall _ _) H v (aget_elem _ _ _ E)).
Qed.

Lemma pgm_read_word_ok i : 0 <= i < 1024 -> exists v, pgm_read_word crc_table_ccitt i = Some v /\ v mod 2 ^ 16 = lget crc_table_ccitt i.
Proof.
  intros Hi. exists (lget crc_table_ccitt i). split; [apply aget_lget; by rewrite (table_len 16 _ _ ccitt_table_ok)|].
  apply Z.mod_small, (table_range 16 _ _ ccitt_table_ok i Hi).
Qed.

Lemma crc_n4_word crc d :
  0 <= crc < 2 ^ 16 -> 0 <= d < 2 ^ 32 ->
  crc_n4 16 (pgm_read_word crc_table_ccitt) crc d = Some (Nat.iter 4 (crc_shift ccitt_octet) (Z.lxor crc d)).
Proof.
  intros Hc Hd. unfold crc_n4. assert (Hx : 0 <= Z.lxor crc d < 2 ^ 32) by (apply lxor_range; lia).
  apply (four_reads 16 ltac:(lia) crc_table_ccitt ccitt_octet ccitt_octet_linear ccitt_table_ok _ pgm_read_word_ok _ _ _ _ _ Hx); change 0xff with 255.
  - f_equal. rewrite <- (Z.land_ones _ 16), <- Z.land_assoc by lia. done.
  - f_equal. rewrite <- (Z.land_ones _ 16) by lia. apply Z.bits_inj'. intros i Hi. change 255 with (Z.ones 8).
    rewrite !Z.land_spec, !Z.shiftr_spec, Z.land_spec, !Z.testbit_ones_nonneg by lia. destruct (Z.ltb_spec i 8); [|by rewrite !andb_false_r].
    rewrite (proj2 (Z.ltb_lt (i + 8) 16)) by lia. by rewrite andb_true_r.
  - f_equal. f_equal. rewrite Z.shiftr_lxor. rewrite (Z.shiftr_div_pow2 crc), Z.div_small by lia. by rewrite Z.lxor_0_l.
  - rewrite Z.shiftr_lxor. rewrite (Z.shiftr_div_pow2 crc), (Z.div_small crc) by lia. rewrite Z.lxor_0_l. symmetry. apply byte_land.
    unfold is_u8. rewrite Z.shiftr_div_pow2 by lia. split; [apply Z.div_pos; lia|apply Z.div_lt_upper_bound; lia].
Qed.

Lemma swap16_range x : 0 <= x < 2 ^ 16 -> 0 <= swap16 x < 2 ^ 16.
Proof.
  intros Hx. apply lxor_range; [rewrite Z.shiftr_div_pow2 by lia; split; [apply Z.div_pos; lia|apply Z.div_lt_upper_bound; lia]|].
  pose proof (land_byte x) as Hb. unfold is_u8 in Hb. rewrite Z.shiftl_mul_pow2; lia.
Qed.

Lemma swap16_twice x : 0 <= x < 2 ^ 16 -> swap16 (swap16 x) = x.
Proof.
  apply (linear_ext (fun y => swap16 (swap16 y)) (fun y => y) 16); [exact (linear_comp _ _ swap16_linear swap16_linear)|by split|reflexivity].
Qed.

Lemma REV16_swap x : 0 <= x < 2 ^ 16 -> REV16 x = swap16 x.
Proof.
  intros Hx. unfold REV16, swap16. symmetry. apply Z.lxor_lor. apply Z.bits_inj'. intros i Hi.
  rewrite Z.land_spec, Z.bits_0, Z.shiftr_spec, Z.shiftl_spec by done. destruct (Z.ltb_spec i 8).
  - rewrite (Z.testbit_neg_r _ (i - 8)) by lia. apply andb_false_r.
  - by rewrite (testbit_above 16 x) by lia.
Qed.

Lemma u32_lnot y : 0 <= y < 2 ^ 32 -> u32 (Z.lnot y) = Z.lxor y 0xffffffff.
Proof.
  intros Hy. unfold u32. change 0xffffffff with (Z.ones 32). rewrite <- Z.land_ones by lia.
  apply Z.bits_inj'. intros i Hi. rewrite Z.land_spec, Z.lxor_spec, Z.lnot_spec, Z.testbit_ones_nonneg by lia. destruct (Z.ltb_spec i 32).
  - rewrite andb_true_r. by destruct (Z.testbit y i).
  - by rewrite (testbit_above 32 y) by lia.
Qed.

(** [FastCRC16::ccitt] is the CRC of its comment, whatever the alignment. *)
Theorem FastCRC16_ccitt_correct base mem p len :
  Forall is_u8 mem -> 0 <= p -> 0 <= len -> p + len <= alen mem ->
  FastCRC16_ccitt base mem p len = Some (crc_reference 16 0x1021 0xffff false false 0 (bytes_of mem p len)).
Proof.
  intros Hm Hp Hl Hin. unfold FastCRC16_ccitt, ccitt_upd.
  rewrite (crc_update_spec 16 ltac:(lia) crc_table_ccitt ccitt_octet ccitt_octet_linear ccitt_table_ok _ pgm_read_word_ok _ crc_n4_word base mem
    (fun i => lget_u8 mem i Hm) 0xffff p len ltac:(done) Hp Hl Hin). mred. cbn [snd]. f_equal.
  destruct (feed_message 16 0x1021 false swap16 ccitt_octet ltac:(done) ltac:(done) swap16_linear ccitt_octet_linear eq_refl eq_refl
    (bytes_of mem p len) 0xffff ltac:(done) (bytes_of_u8 mem p len Hm)) as [E Hr].
  change (swap16 0xffff) with 0xffff in E. rewrite E. unfold crc_reference. change (Z.of_nat 16) with 16 in *. set (x := foldl (crc_octet _ _ _) _ _) in *.
  rewrite Z.lxor_0_r, (REV16_swap _ (swap16_range x Hr)), (swap16_twice x Hr). by apply Z.mod_small.
Qed.

Lemma pgm_read_dword_low past i :
  0 <= i < 1024 -> exists v, pgm_read_dword (Some past) crc_table_crc32_big i = Some v /\ v mod 2 ^ 32 = lget crc_table_crc32_big i.
Proof.
  intros Hi. pose proof (table_len 32 _ _ crc32_table_ok) as Hlen. unfold pgm_read_dword. rewrite (aget_lget _ i) by lia. mred. rewrite Hlen.
  assert (E : exists h, (if i + 1 <? 1024 then aget crc_table_crc32_big (i + 1) else Some past) = Some h).
  { destruct (Z.ltb_spec (i + 1) 1024); [|by eexists]. apply aget_is_Some. lia. }
  destruct E as [h ->]. mred. eexists. split; [done|]. rewrite Z.mul_comm, Z.mod_add by lia. apply Z.mod_small, (table_range 32 _ _ crc32_table_ok i Hi).
Qed.

Lemma crc_n4d_word past crc d :
  0 <= crc < 2 ^ 32 -> 0 <= d < 2 ^ 32 ->
  crc_n4d 32 (pgm_read_dword (Some past) crc_table_crc32_big) crc d = Some (Nat.iter 4 (crc_shift crc32_octet) (Z.lxor crc d)).
Proof.
  intros Hc Hd. unfold crc_n4d. assert (Hx : 0 <= Z.lxor crc d < 2 ^ 32) by (apply lxor_range; lia). rewrite Z.mod_small by done.
  by apply (four_reads 32 ltac:(lia) crc_table_crc32_big crc32_octet crc32_octet_linear crc32_table_ok _ (pgm_read_dword_low past)).
Qed.

(** [FastCRC32::crc32] is the CRC of its comment, provided that reading past
    the table gives some word. *)
Theorem FastCRC32_crc32_correct past base mem p len :
  Forall is_u8 mem -> 0 <= p -> 0 <= len -> p + len <= alen mem ->
  FastCRC32_crc32 (Some past) base mem p len = Some (crc_reference 32 0x04c11db7 0xffffffff true true 0xffffffff (bytes_of mem p len)).
Proof.
  intros Hm Hp Hl Hin. unfold FastCRC32_crc32, crc32_upd.
  rewrite (crc_update_spec 32 ltac:(lia) crc_table_crc32_big crc32_octet crc32_octet_linear crc32_table_ok _ (pgm_read_dword_low past) _ (crc_n4d_word past) base mem
    (fun i => lget_u8 mem i Hm) 0xffffffff p len ltac:(done) Hp Hl Hin). mred. cbn [snd]. f_equal.
  destruct (feed_message 32 0x04c11db7 true (reflect 32) crc32_octet ltac:(done) ltac:(done) (reflect_linear 32 ltac:(lia)) crc32_octet_linear eq_refl eq_refl
    (bytes_of mem p len) 0xffffffff ltac:(done) (bytes_of_u8 mem p len Hm)) as [E Hr].
  change (reflect 32 0xffffffff) with 0xffffffff in E. rewrite E. unfold crc_reference. change (Z.of_nat 32) with 32 in *. set (x := foldl (crc_octet _ _ _) _ _) in *.
  assert (Hx : 0 <= reflect 32 x < 2 ^ 32).
  { unfold reflect. change (Z.to_nat 32) with 32%nat. cbn [reflect_bits]. repeat apply lxor_range; try lia; destruct (Z.testbit _ _); cbn; lia. }
  clear E Hr. by apply u32_lnot.
Qed.

(** ** Error detection

    A message and the same message with another byte in one place have
    different checksums. *)

Section detection.
Context (n : nat) (poly init : Z) (refin refout : bool) (xorout : Z).

Let w : Z := Z.of_nat n.

Context (Hw : 8 <= w) (Hpoly : 0 <= poly < 2 ^ w) (Hodd : Z.testbit poly 0 = true) (Hinit : 0 <= init < 2 ^ w).
Context (Hreflect : forallb (fun i => reflect w (reflect w (2 ^ Z.of_nat i)) =? 2 ^ Z.of_nat i) (seq 0 n) = true).
Context (Hreflect8 : forallb (fun i => reflect 8 (reflect 8 (2 ^ Z.of_nat i)) =? 2 ^ Z.of_nat i) (seq 0 8) = true).

Lemma crc_bit_inj x y : 0 <= x < 2 ^ w -> 0 <= y < 2 ^ w -> crc_bit w poly x = crc_bit w poly y -> x = y.
Proof.
  intros Hx Hy E.
  assert (Hbit : forall x i, 0 <= i -> Z.testbit (crc_bit w poly x) i =
    xorb (Z.testbit x (i - 1) && (i <? w)) (if Z.testbit x (w - 1) then Z.testbit poly i else false)).
  { intros z i Hi. unfold crc_bit. rewrite Z.lxor_spec, Z.land_spec, Z.shiftl_spec, Z.testbit_ones_nonneg by lia.
    by destruct (Z.testbit z (w - 1)); rewrite ?Z.bits_0. }
  assert (Htop : Z.testbit x (w - 1) = Z.testbit y (w - 1)).
  { pose proof (f_equal (fun z => Z.testbit z 0) E) as E0. cbn beta in E0. rewrite !Hbit, Hodd in E0 by lia.
    rewrite (Z.testbit_neg_r x (0 - 1)), (Z.testbit_neg_r y (0 - 1)) in E0 by lia. cbn in E0. by destruct (Z.testbit x (w - 1)), (Z.testbit y (w - 1)). }
  apply Z.bits_inj'. intros i Hi. destruct (decide (i < w)) as [Hlt|Hge]; [|by rewrite !(testbit_above w) by lia].
  destruct (decide (i = w - 1)) as [->|Hne]; [done|].
  pose proof (f_equal (fun z => Z.testbit z (i + 1)) E) as Ei. cbn beta in Ei. rewrite !Hbit in Ei by lia.
  replace (i + 1 - 1) with i in Ei by lia. rewrite (proj2 (Z.ltb_lt (i + 1) w)), !andb_true_r, Htop in Ei by lia.
  by destruct (Z.testbit x i), (Z.testbit y i), (Z.testbit y (w - 1)), (Z.testbit poly (i + 1)).
Qed.

Lemma crc_bits_inj k x y : 0 <= x < 2 ^ w -> 0 <= y < 2 ^ w -> Nat.iter k (crc_bit w poly) x = Nat.iter k (crc_bit w poly) y -> x = y.
Proof.
  induction k as [|k IH]; intros Hx Hy E; [done|]. cbn in E. apply IH; [done|done|].
  assert (Hr : forall z, 0 <= z < 2 ^ w -> 0 <= Nat.iter k (crc_bit w poly) z < 2 ^ w).
  { intros z Hz. destruct k; [done|]. apply crc_bit_range; [lia|done]. }
  apply crc_bit_inj; auto.
Qed.

Lemma octet_bits_inj b c : is_u8 b -> is_u8 c ->
  Z.shiftl (if refin then reflect 8 b else b) (w - 8) = Z.shiftl (if refin then reflect 8 c else c) (w - 8) -> b = c.
Proof.
  intros Hb Hc E. assert (E' : (if refin then reflect 8 b else b) = (if refin then reflect 8 c else c)).
  { rewrite !Z.shiftl_mul_pow2 in E by lia. pose proof (Z.pow_pos_nonneg 2 (w - 8)). nia. }
  destruct refin; [|done]. assert (Hid : forall z, is_u8 z -> reflect 8 (reflect 8 z) = z).
  { apply (linear_ext (fun z => reflect 8 (reflect 8 z)) (fun z => z) 8); [|by split|done].
    exact (linear_comp _ _ (reflect_linear 8 ltac:(lia)) (reflect_linear 8 ltac:(lia))). }
  rewrite <- (Hid b Hb), <- (Hid c Hc). by rewrite E'.
Qed.

Lemma lxor_inj x y z : Z.lxor x y = Z.lxor x z -> y = z.
Proof. intros E. pose proof (f_equal (Z.lxor x) E) as E'. by rewrite <- !Z.lxor_assoc, Z.lxor_nilpotent, !Z.lxor_0_l in E'. Qed.

Lemma crc_octet_range x b : 0 <= crc_octet w poly refin x b < 2 ^ w.
Proof. unfold crc_octet. cbn [Nat.iter nat_rect]. apply crc_bit_range; [lia|done]. Qed.

Lemma crc_octet_inj x y b c : 0 <= x < 2 ^ w -> 0 <= y < 2 ^ w -> is_u8 b -> is_u8 c ->
  crc_octet w poly refin x b = crc_octet w poly refin y c ->
  Z.lxor x (Z.shiftl (if refin then reflect 8 b else b) (w - 8)) = Z.lxor y (Z.shiftl (if refin then reflect 8 c else c) (w - 8)).
Proof.
  intros Hx Hy Hb Hc. refine (crc_bits_inj 8 _ _ _ _); apply lxor_range; [done|by apply octet_range|done|by apply octet_range].
Qed.

(** The register after a message determines the register before. *)
Lemma message_inj m x y : 0 <= x < 2 ^ w -> 0 <= y < 2 ^ w -> Forall is_u8 m ->
  foldl (crc_octet w poly refin) x m = foldl (crc_octet w poly refin) y m -> x = y.
Proof.
  intros Hx Hy Hm. revert x y Hx Hy. induction Hm as [|b m Hb Hm IH]; intros x y Hx Hy E; [done|]. cbn [foldl] in E.
  apply (IH _ _ (crc_octet_range x b) (crc_octet_range y b)) in E. apply (crc_octet_inj x y b b Hx Hy Hb Hb) in E.
  rewrite (Z.lxor_comm x), (Z.lxor_comm y) in E. by apply lxor_inj in E.
Qed.

Lemma crc_reference_differs m1 m2 b c :
  Forall is_u8 m1 -> Forall is_u8 m2 -> is_u8 b -> is_u8 c -> b <> c ->
  crc_reference w poly init refin refout xorout (m1 ++ b :: m2) <> crc_reference w poly init refin refout xorout (m1 ++ c :: m2).
Proof.
  intros H1 H2 Hb Hc Hne E. unfold crc_reference in E. rewrite !(Z.lxor_comm _ xorout) in E. apply lxor_inj in E.
  assert (Hreg : forall m, Forall is_u8 m -> 0 <= foldl (crc_octet w poly refin) init m < 2 ^ w).
  { intros m Hm. clear -Hinit Hm Hw Hpoly. revert Hinit. generalize init. induction Hm as [|d m Hd Hm IH]; intros x Hx; [done|]. apply IH, crc_octet_range. }
  assert (Hall : forall d, is_u8 d -> Forall is_u8 (m1 ++ d :: m2)) by (intros d Hd; apply Forall_app; split; [done|by constructor]).
  assert (E' : foldl (crc_octet w poly refin) init (m1 ++ b :: m2) = foldl (crc_octet w poly refin) init (m1 ++ c :: m2)).
  { destruct refout; [|done]. assert (Hid : forall z, 0 <= z < 2 ^ w -> reflect w (reflect w z) = z).
    { apply (linear_ext (fun z => reflect w (reflect w z)) (fun z => z) n); [|by split|done].
      exact (linear_comp _ _ (reflect_linear w ltac:(lia)) (reflect_linear w ltac:(lia))). }
    rewrite <- (Hid _ (Hreg _ (Hall b Hb))), <- (Hid _ (Hreg _ (Hall c Hc))). by rewrite E. }
  rewrite !foldl_app in E'. cbn [foldl] in E'. set (x := foldl _ init m1) in E'.
  apply (message_inj m2 _ _ (crc_octet_range x b) (crc_octet_range x c) H2) in E'.
  apply (crc_octet_inj x x b c (Hreg m1 H1) (Hreg m1 H1) Hb Hc) in E'. apply lxor_inj in E'. by apply Hne, octet_bits_inj.
Qed.
End detection.

Lemma ccitt_differs m1 m2 b c : Forall is_u8 m1 -> Forall is_u8 m2 -> is_u8 b -> is_u8 c -> b <> c ->
  crc_reference 16 0x1021 0xffff false false 0 (m1 ++ b :: m2) <> crc_reference 16 0x1021 0xffff false false 0 (m1 ++ c :: m2).
Proof. by apply (crc_reference_differs 16). Qed.

Lemma crc32_differs m1 m2 b c : Forall is_u8 m1 -> Forall is_u8 m2 -> is_u8 b -> is_u8 c -> b <> c ->
  crc_reference 32 0x04c11db7 0xffffffff true true 0xffffffff (m1 ++ b :: m2) <> crc_reference 32 0x04c11db7 0xffffffff true true 0xffffffff (m1 ++ c :: m2).
Proof. by apply (crc_reference_differs 32). Qed.

(** C31. Both checksums of the protocol are the cyclic redundancy checks their
    comments announce, whatever the address of the data. *)
Theorem checksums_correct past base mem p len :
  Forall is_u8 mem -> 0 <= p -> 0 <= len -> p + len <= alen mem ->
  FastCRC16_ccitt base mem p len = Some (crc_reference 16 0x1021 0xffff false false 0 (bytes_of mem p len)) /\
  FastCRC32_crc32 (Some past) base mem p len = Some (crc_reference 32 0x04c11db7 0xffffffff true true 0xffffffff (bytes_of mem p len)).
Proof. intros Hm Hp Hl Hin. split; [by apply FastCRC16_ccitt_correct|by apply FastCRC32_crc32_correct]. Qed.

Definition crc_bytes : list Z := [1; 2; 3; 250; 5; 6; 7; 8; 9; 10; 11; 12; 13; 14; 15; 16; 17; 18; 19; 20; 21].

Lemma checksums_correct_witness :
  FastCRC16_ccitt 3 crc_bytes 1 19 = Some (crc_reference 16 0x1021 0xffff false false 0 (bytes_of crc_bytes 1 19)).
Proof.
  apply (checksums_correct 0 3 crc_bytes 1 19).
  - unfold is_u8. repeat constructor; lia.
  - lia.
  - lia.
  - vm_compute. discriminate.
Defined.

(** Some data make [crc32] read past its table. *)
Example crc32_past_table : FastCRC32_crc32 None 0 [0; 0; 0; 0; 0; 0; 0; 0; 0; 0; 0; 0; 0; 0; 0; 0] 0 16 = None.
Proof. vm_compute. reflexivity. Qed.
