(* ===== verification/SdkProtocol.v ===== *)
(** The packets of the Livox SDK (sdk_core/comm/sdk_protocol.h,
    sdk_protocol.cpp, comm_port.cpp) and the numbers they carry
    (generate_seq.cpp). *)

From S2P Require Import Prelude Crc.

(** ** Little-endian fields *)

Fixpoint put_le (n : nat) (mem : list Z) (p v : Z) : option (list Z) :=
  match n with
  | O => Some mem
  | S n => mem ← aset mem p (v mod 2 ^ 8); put_le n mem (p + 1) (v / 2 ^ 8)
  end.

Fixpoint get_le (n : nat) (mem : list Z) (p : Z) : option Z :=
  match n with
  | O => Some 0
  | S n => b ← aget mem p; r ← get_le n mem (p + 1); Some (b + 2 ^ 8 * r)
  end.

(** ** The code *)

Definition kLidarSdk : Z := 0.
Definition kSdkProtocolSof : Z := 0xAA.
Definition kSdkVer : Z := 0.

(** [data] is an index in a memory given apart. *)
Record CommPacket := mkPacket {
  protocol : Z;
  version : Z;
  seq_num : Z;
  cmd_id : Z;
  cmd_type : Z;
  sender_type : Z;
  data : Z;
  data_len : Z;
}.

(** [sizeof(SdkPreamble)] and [sizeof(SdkPacket) - 1], packed. *)
Definition GetPreambleLen : Z := 24.
Definition GetPacketWrapperLen : Z := 24.

(** The offsets of the fields of [SdkPacket]. *)
Definition at_sof : Z := 0.
Definition at_version : Z := 1.
Definition at_length : Z := 2.
Definition at_seq_num : Z := 4.
Definition at_cmd_id : Z := 8.
Definition at_cmd_type : Z := 10.
Definition at_sender_type : Z := 11.
Definition at_crc16_h : Z := 18.
Definition at_crc32_d : Z := 20.
Definition at_data : Z := 24.

Section protocol.
(** What is found past the table of the 32-bit checksum. *)
Context (past_table : option Z).

Definition GetPacketLen (buf : list Z) : option Z := get_le 2 buf at_length.

(** [o_base] and [i_base] are the addresses of the two memories. The answer,
    the buffer and [o_len], which is set on success only. *)
Definition Pack (o_base : Z) (o_buf : list Z) (o_buf_size : Z) (i_base : Z) (i_mem : list Z) (i_packet : CommPacket) :
    option (Z * list Z * option Z) :=
  if negb (kLidarSdk =? protocol i_packet) then Some (-1, o_buf, None)
  else
    o_buf ← put_le 1 o_buf at_sof kSdkProtocolSof;
    o_buf ← put_le 1 o_buf at_version kSdkVer;
    let length := u16 (data_len i_packet + GetPacketWrapperLen) in
    o_buf ← put_le 2 o_buf at_length length;
    if o_buf_size <? length then Some (-1, o_buf, None)
    else
      o_buf ← put_le 4 o_buf at_seq_num (Z.land (seq_num i_packet) 0xFFFF);
      o_buf ← put_le 2 o_buf at_cmd_id (cmd_id i_packet);
      o_buf ← put_le 1 o_buf at_cmd_type (cmd_type i_packet);
      o_buf ← put_le 1 o_buf at_sender_type (sender_type i_packet);
      crc16_h ← FastCRC16_ccitt o_base o_buf 0 18;
      o_buf ← put_le 2 o_buf at_crc16_h crc16_h;
      crc32_d ← (if data_len i_packet =? 0 then Some 0
                 else FastCRC32_crc32 past_table i_base i_mem (data i_packet) (data_len i_packet));
      o_buf ← put_le 4 o_buf at_crc32_d crc32_d;
      o_buf ← memcpy o_buf at_data i_mem (data i_packet) (data_len i_packet);
      Some (0, o_buf, Some length).

(** The packet, whose data are in the buffer, when the answer is true. *)
Definition ParsePacket (i_buf : list Z) (buf_size : Z) : option (option CommPacket) :=
  if buf_size <? GetPacketWrapperLen then Some None
  else
    v ← get_le 1 i_buf at_version;
    seq ← get_le 4 i_buf at_seq_num;
    id ← get_le 2 i_buf at_cmd_id;
    type ← get_le 1 i_buf at_cmd_type;
    sender ← get_le 1 i_buf at_sender_type;
    length ← get_le 2 i_buf at_length;
    Some (Some (mkPacket kLidarSdk v seq id type sender at_data (u16 (u32 (length - GetPacketWrapperLen))))).

Definition CheckPreamble (base : Z) (buf : list Z) (buf_size : Z) : option bool :=
  if buf_size <? GetPreambleLen then Some false
  else
    sof ← get_le 1 buf at_sof;
    if negb (sof =? kSdkProtocolSof) then Some false
    else
      version ← get_le 1 buf at_version;
      if negb (version =? kSdkVer) then Some false
      else
        length ← get_le 2 buf at_length;
        if length <? GetPreambleLen then Some false
        else
          crc16_h ← FastCRC16_ccitt base buf 0 18;
          stored16 ← get_le 2 buf at_crc16_h;
          if negb (stored16 =? crc16_h) then Some false
          else
            crc32_d ← (if u32 (length - GetPacketWrapperLen) =? 0 then Some 0
                       else FastCRC32_crc32 past_table base buf at_data (u32 (length - GetPacketWrapperLen)));
            stored32 ← get_le 4 buf at_crc32_d;
            if negb (stored32 =? crc32_d) then Some false else Some true.

(** [CommPort::ParseCommStream] *)
Definition ParseCommStream (base : Z) (buf : list Z) (buf_size : Z) : option (option CommPacket) :=
  ok ← CheckPreamble base buf buf_size;
  if (ok : bool) then ParsePacket buf buf_size else Some None.
End protocol.

Example pack_empty :
  Pack (Some 0) 0 (replicate 24 7) 24 0 [] (mkPacket 0 0 (65536 + 258) 0x0100 0 1 0 0) =
  Some (0, [0xAA; 0; 24; 0; 2; 1; 0; 0; 0; 1; 0; 1; 7; 7; 7; 7; 7; 7; 115; 22; 0; 0; 0; 0], Some 24).
Proof. vm_compute. reflexivity. Qed.

(** ** Fields *)

(** The value of the [n] bytes at [p]. *)
Fixpoint le (n : nat) (mem : list Z) (p : Z) : Z :=
  match n with O => 0 | S n => lget mem p + 2 ^ 8 * le n mem (p + 1) end.

(** [mem'] is [mem] but for the [n] bytes at [p]. *)
Definition changes (mem mem' : list Z) (p n : Z) : Prop :=
  alen mem' = alen mem /\ forall i, ~ p <= i < p + n -> lget mem' i = lget mem i.

Lemma changes_trans mem1 mem2 mem3 p n : changes mem1 mem2 p n -> changes mem2 mem3 p n -> changes mem1 mem3 p n.
Proof. intros [H1 G1] [H2 G2]. split; [lia|]. intros i Hi. by rewrite G2, G1. Qed.

Lemma changes_widen mem mem' p n q m : changes mem mem' p n -> q <= p -> p + n <= q + m -> changes mem mem' q m.
Proof. intros [H G] Hq Hm. split; [done|]. intros i Hi. apply G. lia. Qed.

Lemma get_le_le n mem p : 0 <= p -> p + Z.of_nat n <= alen mem -> get_le n mem p = Some (le n mem p).
Proof.
  revert p. induction n as [|n IH]; intros p Hp Hl; [done|]. cbn [get_le le]. rewrite aget_lget by lia. mred. rewrite IH by lia. done.
Qed.

Lemma le_ext n mem mem' p p' : (forall i, 0 <= i < Z.of_nat n -> lget mem (p + i) = lget mem' (p' + i)) -> le n mem p = le n mem' p'.
Proof.
  revert p p'. induction n as [|n IH]; intros p p' H; [done|]. cbn [le]. pose proof (H 0 ltac:(lia)) as H0. rewrite !Z.add_0_r in H0. rewrite H0. f_equal. f_equal.
  apply IH. intros i Hi. rewrite <- !Z.add_assoc. rewrite !(Z.add_comm 1 i). apply H. lia.
Qed.

(** A field disjoint from the change. *)
Lemma le_changes n mem mem' p q m : changes mem mem' q m -> p + Z.of_nat n <= q \/ q + m <= p -> le n mem' p = le n mem p.
Proof. intros [_ G] Hd. apply le_ext. intros i Hi. apply G. lia. Qed.

Lemma le_range n mem p : Forall is_u8 mem -> 0 <= le n mem p < 2 ^ (8 * Z.of_nat n).
Proof.
  intros Hm. revert p. induction n as [|n IH]; intros p; [done|]. cbn [le]. specialize (IH (p + 1)). pose proof (lget_u8 mem p Hm) as Hb. unfold is_u8 in Hb.
  replace (8 * Z.of_nat (S n)) with (8 + 8 * Z.of_nat n) by lia. rewrite Z.pow_add_r by lia. lia.
Qed.

Lemma put_le_spec n mem p v :
  0 <= p -> p + Z.of_nat n <= alen mem -> Forall is_u8 mem ->
  exists mem', put_le n mem p v = Some mem' /\ changes mem mem' p (Z.of_nat n) /\ Forall is_u8 mem' /\ le n mem' p = v mod 2 ^ (8 * Z.of_nat n).
Proof.
  revert mem p v. induction n as [|n IH]; intros mem p v Hp Hl Hm.
  - exists mem. split; [done|]. split; [by split|]. split; [done|]. cbn. by rewrite Z.mod_1_r.
  - cbn [put_le]. rewrite aset_Some by lia. mred. set (mem1 := <[_ := _]> mem).
    assert (E : aset mem p (v mod 2 ^ 8) = Some mem1) by (apply aset_Some; lia). pose proof (aset_len _ _ _ _ E) as Hl1.
    assert (H1 : Forall is_u8 mem1) by (apply Forall_insert; [done|]; apply Z.mod_pos_bound; lia).
    destruct (IH mem1 (p + 1) (v / 2 ^ 8)) as (mem' & -> & C & Hm' & Hv); [lia|lia|done|]. exists mem'. split; [done|].
    assert (C1 : changes mem mem1 p (Z.of_nat (S n))).
    { split; [done|]. intros i Hi. rewrite (lget_aset _ _ _ _ i E). by rewrite (proj2 (Z.eqb_neq p i)) by lia. }
    split; [apply (changes_trans _ _ _ _ _ C1); apply (changes_widen _ _ _ _ _ _ C); lia|]. split; [done|].
    cbn [le]. rewrite Hv, (proj2 C) by lia. rewrite (lget_aset _ _ _ _ p E), Z.eqb_refl.
    replace (8 * Z.of_nat (S n)) with (8 + 8 * Z.of_nat n) by lia. rewrite Z.pow_add_r by lia.
    rewrite Z.rem_mul_r by (lia || apply Z.pow_pos_nonneg; lia). lia.
Qed.

(** ** Ranges of bytes *)

Lemma bytes_of_map mem p n : 0 <= p -> 0 <= n -> p + n <= alen mem -> bytes_of mem p n = (fun i => lget mem (p + i)) <$> seqZ 0 n.
Proof.
  intros Hp Hn. revert n Hn. refine (natlike_ind _ _ _); [done|]. intros n Hn IH Hl. rewrite <- Z.add_1_r, bytes_of_snoc, IH by lia.
  rewrite seqZ_app, fmap_app, Z.add_0_l by lia. by rewrite (seqZ_cons n 1), (seqZ_nil (Z.succ n)) by lia.
Qed.

Lemma bytes_of_ext mem mem' p p' n :
  0 <= p -> 0 <= p' -> 0 <= n -> p + n <= alen mem -> p' + n <= alen mem' -> (forall i, 0 <= i < n -> lget mem (p + i) = lget mem' (p' + i)) ->
  bytes_of mem p n = bytes_of mem' p' n.
Proof.
  intros Hp Hp' Hn Hl Hl' H. rewrite !bytes_of_map by done. apply list_fmap_ext. intros k i Hk. apply H.
  apply list_elem_of_lookup_2, elem_of_seqZ in Hk. lia.
Qed.

(** A change of one byte in the range. *)
Lemma bytes_of_aset mem i v mem' p n :
  aset mem i v = Some mem' -> 0 <= p <= i -> i < p + n -> p + n <= alen mem ->
  exists m1 m2, bytes_of mem p n = m1 ++ lget mem i :: m2 /\ bytes_of mem' p n = m1 ++ v :: m2.
Proof.
  intros E Hi Hin Hl. pose proof (aset_len _ _ _ _ E). rewrite !bytes_of_map by lia.
  replace n with ((i - p) + (1 + (n - (i - p) - 1))) by lia. rewrite (seqZ_app 0 (i - p)), (seqZ_app _ 1), Z.add_0_l by lia.
  rewrite (seqZ_cons (i - p) 1), (seqZ_nil (Z.succ _)) by lia. rewrite !fmap_app. cbn [fmap list_fmap app].
  exists ((fun k => lget mem (p + k)) <$> seqZ 0 (i - p)), ((fun k => lget mem (p + k)) <$> seqZ (i - p + 1) (n - (i - p) - 1)).
  replace (p + (i - p)) with i by lia. split; [done|]. rewrite (lget_aset _ _ _ _ i E), Z.eqb_refl.
  f_equal; [|f_equal]; apply list_fmap_ext; intros k x Hk; apply list_elem_of_lookup_2, elem_of_seqZ in Hk;
    rewrite (lget_aset _ _ _ _ _ E); by rewrite (proj2 (Z.eqb_neq _ _)) by lia.
Qed.

(** ** Packed buffers *)

Definition ccitt (message : list Z) : Z := crc_reference 16 0x1021 0xffff false false 0 message.
Definition crc32 (message : list Z) : Z := crc_reference 32 0x04c11db7 0xffffffff true true 0xffffffff message.

Definition u16_field (v : Z) : Prop := 0 <= v < 2 ^ 16.

(** A packet whose fields have their widths, and whose data are in the memory. *)
Record packet_ok (i_mem : list Z) (p : CommPacket) : Prop := {
  ok_bytes : Forall is_u8 i_mem;
  ok_protocol : protocol p = kLidarSdk;
  ok_cmd_id : is_u16 (cmd_id p);
  ok_cmd_type : is_u8 (cmd_type p);
  ok_sender_type : is_u8 (sender_type p);
  ok_data : 0 <= data p /\ data p + data_len p <= alen i_mem;
  ok_data_len : is_u16 (data_len p);
}.

(** The buffer holds the packet [p] with the data [payload]. *)
Record packed (buf : list Z) (p : CommPacket) (payload : list Z) : Prop := {
  pk_bytes : Forall is_u8 buf;
  pk_size : data_len p + 24 <= alen buf;
  pk_sof : le 1 buf at_sof = kSdkProtocolSof;
  pk_version : le 1 buf at_version = kSdkVer;
  pk_length : le 2 buf at_length = data_len p + 24;
  pk_seq_num : le 4 buf at_seq_num = seq_num p mod 2 ^ 16;
  pk_cmd_id : le 2 buf at_cmd_id = cmd_id p;
  pk_cmd_type : le 1 buf at_cmd_type = cmd_type p;
  pk_sender_type : le 1 buf at_sender_type = sender_type p;
  pk_crc16 : le 2 buf at_crc16_h = ccitt (bytes_of buf 0 18);
  pk_crc32 : le 4 buf at_crc32_d = if data_len p =? 0 then 0 else crc32 payload;
  pk_data : bytes_of buf at_data (data_len p) = payload;
}.

Lemma crc_reference_range w poly init refin message :
  0 <= w -> 0 <= poly < 2 ^ w -> 0 <= init < 2 ^ w -> 0 <= foldl (crc_octet w poly refin) init message < 2 ^ w.
Proof.
  intros Hw Hp. revert init. induction message as [|b m IH]; intros x Hx; [done|]. cbn [foldl]. apply IH.
  unfold crc_octet. cbn [Nat.iter nat_rect]. by apply crc_bit_range.
Qed.

Lemma ccitt_range message : 0 <= ccitt message < 2 ^ 16.
Proof. unfold ccitt, crc_reference. rewrite Z.lxor_0_r. by apply crc_reference_range. Qed.

Lemma reflect32_range x : 0 <= reflect 32 x < 2 ^ 32.
Proof.
  unfold reflect. change (Z.to_nat 32) with 32%nat. cbn [reflect_bits]. repeat apply lxor_range; try lia; destruct (Z.testbit _ _); cbn; lia.
Qed.

Lemma crc32_range message : 0 <= crc32 message < 2 ^ 32.
Proof. unfold crc32, crc_reference. apply lxor_range; [apply reflect32_range|lia]. Qed.

Ltac unfold_offsets :=
  unfold at_sof, at_version, at_length, at_seq_num, at_cmd_id, at_cmd_type, at_sender_type, at_crc16_h, at_crc32_d, at_data in *.

(** Carries the value of a field through the changes made after it. *)
Ltac unchanged :=
  repeat match goal with
    | C : changes ?a ?b ?q ?m |- context [le ?n ?b ?p] => rewrite (le_changes n a b p q m C) by (unfold_offsets; cbn; lia)
    end.

(** Writes the next field. *)
Ltac next_field b' :=
  match goal with |- context [put_le ?n ?b ?p ?v] =>
    let C := fresh "C" in let B := fresh "B" in let V := fresh "V" in
    destruct (put_le_spec n b p v) as (b' & -> & C & B & V);
      [unfold_offsets; lia | unfold_offsets; cbn; lia | assumption | mred; pose proof (proj1 C)]
  end.

Lemma Pack_packs past o_base o_buf o_buf_size i_base i_mem p :
  packet_ok i_mem p -> Forall is_u8 o_buf -> data_len p + 24 <= o_buf_size <= alen o_buf -> data_len p + 24 < 2 ^ 16 ->
  exists buf, Pack (Some past) o_base o_buf o_buf_size i_base i_mem p = Some (0, buf, Some (data_len p + 24)) /\
    packed buf p (bytes_of i_mem (data p) (data_len p)) /\ alen buf = alen o_buf.
Proof.
  intros [Hi Hpr Hid Hty Hse [Hd Hdl] Hn] Hb Hsize Hlen. unfold is_u16, is_u8 in Hn, Hid, Hty, Hse. unfold Pack. rewrite Hpr, Z.eqb_refl. cbn [negb].
  assert (Hfit : u16 (data_len p + GetPacketWrapperLen) = data_len p + 24) by (unfold u16, GetPacketWrapperLen; apply Z.mod_small; lia). rewrite Hfit.
  next_field b1. next_field b2. next_field b3. rewrite (proj2 (Z.ltb_ge _ _)) by lia.
  next_field b4. next_field b5. next_field b6. next_field b7.
  rewrite FastCRC16_ccitt_correct by (assumption || lia). mred. fold (ccitt (bytes_of b7 0 18)). next_field b8.
  set (payload := bytes_of i_mem (data p) (data_len p)). set (c := if data_len p =? 0 then 0 else crc32 payload).
  assert (Ec : (if data_len p =? 0 then Some 0 else FastCRC32_crc32 (Some past) i_base i_mem (data p) (data_len p)) = Some c).
  { subst c. destruct (data_len p =? 0); [done|]. exact (FastCRC32_crc32_correct past i_base i_mem (data p) (data_len p) Hi Hd (proj1 Hn) Hdl). }
  assert (Hc : 0 <= c < 2 ^ 32) by (subst c; destruct (_ =? _); [lia|apply crc32_range]).
  rewrite Ec. mred. next_field b9.
  destruct (memcpy_spec b9 at_data i_mem (data p) (data_len p)) as (b & -> & L & Hg); [unfold_offsets; lia..|]. mred.
  assert (C8 : changes b9 b at_data (data_len p)).
  { split; [done|]. intros i Hne. unfold lget. by rewrite Hg, bool_decide_eq_false_2. }
  exists b. split; [done|]. split; [|lia].
  assert (Hpay : bytes_of b at_data (data_len p) = payload).
  { apply bytes_of_ext; [unfold_offsets; lia..|]. intros i Hi'. unfold lget. rewrite Hg, bool_decide_eq_true_2 by lia. f_equal. f_equal. lia. }
  assert (Hhead : bytes_of b 0 18 = bytes_of b7 0 18).
  { apply bytes_of_ext; [lia..|]. intros i Hi'. rewrite (proj2 C8), (proj2 C7), (proj2 C6) by (unfold_offsets; lia). done. }
  assert (Hseq : Z.land (seq_num p) 0xFFFF = seq_num p mod 2 ^ 16) by (change 0xFFFF with (Z.ones 16); apply Z.land_ones; lia).
  pose proof (ccitt_range (bytes_of b7 0 18)) as Hccitt. pose proof (Z.mod_pos_bound (seq_num p) (2 ^ 16) ltac:(lia)) as Hs16.
  split; try assumption; [| lia | unchanged..].
  - apply Forall_forall. intros v (i & Ei)%elem_aget. rewrite Hg in Ei. case_bool_decide.
    + exact (proj1 (Forall_forall _ _) Hi v (aget_elem _ _ _ Ei)).
    + exact (proj1 (Forall_forall _ _) B7 v (aget_elem _ _ _ Ei)).
  - exact V.
  - exact V0.
  - rewrite V1. apply Z.mod_small. cbn. lia.
  - rewrite V2, Hseq. apply Z.mod_small. cbn. lia.
  - rewrite V3. by apply Z.mod_small.
  - rewrite V4. by apply Z.mod_small.
  - rewrite V5. by apply Z.mod_small.
  - rewrite V6, Hhead. by apply Z.mod_small.
  - rewrite V7. by apply Z.mod_small.
Qed.

(** ** The check *)

(** What [CheckPreamble] tests. *)
Definition accepted (buf : list Z) : bool :=
  (le 1 buf at_sof =? kSdkProtocolSof) && (le 1 buf at_version =? kSdkVer) && (24 <=? le 2 buf at_length) &&
  (le 2 buf at_crc16_h =? ccitt (bytes_of buf 0 18)) &&
  (le 4 buf at_crc32_d =? if le 2 buf at_length =? 24 then 0 else crc32 (bytes_of buf at_data (le 2 buf at_length - 24))).

(** The length is only trusted when the first checksum is right. *)
Lemma CheckPreamble_spec past base buf buf_size :
  Forall is_u8 buf -> 24 <= buf_size -> 24 <= alen buf ->
  (le 2 buf at_crc16_h = ccitt (bytes_of buf 0 18) -> le 2 buf at_length <= alen buf) ->
  CheckPreamble (Some past) base buf buf_size = Some (accepted buf).
Proof.
  intros Hb Hsize Hl Hlen. unfold CheckPreamble, accepted, GetPreambleLen, GetPacketWrapperLen.
  pose proof (le_range 2 buf at_length Hb) as Hr. change (2 ^ (8 * Z.of_nat 2)) with 65536 in Hr.
  rewrite (proj2 (Z.ltb_ge buf_size 24)) by lia. rewrite !get_le_le by (unfold_offsets; cbn; lia). mred.
  destruct (Z.eqb_spec (le 1 buf at_sof) kSdkProtocolSof); cbn [negb andb]; [|done].
  destruct (Z.eqb_spec (le 1 buf at_version) kSdkVer); cbn [negb andb]; [|done].
  rewrite Z.leb_antisym. destruct (Z.ltb_spec (le 2 buf at_length) 24); cbn [negb andb]; [done|].
  rewrite FastCRC16_ccitt_correct by (assumption || lia). mred. fold (ccitt (bytes_of buf 0 18)).
  destruct (Z.eqb_spec (le 2 buf at_crc16_h) (ccitt (bytes_of buf 0 18))) as [E16|]; cbn [negb andb]; [|done]. specialize (Hlen E16).
  rewrite u32_small by (unfold is_u32; lia).
  replace (le 2 buf at_length - 24 =? 0) with (le 2 buf at_length =? 24) by (destruct (Z.eqb_spec (le 2 buf at_length) 24), (Z.eqb_spec (le 2 buf at_length - 24) 0); done || lia).
  assert (Ec : (if le 2 buf at_length =? 24 then Some 0 else FastCRC32_crc32 (Some past) base buf at_data (le 2 buf at_length - 24)) =
    Some (if le 2 buf at_length =? 24 then 0 else crc32 (bytes_of buf at_data (le 2 buf at_length - 24)))).
  { destruct (le 2 buf at_length =? 24); [done|]. apply FastCRC32_crc32_correct; [done|unfold_offsets; lia..]. }
  rewrite Ec. mred. by destruct (le 4 buf at_crc32_d =? _).
Qed.

Lemma packed_accepted buf p payload : 0 <= data_len p -> packed buf p payload -> accepted buf = true.
Proof.
  intros Hn [Hb Hsz Es Ev El _ _ _ _ E16 E32 Ed]. unfold accepted. rewrite Es, Ev, El, E16, E32, !Z.eqb_refl, (proj2 (Z.leb_le _ _)) by lia. cbn [andb].
  replace (data_len p + 24 =? 24) with (data_len p =? 0) by (destruct (Z.eqb_spec (data_len p) 0), (Z.eqb_spec (data_len p + 24) 24); done || lia).
  replace (data_len p + 24 - 24) with (data_len p) by lia. rewrite Ed. by rewrite Z.eqb_refl.
Qed.

(** A field with another byte has another value. *)
Lemma le_differs n buf buf' p i :
  Forall is_u8 buf -> Forall is_u8 buf' -> p <= i < p + Z.of_nat n -> changes buf buf' i 1 -> lget buf i <> lget buf' i -> le n buf p <> le n buf' p.
Proof.
  intros Hb Hb' Hi C Hne. revert p Hi. induction n as [|n IH]; intros p Hi; [lia|]. cbn [le].
  pose proof (lget_u8 buf p Hb) as B. pose proof (lget_u8 buf' p Hb') as B'. unfold is_u8 in B, B'. destruct (decide (p = i)) as [->|Hp]; [lia|].
  specialize (IH (p + 1) ltac:(lia)). lia.
Qed.

Section corruption.
Context (buf : list Z) (p : CommPacket) (payload : list Z) (Hn : 0 <= data_len p) (K : packed buf p payload).
Context (i v : Z) (buf' : list Z) (Hi : 0 <= i < data_len p + 24) (Hv : is_u8 v) (Hne : lget buf i <> v) (E : aset buf i v = Some buf').

Lemma corrupted_changes : changes buf buf' i 1 /\ lget buf' i = v /\ Forall is_u8 buf'.
Proof.
  split; [split; [exact (aset_len _ _ _ _ E)|]|split; [by rewrite (lget_aset _ _ _ _ i E), Z.eqb_refl|]].
  - intros j Hj. rewrite (lget_aset _ _ _ _ j E). by rewrite (proj2 (Z.eqb_neq i j)) by lia.
  - apply aset_inv in E as [_ ->]. apply Forall_insert; [apply K|done].
Qed.

(** A range of bytes with the change has another checksum. *)
Lemma corrupted_range (crc : list Z -> Z) q n :
  (forall m1 m2 b c, Forall is_u8 m1 -> Forall is_u8 m2 -> is_u8 b -> is_u8 c -> b <> c -> crc (m1 ++ b :: m2) <> crc (m1 ++ c :: m2)) ->
  0 <= q <= i -> i < q + n -> q + n <= alen buf -> crc (bytes_of buf q n) <> crc (bytes_of buf' q n).
Proof.
  intros Hd Hq Hin Hl. destruct (bytes_of_aset buf i v buf' q n E) as (m1 & m2 & E1 & E2); [lia..|].
  pose proof (bytes_of_u8 buf q n (pk_bytes _ _ _ K)) as Hu. rewrite E1, Forall_app in Hu. destruct Hu as [H1 H2]. inversion H2; subst.
  rewrite E1, E2. by apply Hd.
Qed.

(** A range without the change. *)
Lemma same_range q n : 0 <= q -> 0 <= n -> i < q \/ q + n <= i -> q + n <= alen buf -> bytes_of buf' q n = bytes_of buf q n.
Proof. destruct corrupted_changes as (C & _). intros Hq Hn' Hd Hl. apply bytes_of_ext; [lia..|rewrite (proj1 C); lia|lia|]. intros j Hj. apply C. lia. Qed.

(** Another byte in the header, the data or a checksum. *)
Lemma corrupted_rejected : accepted buf' = false.
Proof.
  destruct corrupted_changes as (C & Ei & Hb'). destruct K as [Hb Hsz Es Ev El _ _ _ _ E16 E32 Ed]. unfold accepted.
  assert (Hfield : forall n q, q + Z.of_nat n <= i \/ i < q -> le n buf' q = le n buf q) by (intros n q Hq; eapply le_changes; [exact C|lia]).
  destruct (decide (i < 18)) as [H18|H18].
  { pose proof (corrupted_range ccitt 0 18 ccitt_differs ltac:(lia) ltac:(lia) ltac:(lia)) as Hc.
    rewrite <- E16 in Hc. apply Z.eqb_neq in Hc. rewrite (Hfield 2%nat at_crc16_h), Hc by (unfold_offsets; cbn; lia). by rewrite !andb_false_r. }
  destruct (decide (i < 20)) as [H20|H20].
  { assert (Hd : le 2 buf at_crc16_h <> le 2 buf' at_crc16_h) by (apply (le_differs _ _ _ _ i Hb Hb'); [unfold_offsets; cbn; lia|done|congruence]).
    rewrite (same_range 0 18), <- E16 by lia. apply not_eq_sym, Z.eqb_neq in Hd. rewrite Hd. by rewrite andb_false_r. }
  rewrite (Hfield 2%nat at_length), El by (unfold_offsets; cbn; lia).
  replace (data_len p + 24 =? 24) with (data_len p =? 0) by (destruct (Z.eqb_spec (data_len p) 0), (Z.eqb_spec (data_len p + 24) 24); done || lia).
  replace (data_len p + 24 - 24) with (data_len p) by lia. apply andb_false_iff. right. apply Z.eqb_neq.
  destruct (decide (i < 24)) as [H24|H24].
  - rewrite same_range, Ed by (unfold_offsets; lia). rewrite <- E32. apply not_eq_sym. apply (le_differs _ _ _ _ i Hb Hb'); [unfold_offsets; cbn; lia|done|congruence].
  - rewrite Hfield, E32 by (unfold_offsets; cbn; lia). rewrite (proj2 (Z.eqb_neq (data_len p) 0)) by lia. rewrite <- Ed.
    apply (corrupted_range crc32 at_data (data_len p) crc32_differs); unfold_offsets; lia.
Qed.
End corruption.

(** ** Properties *)

(** C32. What [Pack] writes, [ParseCommStream] reads back: the fields, with the
    sequence number on 16 bits and the version of the protocol, and the data,
    wherever the buffers are in memory. *)
Theorem pack_parse_roundtrip past o_base o_buf o_buf_size i_base i_mem p base buf_size :
  packet_ok i_mem p -> Forall is_u8 o_buf -> data_len p + 24 <= o_buf_size <= alen o_buf -> data_len p + 24 < 2 ^ 16 -> 24 <= buf_size ->
  exists buf, Pack (Some past) o_base o_buf o_buf_size i_base i_mem p = Some (0, buf, Some (data_len p + 24)) /\
    ParseCommStream (Some past) base buf buf_size =
      Some (Some (mkPacket kLidarSdk kSdkVer (seq_num p mod 2 ^ 16) (cmd_id p) (cmd_type p) (sender_type p) 24 (data_len p))) /\
    bytes_of buf 24 (data_len p) = bytes_of i_mem (data p) (data_len p).
Proof.
  intros Hok Hb Hsize Hlen Hbs. pose proof (ok_data_len _ _ Hok) as Hn. unfold is_u16 in Hn.
  destruct (Pack_packs past o_base o_buf o_buf_size i_base i_mem p Hok Hb Hsize Hlen) as (buf & E & K & Hal). exists buf. split; [done|]. split; [|apply K].
  pose proof (pk_length _ _ _ K) as El. unfold ParseCommStream.
  rewrite CheckPreamble_spec by (lia || apply K || (intros _; lia)). rewrite (packed_accepted _ _ _ (proj1 Hn) K). mred.
  unfold ParsePacket, GetPacketWrapperLen. rewrite (proj2 (Z.ltb_ge buf_size 24)) by lia. rewrite !get_le_le by (unfold_offsets; cbn; lia). mred.
  rewrite (pk_version _ _ _ K), (pk_seq_num _ _ _ K), (pk_cmd_id _ _ _ K), (pk_cmd_type _ _ _ K), (pk_sender_type _ _ _ K), El.
  replace (data_len p + 24 - 24) with (data_len p) by lia. by rewrite u32_small, u16_small by (unfold is_u32; lia || done).
Qed.

(** C33. A packed buffer in which one byte of the packet was replaced by another is
    rejected, and without reading out of the packet. *)
Theorem corrupted_packet_rejected past o_base o_buf o_buf_size i_base i_mem p base buf_size :
  packet_ok i_mem p -> Forall is_u8 o_buf -> data_len p + 24 <= o_buf_size <= alen o_buf -> data_len p + 24 < 2 ^ 16 -> 24 <= buf_size ->
  exists buf, Pack (Some past) o_base o_buf o_buf_size i_base i_mem p = Some (0, buf, Some (data_len p + 24)) /\
    forall i v buf', 0 <= i < data_len p + 24 -> is_u8 v -> aget buf i <> Some v -> aset buf i v = Some buf' ->
      ParseCommStream (Some past) base buf' buf_size = Some None.
Proof.
  intros Hok Hb Hsize Hlen Hbs. pose proof (ok_data_len _ _ Hok) as Hn. unfold is_u16 in Hn.
  destruct (Pack_packs past o_base o_buf o_buf_size i_base i_mem p Hok Hb Hsize Hlen) as (buf & E & K & Hal). exists buf. split; [done|].
  intros i v buf' Hi Hv Hne Ea. rewrite aget_lget in Hne by lia. assert (Hne' : lget buf i <> v) by congruence.
  destruct (corrupted_changes buf p _ K i v buf' Hv Ea) as (C & Ei & Hb'). pose proof (proj1 C) as Hl'.
  unfold ParseCommStream. rewrite CheckPreamble_spec; [|done|lia|lia|].
  - by rewrite (corrupted_rejected buf p _ (proj1 Hn) K i v buf' Hi Hv Hne' Ea).
  - intros E16. destruct (decide (i < 18)) as [H18|H18].
    + pose proof (corrupted_range buf p _ K i v buf' Hv Hne' Ea ccitt 0 18 ccitt_differs ltac:(lia) ltac:(lia) ltac:(lia)) as Hc.
      rewrite <- E16, <- (pk_crc16 _ _ _ K) in Hc. rewrite (le_changes 2 _ _ at_crc16_h _ _ C) in Hc by (unfold_offsets; cbn; lia). done.
    + rewrite (le_changes 2 _ _ at_length _ _ C), (pk_length _ _ _ K) by (unfold_offsets; cbn; lia). lia.
Qed.

(** ** Sequence numbers

    [GenerateSeq::GetSeq] is called by several threads at once. A call loads
    the counter, then tries to exchange its value for the next one until no
    other call came in between; the exchange may also fail for no reason, and
    loads the counter again when it fails. *)

Definition next_seq (value : Z) : Z := if value =? 65535 then 1 else u32 (value + 1).

(** The counter, the values loaded by the running calls, and the numbers
    returned, last first. *)
Record SeqState := mkSeq { seq : Z; calls : list Z; returned : list Z }.

Inductive seq_step : SeqState -> SeqState -> Prop :=
| call_loads s : seq_step s (mkSeq (seq s) (calls s ++ [seq s]) (returned s))
| exchange_succeeds s k value :
    calls s !! k = Some value -> value = seq s ->
    seq_step s (mkSeq (next_seq value) (delete k (calls s)) (next_seq value :: returned s))
| exchange_fails s k value :
    calls s !! k = Some value -> seq_step s (mkSeq (seq s) (<[k := seq s]> (calls s)) (returned s)).

Definition seq_start : SeqState := mkSeq 1 [] [].

(** The [k]-th number. *)
Definition nth_seq (k : Z) : Z := k mod 65535 + 1.

Lemma next_nth k : next_seq (nth_seq k) = nth_seq (k + 1).
Proof.
  unfold next_seq, nth_seq, u32. destruct (Z.eqb_spec (k mod 65535 + 1) 65535); Z.div_mod_to_equations; lia.
Qed.

(** The counter and the numbers follow the sequence. *)
Definition seq_inv (s : SeqState) : Prop :=
  seq s = nth_seq (alen (returned s)) /\ forall k v, returned s !! k = Some v -> v = nth_seq (alen (returned s) - Z.of_nat k).

Lemma seq_reachable s : rtc seq_step seq_start s -> seq_inv s.
Proof.
  revert s. apply rtc_ind_r; [by split|]. intros s t _ Hst [Es Hr]. destruct Hst as [s|s k value _ ->|s k value _]; unfold seq_inv; cbn [seq returned calls]; [by split| |by split]. rewrite Es, next_nth.
  assert (El : forall x, alen (x :: returned s) = alen (returned s) + 1) by (intros x; unfold alen; cbn; lia).
  rewrite El. split; [done|]. intros j v Hj. destruct j as [|j]; cbn in Hj; [injection Hj as <-; f_equal; lia|].
  rewrite (Hr j v Hj). f_equal. lia.
Qed.

(** ** Theorems on the sequence numbers *)

(** Whatever the interleaving of the calls, the numbers returned are between 1
    and 65535, and two calls get the same number only when at least 65535
    calls ended from one to the other. *)
Theorem sequence_numbers_distinct s i j v w :
  rtc seq_step seq_start s -> returned s !! i = Some v -> returned s !! j = Some w -> (i < j)%nat ->
  1 <= v <= 65535 /\ (v = w -> Z.of_nat j - Z.of_nat i >= 65535).
Proof.
  intros H Hi Hj Hlt. destruct (seq_reachable s H) as [_ Hr]. rewrite (Hr i v Hi), (Hr j w Hj). unfold nth_seq. split.
  - pose proof (Z.mod_pos_bound (alen (returned s) - Z.of_nat i) 65535 ltac:(lia)). lia.
  - intros E. Z.div_mod_to_equations. lia.
Qed.

(** ** Witnesses and limits *)

Definition sample_data : list Z := [9; 8; 7; 6; 5].
Definition sample_packet : CommPacket := mkPacket 0 0 70000 0x0102 0 1 1 3.

Lemma sample_ok : packet_ok sample_data sample_packet.
Proof. split; unfold is_u8, is_u16; cbn; try lia; [repeat constructor; lia|done|]. unfold alen. cbn. lia. Qed.

Lemma buffer_u8 n : Forall is_u8 (replicate n 7).
Proof. apply Forall_replicate. unfold is_u8. lia. Qed.

Lemma pack_parse_roundtrip_witness :
  exists buf, Pack (Some 0) 0 (replicate 30 7) 30 0 sample_data sample_packet = Some (0, buf, Some 27) /\
    ParseCommStream (Some 0) 4 buf 27 = Some (Some (mkPacket 0 0 4464 0x0102 0 1 24 3)).
Proof.
  destruct (pack_parse_roundtrip 0 0 (replicate 30 7) 30 0 sample_data sample_packet 4 27) as (buf & E1 & E2 & _).
  - apply sample_ok.
  - apply buffer_u8.
  - unfold alen. cbn. lia.
  - cbn. lia.
  - lia.
  - exists buf. split; [exact E1|exact E2].
Defined.

Lemma corrupted_packet_rejected_witness :
  exists buf buf', Pack (Some 0) 0 (replicate 30 7) 30 0 sample_data sample_packet = Some (0, buf, Some 27) /\
    aset buf 2 255 = Some buf' /\ ParseCommStream (Some 0) 4 buf' 27 = Some None.
Proof.
  destruct (corrupted_packet_rejected 0 0 (replicate 30 7) 30 0 sample_data sample_packet 4 27) as (buf & E1 & H).
  - apply sample_ok.
  - apply buffer_u8.
  - unfold alen. cbn. lia.
  - cbn. lia.
  - lia.
  - eexists buf, _. split; [exact E1|]. vm_compute in E1. injection E1 as <-. split; [reflexivity|].
    apply (H 2 255); [cbn; lia|unfold is_u8; lia|vm_compute; discriminate|reflexivity].
Defined.

(** A header alone whose length says one byte more: the check reads past it. *)
Example truncated_packet_read :
  CheckPreamble (Some 0) 0 [0xAA; 0; 25; 0; 2; 1; 0; 0; 0; 1; 0; 1; 7; 7; 7; 7; 7; 7; 87; 190; 0; 0; 0; 0] 24 = None.
Proof. vm_compute. reflexivity. Qed.

Lemma two_calls : rtc seq_step seq_start (mkSeq 3 [] [3; 2]).
Proof.
  eapply rtc_l; [apply call_loads|]. eapply rtc_l; [apply call_loads|]. cbn.
  eapply rtc_l; [by apply (exchange_succeeds _ 0 1)|]. cbn. eapply rtc_l; [by apply (exchange_fails _ 0 1)|]. cbn.
  eapply rtc_l; [by apply (exchange_succeeds _ 0 2)|]. apply rtc_refl.
Qed.

Lemma sequence_numbers_distinct_witness : 1 <= 3 <= 65535 /\ (3 = 2 -> Z.of_nat 1 - Z.of_nat 0 >= 65535).
Proof. apply (sequence_numbers_distinct (mkSeq 3 [] [3; 2]) 0 1 3 2); [apply two_calls|done|done|lia]. Defined.
