(* ===== verification/FloatOrder.v ===== *)
(** Nonnegative floating-point numbers as integers: a number is a multiple of
    the smallest positive one, comparison is that of the integers, and addition
    rounds their sum. It follows that addition is monotone and never decreases,
    which is what a search over floating-point costs relies on. Integers, and
    halves of integers, are compared exactly. *)

From S2P Require Import Prelude Floats.

(** ** Rounding of integers *)

(** [x / 2^k], to nearest, ties to even. *)
Definition rne (x k : Z) : Z :=
  let q := x / 2 ^ k in let r := x mod 2 ^ k in
  if (2 * r <? 2 ^ k) || ((2 * r =? 2 ^ k) && Z.even q) then q else q + 1.

Lemma pow2_pos k : 0 <= k -> 0 < 2 ^ k.
Proof. intros. by apply Z.pow_pos_nonneg. Qed.

Lemma rne_range x k : 0 <= k -> x / 2 ^ k <= rne x k <= x / 2 ^ k + 1.
Proof. intros Hk. unfold rne. destruct (_ || _); lia. Qed.

Lemma rne_exact q k : 0 <= k -> rne (q * 2 ^ k) k = q.
Proof.
  intros Hk. pose proof (pow2_pos k Hk). unfold rne. rewrite Z.div_mul, Z.mod_mul by lia. by rewrite (proj2 (Z.ltb_lt _ _)) by lia.
Qed.

Lemma rne_zero k : 0 <= k -> rne 0 k = 0.
Proof. intros Hk. exact (rne_exact 0 k Hk). Qed.

Lemma rne_scale x n j : 0 <= n -> 0 <= j -> rne (x * 2 ^ j) (n + j) = rne x n.
Proof.
  intros Hn Hj. pose proof (pow2_pos n Hn) as Pn. pose proof (pow2_pos j Hj) as Pj. unfold rne. rewrite Z.pow_add_r by lia.
  rewrite Z.div_mul_cancel_r, Z.mul_mod_distr_r by lia. set (r := x mod 2 ^ n).
  replace (2 * (r * 2 ^ j) <? 2 ^ n * 2 ^ j) with (2 * r <? 2 ^ n) by (apply eq_iff_eq_true; rewrite !Z.ltb_lt; nia).
  replace (2 * (r * 2 ^ j) =? 2 ^ n * 2 ^ j) with (2 * r =? 2 ^ n) by (apply eq_iff_eq_true; rewrite !Z.eqb_eq; nia). done.
Qed.

Lemma rne_mono x y k : 0 <= k -> x <= y -> rne x k <= rne y k.
Proof.
  intros Hk Hxy. pose proof (pow2_pos k Hk) as P. pose proof (Z.div_le_mono x y (2 ^ k) P Hxy) as Hq.
  pose proof (rne_range x k Hk). pose proof (rne_range y k Hk).
  destruct (Z.eq_dec (x / 2 ^ k) (y / 2 ^ k)) as [E|]; [|lia]. unfold rne. rewrite E.
  pose proof (Z.div_mod x (2 ^ k) ltac:(lia)) as Ex. pose proof (Z.div_mod y (2 ^ k) ltac:(lia)) as Ey. rewrite E in Ex.
  assert (Hr : x mod 2 ^ k <= y mod 2 ^ k) by lia.
  destruct (Z.ltb_spec (2 * (x mod 2 ^ k)) (2 ^ k)), (Z.ltb_spec (2 * (y mod 2 ^ k)) (2 ^ k)); cbn [orb andb]; try lia.
  - destruct (_ && _); lia.
  - destruct (Z.eqb_spec (2 * (x mod 2 ^ k)) (2 ^ k)), (Z.eqb_spec (2 * (y mod 2 ^ k)) (2 ^ k)), (Z.even (y / 2 ^ k)); cbn [andb]; lia.
Qed.

(** ** Shifting right with the two extra bits *)

Lemma shr_1_nonneg m r s : 0 <= m -> shr_1 (Build_shr_record m r s) = Build_shr_record (m / 2) (Z.odd m) (r || s).
Proof. intros Hm. destruct m as [|p|p]; [done| |lia]. rewrite <- Z.div2_div. by destruct p. Qed.

Lemma iter_pos_iter {A} (f : A -> A) n x : iter_pos f n x = Nat.iter (Pos.to_nat n) f x.
Proof.
  revert x. induction n as [n IH|n IH|]; intros x; cbn [iter_pos]; rewrite ?IH.
  - rewrite Pos2Nat.inj_xI, <- Nat.iter_add. replace (S (2 * Pos.to_nat n)) with (Pos.to_nat n + Pos.to_nat n + 1)%nat by lia. by rewrite (Nat.iter_add _ 1).
  - rewrite Pos2Nat.inj_xO, <- Nat.iter_add. f_equal. lia.
  - done.
Qed.

Lemma shr_iter m n : 0 <= m ->
  Nat.iter (S n) shr_1 (Build_shr_record m false false) =
  Build_shr_record (m / 2 ^ Z.of_nat (S n)) (Z.odd (m / 2 ^ Z.of_nat n)) (negb (m mod 2 ^ Z.of_nat n =? 0)).
Proof.
  intros Hm. induction n as [|n IH].
  - cbn [Nat.iter nat_rect]. rewrite shr_1_nonneg by done. change (2 ^ Z.of_nat 1) with 2. change (2 ^ Z.of_nat 0) with 1. by rewrite Z.div_1_r, Z.mod_1_r.
  - change (Nat.iter (S (S n)) shr_1 ?x) with (shr_1 (Nat.iter (S n) shr_1 x)). rewrite IH.
    pose proof (pow2_pos (Z.of_nat n) ltac:(lia)) as P. pose proof (pow2_pos (Z.of_nat (S n)) ltac:(lia)) as P1.
    rewrite shr_1_nonneg by (apply Z.div_pos; lia). f_equal.
    + rewrite Z.div_div by lia. f_equal. rewrite (Nat2Z.inj_succ (S n)), Z.pow_succ_r by lia. lia.
    + rewrite (Nat2Z.inj_succ n), Z.pow_succ_r, Z.mul_comm, Z.rem_mul_r by lia. set (a := m mod 2 ^ Z.of_nat n). set (q := m / 2 ^ Z.of_nat n).
      pose proof (Z.mod_pos_bound m (2 ^ Z.of_nat n) P) as Ha. fold a in Ha. rewrite (Zmod_odd q). destruct (Z.odd q); cbn [orb].
      * symmetry. rewrite negb_true_iff. apply Z.eqb_neq. lia.
      * do 2 f_equal. lia.
Qed.

(** The integer that [binary_round_aux] keeps. *)
Lemma shr_rounds m e n : 0 <= m -> 0 <= n ->
  let '(r, e') := shr (Build_shr_record m false false) e n in round_nearest_even (shr_m r) (loc_of_shr_record r) = rne m n /\ e' = e + n.
Proof.
  intros Hm Hn. destruct n as [|n|n]; [|cbn [shr]|lia].
  - cbn. rewrite Z.add_0_r. split; [|done]. pose proof (rne_exact m 0 ltac:(lia)) as H. by rewrite Z.mul_1_r in H.
  - split; [|done]. rewrite iter_pos_iter. destruct (Pos2Nat.is_succ n) as [k Ek]. rewrite Ek, shr_iter by done. cbn [shr_m].
    assert (En : Z.pos n = Z.of_nat k + 1) by lia. rewrite Nat2Z.inj_succ, <- Z.add_1_r, <- En. pose proof (pow2_pos (Z.of_nat k) ltac:(lia)) as P.
    unfold rne. rewrite En, Z.pow_add_r, Z.rem_mul_r by lia. change (2 ^ 1) with 2. set (a := m mod 2 ^ Z.of_nat k). set (q := m / 2 ^ Z.of_nat k).
    pose proof (Z.mod_pos_bound m (2 ^ Z.of_nat k) P) as Ha. fold a in Ha. rewrite (Zmod_odd q).
    set (Q := m / (2 ^ Z.of_nat k * 2)). destruct (Z.odd q), (Z.eqb_spec a 0); cbn [negb loc_of_shr_record round_nearest_even].
    + rewrite (proj2 (Z.ltb_ge _ _)), (proj2 (Z.eqb_eq _ _)) by lia. cbn [orb andb]. by destruct (Z.even Q).
    + rewrite (proj2 (Z.ltb_ge _ _)), (proj2 (Z.eqb_neq _ _)) by lia. done.
    + by rewrite (proj2 (Z.ltb_lt _ _)) by lia.
    + by rewrite (proj2 (Z.ltb_lt _ _)) by lia.
Qed.

Lemma digits2_log2 m : Z.pos (digits2_pos m) = Z.log2 (Z.pos m) + 1.
Proof. induction m as [m IH|m IH|]; cbn [digits2_pos Z.log2 Pos.size]; try done; rewrite Pos2Z.inj_succ, IH; destruct m; cbn; lia. Qed.

(** ** Numbers as integers *)

Section format.
Context (prec emax : Z) (Hprec : 1 < prec) (Hemax : prec < emax).

Local Abbreviation quantum := (emin prec emax).

(** The infinity, in units of [2 ^ emin]. *)
Definition f_top : Z := 2 ^ (emax - quantum).

Definition f_units (x : spec_float) : Z :=
  match x with
  | S754_finite false m e => Z.pos m * 2 ^ (e - quantum)
  | S754_infinity false => f_top
  | _ => 0
  end.

(** A zero, a positive number of the format or the positive infinity. *)
Definition f_nonneg (x : spec_float) : bool :=
  match x with
  | S754_zero _ | S754_infinity false => true
  | S754_finite false m e => bounded prec emax m e
  | _ => false
  end.

(** The bits of [x] that do not fit. *)
Definition f_excess (x : Z) : Z := Z.max 0 (Z.log2 x + 1 - prec).

Definition f_nearest (x : Z) : Z := Z.min (rne x (f_excess x) * 2 ^ f_excess x) f_top.

Lemma quantum_top : quantum + prec <= emax.
Proof using Hprec Hemax. unfold emin. lia. Qed.

Lemma fexp_units d : fexp prec emax (d + quantum) - quantum = Z.max 0 (d - prec).
Proof. unfold fexp. lia. Qed.

Lemma bounded_spec m e : bounded prec emax m e = true <->
  quantum <= e <= emax - prec /\ e - quantum = Z.max 0 (Z.log2 (Z.pos m) + 1 + (e - quantum) - prec).
Proof.
  unfold bounded, canonical_mantissa. rewrite digits2_log2, andb_true_iff, Z.eqb_eq, Z.leb_le. unfold fexp. lia.
Qed.

Lemma log2_units m e : quantum <= e -> Z.log2 (Z.pos m * 2 ^ (e - quantum)) = Z.log2 (Z.pos m) + (e - quantum).
Proof. intros He. rewrite Z.log2_mul_pow2 by lia. lia. Qed.

Lemma units_finite m e : bounded prec emax m e = true ->
  f_excess (Z.pos m * 2 ^ (e - quantum)) = e - quantum /\ 0 < Z.pos m * 2 ^ (e - quantum) < f_top.
Proof using Hprec Hemax.
  intros [He Hc]%bounded_spec. unfold f_excess. rewrite log2_units by lia. split; [lia|].
  pose proof (pow2_pos (e - quantum) ltac:(lia)) as P. split; [nia|]. apply Z.log2_lt_cancel. unfold f_top.
  rewrite Z.log2_pow2, log2_units by (pose proof quantum_top; lia). lia.
Qed.

Lemma units_range x : f_nonneg x = true -> 0 <= f_units x <= f_top.
Proof using Hprec Hemax.
  assert (0 < f_top) by (apply pow2_pos; pose proof quantum_top; lia).
  destruct x as [s|[]| |[] m e]; cbn [f_nonneg f_units]; try done; try lia. intros Hb. apply units_finite in Hb. lia.
Qed.

(** ** Rounding *)

Lemma rne_bounds x k : 0 <= k -> 0 < x -> Z.log2 x + 1 = prec + k -> 2 ^ (prec - 1) <= rne x k <= 2 ^ prec.
Proof using Hprec.
  intros Hk Hx Hl. pose proof (rne_range x k Hk) as R. pose proof (pow2_pos k Hk). pose proof (Z.log2_spec x Hx) as [L1 L2].
  assert (E1 : 2 ^ Z.log2 x = 2 ^ (prec - 1) * 2 ^ k) by (rewrite <- Z.pow_add_r by lia; f_equal; lia).
  assert (E2 : 2 ^ Z.succ (Z.log2 x) = 2 ^ prec * 2 ^ k) by (rewrite <- Z.pow_add_r by lia; f_equal; lia).
  assert (2 ^ (prec - 1) <= x / 2 ^ k) by (apply Z.div_le_lower_bound; lia).
  assert (x / 2 ^ k < 2 ^ prec) by (apply Z.div_lt_upper_bound; lia). lia.
Qed.

Lemma nearest_mono x y : 0 <= x -> x <= y -> f_nearest x <= f_nearest y.
Proof using Hprec Hemax.
  intros Hx Hxy. unfold f_nearest. apply Z.min_le_compat_r. destruct (Z.eq_dec x 0) as [->|Hx0].
  { rewrite rne_zero by (unfold f_excess; lia). pose proof (rne_range y (f_excess y) ltac:(unfold f_excess; lia)) as R.
    pose proof (pow2_pos (f_excess y) ltac:(unfold f_excess; lia)). pose proof (Z.div_pos y (2 ^ f_excess y) ltac:(lia) ltac:(lia)). nia. }
  pose proof (Z.log2_le_mono x y Hxy) as Hl. assert (Hkx : 0 <= f_excess x) by (unfold f_excess; lia). assert (Hky : 0 <= f_excess y) by (unfold f_excess; lia).
  pose proof (pow2_pos _ Hkx) as Px. pose proof (pow2_pos _ Hky) as Py.
  destruct (Z.eq_dec (f_excess x) (f_excess y)) as [E|Hne].
  - rewrite E. apply Z.mul_le_mono_nonneg_r; [lia|]. by apply rne_mono.
  - (* a power of two lies between them *)
    assert (Hy : f_excess y = Z.log2 y + 1 - prec) by (unfold f_excess in *; lia). assert (Hlt : Z.log2 x < Z.log2 y) by (unfold f_excess in *; lia).
    pose proof (rne_bounds y (f_excess y) Hky ltac:(lia) ltac:(lia)) as [By _].
    assert (Hb : 2 ^ Z.log2 y <= rne y (f_excess y) * 2 ^ f_excess y).
    { replace (Z.log2 y) with (prec - 1 + f_excess y) by lia. rewrite Z.pow_add_r by lia. apply Z.mul_le_mono_nonneg_r; lia. }
    assert (Ha : rne x (f_excess x) * 2 ^ f_excess x <= 2 ^ Z.log2 y); [|lia].
    unfold f_excess in *. destruct (Z.max_spec 0 (Z.log2 x + 1 - prec)) as [[Hm Em]|[Hm Em]]; rewrite Em in *.
    + pose proof (rne_bounds x _ Hkx ltac:(lia) ltac:(lia)) as [_ Bx].
      replace (Z.log2 y) with (prec + (Z.log2 x + 1 - prec) + (Z.log2 y - Z.log2 x - 1)) by lia. rewrite 2!Z.pow_add_r by lia.
      pose proof (pow2_pos (Z.log2 y - Z.log2 x - 1) ltac:(lia)). set (k := Z.log2 x + 1 - prec) in *. set (j := Z.log2 y - Z.log2 x - 1) in *.
      apply Z.le_trans with (2 ^ prec * 2 ^ k); [apply Z.mul_le_mono_nonneg_r; lia|]. apply Z.le_mul_diag_r; [|lia].
      apply Z.mul_pos_pos; [apply pow2_pos; lia|lia].
    + pose proof (rne_exact x 0 ltac:(lia)) as Ex. rewrite Z.mul_1_r in Ex. rewrite Ex, Z.mul_1_r.
      pose proof (Z.log2_spec x ltac:(lia)) as [_ L]. pose proof (Z.pow_le_mono_r 2 (Z.succ (Z.log2 x)) (Z.log2 y) ltac:(lia) ltac:(lia)). lia.
Qed.

Lemma nearest_units x : f_nonneg x = true -> f_nearest (f_units x) = f_units x.
Proof using Hprec Hemax.
  pose proof quantum_top as Q.
  assert (Htop : f_nearest f_top = f_top).
  { unfold f_nearest. set (k := f_excess f_top). assert (Hk : k = emax - quantum + 1 - prec) by (subst k; unfold f_excess, f_top; rewrite Z.log2_pow2; lia).
    assert (E : f_top = 2 ^ (prec - 1) * 2 ^ k) by (unfold f_top; rewrite <- Z.pow_add_r by lia; f_equal; lia).
    rewrite E at 1. rewrite rne_exact by lia. lia. }
  assert (H0 : f_nearest 0 = 0).
  { unfold f_nearest. rewrite rne_zero by (unfold f_excess; lia). assert (0 < f_top) by (apply pow2_pos; lia). lia. }
  destruct x as [s|[]| |[] m e]; cbn [f_nonneg f_units]; try done.
  intros Hb. destruct (units_finite m e Hb) as [Ek Hr]. apply bounded_spec in Hb as [He _]. unfold f_nearest. rewrite Ek, rne_exact by lia. lia.
Qed.

Lemma iter_xO m d : Z.pos (Pos.iter xO m d) = Z.pos m * 2 ^ Z.pos d.
Proof.
  induction d as [|d IH] using Pos.peano_ind; [cbn; lia|]. rewrite Pos.iter_succ, Pos2Z.inj_succ, Z.pow_succ_r by lia.
  change (Z.pos (Pos.iter xO m d)~0) with (2 * Z.pos (Pos.iter xO m d)). lia.
Qed.

Lemma shl_align_spec q m e e' : q <= Z.min e e' ->
  Z.pos (fst (shl_align m e e')) * 2 ^ (Z.min e e' - q) = Z.pos m * 2 ^ (e - q) /\ snd (shl_align m e e') = Z.min e e'.
Proof.
  intros Hq. unfold shl_align. destruct (e' - e) as [|d|d] eqn:E; cbn [fst snd].
  - replace (Z.min e e') with e by lia. done.
  - replace (Z.min e e') with e by lia. done.
  - replace (Z.min e e') with e' by lia. split; [|done]. rewrite iter_xO, <- Z.mul_assoc, <- Z.pow_add_r by lia. do 2 f_equal. lia.
Qed.

(** The second shift of [binary_round_aux], after a carry to a power of two. *)
Lemma renormalize m e : quantum <= e -> Z.pos m <= 2 ^ prec -> e = quantum \/ 2 ^ (prec - 1) <= Z.pos m ->
  exists p r s e', shr_fexp prec emax (Z.pos m) e loc_Exact = (Build_shr_record (Z.pos p) r s, e') /\ quantum <= e' /\
    Z.pos p * 2 ^ (e' - quantum) = Z.pos m * 2 ^ (e - quantum) /\ e' - quantum = Z.max 0 (Z.log2 (Z.pos p) + 1 + (e' - quantum) - prec).
Proof using Hprec.
  intros He Hm Hn. unfold shr_fexp. cbn [shr_record_of_loc Zdigits2]. rewrite digits2_log2.
  assert (Ef : forall d, fexp prec emax (d + e) - e = Z.max (d - prec) (quantum - e)) by (intros; unfold fexp; lia). rewrite Ef.
  destruct (Z.eq_dec (Z.pos m) (2 ^ prec)) as [E|Hlt].
  - rewrite E, Z.log2_pow2 by lia. replace (Z.max _ _) with 1 by lia. cbn [shr iter_pos].
    assert (E2 : 2 ^ prec = 2 * 2 ^ (prec - 1)) by (rewrite <- Z.pow_succ_r by lia; f_equal; lia).
    pose proof (pow2_pos (prec - 1) ltac:(lia)) as P. rewrite shr_1_nonneg, E2, (Z.mul_comm 2), Z.div_mul by lia.
    exists (Z.to_pos (2 ^ (prec - 1))), (Z.odd (2 ^ (prec - 1) * 2)), (false || false)%bool, (e + 1). rewrite !Z2Pos.id by done. split; [done|]. split; [lia|]. split.
    + replace (e + 1 - quantum) with (Z.succ (e - quantum)) by lia. rewrite Z.pow_succ_r by lia. lia.
    + rewrite Z.log2_pow2 by lia. lia.
  - assert (Hl : Z.log2 (Z.pos m) < prec) by (apply Z.log2_lt_pow2; lia).
    assert (Es : shr (Build_shr_record (Z.pos m) false false) e (Z.max (Z.log2 (Z.pos m) + 1 - prec) (quantum - e)) = (Build_shr_record (Z.pos m) false false, e)).
    { destruct (Z.max _ _) as [|n|n] eqn:En; [done|lia|done]. }
    exists m, false, false, e. split; [exact Es|]. split; [done|]. split; [done|].
    destruct Hn as [->|Hn]; [lia|]. pose proof (Z.log2_le_mono _ _ Hn) as Hl2. rewrite Z.log2_pow2 in Hl2 by lia. lia.
Qed.

Lemma binary_round_units m e : quantum <= e ->
  f_nonneg (binary_round prec emax false m e) = true /\ f_units (binary_round prec emax false m e) = f_nearest (Z.pos m * 2 ^ (e - quantum)).
Proof using Hprec Hemax.
  intros He. pose proof quantum_top as Q. set (P := fun y => f_nonneg y = true /\ f_units y = f_nearest (Z.pos m * 2 ^ (e - quantum))).
  change (P (binary_round prec emax false m e)). unfold binary_round. set (fe := fexp prec emax (Z.pos (digits2_pos m) + e)). assert (Hfe : quantum <= fe) by (subst fe; unfold fexp; lia).
  destruct (shl_align_spec quantum m e fe ltac:(lia)) as [Ex Ee]. set (X := Z.pos m * 2 ^ (e - quantum)) in *.
  destruct (shl_align m e fe) as [mz ez]. cbn [fst snd] in Ex, Ee. subst ez. set (ez := Z.min e fe) in *. unfold binary_round_aux.
  assert (Hk : fe = quantum + f_excess X).
  { subst fe X. rewrite digits2_log2. unfold fexp, f_excess. rewrite log2_units by lia. lia. }
  assert (Hd : fexp prec emax (Zdigits2 (Z.pos mz) + ez) = fe).
  { cbn [Zdigits2]. rewrite digits2_log2. rewrite Hk. unfold fexp, f_excess. rewrite <- Ex, log2_units by lia. lia. }
  unfold shr_fexp at 1. cbn [shr_record_of_loc]. rewrite Hd.
  pose proof (shr_rounds (Z.pos mz) ez (fe - ez) ltac:(lia) ltac:(lia)) as R. destruct (shr _ ez (fe - ez)) as [r1 e1]. destruct R as [-> ->].
  replace (ez + (fe - ez)) with fe by lia.
  assert (Erne : rne (Z.pos mz) (fe - ez) = rne X (f_excess X)).
  { rewrite <- (rne_scale (Z.pos mz) (fe - ez) (ez - quantum)) by lia. rewrite Ex. f_equal. lia. }
  rewrite Erne. set (k := f_excess X) in *. assert (HX : 0 < X) by (subst X; pose proof (pow2_pos (e - quantum) ltac:(lia)); nia).
  assert (Hm' : 0 < rne X k <= 2 ^ prec /\ (fe = quantum \/ 2 ^ (prec - 1) <= rne X k)).
  { pose proof (pow2_pos (prec - 1) ltac:(lia)). subst k. unfold f_excess in *. destruct (Z.max_spec 0 (Z.log2 X + 1 - prec)) as [[Hm Em]|[Hm Em]]; rewrite Em in *.
    - pose proof (rne_bounds X (Z.log2 X + 1 - prec) ltac:(lia) HX ltac:(lia)). lia.
    - pose proof (rne_exact X 0 ltac:(lia)) as E0. rewrite Z.mul_1_r in E0. rewrite E0. split; [|lia]. split; [done|].
      apply Z.lt_le_incl, Z.log2_lt_pow2; lia. }
  destruct (rne X k) as [|m'|m'] eqn:Em'; [lia| |lia].
  destruct (renormalize m' fe ltac:(lia) ltac:(lia) ltac:(tauto)) as (p & r & s & e' & -> & He' & Ev & Ec).
  cbn [shr_m]. assert (Efin : Z.pos p * 2 ^ (e' - quantum) = rne X k * 2 ^ k) by (rewrite Ev, Em'; f_equal; f_equal; lia).
  unfold P, f_nearest. fold X k. destruct (Z.leb_spec e' (emax - prec)) as [Hle|Hgt]; cbn [f_nonneg f_units].
  - assert (Hb : bounded prec emax p e' = true) by (apply bounded_spec; lia). split; [done|]. pose proof (proj2 (units_finite p e' Hb)) as Ht. lia.
  - split; [done|]. assert (Hp : prec - 1 <= Z.log2 (Z.pos p)) by lia. apply Z.log2_le_pow2 in Hp; [|lia].
    assert (Hpos : 2 ^ (prec - 1) * 2 ^ (e' - quantum) <= Z.pos p * 2 ^ (e' - quantum)) by (apply Z.mul_le_mono_nonneg_r; [apply Z.lt_le_incl, pow2_pos; lia|done]).
    rewrite <- Z.pow_add_r in Hpos by lia. pose proof (Z.pow_le_mono_r 2 (emax - quantum) (prec - 1 + (e' - quantum)) ltac:(lia) ltac:(lia)). unfold f_top. lia.
Qed.

(** ** Addition and comparison *)

Lemma f_add_units x y : f_nonneg x = true -> f_nonneg y = true ->
  f_nonneg (SFadd prec emax x y) = true /\ f_units (SFadd prec emax x y) = f_nearest (f_units x + f_units y).
Proof using Hprec Hemax.
  intros Hx Hy. pose proof (units_range x Hx) as Rx. pose proof (units_range y Hy) as Ry.
  assert (Htop : forall a, 0 <= a -> f_nearest (f_top + a) = f_top).
  { intros a Ha. pose proof (nearest_mono f_top (f_top + a) ltac:(unfold f_top; apply Z.pow_nonneg; lia) ltac:(lia)) as H.
    pose proof (nearest_units (S754_infinity false) eq_refl) as E. cbn [f_units] in E. rewrite E in H. assert (f_nearest (f_top + a) <= f_top) by (unfold f_nearest; lia). lia. }
  pose proof (nearest_units x Hx) as Ex. pose proof (nearest_units y Hy) as Ey.
  destruct x as [s|[]| |[] m e], y as [s'|[]| |[] m' e']; try discriminate Hx; try discriminate Hy; cbn [SFadd f_units] in *; rewrite ?Z.add_0_r, ?Z.add_0_l in *.
  all: try (by destruct s, s').
  all: try (split; [assumption|congruence]).
  all: try (split; [done|cbn [f_units]]; first [by rewrite Htop by lia|by rewrite Z.add_comm, Htop by lia]).
  cbn [f_nonneg] in Hx, Hy. apply bounded_spec in Hx as [Hx _], Hy as [Hy _]. cbn [cond_Zopp].
  destruct (shl_align_spec quantum m e (Z.min e e') ltac:(lia)) as [E1 _], (shl_align_spec quantum m' e' (Z.min e e') ltac:(lia)) as [E2 _].
  replace (Z.min e (Z.min e e')) with (Z.min e e') in E1 by lia. replace (Z.min e' (Z.min e e')) with (Z.min e e') in E2 by lia.
  destruct (fst (shl_align m e (Z.min e e'))) as [p|p|] eqn:Ep in *; destruct (fst (shl_align m' e' (Z.min e e'))) as [p'|p'|] eqn:Ep' in *;
    rewrite <- E1, <- E2, <- Z.mul_add_distr_r; apply binary_round_units; lia.
Qed.

Lemma f_compare_units x y : f_nonneg x = true -> f_nonneg y = true -> SFcompare x y = Some (f_units x ?= f_units y).
Proof using Hprec Hemax.
  intros Hx Hy. assert (Ht : 0 < f_top) by (apply pow2_pos; pose proof quantum_top; lia).
  assert (Hlt : forall m e m' e', bounded prec emax m e = true -> bounded prec emax m' e' = true -> e < e' ->
    Z.pos m * 2 ^ (e - quantum) < Z.pos m' * 2 ^ (e' - quantum)).
  { clear x y Hx Hy. intros m e m' e' [H1 C1]%bounded_spec [H2 C2]%bounded_spec Hlt. apply Z.log2_lt_cancel. rewrite !log2_units by lia. lia. }
  destruct x as [s|[]| |[] m e], y as [s'|[]| |[] m' e']; try discriminate Hx; try discriminate Hy; cbn [SFcompare f_units f_nonneg] in *; f_equal; symmetry;
    repeat match goal with H : bounded _ _ _ _ = true |- _ => pose proof (proj2 (units_finite _ _ H)); revert H end; intros;
    try (apply Z.compare_eq_iff; lia); try (apply Z.compare_lt_iff; lia); try (apply Z.compare_gt_iff; lia).
  destruct (Z.compare_spec e e') as [->|Hl|Hl].
  - change (Pos.compare_cont Eq m m') with (Z.pos m ?= Z.pos m'). pose proof (proj1 (bounded_spec _ _) Hx) as [He _]. pose proof (pow2_pos (e' - quantum) ltac:(lia)).
    destruct (Z.compare_spec (Z.pos m) (Z.pos m')) as [->|Hl|Hl]; [by apply Z.compare_eq_iff|apply Z.compare_lt_iff; nia|apply Z.compare_gt_iff; nia].
  - apply Z.compare_lt_iff. by apply Hlt.
  - apply Z.compare_gt_iff. apply Hlt; done.
Qed.

(** The laws of a search over costs. *)
Lemma f_lt_units x y : f_nonneg x = true -> f_nonneg y = true -> SFltb x y = (f_units x <? f_units y).
Proof using Hprec Hemax. intros Hx Hy. unfold SFltb, Z.ltb. rewrite f_compare_units by done. by destruct (_ ?= _). Qed.

Lemma f_eq_units x y : f_nonneg x = true -> f_nonneg y = true -> SFeqb x y = (f_units x =? f_units y).
Proof using Hprec Hemax. intros Hx Hy. unfold SFeqb. rewrite f_compare_units, Z.eqb_compare by done. by destruct (_ ?= _). Qed.

Lemma f_add_mono x y t : f_nonneg x = true -> f_nonneg y = true -> f_nonneg t = true ->
  f_units x <= f_units y -> f_units (SFadd prec emax x t) <= f_units (SFadd prec emax y t).
Proof using Hprec Hemax.
  intros Hx Hy Ht Hxy. rewrite (proj2 (f_add_units x t Hx Ht)), (proj2 (f_add_units y t Hy Ht)). pose proof (units_range x Hx). pose proof (units_range t Ht). apply nearest_mono; lia.
Qed.

Lemma f_add_inflates x t : f_nonneg x = true -> f_nonneg t = true -> f_units x <= f_units (SFadd prec emax x t).
Proof using Hprec Hemax.
  intros Hx Ht. rewrite (proj2 (f_add_units x t Hx Ht)), <- (nearest_units x Hx) at 1. pose proof (units_range x Hx). pose proof (units_range t Ht).
  apply nearest_mono; lia.
Qed.
End format.

(** ** binary32 *)

Definition s_units (x : spec_float) : Z := f_units f32_prec f32_emax x.
Definition s_nonneg (x : spec_float) : bool := f_nonneg f32_prec f32_emax x.

Lemma sadd_nonneg x y : s_nonneg x = true -> s_nonneg y = true -> s_nonneg (sadd x y) = true.
Proof. intros Hx Hy. exact (proj1 (f_add_units f32_prec f32_emax ltac:(done) ltac:(done) x y Hx Hy)). Qed.

Lemma sadd_mono x y t : s_nonneg x = true -> s_nonneg y = true -> s_nonneg t = true -> s_units x <= s_units y -> s_units (sadd x t) <= s_units (sadd y t).
Proof. by apply f_add_mono. Qed.

Lemma sadd_inflates x t : s_nonneg x = true -> s_nonneg t = true -> s_units x <= s_units (sadd x t).
Proof. by apply f_add_inflates. Qed.

Lemma flt_s_units x y : s_nonneg x = true -> s_nonneg y = true -> flt x y = (s_units x <? s_units y).
Proof. by apply f_lt_units. Qed.

Lemma feq_s_units x y : s_nonneg x = true -> s_nonneg y = true -> feq x y = (s_units x =? s_units y).
Proof. by apply f_eq_units. Qed.

Lemma s_nonneg_number x : s_nonneg x = true -> is_nan x = false.
Proof. by destruct x. Qed.

Lemma s_units_nonneg x : s_nonneg x = true -> 0 <= s_units x.
Proof. intros Hx. exact (proj1 (units_range f32_prec f32_emax ltac:(done) ltac:(done) x Hx)). Qed.

Lemma fle_s_units x y : s_nonneg x = true -> s_nonneg y = true -> fle x y = (s_units x <=? s_units y).
Proof.
  intros Hx Hy. rewrite fle_flt by (by apply s_nonneg_number). rewrite flt_s_units by done. by rewrite Z.leb_antisym.
Qed.

#[export] Hint Resolve sadd_nonneg s_nonneg_number s_units_nonneg : floats.

(** ** Integers and their halves in binary64 *)

Section halves.
Local Abbreviation prec := f64_prec.
Local Abbreviation emax := f64_emax.
Local Abbreviation quantum := (emin f64_prec f64_emax).

Lemma binary_round_opp m e : binary_round prec emax true m e = SFopp (binary_round prec emax false m e).
Proof.
  unfold binary_round. destruct (shl_align _ _ _) as [mz ez]. unfold binary_round_aux. destruct (shr_fexp _ _ _ _ _) as [r e1]. destruct (shr_fexp _ _ _ _ _) as [r2 e2].
  destruct (shr_m r2); [done|by destruct (e2 <=? _)|done].
Qed.

Lemma f_of_Z_opp z : z <> 0 -> f_of_Z (- z) = SFopp (f_of_Z z).
Proof.
  intros Hz. destruct z as [|p|p]; [done| |]; cbn [Z.opp f_of_Z binary_normalize].
  - apply binary_round_opp.
  - change (binary_round f64_prec f64_emax false p 0 = SFopp (binary_round f64_prec f64_emax true p 0)). rewrite binary_round_opp. by destruct (binary_round f64_prec f64_emax false p 0) as [[]|[]| |[] ? ?].
Qed.

(** Integers of at most 53 bits are exact, with 53 bits of mantissa. *)
Lemma f_of_Z_exact p : Z.pos p < 2 ^ 53 -> exists m e, f_of_Z (Z.pos p) = S754_finite false m e /\ Z.log2 (Z.pos m) = 52 /\ -52 <= e <= 0 /\ Z.pos m * 2 ^ (e - quantum) = Z.pos p * 2 ^ (- quantum).
Proof.
  intros Hp. destruct (binary_round_units prec emax ltac:(done) ltac:(done) p 0 ltac:(done)) as [Hn Hu].
  assert (Hlog : 0 <= Z.log2 (Z.pos p) < 53) by (split; [apply Z.log2_nonneg|apply Z.log2_lt_pow2; lia]).
  assert (Hq : quantum = -1074) by done. assert (Htop : f_top prec emax = 2 ^ 2098) by done.
  assert (Enear : f_nearest prec emax (Z.pos p * 2 ^ (0 - quantum)) = Z.pos p * 2 ^ (- quantum)).
  { unfold f_nearest, f_excess. rewrite Hq, Htop. replace (0 - -1074) with 1074 by lia. replace (- -1074) with 1074 by lia. rewrite Z.log2_mul_pow2 by lia. change prec with 53.
    set (k := Z.max 0 _). assert (Hk : 0 <= k <= 1074) by lia.
    assert (E : Z.pos p * 2 ^ 1074 = (Z.pos p * 2 ^ (1074 - k)) * 2 ^ k) by (rewrite <- Z.mul_assoc, <- Z.pow_add_r by lia; do 2 f_equal; lia).
    rewrite E at 1. rewrite rne_exact by lia. rewrite <- E. apply Z.min_l.
    apply Z.le_trans with (2 ^ 53 * 2 ^ 1074); [apply Z.mul_le_mono_nonneg_r; [apply Z.lt_le_incl, pow2_pos; lia|lia]|]. rewrite <- Z.pow_add_r by lia. apply Z.pow_le_mono_r; lia. }
  rewrite Enear in Hu. change (f_of_Z (Z.pos p)) with (binary_round prec emax false p 0).
  assert (Hpos : 0 < Z.pos p * 2 ^ (- quantum) < f_top prec emax).
  { rewrite Hq, Htop. split; [apply Z.mul_pos_pos; [lia|apply pow2_pos; lia]|].
    apply Z.lt_le_trans with (2 ^ 53 * 2 ^ 1074); [apply Z.mul_lt_mono_pos_r; [apply pow2_pos; lia|lia]|]. rewrite <- Z.pow_add_r by lia. apply Z.pow_le_mono_r; lia. }
  set (x := binary_round prec emax false p 0) in *. clearbody x. assert (Hx : match x with S754_finite false _ _ => True | _ => False end).
  { clear Enear Htop Hlog Hp. set (u := Z.pos p * _) in *. clearbody u. set (t := f_top prec emax) in *. destruct x as [[]|[]| |[] m e]; cbn [f_nonneg f_units] in Hn, Hu; try discriminate Hn; try exact I; fold t in Hu; clearbody t; lia. }
  destruct x as [| | |[] m e]; [destruct Hx..|]. cbn [f_nonneg f_units] in Hn, Hu.
  exists m, e. split; [done|]. apply bounded_spec in Hn as [He Hc]. assert (Hl : Z.log2 (Z.pos m) + (e - quantum) = Z.log2 (Z.pos p) + 1074).
  { rewrite <- log2_units by lia. rewrite Hu, Hq, Z.log2_mul_pow2 by lia. lia. }
  rewrite Hq in He, Hc, Hl. change prec with 53 in Hc. split; [lia|]. split; [lia|exact Hu].
Qed.

(** Halving such an integer is exact. *)
Lemma f_half_finite s m e : Z.log2 (Z.pos m) = 52 -> -52 <= e <= 0 -> fdiv (S754_finite s m e) (f_of_Z 2) = S754_finite s m (e - 1).
Proof.
  intros Hl He. change (f_of_Z 2) with (S754_finite false 4503599627370496 (-51)). unfold fdiv, SFdiv. rewrite xorb_false_r. unfold SFdiv_core_binary.
  cbn [Zdigits2]. rewrite digits2_log2, Hl. change (Z.pos (digits2_pos 4503599627370496)) with 53.
  assert (Ef : forall d, -100 <= d <= 100 -> fexp prec emax d = d - 53) by (intros d Hd; unfold fexp; change prec with 53; change (emin 53 emax) with (-1074); lia).
  rewrite Ef by lia. replace (Z.min (52 + 1 + e - (53 + -51) - 53) (e - -51)) with (e - 2) by lia. replace (e - -51 - (e - 2)) with 53 by lia.
  rewrite Z.shiftl_mul_pow2 by lia. assert (Edm : Z.div_eucl (Z.pos m * 2 ^ 53) 4503599627370496 = (2 * Z.pos m, 0)).
  { pose proof (Z_div_mod (Z.pos m * 2 ^ 53) 4503599627370496 ltac:(done)) as Hdm. destruct (Z.div_eucl _ _) as [q r]. f_equal; lia. }
  rewrite Edm. change (new_location 4503599627370496 0) with loc_Exact.
  unfold binary_round_aux. unfold shr_fexp at 1. cbn [shr_record_of_loc]. change (2 * Z.pos m) with (Z.pos m~0). cbn [Zdigits2]. rewrite digits2_log2.
  assert (Hl2 : Z.log2 (Z.pos m~0) = 53) by (change (Z.pos m~0) with (2 * Z.pos m); rewrite Z.log2_double by lia; lia). rewrite Hl2, Ef by lia.
  replace (53 + 1 + (e - 2) - 53 - (e - 2)) with 1 by lia. cbn [shr iter_pos]. rewrite shr_1_nonneg by done. change (Z.odd (Z.pos m~0)) with false. cbn [orb].
  replace (Z.pos m~0 / 2) with (Z.pos m) by (change (Z.pos m~0) with (2 * Z.pos m); rewrite Z.mul_comm, Z.div_mul by lia; done). cbn [shr_m loc_of_shr_record round_nearest_even].
  unfold shr_fexp. cbn [shr_record_of_loc Zdigits2]. rewrite digits2_log2, Hl, Ef by lia. replace (52 + 1 + (e - 2 + 1) - 53 - (e - 2 + 1)) with 0 by lia. cbn [shr shr_m].
  destruct (Z.leb_spec (e - 2 + 1) (emax - prec)) as [_|Hgt]; [f_equal; lia|]. change (emax - prec) with 971 in Hgt. lia.
Qed.

Definition f64_nonneg (x : spec_float) : bool := f_nonneg prec emax x.
Definition f64_units (x : spec_float) : Z := f_units prec emax x.

Lemma flt_units x y : f64_nonneg x = true -> f64_nonneg y = true -> flt x y = (f64_units x <? f64_units y).
Proof. by apply f_lt_units. Qed.

(** The half of an integer, in units of the half of a unit of the integers. *)
Lemma int_units z : 0 <= z < 2 ^ 53 -> f64_nonneg (f_of_Z z) = true /\ f64_units (f_of_Z z) = z * 2 ^ 1074.
Proof.
  intros [H0 H1]. destruct z as [|p|p]; [done| |lia]. destruct (f_of_Z_exact p H1) as (m & e & -> & Hl & He & E). split; [|exact E].
  apply (bounded_spec prec emax). change (emin prec emax) with (-1074). change (emax - prec) with 971. change prec with 53. rewrite Hl. lia.
Qed.

Lemma half_units z : 0 <= z < 2 ^ 53 -> f64_nonneg (fdiv (f_of_Z z) (f_of_Z 2)) = true /\ f64_units (fdiv (f_of_Z z) (f_of_Z 2)) = z * 2 ^ 1073.
Proof.
  intros [H0 H1]. destruct z as [|p|p]; [done| |lia]. destruct (f_of_Z_exact p H1) as (m & e & -> & Hl & He & E). rewrite (f_half_finite false m e Hl He). split.
  - apply (bounded_spec prec emax). change (emin prec emax) with (-1074). change (emax - prec) with 971. change prec with 53. rewrite Hl. lia.
  - unfold f64_units. cbn [f_units]. change quantum with (-1074) in *. replace (e - 1 - -1074) with (e + 1073) by lia. replace (e - -1074) with (1 + (e + 1073)) in E by lia.
    rewrite Z.pow_add_r in E by lia. change (- -1074) with (1 + 1073) in E. rewrite (Z.pow_add_r 2 1 1073) in E by lia. change (2 ^ 1) with 2 in E. lia.
Qed.

Lemma flt_opp x y : flt (SFopp x) (SFopp y) = flt y x.
Proof.
  unfold flt, SFltb. destruct x as [[]|[]| |[] m e], y as [[]|[]| |[] m' e']; cbn [SFopp negb SFcompare]; try done.
  - rewrite (Z.compare_antisym e' e). destruct (e' ?= e); cbn [CompOpp]; try done. change (Pos.compare_cont Eq m' m) with (m' ?= m)%positive. change (Pos.compare_cont Eq m m') with (m ?= m')%positive. rewrite (Pos.compare_antisym m' m). by destruct (m' ?= m)%positive.
  - rewrite (Z.compare_antisym e' e). destruct (e' ?= e); cbn [CompOpp]; try done. change (Pos.compare_cont Eq m' m) with (m' ?= m)%positive. change (Pos.compare_cont Eq m m') with (m ?= m')%positive. rewrite (Pos.compare_antisym m' m). by destruct (m' ?= m)%positive.
Qed.

Lemma half_opp p : Z.pos p < 2 ^ 53 -> fdiv (f_of_Z (Z.neg p)) (f_of_Z 2) = SFopp (fdiv (f_of_Z (Z.pos p)) (f_of_Z 2)).
Proof.
  intros Hp. change (Z.neg p) with (- Z.pos p). rewrite f_of_Z_opp by done. destruct (f_of_Z_exact p Hp) as (m & e & -> & Hl & He & _). cbn [SFopp negb].
  by rewrite (f_half_finite true m e Hl He), (f_half_finite false m e Hl He).
Qed.

(** An integer compared with the half of another. *)
Lemma half_compare k z : - 2 ^ 53 < k < 2 ^ 53 -> - 2 ^ 53 < z < 2 ^ 53 -> flt (f_of_Z k) (fdiv (f_of_Z z) (f_of_Z 2)) = (2 * k <? z).
Proof.
  assert (Hpos : forall k z, 0 <= k < 2 ^ 53 -> 0 <= z < 2 ^ 53 -> flt (f_of_Z k) (fdiv (f_of_Z z) (f_of_Z 2)) = (2 * k <? z) /\ flt (fdiv (f_of_Z z) (f_of_Z 2)) (f_of_Z k) = (z <? 2 * k)).
  { clear. intros k z Hk Hz. destruct (int_units k Hk) as [Hn Hu], (half_units z Hz) as [Hn' Hu']. rewrite !flt_units, Hu, Hu' by done. change 1074 with (1 + 1073). rewrite Z.pow_add_r by lia.
    pose proof (pow2_pos 1073 ltac:(lia)). set (u := 2 ^ 1073) in *. clearbody u. change (2 ^ 1) with 2. split; apply eq_iff_eq_true; rewrite !Z.ltb_lt; nia. }
  intros Hk Hz. destruct (Z.le_gt_cases 0 k) as [H0|H0], (Z.le_gt_cases 0 z) as [H1|H1].
  - apply Hpos; lia.
  - destruct z as [|p|p]; try lia. rewrite half_opp by lia. destruct (half_units (Z.pos p) ltac:(lia)) as [Hn Hu], (int_units k ltac:(lia)) as [Hn' Hu']. rewrite (proj2 (Z.ltb_ge (2 * k) _)) by lia.
    pose proof (pow2_pos 1073 ltac:(lia)). assert (0 < f64_units (fdiv (f_of_Z (Z.pos p)) (f_of_Z 2))) by (rewrite Hu; apply Z.mul_pos_pos; lia).
    destruct (fdiv (f_of_Z (Z.pos p)) (f_of_Z 2)) as [[]|[]| |[] m e]; try done; destruct (f_of_Z k) as [[]|[]| |[] m' e']; done.
  - destruct k as [|p|p]; try lia. change (Z.neg p) with (- Z.pos p). rewrite f_of_Z_opp by done. destruct (half_units z ltac:(lia)) as [Hn Hu]. rewrite (proj2 (Z.ltb_lt _ z)) by lia.
    destruct (f_of_Z_exact p ltac:(lia)) as (m & e & -> & _). destruct (fdiv (f_of_Z z) (f_of_Z 2)) as [[]|[]| |[] m' e']; done.
  - destruct k as [|p|p]; try lia. destruct z as [|q|q]; try lia. rewrite half_opp by lia. change (Z.neg p) with (- Z.pos p) at 1. rewrite f_of_Z_opp by done. rewrite flt_opp, (proj2 (Hpos (Z.pos p) (Z.pos q) ltac:(lia) ltac:(lia))).
    apply eq_iff_eq_true. rewrite !Z.ltb_lt. lia.
Qed.
End halves.

(** ** binary64, not negative *)

Lemma fadd_nonneg x y : f64_nonneg x = true -> f64_nonneg y = true -> f64_nonneg (fadd x y) = true.
Proof. intros Hx Hy. exact (proj1 (f_add_units f64_prec f64_emax ltac:(done) ltac:(done) x y Hx Hy)). Qed.

Lemma fadd_zero_units x y : f64_nonneg x = true -> f64_nonneg y = true -> f64_units y = 0 -> f64_units (fadd x y) = f64_units x.
Proof.
  intros Hx Hy E. pose proof (proj2 (f_add_units f64_prec f64_emax ltac:(done) ltac:(done) x y Hx Hy)) as Ha. pose proof (nearest_units f64_prec f64_emax ltac:(done) ltac:(done) x Hx) as Hn.
  unfold f64_units, fadd in *. rewrite Ha, E, Z.add_0_r. exact Hn.
Qed.

Lemma f64_nonneg_number x : f64_nonneg x = true -> is_nan x = false.
Proof. by destruct x. Qed.

Lemma f64_units_nonneg x : f64_nonneg x = true -> 0 <= f64_units x.
Proof. intros Hx. exact (proj1 (units_range f64_prec f64_emax ltac:(done) ltac:(done) x Hx)). Qed.

Lemma fle_units x y : f64_nonneg x = true -> f64_nonneg y = true -> fle x y = (f64_units x <=? f64_units y).
Proof.
  intros Hx Hy. rewrite fle_flt by (by apply f64_nonneg_number). rewrite flt_units by done. by rewrite Z.leb_antisym.
Qed.

Lemma fadd_mono x y t : f64_nonneg x = true -> f64_nonneg y = true -> f64_nonneg t = true -> f64_units x <= f64_units y -> f64_units (fadd x t) <= f64_units (fadd y t).
Proof. by apply f_add_mono. Qed.

Lemma fadd_inflates x t : f64_nonneg x = true -> f64_nonneg t = true -> f64_units x <= f64_units (fadd x t).
Proof. by apply f_add_inflates. Qed.

#[export] Hint Resolve fadd_nonneg f64_nonneg_number f64_units_nonneg : floats.
