(* ===== verification/KdTree.v ===== *)
(** The histogram of the particle filter (nav2_amcl/pf/pf_kdtree.c): a tree of
    keys in an array of nodes, its refinement of a finite map, and the
    clustering of its leaves into connected components. *)

From stdpp Require Import gmap relations.
From S2P Require Import Prelude Floats Bresenham Footprint FloatOrder.

(** ** The data *)

(** [int key[3]]. *)
Abbreviation Key := (Z * Z * Z)%type.

Definition key_at (k : Key) (d : Z) : option Z :=
  let '(k0, k1, k2) := k in match d with 0 => Some k0 | 1 => Some k1 | 2 => Some k2 | _ => None end.

(** Pointers to nodes are their indices in the array. *)
Record pf_kdtree_node_t := mkKdNode {
  kn_leaf : bool;
  kn_depth : Z;
  pivot_dim : Z;
  pivot_value : spec_float;
  kn_key : Key;
  kn_value : spec_float;
  kn_cluster : Z;
  child0 : option Z;
  child1 : option Z;
}.

Record pf_kdtree_t := mkKdTree {
  kd_size : list spec_float;
  kd_root : option Z;
  kd_node_count : Z;
  kd_node_max_count : Z;
  kd_nodes : list pf_kdtree_node_t;
  kd_leaf_count : Z;
}.

Definition zero_node : pf_kdtree_node_t := mkKdNode false 0 0 f_zero (0, 0, 0) f_zero 0 None None.

Definition set_kd_nodes (self : pf_kdtree_t) (nodes : list pf_kdtree_node_t) : pf_kdtree_t :=
  mkKdTree (kd_size self) (kd_root self) (kd_node_count self) (kd_node_max_count self) nodes (kd_leaf_count self).
Definition set_kd_root (self : pf_kdtree_t) (root : option Z) : pf_kdtree_t :=
  mkKdTree (kd_size self) root (kd_node_count self) (kd_node_max_count self) (kd_nodes self) (kd_leaf_count self).
Definition set_kd_counts (self : pf_kdtree_t) (nodes leaves : Z) : pf_kdtree_t :=
  mkKdTree (kd_size self) (kd_root self) nodes (kd_node_max_count self) (kd_nodes self) leaves.

(** What never changes. *)
Definition kd_params (self : pf_kdtree_t) : list spec_float * Z := (kd_size self, kd_node_max_count self).

(** Writes to a node. *)
Definition update_node (self : pf_kdtree_t) (n : Z) (f : pf_kdtree_node_t -> pf_kdtree_node_t) : option pf_kdtree_t :=
  nd ← aget (kd_nodes self) n; nodes ← aset (kd_nodes self) n (f nd); Some (set_kd_nodes self nodes).

Definition with_value (v : spec_float) (nd : pf_kdtree_node_t) : pf_kdtree_node_t :=
  mkKdNode (kn_leaf nd) (kn_depth nd) (pivot_dim nd) (pivot_value nd) (kn_key nd) v (kn_cluster nd) (child0 nd) (child1 nd).
Definition with_pivot (d : Z) (p : spec_float) (nd : pf_kdtree_node_t) : pf_kdtree_node_t :=
  mkKdNode (kn_leaf nd) (kn_depth nd) d p (kn_key nd) (kn_value nd) (kn_cluster nd) (child0 nd) (child1 nd).
Definition with_cluster (c : Z) (nd : pf_kdtree_node_t) : pf_kdtree_node_t :=
  mkKdNode (kn_leaf nd) (kn_depth nd) (pivot_dim nd) (pivot_value nd) (kn_key nd) (kn_value nd) c (child0 nd) (child1 nd).
Definition with_child0 (c : option Z) (nd : pf_kdtree_node_t) : pf_kdtree_node_t :=
  mkKdNode (kn_leaf nd) (kn_depth nd) (pivot_dim nd) (pivot_value nd) (kn_key nd) (kn_value nd) (kn_cluster nd) c (child1 nd).
Definition with_child1 (c : option Z) (nd : pf_kdtree_node_t) : pf_kdtree_node_t :=
  mkKdNode (kn_leaf nd) (kn_depth nd) (pivot_dim nd) (pivot_value nd) (kn_key nd) (kn_value nd) (kn_cluster nd) (child0 nd) c.
Definition with_leaf (b : bool) (nd : pf_kdtree_node_t) : pf_kdtree_node_t :=
  mkKdNode b (kn_depth nd) (pivot_dim nd) (pivot_value nd) (kn_key nd) (kn_value nd) (kn_cluster nd) (child0 nd) (child1 nd).

(** [pf_vector_t]: an array [v] of three numbers. *)
Record pf_vector_t := mkVector { v_0 : spec_float; v_1 : spec_float; v_2 : spec_float }.

(** ** The operations *)

Definition pf_kdtree_alloc (max_size : Z) : pf_kdtree_t :=
  mkKdTree [f_half; f_half; fdiv (fmul (f_of_Z 10) M_PI) (f_of_Z 180)] None 0 max_size (anew max_size zero_node) 0.

Definition pf_kdtree_clear (self : pf_kdtree_t) : pf_kdtree_t := set_kd_counts (set_kd_root self None) 0 0.

(** The cell of a pose. *)
Definition pose_coordinate (self : pf_kdtree_t) (x : spec_float) (i : Z) : option Z := s ← aget (kd_size self) i; f_to_s32 (ffloor (fdiv x s)).
Definition pose_key (self : pf_kdtree_t) (pose : pf_vector_t) : option Key :=
  k0 ← pose_coordinate self (v_0 pose) 0; k1 ← pose_coordinate self (v_1 pose) 1; k2 ← pose_coordinate self (v_2 pose) 2; Some (k0, k1, k2).

Definition pf_kdtree_equal (key_a key_b : Key) : bool :=
  let '(a0, a1, a2) := key_a in let '(b0, b1, b2) := key_b in
  if negb (a0 =? b0) then false else if negb (a1 =? b1) then false else if negb (a2 =? b2) then false else true.

(** The first branch of [pf_kdtree_insert_node]: a new leaf. *)
Definition make_leaf (self : pf_kdtree_t) (parent : option Z) (key : Key) (value : spec_float) : option (pf_kdtree_t * Z) :=
  _ ← assert_ub (kd_node_count self <? kd_node_max_count self);
  let n := kd_node_count self in
  depth ← match parent with None => Some 0 | Some p => nd ← aget (kd_nodes self) p; Some (kn_depth nd + 1) end;
  nodes ← aset (kd_nodes self) n (mkKdNode true depth 0 f_zero key value 0 None None);
  Some (set_kd_counts (set_kd_nodes self nodes) (n + 1) (kd_leaf_count self + 1), n).

(** The dimension of the largest difference and the middle. *)
Definition choose_pivot (key node_key : Key) : option (Z * spec_float) :=
  '(_, dim) ← for_range 0 3 (fun i '(max_split, dim) =>
    a ← key_at key i; b ← key_at node_key i;
    split ← checked_s32 (a - b); split ← checked_s32 (Z.abs split);
    Some (if max_split <? split then (split, i) else (max_split, dim))) (0, -1);
  _ ← assert_ub (0 <=? dim);
  a ← key_at key dim; b ← key_at node_key dim;
  sum ← checked_s32 (a + b);
  Some (dim, fdiv (f_of_Z sum) (f_of_Z 2)).

(** The recursion goes down the tree; a round per level is enough. *)
Fixpoint pf_kdtree_insert_node (fuel : nat) (self : pf_kdtree_t) (parent node : option Z) (key : Key) (value : spec_float) : option (pf_kdtree_t * Z) :=
  match fuel with
  | O => None
  | S fuel =>
      match node with
      | None => make_leaf self parent key value
      | Some n =>
          nd ← aget (kd_nodes self) n;
          if kn_leaf nd then
            if pf_kdtree_equal key (kn_key nd) then
              self ← update_node self n (with_value (fadd (kn_value nd) value)); Some (self, n)
            else
              '(dim, pivot) ← choose_pivot key (kn_key nd);
              k ← key_at key dim;
              self ← update_node self n (with_pivot dim pivot);
              let '(low, high) := if flt (f_of_Z k) pivot then ((key, value), (kn_key nd, kn_value nd)) else ((kn_key nd, kn_value nd), (key, value)) in
              '(self, c) ← pf_kdtree_insert_node fuel self node None (fst low) (snd low); self ← update_node self n (with_child0 (Some c));
              '(self, c) ← pf_kdtree_insert_node fuel self node None (fst high) (snd high); self ← update_node self n (with_child1 (Some c));
              self ← update_node self n (with_leaf false);
              Some (set_kd_counts self (kd_node_count self) (kd_leaf_count self - 1), n)
          else
            c0 ← child0 nd; c1 ← child1 nd;
            k ← key_at key (pivot_dim nd);
            '(self, _) ← pf_kdtree_insert_node fuel self node (Some (if flt (f_of_Z k) (pivot_value nd) then c0 else c1)) key value;
            Some (self, n)
      end
  end.

Definition kd_fuel (self : pf_kdtree_t) : nat := Z.to_nat (kd_node_count self) + 2.

Definition pf_kdtree_insert (self : pf_kdtree_t) (pose : pf_vector_t) (value : spec_float) : option pf_kdtree_t :=
  key ← pose_key self pose;
  '(self, root) ← pf_kdtree_insert_node (kd_fuel self) self None (kd_root self) key value;
  Some (set_kd_root self (Some root)).

(** The answer NULL is [Some None]; a NULL tree is dereferenced. *)
Fixpoint pf_kdtree_find_node (fuel : nat) (self : pf_kdtree_t) (node : option Z) (key : Key) : option (option Z) :=
  match fuel with
  | O => None
  | S fuel =>
      n ← node;
      nd ← aget (kd_nodes self) n;
      if kn_leaf nd then Some (if pf_kdtree_equal key (kn_key nd) then Some n else None)
      else
        c0 ← child0 nd; c1 ← child1 nd;
        k ← key_at key (pivot_dim nd);
        pf_kdtree_find_node fuel self (Some (if flt (f_of_Z k) (pivot_value nd) then c0 else c1)) key
  end.

Definition find_key (self : pf_kdtree_t) (key : Key) : option (option Z) := pf_kdtree_find_node (kd_fuel self) self (kd_root self) key.

Definition pf_kdtree_get_cluster (self : pf_kdtree_t) (pose : pf_vector_t) : option Z :=
  key ← pose_key self pose;
  node ← find_key self key;
  match node with None => Some (-1) | Some n => nd ← aget (kd_nodes self) n; Some (kn_cluster nd) end.

(** ** Clusters *)

(** The neighbour [i] of a key. *)
Definition neighbour_key (key : Key) (i : Z) : option Key :=
  let '(k0, k1, k2) := key in
  n0 ← checked_s32 (k0 + i / 9); n0 ← checked_s32 (n0 - 1);
  n1 ← checked_s32 (k1 + (i mod 9) / 3); n1 ← checked_s32 (n1 - 1);
  n2 ← checked_s32 (k2 + (i mod 9) mod 3); n2 ← checked_s32 (n2 - 1);
  Some (n0, n1, n2).

(** A round per leaf not yet labelled is enough. *)
Fixpoint pf_kdtree_cluster_node (fuel : nat) (self : pf_kdtree_t) (node : Z) : option pf_kdtree_t :=
  match fuel with
  | O => None
  | S fuel =>
      for_range 0 (3 * 3 * 3) (fun i self =>
        nd ← aget (kd_nodes self) node;
        nkey ← neighbour_key (kn_key nd) i;
        found ← find_key self nkey;
        match found with
        | None => Some self
        | Some nnode =>
            nnd ← aget (kd_nodes self) nnode;
            _ ← assert_ub (kn_leaf nnd);
            if 0 <=? kn_cluster nnd then _ ← assert_ub (kn_cluster nnd =? kn_cluster nd); Some self
            else self ← update_node self nnode (with_cluster (kn_cluster nd)); pf_kdtree_cluster_node fuel self nnode
        end) self
  end.

(** The leaves, unlabelled, in the order of the array. *)
Definition collect_leaves (self : pf_kdtree_t) : option (pf_kdtree_t * list Z) :=
  for_range 0 (kd_node_count self) (fun i '(self, queue) =>
    nd ← aget (kd_nodes self) i;
    if kn_leaf nd then
      self ← update_node self i (with_cluster (-1));
      _ ← assert_ub (alen queue <? kd_node_count self);
      found ← find_key self (kn_key nd);
      _ ← assert_ub (bool_decide (found = Some i));
      Some (self, queue ++ [i])
    else Some (self, queue)) (self, []).

Definition pf_kdtree_cluster (self : pf_kdtree_t) : option pf_kdtree_t :=
  '(self, queue) ← collect_leaves self;
  '(self, _) ← for_range 0 (alen queue) (fun j '(self, cluster_count) =>
    node ← aget queue (alen queue - 1 - j);
    nd ← aget (kd_nodes self) node;
    if 0 <=? kn_cluster nd then Some (self, cluster_count)
    else
      self ← update_node self node (with_cluster cluster_count);
      self ← pf_kdtree_cluster_node (kd_fuel self) self node;
      Some (self, cluster_count + 1)) (self, 0);
  Some self.

(** ** The pivot *)

(** Keys whose sums and neighbours are ints. *)
Definition small_key (k : Key) : Prop := let '(k0, k1, k2) := k in Z.abs k0 < 2 ^ 30 /\ Z.abs k1 < 2 ^ 30 /\ Z.abs k2 < 2 ^ 30.

(** The side of the pivot [p] in the dimension [d]. *)
Definition goes_left (d : Z) (p : spec_float) (k : Key) : bool := match key_at k d with Some x => flt (f_of_Z x) p | None => false end.

Lemma key_equal a b : pf_kdtree_equal a b = bool_decide (a = b).
Proof.
  destruct a as [[a0 a1] a2], b as [[b0 b1] b2]. unfold pf_kdtree_equal. apply eq_iff_eq_true. rewrite bool_decide_eq_true.
  destruct (Z.eqb_spec a0 b0), (Z.eqb_spec a1 b1), (Z.eqb_spec a2 b2); cbn [negb]; split; congruence.
Qed.

Lemma key_at_some k d : 0 <= d < 3 -> exists x, key_at k d = Some x.
Proof. destruct k as [[k0 k1] k2]. intros Hd. assert (d = 0 \/ d = 1 \/ d = 2) as [-> |[-> | ->]] by lia; by eexists. Qed.

Lemma middle_splits a b : Z.abs a < 2 ^ 30 -> Z.abs b < 2 ^ 30 -> a <> b ->
  flt (f_of_Z a) (fdiv (f_of_Z (a + b)) (f_of_Z 2)) = negb (flt (f_of_Z b) (fdiv (f_of_Z (a + b)) (f_of_Z 2))).
Proof.
  intros Ha Hb Hne. rewrite !half_compare by lia. destruct (Z.ltb_spec (2 * a) (a + b)), (Z.ltb_spec (2 * b) (a + b)); cbn [negb]; lia.
Qed.

(** Two different keys fall on the two sides of the pivot. *)
Lemma choose_pivot_ok a b : small_key a -> small_key b -> a <> b ->
  exists d p, choose_pivot a b = Some (d, p) /\ 0 <= d < 3 /\ goes_left d p a = negb (goes_left d p b).
Proof.
  destruct a as [[a0 a1] a2], b as [[b0 b1] b2]. intros (Ha0 & Ha1 & Ha2) (Hb0 & Hb1 & Hb2) Hne. unfold choose_pivot.
  assert (Hc : forall x y, Z.abs x < 2 ^ 30 -> Z.abs y < 2 ^ 30 -> checked_s32 (x - y) = Some (x - y) /\ checked_s32 (Z.abs (x - y)) = Some (Z.abs (x - y)) /\ checked_s32 (x + y) = Some (x + y))
    by (intros x y Hx Hy; split_and!; apply checked_s32_ok; unfold is_s32; lia).
  destruct (Hc a0 b0 Ha0 Hb0) as (E1 & E2 & E3), (Hc a1 b1 Ha1 Hb1) as (E4 & E5 & E6), (Hc a2 b2 Ha2 Hb2) as (E7 & E8 & E9).
  rewrite for_range_step by lia. change (0 + 1) with 1. cbn [key_at]. mred. rewrite E1. mred. rewrite E2. mred.
  assert (Hr1 : forall st : Z * Z, for_range 1 3 (fun i '(max_split, dim) => a ← key_at (a0, a1, a2) i; b ← key_at (b0, b1, b2) i; split ← checked_s32 (a - b); split ← checked_s32 (Z.abs split);
      Some (if max_split <? split then (split, i) else (max_split, dim))) st =
    Some (let st := if fst st <? Z.abs (a1 - b1) then (Z.abs (a1 - b1), 1) else st in if fst st <? Z.abs (a2 - b2) then (Z.abs (a2 - b2), 2) else st)).
  { intros [ms d]. rewrite for_range_step by lia. change (1 + 1) with 2. cbn [key_at]. mred. rewrite E4. mred. rewrite E5. mred. rewrite for_range_step by lia. change (2 + 1) with 3. 
    cbn [fst]. destruct (ms <? Z.abs (a1 - b1)); cbn [key_at fst]; mred; rewrite E7; mred; rewrite E8; mred; (rewrite for_range_nil by lia); done. }
  rewrite Hr1. mred. clear Hr1.
  assert (Hp : forall d x y, key_at (a0, a1, a2) d = Some x -> key_at (b0, b1, b2) d = Some y -> 0 <= d < 3 -> Z.abs x < 2 ^ 30 -> Z.abs y < 2 ^ 30 -> 0 < Z.abs (x - y) ->
    exists d' p, (_ ← assert_ub (0 <=? d); a ← key_at (a0, a1, a2) d; b ← key_at (b0, b1, b2) d; sum ← checked_s32 (a + b); Some (d, fdiv (f_of_Z sum) (f_of_Z 2))) = Some (d', p) /\
      0 <= d' < 3 /\ goes_left d' p (a0, a1, a2) = negb (goes_left d' p (b0, b1, b2))).
  { intros d x y Hx Hy Hd Ha Hb Hd'. rewrite assert_ub_true by (apply Z.leb_le; lia). mred. rewrite Hx, Hy. mred. destruct (Hc x y Ha Hb) as (_ & _ & ->). mred. eexists d, _. split; [done|]. split; [done|].
    unfold goes_left. rewrite Hx, Hy. apply middle_splits; try done. lia. }
  pose proof (Z.abs_nonneg (a0 - b0)). pose proof (Z.abs_nonneg (a1 - b1)). pose proof (Z.abs_nonneg (a2 - b2)).
  destruct (Z.ltb_spec 0 (Z.abs (a0 - b0))) as [L0|L0]; cbn [fst].
  - destruct (Z.ltb_spec (Z.abs (a0 - b0)) (Z.abs (a1 - b1))) as [L1|L1]; cbn [fst].
    + destruct (Z.ltb_spec (Z.abs (a1 - b1)) (Z.abs (a2 - b2))); [apply (Hp 2 a2 b2)|apply (Hp 1 a1 b1)]; done || lia.
    + destruct (Z.ltb_spec (Z.abs (a0 - b0)) (Z.abs (a2 - b2))); [apply (Hp 2 a2 b2)|apply (Hp 0 a0 b0)]; done || lia.
  - destruct (Z.ltb_spec 0 (Z.abs (a1 - b1))) as [L1|L1]; cbn [fst].
    + destruct (Z.ltb_spec (Z.abs (a1 - b1)) (Z.abs (a2 - b2))); [apply (Hp 2 a2 b2)|apply (Hp 1 a1 b1)]; done || lia.
    + destruct (Z.ltb_spec 0 (Z.abs (a2 - b2))) as [L2|L2]; [apply (Hp 2 a2 b2); done || lia|]. destruct Hne. f_equal; [f_equal|]; lia.
Qed.

(** ** Trees *)

Inductive Tree :=
  | TLeaf (i : Z) (k : Key) (v : spec_float)
  | TBranch (i d : Z) (p : spec_float) (l r : Tree).

Definition tid (t : Tree) : Z := match t with TLeaf i _ _ | TBranch i _ _ _ _ => i end.
Fixpoint tids (t : Tree) : list Z := match t with TLeaf i _ _ => [i] | TBranch i _ _ l r => i :: tids l ++ tids r end.
Fixpoint height (t : Tree) : nat := match t with TLeaf _ _ _ => 0 | TBranch _ _ _ l r => S (max (height l) (height r)) end.

(** The leaves: the node and the value of each key. *)
Fixpoint leaves (t : Tree) : gmap Key (Z * spec_float) :=
  match t with TLeaf i k v => {[k := (i, v)]} | TBranch _ _ _ l r => leaves l ∪ leaves r end.

(** Every key is on its side of every pivot. *)
Fixpoint ordered (t : Tree) : Prop :=
  match t with
  | TLeaf _ k _ => small_key k
  | TBranch _ d p l r => 0 <= d < 3 /\ (forall k x, leaves l !! k = Some x -> goes_left d p k = true) /\ (forall k x, leaves r !! k = Some x -> goes_left d p k = false) /\ ordered l /\ ordered r
  end.

(** The tree in the array. *)
Fixpoint repr (ns : list pf_kdtree_node_t) (t : Tree) : Prop :=
  match t with
  | TLeaf i k v => exists nd, aget ns i = Some nd /\ kn_leaf nd = true /\ kn_key nd = k /\ kn_value nd = v
  | TBranch i d p l r => (exists nd, aget ns i = Some nd /\ kn_leaf nd = false /\ pivot_dim nd = d /\ pivot_value nd = p /\ child0 nd = Some (tid l) /\ child1 nd = Some (tid r)) /\ repr ns l /\ repr ns r
  end.

(** The insertion, new nodes being numbered from [n]. *)
Fixpoint tinsert (n : Z) (k : Key) (v : spec_float) (t : Tree) : Tree :=
  match t with
  | TLeaf i k' v' =>
      if decide (k = k') then TLeaf i k' (fadd v' v)
      else match choose_pivot k k' with
           | Some (d, p) => if goes_left d p k then TBranch i d p (TLeaf n k v) (TLeaf (n + 1) k' v') else TBranch i d p (TLeaf n k' v') (TLeaf (n + 1) k v)
           | None => t
           end
  | TBranch i d p l r => if goes_left d p k then TBranch i d p (tinsert n k v l) r else TBranch i d p l (tinsert n k v r)
  end.

Lemma repr_frame ns ns' t : repr ns t -> (forall i, i ∈ tids t -> aget ns' i = aget ns i) -> repr ns' t.
Proof.
  induction t as [i k v|i d p l IHl r IHr]; cbn [repr tids]; intros Hr Hf.
  - destruct Hr as (nd & E & H). exists nd. split; [|done]. rewrite Hf by (by left). done.
  - destruct Hr as ((nd & E & H) & Hl & Hr). split; [exists nd; split; [|done]; rewrite Hf by (by left); done|]. split; [apply IHl|apply IHr]; try done; intros j Hj; apply Hf; right; apply elem_of_app; [by left|by right].
Qed.

Lemma tid_in t : tid t ∈ tids t.
Proof. destruct t; by left. Qed.

Lemma ordered_small t k x : ordered t -> leaves t !! k = Some x -> small_key k.
Proof.
  induction t as [i k' v|i d p l IHl r IHr]; cbn [ordered leaves].
  - intros Hs [<- _]%lookup_singleton_Some. done.
  - intros (_ & _ & _ & Hl & Hr) [E|[_ E]]%lookup_union_Some_raw; [by apply IHl|by apply IHr].
Qed.

Lemma leaves_ids t k i v : leaves t !! k = Some (i, v) -> i ∈ tids t.
Proof.
  induction t as [j k' v'|j d p l IHl r IHr]; cbn [leaves tids].
  - intros [_ [= -> _]]%lookup_singleton_Some. by left.
  - intros [E|[_ E]]%lookup_union_Some_raw; right; apply elem_of_app; [left; by apply IHl|right; by apply IHr].
Qed.

(** The leaf of the key, if any, is on the side of the key. *)
Lemma leaves_side i d p l r k : ordered (TBranch i d p l r) -> leaves (TBranch i d p l r) !! k = leaves (if goes_left d p k then l else r) !! k.
Proof.
  intros (_ & Hl & Hr & _). cbn [leaves]. destruct (goes_left d p k) eqn:E.
  - destruct (leaves l !! k) as [x|] eqn:El; [by apply lookup_union_Some_l|]. rewrite lookup_union_r by done. destruct (leaves r !! k) as [x|] eqn:Er; [|done]. rewrite (Hr k x Er) in E. done.
  - destruct (leaves l !! k) as [x|] eqn:El; [rewrite (Hl k x El) in E; done|]. by rewrite lookup_union_r.
Qed.

(** What the insertion does to the leaves: the other keys keep their values. *)
Record inserted (n : Z) (k : Key) (v : spec_float) (t t' : Tree) : Prop := {
  ins_tid : tid t' = tid t;
  ins_ordered : ordered t';
  ins_at : snd <$> leaves t' !! k = Some (match leaves t !! k with Some (_, v') => fadd v' v | None => v end);
  ins_other k' : k' <> k -> snd <$> leaves t' !! k' = snd <$> leaves t !! k';
  ins_ids : if bool_decide (is_Some (leaves t !! k)) then tids t' = tids t else tids t' ≡ₚ n :: n + 1 :: tids t;
  ins_height : (height t' <= S (height t))%nat;
}.

Lemma perm3 (i n m : Z) (l : list Z) : i :: n :: m :: l ≡ₚ n :: m :: i :: l.
Proof. by rewrite (Permutation_swap n i), (Permutation_swap m i). Qed.

Lemma tinsert_ok n k v t : ordered t -> small_key k -> inserted n k v t (tinsert n k v t).
Proof.
  intros Ho Hk. induction t as [i k' v'|i d p l IHl r IHr].
  - cbn [tinsert]. cbn [ordered] in Ho. destruct (decide (k = k')) as [->|Hne].
    + split; cbn [tid ordered leaves tids height]; try done.
      * by rewrite !lookup_singleton_eq.
      * intros k Hne. by rewrite !lookup_singleton_ne.
      * rewrite lookup_singleton_eq. by rewrite bool_decide_eq_true_2.
      * lia.
    + destruct (choose_pivot_ok k k' Hk Ho Hne) as (d & p & -> & Hd & Hside).
      assert (Hn : leaves (TLeaf i k' v') !! k = None) by (cbn [leaves]; by rewrite lookup_singleton_ne).
      destruct (goes_left d p k) eqn:E; (split; cbn [tid ordered tids height app]; rewrite ?Hn; try done).
      * split; [done|]. cbn [leaves]. split; [by intros ? ? [<- _]%lookup_singleton_Some|]. split; [|done]. intros ? ? [<- _]%lookup_singleton_Some. by destruct (goes_left d p k').
      * cbn [leaves]. by rewrite (lookup_union_Some_l _ _ _ (n, v)) by (by rewrite lookup_singleton_eq).
      * intros k2 H2. cbn [leaves]. rewrite lookup_union_r by (by rewrite lookup_singleton_ne). destruct (decide (k2 = k')) as [->|]; [by rewrite !lookup_singleton_eq|by rewrite !lookup_singleton_ne].
      * rewrite bool_decide_eq_false_2 by (by intros []). apply perm3.
      * split; [done|]. cbn [leaves]. split; [intros ? ? [<- _]%lookup_singleton_Some; by destruct (goes_left d p k')|]. split; [|done]. by intros ? ? [<- _]%lookup_singleton_Some.
      * cbn [leaves]. rewrite lookup_union_r by (by rewrite lookup_singleton_ne). by rewrite lookup_singleton_eq.
      * intros k2 H2. cbn [leaves]. destruct (decide (k2 = k')) as [->|].
        -- rewrite (lookup_union_Some_l _ _ _ (n, v')) by (by rewrite lookup_singleton_eq). by rewrite lookup_singleton_eq.
        -- rewrite lookup_union_r by (by rewrite lookup_singleton_ne). by rewrite !lookup_singleton_ne.
      * rewrite bool_decide_eq_false_2 by (by intros []). apply perm3.
  - pose proof (leaves_side i d p l r k Ho) as Hside. destruct Ho as (Hd & Hl & Hr & Hol & Hor). cbn [tinsert]. destruct (goes_left d p k) eqn:E.
    + destruct (IHl Hol) as [It Io Ia Iother Ii Ih].
      assert (Ho' : ordered (TBranch i d p (tinsert n k v l) r)).
      { split; [done|]. split; [|done]. intros k2 x2 E2. destruct (decide (k2 = k)) as [->|Hne]; [done|]. specialize (Iother k2 Hne). rewrite E2 in Iother. cbn in Iother. destruct (leaves l !! k2) as [y|] eqn:El; [by apply (Hl k2 y)|done]. }
      split; try done.
      * pose proof (leaves_side _ _ _ _ _ k Ho') as Hs. rewrite E in Hs. by rewrite Hs, Hside.
      * intros k2 Hne. rewrite (leaves_side _ _ _ _ _ k2 Ho'), (leaves_side i d p l r k2) by done. destruct (goes_left d p k2); [by apply Iother|done].
      * rewrite Hside. cbn [tids]. case_bool_decide; [by rewrite Ii|]. rewrite Ii. cbn [app]. apply perm3.
      * cbn [height]. lia.
    + destruct (IHr Hor) as [It Io Ia Iother Ii Ih].
      assert (Ho' : ordered (TBranch i d p l (tinsert n k v r))).
      { split; [done|]. split; [done|]. split; [|done]. intros k2 x2 E2. destruct (decide (k2 = k)) as [->|Hne]; [done|]. specialize (Iother k2 Hne). rewrite E2 in Iother. cbn in Iother. destruct (leaves r !! k2) as [y|] eqn:El; [by apply (Hr k2 y)|done]. }
      split; try done.
      * pose proof (leaves_side _ _ _ _ _ k Ho') as Hs. rewrite E in Hs. by rewrite Hs, Hside.
      * intros k2 Hne. rewrite (leaves_side _ _ _ _ _ k2 Ho'), (leaves_side i d p l r k2) by done. destruct (goes_left d p k2); [done|by apply Iother].
      * rewrite Hside. cbn [tids]. case_bool_decide; [by rewrite Ii|]. rewrite Ii. rewrite <- !Permutation_middle. apply perm3.
      * cbn [height]. lia.
Qed.

(** ** The insertion in the array *)

(** What an operation changes: nodes of [touched], and [dn] new nodes with [dl] new leaves. *)
Record changes (self self' : pf_kdtree_t) (touched : list Z) (dn dl : Z) : Prop := {
  ch_size : kd_size self' = kd_size self;
  ch_root : kd_root self' = kd_root self;
  ch_max : kd_node_max_count self' = kd_node_max_count self;
  ch_len : alen (kd_nodes self') = alen (kd_nodes self);
  ch_count : kd_node_count self' = kd_node_count self + dn;
  ch_leaves : kd_leaf_count self' = kd_leaf_count self + dl;
  ch_frame j : 0 <= j < kd_node_count self -> j ∉ touched -> aget (kd_nodes self') j = aget (kd_nodes self) j;
}.

Lemma kd_changes_trans a b c touched dn dl dn' dl' : 0 <= dn -> changes a b touched dn dl -> changes b c touched dn' dl' -> changes a c touched (dn + dn') (dl + dl').
Proof.
  intros Hdn [] []. split; try congruence; try lia. intros j Hj Hn. transitivity (aget (kd_nodes b) j); auto with lia.
Qed.

Lemma changes_more a b touched touched' dn dl : (forall j, j ∈ touched -> j ∈ touched') -> changes a b touched dn dl -> changes a b touched' dn dl.
Proof. intros Hs []. split; auto. Qed.

Lemma update_node_ok self n nd f : aget (kd_nodes self) n = Some nd ->
  exists self', update_node self n f = Some self' /\ changes self self' [n] 0 0 /\ forall j, aget (kd_nodes self') j = if n =? j then Some (f nd) else aget (kd_nodes self) j.
Proof.
  intros E. unfold update_node. rewrite E. mred. apply aget_bounds in E as Hn. destruct (aset (kd_nodes self) n (f nd)) as [ns|] eqn:Es; [|rewrite aset_Some in Es by done; done]. mred.
  eexists. split; [done|]. pose proof (fun j => aget_aset _ _ _ _ j Es) as Hg. split; [|exact Hg]. split; try done; cbn; try lia.
  - apply (aset_len _ _ _ _ Es).
  - intros j Hj Hnj. rewrite Hg. destruct (Z.eqb_spec n j) as [->|]; [|done]. destruct Hnj. by left.
Qed.

Lemma make_leaf_ok self parent key value : 0 <= kd_node_count self < kd_node_max_count self -> alen (kd_nodes self) = kd_node_max_count self ->
  match parent with Some p => is_Some (aget (kd_nodes self) p) | None => True end ->
  exists self' d, make_leaf self parent key value = Some (self', kd_node_count self) /\ changes self self' [] 1 1 /\
    forall j, aget (kd_nodes self') j = if kd_node_count self =? j then Some (mkKdNode true d 0 f_zero key value 0 None None) else aget (kd_nodes self) j.
Proof.
  intros Hn Hl Hp. unfold make_leaf. rewrite assert_ub_true by (apply Z.ltb_lt; lia). mred.
  assert (Hd : exists d, match parent with None => Some 0 | Some p => nd ← aget (kd_nodes self) p; Some (kn_depth nd + 1) end = Some d).
  { destruct parent as [p|]; [destruct Hp as [nd ->]; by eexists|by eexists]. }
  destruct Hd as [d ->]. mred. destruct (aset _ _ _) as [ns|] eqn:Es; [|rewrite aset_Some in Es by lia; done]. mred.
  eexists _, d. split; [done|]. pose proof (fun j => aget_aset _ _ _ _ j Es) as Hg. split; [|exact Hg]. split; try done.
  - apply (aset_len _ _ _ _ Es).
  - intros j Hj _. cbn [kd_nodes set_kd_counts set_kd_nodes]. rewrite Hg. destruct (Z.eqb_spec (kd_node_count self) j); [lia|done].
Qed.

(** The nodes of the tree are distinct and among the first ones. *)
Definition placed (self : pf_kdtree_t) (t : Tree) : Prop := repr (kd_nodes self) t /\ NoDup (tids t) /\ forall i, i ∈ tids t -> 0 <= i < kd_node_count self.

(** A leaf split: its node gets two leaves. *)
Lemma split_ok fuel self n nd d p low high : aget (kd_nodes self) n = Some nd -> 0 <= n < kd_node_count self ->
  kd_node_count self + 2 <= kd_node_max_count self -> alen (kd_nodes self) = kd_node_max_count self -> (0 < fuel)%nat ->
  exists self', (self ← update_node self n (with_pivot d p);
    '(self, c) ← pf_kdtree_insert_node fuel self (Some n) None (fst low) (snd low); self ← update_node self n (with_child0 (Some c));
    '(self, c) ← pf_kdtree_insert_node fuel self (Some n) None (fst high) (snd high); self ← update_node self n (with_child1 (Some c));
    self ← update_node self n (with_leaf false);
    Some (set_kd_counts self (kd_node_count self) (kd_leaf_count self - 1), n)) = Some (self', n) /\
    changes self self' [n] 2 1 /\
    repr (kd_nodes self') (TBranch n d p (TLeaf (kd_node_count self) (fst low) (snd low)) (TLeaf (kd_node_count self + 1) (fst high) (snd high))).
Proof.
  intros End Hn Hmax Hlen Hfuel. destruct fuel as [|fuel]; [lia|]. cbn [pf_kdtree_insert_node].
  destruct (update_node_ok self n nd (with_pivot d p) End) as (s1 & -> & C1 & G1). mred. pose proof C1 as [_ _ M1 L1 N1 _ _]. pose proof (G1 n) as A1. rewrite Z.eqb_refl in A1.
  destruct (make_leaf_ok s1 (Some n) (fst low) (snd low)) as (s2 & d2 & -> & C2 & G2); [lia|lia|by rewrite A1|]. mred. pose proof C2 as [_ _ M2 L2 N2 _ _].
  pose proof (G2 n) as A2. rewrite (proj2 (Z.eqb_neq _ n)), A1 in A2 by lia.
  destruct (update_node_ok s2 n _ (with_child0 (Some (kd_node_count s1))) A2) as (s3 & -> & C3 & G3). mred. pose proof C3 as [_ _ M3 L3 N3 _ _]. pose proof (G3 n) as A3. rewrite Z.eqb_refl in A3.
  destruct (make_leaf_ok s3 (Some n) (fst high) (snd high)) as (s4 & d4 & -> & C4 & G4); [lia|lia|by rewrite A3|]. mred. pose proof C4 as [_ _ M4 L4 N4 _ _].
  pose proof (G4 n) as A4. rewrite (proj2 (Z.eqb_neq _ n)), A3 in A4 by lia.
  destruct (update_node_ok s4 n _ (with_child1 (Some (kd_node_count s3))) A4) as (s5 & -> & C5 & G5). mred. pose proof C5 as [_ _ M5 L5 N5 _ _]. pose proof (G5 n) as A5. rewrite Z.eqb_refl in A5.
  destruct (update_node_ok s5 n _ (with_leaf false) A5) as (s6 & -> & C6 & G6). mred. pose proof (G6 n) as A6. rewrite Z.eqb_refl in A6.
  eexists. split; [done|]. split.
  - assert (C : changes self s6 [n] 2 2).
    { change 2 with (0 + (1 + (0 + (1 + (0 + 0))))). eapply kd_changes_trans; [lia|exact C1|]. eapply kd_changes_trans; [lia|eapply changes_more; [|exact C2]; by intros j Hj%not_elem_of_nil|].
      eapply kd_changes_trans; [lia|exact C3|]. eapply kd_changes_trans; [lia|eapply changes_more; [|exact C4]; by intros j Hj%not_elem_of_nil|]. by eapply kd_changes_trans; [|exact C5|]. }
    destruct C. split; try done; cbn; lia.
  - cbn [repr tid kd_nodes set_kd_counts]. split; [|split].
    + eexists. split; [exact A6|]. cbn. split_and!; try done; f_equal; lia.
    + assert (E : aget (kd_nodes s6) (kd_node_count self) = Some (mkKdNode true d2 0 f_zero (fst low) (snd low) 0 None None)).
      { rewrite G6, (proj2 (Z.eqb_neq n _)), G5, (proj2 (Z.eqb_neq n _)), G4, (proj2 (Z.eqb_neq _ (kd_node_count self))), G3, (proj2 (Z.eqb_neq n _)), G2 by lia. rewrite (proj2 (Z.eqb_eq _ _)) by lia. done. }
      by eexists.
    + assert (E : aget (kd_nodes s6) (kd_node_count self + 1) = Some (mkKdNode true d4 0 f_zero (fst high) (snd high) 0 None None)).
      { rewrite G6, (proj2 (Z.eqb_neq n _)), G5, (proj2 (Z.eqb_neq n _)), G4 by lia. rewrite (proj2 (Z.eqb_eq _ _)) by lia. done. }
      by eexists.
Qed.

Lemma insert_node_ok t : forall fuel self parent key value, placed self t -> ordered t -> small_key key -> (height t + 1 < fuel)%nat ->
  kd_node_count self + 2 <= kd_node_max_count self -> alen (kd_nodes self) = kd_node_max_count self ->
  let fresh := if bool_decide (is_Some (leaves t !! key)) then 0 else 1 in
  exists self', pf_kdtree_insert_node fuel self parent (Some (tid t)) key value = Some (self', tid t) /\
    changes self self' (tids t) (2 * fresh) fresh /\ repr (kd_nodes self') (tinsert (kd_node_count self) key value t).
Proof.
  induction t as [i k v|i d p l IHl r IHr]; intros fuel self parent key value Hpl Ho Hk Hf Hmax Hlen fresh; (destruct fuel as [|fuel]; [lia|]); cbn [pf_kdtree_insert_node tid]; destruct Hpl as (Hr & Hnd & Hids).
  - destruct Hr as (nd & End & El & Ek & Ev). rewrite End. mred. rewrite El, key_equal, Ek, Ev. cbn [tinsert]. unfold fresh. clear fresh. cbn [leaves]. case_bool_decide as Hkey.
    + subst k. rewrite decide_True by done. rewrite bool_decide_eq_true_2 by (by rewrite Hkey, lookup_singleton_eq).
      destruct (update_node_ok self i nd (with_value (fadd v value)) End) as (s1 & -> & C1 & G1). mred. exists s1. split; [done|]. split; [exact C1|].
      eexists. split; [rewrite G1, Z.eqb_refl; done|]. done.
    + rewrite decide_False by done. rewrite lookup_singleton_ne by done. rewrite bool_decide_eq_false_2 by (by intros []).
      destruct (choose_pivot_ok key k Hk Ho Hkey) as (d & p & -> & Hd & _). mred. destruct (key_at_some key d Hd) as [x Ex]. unfold goes_left. rewrite Ex. mred.
      assert (Hi : 0 <= i < kd_node_count self) by (apply Hids; by left).
      destruct (flt (f_of_Z x) p); cbn beta iota.
      * apply (split_ok fuel self i nd d p (key, value) (k, v)); try done. lia.
      * apply (split_ok fuel self i nd d p (k, v) (key, value)); try done. lia.
  - destruct Hr as ((nd & End & El & Ed & Ep & E0 & E1) & Hrl & Hrr). rewrite End. mred. rewrite El, E0, E1, Ed, Ep. mred. cbn [tids] in Hnd, Hids. apply NoDup_cons in Hnd as [Hni Hnd]. apply NoDup_app in Hnd as (Hndl & Hdis & Hndr).
    pose proof (leaves_side i d p l r key Ho) as Hside. destruct Ho as (Hd & Hl & Hr & Hol & Hor). cbn [tinsert]. destruct (key_at_some key d Hd) as [x Ex]. unfold goes_left in *. rewrite Ex in *. mred. cbn [height] in Hf.
    destruct (flt (f_of_Z x) p) eqn:Eside.
    + assert (Hin : forall j, j ∈ tids l -> j ∈ i :: tids l ++ tids r) by (intros j Hj; right; apply elem_of_app; by left).
      destruct (IHl fuel self (Some i) key value) as (s1 & -> & C1 & R1); [split_and!; auto|done|done|lia|done|done|]. mred.
      exists s1. split; [done|]. unfold fresh. rewrite Hside. split; [by apply (changes_more _ _ (tids l))|]. cbn [repr].
      split; [exists nd; split; [|split_and!; try done; by rewrite (ins_tid _ _ _ _ _ (tinsert_ok _ key value l Hol Hk))]|split; [done|]].
      * rewrite (ch_frame _ _ _ _ _ C1); [done|apply Hids; by left|]. intros Hj. apply Hni, elem_of_app. by left.
      * apply (repr_frame _ _ _ Hrr). intros j Hj. apply (ch_frame _ _ _ _ _ C1); [apply Hids; right; apply elem_of_app; by right|]. intros Hj'. by apply (Hdis j Hj').
    + assert (Hin : forall j, j ∈ tids r -> j ∈ i :: tids l ++ tids r) by (intros j Hj; right; apply elem_of_app; by right).
      destruct (IHr fuel self (Some i) key value) as (s1 & -> & C1 & R1); [split_and!; auto|done|done|lia|done|done|]. mred.
      exists s1. split; [done|]. unfold fresh. rewrite Hside. split; [by apply (changes_more _ _ (tids r))|]. cbn [repr].
      split; [exists nd; split; [|split_and!; try done; by rewrite (ins_tid _ _ _ _ _ (tinsert_ok _ key value r Hor Hk))]|split; [|done]].
      * rewrite (ch_frame _ _ _ _ _ C1); [done|apply Hids; by left|]. intros Hj. apply Hni, elem_of_app. by right.
      * apply (repr_frame _ _ _ Hrl). intros j Hj. apply (ch_frame _ _ _ _ _ C1); [apply Hids; right; apply elem_of_app; by left|]. intros Hj'. by apply (Hdis j Hj).
Qed.

Lemma find_node_ok t : forall fuel self key, repr (kd_nodes self) t -> ordered t -> (height t < fuel)%nat ->
  pf_kdtree_find_node fuel self (Some (tid t)) key = Some (fst <$> leaves t !! key).
Proof.
  induction t as [i k v|i d p l IHl r IHr]; intros fuel self key Hr Ho Hf; (destruct fuel as [|fuel]; [lia|]); cbn [pf_kdtree_find_node tid]; mred.
  - destruct Hr as (nd & -> & El & Ek & _). mred. rewrite El, key_equal, Ek. cbn [leaves]. case_bool_decide as Hkey; [by rewrite Hkey, lookup_singleton_eq|by rewrite lookup_singleton_ne].
  - pose proof (leaves_side i d p l r key Ho) as Hside. destruct Hr as ((nd & -> & El & Ed & Ep & E0 & E1) & Hrl & Hrr). mred. rewrite El, E0, E1, Ed, Ep. mred. destruct Ho as (Hd & _ & _ & Hol & Hor).
    destruct (key_at_some key d Hd) as [x Ex]. unfold goes_left in Hside. rewrite Ex in *. mred. rewrite Hside. cbn [height] in Hf. destruct (flt (f_of_Z x) p); [apply IHl|apply IHr]; done || lia.
Qed.

(** ** The tree as a histogram *)

(** A value added to the cell of a key. *)
Definition hist_add (key : Key) (v : spec_float) (h : gmap Key spec_float) : gmap Key spec_float :=
  <[key := match h !! key with Some v' => fadd v' v | None => v end]> h.

Definition kd_hist (t : option Tree) : gmap Key spec_float := match t with None => ∅ | Some t => snd <$> leaves t end.

Record kd_ok (self : pf_kdtree_t) (t : option Tree) : Prop := {
  ko_len : alen (kd_nodes self) = kd_node_max_count self;
  ko_root : kd_root self = tid <$> t;
  ko_count : kd_leaf_count self = Z.of_nat (size (kd_hist t));
  ko_tree : match t with
    | None => kd_node_count self = 0
    | Some t => repr (kd_nodes self) t /\ ordered t /\ tids t ≡ₚ zrange 0 (kd_node_count self) /\ kd_node_count self = 2 * kd_leaf_count self - 1
    end;
}.

Lemma height_ids t : (height t < length (tids t))%nat.
Proof. induction t; cbn [height tids length]; [lia|]. rewrite length_app. lia. Qed.

Lemma zrange_NoDup lo hi : NoDup (zrange lo hi).
Proof. unfold zrange. apply NoDup_fmap_2; [intros x y; lia|apply NoDup_seq]. Qed.

Lemma kd_ok_placed self t : kd_ok self (Some t) -> placed self t /\ ordered t /\ (height t + 1 < kd_fuel self)%nat /\ 0 < kd_node_count self.
Proof.
  intros [_ _ _ (Hr & Ho & Hp & _)]. pose proof (height_ids t) as Hh. rewrite (Permutation_length Hp), zrange_length in Hh. split; [|unfold kd_fuel; split_and!; done || lia].
  split; [done|]. split; [rewrite Hp; apply zrange_NoDup|]. intros i. rewrite Hp. apply elem_of_zrange.
Qed.

Lemma find_key_ok self t key : kd_ok self (Some t) -> find_key self key = Some (fst <$> leaves t !! key).
Proof.
  intros Hok. destruct (kd_ok_placed self t Hok) as ((Hr & _) & Ho & Hh & _). unfold find_key. rewrite (ko_root _ _ Hok). apply find_node_ok; try done. lia.
Qed.

(** The insertion adds to the histogram. *)
Lemma kd_insert_ok self t pose key v : kd_ok self t -> pose_key self pose = Some key -> small_key key -> 2 * kd_leaf_count self + 1 <= kd_node_max_count self ->
  exists self' t', pf_kdtree_insert self pose v = Some self' /\ kd_ok self' (Some t') /\ kd_hist (Some t') = hist_add key v (kd_hist t) /\
    kd_size self' = kd_size self /\ kd_node_max_count self' = kd_node_max_count self.
Proof.
  intros Hok Ek Hk Hmax. unfold pf_kdtree_insert. rewrite Ek. mred. pose proof Hok as [Hlen Hroot Hcount Htree]. destruct t as [t|].
  - destruct (kd_ok_placed self t Hok) as (Hpl & Ho & Hh & Hpos). destruct Htree as (Hr & _ & Hp & Hn). rewrite Hroot. cbn [fmap option_fmap option_map].
    destruct (insert_node_ok t (kd_fuel self) self None key v Hpl Ho Hk Hh) as (s1 & -> & C & R); [lia|done|]. mred. pose proof (tinsert_ok (kd_node_count self) key v t Ho Hk) as [It Io Ia Iother Ii _]. destruct C as [Cs Cr Cm Cl Cc Cv _].
    assert (Eh : kd_hist (Some (tinsert (kd_node_count self) key v t)) = hist_add key v (kd_hist (Some t))).
    { apply map_eq. intros k. cbn [kd_hist]. unfold hist_add. rewrite lookup_fmap. destruct (decide (k = key)) as [->|Hne].
      - rewrite lookup_insert_eq, Ia, lookup_fmap. by destruct (leaves t !! key) as [[? ?]|].
      - rewrite lookup_insert_ne by done. rewrite lookup_fmap. by apply Iother. }
    exists (set_kd_root s1 (Some (tid t))), (tinsert (kd_node_count self) key v t). split; [done|]. split; [|done]. split; cbn [kd_nodes kd_node_max_count kd_root kd_leaf_count kd_node_count set_kd_root].
    + congruence.
    + by rewrite <- It.
    + rewrite Cv, Eh, Hcount. unfold hist_add. cbn [kd_hist]. rewrite lookup_fmap. destruct (leaves t !! key) as [[i x]|] eqn:E; cbn [fmap option_fmap option_map].
      * rewrite bool_decide_eq_true_2 by done. rewrite map_size_insert_Some by (by rewrite lookup_fmap, E). lia.
      * rewrite bool_decide_eq_false_2 by (by intros []). rewrite map_size_insert_None by (by rewrite lookup_fmap, E). lia.
    + split; [done|]. split; [done|]. rewrite Cc, Cv. split; [|case_bool_decide; lia]. case_bool_decide; rewrite Ii, Hp.
      * by replace (kd_node_count self + 2 * 0) with (kd_node_count self) by lia.
      * replace (kd_node_count self + 2 * 1) with (kd_node_count self + 1 + 1) by lia. rewrite !zrange_snoc by lia. rewrite <- app_assoc. cbn [app]. rewrite <- !Permutation_middle, app_nil_r. done.
  - rewrite Hroot. cbn [fmap option_fmap option_map]. unfold kd_fuel. rewrite Htree. change (Z.to_nat 0 + 2)%nat with 2%nat. cbn [pf_kdtree_insert_node]. cbn [kd_hist] in Hcount. rewrite map_size_empty in Hcount.
    destruct (make_leaf_ok self None key v) as (s1 & d & -> & C & G); [lia|done|done|]. mred. destruct C as [Cs Cr Cm Cl Cc Cv _].
    exists (set_kd_root s1 (Some (kd_node_count self))), (TLeaf (kd_node_count self) key v). split; [done|].
    split; [|split; [cbn [kd_hist leaves]; unfold hist_add; rewrite lookup_empty, map_fmap_singleton; done|done]]. split; cbn [kd_nodes kd_node_max_count kd_root kd_leaf_count kd_node_count set_kd_root].
    + congruence.
    + done.
    + cbn [kd_hist leaves]. rewrite map_fmap_singleton, map_size_singleton. lia.
    + split; [|split; [done|split; [|lia]]].
      * cbn [repr]. eexists. split; [by rewrite G, Z.eqb_refl|done].
      * rewrite Cc, Htree. done.
Qed.

(** ** Clusters are connected components *)

(** Cells at most one step apart in every dimension. *)
Definition near (a b : Key) : Prop :=
  let '(a0, a1, a2) := a in let '(b0, b1, b2) := b in Z.abs (a0 - b0) <= 1 /\ Z.abs (a1 - b1) <= 1 /\ Z.abs (a2 - b2) <= 1.

Definition linked {A} (h : gmap Key A) (a b : Key) : Prop := is_Some (h !! a) /\ is_Some (h !! b) /\ near a b.
Definition connected {A} (h : gmap Key A) : Key -> Key -> Prop := rtc (linked h).

Lemma kd_linked_sym {A} (h : gmap Key A) a b : linked h a b -> linked h b a.
Proof. destruct a as [[a0 a1] a2], b as [[b0 b1] b2]. intros (Ha & Hb & Hn). split; [done|]. split; [done|]. cbn in *. lia. Qed.

Lemma connected_sym {A} (h : gmap Key A) a b : connected h a b -> connected h b a.
Proof. induction 1 as [|a b c Hl _ IH]; [apply rtc_refl|]. eapply rtc_r; [exact IH|by apply kd_linked_sym]. Qed.

Lemma near_axis x y : Z.abs x < 2 ^ 30 -> 0 <= y <= 2 -> checked_s32 (x + y) = Some (x + y) /\ checked_s32 (x + y - 1) = Some (x + y - 1).
Proof. intros Hx Hy. split; apply checked_s32_ok; unfold is_s32; lia. Qed.

Lemma neighbour_ok k i : small_key k -> 0 <= i < 27 -> exists k', neighbour_key k i = Some k' /\ near k k'.
Proof.
  destruct k as [[k0 k1] k2]. intros (H0 & H1 & H2) Hi. unfold neighbour_key.
  assert (Hd : 0 <= i / 9 <= 2 /\ 0 <= i mod 9 / 3 <= 2 /\ 0 <= (i mod 9) mod 3 <= 2) by (Z.to_euclidean_division_equations; lia).
  destruct (near_axis k0 (i / 9) H0 ltac:(lia)) as [-> E0], (near_axis k1 (i mod 9 / 3) H1 ltac:(lia)) as [-> E1], (near_axis k2 ((i mod 9) mod 3) H2 ltac:(lia)) as [-> E2].
  mred. rewrite E0. mred. rewrite E1. mred. rewrite E2. mred. eexists. split; [done|]. cbn. lia.
Qed.

Lemma neighbour_onto k k' : small_key k -> near k k' -> exists i, 0 <= i < 27 /\ neighbour_key k i = Some k'.
Proof.
  destruct k as [[k0 k1] k2], k' as [[n0 n1] n2]. intros (H0 & H1 & H2) (N0 & N1 & N2).
  set (i := (n0 - k0 + 1) * 9 + (n1 - k1 + 1) * 3 + (n2 - k2 + 1)). exists i. assert (Hi : 0 <= i < 27) by lia. split; [done|]. unfold neighbour_key.
  assert (E : i / 9 = n0 - k0 + 1 /\ (i mod 9) / 3 = n1 - k1 + 1 /\ (i mod 9) mod 3 = n2 - k2 + 1) by (Z.to_euclidean_division_equations; lia). destruct E as (-> & -> & ->).
  destruct (near_axis k0 (n0 - k0 + 1) H0 ltac:(lia)) as [-> E0], (near_axis k1 (n1 - k1 + 1) H1 ltac:(lia)) as [-> E1], (near_axis k2 (n2 - k2 + 1) H2 ltac:(lia)) as [-> E2].
  mred. rewrite E0. mred. rewrite E1. mred. rewrite E2. mred. repeat f_equal; lia.
Qed.

Lemma repr_leaf ns t k i v : repr ns t -> leaves t !! k = Some (i, v) -> exists nd, aget ns i = Some nd /\ kn_leaf nd = true /\ kn_key nd = k.
Proof.
  induction t as [j k' v'|j d p l IHl r IHr]; cbn [repr leaves].
  - intros (nd & E & El & Ek & _) [<- [= -> _]]%lookup_singleton_Some. by exists nd.
  - intros (_ & Hl & Hr) [E|[_ E]]%lookup_union_Some_raw; auto.
Qed.

Lemma repr_node ns t i : repr ns t -> ordered t -> i ∈ tids t ->
  exists nd, aget ns i = Some nd /\ (kn_leaf nd = true -> exists v, leaves t !! kn_key nd = Some (i, v)).
Proof.
  induction t as [j k' v'|j d p l IHl r IHr]; cbn [repr tids].
  - intros (nd & E & El & Ek & _) _ ->%list_elem_of_singleton. exists nd. split; [done|]. intros _. exists v'. cbn [leaves]. by rewrite Ek, lookup_singleton_eq.
  - intros ((nd & E & El & _) & Hl & Hr) Ho [->|[Hi|Hi]%elem_of_app]%elem_of_cons.
    + exists nd. split; [done|]. by rewrite El.
    + destruct Ho as (_ & HL & HR & Hol & Hor). destruct (IHl Hl Hol Hi) as (x & Ex & Hx). exists x. split; [done|]. intros Hleaf. destruct (Hx Hleaf) as [v Ev]. exists v. cbn [leaves]. by apply lookup_union_Some_l.
    + pose proof Ho as (_ & HL & HR & Hol & Hor). destruct (IHr Hr Hor Hi) as (x & Ex & Hx). exists x. split; [done|]. intros Hleaf. destruct (Hx Hleaf) as [v Ev]. exists v.
      rewrite (leaves_side _ _ _ _ _ _ Ho), (HR _ _ Ev). done.
Qed.

Lemma repr_cluster ns ns' t i c : repr ns t -> (forall j, aget ns' j = if i =? j then with_cluster c <$> aget ns j else aget ns j) -> repr ns' t.
Proof.
  intros Hr Hg. induction t as [j k v|j d p l IHl r IHr]; cbn [repr] in *.
  - destruct Hr as (nd & E & H). destruct (Z.eqb_spec i j) as [->|Hne].
    + exists (with_cluster c nd). rewrite Hg, Z.eqb_refl, E. split; [done|]. exact H.
    + exists nd. rewrite Hg. by rewrite (proj2 (Z.eqb_neq _ _)).
  - destruct Hr as ((nd & E & H) & Hl & Hr). split; [|auto]. destruct (Z.eqb_spec i j) as [->|Hne].
    + exists (with_cluster c nd). rewrite Hg, Z.eqb_refl, E. split; [done|]. exact H.
    + exists nd. rewrite Hg. by rewrite (proj2 (Z.eqb_neq _ _)).
Qed.

Section clusters.
Context (t : Tree).
Implicit Types (self : pf_kdtree_t) (lab : Key -> Z) (k x y : Key).

Local Abbreviation L := (leaves t).

(** The labels of the leaves. *)
Definition labelled self lab : Prop := kd_ok self (Some t) /\
  forall k i v, L !! k = Some (i, v) -> exists nd, aget (kd_nodes self) i = Some nd /\ kn_leaf nd = true /\ kn_key nd = k /\ kn_cluster nd = lab k.

Definition relabel lab k c : Key -> Z := fun x => if decide (x = k) then c else lab x.

Lemma relabel_same lab k c : relabel lab k c k = c.
Proof. unfold relabel. by rewrite decide_True. Qed.
Lemma relabel_other lab k c x : x <> k -> relabel lab k c x = lab x.
Proof. intros Hne. unfold relabel. by rewrite decide_False. Qed.

Lemma set_label self lab k i v c : labelled self lab -> L !! k = Some (i, v) ->
  exists self', update_node self i (with_cluster c) = Some self' /\ labelled self' (relabel lab k c) /\ kd_params self' = kd_params self /\ kd_node_count self' = kd_node_count self.
Proof.
  intros [Hok Hlab] Ek. destruct (Hlab k i v Ek) as (nd & End & El & Ekey & Ec). destruct (update_node_ok self i nd (with_cluster c) End) as (s1 & -> & C & G). exists s1. split; [done|].
  destruct C as [Cs Cr Cm Cl Cc Cv _]. split; [|split; [unfold kd_params; congruence|lia]]. destruct Hok as [Hlen Hroot Hcount (Hr & Ho & Hp & Hn)]. split.
  - split; try congruence; try lia. split; [|split; [done|split; [by rewrite Cc, Z.add_0_r|lia]]].
    apply (repr_cluster (kd_nodes self) _ t i c Hr). intros j. rewrite G. destruct (Z.eqb_spec i j) as [<-|]; [by rewrite End|done].
  - intros k' i' v' Ek'. destruct (Hlab k' i' v' Ek') as (nd' & End' & El' & Ekey' & Ec'). rewrite G. destruct (Z.eqb_spec i i') as [<-|Hne].
    + rewrite End in End'. injection End' as <-. eexists. split; [done|]. split; [done|]. split; [done|]. cbn. rewrite <- Ekey', Ekey. by rewrite relabel_same.
    + exists nd'. split_and!; try done. rewrite relabel_other; [done|]. intros ->. congruence.
Qed.

Definition unlabelled lab : nat := size (filter (fun k => lab k < 0) (dom L : gset Key)).

Lemma unlabelled_mono lab lab' : (forall x, 0 <= lab x -> 0 <= lab' x) -> (unlabelled lab' <= unlabelled lab)%nat.
Proof. intros Hm. unfold unlabelled. apply subseteq_size. intros x. rewrite !elem_of_filter. intros [Hx ?]. split; [|done]. destruct (Z.lt_ge_cases (lab x) 0); [done|]. specialize (Hm x ltac:(lia)). lia. Qed.

Lemma unlabelled_set lab k c : is_Some (L !! k) -> lab k < 0 -> 0 <= c -> (unlabelled (relabel lab k c) < unlabelled lab)%nat.
Proof.
  intros Hk Hl Hc. unfold unlabelled. apply subset_size. split.
  - intros x. rewrite !elem_of_filter. intros [Hx ?]. split; [|done]. unfold relabel in Hx. destruct (decide (x = k)); [lia|done].
  - intros Hs. assert (Hin : k ∈ filter (fun k => lab k < 0) (dom L)) by (apply elem_of_filter; split; [done|by apply elem_of_dom]).
    apply Hs in Hin. apply elem_of_filter in Hin as [Hx _]. rewrite relabel_same in Hx. lia.
Qed.

(** The labels other than [c] are on whole components. *)
Definition closed_but lab (c : Z) : Prop := forall x y, linked L x y -> 0 <= lab x -> lab x <> c -> lab y = lab x.

(** The label [c] has spread from [k], and the cells it reached have all their
    neighbours labelled. *)
Record spread lab lab' (c : Z) k : Prop := {
  sp_keep x : 0 <= lab x -> lab' x = lab x;
  sp_new x : lab x < 0 -> lab' x = lab x \/ lab' x = c /\ connected L k x /\ forall y, linked L x y -> 0 <= lab' y;
}.

Lemma spread_refl lab c k : spread lab lab c k.
Proof. split; [done|by left]. Qed.

Lemma spread_mono lab lab' c k x : spread lab lab' c k -> 0 <= lab x -> 0 <= lab' x.
Proof. intros [Hk _] Hx. by rewrite Hk. Qed.

Lemma spread_closed lab lab' c k : closed_but lab c -> spread lab lab' c k -> closed_but lab' c.
Proof.
  intros Hc [Hk Hn] x y Hxy Hx Hne. destruct (Z.lt_ge_cases (lab x) 0) as [Hx0|Hx0].
  - destruct (Hn x Hx0) as [E|(E & _)]; [lia|done].
  - rewrite (Hk x ltac:(lia)) in *. pose proof (Hc x y Hxy ltac:(lia) Hne) as E. rewrite Hk by lia. done.
Qed.

(** A neighbour labelled, then spread from. *)
Lemma spread_step lab lab1 lab2 c k y : 0 <= c -> lab k = c -> spread lab lab1 c k -> linked L k y -> lab1 y < 0 -> spread (relabel lab1 y c) lab2 c y ->
  (forall z, linked L y z -> 0 <= lab2 z) -> spread lab lab2 c k.
Proof.
  intros Hc Hk [K1 N1] Hky Hy [K2 N2] Hz. assert (Hm : forall x, 0 <= lab1 x -> lab2 x = lab1 x).
  { intros x Hx. rewrite K2; [|rewrite relabel_other; [done|intros ->; lia]]. apply relabel_other. intros ->. lia. }
  split.
  - intros x Hx. rewrite Hm; [by apply K1|]. by rewrite K1.
  - intros x Hx. destruct (N1 x Hx) as [E|(E & Hcon & Hcl)].
    + destruct (decide (x = y)) as [->|Hne].
      * right. split; [rewrite K2; [by apply relabel_same|by rewrite relabel_same]|]. split; [by apply rtc_once|done].
      * destruct (N2 x) as [E2|(E2 & Hcon & Hcl)]; [rewrite relabel_other by done; lia|left; rewrite E2, relabel_other by done; done|right].
        split; [done|]. split; [by eapply rtc_l|done].
    + right. split; [by rewrite Hm by lia|]. split; [done|]. intros z Hxz. specialize (Hcl z Hxz). by rewrite Hm.
Qed.

Lemma cluster_node_ok fuel : forall self lab k i v c, labelled self lab -> L !! k = Some (i, v) -> lab k = c -> 0 <= c -> closed_but lab c -> (unlabelled lab < fuel)%nat ->
  exists self' lab', pf_kdtree_cluster_node fuel self i = Some self' /\ labelled self' lab' /\ spread lab lab' c k /\ (forall y, linked L k y -> 0 <= lab' y) /\ kd_params self' = kd_params self /\ kd_node_count self' = kd_node_count self.
Proof using Type.
  induction fuel as [|fuel IH]; intros self lab k i v c Hs Ek Hk Hc Hcl Hf; [lia|]. cbn [pf_kdtree_cluster_node].
  assert (Hsk : small_key k) by (destruct Hs as [[_ _ _ (_ & Ho & _)] _]; by apply (ordered_small t k (i, v))).
  match goal with |- context [for_range 0 _ ?b self] => destruct (for_range_inv (fun j self' => exists lab', labelled self' lab' /\ spread lab lab' c k /\
      (forall j' y, 0 <= j' < j -> neighbour_key k j' = Some y -> is_Some (L !! y) -> 0 <= lab' y) /\ kd_params self' = kd_params self /\ kd_node_count self' = kd_node_count self) b 0 (3 * 3 * 3) self)
    as (self' & -> & lab' & Hs' & Hsp & Hnb & Es & En) end.
  - lia.
  - exists lab. split; [done|]. split; [apply spread_refl|]. split; [intros; lia|done].
  - intros j s1 Hj (lab1 & Hs1 & Hsp1 & Hnb1 & Es1 & En1). destruct (proj2 Hs1 k i v Ek) as (nd & -> & _ & Ekey & Ecl). mred. rewrite Ekey.
    assert (Hk1 : lab1 k = c) by (rewrite (sp_keep _ _ _ _ Hsp1); [done|lia]). destruct (neighbour_ok k j Hsk Hj) as (y & Ey & Hnear). rewrite Ey. mred.
    rewrite (find_key_ok s1 t y (proj1 Hs1)). mred. destruct (L !! y) as [[iy vy]|] eqn:Ely; cbn [fmap option_fmap option_map fst].
    + assert (Hky : linked L k y) by (split_and!; [by eexists|by eexists|done]).
      destruct (proj2 Hs1 y iy vy Ely) as (nd2 & -> & El2 & _ & Ecl2). mred. rewrite El2. mred. cbn [assert_ub]. mred. rewrite Ecl2, Ecl, Hk1. destruct (Z.leb_spec 0 (lab1 y)) as [Hy|Hy].
      * assert (E : lab1 y = c).
        { destruct (Z.eq_dec (lab1 y) c) as [|Hne]; [done|]. pose proof (spread_closed _ _ _ _ Hcl Hsp1 y k (kd_linked_sym _ _ _ Hky) Hy Hne). lia. }
        rewrite assert_ub_true by (by apply Z.eqb_eq). mred. exists s1. split; [done|]. exists lab1. split; [done|]. split; [done|]. split; [|done].
        intros j' y' Hj' Ey' Hy'. destruct (Z.eq_dec j' j) as [->|]; [|apply (Hnb1 j' y'); done || lia]. congruence.
      * destruct (set_label s1 lab1 y iy vy c Hs1 Ely) as (s2 & -> & Hs2 & Es2 & En2). mred.
        assert (Hcl2 : closed_but (relabel lab1 y c) c).
        { intros a b Hab Ha Hne. destruct (decide (a = y)) as [->|Hay]; [by rewrite relabel_same in Hne|]. rewrite (relabel_other _ _ _ a) in * by done.
          pose proof (spread_closed _ _ _ _ Hcl Hsp1 a b Hab Ha Hne) as E. rewrite relabel_other; [done|]. intros ->. lia. }
        destruct (IH s2 (relabel lab1 y c) y iy vy c Hs2 Ely (relabel_same _ _ _) Hc Hcl2) as (s3 & lab3 & -> & Hs3 & Hsp3 & Hz & Es3 & En3).
        { pose proof (unlabelled_set lab1 y c ltac:(by eexists) Hy Hc). pose proof (unlabelled_mono lab lab1 (fun x => spread_mono _ _ _ _ x Hsp1)). lia. }
        exists s3. split; [done|]. exists lab3. split; [done|]. split; [by apply (spread_step lab lab1 lab3 c k y)|]. split; [|split; [congruence|congruence]].
        intros j' y' Hj' Ey' Hy'. destruct (Z.eq_dec j' j) as [->|].
        -- assert (y' = y) as -> by congruence. rewrite (sp_keep _ _ _ _ Hsp3); rewrite relabel_same; done.
        -- pose proof (Hnb1 j' y' ltac:(lia) Ey' Hy') as H1. apply (spread_mono _ _ _ _ y' Hsp3). rewrite relabel_other; [done|]. intros ->. lia.
    + exists s1. split; [done|]. exists lab1. split; [done|]. split; [done|]. split; [|done]. intros j' y' Hj' Ey' Hy'. destruct (Z.eq_dec j' j) as [->|]; [|apply (Hnb1 j' y'); done || lia].
      assert (y' = y) as -> by congruence. rewrite Ely in Hy'. by destruct Hy'.
  - exists self', lab'. split; [done|]. split; [done|]. split; [done|]. split; [|done]. intros y (_ & Hy & Hnear). destruct (neighbour_onto k y Hsk Hnear) as (j & Hj & Ej). by apply (Hnb j y).
Qed.
Lemma some_labels self : kd_ok self (Some t) -> exists lab, labelled self lab.
Proof using Type.
  intros Hok. exists (fun k => match L !! k with Some (i, _) => match aget (kd_nodes self) i with Some nd => kn_cluster nd | None => 0 end | None => 0 end). split; [done|].
  intros k i v Ek. pose proof Hok as [_ _ _ (Hr & _)]. destruct (repr_leaf _ t k i v Hr Ek) as (nd & E & El & Ekey). exists nd. split_and!; try done. by rewrite Ek, E.
Qed.

Lemma collect_leaves_ok self : kd_ok self (Some t) ->
  exists self' queue lab, collect_leaves self = Some (self', queue) /\ labelled self' lab /\ kd_params self' = kd_params self /\ kd_node_count self' = kd_node_count self /\
    (forall k i v, L !! k = Some (i, v) -> lab k = -1 /\ i ∈ queue) /\ forall i, i ∈ queue -> exists k v, L !! k = Some (i, v).
Proof using Type.
  intros Hok. destruct (some_labels self Hok) as [lab0 Hlab0]. destruct (kd_ok_placed self t Hok) as (_ & _ & _ & Hpos). unfold collect_leaves.
  match goal with |- context [for_range 0 _ ?b _] => destruct (for_range_inv (fun j '(self', queue) => exists lab, labelled self' lab /\ kd_params self' = kd_params self /\ kd_node_count self' = kd_node_count self /\
      alen queue <= j /\ (forall k i v, L !! k = Some (i, v) -> i < j -> lab k = -1 /\ i ∈ queue) /\ (forall i, i ∈ queue -> exists k v, L !! k = Some (i, v))) b 0 (kd_node_count self) (self, []))
    as ([self' queue] & -> & lab & Hs & Es & En & _ & Hall & Hq) end.
  - lia.
  - exists lab0. split; [done|]. split; [done|]. split; [done|]. split; [done|]. split; [|by intros i Hi%not_elem_of_nil].
    intros k i v Ek Hi. destruct Hlab0 as [[_ _ _ (_ & _ & Hp & _)] _]. pose proof (leaves_ids t k i v Ek) as Hin. rewrite Hp in Hin. apply elem_of_zrange in Hin. lia.
  - intros j [s1 q1] Hj (lab1 & Hs1 & Es1 & En1 & Hl1 & Hall1 & Hq1). pose proof (proj1 Hs1) as [_ _ _ (Hr & Ho & Hp & _)].
    assert (Hin : j ∈ tids t) by (rewrite Hp, En1; by apply elem_of_zrange). destruct (repr_node _ t j Hr Ho Hin) as (nd & Ej & Hleaf). rewrite Ej. mred. destruct (kn_leaf nd) eqn:El.
    + destruct (Hleaf eq_refl) as [v Ev]. destruct (set_label s1 lab1 (kn_key nd) j v (-1) Hs1 Ev) as (s2 & -> & Hs2 & Es2 & En2). mred.
      rewrite assert_ub_true by (apply Z.ltb_lt; lia). mred. rewrite (find_key_ok s2 t _ (proj1 Hs2)), Ev. mred. cbn [fmap option_fmap option_map fst]. rewrite assert_ub_true by (by apply bool_decide_eq_true_2). mred.
      eexists. split; [done|]. exists (relabel lab1 (kn_key nd) (-1)). split; [done|]. split; [congruence|]. split; [congruence|]. split; [unfold alen in *; rewrite length_app; cbn [length]; lia|]. split.
      * intros k i v' Ek Hi. rewrite elem_of_app, list_elem_of_singleton. destruct (decide (k = kn_key nd)) as [->|Hne].
        -- rewrite relabel_same. split; [done|]. right. congruence.
        -- rewrite relabel_other by done. assert (Hij : i <> j).
           { intros ->. destruct (proj2 Hs1 k j v' Ek) as (nd' & E' & _ & Ek' & _). rewrite Ej in E'. injection E' as <-. by apply Hne. }
           destruct (Hall1 k i v' Ek ltac:(lia)) as [-> Hiq]. split; [done|by left].
      * intros i [Hi|Hi%list_elem_of_singleton]%elem_of_app; [by apply Hq1|]. subst i. by eexists _, _.
    + exists (s1, q1). split; [done|]. exists lab1. split; [done|]. split; [done|]. split; [done|]. split; [lia|]. split; [|done]. intros k i v Ek Hi. apply (Hall1 k i v Ek).
      destruct (Z.eq_dec i j) as [->|]; [|lia]. destruct (proj2 Hs1 k j v Ek) as (nd' & E' & El' & _). congruence.
  - exists self', queue, lab. split; [done|]. split; [done|]. split; [done|]. split; [done|]. split; [|done]. intros k i v Ek. apply (Hall k i v Ek).
    destruct Hs as [[_ _ _ (_ & _ & Hp & _)] _]. pose proof (leaves_ids t k i v Ek) as Hin. rewrite Hp, En in Hin. apply elem_of_zrange in Hin. lia.
Qed.

(** The labels below [count] are given to whole components, one each. *)
Record components lab (count : Z) : Prop := {
  cp_count : 0 <= count;
  cp_range x : is_Some (L !! x) -> 0 <= lab x -> lab x < count;
  cp_closed x y : linked L x y -> 0 <= lab x -> lab y = lab x;
  cp_connected x y : is_Some (L !! x) -> is_Some (L !! y) -> 0 <= lab x -> lab x = lab y -> connected L x y;
  cp_used c : 0 <= c < count -> exists x, is_Some (L !! x) /\ lab x = c;
}.

Lemma components_grow lab lab' count k : components lab count -> is_Some (L !! k) -> lab k < 0 -> spread (relabel lab k count) lab' count k ->
  (forall y, linked L k y -> 0 <= lab' y) -> components lab' (count + 1).
Proof using Type.
  intros [Hc Hr Hcl Hco Hu] Hk Hlk Hsp Hz.
  assert (Hkk : lab' k = count) by (rewrite (sp_keep _ _ _ _ Hsp), relabel_same; [done|by rewrite relabel_same]).
  assert (Hold : forall x, 0 <= lab x -> lab' x = lab x).
  { intros x Hx. assert (x <> k) by (intros ->; lia). rewrite (sp_keep _ _ _ _ Hsp); by rewrite relabel_other. }
  assert (Hnew : forall x, lab x < 0 -> 0 <= lab' x -> lab' x = count /\ connected L k x /\ forall y, linked L x y -> 0 <= lab' y).
  { intros x Hx Hx'. destruct (decide (x = k)) as [->|Hne]; [split; [done|split; [apply rtc_refl|done]]|].
    destruct (sp_new _ _ _ _ Hsp x) as [E|?]; [by rewrite relabel_other|rewrite relabel_other in E by done; lia|done]. }
  assert (Hback : forall x y, linked L x y -> lab x < 0 -> lab y < 0).
  { intros x y Hxy Hx. destruct (Z.lt_ge_cases (lab y) 0) as [|Hy]; [done|]. rewrite (Hcl y x (kd_linked_sym _ _ _ Hxy) Hy) in Hx. lia. }
  split.
  - lia.
  - intros x Hxs Hx. destruct (Z.lt_ge_cases (lab x) 0) as [Hx0|Hx0]; [destruct (Hnew x Hx0 Hx) as [-> _]; lia|rewrite Hold by done; pose proof (Hr x Hxs ltac:(lia)); lia].
  - intros x y Hxy Hx. destruct (Z.lt_ge_cases (lab x) 0) as [Hx0|Hx0].
    + destruct (Hnew x Hx0 Hx) as (-> & _ & Hyx). apply (Hnew y (Hback x y Hxy Hx0) (Hyx y Hxy)).
    + pose proof (Hcl x y Hxy ltac:(lia)) as E. rewrite (Hold x), (Hold y) by lia. done.
  - intros x y Hxs Hys Hx E. destruct (Z.lt_ge_cases (lab x) 0) as [Hx0|Hx0], (Z.lt_ge_cases (lab y) 0) as [Hy0|Hy0].
    + destruct (Hnew x Hx0 Hx) as (_ & Hkx & _), (Hnew y Hy0 ltac:(lia)) as (_ & Hky & _). etrans; [by apply connected_sym|done].
    + destruct (Hnew x Hx0 Hx) as (Ex & _). rewrite (Hold y ltac:(lia)) in E. pose proof (Hr y Hys ltac:(lia)). lia.
    + destruct (Hnew y Hy0 ltac:(lia)) as (Ey & _). rewrite (Hold x ltac:(lia)) in E. pose proof (Hr x Hxs ltac:(lia)). lia.
    + rewrite !Hold in E by lia. by apply Hco.
  - intros c Hcr. destruct (Z.eq_dec c count) as [->|]; [by exists k|]. destruct (Hu c ltac:(lia)) as (x & Hxs & Ex). exists x. split; [done|]. rewrite Hold; lia.
Qed.

Lemma kd_cluster_ok self : kd_ok self (Some t) ->
  exists self' lab count, pf_kdtree_cluster self = Some self' /\ labelled self' lab /\ components lab count /\ (forall x, is_Some (L !! x) -> 0 <= lab x) /\ kd_params self' = kd_params self.
Proof using Type.
  intros Hok. unfold pf_kdtree_cluster. destruct (collect_leaves_ok self Hok) as (s1 & queue & lab1 & -> & Hs1 & Es1 & En1 & Hall & Hq). mred.
  match goal with |- context [for_range 0 _ ?b _] => destruct (for_range_inv (fun j '(self', count) => exists lab, labelled self' lab /\ kd_params self' = kd_params self /\ components lab count /\
      forall j' i k v, alen queue - j <= j' -> aget queue j' = Some i -> L !! k = Some (i, v) -> 0 <= lab k) b 0 (alen queue) (s1, 0))
    as ([self' count] & -> & lab & Hs & Es & Hc & Hd) end.
  - apply alen_nonneg.
  - exists lab1. split; [done|]. split; [done|]. assert (Hneg : forall x, is_Some (L !! x) -> lab1 x = -1) by (intros x [[i v] Ex]; by apply (Hall x i v)). split.
    + split; [done| | | |lia].
      * intros x Hx. rewrite Hneg by done. lia.
      * intros x y (Hx & _). rewrite Hneg by done. lia.
      * intros x y Hx Hy. rewrite Hneg by done. lia.
    + intros j' i k v Hj Ei Ek. apply aget_bounds in Ei. lia.
  - intros j [s2 count] Hj (lab & Hs & Es & Hc & Hd). destruct (aget_is_Some queue (alen queue - 1 - j)) as [i Ei]; [lia|]. rewrite Ei. mred.
    destruct (Hq i (aget_elem _ _ _ Ei)) as (k & v & Ek). destruct (proj2 Hs k i v Ek) as (nd & End & _ & _ & Ecl). rewrite End. mred. rewrite Ecl. destruct (Z.leb_spec 0 (lab k)) as [Hk|Hk].
    + eexists. split; [done|]. exists lab. split; [done|]. split; [done|]. split; [done|]. intros j' i' k' v' Hj' Ei' Ek'. destruct (Z.eq_dec j' (alen queue - 1 - j)) as [->|]; [|apply (Hd j' i' k' v'); done || lia].
      assert (i' = i) as -> by congruence. destruct (proj2 Hs k' i v' Ek') as (nd' & End' & _ & Ekey' & _). destruct (proj2 Hs k i v Ek) as (nd2 & End2 & _ & Ekey & _). assert (k' = k) as -> by congruence. done.
    + destruct (set_label s2 lab k i v count Hs Ek) as (s3 & -> & Hs3 & Es3 & En3). mred.
      destruct (cluster_node_ok (kd_fuel s3) s3 (relabel lab k count) k i v count Hs3 Ek) as (s4 & lab4 & -> & Hs4 & Hsp & Hz & Es4 & _).
      * by apply relabel_same.
      * apply Hc.
      * intros x y Hxy Hx Hne. destruct (decide (x = k)) as [->|Hxk]; [by rewrite relabel_same in Hne|]. rewrite (relabel_other _ _ _ x) in * by done.
        pose proof (cp_closed _ _ Hc x y Hxy Hx) as E. rewrite relabel_other; [done|]. intros ->. lia.
      * assert (Hle : (unlabelled (relabel lab k count) <= size (dom L : gset Key))%nat) by (unfold unlabelled; apply subseteq_size; intros x; rewrite elem_of_filter; by intros []).
        rewrite size_dom in Hle. destruct (proj1 Hs3) as [_ _ Hcount (_ & _ & _ & Hn)]. cbn [kd_hist] in Hcount. rewrite map_size_fmap in Hcount. unfold kd_fuel. lia.
      * mred. eexists. split; [done|]. exists lab4. split; [done|]. split; [congruence|]. split; [by apply (components_grow lab lab4 count k)|].
        intros j' i' k' v' Hj' Ei' Ek'. apply (spread_mono _ _ _ _ k' Hsp). destruct (decide (k' = k)) as [->|Hne]; [rewrite relabel_same; apply Hc|]. rewrite relabel_other by done.
        destruct (Z.eq_dec j' (alen queue - 1 - j)) as [->|]; [|apply (Hd j' i' k' v'); done || lia]. exfalso. assert (i' = i) as -> by congruence.
        destruct (proj2 Hs k' i v' Ek') as (nd' & End' & _ & Ekey' & _). destruct (proj2 Hs k i v Ek) as (nd2 & End2 & _ & Ekey & _). apply Hne. congruence.
  - mred. exists self', lab, count. split; [done|]. split; [done|]. split; [done|]. split; [|done]. intros x [[i v] Ex]. destruct (Hall x i v Ex) as [_ Hiq]. destruct (elem_aget _ _ Hiq) as [j Ej].
    apply (Hd j i x v); [|done|done]. apply aget_bounds in Ej. lia.
Qed.
End clusters.

(** ** The histogram through its interface *)

(** The tree holds the histogram [h]. *)
Definition represents (self : pf_kdtree_t) (h : gmap Key spec_float) : Prop := exists t, kd_ok self t /\ h = kd_hist t.

(** Poses inserted one after the other, with their weights. *)
Fixpoint insert_all (self : pf_kdtree_t) (samples : list (pf_vector_t * spec_float)) : option pf_kdtree_t :=
  match samples with [] => Some self | s :: samples => self ← pf_kdtree_insert self (fst s) (snd s); insert_all self samples end.

(** The cells of a list of samples, as the tree [self] sees them. *)
Definition cells_of (self : pf_kdtree_t) (samples : list (pf_vector_t * spec_float)) (keys : list Key) : Prop :=
  Forall2 (fun s k => pose_key self (fst s) = Some k /\ small_key k) samples keys.

Definition hist_of (keys : list Key) (values : list spec_float) (h : gmap Key spec_float) : gmap Key spec_float :=
  foldl (fun h kv => hist_add (fst kv) (snd kv) h) h (zip keys values).

Lemma pose_key_size self self' pose : kd_size self' = kd_size self -> pose_key self' pose = pose_key self pose.
Proof. intros E. unfold pose_key, pose_coordinate. by rewrite E. Qed.

Lemma hist_add_size k v h : (size (hist_add k v h) <= S (size h))%nat.
Proof. unfold hist_add. destruct (h !! k) eqn:E; [rewrite map_size_insert_Some by done; lia|rewrite map_size_insert_None by done; lia]. Qed.

Lemma insert_all_ok samples : forall keys self t, kd_ok self t -> cells_of self samples keys -> 2 * (kd_leaf_count self + alen samples) <= kd_node_max_count self + 1 ->
  exists self' t', insert_all self samples = Some self' /\ kd_ok self' t' /\ kd_hist t' = hist_of keys (snd <$> samples) (kd_hist t) /\ kd_size self' = kd_size self /\
    kd_leaf_count self' <= kd_leaf_count self + alen samples /\ (samples <> [] -> t' <> None).
Proof.
  induction samples as [|s samples IH]; intros keys self t Hok Hc Hmax.
  - apply Forall2_nil_inv_l in Hc as ->. exists self, t. split_and!; try done. unfold alen. cbn [length]. lia.
  - apply Forall2_cons_inv_l in Hc as (k & keys' & [Ek Hk] & Hc & ->). assert (Ha : alen (s :: samples) = 1 + alen samples) by (unfold alen; cbn [length]; lia). pose proof (alen_nonneg samples).
    destruct (kd_insert_ok self t (fst s) k (snd s) Hok Ek Hk) as (s1 & t1 & E1 & Hok1 & Eh1 & Es1 & Em1); [lia|]. cbn [insert_all]. rewrite E1. mred.
    assert (Hl1 : kd_leaf_count s1 <= kd_leaf_count self + 1) by (rewrite (ko_count _ _ Hok1), Eh1, (ko_count _ _ Hok); pose proof (hist_add_size k (snd s) (kd_hist t)); lia).
    destruct (IH keys' s1 (Some t1) Hok1) as (s2 & t2 & -> & Hok2 & Eh2 & Es2 & Hl2 & Ht2).
    + apply (Forall2_impl _ _ _ _ Hc). intros s' k' [E' ?]. by rewrite (pose_key_size self s1).
    + lia.
    + exists s2, t2. split; [done|]. split; [done|]. split; [by rewrite Eh2, Eh1|]. split; [congruence|]. split; [lia|]. intros _. destruct samples as [|s' samples]; [|by apply Ht2].
      cbn in *. intros ->. pose proof (ko_count _ _ Hok1) as H1. cbn in Eh2. unfold hist_of in Eh2. destruct keys'; [|by apply Forall2_nil_inv_l in Hc].
      cbn in Eh2. rewrite Eh1 in Eh2. apply (f_equal (fun m => m !! k)) in Eh2. unfold hist_add in Eh2. by rewrite lookup_insert_eq, lookup_empty in Eh2.
Qed.

Lemma repr_value ns t k i v : repr ns t -> leaves t !! k = Some (i, v) -> exists nd, aget ns i = Some nd /\ kn_leaf nd = true /\ kn_key nd = k /\ kn_value nd = v.
Proof.
  induction t as [j k' v'|j d p l IHl r IHr]; cbn [repr leaves].
  - intros (nd & E & El & Ek & Ev) [<- [= <- <-]]%lookup_singleton_Some. by exists nd.
  - intros (_ & Hl & Hr) [E|[_ E]]%lookup_union_Some_raw; auto.
Qed.

(** C8. Whatever the samples, twice as many nodes as samples, less one, are
    enough for all the insertions to pass; the tree then holds the sum of the
    weights of each cell, added in the order of the samples, its leaves are
    the cells met, and a search finds the leaf of a cell or tells that it is
    empty. *)
Theorem histogram_refines max_size samples keys :
  0 <= max_size -> 2 * alen samples <= max_size + 1 -> cells_of (pf_kdtree_alloc max_size) samples keys ->
  let h := hist_of keys (snd <$> samples) ∅ in
  exists self, insert_all (pf_kdtree_alloc max_size) samples = Some self /\ represents self h /\ kd_leaf_count self = Z.of_nat (size h) /\ kd_node_count self < 2 * alen samples + 1 /\
    (samples <> [] -> forall key, exists found, find_key self key = Some found /\
      match found with
      | None => h !! key = None
      | Some n => exists nd, aget (kd_nodes self) n = Some nd /\ kn_leaf nd = true /\ kn_key nd = key /\ h !! key = Some (kn_value nd)
      end).
Proof.
  intros Hmax Hn Hc h. assert (Hok : kd_ok (pf_kdtree_alloc max_size) None) by (split; try done; by apply alen_anew).
  destruct (insert_all_ok samples keys _ None Hok Hc) as (self & t & E & Hok' & Eh & Es & Hl & Hne); [cbn; lia|]. cbn [kd_hist] in Eh. fold h in Eh.
  exists self. split; [done|]. split; [by exists t|]. pose proof (ko_count _ _ Hok') as Hcount. rewrite Eh in Hcount. split; [done|]. cbn [kd_leaf_count pf_kdtree_alloc] in Hl. split.
  - destruct t as [t|]; [destruct (ko_tree _ _ Hok') as (_ & _ & _ & ->); lia|]. rewrite (ko_tree _ _ Hok'). pose proof (alen_nonneg samples). lia.
  - intros Hs key. destruct t as [t|]; [|by destruct (Hne Hs)]. rewrite (find_key_ok self t key Hok'). rewrite <- Eh. cbn [kd_hist]. rewrite lookup_fmap. eexists. split; [done|].
    destruct (leaves t !! key) as [[i v]|] eqn:El; cbn [fmap option_fmap option_map fst snd]; [|done]. destruct (ko_tree _ _ Hok') as (Hr & _).
    destruct (repr_value _ t key i v Hr El) as (nd & End & Hleaf & Hkey & Hv). exists nd. split_and!; try done. by rewrite Hv.
Qed.

Lemma linked_hist t a b : linked (leaves t) a b <-> linked (kd_hist (Some t)) a b.
Proof. unfold linked. cbn [kd_hist]. rewrite !lookup_fmap, !fmap_is_Some. done. Qed.

Lemma connected_hist t a b : connected (leaves t) a b <-> connected (kd_hist (Some t)) a b.
Proof. split; (induction 1 as [|x y z Hl _ IH]; [apply rtc_refl|eapply rtc_l; [by apply linked_hist|exact IH]]). Qed.

(** C9. Clustering ends and passes all its assertions on every tree that holds
    a histogram; it keeps the histogram. Two poses in cells met by samples
    then have the same label exactly when their cells are connected by steps
    between neighbouring cells met; the labels are the integers from 0 below a
    count, each of them that of some cell met, and a pose of another cell gets
    -1. *)
Theorem pf_kdtree_cluster_components self h : represents self h -> h <> ∅ ->
  exists self' count, pf_kdtree_cluster self = Some self' /\ represents self' h /\
    (forall pose k, pose_key self pose = Some k -> exists c, pf_kdtree_get_cluster self' pose = Some c /\ if bool_decide (is_Some (h !! k)) then 0 <= c < count else c = -1) /\
    (forall pose pose' k k', pose_key self pose = Some k -> pose_key self pose' = Some k' -> is_Some (h !! k) -> is_Some (h !! k') ->
      pf_kdtree_get_cluster self' pose = pf_kdtree_get_cluster self' pose' <-> connected h k k') /\
    (forall c, 0 <= c < count -> exists k n nd, is_Some (h !! k) /\ find_key self' k = Some (Some n) /\ aget (kd_nodes self') n = Some nd /\ kn_cluster nd = c /\
      forall pose, pose_key self pose = Some k -> pf_kdtree_get_cluster self' pose = Some c).
Proof.
  intros ([t|] & Hok & ->) Hne; [|done]. destruct (kd_cluster_ok t self Hok) as (self' & lab & count & E & Hs & Hc & Hall & Es).
  exists self', count. split; [done|]. split; [by exists (Some t); split; [apply Hs|]|].
  assert (Hget : forall pose k, pose_key self pose = Some k -> pf_kdtree_get_cluster self' pose = Some (match leaves t !! k with Some _ => lab k | None => -1 end)).
  { intros pose k Ek. unfold pf_kdtree_get_cluster. rewrite (pose_key_size self self') by (unfold kd_params in Es; congruence). rewrite Ek. mred. rewrite (find_key_ok self' t k (proj1 Hs)). mred.
    destruct (leaves t !! k) as [[i v]|] eqn:El; cbn [fmap option_fmap option_map fst]; [|done]. destruct (proj2 Hs k i v El) as (nd & -> & _ & _ & Ec). mred. by rewrite Ec. }
  split_and!.
  - intros pose k Ek. rewrite (Hget pose k Ek). eexists. split; [done|]. cbn [kd_hist]. rewrite lookup_fmap. destruct (leaves t !! k) as [[i v]|] eqn:El; cbn [fmap option_fmap option_map].
    + rewrite bool_decide_eq_true_2 by done. split; [by apply Hall|apply (cp_range _ _ _ Hc); [by eexists|by apply Hall]].
    + by rewrite bool_decide_eq_false_2 by (by intros []).
  - intros pose pose' k k' Ek Ek' Hk Hk'. cbn [kd_hist] in Hk, Hk'. rewrite lookup_fmap, fmap_is_Some in Hk, Hk'. rewrite (Hget pose k Ek), (Hget pose' k' Ek'), <- connected_hist.
    destruct (leaves t !! k) as [x|] eqn:El; [|by destruct Hk]. destruct (leaves t !! k') as [x'|] eqn:El'; [|by destruct Hk']. split.
    + intros [= Elab]. apply (cp_connected _ _ _ Hc); [by eexists|by eexists|apply Hall; by eexists|done].
    + intros Hcon. f_equal. clear Ek Ek' El El' Hk Hk'. induction Hcon as [|a b c Hab _ IH]; [done|]. rewrite <- IH. symmetry. apply (cp_closed _ _ _ Hc a b Hab), Hall, Hab.
  - intros c Hcc. destruct (cp_used _ _ _ Hc c Hcc) as (k & [[i v] El] & <-). destruct (proj2 Hs k i v El) as (nd & En & _ & _ & Ec). exists k, i, nd. cbn [kd_hist].
    rewrite lookup_fmap, (find_key_ok self' t k (proj1 Hs)), El. split_and!; try done. intros pose Ek. rewrite (Hget pose k Ek). by rewrite El.
Qed.

(** ** The operations through the histogram *)

Lemma represents_count self h : represents self h -> kd_leaf_count self = Z.of_nat (size h).
Proof. intros (t & Hok & ->). apply Hok. Qed.

Lemma represents_len self h : represents self h -> alen (kd_nodes self) = kd_node_max_count self.
Proof. intros (t & Hok & _). apply Hok. Qed.

Lemma alloc_represents max : 0 <= max -> represents (pf_kdtree_alloc max) ∅.
Proof. intros Hm. exists None. split; [|done]. split; try done. by apply alen_anew. Qed.

Lemma clear_represents self h : represents self h -> represents (pf_kdtree_clear self) ∅.
Proof. intros Hr%represents_len. exists None. by split. Qed.

Lemma insert_represents self h pose key v : represents self h -> pose_key self pose = Some key -> small_key key -> 2 * kd_leaf_count self + 1 <= kd_node_max_count self ->
  exists self', pf_kdtree_insert self pose v = Some self' /\ represents self' (hist_add key v h) /\ kd_params self' = kd_params self.
Proof.
  intros (t & Hok & ->) Ek Hk Hm. destruct (kd_insert_ok self t pose key v Hok Ek Hk Hm) as (self' & t' & E & Hok' & Eh & Es & Em). exists self'. split; [done|]. split; [by exists (Some t')|]. unfold kd_params. congruence.
Qed.

Lemma cluster_represents self h : represents self h ->
  exists self', pf_kdtree_cluster self = Some self' /\ represents self' h /\ kd_params self' = kd_params self /\
    forall pose k, pose_key self pose = Some k -> is_Some (h !! k) -> exists c, pf_kdtree_get_cluster self' pose = Some c /\ 0 <= c.
Proof.
  intros ([t|] & Hok & ->).
  - destruct (kd_cluster_ok t self Hok) as (self' & lab & count & E & Hs & _ & Hall & Es). exists self'. split; [done|]. split; [by exists (Some t); split; [apply Hs|]|]. split; [done|].
    intros pose k Ek Hk. exists (lab k). cbn [kd_hist] in Hk. rewrite lookup_fmap, fmap_is_Some in Hk. split; [|by apply Hall]. unfold pf_kdtree_get_cluster.
    rewrite (pose_key_size self self') by (unfold kd_params in Es; congruence). rewrite Ek. mred. rewrite (find_key_ok self' t k (proj1 Hs)). mred. destruct Hk as [[i v] El]. rewrite El. cbn [fmap option_fmap option_map fst].
    destruct (proj2 Hs k i v El) as (nd & -> & _ & _ & Ec). mred. by rewrite Ec.
  - exists self. split; [|split; [by exists None|split; [done|]]].
    + unfold pf_kdtree_cluster, collect_leaves. rewrite (ko_tree _ _ Hok). rewrite for_range_nil by done. mred. by rewrite for_range_nil by done.
    + intros pose k _ []. cbn [kd_hist] in *. by rewrite lookup_empty in *.
Qed.

(** ** Examples *)

Lemma get_cluster_empty self pose : kd_root self = None -> pf_kdtree_get_cluster self pose = None.
Proof. intros E. unfold pf_kdtree_get_cluster, find_key, kd_fuel. destruct (pose_key self pose); [|done]. mred. rewrite E. by destruct (Z.to_nat _). Qed.

(** Four poses in three cells, the first two of them neighbours. *)
Definition example_pose (x : Z) : pf_vector_t := mkVector (fdiv (f_of_Z x) (f_of_Z 10)) f_zero f_zero.
Definition example_samples : list (pf_vector_t * spec_float) := (fun x => (example_pose x, f_half)) <$> [1; 3; 25; 7].
Definition example_keys : list Key := [(0, 0, 0); (0, 0, 0); (5, 0, 0); (1, 0, 0)].
Definition example_tree : pf_kdtree_t := default (pf_kdtree_alloc 7) (insert_all (pf_kdtree_alloc 7) example_samples).

Lemma example_cells : cells_of (pf_kdtree_alloc 7) example_samples example_keys.
Proof. repeat constructor; vm_compute; reflexivity. Qed.

Lemma example_tree_represents : represents example_tree (hist_of example_keys (snd <$> example_samples) ∅).
Proof.
  destruct (insert_all_ok example_samples example_keys (pf_kdtree_alloc 7) None) as (self & t & E & Hok & Eh & _); [by split|exact example_cells|by vm_compute|].
  exists t. unfold example_tree. rewrite E. split; [exact Hok|exact (eq_sym Eh)].
Qed.

Lemma histogram_refines_witness : exists self, insert_all (pf_kdtree_alloc 7) example_samples = Some self /\ kd_leaf_count self = 3 /\
  (exists n nd, find_key self (0, 0, 0) = Some (Some n) /\ aget (kd_nodes self) n = Some nd /\ kn_value nd = f_one).
Proof.
  destruct (histogram_refines 7 example_samples example_keys ltac:(done) ltac:(by vm_compute) example_cells) as (self & E & _ & Hl & _ & Hf).
  exists self. split; [exact E|]. split; [rewrite Hl; by vm_compute|]. destruct (Hf ltac:(done) (0, 0, 0)) as (found & Ef & H). destruct found as [n|]; [|vm_compute in H; done].
  destruct H as (nd & En & _ & _ & Ev). exists n, nd. split; [done|]. split; [done|]. assert (Eh : hist_of example_keys (snd <$> example_samples) ∅ !! (0, 0, 0) = Some f_one) by (vm_compute; reflexivity). rewrite Eh in Ev. by injection Ev.
Defined.

Lemma pf_kdtree_cluster_components_witness : exists self' c c', pf_kdtree_cluster example_tree = Some self' /\
  pf_kdtree_get_cluster self' (example_pose 1) = Some c /\ pf_kdtree_get_cluster self' (example_pose 25) = Some c' /\ 0 <= c /\ 0 <= c'.
Proof.
  destruct (pf_kdtree_cluster_components example_tree _ example_tree_represents) as (self' & count & E & _ & Hget & _ & _).
  - intros E. apply (f_equal (fun m => m !! (0, 0, 0))) in E. vm_compute in E. done.
  - exists self'. destruct (Hget (example_pose 1) (0, 0, 0) ltac:(by vm_compute)) as (c & Ec & Hc), (Hget (example_pose 25) (5, 0, 0) ltac:(by vm_compute)) as (c' & Ec' & Hc').
    exists c, c'. split; [exact E|]. split; [exact Ec|]. split; [exact Ec'|]. rewrite bool_decide_eq_true_2 in Hc by (vm_compute; by eexists). rewrite bool_decide_eq_true_2 in Hc' by (vm_compute; by eexists). lia.
Defined.
