(* ===== verification/ParticleFilter.v ===== *)
(** The particle filter of nav2_amcl (pf/pf.c, with the vectors of
    pf/pf_vector.c): the two sample sets, the weighting of the samples by a
    sensor, their resampling and the statistics of their clusters. *)

From stdpp Require Import gmap relations.
From S2P Require Import Prelude Floats Bresenham Footprint FloatOrder KdTree.

(** ** Vectors and matrices *)

Record pf_matrix_t := mkMatrix { m_0 : pf_vector_t; m_1 : pf_vector_t; m_2 : pf_vector_t }.

(** Functions of the C library. *)
Class Libm := {
  m_cos : spec_float -> spec_float;
  m_sin : spec_float -> spec_float;
  m_atan2 : spec_float -> spec_float -> spec_float;
  m_log : spec_float -> spec_float;
}.

Definition pf_vector_zero : pf_vector_t := mkVector f_zero f_zero f_zero.
Definition pf_matrix_zero : pf_matrix_t := mkMatrix pf_vector_zero pf_vector_zero pf_vector_zero.
Definition pf_vector_sub (a b : pf_vector_t) : pf_vector_t := mkVector (fsub (v_0 a) (v_0 b)) (fsub (v_1 a) (v_1 b)) (fsub (v_2 a) (v_2 b)).

Definition pf_vector_coord_add `{Libm} (a b : pf_vector_t) : pf_vector_t :=
  let c2 := fadd (v_2 b) (v_2 a) in
  mkVector (fsub (fadd (v_0 b) (fmul (v_0 a) (m_cos (v_2 b)))) (fmul (v_1 a) (m_sin (v_2 b))))
           (fadd (fadd (v_1 b) (fmul (v_0 a) (m_sin (v_2 b)))) (fmul (v_1 a) (m_cos (v_2 b))))
           (m_atan2 (m_sin c2) (m_cos c2)).

(** ** The data *)

Record pf_sample_t := mkSample { ps_pose : pf_vector_t; ps_weight : spec_float }.

(** The workspace [m[4]], [c[2][2]]. *)
Record Moments := mkMoments {
  mm_0 : spec_float; mm_1 : spec_float; mm_2 : spec_float; mm_3 : spec_float;
  mc_00 : spec_float; mc_01 : spec_float; mc_10 : spec_float; mc_11 : spec_float;
}.

Record pf_cluster_t := mkCluster {
  pc_count : Z;
  pc_weight : spec_float;
  pc_mean : pf_vector_t;
  pc_cov : pf_matrix_t;
  pc_work : Moments;
}.

Record pf_sample_set_t := mkSampleSet {
  sample_count : Z;
  samples : list pf_sample_t;
  kdtree : pf_kdtree_t;
  cluster_count : Z;
  cluster_max_count : Z;
  clusters : list pf_cluster_t;
  set_mean : pf_vector_t;
  set_cov : pf_matrix_t;
  set_converged : bool;
}.

(** The function pointer [random_pose_fn] is an argument of the operation that
    calls it. *)
Record pf_t := mkPf {
  min_samples : Z;
  max_samples : Z;
  pop_err : spec_float;
  pop_z : spec_float;
  current_set : Z;
  sets : list pf_sample_set_t;
  w_slow : spec_float;
  w_fast : spec_float;
  alpha_slow : spec_float;
  alpha_fast : spec_float;
  dist_threshold : spec_float;
  pf_converged : bool;
}.

Definition set_samples (s : pf_sample_set_t) (count : Z) (l : list pf_sample_t) : pf_sample_set_t :=
  mkSampleSet count l (kdtree s) (cluster_count s) (cluster_max_count s) (clusters s) (set_mean s) (set_cov s) (set_converged s).
Definition set_kdtree (s : pf_sample_set_t) (t : pf_kdtree_t) : pf_sample_set_t :=
  mkSampleSet (sample_count s) (samples s) t (cluster_count s) (cluster_max_count s) (clusters s) (set_mean s) (set_cov s) (set_converged s).
Definition set_statistics (s : pf_sample_set_t) (count : Z) (l : list pf_cluster_t) (mean : pf_vector_t) (cov : pf_matrix_t) : pf_sample_set_t :=
  mkSampleSet (sample_count s) (samples s) (kdtree s) count (cluster_max_count s) l mean cov (set_converged s).
Definition set_flag (s : pf_sample_set_t) (b : bool) : pf_sample_set_t :=
  mkSampleSet (sample_count s) (samples s) (kdtree s) (cluster_count s) (cluster_max_count s) (clusters s) (set_mean s) (set_cov s) b.

Definition set_sets (pf : pf_t) (current : Z) (l : list pf_sample_set_t) (converged : bool) : pf_t :=
  mkPf (min_samples pf) (max_samples pf) (pop_err pf) (pop_z pf) current l (w_slow pf) (w_fast pf) (alpha_slow pf) (alpha_fast pf) (dist_threshold pf) converged.
Definition set_averages (pf : pf_t) (slow fast : spec_float) : pf_t :=
  mkPf (min_samples pf) (max_samples pf) (pop_err pf) (pop_z pf) (current_set pf) (sets pf) slow fast (alpha_slow pf) (alpha_fast pf) (dist_threshold pf) (pf_converged pf).

(** The parameters of the number of samples. *)
Definition pf_limits (pf : pf_t) : Z * Z * spec_float * spec_float := (min_samples pf, max_samples pf, pop_err pf, pop_z pf).

(** The set in use, and its replacement. *)
Definition current (pf : pf_t) : option pf_sample_set_t := aget (sets pf) (current_set pf).
Definition put_current (pf : pf_t) (s : pf_sample_set_t) : option pf_t := l ← aset (sets pf) (current_set pf) s; Some (set_sets pf (current_set pf) l (pf_converged pf)).

Section filter.
Context `{Libm}.

(** ** Cluster statistics *)

Definition zero_moments : Moments := mkMoments f_zero f_zero f_zero f_zero f_zero f_zero f_zero f_zero.

(** The sums of a sample's contributions. *)
Definition add_moments (w : Moments) (s : pf_sample_t) : Moments :=
  let p := ps_pose s in let wt := ps_weight s in
  mkMoments (fadd (mm_0 w) (fmul wt (v_0 p))) (fadd (mm_1 w) (fmul wt (v_1 p))) (fadd (mm_2 w) (fmul wt (m_cos (v_2 p)))) (fadd (mm_3 w) (fmul wt (m_sin (v_2 p))))
    (fadd (mc_00 w) (fmul (fmul wt (v_0 p)) (v_0 p))) (fadd (mc_01 w) (fmul (fmul wt (v_0 p)) (v_1 p)))
    (fadd (mc_10 w) (fmul (fmul wt (v_1 p)) (v_0 p))) (fadd (mc_11 w) (fmul (fmul wt (v_1 p)) (v_1 p))).

Definition moments_mean (w : Moments) (weight : spec_float) : pf_vector_t :=
  mkVector (fdiv (mm_0 w) weight) (fdiv (mm_1 w) weight) (m_atan2 (mm_3 w) (mm_2 w)).

Definition moments_cov (w : Moments) (weight : spec_float) (mean : pf_vector_t) : pf_matrix_t :=
  mkMatrix (mkVector (fsub (fdiv (mc_00 w) weight) (fmul (v_0 mean) (v_0 mean))) (fsub (fdiv (mc_01 w) weight) (fmul (v_0 mean) (v_1 mean))) f_zero)
           (mkVector (fsub (fdiv (mc_10 w) weight) (fmul (v_1 mean) (v_0 mean))) (fsub (fdiv (mc_11 w) weight) (fmul (v_1 mean) (v_1 mean))) f_zero)
           (mkVector f_zero f_zero (fmul (f_of_Z (-2)) (m_log (fsqrt (fadd (fmul (mm_2 w) (mm_2 w)) (fmul (mm_3 w) (mm_3 w))))))).

Definition reset_cluster (c : pf_cluster_t) : pf_cluster_t := mkCluster (pc_count c) f_zero pf_vector_zero pf_matrix_zero zero_moments.
Definition add_to_cluster (c : pf_cluster_t) (s : pf_sample_t) : pf_cluster_t :=
  mkCluster (pc_count c) (fadd (pc_weight c) (ps_weight s)) (pc_mean c) (pc_cov c) (add_moments (pc_work c) s).
Definition normalize_cluster (c : pf_cluster_t) : pf_cluster_t :=
  let mean := moments_mean (pc_work c) (pc_weight c) in mkCluster (pc_count c) (pc_weight c) mean (moments_cov (pc_work c) (pc_weight c) mean) (pc_work c).

Definition update_cluster (f : pf_cluster_t -> pf_cluster_t) (i : Z) (l : list pf_cluster_t) : option (list pf_cluster_t) := c ← aget l i; aset l i (f c).

(** Between two iterations: the clusters, their count, the total weight and
    the sums. *)
Definition accumulate (set : pf_sample_set_t) (i : Z) (st : list pf_cluster_t * Z * spec_float * Moments) : option (list pf_cluster_t * Z * spec_float * Moments) :=
  let '(l, count, weight, work) := st in
  sample ← aget (samples set) i;
  cidx ← pf_kdtree_get_cluster (kdtree set) (ps_pose sample);
  _ ← assert_ub (0 <=? cidx);
  if cluster_max_count set <=? cidx then Some st
  else
    let count := if count <? cidx + 1 then cidx + 1 else count in
    l ← update_cluster (fun c => add_to_cluster c sample) cidx l;
    Some (l, count, fadd weight (ps_weight sample), add_moments work sample).

Definition pf_cluster_stats (set : pf_sample_set_t) : option pf_sample_set_t :=
  tree ← pf_kdtree_cluster (kdtree set);
  let set := set_kdtree set tree in
  l ← for_range 0 (cluster_max_count set) (update_cluster reset_cluster) (clusters set);
  '(l, count, weight, work) ← for_range 0 (sample_count set) (accumulate set) (l, 0, f_zero, zero_moments);
  l ← for_range 0 count (update_cluster normalize_cluster) l;
  let mean := moments_mean work weight in
  Some (set_statistics set count l mean (moments_cov work weight mean)).

(** The answer 0 is [Some None]. *)
Definition pf_get_cluster_stats (pf : pf_t) (clabel : Z) : option (option (spec_float * pf_vector_t * pf_matrix_t)) :=
  set ← current pf;
  if cluster_count set <=? clabel then Some None
  else c ← aget (clusters set) clabel; Some (Some (pc_weight c, pc_mean c, pc_cov c)).

(** ** Creation and initialisation *)

Definition zero_cluster : pf_cluster_t := mkCluster 0 f_zero pf_vector_zero pf_matrix_zero zero_moments.

Definition alloc_set (max : Z) : pf_sample_set_t :=
  mkSampleSet max (anew max (mkSample pf_vector_zero (fdiv f_one (f_of_Z max)))) (pf_kdtree_alloc (3 * max)) 0 max (anew max zero_cluster) pf_vector_zero pf_matrix_zero false.

Definition pf_init_converged (pf : pf_t) : option pf_t :=
  set ← current pf; l ← aset (sets pf) (current_set pf) (set_flag set false); Some (set_sets pf (current_set pf) l false).

Definition pf_alloc (min max : Z) (slow fast : spec_float) : option pf_t :=
  _ ← checked_s32 (3 * max);
  pf_init_converged (mkPf min max (fdiv f_one (f_of_Z 100)) (f_of_Z 3) 0 [alloc_set max; alloc_set max] f_zero f_zero slow fast f_half false).

(** Writes to a sample. *)
Definition put_sample (set : pf_sample_set_t) (i : Z) (s : pf_sample_t) : option pf_sample_set_t := l ← aset (samples set) i s; Some (set_samples set (sample_count set) l).

(** The callbacks draw from the state [G] of the random generator. *)
Definition pf_init_model {G} (pf : pf_t) (init_fn : G -> pf_vector_t * G) (g : G) : option (pf_t * G) :=
  set ← current pf;
  let set := set_samples (set_kdtree set (pf_kdtree_clear (kdtree set))) (max_samples pf) (samples set) in
  '(set, g) ← for_range 0 (sample_count set) (fun i '(set, g) =>
    let '(pose, g) := init_fn g in
    let weight := fdiv f_one (f_of_Z (max_samples pf)) in
    set ← put_sample set i (mkSample pose weight);
    tree ← pf_kdtree_insert (kdtree set) pose weight;
    Some (set_kdtree set tree, g)) (set, g);
  let pf := set_averages pf f_zero f_zero in
  set ← pf_cluster_stats set;
  pf ← put_current pf set;
  pf ← pf_init_converged pf;
  Some (pf, g).

(** ** Convergence *)

(** Whether every sample is near the mean. *)
Definition near_mean (pf : pf_t) (mean_x mean_y : spec_float) (s : pf_sample_t) : bool :=
  negb (fgt (SFabs (fsub (v_0 (ps_pose s)) mean_x)) (dist_threshold pf) || fgt (SFabs (fsub (v_1 (ps_pose s)) mean_y)) (dist_threshold pf)).

Definition pf_update_converged (pf : pf_t) : option (pf_t * bool) :=
  set ← current pf;
  '(mean_x, mean_y) ← for_range 0 (sample_count set) (fun i '(mean_x, mean_y) => s ← aget (samples set) i; Some (fadd mean_x (v_0 (ps_pose s)), fadd mean_y (v_1 (ps_pose s)))) (f_zero, f_zero);
  let mean_x := fdiv mean_x (f_of_Z (sample_count set)) in
  let mean_y := fdiv mean_y (f_of_Z (sample_count set)) in
  b ← for_range 0 (sample_count set) (fun i (b : bool) => if b then s ← aget (samples set) i; Some (near_mean pf mean_x mean_y s) else Some false) true;
  l ← aset (sets pf) (current_set pf) (set_flag set b);
  Some (set_sets pf (current_set pf) l b, b).

(** ** Weighting *)

(** The running average [w] of the likelihood. *)
Definition running (w alpha avg : spec_float) : spec_float := if feq w f_zero then avg else fadd w (fmul alpha (fsub avg w)).

Definition pf_update_sensor (pf : pf_t) (sensor_fn : pf_sample_set_t -> spec_float * pf_sample_set_t) : option pf_t :=
  set ← current pf;
  let '(total, set) := sensor_fn set in
  if fgt total f_zero then
    '(set, w_avg) ← for_range 0 (sample_count set) (fun i '(set, w_avg) =>
      s ← aget (samples set) i; set ← put_sample set i (mkSample (ps_pose s) (fdiv (ps_weight s) total)); Some (set, fadd w_avg (ps_weight s))) (set, f_zero);
    let w_avg := fdiv w_avg (f_of_Z (sample_count set)) in
    put_current (set_averages pf (running (w_slow pf) (alpha_slow pf) w_avg) (running (w_fast pf) (alpha_fast pf) w_avg)) set
  else
    set ← for_range 0 (sample_count set) (fun i set => s ← aget (samples set) i; put_sample set i (mkSample (ps_pose s) (fdiv f_one (f_of_Z (sample_count set))))) set;
    put_current pf set.

(** ** Resampling *)

Definition pf_resample_limit (pf : pf_t) (k : Z) : option Z :=
  if k <=? 1 then Some (max_samples pf)
  else
    let b := fdiv (f_of_Z 2) (fmul (f_of_Z 9) (fsub (f_of_Z k) f_one)) in
    let c := fmul (fsqrt (fdiv (f_of_Z 2) (fmul (f_of_Z 9) (fsub (f_of_Z k) f_one)))) (pop_z pf) in
    let x := fadd (fsub f_one b) c in
    n ← f_to_s32 (fceil (fmul (fmul (fmul (fdiv (f_of_Z (k - 1)) (fmul (f_of_Z 2) (pop_err pf))) x) x) x));
    Some (if n <? min_samples pf then min_samples pf else if max_samples pf <? n then max_samples pf else n).

(** The table of the cumulative weights. *)
Definition cumulative (set : pf_sample_set_t) : option (list spec_float) :=
  c ← aset (anew (sample_count set + 1) S754_nan) 0 f_zero;
  for_range 0 (sample_count set) (fun i c => ci ← aget c i; s ← aget (samples set) i; aset c (i + 1) (fadd ci (ps_weight s))) c.

(** The slot of the table a number falls in; the count when there is none. *)
Definition find_slot (count : Z) (c : list spec_float) (r : spec_float) : option Z :=
  loop (Z.to_nat count + 1) (fun i =>
    if i <? count then
      lo ← aget c i;
      if fle lo r then hi ← aget c (i + 1); Some (if flt r hi then Break i else Next (i + 1)) else Some (Next (i + 1))
    else Some (Break i)) 0.

Section resample.
Context {G : Type} (drand48 : G -> spec_float * G) (random_pose_fn : G -> pf_vector_t * G).

(** The pose of a new sample. *)
Definition draw_pose (set_a : pf_sample_set_t) (c : list spec_float) (w_diff : spec_float) (g : G) : option (pf_vector_t * G) :=
  let '(u, g) := drand48 g in
  if flt u w_diff then Some (random_pose_fn g)
  else
    let '(r, g) := drand48 g in
    i ← find_slot (sample_count set_a) c r;
    _ ← assert_ub (i <? sample_count set_a);
    sample_a ← aget (samples set_a) i;
    _ ← assert_ub (fgt (ps_weight sample_a) f_zero);
    Some (ps_pose sample_a, g).

(** A round of the loop that fills the new set. *)
Definition resample_step (pf : pf_t) (set_a : pf_sample_set_t) (c : list spec_float) (w_diff : spec_float) (st : pf_sample_set_t * spec_float * G) : option (ctl (pf_sample_set_t * spec_float * G)) :=
  let '(set_b, total, g) := st in
  if sample_count set_b <? max_samples pf then
    let i := sample_count set_b in
    let set_b := set_samples set_b (i + 1) (samples set_b) in
    '(pose, g) ← draw_pose set_a c w_diff g;
    set_b ← put_sample set_b i (mkSample pose f_one);
    let total := fadd total f_one in
    tree ← pf_kdtree_insert (kdtree set_b) pose f_one;
    let set_b := set_kdtree set_b tree in
    limit ← pf_resample_limit pf (kd_leaf_count tree);
    Some (if limit <? sample_count set_b then Break (set_b, total, g) else Next (set_b, total, g))
  else Some (Break st).

(** The share of the new poses that are drawn at random. *)
Definition random_share (pf : pf_t) : spec_float := let w_diff := fsub f_one (fdiv (w_fast pf) (w_slow pf)) in if flt w_diff f_zero then f_zero else w_diff.

Definition pf_update_resample (pf : pf_t) (g : G) : option (pf_t * G) :=
  let b := Z.rem (current_set pf + 1) 2 in
  set_a ← current pf;
  set_b ← aget (sets pf) b;
  c ← cumulative set_a;
  let set_b := set_samples (set_kdtree set_b (pf_kdtree_clear (kdtree set_b))) 0 (samples set_b) in
  let w_diff := random_share pf in
  '(set_b, total, g) ← loop (Z.to_nat (max_samples pf) + 1) (resample_step pf set_a c w_diff) (set_b, f_zero, g);
  let pf := if fgt w_diff f_zero then set_averages pf f_zero f_zero else pf in
  set_b ← for_range 0 (sample_count set_b) (fun i set_b => s ← aget (samples set_b) i; put_sample set_b i (mkSample (ps_pose s) (fdiv (ps_weight s) total))) set_b;
  set_b ← pf_cluster_stats set_b;
  l ← aset (sets pf) b set_b;
  '(pf, _) ← pf_update_converged (set_sets pf b l (pf_converged pf));
  Some (pf, g).
End resample.
End filter.

(** ** The table of the cumulative weights *)

(** The sum of the first [j] weights, in their order. *)
Definition weight_sum (l : list pf_sample_t) (j : Z) : spec_float := foldl (fun a s => fadd a (ps_weight s)) f_zero (take (Z.to_nat j) l).

Lemma weight_sum_step l j s : aget l j = Some s -> weight_sum l (j + 1) = fadd (weight_sum l j) (ps_weight s).
Proof.
  intros E. pose proof (aget_bounds _ _ _ E) as Hj. unfold aget in E. rewrite (proj2 (in_array_spec l j) Hj) in E.
  unfold weight_sum. replace (Z.to_nat (j + 1)) with (S (Z.to_nat j)) by lia. by rewrite (take_S_r _ _ _ E), foldl_app.
Qed.

Definition weights_nonneg (set : pf_sample_set_t) : Prop := forall i s, 0 <= i < sample_count set -> aget (samples set) i = Some s -> f64_nonneg (ps_weight s) = true.

Section table.
Context (set : pf_sample_set_t) (Hcount : 0 <= sample_count set <= alen (samples set)).

Local Abbreviation sum := (weight_sum (samples set)).

Lemma weight_sum_nonneg j : weights_nonneg set -> 0 <= j -> j <= sample_count set -> f64_nonneg (sum j) = true.
Proof using Hcount.
  intros Hw H0. revert j H0. refine (natlike_ind _ _ _); [done|]. intros j Hj IH Hle. rewrite <- Z.add_1_r. destruct (aget_is_Some (samples set) j) as [s Es]; [lia|].
  rewrite (weight_sum_step _ _ _ Es). apply fadd_nonneg; [apply IH; lia|]. apply (Hw j s); [lia|done].
Qed.

Lemma cumulative_ok : exists c, cumulative set = Some c /\ alen c = sample_count set + 1 /\ forall j, 0 <= j <= sample_count set -> aget c j = Some (sum j).
Proof using Hcount.
  unfold cumulative. destruct (aset_is_Some (anew (sample_count set + 1) S754_nan) 0 f_zero) as [c0 E0]; [rewrite alen_anew; lia|]. rewrite E0. mred.
  match goal with |- context [for_range 0 _ ?b c0] => destruct (for_range_inv (fun i c => alen c = sample_count set + 1 /\ forall j, 0 <= j <= i -> aget c j = Some (sum j)) b 0 (sample_count set) c0)
    as (c & -> & Hl & Hc) end.
  - lia.
  - rewrite (aset_len _ _ _ _ E0), alen_anew by lia. split; [done|]. intros j Hj. assert (j = 0) as -> by lia. by rewrite (aget_aset _ _ _ _ _ E0).
  - intros i c Hi [Hl Hc]. rewrite (Hc i) by lia. mred. destruct (aget_is_Some (samples set) i) as [s Es]; [lia|]. rewrite Es. mred.
    destruct (aset_is_Some c (i + 1) (fadd (sum i) (ps_weight s))) as [c' Ec']; [lia|]. rewrite Ec'. exists c'. split; [done|]. rewrite (aset_len _ _ _ _ Ec'). split; [done|].
    intros j Hj. rewrite (aget_aset _ _ _ _ _ Ec'). destruct (Z.eqb_spec (i + 1) j) as [<-|]; [by rewrite (weight_sum_step _ _ _ Es)|apply Hc; lia].
  - by exists c.
Qed.

Definition in_slot (r : spec_float) (i : Z) : bool := fle (sum i) r && flt r (sum (i + 1)).

(** The search ends in the first slot of the number, or at the end. *)
Lemma find_slot_ok c r : (forall j, 0 <= j <= sample_count set -> aget c j = Some (sum j)) ->
  exists i, find_slot (sample_count set) c r = Some i /\ 0 <= i <= sample_count set /\ (forall j, 0 <= j < i -> in_slot r j = false) /\ (i < sample_count set -> in_slot r i = true).
Proof using Hcount.
  intros Hc. unfold find_slot.
  match goal with |- context [loop _ ?b 0] => destruct (loop_inv (fun i => 0 <= i <= sample_count set /\ forall j, 0 <= j < i -> in_slot r j = false)
    (fun i => 0 <= i <= sample_count set /\ (forall j, 0 <= j < i -> in_slot r j = false) /\ (i < sample_count set -> in_slot r i = true))
    (fun i => Z.to_nat (sample_count set - i)) b) with (fuel := (Z.to_nat (sample_count set) + 1)%nat) (s := 0) as (i & -> & Hi) end; [|split; [lia|intros; lia]|lia|by exists i].
  intros i [Hi Hno]. destruct (Z.ltb_spec i (sample_count set)) as [Hlt|Hge].
  - assert (Hnext : in_slot r i = false -> (0 <= i + 1 <= sample_count set /\ forall j, 0 <= j < i + 1 -> in_slot r j = false) /\ (Z.to_nat (sample_count set - (i + 1)) < Z.to_nat (sample_count set - i))%nat).
    { intros E. split; [split; [lia|]|lia]. intros j Hj. destruct (Z.eq_dec j i) as [->|]; [done|apply Hno; lia]. }
    rewrite (Hc i) by lia. mred. unfold in_slot in Hnext at 1. destruct (fle (sum i) r) eqn:El; [|eexists; split; [done|by apply Hnext]].
    rewrite (Hc (i + 1)) by lia. mred. destruct (flt r (sum (i + 1))) eqn:Eh; [|eexists; split; [done|by apply Hnext]].
    eexists. split; [done|]. split; [lia|]. split; [done|]. intros _. unfold in_slot. by rewrite El, Eh.
  - eexists. split; [done|]. split; [lia|]. split; [done|]. lia.
Qed.

(** A number below the total is in a slot. *)
Lemma slot_exists r : weights_nonneg set -> f64_nonneg r = true -> flt r (sum (sample_count set)) = true -> exists i, 0 <= i < sample_count set /\ in_slot r i = true.
Proof using Hcount.
  intros Hw Hr Ht. assert (Hall : (forall i, 0 <= i < sample_count set -> in_slot r i = false) -> forall j, 0 <= j -> j <= sample_count set -> fle (sum j) r = true).
  { intros Hno. refine (natlike_ind _ _ _).
    - intros _. rewrite fle_units by done. apply Z.leb_le. by apply f64_units_nonneg.
    - intros j Hj IH Hle. specialize (Hno j ltac:(lia)). unfold in_slot in Hno. rewrite IH in Hno by lia. cbn [andb] in Hno. rewrite <- Z.add_1_r.
      assert (Hs : f64_nonneg (sum (j + 1)) = true) by (apply weight_sum_nonneg; [done|lia..]). rewrite flt_units in Hno by done. rewrite fle_units by done. zbool. lia. }
  destruct (decide (Exists (fun i => in_slot r i = true) (zrange 0 (sample_count set)))) as [(i & Hi & E)%Exists_exists|Hno].
  - exists i. split; [by apply elem_of_zrange|done].
  - exfalso. assert (Hf : fle (sum (sample_count set)) r = true).
    { apply Hall; [|lia..]. intros i Hi. apply not_true_is_false. intros E. apply Hno, Exists_exists. exists i. split; [by apply elem_of_zrange|done]. }
    assert (Hs : f64_nonneg (sum (sample_count set)) = true) by (apply weight_sum_nonneg; [done|lia..]). rewrite flt_units in Ht by done. rewrite fle_units in Hf by done. zbool. lia.
Qed.

(** The weight of a slot that holds a number is positive. *)
Lemma slot_weight r i s : weights_nonneg set -> f64_nonneg r = true -> 0 <= i < sample_count set -> aget (samples set) i = Some s -> in_slot r i = true -> fgt (ps_weight s) f_zero = true.
Proof using Hcount.
  intros Hw Hr Hi Es Hin. unfold in_slot in Hin. apply andb_true_iff in Hin as [Hlo Hhi]. rewrite (weight_sum_step _ _ _ Es) in Hhi. pose proof (Hw i s Hi Es) as Hws.
  assert (Hn : f64_nonneg (sum i) = true) by (apply weight_sum_nonneg; [done|lia..]). rewrite fle_units in Hlo by done. rewrite flt_units in Hhi by (try apply fadd_nonneg; done). zbool.
  change (flt f_zero (ps_weight s) = true). rewrite flt_units by done. apply Z.ltb_lt. pose proof (f64_units_nonneg _ Hws) as H0. change (f64_units f_zero) with 0.
  destruct (Z.eq_dec (f64_units (ps_weight s)) 0) as [E|]; [|lia]. rewrite fadd_zero_units in Hhi by done. lia.
Qed.
End table.

(** ** The invariant of a sample set *)

Lemma hist_add_dom k v h k' : is_Some (hist_add k v h !! k') <-> k' = k \/ is_Some (h !! k').
Proof.
  unfold hist_add. destruct (decide (k' = k)) as [->|Hne]; [rewrite lookup_insert_eq|rewrite lookup_insert_ne by done]; [|split; [by right|by intros [?|?]]].
  split; [by left|]. intros _. by destruct (h !! k); eexists.
Qed.

(** A pose whose cell is small. *)
Definition in_range (pose : pf_vector_t) : Prop := exists k, pose_key (pf_kdtree_alloc 0) pose = Some k /\ small_key k.

(** The arrays of a set made for [max] samples. *)
Record set_ok (max : Z) (s : pf_sample_set_t) : Prop := {
  so_count : 0 <= sample_count s <= max;
  so_samples : alen (samples s) = max;
  so_clusters : alen (clusters s) = max;
  so_max : cluster_max_count s = max;
  so_params : kd_params (kdtree s) = kd_params (pf_kdtree_alloc (3 * max));
  so_tree : exists h, represents (kdtree s) h;
}.

(** The tree of a set holds the cells of its samples and no other. *)
Definition histogram_of (s : pf_sample_set_t) (h : gmap Key spec_float) : Prop :=
  represents (kdtree s) h /\ forall k, is_Some (h !! k) <-> exists i smp, 0 <= i < sample_count s /\ aget (samples s) i = Some smp /\ pose_key (kdtree s) (ps_pose smp) = Some k.

Definition poses_in_range (s : pf_sample_set_t) : Prop := forall i smp, 0 <= i < sample_count s -> aget (samples s) i = Some smp -> in_range (ps_pose smp).

Lemma params_size max s : kd_params (kdtree s) = kd_params (pf_kdtree_alloc (3 * max)) -> kd_size (kdtree s) = kd_size (pf_kdtree_alloc 0) /\ kd_node_max_count (kdtree s) = 3 * max.
Proof. intros E. unfold kd_params in E. by injection E. Qed.

Lemma in_range_key max s pose : set_ok max s -> in_range pose -> exists k, pose_key (kdtree s) pose = Some k /\ small_key k.
Proof.
  intros Hs (k & Ek & Hk). exists k. split; [|done]. rewrite <- Ek. apply pose_key_size. apply (params_size max s (so_params _ _ Hs)).
Qed.

Lemma for_clusters f l n : 0 <= n <= alen l -> exists l', for_range 0 n (update_cluster f) l = Some l' /\ alen l' = alen l.
Proof.
  intros Hn. apply (for_range_inv (fun _ l' => alen l' = alen l)); [lia|done|]. intros i l1 Hi E. unfold update_cluster. destruct (aget_is_Some l1 i) as [c ->]; [lia|]. mred.
  destruct (aset_is_Some l1 i (f c)) as [l2 E2]; [lia|]. exists l2. split; [done|]. by rewrite (aset_len _ _ _ _ E2).
Qed.

Section stats.
Context `{Libm}.

(** The statistics of a set whose tree holds its samples: no assertion fails. *)
Lemma cluster_stats_ok max s h : set_ok max s -> histogram_of s h -> poses_in_range s ->
  exists s', pf_cluster_stats s = Some s' /\ set_ok max s' /\ histogram_of s' h /\ sample_count s' = sample_count s /\ samples s' = samples s /\ 0 <= cluster_count s' <= max.
Proof using Type.
  intros Hs [Hr Hh] Hp. unfold pf_cluster_stats. destruct (cluster_represents _ h Hr) as (tree & -> & Hr' & Ep & Hget). mred.
  pose proof Hs as [Hc Hl Hcl Hm Hpar _]. cbn [set_kdtree cluster_max_count clusters sample_count].
  destruct (for_clusters reset_cluster (clusters s) (cluster_max_count s)) as (l1 & -> & Hl1); [lia|]. mred.
  match goal with |- context [for_range 0 _ (accumulate ?set) ?s0] => destruct (for_range_inv (fun _ '(l, count, _, _) => alen l = max /\ 0 <= count <= max) (accumulate set) 0 (sample_count s) s0)
    as ([[[l2 count] weight] work] & -> & Hl2 & Hcount) end.
  - lia.
  - lia.
  - intros i [[[l count] weight] work] Hi [Hll Hcc]. unfold accumulate. cbn [samples kdtree cluster_max_count set_kdtree]. destruct (aget_is_Some (samples s) i) as [smp Es]; [lia|]. rewrite Es. mred.
    destruct (in_range_key max s _ Hs (Hp i smp Hi Es)) as (k & Ek & Hk). destruct (Hget _ k Ek) as (c & -> & Hc0); [apply Hh; by exists i, smp|]. mred. rewrite assert_ub_true by (by apply Z.leb_le). mred.
    destruct (Z.leb_spec (cluster_max_count s) c) as [Hmc|Hmc]; [by eexists|]. unfold update_cluster. destruct (aget_is_Some l c) as [cl ->]; [lia|]. mred.
    destruct (aset_is_Some l c (add_to_cluster cl smp)) as [l' E']; [lia|]. rewrite E'. mred. eexists. split; [done|]. cbn beta iota. rewrite (aset_len _ _ _ _ E'). destruct (Z.ltb_spec count (c + 1)); lia.
  - mred. destruct (for_clusters normalize_cluster l2 count) as (l3 & -> & Hl3); [lia|]. mred. eexists. split; [done|].
    split; [|split; [|split; [done|split; [done|done]]]].
    + split; cbn [set_statistics set_kdtree sample_count samples clusters cluster_max_count kdtree]; try lia; [congruence|by exists h].
    + split; cbn [set_statistics set_kdtree sample_count samples kdtree]; [done|]. intros k. rewrite (Hh k). assert (Ek : forall pose, pose_key tree pose = pose_key (kdtree s) pose) by (intros pose; apply pose_key_size; unfold kd_params in Ep; congruence).
      split; intros (i & smp & Hi & Es & E); exists i, smp; (split; [done|split; [done|]]); by rewrite Ek in *.
Qed.

(** Writes that keep the poses keep the histogram. *)
Lemma put_sample_ok max s i smp : set_ok max s -> 0 <= i < max -> exists s', put_sample s i smp = Some s' /\ set_ok max s' /\ samples s' = <[Z.to_nat i := smp]> (samples s) /\
  sample_count s' = sample_count s /\ kdtree s' = kdtree s.
Proof using Type.
  intros [Hc Hl Hcl Hm Hpar Ht] Hi. unfold put_sample. rewrite aset_Some by lia. mred. eexists. split; [done|]. split; [|done].
  split; cbn [set_samples sample_count samples clusters cluster_max_count kdtree]; try done. unfold alen. rewrite length_insert. exact Hl.
Qed.

(** Up to [i], the weights of [s] are given by [f]; the rest is that of [s0]. *)
Record reweighted (max : Z) (f : pf_sample_t -> spec_float) (s0 : pf_sample_set_t) (i : Z) (s : pf_sample_set_t) : Prop := {
  rw_ok : set_ok max s;
  rw_count : sample_count s = sample_count s0;
  rw_tree : kdtree s = kdtree s0;
  rw_done j smp : 0 <= j < i -> aget (samples s0) j = Some smp -> aget (samples s) j = Some (mkSample (ps_pose smp) (f smp));
  rw_rest j : i <= j -> aget (samples s) j = aget (samples s0) j;
}.

Lemma reweight_step max f s0 i s : set_ok max s0 -> 0 <= i < sample_count s0 -> reweighted max f s0 i s ->
  exists smp s', aget (samples s) i = Some smp /\ aget (samples s0) i = Some smp /\ put_sample s i (mkSample (ps_pose smp) (f smp)) = Some s' /\ reweighted max f s0 (i + 1) s'.
Proof using Type.
  intros H0 Hi [Hok Hc Ht Hd Hr]. pose proof H0 as [Hc0 Hl0 _ _ _ _]. destruct (aget_is_Some (samples s0) i) as [smp Es]; [lia|]. exists smp.
  destruct (put_sample_ok max s i (mkSample (ps_pose smp) (f smp)) Hok) as (s' & E & Hok' & El & Ec & Et); [lia|]. exists s'. split; [by rewrite Hr by lia|]. split; [done|]. split; [done|].
  assert (Ea : forall j, aget (samples s') j = if i =? j then Some (mkSample (ps_pose smp) (f smp)) else aget (samples s) j).
  { intros j. apply (aget_aset _ i _ _ j). rewrite El. apply aset_Some. pose proof (so_samples _ _ Hok). lia. }
  split; [done|congruence|congruence| |].
  - intros j smp' Hj Ej. rewrite Ea. destruct (Z.eqb_spec i j) as [<-|]; [congruence|]. apply Hd; [lia|done].
  - intros j Hj. rewrite Ea. destruct (Z.eqb_spec i j); [lia|]. apply Hr. lia.
Qed.

Lemma reweight_start max f s : set_ok max s -> reweighted max f s 0 s.
Proof using Type. intros Hs. split; try done. intros j smp Hj. lia. Qed.

Lemma reweight_pose max f s0 s j smp : set_ok max s0 -> reweighted max f s0 (sample_count s0) s -> 0 <= j < sample_count s0 -> aget (samples s) j = Some smp ->
  exists smp0, aget (samples s0) j = Some smp0 /\ ps_pose smp = ps_pose smp0 /\ ps_weight smp = f smp0.
Proof using Type.
  intros H0 [_ _ _ Hd _] Hj Es. pose proof (so_count _ _ H0). pose proof (so_samples _ _ H0). destruct (aget_is_Some (samples s0) j) as [smp0 E0]; [lia|]. exists smp0. split; [done|]. rewrite (Hd j smp0 Hj E0) in Es. by injection Es as <-.
Qed.

Lemma reweight_histogram max f s0 s h : set_ok max s0 -> reweighted max f s0 (sample_count s0) s -> histogram_of s0 h -> histogram_of s h.
Proof using Type.
  intros H0 Hw [Hr Hh]. pose proof Hw as [_ Hc Ht Hd _]. split; [by rewrite Ht|]. intros k. rewrite (Hh k), Hc, Ht. split.
  - intros (i & smp & Hi & Es & Ek). eexists i, _. split; [done|]. split; [by apply Hd|done].
  - intros (i & smp & Hi & Es & Ek). destruct (reweight_pose _ _ _ _ _ _ H0 Hw Hi Es) as (smp0 & E0 & Ep & _). exists i, smp0. split; [done|]. split; [done|]. by rewrite <- Ep.
Qed.

Lemma reweight_range max f s0 s : set_ok max s0 -> reweighted max f s0 (sample_count s0) s -> poses_in_range s0 -> poses_in_range s.
Proof using Type.
  intros H0 Hw Hp i smp Hi Es. rewrite (rw_count _ _ _ _ _ Hw) in Hi. destruct (reweight_pose _ _ _ _ _ _ H0 Hw Hi Es) as (smp0 & E0 & -> & _). by apply (Hp i).
Qed.

(** The loop that scales the weights. *)
Lemma reweight_loop max s (f : pf_sample_t -> spec_float) : set_ok max s ->
  exists s', for_range 0 (sample_count s) (fun i set => smp ← aget (samples set) i; put_sample set i (mkSample (ps_pose smp) (f smp))) s = Some s' /\ reweighted max f s (sample_count s) s'.
Proof using Type.
  intros Hs. apply for_range_inv; [apply Hs|by apply reweight_start|]. intros i s1 Hi H1. destruct (reweight_step _ _ _ _ _ Hs Hi H1) as (smp & s2 & -> & _ & E & H2). mred. by exists s2.
Qed.
End stats.

(** ** The invariant of the filter *)

Record pf_ok (pf : pf_t) : Prop := {
  po_max : 1 <= max_samples pf;
  po_current : current_set pf = 0 \/ current_set pf = 1;
  po_sets : exists s0 s1, sets pf = [s0; s1] /\ set_ok (max_samples pf) s0 /\ set_ok (max_samples pf) s1;
}.

(** The set in use and the other one. *)
Lemma pf_sets pf : pf_ok pf -> exists a b, current pf = Some a /\ aget (sets pf) (1 - current_set pf) = Some b /\ set_ok (max_samples pf) a /\ set_ok (max_samples pf) b.
Proof. intros [_ [E|E] (s0 & s1 & Es & H0 & H1)]; unfold current; rewrite E, Es; [by exists s0, s1|by exists s1, s0]. Qed.

Lemma put_set pf i s : pf_ok pf -> i = 0 \/ i = 1 -> set_ok (max_samples pf) s ->
  exists l, aset (sets pf) i s = Some l /\ (forall c b, c = 0 \/ c = 1 -> pf_ok (set_sets pf c l b)) /\ (forall j, aget l j = if i =? j then Some s else aget (sets pf) j).
Proof.
  intros [Hm _ (s0 & s1 & Es & H0 & H1)] Hi Hs. assert (Hl : 0 <= i < alen (sets pf)) by (rewrite Es; unfold alen; cbn [length]; lia). destruct (aset_is_Some (sets pf) i s Hl) as [l E]. exists l. split; [done|].
  split; [|intros j; by apply aget_aset]. intros c b Hc. split; cbn [set_sets max_samples current_set sets]; [done|done|]. rewrite Es in E. destruct Hi as [-> | ->]; injection E as <-; by eexists _, _.
Qed.

(** The averages reset, or not. *)
Lemma averages_ok pf (b : bool) : pf_ok pf -> exists pf1, (if b then set_averages pf f_zero f_zero else pf) = pf1 /\ pf_ok pf1 /\ sets pf1 = sets pf /\ max_samples pf1 = max_samples pf /\ current_set pf1 = current_set pf.
Proof. intros Hpf. eexists. split; [done|]. destruct b; [|done]. split; [|done]. destruct Hpf. by split. Qed.

Section convergence.
Context `{Libm}.

(** The convergence test always answers; it changes the flags only. *)
Lemma update_converged_ok pf a : pf_ok pf -> current pf = Some a ->
  exists pf' b, pf_update_converged pf = Some (pf', b) /\ pf_ok pf' /\ current_set pf' = current_set pf /\ current pf' = Some (set_flag a b) /\ pf_converged pf' = b /\
    (forall j, j <> current_set pf -> aget (sets pf') j = aget (sets pf) j) /\ max_samples pf' = max_samples pf.
Proof using Type.
  intros Hpf Ea. destruct (pf_sets pf Hpf) as (a' & _ & Ea' & _ & Ha & _). assert (a' = a) as -> by congruence. unfold pf_update_converged. rewrite Ea. mred. pose proof (so_count _ _ Ha) as Hc. pose proof (so_samples _ _ Ha) as Hl.
  match goal with |- context [for_range 0 _ ?b (f_zero, f_zero)] => destruct (for_range_inv (fun _ _ => True) b 0 (sample_count a) (f_zero, f_zero)) as ([mx my] & -> & _) end; [lia|done| |].
  { intros i [x y] Hi _. destruct (aget_is_Some (samples a) i) as [smp ->]; [lia|]. mred. by eexists. }
  mred. match goal with |- context [for_range 0 _ ?b true] => destruct (for_range_inv (fun _ _ => True) b 0 (sample_count a) true) as (b' & -> & _) end; [lia|done| |].
  { intros i [] Hi _; [|by eexists]. destruct (aget_is_Some (samples a) i) as [smp ->]; [lia|]. mred. by eexists. }
  mred. assert (Hf : set_ok (max_samples pf) (set_flag a b')) by (destruct Ha; by split).
  destruct (put_set pf (current_set pf) (set_flag a b') Hpf (po_current _ Hpf) Hf) as (l & El & Hok & Hget). rewrite El. mred. eexists _, b'. split; [done|]. split; [apply Hok; apply Hpf|]. split; [done|].
  unfold current. cbn [set_sets sets current_set pf_converged max_samples]. split; [by rewrite Hget, Z.eqb_refl|]. split; [done|]. split; [|done]. intros j Hj. rewrite Hget. by rewrite (proj2 (Z.eqb_neq _ _)) by congruence.
Qed.
End convergence.

(** ** Resampling *)

Section resampling.
Context {G : Type} (drand48 : G -> spec_float * G) (random_pose_fn : G -> pf_vector_t * G).
Context (pf : pf_t) (a : pf_sample_set_t).

(** What the generator and the callback promise, and the limit's domain. *)
Definition draws_below (total : spec_float) : Prop := forall g, f64_nonneg (fst (drand48 g)) = true /\ flt (fst (drand48 g)) total = true.
Definition limits_defined : Prop := forall k, 1 < k <= max_samples pf -> is_Some (pf_resample_limit pf k).

(** Where the pose of a new sample comes from. *)
Definition drawn (pose : pf_vector_t) : Prop :=
  (exists i s, 0 <= i < sample_count a /\ aget (samples a) i = Some s /\ fgt (ps_weight s) f_zero = true /\ pose = ps_pose s) \/
  (fgt (random_share pf) f_zero = true /\ exists g, pose = fst (random_pose_fn g)).

Lemma flt_zero_share u w : f64_nonneg u = true -> flt u w = true -> fgt w f_zero = true.
Proof.
  intros Hu Hw. change (flt f_zero w = true). destruct u as [s|[]| |[] m e]; try done.
  - by destruct w as [[]|[]| |[] ? ?].
  - by destruct w as [[]|[]| |[] ? ?].
Qed.

Context (Hpf : pf_ok pf) (Ha : set_ok (max_samples pf) a) (Hrange : poses_in_range a) (Hw : weights_nonneg a).
Context (Hdraw : draws_below (weight_sum (samples a) (sample_count a))) (Hrandom : forall g, in_range (fst (random_pose_fn g))).

Lemma a_bounds : 0 <= sample_count a <= alen (samples a).
Proof using Ha. rewrite (so_samples _ _ Ha). apply Ha. Qed.

(** A draw passes both assertions. *)
Lemma draw_pose_ok c g : (forall j, 0 <= j <= sample_count a -> aget c j = Some (weight_sum (samples a) j)) ->
  exists pose g', draw_pose drand48 random_pose_fn a c (random_share pf) g = Some (pose, g') /\ in_range pose /\ drawn pose.
Proof using Ha Hrange Hw Hdraw Hrandom.
  intros Hc. unfold draw_pose. pose proof (Hdraw g) as [Hu _]. destruct (drand48 g) as [u g1] eqn:Eg. cbn [fst] in Hu. destruct (flt u (random_share pf)) eqn:El.
  - pose proof (Hrandom g1) as Hr. destruct (random_pose_fn g1) as [pose g2] eqn:E1. exists pose, g2. split; [done|]. split; [done|]. right. split; [by apply (flt_zero_share u)|]. exists g1. by rewrite E1.
  - pose proof (Hdraw g1) as [Hr Hlt]. destruct (drand48 g1) as [r g2]. cbn [fst] in *. destruct (find_slot_ok a a_bounds c r Hc) as (i & -> & Hi & Hno & Hin). mred.
    destruct (slot_exists a a_bounds r Hw Hr Hlt) as (i0 & Hi0 & E0). assert (Hlti : i < sample_count a).
    { destruct (Z.lt_ge_cases i (sample_count a)) as [|Hge]; [done|]. rewrite (Hno i0) in E0 by lia. done. }
    rewrite assert_ub_true by (by apply Z.ltb_lt). mred. pose proof a_bounds as Hab. destruct (aget_is_Some (samples a) i) as [s Es]; [lia|]. rewrite Es. mred.
    assert (Hs : fgt (ps_weight s) f_zero = true) by (by apply (slot_weight a a_bounds r i s Hw Hr ltac:(lia) Es), Hin). rewrite Hs. mred.
    exists (ps_pose s), g2. split; [done|]. split; [apply (Hrange i s); [lia|done]|]. left. exists i, s. split; [lia|done].
Qed.

(** The new set between two rounds. *)
Record filling (b : pf_sample_set_t) (h : gmap Key spec_float) : Prop := {
  fl_ok : set_ok (max_samples pf) b;
  fl_hist : histogram_of b h;
  fl_size : Z.of_nat (size h) <= sample_count b;
  fl_samples i s : 0 <= i < sample_count b -> aget (samples b) i = Some s -> ps_weight s = f_one /\ in_range (ps_pose s) /\ drawn (ps_pose s);
}.

(** The last round: the set is full, or larger than the limit. *)
Definition filled (b : pf_sample_set_t) (h : gmap Key spec_float) : Prop :=
  1 <= sample_count b /\ (sample_count b = max_samples pf \/ exists limit, pf_resample_limit pf (Z.of_nat (size h)) = Some limit /\ limit < sample_count b).

(** A sample is added and its cell put in the tree. *)
Lemma add_sample_ok b h pose : filling b h -> sample_count b < max_samples pf -> in_range pose -> drawn pose ->
  exists b1 tree h', put_sample (set_samples b (sample_count b + 1) (samples b)) (sample_count b) (mkSample pose f_one) = Some b1 /\
    pf_kdtree_insert (kdtree b1) pose f_one = Some tree /\ filling (set_kdtree b1 tree) h' /\ sample_count b1 = sample_count b + 1.
Proof using Type.
  intros [Hok [Hr Hh] Hsz Hsm] Hlt Hp Hd. pose proof Hok as [Hc Hl Hcl Hm Hpar _].
  assert (Hok0 : set_ok (max_samples pf) (set_samples b (sample_count b + 1) (samples b))) by (split; cbn [set_samples sample_count samples clusters cluster_max_count kdtree]; try done; [lia|by exists h]).
  destruct (put_sample_ok _ _ (sample_count b) (mkSample pose f_one) Hok0) as (b1 & E1 & Hok1 & El1 & Ec1 & Et1); [lia|]. cbn [set_samples sample_count samples kdtree] in El1, Ec1, Et1.
  destruct (in_range_key _ b pose Hok Hp) as (k & Ek & Hk). destruct (insert_represents (kdtree b) h pose k f_one Hr Ek Hk) as (tree & Et & Hr' & Ep).
  { rewrite (represents_count _ _ Hr), (proj2 (params_size _ _ Hpar)). lia. }
  exists b1, tree, (hist_add k f_one h). split; [done|]. split; [by rewrite Et1|]. split; [|done].
  assert (Eg : forall j, aget (samples b1) j = if sample_count b =? j then Some (mkSample pose f_one) else aget (samples b) j).
  { intros j. apply (aget_aset _ (sample_count b) _ _ j). rewrite El1. apply aset_Some. lia. }
  assert (Ekey : forall q, pose_key tree q = pose_key (kdtree b) q) by (intros q; apply pose_key_size; unfold kd_params in Ep; congruence).
  split; cbn [set_kdtree sample_count samples kdtree].
  - destruct Hok1. split; cbn [set_kdtree sample_count samples clusters cluster_max_count kdtree]; try done; [congruence|by eexists].
  - split; cbn [set_kdtree sample_count samples kdtree]; [done|]. intros k'. rewrite hist_add_dom, (Hh k'), Ec1. split.
    + intros [->|(i & s & Hi & Es & E)].
      * exists (sample_count b), (mkSample pose f_one). split; [lia|]. split; [by rewrite Eg, Z.eqb_refl|]. by rewrite Ekey.
      * exists i, s. split; [lia|]. split; [by rewrite Eg, (proj2 (Z.eqb_neq _ _)) by lia|]. by rewrite Ekey.
    + intros (i & s & Hi & Es & E). rewrite Eg in Es. rewrite Ekey in E. destruct (Z.eqb_spec (sample_count b) i) as [<-|Hne].
      * left. injection Es as <-. cbn [ps_pose] in E. congruence.
      * right. exists i, s. split; [lia|done].
  - pose proof (hist_add_size k f_one h). rewrite Ec1. lia.
  - intros i s Hi Es. rewrite Ec1 in Hi. rewrite Eg in Es. destruct (Z.eqb_spec (sample_count b) i) as [<-|Hne]; [by injection Es as <-|]. apply (Hsm i s); [lia|done].
Qed.

Context (Hlimits : limits_defined).

Lemma limit_defined k : 0 <= k <= max_samples pf -> is_Some (pf_resample_limit pf k).
Proof using Hlimits.
  intros Hk. destruct (Z.le_gt_cases k 1) as [Hle|]; [|apply Hlimits; lia]. unfold pf_resample_limit. rewrite (proj2 (Z.leb_le k 1) Hle). by eexists.
Qed.

Lemma resample_loop_ok c b g : (forall j, 0 <= j <= sample_count a -> aget c j = Some (weight_sum (samples a) j)) -> filling b ∅ ->
  exists b' total g' h, loop (Z.to_nat (max_samples pf) + 1) (resample_step drand48 random_pose_fn pf a c (random_share pf)) (b, f_zero, g) = Some (b', total, g') /\ filling b' h /\ filled b' h.
Proof using All.
  intros Hc Hb.
  destruct (loop_inv (fun '(b, _, _) => exists h, filling b h) (fun '(b, _, _) => exists h, filling b h /\ filled b h) (fun '(b, _, _) => Z.to_nat (max_samples pf - sample_count b))
    (resample_step drand48 random_pose_fn pf a c (random_share pf))) with (fuel := (Z.to_nat (max_samples pf) + 1)%nat) (s := (b, f_zero, g)) as ([[b' total] g'] & -> & h & H1 & H2).
  - intros [[b1 total] g1] (h & Hf). unfold resample_step. pose proof (fl_ok _ _ Hf) as Hok. pose proof (so_count _ _ Hok) as Hcount. destruct (Z.ltb_spec (sample_count b1) (max_samples pf)) as [Hlt|Hge].
    + destruct (draw_pose_ok c g1 Hc) as (pose & g2 & -> & Hp & Hd). mred. destruct (add_sample_ok b1 h pose Hf Hlt Hp Hd) as (b2 & tree & h' & -> & Et & Hf' & Ec). mred. rewrite Et. mred.
      pose proof (represents_count _ _ (proj1 (fl_hist _ _ Hf'))) as El. cbn [set_kdtree kdtree] in El. rewrite El. pose proof (fl_size _ _ Hf') as Hsz. cbn [set_kdtree sample_count] in Hsz.
      destruct (limit_defined (Z.of_nat (size h'))) as [limit Elim]; [lia|]. rewrite Elim. mred. cbn [set_kdtree sample_count]. rewrite Ec in *. eexists. split; [done|]. destruct (Z.ltb_spec limit (sample_count b1 + 1)) as [Hl|Hl].
      * exists h'. split; [done|]. split; cbn [set_kdtree sample_count]; rewrite Ec; [lia|]. right. by exists limit.
      * split; [by exists h'|]. cbn [set_kdtree sample_count]. rewrite Ec. lia.
    + eexists. split; [done|]. exists h. split; [done|]. pose proof (po_max _ Hpf). split; [lia|]. left. lia.
  - by exists ∅.
  - pose proof (so_count _ _ (fl_ok _ _ Hb)). lia.
  - by exists b', total, g', h.
Qed.
End resampling.

(** C7. Resampling is safe: when the weights are not negative and every draw
    is below their sum, no assertion fails and the loop ends. The filter then
    uses its other set; every pose of the new set is that of an old sample
    with a positive weight, or one of the random poses, which appear only when
    the likelihood falls; all the weights are equal; the tree holds the cells of
    the new samples, and their number is the maximum or above the limit for
    the number of cells. The old set is left as it was. *)
Theorem pf_update_resample_safe `{Libm} {G} (drand48 : G -> spec_float * G) random_pose_fn pf a g :
  pf_ok pf -> current pf = Some a -> poses_in_range a -> weights_nonneg a ->
  draws_below drand48 (weight_sum (samples a) (sample_count a)) -> (forall g, in_range (fst (random_pose_fn g))) -> limits_defined pf ->
  exists pf' g' b h w, pf_update_resample drand48 random_pose_fn pf g = Some (pf', g') /\ pf_ok pf' /\
    current_set pf' = 1 - current_set pf /\ current pf' = Some b /\ aget (sets pf') (current_set pf) = Some a /\
    histogram_of b h /\ poses_in_range b /\ filled pf b h /\
    forall i s, 0 <= i < sample_count b -> aget (samples b) i = Some s -> ps_weight s = w /\ drawn random_pose_fn pf a (ps_pose s).
Proof.
  intros Hpf Ea Hrange Hw Hdraw Hrandom Hlimits. destruct (pf_sets pf Hpf) as (a' & b & Ea' & Eb & Ha & Hb). assert (a' = a) as -> by congruence. unfold pf_update_resample.
  assert (Er : Z.rem (current_set pf + 1) 2 = 1 - current_set pf) by (by destruct (po_current _ Hpf) as [-> | ->]). rewrite Er, Ea. mred. rewrite Eb. mred.
  destruct (cumulative_ok a (a_bounds pf a Ha)) as (c & -> & _ & Hc). mred.
  set (b0 := set_samples (set_kdtree b (pf_kdtree_clear (kdtree b))) 0 (samples b)).
  assert (Hb0 : filling random_pose_fn pf a b0 ∅).
  { destruct Hb as [Hc1 Hl Hcl Hm Hpar [h Hh]]. pose proof (clear_represents _ _ Hh) as Hr. split.
    - split; try done; [cbn; lia|by exists ∅].
    - split; [done|]. intros k. split; [by intros []; rewrite lookup_empty in *|]. intros (i & s & Hi & _). cbn in Hi. lia.
    - done.
    - intros i s Hi. cbn in Hi. lia. }
  destruct (resample_loop_ok drand48 random_pose_fn pf a Hpf Ha Hrange Hw Hdraw Hrandom Hlimits c b0 g Hc Hb0) as (b1 & total & g' & h & -> & Hf & Hfd). mred.
  destruct (averages_ok pf (fgt (random_share pf) f_zero) Hpf) as (pf1 & -> & Hpf1 & Es1 & Em1 & Ec1).
  destruct (reweight_loop (max_samples pf) b1 (fun s => fdiv (ps_weight s) total) (fl_ok _ _ _ _ _ Hf)) as (b2 & -> & Hw2). mred. pose proof (fl_ok _ _ _ _ _ Hf) as Hok1.
  assert (Hp1 : poses_in_range b1) by (intros i s Hi Es; by apply (fl_samples _ _ _ _ _ Hf i s)).
  destruct (cluster_stats_ok (max_samples pf) b2 h (rw_ok _ _ _ _ _ Hw2) (reweight_histogram _ _ _ _ _ Hok1 Hw2 (fl_hist _ _ _ _ _ Hf)) (reweight_range _ _ _ _ Hok1 Hw2 Hp1)) as (b3 & -> & Hb3 & Hh3 & En3 & El3 & _). mred.
  rewrite <- Em1 in Hb3. destruct (put_set pf1 (1 - current_set pf) b3 Hpf1) as (l & El & Hpf2 & Hget); [destruct (po_current _ Hpf); lia|done|]. rewrite El. mred.
  destruct (update_converged_ok (set_sets pf1 (1 - current_set pf) l (pf_converged pf1)) b3) as (pf' & flag & -> & Hpf' & Ecur & Eset & _ & Eother & _).
  { apply Hpf2. destruct (po_current _ Hpf); lia. }
  { unfold current. cbn [set_sets sets current_set]. by rewrite Hget, Z.eqb_refl. }
  mred. cbn [set_sets current_set sets] in *. exists pf', g', (set_flag b3 flag), h, (fdiv f_one total). split; [done|]. split; [done|]. split; [done|]. split; [done|].
  assert (Ebk : sample_count (set_flag b3 flag) = sample_count b1) by (cbn [set_flag sample_count]; rewrite En3; apply Hw2).
  assert (Hs : forall i s, 0 <= i < sample_count b1 -> aget (samples (set_flag b3 flag)) i = Some s -> exists s1, aget (samples b1) i = Some s1 /\ ps_pose s = ps_pose s1 /\ ps_weight s = fdiv (ps_weight s1) total).
  { intros i s Hi Es. cbn [set_flag samples] in Es. rewrite El3 in Es. by apply (reweight_pose _ _ _ _ _ _ Hok1 Hw2). }
  split; [|split; [exact Hh3|split; [|split]]].
  - rewrite Eother by (destruct (po_current _ Hpf); lia). rewrite Hget, Es1, (proj2 (Z.eqb_neq _ _)) by (destruct (po_current _ Hpf); lia). done.
  - intros i s Hi Es. rewrite Ebk in Hi. destruct (Hs i s Hi Es) as (s1 & E1 & -> & _). by apply (Hp1 i).
  - unfold filled. by rewrite Ebk.
  - intros i s Hi Es. rewrite Ebk in Hi. destruct (Hs i s Hi Es) as (s1 & E1 & -> & ->). destruct (fl_samples _ _ _ _ _ Hf i s1 Hi E1) as (-> & _ & Hd). by split.
Qed.

(** ** A draw beyond the table *)

Lemma weight_sum_mono set i j : 0 <= sample_count set <= alen (samples set) -> weights_nonneg set -> 0 <= i -> i <= j -> j <= sample_count set ->
  f64_units (weight_sum (samples set) i) <= f64_units (weight_sum (samples set) j).
Proof.
  intros Hb Hw Hi Hij. revert j Hij. refine (Zlt_lower_bound_ind _ i _). intros j IH Hij Hj. destruct (Z.eq_dec i j) as [->|Hne]; [done|].
  specialize (IH (j - 1) ltac:(lia) ltac:(lia)). destruct (aget_is_Some (samples set) (j - 1)) as [s Es]; [lia|]. pose proof (weight_sum_step _ _ _ Es) as E. replace (j - 1 + 1) with j in E by lia. rewrite E.
  etrans; [exact IH|]. apply (f_add_inflates f64_prec f64_emax ltac:(done) ltac:(done)); [apply (weight_sum_nonneg set Hb); [done|lia..]|apply (Hw (j - 1) s); [lia|done]].
Qed.

(** The assertion on the slot can fail: when the first draw does not ask for
    a random pose and the second is not below the sum of the weights, which
    rounding may leave below 1, the update stops at the assertion. *)
Theorem pf_update_resample_asserts `{Libm} {G} (drand48 : G -> spec_float * G) random_pose_fn pf a g u g1 r g2 :
  pf_ok pf -> current pf = Some a -> weights_nonneg a ->
  drand48 g = (u, g1) -> flt u (random_share pf) = false ->
  drand48 g1 = (r, g2) -> f64_nonneg r = true -> fle (weight_sum (samples a) (sample_count a)) r = true ->
  pf_update_resample drand48 random_pose_fn pf g = None.
Proof.
  intros Hpf Ea Hw Eu Hu Er Hr Hle. destruct (pf_sets pf Hpf) as (a' & b & Ea' & Eb & Ha & Hb). assert (a' = a) as -> by congruence. unfold pf_update_resample.
  assert (Erem : Z.rem (current_set pf + 1) 2 = 1 - current_set pf) by (by destruct (po_current _ Hpf) as [-> | ->]). rewrite Erem, Ea. mred. rewrite Eb. mred. pose proof (a_bounds pf a Ha) as Hab.
  destruct (cumulative_ok a Hab) as (c & -> & _ & Hc). mred. 
  assert (Ed : draw_pose drand48 random_pose_fn a c (random_share pf) g = None).
  { unfold draw_pose. rewrite Eu, Hu, Er. destruct (find_slot_ok a Hab c r Hc) as (i & -> & Hi & _ & Hin). mred. destruct (Z.ltb_spec i (sample_count a)) as [Hlt|]; [|done]. exfalso.
    specialize (Hin Hlt). unfold in_slot in Hin. apply andb_true_iff in Hin as [_ Hhi].
    assert (Hn1 : f64_nonneg (weight_sum (samples a) (i + 1)) = true) by (apply weight_sum_nonneg; [done|done|lia..]). assert (Hn2 : f64_nonneg (weight_sum (samples a) (sample_count a)) = true) by (apply weight_sum_nonneg; [done|done|lia..]).
    rewrite flt_units in Hhi by done. rewrite fle_units in Hle by done. pose proof (weight_sum_mono a (i + 1) (sample_count a) Hab Hw ltac:(lia) ltac:(lia) ltac:(lia)). zbool. lia. }
  assert (Estep : forall b0 total, sample_count b0 = 0 -> resample_step drand48 random_pose_fn pf a c (random_share pf) (b0, total, g) = None).
  { intros b0 total E0. unfold resample_step. rewrite E0, (proj2 (Z.ltb_lt 0 (max_samples pf))) by (pose proof (po_max _ Hpf); lia). cbv zeta. by rewrite Ed. }
  replace (Z.to_nat (max_samples pf) + 1)%nat with (S (Z.to_nat (max_samples pf))) by lia. cbn [loop]. by rewrite Estep.
Qed.

(** ** Creation and initialisation *)

Lemma alloc_set_ok max : 1 <= max -> set_ok max (alloc_set max).
Proof. intros Hm. split; cbn [alloc_set sample_count samples clusters cluster_max_count kdtree]; try done; try lia; [by apply alen_anew; lia|by apply alen_anew; lia|]. exists ∅. apply alloc_represents. lia. Qed.

Lemma init_converged_ok pf : pf_ok pf -> exists pf' a, pf_init_converged pf = Some pf' /\ current pf = Some a /\ pf_ok pf' /\ current pf' = Some (set_flag a false) /\ pf_converged pf' = false /\
  current_set pf' = current_set pf /\ pf_limits pf' = pf_limits pf /\ w_slow pf' = w_slow pf /\ w_fast pf' = w_fast pf.
Proof.
  intros Hpf. destruct (pf_sets pf Hpf) as (a & _ & Ea & _ & Ha & _). unfold pf_init_converged. rewrite Ea. mred. assert (Hf : set_ok (max_samples pf) (set_flag a false)) by (destruct Ha; by split).
  destruct (put_set pf (current_set pf) (set_flag a false) Hpf (po_current _ Hpf) Hf) as (l & El & Hok & Hget). rewrite El. mred. eexists _, a. split; [done|]. split; [done|]. split; [apply Hok, Hpf|].
  unfold current. cbn [set_sets sets current_set]. by rewrite Hget, Z.eqb_refl.
Qed.

Lemma pf_alloc_ok min max slow fast : 1 <= max -> 3 * max < 2 ^ 31 -> exists pf, pf_alloc min max slow fast = Some pf /\ pf_ok pf /\ pf_limits pf = (min, max, fdiv f_one (f_of_Z 100), f_of_Z 3).
Proof.
  intros Hm Hm3. unfold pf_alloc. rewrite checked_s32_ok by (unfold is_s32; lia). mred. match goal with |- context [pf_init_converged ?p] => destruct (init_converged_ok p) as (pf & a & -> & _ & Hpf & _ & _ & _ & Em & _) end; [|by exists pf].
  split; cbn [max_samples current_set sets]; [done|by left|]. exists (alloc_set max), (alloc_set max). by split; [|split; apply alloc_set_ok].
Qed.

Section init.
Context {G : Type} (init_fn : G -> pf_vector_t * G) (max : Z) (Hinit : forall g, in_range (fst (init_fn g))).
Local Abbreviation weight := (fdiv f_one (f_of_Z max)).

(** The samples below [i] are drawn and in the tree. *)
Record drawing (i : Z) (s : pf_sample_set_t) (h : gmap Key spec_float) : Prop := {
  dr_ok : set_ok max s;
  dr_count : sample_count s = max;
  dr_tree : represents (kdtree s) h;
  dr_size : Z.of_nat (size h) <= i;
  dr_cells k : is_Some (h !! k) <-> exists j smp, 0 <= j < i /\ aget (samples s) j = Some smp /\ pose_key (kdtree s) (ps_pose smp) = Some k;
  dr_samples j smp : 0 <= j < i -> aget (samples s) j = Some smp -> ps_weight smp = weight /\ in_range (ps_pose smp);
}.

Lemma drawing_step i s h g : 0 <= i < max -> drawing i s h ->
  exists s' g' h', (let '(pose, g) := init_fn g in set ← put_sample s i (mkSample pose weight); tree ← pf_kdtree_insert (kdtree set) pose weight; Some (set_kdtree set tree, g)) = Some (s', g') /\ drawing (i + 1) s' h'.
Proof using Hinit.
  intros Hi [Hok Hcount Hr Hsz Hh Hs]. pose proof (Hinit g) as Hp. destruct (init_fn g) as [pose g']. cbn [fst] in Hp. destruct (put_sample_ok max s i (mkSample pose weight) Hok Hi) as (s1 & -> & Hok1 & El & Ec & Et). mred.
  pose proof Hok as [_ Hl _ _ Hpar _]. destruct (in_range_key max s pose Hok Hp) as (k & Ek & Hk). destruct (insert_represents (kdtree s) h pose k weight Hr Ek Hk) as (tree & Etr & Hr' & Ep).
  { rewrite (represents_count _ _ Hr), (proj2 (params_size _ _ Hpar)). lia. }
  rewrite Et, Etr. mred. exists (set_kdtree s1 tree), g', (hist_add k weight h). split; [done|].
  assert (Eg : forall j, aget (samples s1) j = if i =? j then Some (mkSample pose weight) else aget (samples s) j).
  { intros j. apply (aget_aset _ i _ _ j). rewrite El. apply aset_Some. lia. }
  assert (Ekey : forall q, pose_key tree q = pose_key (kdtree s) q) by (intros q; apply pose_key_size; unfold kd_params in Ep; congruence).
  split; cbn [set_kdtree sample_count samples kdtree].
  - destruct Hok1. split; cbn [set_kdtree sample_count samples clusters cluster_max_count kdtree]; try done; [congruence|by eexists].
  - congruence.
  - done.
  - pose proof (hist_add_size k weight h). lia.
  - intros k'. rewrite hist_add_dom, (Hh k'). split.
    + intros [->|(j & smp & Hj & Es & E)].
      * exists i, (mkSample pose weight). split; [lia|]. split; [by rewrite Eg, Z.eqb_refl|]. by rewrite Ekey.
      * exists j, smp. split; [lia|]. split; [by rewrite Eg, (proj2 (Z.eqb_neq _ _)) by lia|]. by rewrite Ekey.
    + intros (j & smp & Hj & Es & E). rewrite Eg in Es. rewrite Ekey in E. destruct (Z.eqb_spec i j) as [<-|Hne].
      * left. injection Es as <-. cbn [ps_pose] in E. congruence.
      * right. exists j, smp. split; [lia|done].
  - intros j smp Hj Es. rewrite Eg in Es. destruct (Z.eqb_spec i j) as [<-|Hne]; [by injection Es as <-|]. apply (Hs j smp); [lia|done].
Qed.
End init.

Lemma drawing_histogram max s h : drawing max max s h -> histogram_of s h /\ poses_in_range s.
Proof. intros [_ Hcount Hr _ Hh Hs]. split; [split; [done|by rewrite Hcount]|]. intros i smp Hi Es. rewrite Hcount in Hi. by apply (Hs i). Qed.

Lemma init_model_ok `{Libm} {G} (init_fn : G -> pf_vector_t * G) pf g : pf_ok pf -> (forall g, in_range (fst (init_fn g))) ->
  exists pf' g' a h, pf_init_model pf init_fn g = Some (pf', g') /\ pf_ok pf' /\ current pf' = Some a /\ sample_count a = max_samples pf /\
    histogram_of a h /\ poses_in_range a /\ pf_converged pf' = false /\ set_converged a = false /\ w_slow pf' = f_zero /\ w_fast pf' = f_zero /\
    (forall i s, 0 <= i < sample_count a -> aget (samples a) i = Some s -> ps_weight s = fdiv f_one (f_of_Z (max_samples pf))) /\ pf_limits pf' = pf_limits pf.
Proof.
  intros Hpf Hinit. destruct (pf_sets pf Hpf) as (a & _ & Ea & _ & Ha & _). unfold pf_init_model. rewrite Ea. mred. set (a0 := set_samples _ _ _). change (sample_count a0) with (max_samples pf).
  destruct (for_range_inv (fun i '(s, _) => exists h, drawing (max_samples pf) i s h) (fun i '(s, g) => let '(pose, g) := init_fn g in set ← put_sample s i (mkSample pose (fdiv f_one (f_of_Z (max_samples pf)))); tree ← pf_kdtree_insert (kdtree set) pose (fdiv f_one (f_of_Z (max_samples pf))); Some (set_kdtree set tree, g)) 0 (max_samples pf) (a0, g))
    as ([a1 g1] & E1 & h & Hd).
  - pose proof (po_max _ Hpf). lia.
  - exists ∅. destruct Ha as [Hc1 Hl Hcl Hm Hpar [h Hh]]. pose proof (clear_represents _ _ Hh) as Hr. split; try done.
    + split; try done; [cbn; pose proof (po_max _ Hpf); lia|by exists ∅].
    + intros k. split; [by intros []; rewrite lookup_empty in *|]. intros (i & s & Hi & _). lia.
    + intros i s Hi. lia.
  - intros i [s g2] Hi (h & Hd). destruct (drawing_step init_fn (max_samples pf) Hinit i s h g2 Hi Hd) as (s' & g' & h' & E & Hd'). exists (s', g'). split; [exact E|]. by exists h'.
  - cbv zeta. rewrite E1. mred. destruct (drawing_histogram _ _ _ Hd) as [Hh Hp]. destruct (cluster_stats_ok (max_samples pf) a1 h (dr_ok _ _ _ _ Hd) Hh Hp) as (a2 & -> & Ha2 & Hh2 & En2 & El2 & _). mred.
    set (pf1 := set_averages pf f_zero f_zero). assert (Hpf1 : pf_ok pf1) by (destruct Hpf; by split). destruct (put_set pf1 (current_set pf1) a2 Hpf1 (po_current _ Hpf1) Ha2) as (l & El & Hpf2 & Hget).
    unfold put_current. rewrite El. mred. destruct (init_converged_ok (set_sets pf1 (current_set pf1) l (pf_converged pf1))) as (pf' & a3 & -> & Ea3 & Hpf' & Ecur & Econv & Eset & Elim & Esl & Efa); [apply Hpf2; apply Hpf1|]. mred.
    assert (a3 = a2) as ->. { unfold current in Ea3. cbn [set_sets sets current_set] in Ea3. rewrite Hget, Z.eqb_refl in Ea3. congruence. }
    exists pf', g1, (set_flag a2 false), h. split; [done|]. split; [done|]. split; [done|]. cbn [set_flag sample_count samples set_converged]. split; [rewrite En2; apply Hd|]. split; [exact Hh2|].
    split; [|split; [done|split; [done|split; [done|split; [done|split; [|done]]]]]]; intros i s Hi Es; cbn [set_flag sample_count samples] in *; rewrite En2 in Hi; rewrite El2 in Es; [by apply (Hp i s)|apply (dr_samples _ _ _ _ Hd i s); [by rewrite <- (dr_count _ _ _ _ Hd)|done]].
Qed.

(** ** Weighting *)

(** The weight of a sample after the sensor has given it [s] and the sum
    [total]. *)
Definition sensed_weight (total : spec_float) (count : Z) (s : pf_sample_t) : spec_float :=
  if fgt total f_zero then fdiv (ps_weight s) total else fdiv f_one (f_of_Z count).

(** The sensor update scales the weights the sensor model gives by their
    total, or makes them equal when the total is not positive (zero or not a
    number), and touches neither the poses nor the histogram nor the other
    set; the running averages follow the mean weight only when the total is
    positive, and start from it. *)
Theorem pf_update_sensor_weights pf a sensor_fn total a' : pf_ok pf -> current pf = Some a -> sensor_fn a = (total, a') -> set_ok (max_samples pf) a' ->
  exists pf' b, pf_update_sensor pf sensor_fn = Some pf' /\ pf_ok pf' /\ current pf' = Some b /\ (forall j, j <> current_set pf -> aget (sets pf') j = aget (sets pf) j) /\
    sample_count b = sample_count a' /\ kdtree b = kdtree a' /\
    (forall i s, 0 <= i < sample_count a' -> aget (samples a') i = Some s -> aget (samples b) i = Some (mkSample (ps_pose s) (sensed_weight total (sample_count a') s))) /\
    let avg := fdiv (weight_sum (samples a') (sample_count a')) (f_of_Z (sample_count a')) in
    (w_slow pf', w_fast pf') = if fgt total f_zero then (running (w_slow pf) (alpha_slow pf) avg, running (w_fast pf) (alpha_fast pf) avg) else (w_slow pf, w_fast pf).
Proof.
  intros Hpf Ea Esens Ha'. unfold pf_update_sensor. rewrite Ea. mred. rewrite Esens. unfold sensed_weight.
  assert (Hput : forall pf1 b, pf_ok pf1 -> sets pf1 = sets pf -> current_set pf1 = current_set pf -> set_ok (max_samples pf1) b ->
    exists pf', put_current pf1 b = Some pf' /\ pf_ok pf' /\ current pf' = Some b /\ (forall j, j <> current_set pf -> aget (sets pf') j = aget (sets pf) j) /\ w_slow pf' = w_slow pf1 /\ w_fast pf' = w_fast pf1).
  { intros pf1 b Hpf1 Es1 Ec1 Hb. unfold put_current. destruct (put_set pf1 (current_set pf1) b Hpf1 (po_current _ Hpf1) Hb) as (l & El & Hok & Hget). rewrite El. mred. eexists. split; [done|].
    split; [apply Hok, Hpf1|]. unfold current. cbn [set_sets sets current_set w_slow w_fast]. split; [by rewrite Hget, Z.eqb_refl|]. split; [|done]. intros j Hj. by rewrite Hget, (proj2 (Z.eqb_neq _ _)), Es1 by congruence. }
  destruct (fgt total f_zero) eqn:Et.
  - match goal with |- context [for_range 0 _ ?b (a', f_zero)] =>
      destruct (for_range_inv (fun i '(s, w) => reweighted (max_samples pf) (fun s => fdiv (ps_weight s) total) a' i s /\ w = weight_sum (samples a') i) b 0 (sample_count a') (a', f_zero)) as ([b' w] & -> & Hw & ->) end.
    + apply Ha'.
    + split; [by apply reweight_start|done].
    + intros i [s w] Hi [Hw ->]. destruct (reweight_step _ _ _ _ _ Ha' Hi Hw) as (smp & s2 & -> & E0 & E2 & Hw2). mred. rewrite E2. mred. eexists. split; [done|]. split; [done|]. symmetry. by apply weight_sum_step.
    + mred. rewrite (rw_count _ _ _ _ _ Hw). set (pf1 := set_averages pf _ _). destruct (Hput pf1 b') as (pf' & E & Hpf' & Ecur & Eo & Esl & Efa); [destruct Hpf; by split|done|done|apply Hw|].
      exists pf', b'. split; [exact E|]. split; [done|]. split; [done|]. split; [done|]. split; [apply Hw|]. split; [apply Hw|]. split; [intros i s Hi Es; by apply Hw|]. cbv zeta. by rewrite Esl, Efa.
  - destruct (for_range_inv (fun i s => reweighted (max_samples pf) (fun _ => fdiv f_one (f_of_Z (sample_count a'))) a' i s) (fun i set => s ← aget (samples set) i; put_sample set i (mkSample (ps_pose s) (fdiv f_one (f_of_Z (sample_count set))))) 0 (sample_count a') a')
      as (b' & -> & Hw).
    + apply Ha'.
    + by apply reweight_start.
    + intros i s Hi Hw. destruct (reweight_step _ _ _ _ _ Ha' Hi Hw) as (smp & s2 & -> & E0 & E2 & Hw2). mred. exists s2. by rewrite (rw_count _ _ _ _ _ Hw).
    + mred. destruct (Hput pf b' Hpf) as (pf' & -> & Hpf' & Ecur & Eo & Esl & Efa); [done|done|apply Hw|]. exists pf', b'. split; [done|]. split; [done|]. split; [done|]. split; [done|].
      split; [apply Hw|]. split; [apply Hw|]. split; [intros i s Hi Es; by apply Hw|]. cbv zeta. by rewrite Esl, Efa.
Qed.

(** ** The generator *)

(** [drand48] gives the multiples of 2^-48 below 1. *)
Definition multiples {G} (drand48 : G -> spec_float * G) : Prop := forall g, exists k, 0 <= k < 2 ^ 48 /\ fst (drand48 g) = f_lit k (-48).

Lemma lit_units k : 0 <= k -> f64_nonneg (f_lit k (-48)) = true /\ f64_units (f_lit k (-48)) = f_nearest f64_prec f64_emax (k * 2 ^ 1026).
Proof.
  intros Hk. destruct k as [|p|p]; [by split; vm_compute| |lia]. pose proof (binary_round_units f64_prec f64_emax ltac:(done) ltac:(done) p (-48) ltac:(done)) as H. exact H.
Qed.

Lemma lit_mono k m : 0 <= k <= m -> f64_units (f_lit k (-48)) <= f64_units (f_lit m (-48)).
Proof.
  intros Hk. rewrite (proj2 (lit_units k ltac:(lia))), (proj2 (lit_units m ltac:(lia))). pose proof (pow2_pos 1026 ltac:(lia)) as P. set (q := 2 ^ 1026) in *. clearbody q. apply nearest_mono; [done|done|nia|nia].
Qed.

(** The condition of the theorem on resampling, for such a generator. *)
Lemma multiples_below {G} (drand48 : G -> spec_float * G) total : multiples drand48 -> f64_nonneg total = true -> flt (f_lit (2 ^ 48 - 1) (-48)) total = true -> draws_below drand48 total.
Proof.
  intros Hm Ht Hlt g. destruct (Hm g) as (k & Hk & ->). pose proof (lit_mono k (2 ^ 48 - 1) ltac:(lia)) as Hle. destruct (lit_units k) as [Hn _]; [lia|]. destruct (lit_units (2 ^ 48 - 1)) as [Hn' _]; [done|]. split; [exact Hn|].
  revert Hle Hn' Hlt. generalize (f_lit (2 ^ 48 - 1) (-48)). revert Hn. generalize (f_lit k (-48)). intros x Hn y Hle Hn' Hlt. rewrite flt_units in * by assumption. apply Z.ltb_lt. apply Z.ltb_lt in Hlt. eapply Z.le_lt_trans; [exact Hle|exact Hlt].
Qed.

(** C10. Allocation and initialisation from a model, for any positive number of
    samples the tree can be made for and any model whose poses are in range, pass all the assertions:
    the filter then holds the maximal number of samples, with equal weights,
    in range, and their histogram; the averages and the flags are reset. *)
Theorem pf_alloc_init_ready `{Libm} {G} (init_fn : G -> pf_vector_t * G) min max slow fast g : 1 <= max -> 3 * max < 2 ^ 31 -> (forall g, in_range (fst (init_fn g))) ->
  exists pf g' a h, (pf ← pf_alloc min max slow fast; pf_init_model pf init_fn g) = Some (pf, g') /\ pf_ok pf /\ current pf = Some a /\ sample_count a = max /\
    histogram_of a h /\ poses_in_range a /\ pf_converged pf = false /\ set_converged a = false /\ w_slow pf = f_zero /\ w_fast pf = f_zero /\
    forall i s, 0 <= i < max -> aget (samples a) i = Some s -> ps_weight s = fdiv f_one (f_of_Z max).
Proof.
  intros Hm Hm3 Hinit. destruct (pf_alloc_ok min max slow fast Hm Hm3) as (pf0 & -> & Hpf0 & El). mred. assert (Em : max_samples pf0 = max) by exact (f_equal (fun p => snd (fst (fst p))) El).
  destruct (init_model_ok init_fn pf0 g Hpf0 Hinit) as (pf & g' & a & h & E & Hpf & Ea & Ec & Hh & Hp & H1 & H2 & H3 & H4 & Hs & _). rewrite Em in *. exists pf, g', a, h. split_and!; try done. intros i s Hi. apply Hs. lia.
Qed.

(** ** Examples *)

Definition plain_libm : Libm := {| m_cos _ := f_one; m_sin _ := f_zero; m_atan2 _ _ := f_zero; m_log x := x |}.

(** The sum of equal weights. *)
Lemma weight_sum_const l w n : 0 <= n <= alen l -> (forall i s, 0 <= i < n -> aget l i = Some s -> ps_weight s = w) -> weight_sum l n = Nat.iter (Z.to_nat n) (fun x => fadd x w) f_zero.
Proof.
  intros [H0 H1]. revert n H0 H1. refine (natlike_ind _ _ _); [done|]. intros n Hn IH Hl Hw. rewrite Z2Nat.inj_succ by done. cbn [Nat.iter nat_rect]. rewrite <- Z.add_1_r. destruct (aget_is_Some l n) as [s Es]; [lia|].
  rewrite (weight_sum_step _ _ _ Es), IH, (Hw n s); [done|lia|done|lia|]. intros i s' Hi. apply Hw. lia.
Qed.

Definition example_init (g : Z) : pf_vector_t * Z := (if Z.even g then example_pose 1 else example_pose 25, g + 1).

Lemma example_init_range g : in_range (fst (example_init g)).
Proof. unfold example_init. cbn [fst]. destruct (Z.even g); [exists (0, 0, 0)|exists (5, 0, 0)]; vm_compute; done. Qed.

(** A filter of [max] samples of equal weights. *)
Lemma example_filter max : 1 <= max -> 3 * max < 2 ^ 31 -> exists pf g' a, (pf ← pf_alloc 1 max f_zero f_zero; pf_init_model (H := plain_libm) pf example_init 0) = Some (pf, g') /\ pf_ok pf /\ current pf = Some a /\ poses_in_range a /\
  sample_count a = max /\ random_share pf = fsub f_one (fdiv f_zero f_zero) /\ (forall i s, 0 <= i < sample_count a -> aget (samples a) i = Some s -> ps_weight s = fdiv f_one (f_of_Z max)) /\
  weight_sum (samples a) (sample_count a) = Nat.iter (Z.to_nat max) (fun x => fadd x (fdiv f_one (f_of_Z max))) f_zero /\ pf_limits pf = (1, max, fdiv f_one (f_of_Z 100), f_of_Z 3).
Proof.
  intros Hm Hm3. destruct (pf_alloc_ok 1 max f_zero f_zero Hm Hm3) as (pf0 & -> & Hpf0 & El). mred. assert (Em : max_samples pf0 = max) by exact (f_equal (fun p => snd (fst (fst p))) El).
  destruct (init_model_ok (H := plain_libm) example_init pf0 0 Hpf0 example_init_range) as (pf & g' & a & h & E & Hpf & Ea & Ec & _ & Hp & _ & _ & H3 & H4 & Hs & Elim). rewrite Em in *. exists pf, g', a.
  split; [exact E|]. split; [done|]. split; [done|]. split; [done|]. split; [done|]. split; [unfold random_share; by rewrite H3, H4|]. split; [done|]. split; [|congruence].
  destruct (pf_sets pf Hpf) as (a' & _ & Ea' & _ & Ha & _). assert (a' = a) as -> by congruence. rewrite Ec. apply weight_sum_const; [rewrite (so_samples _ _ Ha); unfold pf_limits in *; assert (max_samples pf = max) by congruence; lia|]. intros i s Hi. apply Hs. by rewrite Ec.
Qed.

(** 154 equal weights add up to less than the largest number the generator
    gives. *)
Lemma pf_update_resample_asserts_witness : exists pf g', (pf ← pf_alloc 1 154 f_zero f_zero; pf_init_model (H := plain_libm) pf example_init 0) = Some (pf, g') /\
  pf_update_resample (H := plain_libm) (fun g => (f_lit (2 ^ 48 - 1) (-48), g)) example_init pf g' = None.
Proof.
  destruct (example_filter 154 ltac:(done) ltac:(done)) as (pf & g' & a & E & Hpf & Ea & _ & Ec & Eshare & Hs & Esum & _). exists pf, g'. split; [exact E|].
  apply (pf_update_resample_asserts (H := plain_libm) _ example_init pf a g' (f_lit (2 ^ 48 - 1) (-48)) g' (f_lit (2 ^ 48 - 1) (-48)) g'); [exact Hpf|exact Ea| |reflexivity|rewrite Eshare; vm_compute; reflexivity|reflexivity|vm_compute; reflexivity|rewrite Esum; vm_compute; reflexivity].
  intros i s Hi Es. rewrite (Hs i s Hi Es). vm_compute. reflexivity.
Defined.

Lemma pf_update_resample_safe_witness : exists pf g' pf' g'', (pf ← pf_alloc 1 4 f_zero f_zero; pf_init_model (H := plain_libm) pf example_init 0) = Some (pf, g') /\
  pf_update_resample (H := plain_libm) (fun g => (f_lit 1 (-1), g)) example_init pf g' = Some (pf', g'') /\ current_set pf' = 1 - current_set pf /\ pf_ok pf'.
Proof.
  destruct (example_filter 4 ltac:(done) ltac:(done)) as (pf & g' & a & E & Hpf & Ea & Hp & Ec & Eshare & Hs & Esum & Elim). exists pf, g'.
  destruct (pf_update_resample_safe (H := plain_libm) (fun g => (f_lit 1 (-1), g)) example_init pf a g') as (pf' & g'' & b & h & w & E2 & Hpf' & Ecur & _).
  - exact Hpf.
  - exact Ea.
  - exact Hp.
  - intros i s Hi Es. rewrite (Hs i s Hi Es). vm_compute. reflexivity.
  - intros g. rewrite Esum. cbn [fst]. split; vm_compute; reflexivity.
  - exact example_init_range.
  - intros k Hk. unfold pf_limits in Elim. injection Elim as E1 E2 E3 E4. assert (k = 2 \/ k = 3 \/ k = 4) as Hk' by lia. unfold pf_resample_limit. rewrite E1, E2, E3, E4. destruct Hk' as [-> |[-> | ->]]; vm_compute; by eexists.
  - exists pf', g''. split; [exact E|]. split; [exact E2|]. split; [exact Ecur|exact Hpf'].
Defined.

Lemma pf_alloc_init_ready_witness : exists pf g', (pf ← pf_alloc 1 4 f_zero f_zero; pf_init_model (H := plain_libm) pf example_init 0) = Some (pf, g') /\ pf_ok pf.
Proof.
  destruct (pf_alloc_init_ready (H := plain_libm) example_init 1 4 f_zero f_zero 0 ltac:(done) ltac:(done) example_init_range) as (pf & g' & a & h & E & Hpf & _). exists pf, g'. split; [exact E|exact Hpf].
Defined.

Lemma pf_update_sensor_weights_witness : exists pf a pf' b, pf_ok pf /\ current pf = Some a /\ pf_update_sensor pf (fun s => (f_of_Z 2, s)) = Some pf' /\ current pf' = Some b /\ sample_count b = 4.
Proof.
  destruct (example_filter 4 ltac:(done) ltac:(done)) as (pf & g' & a & _ & Hpf & Ea & _ & Ec & _). assert (Ha : set_ok (max_samples pf) a). { destruct (pf_sets pf Hpf) as (a' & _ & Ea' & _ & Ha & _). assert (a' = a) as -> by congruence. exact Ha. }
  destruct (pf_update_sensor_weights pf a (fun s => (f_of_Z 2, s)) (f_of_Z 2) a Hpf Ea eq_refl Ha) as (pf' & b & E & _ & Ecur & _ & En & _). exists pf, a, pf', b. split; [exact Hpf|]. split; [exact Ea|]. split; [exact E|]. split; [exact Ecur|]. by rewrite En.
Defined.
