(* ===== verification/CollisionChecker.v ===== *)
(** The footprint collision checkers of nav2_costmap_2d
    (footprint_collision_checker.cpp) and of nav2_smac_planner
    (collision_checker.cpp). *)

From S2P Require Import Prelude Floats Bresenham Costmap2D Footprint FloatOrder LineIterator.

(** ** The cost of a footprint *)

(** Costs are bytes, converted to [double]. *)
Definition cost_of (c : Z) : spec_float := f_of_Z c.
Definition LETHAL : spec_float := cost_of LETHAL_OBSTACLE.
Definition UNKNOWN : spec_float := cost_of NO_INFORMATION.

Definition pointCost (m : Costmap2D) (x y : Z) : option spec_float := c ← getCost m (u32 x) (u32 y); Some (cost_of c).

Definition line_body (m : Costmap2D) (x y : Z) (line_cost : spec_float) : option (ctl spec_float) :=
  point_cost ← pointCost m x y;
  Some (if feq point_cost LETHAL then Break point_cost else Next (if flt line_cost point_cost then point_cost else line_cost)).

Definition lineCost (m : Costmap2D) (x0 x1 y0 y1 : Z) : option spec_float := iterate_line (s32 x0) (s32 y0) (s32 x1) (s32 y1) (line_body m) f_zero.

(** The loop over the other vertices: the last vertex and the cost so far, or
    the answer of an early return. *)
Fixpoint footprint_edges (m : Costmap2D) (points : list Point) (p0 : MapLocation) (p1 : option MapLocation) (cost : spec_float) :
    option (option MapLocation * spec_float + spec_float) :=
  match points with
  | [] => Some (inl (p1, cost))
  | v :: points =>
      loc ← worldToMap m (px v) (py v);
      match loc with
      | None => Some (inr LETHAL)
      | Some p1 =>
          c ← lineCost m (loc_x p0) (loc_x p1) (loc_y p0) (loc_y p1);
          let cost := fmax c cost in
          if feq cost LETHAL then Some (inr cost) else footprint_edges m points p1 (Some p1) cost
      end
  end.

(** With a single vertex, the second one is read uninitialized. *)
Definition footprintCost (m : Costmap2D) (footprint : list Point) : option spec_float :=
  first ← aget footprint 0;
  start ← worldToMap m (px first) (py first);
  match start with
  | None => Some LETHAL
  | Some p0 =>
      r ← footprint_edges m (tail footprint) p0 None f_zero;
      match r with
      | inr answer => Some answer
      | inl (p1, cost) => p1 ← p1; c ← lineCost m (loc_x p0) (loc_x p1) (loc_y p0) (loc_y p1); Some (fmax c cost)
      end
  end.

Section trigonometry.
Context (cos sin : spec_float -> spec_float).

Definition footprintCostAtPose (m : Costmap2D) (x y theta : spec_float) (footprint : list Point) : option spec_float :=
  let cos_th := cos theta in
  let sin_th := sin theta in
  footprintCost m ((fun p => let '(new_x, new_y) := orient x y cos_th sin_th p in mkPoint new_x new_y f_zero) <$> footprint).

(** ** The grid collision checker *)

Record GridCollisionChecker := mkChecker {
  gc_costmap_ : Costmap2D;
  oriented_footprints_ : list (list Point);
  unoriented_footprint_ : list Point;
  footprint_cost_ : spec_float;
  footprint_is_radius_ : bool;
  angles_ : list spec_float;
  possible_inscribed_cost_ : spec_float;
}.

Definition set_footprint_cost (g : GridCollisionChecker) (c : spec_float) : GridCollisionChecker :=
  mkChecker (gc_costmap_ g) (oriented_footprints_ g) (unoriented_footprint_ g) c (footprint_is_radius_ g) (angles_ g) (possible_inscribed_cost_ g).

(** [float bin_size]; the angles are single precision. *)
Definition GridCollisionChecker_new (m : Costmap2D) (num_quantizations : Z) (footprint_cost : spec_float) (is_radius : bool) : GridCollisionChecker :=
  let bin_size := s_of_f (fdiv (fmul (f_of_Z 2) M_PI) (f_of_s (s_of_Z num_quantizations))) in
  mkChecker m [] [] footprint_cost is_radius ((fun i => smul bin_size (s_of_Z i)) <$> zrange 0 num_quantizations) (f_of_Z (-1)).

Definition rotate_point (sin_th cos_th : spec_float) (p : Point) : Point :=
  mkPoint (fsub (fmul (px p) cos_th) (fmul (py p) sin_th)) (fadd (fmul (px p) sin_th) (fmul (py p) cos_th)) f_zero.

Definition same_point (p q : Point) : bool := feq (px p) (px q) && feq (py p) (py q) && feq (pz p) (pz q).
Fixpoint same_footprint (f g : list Point) : bool :=
  match f, g with
  | [], [] => true
  | p :: f, q :: g => same_point p q && same_footprint f g
  | _, _ => false
  end.

Definition setFootprint (g : GridCollisionChecker) (footprint : list Point) (radius : bool) (possible_inscribed_cost : spec_float) : GridCollisionChecker :=
  let g := mkChecker (gc_costmap_ g) (oriented_footprints_ g) (unoriented_footprint_ g) (footprint_cost_ g) radius (angles_ g) possible_inscribed_cost in
  if radius then g
  else if same_footprint footprint (unoriented_footprint_ g) then g
  else mkChecker (gc_costmap_ g) ((fun a => rotate_point (sin (f_of_s a)) (cos (f_of_s a)) <$> footprint) <$> angles_ g) footprint (footprint_cost_ g) radius (angles_ g) possible_inscribed_cost.

Definition outsideRange (max : Z) (value : spec_float) : bool := flt value f_zero || fgt value (s_of_Z max).

Definition inCollision (g : GridCollisionChecker) (x y angle_bin : spec_float) (traverse_unknown : bool) : option (GridCollisionChecker * bool) :=
  let m := gc_costmap_ g in
  if outsideRange (size_x_ m) x || outsideRange (size_y_ m) y then Some (g, true)
  else
    mx ← f_to_u32 x; my ← f_to_u32 y;
    let '(wx, wy) := mapToWorld m mx my in
    c ← getCost m mx my;
    let g := set_footprint_cost g (cost_of c) in
    if negb (footprint_is_radius_ g) then
      if flt (footprint_cost_ g) (possible_inscribed_cost_ g) && fgt (possible_inscribed_cost_ g) f_zero then Some (g, false)
      else if feq (footprint_cost_ g) UNKNOWN && negb traverse_unknown then Some (g, true)
      else if feq (footprint_cost_ g) (cost_of INSCRIBED_INFLATED_OBSTACLE) || feq (footprint_cost_ g) LETHAL then Some (g, true)
      else
        bin ← f_trunc angle_bin;
        oriented ← aget (oriented_footprints_ g) bin;
        cost ← footprintCost m ((fun p => mkPoint (fadd wx (px p)) (fadd wy (py p)) f_zero) <$> oriented);
        let g := set_footprint_cost g cost in
        Some (g, if feq cost UNKNOWN && traverse_unknown then false else fge cost LETHAL)
    else
      Some (g, if feq (footprint_cost_ g) UNKNOWN && traverse_unknown then false else fge (footprint_cost_ g) (cost_of INSCRIBED_INFLATED_OBSTACLE)).

Definition inCollision_index (g : GridCollisionChecker) (i : Z) (traverse_unknown : bool) : option (GridCollisionChecker * bool) :=
  c ← getCost_index (gc_costmap_ g) i;
  let g := set_footprint_cost g (cost_of c) in
  Some (g, if feq (footprint_cost_ g) UNKNOWN && traverse_unknown then false else fge (footprint_cost_ g) (cost_of INSCRIBED_INFLATED_OBSTACLE)).
End trigonometry.

(** ** Bytes as numbers *)

Lemma cost_lt a b : is_u8 a -> is_u8 b -> flt (cost_of a) (cost_of b) = (a <? b).
Proof.
  unfold is_u8, cost_of. intros Ha Hb. destruct (int_units a ltac:(lia)) as [Hn Hu], (int_units b ltac:(lia)) as [Hn' Hu']. rewrite flt_units, Hu, Hu' by done.
  pose proof (pow2_pos 1074 ltac:(lia)) as P. set (u := 2 ^ 1074) in *. clearbody u. apply eq_iff_eq_true. rewrite !Z.ltb_lt. nia.
Qed.

Lemma cost_eq a b : is_u8 a -> is_u8 b -> feq (cost_of a) (cost_of b) = (a =? b).
Proof.
  intros Ha Hb. pose proof Ha as Ha'. pose proof Hb as Hb'. unfold is_u8, cost_of in *. destruct (int_units a ltac:(lia)) as [Hn Hu], (int_units b ltac:(lia)) as [Hn' Hu'].
  pose proof (f_eq_units f64_prec f64_emax ltac:(done) ltac:(done) (f_of_Z a) (f_of_Z b) Hn Hn') as E. unfold feq. rewrite E. change (f_units f64_prec f64_emax (f_of_Z a)) with (f64_units (f_of_Z a)). change (f_units f64_prec f64_emax (f_of_Z b)) with (f64_units (f_of_Z b)).
  rewrite Hu, Hu'. pose proof (pow2_pos 1074 ltac:(lia)) as P. set (u := 2 ^ 1074) in *. clearbody u. apply eq_iff_eq_true. rewrite !Z.eqb_eq. nia.
Qed.

Lemma cost_max a b : is_u8 a -> is_u8 b -> fmax (cost_of a) (cost_of b) = cost_of (Z.max a b).
Proof. intros Ha Hb. unfold fmax. rewrite cost_lt by done. destruct (Z.ltb_spec a b); f_equal; lia. Qed.

(** ** The cost of a line *)

Definition cell_cost (m : Costmap2D) (r : MapLocation) : Z := default 0 (cost_at m (loc_x r) (loc_y r)).

(** The largest cost of the cells, or the first lethal one. *)
Fixpoint line_scan (costs : list Z) (v : Z) : Z := match costs with [] => v | c :: costs => if c =? LETHAL_OBSTACLE then LETHAL_OBSTACLE else line_scan costs (Z.max v c) end.

Definition edge_cost (m : Costmap2D) (e : MapLocation * MapLocation) : Z := line_scan (cell_cost m <$> line2 (fst e) (snd e)) 0.

Lemma line_scan_lethal costs v : LETHAL_OBSTACLE ∈ costs -> line_scan costs v = LETHAL_OBSTACLE.
Proof. revert v. induction costs as [|c costs IH]; intros v; [by intros ?%elem_of_nil|]. cbn [line_scan]. intros [<-|Hin]%elem_of_cons; [by rewrite Z.eqb_refl|]. destruct (c =? LETHAL_OBSTACLE); [done|by apply IH]. Qed.

Lemma line_scan_max costs v : LETHAL_OBSTACLE ∉ costs -> (forall c, c ∈ costs -> c <= line_scan costs v) /\ v <= line_scan costs v /\ (line_scan costs v = v \/ line_scan costs v ∈ costs).
Proof.
  revert v. induction costs as [|c costs IH]; intros v Hn; cbn [line_scan]; [split; [by intros c ?%elem_of_nil|split; [lia|by left]]|].
  apply not_elem_of_cons in Hn as [Hc Hn]. rewrite (proj2 (Z.eqb_neq c LETHAL_OBSTACLE)) by congruence. destruct (IH (Z.max v c) Hn) as (H1 & H2 & H3). split; [|split; [lia|]].
  - intros x [->|Hx]%elem_of_cons; [lia|by apply H1].
  - destruct H3 as [H3|H3]; [|right; by right]. destruct (Z.max_spec v c) as [[? Em]|[? Em]]; rewrite Em in H3 |- *; [right; rewrite H3; left|by left].
Qed.

Section checker.
Context (m : Costmap2D) (costs : list Z) (Hm : wf_map m costs) (Hc : Forall is_u8 costs) (Hsize : size_x_ m <= 2 ^ 29 /\ size_y_ m <= 2 ^ 29).

Lemma loc_small p : loc_on m p -> small (loc_x p) /\ small (loc_y p).
Proof using Hsize. intros [Hx Hy]. unfold small. lia. Qed.

Lemma cell_on r : loc_on m r -> exists c, getCost m (loc_x r) (loc_y r) = Some c /\ cell_cost m r = c /\ is_u8 c.
Proof using Hm Hc.
  intros Hr. destruct (getIndex_small m costs _ _ Hm Hr) as [Ei Hb]. unfold getCost, cell_cost, cost_at, grid_at. rewrite (wf_some _ _ Hm). mred. rewrite Ei.
  destruct (aget_is_Some costs (loc_y r * size_x_ m + loc_x r)) as [c Ec]; [rewrite (wf_alen _ _ Hm); lia|]. rewrite Ec. exists c. split; [done|]. split; [done|]. rewrite Forall_forall in Hc. apply Hc. by eapply aget_elem.
Qed.

Lemma line_on p q r : loc_on m p -> loc_on m q -> r ∈ line2 p q -> loc_on m r.
Proof using Hsize.
  intros [Hpx Hpy] [Hqx Hqy] Hr. assert (extent2 p q < 2 ^ 31) by (unfold extent2; lia). destruct (line2_in_box p q r) as [Hx Hy]; [done|done|]. split; lia.
Qed.

Lemma run_line cells v : (forall r, r ∈ cells -> loc_on m r) -> is_u8 v -> run_until (line_body m) cells (cost_of v) = Some (cost_of (line_scan (cell_cost m <$> cells) v)) /\ is_u8 (line_scan (cell_cost m <$> cells) v).
Proof using All.
  revert v. induction cells as [|r cells IH]; intros v Hon Hv; [done|]. cbn [run_until fmap list_fmap line_scan]. destruct (cell_on r (Hon r ltac:(left))) as (c & Ec & -> & Hu).
  destruct (Hon r ltac:(left)) as [Hx Hy]. pose proof (wf_sx _ _ Hm). pose proof (wf_sy _ _ Hm).
  assert (E : line_body m (loc_x r) (loc_y r) (cost_of v) = Some (if feq (cost_of c) LETHAL then Break (cost_of c) else Next (if flt (cost_of v) (cost_of c) then cost_of c else cost_of v))).
  { unfold line_body, pointCost. rewrite !u32_small by (unfold is_u32; lia). by rewrite Ec. }
  rewrite E. mred. unfold LETHAL.
  rewrite cost_eq by done. destruct (Z.eqb_spec c LETHAL_OBSTACLE) as [->|Hne]; mred; [done|]. rewrite cost_lt by done.
  replace (if v <? c then cost_of c else cost_of v) with (cost_of (Z.max v c)) by (destruct (Z.ltb_spec v c); f_equal; lia).
  apply IH; [intros r' Hr'; apply Hon; by right|unfold is_u8 in *; lia].
Qed.

Lemma lineCost_ok p q : loc_on m p -> loc_on m q -> lineCost m (loc_x p) (loc_x q) (loc_y p) (loc_y q) = Some (cost_of (edge_cost m (p, q))) /\ is_u8 (edge_cost m (p, q)).
Proof using All.
  intros Hp Hq. pose proof (loc_small p Hp) as Sp. pose proof (loc_small q Hq) as Sq. unfold lineCost. rewrite !s32_small by (unfold is_s32, small in *; lia). rewrite iterate_line_cells by done.
  apply (run_line (line2 p q) 0); [|done]. intros r. by apply line_on.
Qed.

(** ** The cost of the outline *)

(** The pairs of consecutive vertices, and the first with the last. *)
Definition polygon_edges {A} (l : list A) : list (A * A) := zip l (tail l) ++ match l, last l with a :: _, Some z => [(a, z)] | _, _ => [] end.

Definition maps_to (v : Point) (l : option MapLocation) : Prop := worldToMap m (px v) (py v) = Some l.

Lemma maps_to_on v p : maps_to v (Some p) -> loc_on m p.
Proof using Hm.
  unfold maps_to, worldToMap. destruct (_ || _); [done|]. destruct (f_to_u32 (fdiv (fsub (px v) _) _)) as [x|] eqn:Ex; [|done]. mred. destruct (f_to_u32 (fdiv (fsub (py v) _) _)) as [y|] eqn:Ey; [|done]. mred.
  destruct ((x <? size_x_ m) && (y <? size_y_ m)) eqn:E; [|done]. intros [= <-]. apply andb_true_iff in E as [E1 E2]. pose proof (f_to_u32_inv _ _ Ex) as [_ [Hx _]]. pose proof (f_to_u32_inv _ _ Ey) as [_ [Hy _]]. zbool. split; cbn [loc_x loc_y]; lia.
Qed.

(** The cells below the edges of a polygon. *)
Definition lethal_edge (e : MapLocation * MapLocation) : Prop := LETHAL_OBSTACLE ∈ cell_cost m <$> line2 (fst e) (snd e).

Lemma edge_cost_lethal e : edge_cost m e = LETHAL_OBSTACLE -> lethal_edge e.
Proof using Type.
  intros E. unfold lethal_edge. destruct (decide (LETHAL_OBSTACLE ∈ cell_cost m <$> line2 (fst e) (snd e))) as [|Hn]; [done|]. destruct (line_scan_max _ 0 Hn) as (_ & _ & [H|H]); unfold edge_cost in E; rewrite E in H; [done|done].
Qed.

Lemma footprint_edges_ok points : forall locs p0 p1 v, Forall2 maps_to points locs -> loc_on m p0 -> is_u8 v -> v <> LETHAL_OBSTACLE ->
  (footprint_edges m points p0 p1 (cost_of v) = Some (inr LETHAL) /\ (None ∈ locs \/ exists ls e, Some <$> ls `prefix_of` locs /\ e ∈ zip (p0 :: ls) ls /\ lethal_edge e)) \/
  exists ls v', locs = Some <$> ls /\ footprint_edges m points p0 p1 (cost_of v) = Some (inl (match last ls with Some l => Some l | None => p1 end, cost_of v')) /\ is_u8 v' /\ v' <> LETHAL_OBSTACLE /\
    Forall (loc_on m) ls /\ v' = foldl (fun v e => Z.max (edge_cost m e) v) v (zip (p0 :: ls) ls).
Proof using All.
  induction points as [|pt points IH]; intros locs p0 p1 v Hlocs Hp0 Hv Hne.
  - apply Forall2_nil_inv_l in Hlocs as ->. right. exists [], v. by split_and!.
  - apply Forall2_cons_inv_l in Hlocs as (l & locs' & Hl & Hlocs' & ->). cbn [footprint_edges]. pose proof Hl as Hl'. unfold maps_to in Hl'. rewrite Hl'. mred. destruct l as [q|]; [|left; split; [done|left; by left]].
    pose proof (maps_to_on _ _ Hl) as Hq. destruct (lineCost_ok p0 q Hp0 Hq) as [-> Hu]. mred. rewrite cost_max by done. assert (Hv' : is_u8 (Z.max (edge_cost m (p0, q)) v)) by (unfold is_u8 in *; lia).
    unfold LETHAL. rewrite cost_eq by done. destruct (Z.eqb_spec (Z.max (edge_cost m (p0, q)) v) LETHAL_OBSTACLE) as [El|Hnl].
    + left. rewrite El. split; [done|]. right. exists [q], (p0, q). split; [by exists locs'|]. split; [by left|]. apply edge_cost_lethal. lia.
    + destruct (IH locs' q (Some q) _ Hlocs' Hq Hv' Hnl) as [[E [Hoff|(ls & e & [rest Hpre] & He & Hlet)]]|(ls & v' & -> & E & Hu' & Hn' & Hon & Ev)].
      * left. split; [exact E|]. left. by right.
      * left. split; [exact E|]. right. exists (q :: ls), e. split; [exists rest; by rewrite Hpre|]. split; [by right|done].
      * right. exists (q :: ls), v'. split; [done|]. split; [|split; [done|split; [done|split; [by constructor|exact Ev]]]]. rewrite E. destruct ls as [|l ls]; [done|]. rewrite last_cons_cons. by destruct (last (l :: ls)) eqn:El; [|apply last_None in El].
Qed.

Lemma fold_max_spec {A} (f : A -> Z) l v : v <= foldl (fun v e => Z.max (f e) v) v l /\ (forall e, e ∈ l -> f e <= foldl (fun v e => Z.max (f e) v) v l) /\
  (foldl (fun v e => Z.max (f e) v) v l = v \/ exists e, e ∈ l /\ f e = foldl (fun v e => Z.max (f e) v) v l).
Proof using Type.
  revert v. induction l as [|a l IH]; intros v; cbn [foldl]; [split; [lia|split; [by intros e ?%elem_of_nil|by left]]|].
  destruct (IH (Z.max (f a) v)) as (H1 & H2 & H3). split; [lia|split].
  - intros e [->|He]%elem_of_cons; [lia|by apply H2].
  - destruct H3 as [H3|(e & He & E)]; [|right; exists e; split; [by right|done]]. destruct (Z.max_spec (f a) v) as [[? Em]|[? Em]]; [left; lia|right; exists a; split; [left|lia]].
Qed.

(** The cells of the outline of a polygon all of whose vertices are on the map. *)
Definition outline (locs : list (option MapLocation)) (r : MapLocation) : Prop := exists ls e, locs = Some <$> ls /\ e ∈ polygon_edges ls /\ r ∈ line2 (fst e) (snd e).

Lemma edge_cells e : 
  (edge_cost m e < LETHAL_OBSTACLE -> forall r, r ∈ line2 (fst e) (snd e) -> cell_cost m r <= edge_cost m e) /\
  (0 < edge_cost m e -> exists r, r ∈ line2 (fst e) (snd e) /\ cell_cost m r = edge_cost m e).
Proof using Type.
  destruct (decide (lethal_edge e)) as [Hl|Hn].
  - pose proof (line_scan_lethal _ 0 Hl) as E. fold (edge_cost m e) in E. rewrite E. split; [lia|]. intros _. apply list_elem_of_fmap in Hl as (r & Er & Hr). by exists r.
  - destruct (line_scan_max _ 0 Hn) as (H1 & H2 & H3). fold (edge_cost m e) in *. split.
    + intros _ r Hr. apply H1. apply list_elem_of_fmap. by exists r.
    + intros H0. destruct H3 as [H3|H3]; [lia|]. apply list_elem_of_fmap in H3 as (r & Er & Hr). by exists r.
Qed.

Lemma footprintCost_value footprint locs : 2 <= alen footprint -> Forall2 maps_to footprint locs ->
  (footprintCost m footprint = Some LETHAL /\ (None ∈ locs \/ exists r, outline locs r /\ cell_cost m r = LETHAL_OBSTACLE)) \/
  exists ls c, locs = Some <$> ls /\ footprintCost m footprint = Some (cost_of c) /\ is_u8 c /\ c = foldl (fun v e => Z.max (edge_cost m e) v) 0 (polygon_edges ls).
Proof using All.
  intros Hlen Hlocs. destruct footprint as [|v points]; [unfold alen in Hlen; cbn in Hlen; lia|]. apply Forall2_cons_inv_l in Hlocs as (l & locs' & Hl & Hlocs & ->). unfold footprintCost. rewrite aget_cons_0. mred.
  pose proof Hl as Hl'. unfold maps_to in Hl'. rewrite Hl'. mred. destruct l as [p0|]; [|left; split; [done|left; by left]]. pose proof (maps_to_on _ _ Hl) as Hp0. cbn [tail].
  destruct (footprint_edges_ok points locs' p0 None 0 Hlocs Hp0 ltac:(done) ltac:(done)) as [[E Hlet]|(ls & c & -> & E & Hu & Hne & Hon & Ec)]; change f_zero with (cost_of 0); rewrite E; mred.
  - left. split; [done|]. destruct (decide (None ∈ locs')) as [Hin|Hnin]; [left; by right|]. destruct Hlet as [?|(ls & e & [rest Hpre] & He & Hlet)]; [done|]. right.
    assert (Hrest : exists rest', rest = Some <$> rest').
    { clear -Hnin Hpre. assert (Hn : None ∉ rest) by (intros H; apply Hnin; rewrite Hpre; apply elem_of_app; by right). clear Hnin Hpre. induction rest as [|[x|] rest IH]; [by exists []| |exfalso; apply Hn; left].
      apply not_elem_of_cons in Hn as [_ Hn]. destruct (IH Hn) as [r' ->]. by exists (x :: r'). }
    destruct Hrest as [rest' ->]. apply list_elem_of_fmap in Hlet as (r & Er & Hr). exists r. split; [|done]. exists (p0 :: ls ++ rest'), e. split; [by rewrite Hpre, <- fmap_app|]. split; [|done].
    unfold polygon_edges. apply elem_of_app. left. cbn [tail]. clear -He. revert He. generalize p0. induction ls as [|x ls IH]; intros p He; [by apply elem_of_nil in He|]. cbn [zip zip_with app] in *. apply elem_of_cons in He as [->|He]; [left|right; by apply IH].
  - destruct ls as [|l ls]. { apply Forall2_length in Hlocs. unfold alen in Hlen. cbn in *. lia. }
    destruct (last (l :: ls)) as [pl|] eqn:El; [|by apply last_None in El]. mred. assert (Hpl : loc_on m pl). { rewrite Forall_forall in Hon. apply Hon. by apply last_Some_elem_of in El. }
    destruct (lineCost_ok p0 pl Hp0 Hpl) as [-> Hu']. mred. rewrite cost_max by done. right. exists (p0 :: l :: ls), (Z.max (edge_cost m (p0, pl)) c). split; [done|]. split; [done|]. split; [unfold is_u8 in *; lia|].
    unfold polygon_edges. rewrite last_cons_cons, El, foldl_app. cbn [tail foldl]. rewrite Ec. done.
Qed.
End checker.

(** C17. The cost of a footprint over a well-formed map, for vertices that can be
    converted: it is below LETHAL exactly when every vertex is on the map and
    every cell of the outline is below LETHAL, and it is then the largest cost
    of these cells; LETHAL means that a vertex is off the map or a cell of the
    outline is lethal, and NO_INFORMATION that a cell is unknown. *)
Theorem footprintCost_outline m costs footprint locs :
  wf_map m costs -> Forall is_u8 costs -> size_x_ m <= 2 ^ 29 -> size_y_ m <= 2 ^ 29 -> 2 <= alen footprint -> Forall2 (maps_to m) footprint locs ->
  exists c, footprintCost m footprint = Some (cost_of c) /\ is_u8 c /\
    (c < LETHAL_OBSTACLE <-> None ∉ locs /\ forall r, outline locs r -> cell_cost m r < LETHAL_OBSTACLE) /\
    (c < LETHAL_OBSTACLE -> (forall r, outline locs r -> cell_cost m r <= c) /\ (c = 0 \/ exists r, outline locs r /\ cell_cost m r = c)) /\
    (c = LETHAL_OBSTACLE -> None ∈ locs \/ exists r, outline locs r /\ cell_cost m r = LETHAL_OBSTACLE) /\
    (c = NO_INFORMATION -> exists r, outline locs r /\ cell_cost m r = NO_INFORMATION).
Proof.
  intros Hm Hc Hsx Hsy Hlen Hlocs. destruct (footprintCost_value m costs Hm Hc (conj Hsx Hsy) footprint locs Hlen Hlocs) as [[E Hlet]|(ls & c & -> & E & Hu & Ec)].
  - exists LETHAL_OBSTACLE. split; [exact E|]. split; [done|]. split; [|split; [lia|split; [done|done]]]. split; [lia|]. intros [Hn Ha]. destruct Hlet as [?|(r & Hr & Er)]; [done|]. specialize (Ha r Hr). lia.
  - exists c. split; [exact E|]. split; [done|]. destruct (fold_max_spec (edge_cost m) (polygon_edges ls) 0) as (H0 & H1 & H2). rewrite <- Ec in *.
    assert (Hout : forall r, outline (Some <$> ls) r <-> exists e, e ∈ polygon_edges ls /\ r ∈ line2 (fst e) (snd e)).
    { intros r. split; [intros (ls' & e & El & He); apply (inj (fmap Some)) in El as <-; by exists e|intros (e & He); by exists ls, e]. }
    assert (Hatt : c = 0 \/ exists r, outline (Some <$> ls) r /\ cell_cost m r = c).
    { destruct (Z.eq_dec c 0) as [|Hne]; [by left|right]. destruct H2 as [H2|(e & He & Ee)]; [done|]. destruct (proj2 (edge_cells m e)) as (r & Hr & Er); [lia|]. exists r. split; [apply Hout; by exists e|lia]. }
    assert (Hlow : c < LETHAL_OBSTACLE -> forall r, outline (Some <$> ls) r -> cell_cost m r <= c).
    { intros Hlt r (e & He & Hr)%Hout. specialize (H1 e He). pose proof (proj1 (edge_cells m e) ltac:(lia) r Hr). lia. }
    split; [|split; [by intros Hlt; split; [apply Hlow|]|split; intros ->; (destruct Hatt as [?|?]; [done|by try right])]]. split.
    + intros Hlt. split; [intros (x & ? & _)%list_elem_of_fmap; done|]. intros r Hr. specialize (Hlow Hlt r Hr). lia.
    + intros [_ Ha]. destruct Hatt as [->|(r & Hr & <-)]; [done|by apply Ha].
Qed.

Section unknown.
Context (m : Costmap2D) (costs : list Z) (Hm : wf_map m costs) (Hc : Forall is_u8 costs) (Hsize : size_x_ m <= 2 ^ 29 /\ size_y_ m <= 2 ^ 29).

Lemma edge_cost_unknown p q r : r ∈ line2 p q -> cell_cost m r = NO_INFORMATION -> (forall r, r ∈ line2 p q -> cell_cost m r <> LETHAL_OBSTACLE) -> is_u8 (edge_cost m (p, q)) -> edge_cost m (p, q) = NO_INFORMATION.
Proof using Type.
  intros Hr Er Hn Hu. assert (Hl : LETHAL_OBSTACLE ∉ cell_cost m <$> line2 p q) by (intros (x & Ex & Hx)%list_elem_of_fmap; by apply (Hn x Hx)).
  destruct (line_scan_max _ 0 Hl) as (H1 & _). specialize (H1 (cell_cost m r)). fold (edge_cost m (p, q)) in H1. assert (cell_cost m r <= edge_cost m (p, q)) by (apply H1, list_elem_of_fmap; by exists r). unfold is_u8, NO_INFORMATION in *. lia.
Qed.

(** Once unknown, the cost stays so. *)
Lemma footprint_edges_unknown points : forall ls p0 p1, Forall2 (maps_to m) points (Some <$> ls) -> loc_on m p0 ->
  footprint_edges m points p0 p1 UNKNOWN = Some (inl (match last ls with Some l => Some l | None => p1 end, UNKNOWN)).
Proof using All.
  induction points as [|pt points IH]; intros ls p0 p1 Hlocs Hp0.
  - apply Forall2_nil_inv_l in Hlocs. by destruct ls.
  - destruct ls as [|q ls]; [by apply Forall2_nil_inv_r in Hlocs|]. cbn [fmap list_fmap] in Hlocs. apply Forall2_cons in Hlocs as [Hl Hlocs]. cbn [footprint_edges]. pose proof Hl as Hl'. unfold maps_to in Hl'. rewrite Hl'. mred.
    pose proof (maps_to_on m costs Hm _ _ Hl) as Hq. destruct (lineCost_ok m costs Hm Hc Hsize p0 q Hp0 Hq) as [-> Hu]. mred. unfold UNKNOWN. rewrite cost_max by done. replace (Z.max (edge_cost m (p0, q)) NO_INFORMATION) with NO_INFORMATION by (unfold is_u8, NO_INFORMATION in *; lia).
    fold UNKNOWN. change (feq UNKNOWN LETHAL) with false. rewrite (IH ls q (Some q) Hlocs Hq). destruct ls as [|l ls]; [done|]. rewrite last_cons_cons. by destruct (last (l :: ls)) eqn:El; [|apply last_None in El].
Qed.

Lemma footprintCost_unknown footprint p q ls r : Forall2 (maps_to m) footprint (Some <$> p :: q :: ls) ->
  r ∈ line2 p q -> cell_cost m r = NO_INFORMATION -> (forall r, r ∈ line2 p q -> cell_cost m r <> LETHAL_OBSTACLE) -> footprintCost m footprint = Some UNKNOWN.
Proof using All.
  intros Hlocs Hr Er Hn. cbn [fmap list_fmap] in Hlocs. apply Forall2_cons_inv_r in Hlocs as (v & points & Hv & Hlocs & ->). pose proof Hlocs as Hlocs0. apply Forall2_cons_inv_r in Hlocs as (w & points' & Hw & Hlocs & ->).
  pose proof (maps_to_on m costs Hm _ _ Hv) as Hp. pose proof (maps_to_on m costs Hm _ _ Hw) as Hq. destruct (lineCost_ok m costs Hm Hc Hsize p q Hp Hq) as [El Hu]. pose proof (edge_cost_unknown p q r Hr Er Hn Hu) as Ee.
  unfold footprintCost. rewrite aget_cons_0. mred. pose proof Hv as Hv'. unfold maps_to in Hv'. rewrite Hv'. mred. cbn [tail footprint_edges]. pose proof Hw as Hw'. unfold maps_to in Hw'. rewrite Hw'. mred. rewrite El. mred. rewrite Ee. change f_zero with (cost_of 0). rewrite cost_max by done.
  change (cost_of (Z.max NO_INFORMATION 0)) with UNKNOWN. change (feq UNKNOWN LETHAL) with false. change (list_fmap _ _ Some ls) with (Some <$> ls) in Hlocs. rewrite (footprint_edges_unknown points' ls q (Some q) Hlocs Hq). mred.
  assert (Hlast : exists pl, match last ls with Some l => Some l | None => Some q end = Some pl /\ loc_on m pl).
  { destruct (last ls) as [pl|] eqn:E; [|by exists q]. exists pl. split; [done|]. apply last_Some_elem_of in E. clear -Hlocs E Hm. revert points' Hlocs. induction ls as [|l ls IH]; intros points' Hlocs; [by apply elem_of_nil in E|].
    cbn [fmap list_fmap] in Hlocs. apply Forall2_cons_inv_r in Hlocs as (x & xs & Hx & Hxs & ->). apply elem_of_cons in E as [->|E]; [by apply (maps_to_on m costs Hm _ _ Hx)|by apply (IH E xs)]. }
  destruct Hlast as (pl & -> & Hpl). mred. destruct (lineCost_ok m costs Hm Hc Hsize p pl Hp Hpl) as [-> Hu']. mred. unfold UNKNOWN. rewrite cost_max by done. do 2 f_equal. unfold is_u8, NO_INFORMATION in *. lia.
Qed.
End unknown.

(** C38. An unknown cell hides the obstacles behind it, from a grid checker with
    an oriented footprint, at a pose on the map whose own cell costs less than
    INSCRIBED_INFLATED_OBSTACLE but not less than the cost from which the
    footprint is looked at, and with every vertex of the footprint on the map.
    When the first edge of the translated footprint crosses an unknown cell and
    no lethal one, the cost is NO_INFORMATION whatever the other edges cross,
    and the checker that may traverse unknown space answers that there is no
    collision. *)
Theorem unknown_hides_collision g costs x y angle_bin mx my c bin oriented p q ls r :
  let m := gc_costmap_ g in
  let w := mapToWorld m mx my in
  wf_map m costs -> Forall is_u8 costs -> size_x_ m <= 2 ^ 29 -> size_y_ m <= 2 ^ 29 ->
  footprint_is_radius_ g = false -> outsideRange (size_x_ m) x = false -> outsideRange (size_y_ m) y = false -> f_to_u32 x = Some mx -> f_to_u32 y = Some my ->
  getCost m mx my = Some c -> c < INSCRIBED_INFLATED_OBSTACLE -> is_u8 c -> flt (cost_of c) (possible_inscribed_cost_ g) = false ->
  f_trunc angle_bin = Some bin -> aget (oriented_footprints_ g) bin = Some oriented ->
  Forall2 (maps_to m) ((fun v => mkPoint (fadd (fst w) (px v)) (fadd (snd w) (py v)) f_zero) <$> oriented) (Some <$> p :: q :: ls) ->
  r ∈ line2 p q -> cell_cost m r = NO_INFORMATION -> (forall r, r ∈ line2 p q -> cell_cost m r <> LETHAL_OBSTACLE) ->
  inCollision g x y angle_bin true = Some (set_footprint_cost g UNKNOWN, false).
Proof.
  intros m w Hm Hc Hsx Hsy Hrad Hox Hoy Ex Ey Ec Hins Hu Hpos Eb Eo Hlocs Hr Er Hn. unfold inCollision. fold m. rewrite Hox, Hoy. cbn [orb]. rewrite Ex. mred. rewrite Ey. mred. fold w. destruct w as [wx wy] eqn:Ew. rewrite Ec. mred.
  cbn [set_footprint_cost footprint_is_radius_ footprint_cost_ possible_inscribed_cost_ oriented_footprints_]. rewrite Hrad, Hpos. cbn [negb andb]. rewrite andb_false_r. unfold UNKNOWN at 1, LETHAL at 1. rewrite !cost_eq by done.
  rewrite (proj2 (Z.eqb_neq c INSCRIBED_INFLATED_OBSTACLE)), (proj2 (Z.eqb_neq c LETHAL_OBSTACLE)) by (unfold INSCRIBED_INFLATED_OBSTACLE, LETHAL_OBSTACLE in *; lia). cbn [orb]. rewrite Eb. mred. rewrite Eo. mred. cbn [fst snd] in Hlocs.
  rewrite (footprintCost_unknown m costs Hm Hc (conj Hsx Hsy) _ p q ls r Hlocs Hr Er Hn). mred. change (feq UNKNOWN UNKNOWN) with true. done.
Qed.

(** ** Examples *)

(** A map of 8 by 8 cells of one metre, with an unknown and a lethal cell. *)
Definition checker_cells : list Z := (fun i => if i =? 11 then NO_INFORMATION else if i =? 29 then LETHAL_OBSTACLE else FREE_SPACE) <$> zrange 0 64.
Definition checker_map : Costmap2D := mkCostmap2D 8 8 f_one f_zero f_zero (Some checker_cells) 0.
Definition two_by_two : list Point := [mkPoint (f_of_Z (-2)) (f_of_Z (-2)) f_zero; mkPoint (f_of_Z 2) (f_of_Z (-2)) f_zero; mkPoint (f_of_Z 2) (f_of_Z 2) f_zero; mkPoint (f_of_Z (-2)) (f_of_Z 2) f_zero].
Definition example_checker : GridCollisionChecker := mkChecker checker_map [two_by_two] two_by_two f_zero false [f_zero] f_zero.
Definition placed : list Point := (fun v => mkPoint (fadd (fst (mapToWorld checker_map 3 3)) (px v)) (fadd (snd (mapToWorld checker_map 3 3)) (py v)) f_zero) <$> two_by_two.

Lemma checker_map_wf : wf_map checker_map checker_cells /\ Forall is_u8 checker_cells.
Proof.
  split; [split; vm_compute; intuition discriminate|]. apply Forall_forall. intros c (i & -> & _)%list_elem_of_fmap. destruct (i =? 11), (i =? 29); vm_compute; intuition discriminate.
Qed.

Lemma placed_maps : Forall2 (maps_to checker_map) placed (Some <$> [mkLoc 1 1; mkLoc 5 1; mkLoc 5 5; mkLoc 1 5]).
Proof. repeat constructor; vm_compute; reflexivity. Qed.

Lemma unknown_hides_collision_witness : inCollision example_checker (s_of_Z 3) (s_of_Z 3) f_zero true = Some (set_footprint_cost example_checker UNKNOWN, false) /\
  outline (Some <$> [mkLoc 1 1; mkLoc 5 1; mkLoc 5 5; mkLoc 1 5]) (mkLoc 5 3) /\ cell_cost checker_map (mkLoc 5 3) = LETHAL_OBSTACLE.
Proof.
  split; [|split; [exists [mkLoc 1 1; mkLoc 5 1; mkLoc 5 5; mkLoc 1 5], (mkLoc 5 1, mkLoc 5 5); split; [reflexivity|split; [right; left|]]; do 2 right; left|vm_compute; reflexivity]].
  apply (unknown_hides_collision example_checker checker_cells (s_of_Z 3) (s_of_Z 3) f_zero 3 3 0 0 two_by_two (mkLoc 1 1) (mkLoc 5 1) [mkLoc 5 5; mkLoc 1 5] (mkLoc 3 1));
    [exact (proj1 checker_map_wf)|exact (proj2 checker_map_wf)|done|done|reflexivity|vm_compute; reflexivity|vm_compute; reflexivity|vm_compute; reflexivity|vm_compute; reflexivity|vm_compute; reflexivity|done|done|vm_compute; reflexivity|reflexivity|reflexivity|exact placed_maps|do 2 right; left|vm_compute; reflexivity|].
  intros r Hr. assert (E : line2 (mkLoc 1 1) (mkLoc 5 1) = (fun i => mkLoc i 1) <$> zrange 1 6) by (vm_compute; reflexivity). rewrite E in Hr. apply list_elem_of_fmap in Hr as (i & -> & Hi%elem_of_zrange).
  assert (i = 1 \/ i = 2 \/ i = 3 \/ i = 4 \/ i = 5) as Hi' by lia. destruct Hi' as [-> |[-> |[-> |[-> | ->]]]]; vm_compute; discriminate.
Defined.

Lemma footprintCost_outline_witness : exists c, footprintCost checker_map placed = Some (cost_of c) /\ is_u8 c.
Proof.
  destruct (footprintCost_outline checker_map checker_cells placed (Some <$> [mkLoc 1 1; mkLoc 5 1; mkLoc 5 5; mkLoc 1 5]) (proj1 checker_map_wf) (proj2 checker_map_wf) ltac:(done) ltac:(done) ltac:(vm_compute; discriminate) placed_maps) as (c & E & Hu & _).
  exists c. split; [exact E|exact Hu].
Defined.

(** A position on the far border passes the test of the range and reads past
    the last cell. *)
Lemma far_border_unchecked : inCollision example_checker (s_of_Z 8) (s_of_Z 7) f_zero true = None.
Proof. vm_compute. reflexivity. Qed.
