(* ===== verification/PriorityQueue.v ===== *)
(** [std::priority_queue], as an interface with its laws, and a queue over a
    list that satisfies them. Used by the route planner and by the filter node
    of robot_localization. *)

From S2P Require Import Prelude.

(** A queue with the comparator [less]: the top is an element that no other
    one is above; which one is not specified. The comparator has to order the
    elements in the queue, those that satisfy [ordered]. *)
Class PriorityQueue (E : Type) := {
  queue : Type;
  queue_empty : queue;
  emplace : E -> queue -> queue;
  pop : queue -> option (E * queue);
  elements : queue -> list E;
}.

Class PriorityQueueLaws {E} (Q : PriorityQueue E) (less : E -> E -> bool) (ordered : E -> Prop) : Prop := {
  elements_empty : elements queue_empty = [];
  elements_emplace a q : elements (emplace a q) ≡ₚ a :: elements q;
  pop_None q : pop q = None -> elements q = [];
  pop_Some q a q' : Forall ordered (elements q) -> pop q = Some (a, q') -> elements q ≡ₚ a :: elements q' /\ Forall (fun b => less a b = false) (elements q');
}.

(** ** A queue over a list *)

(** The first of the elements of a list that are on top. *)
Fixpoint pop_first {E} (less : E -> E -> bool) (l : list E) : option (E * list E) :=
  match l with
  | [] => None
  | a :: l =>
      match pop_first less l with
      | None => Some (a, [])
      | Some (b, l') => if less a b then Some (b, a :: l') else Some (a, l)
      end
  end.

Definition list_queue {E} (less : E -> E -> bool) : PriorityQueue E := {|
  queue := list E;
  queue_empty := [];
  emplace a q := q ++ [a];
  pop q := pop_first less q;
  elements q := q;
|}.

(** The comparators of the standard library are strict weak orders. *)
Lemma list_queue_ok {E} (less : E -> E -> bool) (ordered : E -> Prop) :
  (forall a b, ordered a -> ordered b -> less a b = true -> less b a = false) ->
  (forall a b c, ordered a -> ordered b -> ordered c -> less a b = false -> less b c = false -> less a c = false) ->
  PriorityQueueLaws (list_queue less) less ordered.
Proof.
  intros Hasym Htrans. split.
  - done.
  - intros a q. cbn. apply Permutation_sym, Permutation_cons_append.
  - intros [|a q]; [done|]. cbn. destruct (pop_first _ q) as [[b l']|]; [|done]. by destruct (less a b).
  - cbn. intros q. induction q as [|a q IH]; intros x q' Hq E0; cbn [pop_first] in E0; [done|]. apply Forall_cons in Hq as [Ha Hq].
    destruct (pop_first less q) as [[b l']|] eqn:Ep.
    + destruct (IH b l' Hq eq_refl) as [Hp Hf]. assert (Hbl : Forall ordered (b :: l')) by (by rewrite <- Hp). apply Forall_cons in Hbl as [Hb Hl].
      destruct (less a b) eqn:Eab; injection E0 as <- <-.
      * split; [by rewrite Hp, perm_swap|]. apply Forall_cons. split; [by apply Hasym|done].
      * split; [done|]. rewrite Hp. apply Forall_cons. split; [done|]. apply Forall_forall. intros c Hc.
        pose proof (proj1 (Forall_forall _ _) Hf c Hc) as Hbc. pose proof (proj1 (Forall_forall _ _) Hl c Hc) as Hcn.
        by apply (Htrans a b c).
    + injection E0 as <- <-. destruct q as [|b q]; [done|]. cbn in Ep. destruct (pop_first _ q) as [[? ?]|]; [|done]. by destruct (less b _).
Qed.
