(* ===== verification/ThetaStar.v ===== *)
(** The Theta* planner (nav2_theta_star_planner: theta_star.hpp and
    theta_star.cpp), an any-angle search over the cells of the costmap, and
    which lines of sight are free. *)

From stdpp Require Import strings.
From S2P Require Import Prelude Floats Costmap2D FloatOrder.

(** ** The data *)

(** DBL_MAX. *)
Definition INF_COST : spec_float := f_lit (2 ^ 53 - 1) 971.
Definition UNKNOWN_COST : Z := 255.
Definition OCCUPIED_COST : Z := 254.
Definition MAX_NON_OBSTACLE_COST : Z := 252.

(** A pointer to a node is its position in [nodes_data_]. *)
Record tree_node := mkNode {
  tn_x : Z;
  tn_y : Z;
  tn_g : spec_float;
  tn_h : spec_float;
  parent_id : option Z;
  is_in_queue : bool;
  tn_f : spec_float;
}.
Definition blank_node : tree_node := mkNode 0 0 INF_COST INF_COST None false INF_COST.

(** [nodes_opened] only counts, for the log, and is left unbounded.
    [nodes_capacity_] is the capacity of the vector [nodes_data_]: to grow
    past it moves the nodes, and the pointers to them dangle. *)
Record ThetaStar := mkThetaStar {
  src_ : Z * Z;
  dst_ : Z * Z;
  ts_costmap_ : Costmap2D;
  w_traversal_cost_ : spec_float;
  w_euc_cost_ : spec_float;
  w_heuristic_cost_ : spec_float;
  how_many_corners_ : Z;
  allow_unknown_ : bool;
  ts_size_x_ : Z;
  ts_size_y_ : Z;
  node_position_ : list (option Z);
  nodes_data_ : list tree_node;
  nodes_capacity_ : Z;
  queue_ : list Z;
  index_generated_ : Z;
  nodes_opened : Z;
}.

Definition moves : list (Z * Z) := [(0, 1); (0, -1); (1, 0); (-1, 0); (1, -1); (-1, 1); (1, 1); (-1, -1)].

(** Functional updates. *)
Section setters.
Context (s : ThetaStar).
Definition set_ends (src dst : Z * Z) : ThetaStar :=
  mkThetaStar src dst (ts_costmap_ s) (w_traversal_cost_ s) (w_euc_cost_ s) (w_heuristic_cost_ s) (how_many_corners_ s) (allow_unknown_ s)
    (ts_size_x_ s) (ts_size_y_ s) (node_position_ s) (nodes_data_ s) (nodes_capacity_ s) (queue_ s) (index_generated_ s) (nodes_opened s).
Definition set_weights (euc traversal heuristic : spec_float) (corners : Z) (allow_unknown : bool) : ThetaStar :=
  mkThetaStar (src_ s) (dst_ s) (ts_costmap_ s) traversal euc heuristic corners allow_unknown
    (ts_size_x_ s) (ts_size_y_ s) (node_position_ s) (nodes_data_ s) (nodes_capacity_ s) (queue_ s) (index_generated_ s) (nodes_opened s).
Definition set_positions (size_x size_y : Z) (positions : list (option Z)) : ThetaStar :=
  mkThetaStar (src_ s) (dst_ s) (ts_costmap_ s) (w_traversal_cost_ s) (w_euc_cost_ s) (w_heuristic_cost_ s) (how_many_corners_ s) (allow_unknown_ s)
    size_x size_y positions (nodes_data_ s) (nodes_capacity_ s) (queue_ s) (index_generated_ s) (nodes_opened s).
Definition set_nodes (nodes : list tree_node) (capacity : Z) : ThetaStar :=
  mkThetaStar (src_ s) (dst_ s) (ts_costmap_ s) (w_traversal_cost_ s) (w_euc_cost_ s) (w_heuristic_cost_ s) (how_many_corners_ s) (allow_unknown_ s)
    (ts_size_x_ s) (ts_size_y_ s) (node_position_ s) nodes capacity (queue_ s) (index_generated_ s) (nodes_opened s).
Definition set_queue (queue : list Z) : ThetaStar :=
  mkThetaStar (src_ s) (dst_ s) (ts_costmap_ s) (w_traversal_cost_ s) (w_euc_cost_ s) (w_heuristic_cost_ s) (how_many_corners_ s) (allow_unknown_ s)
    (ts_size_x_ s) (ts_size_y_ s) (node_position_ s) (nodes_data_ s) (nodes_capacity_ s) queue (index_generated_ s) (nodes_opened s).
Definition set_counts (generated opened : Z) : ThetaStar :=
  mkThetaStar (src_ s) (dst_ s) (ts_costmap_ s) (w_traversal_cost_ s) (w_euc_cost_ s) (w_heuristic_cost_ s) (how_many_corners_ s) (allow_unknown_ s)
    (ts_size_x_ s) (ts_size_y_ s) (node_position_ s) (nodes_data_ s) (nodes_capacity_ s) (queue_ s) generated opened.
End setters.

(** [f] after [n] doubles. *)
Definition f_09 : spec_float := f_lit 8106479329266893 (-53).

Definition ThetaStar_new (costmap : Costmap2D) : ThetaStar :=
  mkThetaStar (0, 0) (0, 0) costmap f_one (f_of_Z 2) f_one 8 true 0 0 [] [] 0 [] 0 0.

(** The priority queue of the open list is a heap of pointers that compares
    the costs of the nodes pointed to at the time of the call. The search
    changes the costs of nodes that are in the queue, which the standard
    library does not allow; all that is supposed is that its implementation
    only rearranges the pointers. *)
Class OpenList := {
  heap_push : (Z -> spec_float) -> Z -> list Z -> list Z;
  heap_pop : (Z -> spec_float) -> list Z -> option (Z * list Z);
}.

Class OpenListLaws (H : OpenList) : Prop := {
  heap_push_perm key a q : heap_push key a q ≡ₚ a :: q;
  heap_pop_perm key q : q <> [] -> exists a q', heap_pop key q = Some (a, q') /\ q ≡ₚ a :: q';
}.

Section theta_star.
Context {heap : OpenList} (hypot : spec_float -> spec_float -> spec_float).

(** ** Costs *)

Definition cell_cost (m : Costmap2D) (cx cy : Z) : option Z := Costmap2D.getCost m (u32 cx) (u32 cy).

(** The cost of a cell, scaled. *)
Definition scaled_cost (c : Z) : spec_float := fadd (f_of_Z 26) (fmul f_09 (f_of_Z c)).
Definition getCost (s : ThetaStar) (cx cy : Z) : option spec_float := c ← cell_cost (ts_costmap_ s) cx cy; Some (scaled_cost c).

Definition isSafe (s : ThetaStar) (cx cy : Z) : option bool :=
  c ← cell_cost (ts_costmap_ s) cx cy; Some ((c =? UNKNOWN_COST) && allow_unknown_ s || (c <=? MAX_NON_OBSTACLE_COST)).

Definition traversal (s : ThetaStar) (curr_cost : spec_float) : spec_float :=
  fdiv (fdiv (fmul (fmul (w_traversal_cost_ s) curr_cost) curr_cost) (f_of_Z MAX_NON_OBSTACLE_COST)) (f_of_Z MAX_NON_OBSTACLE_COST).

(** The overload that adds the traversal cost. *)
Definition isSafe_cost (s : ThetaStar) (cx cy : Z) (cost : spec_float) : option (bool * spec_float) :=
  curr_cost ← getCost s cx cy;
  c ← cell_cost (ts_costmap_ s) cx cy;
  if (c =? UNKNOWN_COST) && allow_unknown_ s || fle curr_cost (f_of_Z MAX_NON_OBSTACLE_COST) then
    let curr_cost := if c =? UNKNOWN_COST then f_of_Z (OCCUPIED_COST - 1) else curr_cost in
    Some (true, fadd cost (traversal s curr_cost))
  else Some (false, cost).

Definition getTraversalCost (s : ThetaStar) (cx cy : Z) : option spec_float := curr_cost ← getCost s cx cy; Some (traversal s curr_cost).

Definition getEuclideanCost (s : ThetaStar) (ax ay bx by_ : Z) : option spec_float :=
  dx ← checked_s32 (ax - bx); dy ← checked_s32 (ay - by_); Some (fmul (w_euc_cost_ s) (hypot (f_of_Z dx) (f_of_Z dy))).

Definition getHCost (s : ThetaStar) (cx cy : Z) : option spec_float :=
  dx ← checked_s32 (cx - fst (dst_ s)); dy ← checked_s32 (cy - snd (dst_ s)); Some (fmul (w_heuristic_cost_ s) (hypot (f_of_Z dx) (f_of_Z dy))).

Definition withinLimits (s : ThetaStar) (cx cy : Z) : bool := (0 <=? cx) && (cx <? ts_size_x_ s) && (0 <=? cy) && (cy <? ts_size_y_ s).

Definition isGoal (s : ThetaStar) (n : tree_node) : bool := (tn_x n =? fst (dst_ s)) && (tn_y n =? snd (dst_ s)).

Definition isUnsafeToPlan (s : ThetaStar) : option bool :=
  a ← isSafe s (fst (src_ s)) (snd (src_ s));
  if negb a then Some true else b ← isSafe s (fst (dst_ s)) (snd (dst_ s)); Some (negb b).

(** ** The line of sight *)

(** The state of the walk: the cell, the accumulator, the cost, and whether
    the line was free so far. *)
Record los := mkLos { los_x : Z; los_y : Z; los_f : Z; los_cost : spec_float; los_free : bool }.

(** A round along the axis in which the line is longer; [at_] is [isSafe],
    with the coordinates in the order of the axes. *)
Definition los_step (at_ : Z -> Z -> spec_float -> option (bool * spec_float)) (dx dy sx sy u_x u_y x1 : Z) (st : los) : option (ctl los) :=
  let '(mkLos cx cy f cost _) := st in
  if cx =? x1 then Some (Break (mkLos cx cy f cost true))
  else
    f ← checked_s32 (f + dy);
    '(ok, cy, f, cost) ←
      (if dx <=? f then
         '(ok, cost) ← at_ (cx + u_x) (cy + u_y) cost;
         Some (if ok : bool then (true, cy + sy, f - dx, cost) else (false, cy, f, cost))
       else Some (true, cy, f, cost));
    if negb ok then Some (Break (mkLos cx cy f cost false))
    else
      '(ok, cost) ← (if negb (f =? 0) then at_ (cx + u_x) (cy + u_y) cost else Some (true, cost));
      if negb ok then Some (Break (mkLos cx cy f cost false))
      else
        '(ok, cost) ←
          (if dy =? 0 then
             '(ok, cost) ← at_ (cx + u_x) cy cost;
             if ok : bool then Some (true, cost) else at_ (cx + u_x) (cy - 1) cost
           else Some (true, cost));
        if negb ok then Some (Break (mkLos cx cy f cost false))
        else Some (Next (mkLos (cx + sx) cy f cost true)).

Definition los_along (at_ : Z -> Z -> spec_float -> option (bool * spec_float)) (dx dy sx sy u_x u_y x0 y0 x1 : Z) : option (bool * spec_float) :=
  st ← loop (S (Z.to_nat dx)) (los_step at_ dx dy sx sy u_x u_y x1) (mkLos x0 y0 0 f_zero true);
  Some (los_free st, los_cost st).

Definition losCheck (s : ThetaStar) (x0 y0 x1 y1 : Z) : option (bool * spec_float) :=
  dy ← checked_s32 (y1 - y0); dy ← checked_s32 (Z.abs dy);
  dx ← checked_s32 (x1 - x0); dx ← checked_s32 (Z.abs dx);
  let sx := if x0 <? x1 then 1 else -1 in
  let sy := if y0 <? y1 then 1 else -1 in
  let u_x := Z.quot (sx - 1) 2 in
  let u_y := Z.quot (sy - 1) 2 in
  if dy <=? dx then los_along (isSafe_cost s) dx dy sx sy u_x u_y x0 y0 x1
  else los_along (fun a b => isSafe_cost s b a) dy dx sy sx u_y u_x y0 x0 y1.

(** ** The search *)

Definition node_at (s : ThetaStar) (i : Z) : option tree_node := aget (nodes_data_ s) i.
Definition put_node (s : ThetaStar) (i : Z) (n : tree_node) : option ThetaStar := nodes ← aset (nodes_data_ s) i n; Some (set_nodes s nodes (nodes_capacity_ s)).

(** The cost the heap compares. *)
Definition node_key (s : ThetaStar) (i : Z) : spec_float := match node_at s i with Some n => tn_f n | None => INF_COST end.

Definition posn_index (s : ThetaStar) (cx cy : Z) : option Z := a ← checked_s32 (ts_size_x_ s * cy); checked_s32 (a + cx).
Definition addIndex (s : ThetaStar) (cx cy node_this : Z) : option ThetaStar :=
  i ← posn_index s cx cy; p ← aset (node_position_ s) i (Some node_this); Some (set_positions s (ts_size_x_ s) (ts_size_y_ s) p).
Definition getIndex (s : ThetaStar) (cx cy : Z) : option (option Z) := i ← posn_index s cx cy; aget (node_position_ s) i.

(** There are no more nodes than cells, a number that fits an [int]. *)
Definition addToNodesData (s : ThetaStar) (id_this : Z) : option ThetaStar :=
  if alen (nodes_data_ s) <=? id_this then
    if (alen (nodes_data_ s) <? nodes_capacity_ s) || (alen (nodes_data_ s) =? 0) then
      Some (set_nodes s (nodes_data_ s ++ [blank_node]) (Z.max (nodes_capacity_ s) (alen (nodes_data_ s) + 1)))
    else None
  else put_node s id_this blank_node.

Definition initializePosn (s : ThetaStar) (size_inc : Z) : option ThetaStar :=
  p ← (match node_position_ s with
       | [] => Some []
       | _ :: _ => n ← checked_s32 (ts_size_x_ s * ts_size_y_ s); for_range 0 n (fun i p => aset p i None) (node_position_ s)
       end);
  Some (set_positions s (ts_size_x_ s) (ts_size_y_ s) (p ++ anew size_inc None)).

Definition resetContainers (s : ThetaStar) : option ThetaStar :=
  let s := set_counts s 0 (nodes_opened s) in
  let last_size_x := ts_size_x_ s in
  let last_size_y := ts_size_y_ s in
  let curr_size_x := s32 (size_x_ (ts_costmap_ s)) in
  let curr_size_y := s32 (size_y_ (ts_costmap_ s)) in
  s ← (if negb (last_size_x =? curr_size_x) || negb (last_size_y =? curr_size_y) then
         n ← checked_s32 (curr_size_x * curr_size_y);
         if s32 (alen (node_position_ s)) <? n then
           last ← checked_s32 (last_size_y * last_size_x);
           inc ← checked_s32 (n - last);
           s ← initializePosn s inc;
           Some (set_nodes s (nodes_data_ s) (Z.max (nodes_capacity_ s) n))
         else initializePosn s 0
       else initializePosn s 0);
  Some (set_positions s curr_size_x curr_size_y (node_position_ s)).

Definition resetParent (s : ThetaStar) (curr : Z) : option ThetaStar :=
  n ← node_at s curr;
  s ← put_node s curr (mkNode (tn_x n) (tn_y n) (tn_g n) (tn_h n) (parent_id n) false (tn_f n));
  n ← node_at s curr;
  curr_par ← parent_id n;
  p ← node_at s curr_par;
  maybe_par ← parent_id p;
  q ← node_at s maybe_par;
  '(free, los_cost) ← losCheck s (tn_x n) (tn_y n) (tn_x q) (tn_y q);
  if free : bool then
    euc ← getEuclideanCost s (tn_x n) (tn_y n) (tn_x q) (tn_y q);
    let g_cost := fadd (fadd (tn_g q) euc) los_cost in
    if flt g_cost (tn_g n) then
      put_node s curr (mkNode (tn_x n) (tn_y n) g_cost (tn_h n) (Some maybe_par) (is_in_queue n) (fadd g_cost (tn_h n)))
    else Some s
  else Some s.

(** The node of a cell, made when there is none. *)
Definition find_node (s : ThetaStar) (mx my : Z) : option (ThetaStar * Z) :=
  m ← getIndex s mx my;
  match m with
  | Some m_id => Some (s, m_id)
  | None =>
      let m_id := index_generated_ s in
      s ← addToNodesData s m_id;
      s ← addIndex s mx my m_id;
      Some (set_counts s (m_id + 1) (nodes_opened s), m_id)
  end.

Definition set_neighbor (curr : Z) (i : Z) (s : ThetaStar) : option ThetaStar :=
  move ← aget moves i;
  n ← node_at s curr;
  mx ← checked_s32 (tn_x n + fst move);
  my ← checked_s32 (tn_y n + snd move);
  if negb (withinLimits s mx my) then Some s
  else
    safe ← isSafe s mx my;
    if negb safe then Some s
    else
      euc ← getEuclideanCost s (tn_x n) (tn_y n) mx my;
      trav ← getTraversalCost s mx my;
      let g_cost := fadd (fadd (tn_g n) euc) trav in
      '(s, m_id) ← find_node s mx my;
      h_cost ← getHCost s mx my;
      let cal_cost := fadd g_cost h_cost in
      e ← node_at s m_id;
      if fgt (tn_f e) cal_cost then
        if is_in_queue e then put_node s m_id (mkNode (tn_x e) (tn_y e) g_cost h_cost (Some curr) true cal_cost)
        else
          s ← put_node s m_id (mkNode mx my g_cost h_cost (Some curr) true cal_cost);
          Some (set_queue s (heap_push (node_key s) m_id (queue_ s)))
      else Some s.

Definition setNeighbors (s : ThetaStar) (curr : Z) : option ThetaStar := for_range 0 (how_many_corners_ s) (set_neighbor curr) s.

(** ** The path *)

Definition coordsW : Type := spec_float * spec_float.

Definition node_world (s : ThetaStar) (n : tree_node) : coordsW := mapToWorld (ts_costmap_ s) (u32 (tn_x n)) (u32 (tn_y n)).

Definition backtrace_step (s : ThetaStar) (st : list coordsW * Z) : option (ctl (list coordsW * Z)) :=
  let '(path_rev, curr) := st in
  n ← node_at s curr;
  let path_rev := path_rev ++ [node_world s n] in
  curr ← (if 1 <? alen path_rev then parent_id n else Some curr);
  n ← node_at s curr;
  Some (if decide (parent_id n = Some curr) then Break (path_rev, curr) else Next (path_rev, curr)).

(** Two rounds more than there are nodes. *)
Definition backtrace (s : ThetaStar) (raw_points : list coordsW) (curr : Z) : option (list coordsW) :=
  '(path_rev, curr) ← loop (3 + length (nodes_data_ s)) (backtrace_step s) ([], curr);
  n ← node_at s curr;
  Some (raw_points ++ rev (path_rev ++ [node_world s n])).

(** ** The planner *)

Definition setStartAndGoal (s : ThetaStar) (start goal : coordsW) (garbage_start garbage_goal : Z * Z) : option ThetaStar :=
  a ← worldToMap (ts_costmap_ s) (fst start) (snd start);
  b ← worldToMap (ts_costmap_ s) (fst goal) (snd goal);
  let cell (l : option MapLocation) (garbage : Z * Z) := match l with Some p => (s32 (loc_x p), s32 (loc_y p)) | None => garbage end in
  Some (set_ends s (cell a garbage_start) (cell b garbage_goal)).

Definition start_search (s : ThetaStar) : option (ThetaStar * Z) :=
  let i := index_generated_ s in
  s ← addToNodesData s i;
  src_g_cost ← getTraversalCost s (fst (src_ s)) (snd (src_ s));
  src_h_cost ← getHCost s (fst (src_ s)) (snd (src_ s));
  s ← put_node s i (mkNode (fst (src_ s)) (snd (src_ s)) src_g_cost src_h_cost (Some i) true (fadd src_g_cost src_h_cost));
  let s := set_queue s (heap_push (node_key s) i (queue_ s)) in
  s ← addIndex s (fst (src_ s)) (snd (src_ s)) i;
  Some (set_counts s (i + 1) 0, i).

Definition search_step (st : ThetaStar * Z) : option (ctl (ThetaStar * Z)) :=
  let '(s, curr) := st in
  match queue_ s with
  | [] => Some (Break st)
  | _ :: _ =>
      let s := set_counts s (index_generated_ s) (nodes_opened s + 1) in
      n ← node_at s curr;
      if isGoal s n then Some (Break (s, curr))
      else
        s ← resetParent s curr;
        s ← setNeighbors s curr;
        '(curr, q) ← heap_pop (node_key s) (queue_ s);
        Some (Next (set_queue s q, curr))
  end.

(** The answer, the path and the planner. *)
Definition generatePath (fuel : nat) (s : ThetaStar) (raw_path : list coordsW) : option (bool * list coordsW * ThetaStar) :=
  s ← resetContainers s;
  st ← start_search s;
  '(s, curr) ← loop fuel search_step st;
  match queue_ s with
  | [] => Some (false, [], s)
  | _ :: _ => raw_path ← backtrace s raw_path curr; Some (true, raw_path, set_queue s [])
  end.
End theta_star.

(** ** The line of sight, as geometry *)

(** In the directions of the line, the cell of column [i] and row [j] meets
    the line of slope dy / dx inside. *)
Definition meets (dx dy i j : Z) : Prop := i * dy < (j + 1) * dx /\ j * dx < (i + 1) * dy.

Section walk.
Context (at_ : Z -> Z -> spec_float -> option (bool * spec_float)) (ok : Z -> Z -> bool) (region : Z -> Z -> Prop).
Context (Hat : forall a b cost, region a b -> exists cost', at_ a b cost = Some (ok a b, cost')).
Context (dx dy sx sy u_x u_y x0 y0 : Z) (Hsx : sx = 1 \/ sx = -1) (Hsum : dx + dy <= 2 ^ 31).

Definition cell_ok (i j : Z) : bool := ok (x0 + sx * i + u_x) (y0 + sy * j + u_y).

(** The rows and the accumulator after one round more. *)
Lemma accumulate i : 0 < dx -> 0 <= dy <= dx -> 0 <= i ->
  let q := i * dy / dx in let r := i * dy mod dx in
  (r + dy < dx -> (i + 1) * dy / dx = q /\ (i + 1) * dy mod dx = r + dy) /\
  (dx <= r + dy -> (i + 1) * dy / dx = q + 1 /\ (i + 1) * dy mod dx = r + dy - dx).
Proof using Type.
  clear Hsum Hsx Hat. intros Hdx Hdy Hi q r. pose proof (Z.div_mod (i * dy) dx ltac:(lia)) as E. fold q r in E. pose proof (Z.mod_pos_bound (i * dy) dx Hdx) as Hr. fold r in Hr.
  split; intros H; split.
  - symmetry. apply (Z.div_unique_pos _ _ _ (r + dy)); lia.
  - symmetry. apply (Z.mod_unique_pos _ _ q); lia.
  - symmetry. apply (Z.div_unique_pos _ _ _ (r + dy - dx)); lia.
  - symmetry. apply (Z.mod_unique_pos _ _ (q + 1)); lia.
Qed.

(** The rows met in a column: from that of its start to that of its end. *)
Lemma meets_rows i j : 0 < dx -> 0 <= i -> 0 < dy ->
  meets dx dy i j <-> i * dy / dx <= j /\ (if (i + 1) * dy mod dx =? 0 then j < (i + 1) * dy / dx else j <= (i + 1) * dy / dx).
Proof using Type.
  clear Hsum Hsx Hat. intros Hdx Hi Hdy. unfold meets. pose proof (Z.div_mod (i * dy) dx ltac:(lia)) as E1. pose proof (Z.mod_pos_bound (i * dy) dx Hdx) as R1.
  pose proof (Z.div_mod ((i + 1) * dy) dx ltac:(lia)) as E2. pose proof (Z.mod_pos_bound ((i + 1) * dy) dx Hdx) as R2.
  set (q1 := i * dy / dx) in *. set (q2 := (i + 1) * dy / dx) in *. set (r1 := i * dy mod dx) in *. set (r2 := (i + 1) * dy mod dx) in *.
  rewrite E1, E2. destruct (Z.eqb_spec r2 0) as [Hz|Hz]; nia.
Qed.

Definition los_inv (i : Z) (st : los) : Prop :=
  0 <= i <= dx /\ los_x st = x0 + sx * i /\ los_y st = y0 + sy * (i * dy / dx) /\ los_f st = i * dy mod dx /\
  forall i' j, 0 <= i' < i -> meets dx dy i' j -> cell_ok i' j = true.

(** A line that is not parallel to an axis is free when the cells it meets are. *)
Lemma los_oblique :
  0 < dy <= dx -> (forall i j, 0 <= i < dx -> 0 <= j < dy -> region (x0 + sx * i + u_x) (y0 + sy * j + u_y)) ->
  exists free cost, los_along at_ dx dy sx sy u_x u_y x0 y0 (x0 + sx * dx) = Some (free, cost) /\
    (free = true <-> forall i j, 0 <= i < dx -> meets dx dy i j -> cell_ok i j = true).
Proof using Hat Hsx Hsum.
  intros Hd Hreg. unfold los_along.
  destruct (loop_inv (fun st => exists i, los_inv i st) (fun st => los_free st = true <-> forall i j, 0 <= i < dx -> meets dx dy i j -> cell_ok i j = true)
    (fun st => Z.to_nat (dx - sx * (los_x st - x0))) (los_step at_ dx dy sx sy u_x u_y (x0 + sx * dx))) with (fuel := S (Z.to_nat dx)) (s := mkLos x0 y0 0 f_zero true) as (st & -> & Hst).
  - intros [cx cy f cost free] (i & Hi & Ex & Ey & Ef & Hok). cbn [los_x los_y los_f] in *. subst cx cy f. unfold los_step.
    destruct (Z.eqb_spec (x0 + sx * i) (x0 + sx * dx)) as [E|Hne].
    + eexists. split; [done|]. cbn [los_free]. split; [|done]. intros _ i' j Hi'. apply Hok. destruct Hsx; lia.
    + assert (Hlt : i < dx) by (destruct Hsx as [Es|Es]; rewrite ?Es; lia). assert (Hm : forall i', sx * (x0 + sx * i' - x0) = i') by (intros; destruct Hsx; subst; lia).
      pose proof (Z.mod_pos_bound (i * dy) dx ltac:(lia)) as Hr. destruct (accumulate i ltac:(lia) ltac:(lia) ltac:(lia)) as [A1 A2]. cbv zeta in A1, A2.
      pose proof (fun j => meets_rows i j ltac:(lia) ltac:(lia) ltac:(lia)) as Hrows.
      assert (Hq0 : 0 <= i * dy / dx) by (apply Z.div_pos; lia).
      set (r := i * dy mod dx) in *. set (q := i * dy / dx) in *. rewrite checked_s32_ok by (unfold is_s32; lia). mred.
      rewrite (proj2 (Z.eqb_neq dy 0)) by lia.
      assert (Hnext : forall cost', let q' := (i + 1) * dy / dx in let r' := (i + 1) * dy mod dx in
        (forall j, meets dx dy i j -> cell_ok i j = true) -> (exists i', los_inv i' (mkLos (x0 + sx * i + sx) (y0 + sy * q') r' cost' true)) /\ (Z.to_nat (dx - sx * (x0 + sx * i + sx - x0)) < Z.to_nat (dx - sx * (x0 + sx * i - x0)))%nat).
      { intros cost' q' r' Hc. split; [exists (i + 1)|replace (x0 + sx * i + sx) with (x0 + sx * (i + 1)) by lia; rewrite !Hm; lia]. split; [lia|]. split; [cbn; lia|]. split; [done|]. split; [done|].
        intros i' j Hi' Hmj. destruct (Z.eq_dec i' i) as [->|]; [by apply Hc|apply Hok; [lia|done]]. }
      assert (Hbad : forall j, 0 <= j < dy -> meets dx dy i j -> cell_ok i j = false -> false = true <-> forall i j, 0 <= i < dx -> meets dx dy i j -> cell_ok i j = true).
      { intros j Hj Hmj Hc. split; [done|]. intros Hall. rewrite (Hall i j ltac:(lia) Hmj) in Hc. done. }
      assert (Hq1 : (i + 1) * dy / dx <= dy) by (apply Z.div_le_upper_bound; nia).
      assert (Hq2 : (i + 1) * dy mod dx <> 0 -> (i + 1) * dy / dx < dy).
      { intros Hz. pose proof (Z.div_mod ((i + 1) * dy) dx ltac:(lia)). pose proof (Z.mod_pos_bound ((i + 1) * dy) dx ltac:(lia)). nia. }
      destruct (Z.leb_spec dx (r + dy)) as [Hc|Hc].
      * destruct (A2 Hc) as [Eq Er]. assert (Hmq : meets dx dy i q) by (apply Hrows; split; [lia|]; rewrite Eq; destruct (_ =? 0); lia).
        destruct (Hat (x0 + sx * i + u_x) (y0 + sy * q + u_y) cost) as [cost1 ->]; [apply Hreg; lia|]. mred. change (ok _ _) with (cell_ok i q). destruct (cell_ok i q) eqn:Eok; cbn [negb]; [|mred; eexists; split; [done|]; cbn [los_free]; apply (Hbad q); [lia|done|done]].
        mred. cbn [negb]. rewrite <- Er. replace (y0 + sy * q + sy) with (y0 + sy * ((i + 1) * dy / dx)) by (rewrite Eq; lia).
        destruct (Z.eqb_spec ((i + 1) * dy mod dx) 0) as [Hz|Hz]; cbn [negb]; mred; cbn [negb].
        -- eexists. split; [done|]. refine (Hnext _ _). intros j Hj. apply Hrows in Hj as [Hj1 Hj2]. replace j with q by lia. done.
        -- assert (Hmq' : meets dx dy i ((i + 1) * dy / dx)) by (apply Hrows; split; [lia|]; rewrite ?(proj2 (Z.eqb_neq ((i + 1) * dy mod dx) 0)) by done; lia). specialize (Hq2 Hz).
           destruct (Hat (x0 + sx * i + u_x) (y0 + sy * ((i + 1) * dy / dx) + u_y) cost1) as [cost2 ->]; [apply Hreg; lia|]. mred. change (ok _ _) with (cell_ok i ((i + 1) * dy / dx)). destruct (cell_ok i ((i + 1) * dy / dx)) eqn:Eok2; cbn [negb]; [|mred; eexists; split; [done|]; cbn [los_free]; by eapply Hbad; [|exact Hmq'|]; [lia|]].
           mred. cbn [negb]. eexists. split; [done|]. refine (Hnext _ _). intros j Hj. apply Hrows in Hj as [Hj1 Hj2]. assert (j = q \/ j = (i + 1) * dy / dx) as [->| ->] by lia; done.
      * destruct (A1 Hc) as [Eq Er]. mred. cbn [negb]. rewrite <- Er. replace (y0 + sy * q) with (y0 + sy * ((i + 1) * dy / dx)) by (by rewrite Eq). assert (Hz : (i + 1) * dy mod dx <> 0) by lia. rewrite (proj2 (Z.eqb_neq _ 0)) by done. cbn [negb]. specialize (Hq2 Hz).
        assert (Hmq' : meets dx dy i ((i + 1) * dy / dx)) by (apply Hrows; split; [lia|]; rewrite ?(proj2 (Z.eqb_neq ((i + 1) * dy mod dx) 0)) by done; lia).
        destruct (Hat (x0 + sx * i + u_x) (y0 + sy * ((i + 1) * dy / dx) + u_y) cost) as [cost2 ->]; [apply Hreg; lia|]. mred. change (ok _ _) with (cell_ok i ((i + 1) * dy / dx)). destruct (cell_ok i ((i + 1) * dy / dx)) eqn:Eok2; cbn [negb]; [|mred; eexists; split; [done|]; cbn [los_free]; by eapply Hbad; [|exact Hmq'|]; [lia|]].
        mred. cbn [negb]. eexists. split; [done|]. refine (Hnext _ _). intros j Hj. apply Hrows in Hj as [Hj1 Hj2]. rewrite ?(proj2 (Z.eqb_neq ((i + 1) * dy mod dx) 0)) in Hj2 by done. replace j with ((i + 1) * dy / dx) by lia. done.
  - exists 0. split; [lia|]. split; [cbn; lia|]. split; [cbn; rewrite Z.mul_0_l, Z.div_0_l by lia; lia|]. split; [cbn; by rewrite Z.mod_0_l by lia|]. intros; lia.
  - cbn. lia.
  - mred. by exists (los_free st), (los_cost st).
Qed.

(** Along an axis: one of the two cells on the sides of each unit has to be free. *)
Definition side_ok (i : Z) : bool := ok (x0 + sx * i + u_x) y0 || ok (x0 + sx * i + u_x) (y0 - 1).

(** One unit: a step forward when a side is free. *)
Lemma los_axis_step i cost free : dy = 0 -> 0 <= i < dx -> region (x0 + sx * i + u_x) y0 -> (ok (x0 + sx * i + u_x) y0 = false -> region (x0 + sx * i + u_x) (y0 - 1)) ->
  exists cost', los_step at_ dx dy sx sy u_x u_y (x0 + sx * dx) (mkLos (x0 + sx * i) y0 0 cost free) =
    Some (if side_ok i then Next (mkLos (x0 + sx * (i + 1)) y0 0 cost' true) else Break (mkLos (x0 + sx * i) y0 0 cost' false)).
Proof using Hat Hsx.
  clear Hsum. intros Hd Hi Hr1 Hr2. unfold los_step. rewrite (proj2 (Z.eqb_neq _ _)) by (destruct Hsx as [Es|Es]; rewrite ?Es; lia). rewrite checked_s32_ok by (unfold is_s32; lia). mred.
  rewrite Hd, (proj2 (Z.leb_gt dx (0 + 0))) by lia. mred. cbn [negb]. rewrite !Z.add_0_r, Z.eqb_refl. cbn [negb]. mred. cbn [negb]. unfold side_ok.
  destruct (Hat _ _ cost Hr1) as [cost1 ->]. mred. destruct (ok (x0 + sx * i + u_x) y0); cbn [orb].
  - mred. cbn [negb]. exists cost1. by replace (x0 + sx * i + sx) with (x0 + sx * (i + 1)) by lia.
  - destruct (Hat _ _ cost1 (Hr2 eq_refl)) as [cost2 ->]. mred. exists cost2. destruct (ok _ (y0 - 1)); cbn [negb]; [|done]. by replace (x0 + sx * i + sx) with (x0 + sx * (i + 1)) by lia.
Qed.

Lemma los_axis : dy = 0 -> 0 <= dx -> (forall i, 0 <= i < dx -> region (x0 + sx * i + u_x) y0 /\ (ok (x0 + sx * i + u_x) y0 = false -> region (x0 + sx * i + u_x) (y0 - 1))) ->
  exists free cost, los_along at_ dx dy sx sy u_x u_y x0 y0 (x0 + sx * dx) = Some (free, cost) /\ (free = true <-> forall i, 0 <= i < dx -> side_ok i = true).
Proof using Hat Hsx.
  clear Hsum. intros Hd Hdx Hreg. unfold los_along.
  destruct (loop_inv (fun st => los_y st = y0 /\ los_f st = 0 /\ exists i, 0 <= i <= dx /\ los_x st = x0 + sx * i /\ forall i', 0 <= i' < i -> side_ok i' = true) (fun st => los_free st = true <-> forall i, 0 <= i < dx -> side_ok i = true)
    (fun st => Z.to_nat (dx - sx * (los_x st - x0))) (los_step at_ dx dy sx sy u_x u_y (x0 + sx * dx))) with (fuel := S (Z.to_nat dx)) (s := mkLos x0 y0 0 f_zero true) as (st & -> & Hst).
  - intros [cx cy f cost free] (Ey & Ef & i & Hi & Ex & Hok). cbn [los_x los_y los_f] in *. subst cx cy f. destruct (Z.eq_dec i dx) as [->|Hne].
    + unfold los_step. rewrite Z.eqb_refl. eexists. split; [done|]. cbn [los_free]. by split.
    + destruct (Hreg i ltac:(lia)) as [Hr1 Hr2]. destruct (los_axis_step i cost free Hd ltac:(lia) Hr1 Hr2) as [cost' ->]. eexists. split; [done|]. destruct (side_ok i) eqn:Eok.
      * cbn [los_x los_y los_f]. split; [|destruct Hsx; subst; lia]. split; [done|]. split; [done|]. exists (i + 1). split; [lia|]. split; [done|]. intros i' Hi'. destruct (Z.eq_dec i' i) as [->|]; [done|apply Hok; lia].
      * cbn [los_free]. split; [done|]. intros Hall. by rewrite (Hall i ltac:(lia)) in Eok.
  - split; [done|]. split; [done|]. exists 0. split; [lia|]. split; [cbn; lia|]. intros; lia.
  - cbn. lia.
  - mred. by exists (los_free st), (los_cost st).
Qed.

(** The second side of the first unit whose first side is not free is read. *)
Lemma los_axis_undefined k : dy = 0 -> 0 <= k < dx -> (forall i, 0 <= i <= k -> region (x0 + sx * i + u_x) y0) ->
  (forall i, 0 <= i < k -> ok (x0 + sx * i + u_x) y0 = true) -> ok (x0 + sx * k + u_x) y0 = false -> (forall cost, at_ (x0 + sx * k + u_x) (y0 - 1) cost = None) ->
  los_along at_ dx dy sx sy u_x u_y x0 y0 (x0 + sx * dx) = None.
Proof using Hat Hsx.
  clear Hsum. intros Hd Hk Hreg Hok Hbad Hnone. unfold los_along.
  assert (Hgen : forall n fuel i cost, 0 <= i <= k -> k - i = Z.of_nat n -> loop fuel (los_step at_ dx dy sx sy u_x u_y (x0 + sx * dx)) (mkLos (x0 + sx * i) y0 0 cost true) = None).
  { induction n as [|n IH]; intros [|fuel] i cost Hi Hn; [done| |done|]; cbn [loop].
    - assert (i = k) as -> by lia. unfold los_step. rewrite (proj2 (Z.eqb_neq (x0 + sx * k) _)) by (destruct Hsx as [Es|Es]; rewrite ?Es; lia). rewrite checked_s32_ok by (unfold is_s32; lia). mred.
      rewrite Hd, (proj2 (Z.leb_gt dx (0 + 0))) by lia. mred. cbn [negb]. rewrite !Z.add_0_r, Z.eqb_refl. cbn [negb]. mred. cbn [negb].
      destruct (Hat _ _ cost (Hreg k ltac:(lia))) as [cost1 ->]. mred. rewrite Hbad, Hnone. done.
    - destruct (los_axis_step i cost true Hd ltac:(lia) (Hreg i ltac:(lia))) as [cost' ->]; [by rewrite Hok by lia|]. unfold side_ok. rewrite Hok by lia. cbn [orb]. mred. apply IH; lia. }
  pose proof (Hgen (Z.to_nat k) (S (Z.to_nat dx)) 0 f_zero ltac:(lia) ltac:(lia)) as E. rewrite Z.mul_0_r, Z.add_0_r in E. by rewrite E.
Qed.
End walk.

(** The cells as unit squares, the nodes at their lower left corners: a point
    of the segment, at the fraction [n / d] of it, is inside the square. *)
Definition crosses (x0 y0 x1 y1 a b : Z) : Prop :=
  exists n d, 0 < d /\ 0 <= n <= d /\ a * d < x0 * d + n * (x1 - x0) < (a + 1) * d /\ b * d < y0 * d + n * (y1 - y0) < (b + 1) * d.

(** Forwards or backwards along an axis, the unit [i] of the segment. *)
Definition unit_at (x0 sx i : Z) : Z := x0 + sx * i + Z.quot (sx - 1) 2.

Lemma unit_inside x0 sx i n d : sx = 1 \/ sx = -1 -> 0 < d -> unit_at x0 sx i * d < x0 * d + n * sx < (unit_at x0 sx i + 1) * d <-> i * d < n < (i + 1) * d.
Proof.
  intros Hsx Hd. unfold unit_at. destruct Hsx as [->| ->]; [change (Z.quot (1 - 1) 2) with 0|change (Z.quot (-1 - 1) 2) with (-1)]; split; lia.
Qed.

(** The squares crossed are those of the walk. *)
Lemma crosses_meets x0 y0 sx sy dx dy i j : sx = 1 \/ sx = -1 -> sy = 1 \/ sy = -1 -> 0 < dx -> 0 < dy -> 
  crosses x0 y0 (x0 + sx * dx) (y0 + sy * dy) (unit_at x0 sx i) (unit_at y0 sy j) <-> 0 <= i < dx /\ 0 <= j < dy /\ meets dx dy i j.
Proof.
  intros Hsx Hsy Hdx Hdy. unfold crosses, meets. split.
  - intros (n & d & Hd & Hn & Hx & Hy). replace (n * (x0 + sx * dx - x0)) with (n * dx * sx) in Hx by ring. replace (n * (y0 + sy * dy - y0)) with (n * dy * sy) in Hy by ring.
    apply unit_inside in Hx; [|done..]. apply unit_inside in Hy; [|done..]. repeat split; nia.
  - intros (Hi & Hj & H1 & H2). exists (Z.max (i * dy) (j * dx) + Z.min ((i + 1) * dy) ((j + 1) * dx)), (2 * dx * dy).
    set (lo := Z.max (i * dy) (j * dx)). set (hi := Z.min ((i + 1) * dy) ((j + 1) * dx)). assert (Hlt : lo < hi) by (unfold lo, hi; nia).
    assert (B : i * dy <= lo /\ j * dx <= lo /\ hi <= (i + 1) * dy /\ hi <= (j + 1) * dx /\ 0 <= lo /\ hi <= dx * dy) by (unfold lo, hi; repeat split; nia). destruct B as (B1 & B2 & B3 & B4 & B5 & B6).
    split; [nia|]. split; [nia|].
    replace ((lo + hi) * (x0 + sx * dx - x0)) with ((lo + hi) * dx * sx) by ring. replace ((lo + hi) * (y0 + sy * dy - y0)) with ((lo + hi) * dy * sy) by ring.
    split; apply unit_inside; [done|nia|nia|done|nia|nia].
Qed.

Lemma crosses_swap x0 y0 x1 y1 a b : crosses x0 y0 x1 y1 a b <-> crosses y0 x0 y1 x1 b a.
Proof. split; intros (n & d & ? & ? & ? & ?); by exists n, d. Qed.

Lemma unit_of x0 sx a : sx = 1 \/ sx = -1 -> exists i, a = unit_at x0 sx i.
Proof. intros Hsx. exists (sx * (a - x0 - Z.quot (sx - 1) 2)). unfold unit_at. generalize (Z.quot (sx - 1) 2). intros u. destruct Hsx as [->| ->]; lia. Qed.

Lemma unit_between x0 sx dx i : sx = 1 \/ sx = -1 -> 0 <= dx -> 0 <= i < dx <-> Z.min x0 (x0 + sx * dx) <= unit_at x0 sx i < Z.max x0 (x0 + sx * dx).
Proof. intros Hsx Hdx. unfold unit_at. destruct Hsx as [->| ->]; [change (Z.quot (1 - 1) 2) with 0|change (Z.quot (-1 - 1) 2) with (-1)]; lia. Qed.

(** The first place where a test fails. *)
Lemma least_false (f : nat -> bool) n : f n = false -> exists m, (m <= n)%nat /\ f m = false /\ forall k, (k < m)%nat -> f k = true.
Proof.
  intros Hf. assert (H : (forall k, (k < n)%nat -> f k = true) \/ exists m, (m < n)%nat /\ f m = false /\ forall k, (k < m)%nat -> f k = true).
  { clear Hf. induction n as [|n [IH|(m & Hm & Em & IH)]]; [left; lia| |right; exists m; split; [lia|done]].
    destruct (f n) eqn:En; [left; intros k Hk; destruct (Nat.eq_dec k n) as [->|]; [done|apply IH; lia]|right; exists n; split; [lia|done]]. }
  destruct H as [H|(m & Hm & Em & H)]; [by exists n|exists m; split; [lia|done]].
Qed.

(** The direction and the length of the line on an axis. *)
Definition towards (x0 x1 : Z) : Z := if x0 <? x1 then 1 else -1.

Lemma towards_spec x0 x1 : (towards x0 x1 = 1 \/ towards x0 x1 = -1) /\ x1 = x0 + towards x0 x1 * Z.abs (x1 - x0).
Proof. unfold towards. destruct (Z.ltb_spec x0 x1); lia. Qed.

Section along.
Context (at_ : Z -> Z -> spec_float -> option (bool * spec_float)) (ok : Z -> Z -> bool) (region : Z -> Z -> Prop).
Context (Hat : forall a b cost, region a b -> exists cost', at_ a b cost = Some (ok a b, cost')).
Context (p0 q0 p1 q1 : Z).
Let dp := Z.abs (p1 - p0).
Let dq := Z.abs (q1 - q0).
Let sp := towards p0 p1.
Let sq := towards q0 q1.

Lemma along_oblique : dp + dq <= 2 ^ 31 -> 0 < dq <= dp ->
  (forall a b, Z.min p0 p1 <= a < Z.max p0 p1 -> Z.min q0 q1 <= b < Z.max q0 q1 -> region a b) ->
  exists free cost, los_along at_ dp dq sp sq (Z.quot (sp - 1) 2) (Z.quot (sq - 1) 2) p0 q0 p1 = Some (free, cost) /\ (free = true <-> forall a b, crosses p0 q0 p1 q1 a b -> ok a b = true).
Proof using Hat.
  intros Hs Hd Hreg. destruct (towards_spec p0 p1) as [Hsp Ep]. destruct (towards_spec q0 q1) as [Hsq Eq]. fold sp dp in Hsp, Ep. fold sq dq in Hsq, Eq.
  destruct (los_oblique at_ ok region Hat dp dq sp sq (Z.quot (sp - 1) 2) (Z.quot (sq - 1) 2) p0 q0 Hsp Hs Hd) as (free & cost & E & Hf).
  - intros i j Hi Hj. apply Hreg; [rewrite Ep at 1 2|rewrite Eq at 1 2]; (apply unit_between; [done|apply Z.abs_nonneg|done]).
  - rewrite <- Ep in E. exists free, cost. split; [exact E|]. rewrite Hf. split.
    + intros H a b Hc. destruct (unit_of p0 sp a Hsp) as [i ->]. destruct (unit_of q0 sq b Hsq) as [j ->]. rewrite Ep, Eq in Hc. apply crosses_meets in Hc as (Hi & _ & Hm); [|done|done|lia|lia]. by apply H.
    + intros H i j Hi Hm. apply H. change (p0 + sp * i + Z.quot (sp - 1) 2) with (unit_at p0 sp i). change (q0 + sq * j + Z.quot (sq - 1) 2) with (unit_at q0 sq j). rewrite Ep, Eq. apply crosses_meets; [done|done|lia|lia|]. split; [done|]. split; [|done]. unfold meets in Hm. nia.
Qed.

Lemma along_axis : q0 = q1 -> (forall a, Z.min p0 p1 <= a < Z.max p0 p1 -> region a q0 /\ (ok a q0 = false -> region a (q0 - 1))) ->
  exists free cost, los_along at_ dp dq sp sq (Z.quot (sp - 1) 2) (Z.quot (sq - 1) 2) p0 q0 p1 = Some (free, cost) /\
    (free = true <-> forall a, Z.min p0 p1 <= a < Z.max p0 p1 -> ok a q0 || ok a (q0 - 1) = true).
Proof using Hat.
  intros Hq Hreg. destruct (towards_spec p0 p1) as [Hsp Ep]. fold sp dp in Hsp, Ep.
  destruct (los_axis at_ ok region Hat dp dq sp sq (Z.quot (sp - 1) 2) (Z.quot (sq - 1) 2) p0 q0 Hsp) as (free & cost & E & Hf); [unfold dq; lia|unfold dp; lia| |].
  - intros i Hi. apply (Hreg (unit_at p0 sp i)). rewrite Ep at 1 2. (apply unit_between; [done|apply Z.abs_nonneg|done]).
  - rewrite <- Ep in E. exists free, cost. split; [exact E|]. rewrite Hf. split.
    + intros H a Ha. destruct (unit_of p0 sp a Hsp) as [i ->]. rewrite Ep in Ha at 1 2. apply unit_between in Ha; [|done|apply Z.abs_nonneg]. by apply H.
    + intros H i Hi. apply H. rewrite Ep at 1 2. (apply unit_between; [done|apply Z.abs_nonneg|done]).
Qed.

Lemma along_undefined k : q0 = q1 -> Z.min p0 p1 <= k < Z.max p0 p1 -> 
  (forall a, Z.min p0 p1 <= a < Z.max p0 p1 -> region a q0) -> (forall a, Z.min p0 p1 <= a < Z.max p0 p1 -> ok a q0 = false -> forall cost, at_ a (q0 - 1) cost = None) -> ok k q0 = false ->
  los_along at_ dp dq sp sq (Z.quot (sp - 1) 2) (Z.quot (sq - 1) 2) p0 q0 p1 = None.
Proof using Hat.
  intros Hq Hk Hreg Hnone Hbad. destruct (towards_spec p0 p1) as [Hsp Ep]. fold sp dp in Hsp, Ep.
  assert (Hb : forall i, 0 <= i < dp -> Z.min p0 p1 <= unit_at p0 sp i < Z.max p0 p1) by (intros i Hi; rewrite Ep at 1 2; by apply unit_between; [|apply Z.abs_nonneg|]).
  assert (Hfirst : exists i, 0 <= i < dp /\ (forall i', 0 <= i' < i -> ok (unit_at p0 sp i') q0 = true) /\ ok (unit_at p0 sp i) q0 = false).
  { destruct (unit_of p0 sp k Hsp) as [i ->]. rewrite Ep in Hk at 1 2. apply unit_between in Hk; [|done|apply Z.abs_nonneg].
    destruct (least_false (fun n => ok (unit_at p0 sp (Z.of_nat n)) q0) (Z.to_nat i)) as (n & Hn & Ebad & Hok); [by rewrite Z2Nat.id by lia|].
    exists (Z.of_nat n). split; [lia|]. split; [|done]. intros i' Hi'. specialize (Hok (Z.to_nat i') ltac:(lia)). by rewrite Z2Nat.id in Hok by lia. }
  destruct Hfirst as (i & Hi & Hok & Ebad).
  pose proof (los_axis_undefined at_ ok region Hat dp dq sp sq (Z.quot (sp - 1) 2) (Z.quot (sq - 1) 2) p0 q0 Hsp i) as E. rewrite <- Ep in E. apply E; [unfold dq; lia|done| |exact Hok|exact Ebad|].
  - intros j Hj. apply Hreg, Hb. lia.
  - intros cost. apply Hnone; [by apply Hb|done].
Qed.
End along.

(** ** The line of sight on a map *)

(** The cells the line of sight goes through. *)
Definition los_safe (s : ThetaStar) (a b : Z) : bool :=
  match cell_cost (ts_costmap_ s) a b with
  | Some c => (c =? UNKNOWN_COST) && allow_unknown_ s || fle (scaled_cost c) (f_of_Z MAX_NON_OBSTACLE_COST)
  | None => false
  end.

Section los_map.
Context (s : ThetaStar) (c : list Z) (Hm : wf_map (ts_costmap_ s) c).

Lemma cell_cost_on a b : on_map (ts_costmap_ s) a b -> exists v, cell_cost (ts_costmap_ s) a b = Some v /\ grid_at c (size_x_ (ts_costmap_ s)) a b = Some v.
Proof using Hm.
  intros Hp. pose proof Hp as [Ha Hb]. pose proof Hm as [Hsx Hsy _ Hs Hl]. unfold cell_cost, Costmap2D.getCost. rewrite Hs. mred. rewrite !u32_small by (unfold is_u32; clear -Ha Hb Hsx Hsy; lia).
  destruct (getIndex_small (ts_costmap_ s) c a b Hm Hp) as [E Hi]. rewrite E. destruct (aget_is_Some c (b * size_x_ (ts_costmap_ s) + a)) as [v Hv]; [by rewrite Hl|]. by exists v.
Qed.

Lemma isSafe_cost_on a b cost : on_map (ts_costmap_ s) a b -> exists cost', isSafe_cost s a b cost = Some (los_safe s a b, cost').
Proof using Hm.
  intros (v & Ev & _)%cell_cost_on. unfold isSafe_cost, getCost, los_safe. rewrite Ev. mred. destruct (_ || _); by eexists.
Qed.

(** Left of the first column the index is that of the end of the row below. *)
Lemma isSafe_cost_left b cost : 0 < b < size_y_ (ts_costmap_ s) -> 0 < size_x_ (ts_costmap_ s) -> exists cost', isSafe_cost s (-1) b cost = Some (los_safe s (-1) b, cost').
Proof using Hm.
  intros Hb Hw. pose proof Hm as [Hsx Hsy Hmax Hs Hl]. assert (E : exists v, cell_cost (ts_costmap_ s) (-1) b = Some v).
  { unfold cell_cost, Costmap2D.getCost. rewrite Hs. mred. apply aget_is_Some. rewrite Hl. clear -Hb Hsx Hsy Hmax Hw. unfold Costmap2D.getIndex, u32.
    set (A := size_x_ (ts_costmap_ s) * size_y_ (ts_costmap_ s)) in *. set (w := size_x_ (ts_costmap_ s)) in *. set (h := size_y_ (ts_costmap_ s)) in *.
    assert (HA : b * w <= A - w) by (unfold A; nia). assert (Hbw : w <= b * w) by nia. clearbody A w h. change (-1 mod 2 ^ 32) with (2 ^ 32 - 1). rewrite (Z.mod_small b), (Z.mod_small (b * w)) by lia.
    assert (E : (b * w + (2 ^ 32 - 1)) mod 2 ^ 32 = b * w - 1) by (symmetry; apply (Z.mod_unique_pos _ _ 1); lia). rewrite E. lia. }
  destruct E as [v Ev]. unfold isSafe_cost, getCost, los_safe. rewrite Ev. mred. destruct (_ || _); by eexists.
Qed.

(** Below the first row the index wraps around, out of the array. *)
Lemma isSafe_cost_below a cost : 0 <= a < size_x_ (ts_costmap_ s) -> isSafe_cost s a (-1) cost = None.
Proof using Hm.
  intros Ha. pose proof Hm as [Hsx Hsy Hmax Hs Hl]. assert (E : cell_cost (ts_costmap_ s) a (-1) = None); [|unfold isSafe_cost, getCost; by rewrite E].
  unfold cell_cost, Costmap2D.getCost. rewrite Hs. mred. destruct (aget c _) as [v|] eqn:Ev; [|done]. apply aget_bounds in Ev. exfalso. rewrite Hl in Ev. clear -Ev Ha Hsx Hmax. revert Ev. unfold Costmap2D.getIndex, u32.
  set (A := size_x_ (ts_costmap_ s) * size_y_ (ts_costmap_ s)) in *. set (w := size_x_ (ts_costmap_ s)) in *. clearbody A w.
  change (-1 mod 2 ^ 32) with (2 ^ 32 - 1). rewrite (Z.mod_small a) by lia. assert (E : (2 ^ 32 - 1) * w mod 2 ^ 32 = 2 ^ 32 - w) by (symmetry; apply (Z.mod_unique_pos _ _ (w - 1)); lia). rewrite E, Z.mod_small by lia. lia.
Qed.

Lemma losCheck_expand x0 y0 x1 y1 : on_map (ts_costmap_ s) x0 y0 -> on_map (ts_costmap_ s) x1 y1 ->
  losCheck s x0 y0 x1 y1 =
    let dx := Z.abs (x1 - x0) in let dy := Z.abs (y1 - y0) in let sx := towards x0 x1 in let sy := towards y0 y1 in
    if dy <=? dx then los_along (isSafe_cost s) dx dy sx sy (Z.quot (sx - 1) 2) (Z.quot (sy - 1) 2) x0 y0 x1
    else los_along (fun a b => isSafe_cost s b a) dy dx sy sx (Z.quot (sy - 1) 2) (Z.quot (sx - 1) 2) y0 x0 y1.
Proof using Hm.
  intros [Hx0 Hy0] [Hx1 Hy1]. pose proof Hm as [Hsx Hsy _ _ _]. unfold losCheck. repeat (rewrite checked_s32_ok by (unfold is_s32; clear -Hx0 Hy0 Hx1 Hy1 Hsx Hsy; lia); mred). done.
Qed.
End los_map.

Section los_theorems.
Context (s : ThetaStar) (c : list Z) (Hm : wf_map (ts_costmap_ s) c).

(** The two sides of a unit of a line along an axis. *)
Definition row_free (x y : Z) : bool := los_safe s x y || los_safe s x (y - 1).
Definition column_free (x y : Z) : bool := los_safe s x y || los_safe s (x - 1) y.

Lemma map_sum : size_x_ (ts_costmap_ s) + size_y_ (ts_costmap_ s) <= 2 ^ 31 + 2.
Proof using Hm.
  pose proof Hm as [Hsx Hsy Ha _ _]. set (w := size_x_ (ts_costmap_ s)) in *. set (h := size_y_ (ts_costmap_ s)) in *. clearbody w h. clear -Hsx Hsy Ha.
  destruct (Z.eq_dec w 0) as [->|]; [lia|]. destruct (Z.eq_dec h 0) as [->|]; [lia|]. nia.
Qed.

(** Where the line of sight may read: on the map, and left of it. *)
Definition readable (a b : Z) : Prop := on_map (ts_costmap_ s) a b \/ a = -1 /\ 0 < b < size_y_ (ts_costmap_ s) /\ 0 < size_x_ (ts_costmap_ s).

Lemma isSafe_cost_readable a b cost : readable a b -> exists cost', isSafe_cost s a b cost = Some (los_safe s a b, cost').
Proof using Hm. intros [H|(-> & Hb & Hw)]; [by apply (isSafe_cost_on s c Hm)|by apply (isSafe_cost_left s c Hm)]. Qed.

(** What the first row and column must be for the line of sight along them not
    to leave the array. *)
Definition sight_inside (x0 y0 x1 y1 : Z) : Prop :=
  (y0 = y1 -> forall a, Z.min x0 x1 <= a < Z.max x0 x1 -> los_safe s a y0 = false -> 0 < y0) /\
  (x0 = x1 -> forall b, Z.min y0 y1 <= b < Z.max y0 y1 -> los_safe s x0 b = false -> 0 < x0 \/ 0 < b).

Lemma losCheck_spec x0 y0 x1 y1 : on_map (ts_costmap_ s) x0 y0 -> on_map (ts_costmap_ s) x1 y1 -> sight_inside x0 y0 x1 y1 ->
  exists free cost, losCheck s x0 y0 x1 y1 = Some (free, cost) /\
    (x0 <> x1 -> y0 <> y1 -> (free = true <-> forall a b, crosses x0 y0 x1 y1 a b -> los_safe s a b = true)) /\
    (y0 = y1 -> (free = true <-> forall a, Z.min x0 x1 <= a < Z.max x0 x1 -> row_free a y0 = true)) /\
    (x0 = x1 -> (free = true <-> forall b, Z.min y0 y1 <= b < Z.max y0 y1 -> column_free x0 b = true)).
Proof using Hm.
  intros H0 H1 [Hrow Hcol]. rewrite (losCheck_expand s c Hm) by done. cbv zeta. pose proof H0 as [Hx0 Hy0]. pose proof H1 as [Hx1 Hy1]. pose proof map_sum as Hsum.
  pose proof isSafe_cost_readable as Hat.
  assert (Hat' : forall a b cost, readable b a -> exists cost', isSafe_cost s b a cost = Some (los_safe s b a, cost')) by (intros a b cost; apply Hat).
  destruct (Z.leb_spec (Z.abs (y1 - y0)) (Z.abs (x1 - x0))) as [Hle|Hgt].
  - destruct (Z.eq_dec y0 y1) as [Ey|Hne].
    + destruct (along_axis (isSafe_cost s) (los_safe s) readable Hat x0 y0 x1 y1 Ey) as (free & cost & E & Hf).
      { intros a Ha. split; [left; unfold on_map; lia|]. intros Hs. specialize (Hrow Ey a Ha Hs). left. unfold on_map. lia. }
      exists free, cost. split; [exact E|]. split; [done|]. split; [done|]. intros Ex. rewrite Hf. split; intros; lia.
    + destruct (along_oblique (isSafe_cost s) (los_safe s) readable Hat x0 y0 x1 y1) as (free & cost & E & Hf); [lia|lia|intros a b Ha Hb; left; unfold on_map; lia|]. exists free, cost. split; [exact E|]. split; [done|]. split; [done|lia].
  - destruct (Z.eq_dec x0 x1) as [Ex|Hne].
    + destruct (along_axis (fun a b => isSafe_cost s b a) (fun a b => los_safe s b a) (fun a b => readable b a) Hat' y0 x0 y1 x1 Ex) as (free & cost & E & Hf).
      { intros b Hb. split; [left; unfold on_map; lia|]. intros Hs. specialize (Hcol Ex b Hb Hs). destruct (Z.eq_dec x0 0) as [->|]; [right|left; unfold on_map]; lia. }
      exists free, cost. split; [exact E|]. split; [done|]. split; [lia|done].
    + destruct (along_oblique (fun a b => isSafe_cost s b a) (fun a b => los_safe s b a) (fun a b => readable b a) Hat' y0 x0 y1 x1) as (free & cost & E & Hf); [lia|lia|intros a b Ha Hb; left; unfold on_map; lia|]. exists free, cost. split; [exact E|]. split; [|split; lia].
      intros _ _. rewrite Hf. split; intros H a b Hc; apply H; by apply crosses_swap.
Qed.
End los_theorems.

(** ** Theorems *)

(** C25. The line of sight between two cells is free exactly when every cell whose
    inside the segment between their lower left corners crosses is passable;
    along an axis, where the segment runs between two rows or columns, when
    one of the two cells on its sides is, all along. *)
Theorem losCheck_supercover s c x0 y0 x1 y1 : wf_map (ts_costmap_ s) c -> on_map (ts_costmap_ s) x0 y0 -> on_map (ts_costmap_ s) x1 y1 -> (x0 = x1 -> 0 < x0) -> (y0 = y1 -> 0 < y0) ->
  exists free cost, losCheck s x0 y0 x1 y1 = Some (free, cost) /\
    (x0 <> x1 -> y0 <> y1 -> (free = true <-> forall a b, crosses x0 y0 x1 y1 a b -> los_safe s a b = true)) /\
    (y0 = y1 -> (free = true <-> forall a, Z.min x0 x1 <= a < Z.max x0 x1 -> los_safe s a y0 || los_safe s a (y0 - 1) = true)) /\
    (x0 = x1 -> (free = true <-> forall b, Z.min y0 y1 <= b < Z.max y0 y1 -> los_safe s x0 b || los_safe s (x0 - 1) b = true)).
Proof. intros Hm H0 H1 Hx Hy. apply (losCheck_spec s c Hm x0 y0 x1 y1 H0 H1). split; auto. Qed.

Definition los_map : Costmap2D := mkCostmap2D 4 3 f_one f_zero f_zero (Some [0; 0; 0; 0;  0; 0; 254; 0;  0; 0; 0; 0]) 0.
Definition los_planner : ThetaStar := ThetaStar_new los_map.

Lemma los_map_wf : wf_map los_map [0; 0; 0; 0;  0; 0; 254; 0;  0; 0; 0; 0].
Proof. constructor; vm_compute; intuition discriminate. Qed.

Lemma losCheck_supercover_witness : exists free cost, losCheck los_planner 0 0 3 2 = Some (free, cost) /\
    (0 <> 3 -> 0 <> 2 -> (free = true <-> forall a b, crosses 0 0 3 2 a b -> los_safe los_planner a b = true)) /\
    (0 = 2 -> (free = true <-> forall a, Z.min 0 3 <= a < Z.max 0 3 -> los_safe los_planner a 0 || los_safe los_planner a (0 - 1) = true)) /\
    (0 = 3 -> (free = true <-> forall b, Z.min 0 2 <= b < Z.max 0 2 -> los_safe los_planner 0 b || los_safe los_planner (0 - 1) b = true)).
Proof.
  apply (losCheck_supercover los_planner _ 0 0 3 2 los_map_wf); [split; vm_compute; intuition discriminate|split; vm_compute; intuition discriminate|discriminate|discriminate].
Defined.

(** The line from (0, 0) to (3, 2) crosses the obstacle at (2, 1); the one
    from (0, 0) to (2, 2) only touches it. *)
Example losCheck_example : fst <$> losCheck los_planner 0 0 3 2 = Some false /\ fst <$> losCheck los_planner 0 0 2 2 = Some true.
Proof. vm_compute. done. Qed.

(** Along the first row, an obstacle makes the line of sight look below the map. *)
Theorem losCheck_reads_below s c x0 x1 k : wf_map (ts_costmap_ s) c -> on_map (ts_costmap_ s) x0 0 -> on_map (ts_costmap_ s) x1 0 -> Z.min x0 x1 <= k < Z.max x0 x1 -> los_safe s k 0 = false -> losCheck s x0 0 x1 0 = None.
Proof.
  intros Hm H0 H1 Hk Hbad. rewrite (losCheck_expand s c Hm) by done. cbv zeta. pose proof H0 as [Hx0 Hy0]. pose proof H1 as [Hx1 _]. rewrite (proj2 (Z.leb_le (Z.abs (0 - 0)) _)) by lia.
  apply (along_undefined (isSafe_cost s) (los_safe s) (on_map (ts_costmap_ s)) (isSafe_cost_on s c Hm) x0 0 x1 0 k); [done|done| | |done].
  - intros a Ha. split; lia.
  - intros a Ha _ cost. apply (isSafe_cost_below s c Hm). lia.
Qed.

Lemma losCheck_reads_below_witness : losCheck (ThetaStar_new (mkCostmap2D 3 1 f_one f_zero f_zero (Some [0; 254; 0]) 0)) 0 0 2 0 = None.
Proof.
  apply (losCheck_reads_below _ [0; 254; 0] 0 2 1); [constructor; vm_compute; intuition discriminate|split; vm_compute; intuition discriminate|split; vm_compute; intuition discriminate|vm_compute; intuition discriminate|by vm_compute].
Defined.
