(* ===== verification/ThetaStarSearch.v ===== *)
(** The search of the Theta* planner: it ends, stays in its arrays, and its
    answers are chains of cells that see each other. *)

From S2P Require Import Prelude Floats Costmap2D FloatOrder ThetaStar.

(** ** The part of the planner that the search leaves alone *)

Definition frame (s : ThetaStar) : ThetaStar :=
  mkThetaStar (src_ s) (dst_ s) (ts_costmap_ s) (w_traversal_cost_ s) (w_euc_cost_ s) (w_heuristic_cost_ s) (how_many_corners_ s) (allow_unknown_ s)
    (ts_size_x_ s) (ts_size_y_ s) [] [] (nodes_capacity_ s) [] 0 0.

(** Paths to the first node along the parents, with their lengths. *)
Inductive rooted (nodes : list tree_node) : nat -> Z -> Prop :=
| rooted_0 : rooted nodes 0 0
| rooted_S k i n p : i <> 0 -> aget nodes i = Some n -> parent_id n = Some p -> rooted nodes k p -> rooted nodes (S k) i.

Definition total (l : list tree_node) : Z := foldr (fun n a => f64_units (tn_f n) + a) 0 l.

Lemma total_app l1 l2 : total (l1 ++ l2) = total l1 + total l2.
Proof. unfold total. induction l1 as [|n l1 IH]; [done|]. cbn [app foldr] in *. rewrite IH. lia. Qed.

Lemma total_insert l i n n' : l !! i = Some n -> total (<[i := n']> l) = total l - f64_units (tn_f n) + f64_units (tn_f n').
Proof.
  revert i. induction l as [|a l IH]; intros [|i] Hi; [done|done|injection Hi as ->; cbn; lia|]. cbn in Hi. change (<[S i := n']> (a :: l)) with (a :: <[i := n']> l).
  unfold total in *. cbn [foldr]. rewrite (IH i Hi). lia.
Qed.

Lemma checked_s32_range z v : checked_s32 z = Some v -> is_s32 v.
Proof. unfold checked_s32. case_bool_decide as H; [by intros [= <-]|done]. Qed.

(** What is supposed of the planner: the area is an [int] and a cell has eight
    neighbours at most; the costs are numbers that are not negative; the ends
    are on the map and the start is passable. In the first row, the line of
    sight meets no obstacle between two passable cells, nor in the corner,
    where it would read out of the map ([losCheck_reads_below]): so it is when
    the row is free, and when it is an obstacle all along. *)
Record plannable (hypot : spec_float -> spec_float -> spec_float) (s : ThetaStar) (c : list Z) : Prop := {
  po_map : wf_map (ts_costmap_ s) c;
  po_bytes : Forall is_u8 c;
  po_area : size_x_ (ts_costmap_ s) * size_y_ (ts_costmap_ s) < 2 ^ 31;
  po_corners : how_many_corners_ s <= 8;
  po_src : on_map (ts_costmap_ s) (fst (src_ s)) (snd (src_ s)) /\ isSafe s (fst (src_ s)) (snd (src_ s)) = Some true;
  po_dst : on_map (ts_costmap_ s) (fst (dst_ s)) (snd (dst_ s));
  po_row x0 x1 a : 0 <= x0 < size_x_ (ts_costmap_ s) -> 0 <= x1 < size_x_ (ts_costmap_ s) -> isSafe s x0 0 = Some true -> isSafe s x1 0 = Some true ->
    Z.min x0 x1 <= a < Z.max x0 x1 -> los_safe s a 0 = true;
  po_corner : isSafe s 0 0 = Some true -> los_safe s 0 0 = true;
  po_euclid : forall dx dy, is_s32 dx -> is_s32 dy -> f64_nonneg (fmul (w_euc_cost_ s) (hypot (f_of_Z dx) (f_of_Z dy))) = true;
  po_heuristic : forall dx dy, is_s32 dx -> is_s32 dy -> f64_nonneg (fmul (w_heuristic_cost_ s) (hypot (f_of_Z dx) (f_of_Z dy))) = true;
  po_traversal : forall v, is_u8 v -> f64_nonneg (traversal s (scaled_cost v)) = true;
  po_unknown : f64_nonneg (traversal s (f_of_Z (OCCUPIED_COST - 1))) = true;
}.
Arguments po_map {hypot s c}.
Arguments po_bytes {hypot s c}.
Arguments po_area {hypot s c}.
Arguments po_corners {hypot s c}.
Arguments po_src {hypot s c}.
Arguments po_dst {hypot s c}.
Arguments po_row {hypot s c}.
Arguments po_corner {hypot s c}.
Arguments po_euclid {hypot s c}.
Arguments po_heuristic {hypot s c}.
Arguments po_traversal {hypot s c}.
Arguments po_unknown {hypot s c}.

(** The containers, reset, have the size of the map. *)
Record planner_ok (hypot : spec_float -> spec_float -> spec_float) (s : ThetaStar) (c : list Z) : Prop := {
  po_plannable :> plannable hypot s c;
  po_x : ts_size_x_ s = size_x_ (ts_costmap_ s);
  po_y : ts_size_y_ s = size_y_ (ts_costmap_ s);
  po_capacity : size_x_ (ts_costmap_ s) * size_y_ (ts_costmap_ s) <= nodes_capacity_ s;
}.
Arguments po_x {hypot s c}.
Arguments po_y {hypot s c}.
Arguments po_capacity {hypot s c}.

Section search.
Context {heap : OpenList} {heap_laws : OpenListLaws heap} (hypot : spec_float -> spec_float -> spec_float) (s0 : ThetaStar) (c : list Z).

Context (Hok : planner_ok hypot s0 c).

Definition area : Z := size_x_ (ts_costmap_ s0) * size_y_ (ts_costmap_ s0).

Definition on_grid (p : Z * Z) : Prop := on_map (ts_costmap_ s0) (fst p) (snd p).

(** A cell and that of its parent: neighbours, or in sight of each other. *)
Definition visible (child parent : Z * Z) : Prop :=
  (Z.abs (fst child - fst parent) <= 1 /\ Z.abs (snd child - snd parent) <= 1) \/
  exists cost, losCheck s0 (fst child) (snd child) (fst parent) (snd parent) = Some (true, cost).

Definition node_cell (n : tree_node) : Z * Z := (tn_x n, tn_y n).

(** ** The invariant *)

(** [cells] are those of the nodes, in the order in which they were made. *)
Record placed (cells : list (Z * Z)) (nodes : list tree_node) (i : Z) (n : tree_node) : Prop := {
  pl_cell : aget cells i = Some (node_cell n);
  pl_safe : isSafe s0 (tn_x n) (tn_y n) = Some true;
  pl_g : f64_nonneg (tn_g n) = true;
  pl_h : f64_nonneg (tn_h n) = true;
  pl_heuristic : getHCost hypot s0 (tn_x n) (tn_y n) = Some (tn_h n);
  pl_f : tn_f n = fadd (tn_g n) (tn_h n);
  pl_parent : exists p q, parent_id n = Some p /\ p < alen cells /\ aget nodes p = Some q /\ is_Some (parent_id q) /\
    f64_units (tn_g q) <= f64_units (tn_g n) /\ visible (node_cell n) (node_cell q);
}.

Record search_inv (s : ThetaStar) (cells : list (Z * Z)) : Prop := {
  si_frame : frame s = frame s0;
  si_made : index_generated_ s = alen cells;
  si_some : 0 < alen cells <= alen (nodes_data_ s);
  si_nodup : NoDup cells;
  si_on : Forall on_grid cells;
  si_position : forall x y, on_grid (x, y) -> exists r, aget (node_position_ s) (ts_size_x_ s0 * y + x) = Some r /\ forall i, r = Some i <-> aget cells i = Some (x, y);
  si_nodes : forall i n, i < alen cells -> aget (nodes_data_ s) i = Some n -> n = blank_node \/ placed cells (nodes_data_ s) i n;
  si_root : exists n, aget (nodes_data_ s) 0 = Some n /\ parent_id n = Some 0 /\ node_cell n = src_ s0;
  si_queue : Forall (fun i => i < alen cells /\ exists n, aget (nodes_data_ s) i = Some n /\ placed cells (nodes_data_ s) i n) (queue_ s);
  si_rooted : forall i n, i < alen cells -> aget (nodes_data_ s) i = Some n -> placed cells (nodes_data_ s) i n -> exists k, rooted (nodes_data_ s) k i;
  si_rest : area <= alen (node_position_ s) /\ forall i r, area <= i -> aget (node_position_ s) i = Some r -> r = None;
}.

(** The queue, and the costs that the nodes may still lose. *)
Definition potential (s : ThetaStar) (cells : list (Z * Z)) : Z :=
  alen (queue_ s) + total (take (Z.to_nat (alen cells)) (nodes_data_ s)) + (area - alen cells) * f64_units INF_COST.

Lemma placed_not_blank cells nodes i n : placed cells nodes i n -> is_Some (parent_id n).
Proof using Type. intros [_ _ _ _ _ _ (p & q & -> & _)]. by exists p. Qed.

Lemma inv_placed s cells i n : search_inv s cells -> i < alen cells -> aget (nodes_data_ s) i = Some n -> is_Some (parent_id n) -> placed cells (nodes_data_ s) i n.
Proof using Type. intros Hi Hlt Hn [p Hp]. destruct (si_nodes _ _ Hi i n Hlt Hn) as [->|]; [done|done]. Qed.

Lemma root_placed s cells : search_inv s cells -> exists n, aget (nodes_data_ s) 0 = Some n /\ placed cells (nodes_data_ s) 0 n /\ parent_id n = Some 0 /\ node_cell n = src_ s0.
Proof using Type.
  intros Hi. destruct (si_root _ _ Hi) as (n & Hn & Hp & Hc). exists n. split; [done|]. split; [|done]. apply (inv_placed s); [done|apply (si_some _ _ Hi)|done|by exists 0].
Qed.

(** The parent of a placed node is placed and costs no more. *)
Lemma parent_placed s cells i n : search_inv s cells -> placed cells (nodes_data_ s) i n -> exists p q, parent_id n = Some p /\ p < alen cells /\ aget (nodes_data_ s) p = Some q /\
  placed cells (nodes_data_ s) p q /\ f64_units (tn_g q) <= f64_units (tn_g n) /\ visible (node_cell n) (node_cell q).
Proof using Type.
  intros Hi Hn. destruct (pl_parent _ _ _ _ Hn) as (p & q & Ep & Hp & Eq & Hq & Hg & Hv). exists p, q. split; [done|]. split; [done|]. split; [done|]. split; [|done]. by apply (inv_placed s).
Qed.

Lemma root_least s cells r : search_inv s cells -> aget (nodes_data_ s) 0 = Some r -> forall k i n, rooted (nodes_data_ s) k i -> aget (nodes_data_ s) i = Some n -> placed cells (nodes_data_ s) i n -> f64_units (tn_g r) <= f64_units (tn_g n).
Proof using Type.
  intros Hi Hr k i n Hk. revert n. induction Hk as [|k i n' p Hne Hn' Hp Hk IH]; intros n Hn Hpl; [rewrite Hr in Hn; injection Hn as <-; lia|].
  rewrite Hn' in Hn. injection Hn as ->. destruct (parent_placed _ _ _ _ Hi Hpl) as (p' & q & Ep & _ & Eq & Hq & Hg & _). rewrite Hp in Ep. injection Ep as <-. specialize (IH q Eq Hq). lia.
Qed.

(** ** Changing a node *)

Section change.
Context (s : ThetaStar) (cells : list (Z * Z)) (X : Z) (n n' : tree_node) (nodes' : list tree_node).
Context (Hi : search_inv s cells) (HX : X < alen cells) (Hn : aget (nodes_data_ s) X = Some n) (Hset : aset (nodes_data_ s) X n' = Some nodes').

Lemma changed i : aget nodes' i = if X =? i then Some n' else aget (nodes_data_ s) i.
Proof using Hset. apply (aget_aset _ _ _ _ i Hset). Qed.

(** The node keeps its cell and does not cost more. *)
Context (Hpl : placed cells nodes' X n') (Hlow : n = blank_node \/ f64_units (tn_g n') <= f64_units (tn_g n)).

Lemma still_placed i a : placed cells (nodes_data_ s) i a -> i <> X -> placed cells nodes' i a.
Proof using Hi Hpl Hlow Hn HX Hset.
  intros Ha Hne. destruct Ha as [H1 H2 H3 H4 H5 H6 (p & q & Ep & Hp & Eq & Hq & Hg & Hv)]. constructor; [done..|]. destruct (Z.eq_dec X p) as [<-|Hxp].
  - exists X, n'. split; [done|]. split; [done|]. split; [rewrite changed, Z.eqb_refl; done|]. split; [by eapply placed_not_blank|]. rewrite Hn in Eq. injection Eq as <-.
    pose proof (inv_placed _ _ _ _ Hi HX Hn Hq) as Hpn. destruct Hlow as [->|Hle]; [by destruct Hq|]. split; [lia|].
    pose proof (pl_cell _ _ _ _ Hpl) as C1. rewrite (pl_cell _ _ _ _ Hpn) in C1. assert (Ec : node_cell n' = node_cell n) by congruence. by rewrite Ec.
  - exists p, q. split; [done|]. split; [done|]. split; [|done]. rewrite changed. by destruct (Z.eqb_spec X p).
Qed.

Context (Hrooted : forall i a, i < alen cells -> aget nodes' i = Some a -> placed cells nodes' i a -> exists k, rooted nodes' k i) (Hroot : X = 0 -> parent_id n' = Some 0).

Lemma change_inv queue : Forall (fun i => i < alen cells /\ exists n, aget nodes' i = Some n /\ is_Some (parent_id n)) queue ->
  search_inv (set_queue (set_nodes s nodes' (nodes_capacity_ s)) queue) cells.
Proof using Hi Hpl Hlow Hn HX Hset Hrooted Hroot.
  intros Hq. pose proof Hi as [H1 H2 H3 H4 H5 H6 H7 H8 H9 H10 H11].
  assert (Hnodes : forall i a, i < alen cells -> aget nodes' i = Some a -> a = blank_node \/ placed cells nodes' i a).
  { intros i a Hlt Ha. rewrite changed in Ha. destruct (Z.eqb_spec X i) as [<-|Hne]; [injection Ha as <-; by right|]. destruct (H7 i a Hlt Ha); [by left|right; by apply still_placed; [|auto]]. }
  constructor; try done.
  - cbn. rewrite (aset_len _ _ _ _ Hset). exact H3.
  - destruct H8 as (r & Hr & Hp & Hc). cbn. rewrite changed. destruct (Z.eqb_spec X 0) as [E|]; [|by exists r]. exists n'. split; [done|]. split; [by apply Hroot|].
    rewrite E, Hr in Hn. injection Hn as <-. pose proof (pl_cell _ _ _ _ Hpl) as C1. assert (Hpr : placed cells (nodes_data_ s) X r) by (rewrite E; apply (inv_placed s); [done|lia|done|by exists 0]).
    rewrite (pl_cell _ _ _ _ Hpr) in C1. injection C1 as C1 C2. rewrite <- Hc. unfold node_cell. congruence.
  - cbn. eapply Forall_impl; [exact Hq|]. intros i (Hlt & a & Ha & Hp). split; [done|]. exists a. split; [done|]. destruct (Hnodes i a Hlt Ha) as [->|]; [by destruct Hp|done].
Qed.

Lemma change_total : total (take (Z.to_nat (alen cells)) nodes') = total (take (Z.to_nat (alen cells)) (nodes_data_ s)) - f64_units (tn_f n) + f64_units (tn_f n').
Proof using Hn HX Hset.
  clear Hrooted Hroot Hlow Hpl Hi Hok. apply aset_inv in Hset as [Hb ->]. rewrite take_insert_lt by lia. apply total_insert. rewrite lookup_take_lt by lia. unfold aget in Hn. destruct (in_array _ _); [done|done].
Qed.
End change.

Lemma heuristic_nonneg x y h : getHCost hypot s0 x y = Some h -> f64_nonneg h = true.
Proof using Hok.
  unfold getHCost. destruct (checked_s32 (x - fst (dst_ s0))) as [dx|] eqn:E1; [mred|done]. destruct (checked_s32 (y - snd (dst_ s0))) as [dy|] eqn:E2; [mred|done].
  intros [= <-]. apply (po_heuristic Hok); by eapply checked_s32_range.
Qed.

Lemma euclid_nonneg ax ay bx by_ e : getEuclideanCost hypot s0 ax ay bx by_ = Some e -> f64_nonneg e = true.
Proof using Hok.
  unfold getEuclideanCost. destruct (checked_s32 (ax - bx)) as [dx|] eqn:E1; [mred|done]. destruct (checked_s32 (ay - by_)) as [dy|] eqn:E2; [mred|done].
  intros [= <-]. apply (po_euclid Hok); by eapply checked_s32_range.
Qed.

Lemma in_nodes s cells i : search_inv s cells -> 0 <= i < alen cells -> exists n, aget (nodes_data_ s) i = Some n.
Proof using Type. intros Hi Hlt. apply aget_is_Some. pose proof (si_some _ _ Hi). lia. Qed.

(** Only the flag changes. *)
Lemma flag_inv s cells X n b : search_inv s cells -> X < alen cells -> aget (nodes_data_ s) X = Some n -> placed cells (nodes_data_ s) X n ->
  exists s', put_node s X (mkNode (tn_x n) (tn_y n) (tn_g n) (tn_h n) (parent_id n) b (tn_f n)) = Some s' /\ search_inv s' cells /\ potential s' cells = potential s cells /\ queue_ s' = queue_ s /\
    aget (nodes_data_ s') X = Some (mkNode (tn_x n) (tn_y n) (tn_g n) (tn_h n) (parent_id n) b (tn_f n)).
Proof using Type.
  intros Hi HX Hn Hpl. set (n' := mkNode _ _ _ _ _ _ _). unfold put_node. destruct (aset_is_Some (nodes_data_ s) X n' (aget_bounds _ _ _ Hn)) as [nodes' E]. rewrite E. mred.
  assert (Hpl' : placed cells nodes' X n').
  { destruct Hpl as [? ? ? ? ? ? (p & q & Ep & Hp & Eq & Hq & Hg & Hv)]. constructor; [done..|]. destruct (Z.eq_dec X p) as [<-|Hne].
    - exists X, n'. rewrite Hn in Eq. injection Eq as <-. split; [done|]. split; [done|]. split; [by rewrite (changed _ _ _ _ E), Z.eqb_refl|]. split; [done|]. split; [lia|done].
    - exists p, q. split; [done|]. split; [done|]. split; [|done]. rewrite (changed _ _ _ _ E). by destruct (Z.eqb_spec X p). }
  assert (Hsame : forall k i, rooted (nodes_data_ s) k i -> rooted nodes' k i).
  { induction 1 as [|k i a p Hne Ha Hp _ IH]; [constructor|]. destruct (Z.eq_dec X i) as [<-|Hne'].
    - apply (rooted_S _ _ _ n' p); [done|by rewrite (changed _ _ _ _ E), Z.eqb_refl| |done]. rewrite Hn in Ha. by injection Ha as ->.
    - apply (rooted_S _ _ _ a p); [done| |done|done]. rewrite (changed _ _ _ _ E). by destruct (Z.eqb_spec X i). }
  exists (set_nodes s nodes' (nodes_capacity_ s)). split; [done|]. split; [|split; [|split; [done|]]].
  - replace (set_nodes s nodes' (nodes_capacity_ s)) with (set_queue (set_nodes s nodes' (nodes_capacity_ s)) (queue_ s)) by done.
    apply (change_inv s cells X n n' nodes' Hi HX Hn E Hpl'); [right; cbn; lia| | |].
    + intros i a Hlt Ha Hpa. assert (Hold : exists a0, aget (nodes_data_ s) i = Some a0 /\ is_Some (parent_id a0)).
      { rewrite (changed _ _ _ _ E) in Ha. destruct (Z.eqb_spec X i) as [<-|]; [exists n; split; [done|by eapply placed_not_blank]|exists a; split; [done|by eapply placed_not_blank]]. }
      destruct Hold as (a0 & Ha0 & Hs). destruct (si_rooted _ _ Hi i a0 Hlt Ha0 (inv_placed _ _ _ _ Hi Hlt Ha0 Hs)) as [k Hk]. exists k. by apply Hsame.
    + intros ->. cbn. destruct (si_root _ _ Hi) as (r & Hr & Hp & _). rewrite Hn in Hr. by injection Hr as ->.
    + eapply Forall_impl; [exact (si_queue _ _ Hi)|]. intros i (Hlt & a & Ha & Hpa). split; [done|]. rewrite (changed _ _ _ _ E). destruct (Z.eqb_spec X i) as [<-|]; [|exists a; split; [done|by eapply placed_not_blank]].
      exists n'. split; [done|]. by eapply placed_not_blank.
  - unfold potential. cbn [queue_ set_nodes nodes_data_]. rewrite (change_total s cells X n n' nodes' HX Hn E). cbn [tn_f n']. unfold n'. cbn [tn_f]. lia.
  - cbn. by rewrite (changed _ _ _ _ E), Z.eqb_refl.
Qed.

(** ** A new parent *)

Section reparent.
Context (s : ThetaStar) (cells : list (Z * Z)) (X Y : Z) (n q n' : tree_node).
Context (Hi : search_inv s cells) (HX : X < alen cells) (Hn : aget (nodes_data_ s) X = Some n) (HY : Y < alen cells) (Hq : aget (nodes_data_ s) Y = Some q) (Hpq : placed cells (nodes_data_ s) Y q).
Context (Hcell : aget cells X = Some (node_cell n')) (Hsafe : isSafe s0 (tn_x n') (tn_y n') = Some true) (Hg : f64_nonneg (tn_g n') = true) (Hh : getHCost hypot s0 (tn_x n') (tn_y n') = Some (tn_h n'))
  (Hf : tn_f n' = fadd (tn_g n') (tn_h n')) (Hp : parent_id n' = Some Y) (Hv : visible (node_cell n') (node_cell q)).
Context (Hup : f64_units (tn_g q) <= f64_units (tn_g n')) (Hdown : n = blank_node \/ placed cells (nodes_data_ s) X n /\ f64_units (tn_g n') < f64_units (tn_g n)).

(** A node that costs less than the one that changes is not below it. *)
Lemma rooted_low nodes' k i a : aset (nodes_data_ s) X n' = Some nodes' -> rooted (nodes_data_ s) k i -> aget (nodes_data_ s) i = Some a -> placed cells (nodes_data_ s) i a ->
  f64_units (tn_g a) <= f64_units (tn_g n') -> rooted nodes' k i.
Proof using Hi Hn Hdown.
  intros E Hk. revert a. induction Hk as [|k i b p Hne Hb Ep Hk IH]; intros a Ha Hpa Hle; [constructor|]. rewrite Hb in Ha. injection Ha as ->.
  destruct (parent_placed _ _ _ _ Hi Hpa) as (p' & r & Ep' & _ & Er & Hr & Hgr & _). rewrite Ep in Ep'. injection Ep' as <-. apply (rooted_S _ _ _ a p); [done| |done|apply (IH r); [done|done|lia]].
  rewrite (aget_aset _ _ _ _ i E). destruct (Z.eqb_spec X i) as [<-|]; [|done]. exfalso. rewrite Hn in Hb. injection Hb as <-. destruct Hdown as [->|[_ Hlt]]; [by destruct (placed_not_blank _ _ _ _ Hpa)|lia].
Qed.

Lemma not_root : X <> 0.
Proof using Hi Hn Hdown Hq Hpq HY Hup Hcell HX.
  intros ->. destruct (root_placed _ _ Hi) as (r & Hr & Hpr & _). rewrite Hn in Hr. injection Hr as <-. destruct Hdown as [->|[_ Hlt]]; [by destruct (placed_not_blank _ _ _ _ Hpr)|].
  destruct (si_rooted _ _ Hi Y q HY Hq Hpq) as [k Hk]. pose proof (root_least _ _ _ Hi Hn k Y q Hk Hq Hpq). lia.
Qed.

Lemma not_self : X <> Y.
Proof using Hn Hdown Hq Hpq Hup Hv Hp HY.
  intros <-. rewrite Hn in Hq. injection Hq as <-. destruct Hdown as [->|[_ Hlt]]; [by destruct (placed_not_blank _ _ _ _ Hpq)|lia].
Qed.

Lemma reparent_placed nodes' : aset (nodes_data_ s) X n' = Some nodes' -> placed cells nodes' X n'.
Proof using Hok Hn HY Hdown Hq Hpq Hup Hcell Hsafe Hg Hh Hf Hp Hv.
  intros E. constructor; [done|done|done|by eapply heuristic_nonneg|done|done|]. exists Y, q. split; [done|]. split; [done|]. split; [|split; [by eapply placed_not_blank|done]].
  rewrite (aget_aset _ _ _ _ Y E). destruct (Z.eqb_spec X Y) as [Exy|]; [by destruct (not_self Exy)|done].
Qed.

Lemma reparent_rooted nodes' i a : aset (nodes_data_ s) X n' = Some nodes' -> i < alen cells -> aget nodes' i = Some a -> is_Some (parent_id a) -> exists k, rooted nodes' k i.
Proof using Hi HX Hn HY Hdown Hq Hpq Hup Hp Hcell.
  intros E Hlt Ha Hs. destruct (si_rooted _ _ Hi Y q HY Hq Hpq) as [ky Hky]. pose proof (rooted_low nodes' ky Y q E Hky Hq Hpq Hup) as HY'.
  assert (HX' : rooted nodes' (S ky) X) by (apply (rooted_S _ _ _ n' Y); [exact not_root|by rewrite (aget_aset _ _ _ _ X E), Z.eqb_refl|done|done]).
  assert (Hall : forall k j b, rooted (nodes_data_ s) k j -> aget (nodes_data_ s) j = Some b -> exists k', rooted nodes' k' j).
  { intros k j b Hk. revert b. induction Hk as [|k j b' p Hne Hb' Ep Hk IH]; intros b Hb; [exists 0%nat; constructor|]. destruct (Z.eq_dec X j) as [<-|Hne']; [by eexists|].
    assert (Hp' : exists r, aget (nodes_data_ s) p = Some r). { inversion Hk as [|? ? r ? ? Hr]; subst; [destruct (si_root _ _ Hi) as (r & Hr & _); by exists r|by exists r]. }
    destruct Hp' as [r Hr]. destruct (IH r Hr) as [k' Hk']. exists (S k'). apply (rooted_S _ _ _ b' p); [done| |done|done]. rewrite (aget_aset _ _ _ _ j E). by destruct (Z.eqb_spec X j). }
  rewrite (aget_aset _ _ _ _ i E) in Ha. destruct (Z.eqb_spec X i) as [<-|Hne]; [by eexists|]. destruct (si_rooted _ _ Hi i a Hlt Ha (inv_placed _ _ _ _ Hi Hlt Ha Hs)) as [k Hk]. by eapply Hall.
Qed.

Lemma reparent_inv queue : Forall (fun i => i = X \/ i ∈ queue_ s) queue ->
  exists nodes', aset (nodes_data_ s) X n' = Some nodes' /\ search_inv (set_queue (set_nodes s nodes' (nodes_capacity_ s)) queue) cells /\
    total (take (Z.to_nat (alen cells)) nodes') = total (take (Z.to_nat (alen cells)) (nodes_data_ s)) - f64_units (tn_f n) + f64_units (tn_f n').
Proof using Hok Hi HX Hn HY Hdown Hq Hpq Hup Hcell Hsafe Hg Hh Hf Hp Hv.
  intros Hqueue. destruct (aset_is_Some (nodes_data_ s) X n' (aget_bounds _ _ _ Hn)) as [nodes' E]. exists nodes'. split; [done|]. split; [|by apply (change_total s cells X n n')].
  apply (change_inv s cells X n n' nodes' Hi HX Hn E (reparent_placed _ E)).
  - destruct Hdown as [?|[_ Hlt]]; [by left|right; lia].
  - intros i a Hlt Ha Hpa. apply (reparent_rooted nodes' i a E Hlt Ha). by eapply placed_not_blank.
  - intros E0. by destruct (not_root E0).
  - apply Forall_forall. intros i Hin. rewrite Forall_forall in Hqueue. rewrite (aget_aset _ _ _ _ i E). destruct (Hqueue i Hin) as [->|Hq'].
    + split; [done|]. rewrite Z.eqb_refl. exists n'. split; [done|]. rewrite Hp. by eexists.
    + destruct (proj1 (Forall_forall _ _) (si_queue _ _ Hi) i Hq') as (Hlt & a & Ha & Hpa). split; [done|]. destruct (Z.eqb_spec X i) as [<-|]; [exists n'; split; [done|]; rewrite Hp; by eexists|]. exists a. split; [done|]. by eapply placed_not_blank.
Qed.
End reparent.

(** ** The costs along the search *)

Section framed.
Context (s : ThetaStar) (E : frame s = frame s0).

Lemma frame_isSafe x y : isSafe s x y = isSafe s0 x y.
Proof using E. change (isSafe (frame s) x y = isSafe (frame s0) x y). by rewrite E. Qed.
Lemma frame_losCheck x0 y0 x1 y1 : losCheck s x0 y0 x1 y1 = losCheck s0 x0 y0 x1 y1.
Proof using E. change (losCheck (frame s) x0 y0 x1 y1 = losCheck (frame s0) x0 y0 x1 y1). by rewrite E. Qed.
Lemma frame_getHCost x y : getHCost hypot s x y = getHCost hypot s0 x y.
Proof using E. change (getHCost hypot (frame s) x y = getHCost hypot (frame s0) x y). by rewrite E. Qed.
Lemma frame_getEuclideanCost ax ay bx by_ : getEuclideanCost hypot s ax ay bx by_ = getEuclideanCost hypot s0 ax ay bx by_.
Proof using E. change (getEuclideanCost hypot (frame s) ax ay bx by_ = getEuclideanCost hypot (frame s0) ax ay bx by_). by rewrite E. Qed.
Lemma frame_getTraversalCost x y : getTraversalCost s x y = getTraversalCost s0 x y.
Proof using E. change (getTraversalCost (frame s) x y = getTraversalCost (frame s0) x y). by rewrite E. Qed.
Lemma frame_withinLimits x y : withinLimits s x y = withinLimits s0 x y.
Proof using E. change (withinLimits (frame s) x y = withinLimits (frame s0) x y). by rewrite E. Qed.
Lemma frame_position x y : posn_index s x y = posn_index s0 x y.
Proof using E. change (posn_index (frame s) x y = posn_index (frame s0) x y). by rewrite E. Qed.
End framed.

Lemma cell_cost_byte x y v : cell_cost (ts_costmap_ s0) x y = Some v -> is_u8 v.
Proof using Hok.
  unfold cell_cost, Costmap2D.getCost. pose proof (po_map Hok) as [_ _ _ Hs _]. rewrite Hs. mred. intros Hv%aget_elem. by apply (proj1 (Forall_forall _ _) (po_bytes Hok)).
Qed.

Lemma isSafe_cost_nonneg x y cost ok cost' : isSafe_cost s0 x y cost = Some (ok, cost') -> f64_nonneg cost = true -> f64_nonneg cost' = true.
Proof using Hok.
  unfold isSafe_cost, getCost. destruct (cell_cost (ts_costmap_ s0) x y) as [v|] eqn:Ev; [mred|done]. destruct (_ || _); intros [= <- <-] Hc; [|done].
  apply fadd_nonneg; [done|]. destruct (v =? UNKNOWN_COST); [apply (po_unknown Hok)|apply (po_traversal Hok); by eapply cell_cost_byte].
Qed.

Definition ctl_cost (r : ctl los) : spec_float := match r with Next st => los_cost st | Break st => los_cost st end.

Lemma los_step_nonneg (at_ : Z -> Z -> spec_float -> option (bool * spec_float)) dx dy sx sy u_x u_y x1 st r :
  (forall a b cost ok cost', at_ a b cost = Some (ok, cost') -> f64_nonneg cost = true -> f64_nonneg cost' = true) ->
  los_step at_ dx dy sx sy u_x u_y x1 st = Some r -> f64_nonneg (los_cost st) = true -> f64_nonneg (ctl_cost r) = true.
Proof using Type.
  intros Hat. destruct st as [cx cy f cost fr]. unfold los_step. destruct (cx =? x1); [by intros [= <-]|]. destruct (checked_s32 (f + dy)) as [f'|]; [mred|done].
  intros Hr Hc. cbn [los_cost] in Hc.
  assert (H1 : exists ok cy' f'' cost', (if dx <=? f' then '(ok, cost) ← at_ (cx + u_x) (cy + u_y) cost; Some (if ok : bool then (true, cy + sy, f' - dx, cost) else (false, cy, f', cost)) else Some (true, cy, f', cost)) = Some (ok, cy', f'', cost') /\ f64_nonneg cost' = true).
  { destruct (dx <=? f'); [|by repeat eexists]. destruct (at_ (cx + u_x) (cy + u_y) cost) as [[ok c1]|] eqn:E; [|done]. destruct ok; (do 4 eexists; split; [done|by eapply Hat]). }
  destruct H1 as (ok & cy' & f'' & c1 & E1 & H1). rewrite E1 in Hr. rewrite mbind_Some in Hr. cbv beta in Hr. destruct ok; cbn [negb] in Hr; [|by injection Hr as <-].
  assert (H2 : exists ok c2, (if negb (f'' =? 0) then at_ (cx + u_x) (cy' + u_y) c1 else Some (true, c1)) = Some (ok, c2) /\ f64_nonneg c2 = true).
  { destruct (negb (f'' =? 0)); [|by repeat eexists]. destruct (at_ (cx + u_x) (cy' + u_y) c1) as [[ok c2]|] eqn:E; [|done]. do 2 eexists. split; [done|by eapply Hat]. }
  destruct H2 as (ok & c2 & E2 & H2). rewrite E2 in Hr. rewrite mbind_Some in Hr. cbv beta in Hr. destruct ok; cbn [negb] in Hr; [|by injection Hr as <-].
  destruct (dy =? 0); [|rewrite mbind_Some in Hr; cbn [negb] in Hr; by injection Hr as <-].
  destruct (at_ (cx + u_x) cy' c2) as [[ok c3]|] eqn:E3; [|done]. rewrite mbind_Some in Hr. cbv beta in Hr. apply Hat in E3; [|done].
  destruct ok; [rewrite mbind_Some in Hr; cbn [negb] in Hr; by injection Hr as <-|]. destruct (at_ (cx + u_x) (cy' - 1) c3) as [[ok c4]|] eqn:E4; [|done]. apply Hat in E4; [|done].
  rewrite mbind_Some in Hr. cbv beta in Hr. destruct ok; cbn [negb] in Hr; by injection Hr as <-.
Qed.

Lemma los_along_nonneg (at_ : Z -> Z -> spec_float -> option (bool * spec_float)) dx dy sx sy u_x u_y x0 y0 x1 free cost :
  (forall a b cost ok cost', at_ a b cost = Some (ok, cost') -> f64_nonneg cost = true -> f64_nonneg cost' = true) ->
  los_along at_ dx dy sx sy u_x u_y x0 y0 x1 = Some (free, cost) -> f64_nonneg cost = true.
Proof using Type.
  intros Hat. unfold los_along. destruct (loop _ _ _) as [st|] eqn:El; [mred|done]. intros [= _ <-].
  apply (loop_post (fun st => f64_nonneg (los_cost st) = true) (fun st => f64_nonneg (los_cost st) = true) (los_step at_ dx dy sx sy u_x u_y x1)) in El; [done| |done].
  intros st' r Hst Hr. pose proof (los_step_nonneg _ _ _ _ _ _ _ _ _ _ Hat Hr Hst) as H. by destruct r.
Qed.

(** Cells where the search puts nodes. *)
Definition open_cell (p : Z * Z) : Prop := on_grid p /\ isSafe s0 (fst p) (snd p) = Some true.

Lemma open_sight p q : open_cell p -> open_cell q -> sight_inside s0 (fst p) (snd p) (fst q) (snd q).
Proof using Hok.
  destruct p as [x y], q as [x' y']. unfold open_cell, on_grid. cbn [fst snd]. intros [[Hx Hy] Sp] [[Hx' Hy'] Sq]. split.
  - intros <- a Ha Hl. destruct (Z.eq_dec y 0) as [->|]; [|lia]. by rewrite (po_row Hok x x' a) in Hl.
  - intros <- b Hb Hl. destruct (Z.eq_dec x 0) as [->|]; [right|left; lia]. destruct (Z.eq_dec b 0) as [->|]; [exfalso|lia].
    assert (isSafe s0 0 0 = Some true) by (destruct (Z.eq_dec y 0) as [->|]; [done|assert (y' = 0) as -> by lia; done]). by rewrite (po_corner Hok) in Hl.
Qed.

Lemma losCheck_answers p q : open_cell p -> open_cell q -> exists free cost, losCheck s0 (fst p) (snd p) (fst q) (snd q) = Some (free, cost) /\ f64_nonneg cost = true.
Proof using Hok.
  intros Op Oq. pose proof (open_sight p q Op Oq) as Hin. destruct Op as [Hp Sp], Oq as [Hq Sq].
  destruct (losCheck_spec s0 c (po_map Hok) _ _ _ _ Hp Hq Hin) as (free & cost & E & _). exists free, cost. split; [done|]. clear Hin Hp Hq Sp Sq. revert E. unfold losCheck.
  destruct (checked_s32 (snd q - snd p)) as [a1|]; [mred|done]. destruct (checked_s32 (Z.abs a1)) as [a2|]; [mred|done]. destruct (checked_s32 (fst q - fst p)) as [a3|]; [mred|done]. destruct (checked_s32 (Z.abs a3)) as [a4|]; [mred|done].
  cbv zeta. destruct (a2 <=? a4); apply los_along_nonneg; intros ? ? ? ? ?; apply isSafe_cost_nonneg.
Qed.

Lemma grid_small p : on_grid p -> is_s32 (fst p) /\ is_s32 (snd p) /\ 0 <= fst p /\ 0 <= snd p /\ fst p < 2 ^ 31 - 1 /\ snd p < 2 ^ 31 - 1.
Proof using Hok.
  intros [Hx Hy]. pose proof (po_area Hok) as Ha. unfold is_s32. set (w := size_x_ (ts_costmap_ s0)) in *. set (h := size_y_ (ts_costmap_ s0)) in *. clearbody w h. clear -Hx Hy Ha. assert (0 < w /\ 0 < h) by lia. assert (w < 2 ^ 31 /\ h < 2 ^ 31) by nia. lia.
Qed.

Lemma euclid_answers p q : on_grid p -> on_grid q -> exists e, getEuclideanCost hypot s0 (fst p) (snd p) (fst q) (snd q) = Some e /\ f64_nonneg e = true.
Proof using Hok.
  intros Hp%grid_small Hq%grid_small. assert (Hx : is_s32 (fst p - fst q)) by (unfold is_s32; lia). assert (Hy : is_s32 (snd p - snd q)) by (unfold is_s32; lia).
  unfold getEuclideanCost. repeat (rewrite checked_s32_ok by done; mred). eexists. split; [done|by apply (po_euclid Hok)].
Qed.

Lemma heuristic_answers p : on_grid p -> exists h, getHCost hypot s0 (fst p) (snd p) = Some h /\ f64_nonneg h = true.
Proof using Hok.
  intros Hp%grid_small. pose proof (grid_small _ (po_dst Hok)) as Hq. assert (Hx : is_s32 (fst p - fst (dst_ s0))) by (unfold is_s32; lia). assert (Hy : is_s32 (snd p - snd (dst_ s0))) by (unfold is_s32; lia).
  unfold getHCost. repeat (rewrite checked_s32_ok by done; mred). eexists. split; [done|by apply (po_heuristic Hok)].
Qed.

Lemma traversal_answers p : on_grid p -> exists v, getTraversalCost s0 (fst p) (snd p) = Some v /\ f64_nonneg v = true.
Proof using Hok.
  intros Hp. destruct (cell_cost_on s0 c (po_map Hok) _ _ Hp) as (v & Ev & _). unfold getTraversalCost, getCost. rewrite Ev. mred. eexists. split; [done|]. apply (po_traversal Hok). by eapply cell_cost_byte.
Qed.

(** ** The parent of the parent *)

Lemma placed_open s cells i n : search_inv s cells -> placed cells (nodes_data_ s) i n -> open_cell (node_cell n).
Proof using Type.
  intros Hi Hn. split; [|exact (pl_safe _ _ _ _ Hn)]. apply (proj1 (Forall_forall _ _) (si_on _ _ Hi)). eapply aget_elem. exact (pl_cell _ _ _ _ Hn).
Qed.

Lemma below_add a b t : f64_nonneg a = true -> f64_nonneg b = true -> f64_nonneg t = true -> f64_units (fadd a t) < f64_units (fadd b t) -> f64_units a < f64_units b.
Proof using Type.
  intros Ha Hb Ht Hlt. destruct (Z.lt_ge_cases (f64_units a) (f64_units b)) as [|Hge]; [done|]. pose proof (fadd_mono _ _ _ Hb Ha Ht Hge). lia.
Qed.

Lemma resetParent_inv s cells X n : search_inv s cells -> X < alen cells -> aget (nodes_data_ s) X = Some n -> placed cells (nodes_data_ s) X n ->
  exists s' n', resetParent hypot s X = Some s' /\ search_inv s' cells /\ potential s' cells <= potential s cells /\ queue_ s' = queue_ s /\
    aget (nodes_data_ s') X = Some n' /\ placed cells (nodes_data_ s') X n' /\ node_cell n' = node_cell n.
Proof using Hok.
  intros Hi HX Hn Hpl. unfold resetParent, node_at. rewrite Hn. mred. destruct (flag_inv _ _ _ _ false Hi HX Hn Hpl) as (s1 & E1 & Hi1 & Hpot & Hq1 & Hn1). rewrite E1. mred.
  set (n1 := mkNode _ _ _ _ _ _ _) in *. rewrite Hn1. mred. assert (Hp1 : placed cells (nodes_data_ s1) X n1) by (apply (inv_placed s1); [done..|]; by eapply placed_not_blank in Hpl).
  destruct (parent_placed _ _ _ _ Hi1 Hp1) as (p & a & Ep & Hp & Ea & Ha & Hga & _). change (parent_id n1) with (parent_id n) in Ep |- *. rewrite Ep. mred. rewrite Ea. mred.
  destruct (parent_placed _ _ _ _ Hi1 Ha) as (y & q & Ey & Hy & Eq & Hq & Hgq & _). rewrite Ey. mred. rewrite Eq. mred.
  change (tn_x n1) with (tn_x n). change (tn_y n1) with (tn_y n).
  pose proof (placed_open _ _ _ _ Hi Hpl) as Ho. pose proof (placed_open _ _ _ _ Hi1 Hq) as Hoq.
  destruct (losCheck_answers _ _ Ho Hoq) as (free & lc & El & Hlc). cbn [fst snd node_cell] in El. rewrite (frame_losCheck s1 (si_frame _ _ Hi1)), El. mred.
  assert (Hstay : exists s' n', Some s1 = Some s' /\ search_inv s' cells /\ potential s' cells <= potential s cells /\ queue_ s' = queue_ s /\ aget (nodes_data_ s') X = Some n' /\ placed cells (nodes_data_ s') X n' /\ node_cell n' = node_cell n).
  { exists s1, n1. split; [done|]. split; [done|]. split; [by rewrite Hpot|]. done. }
  destruct free; [|exact Hstay]. destruct (euclid_answers _ _ (proj1 Ho) (proj1 Hoq)) as (e & Ee & He). cbn [fst snd node_cell] in Ee. rewrite (frame_getEuclideanCost s1 (si_frame _ _ Hi1)), Ee. mred.
  cbv zeta. set (g := fadd (fadd (tn_g q) e) lc). pose proof (pl_g _ _ _ _ Hq) as Gq. assert (Hge : f64_nonneg (fadd (tn_g q) e) = true) by (by apply fadd_nonneg). assert (Hg : f64_nonneg g = true) by (by apply fadd_nonneg).
  assert (Hup : f64_units (tn_g q) <= f64_units g) by (unfold g; etrans; [apply (fadd_inflates _ e); done|by apply fadd_inflates]).
  rewrite (flt_units g (tn_g n1) Hg (pl_g _ _ _ _ Hp1)). destruct (Z.ltb_spec (f64_units g) (f64_units (tn_g n1))) as [Hlt|]; [|exact Hstay]. clear Hstay.
  set (n' := mkNode (tn_x n) (tn_y n) g (tn_h n1) (Some y) (is_in_queue n1) (fadd g (tn_h n1))).
  destruct (reparent_inv s1 cells X y n1 q n' Hi1 HX Hn1 Hy Eq Hq) with (queue := queue_ s1) as (nodes' & E & Hi' & Ht); [exact (pl_cell _ _ _ _ Hpl)|exact (pl_safe _ _ _ _ Hpl)|done|exact (pl_heuristic _ _ _ _ Hpl)|done|done| |done|by right| |].
  - right. exists lc. done.
  - apply Forall_forall. by right.
  - unfold put_node. rewrite E. mred. exists (set_nodes s1 nodes' (nodes_capacity_ s1)), n'. split; [done|].
    replace (set_nodes s1 nodes' (nodes_capacity_ s1)) with (set_queue (set_nodes s1 nodes' (nodes_capacity_ s1)) (queue_ s1)) by done.
    split; [done|]. split.
    + rewrite <- Hpot. unfold potential. cbn [queue_ set_queue set_nodes nodes_data_]. rewrite Ht. cbn [n' tn_f]. rewrite (pl_f _ _ _ _ Hp1).
      pose proof (fadd_mono g (tn_g n1) (tn_h n1) Hg (pl_g _ _ _ _ Hp1) (pl_h _ _ _ _ Hp1)). lia.
    + split; [done|]. cbn [nodes_data_ set_queue set_nodes]. assert (Hn' : aget nodes' X = Some n') by (by rewrite (aget_aset _ _ _ _ X E), Z.eqb_refl). split; [done|]. split; [|done].
      apply (inv_placed _ _ _ _ Hi' HX); [done|by exists y].
Qed.

(** ** A new node *)

Lemma aget_at_nat {A} (l : list A) k : aget l (Z.of_nat k) = l !! k.
Proof using Type.
  unfold aget. destruct (in_array l (Z.of_nat k)) eqn:E; [by rewrite Nat2Z.id|]. symmetry. apply lookup_ge_None_2. apply not_true_iff_false in E. rewrite in_array_spec in E. unfold alen in E. lia.
Qed.

Lemma on_grid_index x y : on_grid (x, y) -> 0 <= ts_size_x_ s0 * y + x < area.
Proof using Hok.
  intros [Hx Hy]. cbn [fst snd] in Hx, Hy. rewrite (po_x Hok). unfold area. set (w := size_x_ (ts_costmap_ s0)) in *. set (h := size_y_ (ts_costmap_ s0)) in *. clearbody w h. clear -Hx Hy. nia.
Qed.

Lemma grid_index_inj x y x' y' : on_grid (x, y) -> on_grid (x', y') -> ts_size_x_ s0 * y + x = ts_size_x_ s0 * y' + x' -> (x, y) = (x', y').
Proof using Hok.
  intros [Hx Hy] [Hx' Hy'] E. cbn [fst snd] in *. rewrite (po_x Hok) in E. set (w := size_x_ (ts_costmap_ s0)) in *. clearbody w. clear -Hx Hx' E. assert (y = y') as -> by nia. f_equal. lia.
Qed.

(** There are no more nodes than cells. *)
Lemma cells_bound cells : NoDup cells -> Forall on_grid cells -> alen cells <= area.
Proof using Hok.
  intros Hnd Hon. assert (Hle : ((fun p : Z * Z => ts_size_x_ s0 * snd p + fst p) <$> cells) ⊆+ seqZ 0 area).
  { apply NoDup_submseteq; [|intros i ([x y] & -> & Hp)%list_elem_of_fmap; apply elem_of_seqZ; pose proof (on_grid_index x y (proj1 (Forall_forall _ _) Hon _ Hp)); cbn [fst snd]; lia].
    apply NoDup_fmap_2_strong; [|done]. intros [x y] [x' y'] Hp Hp' E. rewrite Forall_forall in Hon. apply grid_index_inj; [by apply Hon|by apply Hon|exact E]. }
  apply submseteq_length in Hle. rewrite length_fmap, length_seqZ in Hle. unfold alen. destruct cells as [|p cells]; [|cbn in *; lia].
  cbn. pose proof (po_map Hok) as [Hx Hy _ _ _]. unfold area. clear -Hx Hy. nia.
Qed.

Lemma position_answers x y : on_grid (x, y) -> posn_index s0 x y = Some (ts_size_x_ s0 * y + x).
Proof using Hok.
  intros Hp. pose proof (on_grid_index x y Hp) as Hi. pose proof (po_area Hok) as Ha. fold area in Ha. destruct Hp as [Hx Hy]. cbn [fst snd] in Hx, Hy. unfold posn_index. set (w := ts_size_x_ s0) in *. assert (0 <= w) by (unfold w; rewrite (po_x Hok); lia).
  clearbody w. rewrite checked_s32_ok by (unfold is_s32; clear -Hi Ha Hx Hy H; nia). mred. apply checked_s32_ok. unfold is_s32. clear -Hi Ha. lia.
Qed.

Section extend.
Context (s : ThetaStar) (cells : list (Z * Z)) (x y : Z) (nodes' : list tree_node) (positions' : list (option Z)).
Context (Hi : search_inv s cells) (Hp : open_cell (x, y)) (Hnew : (x, y) ∉ cells).
Context (Hold : forall j, j < alen cells -> aget nodes' j = aget (nodes_data_ s) j) (Hblank : aget nodes' (alen cells) = Some blank_node).
Context (Hset : aset (node_position_ s) (ts_size_x_ s0 * y + x) (Some (alen cells)) = Some positions').

Definition cells_with : list (Z * Z) := cells ++ [(x, y)].

Lemma cells_with_len : alen cells_with = alen cells + 1.
Proof using Type. unfold cells_with, alen. rewrite length_app. cbn. lia. Qed.

Lemma cells_with_old j : j < alen cells -> aget cells_with j = aget cells j.
Proof using Type. intros Hj. by apply aget_app_l. Qed.

Lemma cells_with_new : aget cells_with (alen cells) = Some (x, y).
Proof using Type. unfold cells_with, alen. by rewrite aget_at_nat, lookup_app_r, Nat.sub_diag by lia. Qed.

Lemma extend_placed j n : j < alen cells -> placed cells (nodes_data_ s) j n -> placed cells_with nodes' j n.
Proof using Hold.
  intros Hj [H1 H2 H3 H4 H5 H6 (p & q & Ep & Hp' & Eq & Hq)]. constructor; [by rewrite cells_with_old|done..|]. exists p, q. split; [done|]. split; [rewrite cells_with_len; lia|]. split; [by rewrite Hold|done].
Qed.

Lemma extend_rooted k j n : rooted (nodes_data_ s) k j -> j < alen cells -> aget (nodes_data_ s) j = Some n -> placed cells (nodes_data_ s) j n -> rooted nodes' k j.
Proof using Hold Hi.
  intros Hk. revert n. induction Hk as [|k j n' p Hne Hn' Ep Hk IH]; intros n Hj Hn Hpl; [constructor|]. rewrite Hn' in Hn. injection Hn as ->.
  destruct (parent_placed _ _ _ _ Hi Hpl) as (p' & q & Ep' & Hp' & Eq & Hq & _). rewrite Ep in Ep'. injection Ep' as <-. apply (rooted_S _ _ _ n p); [done|by rewrite Hold|done|by apply (IH q)].
Qed.

Lemma extend_total : total (take (Z.to_nat (alen cells_with)) nodes') = total (take (Z.to_nat (alen cells)) (nodes_data_ s)) + f64_units INF_COST.
Proof using Hold Hblank.
  rewrite cells_with_len. unfold alen in *. rewrite Nat2Z.id. replace (Z.to_nat (Z.of_nat (length cells) + 1)) with (S (length cells)) by lia. rewrite aget_at_nat in Hblank. rewrite (take_S_r _ _ _ Hblank), total_app.
  replace (take (length cells) nodes') with (take (length cells) (nodes_data_ s)); [unfold total; cbn [foldr blank_node tn_f]; lia|]. apply list_eq. intros i. destruct (decide (i < length cells)%nat) as [Hlt|Hge].
  - rewrite !lookup_take_lt by done. specialize (Hold (Z.of_nat i) ltac:(lia)). by rewrite !aget_at_nat in Hold.
  - by rewrite !lookup_take_ge by lia.
Qed.

Lemma extend_inv : search_inv (set_counts (set_positions (set_nodes s nodes' (nodes_capacity_ s)) (ts_size_x_ s) (ts_size_y_ s) positions') (alen cells + 1) (nodes_opened s)) cells_with.
Proof using Hok Hi Hp Hnew Hold Hblank Hset.
  pose proof Hi as [H1 H2 H3 H4 H5 H6 H7 H8 H9 H10 H11].
  assert (Hnodes : forall j n, j < alen cells_with -> aget nodes' j = Some n -> n = blank_node \/ j < alen cells /\ aget (nodes_data_ s) j = Some n /\ placed cells (nodes_data_ s) j n).
  { intros j n Hj Hn. rewrite cells_with_len in Hj. destruct (Z.eq_dec j (alen cells)) as [->|Hne]; [left; congruence|]. rewrite Hold in Hn by lia. destruct (H7 j n ltac:(lia) Hn); [by left|right; split; [lia|done]]. }
  constructor.
  - exact H1.
  - cbn. symmetry. apply cells_with_len.
  - cbn. rewrite cells_with_len. pose proof (aget_bounds _ _ _ Hblank). lia.
  - apply NoDup_app. split; [done|]. split; [|by apply NoDup_singleton]. intros p Hin ->%list_elem_of_singleton. done.
  - apply Forall_app. split; [done|]. constructor; [exact (proj1 Hp)|done].
  - intros x' y' Hg. cbn. rewrite (aget_aset _ _ _ _ _ Hset). destruct (Z.eqb_spec (ts_size_x_ s0 * y + x) (ts_size_x_ s0 * y' + x')) as [Ei|Hne].
    + apply grid_index_inj in Ei; [|exact (proj1 Hp)|done]. injection Ei as <- <-. exists (Some (alen cells)). split; [done|]. intros i. split; [intros [= <-]; apply cells_with_new|].
      intros Ea. apply aget_snoc in Ea as [Ea|[-> _]]; [|done]. by apply aget_elem in Ea.
    + destruct (H6 x' y' Hg) as (r & Er & Hr). exists r. split; [done|]. intros i. rewrite Hr. split; [intros Ea; rewrite cells_with_old; [done|]; apply aget_bounds in Ea; lia|].
      intros Ea. apply aget_snoc in Ea as [Ea|[_ [= -> ->]]]; [done|]. by destruct Hne.
  - cbn. intros j n Hj Hn. destruct (Hnodes j n Hj Hn) as [->|(Hlt & _ & Hpl)]; [by left|right; by apply extend_placed].
  - cbn. rewrite Hold by lia. exact H8.
  - cbn. eapply Forall_impl; [exact H9|]. intros j (Hj & n & Hn & Hpl). rewrite cells_with_len. split; [lia|]. exists n. split; [by rewrite Hold|by apply extend_placed].
  - cbn. intros j n Hj Hn Hpl. destruct (Hnodes j n Hj Hn) as [->|(Hlt & Hn' & Hpl')]; [by destruct (placed_not_blank _ _ _ _ Hpl)|]. destruct (H10 j n Hlt Hn' Hpl') as [k Hk]. exists k. by apply (extend_rooted k j n).
  - cbn. rewrite (aset_len _ _ _ _ Hset). destruct H11 as [Ha H11]. split; [done|]. intros i r Hge. rewrite (aget_aset _ _ _ _ _ Hset). pose proof (on_grid_index x y (proj1 Hp)). destruct (Z.eqb_spec (ts_size_x_ s0 * y + x) i); [lia|by apply H11].
Qed.
End extend.

Lemma find_node_inv s cells x y : search_inv s cells -> open_cell (x, y) ->
  exists s' cells' i e, find_node s x y = Some (s', i) /\ search_inv s' cells' /\ potential s' cells' = potential s cells /\ queue_ s' = queue_ s /\
    i < alen cells' /\ aget cells' i = Some (x, y) /\ aget (nodes_data_ s') i = Some e /\ alen cells <= alen cells' /\
    (forall j, j < alen cells -> aget (nodes_data_ s') j = aget (nodes_data_ s) j).
Proof using Hok.
  intros Hi Hp. pose proof Hi as [H1 H2 H3 H4 H5 H6 _ _ _ _ _]. unfold find_node, getIndex. rewrite (frame_position s H1), (position_answers x y (proj1 Hp)). mred. destruct (H6 x y (proj1 Hp)) as (r & Er & Hr). rewrite Er. mred.
  destruct r as [i|].
  - pose proof (proj1 (Hr i) eq_refl) as Ec. pose proof (aget_bounds _ _ _ Ec) as Hb. destruct (in_nodes s cells i Hi Hb) as [e He]. exists s, cells, i, e. split_and!; done || lia.
  - assert (Hnew : (x, y) ∉ cells) by (intros [i Ei]%elem_aget; by apply Hr in Ei).
    assert (Hlt : alen cells < area).
    { pose proof (cells_bound (cells ++ [(x, y)])) as Hb. unfold alen in *. rewrite length_app in Hb. cbn in Hb. apply Z.le_succ_l. rewrite <- Nat.add_1_r, Nat2Z.inj_add in Hb. apply Hb; [|apply Forall_app; split; [done|constructor; [exact (proj1 Hp)|done]]].
      apply NoDup_app. split; [done|]. split; [|by apply NoDup_singleton]. intros p Hin ->%list_elem_of_singleton. done. }
    assert (Hadd : exists nodes', addToNodesData s (index_generated_ s) = Some (set_nodes s nodes' (nodes_capacity_ s)) /\ (forall j, j < alen cells -> aget nodes' j = aget (nodes_data_ s) j) /\ aget nodes' (alen cells) = Some blank_node).
    { unfold addToNodesData. rewrite H2. destruct (Z.leb_spec (alen (nodes_data_ s)) (alen cells)) as [Hle|Hgt].
      - assert (En : alen (nodes_data_ s) = alen cells) by lia. assert (Ecap : nodes_capacity_ s = nodes_capacity_ s0) by (change (nodes_capacity_ (frame s) = nodes_capacity_ (frame s0)); by rewrite H1). pose proof (po_capacity Hok) as Hcap. fold area in Hcap.
        rewrite (proj2 (Z.ltb_lt _ _)) by lia. cbn [orb]. rewrite Z.max_l by lia. eexists. split; [done|]. split; [|rewrite <- En; unfold alen; by rewrite aget_at_nat, lookup_app_r, Nat.sub_diag by lia].
        intros j Hj. apply aget_app_l. unfold alen in *. lia.
      - unfold put_node. destruct (aset_is_Some (nodes_data_ s) (alen cells) blank_node) as [nodes' E]; [lia|]. rewrite E. mred. exists nodes'. split; [done|]. split; [|by rewrite (aget_aset _ _ _ _ _ E), Z.eqb_refl].
        intros j Hj. rewrite (aget_aset _ _ _ _ _ E). destruct (Z.eqb_spec (alen cells) j); [lia|done]. }
    destruct Hadd as (nodes' & Ea & Hold & Hblank). cbv zeta. rewrite Ea. mred. unfold addIndex. rewrite (frame_position (set_nodes s nodes' (nodes_capacity_ s)) H1), (position_answers x y (proj1 Hp)). mred.
    destruct (aset_is_Some (node_position_ s) (ts_size_x_ s0 * y + x) (Some (index_generated_ s)) (aget_bounds _ _ _ Er)) as [pos' Es]. cbn [node_position_ set_nodes]. rewrite Es. mred. rewrite H2 in Es |- *.
    eexists _, (cells_with cells x y), (alen cells), blank_node. split; [done|]. split; [exact (extend_inv s cells x y nodes' pos' Hi Hp Hnew Hold Hblank Es)|]. split; [|split; [done|]].
    + unfold potential. cbn [queue_ set_counts set_positions set_nodes nodes_data_]. rewrite (extend_total s cells x y nodes' Hold Hblank), cells_with_len. set (u := f64_units INF_COST). clearbody u. clear -heap. nia.
    + rewrite cells_with_len. split_and!; [lia|apply cells_with_new|done|lia|done].
Qed.

(** ** The neighbours *)

Lemma blank_nonneg : f64_nonneg (tn_f blank_node) = true.
Proof using Type. by vm_compute. Qed.

Lemma safe_answers p : on_grid p -> exists b, isSafe s0 (fst p) (snd p) = Some b.
Proof using Hok. intros Hp. destruct (cell_cost_on s0 c (po_map Hok) _ _ Hp) as (v & Ev & _). unfold isSafe. rewrite Ev. by eexists. Qed.

Lemma withinLimits_grid x y : withinLimits s0 x y = true -> on_grid (x, y).
Proof using Hok. unfold withinLimits. rewrite (po_x Hok), (po_y Hok), !andb_true_iff, !Z.leb_le, !Z.ltb_lt. intros (((? & ?) & ?) & ?). by split. Qed.

(** The search where the node [X] is being expanded. *)
Definition expanding (X : Z) (s : ThetaStar) (cells : list (Z * Z)) : Prop :=
  search_inv s cells /\ X < alen cells /\ exists n, aget (nodes_data_ s) X = Some n /\ placed cells (nodes_data_ s) X n.

Lemma expanding_intro X s cells s' cells' n : search_inv s cells -> X < alen cells -> placed cells (nodes_data_ s) X n ->
  search_inv s' cells' -> alen cells <= alen cells' -> (exists n', aget (nodes_data_ s') X = Some n' /\ is_Some (parent_id n')) -> expanding X s' cells'.
Proof using Type.
  intros Hi HX Hpl Hi' Hle (n' & Hn' & Hs). split; [done|]. split; [lia|]. exists n'. split; [done|]. apply (inv_placed s'); [done|lia|done|done].
Qed.

(** A neighbour gets a lower cost from the node. *)
Lemma improve_inv s cells X M n e mx my g h queue : search_inv s cells -> X < alen cells -> aget (nodes_data_ s) X = Some n -> placed cells (nodes_data_ s) X n ->
  M < alen cells -> aget cells M = Some (mx, my) -> aget (nodes_data_ s) M = Some e -> isSafe s0 mx my = Some true -> getHCost hypot s0 mx my = Some h -> f64_nonneg h = true -> f64_nonneg g = true -> f64_units (tn_g n) <= f64_units g ->
  Z.abs (mx - tn_x n) <= 1 -> Z.abs (my - tn_y n) <= 1 -> fgt (tn_f e) (fadd g h) = true -> Forall (fun i => i = M \/ i ∈ queue_ s) queue ->
  exists nodes', aset (nodes_data_ s) M (mkNode mx my g h (Some X) true (fadd g h)) = Some nodes' /\ let s' := set_queue (set_nodes s nodes' (nodes_capacity_ s)) queue in
    expanding X s' cells /\ potential s' cells + 1 <= potential s cells + alen queue - alen (queue_ s).
Proof using Hok.
  intros Hi HX Hn Hpl HM Hc He Hsafe Hh Nh Ng Hup Hdx Hdy Hlt Hqueue. set (n' := mkNode _ _ _ _ _ _ _). unfold fgt in Hlt.
  assert (Ne : f64_nonneg (tn_f e) = true). { destruct (si_nodes _ _ Hi M e HM He) as [->|Hpe]; [exact blank_nonneg|]. rewrite (pl_f _ _ _ _ Hpe). apply fadd_nonneg; [exact (pl_g _ _ _ _ Hpe)|exact (pl_h _ _ _ _ Hpe)]. }
  rewrite flt_units in Hlt by (done || by apply fadd_nonneg). apply Z.ltb_lt in Hlt.
  destruct (reparent_inv s cells M X e n n' Hi HM He HX Hn Hpl) with (queue := queue) as (nodes' & E & Hi' & Ht); [done|done|done|done|done|done|by left|done| |done|].
  - destruct (si_nodes _ _ Hi M e HM He) as [->|Hpe]; [by left|right; split; [done|]]. cbn [tn_g n'].
    pose proof (pl_cell _ _ _ _ Hpe) as Ec. rewrite Hc in Ec. injection Ec as Ex Ey. pose proof (pl_heuristic _ _ _ _ Hpe) as Eh. rewrite <- Ex, <- Ey, Hh in Eh. injection Eh as Eh.
    rewrite (pl_f _ _ _ _ Hpe), <- Eh in Hlt. apply (below_add _ _ h); [done|exact (pl_g _ _ _ _ Hpe)|done|done].
  - exists nodes'. split; [done|]. cbv zeta. split.
    + apply (expanding_intro X s cells _ _ n Hi HX Hpl Hi'); [lia|]. cbn. rewrite (aget_aset _ _ _ _ _ E). destruct (Z.eqb_spec M X); [by exists n'; split; [|by eexists]|]. exists n. split; [done|by eapply placed_not_blank].
    + unfold potential. cbn [queue_ set_queue set_nodes nodes_data_]. rewrite Ht. cbn [tn_f n']. lia.
Qed.

Lemma set_neighbor_inv X i s cells : 0 <= i < 8 -> expanding X s cells -> exists s' cells', set_neighbor hypot X i s = Some s' /\ expanding X s' cells' /\ potential s' cells' <= potential s cells /\ (queue_ s' = [] -> queue_ s = []).
Proof using Hok heap_laws.
  intros Hb Hexp. pose proof Hexp as (Hi & HX & n & Hn & Hpl). unfold set_neighbor. destruct (aget_is_Some moves i Hb) as [move Hmove]. rewrite Hmove. mred. change (node_at s X) with (aget (nodes_data_ s) X). rewrite Hn. mred.
  assert (Hm : Z.abs (fst move) <= 1 /\ Z.abs (snd move) <= 1). { apply aget_elem in Hmove. revert Hmove. generalize move. apply Forall_forall. repeat (constructor; [cbn; lia|]). constructor. }
  pose proof (placed_open _ _ _ _ Hi Hpl) as Ho. destruct (grid_small _ (proj1 Ho)) as (_ & _ & Hx0 & Hy0 & Hx & Hy). cbn [fst snd node_cell] in Hx0, Hy0, Hx, Hy.
  rewrite (checked_s32_ok (tn_x n + fst move)) by (unfold is_s32; lia). mred. rewrite (checked_s32_ok (tn_y n + snd move)) by (unfold is_s32; lia). mred. set (mx := tn_x n + fst move). set (my := tn_y n + snd move).
  pose proof (si_frame _ _ Hi) as Ef. rewrite (frame_withinLimits s Ef). destruct (withinLimits s0 mx my) eqn:Ew; cbn [negb]; [|by exists s, cells].
  apply withinLimits_grid in Ew. rewrite (frame_isSafe s Ef). destruct (safe_answers _ Ew) as [safe Es]. cbn [fst snd] in Es. rewrite Es. mred. destruct safe; cbn [negb]; [|by exists s, cells].
  rewrite (frame_getEuclideanCost s Ef). destruct (euclid_answers _ _ (proj1 Ho) Ew) as (euc & Ee & Ne). cbn [fst snd node_cell] in Ee. rewrite Ee. mred.
  rewrite (frame_getTraversalCost s Ef). destruct (traversal_answers _ Ew) as (trav & Et & Nt). cbn [fst snd] in Et. rewrite Et. mred. cbv zeta. set (g := fadd (fadd (tn_g n) euc) trav).
  pose proof (pl_g _ _ _ _ Hpl) as Nn. assert (Nge : f64_nonneg (fadd (tn_g n) euc) = true) by (by apply fadd_nonneg). assert (Ng : f64_nonneg g = true) by (by apply fadd_nonneg).
  assert (Hup : f64_units (tn_g n) <= f64_units g) by (unfold g; etrans; [apply (fadd_inflates _ euc); done|by apply fadd_inflates]).
  destruct (find_node_inv s cells mx my Hi (conj Ew Es)) as (s1 & cells1 & M & e & E1 & Hi1 & Hpot & Hq1 & HM & Hc & He & Hle & Hkeep). rewrite E1. mred.
  assert (HX1 : X < alen cells1) by lia. assert (Hn1 : aget (nodes_data_ s1) X = Some n) by (by rewrite Hkeep). assert (Hpl1 : placed cells1 (nodes_data_ s1) X n) by (apply (inv_placed s1); [done..|]; by eapply placed_not_blank).
  pose proof (si_frame _ _ Hi1) as Ef1. rewrite (frame_getHCost s1 Ef1). destruct (heuristic_answers _ Ew) as (h & Eh & Nh). cbn [fst snd] in Eh. rewrite Eh. mred. unfold node_at. rewrite He. mred.
  destruct (fgt (tn_f e) (fadd g h)) eqn:Ec; [|exists s1, cells1; split; [done|]; split; [by split; [|split; [|exists n]]|split; [lia|by rewrite Hq1]]].
  pose proof (fun queue => improve_inv s1 cells1 X M n e mx my g h queue Hi1 HX1 Hn1 Hpl1 HM Hc He Es Eh Nh Ng Hup ltac:(unfold mx; lia) ltac:(unfold my; lia) Ec) as Himp.
  destruct (is_in_queue e) eqn:Eq.
  - assert (Hpe : placed cells1 (nodes_data_ s1) M e) by (destruct (si_nodes _ _ Hi1 M e HM He) as [->|]; [done|done]). pose proof (pl_cell _ _ _ _ Hpe) as Ee'. rewrite Hc in Ee'. injection Ee' as Ex Ey. rewrite <- Ex, <- Ey.
    destruct (Himp (queue_ s1)) as (nodes' & E & Hexp' & Hp'); [apply Forall_forall; by right|]. unfold put_node. rewrite E. mred. eexists _, cells1. split; [done|]. split; [exact Hexp'|].
    rewrite <- Hpot. assert (G : potential (set_queue (set_nodes s1 nodes' (nodes_capacity_ s1)) (queue_ s1)) cells1 <= potential s1 cells1) by (cbv zeta in Hp'; clear -Hp'; lia). split; [exact G|]. cbn. by rewrite Hq1.
  - destruct (aset_is_Some (nodes_data_ s1) M (mkNode mx my g h (Some X) true (fadd g h)) (aget_bounds _ _ _ He)) as [nodes' E]. unfold put_node. rewrite E. mred.
    set (s2 := set_nodes s1 nodes' (nodes_capacity_ s1)). change (queue_ s2) with (queue_ s1). pose proof (heap_push_perm (node_key s2) M (queue_ s1)) as Hperm. destruct (Himp (heap_push (node_key s2) M (queue_ s1))) as (nodes'' & E' & Hexp' & Hp').
    + apply Forall_forall. intros i' Hin. rewrite Hperm in Hin. by apply elem_of_cons in Hin.
    + rewrite E in E'. injection E' as <-. eexists _, cells1. split; [done|]. split; [exact Hexp'|]. cbv zeta in Hp'. fold s2 in Hp'. rewrite <- Hpot. apply Permutation_length in Hperm. cbn [length] in Hperm. split; [unfold alen in Hp'; rewrite Hperm in Hp'; clear -Hp'; lia|]. cbn. intros Ee'. by rewrite Ee' in Hperm.
Qed.

Lemma setNeighbors_inv X s cells : expanding X s cells -> exists s' cells', setNeighbors hypot s X = Some s' /\ expanding X s' cells' /\ potential s' cells' <= potential s cells /\ (queue_ s' = [] -> queue_ s = []).
Proof using Hok heap_laws.
  intros Hexp. unfold setNeighbors. assert (Ec : how_many_corners_ s = how_many_corners_ s0) by (destruct Hexp as [Hi _]; change (how_many_corners_ (frame s) = how_many_corners_ (frame s0)); by rewrite (si_frame _ _ Hi)).
  rewrite Ec. pose proof (po_corners Hok) as H8. destruct (Z.lt_ge_cases 0 (how_many_corners_ s0)) as [Hpos|Hneg]; [|rewrite for_range_nil by lia; by exists s, cells].
  destruct (for_range_inv (fun _ t => exists cells', expanding X t cells' /\ potential t cells' <= potential s cells /\ (queue_ t = [] -> queue_ s = [])) (set_neighbor hypot X) 0 (how_many_corners_ s0) s) as (s' & E & cells' & H1 & H2 & H3); [lia|by exists cells| |by exists s', cells'].
  intros i t Hb (cells1 & H1 & H2 & H5). destruct (set_neighbor_inv X i t cells1 ltac:(lia) H1) as (t' & cells' & E & H3 & H4 & H6). exists t'. split; [done|]. exists cells'. split; [done|]. split; [lia|auto].
Qed.

(** ** The rounds of the search *)

(** The potential, told by the planner itself. *)
Definition remaining (s : ThetaStar) : Z :=
  alen (queue_ s) + total (take (Z.to_nat (index_generated_ s)) (nodes_data_ s)) + (area - index_generated_ s) * f64_units INF_COST.

Lemma potential_remaining s cells : search_inv s cells -> potential s cells = remaining s.
Proof using Type. intros Hi. unfold potential, remaining. by rewrite (si_made _ _ Hi). Qed.

Lemma remaining_nonneg s cells : search_inv s cells -> 0 <= remaining s.
Proof using Hok.
  intros Hi. unfold remaining. rewrite (si_made _ _ Hi). pose proof (cells_bound cells (si_nodup _ _ Hi) (si_on _ _ Hi)) as Hb. pose proof (f64_units_nonneg INF_COST blank_nonneg) as Hu. pose proof (alen_nonneg (queue_ s)) as Hq.
  assert (Hnonneg : forall l, Forall (fun n => 0 <= f64_units (tn_f n)) l -> 0 <= total l) by (intros l; unfold total; induction 1 as [|n l Hn _ IH]; cbn [foldr]; lia).
  assert (Ht : 0 <= total (take (Z.to_nat (alen cells)) (nodes_data_ s))).
  { apply Hnonneg, Forall_forall. intros n Hn. destruct (elem_aget _ _ Hn) as [i Ei]. pose proof (aget_bounds _ _ _ Ei) as Hbi. apply f64_units_nonneg.
    assert (Hlen : i < alen cells) by (unfold alen in Hbi |- *; rewrite length_take in Hbi; lia). assert (Ei' : aget (nodes_data_ s) i = Some n).
    { rewrite <- (Z2Nat.id i), aget_at_nat in Ei by lia. rewrite <- (Z2Nat.id i), aget_at_nat by lia. rewrite lookup_take_lt in Ei by lia. done. }
    destruct (si_nodes _ _ Hi i n Hlen Ei') as [->|Hpl]; [exact blank_nonneg|]. rewrite (pl_f _ _ _ _ Hpl). apply fadd_nonneg; [exact (pl_g _ _ _ _ Hpl)|exact (pl_h _ _ _ _ Hpl)]. }
  set (u := f64_units INF_COST) in *. clearbody u. set (b := total _) in *. clearbody b. clear -Hb Hu Hq Ht. nia.
Qed.

Lemma inv_opened s cells k : search_inv s cells -> search_inv (set_counts s (index_generated_ s) k) cells.
Proof using Type. intros [H1 H2 H3 H4 H5 H6 H7 H8 H9 H10 H11]. by constructor. Qed.

Lemma inv_requeue s cells q : search_inv s cells -> (forall i, i ∈ q -> i ∈ queue_ s) -> search_inv (set_queue s q) cells.
Proof using Type.
  intros [H1 H2 H3 H4 H5 H6 H7 H8 H9 H10 H11] Hq. constructor; try done. cbn. rewrite Forall_forall in H9 |- *. auto.
Qed.

Lemma isGoal_spec s n : frame s = frame s0 -> isGoal s n = true <-> node_cell n = dst_ s0.
Proof using Type.
  intros E. change (isGoal s n) with (isGoal (frame s) n). rewrite E. unfold isGoal, node_cell. cbn. rewrite andb_true_iff, !Z.eqb_eq. destruct (dst_ s0) as [a b]. cbn. split; [by intros [-> ->]|by intros [= -> ->]].
Qed.

Lemma search_step_inv s cells X : expanding X s cells -> exists r, search_step hypot (s, X) = Some r /\
  match r with
  | Next (s', X') => (exists cells', expanding X' s' cells') /\ remaining s' < remaining s
  | Break (s', X') => (exists cells', expanding X' s' cells') /\ (queue_ s' <> [] -> exists n, aget (nodes_data_ s') X' = Some n /\ node_cell n = dst_ s0)
  end.
Proof using Hok heap_laws.
  intros Hexp. pose proof Hexp as (Hi & HX & n & Hn & Hpl). unfold search_step. destruct (queue_ s) as [|a0 q0] eqn:Eq; [exists (Break (s, X)); split; [done|]; split; [by exists cells|by rewrite Eq]|].
  cbv zeta. set (s1 := set_counts s (index_generated_ s) (nodes_opened s + 1)). pose proof (inv_opened s cells (nodes_opened s + 1) Hi) as Hi1. fold s1 in Hi1. unfold node_at. change (nodes_data_ s1) with (nodes_data_ s). rewrite Hn. mred.
  destruct (isGoal s1 n) eqn:Eg.
  - apply isGoal_spec in Eg; [|exact (si_frame _ _ Hi1)]. eexists. split; [done|]. cbv beta iota. split; [exists cells; by split; [|split; [|exists n]]|intros _; by exists n].
  - destruct (resetParent_inv s1 cells X n Hi1 HX Hn Hpl) as (s2 & n2 & E2 & Hi2 & Hpot2 & Hq2 & Hn2 & Hpl2 & _). rewrite E2. mred.
    destruct (setNeighbors_inv X s2 cells) as (s3 & cells3 & E3 & Hexp3 & Hpot3 & Hq3); [by split; [|split; [|exists n2]]|]. rewrite E3. mred. pose proof Hexp3 as (Hi3 & _).
    assert (Hne : queue_ s3 <> []) by (intros E; apply Hq3 in E; rewrite Hq2 in E; cbn in E; by rewrite Eq in E).
    destruct (heap_pop_perm (node_key s3) (queue_ s3) Hne) as (a & q & E4 & Hperm). rewrite E4. mred. eexists. split; [done|]. cbv beta iota.
    assert (Hin : forall i, i = a \/ i ∈ q -> i ∈ queue_ s3) by (intros i Hor; rewrite Hperm; by apply elem_of_cons). assert (Hi4 : search_inv (set_queue s3 q) cells3) by (apply inv_requeue; [done|auto]). split.
    + exists cells3. split; [done|]. exact (proj1 (Forall_forall _ _) (si_queue _ _ Hi3) a (Hin a (or_introl eq_refl))).
    + rewrite <- (potential_remaining _ _ Hi4), <- (potential_remaining _ _ Hi). apply Permutation_length in Hperm. cbn [length] in Hperm.
      assert (Hlast : potential (set_queue s3 q) cells3 = potential s3 cells3 - 1) by (unfold potential; cbn [queue_ set_queue nodes_data_]; unfold alen; rewrite Hperm; lia).
      change (potential s1 cells) with (potential s cells) in Hpot2. lia.
Qed.

Lemma search_ends s cells X fuel : expanding X s cells -> (Z.to_nat (remaining s) < fuel)%nat -> exists s' X', loop fuel (search_step hypot) (s, X) = Some (s', X') /\
  (exists cells', expanding X' s' cells') /\ (queue_ s' <> [] -> exists n, aget (nodes_data_ s') X' = Some n /\ node_cell n = dst_ s0).
Proof using Hok heap_laws.
  intros Hexp Hf.
  destruct (loop_inv (fun st => exists cells, expanding (snd st) (fst st) cells)
    (fun st => (exists cells', expanding (snd st) (fst st) cells') /\ (queue_ (fst st) <> [] -> exists n, aget (nodes_data_ (fst st)) (snd st) = Some n /\ node_cell n = dst_ s0))
    (fun st => Z.to_nat (remaining (fst st))) (search_step hypot)) with (fuel := fuel) (s := (s, X)) as ([s' X'] & E & H); [|by exists cells|done|by exists s', X'].
  clear -Hok heap_laws. intros [t Y] (cells & Hexp). cbn [fst snd] in *. destruct (search_step_inv t cells Y Hexp) as (r & E & H). exists r. split; [done|]. destruct r as [[t' Y']|[t' Y']]; [|done].
  destruct H as [(cells' & Hexp') Hlt]. split; [by exists cells'|]. cbn [fst]. pose proof (remaining_nonneg t' cells' (proj1 Hexp')). lia.
Qed.

(** ** The path *)

(** Routes from the start, each cell next to the one before or in sight of it. *)
Inductive sight_route : list (Z * Z) -> Prop :=
| route_start : sight_route [src_ s0]
| route_next l a b : sight_route l -> last l = Some a -> visible b a -> open_cell b -> sight_route (l ++ [b]).

Lemma rooted_det nodes k k' i : rooted nodes k i -> rooted nodes k' i -> k = k'.
Proof using Type.
  intros Hk. revert k'. induction Hk as [|k i n p Hne Hn Hp _ IH]; intros k' Hk'; inversion Hk' as [|k2 i2 n2 p2 Hne2 Hn2 Hp2 Hk2]; subst; [done|done|done|].
  rewrite Hn in Hn2. injection Hn2 as <-. rewrite Hp in Hp2. injection Hp2 as <-. f_equal. by apply IH.
Qed.

(** The nodes on the way to the first node are distinct. *)
Lemma rooted_bound nodes k i : 0 < alen nodes -> rooted nodes k i -> (k < length nodes)%nat.
Proof using Type.
  intros H0 Hk. assert (Hch : exists l, length l = S k /\ NoDup l /\ Forall (fun j => 0 <= j < alen nodes /\ exists k', (k' <= k)%nat /\ rooted nodes k' j) l).
  { induction Hk as [|k i n p Hne Hn Hp Hk (l & Hl & Hnd & Hf)].
    - exists [0]. split; [done|]. split; [by apply NoDup_singleton|]. constructor; [|done]. split; [lia|]. exists 0%nat. split; [done|constructor].
    - exists (i :: l). split; [cbn; lia|]. split.
      + constructor; [|done]. intros Hin. destruct (proj1 (Forall_forall _ _) Hf i Hin) as (_ & k' & Hle & Hk'). assert (Hi : rooted nodes (S k) i) by by apply (rooted_S _ _ _ n p). pose proof (rooted_det _ _ _ _ Hi Hk'). lia.
      + constructor; [split; [by apply aget_bounds in Hn|]; exists (S k); split; [done|by apply (rooted_S _ _ _ n p)]|]. eapply Forall_impl; [exact Hf|]. intros j (Hj & k' & Hle & Hk'). split; [done|]. exists k'. split; [lia|done]. }
  destruct Hch as (l & Hl & Hnd & Hf). assert (Hsub : l ⊆+ seqZ 0 (alen nodes)).
  { apply NoDup_submseteq; [done|]. intros j Hj. apply elem_of_seqZ. destruct (proj1 (Forall_forall _ _) Hf j Hj). lia. }
  apply submseteq_length in Hsub. rewrite length_seqZ in Hsub. unfold alen in Hsub. lia.
Qed.

Definition cell_world (p : Z * Z) : coordsW := mapToWorld (ts_costmap_ s0) (u32 (fst p)) (u32 (snd p)).

Lemma frame_world s n : frame s = frame s0 -> node_world s n = cell_world (node_cell n).
Proof using Type. intros E. change (node_world s n) with (node_world (frame s) n). by rewrite E. Qed.

Lemma backtrace_step_at s path i n p q : aget (nodes_data_ s) i = Some n -> (if 1 <? alen path + 1 then parent_id n else Some i) = Some p -> aget (nodes_data_ s) p = Some q ->
  backtrace_step s (path, i) = Some (if decide (parent_id q = Some p) then Break (path ++ [node_world s n], p) else Next (path ++ [node_world s n], p)).
Proof using Type.
  intros Hn Hp Hq. unfold backtrace_step, node_at. rewrite Hn. mred. cbv zeta. replace (alen (path ++ [node_world s n])) with (alen path + 1) by (unfold alen; rewrite length_app; cbn; lia). rewrite Hp. mred. rewrite Hq. by mred.
Qed.

Lemma backtrace_rooted s cells k i n : search_inv s cells -> rooted (nodes_data_ s) k i -> i < alen cells -> aget (nodes_data_ s) i = Some n -> placed cells (nodes_data_ s) i n ->
  exists l, length l = k /\ sight_route (src_ s0 :: l) /\ last (src_ s0 :: l) = Some (node_cell n) /\
    forall fuel path, (0 < k <= fuel)%nat -> 1 <= alen path -> loop fuel (backtrace_step s) (path, i) = Some (path ++ rev (cell_world <$> l), 0).
Proof using Type.
  intros Hi Hk. revert n. induction Hk as [|k i n' p Hne Hn' Hp Hk IH]; intros n Hlt Hn Hpl.
  - exists []. destruct (si_root _ _ Hi) as (r & Hr & _ & Hc). rewrite Hr in Hn. injection Hn as ->. split; [done|]. split; [constructor|]. split; [by rewrite Hc|]. intros fuel path [? _]. lia.
  - rewrite Hn' in Hn. injection Hn as ->. destruct (parent_placed _ _ _ _ Hi Hpl) as (p' & q & Ep & Hpl' & Eq & Hq & _ & Hv). rewrite Hp in Ep. injection Ep as <-.
    destruct (IH q Hpl' Eq Hq) as (l & Hl & Hroute & Hlast & Hloop). exists (l ++ [node_cell n]). split; [rewrite length_app; cbn; lia|]. split; [|split].
    + apply (route_next (src_ s0 :: l) (node_cell q)); [done|done|done|by apply (placed_open s cells i)].
    + by rewrite app_comm_cons, last_snoc.
    + intros fuel path Hf Hpath. destruct fuel as [|fuel]; [lia|]. cbn [loop]. rewrite (backtrace_step_at s path i n p q Hn') by (done || by rewrite (proj2 (Z.ltb_lt 1 (alen path + 1))) by lia). mred. rewrite (frame_world s n (si_frame _ _ Hi)).
      rewrite fmap_app, rev_app_distr. cbn [fmap list_fmap rev app]. destruct (decide (parent_id q = Some p)) as [Hself|Hnself].
      * assert (k = 0%nat) as -> by (destruct k as [|k]; [done|]; inversion Hk as [|k2 i2 n2 p2 Hne2 Hn2 Hp2 Hk2]; subst; rewrite Eq in Hn2; injection Hn2 as <-; rewrite Hself in Hp2; injection Hp2 as <-; pose proof (rooted_det _ _ _ _ Hk Hk2); lia).
        apply nil_length_inv in Hl as ->. assert (p = 0) as -> by by inversion Hk. done.
      * assert (Hk0 : (0 < k)%nat). { destruct k as [|k]; [|lia]. inversion Hk; subst. destruct (si_root _ _ Hi) as (r & Hr & Hpr & _). rewrite Hr in Eq. injection Eq as ->. done. }
        rewrite Hloop; [|lia|unfold alen in *; rewrite length_app; cbn; lia]. by rewrite <- app_assoc.
Qed.

Lemma backtrace_inv s cells X raw : expanding X s cells -> exists l n, aget (nodes_data_ s) X = Some n /\ backtrace s raw X = Some (raw ++ (cell_world <$> (src_ s0 :: l) ++ [node_cell n])) /\
  sight_route (src_ s0 :: l) /\ last (src_ s0 :: l) = Some (node_cell n).
Proof using Type.
  intros (Hi & HX & n & Hn & Hpl). destruct (si_rooted _ _ Hi X n HX Hn Hpl) as [k Hk]. destruct (backtrace_rooted s cells k X n Hi Hk HX Hn Hpl) as (l & Hl & Hroute & Hlast & Hloop). exists l, n. split; [done|]. split; [|done].
  destruct (root_placed _ _ Hi) as (r & Hr & Hpr & Hself & Hc). pose proof (aget_bounds _ _ _ Hr) as Hnodes. assert (Hb : (k < length (nodes_data_ s))%nat) by (apply (rooted_bound _ k X); [lia|done]).
  assert (Hpath : loop (3 + length (nodes_data_ s)) (backtrace_step s) ([], X) = Some (cell_world (node_cell n) :: rev (cell_world <$> l), 0)).
  { change (3 + length (nodes_data_ s))%nat with (S (2 + length (nodes_data_ s))). cbn [loop]. rewrite (backtrace_step_at s [] X n X n) by done. mred. cbn [app]. rewrite (frame_world s n (si_frame _ _ Hi)).
    destruct k as [|k].
    - apply nil_length_inv in Hl as ->. assert (X = 0) as -> by by inversion Hk. rewrite Hr in Hn. injection Hn as ->. by rewrite decide_True.
    - rewrite decide_False; [apply (Hloop _ [_]); [lia|done]|]. intros Hs. inversion Hk as [|k2 i2 n2 p2 Hne2 Hn2 Hp2 Hk2]; subst. rewrite Hn in Hn2. injection Hn2 as <-. rewrite Hs in Hp2. injection Hp2 as <-. pose proof (rooted_det _ _ _ _ Hk Hk2). lia. }
  unfold backtrace. rewrite Hpath. mred. unfold node_at. rewrite Hr. mred. rewrite (frame_world s r (si_frame _ _ Hi)), Hc. f_equal. f_equal.
  rewrite rev_app_distr. change (rev (cell_world (node_cell n) :: rev (cell_world <$> l))) with (rev (rev (cell_world <$> l)) ++ [cell_world (node_cell n)]). by rewrite rev_involutive, fmap_app.
Qed.

(** ** The first node *)

Lemma start_inv : index_generated_ s0 = 0 -> queue_ s0 = [] -> area <= alen (node_position_ s0) -> (forall i r, aget (node_position_ s0) i = Some r -> r = None) ->
  exists s, start_search hypot s0 = Some (s, 0) /\ expanding 0 s [src_ s0].
Proof using Hok heap_laws.
  intros Hidx Hq Harea Hnone. destruct (po_src Hok) as [Hsrc Hsafe]. change (on_grid (src_ s0)) in Hsrc. destruct (src_ s0) as [x y] eqn:Esrc. cbn [fst snd] in Hsafe. unfold start_search. cbv zeta. rewrite Hidx.
  pose proof (on_grid_index x y Hsrc) as Hpos. pose proof (po_capacity Hok) as Hcap. fold area in Hcap.
  assert (Hadd : exists nodes, addToNodesData s0 0 = Some (set_nodes s0 nodes (nodes_capacity_ s0)) /\ 0 < alen nodes).
  { unfold addToNodesData. destruct (Z.leb_spec (alen (nodes_data_ s0)) 0) as [Hle|Hgt].
    - assert (E0 : alen (nodes_data_ s0) = 0) by (pose proof (alen_nonneg (nodes_data_ s0)); lia). rewrite E0, orb_true_r, Z.max_l by lia. eexists. split; [done|]. unfold alen. rewrite length_app. cbn. lia.
    - unfold put_node. destruct (aset_is_Some (nodes_data_ s0) 0 blank_node) as [nodes E]; [lia|]. rewrite E. mred. exists nodes. split; [done|]. by rewrite (aset_len _ _ _ _ E). }
  destruct Hadd as (nodes & Ea & Hlen). rewrite Ea. mred. change (src_ (set_nodes s0 nodes (nodes_capacity_ s0))) with (src_ s0). rewrite Esrc. cbn [fst snd].
  rewrite (frame_getTraversalCost (set_nodes s0 nodes (nodes_capacity_ s0)) eq_refl), (frame_getHCost (set_nodes s0 nodes (nodes_capacity_ s0)) eq_refl).
  destruct (traversal_answers _ Hsrc) as (g & Eg & Ng). cbn [fst snd] in Eg. rewrite Eg. mred. destruct (heuristic_answers _ Hsrc) as (h & Eh & Nh). cbn [fst snd] in Eh. rewrite Eh. mred.
  set (root := mkNode x y g h (Some 0) true (fadd g h)). unfold put_node. destruct (aset_is_Some nodes 0 root) as [nodes' E]; [lia|]. cbn [nodes_data_ set_nodes]. rewrite E. mred. cbv zeta.
  set (s1 := set_nodes (set_nodes s0 nodes (nodes_capacity_ s0)) nodes' (nodes_capacity_ (set_nodes s0 nodes (nodes_capacity_ s0)))). change (queue_ s1) with (queue_ s0). rewrite Hq. pose proof (heap_push_perm (node_key s1) 0 []) as Hperm. set (q := heap_push (node_key s1) 0 []) in *. clearbody q.
  change (src_ s1) with (src_ s0). change (src_ (set_queue s1 q)) with (src_ s0). rewrite Esrc. cbn [fst snd]. unfold addIndex. rewrite (frame_position (set_queue s1 q) eq_refl), (position_answers x y Hsrc). mred. cbn [node_position_ set_queue set_nodes s1].
  destruct (aset_is_Some (node_position_ s0) (ts_size_x_ s0 * y + x) (Some 0)) as [pos Ep]; [lia|]. change (node_position_ (set_queue s1 q)) with (node_position_ s0). rewrite Ep. mred. eexists. split; [done|].
  assert (Hroot : aget nodes' 0 = Some root) by (by rewrite (aget_aset _ _ _ _ _ E)).
  assert (Hpl : placed [(x, y)] nodes' 0 root).
  { constructor; [done|done|done|done|done|done|]. exists 0, root. split; [done|]. split; [done|]. split; [done|]. split; [by exists 0|]. split; [lia|]. left. cbn. lia. }
  split; [|split; [done|by exists root]]. constructor.
  - done.
  - done.
  - change (0 < 1 <= alen nodes'). rewrite (aset_len _ _ _ _ E). lia.
  - by apply NoDup_singleton.
  - by constructor.
  - cbn. intros x' y' Hg. rewrite (aget_aset _ _ _ _ _ Ep). destruct (Z.eqb_spec (ts_size_x_ s0 * y + x) (ts_size_x_ s0 * y' + x')) as [Ei|Hne].
    + apply grid_index_inj in Ei; [|done|done]. injection Ei as <- <-. exists (Some 0). split; [done|]. intros i. split; [by intros [= <-]|]. intros Ei. apply aget_bounds in Ei. unfold alen in Ei. cbn in Ei. f_equal. lia.
    + destruct (aget_is_Some (node_position_ s0) (ts_size_x_ s0 * y' + x')) as [r Er]; [pose proof (on_grid_index x' y' Hg); lia|]. exists r. split; [done|]. rewrite (Hnone _ _ Er). intros i. split; [done|]. intros Ei.
      apply aget_elem, list_elem_of_singleton in Ei. injection Ei as -> ->. by destruct Hne.
  - cbn. intros i n Hi Hn. apply aget_bounds in Hn as Hb. unfold alen in Hi. cbn in Hi. assert (i = 0) as -> by lia. rewrite Hroot in Hn. injection Hn as <-. by right.
  - exists root. split; [done|]. by rewrite Esrc.
  - cbn. apply Forall_forall. intros i Hin. rewrite Hperm in Hin. apply list_elem_of_singleton in Hin as ->. split; [done|by exists root].
  - cbn. intros i n Hi Hn _. apply aget_bounds in Hn as Hb. unfold alen in Hi. cbn in Hi. assert (i = 0) as -> by lia. exists 0%nat. constructor.
  - cbn. rewrite (aset_len _ _ _ _ Ep). split; [done|]. intros i r Hge. rewrite (aget_aset _ _ _ _ _ Ep). destruct (Z.eqb_spec (ts_size_x_ s0 * y + x) i); [lia|by apply Hnone].
Qed.
End search.

(** ** The containers, from call to call *)

(** Of the planner between two calls: the positions past the last map are
    empty. *)
Record reusable (s : ThetaStar) : Prop := {
  ru_sizes : 0 <= ts_size_x_ s /\ 0 <= ts_size_y_ s /\ ts_size_x_ s * ts_size_y_ s < 2 ^ 31;
  ru_positions : ts_size_x_ s * ts_size_y_ s <= alen (node_position_ s) /\ forall i r, ts_size_x_ s * ts_size_y_ s <= i -> aget (node_position_ s) i = Some r -> r = None;
  ru_queue : queue_ s = [];
}.

(** The nodes of the next search fit in the vector, or are given room. *)
Definition roomy (s : ThetaStar) : Prop :=
  let n := size_x_ (ts_costmap_ s) * size_y_ (ts_costmap_ s) in
  n <= nodes_capacity_ s \/ (ts_size_x_ s, ts_size_y_ s) <> (size_x_ (ts_costmap_ s), size_y_ (ts_costmap_ s)) /\ s32 (alen (node_position_ s)) < n.

Lemma s32_le z : 0 <= z -> s32 z <= z.
Proof. intros Hz. unfold s32. pose proof (Z.mod_le z (2 ^ 32) Hz ltac:(lia)). destruct (_ <? _); lia. Qed.

Lemma initializePosn_clears s inc : reusable s -> exists pos, initializePosn s inc = Some (set_positions s (ts_size_x_ s) (ts_size_y_ s) pos) /\
  alen pos = alen (node_position_ s) + Z.max 0 inc /\ forall i r, aget pos i = Some r -> r = None.
Proof.
  intros [(Hx & Hy & Ha) [Hle Hnone] _]. set (n := ts_size_x_ s * ts_size_y_ s) in *. assert (Hn : 0 <= n) by (unfold n; clear -Hx Hy; nia).
  assert (Hclear : exists p, (match node_position_ s with [] => Some [] | _ :: _ => n ← checked_s32 (ts_size_x_ s * ts_size_y_ s); for_range 0 n (fun i p => aset p i None) (node_position_ s) end) = Some p /\
    alen p = alen (node_position_ s) /\ forall i r, aget p i = Some r -> r = None).
  { destruct (node_position_ s) as [|r0 rs] eqn:Ep; [exists []; split; [done|]; split; [done|]; intros i r Hr; by apply aget_elem, not_elem_of_nil in Hr|]. rewrite <- Ep in *. fold n. rewrite checked_s32_ok by (unfold is_s32; lia). mred.
    destruct (for_range_inv (fun i p => alen p = alen (node_position_ s) /\ forall j r, j < i \/ n <= j -> aget p j = Some r -> r = None) (fun i p => aset p i None) 0 n (node_position_ s)) as (p & E & Hl & Hp); [done| | |].
    - split; [done|]. intros j r [Hj|Hj] Hr; [apply aget_bounds in Hr; lia|by apply (Hnone j)].
    - intros i p Hi [Hl Hp]. destruct (aset_is_Some p i None) as [p' E]; [lia|]. exists p'. split; [done|]. split; [by rewrite (aset_len _ _ _ _ E)|]. intros j r Hj. rewrite (aget_aset _ _ _ _ j E). destruct (Z.eqb_spec i j); [by intros [= <-]|]. apply Hp. lia.
    - exists p. split; [done|]. split; [done|]. intros j r. apply Hp. lia. }
  destruct Hclear as (p & E & Hl & Hp). unfold initializePosn. rewrite E. mred. eexists. split; [done|]. split.
  - rewrite <- Hl. unfold alen, anew. rewrite length_app, length_replicate. lia.
  - intros i r Hr. apply aget_elem in Hr. apply elem_of_app in Hr as [Hr|Hr]; [apply elem_aget in Hr as [j Hj]; by apply (Hp j)|by apply elem_of_replicate in Hr as [-> _]].
Qed.

Definition cleared (s : ThetaStar) (positions : list (option Z)) (capacity : Z) : ThetaStar :=
  set_positions (set_nodes (set_counts s 0 (nodes_opened s)) (nodes_data_ s) capacity) (size_x_ (ts_costmap_ s)) (size_y_ (ts_costmap_ s)) positions.

Lemma small_map hypot s c : plannable hypot s c -> size_x_ (ts_costmap_ s) < 2 ^ 31 /\ size_y_ (ts_costmap_ s) < 2 ^ 31 /\ 0 < size_x_ (ts_costmap_ s) * size_y_ (ts_costmap_ s).
Proof.
  intros H. pose proof (po_area H) as Ha. destruct (po_src H) as [[Hx Hy] _]. set (w := size_x_ (ts_costmap_ s)) in *. set (h := size_y_ (ts_costmap_ s)) in *. clearbody w h. clear -Ha Hx Hy. assert (0 < w /\ 0 < h) by lia. nia.
Qed.

Lemma resetContainers_clears hypot s c : plannable hypot s c -> reusable s -> roomy s -> exists positions capacity,
  resetContainers s = Some (cleared s positions capacity) /\ size_x_ (ts_costmap_ s) * size_y_ (ts_costmap_ s) <= capacity /\
  size_x_ (ts_costmap_ s) * size_y_ (ts_costmap_ s) <= alen positions /\ forall i r, aget positions i = Some r -> r = None.
Proof.
  intros Hpl Hru Hroom. pose proof (small_map hypot s c Hpl) as (Hw & Hh & Hpos). pose proof (po_area Hpl) as Ha. destruct (po_src Hpl) as [[Hsx Hsy] _]. pose proof (ru_sizes _ Hru) as (Hx & Hy & Hlast). destruct (ru_positions _ Hru) as [Hle _]. unfold roomy in Hroom. cbv zeta in Hroom.
  unfold resetContainers. cbv zeta. set (s1 := set_counts s 0 (nodes_opened s)).
  change (ts_size_x_ s1) with (ts_size_x_ s). change (ts_size_y_ s1) with (ts_size_y_ s). change (ts_costmap_ s1) with (ts_costmap_ s). change (node_position_ s1) with (node_position_ s).
  rewrite (s32_small (size_x_ (ts_costmap_ s))), (s32_small (size_y_ (ts_costmap_ s))) by (unfold is_s32; lia).
  assert (Hru1 : reusable s1) by (destruct Hru; by constructor).
  assert (Hn0 : 0 <= ts_size_x_ s * ts_size_y_ s) by (clear -Hx Hy; nia). rewrite (Z.mul_comm (ts_size_y_ s)).
  unfold cleared. fold s1. set (w := size_x_ (ts_costmap_ s)) in *. set (h := size_y_ (ts_costmap_ s)) in *. set (n := w * h) in *. set (n0 := ts_size_x_ s * ts_size_y_ s) in *.
  assert (Hkeep : (n <= nodes_capacity_ s) -> n <= alen (node_position_ s) -> exists positions capacity, (s ← initializePosn s1 0; Some (set_positions s w h (node_position_ s))) = Some (set_positions (set_nodes s1 (nodes_data_ s) capacity) w h positions) /\ n <= capacity /\ n <= alen positions /\ forall i r, aget positions i = Some r -> r = None).
  { intros Hcap Hlen. destruct (initializePosn_clears s1 0 Hru1) as (pos & E & Hl & Hnone). rewrite E. mred. exists pos, (nodes_capacity_ s). split; [done|]. split; [done|]. split; [rewrite Hl; cbn; lia|done]. }
  destruct (negb (ts_size_x_ s =? w) || negb (ts_size_y_ s =? h)) eqn:Ediff.
  - rewrite (checked_s32_ok n) by (unfold is_s32; lia). mred. destruct (Z.ltb_spec (s32 (alen (node_position_ s))) n) as [Hlt|Hge].
    + rewrite (checked_s32_ok n0) by (unfold is_s32; lia). mred. rewrite (checked_s32_ok (n - n0)) by (unfold is_s32; lia). mred. destruct (initializePosn_clears s1 (n - n0) Hru1) as (pos & E & Hl & Hnone). rewrite E. mred.
      exists pos, (Z.max (nodes_capacity_ s) n). split; [done|]. split; [lia|]. split; [rewrite Hl; cbn [node_position_ s1 set_counts]; lia|done].
    + apply Hkeep; [lia|]. pose proof (s32_le (alen (node_position_ s)) (alen_nonneg _)). lia.
  - apply orb_false_iff in Ediff as [E1 E2]. apply negb_false_iff, Z.eqb_eq in E1. apply negb_false_iff, Z.eqb_eq in E2. apply Hkeep; [|unfold n, n0 in *; by rewrite <- E1, <- E2].
    destruct Hroom as [|[Hne _]]; [done|]. by rewrite E1, E2 in Hne.
Qed.

Lemma cleared_ok hypot s c positions capacity : plannable hypot s c -> size_x_ (ts_costmap_ s) * size_y_ (ts_costmap_ s) <= capacity -> planner_ok hypot (cleared s positions capacity) c.
Proof. intros [] Hcap. constructor; [by constructor|done|done|done]. Qed.

(** Clearing the containers does not change what sees what. *)
Lemma cleared_route s positions capacity l : sight_route (cleared s positions capacity) l -> sight_route s l.
Proof. induction 1 as [|l a b _ IH Hl Hv Ho]; [exact (route_start s)|exact (route_next s l a b IH Hl Hv Ho)]. Qed.

Lemma inv_reusable hypot s0 c s cells : planner_ok hypot s0 c -> search_inv hypot s0 s cells -> queue_ s = [] -> reusable s.
Proof.
  intros Hok Hi Hq. pose proof (small_map hypot s0 c Hok) as (_ & _ & Hpos). pose proof (po_area Hok) as Ha. destruct (po_src Hok) as [[Hx Hy] _].
  assert (Ex : ts_size_x_ s = size_x_ (ts_costmap_ s0)) by (rewrite <- (po_x Hok); change (ts_size_x_ (frame s) = ts_size_x_ (frame s0)); by rewrite (si_frame _ _ _ _ Hi)).
  assert (Ey : ts_size_y_ s = size_y_ (ts_costmap_ s0)) by (rewrite <- (po_y Hok); change (ts_size_y_ (frame s) = ts_size_y_ (frame s0)); by rewrite (si_frame _ _ _ _ Hi)).
  constructor; rewrite ?Ex, ?Ey; [lia|exact (si_rest _ _ _ _ Hi)|done].
Qed.

Lemma inv_roomy hypot s0 c s cells : planner_ok hypot s0 c -> search_inv hypot s0 s cells -> roomy s.
Proof.
  intros Hok Hi. left. pose proof (po_capacity Hok) as Hcap. pose proof (si_frame _ _ _ _ Hi) as E.
  change (size_x_ (ts_costmap_ (frame s)) * size_y_ (ts_costmap_ (frame s)) <= nodes_capacity_ (frame s)). by rewrite E.
Qed.

Lemma route_open s l : open_cell s (src_ s) -> sight_route s l -> Forall (open_cell s) l.
Proof. intros Hs. induction 1 as [|l a b _ IH _ _ Ho]; [by constructor|]. apply Forall_app. split; [done|by constructor]. Qed.

Section planner.
Context {heap : OpenList} {heap_laws : OpenListLaws heap} (hypot : spec_float -> spec_float -> spec_float).

(** What a search does not change. *)
Definition settings (s : ThetaStar) : ThetaStar :=
  mkThetaStar (src_ s) (dst_ s) (ts_costmap_ s) (w_traversal_cost_ s) (w_euc_cost_ s) (w_heuristic_cost_ s) (how_many_corners_ s) (allow_unknown_ s) 0 0 [] [] 0 [] 0 0.

Lemma frame_settings s s0 : frame s = frame s0 -> settings s = settings s0.
Proof using Type. intros E. change (settings (frame s) = settings (frame s0)). by rewrite E. Qed.

(** The search ends, stays in its arrays, leaves the containers ready for the
    next call; the path it finds goes from cell to cell in sight. *)
Lemma generatePath_spec s c raw : plannable hypot s c -> reusable s -> roomy s ->
  exists n0, forall fuel, (n0 <= fuel)%nat -> exists found path s', generatePath hypot fuel s raw = Some (found, path, s') /\ reusable s' /\ roomy s' /\ settings s' = settings s /\
    (if found : bool then exists l, path = raw ++ (cell_world s <$> (src_ s :: l) ++ [dst_ s]) /\ sight_route s (src_ s :: l) /\ last (src_ s :: l) = Some (dst_ s) else path = []).
Proof using heap_laws.
  intros Hpl Hru Hroom. destruct (resetContainers_clears hypot s c Hpl Hru Hroom) as (pos & cap & Er & Hcap & Hlen & Hnone).
  set (s0 := cleared s pos cap) in *. assert (Hok : planner_ok hypot s0 c) by by apply cleared_ok.
  destruct (start_inv hypot s0 c Hok) as (s1 & Es & Hexp); [done|exact (ru_queue _ Hru)|exact Hlen|exact Hnone|].
  exists (S (Z.to_nat (remaining s0 s1))). intros fuel Hf. destruct (search_ends hypot s0 c Hok s1 [src_ s0] 0 fuel Hexp) as (s2 & X & El & (cells & Hexp2) & Hgoal); [lia|].
  unfold generatePath. rewrite Er. mred. rewrite Es. mred. rewrite El. mred. destruct (queue_ s2) as [|a q] eqn:Eq.
  - exists false, [], s2. split; [done|]. split; [by apply (inv_reusable hypot s0 c s2 cells Hok (proj1 Hexp2))|]. split; [by apply (inv_roomy hypot s0 c s2 cells Hok (proj1 Hexp2))|]. split; [exact (frame_settings s2 s0 (si_frame _ _ _ _ (proj1 Hexp2)))|done].
  - destruct (Hgoal ltac:(done)) as (n & Hn & Hc). destruct (backtrace_inv hypot s0 s2 cells X raw Hexp2) as (l & n' & Hn' & Eb & Hroute & Hlast). rewrite Hn in Hn'. injection Hn' as <-. rewrite Hc in Eb, Hlast. rewrite Eb. mred.
    eexists true, _, _. split; [done|]. split.
    + apply (inv_reusable hypot s0 c (set_queue s2 []) cells Hok); [|done]. apply inv_requeue; [exact (proj1 Hexp2)|]. intros i Hin. by apply not_elem_of_nil in Hin.
    + split; [exact (inv_roomy hypot s0 c s2 cells Hok (proj1 Hexp2))|]. split; [exact (frame_settings s2 s0 (si_frame _ _ _ _ (proj1 Hexp2)))|]. exists l. split; [done|]. split; [|done]. by apply (cleared_route s pos cap).
Qed.
End planner.
