(* ===== verification/ThetaStarPlanner.v ===== *)
(** The plugin of the Theta* planner (nav2_theta_star_planner:
    theta_star_planner.cpp): parameters, the corner cases of a plan, and the
    poses of the path. *)

From stdpp Require Import strings.
From S2P Require Import Prelude Floats Bresenham Costmap2D Footprint Messages FloatOrder PriorityQueue ThetaStar ThetaStarSearch.

(** ** The data *)

Record PoseStamped := mkPoseStamped { pose_header : Header; pose : Pose }.
Record Path := mkPath { path_header : Header; poses : list PoseStamped }.

Record ThetaStarPlanner := mkPlanner {
  planner_ : ThetaStar;
  name_ : string;
  global_frame_ : string;
  use_final_approach_orientation_ : bool;
}.

Inductive parameter :=
| IntegerParameter (name : string) (value : Z)
| DoubleParameter (name : string) (value : spec_float)
| BoolParameter (name : string) (value : bool)
| OtherParameter (name : string).

Definition with_planner (p : ThetaStarPlanner) (s : ThetaStar) : ThetaStarPlanner := mkPlanner s (name_ p) (global_frame_ p) (use_final_approach_orientation_ p).
Definition with_final_approach (p : ThetaStarPlanner) (b : bool) : ThetaStarPlanner := mkPlanner (planner_ p) (name_ p) (global_frame_ p) b.

Definition empty_header : Header := mkHeader (mkTime 0 0) EmptyString.
Definition empty_path : Path := mkPath empty_header [].

(** ** Parameters *)

Definition configure (costmap : Costmap2D) (name global_frame : string) (how_many_corners : Z) (allow_unknown : bool) (w_euc_cost w_traversal_cost : spec_float)
  (use_final_approach_orientation : bool) : ThetaStarPlanner :=
  let corners := if negb (how_many_corners =? 8) && negb (how_many_corners =? 4) then 8 else how_many_corners in
  let w_heuristic_cost := if flt w_euc_cost f_one then w_euc_cost else f_one in
  mkPlanner (set_weights (ThetaStar_new costmap) w_euc_cost w_traversal_cost w_heuristic_cost corners allow_unknown) name global_frame use_final_approach_orientation.

Definition set_parameter (p : ThetaStarPlanner) (parameter : parameter) : ThetaStarPlanner :=
  let s := planner_ p in
  let named (name suffix : string) := String.eqb name (name_ p ++ suffix) in
  match parameter with
  | IntegerParameter name value =>
      if named name ".how_many_corners"%string then with_planner p (set_weights s (w_euc_cost_ s) (w_traversal_cost_ s) (w_heuristic_cost_ s) (s32 value) (allow_unknown_ s)) else p
  | DoubleParameter name value =>
      if named name ".w_euc_cost"%string then with_planner p (set_weights s value (w_traversal_cost_ s) (w_heuristic_cost_ s) (how_many_corners_ s) (allow_unknown_ s))
      else if named name ".w_traversal_cost"%string then with_planner p (set_weights s (w_euc_cost_ s) value (w_heuristic_cost_ s) (how_many_corners_ s) (allow_unknown_ s))
      else p
  | BoolParameter name value =>
      if named name ".use_final_approach_orientation"%string then with_final_approach p value
      else if named name ".allow_unknown"%string then with_planner p (set_weights s (w_euc_cost_ s) (w_traversal_cost_ s) (w_heuristic_cost_ s) (how_many_corners_ s) value)
      else p
  | OtherParameter _ => p
  end.

Definition dynamicParametersCallback (p : ThetaStarPlanner) (parameters : list parameter) : ThetaStarPlanner * bool :=
  (fold_left set_parameter parameters p, true).

(** ** Plans *)

(** [!=] on the messages. *)
Definition quaternion_ne (a b : Quaternion) : bool := negb (feq (qx a) (qx b) && feq (qy a) (qy b) && feq (qz a) (qz b) && feq (qw a) (qw b)).

Section plugin.
(** The math library, the quaternion of tf2 from roll, pitch and yaw, and the
    pose that the constructor of the message makes. *)
Context {heap : OpenList} (hypot atan2 : spec_float -> spec_float -> spec_float) (setRPY : spec_float -> spec_float -> spec_float -> Quaternion) (blank_pose : PoseStamped).

Definition orientationAroundZAxis (angle : spec_float) : Quaternion := setRPY f_zero f_zero angle.

(** The pose [p1] at a point. *)
Definition pose_at (x y : spec_float) : PoseStamped :=
  mkPoseStamped (pose_header blank_pose) (mkPose (mkPoint x y (pz (position (pose blank_pose)))) (orientation (pose blank_pose))).

Definition segment_pose (pt1 : coordsW) (dist_bw_points cos_alpha sin_alpha : spec_float) (k : Z) : PoseStamped :=
  pose_at (fadd (fst pt1) (fmul (fmul (f_of_Z k) dist_bw_points) cos_alpha)) (fadd (snd pt1) (fmul (fmul (f_of_Z k) dist_bw_points) sin_alpha)).

Definition interpolate_segment (raw_path : list coordsW) (dist_bw_points : spec_float) (j : Z) (pa : list PoseStamped) : option (list PoseStamped) :=
  pt1 ← aget raw_path j;
  let pa := pa ++ [pose_at (fst pt1) (snd pt1)] in
  pt2 ← aget raw_path (j + 1);
  let distance := hypot (fsub (fst pt2) (fst pt1)) (fsub (snd pt2) (snd pt1)) in
  loops ← f_to_s32 (fdiv distance dist_bw_points);
  let sin_alpha := fdiv (fsub (snd pt2) (snd pt1)) distance in
  let cos_alpha := fdiv (fsub (fst pt2) (fst pt1)) distance in
  for_range 1 loops (fun k pa => Some (pa ++ [segment_pose pt1 dist_bw_points cos_alpha sin_alpha k])) pa.

(** The size of an empty path less one is the largest index: the loop would
    read it at once. *)
Definition linearInterpolation (raw_path : list coordsW) (dist_bw_points : spec_float) : option Path :=
  match raw_path with
  | [] => None
  | _ :: _ => pa ← for_range 0 (alen raw_path - 1) (interpolate_segment raw_path dist_bw_points) []; Some (mkPath empty_header pa)
  end.

Definition getPlan (now : Time) (fuel : nat) (p : ThetaStarPlanner) (global_path : Path) : option (Path * ThetaStarPlanner) :=
  unsafe ← isUnsafeToPlan (planner_ p);
  '(pa, p) ←
    (if unsafe : bool then Some ([], p)
     else
       '(found, path, s) ← generatePath hypot fuel (planner_ p) [];
       if found : bool then pa ← linearInterpolation path (resolution_ (ts_costmap_ s)); Some (poses pa, with_planner p s)
       else Some ([], with_planner p s));
  Some (mkPath (mkHeader now (global_frame_ p)) pa, p).

(** The last pose changed. *)
Definition with_last_orientation (l : list PoseStamped) (q : Quaternion) : option (list PoseStamped) :=
  e ← aget l (alen l - 1); aset l (alen l - 1) (mkPoseStamped (pose_header e) (mkPose (position (pose e)) q)).

Definition final_orientation (p : ThetaStarPlanner) (start goal : PoseStamped) (l : list PoseStamped) : option (list PoseStamped) :=
  let plan_size := alen l in
  l ← (if 0 <? plan_size then with_last_orientation l (orientation (pose goal)) else Some l);
  if use_final_approach_orientation_ p then
    if plan_size =? 1 then with_last_orientation l (orientation (pose start))
    else if 1 <? plan_size then
      last_pose ← aget l (plan_size - 1);
      approach_pose ← aget l (plan_size - 2);
      let dx := fsub (px (position (pose last_pose))) (px (position (pose approach_pose))) in
      let dy := fsub (py (position (pose last_pose))) (py (position (pose approach_pose))) in
      with_last_orientation l (orientationAroundZAxis (atan2 dy dx))
    else Some l
  else Some l.

Definition createPlan (now : Time) (fuel : nat) (garbage_start garbage_goal : Z * Z) (p : ThetaStarPlanner) (start goal : PoseStamped) : option (Path * ThetaStarPlanner) :=
  let m := ts_costmap_ (planner_ p) in
  let at_ (e : PoseStamped) := (px (position (pose e)), py (position (pose e))) in
  a ← worldToMap m (fst (at_ start)) (snd (at_ start));
  match a with
  | None => Some (empty_path, p)
  | Some a =>
      b ← worldToMap m (fst (at_ goal)) (snd (at_ goal));
      match b with
      | None => Some (empty_path, p)
      | Some b =>
          if (loc_x a =? loc_x b) && (loc_y a =? loc_y b) then
            cost ← Costmap2D.getCost m (loc_x a) (loc_y a);
            if cost =? LETHAL_OBSTACLE then Some (empty_path, p)
            else
              let header := mkHeader now (global_frame_ p) in
              let q := if quaternion_ne (orientation (pose start)) (orientation (pose goal)) && negb (use_final_approach_orientation_ p) then orientation (pose goal) else orientation (pose start) in
              Some (mkPath header [mkPoseStamped header (mkPose (position (pose start)) q)], p)
          else
            s ← setStartAndGoal (planner_ p) (at_ start) (at_ goal) garbage_start garbage_goal;
            '(path, p) ← getPlan now fuel (with_planner p s) empty_path;
            l ← final_orientation p start goal (poses path);
            Some (mkPath (path_header path) l, p)
      end
  end.
End plugin.

(** ** A heap over a list *)

#[export] Instance scan_heap : OpenList := {|
  heap_push _ a q := q ++ [a];
  heap_pop key q := pop_first (fun a b => fgt (key a) (key b)) q;
|}.

Lemma pop_first_perm {E} (less : E -> E -> bool) l : l <> [] -> exists a l', pop_first less l = Some (a, l') /\ l ≡ₚ a :: l'.
Proof.
  induction l as [|a l IH]; [done|]. intros _. cbn [pop_first]. destruct l as [|b l]; [cbn; by exists a, []|].
  destruct (IH ltac:(done)) as (x & l' & -> & Hp). destruct (less a x); [|by exists a, (b :: l)]. exists x, (a :: l'). split; [done|]. rewrite Hp. apply perm_swap.
Qed.

#[export] Instance scan_heap_laws : OpenListLaws scan_heap.
Proof.
  constructor; [intros key a q; cbn; apply Permutation_sym, Permutation_cons_append|intros key q Hq; cbn; by apply pop_first_perm].
Qed.

(** ** The poses of the path *)

Lemma worldToMap_in_grid m wx wy loc : worldToMap m wx wy = Some (Some loc) -> on_map m (loc_x loc) (loc_y loc).
Proof.
  unfold worldToMap. destruct (_ || _); [done|]. destruct (f_to_u32 (fdiv (fsub wx (origin_x_ m)) (resolution_ m))) as [mx|] eqn:Ex; [mred|done].
  destruct (f_to_u32 (fdiv (fsub wy (origin_y_ m)) (resolution_ m))) as [my|] eqn:Ey; [mred|done]. apply f_to_u32_inv in Ex as [_ Hx]. apply f_to_u32_inv in Ey as [_ Hy].
  destruct (_ && _) eqn:B; intros [= <-]. apply andb_true_iff in B as [B1%Z.ltb_lt B2%Z.ltb_lt]. unfold on_map, is_u32 in *. cbn. lia.
Qed.

Lemma reusable_ends s a b : reusable s -> reusable (set_ends s a b).
Proof. intros []. by constructor. Qed.

Section plans.
Context {heap : OpenList} {heap_laws : OpenListLaws heap} (hypot atan2 : spec_float -> spec_float -> spec_float) (setRPY : spec_float -> spec_float -> spec_float -> Quaternion) (blank_pose : PoseStamped).

(** The number of poses of a segment. *)
Definition segment_loops (dist : spec_float) (p q : coordsW) : option Z := f_to_s32 (fdiv (hypot (fsub (fst q) (fst p)) (fsub (snd q) (snd p))) dist).

Lemma interpolate_segment_spec raw dist j pa p q : aget raw j = Some p -> aget raw (j + 1) = Some q -> is_Some (segment_loops dist p q) ->
  exists more, interpolate_segment hypot blank_pose raw dist j pa = Some (pa ++ pose_at blank_pose (fst p) (snd p) :: more) /\ (forall n, segment_loops dist p q = Some n -> n <= 1 -> more = []).
Proof using Type.
  intros Hp Hq [n Hn]. unfold interpolate_segment. rewrite Hp. mred. rewrite Hq. mred. cbv zeta. change (f_to_s32 (fdiv (hypot (fsub (fst q) (fst p)) (fsub (snd q) (snd p))) dist)) with (segment_loops dist p q). rewrite Hn. mred.
  set (f := segment_pose blank_pose p dist _ _). assert (H : forall pa, exists more, for_range 1 n (fun k pa => Some (pa ++ [f k])) pa = Some (pa ++ more) /\ (n <= 1 -> more = [])).
  { intros pa0. destruct (Z.le_gt_cases n 1) as [Hle|Hgt]; [rewrite for_range_nil by done; exists []; by rewrite app_nil_r|].
    destruct (for_range_inv (fun _ l => exists more, l = pa0 ++ more) (fun k pa => Some (pa ++ [f k])) 1 n pa0) as (l & E & more & ->); [lia|exists []; by rewrite app_nil_r| |exists more; split; [done|lia]].
    intros i t _ (more & ->). eexists. split; [done|]. exists (more ++ [f i]). by rewrite app_assoc. }
  destruct (H (pa ++ [pose_at blank_pose (fst p) (snd p)])) as (more & E & Hmore). exists more. rewrite E. split; [by rewrite <- app_assoc|]. intros n' [= <-]. done.
Qed.

(** The poses start at the first point, and end at the last but one when the
    last segment is not divided. *)
Lemma linearInterpolation_ends raw dist x y p q : (forall j a b, aget raw j = Some a -> aget raw (j + 1) = Some b -> is_Some (segment_loops dist a b)) ->
  segment_loops dist p q = Some x -> x <= 1 -> raw = y ++ [p; q] ->
  exists pa e, linearInterpolation hypot blank_pose raw dist = Some (mkPath empty_header pa) /\ pa = e ++ [pose_at blank_pose (fst p) (snd p)] /\
    alen raw - 2 <= alen e /\ forall r, head raw = Some r -> head pa = Some (pose_at blank_pose (fst r) (snd r)).
Proof using Type.
  intros Hall Hx Hle ->. set (raw := y ++ [p; q]) in *. assert (Hlen : alen raw = alen y + 2) by (unfold raw, alen; rewrite length_app; cbn; lia). pose proof (alen_nonneg y) as Hy.
  assert (Hp : aget raw (alen y) = Some p) by (unfold raw, alen; by rewrite aget_at_nat, lookup_app_r, Nat.sub_diag by lia).
  assert (Hq : aget raw (alen y + 1) = Some q) by (replace (alen y + 1) with (Z.of_nat (length y + 1)) by (unfold alen; lia); unfold raw; rewrite aget_at_nat, lookup_app_r by lia; by replace (length y + 1 - length y)%nat with 1%nat by lia).
  destruct (for_range_inv (fun j pa => (j = 0 -> pa = []) /\ j <= alen pa /\ (0 < j -> forall r, head raw = Some r -> head pa = Some (pose_at blank_pose (fst r) (snd r))) /\ (j = alen raw - 1 -> exists e, pa = e ++ [pose_at blank_pose (fst p) (snd p)] /\ alen raw - 2 <= alen e))
    (interpolate_segment hypot blank_pose raw dist) 0 (alen raw - 1) []) as (pa & E & _ & _ & Hhead & Hlast); [lia|split; [done|]; split; [done|]; split; intros; lia| |].
  - intros j t Hj (H0 & Hlen_t & Hh & _). destruct (aget_is_Some raw j) as [a Ha]; [lia|]. destruct (aget_is_Some raw (j + 1)) as [b Hb]; [lia|]. destruct (interpolate_segment_spec raw dist j t a b Ha Hb (Hall j a b Ha Hb)) as (more & E & Hmore). eexists. split; [exact E|].
    split; [intros; lia|]. split; [unfold alen in *; rewrite length_app; cbn [length]; lia|]. split.
    + intros _ r Hr. destruct (Z.eq_dec j 0) as [->|Hne].
      * rewrite (H0 eq_refl). destruct raw as [|r0 rs]; [done|]. cbn in Hr, Ha |- *. injection Hr as ->. by injection Ha as ->.
      * specialize (Hh ltac:(lia) r Hr). destruct t; [done|exact Hh].
    + intros Ej. assert (j = alen y) as -> by lia. rewrite Hp in Ha. injection Ha as <-. rewrite Hq in Hb. injection Hb as <-. rewrite (Hmore x Hx Hle). exists t. split; [done|lia].
  - destruct (Hlast eq_refl) as (e & He & Hle'). exists pa, e. unfold linearInterpolation. destruct raw as [|r0 rs] eqn:Eraw; [by destruct y|]. rewrite E. mred. split; [done|]. split; [done|]. split; [done|]. intros r. apply Hhead. lia.
Qed.

(** ** The last pose *)

Definition turned (e : PoseStamped) (q : Quaternion) : PoseStamped := mkPoseStamped (pose_header e) (mkPose (position (pose e)) q).

Lemma alen_snoc {A} (l : list A) x : alen (l ++ [x]) = alen l + 1.
Proof using Type. unfold alen. rewrite length_app. cbn. lia. Qed.

Lemma aget_end {A} (l : list A) x : aget (l ++ [x]) (alen l) = Some x.
Proof using Type. unfold alen. by rewrite aget_at_nat, lookup_app_r, Nat.sub_diag by lia. Qed.

Lemma with_last_orientation_spec l e q : with_last_orientation (l ++ [e]) q = Some (l ++ [turned e q]).
Proof using Type.
  unfold with_last_orientation. rewrite alen_snoc, Z.add_simpl_r, aget_end. mred. pose proof (alen_nonneg l). rewrite aset_Some by (rewrite alen_snoc; lia). unfold alen. by rewrite Nat2Z.id, <- (Nat.add_0_r (length l)), insert_app_r.
Qed.

(** The orientation of the last pose: that of the goal, or the direction in
    which the path arrives. *)
Definition last_orientation (p : ThetaStarPlanner) (goal : Quaternion) (approach lst : PoseStamped) : Quaternion :=
  if use_final_approach_orientation_ p then
    orientationAroundZAxis setRPY (atan2 (fsub (py (position (pose lst))) (py (position (pose approach)))) (fsub (px (position (pose lst))) (px (position (pose approach)))))
  else goal.

Lemma final_orientation_spec p start goal l a e : final_orientation atan2 setRPY p start goal (l ++ [a; e]) = Some (l ++ [a; turned e (last_orientation p (orientation (pose goal)) a e)]).
Proof using Type.
  replace (l ++ [a; e]) with ((l ++ [a]) ++ [e]) by by rewrite <- app_assoc. pose proof (alen_nonneg l). unfold final_orientation. cbv zeta. rewrite !alen_snoc. rewrite (proj2 (Z.ltb_lt 0 _)) by lia. rewrite with_last_orientation_spec. mred.
  unfold last_orientation. destruct (use_final_approach_orientation_ p); [|by rewrite <- app_assoc]. rewrite (proj2 (Z.eqb_neq _ 1)) by lia. rewrite (proj2 (Z.ltb_lt 1 _)) by lia.
  replace (alen l + 1 + 1 - 1) with (alen (l ++ [a])) by (rewrite alen_snoc; lia). replace (alen l + 1 + 1 - 2) with (alen l) by lia. rewrite aget_end. mred.
  rewrite (aget_app_l (l ++ [a])) by (rewrite length_app; cbn; unfold alen; lia). rewrite aget_end. mred. rewrite with_last_orientation_spec. by rewrite <- app_assoc.
Qed.

Lemma final_orientation_empty p start goal : final_orientation atan2 setRPY p start goal [] = Some [].
Proof using Type. unfold final_orientation. cbn. by destruct (use_final_approach_orientation_ p). Qed.

(** ** Plans *)

Definition centre (m : Costmap2D) (p : Z * Z) : coordsW := mapToWorld m (fst p) (snd p).

(** What is supposed of the distances between the centres of cells: a cell
    is not away from itself, and segments have a number of poses that fits. *)
Record interpolable (m : Costmap2D) : Prop := {
  ip_defined : forall u v, on_map m (fst u) (snd u) -> on_map m (fst v) (snd v) -> is_Some (segment_loops (resolution_ m) (centre m u) (centre m v));
  ip_same : forall u, on_map m (fst u) (snd u) -> exists n, segment_loops (resolution_ m) (centre m u) (centre m u) = Some n /\ n <= 1;
}.

Lemma cell_world_centre hyp s c p : plannable hyp s c -> on_map (ts_costmap_ s) (fst p) (snd p) -> cell_world s p = centre (ts_costmap_ s) p.
Proof using Type.
  intros Hpl [Hx Hy]. pose proof (small_map _ _ _ Hpl) as (Hw & Hh & _). unfold cell_world, centre. rewrite !u32_small by (unfold is_u32; lia). done.
Qed.

Definition pose_point (e : PoseStamped) : coordsW := (px (position (pose e)), py (position (pose e))).

Lemma pose_point_at p : pose_point (pose_at blank_pose (fst p) (snd p)) = p.
Proof using Type. by destruct p. Qed.

Lemma pose_point_turned e q : pose_point (turned e q) = pose_point e.
Proof using Type. done. Qed.

(** The path of a search, turned into poses. *)
Lemma plan_poses s c l : plannable hypot s c -> interpolable (ts_costmap_ s) -> sight_route s (src_ s :: l) -> last (src_ s :: l) = Some (dst_ s) -> src_ s <> dst_ s ->
  exists e prev, linearInterpolation hypot blank_pose ([] ++ (cell_world s <$> (src_ s :: l) ++ [dst_ s])) (resolution_ (ts_costmap_ s)) = Some (mkPath empty_header (e ++ [prev; pose_at blank_pose (fst (centre (ts_costmap_ s) (dst_ s))) (snd (centre (ts_costmap_ s) (dst_ s)))])) /\
    (exists first, head (e ++ [prev]) = Some first /\ pose_point first = centre (ts_costmap_ s) (src_ s)).
Proof using Type.
  intros Hpl Hip Hroute Hlast Hne. set (m := ts_costmap_ s) in *. pose proof (route_open s _ (po_src Hpl) Hroute) as Hopen. assert (Hfmap : cell_world s <$> (src_ s :: l) ++ [dst_ s] = centre m <$> (src_ s :: l) ++ [dst_ s]).
  { apply list_fmap_ext. intros i p Hp. apply (cell_world_centre hypot s c); [done|]. apply list_elem_of_lookup_2, elem_of_app in Hp as [Hp| ->%list_elem_of_singleton]; [|exact (po_dst Hpl)]. by destruct (proj1 (Forall_forall _ _) Hopen p Hp). }
  rewrite app_nil_l, Hfmap. clear Hfmap. assert (Hon : Forall (fun p => on_map m (fst p) (snd p)) ((src_ s :: l) ++ [dst_ s])) by (apply Forall_app; split; [eapply Forall_impl; [exact Hopen|by intros p []]|constructor; [exact (po_dst Hpl)|done]]).
  destruct l as [|x0 l0 _] using rev_ind; [by injection Hlast|]. rewrite app_comm_cons, last_snoc in Hlast. injection Hlast as ->.
  destruct (ip_same _ Hip (dst_ s) (po_dst Hpl)) as (n & En & Hn). set (raw := centre m <$> (src_ s :: l0 ++ [dst_ s]) ++ [dst_ s]) in *.
  assert (Eraw : raw = (centre m <$> src_ s :: l0) ++ [centre m (dst_ s); centre m (dst_ s)]) by (unfold raw; rewrite !app_comm_cons, !fmap_app, <- app_assoc; done).
  destruct (linearInterpolation_ends raw (resolution_ m) n (centre m <$> src_ s :: l0) (centre m (dst_ s)) (centre m (dst_ s))) with (2 := En) (3 := Hn) (4 := Eraw) as (pa & e & E & Epa & Hlen & Hhead).
  - intros j p q Hp Hq. unfold raw in Hp, Hq. rewrite aget_fmap in Hp, Hq. apply fmap_Some in Hp as (u & Hu & ->). apply fmap_Some in Hq as (v & Hv & ->). rewrite Forall_forall in Hon. apply (ip_defined _ Hip); apply Hon; by eapply aget_elem.
  - destruct e as [|prev e _] using rev_ind; [exfalso; rewrite Eraw in Hlen; unfold alen in Hlen; rewrite length_app in Hlen; cbn in Hlen; lia|]. exists e, prev. rewrite E, Epa. split; [by rewrite <- app_assoc|].
    specialize (Hhead (centre m (src_ s)) eq_refl). rewrite Epa in Hhead. eexists. split; [|apply pose_point_at]. destruct e as [|e0 e]; exact Hhead.
Qed.

Lemma createPlan_answers p c now gs gg start goal a b : let m := ts_costmap_ (planner_ p) in
  worldToMap m (px (position (pose start))) (py (position (pose start))) = Some (Some a) -> worldToMap m (px (position (pose goal))) (py (position (pose goal))) = Some (Some b) -> (loc_x a, loc_y a) <> (loc_x b, loc_y b) ->
  plannable hypot (set_ends (planner_ p) (loc_x a, loc_y a) (loc_x b, loc_y b)) c -> reusable (planner_ p) -> roomy (planner_ p) -> interpolable m ->
  exists n0, forall fuel, (n0 <= fuel)%nat -> exists path p', createPlan hypot atan2 setRPY blank_pose now fuel gs gg p start goal = Some (path, p') /\ reusable (planner_ p') /\ roomy (planner_ p') /\ path_header path = mkHeader now (global_frame_ p) /\
    (poses path = [] \/ exists e prev lst first, poses path = e ++ [prev; lst] /\ head (e ++ [prev]) = Some first /\ pose_point first = centre m (loc_x a, loc_y a) /\ pose_point lst = centre m (loc_x b, loc_y b) /\
       orientation (pose lst) = last_orientation p (orientation (pose goal)) prev lst).
Proof using heap_laws.
  intros m Ea Eb Hne Hpl Hru Hroom Hip. set (s := set_ends (planner_ p) (loc_x a, loc_y a) (loc_x b, loc_y b)) in *. pose proof (reusable_ends _ (loc_x a, loc_y a) (loc_x b, loc_y b) Hru) as Hru'. fold s in Hru'.
  destruct (generatePath_spec hypot s c [] Hpl Hru' Hroom) as (n0 & Hsearch). exists n0. intros fuel Hf. unfold createPlan. cbv zeta. cbn [fst snd]. fold m. rewrite Ea. mred. rewrite Eb. mred.
  destruct ((loc_x a =? loc_x b) && (loc_y a =? loc_y b)) eqn:Esame; [apply andb_true_iff in Esame as [E1%Z.eqb_eq E2%Z.eqb_eq]; by rewrite E1, E2 in Hne|].
  pose proof (small_map _ _ _ Hpl) as (Hw & Hh & _). change (ts_costmap_ s) with m in Hw, Hh. pose proof (worldToMap_in_grid _ _ _ _ Ea) as [Hax Hay]. pose proof (worldToMap_in_grid _ _ _ _ Eb) as [Hbx Hby].
  assert (Es : forall g1 g2, setStartAndGoal (planner_ p) (px (position (pose start)), py (position (pose start))) (px (position (pose goal)), py (position (pose goal))) g1 g2 = Some s).
  { intros g1 g2. unfold setStartAndGoal. cbn [fst snd]. fold m. rewrite Ea. mred. rewrite Eb. mred. by rewrite !s32_small by (unfold is_s32; lia). }
  rewrite Es. mred. unfold getPlan. cbn [planner_ with_planner]. unfold isUnsafeToPlan. destruct (po_src Hpl) as [_ Hsafe]. change (src_ s) with (loc_x a, loc_y a) in *. change (dst_ s) with (loc_x b, loc_y b) in *. cbn [fst snd] in *. rewrite Hsafe. mred. cbn [negb].
  destruct (cell_cost_on s c (po_map Hpl) _ _ (po_dst Hpl)) as (v & Ev & _). change (dst_ s) with (loc_x b, loc_y b) in Ev. cbn [fst snd] in Ev. assert (Hgoal : exists g, isSafe s (loc_x b) (loc_y b) = Some g) by (unfold isSafe; rewrite Ev; by eexists). destruct Hgoal as [g Hg]. rewrite Hg. mred.
  destruct g; cbn [negb].
  - destruct (Hsearch fuel Hf) as (found & path & s' & Eg & Hru2 & Hro2 & Hset & Hpath). rewrite Eg. mred. destruct found.
    + destruct Hpath as (l & -> & Hroute & Hlast). assert (Em : ts_costmap_ s' = m) by (change (ts_costmap_ (settings s') = ts_costmap_ (settings s)); by rewrite Hset). rewrite Em.
      destruct (plan_poses s c l Hpl Hip Hroute Hlast Hne) as (e & prev & Ei & first & Hfirst & Hpoint). change (src_ s) with (loc_x a, loc_y a) in Ei, Hpoint. change (dst_ s) with (loc_x b, loc_y b) in Ei. change (ts_costmap_ s) with m in Ei, Hpoint. rewrite Ei. mred. cbn [poses path_header]. rewrite final_orientation_spec. mred.
      eexists _, _. split; [done|]. split; [done|]. split; [done|]. split; [done|]. right. exists e, prev. eexists _, first. split; [done|]. split; [done|]. split; [done|]. rewrite pose_point_turned. split; [apply pose_point_at|done].
    + mred. cbn [poses path_header]. rewrite final_orientation_empty. mred. eexists _, _. split; [done|]. split; [done|]. split; [done|]. split; [done|]. by left.
  - mred. cbn [poses path_header]. rewrite final_orientation_empty. mred. eexists _, _. split; [done|]. split; [done|]. split; [done|]. split; [done|]. by left.
Qed.
End plans.

(** ** An example *)

Definition guarded_hypot (a b : spec_float) : spec_float :=
  let r := fsqrt (fadd (fmul a a) (fmul b b)) in if f64_nonneg (fmul f_one r) then r else f_zero.

(** A map with an obstacle on the way. *)
Definition theta_cells : list Z :=
  [0; 0; 0; 0; 0;
   0; 0; 0; 0; 0;
   0; 0; 254; 254; 0;
   0; 0; 0; 254; 0;
   0; 0; 0; 0; 0].
Definition theta_map : Costmap2D := mkCostmap2D 5 5 f_one f_zero f_zero (Some theta_cells) 0.
Definition theta_planner : ThetaStarPlanner := configure theta_map "planner"%string "map"%string 5 true f_one (f_of_Z 2) false.
Definition theta_ends : ThetaStar := set_ends (planner_ theta_planner) (1, 1) (4, 4).

Definition example_quaternion (w : Z) : Quaternion := mkQuaternion f_zero f_zero f_zero (f_of_Z w).
Definition example_pose (x y : spec_float) : PoseStamped := mkPoseStamped empty_header (mkPose (mkPoint x y f_zero) (example_quaternion 1)).
Definition start_pose : PoseStamped := example_pose (f_lit 3 (-1)) (f_lit 3 (-1)).
Definition goal_pose : PoseStamped := mkPoseStamped empty_header (mkPose (mkPoint (f_lit 9 (-1)) (f_lit 9 (-1)) f_zero) (example_quaternion 2)).
Definition example_now : Time := mkTime 7 0.


Lemma range_check (f : Z -> bool) n i : forallb f (seqZ 0 n) = true -> 0 <= i < n -> f i = true.
Proof. rewrite forallb_forall. intros H Hi. apply H, list_elem_of_In, elem_of_seqZ. lia. Qed.

Lemma guarded_hypot_nonneg a b : f64_nonneg (fmul f_one (guarded_hypot a b)) = true.
Proof. unfold guarded_hypot. cbv zeta. destruct (f64_nonneg (fmul f_one (fsqrt (fadd (fmul a a) (fmul b b))))) eqn:E; [exact E|by vm_compute]. Qed.

Lemma theta_traversal v : is_u8 v -> f64_nonneg (traversal theta_ends (scaled_cost v)) = true.
Proof. intros Hv. apply (range_check (fun v => f64_nonneg (traversal theta_ends (scaled_cost v))) 256 v); [by vm_compute|exact Hv]. Qed.

Lemma theta_row a : 0 <= a < 5 -> los_safe theta_ends a 0 = true.
Proof. apply (range_check (fun a => los_safe theta_ends a 0) 5 a). by vm_compute. Qed.

Lemma theta_map_wf : wf_map theta_map theta_cells.
Proof. constructor; vm_compute; intuition discriminate. Qed.

Lemma theta_plannable : plannable guarded_hypot theta_ends theta_cells.
Proof.
  constructor.
  - exact theta_map_wf.
  - unfold theta_cells. repeat (constructor; [unfold is_u8; lia|]). constructor.
  - vm_compute. intuition discriminate.
  - vm_compute. intuition discriminate.
  - split; [split; vm_compute; intuition discriminate|by vm_compute].
  - split; vm_compute; intuition discriminate.
  - intros x0 x1 a Hx0 Hx1 _ _ Ha. change (size_x_ (ts_costmap_ theta_ends)) with 5 in *. apply theta_row. lia.
  - by vm_compute.
  - intros dx dy _ _. apply guarded_hypot_nonneg.
  - intros dx dy _ _. apply guarded_hypot_nonneg.
  - exact theta_traversal.
  - by vm_compute.
Qed.

(** A planner that has not searched yet is ready for any map. *)
Lemma configure_ready costmap name frame corners unknown euc trav approach : 0 < size_x_ costmap * size_y_ costmap ->
  let s := planner_ (configure costmap name frame corners unknown euc trav approach) in reusable s /\ roomy s.
Proof.
  intros Ha s. split.
  - constructor; [cbn; lia| |done]. split; [done|]. intros i r _ Hr. by apply aget_elem, not_elem_of_nil in Hr.
  - right. split; [intros [= E1 E2]|exact Ha]. change (0 < size_x_ costmap * size_y_ costmap) in Ha. rewrite <- E1 in Ha. lia.
Qed.

Lemma theta_reusable : reusable (planner_ theta_planner).
Proof. by apply configure_ready. Qed.

Lemma theta_roomy : roomy theta_ends.
Proof. right. split; [done|]. vm_compute. done. Qed.

(** Every pair of centres. *)
Definition short_segment (ux uy vx vy : Z) : bool :=
  match segment_loops guarded_hypot f_one (centre theta_map (ux, uy)) (centre theta_map (vx, vy)) with
  | Some n => if (ux =? vx) && (uy =? vy) then n <=? 1 else true
  | None => false
  end.

Lemma theta_short ux uy vx vy : on_map theta_map ux uy -> on_map theta_map vx vy -> short_segment ux uy vx vy = true.
Proof.
  intros [Hux Huy] [Hvx Hvy]. apply (range_check (short_segment ux uy vx) 5 vy); [|exact Hvy]. apply (range_check (fun vx => forallb (short_segment ux uy vx) (seqZ 0 5)) 5 vx); [|exact Hvx].
  apply (range_check (fun uy => forallb (fun vx => forallb (short_segment ux uy vx) (seqZ 0 5)) (seqZ 0 5)) 5 uy); [|exact Huy].
  apply (range_check (fun ux => forallb (fun uy => forallb (fun vx => forallb (short_segment ux uy vx) (seqZ 0 5)) (seqZ 0 5)) (seqZ 0 5)) 5 ux); [by vm_compute|exact Hux].
Qed.

Lemma theta_interpolable : interpolable guarded_hypot theta_map.
Proof.
  constructor.
  - intros [ux uy] [vx vy] Hu Hv. pose proof (theta_short ux uy vx vy Hu Hv) as E. unfold short_segment in E. change (resolution_ theta_map) with f_one. destruct (segment_loops _ _ _ _); [by eexists|done].
  - intros [ux uy] Hu. pose proof (theta_short ux uy ux uy Hu Hu) as E. unfold short_segment in E. change (resolution_ theta_map) with f_one. destruct (segment_loops _ _ _ _) as [n|]; [|done]. rewrite !Z.eqb_refl in E. exists n. split; [done|by apply Z.leb_le in E].
Qed.

(** ** Theorems *)




Definition example_atan2 (y x : spec_float) : spec_float := fdiv y x.
Definition example_setRPY (r p y : spec_float) : Quaternion := mkQuaternion r p y f_one.


(** The cells of the poses, with their costs. *)
Definition pose_cells (m : Costmap2D) (l : list PoseStamped) : list (option (Z * Z * option Z)) :=
  (fun e => loc ← mjoin (worldToMap m (px (position (pose e))) (py (position (pose e)))); Some (loc_x loc, loc_y loc, Costmap2D.getCost m (loc_x loc) (loc_y loc))) <$> l.

Definition example_plan (p : ThetaStarPlanner) (start goal : PoseStamped) : option (Path * ThetaStarPlanner) :=
  createPlan guarded_hypot example_atan2 example_setRPY start_pose example_now 60 (0, 0) (0, 0) p start goal.

Example theta_plan : (r ← example_plan theta_planner start_pose goal_pose; Some (pose_cells theta_map (poses (fst r)), (fun e => orientation (pose e)) <$> last (poses (fst r)))) =
  Some ([Some (1, 1, Some 0); Some (1, 2, Some 0); Some (2, 3, Some 0); Some (3, 4, Some 0); Some (4, 4, Some 0)], Some (orientation (pose goal_pose))).
Proof. vm_compute. reflexivity. Qed.

(** ** What the code does not mean to do *)

Definition planner_on (m : Costmap2D) : ThetaStarPlanner := configure m "planner"%string "map"%string 8 true f_one (f_of_Z 2) false.
Definition pose_in (x y : Z) : PoseStamped := example_pose (fadd (f_of_Z x) f_half) (fadd (f_of_Z y) f_half).

(** The line of sight is that of the lower left corners of the cells, the
    path that of their centres: a plan can have a pose in an obstacle. *)
Definition obstacle_map : Costmap2D := mkCostmap2D 6 4 f_one f_zero f_zero
  (Some [254; 254; 254; 254; 254; 254;  254; 0; 0; 0; 0; 0;  254; 0; 254; 254; 0; 0;  254; 254; 254; 254; 254; 254]) 0.

Theorem plan_through_obstacle : (r ← example_plan (planner_on obstacle_map) (pose_in 1 2) (pose_in 5 2); Some (pose_cells obstacle_map (poses (fst r)))) =
  Some [Some (1, 2, Some 0); Some (2, 2, Some 254); Some (3, 1, Some 0); Some (4, 1, Some 0); Some (5, 2, Some 0)].
Proof. vm_compute. reflexivity. Qed.

(** The search gives up when the goal was the last node of the queue. *)
Definition corridor_map : Costmap2D := mkCostmap2D 3 2 f_one f_zero f_zero (Some [254; 254; 254;  254; 0; 0]) 0.

Theorem goal_popped_last : (r ← example_plan (planner_on corridor_map) (pose_in 1 1) (pose_in 2 1); Some (poses (fst r))) = Some [].
Proof. vm_compute. reflexivity. Qed.

(** A parameter can be set to more corners than there are moves. *)
Theorem corners_unchecked {heap : OpenList} hypot s X : 8 < how_many_corners_ s -> setNeighbors hypot s X = None.
Proof.
  intros Hc. unfold setNeighbors. destruct (for_range 0 (how_many_corners_ s) (set_neighbor hypot X) s) as [s'|] eqn:E; [|done]. exfalso.
  assert (H : how_many_corners_ s <= 8); [|lia]. apply (for_range_post (fun i _ => i <= 8) (set_neighbor hypot X) 0 (how_many_corners_ s) s s'); [lia|exact E|lia|].
  intros i t t' Hi Hle Ht. assert (i <> 8); [|lia]. intros ->. discriminate Ht.
Qed.

Lemma corners_unchecked_witness : 8 < how_many_corners_ (planner_ (fst (dynamicParametersCallback theta_planner [IntegerParameter "planner.how_many_corners"%string 9]))) /\
  setNeighbors guarded_hypot (planner_ (fst (dynamicParametersCallback theta_planner [IntegerParameter "planner.how_many_corners"%string 9]))) 0 = None.
Proof. split; [by vm_compute|]. apply corners_unchecked. by vm_compute. Defined.
