(* ===== verification/RouteTypes.v ===== *)
(** The data of the route server (nav2_route/types.hpp): the graph of nodes and
    directed edges, and the search state kept in it. A node pointer is an index
    in the vector of nodes and an edge pointer an index in the vector of a
    node's edges; the null pointer is [None]. [Any] is [std::any]. *)

From stdpp Require Import gmap strings.
From S2P Require Import Prelude Floats.

Abbreviation NodePtr := Z (only parsing).
Abbreviation EdgePtr := (Z * Z)%type (only parsing).

(** ** The structures *)

Section types.
Context {Any : Type}.

Record Metadata := mkMetadata { meta_data : gmap string Any }.

(** [any_cast] throws when the value has another type. *)
Definition getValue {T} (any_cast : Any -> option T) (m : Metadata) (key : string) (default_val : T) : option T :=
  match meta_data m !! key with
  | None => Some default_val
  | Some a => any_cast a
  end.

Definition setValue {T} (to_any : T -> Any) (m : Metadata) (key : string) (value : T) : Metadata :=
  mkMetadata (<[key := to_any value]> (meta_data m)).

Record EdgeCost := mkEdgeCost { cost : spec_float; overridable : bool }.

Inductive OperationTrigger := OP_NODE | OP_ON_ENTER | OP_ON_EXIT.

Record Operation := mkOperation { op_type : string; op_trigger : OperationTrigger; op_metadata : Metadata }.

Record DirectionalEdge := mkEdge {
  edgeid : Z;
  e_start : option NodePtr;
  e_end : option NodePtr;
  edge_cost : EdgeCost;
  e_metadata : Metadata;
  e_operations : list Operation;
}.

Record SearchState := mkSearch {
  parent_edge : option EdgePtr;
  integrated_cost : spec_float;
  search_traversal_cost : spec_float;
}.

Record Coordinates := mkCoordinates { frame_id : string; coord_x : spec_float; coord_y : spec_float }.

Record Node := mkNode {
  nodeid : Z;
  coords : Coordinates;
  neighbors : list DirectionalEdge;
  n_metadata : Metadata;
  n_operations : list Operation;
  search_state : SearchState;
}.

Definition Graph : Type := list Node.

(** [std::numeric_limits<float>::max()] *)
Definition float_max : spec_float := S754_finite false 16777215 104.

Definition search_reset : SearchState := mkSearch None float_max float_max.

Definition set_search (n : Node) (s : SearchState) : Node :=
  mkNode (nodeid n) (coords n) (neighbors n) (n_metadata n) (n_operations n) s.

(** [addEdge] on the node [this]. *)
Definition addEdge (g : Graph) (this : NodePtr) (c : EdgeCost) (node : option NodePtr) (id : Z) (m : Metadata) (ops : list Operation) : option Graph :=
  n ← aget g this;
  aset g this (mkNode (nodeid n) (coords n) (neighbors n ++ [mkEdge id (Some this) node c m ops]) (n_metadata n) (n_operations n) (search_state n)).

(** Dereferences. *)
Definition edge_at (g : Graph) (e : EdgePtr) : option DirectionalEdge := n ← aget g (fst e); aget (neighbors n) (snd e).

Record Route := mkRoute { start_node : NodePtr; edges : list EdgePtr; route_cost : spec_float }.

Inductive EdgeType := EDGE_NONE | EDGE_START | EDGE_END.

(** ** Typing *)

(** Every edge starts at the node that holds it and ends at a node. *)
Definition graph_ok (g : Graph) : Prop :=
  forall i n j e, aget g i = Some n -> aget (neighbors n) j = Some e ->
    e_start e = Some i /\ exists v, e_end e = Some v /\ 0 <= v < alen g.

Lemma edge_at_ok g i j e : graph_ok g -> edge_at g (i, j) = Some e ->
  e_start e = Some i /\ 0 <= i < alen g /\ exists v, e_end e = Some v /\ 0 <= v < alen g.
Proof.
  intros Hg H. unfold edge_at in H. cbn [fst snd] in H. destruct (aget g i) as [n|] eqn:En; [|done]. cbn in H.
  destruct (Hg i n j e En H) as (Hs & v & Hv & Hr). split; [done|]. split; [exact (aget_bounds g i n En)|by exists v].
Qed.

(** C35. Adding an edge between two nodes of the graph keeps the graph well typed. *)
Theorem addEdge_well_typed g this c v id m ops : graph_ok g -> 0 <= this < alen g -> 0 <= v < alen g ->
  exists g', addEdge g this c (Some v) id m ops = Some g' /\ graph_ok g' /\ alen g' = alen g.
Proof.
  intros Hg Ht Hv. unfold addEdge. destruct (aget_is_Some g this Ht) as [n En]. rewrite En. mred. set (n' := mkNode _ _ _ _ _ _). assert (Ea : aset g this n' = Some (<[Z.to_nat this := n']> g)) by (by apply aset_Some).
  pose proof (aset_len _ _ _ _ Ea) as Hl. exists (<[Z.to_nat this := n']> g). split; [done|]. split; [|exact Hl]. intros i k j e Ek Ej. rewrite Hl. rewrite (aget_aset _ _ _ _ i Ea) in Ek.
  destruct (Z.eqb_spec this i) as [<-|Hi]; [|by apply (Hg i k j e)]. injection Ek as <-. subst n'. cbn [neighbors] in Ej.
  apply aget_snoc in Ej as [Ej|[-> ->]]; [by apply (Hg this n j e)|]. split; [done|]. by exists v.
Qed.
End types.

#[global] Arguments Metadata : clear implicits.
#[global] Arguments Operation : clear implicits.
#[global] Arguments DirectionalEdge : clear implicits.
#[global] Arguments Node : clear implicits.
#[global] Arguments Graph : clear implicits.

Lemma addEdge_well_typed_witness :
  exists g', addEdge (Any := unit) [mkNode 1 (mkCoordinates "map" f_zero f_zero) [] (mkMetadata ∅) [] search_reset] 0 (mkEdgeCost f_zero true) (Some 0) 7 (mkMetadata ∅) [] = Some g' /\
    graph_ok g'.
Proof.
  destruct (addEdge_well_typed (Any := unit) [mkNode 1 (mkCoordinates "map" f_zero f_zero) [] (mkMetadata ∅) [] search_reset] 0 (mkEdgeCost f_zero true) 0 7 (mkMetadata ∅) []) as (g' & E & Hg & _).
  - intros i n j e Hn He. pose proof (aget_bounds _ _ _ Hn) as B. unfold alen in B. cbn in B. assert (i = 0) as -> by lia.
    injection Hn as <-. apply aget_bounds in He. unfold alen in He. cbn in He. lia.
  - unfold alen. cbn. lia.
  - unfold alen. cbn. lia.
  - exists g'. split; [exact E|exact Hg].
Defined.
