(* ===== verification/RoutePlanner.v ===== *)
(** The route planner (nav2_route/route_planner.cpp, edge_scorer.cpp): Dijkstra's
    algorithm over the graph of RouteTypes.v with costs on 32 bits. The scoring
    plugins and the priority queue of the standard library are interfaces. *)

From S2P Require Import Prelude Floats FloatOrder PriorityQueue RouteTypes.

(** ** Interfaces *)

(** What a call returns, or the exception it throws; [PluginException] is
    whatever a plugin throws. *)
Inductive exception := NoValidGraph | NoValidRouteCouldBeFound | TimedOut | OutOfRange | PluginException.

Inductive outcome (A : Type) := Value (a : A) | Throw (e : exception).
#[global] Arguments Value {A} _.
#[global] Arguments Throw {A} _.

(** A scoring plugin ([interfaces/edge_cost_function.hpp]) with its own state
    [P]. [score] answers whether the edge may be used, and its cost; [None] is
    an exception. *)
Class EdgeCostFunction (Any Request P : Type) := {
  prepare : P -> P * option unit;
  score : P -> Graph Any -> EdgePtr -> Request -> EdgeType -> P * option (bool * spec_float);
}.

Abbreviation NodeElement := (spec_float * NodePtr)%type (only parsing).

Definition NodeComparator (a b : NodeElement) : bool := fgt (fst a) (fst b).

(** ** The code *)

Section planner.
Context {Any Request P : Type} `{EdgeCostFunction Any Request P} `{Q : PriorityQueue NodeElement}.

Record RoutePlanner := mkPlanner {
  max_iterations : Z;
  start_id : Z;
  goal_id : Z;
  queue_ : queue;
  plugins : list P;
}.

(** The planner and the graph it is given. *)
Record Search := mkState { planner : RoutePlanner; graph : Graph Any }.

Definition set_queue (r : RoutePlanner) (q : queue) : RoutePlanner := mkPlanner (max_iterations r) (start_id r) (goal_id r) q (plugins r).
Definition set_ids (r : RoutePlanner) (s g : Z) : RoutePlanner := mkPlanner (max_iterations r) s g (queue_ r) (plugins r).
Definition set_plugins (r : RoutePlanner) (ps : list P) : RoutePlanner := mkPlanner (max_iterations r) (start_id r) (goal_id r) (queue_ r) ps.
Definition set_graph (s : Search) (g : Graph Any) : Search := mkState (planner s) g.
Definition set_planner (s : Search) (r : RoutePlanner) : Search := mkState r (graph s).

(** [configure], given the value of the parameter. *)
Definition configured_iterations (parameter : Z) : Z := if parameter <=? 0 then 2 ^ 31 - 1 else parameter.

(** *** The scorer *)

Fixpoint prepare_all (ps : list P) : list P * outcome unit :=
  match ps with
  | [] => ([], Value tt)
  | p :: ps =>
      match prepare p with
      | (p, None) => (p :: ps, Throw PluginException)
      | (p, Some _) => let '(ps, r) := prepare_all ps in (p :: ps, r)
      end
  end.

Fixpoint score_all (g : Graph Any) (e : EdgePtr) (req : Request) (type : EdgeType) (total : spec_float) (ps : list P) : list P * outcome (bool * spec_float) :=
  match ps with
  | [] => ([], Value (true, total))
  | p :: ps =>
      match score p g e req type with
      | (p, None) => (p :: ps, Throw PluginException)
      | (p, Some (true, curr_score)) => let '(ps, r) := score_all g e req type (sadd total curr_score) ps in (p :: ps, r)
      | (p, Some (false, _)) => (p :: ps, Value (false, total))
      end
  end.

(** [EdgeScorer::score] *)
Definition score_edge (ps : list P) (g : Graph Any) (e : EdgePtr) (req : Request) (type : EdgeType) : list P * outcome (bool * spec_float) :=
  match prepare_all ps with
  | (ps, Throw x) => (ps, Throw x)
  | (ps, Value _) => score_all g e req type (S754_zero false) ps
  end.

Definition numPlugins (r : RoutePlanner) : Z := alen (plugins r).

(** *** The planner *)

Definition isGoal (r : RoutePlanner) (n : Node Any) : bool := nodeid n =? goal_id r.
Definition isStart (r : RoutePlanner) (n : Node Any) : bool := nodeid n =? start_id r.
Definition clearQueue (r : RoutePlanner) : RoutePlanner := set_queue r queue_empty.
Definition addNode (cost : spec_float) (node : NodePtr) (r : RoutePlanner) : RoutePlanner := set_queue r (emplace (cost, node) (queue_ r)).

(** [getNextNode]; the queue is not empty. *)
Definition getNextNode (r : RoutePlanner) : option (NodeElement * RoutePlanner) :=
  '(a, q) ← pop (queue_ r); Some (a, set_queue r q).

Definition deref (g : Graph Any) (p : option NodePtr) : option (Node Any) := v ← p; aget g v.

Definition classifyEdge (r : RoutePlanner) (g : Graph Any) (edge : DirectionalEdge Any) : option EdgeType :=
  s ← deref g (e_start edge);
  if isStart r s then Some EDGE_START
  else t ← deref g (e_end edge); Some (if isGoal r t then EDGE_END else EDGE_NONE).

(** The search for a blocked identifier. *)
Fixpoint is_blocked (g : Graph Any) (edge : DirectionalEdge Any) (blocked_ids : list Z) : option bool :=
  match blocked_ids with
  | [] => Some false
  | id :: ids =>
      if id =? edgeid edge then Some true
      else t ← deref g (e_end edge); if id =? nodeid t then Some true else is_blocked g edge ids
  end.

(** The cost, when the edge may be used. *)
Definition getTraversalCost (r : RoutePlanner) (g : Graph Any) (e : EdgePtr) (blocked_ids : list Z) (req : Request) :
    option (RoutePlanner * outcome (option spec_float)) :=
  edge ← edge_at g e;
  b ← is_blocked g edge blocked_ids;
  if (b : bool) then Some (r, Value None)
  else if negb (overridable (edge_cost edge)) || (numPlugins r =? 0) then
    if fle (cost (edge_cost edge)) (S754_zero false) then Some (r, Throw NoValidGraph)
    else Some (r, Value (Some (cost (edge_cost edge))))
  else
    type ← classifyEdge r g edge;
    match score_edge (plugins r) g e req type with
    | (ps, Throw x) => Some (set_plugins r ps, Throw x)
    | (ps, Value (ok, total)) => Some (set_plugins r ps, Value (if (ok : bool) then Some total else None))
    end.

Definition update_search (g : Graph Any) (v : NodePtr) (f : SearchState -> SearchState) : option (Graph Any) :=
  n ← aget g v; aset g v (set_search n (f (search_state n))).

Definition resetSearchStates (g : Graph Any) : option (Graph Any) :=
  for_range 0 (alen g) (fun i g => update_search g i (fun _ => search_reset)) g.

(** One round of the loop over the edges of a node. *)
Definition relax (s : Search) (curr_cost : spec_float) (e : EdgePtr) (blocked_ids : list Z) (req : Request) : option (Search * outcome unit) :=
  '(r, c) ← getTraversalCost (planner s) (graph s) e blocked_ids req;
  let s := set_planner s r in
  match c with
  | Throw x => Some (s, Throw x)
  | Value None => Some (s, Value tt)
  | Value (Some traversal_cost) =>
      edge ← edge_at (graph s) e;
      neighbor ← e_end edge;
      n ← aget (graph s) neighbor;
      let potential_cost := sadd curr_cost traversal_cost in
      if flt potential_cost (integrated_cost (search_state n)) then
        g ← update_search (graph s) neighbor (fun _ => mkSearch (Some e) potential_cost traversal_cost);
        Some (mkState (addNode potential_cost neighbor (planner s)) g, Value tt)
      else Some (s, Value tt)
  end.

Fixpoint expand (n : nat) (edge_num : Z) (s : Search) (curr_cost : spec_float) (node : NodePtr) (blocked_ids : list Z) (req : Request) : option (Search * outcome unit) :=
  match n with
  | O => Some (s, Value tt)
  | S n =>
      '(s, o) ← relax s curr_cost (node, edge_num) blocked_ids req;
      match o with
      | Throw x => Some (s, Throw x)
      | Value _ => expand n (edge_num + 1) s curr_cost node blocked_ids req
      end
  end.

(** The main loop, with the number of its rounds; it ends with the outcome of
    the function when the function is left from inside. *)
Definition Round : Type := Search * Z * option (outcome unit).

Definition search_round (blocked_ids : list Z) (req : Request) (l : Round) : option (ctl Round) :=
  let '(s, iterations, _) := l in
  match pop (queue_ (planner s)) with
  | None => Some (Break (s, iterations, None))
  | Some _ =>
      if negb (iterations <? max_iterations (planner s)) then Some (Break (s, iterations, None))
      else
        let iterations := iterations + 1 in
        '((curr_cost, node), r) ← getNextNode (planner s);
        let s := set_planner s r in
        n ← aget (graph s) node;
        if negb (feq curr_cost (integrated_cost (search_state n))) then Some (Next (s, iterations, None))
        else if isGoal (planner s) n then Some (Break (set_planner s (clearQueue (planner s)), iterations, Some (Value tt)))
        else
          '(s, o) ← expand (length (neighbors n)) 0 s curr_cost node blocked_ids req;
          match o with
          | Throw x => Some (Break (s, iterations, Some (Throw x)))
          | Value _ => Some (Next (s, iterations, None))
          end
  end.

Definition findShortestGraphTraversal (s : Search) (start_node goal_node : NodePtr) (blocked_ids : list Z) (req : Request) : option (Search * outcome unit) :=
  g ← resetSearchStates (graph s);
  start ← aget g start_node;
  goal ← aget g goal_node;
  g ← update_search g start_node (fun st => mkSearch (parent_edge st) (S754_zero false) (search_traversal_cost st));
  let s := mkState (addNode (S754_zero false) start_node (set_ids (planner s) (nodeid start) (nodeid goal))) g in
  '(s, iterations, returned) ← loop (S (Z.to_nat (max_iterations (planner s)))) (search_round blocked_ids req) (s, 0, None);
  match returned with
  | Some o => Some (s, o)
  | None =>
      if iterations =? max_iterations (planner s) then Some (set_planner s (clearQueue (planner s)), Throw TimedOut)
      else Some (s, Value tt)
  end.

(** One round of the walk back from the goal; [parent_edge] is a reference to
    the field of the goal, which the walk overwrites. *)
Definition walk_round (goal_index : NodePtr) (w : Graph Any * list EdgePtr) : option (ctl (Graph Any * list EdgePtr)) :=
  let '(g, found) := w in
  goal ← aget g goal_index;
  match parent_edge (search_state goal) with
  | None => Some (Break (g, found))
  | Some e =>
      edge ← edge_at g e;
      n ← deref g (e_start edge);
      g ← update_search g goal_index (fun st => mkSearch (parent_edge (search_state n)) (integrated_cost st) (search_traversal_cost st));
      Some (Next (g, found ++ [e]))
  end.

Definition findRoute (s : Search) (start_index goal_index : Z) (blocked_ids : list Z) (req : Request) : option (Search * outcome Route) :=
  if alen (graph s) =? 0 then Some (s, Throw NoValidGraph)
  else if negb (in_array (graph s) start_index) || negb (in_array (graph s) goal_index) then Some (s, Throw OutOfRange)
  else
    '(s, o) ← findShortestGraphTraversal s start_index goal_index blocked_ids req;
    match o with
    | Throw x => Some (s, Throw x)
    | Value _ =>
        goal ← aget (graph s) goal_index;
        match parent_edge (search_state goal) with
        | None => Some (s, Throw NoValidRouteCouldBeFound)
        | Some _ =>
            '(g, found) ← loop (S (S (length (graph s)))) (walk_round goal_index) (graph s, []);
            goal ← aget g goal_index;
            Some (set_graph s g, Value (mkRoute start_index (reverse found) (integrated_cost (search_state goal))))
        end
    end.
End planner.
#[global] Arguments RoutePlanner P {Q}.
#[global] Arguments Search Any P {Q}.

(** ** A queue *)

#[export] Instance node_queue : PriorityQueue NodeElement := list_queue NodeComparator.

#[export] Instance node_queue_laws : PriorityQueueLaws node_queue NodeComparator (fun a => is_nan (fst a) = false).
Proof.
  apply list_queue_ok; unfold NodeComparator, fgt.
  - intros a b _ _. apply flt_asym.
  - intros a b c Ha Hb Hc Hab Hbc. apply not_true_iff_false. intros Hca.
    assert (Hle : fle (fst a) (fst b) = true) by (rewrite fle_flt by done; unfold flt; by rewrite Hab).
    pose proof (flt_le_trans _ _ _ Hca Hle Hb) as Hcb. unfold flt in Hcb. by rewrite Hcb in Hbc.
Qed.

(** ** The graph under the search *)

Section graphs.
Context {Any : Type}.
Implicit Types (g : Graph Any) (v i : Z).

(** The graph without its search states. *)
Definition strip (n : Node Any) : Node Any := set_search n search_reset.
Definition skeleton (g : Graph Any) : Graph Any := strip <$> g.

Definition st (g : Graph Any) (v : NodePtr) : SearchState := match aget g v with Some n => search_state n | None => search_reset end.

Lemma skeleton_node g g' i n : skeleton g = skeleton g' -> aget g i = Some n -> exists n', aget g' i = Some n' /\ strip n' = strip n.
Proof.
  intros E Hn. pose proof (aget_fmap strip g i) as H. fold (skeleton g) in H. rewrite E in H. unfold skeleton in H. rewrite aget_fmap, Hn in H.
  destruct (aget g' i) as [n'|]; [|done]. exists n'. split; [done|]. by apply (inj Some) in H.
Qed.

Lemma skeleton_len g g' : skeleton g = skeleton g' -> alen g = alen g'.
Proof. intros E. unfold alen. apply (f_equal length) in E. unfold skeleton in E. rewrite !length_fmap in E. by rewrite E. Qed.

Lemma skeleton_edge g g' e edge : skeleton g = skeleton g' -> edge_at g e = Some edge -> edge_at g' e = Some edge.
Proof.
  intros E. unfold edge_at. destruct (aget g (fst e)) as [n|] eqn:En; [|done]. cbn. intros He.
  destruct (skeleton_node g g' (fst e) n E En) as (n' & -> & Hs). cbn. by injection Hs as _ _ ->.
Qed.

Lemma skeleton_ok g g' : skeleton g = skeleton g' -> graph_ok g -> graph_ok g'.
Proof.
  intros E Hg i n' j e Hn He. symmetry in E. destruct (skeleton_node g' g i n' E Hn) as (n & Hn' & Hs). rewrite (skeleton_len g' g E).
  apply (Hg i n j e Hn'). by injection Hs as _ _ ->.
Qed.

Lemma update_search_spec g v f : 0 <= v < alen g ->
  exists g', update_search g v f = Some g' /\ skeleton g' = skeleton g /\ forall i, st g' i = if v =? i then f (st g v) else st g i.
Proof.
  intros Hv. unfold update_search. destruct (aget_is_Some g v Hv) as [n En]. rewrite En. mred. set (n' := set_search _ _).
  assert (Ea : aset g v n' = Some (<[Z.to_nat v := n']> g)) by (by apply aset_Some). exists (<[Z.to_nat v := n']> g). split; [done|]. split.
  - transitivity (<[Z.to_nat v := strip n']> (strip <$> g)); [exact (list_fmap_insert strip g (Z.to_nat v) n')|]. apply list_insert_id. etrans; [exact (list_lookup_fmap strip g (Z.to_nat v))|].
    unfold aget in En. rewrite (proj2 (in_array_spec g v) Hv) in En. etrans; [exact (f_equal (fmap strip) En)|]. by destruct n.
  - intros i. unfold st. rewrite (aget_aset _ _ _ _ i Ea), En. by destruct (v =? i).
Qed.

Lemma update_search_id g v f g' : update_search g v f = Some g' -> f (st g v) = st g v -> forall i, st g' i = st g i.
Proof.
  unfold update_search. destruct (aget g v) as [n|] eqn:En; [|done]. cbn. destruct (update_search_spec g v f (aget_bounds _ _ _ En)) as (g1 & E & _ & Hs).
  unfold update_search in E. rewrite En in E. cbn in E. rewrite E. intros [= <-] Hf i. rewrite Hs, Hf. by destruct (Z.eqb_spec v i) as [->|].
Qed.

Lemma resetSearchStates_spec g : exists g', resetSearchStates g = Some g' /\ skeleton g' = skeleton g /\ forall i, st g' i = search_reset.
Proof.
  unfold resetSearchStates. pose proof (alen_nonneg g) as Hn.
  destruct (for_range_inv (fun i g' => skeleton g' = skeleton g /\ forall k, 0 <= k < i -> st g' k = search_reset)
    (fun i g => update_search g i (fun _ => search_reset)) 0 (alen g) g) as (g' & E & Hs & Hr).
  - lia.
  - split; [done|lia].
  - intros i g1 Hi [Hs Hr]. rewrite <- (skeleton_len _ _ Hs) in Hi. destruct (update_search_spec g1 i (fun _ => search_reset) Hi) as (g2 & -> & Hs2 & H2).
    exists g2. split; [done|]. split; [congruence|]. intros k Hk. rewrite H2. destruct (Z.eqb_spec i k) as [->|]; [done|]. apply Hr. lia.
  - exists g'. split; [done|]. split; [done|]. intros i. destruct (decide (0 <= i < alen g)); [by apply Hr|].
    unfold st. destruct (aget g' i) as [n0|] eqn:En; [|done]. pose proof (aget_bounds _ _ _ En). pose proof (skeleton_len _ _ Hs). lia.
Qed.
End graphs.

(** ** One edge *)

Section steps.
Context {Any Request P : Type} `{EdgeCostFunction Any Request P} `{Q : PriorityQueue NodeElement}
  {QL : PriorityQueueLaws Q NodeComparator (fun a => is_nan (fst a) = false)}.
Context (blocked_ids : list Z) (req : Request).
Implicit Types (g : Graph Any) (r : RoutePlanner P) (s : Search Any P).

(** The call changed the plugins only. *)
Definition same_but_plugins (r r' : RoutePlanner P) : Prop := set_plugins r' (plugins r) = r.

Lemma same_but_plugins_fields r r' : same_but_plugins r r' ->
  max_iterations r' = max_iterations r /\ start_id r' = start_id r /\ goal_id r' = goal_id r /\ queue_ r' = queue_ r.
Proof. unfold same_but_plugins. intros <-. done. Qed.

(** The exceptions the search of a cost may throw. *)
Definition cost_outcome {A} (o : outcome A) : Prop := match o with Value _ | Throw NoValidGraph | Throw PluginException => True | _ => False end.

Lemma prepare_all_outcome ps : cost_outcome (snd (prepare_all ps)).
Proof.
  induction ps as [|p ps IH]; cbn [prepare_all]; [done|]. destruct (prepare p) as [p' [u|]]; [|done]. by destruct (prepare_all ps).
Qed.

Lemma score_edge_outcome ps g e t : cost_outcome (snd (score_edge ps g e req t)).
Proof.
  unfold score_edge. pose proof (prepare_all_outcome ps) as Hp. destruct (prepare_all ps) as [ps' [u|x]]; [|done].
  generalize (S754_zero false). clear Hp. induction ps' as [|p ps' IH]; intros total; cbn [score_all]; [done|].
  destruct (score p g e req t) as [p' [[[] c]|]]; [|done..]. specialize (IH (sadd total c)). by destruct (score_all _ _ _ _ _ ps').
Qed.

Lemma deref_node g (v : NodePtr) : 0 <= v < alen g -> exists n, deref g (Some v) = Some n.
Proof. apply aget_is_Some. Qed.

Lemma is_blocked_defined g edge v : e_end edge = Some v -> 0 <= v < alen g -> exists b, is_blocked g edge blocked_ids = Some b.
Proof.
  intros Ev Hv. destruct (deref_node g v Hv) as [n En]. induction blocked_ids as [|id ids [b IH]]; cbn [is_blocked]; [by exists false|].
  destruct (id =? edgeid edge); [by exists true|]. rewrite Ev, En. mred. destruct (id =? nodeid n); [by exists true|by exists b].
Qed.

Lemma classifyEdge_defined r g (i : NodePtr) j edge : graph_ok g -> edge_at g (i, j) = Some edge -> exists t, classifyEdge r g edge = Some t.
Proof.
  intros Hg He. destruct (edge_at_ok g i j edge Hg He) as (Es & Hi & v & Ev & Hv). unfold classifyEdge. rewrite Es, Ev.
  destruct (deref_node g i Hi) as [n ->]. destruct (deref_node g v Hv) as [m ->]. mred. destruct (isStart r n); by eexists.
Qed.

Lemma getTraversalCost_defined r g i j edge : graph_ok g -> edge_at g (i, j) = Some edge ->
  exists r' o, getTraversalCost r g (i, j) blocked_ids req = Some (r', o) /\ same_but_plugins r r' /\ cost_outcome o.
Proof.
  intros Hg He. destruct (edge_at_ok g i j edge Hg He) as (_ & _ & v & Ev & Hv). unfold getTraversalCost. rewrite He. mred.
  destruct (is_blocked_defined g edge v Ev Hv) as [b ->]. mred. assert (Hrefl : same_but_plugins r r) by (by destruct r).
  destruct b; [by eexists _, _|]. destruct (_ || _); [destruct (fle _ _); by eexists _, _|].
  destruct (classifyEdge_defined r g i j edge Hg He) as [t ->]. mred.
  pose proof (score_edge_outcome (plugins r) g (i, j) t) as Ho. destruct (score_edge _ _ _ _ _) as [ps [[ok total]|x]];
    eexists _, _; (split; [done|]); unfold same_but_plugins; (split; [by destruct r|done]).
Qed.

(** What one round of the loop over the edges does. *)
Lemma relax_spec s c i j edge : graph_ok (graph s) -> edge_at (graph s) (i, j) = Some edge ->
  exists v r' o, e_end edge = Some v /\ 0 <= v < alen (graph s) /\
    getTraversalCost (planner s) (graph s) (i, j) blocked_ids req = Some (r', o) /\ same_but_plugins (planner s) r' /\ cost_outcome o /\
    match o with
    | Throw x => relax s c (i, j) blocked_ids req = Some (set_planner s r', Throw x)
    | Value None => relax s c (i, j) blocked_ids req = Some (set_planner s r', Value tt)
    | Value (Some t) =>
        if flt (sadd c t) (integrated_cost (st (graph s) v)) then
          exists g', relax s c (i, j) blocked_ids req = Some (mkState (addNode (sadd c t) v r') g', Value tt) /\
            skeleton g' = skeleton (graph s) /\ forall k, st g' k = if v =? k then mkSearch (Some (i, j)) (sadd c t) t else st (graph s) k
        else relax s c (i, j) blocked_ids req = Some (set_planner s r', Value tt)
    end.
Proof.
  intros Hg He. destruct (edge_at_ok _ i j edge Hg He) as (_ & _ & v & Ev & Hv).
  destruct (getTraversalCost_defined (planner s) (graph s) i j edge Hg He) as (r' & o & Eo & Hr & Ho). exists v, r', o. split_and!; try done; try lia.
  unfold relax. rewrite Eo. mred. destruct o as [[t|]|x]; [|done..]. cbn [set_planner graph planner]. rewrite He. mred. rewrite Ev. mred.
  destruct (aget_is_Some (graph s) v Hv) as [n En]. rewrite En. mred. unfold st at 1. rewrite En.
  destruct (flt _ _); [|done]. destruct (update_search_spec (graph s) v (fun _ => mkSearch (Some (i, j)) (sadd c t) t) Hv) as (g' & -> & Hs & Hst). mred.
  by exists g'.
Qed.

(** ** Safety, whatever the plugins answer *)

(** The graph is [g0] but for its search states, and the entries of the queue
    are numbered nodes of it. *)
Definition entry_ok g (a : NodeElement) : Prop := is_nan (fst a) = false /\ 0 <= snd a < alen g.

Record search_ok (g0 : Graph Any) (s : Search Any P) : Prop := {
  so_graph : skeleton (graph s) = skeleton g0;
  so_queue : Forall (entry_ok g0) (elements (queue_ (planner s)));
}.

Definition same_ids (r r' : RoutePlanner P) : Prop := max_iterations r' = max_iterations r /\ start_id r' = start_id r /\ goal_id r' = goal_id r.

Lemma same_ids_trans r1 r2 r3 : same_ids r1 r2 -> same_ids r2 r3 -> same_ids r1 r3.
Proof. unfold same_ids. intuition congruence. Qed.

Lemma relax_safe g0 s c i j edge : graph_ok g0 -> search_ok g0 s -> edge_at g0 (i, j) = Some edge ->
  exists s' o, relax s c (i, j) blocked_ids req = Some (s', o) /\ search_ok g0 s' /\ same_ids (planner s) (planner s') /\ cost_outcome o.
Proof.
  intros Hg [Hsk Hq] He. pose proof (skeleton_len _ _ Hsk) as Hl.
  destruct (relax_spec s c i j edge) as (v & r' & o & _ & Hv & _ & Hr & Hco & Ho); [by apply (skeleton_ok g0)|by apply (skeleton_edge g0)|].
  apply same_but_plugins_fields in Hr as (Hm & Hs & Hgl & Hqq).
  assert (Hsame : search_ok g0 (set_planner s r') /\ same_ids (planner s) r') by (repeat split; cbn; try done; by rewrite Hqq).
  destruct Hsame as [Hs1 Hs2]. destruct o as [[t|]|x]; [|by eexists _, _..]. destruct (flt _ _) eqn:Ef; [|by eexists _, _].
  destruct Ho as (g' & -> & Hsk' & _). eexists _, _. split; [done|]. split; [|by split]. split; cbn [graph planner addNode set_queue queue_]; [by rewrite Hsk'|].
  rewrite Hqq. rewrite elements_emplace. apply Forall_cons. split; [|done]. split; cbn; [|lia].
  by apply flt_not_nan in Ef as [-> _].
Qed.

Lemma expand_safe g0 n k s c i : graph_ok g0 -> search_ok g0 s -> (forall j, k <= j < k + Z.of_nat n -> exists edge, edge_at g0 (i, j) = Some edge) ->
  exists s' o, expand n k s c i blocked_ids req = Some (s', o) /\ search_ok g0 s' /\ same_ids (planner s) (planner s') /\ cost_outcome o.
Proof.
  intros Hg. revert k s. induction n as [|n IH]; intros k s Hs He; cbn [expand]; [by eexists _, _|].
  destruct (He k ltac:(lia)) as [edge Ek]. destruct (relax_safe g0 s c i k edge Hg Hs Ek) as (s1 & o & -> & Hs1 & Hid & Hco). mred.
  destruct o as [u|x]; [|by eexists _, _]. destruct (IH (k + 1) s1 Hs1) as (s2 & o & -> & Hs2 & Hid2 & Hco2); [intros j Hj; apply He; lia|].
  eexists _, _. split; [done|]. split; [done|]. split; [by apply (same_ids_trans _ (planner s1))|done].
Qed.

(** The edges of a node of the graph. *)
Lemma node_edges g0 g v n : skeleton g = skeleton g0 -> aget g v = Some n -> forall j, 0 <= j < Z.of_nat (length (neighbors n)) ->
  exists edge, edge_at g0 (v, j) = Some edge.
Proof.
  intros Hs Hn j Hj. destruct (aget_is_Some (neighbors n) j Hj) as [edge Ee]. exists edge. apply (skeleton_edge g _ _ _ Hs). unfold edge_at. cbn [fst snd].
  rewrite Hn. mred. exact Ee.
Qed.

(** What a round needs, and what it leaves. *)
Definition round_ok (g0 : Graph Any) (m : Z) (l : Round) : Prop :=
  let '(s, k, o) := l in search_ok g0 s /\ max_iterations (planner s) = m /\ 0 <= k <= Z.max 0 m /\ o = None.

Definition round_end (g0 : Graph Any) (m : Z) (l : Round) : Prop :=
  let '(s, k, o) := l in search_ok g0 s /\ max_iterations (planner s) = m /\
  match o with
  | Some (Throw x) => cost_outcome (Throw (A := unit) x)
  | Some (Value _) => elements (queue_ (planner s)) = []
  | None => elements (queue_ (planner s)) = [] \/ m <= k /\ (0 <= m -> k = m)
  end.

Lemma search_round_safe g0 m l : graph_ok g0 -> round_ok g0 m l ->
  exists c, search_round blocked_ids req l = Some c /\
    match c with Next l' => round_ok g0 m l' /\ snd (fst l') = snd (fst l) + 1 /\ snd (fst l') <= m | Break l' => round_end g0 m l' end.
Proof.
  intros Hg. destruct l as [[s k] o]. intros (Hs & Hm & Hk & ->). unfold search_round. destruct Hs as [Hsk Hq].
  destruct (pop (queue_ (planner s))) as [[[c v] q]|] eqn:Ep.
  2: { eexists. split; [done|]. split; [by split|]. split; [done|]. left. by apply pop_None. }
  destruct (Z.ltb_spec k (max_iterations (planner s))) as [Hlt|Hge]; cbn [negb].
  2: { eexists. split; [done|]. split; [by split|]. split; [done|]. right. lia. }
  unfold getNextNode. rewrite Ep. mred.
  destruct (pop_Some _ _ _ (Forall_impl _ _ _ Hq (fun a H => proj1 H)) Ep) as [Hp _].
  assert (Hq' : entry_ok g0 (c, v) /\ Forall (entry_ok g0) (elements q)) by (apply Forall_cons; by rewrite <- Hp). destruct Hq' as [[Hc Hv] Hq']. cbn [fst snd] in Hc, Hv.
  cbn [graph set_planner]. destruct (aget_is_Some (graph s) v) as [n En]; [by rewrite (skeleton_len _ _ Hsk)|]. rewrite En. mred.
  set (s1 := set_planner s (set_queue (planner s) q)). assert (Hs1 : search_ok g0 s1) by (by split).
  destruct (feq c _); cbn [negb]; [|eexists; split; [done|]; cbn [snd fst]; split; [|lia]; split; [done|]; split; [done|]; split; [lia|done]].
  destruct (isGoal _ n).
  { eexists. split; [done|]. split; [split; cbn; [done|by rewrite elements_empty]|]. split; [done|]. cbn. apply elements_empty. }
  destruct (expand_safe g0 (length (neighbors n)) 0 s1 c v Hg Hs1) as (s2 & o & -> & Hs2 & Hid & Hco).
  { intros j Hj. apply (node_edges g0 (graph s) v n Hsk En). lia. }
  mred. destruct Hid as [Hid _]. cbn in Hid. destruct o as [u|x]; eexists; (split; [done|]); cbn [fst snd].
  - split; [|lia]. split; [done|]. split; [lia|]. split; [lia|done].
  - split; [done|]. split; [lia|done].
Qed.

(** Setting up a search. *)
Lemma search_setup g0 s start : graph_ok g0 -> search_ok g0 s -> 0 <= start < alen g0 ->
  exists g1 g2, resetSearchStates (graph s) = Some g1 /\ skeleton g1 = skeleton g0 /\
    update_search g1 start (fun z => mkSearch (parent_edge z) (S754_zero false) (search_traversal_cost z)) = Some g2 /\ skeleton g2 = skeleton g0 /\
    forall i, st g2 i = if start =? i then mkSearch None (S754_zero false) float_max else search_reset.
Proof.
  intros Hg [Hsk _] Hst. destruct (resetSearchStates_spec (graph s)) as (g1 & E1 & Hs1 & H1). rewrite Hsk in Hs1. exists g1.
  rewrite <- (skeleton_len _ _ Hs1) in Hst. edestruct (update_search_spec g1 start) as (g2 & E2 & Hs2 & H2); [exact Hst|]. exists g2.
  split; [done|]. split; [done|]. split; [exact E2|]. split; [congruence|]. intros i. rewrite H2, !H1. by destruct (start =? i).
Qed.

Lemma initial_queue g0 s g start i1 i2 : search_ok g0 s -> skeleton g = skeleton g0 -> 0 <= start < alen g0 ->
  search_ok g0 (mkState (addNode (S754_zero false) start (set_ids (planner s) i1 i2)) g).
Proof using QL.
  intros [_ Hq] Hs Hv. split; [done|]. cbn [planner addNode set_queue set_ids queue_]. rewrite elements_emplace. by apply Forall_cons.
Qed.

(** C34. Whatever the plugins answer, the search from a node of a well-typed graph
    ends without a wild pointer, leaves the graph as it was but for the search
    states, and leaves entries in the queue only when a call throws. *)
Theorem findShortestGraphTraversal_safe g0 s start goal :
  graph_ok g0 -> search_ok g0 s -> 0 <= max_iterations (planner s) -> 0 <= start < alen g0 -> 0 <= goal < alen g0 ->
  exists s' o, findShortestGraphTraversal s start goal blocked_ids req = Some (s', o) /\ search_ok g0 s' /\
    match o with Value _ | Throw TimedOut => elements (queue_ (planner s')) = [] | Throw _ => True end.
Proof.
  intros Hg Hs Hm Hst Hgo. destruct (search_setup g0 s start Hg Hs Hst) as (g1 & g2 & E1 & Hs1 & E2 & Hs2 & _). unfold findShortestGraphTraversal.
  rewrite E1. mred. pose proof (skeleton_len _ _ Hs1) as Hl. rewrite <- Hl in Hst, Hgo.
  destruct (aget_is_Some g1 start Hst) as [n1 ->], (aget_is_Some g1 goal Hgo) as [n2 ->]. mred. rewrite E2. mred. rewrite Hl in Hst.
  pose proof (initial_queue g0 s g2 start (nodeid n1) (nodeid n2) Hs Hs2 Hst) as Hinit. set (s0 := mkState _ g2) in *. set (m := max_iterations (planner s)) in *.
  change (max_iterations (planner s0)) with m.
  destruct (loop_inv (round_ok g0 m) (round_end g0 m) (fun l => Z.to_nat (m - snd (fst l))) (search_round blocked_ids req)) with (fuel := S (Z.to_nat m)) (s := (s0, 0, @None (outcome unit)))
    as ([[s' k] o] & -> & (Hs' & Hm' & Ho)).
  - intros l Hl'. destruct (search_round_safe g0 m l Hg Hl') as (c & -> & Hc). exists c. split; [done|]. destruct c as [l'|l']; [|done].
    destruct Hc as (Hok & Hk & Hle). split; [done|]. lia.
  - split; [done|]. split; [done|]. split; [lia|done].
  - cbn [fst snd]. lia.
  - mred. destruct o as [[u|x]|].
    + eexists _, _. split; [done|]. by split.
    + eexists _, _. split; [done|]. split; [done|]. by destruct x.
    + assert (Hclear : search_ok g0 (set_planner s' (clearQueue (planner s')))) by (split; [apply Hs'|]; cbn; by rewrite elements_empty).
      rewrite Hm'. destruct (Z.eqb_spec k m) as [->|Hne]; eexists _, _; (split; [done|]); split; try done; [apply elements_empty|].
      destruct Ho as [Ho|[_ Ho]]; [done|]. lia.
Qed.
End steps.

(** ** Shortest routes *)

Section optimality.
Context {Any Request P : Type} `{EdgeCostFunction Any Request P} `{Q : PriorityQueue NodeElement}
  {QL : PriorityQueueLaws Q NodeComparator (fun a => is_nan (fst a) = false)}.
Context (blocked_ids : list Z) (req : Request).

(** The graph, the identifiers of the two nodes, a property of the plugins that
    scoring keeps, and the cost of each edge: none when it may not be used. *)
Context (g0 : Graph Any) (start_i goal_i : Z) (steady : list P -> Prop) (weight : EdgePtr -> option spec_float).

(** The cost of an edge does not change during the search and is not negative. *)
Record steady_costs : Prop := {
  steady_cost r g i j edge : steady (plugins r) -> start_id r = start_i -> goal_id r = goal_i -> skeleton g = skeleton g0 -> edge_at g0 (i, j) = Some edge ->
    exists r', getTraversalCost r g (i, j) blocked_ids req = Some (r', Value (weight (i, j))) /\ steady (plugins r');
  steady_nonneg e t : weight e = Some t -> s_nonneg t = true;
}.

(** A path from [start] to [v] through edges that may be used, and its cost,
    added up from the start as the code does. *)
Inductive path (start : NodePtr) : list EdgePtr -> NodePtr -> spec_float -> Prop :=
| path_start : path start [] start (S754_zero false)
| path_edge es u c j edge v t :
    path start es u c -> edge_at g0 (u, j) = Some edge -> e_end edge = Some v -> weight (u, j) = Some t ->
    path start (es ++ [(u, j)]) v (sadd c t).

Context (SC : steady_costs) (GO : graph_ok g0) (start goal : Z).

Lemma path_nonneg es v c : path start es v c -> s_nonneg c = true.
Proof using SC. induction 1 as [|es u c j edge v t _ IH _ _ Hw]; [done|]. apply sadd_nonneg; [done|]. by apply (steady_nonneg SC (u, j)). Qed.

(** *** The invariant *)

Implicit Types (s : Search Any P) (g : Graph Any) (D : list Z).

Definition best g (v : NodePtr) : spec_float := integrated_cost (st g v).
Definition dist g (v : NodePtr) : Z := s_units (best g v).
Definition far : Z := s_units float_max.

(** The edge by which a node was reached comes from a node of [D]. *)
Definition reached g D (v : NodePtr) : Prop :=
  v = start /\ parent_edge (st g v) = None \/
  exists u j edge t, u ∈ D /\ parent_edge (st g v) = Some (u, j) /\ edge_at g0 (u, j) = Some edge /\ e_end edge = Some v /\
    weight (u, j) = Some t /\ best g v = sadd (best g u) t.

Definition key (a : NodeElement) : Z * Z := (s_units (fst a), snd a).

(** [D] are the nodes expanded, in order; [K] the largest cost popped; [over]
    tells which of their edges have been looked at. *)
Record dijkstra s D (K : Z) (over : Z -> Z -> Prop) : Prop := {
  dj_graph : skeleton (graph s) = skeleton g0;
  dj_start : start_id (planner s) = start_i;
  dj_goal : goal_id (planner s) = goal_i;
  dj_plugins : steady (plugins (planner s));
  dj_costs v : s_nonneg (best (graph s) v) = true /\ dist (graph s) v <= far;
  dj_origin : best (graph s) start = S754_zero false;
  dj_far v : dist (graph s) v = far -> parent_edge (st (graph s) v) = None;
  dj_queue c v : (c, v) ∈ elements (queue_ (planner s)) ->
    s_nonneg c = true /\ K <= s_units c < far /\ 0 <= v < alen g0 /\ dist (graph s) v <= s_units c /\
    (s_units c = dist (graph s) v -> c = best (graph s) v) /\ (v ∈ D -> dist (graph s) v < s_units c);
  dj_distinct : NoDup (key <$> elements (queue_ (planner s)));
  dj_open v : dist (graph s) v < far -> v ∉ D -> (best (graph s) v, v) ∈ elements (queue_ (planner s));
  dj_closed v : v ∈ D -> dist (graph s) v <= K /\ 0 <= v < alen g0;
  dj_relaxed v j edge w t : v ∈ D -> over v j -> edge_at g0 (v, j) = Some edge -> e_end edge = Some w -> weight (v, j) = Some t ->
    dist (graph s) w <= s_units (sadd (best (graph s) v) t);
  dj_tree v : dist (graph s) v < far -> v ∉ D -> reached (graph s) D v;
  dj_order D1 v D2 : D = D1 ++ v :: D2 -> reached (graph s) D1 v;
  dj_nodup : NoDup D;
  dj_unfinished : goal ∉ D;
}.

Lemma reached_ext g g' D v : st g' v = st g v -> (forall u, u ∈ D -> st g' u = st g u) -> reached g D v -> reached g' D v.
Proof.
  intros Ev Eu [[-> Hp]|(u & j & edge & t & Hu & Hp & He & Hend & Hw & Hb)].
  - left. by rewrite Ev.
  - right. exists u, j, edge, t. unfold best in *. rewrite Ev, (Eu u Hu). done.
Qed.

Lemma reached_weaken g D D' v : (forall u, u ∈ D -> u ∈ D') -> reached g D v -> reached g D' v.
Proof. intros HD [Hs|(u & j & edge & t & Hu & Hr)]; [by left|]. right. exists u, j, edge, t. split; [by apply HD|done]. Qed.

(** The plugins and nothing else changed. *)
Lemma dijkstra_plugins s r' D K over : dijkstra s D K over -> same_but_plugins (planner s) r' -> steady (plugins r') -> dijkstra (set_planner s r') D K over.
Proof.
  intros I (_ & Es & Eg & Eq)%same_but_plugins_fields Hp. destruct I. split; cbn [graph planner set_planner]; rewrite ?Es, ?Eg, ?Eq; assumption.
Qed.

Lemma dijkstra_over s D K (over over' : Z -> Z -> Prop) : dijkstra s D K over ->
  (forall v j edge w t, v ∈ D -> over' v j -> edge_at g0 (v, j) = Some edge -> e_end edge = Some w -> weight (v, j) = Some t ->
     over v j \/ dist (graph s) w <= s_units (sadd (best (graph s) v) t)) -> dijkstra s D K over'.
Proof.
  intros I Hov. destruct I. split; try assumption. intros v j edge w t Hv Hj He Hend Hw.
  destruct (Hov v j edge w t Hv Hj He Hend Hw) as [Ho|Ho]; [by apply (dj_relaxed0 v j edge w t)|done].
Qed.

(** A node not yet expanded is reached through [(u, j)] at the cost [c]. *)
Lemma dijkstra_improve s g r D K over u j edge w c t :
  dijkstra s D K over -> u ∈ D -> edge_at g0 (u, j) = Some edge -> e_end edge = Some w -> 0 <= w < alen g0 -> weight (u, j) = Some t ->
  c = sadd (best (graph s) u) t -> s_nonneg c = true -> K <= s_units c -> s_units c < dist (graph s) w ->
  skeleton g = skeleton (graph s) -> (forall k, st g k = if w =? k then mkSearch (Some (u, j)) c t else st (graph s) k) ->
  same_but_plugins (planner s) r -> steady (plugins r) ->
  dijkstra (mkState (addNode c w r) g) D K over.
Proof using QL.
  intros I Hu He Hend Hw Hwt Ec Hc HK Hlt Hsk Hst (_ & Es & Eg & Eq)%same_but_plugins_fields Hp. destruct I.
  assert (HwD : w ∉ D). { intros Hd. destruct (dj_closed0 w Hd). lia. }
  assert (Hold : forall k, k <> w -> st g k = st (graph s) k) by (intros k Hk; rewrite Hst; by rewrite (proj2 (Z.eqb_neq w k)) by congruence).
  assert (HD : forall k, k ∈ D -> st g k = st (graph s) k) by (intros k Hk; apply Hold; by intros ->).
  assert (Hnew : st g w = mkSearch (Some (u, j)) c t) by (by rewrite Hst, Z.eqb_refl).
  assert (Hb : forall k, k <> w -> best g k = best (graph s) k) by (intros k Hk; unfold best; by rewrite Hold).
  assert (Hbw : best g w = c) by (unfold best; by rewrite Hnew).
  assert (Hle : forall k, dist g k <= dist (graph s) k).
  { intros k. unfold dist. destruct (decide (k = w)) as [->|Hk]; [rewrite Hbw; unfold dist in Hlt; lia|by rewrite Hb]. }
  pose proof (proj2 (dj_costs0 w)) as Hfar.
  assert (Hq : elements (queue_ (addNode c w r)) ≡ₚ (c, w) :: elements (queue_ (planner s))) by (cbn [addNode set_queue queue_]; by rewrite elements_emplace, Eq).
  split; cbn [graph planner]; try assumption.
  - congruence.
  - cbn. congruence.
  - cbn. congruence.
  - intros k. split; [|specialize (Hle k); pose proof (proj2 (dj_costs0 k)); lia]. destruct (decide (k = w)) as [->|Hk]; [by rewrite Hbw|rewrite Hb by done; apply dj_costs0].
  - rewrite Hb; [done|]. intros <-. unfold dist in Hlt. rewrite dj_origin0 in Hlt. pose proof (s_units_nonneg c Hc). change (s_units (S754_zero false)) with 0 in Hlt. lia.
  - intros k Hk. destruct (decide (k = w)) as [->|Hkw]; [unfold dist in Hk; rewrite Hbw in Hk; lia|]. rewrite Hold by done. apply dj_far0. unfold dist in *. by rewrite <- Hb.
  - intros c' k. rewrite Hq, elem_of_cons. intros [[= -> ->]|Hin].
    + unfold dist. rewrite Hbw. split_and!; try done; try lia.
    + destruct (dj_queue0 c' k Hin) as (H1 & H2 & H3 & H4 & H5 & H6). split; [done|]. split; [done|]. split; [done|]. split; [specialize (Hle k); lia|].
      destruct (decide (k = w)) as [->|Hkw]; [|unfold dist in *; rewrite Hb by done; by split].
      split; [|by intros]. unfold dist. rewrite Hbw. unfold dist in *. lia.
  - rewrite Hq. cbn [fmap list_fmap]. apply NoDup_cons. split; [|done]. intros ([c' k] & Ek & Hin)%list_elem_of_fmap. unfold key in Ek. cbn [fst snd] in Ek. injection Ek as Ek ->.
    destruct (dj_queue0 c' k Hin) as (_ & _ & _ & H4 & _). lia.
  - intros k Hk HkD. rewrite Hq, elem_of_cons. destruct (decide (k = w)) as [->|Hkw]; [left; by rewrite Hbw|]. right. rewrite Hb by done.
    apply dj_open0; [|done]. unfold dist in *. by rewrite <- Hb.
  - intros k Hk. split; [|by apply dj_closed0]. specialize (Hle k). pose proof (proj1 (dj_closed0 k Hk)). lia.
  - intros v i edge' x t' Hv Ho He' Hx Hwx. rewrite Hb by (by intros ->). specialize (Hle x). pose proof (dj_relaxed0 v i edge' x t' Hv Ho He' Hx Hwx). lia.
  - intros k Hk HkD. destruct (decide (k = w)) as [->|Hkw].
    + right. exists u, j, edge, t. rewrite Hnew, Hbw, Hb by (by intros ->). by split_and!.
    + apply (reached_ext (graph s)); [by apply Hold|done|]. apply dj_tree0; [|done]. unfold dist in *. by rewrite <- Hb.
  - intros D1 v D2 ED. apply (reached_ext (graph s)); [|intros x Hx|by apply (dj_order0 D1 v D2)]; apply HD; rewrite ED, elem_of_app; [right; apply elem_of_cons; by left|by left].
Qed.

(** One round of the loop over the edges of the last node expanded. *)
Lemma dijkstra_relax s D K over u j edge :
  dijkstra s D K over -> u ∈ D -> dist (graph s) u = K -> edge_at g0 (u, j) = Some edge ->
  exists s', relax s (best (graph s) u) (u, j) blocked_ids req = Some (s', Value tt) /\
    dijkstra s' D K (fun v k => over v k \/ (v = u /\ k = j)) /\ best (graph s') u = best (graph s) u /\ same_ids (planner s) (planner s') /\
    (length (elements (queue_ (planner s'))) <= 1 + length (elements (queue_ (planner s))))%nat.
Proof using QL SC GO.
  intros I Hu HK He. pose proof (dj_graph _ _ _ _ I) as Hsk. pose proof (skeleton_len _ _ Hsk) as Hl.
  destruct (relax_spec blocked_ids req s (best (graph s) u) u j edge) as (w & r' & o & Hend & Hw & Ec & Hr & _ & Ho).
  { by apply (skeleton_ok g0). } { by apply (skeleton_edge g0). }
  destruct (steady_cost SC (planner s) (graph s) u j edge (dj_plugins _ _ _ _ I) (dj_start _ _ _ _ I) (dj_goal _ _ _ _ I) Hsk He) as (r1 & Ec1 & Hp).
  rewrite Ec in Ec1. injection Ec1 as -> ->. pose proof (same_but_plugins_fields _ _ Hr) as (Em & Es & Eg & Eq).
  assert (Hids : same_ids (planner s) r1) by done. set (c := best (graph s) u) in *.
  assert (Hover : forall s', dijkstra s' D K over -> (forall w' t, weight (u, j) = Some t -> e_end edge = Some w' -> dist (graph s') w' <= s_units (sadd (best (graph s') u) t)) ->
            dijkstra s' D K (fun v k => over v k \/ (v = u /\ k = j))).
  { intros s' I' Hnew. apply (dijkstra_over _ _ _ _ _ I'). intros v k edge' w' t Hv [Hov|[-> ->]] He' Hend' Hwt'; [by left|]. right.
    apply Hnew; [done|]. congruence. }
  assert (Hpl : dijkstra (set_planner s r1) D K over) by (by apply dijkstra_plugins).
  destruct (weight (u, j)) as [t|] eqn:Hwt.
  2: { eexists. split; [exact Ho|]. split; [apply Hover; [done|congruence]|]. cbn [graph planner set_planner]. rewrite Eq. split; [done|]. split; [done|lia]. }
  pose proof (steady_nonneg SC (u, j) t Hwt) as Ht. destruct (dj_costs _ _ _ _ I u) as [Hc _]. destruct (dj_costs _ _ _ _ I w) as [Hbw _].
  change (best (graph s) u) with c in Hc. pose proof (sadd_nonneg c t Hc Ht) as Hct. rewrite flt_s_units in Ho by done.
  destruct (Z.ltb_spec (s_units (sadd c t)) (s_units (integrated_cost (st (graph s) w)))) as [Hlt|Hge].
  - destruct Ho as (g' & -> & Hsk' & Hst'). eexists. split; [done|].
    assert (Huw : w <> u). { intros ->. pose proof (sadd_inflates c t Hc Ht). unfold dist in HK. fold (best (graph s) u) in Hlt. fold c in Hlt. lia. }
    assert (Hbu : best g' u = c) by (unfold best; rewrite Hst'; by rewrite (proj2 (Z.eqb_neq w u))).
    cbn [graph planner]. rewrite Hbu. split; [|split; [done|split; [done|]]].
    + apply Hover.
      * apply (dijkstra_improve s g' r1 D K over u j edge w (sadd c t) t); try done; [by rewrite <- Hl|]. pose proof (sadd_inflates c t Hc Ht). unfold dist in HK. fold c in HK. lia.
      * cbn [graph]. intros w' t' [= <-] Hw'. replace w' with w by congruence. rewrite Hbu. unfold dist, best. by rewrite Hst', Z.eqb_refl.
    + cbn [addNode set_queue queue_]. rewrite elements_emplace, Eq. cbn. lia.
  - eexists. split; [exact Ho|]. split; [|cbn [graph planner set_planner]; rewrite Eq; split; [done|split; [done|lia]]].
    apply Hover; [done|]. cbn [graph set_planner]. intros w' t' [= <-] Hw'. replace w' with w by congruence. done.
Qed.

Lemma dijkstra_expand n k s D K u :
  dijkstra s D K (fun v j => v <> u \/ j < k) -> u ∈ D -> dist (graph s) u = K ->
  (forall j, k <= j < k + Z.of_nat n -> exists edge, edge_at g0 (u, j) = Some edge) ->
  exists s', expand n k s (best (graph s) u) u blocked_ids req = Some (s', Value tt) /\
    dijkstra s' D K (fun v j => v <> u \/ j < k + Z.of_nat n) /\ same_ids (planner s) (planner s') /\
    (length (elements (queue_ (planner s'))) <= n + length (elements (queue_ (planner s))))%nat.
Proof using QL SC GO.
  revert k s. induction n as [|n IH]; intros k s I Hu HK He; cbn [expand].
  - exists s. split; [done|]. split; [by rewrite Z.add_0_r|]. split; [done|lia].
  - destruct (He k ltac:(lia)) as [edge Ek]. destruct (dijkstra_relax s D K _ u k edge I Hu HK Ek) as (s1 & -> & I1 & Hb & Hid & Hlen). mred.
    destruct (IH (k + 1) s1) as (s2 & E2 & I2 & Hid2 & Hlen2).
    + apply (dijkstra_over _ _ _ _ _ I1). intros v j edge' w t _ [Hv|Hj] _ _ _; [by left; left; left|]. left. destruct (decide (v = u)) as [->|]; [|by left; left].
      destruct (decide (j = k)) as [->|]; [by right|]. left; right; lia.
    + done.
    + unfold dist. rewrite Hb. exact HK.
    + intros j Hj. apply He. lia.
    + rewrite Hb in E2. exists s2. split; [exact E2|]. split; [|split; [by apply (same_ids_trans _ (planner s1))|lia]].
      by replace (k + Z.of_nat (S n)) with (k + 1 + Z.of_nat n) by lia.
Qed.

(** The entry popped. *)
Lemma dijkstra_pop s D K c v q : dijkstra s D K (fun _ _ => True) -> pop (queue_ (planner s)) = Some ((c, v), q) ->
  elements (queue_ (planner s)) ≡ₚ (c, v) :: elements q /\ s_nonneg c = true /\ 0 <= v < alen g0 /\ s_units c < far /\
  (forall c' v', (c', v') ∈ elements (queue_ (planner s)) -> s_units c <= s_units c').
Proof using QL.
  intros I Ep. assert (Hok : Forall (fun a => is_nan (fst a) = false) (elements (queue_ (planner s)))).
  { apply Forall_forall. intros [c' v'] Hin. destruct (dj_queue _ _ _ _ I c' v' Hin) as [Hc _]. by apply s_nonneg_number. }
  destruct (pop_Some _ _ _ Hok Ep) as [Hp Hmin]. destruct (dj_queue _ _ _ _ I c v) as (Hc & HK & Hv & _); [rewrite Hp; by left|].
  split; [done|]. split; [done|]. split; [done|]. split; [lia|]. intros c' v'. rewrite Hp, elem_of_cons. intros [[= -> ->]|Hin]; [lia|].
  pose proof (proj1 (Forall_forall _ _) Hmin _ Hin) as Hcmp. destruct (dj_queue _ _ _ _ I c' v') as (Hc' & _); [rewrite Hp; by right|].
  unfold NodeComparator, fgt in Hcmp. cbn [fst] in Hcmp. pose proof (flt_s_units c' c Hc' Hc) as E. unfold flt in E. rewrite E in Hcmp. lia.
Qed.

Lemma dijkstra_skip s D K c v q : dijkstra s D K (fun _ _ => True) -> pop (queue_ (planner s)) = Some ((c, v), q) ->
  feq c (best (graph s) v) = false -> dijkstra (set_planner s (set_queue (planner s) q)) D K (fun _ _ => True).
Proof using QL.
  intros I Ep Hne. destruct (dijkstra_pop s D K c v q I Ep) as (Hp & Hc & _). destruct I.
  split; cbn [graph planner set_planner set_queue queue_ plugins start_id goal_id]; try assumption.
  - intros c' v' Hin. apply dj_queue0. rewrite Hp. by right.
  - rewrite Hp in dj_distinct0. cbn [fmap list_fmap] in dj_distinct0. by apply NoDup_cons in dj_distinct0 as [_ ?].
  - intros k Hk HkD. specialize (dj_open0 k Hk HkD). rewrite Hp, elem_of_cons in dj_open0. destruct dj_open0 as [[= <- <-]|]; [|done].
    rewrite feq_s_units, Z.eqb_refl in Hne by (apply dj_costs0 || exact Hc). done.
Qed.

Lemma dijkstra_settle s D K c v q : dijkstra s D K (fun _ _ => True) -> pop (queue_ (planner s)) = Some ((c, v), q) ->
  feq c (best (graph s) v) = true -> v <> goal ->
  c = best (graph s) v /\ (v ∉ D) /\ dijkstra (set_planner s (set_queue (planner s) q)) (D ++ [v]) (s_units c) (fun x j => x <> v \/ j < 0).
Proof using QL.
  intros I Ep Heq Hgoal. destruct (dijkstra_pop s D K c v q I Ep) as (Hp & Hc & Hv & Hfar & Hmin). pose proof I as [].
  assert (Hin : (c, v) ∈ elements (queue_ (planner s))) by (rewrite Hp; by left). destruct (dj_queue0 c v Hin) as (_ & HK & _ & _ & Hbest & Hnew).
  rewrite feq_s_units in Heq by first [done|apply dj_costs0]. apply Z.eqb_eq in Heq. assert (Eb : c = best (graph s) v) by (by apply Hbest).
  assert (HvD : v ∉ D) by (intros Hd; specialize (Hnew Hd); unfold dist in Hnew; lia). split; [done|]. split; [done|].
  assert (HinD : forall u, u ∈ D -> u ∈ D ++ [v]) by (intros u Hu; apply elem_of_app; by left).
  assert (Hlast : forall u, u ∈ D ++ [v] -> u ∈ D \/ u = v).
  { intros u. rewrite elem_of_app, elem_of_cons, elem_of_nil. tauto. }
  split; cbn [graph planner set_planner set_queue queue_ plugins start_id goal_id]; try assumption.
  - intros c' k Hin'. assert (Hq : (c', k) ∈ elements (queue_ (planner s))) by (rewrite Hp; by right).
    destruct (dj_queue0 c' k Hq) as (H1 & H2 & H3 & H4 & H5 & H6). split; [done|]. split; [specialize (Hmin c' k Hq); lia|]. split; [done|]. split; [done|]. split; [done|].
    intros [Hk| ->]%Hlast; [by apply H6|]. rewrite Hp in dj_distinct0. cbn [fmap list_fmap] in dj_distinct0. apply NoDup_cons in dj_distinct0 as [Hnot _].
    destruct (decide (s_units c' = s_units c)) as [E|]; [|unfold dist in *; lia]. exfalso. apply Hnot. apply list_elem_of_fmap. exists (c', v). split; [|done]. unfold key. cbn. by rewrite E.
  - rewrite Hp in dj_distinct0. cbn [fmap list_fmap] in dj_distinct0. by apply NoDup_cons in dj_distinct0 as [_ ?].
  - intros k Hk HkD. specialize (dj_open0 k Hk ltac:(intros Hd; by apply HkD, HinD)). rewrite Hp, elem_of_cons in dj_open0. destruct dj_open0 as [[= _ ->]|]; [|done].
    exfalso. apply HkD, elem_of_app. right. by apply list_elem_of_singleton.
  - intros k [Hk| ->]%Hlast; [|split; [unfold dist; lia|done]]. destruct (dj_closed0 k Hk). split; [lia|done].
  - intros x j edge w t [Hx| ->]%Hlast Hov He Hend Hw; [by apply (dj_relaxed0 x j edge w t)|].
    exfalso. destruct Hov as [|Hj]; [done|]. unfold edge_at in He. cbn [fst snd] in He. destruct (aget g0 v); [|done]. cbn in He. apply aget_bounds in He. lia.
  - intros k Hk HkD. apply (reached_weaken _ D); [done|]. apply dj_tree0; [done|]. intros Hd. by apply HkD, HinD.
  - intros D1 k D2 ED. destruct D2 as [|y D2' _] using rev_ind.
    + apply app_inj_tail in ED as [-> ->]. apply dj_tree0; [unfold dist; rewrite <- Eb; done|done].
    + rewrite app_comm_cons, app_assoc in ED. apply app_inj_tail in ED as [-> ->]. by apply (dj_order0 D1 k D2').
  - apply NoDup_app. split; [done|]. split; [|by apply NoDup_singleton]. intros x Hx Hv'. apply list_elem_of_singleton in Hv' as ->. done.
  - intros [Hd|Hd]%Hlast; [done|congruence].
Qed.

Lemma far_pos : 0 < far.
Proof. vm_compute. reflexivity. Qed.

Lemma dijkstra_init s g : skeleton g = skeleton g0 -> (forall i, st g i = if start =? i then mkSearch None (S754_zero false) float_max else search_reset) ->
  start_id (planner s) = start_i -> goal_id (planner s) = goal_i -> steady (plugins (planner s)) -> 0 <= start < alen g0 ->
  elements (queue_ (planner s)) = [] ->
  dijkstra (mkState (addNode (S754_zero false) start (planner s)) g) [] 0 (fun _ _ => True) /\
  length (elements (queue_ (addNode (S754_zero false) start (planner s)))) = 1%nat.
Proof using QL.
  intros Hsk Hst Es Eg Hp Hr Hq. assert (Hq1 : elements (queue_ (addNode (S754_zero false) start (planner s))) ≡ₚ [(S754_zero false, start)]).
  { cbn [addNode set_queue queue_]. by rewrite elements_emplace, Hq. }
  assert (Hb : forall v, best g v = if start =? v then S754_zero false else float_max) by (intros v; unfold best; rewrite Hst; by destruct (start =? v)).
  pose proof far_pos as Hfar. split; [|by rewrite Hq1].
  split; cbn [graph planner]; try done.
  - intros v. unfold dist. rewrite Hb. destruct (start =? v); [split; [done|]; change (s_units (S754_zero false)) with 0; lia|split; [done|unfold far; lia]].
  - by rewrite Hb, Z.eqb_refl.
  - intros v _. rewrite Hst. by destruct (start =? v).
  - intros c v. rewrite Hq1. intros [= -> ->]%list_elem_of_singleton. unfold dist. rewrite Hb, Z.eqb_refl. change (s_units (S754_zero false)) with 0.
    split_and!; try done; try lia. intros Hv. by apply not_elem_of_nil in Hv.
  - rewrite Hq1. by apply NoDup_singleton.
  - intros v Hv _. rewrite Hq1, list_elem_of_singleton. unfold dist in Hv. rewrite Hb in *. destruct (Z.eqb_spec start v) as [->|]; [done|]. unfold far in Hv. lia.
  - intros v Hv. by apply not_elem_of_nil in Hv.
  - intros v j edge w t Hv. by apply not_elem_of_nil in Hv.
  - intros v Hv _. left. unfold dist in Hv. rewrite Hb in Hv. rewrite Hst. destruct (Z.eqb_spec start v) as [->|]; [done|]. unfold far in Hv. lia.
  - intros D1 v D2 E. by destruct D1.
  - by apply NoDup_nil.
  - apply not_elem_of_nil.
Qed.

(** No path costs less than what is still in the queue, or than the best known. *)
Lemma path_bound s D K B : dijkstra s D K (fun _ _ => True) -> (forall c v, (c, v) ∈ elements (queue_ (planner s)) -> B <= s_units c) -> B <= far ->
  forall es w c, path start es w c -> Z.min (dist (graph s) w) B <= s_units c.
Proof using SC.
  intros I HB Hfar es w c Hpath. induction Hpath as [|es u c j edge w t Hp IH He Hend Hw].
  - unfold dist. rewrite (dj_origin _ _ _ _ I). change (s_units (S754_zero false)) with 0. lia.
  - pose proof (path_nonneg _ _ _ Hp) as Hc. pose proof (steady_nonneg SC _ _ Hw) as Ht. pose proof (sadd_inflates c t Hc Ht) as Hinf.
    destruct (decide (B <= s_units c)) as [Hle|Hgt]; [lia|]. assert (Hu : dist (graph s) u <= s_units c) by lia.
    destruct (decide (u ∈ D)) as [HuD|HuD].
    + pose proof (dj_relaxed _ _ _ _ I u j edge w t HuD Logic.I He Hend Hw) as Hrel.
      pose proof (sadd_mono (best (graph s) u) c t (proj1 (dj_costs _ _ _ _ I u)) Hc Ht Hu). lia.
    + pose proof (HB _ _ (dj_open _ _ _ _ I u ltac:(lia) HuD)) as H1. unfold dist in Hu. lia.
Qed.

(** *** The walk back *)

Lemma walk_spec g : skeleton g = skeleton g0 -> best g start = S754_zero false -> 0 <= goal < alen g0 ->
  forall D v, reached g D v -> (forall D1 x D2, D = D1 ++ x :: D2 -> reached g D1 x) -> goal ∉ D ->
  exists es, path start es v (best g v) /\ (parent_edge (st g v) <> None -> es <> []) /\
    forall g' found fuel, skeleton g' = skeleton g0 -> (forall k, k <> goal -> st g' k = st g k) -> parent_edge (st g' goal) = parent_edge (st g v) -> (length D < fuel)%nat ->
      exists g'', loop fuel (walk_round goal) (g', found) = Some (g'', found ++ reverse es) /\ skeleton g'' = skeleton g0 /\ best g'' goal = best g' goal.
Proof using GO.
  intros Hsk Horigin Hgoal D. induction D as [D IH] using (induction_ltof1 _ length). unfold ltof in IH. intros v Hv Hord HgD.
  assert (Hnode : forall g' k, skeleton g' = skeleton g0 -> 0 <= k < alen g0 -> exists n, aget g' k = Some n /\ search_state n = st g' k).
  { intros g' k Hs Hk. rewrite <- (skeleton_len _ _ Hs) in Hk. destruct (aget_is_Some g' k Hk) as [n En]. exists n. split; [done|]. unfold st. by rewrite En. }
  destruct Hv as [[-> Hnone]|(u & j & edge & t & Hu & Hpar & He & Hend & Hw & Hbest)].
  - exists []. split; [rewrite Horigin; constructor|]. split; [congruence|]. intros g' found [|fuel] Hs _ Hpg Hf; [lia|]. cbn [loop]. unfold walk_round.
    destruct (Hnode g' goal Hs Hgoal) as (n & -> & Hn). mred. rewrite Hn, Hpg, Hnone. mred. exists g'. by rewrite reverse_nil, app_nil_r.
  - apply list_elem_of_split in Hu as (D1 & D2 & ED). assert (HuD : u ∈ D) by (rewrite ED; apply elem_of_app; right; by left).
    assert (Hlen : (length D1 < length D)%nat) by (rewrite ED, length_app; cbn; lia).
    destruct (IH D1 Hlen u) as (es & Hp & _ & Hloop).
    + by apply (Hord D1 u D2).
    + intros E1 x E2 HE. apply (Hord E1 x (E2 ++ u :: D2)). rewrite ED, HE, <- app_assoc. done.
    + intros Hg. apply HgD. rewrite ED. apply elem_of_app. by left.
    + exists (es ++ [(u, j)]). split; [rewrite Hbest; by apply (path_edge start es u _ j edge)|]. split; [by destruct es|].
      intros g' found [|fuel] Hs Hsame Hpg Hf; [lia|].
      destruct (Hnode g' goal Hs Hgoal) as (n & En & Hn). destruct (edge_at_ok g0 u j edge GO He) as (Es & Hur & _).
      destruct (Hnode g' u Hs Hur) as (nu & Enu & Hnu). pose proof (skeleton_edge g0 g' (u, j) edge (eq_sym Hs) He) as He'.
      edestruct (update_search_spec g' goal) as (g1 & E1 & Hs1 & Hst1); [by rewrite (skeleton_len _ _ Hs)|].
      assert (Ew : walk_round goal (g', found) = Some (Next (g1, found ++ [(u, j)]))).
      { unfold walk_round. rewrite En. mred. rewrite Hn, Hpg, Hpar, He'. mred. rewrite Es. unfold deref. mred. rewrite Enu. mred. rewrite E1. mred. done. }
      cbn [loop]. rewrite Ew. mred.
      assert (Hug : u <> goal) by (intros ->; done).
      destruct (Hloop g1 (found ++ [(u, j)]) fuel) as (g2 & E2 & Hs2 & Hb2).
      * congruence.
      * intros k Hk. rewrite Hst1, (proj2 (Z.eqb_neq goal k)) by congruence. by apply Hsame.
      * rewrite Hst1, Z.eqb_refl. cbn [parent_edge]. by rewrite Hnu, Hsame.
      * lia.
      * exists g2. rewrite E2. rewrite reverse_snoc, <- app_assoc. split; [done|]. split; [done|]. rewrite Hb2. unfold best. by rewrite Hst1, Z.eqb_refl.
Qed.

(** *** The number of rounds *)

Definition degree (v : NodePtr) : nat := match aget g0 v with Some n => length (neighbors n) | None => O end.
Definition total_edges : nat := sum_list ((fun n => length (neighbors n)) <$> g0).

Lemma sum_degrees D : NoDup D -> (forall v, v ∈ D -> 0 <= v < alen g0) -> (length D <= length g0)%nat /\ (sum_list (degree <$> D) <= total_edges)%nat.
Proof.
  intros Hnd Hr. assert (Hsub : D ⊆+ seqZ 0 (alen g0)) by (apply NoDup_submseteq; [done|]; intros v Hv; apply elem_of_seqZ; specialize (Hr v Hv); lia).
  split; [apply submseteq_length in Hsub; rewrite length_seqZ in Hsub; unfold alen in Hsub; lia|].
  apply submseteq_Permutation in Hsub as [D' HD'].
  assert (E : total_edges = sum_list (degree <$> seqZ 0 (alen g0))).
  { unfold total_edges. f_equal. apply list_eq. intros i. rewrite !list_lookup_fmap. unfold alen. destruct (decide (i < length g0)%nat) as [Hi|Hi].
    - rewrite lookup_seqZ_lt by lia. cbn. unfold degree, aget. rewrite (proj2 (in_array_spec _ _)) by (unfold alen; lia). rewrite Z.add_0_l, Nat2Z.id.
      by destruct (lookup_lt_is_Some_2 g0 i Hi) as [n ->].
    - rewrite lookup_seqZ_ge by lia. by rewrite (proj2 (lookup_ge_None g0 i)) by lia. }
  rewrite E, HD', fmap_app, sum_list_with_app. lia.
Qed.

Lemma edges_over s D K u n : dijkstra s D K (fun v j => v <> u \/ j < 0 + Z.of_nat (length (neighbors n))) -> aget g0 u = Some n ->
  dijkstra s D K (fun _ _ => True).
Proof.
  intros I Hn. apply (dijkstra_over _ _ _ _ _ I). intros v j edge w t _ _ He _ _. left. destruct (decide (v = u)) as [->|]; [right|by left].
  unfold edge_at in He. cbn [fst snd] in He. rewrite Hn in He. cbn in He. apply aget_bounds in He. unfold alen in He. lia.
Qed.

(** *** The main loop *)

(** A shortest path is recorded in the graph. *)
Definition found s : Prop :=
  skeleton (graph s) = skeleton g0 /\ best (graph s) start = S754_zero false /\ s_units (best (graph s) goal) < far /\ s_nonneg (best (graph s) goal) = true /\
  (exists D, (length D <= length g0)%nat /\ reached (graph s) D goal /\ (forall D1 x D2, D = D1 ++ x :: D2 -> reached (graph s) D1 x) /\ goal ∉ D) /\
  forall es c, path start es goal c -> s_units (best (graph s) goal) <= s_units c.

Definition unreachable s : Prop :=
  skeleton (graph s) = skeleton g0 /\ parent_edge (st (graph s) goal) = None /\ forall es c, path start es goal c -> far <= s_units c.

Definition searching (m : Z) (l : Round) : Prop :=
  let '(s, k, o) := l in o = None /\ max_iterations (planner s) = m /\ 0 <= k <= m /\
  exists D K, dijkstra s D K (fun _ _ => True) /\ k + Z.of_nat (length (elements (queue_ (planner s)))) <= 1 + Z.of_nat (sum_list (degree <$> D)).

Definition searched (m : Z) (l : Round) : Prop :=
  let '(s, k, o) := l in max_iterations (planner s) = m /\ skeleton (graph s) = skeleton g0 /\
  match o with
  | Some (Value _) => elements (queue_ (planner s)) = [] /\ found s
  | Some (Throw _) => False
  | None => k <= 1 + Z.of_nat total_edges /\ (k = m \/ (elements (queue_ (planner s)) = [] /\ unreachable s))
  end.

Context (goal_unique : forall v n, aget g0 v = Some n -> nodeid n = goal_i -> v = goal) (goal_range : 0 <= goal < alen g0).
Context (goal_number : forall n, aget g0 goal = Some n -> nodeid n = goal_i).

Lemma search_round_dijkstra m l : searching m l ->
  exists c, search_round blocked_ids req l = Some c /\
    match c with Next l' => searching m l' /\ snd (fst l') = snd (fst l) + 1 /\ snd (fst l') <= m | Break l' => searched m l' end.
Proof.
  destruct l as [[s k] o]. intros (-> & Hm & Hk & D & K & I & Hcount). unfold search_round.
  destruct (sum_degrees D (dj_nodup _ _ _ _ I) (fun v Hv => proj2 (dj_closed _ _ _ _ I v Hv))) as [HlD Hdeg].
  destruct (pop (queue_ (planner s))) as [[[c v] q]|] eqn:Ep.
  2: { eexists. split; [done|]. split; [done|]. split; [by apply I|]. pose proof (pop_None _ Ep) as He. split; [lia|]. right. split; [done|].
       assert (Hf : dist (graph s) goal = far).
       { destruct (decide (dist (graph s) goal < far)) as [Hlt|]; [|pose proof (proj2 (dj_costs _ _ _ _ I goal)); lia].
         pose proof (dj_open _ _ _ _ I goal Hlt (dj_unfinished _ _ _ _ I)) as Hin. rewrite He in Hin. by apply not_elem_of_nil in Hin. }
       split; [by apply I|]. split; [by apply (dj_far _ _ _ _ I)|]. intros es c Hp.
       pose proof (path_bound s D K far I ltac:(intros c' v' Hin; rewrite He in Hin; by apply not_elem_of_nil in Hin) ltac:(lia) es goal c Hp). lia. }
  destruct (Z.ltb_spec k (max_iterations (planner s))) as [Hlt|Hge]; cbn [negb].
  2: { eexists. split; [done|]. split; [done|]. split; [by apply I|]. split; [lia|]. left. lia. }
  unfold getNextNode. rewrite Ep. mred. destruct (dijkstra_pop s D K c v q I Ep) as (Hp & Hc & Hv & Hfar & Hmin).
  assert (Hlen : length (elements (queue_ (planner s))) = S (length (elements q))) by (by rewrite Hp).
  pose proof (dj_graph _ _ _ _ I) as Hsk. cbn [graph set_planner]. rewrite <- (skeleton_len _ _ Hsk) in Hv. destruct (aget_is_Some (graph s) v Hv) as [n En]. rewrite En. mred.
  destruct (skeleton_node (graph s) g0 v n Hsk En) as (n0 & En0 & Estrip).
  assert (Eb : integrated_cost (search_state n) = best (graph s) v) by (unfold best, st; by rewrite En). rewrite Eb.
  set (s1 := set_planner s (set_queue (planner s) q)). destruct (feq c (best (graph s) v)) eqn:Heq; cbn [negb].
  2: { eexists. split; [done|]. cbn [fst snd]. split; [|lia]. split; [done|]. split; [done|]. split; [lia|]. exists D, K.
       split; [by apply (dijkstra_skip s D K c v q)|]. cbn [s1 planner set_planner set_queue queue_]. lia. }
  unfold isGoal at 1. change (goal_id (planner s1)) with (goal_id (planner s)). rewrite (dj_goal _ _ _ _ I).
  assert (Eid : nodeid n = nodeid n0) by (by injection Estrip).
  destruct (Z.eqb_spec (nodeid n) goal_i) as [Egoal|Ngoal].
  - assert (v = goal) as -> by (apply (goal_unique v n0 En0); congruence). eexists. split; [done|]. split; [done|]. split; [by apply I|]. cbn [planner set_planner clearQueue set_queue queue_].
    split; [apply elements_empty|]. rewrite feq_s_units in Heq by first [done|apply (dj_costs _ _ _ _ I)]. apply Z.eqb_eq in Heq.
    split; [done|]. split; [by apply I|]. cbn [graph set_planner s1]. split; [lia|]. split; [by apply (dj_costs _ _ _ _ I)|]. split.
    + exists D. split; [done|]. split; [apply (dj_tree _ _ _ _ I); [unfold dist; lia|apply I]|]. split; [apply (dj_order _ _ _ _ I)|apply I].
    + intros es c' Hpath. pose proof (path_bound s D K (s_units c) I Hmin ltac:(lia) es goal c' Hpath) as Hb. unfold dist in Hb. lia.
  - assert (Hne : v <> goal) by (intros ->; apply Ngoal; rewrite Eid; by apply goal_number).
    destruct (dijkstra_settle s D K c v q I Ep Heq Hne) as (Ec & HvD & I1). fold s1 in I1.
    assert (Eg1 : graph s1 = graph s) by done. destruct (dijkstra_expand (length (neighbors n)) 0 s1 (D ++ [v]) (s_units c) v) as (s2 & E2 & I2 & (Hm2 & _) & Hlen2).
    + done.
    + apply elem_of_app. right. by apply list_elem_of_singleton.
    + unfold dist. by rewrite Eg1, <- Ec.
    + intros j Hj. apply (node_edges g0 (graph s) v n Hsk En). lia.
    + rewrite Eg1, <- Ec in E2. rewrite E2. mred. eexists. split; [done|]. cbn [fst snd]. split; [|lia]. split; [done|]. split; [by rewrite Hm2|]. split; [lia|].
      assert (Enb : neighbors n = neighbors n0) by (by injection Estrip). rewrite Enb in I2. exists (D ++ [v]), (s_units c). split; [by apply (edges_over _ _ _ v n0)|].
      rewrite fmap_app, sum_list_with_app. cbn [fmap list_fmap sum_list_with]. unfold degree at 2. rewrite En0, <- Enb.
      change (queue_ (planner s1)) with q in Hlen2. cbn. lia.
Qed.

Lemma findShortest_dijkstra s : skeleton (graph s) = skeleton g0 -> elements (queue_ (planner s)) = [] -> 0 <= max_iterations (planner s) -> steady (plugins (planner s)) ->
  (exists n, aget g0 start = Some n /\ nodeid n = start_i) ->
  exists s' o, findShortestGraphTraversal s start goal blocked_ids req = Some (s', o) /\ elements (queue_ (planner s')) = [] /\ skeleton (graph s') = skeleton g0 /\
    match o with
    | Value _ => found s' \/ unreachable s'
    | Throw TimedOut => max_iterations (planner s) <= 1 + Z.of_nat total_edges
    | Throw _ => False
    end.
Proof.
  intros Hsk Hq Hm Hpl (n0 & En0 & Eid). pose proof (aget_bounds _ _ _ En0) as Hstart. assert (Hok : search_ok g0 s) by (split; [done|by rewrite Hq]).
  destruct (search_setup g0 s start GO Hok Hstart) as (g1 & g2 & E1 & Hs1 & E2 & Hs2 & Hst2). unfold findShortestGraphTraversal. rewrite E1. mred.
  destruct (skeleton_node g0 g1 start n0 (eq_sym Hs1) En0) as (n1 & En1 & Et1). rewrite En1. mred.
  destruct (aget_is_Some g0 goal goal_range) as [ng0 Eng0]. destruct (skeleton_node g0 g1 goal ng0 (eq_sym Hs1) Eng0) as (ng & Eng & Etg). rewrite Eng. mred. rewrite E2. mred.
  assert (Ei1 : nodeid n1 = start_i) by (rewrite <- Eid; by injection Et1). assert (Eig : nodeid ng = goal_i) by (rewrite <- (goal_number _ Eng0); by injection Etg).
  rewrite Ei1, Eig. set (r0 := set_ids (planner s) start_i goal_i). destruct (dijkstra_init (mkState r0 g2) g2 Hs2 Hst2 eq_refl eq_refl Hpl Hstart Hq) as [I0 Hlen0].
  cbn [planner] in I0, Hlen0. set (s0 := mkState (addNode (S754_zero false) start r0) g2) in *. set (m := max_iterations (planner s)) in *.
  change (max_iterations (planner s0)) with m.
  destruct (loop_inv (searching m) (searched m) (fun l => Z.to_nat (m - snd (fst l))) (search_round blocked_ids req)) with (fuel := S (Z.to_nat m)) (s := (s0, 0, @None (outcome unit)))
    as ([[s' k] o] & -> & (Hm' & Hsk' & Ho)).
  - intros l Hl. destruct (search_round_dijkstra m l Hl) as (c & -> & Hc). exists c. split; [done|]. destruct c as [l'|l']; [|done].
    destruct Hc as (Hc & Hk & Hle). split; [done|]. lia.
  - split; [done|]. split; [done|]. split; [lia|]. exists [], 0. split; [exact I0|]. cbn [planner s0]. rewrite Hlen0. cbn. lia.
  - cbn [fst snd]. lia.
  - mred. destruct o as [[u|x]|]; [|done|].
    + destruct Ho as [He Hf]. eexists _, _. split; [done|]. split; [done|]. split; [by apply Hf|]. by left.
    + destruct Ho as [Hk Ho]. rewrite Hm'. destruct (Z.eqb_spec k m) as [->|Hne]; eexists _, _; (split; [done|]).
      * cbn [graph planner set_planner clearQueue set_queue queue_]. split; [apply elements_empty|]. split; [done|lia].
      * destruct Ho as [|[He Hu]]; [done|]. split; [done|]. split; [by apply Hu|]. by right.
Qed.

(** The route read back from the search states. *)
Lemma route_found s : found s ->
  match parent_edge (st (graph s) goal) with
  | None => start = goal
  | Some _ =>
      exists g' es, loop (S (S (length (graph s)))) (walk_round goal) (graph s, []) = Some (g', reverse es) /\ skeleton g' = skeleton g0 /\
        best g' goal = best (graph s) goal /\ path start es goal (best (graph s) goal) /\ es <> []
  end.
Proof using GO goal_range.
  clear goal_unique goal_number. intros (Hsk & Horig & _ & _ & (D & HlD & Hreach & Hord & HgD) & _). destruct (walk_spec (graph s) Hsk Horig goal_range D goal Hreach Hord HgD) as (es & Hp & Hne & Hloop).
  destruct (parent_edge (st (graph s) goal)) as [e|] eqn:Epar.
  - destruct (Hloop (graph s) [] (S (S (length (graph s))))) as (g' & El & Hs' & Hb'); [done..| |].
    + pose proof (skeleton_len _ _ Hsk) as Hl. unfold alen in Hl. lia.
    + exists g', es. split; [done|]. split; [done|]. split; [done|]. split; [done|]. by apply Hne.
  - destruct Hreach as [[-> _]|(u & j & edge & t & _ & Hpar & _)]; [done|congruence].
Qed.
End optimality.

(** ** Theorems *)

Section theorems.
Context {Any Request P : Type} `{EdgeCostFunction Any Request P} `{Q : PriorityQueue NodeElement}
  {QL : PriorityQueueLaws Q NodeComparator (fun a => is_nan (fst a) = false)}.
Context (blocked_ids : list Z) (req : Request).
Implicit Types (s : Search Any P) (g : Graph Any).

(** C6. The planner is optimal: on a well-typed graph whose edges have a steady
    nonnegative cost, and whose goal has a number of its own, whatever the
    priority queue does with ties, [findRoute] returns a path from the start to
    the goal through allowed edges with its cost as the code adds it up, and no
    path costs less; it says that there is no route only when none has a finite
    cost or when the goal is the start, and that time is out only when the
    iterations allowed are at most one more than the edges. The queue is left
    empty and the graph as it was. *)
Theorem findRoute_optimal s start goal sn gn steady weight :
  graph_ok (graph s) -> aget (graph s) start = Some sn -> aget (graph s) goal = Some gn ->
  (forall v n, aget (graph s) v = Some n -> nodeid n = nodeid gn -> v = goal) ->
  steady_costs blocked_ids req (graph s) (nodeid sn) (nodeid gn) steady weight -> steady (plugins (planner s)) ->
  elements (queue_ (planner s)) = [] -> 0 <= max_iterations (planner s) ->
  exists s' o, findRoute s start goal blocked_ids req = Some (s', o) /\ elements (queue_ (planner s')) = [] /\ skeleton (graph s') = skeleton (graph s) /\
    match o with
    | Value route =>
        start_node route = start /\ path (graph s) weight start (edges route) goal (route_cost route) /\
        forall es c, path (graph s) weight start es goal c -> fle (route_cost route) c = true
    | Throw NoValidRouteCouldBeFound => start = goal \/ forall es c, path (graph s) weight start es goal c -> fle float_max c = true
    | Throw TimedOut => max_iterations (planner s) <= 1 + Z.of_nat (total_edges (graph s))
    | Throw _ => False
    end.
Proof.
  intros Hg Es Eg Huniq SC Hpl Hq Hm. pose proof (aget_bounds _ _ _ Es) as Hs. pose proof (aget_bounds _ _ _ Eg) as Hgr.
  assert (Hnum : forall n, aget (graph s) goal = Some n -> nodeid n = nodeid gn) by (intros n En; congruence).
  destruct (findShortest_dijkstra blocked_ids req (graph s) (nodeid sn) (nodeid gn) steady weight SC Hg start goal Huniq Hgr Hnum s eq_refl Hq Hm Hpl (ex_intro _ sn (conj Es eq_refl)))
    as (s1 & o & E1 & He & Hsk & Ho).
  unfold findRoute. rewrite (proj2 (Z.eqb_neq _ _)) by lia. rewrite !(proj2 (in_array_spec _ _)) by done. cbn [negb orb]. rewrite E1. mred.
  destruct o as [u|x]; [|exists s1, (Throw x); by destruct x]. pose proof (skeleton_len _ _ Hsk) as Hl.
  destruct (aget_is_Some (graph s1) goal) as [n1 En1]; [by rewrite Hl|]. rewrite En1. mred.
  assert (Epar : parent_edge (search_state n1) = parent_edge (st (graph s1) goal)) by (unfold st; by rewrite En1). rewrite Epar.
  destruct Ho as [Hf|(_ & Hnone & Hfar)].
  - pose proof (route_found (graph s) weight Hg start goal Hgr s1 Hf) as Hr. destruct Hf as (_ & _ & _ & Hnn & _ & Hmin). destruct (parent_edge (st (graph s1) goal)) as [e|].
    + destruct Hr as (g' & es & -> & Hs' & Hb & Hp & _). mred. destruct (aget_is_Some g' goal) as [n2 En2]; [by rewrite (skeleton_len _ _ Hs')|]. rewrite En2. mred.
      assert (Ec : integrated_cost (search_state n2) = best (graph s1) goal) by (rewrite <- Hb; unfold best, st; by rewrite En2).
      eexists _, _. split; [done|]. split; [done|]. split; [done|]. cbn [start_node edges route_cost]. rewrite Ec, reverse_involutive. split; [done|]. split; [done|].
      intros es' c Hp'. rewrite fle_s_units by first [done|by apply (path_nonneg blocked_ids req _ _ _ _ _ SC _ _ _ _ Hp')]. apply Z.leb_le. by apply (Hmin es').
    + eexists _, _. split; [done|]. split; [done|]. split; [done|]. by left.
  - rewrite Hnone. eexists _, _. split; [done|]. split; [done|]. split; [done|]. right. intros es c Hp.
    rewrite fle_s_units by first [done|by apply (path_nonneg blocked_ids req _ _ _ _ _ SC _ _ _ _ Hp)]. apply Z.leb_le. by apply (Hfar es).
Qed.
End theorems.

(** ** Fixed costs *)

Section fixed.
Context {Any Request P : Type} `{EdgeCostFunction Any Request P} `{Q : PriorityQueue NodeElement}.
Context (blocked_ids : list Z) (req : Request).

(** No edge is left to the plugins, and every cost is positive. *)
Definition fixed_costs (g : Graph Any) : Prop :=
  forall i j edge, edge_at g (i, j) = Some edge ->
    overridable (edge_cost edge) = false /\ s_nonneg (cost (edge_cost edge)) = true /\ fle (cost (edge_cost edge)) (S754_zero false) = false.

(** The cost of an edge that is not blocked. *)
Definition fixed_weight (g : Graph Any) (e : EdgePtr) : option spec_float :=
  edge ← edge_at g e; b ← is_blocked g edge blocked_ids; if (b : bool) then None else Some (cost (edge_cost edge)).

Lemma is_blocked_skeleton (g g' : Graph Any) edge : skeleton g = skeleton g' -> is_blocked g edge blocked_ids = is_blocked g' edge blocked_ids.
Proof.
  intros E. assert (Hd : forall p, nodeid <$> deref g p = nodeid <$> deref g' p).
  { intros [v|]; [|done]. unfold deref. cbn. destruct (aget g v) as [n|] eqn:En.
    - destruct (skeleton_node g g' v n E En) as (n' & -> & Hs). cbn. f_equal. by injection Hs.
    - destruct (aget g' v) as [n'|] eqn:En'; [|done]. destruct (skeleton_node g' g v n' (eq_sym E) En') as (n & En2 & _). congruence. }
  induction blocked_ids as [|id ids IH]; cbn [is_blocked]; [done|]. destruct (id =? edgeid edge); [done|]. specialize (Hd (e_end edge)).
  destruct (deref g (e_end edge)) as [n|], (deref g' (e_end edge)) as [n'|]; try discriminate Hd; [|done]. mred. injection Hd as ->. by rewrite IH.
Qed.

Lemma fixed_costs_steady (g : Graph Any) start_i goal_i : graph_ok g -> fixed_costs g ->
  steady_costs (P := P) blocked_ids req g start_i goal_i (fun _ => True) (fixed_weight g).
Proof.
  intros Hg Hf. split.
  - intros r g' i j edge _ _ _ Hsk He. exists r. split; [|done]. destruct (Hf i j edge He) as (Hov & _ & Hpos). destruct (edge_at_ok g i j edge Hg He) as (_ & _ & v & Ev & Hv).
    unfold getTraversalCost, fixed_weight. rewrite He, (skeleton_edge g g' (i, j) edge (eq_sym Hsk) He). mred. rewrite (is_blocked_skeleton g' g edge Hsk).
    destruct (is_blocked_defined blocked_ids g edge v Ev Hv) as [b ->]. mred. destruct b; [done|]. rewrite Hov. cbn [negb orb]. by rewrite Hpos.
  - intros [i j] t. unfold fixed_weight. destruct (edge_at g (i, j)) as [edge|] eqn:He; [|done]. mred. destruct (is_blocked g edge blocked_ids) as [[]|]; [done| |done].
    mred. intros [= <-]. by apply (Hf i j edge He).
Qed.
End fixed.
