(* ===== verification/RouteScorers.v ===== *)
(** Scoring plugins of the route server
    (nav2_route/plugins/edge_cost_functions): the distance, the penalty and the
    dynamic closures, as instances of the interface of RoutePlanner.v, and the
    planner run with them. *)

From stdpp Require Import gmap strings.
From S2P Require Import Prelude Floats FloatOrder PriorityQueue RouteTypes RoutePlanner.

(** ** The plugins *)

(** The request of the service of [DynamicEdgesScorer]. *)
Record DynamicEdges := mkDynamicEdges { closed_edges : list Z; opened_edges : list Z; adjust_edges : list (Z * spec_float) }.

Inductive Scorer :=
| DistanceScorer (speed_tag : string) (weight : spec_float)
| PenaltyScorer (penalty_tag : string) (weight : spec_float)
| DynamicEdgesScorer (closed : gset Z) (dynamic_penalties : gmap Z spec_float).

Section scorers.
Context {Any Request : Type} (any_float : Any -> option spec_float) (hypotf : spec_float -> spec_float -> spec_float).

(** A pointer that leads nowhere, which no edge of a well-typed graph has, is
    counted as an exception. *)
Definition distance_score (speed_tag : string) (weight : spec_float) (g : Graph Any) (edge : DirectionalEdge Any) : option (bool * spec_float) :=
  speed_val ← getValue any_float (e_metadata edge) speed_tag f_one;
  t ← deref g (e_end edge); s ← deref g (e_start edge);
  Some (true, sdiv (smul weight (hypotf (ssub (coord_x (coords t)) (coord_x (coords s))) (ssub (coord_y (coords t)) (coord_y (coords s))))) speed_val).

Definition penalty_score (penalty_tag : string) (weight : spec_float) (edge : DirectionalEdge Any) : option (bool * spec_float) :=
  penalty_val ← getValue any_float (e_metadata edge) penalty_tag (S754_zero false);
  Some (true, smul weight penalty_val).

Definition dynamic_score (closed : gset Z) (penalties : gmap Z spec_float) (edge : DirectionalEdge Any) : option (bool * spec_float) :=
  if bool_decide (edgeid edge ∈ closed) then Some (false, S754_zero false)
  else Some (true, match penalties !! edgeid edge with Some c => c | None => S754_zero false end).

Definition scorer_score (p : Scorer) (g : Graph Any) (e : EdgePtr) : option (bool * spec_float) :=
  edge ← edge_at g e;
  match p with
  | DistanceScorer speed_tag weight => distance_score speed_tag weight g edge
  | PenaltyScorer penalty_tag weight => penalty_score penalty_tag weight edge
  | DynamicEdgesScorer closed penalties => dynamic_score closed penalties edge
  end.

#[export] Instance scorer_plugin : EdgeCostFunction Any Request Scorer := {|
  prepare p := (p, Some tt);
  score p g e req type := (p, scorer_score p g e);
|}.
End scorers.

(** [closedEdgesCb] *)
Definition closedEdgesCb (request : DynamicEdges) (closed : gset Z) (penalties : gmap Z spec_float) : gset Z * gmap Z spec_float :=
  let closed := foldl (fun c edge => {[edge]} ∪ c) closed (closed_edges request) in
  let closed := foldl (fun c edge => if bool_decide (edge ∈ c) then c ∖ {[edge]} else c) closed (opened_edges request) in
  (closed, foldl (fun m edge => <[edge.1 := edge.2]> m) penalties (adjust_edges request)).

(** ** The closures *)

Lemma closing_spec l (c : gset Z) k : k ∈ foldl (fun c edge => {[edge]} ∪ c) c l <-> k ∈ c \/ k ∈ l.
Proof. revert c. induction l as [|x l IH]; intros c; cbn [foldl]; [set_solver|]. rewrite IH, elem_of_union, elem_of_singleton, elem_of_cons. tauto. Qed.

Lemma opening_spec l (c : gset Z) k : k ∈ foldl (fun c edge => if bool_decide (edge ∈ c) then c ∖ {[edge]} else c) c l <-> k ∈ c /\ k ∉ l.
Proof.
  revert c. induction l as [|x l IH]; intros c; cbn [foldl]; [set_solver|]. rewrite IH, elem_of_cons.
  case_bool_decide; [rewrite elem_of_difference, elem_of_singleton; tauto|]. split; [|tauto]. intros [Hk Hl]. split; [done|]. by intros [->|].
Qed.

Lemma penalties_spec l (m : gmap Z spec_float) k : k ∉ l.*1 -> foldl (fun m edge => <[edge.1 := edge.2]> m) m l !! k = m !! k.
Proof.
  revert m. induction l as [|[x c] l IH]; intros m Hk; cbn [foldl]; [done|]. cbn in Hk. rewrite IH by set_solver. rewrite lookup_insert_ne by set_solver. done.
Qed.

Lemma penalties_last l l' (m : gmap Z spec_float) k c : k ∉ l'.*1 -> foldl (fun m edge => <[edge.1 := edge.2]> m) m (l ++ (k, c) :: l') !! k = Some c.
Proof. intros Hk. rewrite foldl_app. cbn [foldl]. rewrite penalties_spec by done. by rewrite lookup_insert_eq. Qed.

Section closures.
Context {Any Request : Type} (any_float : Any -> option spec_float) (hypotf : spec_float -> spec_float -> spec_float).

(** After a request, an edge is refused exactly when it was closed, before or
    by the request, and is not reopened by it; the last adjustment of an edge
    is its cost, and the others keep theirs. *)
Theorem closedEdgesCb_scores request closed penalties (g : Graph Any) e edge :
  edge_at g e = Some edge ->
  let '(closed', penalties') := closedEdgesCb request closed penalties in
  exists ok c, scorer_score any_float hypotf (DynamicEdgesScorer closed' penalties') g e = Some (ok, c) /\
    (ok = false <-> (edgeid edge ∈ closed \/ edgeid edge ∈ closed_edges request) /\ edgeid edge ∉ opened_edges request) /\
    (forall l l' c', adjust_edges request = l ++ (edgeid edge, c') :: l' -> edgeid edge ∉ l'.*1 -> ok = true -> c = c') /\
    (edgeid edge ∉ (adjust_edges request).*1 -> ok = true -> c = default (S754_zero false) (penalties !! edgeid edge)).
Proof.
  intros He. unfold closedEdgesCb, scorer_score. rewrite He. mred. unfold dynamic_score. set (closed' := foldl _ (foldl _ _ _) _). set (penalties' := foldl _ penalties _).
  assert (Hc : edgeid edge ∈ closed' <-> (edgeid edge ∈ closed \/ edgeid edge ∈ closed_edges request) /\ edgeid edge ∉ opened_edges request) by (subst closed'; by rewrite opening_spec, closing_spec).
  case_bool_decide as Hin; eexists _, _; (split; [done|]).
  - split; [by rewrite <- Hc|]. split; [done|]. done.
  - split; [split; [done|by rewrite <- Hc]|]. subst penalties'. split.
    + intros l l' c' -> Hl' _. by rewrite penalties_last.
    + intros Hk _. rewrite penalties_spec by done. by destruct (penalties !! _).
Qed.
End closures.

(** ** Costs from the plugins *)

Section scored.
Context {Any Request : Type} (any_float : Any -> option spec_float) (hypotf : spec_float -> spec_float -> spec_float).
Context `{Q : PriorityQueue NodeElement} (blocked_ids : list Z) (req : Request).
#[local] Existing Instance scorer_plugin.
Implicit Types (g : Graph Any) (ps : list Scorer).

Lemma deref_skeleton g g' p : skeleton g = skeleton g' -> strip <$> deref g p = strip <$> deref g' p.
Proof.
  intros E. destruct p as [v|]; [|done]. unfold deref. cbn. pose proof (aget_fmap strip g v) as H1. pose proof (aget_fmap strip g' v) as H2.
  fold (skeleton g) in H1. fold (skeleton g') in H2. by rewrite <- H1, <- H2, E.
Qed.

Lemma scorer_score_skeleton p g g' e : skeleton g = skeleton g' -> scorer_score any_float hypotf p g e = scorer_score any_float hypotf p g' e.
Proof.
  intros E. unfold scorer_score. destruct (edge_at g e) as [edge|] eqn:He.
  - rewrite (skeleton_edge g g' e edge E He). mred. destruct p as [tag w|tag w|closed pen]; [|done..]. unfold distance_score. destruct (getValue _ _ _ _) as [v|]; [|done]. mred.
    pose proof (deref_skeleton g g' (e_end edge) E) as Ht. pose proof (deref_skeleton g g' (e_start edge) E) as Hs.
    destruct (deref g (e_end edge)) as [t|], (deref g' (e_end edge)) as [t'|]; try discriminate Ht; [|done]. mred.
    destruct (deref g (e_start edge)) as [s|], (deref g' (e_start edge)) as [s'|]; try discriminate Hs; [|done]. mred.
    assert (coords t = coords t') as -> by (by injection Ht). assert (coords s = coords s') as -> by (by injection Hs). done.
  - destruct (edge_at g' e) as [edge|] eqn:He'; [|done]. by rewrite (skeleton_edge g' g e edge (eq_sym E) He') in He.
Qed.

(** The sum of the scores, none when a plugin refuses the edge. *)
Fixpoint total_score g (e : EdgePtr) (total : spec_float) ps : option (bool * spec_float) :=
  match ps with
  | [] => Some (true, total)
  | p :: ps =>
      '(ok, c) ← scorer_score any_float hypotf p g e;
      if (ok : bool) then total_score g e (sadd total c) ps else Some (false, total)
  end.

Lemma prepare_all_scorers ps : prepare_all (Any := Any) (Request := Request) (H := scorer_plugin any_float hypotf) ps = (ps, Value tt).
Proof. induction ps as [|p ps IH]; [done|]. cbn [prepare_all prepare scorer_plugin]. by rewrite IH. Qed.

Lemma score_all_scorers g e type total ps : score_all (H := scorer_plugin any_float hypotf) g e req type total ps =
  (ps, match total_score g e total ps with Some r => Value r | None => Throw PluginException end).
Proof.
  revert total. induction ps as [|p ps IH]; intros total; [done|]. cbn [score_all score scorer_plugin total_score].
  destruct (scorer_score _ _ p g e) as [[[] c]|]; mred; [|done..]. by rewrite IH.
Qed.

(** Every plugin scores every edge, with a nonnegative cost, and the fixed
    costs are positive. *)
Record scored_costs g ps : Prop := {
  sc_scores i j edge p : edge_at g (i, j) = Some edge -> p ∈ ps -> exists ok c, scorer_score any_float hypotf p g (i, j) = Some (ok, c) /\ s_nonneg c = true;
  sc_fixed i j edge : edge_at g (i, j) = Some edge -> overridable (edge_cost edge) = false \/ ps = [] ->
    s_nonneg (cost (edge_cost edge)) = true /\ fle (cost (edge_cost edge)) (S754_zero false) = false;
}.

Definition scored_weight g ps (e : EdgePtr) : option spec_float :=
  edge ← edge_at g e; b ← is_blocked g edge blocked_ids;
  if (b : bool) then None
  else if negb (overridable (edge_cost edge)) || (alen ps =? 0) then Some (cost (edge_cost edge))
  else '(ok, c) ← total_score g e (S754_zero false) ps; if (ok : bool) then Some c else None.

Lemma total_score_nonneg g e total ps : (forall p, p ∈ ps -> exists ok c, scorer_score any_float hypotf p g e = Some (ok, c) /\ s_nonneg c = true) ->
  s_nonneg total = true -> exists ok c, total_score g e total ps = Some (ok, c) /\ s_nonneg c = true.
Proof.
  revert total. induction ps as [|p ps IH]; intros total Hps Ht; cbn [total_score]; [by eexists _, _|].
  destruct (Hps p ltac:(by left)) as (ok & c & -> & Hc). mred. destruct ok; [|by eexists _, _]. apply IH; [|by apply sadd_nonneg]. intros p' Hp'. apply Hps. by right.
Qed.

Lemma scorers_steady g ps start_i goal_i : graph_ok g -> scored_costs g ps ->
  steady_costs (H := scorer_plugin any_float hypotf) blocked_ids req g start_i goal_i (fun l => l = ps) (scored_weight g ps).
Proof.
  intros Hg [Hsc Hfix]. split.
  - intros r g' i j edge Hr _ _ Hsk He. pose proof (skeleton_edge g g' (i, j) edge (eq_sym Hsk) He) as He'. destruct (edge_at_ok g i j edge Hg He) as (_ & _ & v & Ev & Hv).
    unfold getTraversalCost, scored_weight. rewrite He, He'. mred. rewrite (is_blocked_skeleton blocked_ids g' g edge Hsk).
    destruct (is_blocked_defined blocked_ids g edge v Ev Hv) as [b ->]. mred. destruct b; [by exists r|]. unfold numPlugins. rewrite Hr.
    destruct (negb (overridable (edge_cost edge)) || (alen ps =? 0)) eqn:Ef.
    + destruct (Hfix i j edge He) as [_ ->]; [|by exists r]. apply orb_true_iff in Ef as [Ho%negb_true_iff|Hl%Z.eqb_eq]; [by left|right]. by destruct ps.
    + destruct (classifyEdge_defined r g' i j edge (skeleton_ok g g' (eq_sym Hsk) Hg) He') as [type ->]. mred. unfold score_edge. rewrite prepare_all_scorers, score_all_scorers.
      assert (Et : forall l total, total_score g' (i, j) total l = total_score g (i, j) total l).
      { induction l as [|p l IH]; intros total; [done|]. cbn [total_score]. rewrite (scorer_score_skeleton p g' g _ Hsk). destruct (scorer_score _ _ p g (i, j)) as [[[] c]|]; mred; [|done..]. apply IH. }
      rewrite Et. destruct (total_score_nonneg g (i, j) (S754_zero false) ps) as (ok & c & -> & _); [intros p Hp; by apply (Hsc i j edge)|done|]. mred.
      exists (set_plugins r ps). by destruct ok.
  - intros [i j] t. unfold scored_weight. destruct (edge_at g (i, j)) as [edge|] eqn:He; [|done]. mred. destruct (is_blocked g edge blocked_ids) as [[]|]; mred; [done| |done].
    destruct (negb _ || _) eqn:Ef.
    + intros [= <-]. apply (Hfix i j edge He). apply orb_true_iff in Ef as [Ho%negb_true_iff|Hl%Z.eqb_eq]; [by left|right]. by destruct ps.
    + destruct (total_score_nonneg g (i, j) (S754_zero false) ps) as (ok & c & -> & Hc); [intros p Hp; by apply (Hsc i j edge)|done|]. mred. destruct ok; [|done]. by intros [= <-].
Qed.
End scored.

(** ** Examples *)

Definition sample_edge (id s t : Z) (c : spec_float) (o : bool) : DirectionalEdge spec_float :=
  mkEdge id (Some s) (Some t) (mkEdgeCost c o) (mkMetadata ∅) [].

Definition sample_node (id : Z) (es : list (DirectionalEdge spec_float)) : Node spec_float :=
  mkNode id (mkCoordinates "map" f_zero f_zero) es (mkMetadata ∅) [] search_reset.

(** Two ways from the node 0 to the node 3: through 1, at the fixed cost 2, and
    through 2, at the cost of the plugins. *)
Definition sample_graph : Graph spec_float :=
  [sample_node 100 [sample_edge 10 0 1 (s_of_Z 1) false; sample_edge 12 0 2 f_zero true]; sample_node 101 [sample_edge 11 1 3 (s_of_Z 1) false];
   sample_node 102 [sample_edge 13 2 3 f_zero true]; sample_node 103 []].

Definition sample_penalties : gmap Z spec_float := {[12 := s_of_Z 1; 13 := s_of_Z 3]}.

#[local] Instance sample_plugin : EdgeCostFunction spec_float unit Scorer := scorer_plugin Some sadd.

Definition sample_search (m : Z) (scorers : list Scorer) (g : Graph spec_float) : Search spec_float Scorer (Q := node_queue) :=
  mkState (mkPlanner m 0 0 [] scorers) g.

Definition found_route (r : option (Search spec_float Scorer * outcome Route)) : option (outcome Route) := snd <$> r.

Example route_fixed : found_route (findRoute (sample_search 20 [DynamicEdgesScorer ∅ sample_penalties] sample_graph) 0 3 [] tt) =
  Some (Value (mkRoute 0 [(0, 0); (1, 0)] (s_of_Z 2))).
Proof. vm_compute. reflexivity. Qed.

Example route_blocked : found_route (findRoute (sample_search 20 [DynamicEdgesScorer ∅ sample_penalties] sample_graph) 0 3 [101] tt) =
  Some (Value (mkRoute 0 [(0, 1); (2, 0)] (s_of_Z 4))).
Proof. vm_compute. reflexivity. Qed.

Example route_closed : found_route (findRoute (sample_search 20 [DynamicEdgesScorer {[13]} sample_penalties] sample_graph) 0 3 [11] tt) =
  Some (Throw NoValidRouteCouldBeFound).
Proof. vm_compute. reflexivity. Qed.

Example route_timed_out : found_route (findRoute (sample_search 2 [DynamicEdgesScorer ∅ sample_penalties] sample_graph) 0 3 [] tt) =
  Some (Throw TimedOut).
Proof. vm_compute. reflexivity. Qed.

(** Case analysis on the nodes and edges of a concrete graph. *)
Lemma index_cases {A} (l : list A) i x : aget l i = Some x -> (i, x) ∈ imap (fun k y => (Z.of_nat k, y)) l.
Proof.
  intros H. pose proof (aget_bounds _ _ _ H) as B. unfold aget in H. rewrite (proj2 (in_array_spec l i) B) in H.
  apply list_elem_of_lookup_2 with (Z.to_nat i). rewrite list_lookup_imap, H. cbn. by rewrite Z2Nat.id by lia.
Qed.

(** The edges of a graph with their pointers. *)
Definition all_edges {Any} (g : Graph Any) : list (EdgePtr * DirectionalEdge Any) :=
  '(i, n) ← imap (fun k y => (Z.of_nat k, y)) g; '(j, e) ← imap (fun k y => (Z.of_nat k, y)) (neighbors n); [((i, j), e)].

Lemma all_edges_complete {Any} (g : Graph Any) i j e : edge_at g (i, j) = Some e -> ((i, j), e) ∈ all_edges g.
Proof.
  unfold edge_at. cbn [fst snd]. destruct (aget g i) as [n|] eqn:En; [|done]. cbn. intros He. unfold all_edges. apply list_elem_of_bind. exists (i, n). split.
  - apply list_elem_of_bind. exists (j, e). split; [by apply list_elem_of_singleton|by apply index_cases].
  - by apply index_cases.
Qed.

Lemma sample_graph_ok : graph_ok sample_graph.
Proof.
  intros i n j e Hn He. assert (Hin : ((i, j), e) ∈ all_edges sample_graph) by (apply all_edges_complete; unfold edge_at; cbn [fst snd]; rewrite Hn; exact He).
  assert (Hall : Forall (fun a : EdgePtr * DirectionalEdge spec_float => e_start (snd a) = Some (fst (fst a)) /\ exists v, e_end (snd a) = Some v /\ 0 <= v < 4) (all_edges sample_graph)).
  { change (all_edges sample_graph) with [((0, 0), sample_edge 10 0 1 (s_of_Z 1) false); ((0, 1), sample_edge 12 0 2 f_zero true); ((1, 0), sample_edge 11 1 3 (s_of_Z 1) false); ((2, 0), sample_edge 13 2 3 f_zero true)].
    repeat constructor; cbn; eexists; (split; [done|lia]). }
  exact (proj1 (Forall_forall _ _) Hall _ Hin).
Qed.

Lemma sample_costs : scored_costs Some sadd sample_graph [DynamicEdgesScorer ∅ sample_penalties].
Proof.
  assert (Hall : forall i j e, edge_at sample_graph (i, j) = Some e -> Forall (fun a : EdgePtr * DirectionalEdge spec_float =>
      (exists c, scorer_score Some sadd (DynamicEdgesScorer ∅ sample_penalties) sample_graph (fst a) = Some (true, c) /\ s_nonneg c = true) /\
      (overridable (edge_cost (snd a)) = true \/ s_nonneg (cost (edge_cost (snd a))) = true /\ fle (cost (edge_cost (snd a))) (S754_zero false) = false)) (all_edges sample_graph)).
  { intros _ _ _ _. change (all_edges sample_graph) with [((0, 0), sample_edge 10 0 1 (s_of_Z 1) false); ((0, 1), sample_edge 12 0 2 f_zero true); ((1, 0), sample_edge 11 1 3 (s_of_Z 1) false); ((2, 0), sample_edge 13 2 3 f_zero true)].
    repeat apply Forall_cons_2; [..|done]; (split; [eexists; split; vm_compute; reflexivity|first [by left|right; by vm_compute]]). }
  split.
  - intros i j e p He ->%list_elem_of_singleton. destruct (proj1 (Forall_forall _ _) (Hall i j e He) _ (all_edges_complete _ i j e He)) as [(c & Ec & Hc) _]. by exists true, c.
  - intros i j e He [Ho|]; [|done]. destruct (proj1 (Forall_forall _ _) (Hall i j e He) _ (all_edges_complete _ i j e He)) as [_ [Ht|Hf]]; [cbn in Ht; congruence|done].
Qed.

Lemma findRoute_optimal_witness :
  (exists es, path sample_graph (scored_weight Some sadd [] sample_graph [DynamicEdgesScorer ∅ sample_penalties]) 0 es 3 (s_of_Z 2)) /\
  forall es c, path sample_graph (scored_weight Some sadd [] sample_graph [DynamicEdgesScorer ∅ sample_penalties]) 0 es 3 c -> fle (s_of_Z 2) c = true.
Proof.
  destruct (findRoute_optimal [] tt (sample_search 20 [DynamicEdgesScorer ∅ sample_penalties] sample_graph) 0 3 (sample_node 100 [sample_edge 10 0 1 (s_of_Z 1) false; sample_edge 12 0 2 f_zero true])
    (sample_node 103 []) (fun l => l = [DynamicEdgesScorer ∅ sample_penalties]) (scored_weight Some sadd [] sample_graph [DynamicEdgesScorer ∅ sample_penalties]))
    as (s' & o & E & _ & _ & Ho).
  - exact sample_graph_ok.
  - reflexivity.
  - reflexivity.
  - intros v n Hn Hid. apply index_cases in Hn. cbn [imap sample_search graph sample_graph] in Hn. unfold sample_node in Hn.
    repeat (apply elem_of_cons in Hn as [[= -> ->]|Hn]; [cbn in Hid; lia|]). by apply not_elem_of_nil in Hn.
  - apply scorers_steady; [exact sample_graph_ok|exact sample_costs].
  - reflexivity.
  - reflexivity.
  - cbn. lia.
  - pose proof route_fixed as R. rewrite E in R. cbn in R. injection R as ->. destruct Ho as (_ & Hpath & Hmin). split; [eexists; exact Hpath|]. intros es c Hp. by apply (Hmin es).
Defined.

Lemma findShortestGraphTraversal_safe_witness :
  exists s' o, findShortestGraphTraversal (sample_search 20 [PenaltyScorer "penalty" S754_nan] sample_graph) 0 3 [] tt = Some (s', o) /\ search_ok sample_graph s'.
Proof.
  destruct (findShortestGraphTraversal_safe [] tt sample_graph (sample_search 20 [PenaltyScorer "penalty" S754_nan] sample_graph) 0 3) as (s' & o & E & Hs & _).
  - exact sample_graph_ok.
  - split; [done|by apply Forall_nil].
  - cbn. lia.
  - change (alen sample_graph) with 4. lia.
  - change (alen sample_graph) with 4. lia.
  - by exists s', o.
Defined.

Lemma closedEdgesCb_scores_witness :
  exists c, scorer_score (Any := spec_float) Some sadd (DynamicEdgesScorer {[10]} (<[13 := s_of_Z 5]> sample_penalties)) sample_graph (2, 0) = Some (true, c) /\ c = s_of_Z 5.
Proof.
  pose proof (closedEdgesCb_scores (Any := spec_float) Some sadd (mkDynamicEdges [10; 13] [13] [(13, s_of_Z 5)]) ∅ sample_penalties sample_graph (2, 0) (sample_edge 13 2 3 f_zero true) eq_refl) as H.
  cbv zeta in H. destruct H as (ok & c & E & _ & Hadj & _). vm_compute in E. injection E as <- <-. eexists. split; [vm_compute; reflexivity|].
  apply (Hadj [] [] (s_of_Z 5)); [reflexivity|apply not_elem_of_nil|reflexivity].
Defined.

(** ** Limits *)

(** A fixed cost that is not positive is found in the middle of the search:
    the exception leaves the entry of the node 1 in the queue. *)
Example invalid_cost_leaves_queue :
  match findRoute (sample_search 20 [] [sample_node 100 [sample_edge 10 0 1 (s_of_Z 1) false; sample_edge 11 0 2 f_zero false]; sample_node 101 []; sample_node 102 []]) 0 2 [] tt with
  | Some (s', o) => o = Throw NoValidGraph /\ elements (queue_ (planner s')) = [(s_of_Z 1, 1)]
  | None => False
  end.
Proof. vm_compute. done. Qed.

(** The costs of the plugins are not checked: with two negative ones the
    edges that lead to the nodes 1 and 2 form a cycle, and the walk back from
    the goal, which is given enough iterations to be found, does not end. *)
Definition cycle_graph : Graph spec_float :=
  [sample_node 100 [sample_edge 10 0 1 f_zero true]; sample_node 101 [sample_edge 11 1 2 f_zero true; sample_edge 13 1 3 f_zero true];
   sample_node 102 [sample_edge 12 2 1 f_zero true]; sample_node 103 []].

Definition cycle_penalties : gmap Z spec_float := {[10 := s_of_Z 1; 11 := SFopp float_max; 12 := SFopp float_max; 13 := s_of_Z 1]}.

Example negative_costs_cycle :
  match findShortestGraphTraversal (sample_search 20 [DynamicEdgesScorer ∅ cycle_penalties] cycle_graph) 0 3 [] tt with
  | Some (s', o) => o = Value tt /\ forall fuel, loop fuel (walk_round 3) (graph s', []) = None
  | None => False
  end.
Proof.
  set (r := findShortestGraphTraversal _ _ _ _ _). vm_compute in r. subst r. cbv iota beta. split; [done|]. cbn [graph].
  match goal with |- forall fuel, loop fuel _ (?g, []) = None => set (g0 := g) end.
  destruct (walk_round 3 (g0, [])) as [[[g1 f1]|]|] eqn:E1; [|vm_compute in E1; discriminate..].
  destruct (walk_round 3 (g1, [])) as [[[g2 f2]|]|] eqn:E2; [|vm_compute in E1; injection E1 as <- <-; vm_compute in E2; discriminate..].
  assert (S1 : forall l, walk_round 3 (g1, l) = Some (Next (g2, l ++ [(2, 0)]))).
  { vm_compute in E1. injection E1 as <- <-. vm_compute in E2. injection E2 as <- <-. intros l. vm_compute. reflexivity. }
  assert (S2 : forall l, walk_round 3 (g2, l) = Some (Next (g1, l ++ [(1, 0)]))).
  { vm_compute in E1. injection E1 as <- <-. vm_compute in E2. injection E2 as <- <-. intros l. vm_compute. reflexivity. }
  assert (Hloop : forall fuel l, loop fuel (walk_round 3) (g1, l) = None /\ loop fuel (walk_round 3) (g2, l) = None).
  { induction fuel as [|fuel IH]; intros l; [done|]. cbn [loop]. rewrite S1, S2. mred. split; apply IH. }
  intros [|fuel]; [done|].
  enough (E : (c ← walk_round 3 (g0, []); match c with Next s' => loop fuel (walk_round 3) s' | Break s' => Some s' end) = None) by exact E.
  rewrite E1. mred. apply Hloop.
Qed.
