(* ===== verification/FilterBase.v ===== *)
(** The base class of the filters of robot_localization (filter_base.cpp,
    filter_base.hpp, filter_common.hpp, measurement.hpp): vectors and matrices,
    the state of a filter, the cycle of prediction and correction. [predict]
    and [correct], virtual methods, are an interface with its laws; the
    products, inverses and decompositions of Eigen are another. *)

From S2P Require Import Prelude Floats.

(** ** Vectors and matrices *)

Abbreviation Vec := (list spec_float) (only parsing).

(** Coefficients by rows. *)
Record Mat := mkMat { rows : Z; cols : Z; coeffs : list spec_float }.

Definition mat_ok (n m : Z) (M : Mat) : Prop := rows M = n /\ cols M = m /\ 0 <= n /\ 0 <= m /\ alen (coeffs M) = n * m.

(** [M(i, j)] and [M(i, j) = x]. *)
Definition mindex (M : Mat) (i j : Z) : option Z := if (0 <=? i) && (i <? rows M) && (0 <=? j) && (j <? cols M) then Some (i * cols M + j) else None.
Definition mget (M : Mat) (i j : Z) : option spec_float := k ← mindex M i j; aget (coeffs M) k.
Definition mset (M : Mat) (i j : Z) (x : spec_float) : option Mat := k ← mindex M i j; l ← aset (coeffs M) k x; Some (mkMat (rows M) (cols M) l).

Definition mfill (n m : Z) (x : spec_float) : Mat := mkMat n m (anew (n * m) x).
Definition mzero (n m : Z) : Mat := mfill n m f_zero.
Definition midentity (n : Z) : Mat := mkMat n n ((fun k => if k / n =? k mod n then f_one else f_zero) <$> (Z.of_nat <$> seq 0 (Z.to_nat (n * n)))).
Definition mscale (c : spec_float) (M : Mat) : Mat := mkMat (rows M) (cols M) (fmul c <$> coeffs M).
Definition madd (M N : Mat) : Mat := mkMat (rows M) (cols M) (zip_with fadd (coeffs M) (coeffs N)).
Definition vsub (u v : Vec) : Vec := zip_with fsub u v.
Definition vadd (u v : Vec) : Vec := zip_with fadd u v.
Definition vscale (c : spec_float) (v : Vec) : Vec := fmul c <$> v.
Definition vzero (n : Z) : Vec := anew n f_zero.

(** A sequence of writes. *)
Definition set_entries (M : Mat) (l : list (Z * Z * spec_float)) : option Mat := foldl (fun M e => M ← M; mset M (fst (fst e)) (snd (fst e)) (snd e)) (Some M) l.

(** [M.block<n, m>(i, j)] and its assignment. *)
Definition mblock (M : Mat) (i j n m : Z) : option Mat :=
  for_range 0 n (fun a B => for_range 0 m (fun b B => x ← mget M (i + a) (j + b); mset B a b x) B) (mzero n m).
Definition block_positions (i j n m : Z) : list (Z * Z) := (fun k => (i + k / m, j + k mod m)) <$> seqZ 0 (n * m).
Definition set_mblock (M : Mat) (i j : Z) (B : Mat) : option Mat := set_entries M (zip (block_positions i j (rows B) (cols B)) (coeffs B)).

(** What the filters use of Eigen besides coefficients: the order of the sums
    inside a product is its own. [mat_mul_add M A B] is [M.noalias() += A * B],
    [outer_add M w u v] is [M.noalias() += w * (u * v.transpose())]. *)
Class Eigen := {
  mat_mul : Mat -> Mat -> Mat;
  mat_vec : Mat -> Vec -> Vec;
  mat_mul_add : Mat -> Mat -> Mat -> Mat;
  mat_mul_sub : Mat -> Mat -> Mat -> Mat;
  mat_vec_add : Vec -> Mat -> Vec -> Vec;
  transpose : Mat -> Mat;
  inverse : Mat -> Mat;
  llt_matrixL : Mat -> Mat;
  dot : Vec -> Vec -> spec_float;
  norm : Vec -> spec_float;
  outer_add : Mat -> spec_float -> Vec -> Vec -> Mat;
}.

(** The sizes of the results. *)
Class EigenLaws `{Eigen} : Prop := {
  mat_mul_ok n m p A B : mat_ok n m A -> mat_ok m p B -> mat_ok n p (mat_mul A B);
  mat_vec_ok n m A v : mat_ok n m A -> alen v = m -> alen (mat_vec A v) = n;
  mat_mul_add_ok n m p M A B : mat_ok n p M -> mat_ok n m A -> mat_ok m p B -> mat_ok n p (mat_mul_add M A B);
  mat_mul_sub_ok n m p M A B : mat_ok n p M -> mat_ok n m A -> mat_ok m p B -> mat_ok n p (mat_mul_sub M A B);
  mat_vec_add_ok n m u A v : alen u = n -> mat_ok n m A -> alen v = m -> alen (mat_vec_add u A v) = n;
  transpose_ok n m A : mat_ok n m A -> mat_ok m n (transpose A);
  inverse_ok n A : mat_ok n n A -> mat_ok n n (inverse A);
  llt_matrixL_ok n A : mat_ok n n A -> mat_ok n n (llt_matrixL A);
  outer_add_ok n m M w u v : mat_ok n m M -> alen u = n -> alen v = m -> mat_ok n m (outer_add M w u v);
}.

(** Functions of the C library and of the package angles. *)
Class Trigonometry := {
  c_sin : spec_float -> spec_float;
  c_cos : spec_float -> spec_float;
  c_atan2 : spec_float -> spec_float -> spec_float;
  normalize_angle : spec_float -> spec_float;
}.

(** ** Constants and messages *)

Definition StateMemberX : Z := 0.
Definition StateMemberY : Z := 1.
Definition StateMemberZ : Z := 2.
Definition StateMemberRoll : Z := 3.
Definition StateMemberPitch : Z := 4.
Definition StateMemberYaw : Z := 5.
Definition StateMemberVx : Z := 6.
Definition StateMemberVy : Z := 7.
Definition StateMemberVz : Z := 8.
Definition StateMemberVroll : Z := 9.
Definition StateMemberVpitch : Z := 10.
Definition StateMemberVyaw : Z := 11.
Definition StateMemberAx : Z := 12.
Definition StateMemberAy : Z := 13.
Definition StateMemberAz : Z := 14.

Definition ControlMemberVx : Z := 0.
Definition ControlMemberVy : Z := 1.
Definition ControlMemberVz : Z := 2.
Definition ControlMemberVroll : Z := 3.
Definition ControlMemberVpitch : Z := 4.
Definition ControlMemberVyaw : Z := 5.

Definition STATE_SIZE : Z := 15.
Definition POSITION_OFFSET : Z := StateMemberX.
Definition POSITION_V_OFFSET : Z := StateMemberVx.
Definition TWIST_SIZE : Z := 6.

(** The double nearest to a decimal fraction. *)
Definition f_dec (m e : Z) : spec_float := fdiv (f_of_Z m) (f_of_Z (10 ^ e)).

(** Times and durations are nanoseconds; stamps are not negative and fit in 63
    bits, so that their differences do not overflow. *)
Definition nanosecToSec (nanoseconds : Z) : spec_float := fmul (f_of_Z nanoseconds) (f_dec 1 9).
Definition toSec (duration : Z) : spec_float := nanosecToSec duration.

Record Measurement := mkMeasurement {
  time_ : Z;
  mahalanobis_thresh_ : spec_float;
  m_latest_control_time_ : Z;
  update_vector_ : list bool;
  m_latest_control_ : Vec;
  measurement_ : Vec;
  covariance_ : Mat;
}.

Definition measurement_ok (m : Measurement) : Prop :=
  alen (update_vector_ m) = STATE_SIZE /\ alen (measurement_ m) = STATE_SIZE /\ mat_ok STATE_SIZE STATE_SIZE (covariance_ m).

(** ** The state of a filter *)

(** Members of the class, less those of the debug output, the name of the
    topic and [covariance_epsilon_], which nothing reads. *)
Record FilterBase := mkFilterBase {
  initialized_ : bool;
  use_control_ : bool;
  use_dynamic_process_noise_covariance_ : bool;
  control_timeout_ : Z;
  last_measurement_time_ : Z;
  latest_control_time_ : Z;
  sensor_timeout_ : Z;
  acceleration_gains_ : list spec_float;
  acceleration_limits_ : list spec_float;
  deceleration_gains_ : list spec_float;
  deceleration_limits_ : list spec_float;
  control_update_vector_ : list bool;
  control_acceleration_ : Vec;
  latest_control_ : Vec;
  predicted_state_ : Vec;
  state_ : Vec;
  dynamic_process_noise_covariance_ : Mat;
  estimate_error_covariance_ : Mat;
  identity_ : Mat;
  process_noise_covariance_ : Mat;
  transfer_function_ : Mat;
  transfer_function_jacobian_ : Mat;
}.

Section setters.
Context (b : FilterBase).
Let upd init lmt lc lct acc pred st dyn cov tf tfj := mkFilterBase init (use_control_ b) (use_dynamic_process_noise_covariance_ b) (control_timeout_ b) lmt lct
  (sensor_timeout_ b) (acceleration_gains_ b) (acceleration_limits_ b) (deceleration_gains_ b) (deceleration_limits_ b) (control_update_vector_ b) acc lc pred st dyn cov
  (identity_ b) (process_noise_covariance_ b) tf tfj.

Definition setState (v : Vec) : FilterBase := Eval cbv [upd] in upd (initialized_ b) (last_measurement_time_ b) (latest_control_ b) (latest_control_time_ b)
  (control_acceleration_ b) (predicted_state_ b) v (dynamic_process_noise_covariance_ b) (estimate_error_covariance_ b) (transfer_function_ b) (transfer_function_jacobian_ b).
Definition setEstimateErrorCovariance (M : Mat) : FilterBase := Eval cbv [upd] in upd (initialized_ b) (last_measurement_time_ b) (latest_control_ b) (latest_control_time_ b)
  (control_acceleration_ b) (predicted_state_ b) (state_ b) (dynamic_process_noise_covariance_ b) M (transfer_function_ b) (transfer_function_jacobian_ b).
Definition setLastMeasurementTime (t : Z) : FilterBase := Eval cbv [upd] in upd (initialized_ b) t (latest_control_ b) (latest_control_time_ b)
  (control_acceleration_ b) (predicted_state_ b) (state_ b) (dynamic_process_noise_covariance_ b) (estimate_error_covariance_ b) (transfer_function_ b) (transfer_function_jacobian_ b).
Definition setControl (control : Vec) (t : Z) : FilterBase := Eval cbv [upd] in upd (initialized_ b) (last_measurement_time_ b) control t
  (control_acceleration_ b) (predicted_state_ b) (state_ b) (dynamic_process_noise_covariance_ b) (estimate_error_covariance_ b) (transfer_function_ b) (transfer_function_jacobian_ b).
Definition set_control_acceleration (v : Vec) : FilterBase := Eval cbv [upd] in upd (initialized_ b) (last_measurement_time_ b) (latest_control_ b) (latest_control_time_ b)
  v (predicted_state_ b) (state_ b) (dynamic_process_noise_covariance_ b) (estimate_error_covariance_ b) (transfer_function_ b) (transfer_function_jacobian_ b).
Definition set_predicted_state (v : Vec) : FilterBase := Eval cbv [upd] in upd (initialized_ b) (last_measurement_time_ b) (latest_control_ b) (latest_control_time_ b)
  (control_acceleration_ b) v (state_ b) (dynamic_process_noise_covariance_ b) (estimate_error_covariance_ b) (transfer_function_ b) (transfer_function_jacobian_ b).
Definition set_dynamic (M : Mat) : FilterBase := Eval cbv [upd] in upd (initialized_ b) (last_measurement_time_ b) (latest_control_ b) (latest_control_time_ b)
  (control_acceleration_ b) (predicted_state_ b) (state_ b) M (estimate_error_covariance_ b) (transfer_function_ b) (transfer_function_jacobian_ b).
Definition set_transfer (M J : Mat) : FilterBase := Eval cbv [upd] in upd (initialized_ b) (last_measurement_time_ b) (latest_control_ b) (latest_control_time_ b)
  (control_acceleration_ b) (predicted_state_ b) (state_ b) (dynamic_process_noise_covariance_ b) (estimate_error_covariance_ b) M J.
Definition set_initialized (i : bool) : FilterBase := Eval cbv [upd] in upd i (last_measurement_time_ b) (latest_control_ b) (latest_control_time_ b)
  (control_acceleration_ b) (predicted_state_ b) (state_ b) (dynamic_process_noise_covariance_ b) (estimate_error_covariance_ b) (transfer_function_ b) (transfer_function_jacobian_ b).

Definition setProcessNoiseCovariance (M : Mat) : FilterBase :=
  mkFilterBase (initialized_ b) (use_control_ b) (use_dynamic_process_noise_covariance_ b) (control_timeout_ b) (last_measurement_time_ b) (latest_control_time_ b)
    (sensor_timeout_ b) (acceleration_gains_ b) (acceleration_limits_ b) (deceleration_gains_ b) (deceleration_limits_ b) (control_update_vector_ b)
    (control_acceleration_ b) (latest_control_ b) (predicted_state_ b) (state_ b) M (estimate_error_covariance_ b)
    (identity_ b) M (transfer_function_ b) (transfer_function_jacobian_ b).
Definition setSensorTimeout (d : Z) : FilterBase :=
  mkFilterBase (initialized_ b) (use_control_ b) (use_dynamic_process_noise_covariance_ b) (control_timeout_ b) (last_measurement_time_ b) (latest_control_time_ b)
    d (acceleration_gains_ b) (acceleration_limits_ b) (deceleration_gains_ b) (deceleration_limits_ b) (control_update_vector_ b)
    (control_acceleration_ b) (latest_control_ b) (predicted_state_ b) (state_ b) (dynamic_process_noise_covariance_ b) (estimate_error_covariance_ b)
    (identity_ b) (process_noise_covariance_ b) (transfer_function_ b) (transfer_function_jacobian_ b).
Definition setUseDynamicProcessNoiseCovariance (u : bool) : FilterBase :=
  mkFilterBase (initialized_ b) (use_control_ b) u (control_timeout_ b) (last_measurement_time_ b) (latest_control_time_ b)
    (sensor_timeout_ b) (acceleration_gains_ b) (acceleration_limits_ b) (deceleration_gains_ b) (deceleration_limits_ b) (control_update_vector_ b)
    (control_acceleration_ b) (latest_control_ b) (predicted_state_ b) (state_ b) (dynamic_process_noise_covariance_ b) (estimate_error_covariance_ b)
    (identity_ b) (process_noise_covariance_ b) (transfer_function_ b) (transfer_function_jacobian_ b).
Definition setControlParams (update_vector : list bool) (control_timeout : Z) (al ag dl dg : list spec_float) : FilterBase :=
  mkFilterBase (initialized_ b) true (use_dynamic_process_noise_covariance_ b) control_timeout (last_measurement_time_ b) (latest_control_time_ b)
    (sensor_timeout_ b) ag al dg dl update_vector
    (control_acceleration_ b) (latest_control_ b) (predicted_state_ b) (state_ b) (dynamic_process_noise_covariance_ b) (estimate_error_covariance_ b)
    (identity_ b) (process_noise_covariance_ b) (transfer_function_ b) (transfer_function_jacobian_ b).
End setters.

(** [reset]; the members it does not name keep their values. *)
Definition default_process_noise : option Mat :=
  set_entries (mzero STATE_SIZE STATE_SIZE)
    [(StateMemberX, StateMemberX, f_dec 5 2); (StateMemberY, StateMemberY, f_dec 5 2); (StateMemberZ, StateMemberZ, f_dec 6 2);
     (StateMemberRoll, StateMemberRoll, f_dec 3 2); (StateMemberPitch, StateMemberPitch, f_dec 3 2); (StateMemberYaw, StateMemberYaw, f_dec 6 2);
     (StateMemberVx, StateMemberVx, f_dec 25 3); (StateMemberVy, StateMemberVy, f_dec 25 3); (StateMemberVz, StateMemberVz, f_dec 4 2);
     (StateMemberVroll, StateMemberVroll, f_dec 1 2); (StateMemberVpitch, StateMemberVpitch, f_dec 1 2); (StateMemberVyaw, StateMemberVyaw, f_dec 2 2);
     (StateMemberAx, StateMemberAx, f_dec 1 2); (StateMemberAy, StateMemberAy, f_dec 1 2); (StateMemberAz, StateMemberAz, f_dec 15 3)].

Definition reset (b : FilterBase) : option FilterBase :=
  noise ← default_process_noise;
  Some (mkFilterBase false (use_control_ b) (use_dynamic_process_noise_covariance_ b) (control_timeout_ b) 0 (latest_control_time_ b)
    33333333 (acceleration_gains_ b) (acceleration_limits_ b) (deceleration_gains_ b) (deceleration_limits_ b) (control_update_vector_ b)
    (vzero TWIST_SIZE) (latest_control_ b) (vzero STATE_SIZE) (vzero STATE_SIZE) noise (mscale (f_dec 1 9) (midentity STATE_SIZE))
    (midentity STATE_SIZE) noise (midentity STATE_SIZE) (mzero STATE_SIZE STATE_SIZE)).

(** *** Prediction helpers *)

Definition validateDelta (delta : Z) : Z := delta.

Definition computeControlAcceleration (state control acceleration_limit acceleration_gain deceleration_limit deceleration_gain : spec_float) : spec_float :=
  let error := fsub control state in
  let same_sign := fle (SFabs error) (fadd (SFabs control) (f_dec 1 2)) in
  let set_point := if same_sign then control else f_zero in
  let decelerating := flt (SFabs set_point) (SFabs state) in
  let limit := if decelerating then deceleration_limit else acceleration_limit in
  let gain := if decelerating then deceleration_gain else acceleration_gain in
  fmin (fmax (fmul gain error) (SFopp limit)) limit.

Definition prepareControl (reference_time : Z) (b : FilterBase) : option FilterBase :=
  acc ← (if use_control_ b then
    let timed_out := control_timeout_ b <=? reference_time - latest_control_time_ b in
    for_range 0 TWIST_SIZE (fun i acc =>
      u ← aget (control_update_vector_ b) i;
      if (u : bool) then
        v ← aget (state_ b) (i + POSITION_V_OFFSET); c ← aget (latest_control_ b) i;
        al ← aget (acceleration_limits_ b) i; ag ← aget (acceleration_gains_ b) i; dl ← aget (deceleration_limits_ b) i; dg ← aget (deceleration_gains_ b) i;
        aset acc i (computeControlAcceleration v (if timed_out then f_zero else c) al ag dl dg)
      else Some acc) (vzero TWIST_SIZE)
   else Some (vzero TWIST_SIZE));
  Some (set_control_acceleration b acc).

Section filter.
Context `{Eigen} `{Trigonometry}.

Definition computeDynamicProcessNoiseCovariance (state : Vec) (b : FilterBase) : option FilterBase :=
  let velocity := norm (take (Z.to_nat TWIST_SIZE) (drop (Z.to_nat POSITION_V_OFFSET) state)) in
  velocity_matrix ← for_range 0 TWIST_SIZE (fun i M => x ← mget M i i; mset M i i (fmul x velocity)) (midentity TWIST_SIZE);
  noise ← mblock (process_noise_covariance_ b) POSITION_OFFSET POSITION_OFFSET TWIST_SIZE TWIST_SIZE;
  dynamic ← set_mblock (dynamic_process_noise_covariance_ b) POSITION_OFFSET POSITION_OFFSET (mat_mul (mat_mul velocity_matrix noise) (transpose velocity_matrix));
  Some (set_dynamic b dynamic).

Definition wrapStateAngles (b : FilterBase) : option FilterBase :=
  st ← for_range StateMemberRoll (StateMemberYaw + 1) (fun i st => x ← aget st i; aset st i (normalize_angle x)) (state_ b);
  Some (setState b st).

Definition checkMahalanobisThreshold (innovation : Vec) (innovation_covariance : Mat) (n_sigmas : spec_float) : bool :=
  negb (fge (dot innovation (mat_vec innovation_covariance innovation)) (fmul n_sigmas n_sigmas)).
End filter.

(** The first measurement: the state and the covariance where it measures. *)
Definition initialize (m : Measurement) (b : FilterBase) : option FilterBase :=
  let n := alen (update_vector_ m) in
  st ← for_range 0 n (fun i st => u ← aget (update_vector_ m) i; x ← (if (u : bool) then aget (measurement_ m) i else aget st i); aset st i x) (state_ b);
  cov ← for_range 0 n (fun i C => for_range 0 n (fun j C =>
    ui ← aget (update_vector_ m) i; uj ← aget (update_vector_ m) j;
    x ← (if (ui : bool) && (uj : bool) then mget (covariance_ m) i j else mget C i j); mset C i j x) C) (estimate_error_covariance_ b);
  Some (set_initialized (setEstimateErrorCovariance (setState b st) cov) true).

(** ** A filter *)

(** The virtual methods, over an object [F] that extends the base. *)
Class Filter (F : Type) := {
  base : F -> FilterBase;
  with_base : F -> FilterBase -> F;
  predict : Z -> Z -> F -> option F;
  correct : Measurement -> F -> option F;
}.

Definition processMeasurement {F} `{Filter F} (m : Measurement) (f : F) : option F :=
  '(f, delta) ← (if initialized_ (base f) then
      let delta := time_ m - last_measurement_time_ (base f) in
      f ← (if 0 <? delta then f ← predict (time_ m) (validateDelta delta) f; Some (with_base f (set_predicted_state (base f) (state_ (base f)))) else Some f);
      f ← correct m f; Some (f, delta)
    else b ← initialize m (base f); Some (with_base f b, 0));
  Some (if 0 <=? delta then with_base f (setLastMeasurementTime (base f) (time_ m)) else f).

(** ** Matrices of the right size *)

Lemma mindex_ok n m M i j : mat_ok n m M -> 0 <= i < n -> 0 <= j < m -> mindex M i j = Some (i * m + j).
Proof.
  intros (Hn & Hm & _) Hi Hj. unfold mindex. rewrite Hn, Hm.
  rewrite (proj2 (Z.leb_le 0 i)), (proj2 (Z.ltb_lt i n)), (proj2 (Z.leb_le 0 j)), (proj2 (Z.ltb_lt j m)) by lia. done.
Qed.

Lemma mget_ok n m M i j : mat_ok n m M -> 0 <= i < n -> 0 <= j < m -> exists x, mget M i j = Some x.
Proof.
  intros HM Hi Hj. unfold mget. rewrite (mindex_ok n m) by done. mred. apply aget_is_Some. destruct HM as (_ & _ & _ & _ & ->). nia.
Qed.

Lemma mset_ok n m M i j x : mat_ok n m M -> 0 <= i < n -> 0 <= j < m -> exists M', mset M i j x = Some M' /\ mat_ok n m M'.
Proof.
  intros HM Hi Hj. unfold mset. rewrite (mindex_ok n m) by done. mred. destruct HM as (Hr & Hc & Hn & Hm & Hl).
  rewrite aset_Some by nia. mred. eexists. split; [done|]. split_and!; try done. cbn [coeffs]. unfold alen. by rewrite length_insert.
Qed.

Lemma mzero_ok n m : 0 <= n -> 0 <= m -> mat_ok n m (mzero n m).
Proof. intros Hn Hm. split_and!; try done. apply alen_anew. nia. Qed.

Lemma midentity_ok n : 0 <= n -> mat_ok n n (midentity n).
Proof. intros Hn. split_and!; try done. unfold midentity, alen. cbn [coeffs]. rewrite !length_fmap, length_seq. nia. Qed.

Lemma mscale_ok n m c M : mat_ok n m M -> mat_ok n m (mscale c M).
Proof. intros (? & ? & ? & ? & ?). split_and!; try done. unfold mscale, alen. cbn [coeffs]. by rewrite length_fmap. Qed.

Lemma madd_ok n m M N : mat_ok n m M -> mat_ok n m N -> mat_ok n m (madd M N).
Proof.
  intros (? & ? & ? & ? & Hl) (? & ? & ? & ? & Hl'). split_and!; try done. unfold madd, alen in *. cbn [coeffs]. rewrite length_zip_with. lia.
Qed.

Lemma vsub_len n u v : alen u = n -> alen v = n -> alen (vsub u v) = n.
Proof. unfold vsub, alen. rewrite length_zip_with. lia. Qed.

Lemma vadd_len n u v : alen u = n -> alen v = n -> alen (vadd u v) = n.
Proof. unfold vadd, alen. rewrite length_zip_with. lia. Qed.

Lemma vscale_len c v : alen (vscale c v) = alen v.
Proof. unfold vscale, alen. by rewrite length_fmap. Qed.

(** *** Writes that cover what they change *)

(** [l] and [l'] have the same length and differ at most at the indices of [P]. *)
Definition agree_off (P : list Z) (l l' : list spec_float) : Prop := alen l = alen l' /\ forall k, k ∉ P -> aget l k = aget l' k.

Lemma agree_off_refl P l : agree_off P l l.
Proof. done. Qed.

Lemma agree_off_sym P l l' : agree_off P l l' -> agree_off P l' l.
Proof. intros [El Hk]. split; [done|]. intros k Hn. by rewrite Hk. Qed.

Lemma agree_off_trans P l1 l2 l3 : agree_off P l1 l2 -> agree_off P l2 l3 -> agree_off P l1 l3.
Proof. intros [E1 H1] [E2 H2]. split; [congruence|]. intros k Hn. by rewrite H1, H2. Qed.

Lemma agree_off_nil l l' : agree_off [] l l' -> l = l'.
Proof. intros [El Hk]. apply aget_ext; [done|]. intros k _. apply Hk, not_elem_of_nil. Qed.

Lemma agree_off_write P l l' k x l1 l1' : agree_off (k :: P) l l' -> aset l k x = Some l1 -> aset l' k x = Some l1' -> agree_off P l1 l1'.
Proof.
  intros [El Hk] E E'. split; [by rewrite (aset_len _ _ _ _ E), (aset_len _ _ _ _ E')|]. intros j Hj.
  rewrite (aget_aset _ _ _ _ j E), (aget_aset _ _ _ _ j E'). destruct (Z.eqb_spec k j) as [->|Hne]; [done|]. apply Hk. rewrite elem_of_cons. intros [->|]; done.
Qed.

Lemma agree_off_step P l k x l1 : k ∈ P -> aset l k x = Some l1 -> agree_off P l l1.
Proof.
  intros Hin E. split; [by rewrite (aset_len _ _ _ _ E)|]. intros j Hj. rewrite (aget_aset _ _ _ _ j E). destruct (Z.eqb_spec k j) as [->|]; done.
Qed.

(** The same on matrices of one size. *)
Definition magree (P : list (Z * Z)) (M N : Mat) : Prop :=
  rows M = rows N /\ cols M = cols N /\ agree_off ((fun p => fst p * cols M + snd p) <$> P) (coeffs M) (coeffs N).

#[export] Instance magree_equivalence P : Equivalence (magree P).
Proof.
  split.
  - intros M. by split_and!.
  - intros M N (Hr & Hc & Ha). split_and!; try done. rewrite <- Hc. by apply agree_off_sym.
  - intros M N O (Hr & Hc & Ha) (Hr' & Hc' & Ha'). split_and!; [congruence..|]. rewrite <- Hc in Ha'. by apply (agree_off_trans _ _ (coeffs N)).
Qed.

Lemma magree_nil M N : magree [] M N -> M = N.
Proof. intros (Hr & Hc & Ha). apply agree_off_nil in Ha. destruct M, N. cbn in *. congruence. Qed.

Lemma magree_size n m P M N : magree P M N -> mat_ok n m M -> mat_ok n m N.
Proof. intros (Hr & Hc & Hl & _) (? & ? & ? & ? & ?). split_and!; congruence. Qed.

Lemma mset_magree P M N i j x M' N' : magree ((i, j) :: P) M N -> mset M i j x = Some M' -> mset N i j x = Some N' -> magree P M' N'.
Proof.
  intros (Hr & Hc & Ha) E E'. unfold mset, mindex in E, E'. rewrite <- Hr, <- Hc in E'. destruct (_ && _) in E, E'; [|done]. revert E E'. mred. intros E E'.
  destruct (aset (coeffs M) _ x) as [l|] eqn:El; [|done]. destruct (aset (coeffs N) _ x) as [l'|] eqn:El'; [|done].
  cbn in E, E'. injection E as <-. injection E' as <-. split_and!; try done. cbn [cols coeffs]. by apply (agree_off_write _ _ _ _ _ _ _ Ha El El').
Qed.

Lemma mset_magree_step P M i j x M' : (i, j) ∈ P -> mset M i j x = Some M' -> magree P M M'.
Proof.
  intros Hin E. unfold mset, mindex in E. destruct (_ && _) in E; [|done]. revert E. mred. intros E. destruct (aset (coeffs M) _ x) as [l|] eqn:El; [|done].
  cbn in E. injection E as <-. split_and!; try done. cbn [coeffs]. apply (agree_off_step _ _ (i * cols M + j) x); [|done]. apply list_elem_of_fmap. by exists (i, j).
Qed.

Definition positions (l : list (Z * Z * spec_float)) : list (Z * Z) := fst <$> l.

Definition inside (n m : Z) (p : Z * Z) : Prop := 0 <= fst p < n /\ 0 <= snd p < m.

Lemma set_entries_cons M e l : set_entries M (e :: l) = (M ← mset M (fst (fst e)) (snd (fst e)) (snd e); set_entries M l).
Proof.
  unfold set_entries. cbn [foldl]. mred. destruct (mset M _ _ _) as [M'|]; [done|]. cbn. induction l as [|e' l IH]; [done|]. cbn [foldl]. exact IH.
Qed.

Lemma set_entries_ok n m M l : mat_ok n m M -> Forall (inside n m) (positions l) -> exists M', set_entries M l = Some M' /\ mat_ok n m M'.
Proof.
  revert M. induction l as [|[[i j] x] l IH]; intros M HM Hl; [by exists M|]. apply Forall_cons in Hl as [[Hi Hj] Hl]. rewrite set_entries_cons. cbn [fst snd] in *.
  destruct (mset_ok n m M i j x HM Hi Hj) as (M1 & -> & HM1). mred. by apply IH.
Qed.

(** Writes at the same places, with the same values, make matrices equal that
    differed only there. *)
Lemma set_entries_magree l : forall P M N M' N', magree (positions l ++ P) M N -> set_entries M l = Some M' -> set_entries N l = Some N' -> magree P M' N'.
Proof.
  induction l as [|[[i j] x] l IH]; intros P M N M' N' Ha EM EN.
  - cbn in EM, EN. injection EM as <-. injection EN as <-. done.
  - rewrite set_entries_cons in EM, EN. cbn [fst snd] in *. destruct (mset M i j x) as [M1|] eqn:E1; [|done]. destruct (mset N i j x) as [N1|] eqn:E2; [|done].
    apply (IH P M1 N1); [|done..]. by apply (mset_magree _ M N i j x).
Qed.

Lemma set_entries_equal l M N M' N' : magree (positions l) M N -> set_entries M l = Some M' -> set_entries N l = Some N' -> M' = N'.
Proof. intros Ha EM EN. apply magree_nil. apply (set_entries_magree l [] M N); [by rewrite app_nil_r|done..]. Qed.

Lemma set_entries_step l : forall P M M', (forall p, p ∈ positions l -> p ∈ P) -> set_entries M l = Some M' -> magree P M M'.
Proof.
  induction l as [|[[i j] x] l IH]; intros P M M' Hin EM.
  - cbn in EM. by injection EM as <-.
  - rewrite set_entries_cons in EM. cbn [fst snd] in *. destruct (mset M i j x) as [M1|] eqn:E1; [|done]. transitivity M1.
    + apply (mset_magree_step _ _ i j x); [|done]. apply Hin. left.
    + apply IH; [|done]. intros p Hp. apply Hin. by right.
Qed.

(** *** Blocks *)

Lemma block_inside n m i j r c : 0 < c -> 0 <= i -> 0 <= j -> 0 <= r -> i + r <= n -> j + c <= m -> Forall (inside n m) (block_positions i j r c).
Proof.
  intros Hc Hi Hj Hr Hn Hm. apply Forall_forall. intros p (k & -> & Hk)%list_elem_of_fmap.
  apply elem_of_seqZ in Hk. unfold inside. cbn [fst snd]. pose proof (Z.mod_pos_bound k c Hc). pose proof (Z.div_pos k c ltac:(lia) Hc).
  pose proof (Z.div_lt_upper_bound k c r Hc ltac:(lia)). lia.
Qed.

Lemma block_entries i j n m B : mat_ok n m B -> positions (zip (block_positions i j (rows B) (cols B)) (coeffs B)) = block_positions i j n m.
Proof.
  intros (-> & -> & Hn & Hm & Hl). unfold positions. apply fst_zip. unfold block_positions. rewrite length_fmap, length_seqZ. unfold alen in Hl. lia.
Qed.

Lemma set_mblock_ok n m i j r c M B : mat_ok n m M -> mat_ok r c B -> 0 < c -> 0 <= i -> 0 <= j -> i + r <= n -> j + c <= m ->
  exists M', set_mblock M i j B = Some M' /\ mat_ok n m M'.
Proof.
  intros HM HB Hc Hi Hj Hn Hm. unfold set_mblock. apply set_entries_ok; [done|]. rewrite (block_entries i j r c) by done.
  destruct HB as (_ & _ & Hr & _). by apply block_inside.
Qed.

Lemma set_mblock_equal i j r c M N B M' N' : mat_ok r c B -> magree (block_positions i j r c) M N -> set_mblock M i j B = Some M' -> set_mblock N i j B = Some N' -> M' = N'.
Proof. intros HB Ha. apply set_entries_equal. by rewrite (block_entries i j r c). Qed.

Lemma set_mblock_step i j r c M B M' : mat_ok r c B -> set_mblock M i j B = Some M' -> magree (block_positions i j r c) M M'.
Proof. intros HB E. apply (set_entries_step _ _ _ _ ltac:(intros p Hp; exact Hp)) in E. by rewrite (block_entries i j r c) in E. Qed.

Lemma mblock_ok n m i j r c M : mat_ok n m M -> 0 <= i -> 0 <= j -> 0 <= r -> 0 <= c -> i + r <= n -> j + c <= m ->
  exists B, mblock M i j r c = Some B /\ mat_ok r c B.
Proof.
  intros HM Hi Hj Hr Hc Hn Hm. unfold mblock.
  apply (for_range_inv (fun _ B => mat_ok r c B)); [done|by apply mzero_ok|]. intros a B Ha HB.
  apply (for_range_inv (fun _ B => mat_ok r c B)); [done|done|]. intros b B' Hb HB'.
  destruct (mget_ok n m M (i + a) (j + b) HM) as [x ->]; [lia..|]. mred. apply (mset_ok r c); [done|lia..].
Qed.

(** ** Filters of the right size, and filters alike *)

Record base_ok (b : FilterBase) : Prop := {
  ok_state : alen (state_ b) = STATE_SIZE;
  ok_covariance : mat_ok STATE_SIZE STATE_SIZE (estimate_error_covariance_ b);
  ok_dynamic : mat_ok STATE_SIZE STATE_SIZE (dynamic_process_noise_covariance_ b);
  ok_identity : mat_ok STATE_SIZE STATE_SIZE (identity_ b);
  ok_noise : mat_ok STATE_SIZE STATE_SIZE (process_noise_covariance_ b);
  ok_transfer : mat_ok STATE_SIZE STATE_SIZE (transfer_function_ b);
  ok_update : alen (control_update_vector_ b) = TWIST_SIZE;
  ok_latest : alen (latest_control_ b) = TWIST_SIZE;
  ok_control : alen (acceleration_limits_ b) = TWIST_SIZE /\ alen (acceleration_gains_ b) = TWIST_SIZE /\
    alen (deceleration_limits_ b) = TWIST_SIZE /\ alen (deceleration_gains_ b) = TWIST_SIZE;
}.

(** The coefficients of the transfer function that a prediction sets. *)
Definition transfer_positions : list (Z * Z) :=
  ((fun j => (StateMemberX, j)) <$> [6; 7; 8; 12; 13; 14]) ++ ((fun j => (StateMemberY, j)) <$> [6; 7; 8; 12; 13; 14]) ++ ((fun j => (StateMemberZ, j)) <$> [6; 7; 8; 12; 13; 14]) ++
  [(3, 9); (3, 10); (3, 11); (4, 10); (4, 11); (5, 10); (5, 11); (6, 12); (7, 13); (8, 14)].

Definition control_of (b : FilterBase) : Vec * Z := (latest_control_ b, latest_control_time_ b).

(** What a prediction reads of the base besides the estimate. *)
Record base_params (b c : FilterBase) : Prop := {
  p_initialized : initialized_ b = initialized_ c;
  p_use_control : use_control_ b = use_control_ c;
  p_use_dynamic : use_dynamic_process_noise_covariance_ b = use_dynamic_process_noise_covariance_ c;
  p_timeouts : control_timeout_ b = control_timeout_ c /\ sensor_timeout_ b = sensor_timeout_ c;
  p_gains : acceleration_gains_ b = acceleration_gains_ c /\ deceleration_gains_ b = deceleration_gains_ c;
  p_limits : acceleration_limits_ b = acceleration_limits_ c /\ deceleration_limits_ b = deceleration_limits_ c;
  p_update : control_update_vector_ b = control_update_vector_ c;
  p_control : use_control_ b = true -> control_of b = control_of c;
  p_identity : identity_ b = identity_ c;
  p_noise : process_noise_covariance_ b = process_noise_covariance_ c;
  p_dynamic : magree (block_positions POSITION_OFFSET POSITION_OFFSET TWIST_SIZE TWIST_SIZE) (dynamic_process_noise_covariance_ b) (dynamic_process_noise_covariance_ c);
  p_transfer : magree transfer_positions (transfer_function_ b) (transfer_function_ c);
}.

#[export] Instance base_params_equivalence : Equivalence base_params.
Proof.
  split.
  - intros b. by split.
  - intros b c []. split; try (by symmetry); try (by destruct_and?; split). intros Hu. symmetry. apply p_control0. congruence.
  - intros b c d [] []. split; try congruence; try (destruct_and?; split; congruence).
    + intros Hu. rewrite p_control0 by done. apply p_control1. congruence.
    + by transitivity (dynamic_process_noise_covariance_ c).
    + by transitivity (transfer_function_ c).
Qed.

Definition estimate (b : FilterBase) : Vec * Mat * Z := (state_ b, estimate_error_covariance_ b, last_measurement_time_ b).

(** What RosFilter relies on. [same_filter] relates filters that behave
    alike from now on; [same_params] forgets the estimate, which is what a
    saved state restores. Filters with the same parameters and the same
    estimate, but different leftovers, become alike by a prediction. *)
Class FilterLaws (F : Type) `{Filter F} := {
  filter_ok : F -> Prop;
  same_params : F -> F -> Prop;
  same_filter : F -> F -> Prop;
  same_params_equivalence : Equivalence same_params;
  same_filter_equivalence : Equivalence same_filter;
  base_with_base f b : base (with_base f b) = b;
  ok_base f : filter_ok f -> base_ok (base f);
  ok_with_base f b : filter_ok f -> base_ok b -> filter_ok (with_base f b);
  params_base f g : same_params f g -> base_params (base f) (base g);
  params_with_base f g b c : same_params f g -> base_params b c -> same_params (with_base f b) (with_base g c);
  with_base_base f : with_base f (base f) = f;
  same_core f g : same_filter f g -> same_params f g /\ estimate (base f) = estimate (base g);
  same_with_base f g b c : same_filter f g -> base_params b c -> estimate b = estimate c -> same_filter (with_base f b) (with_base g c);
  predict_ok t d f : filter_ok f -> exists f', predict t d f = Some f' /\ filter_ok f' /\ same_params f f' /\ last_measurement_time_ (base f') = last_measurement_time_ (base f);
  predict_same t d f g f' g' : filter_ok f -> filter_ok g -> same_params f g -> estimate (base f) = estimate (base g) ->
    predict t d f = Some f' -> predict t d g = Some g' -> same_filter f' g';
  correct_ok m f : measurement_ok m -> filter_ok f ->
    exists f', correct m f = Some f' /\ filter_ok f' /\ same_params f f' /\ last_measurement_time_ (base f') = last_measurement_time_ (base f);
  correct_same m f g f' g' : measurement_ok m -> filter_ok f -> filter_ok g -> same_filter f g -> correct m f = Some f' -> correct m g = Some g' -> same_filter f' g';
}.
#[export] Existing Instances same_params_equivalence same_filter_equivalence.

(** *** Setters *)

Create HintDb filters.

Lemma setState_ok b v : base_ok b -> alen v = STATE_SIZE -> base_ok (setState b v).
Proof. by intros [] Hv. Qed.
Lemma setEstimateErrorCovariance_ok b M : base_ok b -> mat_ok STATE_SIZE STATE_SIZE M -> base_ok (setEstimateErrorCovariance b M).
Proof. by intros [] HM. Qed.
Lemma setLastMeasurementTime_ok b t : base_ok b -> base_ok (setLastMeasurementTime b t).
Proof. by intros []. Qed.
Lemma set_predicted_state_ok b v : base_ok b -> base_ok (set_predicted_state b v).
Proof. by intros []. Qed.
Lemma set_initialized_ok b i : base_ok b -> base_ok (set_initialized b i).
Proof. by intros []. Qed.
Lemma set_control_acceleration_ok b v : base_ok b -> base_ok (set_control_acceleration b v).
Proof. by intros []. Qed.
#[export] Hint Resolve setState_ok setEstimateErrorCovariance_ok setLastMeasurementTime_ok set_predicted_state_ok set_initialized_ok set_control_acceleration_ok : filters.

(** The setters of the estimate and of what is overwritten leave the parameters. *)
Lemma params_setState b v : base_params b (setState b v).
Proof. by split. Qed.
Lemma params_setEstimateErrorCovariance b M : base_params b (setEstimateErrorCovariance b M).
Proof. by split. Qed.
Lemma params_setLastMeasurementTime b t : base_params b (setLastMeasurementTime b t).
Proof. by split. Qed.
Lemma params_set_predicted_state b v : base_params b (set_predicted_state b v).
Proof. by split. Qed.
Lemma params_set_control_acceleration b v : base_params b (set_control_acceleration b v).
Proof. by split. Qed.
Lemma params_set_initialized b c i : base_params b c -> base_params (set_initialized b i) (set_initialized c i).
Proof. by intros []. Qed.
#[export] Hint Resolve params_setState params_setEstimateErrorCovariance params_setLastMeasurementTime params_set_predicted_state params_set_control_acceleration : filters.

(** *** The control *)

(** An acceleration cut to a limit: what the gain makes of the error, when it is
    within the limit. *)
Definition limited (limit gain error a : spec_float) : Prop :=
  fle (SFopp limit) a = true /\ fle a limit = true /\ (fle (SFopp limit) (fmul gain error) = true -> fle (fmul gain error) limit = true -> a = fmul gain error).

Lemma cut_limited limit gain error : is_nan (fmul gain error) = false -> is_nan limit = false -> fle (SFopp limit) limit = true ->
  limited limit gain error (fmin (fmax (fmul gain error) (SFopp limit)) limit).
Proof.
  intros He Hl Hle. unfold limited. set (e := fmul gain error) in *. clearbody e. assert (Hol : is_nan (SFopp limit) = false) by (by destruct limit). split; [|split; [by auto with floats|]].
  - unfold fmin. destruct (flt limit _); [done|]. by auto with floats.
  - intros H1 H2. rewrite (fle_flt _ _ Hol He) in H1. rewrite (fle_flt _ _ He Hl) in H2. apply negb_true_iff in H1, H2. unfold fmax. rewrite H1. unfold fmin. by rewrite H2.
Qed.

(** C37. The acceleration commanded is within the limit in force, and is then the
    gain in force times the difference between the control and the state. The
    limit and the gain are those of deceleration when the control is smaller
    than the state, or when it is so far from it that the signs are taken as
    different and the state is not zero; they are those of acceleration when
    the control is not smaller and not that far. *)
Lemma computeControlAcceleration_bounded state control al ag dl dg : let error := fsub control state in
  is_nan (fmul ag error) = false -> is_nan (fmul dg error) = false ->
  is_nan al = false -> is_nan dl = false -> fle (SFopp al) al = true -> fle (SFopp dl) dl = true ->
  let a := computeControlAcceleration state control al ag dl dg in
  let near := fle (SFabs error) (fadd (SFabs control) (f_dec 1 2)) in
  (flt (SFabs control) (SFabs state) = true -> limited dl dg error a) /\
  (near = false -> flt f_zero (SFabs state) = true -> limited dl dg error a) /\
  (near = true -> flt (SFabs control) (SFabs state) = false -> limited al ag error a).
Proof.
  intros error Ha Hd Hal Hdl Hla Hld a near. unfold a, computeControlAcceleration. cbv zeta. fold error. fold near. split_and!.
  - intros Hlt. assert (E : flt (SFabs (if near then control else f_zero)) (SFabs state) = true); [|rewrite E; by apply cut_limited].
    destruct near; [done|]. clear -Hlt. by destruct state, control.
  - intros -> Hz. change (SFabs f_zero) with f_zero. rewrite Hz. by apply cut_limited.
  - intros -> ->. by apply cut_limited.
Qed.

Lemma prepareControl_ok t b : base_ok b -> exists v, prepareControl t b = Some (set_control_acceleration b v) /\ alen v = TWIST_SIZE.
Proof.
  intros []. unfold prepareControl. destruct (use_control_ b); [|mred; eexists; split; [done|by apply alen_anew]].
  destruct ok_control0 as (Hal & Hag & Hdl & Hdg).
  match goal with |- context [for_range 0 TWIST_SIZE ?f ?s] => destruct (for_range_inv (fun _ v => alen v = TWIST_SIZE) f 0 TWIST_SIZE s) as (v & -> & Hv) end.
  - done.
  - by apply alen_anew.
  - intros i v Hi Hv. change TWIST_SIZE with 6 in *. change STATE_SIZE with 15 in *.
    destruct (aget_is_Some (control_update_vector_ b) i) as [u ->]; [lia|]. mred. destruct u; [|by exists v].
    destruct (aget_is_Some (state_ b) (i + POSITION_V_OFFSET)) as [? ->]; [unfold POSITION_V_OFFSET, StateMemberVx; lia|]. mred.
    destruct (aget_is_Some (latest_control_ b) i) as [? ->]; [lia|]. mred. destruct (aget_is_Some (acceleration_limits_ b) i) as [? ->]; [lia|]. mred.
    destruct (aget_is_Some (acceleration_gains_ b) i) as [? ->]; [lia|]. mred. destruct (aget_is_Some (deceleration_limits_ b) i) as [? ->]; [lia|]. mred.
    destruct (aget_is_Some (deceleration_gains_ b) i) as [? ->]; [lia|]. mred. rewrite aset_Some by lia. eexists. split; [done|]. unfold alen in *. by rewrite length_insert.
  - mred. by exists v.
Qed.

(** It depends on the parameters and the state. *)
Lemma prepareControl_same t b c b' c' : base_params b c -> state_ b = state_ c -> prepareControl t b = Some b' -> prepareControl t c = Some c' ->
  control_acceleration_ b' = control_acceleration_ c'.
Proof.
  intros [] Es. unfold prepareControl, control_of in *. rewrite <- p_use_control0. destruct (use_control_ b).
  - pose proof (p_control0 eq_refl) as [= Hc1 Hc2]. destruct_and?. repeat match goal with E : _ c = _ |- _ => rewrite E | E : _ = _ c |- _ => rewrite <- E end.
    destruct (for_range _ _ _ _) as [v|]; [|done]. mred. by intros [= <-] [= <-].
  - mred. by intros [= <-] [= <-].
Qed.

(** *** The cycle *)

Lemma initialize_ok m b : measurement_ok m -> base_ok b ->
  exists b' v M, initialize m b = Some b' /\ b' = set_initialized (setEstimateErrorCovariance (setState b v) M) true /\ base_ok b'.
Proof.
  intros (Hu & Hz & HC) Hb. unfold initialize. rewrite Hu. change STATE_SIZE with 15 in *.
  match goal with |- context [for_range 0 15 ?f (state_ b)] => destruct (for_range_inv (fun _ v => alen v = 15) f 0 15 (state_ b)) as (v & -> & Hv) end.
  - lia.
  - apply Hb.
  - intros i st Hi Hst. destruct (aget_is_Some (update_vector_ m) i) as [u ->]; [lia|]. mred.
    assert (Hx : exists x, (if u then aget (measurement_ m) i else aget st i) = Some x) by (destruct u; apply aget_is_Some; lia).
    destruct Hx as [x ->]. mred. rewrite aset_Some by lia. eexists. split; [done|]. unfold alen in *. by rewrite length_insert.
  - mred.
    match goal with |- context [for_range 0 15 ?f (estimate_error_covariance_ b)] => destruct (for_range_inv (fun _ M => mat_ok 15 15 M) f 0 15 (estimate_error_covariance_ b)) as (M & -> & HM) end.
    + lia.
    + apply Hb.
    + intros i C Hi HC'. apply (for_range_inv (fun _ M => mat_ok 15 15 M)); [lia|done|]. intros j C' Hj HC2.
      destruct (aget_is_Some (update_vector_ m) i) as [ui ->]; [lia|]. mred. destruct (aget_is_Some (update_vector_ m) j) as [uj ->]; [lia|]. mred.
      assert (Hx : exists x, (if ui && uj then mget (covariance_ m) i j else mget C' i j) = Some x) by (destruct (ui && uj); by apply (mget_ok 15 15)).
      destruct Hx as [x ->]. mred. by apply mset_ok.
    + mred. exists (set_initialized (setEstimateErrorCovariance (setState b v) M) true), v, M. split; [done|]. split; [done|]. auto with filters.
Qed.

Lemma initialize_same m b c b' c' : estimate b = estimate c -> base_params b c -> initialize m b = Some b' -> initialize m c = Some c' -> base_params b' c' /\ estimate b' = estimate c'.
Proof.
  intros [= E1 E2 E3] Hp. unfold initialize. rewrite E1, E2. destruct (for_range _ _ _ (state_ c)) as [v|]; [|done]. mred.
  destruct (for_range _ _ _ (estimate_error_covariance_ c)) as [M|]; [|done]. mred. intros [= <-] [= <-]. split; [by destruct Hp|]. unfold estimate. cbn. by rewrite E3.
Qed.

Section process.
Context {F : Type} `{FL : FilterLaws F}.
Implicit Types (f g : F) (m : Measurement).

(** Filters that differ in what a prediction overwrites at most. *)
Definition same_estimate f g : Prop := same_params f g /\ estimate (base f) = estimate (base g).

Lemma params_write f b : base_params (base f) b -> same_params f (with_base f b).
Proof using FL. intros Hp. rewrite <- (with_base_base f) at 1. by apply params_with_base. Qed.

Lemma initialized_params f g : same_params f g -> initialized_ (base f) = initialized_ (base g).
Proof using FL. intros Hp. apply params_base in Hp. by destruct Hp. Qed.

(** The prediction of a cycle, if any. *)
Definition predict_cycle m f : option F :=
  if 0 <? time_ m - last_measurement_time_ (base f)
  then f ← predict (time_ m) (validateDelta (time_ m - last_measurement_time_ (base f))) f; Some (with_base f (set_predicted_state (base f) (state_ (base f))))
  else Some f.

(** Its end. *)
Definition stamp_cycle (t last : Z) f : F := if 0 <=? t - last then with_base f (setLastMeasurementTime (base f) t) else f.

Lemma process_initialized m f : initialized_ (base f) = true ->
  processMeasurement m f = (f1 ← predict_cycle m f; f1 ← correct m f1; Some (stamp_cycle (time_ m) (last_measurement_time_ (base f)) f1)).
Proof.
  intros Hi. unfold processMeasurement, predict_cycle, stamp_cycle. rewrite Hi. destruct (0 <? _).
  - destruct (predict _ _ f) as [f1|]; [|done]. mred. by destruct (correct m _) as [f2|].
  - mred. by destruct (correct m f).
Qed.

Lemma predict_cycle_ok m f : filter_ok f ->
  exists f', predict_cycle m f = Some f' /\ filter_ok f' /\ same_params f f' /\ last_measurement_time_ (base f') = last_measurement_time_ (base f).
Proof using FL.
  intros Hf. unfold predict_cycle. destruct (0 <? _); [|by exists f].
  destruct (predict_ok (time_ m) (validateDelta (time_ m - last_measurement_time_ (base f))) f Hf) as (f1 & -> & Hf1 & Hp & Ht). mred. eexists. split; [done|].
  split; [apply ok_with_base; [done|]; pose proof (ok_base f1 Hf1); auto with filters|]. split.
  - transitivity f1; [done|]. apply params_write. auto with filters.
  - rewrite base_with_base. exact Ht.
Qed.

Lemma predict_cycle_same m f g f' g' : filter_ok f -> filter_ok g -> same_estimate f g -> predict_cycle m f = Some f' -> predict_cycle m g = Some g' ->
  (same_filter f g \/ last_measurement_time_ (base f) < time_ m) -> same_filter f' g'.
Proof using FL.
  intros Hf Hg [Hp He] Ef Eg Hor. unfold predict_cycle in *. pose proof He as [= _ _ Et]. rewrite <- Et in Eg. destruct (0 <? _) eqn:Hd.
  - destruct (predict _ _ f) as [f1|] eqn:E1; [|done]. destruct (predict _ _ g) as [g1|] eqn:E2; [|done]. cbn in Ef, Eg. injection Ef as <-. injection Eg as <-.
    pose proof (predict_same _ _ f g f1 g1 Hf Hg Hp He E1 E2) as Hs. destruct (same_core f1 g1 Hs) as [Hp1 [= E3 E4 E5]]. apply same_with_base; [done| |].
    + apply params_base in Hp1. transitivity (base f1); [symmetry; auto with filters|]. transitivity (base g1); [done|]. auto with filters.
    + unfold estimate. cbn. congruence.
  - injection Ef as <-. injection Eg as <-. apply Z.ltb_ge in Hd. destruct Hor as [|Hor]; [done|lia].
Qed.

(** The time after a measurement. *)
Definition process_time m f : Z := if initialized_ (base f) then Z.max (last_measurement_time_ (base f)) (time_ m) else time_ m.

Lemma stamp_cycle_ok t last f : filter_ok f -> last_measurement_time_ (base f) = last ->
  filter_ok (stamp_cycle t last f) /\ same_params f (stamp_cycle t last f) /\ last_measurement_time_ (base (stamp_cycle t last f)) = Z.max last t.
Proof using FL.
  intros Hf Ht. unfold stamp_cycle. destruct (0 <=? t - last) eqn:Hd.
  - apply Z.leb_le in Hd. split; [apply ok_with_base; [done|]; pose proof (ok_base f Hf); auto with filters|]. split; [apply params_write; auto with filters|].
    rewrite base_with_base. cbn. lia.
  - apply Z.leb_gt in Hd. split; [done|]. split; [done|]. lia.
Qed.

Lemma processMeasurement_ok m f : measurement_ok m -> filter_ok f ->
  exists f', processMeasurement m f = Some f' /\ filter_ok f' /\ initialized_ (base f') = true /\ last_measurement_time_ (base f') = process_time m f /\
    same_params (with_base f (set_initialized (base f) true)) f'.
Proof using FL.
  intros Hm Hf. unfold process_time. destruct (initialized_ (base f)) eqn:Hi.
  - rewrite (process_initialized m f Hi). destruct (predict_cycle_ok m f Hf) as (f1 & -> & Hf1 & Hp1 & Ht1). mred.
    destruct (correct_ok m f1 Hm Hf1) as (f2 & -> & Hf2 & Hp2 & Ht2). mred. eexists. split; [done|].
    destruct (stamp_cycle_ok (time_ m) (last_measurement_time_ (base f)) f2 Hf2) as (Hf3 & Hp3 & Ht3); [congruence|]. split; [done|].
    assert (Hp : same_params f (stamp_cycle (time_ m) (last_measurement_time_ (base f)) f2)) by (by transitivity f1; [|transitivity f2]).
    split; [by rewrite <- (initialized_params _ _ Hp)|]. split; [done|]. transitivity f; [|done]. symmetry. apply params_write.
    rewrite <- Hi. by split.
  - unfold processMeasurement. rewrite Hi. destruct (initialize_ok m (base f) Hm (ok_base f Hf)) as (b & v & M & -> & Eb & Hb). mred.
    eexists. split; [done|]. change (0 <=? 0) with true. cbn iota. rewrite !base_with_base.
    split; [apply ok_with_base; [by apply ok_with_base|auto with filters]|]. subst b. split; [done|]. split; [done|].
    transitivity (with_base f (set_initialized (setEstimateErrorCovariance (setState (base f) v) M) true)).
    + apply params_with_base; [done|]. apply params_set_initialized. by split.
    + apply params_write. rewrite base_with_base. by split.
Qed.

(** Filters alike stay alike; filters with the same estimate become alike by a
    measurement that is later than it. *)
Lemma processMeasurement_same m f g f' g' : measurement_ok m -> filter_ok f -> filter_ok g -> same_estimate f g ->
  (same_filter f g \/ initialized_ (base f) = true /\ last_measurement_time_ (base f) < time_ m) ->
  processMeasurement m f = Some f' -> processMeasurement m g = Some g' -> same_filter f' g'.
Proof using FL.
  intros Hm Hf Hg Hfg Hor Ef Eg. pose proof Hfg as [Hp He]. pose proof (initialized_params f g Hp) as Ei. pose proof He as [= Es Ec Et].
  destruct (initialized_ (base f)) eqn:Hi.
  - rewrite (process_initialized m f Hi) in Ef. rewrite (process_initialized m g) in Eg by done. rewrite <- Et in Eg.
    destruct (predict_cycle_ok m f Hf) as (f1 & E1 & Hf1 & _). destruct (predict_cycle_ok m g Hg) as (g1 & E2 & Hg1 & _). rewrite E1 in Ef. rewrite E2 in Eg. revert Ef Eg. mred. intros Ef Eg.
    assert (Hs1 : same_filter f1 g1) by (apply (predict_cycle_same m f g); [done..|]; destruct Hor as [|[_ ?]]; auto).
    destruct (correct m f1) as [f2|] eqn:E3; [|done]. destruct (correct m g1) as [g2|] eqn:E4; [|done]. revert Ef Eg. mred. intros [= <-] [= <-].
    pose proof (correct_same m f1 g1 f2 g2 Hm Hf1 Hg1 Hs1 E3 E4) as Hs2. unfold stamp_cycle. destruct (0 <=? _); [|done].
    destruct (same_core f2 g2 Hs2) as [Hp2 [= E5 E6 E7]]. apply same_with_base; [done| |unfold estimate; cbn; congruence].
    apply params_base in Hp2. transitivity (base f2); [symmetry; auto with filters|]. transitivity (base g2); [done|auto with filters].
  - destruct Hor as [Hs|[? _]]; [|congruence]. unfold processMeasurement in Ef, Eg. rewrite Hi in Ef. rewrite <- Ei in Eg.
    destruct (initialize m (base f)) as [b|] eqn:E1; [|done]. destruct (initialize m (base g)) as [c|] eqn:E2; [|done]. revert Ef Eg. mred.
    change (0 <=? 0) with true. cbn iota. rewrite !base_with_base. intros [= <-] [= <-].
    destruct (initialize_same m _ _ b c He (params_base f g Hp) E1 E2) as [Hbc Hes]. pose proof Hes as [= E3 E4 E5]. apply same_with_base.
    + by apply same_with_base.
    + transitivity b; [symmetry; auto with filters|]. transitivity c; [done|auto with filters].
    + unfold estimate. cbn. congruence.
Qed.
End process.
