(* ===== verification/Ekf.v ===== *)
(** The extended Kalman filter of robot_localization (ekf.cpp), as an instance
    of the interface of FilterBase.v, over the products and the inverse of Eigen
    and the functions of the C library. *)

From S2P Require Import Prelude Floats FilterBase.

(** The operators of [double], with the precedence of C++. *)
Declare Scope double_scope.
Delimit Scope double_scope with double.
Infix "+" := fadd : double_scope.
Infix "-" := fsub : double_scope.
Infix "*" := fmul : double_scope.
Infix "/" := fdiv : double_scope.
Notation "- x" := (SFopp x) : double_scope.

(** ** The code *)

(** The indices that a measurement updates, in increasing order. *)
Definition update_indices (m : Measurement) : option (list Z) :=
  for_range 0 (alen (update_vector_ m)) (fun i l =>
    u ← aget (update_vector_ m) i;
    if (u : bool) then x ← aget (measurement_ m) i; Some (if is_finite x then l ++ [i] else l) else Some l) [].

(** Round [i] of the loop that builds the sub-matrices: measurement, state and
    covariance of the measurement. *)
Definition min_covariance : spec_float := f_dec 1 9.

Definition subset_row (m : Measurement) (state : Vec) (indices : list Z) (i : Z) (st : Vec * Vec * Mat) : option (Vec * Vec * Mat) :=
  let '(z, x, R) := st in
  idx ← aget indices i;
  v ← aget (measurement_ m) idx; z ← aset z i v;
  s ← aget state idx; x ← aset x i s;
  R ← for_range 0 (alen indices) (fun j R => jdx ← aget indices j; c ← mget (covariance_ m) idx jdx; mset R i j c) R;
  d ← mget R i i; R ← (if flt d f_zero then mset R i i (SFabs d) else Some R);
  d ← mget R i i; R ← (if flt d min_covariance then mset R i i min_covariance else Some R);
  Some (z, x, R).

Definition subsets (m : Measurement) (state : Vec) (indices : list Z) : option (Vec * Vec * Mat) :=
  let n := alen indices in
  for_range 0 n (subset_row m state indices) (vzero n, vzero n, mzero n n).

Definition state_to_measurement (indices : list Z) : option Mat :=
  for_range 0 (alen indices) (fun i H => idx ← aget indices i; mset H i idx f_one) (mzero (alen indices) STATE_SIZE).

Definition is_angle (idx : Z) : bool := (idx =? StateMemberRoll) || (idx =? StateMemberPitch) || (idx =? StateMemberYaw).

Section ekf.
Context `{Eigen} `{Trigonometry}.

Definition wrap_innovation (indices : list Z) (innovation : Vec) : option Vec :=
  for_range 0 (alen indices) (fun i v => idx ← aget indices i; if is_angle idx then x ← aget v i; aset v i (normalize_angle x) else Some v) innovation.

Definition ekf_correct (m : Measurement) (b : FilterBase) : option FilterBase :=
  indices ← update_indices m;
  '(measurement_subset, state_subset, R) ← subsets m (state_ b) indices;
  H ← state_to_measurement indices;
  let P := estimate_error_covariance_ b in
  let pht := mat_mul P (transpose H) in
  let hphr_inverse := inverse (madd (mat_mul H pht) R) in
  let K := mat_mul pht hphr_inverse in
  innovation ← wrap_innovation indices (vsub measurement_subset state_subset);
  if checkMahalanobisThreshold innovation hphr_inverse (mahalanobis_thresh_ m) then
    let b := setState b (mat_vec_add (state_ b) K innovation) in
    let gain_residual := mat_mul_sub (identity_ b) K H in
    let P := mat_mul (mat_mul gain_residual P) (transpose gain_residual) in
    let P := mat_mul_add P (mat_mul K R) (transpose K) in
    wrapStateAngles (setEstimateErrorCovariance b P)
  else Some b.

(** The coefficients of the transfer function. *)
Definition transfer_entries (roll pitch yaw delta_sec : spec_float) : list (Z * Z * spec_float) :=
  let sp := c_sin pitch in let cp := c_cos pitch in let cpi := (f_one / cp)%double in let tp := (sp * cpi)%double in
  let sr := c_sin roll in let cr := c_cos roll in let sy := c_sin yaw in let cy := c_cos yaw in
  let half x := (f_half * x * delta_sec)%double in
  let xx := (cy * cp * delta_sec)%double in let xy := ((cy * sp * sr - sy * cr) * delta_sec)%double in let xz := ((cy * sp * cr + sy * sr) * delta_sec)%double in
  let yx := (sy * cp * delta_sec)%double in let yy := ((sy * sp * sr + cy * cr) * delta_sec)%double in let yz := ((sy * sp * cr - cy * sr) * delta_sec)%double in
  let zx := (- sp * delta_sec)%double in let zy := (cp * sr * delta_sec)%double in let zz := (cp * cr * delta_sec)%double in
  [(StateMemberX, StateMemberVx, xx); (StateMemberX, StateMemberVy, xy); (StateMemberX, StateMemberVz, xz);
   (StateMemberX, StateMemberAx, half xx); (StateMemberX, StateMemberAy, half xy); (StateMemberX, StateMemberAz, half xz);
   (StateMemberY, StateMemberVx, yx); (StateMemberY, StateMemberVy, yy); (StateMemberY, StateMemberVz, yz);
   (StateMemberY, StateMemberAx, half yx); (StateMemberY, StateMemberAy, half yy); (StateMemberY, StateMemberAz, half yz);
   (StateMemberZ, StateMemberVx, zx); (StateMemberZ, StateMemberVy, zy); (StateMemberZ, StateMemberVz, zz);
   (StateMemberZ, StateMemberAx, half zx); (StateMemberZ, StateMemberAy, half zy); (StateMemberZ, StateMemberAz, half zz);
   (StateMemberRoll, StateMemberVroll, delta_sec); (StateMemberRoll, StateMemberVpitch, (sr * tp * delta_sec)%double); (StateMemberRoll, StateMemberVyaw, (cr * tp * delta_sec)%double);
   (StateMemberPitch, StateMemberVpitch, (cr * delta_sec)%double); (StateMemberPitch, StateMemberVyaw, (- sr * delta_sec)%double);
   (StateMemberYaw, StateMemberVpitch, (sr * cpi * delta_sec)%double); (StateMemberYaw, StateMemberVyaw, (cr * cpi * delta_sec)%double);
   (StateMemberVx, StateMemberAx, delta_sec); (StateMemberVy, StateMemberAy, delta_sec); (StateMemberVz, StateMemberAz, delta_sec)].

(** The coefficients in which the Jacobian differs from it, from the state. *)
Definition jacobian_entries (state : Vec) (delta_sec : spec_float) : option (list (Z * Z * spec_float)) :=
  roll ← aget state StateMemberRoll; pitch ← aget state StateMemberPitch; yaw ← aget state StateMemberYaw;
  x_vel ← aget state StateMemberVx; y_vel ← aget state StateMemberVy; z_vel ← aget state StateMemberVz;
  pitch_vel ← aget state StateMemberVpitch; yaw_vel ← aget state StateMemberVyaw;
  x_acc ← aget state StateMemberAx; y_acc ← aget state StateMemberAy; z_acc ← aget state StateMemberAz;
  let sp := c_sin pitch in let cp := c_cos pitch in let cpi := (f_one / cp)%double in let tp := (sp * cpi)%double in
  let sr := c_sin roll in let cr := c_cos roll in let sy := c_sin yaw in let cy := c_cos yaw in
  let one_half_at_squared := (f_half * delta_sec * delta_sec)%double in
  let two y z := ((y * y_vel + z * z_vel) * delta_sec + (y * y_acc + z * z_acc) * one_half_at_squared)%double in
  let three x y z := ((x * x_vel + y * y_vel + z * z_vel) * delta_sec + (x * x_acc + y * y_acc + z * z_acc) * one_half_at_squared)%double in
  let dFx_dR := two (cy * sp * cr + sy * sr)%double (- cy * sp * sr + sy * cr)%double in
  let dFR_dR := (f_one + (cr * tp * pitch_vel - sr * tp * yaw_vel) * delta_sec)%double in
  let dFx_dP := three (- cy * sp)%double (cy * cp * sr)%double (cy * cp * cr)%double in
  let dFR_dP := ((cpi * cpi * sr * pitch_vel + cpi * cpi * cr * yaw_vel) * delta_sec)%double in
  let dFx_dY := three (- sy * cp)%double (- sy * sp * sr - cy * cr)%double (- sy * sp * cr + cy * sr)%double in
  let dFy_dR := two (sy * sp * cr - cy * sr)%double (- sy * sp * sr - cy * cr)%double in
  let dFP_dR := ((- sr * pitch_vel - cr * yaw_vel) * delta_sec)%double in
  let dFy_dP := three (- sy * sp)%double (sy * cp * sr)%double (sy * cp * cr)%double in
  let dFy_dY := three (cy * cp)%double (cy * sp * sr - sy * cr)%double (cy * sp * cr + sy * sr)%double in
  let dFz_dR := two (cp * cr)%double (- cp * sr)%double in
  let dFY_dR := ((cr * cpi * pitch_vel - sr * cpi * yaw_vel) * delta_sec)%double in
  let dFz_dP := three (- cp)%double (- sp * sr)%double (- sp * cr)%double in
  let dFY_dP := ((sr * tp * cpi * pitch_vel + cr * tp * cpi * yaw_vel) * delta_sec)%double in
  Some [(StateMemberX, StateMemberRoll, dFx_dR); (StateMemberX, StateMemberPitch, dFx_dP); (StateMemberX, StateMemberYaw, dFx_dY);
    (StateMemberY, StateMemberRoll, dFy_dR); (StateMemberY, StateMemberPitch, dFy_dP); (StateMemberY, StateMemberYaw, dFy_dY);
    (StateMemberZ, StateMemberRoll, dFz_dR); (StateMemberZ, StateMemberPitch, dFz_dP);
    (StateMemberRoll, StateMemberRoll, dFR_dR); (StateMemberRoll, StateMemberPitch, dFR_dP); (StateMemberPitch, StateMemberRoll, dFP_dR);
    (StateMemberYaw, StateMemberRoll, dFY_dR); (StateMemberYaw, StateMemberPitch, dFY_dP)].

(** The control terms, which are accelerations. *)
Definition add_at (v : Vec) (i : Z) (x : spec_float) : option Vec := y ← aget v i; aset v i (fadd y x).
Definition apply_control (delta_sec : spec_float) (acc : Vec) (update : list bool) (state : Vec) : option Vec :=
  let rotate c s st := a ← aget acc c; add_at st s (fmul a delta_sec) in
  let accelerate c s st := u ← aget update c; x ← (if (u : bool) then aget acc c else aget st s); aset st s x in
  st ← rotate ControlMemberVroll StateMemberVroll state; st ← rotate ControlMemberVpitch StateMemberVpitch st; st ← rotate ControlMemberVyaw StateMemberVyaw st;
  st ← accelerate ControlMemberVx StateMemberAx st; st ← accelerate ControlMemberVy StateMemberAy st; accelerate ControlMemberVz StateMemberAz st.

Definition ekf_predict (reference_time delta : Z) (b : FilterBase) : option FilterBase :=
  let delta_sec := toSec delta in
  roll ← aget (state_ b) StateMemberRoll; pitch ← aget (state_ b) StateMemberPitch; yaw ← aget (state_ b) StateMemberYaw;
  b ← prepareControl reference_time b;
  M ← set_entries (transfer_function_ b) (transfer_entries roll pitch yaw delta_sec);
  entries ← jacobian_entries (state_ b) delta_sec;
  J ← set_entries M entries;
  let b := set_transfer b M J in
  b ← (if use_dynamic_process_noise_covariance_ b then computeDynamicProcessNoiseCovariance (state_ b) b else Some b);
  let noise := if use_dynamic_process_noise_covariance_ b then dynamic_process_noise_covariance_ b else process_noise_covariance_ b in
  st ← apply_control delta_sec (control_acceleration_ b) (control_update_vector_ b) (state_ b);
  b ← wrapStateAngles (setState b (mat_vec M st));
  let P := mat_mul (mat_mul J (estimate_error_covariance_ b)) (transpose J) in
  Some (setEstimateErrorCovariance b (madd P (mscale delta_sec noise))).

#[export] Instance ekf : Filter FilterBase := {|
  base b := b;
  with_base _ b := b;
  predict := ekf_predict;
  correct := ekf_correct;
|}.
End ekf.

(** ** Every access is in range *)

Definition indices_ok (l : list Z) : Prop := Forall (fun i => 0 <= i < STATE_SIZE) l.

Lemma indices_get l i : indices_ok l -> 0 <= i < alen l -> exists idx, aget l i = Some idx /\ 0 <= idx < STATE_SIZE.
Proof. intros Hl Hi. destruct (aget_is_Some l i Hi) as [idx E]. exists idx. split; [done|]. apply (proj1 (Forall_forall _ _) Hl). by apply (aget_elem _ i). Qed.

Lemma update_vec v i x n : alen v = n -> 0 <= i < n -> exists v', @aset spec_float v i x = Some v' /\ alen v' = n.
Proof. intros Hv Hi. rewrite aset_Some by lia. eexists. split; [done|]. unfold alen in *. by rewrite length_insert. Qed.

(** The indices updated are those asked for whose measurement is finite. *)
Lemma update_indices_spec m : measurement_ok m -> exists l, update_indices m = Some l /\ indices_ok l /\
  (forall i, i ∈ l <-> aget (update_vector_ m) i = Some true /\ exists x, aget (measurement_ m) i = Some x /\ is_finite x = true).
Proof.
  intros (Hu & Hz & _). unfold update_indices. rewrite Hu. change STATE_SIZE with 15 in *.
  match goal with |- context [for_range 0 15 ?f []] => destruct (for_range_inv (fun n l => Forall (fun i => 0 <= i < n) l /\
    (forall i, i ∈ l <-> i < n /\ aget (update_vector_ m) i = Some true /\ exists x, aget (measurement_ m) i = Some x /\ is_finite x = true)) f 0 15 []) as (l & -> & Hl & Hs) end.
  - lia.
  - split; [constructor|]. intros i. rewrite elem_of_nil. split; [done|]. intros (Hi & Eu & _). apply aget_bounds in Eu. lia.
  - intros n l Hn [Hl Hs]. destruct (aget_is_Some (update_vector_ m) n) as [u Eu]; [lia|]. rewrite Eu. mred.
    assert (Hl' : Forall (fun i => 0 <= i < n + 1) l) by (eapply Forall_impl; [exact Hl|]; intros i Hi; cbn in Hi; lia).
    assert (Hskip : (forall x, aget (measurement_ m) n = Some x -> is_finite x = true -> u = false) ->
      forall i, i ∈ l <-> i < n + 1 /\ aget (update_vector_ m) i = Some true /\ exists x, aget (measurement_ m) i = Some x /\ is_finite x = true).
    { intros Hno i. rewrite Hs. split; [intros (? & ?); split; [lia|done]|]. intros (Hi & E & x & Ex & Hx). split; [|by split; [|exists x]].
      destruct (Z.eq_dec i n) as [->|]; [|lia]. rewrite Eu in E. injection E as ->. by specialize (Hno x Ex Hx). }
    destruct u; [|exists l; split; [done|]; split; [done|]; by apply Hskip].
    destruct (aget_is_Some (measurement_ m) n) as [x Ex]; [lia|]. rewrite Ex. mred. destruct (is_finite x) eqn:Hx.
    + exists (l ++ [n]). split; [done|]. split; [apply Forall_app; split; [done|repeat constructor; lia]|]. intros i. rewrite elem_of_app, list_elem_of_singleton, Hs. split.
      * intros [(? & ?)|Ei]; [split; [lia|done]|]. subst i. split; [lia|]. split; [done|]. by exists x.
      * intros (Hi & E & y & Ey & Hy). destruct (Z.eq_dec i n) as [|]; [by right|]. left. split; [lia|]. split; [done|]. by exists y.
    + exists l. split; [done|]. split; [done|]. apply Hskip. intros y Ey Hy. congruence.
  - exists l. split; [done|]. split; [eapply Forall_impl; [exact Hl|]; done|]. intros i. rewrite Hs. split; [by intros (_ & ?)|]. intros (E & Hx). split; [|done].
    apply aget_bounds in E. lia.
Qed.

(** The covariances are at least the minimal one. *)
Lemma subsets_ok m state l : measurement_ok m -> alen state = STATE_SIZE -> indices_ok l ->
  exists z x R, subsets m state l = Some (z, x, R) /\ alen z = alen l /\ alen x = alen l /\ mat_ok (alen l) (alen l) R.
Proof.
  intros (Hu & Hz & HC) Hst Hl. pose proof (alen_nonneg l) as Hn. unfold subsets.
  destruct (for_range_inv (fun _ (st : list spec_float * list spec_float * Mat) => let '(z, x, R) := st in alen z = alen l /\ alen x = alen l /\ mat_ok (alen l) (alen l) R)
    (subset_row m state l) 0 (alen l) (vzero (alen l), vzero (alen l), mzero (alen l) (alen l))) as ([[z x] R] & -> & H').
  - done.
  - split_and!; [by apply alen_anew..|by apply mzero_ok].
  - intros i [[z x] R] Hi (Hlz & Hlx & HR). unfold subset_row. destruct (indices_get l i Hl Hi) as (idx & -> & Hidx). mred.
    destruct (aget_is_Some (measurement_ m) idx) as [v ->]; [lia|]. mred. destruct (update_vec z i v _ Hlz Hi) as (z' & -> & Hz'). mred.
    destruct (aget_is_Some state idx) as [s ->]; [lia|]. mred. destruct (update_vec x i s _ Hlx Hi) as (x' & -> & Hx'). mred.
    match goal with |- context [for_range 0 (alen l) ?f R] => destruct (for_range_inv (fun _ M => mat_ok (alen l) (alen l) M) f 0 (alen l) R) as (R1 & -> & HR1) end; [done|done| |].
    { intros j M Hj HM. destruct (indices_get l j Hl Hj) as (jdx & -> & Hjdx). mred. destruct (mget_ok 15 15 (covariance_ m) idx jdx) as [c ->]; [done..|]. mred. by apply mset_ok. }
    mred. destruct (mget_ok (alen l) (alen l) R1 i i) as [d ->]; [done..|]. mred.
    assert (HR2 : exists R2, (if flt d f_zero then mset R1 i i (SFabs d) else Some R1) = Some R2 /\ mat_ok (alen l) (alen l) R2) by (destruct (flt d f_zero); [by apply mset_ok|by exists R1]).
    destruct HR2 as (R2 & -> & HR2). mred. destruct (mget_ok (alen l) (alen l) R2 i i) as [d2 ->]; [done..|]. mred.
    assert (HR3 : exists R3, (if flt d2 min_covariance then mset R2 i i min_covariance else Some R2) = Some R3 /\ mat_ok (alen l) (alen l) R3)
      by (destruct (flt d2 min_covariance); [by apply mset_ok|by exists R2]).
    destruct HR3 as (R3 & -> & HR3). mred. eexists. by split.
  - destruct H' as (? & ? & ?). by exists z, x, R.
Qed.

Lemma state_to_measurement_ok l : indices_ok l -> exists H, state_to_measurement l = Some H /\ mat_ok (alen l) STATE_SIZE H.
Proof.
  intros Hl. pose proof (alen_nonneg l) as Hn. unfold state_to_measurement. apply (for_range_inv (fun _ M => mat_ok (alen l) STATE_SIZE M)); [done|by apply mzero_ok|].
  intros i M Hi HM. destruct (indices_get l i Hl Hi) as (idx & -> & Hidx). mred. by apply mset_ok.
Qed.

Section laws.
Context `{EL : EigenLaws} `{T : Trigonometry}.

Lemma wrapStateAngles_ok b : alen (state_ b) = STATE_SIZE -> exists v, wrapStateAngles b = Some (setState b v) /\ alen v = STATE_SIZE.
Proof.
  intros Hs. unfold wrapStateAngles.
  match goal with |- context [for_range ?lo ?hi ?f (state_ b)] => destruct (for_range_inv (fun _ v => alen v = STATE_SIZE) f lo hi (state_ b)) as (v & -> & Hv) end; [done|done| |mred; by exists v].
  intros i v Hi Hv. destruct (aget_is_Some v i) as [x ->]; [unfold StateMemberRoll, StateMemberYaw, STATE_SIZE in *; lia|]. mred.
  apply update_vec; [done|]. unfold StateMemberRoll, StateMemberYaw, STATE_SIZE in *; lia.
Qed.

Lemma wrap_innovation_ok l v : indices_ok l -> alen v = alen l -> exists v', wrap_innovation l v = Some v' /\ alen v' = alen l.
Proof.
  intros Hl Hv. unfold wrap_innovation. apply (for_range_inv (fun _ v => alen v = alen l)); [apply alen_nonneg|done|].
  intros i w Hi Hw. destruct (indices_get l i Hl Hi) as (idx & -> & _). mred. destruct (is_angle idx); [|by exists w].
  destruct (aget_is_Some w i) as [x ->]; [lia|]. mred. by apply update_vec.
Qed.

(** A correction changes the state and the covariance, or nothing. *)
Lemma ekf_correct_ok m b : measurement_ok m -> base_ok b ->
  exists v P, ekf_correct m b = Some (setEstimateErrorCovariance (setState b v) P) /\ alen v = STATE_SIZE /\ mat_ok STATE_SIZE STATE_SIZE P.
Proof using EL.
  intros Hm Hb. unfold ekf_correct. destruct (update_indices_spec m Hm) as (l & -> & Hl & _). mred.
  destruct (subsets_ok m (state_ b) l Hm (ok_state b Hb) Hl) as (z & x & R & -> & Hz & Hx & HR). mred.
  destruct (state_to_measurement_ok l Hl) as (M & -> & HM). mred. pose proof (ok_covariance b Hb) as HP. pose proof (transpose_ok _ _ _ HM) as HMt.
  set (pht := mat_mul _ (transpose M)). assert (Hpht : mat_ok STATE_SIZE (alen l) pht) by (by apply (mat_mul_ok _ STATE_SIZE)).
  set (inv := inverse _). assert (Hinv : mat_ok (alen l) (alen l) inv) by (apply inverse_ok, madd_ok; [by apply (mat_mul_ok _ STATE_SIZE)|done]).
  set (K := mat_mul pht inv). assert (HK : mat_ok STATE_SIZE (alen l) K) by (by apply (mat_mul_ok _ (alen l))).
  destruct (wrap_innovation_ok l (vsub z x) Hl) as (w & -> & Hw); [by apply vsub_len|]. mred.
  destruct (checkMahalanobisThreshold _ _ _).
  - set (v := mat_vec_add _ K w). assert (Hv : alen v = STATE_SIZE) by (apply (mat_vec_add_ok _ (alen l)); [apply Hb|done|done]).
    set (G := mat_mul_sub _ K M). assert (HG : mat_ok STATE_SIZE STATE_SIZE G) by (apply (mat_mul_sub_ok _ (alen l)); [apply Hb|done|done]).
    set (P := mat_mul_add _ _ _). assert (HP' : mat_ok STATE_SIZE STATE_SIZE P).
    { apply (mat_mul_add_ok _ (alen l)); [|by apply (mat_mul_ok _ (alen l))|by apply transpose_ok].
      apply (mat_mul_ok _ STATE_SIZE); [by apply (mat_mul_ok _ STATE_SIZE)|by apply transpose_ok]. }
    destruct (wrapStateAngles_ok (setEstimateErrorCovariance (setState b v) P)) as (v' & -> & Hv'); [done|]. exists v', P. by split_and!.
  - exists (state_ b), (estimate_error_covariance_ b). split; [by destruct b|]. split; [apply Hb|done].
Qed.

Lemma ekf_correct_same m b c b' c' : estimate b = estimate c -> identity_ b = identity_ c -> ekf_correct m b = Some b' -> ekf_correct m c = Some c' ->
  state_ b' = state_ c' /\ estimate_error_covariance_ b' = estimate_error_covariance_ c'.
Proof.
  intros [= Es Ep _] Ei. unfold ekf_correct, wrapStateAngles. rewrite Es, Ep. destruct (update_indices m) as [l|]; [|done]. mred.
  destruct (subsets m (state_ c) l) as [[[z x] R]|]; [|done]. mred. destruct (state_to_measurement l) as [M|]; [|done]. mred.
  destruct (wrap_innovation l _) as [w|]; [|done]. mred. destruct (checkMahalanobisThreshold _ _ _).
  - cbn [state_ identity_ setState setEstimateErrorCovariance]. rewrite Ei. destruct (for_range _ _ _ _) as [v|]; [|done]. mred. by intros [= <-] [= <-].
  - by intros [= <-] [= <-].
Qed.

(** *** Prediction *)

Ltac unfold_members := unfold StateMemberX, StateMemberY, StateMemberZ, StateMemberRoll, StateMemberPitch, StateMemberYaw, StateMemberVx, StateMemberVy, StateMemberVz,
  StateMemberVroll, StateMemberVpitch, StateMemberVyaw, StateMemberAx, StateMemberAy, StateMemberAz, ControlMemberVx, ControlMemberVy, ControlMemberVz,
  ControlMemberVroll, ControlMemberVpitch, ControlMemberVyaw, STATE_SIZE, TWIST_SIZE, POSITION_OFFSET, POSITION_V_OFFSET in *.

Lemma transfer_entries_positions roll pitch yaw d : positions (transfer_entries roll pitch yaw d) = transfer_positions.
Proof. reflexivity. Qed.

Lemma transfer_inside : Forall (inside STATE_SIZE STATE_SIZE) transfer_positions.
Proof. apply (Forall_impl (fun p => bool_decide (0 <= fst p < 15 /\ 0 <= snd p < 15) = true)); [by repeat constructor|]. intros p Hp. by apply bool_decide_eq_true in Hp. Qed.

Lemma jacobian_entries_ok st d : alen st = STATE_SIZE -> exists l, jacobian_entries st d = Some l /\ Forall (inside STATE_SIZE STATE_SIZE) (positions l).
Proof.
  intros Hs. assert (Hg : forall i, 0 <= i < 15 -> exists x, aget st i = Some x) by (intros i Hi; apply aget_is_Some; unfold STATE_SIZE in Hs; lia).
  unfold jacobian_entries. repeat (match goal with |- context [aget st ?i ≫= _] => destruct (Hg i) as [? ->]; [unfold_members; lia|mred] end).
  eexists. split; [reflexivity|]. repeat constructor; done.
Qed.

Lemma apply_control_ok d acc u st : alen acc = TWIST_SIZE -> alen u = TWIST_SIZE -> alen st = STATE_SIZE -> exists v, apply_control d acc u st = Some v /\ alen v = STATE_SIZE.
Proof.
  intros Ha Hu Hs. unfold apply_control, add_at. unfold_members.
  assert (Hacc : forall i, 0 <= i < 6 -> exists x, aget acc i = Some x) by (intros i Hi; apply aget_is_Some; lia).
  assert (Hup : forall i, 0 <= i < 6 -> exists x, aget u i = Some x) by (intros i Hi; apply aget_is_Some; lia).
  assert (Hrot : forall c s v, 0 <= c < 6 -> 0 <= s < 15 -> alen v = 15 -> exists v', (a ← aget acc c; y ← aget v s; aset v s (fadd y (fmul a d))) = Some v' /\ alen v' = 15).
  { intros c s v Hc Hi Hv. destruct (Hacc c Hc) as [a ->]. mred. destruct (aget_is_Some v s) as [y ->]; [lia|]. mred. by apply update_vec. }
  assert (Hac : forall c s v, 0 <= c < 6 -> 0 <= s < 15 -> alen v = 15 -> exists v', (w ← aget u c; x ← (if (w : bool) then aget acc c else aget v s); aset v s x) = Some v' /\ alen v' = 15).
  { intros c s v Hc Hi Hv. destruct (Hup c Hc) as [w ->]. mred. destruct (Hacc c Hc) as [a Ea]. destruct (aget_is_Some v s) as [y Ey]; [lia|]. rewrite Ea, Ey.
    destruct w; mred; by apply update_vec. }
  destruct (Hrot 3 9 st) as (v1 & -> & H1); [lia..|done|]. mred. destruct (Hrot 4 10 v1) as (v2 & -> & H2); [lia..|done|]. mred. destruct (Hrot 5 11 v2) as (v3 & -> & H3); [lia..|done|]. mred.
  destruct (Hac 0 12 v3) as (v4 & -> & H4); [lia..|done|]. mred. destruct (Hac 1 13 v4) as (v5 & -> & H5); [lia..|done|]. mred. apply (Hac 2 14 v5); [lia..|done].
Qed.

Lemma computeDynamic_ok st b : base_ok b -> exists D, computeDynamicProcessNoiseCovariance st b = Some (set_dynamic b D) /\ mat_ok STATE_SIZE STATE_SIZE D /\
  magree (block_positions POSITION_OFFSET POSITION_OFFSET TWIST_SIZE TWIST_SIZE) (dynamic_process_noise_covariance_ b) D.
Proof using EL.
  intros Hb. unfold computeDynamicProcessNoiseCovariance.
  match goal with |- context [for_range 0 TWIST_SIZE ?f ?s] => destruct (for_range_inv (fun _ M => mat_ok TWIST_SIZE TWIST_SIZE M) f 0 TWIST_SIZE s) as (V & -> & HV) end; [done|by apply midentity_ok| |].
  { intros i M Hi HM. destruct (mget_ok TWIST_SIZE TWIST_SIZE M i i) as [x ->]; [done..|]. mred. by apply mset_ok. }
  mred. destruct (mblock_ok STATE_SIZE STATE_SIZE POSITION_OFFSET POSITION_OFFSET TWIST_SIZE TWIST_SIZE (process_noise_covariance_ b)) as (N & -> & HN); [apply Hb|done..|]. mred.
  set (B := mat_mul _ (transpose V)). assert (HB : mat_ok TWIST_SIZE TWIST_SIZE B) by (apply (mat_mul_ok _ TWIST_SIZE); [by apply (mat_mul_ok _ TWIST_SIZE)|by apply transpose_ok]).
  destruct (set_mblock_ok STATE_SIZE STATE_SIZE POSITION_OFFSET POSITION_OFFSET TWIST_SIZE TWIST_SIZE (dynamic_process_noise_covariance_ b) B) as (D & E & HD); [apply Hb|done..|].
  rewrite E. mred. exists D. split; [done|]. split; [done|]. by apply (set_mblock_step _ _ _ _ _ B).
Qed.

(** The process noise of a prediction. *)
Lemma process_noise_ok b : base_ok b -> exists D, (if use_dynamic_process_noise_covariance_ b then computeDynamicProcessNoiseCovariance (state_ b) b else Some b) = Some (set_dynamic b D) /\
  mat_ok STATE_SIZE STATE_SIZE D /\ magree (block_positions POSITION_OFFSET POSITION_OFFSET TWIST_SIZE TWIST_SIZE) (dynamic_process_noise_covariance_ b) D.
Proof using EL.
  intros Hb. destruct (use_dynamic_process_noise_covariance_ b); [by apply (computeDynamic_ok (state_ b) b)|]. exists (dynamic_process_noise_covariance_ b).
  split; [by destruct b|]. split; [apply Hb|done].
Qed.

(** What a prediction makes of the base. *)
Definition predicted (b : FilterBase) (acc : Vec) (M J D : Mat) (v : Vec) (P : Mat) : FilterBase :=
  setEstimateErrorCovariance (setState (set_dynamic (set_transfer (set_control_acceleration b acc) M J) D) v) P.

Lemma ekf_predict_ok t d b : base_ok b -> exists acc M J D v P, ekf_predict t d b = Some (predicted b acc M J D v P) /\
  mat_ok STATE_SIZE STATE_SIZE M /\ magree transfer_positions (transfer_function_ b) M /\
  mat_ok STATE_SIZE STATE_SIZE D /\ magree (block_positions POSITION_OFFSET POSITION_OFFSET TWIST_SIZE TWIST_SIZE) (dynamic_process_noise_covariance_ b) D /\
  alen v = STATE_SIZE /\ mat_ok STATE_SIZE STATE_SIZE P.
Proof using EL.
  intros Hb. unfold ekf_predict. pose proof (ok_state b Hb) as Hs.
  destruct (aget_is_Some (state_ b) StateMemberRoll) as [roll ->]; [unfold_members; lia|]. mred. destruct (aget_is_Some (state_ b) StateMemberPitch) as [pitch ->]; [unfold_members; lia|]. mred.
  destruct (aget_is_Some (state_ b) StateMemberYaw) as [yaw ->]; [unfold_members; lia|]. mred. destruct (prepareControl_ok t b Hb) as (acc & -> & Hacc). mred.
  set (b1 := set_control_acceleration b acc). change (transfer_function_ b1) with (transfer_function_ b). change (state_ b1) with (state_ b).
  destruct (set_entries_ok STATE_SIZE STATE_SIZE (transfer_function_ b) (transfer_entries roll pitch yaw (toSec d)) (ok_transfer b Hb)) as (M & EM & HM); [rewrite transfer_entries_positions; exact transfer_inside|].
  rewrite EM. mred. destruct (jacobian_entries_ok (state_ b) (toSec d) Hs) as (l & -> & Hl). mred. destruct (set_entries_ok _ _ M l HM Hl) as (J & -> & HJ). mred.
  set (b2 := set_transfer b1 M J). assert (Hb2 : base_ok b2) by (destruct Hb; by split).
  assert (Htr : magree transfer_positions (transfer_function_ b) M) by (apply (set_entries_step (transfer_entries roll pitch yaw (toSec d))); [intros p; by rewrite transfer_entries_positions|exact EM]).
  destruct (process_noise_ok b2 Hb2) as (D & -> & HDok & HDm). mred. cbn [control_acceleration_ control_update_vector_ state_ use_dynamic_process_noise_covariance_ dynamic_process_noise_covariance_ process_noise_covariance_ set_dynamic b2 b1 set_transfer set_control_acceleration].
  destruct (apply_control_ok (toSec d) acc (control_update_vector_ b) (state_ b) Hacc (ok_update b Hb) Hs) as (st & -> & Hst). mred.
  set (b3 := set_dynamic b2 D). assert (Hv0 : alen (mat_vec M st) = STATE_SIZE) by (by apply (mat_vec_ok _ STATE_SIZE)).
  destruct (wrapStateAngles_ok (setState b3 (mat_vec M st))) as (v & -> & Hv); [done|]. mred.
  eexists acc, M, J, D, v, _. split; [reflexivity|]. split; [exact HM|]. split; [exact Htr|]. split; [exact HDok|]. split; [exact HDm|]. split; [exact Hv|].
  apply madd_ok; [|apply mscale_ok].
  - apply (mat_mul_ok _ STATE_SIZE); [apply (mat_mul_ok _ STATE_SIZE); [done|apply Hb]|by apply transpose_ok].
  - cbn [use_dynamic_process_noise_covariance_ dynamic_process_noise_covariance_ process_noise_covariance_ set_dynamic setState b3 b2 b1 set_transfer set_control_acceleration].
    destruct (use_dynamic_process_noise_covariance_ b); [done|apply Hb].
Qed.

Lemma computeDynamic_same st b c D D' : base_ok b -> base_params b c -> computeDynamicProcessNoiseCovariance st b = Some (set_dynamic b D) ->
  computeDynamicProcessNoiseCovariance st c = Some (set_dynamic c D') -> D = D'.
Proof using EL.
  intros Hb Hp. unfold computeDynamicProcessNoiseCovariance. rewrite <- (p_noise b c Hp).
  match goal with |- context [for_range 0 TWIST_SIZE ?f ?s] => destruct (for_range_inv (fun _ M => mat_ok TWIST_SIZE TWIST_SIZE M) f 0 TWIST_SIZE s) as (V & -> & HV) end; [done|by apply midentity_ok| |].
  { intros i M Hi HM. destruct (mget_ok TWIST_SIZE TWIST_SIZE M i i) as [x ->]; [done..|]. mred. by apply mset_ok. }
  mred. destruct (mblock_ok STATE_SIZE STATE_SIZE POSITION_OFFSET POSITION_OFFSET TWIST_SIZE TWIST_SIZE (process_noise_covariance_ b)) as (N & -> & HN); [apply Hb|done..|]. mred.
  set (B := mat_mul _ (transpose V)). assert (HB : mat_ok TWIST_SIZE TWIST_SIZE B) by (apply (mat_mul_ok _ TWIST_SIZE); [by apply (mat_mul_ok _ TWIST_SIZE)|by apply transpose_ok]).
  destruct (set_mblock (dynamic_process_noise_covariance_ b) _ _ B) as [X|] eqn:E; [|done]. destruct (set_mblock (dynamic_process_noise_covariance_ c) _ _ B) as [Y|] eqn:E'; [|done]. mred.
  intros E1 E2. assert (X = Y) as <- by (by apply (set_mblock_equal POSITION_OFFSET POSITION_OFFSET TWIST_SIZE TWIST_SIZE _ _ B X Y HB (p_dynamic b c Hp))).
  apply (f_equal (fmap dynamic_process_noise_covariance_)) in E1, E2. cbn in E1, E2. congruence.
Qed.

Lemma process_noise_same b c : base_ok b -> base_ok c -> base_params b c -> state_ b = state_ c ->
  exists D D', (if use_dynamic_process_noise_covariance_ b then computeDynamicProcessNoiseCovariance (state_ b) b else Some b) = Some (set_dynamic b D) /\
    (if use_dynamic_process_noise_covariance_ c then computeDynamicProcessNoiseCovariance (state_ c) c else Some c) = Some (set_dynamic c D') /\
    (use_dynamic_process_noise_covariance_ c = true -> D = D') /\ magree (block_positions POSITION_OFFSET POSITION_OFFSET TWIST_SIZE TWIST_SIZE) D D'.
Proof using EL.
  intros Hb Hc Hp Es. rewrite Es, (p_use_dynamic b c Hp). destruct (use_dynamic_process_noise_covariance_ c).
  - destruct (computeDynamic_ok (state_ c) b Hb) as (D & E1 & _). destruct (computeDynamic_ok (state_ c) c Hc) as (D' & E2 & _).
    pose proof (computeDynamic_same _ b c D D' Hb Hp E1 E2) as <-. exists D, D. by split_and!.
  - exists (dynamic_process_noise_covariance_ b), (dynamic_process_noise_covariance_ c). split; [by destruct b|]. split; [by destruct c|]. split; [done|apply Hp].
Qed.

Lemma wrapStateAngles_same b c v v' : state_ b = state_ c -> wrapStateAngles b = Some (setState b v) -> wrapStateAngles c = Some (setState c v') -> v = v'.
Proof.
  intros E. unfold wrapStateAngles. rewrite E. destruct (for_range _ _ _ _) as [w|]; [|done]. mred. intros E1 E2.
  apply (f_equal (fmap state_)) in E1, E2. cbn in E1, E2. congruence.
Qed.

Lemma ekf_predict_same t d b c b' c' : base_ok b -> base_ok c -> base_params b c -> estimate b = estimate c -> ekf_predict t d b = Some b' -> ekf_predict t d c = Some c' ->
  base_params b' c' /\ estimate b' = estimate c'.
Proof using EL.
  intros Hb Hc Hp He. pose proof He as [= Es Ep Et]. pose proof (ok_state c Hc) as Hs. unfold ekf_predict. rewrite Es.
  destruct (aget (state_ c) StateMemberRoll) as [roll|]; [|done]. mred. destruct (aget (state_ c) StateMemberPitch) as [pitch|]; [|done]. mred.
  destruct (aget (state_ c) StateMemberYaw) as [yaw|]; [|done]. mred.
  destruct (prepareControl_ok t b Hb) as (acc & Eb & Hacc). destruct (prepareControl_ok t c Hc) as (acc' & Ec & _).
  pose proof (prepareControl_same t b c _ _ Hp Es Eb Ec) as Ea. cbn in Ea. subst acc'. rewrite Eb, Ec. mred.
  set (b1 := set_control_acceleration b acc). set (c1 := set_control_acceleration c acc).
  change (transfer_function_ b1) with (transfer_function_ b). change (transfer_function_ c1) with (transfer_function_ c). change (state_ b1) with (state_ b). change (state_ c1) with (state_ c). rewrite Es.
  destruct (set_entries (transfer_function_ b) _) as [M|] eqn:EM; [|done]. destruct (set_entries (transfer_function_ c) _) as [M'|] eqn:EM'; [|done]. mred.
  assert (M = M') as <- by (apply (set_entries_equal (transfer_entries roll pitch yaw (toSec d)) (transfer_function_ b) (transfer_function_ c)); [rewrite transfer_entries_positions; apply Hp|done..]).
  destruct (jacobian_entries (state_ c) (toSec d)) as [l|]; [|done]. mred. destruct (set_entries M l) as [J|]; [|done]. mred.
  set (b2 := set_transfer b1 M J). set (c2 := set_transfer c1 M J). change (state_ b2) with (state_ b). change (state_ c2) with (state_ c). rewrite Es.
  assert (HM : mat_ok STATE_SIZE STATE_SIZE M).
  { destruct (set_entries_ok STATE_SIZE STATE_SIZE (transfer_function_ b) (transfer_entries roll pitch yaw (toSec d)) (ok_transfer b Hb)) as (M1 & E1 & HM1); [rewrite transfer_entries_positions; exact transfer_inside|].
    rewrite EM in E1. by injection E1 as ->. }
  assert (Hb2 : base_ok b2) by (destruct Hb; by split).
  assert (Hc2 : base_ok c2) by (destruct Hc; by split).
  assert (Hp2 : base_params b2 c2) by (destruct Hp; by split).
  destruct (process_noise_same b2 c2 Hb2 Hc2 Hp2 Es) as (D & D' & E3 & E4 & HDD & HDm). change (state_ b2) with (state_ b) in E3. rewrite Es in E3. rewrite E3. change (state_ c2) with (state_ c) in E4. rewrite E4. clear E3 E4. mred.
  change (use_dynamic_process_noise_covariance_ c2) with (use_dynamic_process_noise_covariance_ c) in HDD.
  cbn [control_acceleration_ control_update_vector_ state_ use_dynamic_process_noise_covariance_ dynamic_process_noise_covariance_ process_noise_covariance_ set_dynamic b2 c2 b1 c1 set_transfer set_control_acceleration].
  rewrite Es, (p_update b c Hp), (p_use_dynamic b c Hp).
  destruct (apply_control_ok (toSec d) acc (control_update_vector_ c) (state_ c) Hacc (ok_update c Hc) Hs) as (st & -> & Hst). mred.
  set (b3 := set_dynamic b2 D). set (c3 := set_dynamic c2 D').
  assert (Hv0 : alen (mat_vec M st) = STATE_SIZE) by (apply (mat_vec_ok _ STATE_SIZE); [apply Hb2|done]).
  destruct (wrapStateAngles_ok (setState b3 (mat_vec M st))) as (v & E1 & _); [done|]. destruct (wrapStateAngles_ok (setState c3 (mat_vec M st))) as (v' & E2 & _); [done|].
  pose proof (wrapStateAngles_same (setState b3 (mat_vec M st)) (setState c3 (mat_vec M st)) v v' eq_refl E1 E2) as <-. rewrite E1, E2. mred. intros [= <-] [= <-]. split.
  - destruct Hp. by split.
  - unfold estimate. cbn. rewrite Ep, Et. destruct (use_dynamic_process_noise_covariance_ c); [by rewrite HDD|by rewrite (p_noise b c Hp)].
Qed.

Lemma predicted_ok t d b : base_ok b -> exists b', ekf_predict t d b = Some b' /\ base_ok b' /\ base_params b b' /\ last_measurement_time_ b' = last_measurement_time_ b.
Proof using EL.
  intros Hb. destruct (ekf_predict_ok t d b Hb) as (acc & M & J & D & v & P & -> & HM & HMa & HD & HDa & Hv & HP). eexists. split; [done|]. split; [destruct Hb; by split|]. split; [by split|done].
Qed.

Lemma corrected_ok m b : measurement_ok m -> base_ok b ->
  exists b', ekf_correct m b = Some b' /\ base_ok b' /\ base_params b b' /\ last_measurement_time_ b' = last_measurement_time_ b.
Proof using EL.
  intros Hm Hb. destruct (ekf_correct_ok m b Hm Hb) as (v & P & -> & Hv & HP). eexists. split; [done|]. split; [destruct Hb; by split|]. split; [by split|done].
Qed.

Lemma corrected_same m b c b' c' : measurement_ok m -> base_ok b -> base_ok c -> base_params b c /\ estimate b = estimate c -> ekf_correct m b = Some b' -> ekf_correct m c = Some c' ->
  base_params b' c' /\ estimate b' = estimate c'.
Proof using EL.
  intros Hm Hb Hc [Hp He] Eb Ec. destruct (corrected_ok m b Hm Hb) as (b1 & E1 & _ & Hp1 & Et1). destruct (corrected_ok m c Hm Hc) as (c1 & E2 & _ & Hp2 & Et2).
  rewrite Eb in E1. injection E1 as <-. rewrite Ec in E2. injection E2 as <-. split; [transitivity b; [by symmetry|by transitivity c]|].
  destruct (ekf_correct_same m b c b' c' He (p_identity b c Hp) Eb Ec) as [Es EP]. pose proof He as [= _ _ Et]. unfold estimate. congruence.
Qed.

Definition same_base (b c : FilterBase) : Prop := base_params b c /\ estimate b = estimate c.

#[export] Instance same_base_equivalence : Equivalence same_base.
Proof. split; [done|intros b c [Hp He]; split; [by symmetry|done]|intros b c d [Hp He] [Hp' He']; split; [by transitivity c|congruence]]. Qed.

(** The extended filter has the laws of the interface: it keeps nothing
    between two measurements but the estimate. *)
#[export] Instance ekf_laws : FilterLaws FilterBase := {|
  filter_ok := base_ok;
  same_params := base_params;
  same_filter := same_base;
  same_params_equivalence := base_params_equivalence;
  same_filter_equivalence := same_base_equivalence;
  base_with_base _ _ := eq_refl;
  ok_base _ Hb := Hb;
  ok_with_base _ _ _ Hb := Hb;
  params_base _ _ Hp := Hp;
  params_with_base _ _ _ _ _ Hp := Hp;
  with_base_base _ := eq_refl;
  same_core _ _ Hs := Hs;
  same_with_base _ _ _ _ _ Hp He := conj Hp He;
  predict_ok := predicted_ok;
  predict_same := ekf_predict_same;
  correct_ok := corrected_ok;
  correct_same := corrected_same;
|}.
End laws.

(** ** Measurements that are not numbers *)

(** The same measurement without the components that are not finite. *)
Definition finite_part (m : Measurement) : Measurement :=
  mkMeasurement (time_ m) (mahalanobis_thresh_ m) (m_latest_control_time_ m) (zip_with (fun (u : bool) x => u && is_finite x) (update_vector_ m) (measurement_ m))
    (m_latest_control_ m) (measurement_ m) (covariance_ m).

Lemma update_indices_finite m : measurement_ok m -> update_indices (finite_part m) = update_indices m.
Proof.
  intros (Hu & Hz & _). unfold update_indices, finite_part. cbn [update_vector_ measurement_]. unfold alen at 1. rewrite length_zip_with. unfold alen in Hu, Hz |- *.
  replace (Z.of_nat (length (update_vector_ m) `min` length (measurement_ m))) with (Z.of_nat (length (update_vector_ m))) by lia.
  unfold for_range. rewrite Z.sub_0_r, Nat2Z.id.
  assert (Hgen : forall n i l, i + Z.of_nat n <= Z.of_nat (length (update_vector_ m)) -> 0 <= i ->
    for_up n i (fun i l => u ← aget (zip_with (fun (u : bool) x => u && is_finite x) (update_vector_ m) (measurement_ m)) i; if (u : bool) then x ← aget (measurement_ m) i; Some (if is_finite x then l ++ [i] else l) else Some l) l =
    for_up n i (fun i l => u ← aget (update_vector_ m) i; if (u : bool) then x ← aget (measurement_ m) i; Some (if is_finite x then l ++ [i] else l) else Some l) l).
  { induction n as [|n IH]; intros i l Hi H0; [done|]. cbn [for_up].
    destruct (aget_is_Some (update_vector_ m) i) as [u Eu]; [unfold alen; lia|]. destruct (aget_is_Some (measurement_ m) i) as [x Ex]; [unfold alen; lia|].
    assert (E : aget (zip_with (fun (u : bool) x => u && is_finite x) (update_vector_ m) (measurement_ m)) i = Some (u && is_finite x)).
    { unfold aget in *. destruct (in_array (update_vector_ m) i) eqn:Ein; [|done]. destruct (in_array (measurement_ m) i) eqn:Ein2; [|done].
      assert (Ein3 : in_array (zip_with (fun (u : bool) x => u && is_finite x) (update_vector_ m) (measurement_ m)) i = true).
      { apply in_array_spec. apply in_array_spec in Ein. unfold alen in *. rewrite length_zip_with. lia. }
      rewrite Ein3, lookup_zip_with, Eu, Ex. done. }
    rewrite E, Eu, Ex. mred. destruct u; cbn [andb]; [destruct (is_finite x); mred|mred]; apply IH; lia. }
  apply Hgen; lia.
Qed.

(** C36. A component that is not a number, or infinite, is left out of the
    correction, whatever the measurement says of it: the filter corrects as
    with the finite components alone. *)
Theorem nonfinite_components_ignored `{E : Eigen} `{T : Trigonometry} m b : measurement_ok m -> ekf_correct m b = ekf_correct (finite_part m) b.
Proof. intros Hm. unfold ekf_correct. by rewrite update_indices_finite. Qed.
