(* ===== verification/Ukf.v ===== *)
(** The unscented Kalman filter (ukf.cpp): the second filter of
    robot_localization, over the same base and with the same interface as the
    extended one. What it keeps between two measurements, the sigma points
    and the flag that says whether they are current, is part of the relation
    of filters alike. *)

From S2P Require Import Prelude Floats FilterBase Ekf.

(** ** The code *)

(** The method [rclcpp::Duration::seconds]. *)
Class Rclcpp := { seconds : Z -> spec_float }.

Record Ukf := mkUkf {
  ukf_base : FilterBase;
  lambda_ : spec_float;
  sigma_points_ : list (list spec_float);
  weighted_covar_sqrt_ : Mat;
  state_weights_ : list spec_float;
  covar_weights_ : list spec_float;
  uncorrected_ : bool;
}.

Definition set_ukf_base (u : Ukf) (b : FilterBase) : Ukf :=
  mkUkf b (lambda_ u) (sigma_points_ u) (weighted_covar_sqrt_ u) (state_weights_ u) (covar_weights_ u) (uncorrected_ u).
Definition set_sigma_points (u : Ukf) (W : Mat) (sp : list (list spec_float)) : Ukf :=
  mkUkf (ukf_base u) (lambda_ u) sp W (state_weights_ u) (covar_weights_ u) (uncorrected_ u).
Definition set_uncorrected (u : Ukf) (b : bool) : Ukf :=
  mkUkf (ukf_base u) (lambda_ u) (sigma_points_ u) (weighted_covar_sqrt_ u) (state_weights_ u) (covar_weights_ u) b.

Definition sigma_count : Z := Z.shiftl STATE_SIZE 1 + 1.
Definition f_size : spec_float := f_of_Z STATE_SIZE.
Definition f_two : spec_float := f_of_Z 2.

Definition setConstants (alpha kappa beta : spec_float) (u : Ukf) : option Ukf :=
  let lambda := (alpha * alpha * (f_size + kappa) - f_size)%double in
  sw ← aset (state_weights_ u) 0 (lambda / (f_size + lambda))%double;
  w0 ← aget sw 0;
  cw ← aset (covar_weights_ u) 0 (w0 + (f_one - (alpha * alpha) + beta))%double;
  sp ← aset (sigma_points_ u) 0 (vzero STATE_SIZE);
  '(sp, sw, cw) ← for_range 1 sigma_count (fun i st =>
    let '(sp, sw, cw) := st in
    sp ← aset sp i (vzero STATE_SIZE);
    sw ← aset sw i (f_one / (f_two * (f_size + lambda)))%double;
    w ← aget sw i; cw ← aset cw i w;
    Some (sp, sw, cw)) (sp, sw, cw);
  Some (mkUkf (ukf_base u) lambda sp (weighted_covar_sqrt_ u) sw cw (uncorrected_ u)).

(** [M.col(j)]. *)
Definition mcol (M : Mat) (j : Z) : option (list spec_float) := mapM (fun i => mget M i j) (seqZ 0 (rows M)).

(** The sums of the cosines and sines of the angles of the sigma points. *)
Record AngleSums := mkSums { roll_sum_x : spec_float; roll_sum_y : spec_float; pitch_sum_x : spec_float; pitch_sum_y : spec_float; yaw_sum_x : spec_float; yaw_sum_y : spec_float }.
Definition no_sums : AngleSums := mkSums f_zero f_zero f_zero f_zero f_zero f_zero.

Section ukf.
Context `{Eigen} `{Trigonometry} `{Rclcpp}.

Definition add_angle (w : spec_float) (idx : Z) (x : spec_float) (s : AngleSums) : AngleSums :=
  let '(mkSums rx ry px py yx yy) := s in
  if idx =? StateMemberRoll then mkSums (rx + w * c_cos x)%double (ry + w * c_sin x)%double px py yx yy
  else if idx =? StateMemberPitch then mkSums rx ry (px + w * c_cos x)%double (py + w * c_sin x)%double yx yy
  else if idx =? StateMemberYaw then mkSums rx ry px py (yx + w * c_cos x)%double (yy + w * c_sin x)%double
  else s.

Definition mean_angle (idx : Z) (s : AngleSums) (x : spec_float) : spec_float :=
  if idx =? StateMemberRoll then c_atan2 (roll_sum_y s) (roll_sum_x s)
  else if idx =? StateMemberPitch then c_atan2 (pitch_sum_y s) (pitch_sum_x s)
  else if idx =? StateMemberYaw then c_atan2 (yaw_sum_y s) (yaw_sum_x s)
  else x.

(** [generateSigmaPoints], on the members it writes. *)
Definition draw_point (state : list spec_float) (W : Mat) (i : Z) (sp : list (list spec_float)) : option (list (list spec_float)) :=
  c ← mcol W i;
  sp ← aset sp (i + 1) (vadd state c);
  aset sp (i + 1 + STATE_SIZE) (vsub state c).

Definition draw_points (state : list spec_float) (W : Mat) (sp : list (list spec_float)) : option (list (list spec_float)) :=
  sp ← aset sp 0 state; for_range 0 STATE_SIZE (draw_point state W) sp.

Definition generateSigmaPoints (u : Ukf) : option Ukf :=
  let W := llt_matrixL (mscale (f_size + lambda_ u)%double (estimate_error_covariance_ (ukf_base u))) in
  sp ← draw_points (state_ (ukf_base u)) W (sigma_points_ u);
  Some (set_sigma_points u W sp).

(** [projectSigmaPoint], on the transfer function. *)
Definition projectSigmaPoint (delta : Z) (sigma_point : list spec_float) (M : Mat) : option (list spec_float * Mat) :=
  let delta_sec := seconds delta in
  roll ← aget sigma_point StateMemberRoll; pitch ← aget sigma_point StateMemberPitch; yaw ← aget sigma_point StateMemberYaw;
  M ← set_entries M (transfer_entries roll pitch yaw delta_sec);
  Some (mat_vec M sigma_point, M).

(** A round of the first loop of [predict]. *)
Definition project_round (delta : Z) (weights : list spec_float) (i : Z) (st : list (list spec_float) * Mat * list spec_float * AngleSums) :
  option (list (list spec_float) * Mat * list spec_float * AngleSums) :=
  let '(sp, M, state, s) := st in
  p ← aget sp i;
  '(p, M) ← projectSigmaPoint delta p M;
  sp ← aset sp i p;
  w ← aget weights i;
  let state := vadd state (vscale w p) in
  roll ← aget p StateMemberRoll; pitch ← aget p StateMemberPitch; yaw ← aget p StateMemberYaw;
  let s := add_angle w StateMemberRoll roll s in
  let s := add_angle w StateMemberPitch pitch s in
  let s := add_angle w StateMemberYaw yaw s in
  Some (sp, M, state, s).

(** The angles of a vector of the size of the state. *)
Definition normalize_angles (v : list spec_float) : option (list spec_float) :=
  for_range StateMemberRoll (StateMemberYaw + 1) (fun i v => x ← aget v i; aset v i (normalize_angle x)) v.
Definition mean_angles (s : AngleSums) (v : list spec_float) : option (list spec_float) :=
  for_range StateMemberRoll (StateMemberYaw + 1) (fun i v => aset v i (mean_angle i s f_zero)) v.

(** The second loop of [predict]. *)
Definition spread_round (sp : list (list spec_float)) (state weights : list spec_float) (i : Z) (P : Mat) : option Mat :=
  p ← aget sp i;
  d ← normalize_angles (vsub p state);
  w ← aget weights i;
  Some (outer_add P w d d).

Definition ukf_predict (reference_time delta : Z) (u : Ukf) : option Ukf :=
  b ← prepareControl reference_time (ukf_base u);
  u ← generateSigmaPoints (set_ukf_base u b);
  '(sp, M, state, s) ← for_range 0 (alen (sigma_points_ u)) (project_round delta (state_weights_ u)) (sigma_points_ u, transfer_function_ b, vzero STATE_SIZE, no_sums);
  state ← mean_angles s state;
  P ← for_range 0 (alen sp) (spread_round sp state (covar_weights_ u)) (mzero STATE_SIZE STATE_SIZE);
  let b := setState (set_transfer b M (transfer_function_jacobian_ b)) state in
  b ← (if use_dynamic_process_noise_covariance_ b then computeDynamicProcessNoiseCovariance (state_ b) b else Some b);
  let noise := if use_dynamic_process_noise_covariance_ b then dynamic_process_noise_covariance_ b else process_noise_covariance_ b in
  b ← wrapStateAngles (setEstimateErrorCovariance b (madd P (mscale (seconds delta) noise)));
  Some (set_uncorrected (set_ukf_base (set_sigma_points u (weighted_covar_sqrt_ u) sp) b) true).

(** *** Correction *)

(** A round of the loop that predicts the measurement. *)
Definition measure_round (indices : list Z) (H : Mat) (sp : list (list spec_float)) (weights : list spec_float) (i : Z)
  (st : list (list spec_float) * list spec_float * AngleSums) : option (list (list spec_float) * list spec_float * AngleSums) :=
  let '(zs, pred, s) := st in
  p ← aget sp i;
  let z := mat_vec H p in
  zs ← aset zs i z;
  w ← aget weights i;
  let pred := vadd pred (vscale w z) in
  s ← for_range 0 (alen indices) (fun k s => idx ← aget indices k; x ← aget z k; Some (add_angle w idx x s)) s;
  pred ← for_range 0 (alen indices) (fun k pred => idx ← aget indices k; x ← aget pred k; aset pred k (mean_angle idx s x)) pred;
  Some (zs, pred, s).

(** The differences of a sigma point, of the size of the measurement and of
    that of the state, both wrapped at the index in the measurement. *)
Definition wrap_differences (indices : list Z) (d sd : list spec_float) : option (list spec_float * list spec_float) :=
  for_range 0 (alen indices) (fun k st =>
    let '(d, sd) := st in
    idx ← aget indices k;
    if is_angle idx then x ← aget d k; d ← aset d k (normalize_angle x); y ← aget sd k; sd ← aset sd k (normalize_angle y); Some (d, sd)
    else Some (d, sd)) (d, sd).

Definition covariance_round (indices : list Z) (sp zs : list (list spec_float)) (state pred weights : list spec_float) (i : Z) (st : Mat * Mat) : option (Mat * Mat) :=
  let '(Pzz, Pxz) := st in
  z ← aget zs i; p ← aget sp i;
  '(d, sd) ← wrap_differences indices (vsub z pred) (vsub p state);
  w ← aget weights i;
  Some (outer_add Pzz w d d, outer_add Pxz w sd d).

(** [correct], once the sigma points are current. *)
Definition ukf_update (m : Measurement) (u : Ukf) : option Ukf :=
  let b := ukf_base u in
  indices ← update_indices m;
  let n := alen indices in
  '(measurement_subset, state_subset, R) ← subsets m (state_ b) indices;
  H ← state_to_measurement indices;
  '(zs, pred, _) ← for_range 0 (alen (sigma_points_ u)) (measure_round indices H (sigma_points_ u) (state_weights_ u))
    (anew (alen (sigma_points_ u)) (vzero n), vzero n, no_sums);
  '(Pzz, Pxz) ← for_range 0 (alen (sigma_points_ u)) (covariance_round indices (sigma_points_ u) zs (state_ b) pred (covar_weights_ u)) (mzero n n, mzero STATE_SIZE n);
  let inv_innov_cov := inverse (madd Pzz R) in
  let K := mat_mul Pxz inv_innov_cov in
  innovation ← wrap_innovation indices (vsub measurement_subset pred);
  if checkMahalanobisThreshold innovation inv_innov_cov (mahalanobis_thresh_ m) then
    let b := setState b (mat_vec_add (state_ b) K innovation) in
    let P := mat_mul_sub (estimate_error_covariance_ b) (mat_mul K Pzz) (transpose K) in
    b ← wrapStateAngles (setEstimateErrorCovariance b P);
    Some (set_uncorrected (set_ukf_base u b) false)
  else Some u.

Definition ukf_correct (m : Measurement) (u : Ukf) : option Ukf :=
  u ← (if uncorrected_ u then Some u else generateSigmaPoints u);
  ukf_update m u.

#[export] Instance ukf : Filter Ukf := {|
  base := ukf_base;
  with_base := set_ukf_base;
  predict := ukf_predict;
  correct := ukf_correct;
|}.
End ukf.

(** ** Every access is in range *)

Definition points_ok (sp : list (list spec_float)) : Prop := alen sp = sigma_count /\ Forall (fun p => alen p = STATE_SIZE) sp.

Lemma points_get sp i : points_ok sp -> 0 <= i < sigma_count -> exists p, aget sp i = Some p /\ alen p = STATE_SIZE.
Proof. intros [El Hf] Hi. destruct (aget_is_Some sp i) as [p E]; [lia|]. exists p. split; [done|]. apply (proj1 (Forall_forall _ _) Hf). by apply (aget_elem _ i). Qed.

Lemma points_set sp i p : points_ok sp -> 0 <= i < sigma_count -> alen p = STATE_SIZE -> exists sp', aset sp i p = Some sp' /\ points_ok sp'.
Proof.
  intros [El Hf] Hi Hp. rewrite aset_Some by lia. eexists. split; [done|]. split; [unfold alen in *; by rewrite length_insert|].
  by apply Forall_insert.
Qed.

Record ukf_ok (u : Ukf) : Prop := {
  ok_ukf_base : base_ok (ukf_base u);
  ok_points : points_ok (sigma_points_ u);
  ok_state_weights : alen (state_weights_ u) = sigma_count;
  ok_covar_weights : alen (covar_weights_ u) = sigma_count;
}.

Lemma mapM_alen {A B} (f : A -> option B) l : (forall x, x ∈ l -> exists y, f x = Some y) -> exists k, mapM f l = Some k /\ alen k = alen l.
Proof.
  intros Hf. induction l as [|x l IH]; [by exists []|]. destruct (Hf x) as [y Ey]; [by left|]. destruct IH as (k & E & Hk); [intros z Hz; apply Hf; by right|].
  exists (y :: k). cbn [mapM]. rewrite Ey. mred. rewrite E. mred. split; [done|]. unfold alen in *. cbn [length]. lia.
Qed.

Lemma mcol_ok n m M j : mat_ok n m M -> 0 <= j < m -> exists c, mcol M j = Some c /\ alen c = n.
Proof.
  intros HM Hj. unfold mcol. destruct (mapM_alen (fun i => mget M i j) (seqZ 0 (rows M))) as (c & -> & Hc).
  - intros i Hi%elem_of_seqZ. destruct HM as (Hr & Hm). apply (mget_ok n m); [by split|lia|done].
  - exists c. split; [done|]. rewrite Hc. unfold alen. rewrite length_seqZ. destruct HM as (Hr & _ & Hn & _). lia.
Qed.

Section laws.
Context `{EL : EigenLaws} `{T : Trigonometry} `{RC : Rclcpp}.

Lemma draw_points_ok state W sp : alen state = STATE_SIZE -> mat_ok STATE_SIZE STATE_SIZE W -> points_ok sp -> exists sp', draw_points state W sp = Some sp' /\ points_ok sp'.
Proof.
  intros Hs HW Hsp. unfold draw_points. destruct (points_set sp 0 state) as (sp1 & -> & H1); [done..|]. mred.
  apply (for_range_inv (fun _ sp => points_ok sp)); [done|done|]. intros i sp2 Hi H2. unfold draw_point.
  destruct (mcol_ok _ _ W i HW Hi) as (c & -> & Hc). mred. change STATE_SIZE with 15 in *. change sigma_count with 31 in *.
  destruct (points_set sp2 (i + 1) (vadd state c)) as (sp3 & -> & H3); [done|change sigma_count with 31; lia|by apply vadd_len|]. mred.
  apply points_set; [done|change sigma_count with 31; lia|by apply vsub_len].
Qed.

(** All the points are written. *)
Lemma draw_points_same state W sp sp' a b : points_ok sp -> points_ok sp' -> draw_points state W sp = Some a -> draw_points state W sp' = Some b -> a = b.
Proof.
  intros [El _] [El' _]. unfold draw_points. destruct (aset sp 0 state) as [s1|] eqn:E1; [|done]. destruct (aset sp' 0 state) as [s2|] eqn:E2; [|done]. mred. intros Ea Eb.
  assert (HR : alen a = sigma_count /\ alen b = sigma_count /\ forall k, 0 <= k < 15 + 1 \/ 15 < k <= 15 + 15 -> aget a k = aget b k).
  { apply (for_range_rel (fun i (x y : list (list spec_float)) => alen x = sigma_count /\ alen y = sigma_count /\ forall k, 0 <= k < i + 1 \/ 15 < k <= 15 + i -> aget x k = aget y k)
      (draw_point state W) (draw_point state W) 0 15 s1 s2); [done| | |exact Ea|exact Eb].
    - intros i x y x' y' Hi (Hx & Hy & Hk). unfold draw_point. destruct (mcol W i) as [c|]; [|done]. mred.
      destruct (aset x (i + 1) _) as [x1|] eqn:F1; [|done]. destruct (aset y (i + 1) _) as [y1|] eqn:F2; [|done]. mred. intros G1 G2.
      split; [by rewrite (aset_len _ _ _ _ G1), (aset_len _ _ _ _ F1)|]. split; [by rewrite (aset_len _ _ _ _ G2), (aset_len _ _ _ _ F2)|]. intros k Hki.
      rewrite (aget_aset _ _ _ _ k G1), (aget_aset _ _ _ _ k G2), (aget_aset _ _ _ _ k F1), (aget_aset _ _ _ _ k F2). change STATE_SIZE with 15.
      destruct (Z.eqb_spec (i + 1 + 15) k); [done|]. destruct (Z.eqb_spec (i + 1) k); [done|]. apply Hk. lia.
    - split; [by rewrite (aset_len _ _ _ _ E1)|]. split; [by rewrite (aset_len _ _ _ _ E2)|]. intros k Hk. assert (k = 0) as -> by lia.
      by rewrite (aget_aset _ _ _ _ 0 E1), (aget_aset _ _ _ _ 0 E2). }
  destruct HR as (Ha & Hb & Hk). apply aget_ext; [congruence|]. intros k Hki. apply Hk. change sigma_count with 31 in *. lia.
Qed.

Lemma generate_ok u : ukf_ok u -> exists W sp, generateSigmaPoints u = Some (set_sigma_points u W sp) /\ points_ok sp.
Proof using EL.
  intros Hu. unfold generateSigmaPoints.
  destruct (draw_points_ok (state_ (ukf_base u)) (llt_matrixL (mscale (f_size + lambda_ u)%double (estimate_error_covariance_ (ukf_base u)))) (sigma_points_ u)) as (sp & -> & Hsp).
  - apply Hu.
  - apply llt_matrixL_ok, mscale_ok, Hu.
  - apply Hu.
  - mred. eexists _, sp. by split.
Qed.

Lemma set_points_ok u W sp : ukf_ok u -> points_ok sp -> ukf_ok (set_sigma_points u W sp).
Proof. intros [] ?. by split. Qed.

(** Drawn again, the points of filters with the same estimate are the same. *)
Lemma generate_same u v u' v' : ukf_ok u -> ukf_ok v -> lambda_ u = lambda_ v -> state_ (ukf_base u) = state_ (ukf_base v) ->
  estimate_error_covariance_ (ukf_base u) = estimate_error_covariance_ (ukf_base v) ->
  generateSigmaPoints u = Some u' -> generateSigmaPoints v = Some v' -> sigma_points_ u' = sigma_points_ v'.
Proof.
  intros Hu Hv El Es Ep. unfold generateSigmaPoints. rewrite El, Es, Ep.
  destruct (draw_points _ _ (sigma_points_ u)) as [a|] eqn:Ea; [|done]. destruct (draw_points _ _ (sigma_points_ v)) as [b|] eqn:Eb; [|done]. mred.
  intros [= <-] [= <-]. cbn [sigma_points_ set_sigma_points]. by apply (draw_points_same _ _ _ _ _ _ (ok_points u Hu) (ok_points v Hv) Ea Eb).
Qed.

(** *** Prediction *)

Lemma normalize_angles_ok v : alen v = STATE_SIZE -> exists v', normalize_angles v = Some v' /\ alen v' = STATE_SIZE.
Proof.
  intros Hv. unfold normalize_angles. apply (for_range_inv (fun _ v => alen v = STATE_SIZE)); [done|done|]. intros i w Hi Hw.
  assert (0 <= i < STATE_SIZE) by (unfold StateMemberRoll, StateMemberYaw, STATE_SIZE in *; lia).
  destruct (aget_is_Some w i) as [x ->]; [lia|]. mred. by apply update_vec.
Qed.

Lemma mean_angles_ok s v : alen v = STATE_SIZE -> exists v', mean_angles s v = Some v' /\ alen v' = STATE_SIZE.
Proof.
  intros Hv. unfold mean_angles. apply (for_range_inv (fun _ v => alen v = STATE_SIZE)); [done|done|]. intros i w Hi Hw.
  apply update_vec; [done|]. unfold StateMemberRoll, StateMemberYaw, STATE_SIZE in *; lia.
Qed.

Lemma project_ok d p M : alen p = STATE_SIZE -> mat_ok STATE_SIZE STATE_SIZE M ->
  exists p' M', projectSigmaPoint d p M = Some (p', M') /\ alen p' = STATE_SIZE /\ mat_ok STATE_SIZE STATE_SIZE M' /\ magree transfer_positions M M'.
Proof using EL.
  intros Hp HM. unfold projectSigmaPoint.
  assert (Hg : forall i, 0 <= i < 15 -> exists x, aget p i = Some x) by (intros i Hi; apply aget_is_Some; unfold STATE_SIZE in Hp; lia).
  destruct (Hg StateMemberRoll) as [roll ->]; [done|]. mred. destruct (Hg StateMemberPitch) as [pitch ->]; [done|]. mred. destruct (Hg StateMemberYaw) as [yaw ->]; [done|]. mred.
  destruct (set_entries_ok STATE_SIZE STATE_SIZE M (transfer_entries roll pitch yaw (seconds d)) HM) as (M' & E & HM'); [rewrite transfer_entries_positions; exact transfer_inside|].
  rewrite E. mred. eexists _, M'. split; [done|]. split; [by apply (mat_vec_ok _ STATE_SIZE)|]. split; [done|].
  apply (set_entries_step (transfer_entries roll pitch yaw (seconds d))); [intros q; by rewrite transfer_entries_positions|exact E].
Qed.

(** What the first loop keeps, from the transfer function [M0]. *)
Definition projected (M0 : Mat) (st : list (list spec_float) * Mat * list spec_float * AngleSums) : Prop :=
  let '(sp, M, state, _) := st in points_ok sp /\ mat_ok STATE_SIZE STATE_SIZE M /\ magree transfer_positions M0 M /\ alen state = STATE_SIZE.

Lemma project_round_ok d weights M0 i st : alen weights = sigma_count -> 0 <= i < sigma_count -> projected M0 st ->
  exists st', project_round d weights i st = Some st' /\ projected M0 st'.
Proof using EL.
  intros Hw Hi. destruct st as [[[sp M] state] s]. intros (Hsp & HM & Ha & Hs). unfold project_round.
  destruct (points_get sp i Hsp Hi) as (p & -> & Hp). mred. destruct (project_ok d p M Hp HM) as (p' & M' & -> & Hp' & HM' & Ha'). mred.
  destruct (points_set sp i p' Hsp Hi Hp') as (sp' & -> & Hsp'). mred. destruct (aget_is_Some weights i) as [w ->]; [lia|]. mred.
  assert (Hg : forall i, 0 <= i < 15 -> exists x, aget p' i = Some x) by (intros j Hj; apply aget_is_Some; unfold STATE_SIZE in Hp'; lia).
  destruct (Hg StateMemberRoll) as [roll ->]; [done|]. mred. destruct (Hg StateMemberPitch) as [pitch ->]; [done|]. mred. destruct (Hg StateMemberYaw) as [yaw ->]; [done|]. mred.
  eexists. split; [done|]. split; [done|]. split; [done|]. split; [by transitivity M|]. apply vadd_len; [done|by rewrite vscale_len].
Qed.

Lemma project_rounds_ok d u M state s : ukf_ok u -> mat_ok STATE_SIZE STATE_SIZE M -> alen state = STATE_SIZE ->
  exists st, for_range 0 (alen (sigma_points_ u)) (project_round d (state_weights_ u)) (sigma_points_ u, M, state, s) = Some st /\ projected M st.
Proof using EL.
  intros Hu HM Hs. apply (for_range_inv (fun _ st => projected M st)); [apply alen_nonneg|by split; [apply Hu|]|].
  intros i st Hi. apply project_round_ok; [apply Hu|]. by destruct (ok_points u Hu) as [<- _].
Qed.

Lemma spread_rounds_ok sp state weights n : points_ok sp -> alen state = STATE_SIZE -> alen weights = sigma_count -> n = sigma_count ->
  exists P, for_range 0 n (spread_round sp state weights) (mzero STATE_SIZE STATE_SIZE) = Some P /\ mat_ok STATE_SIZE STATE_SIZE P.
Proof using EL.
  intros Hsp Hs Hw ->. apply (for_range_inv (fun _ P => mat_ok STATE_SIZE STATE_SIZE P)); [done|by apply mzero_ok|]. intros i P Hi HP. unfold spread_round.
  destruct (points_get sp i Hsp Hi) as (p & -> & Hp). mred. destruct (normalize_angles_ok (vsub p state)) as (d & -> & Hd); [by apply vsub_len|]. mred.
  destruct (aget_is_Some weights i) as [w ->]; [lia|]. mred. eexists. split; [done|]. by apply outer_add_ok.
Qed.

(** What a prediction makes of the filter. *)
Definition ukf_predicted (u : Ukf) (acc : list spec_float) (W : Mat) (sp : list (list spec_float)) (M D : Mat) (v : list spec_float) (P : Mat) : Ukf :=
  set_uncorrected (set_ukf_base (set_sigma_points u W sp) (predicted (ukf_base u) acc M (transfer_function_jacobian_ (ukf_base u)) D v P)) true.

Lemma ukf_predict_ok t d u : ukf_ok u -> exists acc W sp M D v P, ukf_predict t d u = Some (ukf_predicted u acc W sp M D v P) /\ points_ok sp /\
  mat_ok STATE_SIZE STATE_SIZE M /\ magree transfer_positions (transfer_function_ (ukf_base u)) M /\
  mat_ok STATE_SIZE STATE_SIZE D /\ magree (block_positions POSITION_OFFSET POSITION_OFFSET TWIST_SIZE TWIST_SIZE) (dynamic_process_noise_covariance_ (ukf_base u)) D /\
  alen v = STATE_SIZE /\ mat_ok STATE_SIZE STATE_SIZE P.
Proof using EL.
  intros Hu. pose proof (ok_ukf_base u Hu) as Hb. unfold ukf_predict. destruct (prepareControl_ok t (ukf_base u) Hb) as (acc & -> & Hacc). mred.
  set (b1 := set_control_acceleration (ukf_base u) acc). assert (Hb1 : base_ok b1) by (by apply set_control_acceleration_ok).
  set (u1 := set_ukf_base u b1). assert (Hu1 : ukf_ok u1) by (destruct Hu; by split).
  destruct (generate_ok u1 Hu1) as (W & sp1 & -> & Hsp1). mred. set (u2 := set_sigma_points u1 W sp1). assert (Hu2 : ukf_ok u2) by (by apply set_points_ok).
  destruct (project_rounds_ok d u2 (transfer_function_ b1) (vzero STATE_SIZE) no_sums Hu2) as ([[[sp M] st] s] & E & Hsp & HM & HMa & Hst); [apply Hb|by apply alen_anew|].
  change (ukf_base u2) with b1. change (covar_weights_ u2) with (covar_weights_ u). change (state_weights_ u2) with (state_weights_ u) in E |- *. rewrite E. mred.
  destruct (mean_angles_ok s st Hst) as (st' & -> & Hst'). mred.
  destruct (spread_rounds_ok sp st' (covar_weights_ u) (alen sp) Hsp Hst' (ok_covar_weights u Hu)) as (P & -> & HP); [apply Hsp|]. mred.
  set (b2 := setState _ st'). assert (Hb2 : base_ok b2) by (destruct Hb; by split).
  destruct (process_noise_ok b2 Hb2) as (D & -> & HD & HDa). mred. set (b3 := set_dynamic b2 D).
  set (P2 := madd P _). assert (HP2 : mat_ok STATE_SIZE STATE_SIZE P2).
  { apply madd_ok; [done|]. apply mscale_ok. unfold b3, b2. cbn [use_dynamic_process_noise_covariance_ dynamic_process_noise_covariance_ process_noise_covariance_ set_dynamic setState set_transfer].
    destruct (use_dynamic_process_noise_covariance_ b1); [done|apply Hb]. }
  destruct (wrapStateAngles_ok (setEstimateErrorCovariance b3 P2)) as (v & -> & Hv); [done|]. mred.
  exists acc, W, sp, M, D, v, P2. by split_and!.
Qed.

Definition ukf_params (u v : Ukf) : Prop :=
  base_params (ukf_base u) (ukf_base v) /\ lambda_ u = lambda_ v /\ state_weights_ u = state_weights_ v /\ covar_weights_ u = covar_weights_ v.

(** The sigma points matter while they are current. *)
Definition ukf_same (u v : Ukf) : Prop :=
  ukf_params u v /\ estimate (ukf_base u) = estimate (ukf_base v) /\ uncorrected_ u = uncorrected_ v /\ (uncorrected_ u = true -> sigma_points_ u = sigma_points_ v).

#[export] Instance ukf_params_equivalence : Equivalence ukf_params.
Proof.
  split; [intros u; by split|intros u v (? & ? & ? & ?); by split_and!|]. intros u v w (? & ? & ? & ?) (? & ? & ? & ?). split_and!; [by transitivity (ukf_base v)|congruence..].
Qed.

#[export] Instance ukf_same_equivalence : Equivalence ukf_same.
Proof.
  split.
  - intros u. by split.
  - intros u v (Hp & He & Hc & Hs). split; [by symmetry|]. split; [done|]. split; [done|]. intros Hv. symmetry. apply Hs. congruence.
  - intros u v w (Hp & He & Hc & Hs) (Hp' & He' & Hc' & Hs'). split; [by transitivity v|]. split; [congruence|]. split; [congruence|]. intros Hu. rewrite Hs by done. apply Hs'. congruence.
Qed.

Lemma predicted_ukf_ok t d u : ukf_ok u -> exists u', ukf_predict t d u = Some u' /\ ukf_ok u' /\ ukf_params u u' /\
  last_measurement_time_ (ukf_base u') = last_measurement_time_ (ukf_base u).
Proof using EL.
  intros Hu. destruct (ukf_predict_ok t d u Hu) as (acc & W & sp & M & D & v & P & -> & Hsp & HM & HMa & HD & HDa & Hv & HP). eexists. split; [done|].
  split; [|by split; [split; [by split|]|]]. destruct Hu as [[] ? ? ?]. split; [by split|done..].
Qed.

Lemma project_round_same d weights i st st' r r' : 
  (let '(sp, M, s, a) := st in let '(sp', M', s', a') := st' in sp = sp' /\ s = s' /\ a = a' /\ magree transfer_positions M M') ->
  project_round d weights i st = Some r -> project_round d weights i st' = Some r' ->
  let '(sp, M, s, a) := r in let '(sp', M', s', a') := r' in sp = sp' /\ s = s' /\ a = a' /\ magree transfer_positions M M'.
Proof.
  destruct st as [[[sp M] s] a], st' as [[[sp' M'] s'] a']. intros (<- & <- & <- & Hm). unfold project_round, projectSigmaPoint.
  destruct (aget sp i) as [p|]; [|done]. mred. destruct (aget p StateMemberRoll) as [roll|]; [|done]. mred. destruct (aget p StateMemberPitch) as [pitch|]; [|done]. mred.
  destruct (aget p StateMemberYaw) as [yaw|]; [|done]. mred. destruct (set_entries M _) as [N|] eqn:E; [|done]. destruct (set_entries M' _) as [N'|] eqn:E'; [|done]. mred.
  assert (N = N') as <- by (apply (set_entries_equal (transfer_entries roll pitch yaw (seconds d)) M M'); [by rewrite transfer_entries_positions|done..]).
  destruct (aset sp i _) as [sp1|]; [|done]. mred. destruct (aget weights i) as [w|]; [|done]. mred. destruct (aget (mat_vec N p) StateMemberRoll) as [roll'|]; [|done]. mred.
  destruct (aget (mat_vec N p) StateMemberPitch) as [pitch'|]; [|done]. mred. destruct (aget (mat_vec N p) StateMemberYaw) as [yaw'|]; [|done]. mred.
  by intros [= <-] [= <-].
Qed.

Lemma ukf_predict_same t d u v u' v' : ukf_ok u -> ukf_ok v -> ukf_params u v -> estimate (ukf_base u) = estimate (ukf_base v) ->
  ukf_predict t d u = Some u' -> ukf_predict t d v = Some v' -> ukf_same u' v'.
Proof using EL.
  intros Hu Hv Hp He. pose proof Hp as (Hpb & El & Ew & Ec). pose proof He as [= Es Ep Et]. pose proof (ok_ukf_base u Hu) as Hb. pose proof (ok_ukf_base v Hv) as Hc. unfold ukf_predict.
  destruct (prepareControl_ok t (ukf_base u) Hb) as (acc & Eu & _). destruct (prepareControl_ok t (ukf_base v) Hc) as (acc' & Ev & _).
  pose proof (prepareControl_same t _ _ _ _ Hpb Es Eu Ev) as Ea. cbn in Ea. subst acc'. rewrite Eu, Ev. mred. clear Eu Ev.
  set (b1 := set_control_acceleration (ukf_base u) acc). set (c1 := set_control_acceleration (ukf_base v) acc). set (u1 := set_ukf_base u b1). set (v1 := set_ukf_base v c1).
  assert (Hu1 : ukf_ok u1) by (destruct Hu as [[] ? ? ?]; by split). assert (Hv1 : ukf_ok v1) by (destruct Hv as [[] ? ? ?]; by split).
  destruct (generate_ok u1 Hu1) as (W & sp & Eu & Hsp). destruct (generate_ok v1 Hv1) as (W' & sp' & Ev & Hsp').
  pose proof (generate_same u1 v1 _ _ Hu1 Hv1 El Es Ep Eu Ev) as Esp. cbn in Esp. subst sp'. rewrite Eu, Ev. mred. clear Eu Ev.
  set (u2 := set_sigma_points u1 W sp). set (v2 := set_sigma_points v1 W' sp). assert (Hu2 : ukf_ok u2) by (by apply set_points_ok). assert (Hv2 : ukf_ok v2) by (by apply set_points_ok).
  destruct (project_rounds_ok d u2 (transfer_function_ b1) (vzero STATE_SIZE) no_sums Hu2) as ([[[spu M] st] s] & Eu & Hspu & HM & _ & Hst); [apply Hb|by apply alen_anew|].
  destruct (project_rounds_ok d v2 (transfer_function_ c1) (vzero STATE_SIZE) no_sums Hv2) as ([[[spv N] st'] s'] & Ev & Hspv & HN & _ & Hst'); [apply Hc|by apply alen_anew|].
  assert (HR : spu = spv /\ st = st' /\ s = s' /\ magree transfer_positions M N).
  { change (state_weights_ v2) with (state_weights_ v) in Ev. rewrite <- Ew in Ev.
    refine (for_range_rel (fun _ (x y : list (list spec_float) * Mat * list spec_float * AngleSums) => let '(sp, M, s, a) := x in let '(sp', M', s', a') := y in sp = sp' /\ s = s' /\ a = a' /\ magree transfer_positions M M')
      _ _ _ _ _ _ _ _ (alen_nonneg sp) _ _ Eu Ev).
    - intros i x y x' y' _ Hxy Ex Ey. exact (project_round_same d _ i x y x' y' Hxy Ex Ey).
    - split_and!; try done. apply Hpb. }
  destruct HR as (<- & <- & <- & HMN). change (ukf_base u2) with b1. change (ukf_base v2) with c1. rewrite Eu, Ev. mred. clear Eu Ev.
  destruct (mean_angles_ok s st Hst) as (m & -> & Hm). mred.
  change (covar_weights_ u2) with (covar_weights_ u). change (covar_weights_ v2) with (covar_weights_ v). rewrite Ec.
  destruct (spread_rounds_ok spu m (covar_weights_ v) (alen spu) Hspu Hm (ok_covar_weights v Hv)) as (P & -> & HP); [apply Hspu|]. mred.
  set (b2 := setState _ m). set (c2 := setState (set_transfer c1 N _) m). assert (Hb2 : base_ok b2) by (destruct Hb; by split). assert (Hc2 : base_ok c2) by (destruct Hc; by split).
  assert (Hp2 : base_params b2 c2) by (destruct Hpb; by split).
  destruct (process_noise_same b2 c2 Hb2 Hc2 Hp2 eq_refl) as (D & D' & E3 & E4 & HDD & HDm). rewrite E3, E4. mred. clear E3 E4.
  set (b3 := set_dynamic b2 D). set (c3 := set_dynamic c2 D').
  assert (En : (if use_dynamic_process_noise_covariance_ b3 then dynamic_process_noise_covariance_ b3 else process_noise_covariance_ b3) =
    (if use_dynamic_process_noise_covariance_ c3 then dynamic_process_noise_covariance_ c3 else process_noise_covariance_ c3)).
  { change (use_dynamic_process_noise_covariance_ b3) with (use_dynamic_process_noise_covariance_ b2). change (use_dynamic_process_noise_covariance_ c3) with (use_dynamic_process_noise_covariance_ c2).
    rewrite (p_use_dynamic _ _ Hp2). destruct (use_dynamic_process_noise_covariance_ c2); [by apply HDD|apply Hp2]. }
  rewrite En. set (P2 := madd P _). clearbody P2.
  destruct (wrapStateAngles_ok (setEstimateErrorCovariance b3 P2)) as (x & E1 & _); [done|]. destruct (wrapStateAngles_ok (setEstimateErrorCovariance c3 P2)) as (x' & E2 & _); [done|].
  pose proof (wrapStateAngles_same (setEstimateErrorCovariance b3 P2) (setEstimateErrorCovariance c3 P2) x x' eq_refl E1 E2) as <-. rewrite E1, E2. mred. intros [= <-] [= <-].
  split; [split; [destruct Hp2; by split|done]|]. split; [|by split]. unfold estimate. cbn. by rewrite Et.
Qed.

(** *** Correction *)

Lemma wrap_differences_ok l d sd : indices_ok l -> alen l <= STATE_SIZE -> alen d = alen l -> alen sd = STATE_SIZE ->
  exists d' sd', wrap_differences l d sd = Some (d', sd') /\ alen d' = alen l /\ alen sd' = STATE_SIZE.
Proof.
  intros Hl Hn Hd Hsd. unfold wrap_differences.
  match goal with |- context [for_range 0 (alen l) ?f ?s] => destruct (for_range_inv (fun _ (st : list spec_float * list spec_float) => alen (fst st) = alen l /\ alen (snd st) = STATE_SIZE) f 0 (alen l) s)
    as ([d' sd'] & -> & Hd' & Hsd') end; [apply alen_nonneg|done| |by exists d', sd'].
  intros i [x y] Hi [Hx Hy]. cbn [fst snd] in *. destruct (indices_get l i Hl Hi) as (idx & -> & _). mred. destruct (is_angle idx); [|by exists (x, y)].
  destruct (aget_is_Some x i) as [a ->]; [lia|]. mred. destruct (update_vec x i (normalize_angle a) _ Hx Hi) as (x' & -> & Hx'). mred.
  destruct (aget_is_Some y i) as [c ->]; [lia|]. mred. destruct (update_vec y i (normalize_angle c) STATE_SIZE Hy) as (y' & -> & Hy'); [lia|]. mred. by exists (x', y').
Qed.

Lemma measure_rounds_ok l SM sp weights : indices_ok l -> mat_ok (alen l) STATE_SIZE SM -> points_ok sp -> alen weights = sigma_count ->
  exists zs pred s, for_range 0 (alen sp) (measure_round l SM sp weights) (anew (alen sp) (vzero (alen l)), vzero (alen l), no_sums) = Some (zs, pred, s) /\
    alen zs = sigma_count /\ Forall (fun z => alen z = alen l) zs /\ alen pred = alen l.
Proof using EL.
  intros Hl HH Hsp Hw. pose proof (alen_nonneg l) as Hn.
  match goal with |- context [for_range 0 (alen sp) ?f ?s] => destruct (for_range_inv (fun _ (st : list (list spec_float) * list spec_float * AngleSums) =>
    alen (fst (fst st)) = sigma_count /\ Forall (fun z => alen z = alen l) (fst (fst st)) /\ alen (snd (fst st)) = alen l) f 0 (alen sp) s) as ([[zs pred] s'] & -> & H') end.
  - apply alen_nonneg.
  - cbn [fst snd]. destruct Hsp as [-> _]. split; [by apply alen_anew|]. split; [|by apply alen_anew]. unfold anew. apply Forall_replicate. by apply alen_anew.
  - intros i [[zs pred] s] Hi (Hz & Hzs & Hp). cbn [fst snd] in *. unfold measure_round. destruct (points_get sp i Hsp) as (p & -> & Hpl); [by destruct Hsp as [<- _]|]. mred.
    destruct Hsp as [El _]. assert (Hm : alen (mat_vec SM p) = alen l) by (by apply (mat_vec_ok _ STATE_SIZE)).
    rewrite (aset_Some zs) by lia. mred. destruct (aget_is_Some weights i) as [w ->]; [lia|]. mred.
    match goal with |- context [for_range 0 (alen l) ?f s] => destruct (for_range_inv (fun _ (_ : AngleSums) => True) f 0 (alen l) s) as (s2 & -> & _) end; [done|done| |].
    { intros k a Hk _. destruct (indices_get l k Hl Hk) as (idx & -> & _). mred. destruct (aget_is_Some (mat_vec SM p) k) as [x ->]; [lia|]. mred. by eexists. }
    mred. match goal with |- context [for_range 0 (alen l) ?f (vadd ?a ?b)] => destruct (for_range_inv (fun _ v => alen v = alen l) f 0 (alen l) (vadd a b)) as (v & -> & Hv) end.
    + done.
    + apply vadd_len; [done|by rewrite vscale_len].
    + intros k v Hk Hv. destruct (indices_get l k Hl Hk) as (idx & -> & _). mred. destruct (aget_is_Some v k) as [x ->]; [lia|]. mred. by apply update_vec.
    + mred. eexists. split; [done|]. cbn [fst snd]. split; [unfold alen in *; by rewrite length_insert|]. split; [by apply Forall_insert|done].
  - destruct H' as (? & ? & ?). by exists zs, pred, s'.
Qed.

Lemma covariance_rounds_ok l sp zs state pred weights : indices_ok l -> alen l <= STATE_SIZE -> points_ok sp -> alen zs = sigma_count -> Forall (fun z => alen z = alen l) zs ->
  alen state = STATE_SIZE -> alen pred = alen l -> alen weights = sigma_count ->
  exists Pzz Pxz, for_range 0 (alen sp) (covariance_round l sp zs state pred weights) (mzero (alen l) (alen l), mzero STATE_SIZE (alen l)) = Some (Pzz, Pxz) /\
    mat_ok (alen l) (alen l) Pzz /\ mat_ok STATE_SIZE (alen l) Pxz.
Proof using EL.
  intros Hl Hn Hsp Hz Hzs Hs Hp Hw. pose proof (alen_nonneg l) as Hn0.
  match goal with |- context [for_range 0 (alen sp) ?f ?s] => destruct (for_range_inv (fun _ (st : Mat * Mat) => mat_ok (alen l) (alen l) (fst st) /\ mat_ok STATE_SIZE (alen l) (snd st)) f 0 (alen sp) s)
    as ([Pzz Pxz] & -> & H') end; [apply alen_nonneg|cbn [fst snd]; split; by apply mzero_ok| |by exists Pzz, Pxz].
  intros i [A B] Hi [HA HB]. cbn [fst snd] in *. unfold covariance_round. destruct (points_get sp i Hsp) as (p & -> & Hpl); [by destruct Hsp as [<- _]|]. destruct Hsp as [El _].
  destruct (aget_is_Some zs i) as [z Ez]; [lia|]. rewrite Ez. mred. assert (Hzl : alen z = alen l) by (apply (proj1 (Forall_forall _ _) Hzs); by apply (aget_elem _ i)).
  destruct (wrap_differences_ok l (vsub z pred) (vsub p state) Hl Hn) as (d & sd & -> & Hd & Hsd); [by apply vsub_len..|]. mred.
  destruct (aget_is_Some weights i) as [w ->]; [lia|]. mred. eexists. split; [done|]. cbn [fst snd]. split; by apply outer_add_ok.
Qed.

Lemma update_indices_len m l : measurement_ok m -> update_indices m = Some l -> alen l <= STATE_SIZE.
Proof.
  intros (Hu & _) E. unfold update_indices in E. rewrite <- Hu.
  apply (for_range_post (fun i l => alen l <= i) _ 0 _ [] l (alen_nonneg _) E); [done|]. intros i x y Hi Hx E2.
  destruct (aget (update_vector_ m) i) as [[]|]; cbn in E2; try done; [|injection E2 as <-; lia].
  destruct (aget (measurement_ m) i) as [z|]; cbn in E2; [|done]. injection E2 as <-. destruct (is_finite z); unfold alen in *; rewrite ?length_app; cbn [length]; lia.
Qed.

Lemma ukf_update_ok m u : measurement_ok m -> ukf_ok u -> ukf_update m u = Some u \/
  exists v P, ukf_update m u = Some (set_uncorrected (set_ukf_base u (setEstimateErrorCovariance (setState (ukf_base u) v) P)) false) /\ alen v = STATE_SIZE /\ mat_ok STATE_SIZE STATE_SIZE P.
Proof using EL.
  intros Hm Hu. pose proof (ok_ukf_base u Hu) as Hb. unfold ukf_update. destruct (update_indices_spec m Hm) as (l & E & Hl & _). rewrite E. mred. pose proof (update_indices_len m l Hm E) as Hn.
  destruct (subsets_ok m (state_ (ukf_base u)) l Hm (ok_state _ Hb) Hl) as (z & x & R & -> & Hz & Hx & HR). mred.
  destruct (state_to_measurement_ok l Hl) as (SM & -> & HSM). mred.
  destruct (measure_rounds_ok l SM (sigma_points_ u) (state_weights_ u)) as (zs & pred & s & -> & Hzl & Hzs & Hpred); [done|done|apply Hu|apply Hu|]. mred.
  destruct (covariance_rounds_ok l (sigma_points_ u) zs (state_ (ukf_base u)) pred (covar_weights_ u)) as (Pzz & Pxz & -> & HPzz & HPxz); [done|done|apply Hu|done|done|apply Hb|done|apply Hu|]. mred.
  set (inv := inverse _). assert (Hinv : mat_ok (alen l) (alen l) inv) by (by apply inverse_ok, madd_ok).
  set (K := mat_mul Pxz inv). assert (HK : mat_ok STATE_SIZE (alen l) K) by (by apply (mat_mul_ok _ (alen l))).
  destruct (wrap_innovation_ok l (vsub z pred) Hl) as (w & -> & Hw); [by apply vsub_len|]. mred.
  destruct (checkMahalanobisThreshold _ _ _); [right|by left].
  set (v := mat_vec_add _ K w). assert (Hv : alen v = STATE_SIZE) by (apply (mat_vec_add_ok _ (alen l)); [apply Hb|done|done]).
  set (P := mat_mul_sub _ _ _). assert (HP : mat_ok STATE_SIZE STATE_SIZE P).
  { apply (mat_mul_sub_ok _ (alen l)); [apply Hb|by apply (mat_mul_ok _ (alen l))|by apply transpose_ok]. }
  destruct (wrapStateAngles_ok (setEstimateErrorCovariance (setState (ukf_base u) v) P)) as (v' & -> & Hv'); [done|]. mred. by exists v', P.
Qed.

(** The points that [correct] works with. *)
Lemma current_points_ok u : ukf_ok u -> exists W sp, (if uncorrected_ u then Some u else generateSigmaPoints u) = Some (set_sigma_points u W sp) /\ points_ok sp.
Proof using EL.
  intros Hu. destruct (uncorrected_ u); [|by apply generate_ok]. exists (weighted_covar_sqrt_ u), (sigma_points_ u). split; [by destruct u|apply Hu].
Qed.

Lemma corrected_ukf_ok m u : measurement_ok m -> ukf_ok u -> exists u', ukf_correct m u = Some u' /\ ukf_ok u' /\ ukf_params u u' /\
  last_measurement_time_ (ukf_base u') = last_measurement_time_ (ukf_base u).
Proof using EL.
  intros Hm Hu. unfold ukf_correct. destruct (current_points_ok u Hu) as (W & sp & -> & Hsp). mred. set (u1 := set_sigma_points u W sp).
  assert (Hu1 : ukf_ok u1) by (by apply set_points_ok). destruct (ukf_update_ok m u1 Hm Hu1) as [->|(v & P & -> & Hv & HP)].
  - exists u1. by split_and!.
  - eexists. split; [done|]. split; [|by split; [split; [by split|]|]]. destruct Hu1 as [[] ? ? ?]. split; [by split|done..].
Qed.

Lemma ukf_update_same m u v u' v' : ukf_params u v -> estimate (ukf_base u) = estimate (ukf_base v) -> uncorrected_ u = uncorrected_ v -> sigma_points_ u = sigma_points_ v ->
  ukf_update m u = Some u' -> ukf_update m v = Some v' -> ukf_same u' v'.
Proof.
  intros Hp He Hc Hs. pose proof Hp as (Hpb & El & Ew & Ec). pose proof He as [= Es Ep Et]. unfold ukf_update, wrapStateAngles. rewrite Es, Ew, Ec, Hs.
  destruct (update_indices m) as [l|]; [|done]. mred. destruct (subsets m (state_ (ukf_base v)) l) as [[[z x] R]|]; [|done]. mred.
  destruct (state_to_measurement l) as [SM|]; [|done]. mred. destruct (for_range 0 _ (measure_round _ _ _ _) _) as [[[zs pred] s]|]; [|done]. mred.
  destruct (for_range 0 _ (covariance_round _ _ _ _ _ _) _) as [[Pzz Pxz]|]; [|done]. mred. destruct (wrap_innovation l _) as [w|]; [|done]. mred.
  destruct (checkMahalanobisThreshold _ _ _).
  - cbn [state_ estimate_error_covariance_ setState setEstimateErrorCovariance]. rewrite Ep. destruct (for_range _ _ _ _) as [q|]; [|done]. mred. intros [= <-] [= <-].
    split; [split; [destruct Hpb; by split|done]|]. split; [|by split]. unfold estimate. cbn. by rewrite Et.
  - intros [= <-] [= <-]. by split_and!.
Qed.

Lemma ukf_correct_same m u v u' v' : ukf_ok u -> ukf_ok v -> ukf_same u v -> ukf_correct m u = Some u' -> ukf_correct m v = Some v' -> ukf_same u' v'.
Proof using EL.
  intros Hu Hv (Hp & He & Hc & Hs). pose proof Hp as (Hpb & El & _). pose proof He as [= Es Ep _]. unfold ukf_correct. rewrite <- Hc. destruct (uncorrected_ u) eqn:Eu.
  - mred. apply ukf_update_same; [done|done|congruence|by apply Hs].
  - destruct (generate_ok u Hu) as (W & sp & Gu & _). destruct (generate_ok v Hv) as (W' & sp' & Gv & _).
    pose proof (generate_same u v _ _ Hu Hv El Es Ep Gu Gv) as Esp. rewrite Gu, Gv. mred. apply ukf_update_same; try done. cbn. congruence.
Qed.

Lemma set_ukf_base_ok u b : ukf_ok u -> base_ok b -> ukf_ok (set_ukf_base u b).
Proof. intros [] ?. by split. Qed.

(** The unscented filter has the laws too: what it remembers from one
    measurement to the next is redrawn by a prediction. *)
#[export] Instance ukf_laws : FilterLaws Ukf := {|
  filter_ok := ukf_ok;
  same_params := ukf_params;
  same_filter := ukf_same;
  same_params_equivalence := ukf_params_equivalence;
  same_filter_equivalence := ukf_same_equivalence;
  base_with_base _ _ := eq_refl;
  ok_base := ok_ukf_base;
  params_base _ _ Hp := proj1 Hp;
  params_with_base _ _ _ _ Hp Hb := conj Hb (proj2 Hp);
  same_core _ _ Hs := conj (proj1 Hs) (proj1 (proj2 Hs));
  same_with_base _ _ _ _ Hs Hb He := conj (conj Hb (proj2 (proj1 Hs))) (conj He (proj2 (proj2 Hs)));
  ok_with_base := set_ukf_base_ok;
  with_base_base f := match f with mkUkf _ _ _ _ _ _ _ => eq_refl end;
  predict_ok := predicted_ukf_ok;
  predict_same := ukf_predict_same;
  correct_ok := corrected_ukf_ok;
  correct_same m f g f' g' _ := ukf_correct_same m f g f' g';
|}.
End laws.

(** ** What the code does not intend *)

(** The difference of the states is wrapped at the position of the angle in
    the measurement: with the yaw alone measured, the difference along the
    first axis is wrapped, and that of the yaw is not. *)
Theorem yaw_wraps_first_axis `{T : Trigonometry} d x sd : alen sd = STATE_SIZE -> aget sd StateMemberX = Some x ->
  exists sd', wrap_differences [StateMemberYaw] [d] sd = Some ([normalize_angle d], sd') /\
    aget sd' StateMemberX = Some (normalize_angle x) /\ (forall i, i <> StateMemberX -> aget sd' i = aget sd i).
Proof.
  intros Hs Hx. unfold wrap_differences. rewrite for_range_step by done.
  change (aget [StateMemberYaw] 0) with (Some StateMemberYaw). mred. change (is_angle StateMemberYaw) with true. cbn match.
  change (aget [d] 0) with (Some d). mred. change (aset [d] 0 (normalize_angle d)) with (Some [normalize_angle d]). mred.
  change StateMemberX with 0 in *. rewrite Hx. mred. destruct (aset sd 0 (normalize_angle x)) as [sd'|] eqn:E.
  - mred. rewrite for_range_nil by done. exists sd'. split; [done|]. split.
    + rewrite (aget_aset _ _ _ _ _ E). done.
    + intros i Hi. rewrite (aget_aset _ _ _ _ i E). destruct (Z.eqb_spec 0 i); [by subst|done].
  - rewrite aset_Some in E by (rewrite Hs; done). done.
Qed.

Section control.
Context `{EL : EigenLaws} `{T : Trigonometry} `{RC : Rclcpp}.

(** The acceleration that [prepareControl] computes is not used: whatever
    the control, its limits and its gains, the filter predicts the same. *)
Theorem ukf_ignores_control t d u control stamp : ukf_ok u -> alen control = TWIST_SIZE ->
  exists u1 u2, ukf_predict t d u = Some u1 /\ ukf_predict t d (set_ukf_base u (setControl (ukf_base u) control stamp)) = Some u2 /\
    estimate (ukf_base u1) = estimate (ukf_base u2) /\ sigma_points_ u1 = sigma_points_ u2.
Proof using EL.
  intros Hu Hc. set (v := set_ukf_base u (setControl (ukf_base u) control stamp)).
  assert (Hv : ukf_ok v) by (destruct Hu as [[] ? ? ?]; by split).
  destruct (predicted_ukf_ok t d u Hu) as (u1 & E1 & _). destruct (predicted_ukf_ok t d v Hv) as (u2 & E2 & _).
  exists u1, u2. split; [done|]. split; [done|]. revert E1 E2. unfold ukf_predict.
  destruct (prepareControl_ok t (ukf_base u)) as (acc & -> & _); [apply Hu|]. destruct (prepareControl_ok t (ukf_base v)) as (acc' & -> & _); [apply Hv|]. mred.
  unfold generateSigmaPoints, computeDynamicProcessNoiseCovariance, wrapStateAngles.
  cbn [ukf_base set_ukf_base set_sigma_points state_weights_ covar_weights_ sigma_points_ lambda_ v setControl set_control_acceleration state_ estimate_error_covariance_ transfer_function_ transfer_function_jacobian_].
  destruct (draw_points _ _ _) as [sp|]; [|done]. mred.
  cbn [ukf_base set_ukf_base set_sigma_points state_weights_ covar_weights_ sigma_points_].
  destruct (for_range 0 _ (project_round _ _) _) as [[[[sp' M] st] s]|]; [|done]. mred.
  destruct (mean_angles s st) as [m|]; [|done]. mred. destruct (for_range 0 _ (spread_round _ _ _) _) as [P|]; [|done]. mred.
  cbn [ukf_base set_ukf_base set_sigma_points setState set_transfer setControl set_control_acceleration state_ use_dynamic_process_noise_covariance_ dynamic_process_noise_covariance_ process_noise_covariance_].
  destruct (use_dynamic_process_noise_covariance_ (ukf_base u)).
  - destruct (for_range 0 TWIST_SIZE _ _) as [V|]; [|done]. mred. destruct (mblock _ _ _ _ _) as [N|]; [|done]. mred. destruct (set_mblock _ _ _ _) as [D|]; [|done]. mred.
    cbn [set_dynamic setEstimateErrorCovariance state_ dynamic_process_noise_covariance_ process_noise_covariance_ use_dynamic_process_noise_covariance_ setState set_transfer setControl set_control_acceleration].
    destruct (for_range _ _ _ m) as [w|]; [|done]. mred. by intros [= <-] [= <-].
  - mred. cbn [set_dynamic setEstimateErrorCovariance state_ dynamic_process_noise_covariance_ process_noise_covariance_ use_dynamic_process_noise_covariance_ setState set_transfer setControl set_control_acceleration].
    destruct (for_range _ _ _ m) as [w|]; [|done]. mred. by intros [= <-] [= <-].
Qed.
End control.
