(* ===== verification/RosFilter.v ===== *)
(** The node of robot_localization (ros_filter.cpp): the queue of measurements,
    the history of measurements and states, and the integration of what
    arrives, late or not, over any filter of FilterBase.v. *)

From stdpp Require Import sorting.
From S2P Require Import Prelude Floats PriorityQueue FilterBase.

(** ** The code *)

(** [filter_state.hpp] *)
Record FilterState := mkFilterState {
  fs_state_ : list spec_float;
  fs_estimate_error_covariance_ : Mat;
  fs_latest_control_ : list spec_float;
  fs_last_measurement_time_ : Z;
  fs_latest_control_time_ : Z;
}.

(** Earlier measurements are on top. *)
Definition measurement_less (a b : Measurement) : bool := time_ b <? time_ a.

Section ros_filter.
Context {F : Type} `{Filter F} `{Q : PriorityQueue Measurement}.

(** Members the integration uses; deques with the front first. *)
Record RosFilter := mkRosFilter {
  filter_ : F;
  measurement_queue_ : queue;
  measurement_history_ : list Measurement;
  filter_state_history_ : list FilterState;
  smooth_lagged_data_ : bool;
  predict_to_current_time_ : bool;
  rf_use_control_ : bool;
  history_length_ : Z;
  rf_latest_control_ : list spec_float;
  rf_latest_control_time_ : Z;
  last_set_pose_time_ : Z;
  rf_sensor_timeout_ : Z;
  rf_process_noise_covariance_ : Mat;
  initial_estimate_error_covariance_ : Mat;
  toggled_on_ : bool;
  enabled_ : bool;
}.

Definition update (r : RosFilter) (f : F) (q : queue) (mh : list Measurement) (sh : list FilterState) : RosFilter :=
  mkRosFilter f q mh sh (smooth_lagged_data_ r) (predict_to_current_time_ r) (rf_use_control_ r) (history_length_ r) (rf_latest_control_ r) (rf_latest_control_time_ r)
    (last_set_pose_time_ r) (rf_sensor_timeout_ r) (rf_process_noise_covariance_ r) (initial_estimate_error_covariance_ r) (toggled_on_ r) (enabled_ r).
Definition set_filter (r : RosFilter) (f : F) : RosFilter := update r f (measurement_queue_ r) (measurement_history_ r) (filter_state_history_ r).
Definition set_queue (r : RosFilter) (q : queue) : RosFilter := update r (filter_ r) q (measurement_history_ r) (filter_state_history_ r).
Definition set_base (r : RosFilter) (b : FilterBase) : RosFilter := set_filter r (with_base (filter_ r) b).
Definition set_control_members (r : RosFilter) (v : list spec_float) (t : Z) : RosFilter :=
  mkRosFilter (filter_ r) (measurement_queue_ r) (measurement_history_ r) (filter_state_history_ r) (smooth_lagged_data_ r) (predict_to_current_time_ r) (rf_use_control_ r)
    (history_length_ r) v t (last_set_pose_time_ r) (rf_sensor_timeout_ r) (rf_process_noise_covariance_ r) (initial_estimate_error_covariance_ r) (toggled_on_ r) (enabled_ r).
Definition set_last_set_pose_time (r : RosFilter) (t : Z) : RosFilter :=
  mkRosFilter (filter_ r) (measurement_queue_ r) (measurement_history_ r) (filter_state_history_ r) (smooth_lagged_data_ r) (predict_to_current_time_ r) (rf_use_control_ r)
    (history_length_ r) (rf_latest_control_ r) (rf_latest_control_time_ r) t (rf_sensor_timeout_ r) (rf_process_noise_covariance_ r) (initial_estimate_error_covariance_ r) (toggled_on_ r) (enabled_ r).
Definition set_switches (r : RosFilter) (toggled enabled : bool) : RosFilter :=
  mkRosFilter (filter_ r) (measurement_queue_ r) (measurement_history_ r) (filter_state_history_ r) (smooth_lagged_data_ r) (predict_to_current_time_ r) (rf_use_control_ r)
    (history_length_ r) (rf_latest_control_ r) (rf_latest_control_time_ r) (last_set_pose_time_ r) (rf_sensor_timeout_ r) (rf_process_noise_covariance_ r)
    (initial_estimate_error_covariance_ r) toggled enabled.

Definition enqueueMeasurement (measurement : list spec_float) (measurement_covariance : Mat) (update_vector : list bool) (mahalanobis_thresh : spec_float) (time : Z)
  (r : RosFilter) : RosFilter :=
  set_queue r (emplace (mkMeasurement time mahalanobis_thresh (rf_latest_control_time_ r) update_vector (rf_latest_control_ r) measurement measurement_covariance)
    (measurement_queue_ r)).

(** [controlStampedCallback] on a message in the frame of the robot. *)
Definition controlStampedCallback (twist : list spec_float) (stamp : Z) (r : RosFilter) : RosFilter :=
  let r := set_control_members r twist stamp in
  set_base r (setControl (base (filter_ r)) twist stamp).

Definition saveFilterState (r : RosFilter) : RosFilter :=
  let b := base (filter_ r) in
  update r (filter_ r) (measurement_queue_ r) (measurement_history_ r)
    (filter_state_history_ r ++ [mkFilterState (state_ b) (estimate_error_covariance_ b) (latest_control_ b) (last_measurement_time_ b) (latest_control_time_ b)]).

(** The first loop of [revertTo], on the history from the back. *)
Fixpoint pop_states (time : Z) (states : list FilterState) (last_history_state : option FilterState) : list FilterState * option FilterState :=
  match states with
  | s :: rest => if time <? fs_last_measurement_time_ s then pop_states time rest (Some s) else (states, last_history_state)
  | [] => ([], last_history_state)
  end.

(** The second one; [since] is the time of the state reverted to. *)
Fixpoint pop_measurements (time since : Z) (measurements : list Measurement) (q : queue) : list Measurement * queue :=
  match measurements with
  | m :: rest => if time <? time_ m then pop_measurements time since rest (if since <=? time_ m then emplace m q else q) else (measurements, q)
  | [] => ([], q)
  end.

Definition restore_state (s : FilterState) (b : FilterBase) : FilterBase :=
  setLastMeasurementTime (setEstimateErrorCovariance (setState b (fs_state_ s)) (fs_estimate_error_covariance_ s)) (fs_last_measurement_time_ s).

Definition revertTo (time : Z) (r : RosFilter) : RosFilter * bool :=
  let '(states, last_history_state) := pop_states time (reverse (filter_state_history_ r)) None in
  let r := update r (filter_ r) (measurement_queue_ r) (measurement_history_ r) (reverse states) in
  let '(last_history_state, ret_val) := match states with s :: _ => (Some s, true) | [] => (last_history_state, false) end in
  match last_history_state with
  | Some s =>
      let r := set_base r (restore_state s (base (filter_ r))) in
      let '(measurements, q) := pop_measurements time (fs_last_measurement_time_ s) (reverse (measurement_history_ r)) (measurement_queue_ r) in
      (update r (filter_ r) q (reverse measurements) (filter_state_history_ r), ret_val)
  | None => (r, ret_val)
  end.

(** A round of the loop of [integrateMeasurements]; [ok] is [rclcpp::ok()]. *)
Definition integrate_round (ok : bool) (current_time : Z) (st : RosFilter * Z) : option (ctl (RosFilter * Z)) :=
  let '(r, restored) := st in
  match pop (measurement_queue_ r) with
  | None => Some (Break (r, restored))
  | Some (m, q) =>
      if negb ok || (current_time <? time_ m) then Some (Break (r, restored))
      else
        let r := set_queue r q in
        let '(r, restored) := if rf_use_control_ r && (0 <? restored)
          then (set_base r (setControl (base (filter_ r)) (m_latest_control_ m) (m_latest_control_time_ m)), restored - 1) else (r, restored) in
        f ← processMeasurement m (filter_ r);
        let r := set_filter r f in
        let r := if smooth_lagged_data_ r then
            let r := update r (filter_ r) (measurement_queue_ r) (measurement_history_ r ++ [m]) (filter_state_history_ r) in
            if match pop (measurement_queue_ r) with None => true | Some (n, _) => negb (time_ n =? last_measurement_time_ (base (filter_ r))) end
            then saveFilterState r else r
          else r in
        Some (Next (r, restored))
  end.

(** The reversion, and the measurements it restored. *)
Definition revert_lagged (r : RosFilter) (first_time : Z) : RosFilter * Z :=
  if smooth_lagged_data_ r && (first_time <? last_measurement_time_ (base (filter_ r))) then
    let original_count := Z.of_nat (length (elements (measurement_queue_ r))) in
    let '(r, _) := revertTo (first_time - 1) r in
    (r, Z.of_nat (length (elements (measurement_queue_ r))) - original_count)
  else (r, 0).

Definition integrateMeasurements (ok : bool) (current_time : Z) (r : RosFilter) : option RosFilter :=
  '(r, predict_now) ← match pop (measurement_queue_ r) with
    | Some (first_measurement, _) =>
        let st := revert_lagged r (time_ first_measurement) in
        '(r, _) ← loop (S (length (elements (measurement_queue_ (fst st))))) (integrate_round ok current_time) st;
        Some (r, predict_to_current_time_ r)
    | None =>
        let b := base (filter_ r) in
        Some (r, if initialized_ b && (sensor_timeout_ b <=? current_time - last_measurement_time_ b) then true else predict_to_current_time_ r)
    end;
  let b := base (filter_ r) in
  if initialized_ b && (predict_now : bool) then
    let delta := validateDelta (current_time - last_measurement_time_ b) in
    f ← predict current_time delta (filter_ r);
    Some (set_filter r (with_base f (setLastMeasurementTime (base f) (last_measurement_time_ (base f) + delta))))
  else Some r.

Fixpoint drop_before {A} (time : A -> Z) (cutoff : Z) (l : list A) : list A :=
  match l with a :: rest => if time a <? cutoff then drop_before time cutoff rest else l | [] => [] end.

Definition clearExpiredHistory (cutoff_time : Z) (r : RosFilter) : RosFilter :=
  update r (filter_ r) (measurement_queue_ r) (drop_before time_ cutoff_time (measurement_history_ r)) (drop_before fs_last_measurement_time_ cutoff_time (filter_state_history_ r)).

Definition clearMeasurementQueue (ok : bool) (r : RosFilter) : RosFilter := if ok then set_queue r queue_empty else r.

(** [periodicUpdate] without what it publishes; [now] answers [this->now()]. *)
Definition periodicUpdate (ok : bool) (cur_time now : Z) (r : RosFilter) : option RosFilter :=
  if negb (enabled_ r) then Some r
  else
    r ← (if toggled_on_ r then integrateMeasurements ok cur_time r
         else let r := clearMeasurementQueue ok r in
           Some (if initialized_ (base (filter_ r)) then set_base r (setLastMeasurementTime (base (filter_ r)) now) else r));
    let last_measurement_time := last_measurement_time_ (base (filter_ r)) in
    Some (if smooth_lagged_data_ r && (history_length_ r <? last_measurement_time) then clearExpiredHistory (last_measurement_time - history_length_ r) r else r).

(** [reset], for the members modelled. *)
Definition rf_reset (ok : bool) (r : RosFilter) : option RosFilter :=
  let r := clearMeasurementQueue ok r in
  let r := set_control_members (set_last_set_pose_time (update r (filter_ r) (measurement_queue_ r) [] []) 0) (rf_latest_control_ r) 0 in
  b ← reset (base (filter_ r));
  Some (set_base r (setEstimateErrorCovariance (setProcessNoiseCovariance (setSensorTimeout b (rf_sensor_timeout_ r)) (rf_process_noise_covariance_ r)) (initial_estimate_error_covariance_ r))).

(** [setPoseCallback], given the pose that [preparePose] made of the message. *)
Definition setPoseCallback (ok : bool) (stamp now : Z) (measurement : list spec_float) (measurement_covariance : Mat) (r : RosFilter) : RosFilter :=
  let r := clearMeasurementQueue ok r in
  let r := set_last_set_pose_time (update r (filter_ r) (measurement_queue_ r) [] []) stamp in
  set_base r (setLastMeasurementTime (setEstimateErrorCovariance (setState (base (filter_ r)) measurement) measurement_covariance) now).

Definition toggleFilterProcessingCallback (on : bool) (r : RosFilter) : RosFilter * bool :=
  if eqb on (toggled_on_ r) then (r, false) else (set_switches r on (enabled_ r), true).

Definition enableFilterSrvCallback (r : RosFilter) : RosFilter * bool := (if enabled_ r then r else set_switches r (toggled_on_ r) true, true).
End ros_filter.
#[global] Arguments RosFilter F {Q}.

(** ** Measurements in the order of their times *)

Definition in_order (ms : list Measurement) : Prop := StronglySorted (fun a b => time_ a <= time_ b) ms.

Definition upto (t : Z) (ms : list Measurement) : list Measurement := filter (fun m => time_ m <= t) ms.

(** What is not due yet at the time [t]. *)
Definition later (t : Z) (ms : list Measurement) : list Measurement := filter (fun m => t < time_ m) ms.

Lemma later_none t ms : Forall (fun m => time_ m <= t) ms -> later t ms = [].
Proof. unfold later. induction 1 as [|m ms Hm _ IH]; [done|]. rewrite filter_cons_False by lia. exact IH. Qed.

Lemma later_all t ms : Forall (fun m => t < time_ m) ms -> later t ms = ms.
Proof. unfold later. induction 1 as [|m ms Hm _ IH]; [done|]. rewrite filter_cons_True by done. by f_equal. Qed.

Lemma upto_split t a b : Forall (fun m => time_ m <= t) a -> Forall (fun m => t < time_ m) b -> upto t (a ++ b) = a.
Proof.
  intros Ha Hb. unfold upto. rewrite filter_app. induction a as [|m a IH].
  - cbn [app]. induction Hb as [|m b Hm Hb IH]; [done|]. rewrite filter_cons_False by lia. exact IH.
  - apply Forall_cons in Ha as [Hm Ha]. rewrite filter_cons_True by done. cbn [app]. f_equal. by apply IH.
Qed.

Lemma upto_upto s t ms : s <= t -> upto s (upto t ms) = upto s ms.
Proof. intros Hst. unfold upto. rewrite list_filter_filter_l; [done|]. intros m Hm. lia. Qed.

Lemma upto_all t ms : Forall (fun m => time_ m <= t) ms -> upto t ms = ms.
Proof. intros Hm. rewrite <- (app_nil_r ms) at 1. by apply upto_split. Qed.

Lemma upto_snoc t ms m : upto t (ms ++ [m]) = if bool_decide (time_ m <= t) then upto t ms ++ [m] else upto t ms.
Proof.
  unfold upto. rewrite filter_app. case_bool_decide; [by rewrite filter_cons_True|]. rewrite filter_cons_False by done. by rewrite filter_nil, app_nil_r.
Qed.

Lemma in_order_app a b : in_order (a ++ b) <-> in_order a /\ in_order b /\ forall x y, x ∈ a -> y ∈ b -> time_ x <= time_ y.
Proof.
  unfold in_order. induction a as [|m a IH]; cbn [app].
  - split; [intros Hb; split_and!; [constructor|done|by intros x y Hx%not_elem_of_nil]|by intros (_ & Hb & _)].
  - split.
    + intros Hs. inversion Hs as [|? ? Hab Hm]; subst. apply IH in Hab as (Ha & Hb & Hx). apply Forall_app in Hm as [Hma Hmb]. split_and!; [by constructor|done|].
      intros x y [->|Hin]%elem_of_cons Hy; [by apply (proj1 (Forall_forall _ _) Hmb)|by apply Hx].
    + intros (Ha & Hb & Hx). inversion Ha as [|? ? Ha' Hm]; subst. constructor.
      * apply IH. split_and!; [done|done|]. intros x y Hin Hy. apply Hx; [by right|done].
      * apply Forall_app. split; [done|]. apply Forall_forall. intros y Hy. apply Hx; [left|done].
Qed.

Lemma in_order_snoc ms m : in_order ms -> (forall x, x ∈ ms -> time_ x <= time_ m) -> in_order (ms ++ [m]).
Proof.
  intros Hs Hm. apply in_order_app. split_and!; [done|by repeat constructor|]. intros x y Hx ->%list_elem_of_singleton. by apply Hm.
Qed.

(** Two lists in order, with the same measurements at distinct times, are equal. *)
Lemma in_order_unique ms ms' : in_order ms -> in_order ms' -> ms ≡ₚ ms' -> NoDup (time_ <$> ms) -> ms = ms'.
Proof.
  unfold in_order. intros Hs. revert ms'. induction Hs as [|m ms Hs IH Hm]; intros ms' Hs' Hp Hn.
  - by apply Permutation_nil_l in Hp.
  - destruct ms' as [|m' ms']; [by apply Permutation_sym, Permutation_nil_cons in Hp|]. inversion Hs' as [|? ? Hs2 Hm']; subst.
    apply NoDup_cons in Hn as [Hnm Hn]. assert (m = m') as <-.
    + assert (Hin : m ∈ m' :: ms') by (rewrite <- Hp; left). assert (Hin' : m' ∈ m :: ms) by (rewrite Hp; left).
      apply elem_of_cons in Hin as [|Hin]; [done|]. apply elem_of_cons in Hin' as [|Hin']; [done|]. exfalso. apply Hnm.
      apply (proj1 (Forall_forall _ _) Hm') in Hin. pose proof (proj1 (Forall_forall _ _) Hm m' Hin') as Hle. cbn in *.
      apply list_elem_of_fmap. exists m'. split; [lia|done].
    + f_equal. apply Permutation_cons_inv in Hp. by apply IH.
Qed.

Lemma drop_before_split {A} (time : A -> Z) cutoff l : exists pre, l = pre ++ drop_before time cutoff l /\ Forall (fun a => time a < cutoff) pre.
Proof.
  induction l as [|a l IH]; [by exists []|]. cbn [drop_before]. destruct (Z.ltb_spec (time a) cutoff); [|by exists []].
  destruct IH as (pre & E & Hp). exists (a :: pre). split; [cbn; by f_equal|by constructor].
Qed.

Lemma drop_before_head {A} (time : A -> Z) cutoff l : match drop_before time cutoff l with a :: _ => cutoff <= time a | [] => True end.
Proof. induction l as [|a l IH]; [done|]. cbn [drop_before]. destruct (Z.ltb_spec (time a) cutoff); [exact IH|lia]. Qed.

(** ** The histories after a reversion *)

Lemma pop_states_spec time l last : exists pre rest last', pop_states time l last = (rest, last') /\ l = pre ++ rest /\
  Forall (fun s => time < fs_last_measurement_time_ s) pre /\ match rest with s :: _ => fs_last_measurement_time_ s <= time | [] => True end.
Proof.
  revert last. induction l as [|s l IH]; intros last; [by exists [], [], last|]. cbn [pop_states]. destruct (Z.ltb_spec time (fs_last_measurement_time_ s)) as [Hs|Hs].
  - destruct (IH (Some s)) as (pre & rest & last' & -> & -> & Hp & Hr). exists (s :: pre), rest, last'. split_and!; [done|done|by constructor|done].
  - exists [], (s :: l), last. split_and!; [done|done|constructor|done].
Qed.

Section proofs.
Context {F : Type} `{FL : FilterLaws F} `{QL : !PriorityQueueLaws Q measurement_less (fun _ => True)}.
Implicit Types (r : RosFilter F) (f g : F) (m : Measurement) (past : list Measurement).

Lemma pop_measurements_spec time since l q : exists pre rest q', pop_measurements time since l q = (rest, q') /\ l = pre ++ rest /\
  Forall (fun m => time < time_ m) pre /\ (match rest with m :: _ => time_ m <= time | [] => True end) /\
  elements q' ≡ₚ filter (fun m => since <= time_ m) pre ++ elements q.
Proof using QL.
  revert q. induction l as [|m l IH]; intros q; [exists [], [], q; by split_and!|]. cbn [pop_measurements]. destruct (Z.ltb_spec time (time_ m)) as [Hm|Hm].
  - destruct (IH (if since <=? time_ m then emplace m q else q)) as (pre & rest & q' & -> & -> & Hp & Hr & He). exists (m :: pre), rest, q'.
    split_and!; [done|done|by constructor|done|]. rewrite He. destruct (Z.leb_spec since (time_ m)).
    + rewrite filter_cons_True by done. rewrite elements_emplace. cbn [app]. by rewrite Permutation_middle.
    + by rewrite filter_cons_False by lia.
  - exists [], (m :: l), q. split_and!; [done|done|constructor|done|done].
Qed.

(** *** The runs of a filter *)

Definition run (ms : list Measurement) f : option F := foldl (fun o m => f ← o; processMeasurement m f) (Some f) ms.

Lemma run_snoc ms m f : run (ms ++ [m]) f = (f ← run ms f; processMeasurement m f).
Proof. unfold run. by rewrite foldl_app. Qed.

(** The filter before the first measurement. *)
Record fresh_filter f : Prop := {
  fresh_ok : filter_ok f;
  fresh_initialized : initialized_ (base f) = false;
  fresh_time : last_measurement_time_ (base f) = 0;
}.

(** What the measurements in order make of the filter [f0]. *)
Lemma run_ok f0 ms : fresh_filter f0 -> Forall measurement_ok ms -> in_order ms -> exists f, run ms f0 = Some f /\ filter_ok f /\
  (ms = [] /\ f = f0 \/ initialized_ (base f) = true /\ same_params (with_base f0 (set_initialized (base f0) true)) f /\
    exists m, m ∈ ms /\ time_ m = last_measurement_time_ (base f) /\ Forall (fun x => time_ x <= last_measurement_time_ (base f)) ms).
Proof using FL.
  intros H0 Hm. induction ms as [|m ms IH] using rev_ind; intros Hs; [exists f0; split; [done|]; split; [apply H0|by left]|].
  apply Forall_app in Hm as [Hm Hmm]. apply Forall_cons in Hmm as [Hmm _]. apply in_order_app in Hs as (Hs & _ & Hle).
  destruct (IH Hm Hs) as (f & E & Hf & Hor). destruct (processMeasurement_ok m f Hmm Hf) as (f' & E' & Hf' & Hi' & Ht' & Hp').
  exists f'. split; [by rewrite run_snoc, E; mred|]. split; [done|]. right. split; [done|].
  assert (Hp : same_params (with_base f0 (set_initialized (base f0) true)) (with_base f (set_initialized (base f) true)) /\ process_time m f = time_ m /\ Forall (fun x => time_ x <= time_ m) ms).
  { unfold process_time. destruct Hor as [[-> ->]|(Hi & Hp & x & Hx & Ex & Hall)].
    - rewrite (fresh_initialized _ H0). by split_and!.
    - rewrite Hi. assert (Hxm : time_ x <= time_ m) by (apply Hle; [done|by apply list_elem_of_singleton]). split; [|split; [lia|]].
      + transitivity f; [done|]. rewrite <- (with_base_base f) at 1. apply params_with_base; [done|]. rewrite <- Hi. by split.
      + apply Forall_forall. intros y Hy. pose proof (proj1 (Forall_forall _ _) Hall y Hy). cbn in *. lia. }
  destruct Hp as (Hp & Et & Hall). split; [by transitivity (with_base f (set_initialized (base f) true))|]. exists m. rewrite Ht', Et. split; [apply elem_of_app; right; by left|].
  split; [done|]. apply Forall_app. split; [done|by repeat constructor].
Qed.

(** *** What the histories mean *)

Definition last_time r : Z := last_measurement_time_ (base (filter_ r)).
Definition fs_estimate (s : FilterState) : list spec_float * Mat * Z := (fs_state_ s, fs_estimate_error_covariance_ s, fs_last_measurement_time_ s).

(** Within the loop of the integration, the state of the last time may not be
    saved yet: [open_] says so. *)
Definition closed_at (open_ : bool) r (t : Z) : Prop := open_ = false \/ t < last_time r.

(** [past] are the measurements integrated, in order. The last state saved for
    a time is what the measurements up to that time make of the filter; the
    history of measurements goes back to the first of the states; and each
    measurement since then has a state of its time. *)
Record consistent f0 (past : list Measurement) (open_ : bool) r : Prop := {
  c_ok : filter_ok (filter_ r);
  c_past : Forall measurement_ok past;
  c_queue : Forall measurement_ok (elements (measurement_queue_ r));
  c_order : in_order past;
  c_states : StronglySorted Z.le (fs_last_measurement_time_ <$> filter_state_history_ r);
  c_snapshots l1 s l2 : filter_state_history_ r = l1 ++ s :: l2 -> Forall (fun s' => fs_last_measurement_time_ s < fs_last_measurement_time_ s') l2 ->
    closed_at open_ r (fs_last_measurement_time_ s) ->
    exists f, run (upto (fs_last_measurement_time_ s) past) f0 = Some f /\ fs_estimate s = estimate (base f) /\ upto (fs_last_measurement_time_ s) past <> [];
  c_history : exists pre, past = pre ++ measurement_history_ r /\ forall s m, s ∈ filter_state_history_ r -> m ∈ pre -> time_ m <= fs_last_measurement_time_ s;
  c_cover s m : s ∈ filter_state_history_ r -> m ∈ past -> fs_last_measurement_time_ s <= time_ m -> closed_at open_ r (time_ m) ->
    exists s', s' ∈ filter_state_history_ r /\ fs_last_measurement_time_ s' = time_ m;
  c_last s : s ∈ filter_state_history_ r -> fs_last_measurement_time_ s <= last_time r;
  c_empty : past = [] -> filter_state_history_ r = [];
  c_estimate : exists f, run past f0 = Some f /\ same_estimate (filter_ r) f;
}.

(** The filter is what the measurements in order make of it. *)
Definition settled f0 (past : list Measurement) r : Prop := exists f, run past f0 = Some f /\ same_filter (filter_ r) f.

(** What an integration leaves alone. *)
Definition same_node r r' : Prop :=
  smooth_lagged_data_ r' = smooth_lagged_data_ r /\ predict_to_current_time_ r' = predict_to_current_time_ r /\ rf_use_control_ r' = rf_use_control_ r /\
  rf_latest_control_ r' = rf_latest_control_ r /\ rf_latest_control_time_ r' = rf_latest_control_time_ r.

Lemma last_time_past f0 past open_ r : fresh_filter f0 -> consistent f0 past open_ r ->
  past = [] /\ initialized_ (base (filter_ r)) = false \/
  initialized_ (base (filter_ r)) = true /\ (exists m, m ∈ past /\ time_ m = last_time r) /\ Forall (fun m => time_ m <= last_time r) past.
Proof using FL.
  intros H0 Hc. destruct (c_estimate _ _ _ _ Hc) as (f & E & Hp & [= _ _ Et]). pose proof (initialized_params _ _ Hp) as Ei. unfold last_time. rewrite Ei, Et.
  destruct (run_ok f0 past H0 (c_past _ _ _ _ Hc) (c_order _ _ _ _ Hc)) as (f' & E' & _ & Hor). rewrite E in E'. injection E' as <-.
  destruct Hor as [[-> ->]|(Hi & _ & m & Hm & Ex & Hall)]; [left; split; [done|by apply fresh_initialized]|]. right. split; [done|]. split; [by exists m|done].
Qed.

(** *** A measurement *)

(** What a round does with a measurement that is due. *)
Definition integrate_one m (q : queue) r f : RosFilter F :=
  let r := update r f q (measurement_history_ r ++ [m]) (filter_state_history_ r) in
  if match pop q with None => true | Some (n, _) => negb (time_ n =? last_time r) end then saveFilterState r else r.

Lemma integrate_one_round now restored m q r f : smooth_lagged_data_ r = true -> rf_use_control_ r = false ->
  pop (measurement_queue_ r) = Some (m, q) -> time_ m <= now -> processMeasurement m (filter_ r) = Some f ->
  integrate_round true now (r, restored) = Some (Next (integrate_one m q r f, restored)).
Proof.
  intros Hs Hu Hq Hn Hf. unfold integrate_round. rewrite Hq. cbn [negb orb]. rewrite (proj2 (Z.ltb_ge _ _)) by done.
  assert (Eu : rf_use_control_ (set_queue r q) && (0 <? restored) = false) by (unfold set_queue, update; cbn [rf_use_control_]; by rewrite Hu). rewrite Eu.
  change (filter_ (set_queue r q)) with (filter_ r). rewrite Hf. mred. change (smooth_lagged_data_ (set_filter (set_queue r q) f)) with (smooth_lagged_data_ r). by rewrite Hs.
Qed.

Lemma settled_estimate f0 past r : settled f0 past r -> exists f, run past f0 = Some f /\ same_estimate (filter_ r) f.
Proof using FL. intros (f & E & Hs). exists f. split; [done|]. by apply same_core. Qed.

(** The filter and the reference take the same measurement. *)
Lemma process_settled f0 past open_ r m : fresh_filter f0 -> consistent f0 past open_ r -> measurement_ok m ->
  (initialized_ (base (filter_ r)) = true -> last_time r <= time_ m) ->
  (settled f0 past r \/ initialized_ (base (filter_ r)) = true /\ last_time r < time_ m) ->
  exists f, processMeasurement m (filter_ r) = Some f /\ filter_ok f /\ initialized_ (base f) = true /\ last_measurement_time_ (base f) = time_ m /\
    exists f', run (past ++ [m]) f0 = Some f' /\ same_filter f f'.
Proof using FL.
  intros H0 Hc Hm Hlater Hor. destruct (processMeasurement_ok m (filter_ r) Hm (c_ok _ _ _ _ Hc)) as (f & Ef & Hf & Hi & Ht & _).
  exists f. split; [done|]. split; [done|]. split; [done|]. split.
  { rewrite Ht. unfold process_time, last_time in *. destruct (initialized_ (base (filter_ r))); [specialize (Hlater eq_refl); lia|done]. }
  assert (Hg : exists g, run past f0 = Some g /\ same_estimate (filter_ r) g /\ (same_filter (filter_ r) g \/ initialized_ (base (filter_ r)) = true /\ last_time r < time_ m)).
  { destruct Hor as [(g & E & Hs)|Hor]; [exists g; split; [done|]; split; [by apply same_core|by left]|].
    destruct (c_estimate _ _ _ _ Hc) as (g & E & He). exists g. split_and!; [done|done|by right]. }
  destruct Hg as (g & Eg & He & Hor'). destruct (run_ok f0 past H0 (c_past _ _ _ _ Hc) (c_order _ _ _ _ Hc)) as (g' & Eg' & Hgok & _). rewrite Eg in Eg'. injection Eg' as <-.
  destruct (processMeasurement_ok m g Hm Hgok) as (g' & Eg' & _). exists g'. split; [rewrite run_snoc, Eg; by mred|].
  apply (processMeasurement_same m (filter_ r) g); try done. apply (c_ok _ _ _ _ Hc).
Qed.

Lemma saved_state r : exists s, filter_state_history_ (saveFilterState r) = filter_state_history_ r ++ [s] /\ fs_estimate s = estimate (base (filter_ r)) /\
  fs_last_measurement_time_ s = last_time r.
Proof. by eexists. Qed.

(** The states saved so far keep their meaning when a measurement no earlier
    than all the others is integrated. *)
Lemma snapshots_extend f0 past open_ r m l1 s l2 : consistent f0 past open_ r -> (open_ = true -> time_ m = last_time r) -> (forall x, x ∈ past -> time_ x <= time_ m) ->
  filter_state_history_ r = l1 ++ s :: l2 -> Forall (fun s' => fs_last_measurement_time_ s < fs_last_measurement_time_ s') l2 -> fs_last_measurement_time_ s < time_ m ->
  exists f, run (upto (fs_last_measurement_time_ s) (past ++ [m])) f0 = Some f /\ fs_estimate s = estimate (base f) /\ upto (fs_last_measurement_time_ s) (past ++ [m]) <> [].
Proof using FL.
  intros Hc Hopen Hle E Hl2 Hs. rewrite upto_snoc, bool_decide_eq_false_2 by lia. apply (c_snapshots _ _ _ _ Hc l1 s l2 E Hl2).
  destruct open_; [right; by rewrite <- Hopen|by left].
Qed.

Lemma states_snoc (l : list FilterState) s : StronglySorted Z.le (fs_last_measurement_time_ <$> l) -> (forall s', s' ∈ l -> fs_last_measurement_time_ s' <= fs_last_measurement_time_ s) ->
  StronglySorted Z.le (fs_last_measurement_time_ <$> (l ++ [s])).
Proof.
  intros Hs Hle. induction l as [|a l IH]; cbn; [repeat constructor|]. inversion Hs as [|? ? Hs' Ha]; subst. constructor.
  - apply IH; [done|]. intros s' Hin. apply Hle. by right.
  - rewrite fmap_app. apply Forall_app. split; [done|]. repeat constructor. apply Hle. by left.
Qed.

Lemma past_le f0 past open_ r m : fresh_filter f0 -> consistent f0 past open_ r -> (initialized_ (base (filter_ r)) = true -> last_time r <= time_ m) ->
  forall x, x ∈ past -> time_ x <= time_ m.
Proof using FL.
  intros H0 Hc Hlater x Hx. destruct (last_time_past f0 past open_ r H0 Hc) as [[-> _]|(Hi & _ & Hall)]; [by apply not_elem_of_nil in Hx|].
  pose proof (proj1 (Forall_forall _ _) Hall x Hx). specialize (Hlater Hi). cbn in *. lia.
Qed.

Lemma states_later f0 past open_ r m s : fresh_filter f0 -> consistent f0 past open_ r -> (initialized_ (base (filter_ r)) = true -> last_time r <= time_ m) ->
  s ∈ filter_state_history_ r -> fs_last_measurement_time_ s <= time_ m.
Proof using FL.
  intros H0 Hc Hlater Hs. pose proof (c_last _ _ _ _ Hc s Hs). destruct (last_time_past f0 past open_ r H0 Hc) as [[E _]|(Hi & _)]; [|specialize (Hlater Hi); lia].
  rewrite (c_empty _ _ _ _ Hc E) in Hs. by apply not_elem_of_nil in Hs.
Qed.

Lemma integrate_one_consistent f0 past open_ r m q f : fresh_filter f0 -> consistent f0 past open_ r -> smooth_lagged_data_ r = true ->
  elements (measurement_queue_ r) ≡ₚ m :: elements q ->
  (initialized_ (base (filter_ r)) = true -> last_time r <= time_ m) -> (open_ = true -> time_ m = last_time r) ->
  filter_ok f -> last_measurement_time_ (base f) = time_ m -> (exists f', run (past ++ [m]) f0 = Some f' /\ same_filter f f') ->
  exists open', let r' := integrate_one m q r f in
    consistent f0 (past ++ [m]) open' r' /\ filter_ r' = f /\ measurement_queue_ r' = q /\ same_node r r' /\ (open' = true -> exists n, n ∈ elements q /\ time_ n = time_ m).
Proof using FL QL.
  intros H0 Hc Hsm Hq Hlater Hopen Hf Ht (f' & Ef' & Hsame). pose proof (past_le f0 past open_ r m H0 Hc Hlater) as Hle.
  assert (Hmq : Forall measurement_ok (m :: elements q)) by (rewrite <- Hq; apply (c_queue _ _ _ _ Hc)). apply Forall_cons in Hmq as [Hm Hmq].
  pose proof (fun s => states_later f0 past open_ r m s H0 Hc Hlater) as Hsl.
  assert (Hpast : Forall measurement_ok (past ++ [m]) /\ in_order (past ++ [m])).
  { split; [apply Forall_app; split; [apply (c_past _ _ _ _ Hc)|by apply Forall_cons]|]. apply in_order_snoc; [apply (c_order _ _ _ _ Hc)|done]. }
  destruct Hpast as [Hpm Hpo].
  assert (Hhist : exists pre, past ++ [m] = pre ++ measurement_history_ r ++ [m] /\ forall x, x ∈ pre -> x ∈ past).
  { destruct (c_history _ _ _ _ Hc) as (pre & E & _). exists pre. split; [by rewrite app_assoc, <- E|]. intros x Hx. rewrite E. apply elem_of_app. by left. }
  destruct Hhist as (pre & Epre & Hpre).
  assert (Hpre_s : forall s x, s ∈ filter_state_history_ r -> x ∈ pre -> time_ x <= fs_last_measurement_time_ s).
  { intros s x Hs Hx. destruct (c_history _ _ _ _ Hc) as (pre' & E' & Hp). apply (Hp s x Hs). rewrite E', <- app_assoc in Epre. by apply app_inv_tail in Epre as ->. }
  assert (Hcov : forall s x, s ∈ filter_state_history_ r -> x ∈ past ++ [m] -> fs_last_measurement_time_ s <= time_ x -> time_ x < time_ m ->
    exists s', s' ∈ filter_state_history_ r /\ fs_last_measurement_time_ s' = time_ x).
  { intros s x Hs [Hx|Hx]%elem_of_app Hsx Hxm; [|apply list_elem_of_singleton in Hx as ->; lia]. apply (c_cover _ _ _ _ Hc s x Hs Hx Hsx).
    destruct open_; [right; by rewrite <- Hopen|by left]. }
  pose proof (snapshots_extend f0 past open_ r m) as Hext.
  assert (E1 : integrate_one m q r f = if match pop q with None => true | Some (n, _) => negb (time_ n =? time_ m) end
    then saveFilterState (update r f q (measurement_history_ r ++ [m]) (filter_state_history_ r)) else update r f q (measurement_history_ r ++ [m]) (filter_state_history_ r)).
  { unfold integrate_one, last_time. cbn [filter_ update]. by rewrite Ht. }
  rewrite E1. clear E1. cbv zeta. destruct (match pop q with None => true | Some (n, _) => negb (time_ n =? time_ m) end) eqn:Ecl.
  - exists false. split; [|by split_and!].
    destruct (saved_state (update r f q (measurement_history_ r ++ [m]) (filter_state_history_ r))) as (sn & Esn & Hsn & Etn).
    unfold last_time in Etn. cbn [filter_ update] in Hsn, Etn. rewrite Ht in Etn. cbn [filter_state_history_ update] in Esn.
    split; unfold closed_at, last_time; rewrite ?Esn; cbn [filter_ measurement_queue_ measurement_history_ saveFilterState update]; rewrite ?Ht; try done.
    + apply states_snoc; [apply (c_states _ _ _ _ Hc)|]. intros s Hs. rewrite Etn. by apply Hsl.
    + intros l1 s l2 E Hl2 _. destruct l2 as [|s2 l2 _] using rev_ind.
      * apply app_inj_tail in E as [_ <-]. rewrite Etn, upto_all; [|apply Forall_app; split; [by apply Forall_forall|by repeat constructor]].
        exists f'. split; [done|]. split; [|by destruct past]. destruct (same_core _ _ Hsame) as [_ <-]. exact Hsn.
      * rewrite app_comm_cons, app_assoc in E. apply app_inj_tail in E as [E <-]. apply Forall_app in Hl2 as [Hl2 Hnew]. apply Forall_cons in Hnew as [Hnew _].
        rewrite Etn in Hnew. by apply (Hext l1 s l2).
    + exists pre. split; [done|]. intros s x [Hs|Hs]%elem_of_app Hx; [by apply Hpre_s|]. apply list_elem_of_singleton in Hs as ->. rewrite Etn. by apply Hle, Hpre.
    + intros s x Hs Hx Hsx _. assert (Hxm : time_ x <= time_ m) by (apply elem_of_app in Hx as [Hx|Hx]; [by apply Hle|by apply list_elem_of_singleton in Hx as ->]).
      destruct (Z.eq_dec (time_ x) (time_ m)) as [Exm|Hne].
      * exists sn. split; [apply elem_of_app; right; by apply list_elem_of_singleton|congruence].
      * apply elem_of_app in Hs as [Hs|Hs]; [|apply list_elem_of_singleton in Hs as ->; exfalso; lia].
        destruct (Hcov s x Hs Hx Hsx) as (s' & Hs' & E'); [lia|]. exists s'. split; [apply elem_of_app; by left|done].
    + intros s [Hs|Hs]%elem_of_app; [by apply Hsl|apply list_elem_of_singleton in Hs as ->; lia].
    + by destruct past.
    + exists f'. split; [done|]. by apply same_core.
  - exists true. split; [|split_and!; try done].
    + split; unfold closed_at, last_time; cbn [filter_ measurement_queue_ measurement_history_ filter_state_history_ update]; rewrite ?Ht; try done.
      * apply (c_states _ _ _ _ Hc).
      * intros l1 s l2 E Hl2 [|Hs]; [done|]. by apply (Hext l1 s l2).
      * exists pre. split; [done|]. exact Hpre_s.
      * intros s x Hs Hx Hsx [|Hxm]; [done|]. by apply (Hcov s x).
      * by destruct past.
      * exists f'. split; [done|]. by apply same_core.
    + intros _. destruct (pop q) as [[n q']|] eqn:Eq; [|done]. apply negb_false_iff, Z.eqb_eq in Ecl. exists n. split; [|done].
      destruct (pop_Some q n q') as [-> _]; [by apply Forall_forall|done|left].
Qed.

(** *** A reversion *)

Lemma sorted_times_split (l : list FilterState) l1 s l2 x : StronglySorted Z.le (fs_last_measurement_time_ <$> l) -> l = l1 ++ s :: l2 -> x ∈ l1 ->
  fs_last_measurement_time_ x <= fs_last_measurement_time_ s.
Proof.
  intros Hs -> Hx. induction l1 as [|a l1 IH]; [by apply not_elem_of_nil in Hx|]. cbn in Hs. inversion Hs as [|? ? Hs' Ha]; subst.
  apply elem_of_cons in Hx as [->|Hx]; [|by apply IH]. rewrite fmap_app in Ha. apply Forall_app in Ha as [_ Ha]. by apply Forall_cons in Ha as [Ha _].
Qed.

Lemma in_order_before l t : in_order l -> exists a b, l = a ++ b /\ Forall (fun m => time_ m <= t) a /\ Forall (fun m => t < time_ m) b.
Proof.
  intros Hs. induction l as [|m l IH]; [by exists [], []|]. inversion Hs as [|? ? Hs' Hm]; subst. destruct (Z.le_gt_cases (time_ m) t) as [Hle|Hgt].
  - destruct (IH Hs') as (a & b & -> & Ha & Hb). exists (m :: a), b. split_and!; [done|by constructor|done].
  - exists [], (m :: l). split_and!; [done|constructor|]. constructor; [done|]. eapply Forall_impl; [exact Hm|]. intros x Hx. cbn in Hx. lia.
Qed.

(** What the measurements up to a saved state leave: its history stays
    consistent, and what was integrated after it can be integrated again. *)
Lemma consistent_prefix f0 past r r' l1 s l2 mh1 mh2 : fresh_filter f0 -> consistent f0 past false r ->
  filter_state_history_ r = l1 ++ s :: l2 -> Forall (fun s' => fs_last_measurement_time_ s < fs_last_measurement_time_ s') l2 ->
  measurement_history_ r = mh1 ++ mh2 -> Forall (fun m => time_ m <= fs_last_measurement_time_ s) mh1 -> Forall (fun m => fs_last_measurement_time_ s < time_ m) mh2 ->
  elements (measurement_queue_ r') ≡ₚ mh2 ++ elements (measurement_queue_ r) ->
  filter_ r' = with_base (filter_ r) (restore_state s (base (filter_ r))) -> filter_state_history_ r' = l1 ++ [s] -> measurement_history_ r' = mh1 ->
  exists past', consistent f0 past' false r' /\ past' ++ mh2 = past /\ initialized_ (base (filter_ r')) = true /\ last_time r' = fs_last_measurement_time_ s.
Proof using FL QL.
  intros H0 Hc El Hl2 Em Hm1 Hm2 Hq Ef Es' Em'. set (t := fs_last_measurement_time_ s) in *.
  destruct (c_history _ _ _ _ Hc) as (pre & Epast & Hpre). rewrite Em in Epast.
  assert (Hin : s ∈ filter_state_history_ r) by (rewrite El; apply elem_of_app; right; left).
  assert (Hpm : Forall (fun m => time_ m <= t) (pre ++ mh1)) by (apply Forall_app; split; [|done]; apply Forall_forall; intros m Hm; by apply (Hpre s)).
  assert (Epast' : past = (pre ++ mh1) ++ mh2) by (by rewrite Epast, app_assoc). set (past' := pre ++ mh1) in *.
  assert (Eup : upto t past = past') by (rewrite Epast'; by apply upto_split).
  destruct (c_snapshots _ _ _ _ Hc l1 s l2 El Hl2 ltac:(by left)) as (fs & Efs & Ees & Hne). fold t in Efs, Hne. rewrite Eup in Efs, Hne.
  assert (Hpp : Forall measurement_ok past' /\ in_order past' /\ Forall measurement_ok mh2).
  { pose proof (c_past _ _ _ _ Hc) as Hp. pose proof (c_order _ _ _ _ Hc) as Ho. rewrite Epast' in Hp, Ho. apply Forall_app in Hp as [Hp Hp2]. by apply in_order_app in Ho as (Ho & _). }
  destruct Hpp as (Hpp & Hpo & Hpm2).
  destruct (run_ok f0 past' H0 Hpp Hpo) as (fs' & Efs' & Hfs & Hor). rewrite Efs in Efs'. injection Efs' as <-. destruct Hor as [[E _]|(Hi & Hps & _)]; [done|].
  destruct (c_estimate _ _ _ _ Hc) as (fr & Efr & Hpr & _). destruct (run_ok f0 past H0 (c_past _ _ _ _ Hc) (c_order _ _ _ _ Hc)) as (fr' & Efr' & _ & Hor).
  rewrite Efr in Efr'. injection Efr' as <-. destruct Hor as [[E _]|(Hir & Hprr & _)]; [rewrite E in Epast'; by destruct past'|].
  assert (Hps' : same_params (filter_ r) fs) by (transitivity fr; [done|]; transitivity (with_base f0 (set_initialized (base f0) true)); [by symmetry|done]).
  exists past'. assert (Hbase : base (filter_ r') = restore_state s (base (filter_ r))) by (rewrite Ef; apply base_with_base).
  assert (Elt : last_time r' = t) by (unfold last_time; by rewrite Hbase). pose proof Ees as [= Es1 Es2 Es3].
  split; [|split; [done|split; [rewrite Hbase; cbn; rewrite <- Hi; apply (initialized_params _ _ Hps')|done]]].
  assert (Hsub : forall x, x ∈ l1 ++ [s] -> x ∈ filter_state_history_ r) by (intros x Hx; rewrite El; apply elem_of_app in Hx as [Hx|Hx]; apply elem_of_app; [by left|right; apply list_elem_of_singleton in Hx as ->; left]).
  assert (Hle : forall x, x ∈ l1 ++ [s] -> fs_last_measurement_time_ x <= t).
  { intros x [Hx|Hx]%elem_of_app; [|by apply list_elem_of_singleton in Hx as ->]. by apply (sorted_times_split _ l1 s l2 x (c_states _ _ _ _ Hc)). }
  split.
  - rewrite Ef. apply ok_with_base; [apply (c_ok _ _ _ _ Hc)|]. pose proof (ok_base _ (c_ok _ _ _ _ Hc)). pose proof (ok_base _ Hfs) as []. unfold restore_state.
    apply setLastMeasurementTime_ok, setEstimateErrorCovariance_ok; [apply setState_ok; [done|congruence]|congruence].
  - done.
  - rewrite Hq. apply Forall_app. split; [done|apply (c_queue _ _ _ _ Hc)].
  - done.
  - rewrite Es'. pose proof (c_states _ _ _ _ Hc) as Hs. rewrite El, cons_middle, app_assoc, fmap_app in Hs. by apply StronglySorted_app_1_l in Hs.
  - intros a x b E Hb _. rewrite Es' in E. rewrite <- Eup. assert (Hx : fs_last_measurement_time_ x <= t) by (apply Hle; rewrite E; apply elem_of_app; right; left).
    rewrite upto_upto by done. apply (c_snapshots _ _ _ _ Hc a x (b ++ l2)); [|apply Forall_app; split; [done|]|by left].
    + rewrite El, cons_middle, app_assoc, E. by rewrite <- app_assoc.
    + eapply Forall_impl; [exact Hl2|]. intros y Hy. cbn in Hy. lia.
  - exists pre. rewrite Em', Es'. split; [done|]. intros x m Hx Hm. apply Hpre; [by apply Hsub|done].
  - rewrite Es'. intros x m Hx Hm Hxm _. destruct (c_cover _ _ _ _ Hc x m (Hsub x Hx)) as (y & Hy & Ey); [rewrite Epast'; apply elem_of_app; by left|done|by left|].
    exists y. split; [|done]. pose proof (proj1 (Forall_forall _ _) Hpm m Hm) as Hmt. cbn in Hmt. rewrite El, cons_middle, app_assoc in Hy. apply elem_of_app in Hy as [|Hy]; [done|].
    pose proof (proj1 (Forall_forall _ _) Hl2 y Hy) as Hyt. cbn in Hyt. fold t in Hyt. lia.
  - rewrite Es', Elt. exact Hle.
  - intros E. by rewrite E in Hne.
  - exists fs. split; [done|]. split; [|rewrite Hbase; by rewrite <- Ees].
    rewrite Ef. transitivity (filter_ r); [symmetry; apply params_write; unfold restore_state; by split|done].
Qed.

Lemma not_later_sorted (l : list FilterState) t : StronglySorted Z.le (fs_last_measurement_time_ <$> l) -> match reverse l with s :: _ => fs_last_measurement_time_ s <= t | [] => True end ->
  forall s, s ∈ l -> fs_last_measurement_time_ s <= t.
Proof.
  intros Hs Hl s Hin. destruct l as [|x l _] using rev_ind; [by apply not_elem_of_nil in Hin|]. rewrite reverse_snoc in Hl.
  apply elem_of_app in Hin as [Hin|Hin]; [|by apply list_elem_of_singleton in Hin as ->].
  pose proof (sorted_times_split (l ++ [x]) l x [] s Hs eq_refl Hin). lia.
Qed.

Lemma not_later_in_order ms t : in_order ms -> match reverse ms with m :: _ => time_ m <= t | [] => True end -> Forall (fun m => time_ m <= t) ms.
Proof.
  intros Hs Hl. destruct ms as [|x l _] using rev_ind; [constructor|]. rewrite reverse_snoc in Hl. apply in_order_app in Hs as (_ & _ & Hle).
  apply Forall_app. split; [|by repeat constructor]. apply Forall_forall. intros m Hm. specialize (Hle m x Hm (proj2 (list_elem_of_singleton _ _) eq_refl)). lia.
Qed.

Lemma revert_lagged_consistent f0 past r t : fresh_filter f0 -> consistent f0 past false r -> smooth_lagged_data_ r = true -> t < last_time r ->
  (exists s, s ∈ filter_state_history_ r /\ fs_last_measurement_time_ s < t) ->
  exists r' n past', revert_lagged r t = (r', n) /\ consistent f0 past' false r' /\ same_node r r' /\ initialized_ (base (filter_ r')) = true /\ last_time r' < t /\
    past' ++ elements (measurement_queue_ r') ≡ₚ past ++ elements (measurement_queue_ r) /\
    exists late, elements (measurement_queue_ r') ≡ₚ late ++ elements (measurement_queue_ r) /\ Forall (fun m => t <= time_ m) late.
Proof using FL QL.
  intros H0 Hc Hsm Ht (s0 & Hs0 & Hs0t). unfold revert_lagged. rewrite Hsm. fold (last_time r). rewrite (proj2 (Z.ltb_lt _ _)) by done. cbn [andb].
  unfold revertTo. destruct (pop_states_spec (t - 1) (reverse (filter_state_history_ r)) None) as (spre & srest & last' & -> & Es & Hspre & Hsrest).
  assert (Esh : filter_state_history_ r = reverse srest ++ reverse spre) by (rewrite <- reverse_app, <- Es; by rewrite reverse_involutive).
  destruct srest as [|s srest].
  { exfalso. cbn in Esh. rewrite Esh, elem_of_reverse in Hs0. pose proof (proj1 (Forall_forall _ _) Hspre s0 Hs0) as Hx. cbn in Hx. lia. }
  cbn [measurement_queue_ measurement_history_ filter_ filter_state_history_ update set_base set_filter].
  destruct (pop_measurements_spec (t - 1) (fs_last_measurement_time_ s) (reverse (measurement_history_ r)) (measurement_queue_ r)) as (mpre & mrest & q' & -> & Em & Hmpre & Hmrest & Hq').
  assert (Emh : measurement_history_ r = reverse mrest ++ reverse mpre) by (rewrite <- reverse_app, <- Em; by rewrite reverse_involutive).
  rewrite reverse_cons, <- app_assoc in Esh. cbn [app] in Esh.
  assert (Hl2 : Forall (fun s' => fs_last_measurement_time_ s < fs_last_measurement_time_ s') (reverse spre)).
  { apply Forall_reverse. eapply Forall_impl; [exact Hspre|]. intros x Hx. cbn in Hx. lia. }
  assert (Hin : s ∈ filter_state_history_ r) by (rewrite Esh; apply elem_of_app; right; left).
  destruct (c_history _ _ _ _ Hc) as (pre & Epast & _). pose proof (c_order _ _ _ _ Hc) as Ho. rewrite Epast in Ho. apply in_order_app in Ho as (_ & Ho & _).
  rewrite Emh in Ho. apply in_order_app in Ho as (Ho1 & _).
  assert (Hm1 : Forall (fun m => time_ m <= fs_last_measurement_time_ s) (reverse mrest)).
  { assert (Hlt : Forall (fun m => time_ m <= t - 1) (reverse mrest)) by (apply not_later_in_order; [done|by rewrite reverse_involutive]).
    apply Forall_forall. intros m Hm. pose proof (proj1 (Forall_forall _ _) Hlt m Hm) as Hmt. cbn in Hmt.
    destruct (Z.le_gt_cases (time_ m) (fs_last_measurement_time_ s)) as [|Hgt]; [done|]. exfalso.
    destruct (c_cover _ _ _ _ Hc s m Hin) as (y & Hy & Ey); [rewrite Epast, Emh; apply elem_of_app; right; apply elem_of_app; by left|lia|by left|].
    rewrite Esh, cons_middle, app_assoc in Hy. apply elem_of_app in Hy as [Hy|Hy].
    - apply elem_of_app in Hy as [Hy|Hy]; [|apply list_elem_of_singleton in Hy as ->; lia].
      pose proof (sorted_times_split _ _ _ _ y (c_states _ _ _ _ Hc) Esh Hy). lia.
    - rewrite elem_of_reverse in Hy. pose proof (proj1 (Forall_forall _ _) Hspre y Hy) as Hyt. cbn in Hyt. lia. }
  assert (Hm2 : Forall (fun m => t <= time_ m) (reverse mpre)) by (apply Forall_reverse; eapply Forall_impl; [exact Hmpre|]; intros x Hx; cbn in Hx; lia).
  assert (Hm2' : Forall (fun m => fs_last_measurement_time_ s < time_ m) (reverse mpre)) by (eapply Forall_impl; [exact Hm2|]; intros x Hx; cbn in Hx; lia).
  assert (Hq2 : elements q' ≡ₚ reverse mpre ++ elements (measurement_queue_ r)).
  { rewrite Hq'. apply Permutation_app_tail. rewrite reverse_Permutation. clear -Hmpre Hsrest. induction Hmpre as [|m l Hm Hl IH]; [done|].
    rewrite filter_cons_True by lia. by rewrite IH. }
  eexists _, _. match goal with |- exists past', (?r', _) = _ /\ _ => pose (r1 := r') end.
  destruct (consistent_prefix f0 past r r1 (reverse srest) s (reverse spre) (reverse mrest) (reverse mpre) H0 Hc Esh Hl2 Emh Hm1 Hm2' Hq2 eq_refl) as (past' & Hc' & Ep & Hi & Hlt).
  - apply reverse_cons.
  - done.
  - exists past'. split; [done|]. fold r1. split; [done|]. split; [done|]. split; [done|]. split; [lia|]. change (measurement_queue_ r1) with q'. split.
    + rewrite Hq2, <- Ep, <- app_assoc. done.
    + by exists (reverse mpre).
Qed.

(** *** The loop *)

Lemma pop_least (q q' : queue) m : pop q = Some (m, q') -> elements q ≡ₚ m :: elements q' /\ forall x, x ∈ elements q' -> time_ m <= time_ x.
Proof using QL.
  intros E. destruct (pop_Some q m q') as [Hp Hf]; [by apply Forall_forall|done|]. split; [done|]. intros x Hx.
  pose proof (proj1 (Forall_forall _ _) Hf x Hx) as Hm. unfold measurement_less in Hm. apply Z.ltb_ge in Hm. done.
Qed.

Lemma loop_S {S} (n : nat) (body : S -> option (ctl S)) (st : S) :
  loop (Datatypes.S n) body st = (c ← body st; match c with Next st' => loop n body st' | Break st' => Some st' end).
Proof. done. Qed.

(** Without a saved state there is nothing to revert to. *)
Lemma revert_nothing r t : filter_state_history_ r = [] -> revert_lagged r t = (r, 0).
Proof.
  intros E. unfold revert_lagged, revertTo. destruct (_ && _); [|done]. rewrite E. cbn. rewrite Z.sub_diag. destruct r. cbn in *. by subst.
Qed.

(** Why the filter may be behind the reference at the start of a round. *)
Definition ready now f0 past r : Prop :=
  settled f0 past r \/ initialized_ (base (filter_ r)) = true /\ (forall m, m ∈ elements (measurement_queue_ r) -> last_time r < time_ m) /\
    exists m, m ∈ elements (measurement_queue_ r) /\ time_ m <= now.

Lemma loop_consistent f0 now : fresh_filter f0 -> forall n past open_ r restored, length (elements (measurement_queue_ r)) = n ->
  consistent f0 past open_ r -> smooth_lagged_data_ r = true -> rf_use_control_ r = false ->
  (initialized_ (base (filter_ r)) = true -> forall m, m ∈ elements (measurement_queue_ r) -> last_time r <= time_ m) ->
  (open_ = true -> initialized_ (base (filter_ r)) = true /\ last_time r <= now /\ exists m, m ∈ elements (measurement_queue_ r) /\ time_ m = last_time r) -> ready now f0 past r ->
  exists r' past' restored', loop (S n) (integrate_round true now) (r, restored) = Some (r', restored') /\ consistent f0 past' false r' /\ settled f0 past' r' /\ same_node r r' /\
    past' ++ elements (measurement_queue_ r') ≡ₚ past ++ elements (measurement_queue_ r) /\ elements (measurement_queue_ r') ≡ₚ later now (elements (measurement_queue_ r)).
Proof using FL QL.
  intros H0. induction n as [|n IH]; intros past open_ r restored Hn Hc Hsm Hu Hlater Hopen Hready; rewrite loop_S.
  all: destruct (pop (measurement_queue_ r)) as [[m q]|] eqn:Eq.
  - destruct (pop_least _ _ _ Eq) as [Hp _]. rewrite Hp in Hn. done.
  - pose proof (pop_None _ Eq) as Ee. unfold integrate_round. rewrite Eq. mred. exists r, past, restored. split; [done|].
    assert (Ho : open_ = false) by (destruct open_; [destruct (Hopen eq_refl) as (_ & _ & x & Hx & _); rewrite Ee in Hx; by apply not_elem_of_nil in Hx|done]). subst open_.
    split; [done|]. split; [|by rewrite Ee]. destruct Hready as [|(_ & _ & x & Hx & _)]; [done|]. rewrite Ee in Hx. by apply not_elem_of_nil in Hx.
  - destruct (pop_least _ _ _ Eq) as [Hp Hmin]. assert (Hmin' : forall x, x ∈ elements (measurement_queue_ r) -> time_ m <= time_ x).
    { intros x Hx. rewrite Hp in Hx. apply elem_of_cons in Hx as [->|Hx]; [done|by apply Hmin]. }
    assert (Hin : m ∈ elements (measurement_queue_ r)) by (rewrite Hp; left).
    destruct (Z.le_gt_cases (time_ m) now) as [Hdue|Hwait].
    + assert (Hm : measurement_ok m) by (apply (proj1 (Forall_forall _ _) (c_queue _ _ _ _ Hc)); exact Hin).
      assert (Hlm : initialized_ (base (filter_ r)) = true -> last_time r <= time_ m) by (intros Hi; by apply Hlater).
      destruct (process_settled f0 past open_ r m H0 Hc Hm Hlm) as (f & Ef & Hf & Hi & Ht & Hrun).
      { destruct Hready as [|(Hi & Hl & _)]; [by left|]. right. split; [done|]. by apply Hl. }
      rewrite (integrate_one_round now restored m q r f Hsm Hu Eq Hdue Ef). mred.
      destruct (integrate_one_consistent f0 past open_ r m q f H0 Hc Hsm Hp Hlm) as (open' & Hc' & Ef' & Eq' & (En1 & En2 & En3 & En4 & En5) & Hopen'); [|done..|].
      { intros Ho. destruct (Hopen Ho) as (Hir & _ & x & Hx & Ex). specialize (Hmin' x Hx). specialize (Hlm Hir). lia. }
      cbv zeta in *. set (r1 := integrate_one m q r f) in *. assert (Elt : last_time r1 = time_ m) by (unfold last_time; by rewrite Ef').
      destruct (IH (past ++ [m]) open' r1 restored) as (r' & past' & restored' & -> & Hc2 & Hs2 & Hn2 & Hp2 & Hl2).
      * rewrite Eq'. rewrite Hp in Hn. by injection Hn.
      * done.
      * by rewrite En1.
      * by rewrite En3.
      * intros _ x Hx. rewrite Elt. rewrite Eq' in Hx. by apply Hmin.
      * intros Ho. rewrite Ef', Eq', Elt. by split_and!; [..|apply Hopen'].
      * left. destruct Hrun as (f' & E' & Hs'). exists f'. by rewrite Ef'.
      * exists r', past', restored'. split; [done|]. split; [done|]. split; [done|]. split; [unfold same_node in *; destruct_and?; split_and!; congruence|].
        split; [by rewrite Hp2, Eq', Hp, <- app_assoc|]. rewrite Hl2, Eq'. unfold later. by rewrite Hp, filter_cons_False by lia.
    + unfold integrate_round. rewrite Eq. cbn [negb orb]. rewrite (proj2 (Z.ltb_lt _ _)) by lia. mred. exists r, past, restored. split; [done|].
      assert (Ho : open_ = false) by (destruct open_; [destruct (Hopen eq_refl) as (_ & Hl & x & Hx & Ex); specialize (Hmin' x Hx); lia|done]). subst open_.
      split; [done|]. split; [destruct Hready as [|(_ & _ & x & Hx & Hxn)]; [done|]; specialize (Hmin' x Hx); lia|]. split; [done|]. split; [done|].
      rewrite later_all; [done|]. apply Forall_forall. intros x Hx. specialize (Hmin' x Hx). lia.
  - pose proof (pop_None _ Eq) as Ee. by rewrite Ee in Hn.
Qed.

(** *** The integration *)

(** The clock and the history allow the integration: a late measurement is
    later than one of the states saved, and there is no prediction for want of
    measurements. *)
Definition covered now r : Prop :=
  match pop (measurement_queue_ r) with
  | Some (m, _) => initialized_ (base (filter_ r)) = true -> last_time r <= time_ m \/ last_time r <= now /\ exists s, s ∈ filter_state_history_ r /\ fs_last_measurement_time_ s < time_ m
  | None => initialized_ (base (filter_ r)) = true -> now - last_time r < sensor_timeout_ (base (filter_ r))
  end.

Lemma integrate_consistent f0 past r now : fresh_filter f0 -> consistent f0 past false r -> settled f0 past r -> smooth_lagged_data_ r = true -> rf_use_control_ r = false ->
  predict_to_current_time_ r = false -> covered now r ->
  exists r' past', integrateMeasurements true now r = Some r' /\ consistent f0 past' false r' /\ settled f0 past' r' /\ same_node r r' /\
    past' ++ elements (measurement_queue_ r') ≡ₚ past ++ elements (measurement_queue_ r) /\ elements (measurement_queue_ r') ≡ₚ later now (elements (measurement_queue_ r)).
Proof using FL QL.
  intros H0 Hc Hset Hsm Hu Hpn Hcov. unfold integrateMeasurements, covered in *. destruct (pop (measurement_queue_ r)) as [[m q]|] eqn:Eq.
  - destruct (pop_least _ _ _ Eq) as [Hp Hmin].
    assert (Hgo : exists r1 n past1, revert_lagged r (time_ m) = (r1, n) /\ consistent f0 past1 false r1 /\ same_node r r1 /\ ready now f0 past1 r1 /\
      (initialized_ (base (filter_ r1)) = true -> forall x, x ∈ elements (measurement_queue_ r1) -> last_time r1 <= time_ x) /\
      past1 ++ elements (measurement_queue_ r1) ≡ₚ past ++ elements (measurement_queue_ r) /\ later now (elements (measurement_queue_ r1)) ≡ₚ later now (elements (measurement_queue_ r))).
    { assert (Hm : forall x, x ∈ elements (measurement_queue_ r) -> time_ m <= time_ x) by (intros x Hx; rewrite Hp in Hx; apply elem_of_cons in Hx as [->|Hx]; [done|by apply Hmin]).
      destruct (Z.le_gt_cases (last_time r) (time_ m)) as [Hle|Hgt].
      - exists r, 0, past. unfold revert_lagged. fold (last_time r). rewrite (proj2 (Z.ltb_ge _ _)) by done. rewrite andb_false_r. split_and!; try done; [by left|].
        intros _ x Hx. specialize (Hm x Hx). lia.
      - destruct (last_time_past f0 past false r H0 Hc) as [[E Hni]|(Hi & _ & Hpl)].
        + exists r, 0, past. rewrite revert_nothing by by apply (c_empty _ _ _ _ Hc). split_and!; try done; [by left|]. intros Hi. congruence.
        + destruct (Hcov Hi) as [|[Hnow Hs]]; [lia|]. destruct (revert_lagged_consistent f0 past r (time_ m) H0 Hc Hsm) as (r1 & n & past1 & E & Hc1 & Hn1 & Hi1 & Hlt & Hperm & late & Hq & Hlate); [lia|done|].
          assert (Hall : forall x, x ∈ elements (measurement_queue_ r1) -> last_time r1 < time_ x).
          { intros x Hx. rewrite Hq in Hx. apply elem_of_app in Hx as [Hx|Hx]; [pose proof (proj1 (Forall_forall _ _) Hlate x Hx) as Hx2; cbn in Hx2; lia|specialize (Hm x Hx); lia]. }
          exists r1, n, past1. split_and!; try done.
          * right. split; [done|]. split; [done|]. exists m. split; [rewrite Hq; apply elem_of_app; right; rewrite Hp; left|lia].
          * intros _ x Hx. specialize (Hall x Hx). lia.
          * unfold later. rewrite Hq, filter_app. fold (later now late). rewrite later_none; [done|]. rewrite Hq, app_assoc in Hperm. apply Permutation_app_inv_r in Hperm.
            apply Forall_forall. intros x Hx. assert (Hin : x ∈ past) by (rewrite <- Hperm; apply elem_of_app; by right). pose proof (proj1 (Forall_forall _ _) Hpl x Hin) as Hxl. cbn in Hxl. lia. }
    destruct Hgo as (r1 & n & past1 & -> & Hc1 & Hn1 & Hr1 & Hl1 & Hp1 & Hw1). cbn [fst].
    destruct (loop_consistent f0 now H0 _ past1 false r1 n eq_refl Hc1) as (r2 & past2 & n2 & -> & Hc2 & Hs2 & Hn2 & Hp2 & Hw2); [unfold same_node in *; destruct_and?; congruence..|done|done|done|].
    mred. assert (Hpn2 : predict_to_current_time_ r2 = false) by (unfold same_node in *; destruct_and?; congruence). rewrite Hpn2, andb_false_r.
    exists r2, past2. split_and!; try done; [unfold same_node in *; destruct_and?; split_and!; congruence..|by rewrite Hp2|by rewrite Hw2].
  - mred. assert (Hp : (if initialized_ (base (filter_ r)) && (sensor_timeout_ (base (filter_ r)) <=? now - last_measurement_time_ (base (filter_ r))) then true else predict_to_current_time_ r) = false).
    { destruct (initialized_ (base (filter_ r))) eqn:Hi; [|done]. specialize (Hcov eq_refl). unfold last_time in Hcov. rewrite (proj2 (Z.leb_gt _ _)) by lia. done. }
    rewrite Hp, andb_false_r. exists r, past. pose proof (pop_None _ Eq) as Ee. split_and!; try done. by rewrite Ee.
Qed.

(** *** The other operations *)

Lemma enqueue_consistent f0 past r v C u th t : consistent f0 past false r -> measurement_ok (mkMeasurement t th (rf_latest_control_time_ r) u (rf_latest_control_ r) v C) ->
  consistent f0 past false (enqueueMeasurement v C u th t r).
Proof using FL QL.
  intros [] Hm. split; try done. unfold enqueueMeasurement, set_queue, update. cbn [measurement_queue_]. rewrite elements_emplace. by constructor.
Qed.

Lemma clear_consistent f0 past r cutoff : consistent f0 past false r -> consistent f0 past false (clearExpiredHistory cutoff r).
Proof using FL QL.
  intros []. destruct (drop_before_split fs_last_measurement_time_ cutoff (filter_state_history_ r)) as (spre & Es & Hs).
  destruct (drop_before_split time_ cutoff (measurement_history_ r)) as (mpre & Em & Hm).
  pose proof (drop_before_head fs_last_measurement_time_ cutoff (filter_state_history_ r)) as Hhead.
  set (s' := drop_before fs_last_measurement_time_ cutoff (filter_state_history_ r)) in *. set (m' := drop_before time_ cutoff (measurement_history_ r)) in *.
  assert (Hsub : forall s, s ∈ s' -> s ∈ filter_state_history_ r) by (intros s Hin; rewrite Es; apply elem_of_app; by right).
  assert (Hlater : StronglySorted Z.le (fs_last_measurement_time_ <$> s') /\ forall s, s ∈ s' -> cutoff <= fs_last_measurement_time_ s).
  { rewrite Es, fmap_app in c_states0. split; [by apply StronglySorted_app_1_r in c_states0|]. apply StronglySorted_app_1_r in c_states0. intros s Hin.
    destruct s' as [|x s'']; [by apply not_elem_of_nil in Hin|]. apply elem_of_cons in Hin as [->|Hin]; [done|]. cbn in c_states0. inversion c_states0 as [|? ? _ Ha]; subst.
    apply (proj1 (Forall_forall _ _)) with (x := fs_last_measurement_time_ s) in Ha; [lia|]. apply list_elem_of_fmap. by exists s. }
  destruct Hlater as [Hsorted Hcut]. unfold clearExpiredHistory. fold s' m'. split; unfold closed_at, last_time; cbn [filter_ measurement_queue_ measurement_history_ filter_state_history_ update]; try done.
  - intros l1 s l2 E Hl2 _. apply (c_snapshots0 (spre ++ l1) s l2); [|done|by left]. by rewrite Es, E, <- app_assoc.
  - destruct c_history0 as (pre & E & Hp). exists (pre ++ mpre). split; [by rewrite <- app_assoc, <- Em|]. intros s m Hin [Hx|Hx]%elem_of_app; [by apply Hp; [apply Hsub|]|].
    pose proof (proj1 (Forall_forall _ _) Hm m Hx) as Hmc. cbn in Hmc. specialize (Hcut s Hin). lia.
  - intros s m Hin Hx Hsm _. destruct (c_cover0 s m (Hsub s Hin) Hx Hsm ltac:(by left)) as (y & Hy & Ey). exists y. split; [|done]. specialize (Hcut s Hin).
    rewrite Es in Hy. apply elem_of_app in Hy as [Hy|Hy]; [|done]. pose proof (proj1 (Forall_forall _ _) Hs y Hy) as Hyc. cbn in Hyc. lia.
  - intros s Hin. by apply c_last0, Hsub.
  - intros E. rewrite (c_empty0 E) in Es. by destruct spre, s'.
Qed.

Lemma control_consistent f0 past r v t : consistent f0 past false r -> settled f0 past r -> use_control_ (base (filter_ r)) = false -> alen v = TWIST_SIZE ->
  consistent f0 past false (controlStampedCallback v t r) /\ settled f0 past (controlStampedCallback v t r).
Proof using FL QL.
  intros Hc Hset Hu Hv. unfold controlStampedCallback. cbv zeta. set (r1 := set_control_members r v t). change (filter_ r1) with (filter_ r).
  assert (Hp : base_params (base (filter_ r)) (setControl (base (filter_ r)) v t)) by (split; try done; by rewrite Hu).
  assert (Hs : same_filter (filter_ r) (with_base (filter_ r) (setControl (base (filter_ r)) v t))) by (rewrite <- (with_base_base (filter_ r)) at 1; by apply same_with_base).
  assert (Hset' : settled f0 past (set_base r1 (setControl (base (filter_ r)) v t))).
  { destruct Hset as (f & E & Hf). exists f. split; [done|]. cbn [filter_ set_base set_filter update]. transitivity (filter_ r); [by symmetry|done]. }
  split; [|done]. assert (Elt : last_time (set_base r1 (setControl (base (filter_ r)) v t)) = last_time r) by (unfold last_time; cbn [filter_ set_base set_filter update]; by rewrite base_with_base).
  destruct Hc. split; try done.
  - apply ok_with_base; [done|]. destruct (ok_base _ c_ok0). by split.
  - intros l1 s l2 E Hl2 _. apply (c_snapshots0 l1 s l2); [done|done|by left].
  - intros s m Hin Hm Hsm _. apply (c_cover0 s m); [done|done|done|by left].
  - intros s Hin. pose proof (c_last0 s Hin) as Hl. rewrite <- Elt in Hl. exact Hl.
  - by apply settled_estimate.
Qed.

(** ** Runs of the node *)

(** What reaches the node. *)
Inductive Event :=
| Enqueue (m : Measurement)
| Control (twist : list spec_float) (stamp : Z)
| Integrate (current_time : Z)
| Expire (cutoff_time : Z).

Definition handle (e : Event) r : option (RosFilter F) :=
  match e with
  | Enqueue m => Some (enqueueMeasurement (measurement_ m) (covariance_ m) (update_vector_ m) (mahalanobis_thresh_ m) (time_ m) r)
  | Control twist stamp => Some (controlStampedCallback twist stamp r)
  | Integrate t => integrateMeasurements true t r
  | Expire t => Some (clearExpiredHistory t r)
  end.

(** The measurements that arrive, with the control that the node has then. *)
Fixpoint arrived (control : list spec_float) (stamp : Z) (es : list Event) : list Measurement :=
  match es with
  | Enqueue m :: es => mkMeasurement (time_ m) (mahalanobis_thresh_ m) stamp (update_vector_ m) control (measurement_ m) (covariance_ m) :: arrived control stamp es
  | Control v t :: es => arrived v t es
  | _ :: es => arrived control stamp es
  | [] => []
  end.

(** A measurement of that time is due at one of the integrations to come. *)
Definition integrated (es : list Event) (t : Z) : bool := existsb (fun e => match e with Integrate now => t <=? now | _ => false end) es.

(** The measurements that arrive, of those that are integrated later on, or not. *)
Fixpoint arrivals (due : bool) (control : list spec_float) (stamp : Z) (es : list Event) : list Measurement :=
  match es with
  | Enqueue m :: es =>
      (if eqb (integrated es (time_ m)) due then [mkMeasurement (time_ m) (mahalanobis_thresh_ m) stamp (update_vector_ m) control (measurement_ m) (covariance_ m)] else []) ++
      arrivals due control stamp es
  | Control v t :: es => arrivals due v t es
  | _ :: es => arrivals due control stamp es
  | [] => []
  end.

Lemma arrived_split control stamp es : arrived control stamp es ≡ₚ arrivals true control stamp es ++ arrivals false control stamp es.
Proof.
  revert control stamp. induction es as [|[m|v t|t|t] es IH]; intros control stamp; [done| |apply IH..]. cbn [arrived arrivals]. rewrite IH. destruct (integrated es (time_ m)); cbn [eqb app]; [done|]. apply Permutation_middle.
Qed.

Definition event_ok (e : Event) : Prop := match e with Enqueue m => measurement_ok m | Control v _ => alen v = TWIST_SIZE | _ => True end.

Fixpoint handle_all (es : list Event) r : option (RosFilter F) := match es with [] => Some r | e :: es => r ← handle e r; handle_all es r end.

(** Every integration of the run is [covered]. *)
Fixpoint covered_run (es : list Event) r : Prop :=
  match es with
  | [] => True
  | e :: es => (forall t, e = Integrate t -> covered t r) /\ forall r', handle e r = Some r' -> covered_run es r'
  end.

(** A node with smoothing, without controls and predictions in advance. *)
Definition smoothing r : Prop := smooth_lagged_data_ r = true /\ predict_to_current_time_ r = false /\ rf_use_control_ r = false.

Lemma same_smoothing r r' : same_node r r' -> smoothing r -> smoothing r'.
Proof. unfold same_node, smoothing. intros. destruct_and?. split_and!; congruence. Qed.

Lemma settled_use_control f0 past r : fresh_filter f0 -> use_control_ (base f0) = false -> consistent f0 past false r -> settled f0 past r -> use_control_ (base (filter_ r)) = false.
Proof using FL.
  intros H0 Hu Hc (f & E & Hs). destruct (same_core _ _ Hs) as [Hp _]. rewrite (p_use_control _ _ (params_base _ _ Hp)).
  destruct (run_ok f0 past H0 (c_past _ _ _ _ Hc) (c_order _ _ _ _ Hc)) as (f' & E' & _ & Hor). rewrite E in E'. injection E' as <-.
  destruct Hor as [[_ ->]|(_ & Hp' & _)]; [done|]. rewrite <- (p_use_control _ _ (params_base _ _ Hp')), base_with_base. done.
Qed.

Lemma handle_all_consistent f0 es : fresh_filter f0 -> use_control_ (base f0) = false -> Forall event_ok es -> forall past r,
  consistent f0 past false r -> settled f0 past r -> smoothing r -> covered_run es r ->
  exists r' past', handle_all es r = Some r' /\ consistent f0 past' false r' /\ settled f0 past' r' /\
    past' ++ elements (measurement_queue_ r') ≡ₚ past ++ elements (measurement_queue_ r) ++ arrived (rf_latest_control_ r) (rf_latest_control_time_ r) es /\
    elements (measurement_queue_ r') ≡ₚ filter (fun m => integrated es (time_ m) = false) (elements (measurement_queue_ r)) ++ arrivals false (rf_latest_control_ r) (rf_latest_control_time_ r) es.
Proof using FL QL.
  intros H0 Hu. induction es as [|e es IH]; intros Hok past r Hc Hs Hsm Hcov.
  { exists r, past. split_and!; try done; rewrite app_nil_r; [done|]. induction (elements _) as [|m ms IHm]; [done|]. by rewrite filter_cons_True, <- IHm by done. }
  apply Forall_cons in Hok as [He Hok]. destruct Hcov as [Hcov Hrest]. cbn [handle_all]. destruct e as [m|v t|t|t]; cbn [handle event_ok arrived arrivals] in *.
  - mred. set (r1 := enqueueMeasurement _ _ _ _ _ r) in *. destruct (IH Hok past r1) as (r' & past' & E & Hc' & Hs' & Hp & Hw); [by apply enqueue_consistent|done|done|by apply Hrest|].
    exists r', past'. split_and!; try done; [rewrite Hp|rewrite Hw]; unfold r1, enqueueMeasurement, set_queue, update; cbn [measurement_queue_ rf_latest_control_ rf_latest_control_time_]; rewrite elements_emplace.
    + cbn [app]. by rewrite Permutation_middle.
    + destruct (integrated es (time_ m)) eqn:Ei; cbn [eqb]; [by rewrite filter_cons_False by (cbn [time_]; congruence)|]. rewrite filter_cons_True by done. cbn [app]. apply Permutation_middle.
  - mred. destruct (control_consistent f0 past r v t Hc Hs) as [Hc1 Hs1]; [by apply (settled_use_control f0 past)|done|].
    destruct (IH Hok past _ Hc1 Hs1) as (r' & past' & E & Hc' & Hs' & Hp & Hw); [done|by apply Hrest|]. by exists r', past'.
  - destruct Hsm as (Hsm & Hpn & Huc). destruct (integrate_consistent f0 past r t H0 Hc Hs Hsm Huc Hpn (Hcov t eq_refl)) as (r1 & past1 & E1 & Hc1 & Hs1 & Hn & Hp1 & Hw1).
    rewrite E1. mred. destruct (IH Hok past1 r1 Hc1 Hs1) as (r' & past' & E & Hc' & Hs' & Hp & Hw); [by apply (same_smoothing r)|by apply Hrest|].
    exists r', past'. destruct Hn as (_ & _ & _ & En1 & En2). rewrite En1, En2 in Hp, Hw. split_and!; try done; [by rewrite Hp, !app_assoc, Hp1|]. rewrite Hw, Hw1. apply Permutation_app_tail. unfold later.
    rewrite list_filter_filter. apply Permutation_refl', list_filter_iff. intros m. cbn [integrated existsb]. rewrite orb_false_iff, Z.leb_gt. tauto.
  - mred. destruct (IH Hok past (clearExpiredHistory t r)) as (r' & past' & E & Hc' & Hs' & Hp & Hw); [by apply clear_consistent|done|done|by apply Hrest|]. by exists r', past'.
Qed.

(** A node that has received nothing. *)
Record idle_node r : Prop := {
  idle_filter : fresh_filter (filter_ r);
  idle_queue : elements (measurement_queue_ r) = [];
  idle_history : measurement_history_ r = [] /\ filter_state_history_ r = [];
  idle_smoothing : smoothing r;
  idle_control : use_control_ (base (filter_ r)) = false;
}.

Lemma idle_consistent r : idle_node r -> consistent (filter_ r) [] false r /\ settled (filter_ r) [] r.
Proof using FL.
  intros [[] Hq [Hm Hs] _ _]. assert (Hset : settled (filter_ r) [] r) by (by exists (filter_ r)). split; [|done]. split; try done; rewrite ?Hs, ?Hq; try done.
  - constructor.
  - constructor.
  - intros l1 s l2 E. by destruct l1.
  - exists []. rewrite Hm. split; [done|]. intros s m _ Hin. by apply not_elem_of_nil in Hin.
  - intros s m Hin. by apply not_elem_of_nil in Hin.
  - intros s Hin. by apply not_elem_of_nil in Hin.
  - by apply settled_estimate.
Qed.

(** C5. Lagged measurements are integrated as if they had come in time, with
    smooth_lagged_data on, without controls and predictions in advance, while
    the history covers them. After any run, with measurements in any order, the
    filter is what the measurements that were due at an integration since their
    arrival make of the initial one, in the order of their times; and exactly
    those that were not wait in the queue. *)
Theorem lagged_data_in_order r0 es : idle_node r0 -> Forall event_ok es -> covered_run es r0 ->
  let control := rf_latest_control_ r0 in let stamp := rf_latest_control_time_ r0 in
  exists r past f, handle_all es r0 = Some r /\ in_order past /\
    past ≡ₚ arrivals true control stamp es /\ elements (measurement_queue_ r) ≡ₚ arrivals false control stamp es /\
    run past (filter_ r0) = Some f /\ same_filter (filter_ r) f.
Proof using FL QL.
  intros Hr Hok Hcov control stamp. destruct (idle_consistent r0 Hr) as [Hc Hs]. destruct Hr as [Hf Hq _ Hsm Hu].
  destruct (handle_all_consistent (filter_ r0) es Hf Hu Hok [] r0 Hc Hs Hsm Hcov) as (r & past & E & Hc' & (f & Ef & Hsf) & Hp & Hw). exists r, past, f.
  rewrite Hq in Hp, Hw. cbn [app] in Hp. rewrite filter_nil in Hw. cbn [app] in Hw. split_and!; try done; [by apply (c_order _ _ _ _ Hc')|].
  rewrite Hw, arrived_split in Hp. by apply Permutation_app_inv_r in Hp.
Qed.

(** C20. The order in which measurements arrive does not matter: two runs that
    integrate the same measurements, of distinct times, end with the same
    estimate. *)
Theorem arrival_order_irrelevant r0 es es' r r' : idle_node r0 -> Forall event_ok es -> Forall event_ok es' -> covered_run es r0 -> covered_run es' r0 ->
  handle_all es r0 = Some r -> handle_all es' r0 = Some r' -> elements (measurement_queue_ r) = [] -> elements (measurement_queue_ r') = [] ->
  let control := rf_latest_control_ r0 in let stamp := rf_latest_control_time_ r0 in
  arrived control stamp es ≡ₚ arrived control stamp es' -> NoDup (time_ <$> arrived control stamp es) ->
  same_filter (filter_ r) (filter_ r') /\ estimate (base (filter_ r)) = estimate (base (filter_ r')).
Proof using FL QL.
  intros Hr Hok Hok' Hcov Hcov' E E' Hq Hq' control stamp Hp Hn. destruct (idle_consistent r0 Hr) as [Hc Hs]. destruct Hr as [Hf Hq0 _ Hsm Hu].
  destruct (handle_all_consistent (filter_ r0) es Hf Hu Hok [] r0 Hc Hs Hsm Hcov) as (r1 & past & E1 & Hc1 & (f & Ef & Hsf) & Hp1 & _).
  destruct (handle_all_consistent (filter_ r0) es' Hf Hu Hok' [] r0 Hc Hs Hsm Hcov') as (r2 & past' & E2 & Hc2 & (f' & Ef' & Hsf') & Hp2 & _).
  rewrite E in E1. injection E1 as <-. rewrite E' in E2. injection E2 as <-. rewrite Hq, app_nil_r, Hq0 in Hp1. rewrite Hq', app_nil_r, Hq0 in Hp2. cbn [app] in Hp1, Hp2.
  assert (past = past') as <-.
  { apply in_order_unique; [by apply (c_order _ _ _ _ Hc1)|by apply (c_order _ _ _ _ Hc2)|by rewrite Hp1, Hp2|]. by rewrite Hp1. }
  rewrite Ef in Ef'. injection Ef' as <-. assert (Hss : same_filter (filter_ r) (filter_ r')) by (by transitivity f). split; [done|]. by apply same_core.
Qed.

(** [covered_run] by evaluation. *)
Definition check_covered (now : Z) r : bool :=
  match pop (measurement_queue_ r) with
  | Some (m, _) => negb (initialized_ (base (filter_ r))) || (last_time r <=? time_ m) || (last_time r <=? now) && existsb (fun s => fs_last_measurement_time_ s <? time_ m) (filter_state_history_ r)
  | None => negb (initialized_ (base (filter_ r))) || (now - last_time r <? sensor_timeout_ (base (filter_ r)))
  end.

Fixpoint check_run (es : list Event) r : bool :=
  match es with
  | [] => true
  | e :: es => match e with Integrate t => check_covered t r | _ => true end && match handle e r with Some r' => check_run es r' | None => true end
  end.

Lemma check_covered_ok now r : check_covered now r = true -> covered now r.
Proof.
  unfold check_covered, covered. destruct (pop _) as [[m q]|].
  - intros Hc Hi. rewrite Hi in Hc. cbn [negb orb] in Hc. apply orb_true_iff in Hc as [Hc|Hc]; [left; by apply Z.leb_le|]. right. apply andb_true_iff in Hc as [Hn Hs].
    split; [by apply Z.leb_le|]. apply existsb_exists in Hs as (s & Hin & Hs). exists s. split; [by apply list_elem_of_In|by apply Z.ltb_lt].
  - intros Hc Hi. rewrite Hi in Hc. by apply Z.ltb_lt.
Qed.

Lemma check_run_ok es r : check_run es r = true -> covered_run es r.
Proof.
  revert r. induction es as [|e es IH]; intros r Hc; [done|]. cbn [check_run covered_run] in *. apply andb_true_iff in Hc as [Hc Hr]. split.
  - intros t ->. by apply check_covered_ok.
  - intros r' E. rewrite E in Hr. by apply IH.
Qed.

(** *** Limits *)

(** A reversion leaves the control of the filter, although it was saved with
    the state. *)
Lemma revertTo_keeps_control t r : control_of (base (filter_ (fst (revertTo t r)))) = control_of (base (filter_ r)).
Proof using FL.
  unfold revertTo. destruct (pop_states _ _ _) as [states last]. destruct states as [|s states]; [destruct last as [s|]; [|done]|];
    cbn [filter_ update set_base set_filter]; destruct (pop_measurements _ _ _ _) as [ms q]; cbn [fst filter_ update]; by rewrite base_with_base.
Qed.

(** With a measurement older than every state saved, the filter goes back to
    the oldest state, and the measurement that made it waits to be integrated
    into it once more. *)
Theorem short_history_repeats r s m t : filter_state_history_ r = [s] -> measurement_history_ r = [m] -> fs_last_measurement_time_ s = time_ m -> t <= time_ m ->
  let r' := fst (revertTo (t - 1) r) in
  snd (revertTo (t - 1) r) = false /\ estimate (base (filter_ r')) = fs_estimate s /\ elements (measurement_queue_ r') ≡ₚ m :: elements (measurement_queue_ r).
Proof using FL QL.
  intros Es Em Et Ht. unfold revertTo. rewrite Es. cbn [reverse rev_append pop_states]. rewrite (proj2 (Z.ltb_lt _ _)) by lia.
  cbn [filter_ update set_base set_filter measurement_history_ measurement_queue_ filter_state_history_]. rewrite Em. cbn [reverse rev_append pop_measurements].
  rewrite (proj2 (Z.ltb_lt _ _)), (proj2 (Z.leb_le _ _)) by lia. cbn [fst snd filter_ update measurement_queue_]. split; [done|]. split; [by rewrite base_with_base|]. apply elements_emplace.
Qed.
End proofs.
