(* ===== verification/Estimator.v ===== *)
(** The state estimator of robot_localization
    (robot_localization_estimator.cpp): a bounded buffer of states in the
    order of their stamps, from which a filter extrapolates to the time asked
    for. The buffer, a [boost::circular_buffer], is an interface. *)

From stdpp Require Import sorting.
From S2P Require Import Prelude Floats FilterBase.

(** ** Circular buffers *)

Class CircularBuffer (A : Type) := {
  buffer : Type;
  cb_empty : buffer;
  cb_elements : buffer -> list A;
  cb_capacity : buffer -> Z;
  cb_push_back : A -> buffer -> buffer;
  (** [cb_insert i] inserts before the element of index [i]. *)
  cb_insert : Z -> A -> buffer -> buffer;
  cb_set_capacity : Z -> buffer -> buffer;
  cb_clear : buffer -> buffer;
}.

(** A full buffer drops its first element for a new one; an element to be
    inserted before the first one of a full buffer is not inserted. *)
Class CircularBufferLaws {A} (B : CircularBuffer A) : Prop := {
  cb_empty_spec : cb_elements cb_empty = [] /\ cb_capacity cb_empty = 0;
  cb_size b : alen (cb_elements b) <= cb_capacity b;
  cb_push_back_spec x b : cb_capacity (cb_push_back x b) = cb_capacity b /\
    cb_elements (cb_push_back x b) =
      if bool_decide (alen (cb_elements b) < cb_capacity b) then cb_elements b ++ [x] else if bool_decide (0 < cb_capacity b) then tail (cb_elements b) ++ [x] else [];
  cb_insert_spec i x b : 0 <= i <= alen (cb_elements b) -> cb_capacity (cb_insert i x b) = cb_capacity b /\
    cb_elements (cb_insert i x b) =
      let l := take (Z.to_nat i) (cb_elements b) ++ x :: drop (Z.to_nat i) (cb_elements b) in
      if bool_decide (alen (cb_elements b) < cb_capacity b) then l else tail l;
  cb_set_capacity_spec n b : 0 <= n -> cb_capacity (cb_set_capacity n b) = n /\ cb_elements (cb_set_capacity n b) = take (Z.to_nat n) (cb_elements b);
  cb_clear_spec b : cb_capacity (cb_clear b) = cb_capacity b /\ cb_elements (cb_clear b) = [];
}.

(** Conversions of the client library: [Duration::from_seconds]. *)
Class RclcppDuration := { from_seconds : spec_float -> Z }.

(** ** The code *)

Record EstimatorState := mkEstimatorState { time_stamp : spec_float; es_state : list spec_float; es_covariance : Mat }.

Inductive EstimatorResult := ExtrapolationIntoFuture | Interpolation | ExtrapolationIntoPast | Exact | EmptyBuffer | Failed.

Section estimator.
Context {F : Type} `{Filter F} `{CB : CircularBuffer EstimatorState} `{RclcppDuration}.

Record Estimator := mkEstimator { state_buffer_ : buffer; est_filter_ : F }.

(** The constructor, given the filter of the type asked for: none for a type
    that is not defined, and the null pointer is then dereferenced. *)
Definition makeEstimator (buffer_capacity : Z) (filter : option F) (process_noise_covariance : Mat) : option Estimator :=
  f ← filter;
  Some (mkEstimator (cb_set_capacity buffer_capacity cb_empty) (with_base f (setProcessNoiseCovariance (base f) process_noise_covariance))).

Definition set_buffer (e : Estimator) (b : buffer) : Estimator := mkEstimator b (est_filter_ e).

(** The position before which the loop of [setState] inserts. *)
Fixpoint insert_position (stamp : spec_float) (i : Z) (l : list EstimatorState) : option Z :=
  match l with [] => None | s :: l => if flt stamp (time_stamp s) then Some i else insert_position stamp (i + 1) l end.

Definition est_setState (s : EstimatorState) (e : Estimator) : Estimator :=
  let l := cb_elements (state_buffer_ e) in
  if match last l with None => true | Some s' => fgt (time_stamp s) (time_stamp s') end then set_buffer e (cb_push_back s (state_buffer_ e))
  else match insert_position (time_stamp s) 0 l with Some i => set_buffer e (cb_insert i s (state_buffer_ e)) | None => e end.

(** [rclcpp::Time] of a number of nanoseconds: the conversion to 64 bits. *)
Definition f_to_s64 (x : spec_float) : option Z := z ← f_trunc x; if (- 2 ^ 63 <=? z) && (z <? 2 ^ 63) then Some z else None.

Definition extrapolate (boundary_state : EstimatorState) (requested_time : spec_float) (f : F) : option (F * EstimatorState) :=
  let f := with_base f (setEstimateErrorCovariance (setState (base f) (es_state boundary_state)) (es_covariance boundary_state)) in
  let delta := fsub requested_time (time_stamp boundary_state) in
  stamp ← f_to_s64 (fmul (time_stamp boundary_state) (f_of_Z 1000000000));
  f ← predict stamp (from_seconds delta) f;
  Some (f, mkEstimatorState requested_time (state_ (base f)) (estimate_error_covariance_ (base f))).

Definition interpolate (given_state_1 given_state_2 : EstimatorState) (requested_time : spec_float) (f : F) : option (F * EstimatorState) :=
  extrapolate given_state_1 requested_time f.

(** The loop of [getState], from the newest state: the one of that time, or
    the last one before it and the next one after it. *)
Inductive Scan := ScanExact (s : EstimatorState) | ScanBounds (last_before next_after : option EstimatorState).
Fixpoint scan_states (time : spec_float) (l : list EstimatorState) (next : option EstimatorState) : Scan :=
  match l with
  | [] => ScanBounds None next
  | s :: l => if feq (time_stamp s) time then ScanExact s else if fle (time_stamp s) time then ScanBounds (Some s) next else scan_states time l (Some s)
  end.

(** [getState]; [state] is the argument it overwrites. *)
Definition getState (time : spec_float) (state : EstimatorState) (e : Estimator) : option (EstimatorResult * EstimatorState * Estimator) :=
  let l := cb_elements (state_buffer_ e) in
  match last l with
  | None => Some (EmptyBuffer, state, e)
  | Some newest =>
      let with_filter result f := Some (result, snd f, mkEstimator (state_buffer_ e) (fst f)) in
      match scan_states time (reverse l) None with
      | ScanExact s => Some (Exact, s, e)
      | ScanBounds (Some p) (Some n) => r ← interpolate p n time (est_filter_ e); with_filter Interpolation r
      | ScanBounds (Some p) None => r ← extrapolate p time (est_filter_ e); with_filter ExtrapolationIntoFuture r
      | ScanBounds None (Some n) => r ← extrapolate n time (est_filter_ e); with_filter ExtrapolationIntoPast r
      | ScanBounds None None => Some (Failed, newest, e)
      end
  end.

Definition setBufferCapacity (capacity : Z) (e : Estimator) : Estimator := set_buffer e (cb_set_capacity capacity (state_buffer_ e)).
Definition clearBuffer (e : Estimator) : Estimator := set_buffer e (cb_clear (state_buffer_ e)).
Definition getBufferCapacity (e : Estimator) : Z := cb_capacity (state_buffer_ e).
Definition getSize (e : Estimator) : Z := alen (cb_elements (state_buffer_ e)).
End estimator.
#[global] Arguments Estimator F {CB}.

(** ** The order of the buffer *)

Definition not_after (a b : EstimatorState) : Prop := fle (time_stamp a) (time_stamp b) = true.
Definition stamped (s : EstimatorState) : Prop := is_nan (time_stamp s) = false.
Definition in_stamp_order (l : list EstimatorState) : Prop := StronglySorted not_after l /\ Forall stamped l.

Lemma fle_neq_lt x y : fle x y = true -> feq x y = false -> flt x y = true.
Proof. unfold fle, feq, flt, SFleb, SFeqb, SFltb. by destruct (SFcompare x y) as [[]|]. Qed.

Lemma not_after_trans a b c : not_after a b -> not_after b c -> not_after a c.
Proof. intros Hab Hbc. pose proof (fle_not_nan _ _ Hab) as [? ?]. pose proof (fle_not_nan _ _ Hbc) as [_ ?]. by apply (fle_trans _ (time_stamp b)). Qed.

Lemma StronglySorted_snoc {A} (R : A -> A -> Prop) l x : StronglySorted R l -> (forall y, y ∈ l -> R y x) -> StronglySorted R (l ++ [x]).
Proof.
  intros Hs Hx. induction Hs as [|y l Hs IH Hy]; [repeat constructor|]. cbn. constructor; [apply IH; intros z Hz; apply Hx; by right|].
  apply Forall_app. split; [done|]. constructor; [apply Hx; by left|constructor].
Qed.

Lemma sorted_last l s : in_stamp_order l -> last l = Some s -> forall y, y ∈ l -> not_after y s.
Proof.
  intros [Hs Hf] E y Hy. apply last_Some in E as [l' ->]. apply elem_of_app in Hy as [Hy|Hy%list_elem_of_singleton].
  - clear Hf. induction l' as [|z l' IH]; [by apply not_elem_of_nil in Hy|]. cbn in Hs. apply StronglySorted_inv in Hs as [Hs Hz].
    apply elem_of_cons in Hy as [->|Hy]; [|by apply IH]. apply Forall_app in Hz as [_ Hz]. by apply Forall_cons in Hz as [Hz _].
  - subst. apply fle_refl. apply Forall_app in Hf as [_ Hf]. by apply Forall_cons in Hf as [Hf _].
Qed.

Lemma insert_position_spec s l : Forall stamped l -> stamped s -> forall i, match insert_position (time_stamp s) i l with
  | Some k => exists l1 x l2, l = l1 ++ x :: l2 /\ k = i + alen l1 /\ flt (time_stamp s) (time_stamp x) = true /\ Forall (fun y => not_after y s) l1
  | None => Forall (fun y => not_after y s) l end.
Proof.
  intros Hf Hs. induction Hf as [|y l Hy Hf IH]; intros i; cbn [insert_position]; [constructor|]. destruct (flt _ _) eqn:E.
  - exists [], y, l. split; [done|]. split; [unfold alen; cbn; lia|]. split; [done|constructor].
  - assert (Hys : not_after y s) by (unfold not_after; by rewrite fle_flt, E). specialize (IH (i + 1)). destruct (insert_position _ (i + 1) l) as [k|]; [|by constructor].
    destruct IH as (l1 & x & l2 & -> & -> & Hx & Hl). exists (y :: l1), x, l2. split; [done|]. split; [unfold alen; cbn [length]; lia|]. split; [done|by constructor].
Qed.

Lemma sorted_insert s l1 x l2 : in_stamp_order (l1 ++ x :: l2) -> stamped s -> flt (time_stamp s) (time_stamp x) = true -> Forall (fun y => not_after y s) l1 -> in_stamp_order (l1 ++ s :: x :: l2).
Proof.
  intros [Hs Hf] Hn Hx Hl1. split; [|apply Forall_app in Hf as [? ?]; apply Forall_app; split; [done|by constructor]]. clear Hf Hn.
  induction l1 as [|y l1 IH]; cbn in *.
  - apply StronglySorted_inv in Hs as [Hs Hxl]. constructor; [by constructor|]. assert (Hsx : not_after s x) by (by apply flt_le). constructor; [done|].
    eapply Forall_impl; [exact Hxl|]. intros z Hz. by apply (not_after_trans s x).
  - apply StronglySorted_inv in Hs as [Hs Hy]. apply Forall_cons in Hl1 as [Hys Hl1]. constructor; [by apply IH|]. apply Forall_app in Hy as [? ?]. apply Forall_app. split; [done|by constructor].
Qed.

Section order.
Context {F : Type} `{FL : FilterLaws F} `{CL : CircularBufferLaws EstimatorState}.
Implicit Types e : Estimator F.

(** C21. A state that is not stamped as the newest one takes its place among the
    states, and the oldest one leaves a full buffer. *)
Theorem setState_keeps_order s e : let l := cb_elements (state_buffer_ e) in let l' := cb_elements (state_buffer_ (est_setState s e)) in
  in_stamp_order l -> stamped s -> (forall newest, last l = Some newest -> feq (time_stamp newest) (time_stamp s) = false) ->
  getBufferCapacity (est_setState s e) = getBufferCapacity e /\
  exists full, in_stamp_order full /\ full ≡ₚ s :: l /\ l' = if bool_decide (getSize e < getBufferCapacity e) then full else tail full.
Proof using CL.
  intros l l' Hl Hs Hnew. unfold l' in *. clear l'. unfold getBufferCapacity, getSize, est_setState. fold l. destruct (last l) as [newest|] eqn:El.
  - destruct (fgt (time_stamp s) (time_stamp newest)) eqn:Eg; cbn [state_buffer_ set_buffer].
    + destruct (cb_push_back_spec s (state_buffer_ e)) as [-> ->]. fold l. split; [done|]. exists (l ++ [s]). split; [|split; [symmetry; apply Permutation_cons_append|]].
      * destruct Hl as [Hsort Hf]. split; [|apply Forall_app; split; [done|by constructor]]. apply StronglySorted_snoc; [done|]. intros y Hy.
        apply (not_after_trans y newest); [by apply (sorted_last l)|by apply flt_le].
      * fold l. destruct (bool_decide (alen l < _)); [done|]. assert (Hne : l <> []) by (by intros ->). pose proof (cb_size (state_buffer_ e)) as Hz. fold l in Hz.
        assert (0 < alen l) by (destruct l; [done|unfold alen; cbn; lia]). rewrite bool_decide_eq_true_2 by lia. by destruct l.
    + pose proof (insert_position_spec s l (proj2 Hl) Hs 0) as Hp. destruct (insert_position _ 0 l) as [k|].
      * destruct Hp as (l1 & x & l2 & E & -> & Hx & Hl1). cbn [state_buffer_ set_buffer].
        destruct (cb_insert_spec (0 + alen l1) s (state_buffer_ e)) as [-> ->]; [fold l; rewrite E; unfold alen; rewrite length_app; cbn [length]; lia|]. fold l. split; [done|].
        exists (l1 ++ s :: x :: l2). split; [apply sorted_insert; [by rewrite <- E|done..]|]. rewrite E. split; [by rewrite <- Permutation_middle|].
        replace (Z.to_nat (0 + alen l1)) with (length l1) by (unfold alen; lia). by rewrite take_app_length, drop_app_length.
      * exfalso. specialize (Hnew newest eq_refl). assert (Hin : newest ∈ l) by (apply last_Some in El as [? ->]; set_solver).
        pose proof (proj1 (Forall_forall _ _) Hp newest Hin) as Hle. pose proof (proj1 (Forall_forall _ _) (proj2 Hl) newest Hin) as Hsn.
        assert (Hge : fle (time_stamp s) (time_stamp newest) = true) by (rewrite fle_flt by done; unfold fgt, flt in *; by rewrite Eg).
        rewrite (fle_antisym _ _ Hle Hge) in Hnew. done.
  - apply last_None in El. cbn [state_buffer_ set_buffer]. destruct (cb_push_back_spec s (state_buffer_ e)) as [-> ->]. fold l. split; [done|]. exists [s]. rewrite El.
    split; [split; [repeat constructor|by constructor]|]. split; [done|]. unfold alen. cbn [length]. destruct (bool_decide (Z.of_nat 0 < _)) eqn:E; [done|].
    apply bool_decide_eq_false in E. by rewrite bool_decide_eq_false_2 by lia.
Qed.

End order.

(** *** Lookups *)

Section lookups.
Context {F : Type} `{FL : FilterLaws F} `{CB : CircularBuffer EstimatorState} `{RD : RclcppDuration}.
Implicit Types e : Estimator F.

Lemma scan_states_spec time l : Forall stamped l -> is_nan time = false -> forall next, match scan_states time (reverse l) next with
  | ScanExact s => s ∈ l /\ feq (time_stamp s) time = true
  | ScanBounds (Some p) n => exists l1 l2, l = l1 ++ p :: l2 /\ flt (time_stamp p) time = true /\ Forall (fun s => flt time (time_stamp s) = true) l2 /\
      n = match l2 with [] => next | s :: _ => Some s end
  | ScanBounds None n => Forall (fun s => flt time (time_stamp s) = true) l /\ n = match l with [] => next | s :: _ => Some s end
  end.
Proof.
  intros Hl Ht. induction l as [|s l IH] using rev_ind; intros next; [by split|]. rewrite reverse_snoc. cbn [scan_states]. apply Forall_app in Hl as [Hl Hs]. apply Forall_cons in Hs as [Hs _].
  destruct (feq _ time) eqn:Ee; [split; [set_solver|done]|]. destruct (fle _ time) eqn:El.
  - exists l, []. split; [done|]. split; [by apply fle_neq_lt|]. by split.
  - assert (Hlt : flt time (time_stamp s) = true) by (rewrite fle_flt in El by done; by apply negb_false_iff in El).
    specialize (IH Hl (Some s)). destruct (scan_states time (reverse l) (Some s)) as [x|[p|] n].
    + destruct IH as [Hx ?]. split; [set_solver|done].
    + destruct IH as (l1 & l2 & -> & Hp & H2 & ->). exists l1, (l2 ++ [s]). split; [by rewrite <- app_assoc|]. split; [done|]. split; [apply Forall_app; split; [done|by constructor]|].
      by destruct l2.
    + destruct IH as [Hf ->]. split; [apply Forall_app; split; [done|by constructor]|]. by destruct l.
Qed.

(** A state that the filter can start from. *)
Definition state_ok (s : EstimatorState) : Prop :=
  stamped s /\ alen (es_state s) = STATE_SIZE /\ mat_ok STATE_SIZE STATE_SIZE (es_covariance s) /\ is_Some (f_to_s64 (fmul (time_stamp s) (f_of_Z 1000000000))).

Lemma extrapolate_ok s time (f : F) : state_ok s -> filter_ok f -> exists f' st, extrapolate s time f = Some (f', st) /\ filter_ok f' /\ time_stamp st = time.
Proof using FL.
  intros (_ & Hl & HC & [t Et]) Hf. unfold extrapolate. rewrite Et. mred.
  match goal with |- context [predict t ?d ?g] => destruct (predict_ok t d g) as (f' & -> & Hf' & _) end.
  - apply ok_with_base; [done|]. apply setEstimateErrorCovariance_ok; [|done]. apply setState_ok; [by apply ok_base|done].
  - mred. eexists f', _. by split.
Qed.

(** What [getState] answers says where the time asked for lies among the
    stamps, and which state it started from; it never fails on a buffer that
    is not empty. *)
Theorem getState_answers time state e : let l := cb_elements (state_buffer_ e) in
  Forall state_ok l -> is_nan time = false -> filter_ok (est_filter_ e) ->
  exists result st e', getState time state e = Some (result, st, e') /\ state_buffer_ e' = state_buffer_ e /\ filter_ok (est_filter_ e') /\
    let from s := extrapolate s time (est_filter_ e) = Some (est_filter_ e', st) in
    match result with
    | EmptyBuffer => l = [] /\ st = state
    | Exact => st ∈ l /\ feq (time_stamp st) time = true
    | Interpolation => exists l1 p n l2, l = l1 ++ p :: n :: l2 /\ flt (time_stamp p) time = true /\ flt time (time_stamp n) = true /\ from p
    | ExtrapolationIntoFuture => exists l1 p, l = l1 ++ [p] /\ flt (time_stamp p) time = true /\ from p
    | ExtrapolationIntoPast => exists n l2, l = n :: l2 /\ Forall (fun s => flt time (time_stamp s) = true) l /\ from n
    | Failed => False
    end.
Proof using FL.
  intros l Hl Ht Hf. unfold getState. fold l. assert (Hst : Forall stamped l) by (eapply Forall_impl; [exact Hl|]; by intros s []).
  destruct (last l) as [newest|] eqn:El; [|apply last_None in El; by exists EmptyBuffer, state, e].
  assert (Hne : l <> []) by (by intros E; rewrite E in El). pose proof (scan_states_spec time l Hst Ht None) as Hs.
  assert (Hgo : forall s, s ∈ l -> exists f' st, extrapolate s time (est_filter_ e) = Some (f', st) /\ filter_ok f')
    by (intros s Hin; destruct (extrapolate_ok s time (est_filter_ e)) as (f' & st & ? & ? & _); [by apply (proj1 (Forall_forall _ _) Hl)|done|by exists f', st]).
  destruct (scan_states time (reverse l) None) as [s|[p|] n].
  - by exists Exact, s, e.
  - destruct Hs as (l1 & l2 & E & Hp & H2 & ->). destruct (Hgo p) as (f' & st & Ex & Hf'); [rewrite E; set_solver|]. destruct l2 as [|n l2].
    + rewrite Ex. mred. eexists ExtrapolationIntoFuture, st, _. split; [done|]. split; [done|]. split; [done|]. by exists l1, p.
    + apply Forall_cons in H2 as [Hn _]. unfold interpolate. rewrite Ex. mred. eexists Interpolation, st, _. split; [done|]. split; [done|]. split; [done|]. by exists l1, p, n, l2.
  - destruct Hs as [Ha ->]. destruct l as [|n l2] eqn:E; [done|]. destruct (Hgo n) as (f' & st & Ex & Hf'); [by left|]. rewrite Ex. mred.
    eexists ExtrapolationIntoPast, st, _. split; [done|]. split; [done|]. split; [done|]. by exists n, l2.
Qed.
End lookups.

(** ** A circular buffer over a list *)

Definition list_buffer {A} : CircularBuffer A := {|
  buffer := Z * list A;
  cb_empty := (0, []);
  cb_elements b := take (Z.to_nat (fst b)) (snd b);
  cb_capacity b := Z.max 0 (fst b);
  cb_push_back x b := let l := take (Z.to_nat (fst b)) (snd b) in (fst b, if bool_decide (alen l < fst b) then l ++ [x] else tail l ++ [x]);
  cb_insert i x b := let l := take (Z.to_nat (fst b)) (snd b) in let l' := take (Z.to_nat i) l ++ x :: drop (Z.to_nat i) l in
    (fst b, if bool_decide (alen l < fst b) then l' else tail l');
  cb_set_capacity n b := (n, take (Z.to_nat (fst b)) (snd b));
  cb_clear b := (fst b, []);
|}.

Lemma list_buffer_ok {A} : CircularBufferLaws (@list_buffer A).
Proof.
  split; cbn.
  - done.
  - intros [n l]. cbn. unfold alen. rewrite length_take. lia.
  - intros x [n l]. cbn [fst snd]. split; [done|]. set (k := take (Z.to_nat n) l). assert (Hk : alen k <= Z.max 0 n) by (unfold k, alen; rewrite length_take; lia).
    pose proof (alen_nonneg k) as Hk0. destruct (decide (alen k < n)) as [Hlt|Hge].
    + rewrite (bool_decide_eq_true_2 (alen k < n)), (bool_decide_eq_true_2 (alen k < Z.max 0 n)) by lia. apply take_ge. unfold alen in Hlt. rewrite length_app. cbn. lia.
    + rewrite (bool_decide_eq_false_2 (alen k < n)), (bool_decide_eq_false_2 (alen k < Z.max 0 n)) by lia. destruct (decide (0 < n)) as [Hn|Hn].
      * rewrite bool_decide_eq_true_2 by lia. apply take_ge. rewrite length_app, length_tl. unfold alen in *. cbn [length]. clearbody k. lia.
      * rewrite bool_decide_eq_false_2 by lia. by replace (Z.to_nat n) with O by lia.
  - intros i x [n l]. cbn [fst snd]. set (k := take (Z.to_nat n) l). intros Hi. split; [done|]. assert (Hk : alen k <= Z.max 0 n) by (unfold k, alen; rewrite length_take; lia).
    assert (Hl : length (take (Z.to_nat i) k ++ x :: drop (Z.to_nat i) k) = Datatypes.S (length k)) by (rewrite length_app, length_take; cbn [length]; rewrite length_drop; unfold alen in *; lia).
    pose proof (alen_nonneg k) as Hk0. destruct (decide (alen k < n)) as [Hlt|Hge].
    + rewrite (bool_decide_eq_true_2 (alen k < n)), (bool_decide_eq_true_2 (alen k < Z.max 0 n)) by lia. apply take_ge. rewrite Hl. unfold alen in *. lia.
    + rewrite (bool_decide_eq_false_2 (alen k < n)), (bool_decide_eq_false_2 (alen k < Z.max 0 n)) by lia. apply take_ge. assert (Ht : length (tail (take (Z.to_nat i) k ++ x :: drop (Z.to_nat i) k)) = length k) by (rewrite length_tl, Hl; lia).
      rewrite Ht. unfold alen in *. lia.
  - intros n [c l] Hn. cbn [fst snd]. split; [lia|done].
  - intros [n l]. cbn. split; [done|by rewrite take_nil].
Qed.
