(* ===== verification/FilterNodes.v ===== *)
(** The node of RosFilter.v with the extended filter (ekf_node.cpp), run on
    concrete measurements with a plain arithmetic of matrices in the place of
    Eigen. *)

From S2P Require Import Prelude Floats PriorityQueue FilterBase Ekf Ukf RosFilter Estimator.

(** ** Plain matrices *)

Definition coefficient (M : Mat) (i j : Z) : spec_float := default f_zero (mget M i j).
Definition mbuild (n m : Z) (f : Z -> Z -> spec_float) : Mat := mkMat n m ((fun k => f (k / m) (k mod m)) <$> seqZ 0 (n * m)).
Definition plain_dot (u v : list spec_float) : spec_float := foldl fadd f_zero (zip_with fmul u v).
Definition mrow (M : Mat) (i : Z) : list spec_float := coefficient M i <$> seqZ 0 (cols M).
Definition mcolumn (M : Mat) (j : Z) : list spec_float := (fun i => coefficient M i j) <$> seqZ 0 (rows M).

Definition plain_mul (A B : Mat) : Mat :=
  let columns := mcolumn B <$> seqZ 0 (cols B) in
  mkMat (rows A) (cols B) ((mrow A <$> seqZ 0 (rows A)) ≫= fun r => plain_dot r <$> columns).
Definition plain_vec (A : Mat) (v : list spec_float) : list spec_float := (fun i => plain_dot (mrow A i) v) <$> seqZ 0 (rows A).
Definition plain_map2 (f : spec_float -> spec_float -> spec_float) (A B : Mat) : Mat := mbuild (rows A) (cols A) (fun i j => f (coefficient A i j) (coefficient B i j)).

(** The inverse of the diagonal, and the root of the diagonal. *)
Definition plain_diagonal (f : spec_float -> spec_float) (A : Mat) : Mat := mbuild (rows A) (cols A) (fun i j => if i =? j then f (coefficient A i i) else f_zero).

#[export] Instance plain_eigen : Eigen := {|
  mat_mul := plain_mul;
  mat_vec := plain_vec;
  mat_mul_add M A B := plain_map2 fadd M (plain_mul A B);
  mat_mul_sub M A B := plain_map2 fsub M (plain_mul A B);
  mat_vec_add u A v := vadd u (plain_vec A v);
  transpose A := mbuild (cols A) (rows A) (fun i j => coefficient A j i);
  inverse := plain_diagonal (fdiv f_one);
  llt_matrixL := plain_diagonal fsqrt;
  dot := plain_dot;
  norm u := fsqrt (plain_dot u u);
  outer_add M w u v := mkMat (rows M) (cols M) (zip_with fadd (coeffs M) (u ≫= fun x => (fun y => fmul (fmul w x) y) <$> v));
|}.

Lemma mbuild_ok n m f : 0 <= n -> 0 <= m -> mat_ok n m (mbuild n m f).
Proof. intros Hn Hm. split_and!; try done. unfold mbuild, alen. cbn [coeffs]. rewrite length_fmap, length_seqZ. nia. Qed.

Lemma length_product {A B C} (f : A -> B -> C) (l : list A) (l' : list B) : length (l ≫= fun a => f a <$> l') = (length l * length l')%nat.
Proof. induction l as [|a l IH]; [done|]. cbn. by rewrite length_app, length_fmap, IH. Qed.

#[export] Instance plain_eigen_laws : EigenLaws.
Proof.
  assert (Hmul : forall n m p A B, mat_ok n m A -> mat_ok m p B -> mat_ok n p (plain_mul A B)).
  { intros n m p A B (<- & _ & Hn & _) (_ & <- & _ & Hp & _). split_and!; try done. unfold plain_mul, alen. cbn [coeffs].
    rewrite length_product, !length_fmap, !length_seqZ. nia. }
  assert (Hvec : forall n m A v, mat_ok n m A -> alen v = m -> alen (plain_vec A v) = n).
  { intros n m A v (<- & _ & Hn & _) _. unfold plain_vec, alen. rewrite length_fmap, length_seqZ. lia. }
  split; cbn [mat_mul mat_vec mat_mul_add mat_mul_sub mat_vec_add transpose inverse llt_matrixL outer_add plain_eigen]; try done.
  - intros n m p M A B (<- & <- & Hn & Hp & _) _ _. by apply mbuild_ok.
  - intros n m p M A B (<- & <- & Hn & Hp & _) _ _. by apply mbuild_ok.
  - intros n m u A v Hu HA Hv. apply vadd_len; [done|by apply (Hvec n m)].
  - intros n m A (<- & <- & Hn & Hm & _). by apply mbuild_ok.
  - intros n A (Hr & Hc & Hn & Hm & _). unfold plain_diagonal. rewrite Hr, Hc. by apply mbuild_ok.
  - intros n A (Hr & Hc & Hn & Hm & _). unfold plain_diagonal. rewrite Hr, Hc. by apply mbuild_ok.
  - intros n m M w u v (Hr & Hc & Hn & Hm & HM) <- <-. split_and!; try done. unfold alen in *. cbn [coeffs]. rewrite length_zip_with, length_product. lia.
Qed.

(** Small angles. *)
#[export] Instance plain_trigonometry : Trigonometry := {|
  c_sin x := x;
  c_cos _ := f_one;
  c_atan2 y _ := y;
  normalize_angle x := x;
|}.

(** ** A node *)

#[export] Instance measurement_queue : PriorityQueue Measurement := list_queue measurement_less.

#[export] Instance measurement_queue_laws : PriorityQueueLaws measurement_queue measurement_less (fun _ => True).
Proof.
  apply list_queue_ok; unfold measurement_less.
  - intros a b _ _ Hab. apply Z.ltb_lt in Hab. apply Z.ltb_ge. lia.
  - intros a b c _ _ _ Hab Hbc. apply Z.ltb_ge in Hab, Hbc. apply Z.ltb_ge. lia.
Qed.

Definition six (x : spec_float) : list spec_float := anew TWIST_SIZE x.

Definition sample_filter : FilterBase :=
  mkFilterBase false false false 0 0 0 100 (six f_one) (six f_one) (six f_one) (six f_one) (anew TWIST_SIZE false) (six f_zero) (six f_zero)
    (vzero STATE_SIZE) (vzero STATE_SIZE) (midentity STATE_SIZE) (midentity STATE_SIZE) (midentity STATE_SIZE) (midentity STATE_SIZE) (midentity STATE_SIZE) (mzero STATE_SIZE STATE_SIZE).

Definition sample_node : RosFilter FilterBase :=
  mkRosFilter sample_filter (queue_empty : queue) [] [] true false false 1000 (six f_zero) 0 0 100 (midentity STATE_SIZE) (midentity STATE_SIZE) true true.

(** A position on the first axis. *)
Definition position_at (t x : Z) : Measurement :=
  mkMeasurement t (f_of_Z 1000) 0 (true :: anew 14 false) (six f_zero) (f_of_Z x :: vzero 14) (midentity STATE_SIZE).

Lemma sample_idle : idle_node sample_node.
Proof. split; [|done..]. split; [|done..]. by split. Qed.

Lemma position_ok t x : measurement_ok (position_at t x).
Proof. by split_and!. Qed.

(** The measurement of time 20 comes last, and in time. *)
Definition late_run : list Event := [Enqueue (position_at 10 1); Integrate 15; Enqueue (position_at 30 3); Integrate 35; Enqueue (position_at 20 2); Integrate 40].
Definition timely_run : list Event := [Enqueue (position_at 10 1); Integrate 15; Enqueue (position_at 20 2); Integrate 25; Enqueue (position_at 30 3); Integrate 40].

(** The measurement of time 50 waits. *)
Lemma lagged_data_in_order_witness : exists r past f, handle_all (late_run ++ [Enqueue (position_at 50 4)]) sample_node = Some r /\ in_order past /\
  past ≡ₚ [position_at 10 1; position_at 30 3; position_at 20 2] /\ elements (measurement_queue_ r) ≡ₚ [position_at 50 4] /\
  run past sample_filter = Some f /\ same_filter (filter_ r) f.
Proof.
  apply (lagged_data_in_order sample_node (late_run ++ [Enqueue (position_at 50 4)])).
  - exact sample_idle.
  - repeat constructor; try done; apply position_ok.
  - apply check_run_ok. vm_compute. reflexivity.
Defined.

(** A run whose measurements are all integrated. *)
Definition emptied (es : list Event) : bool := match handle_all es sample_node with Some r => match elements (measurement_queue_ r) with [] => true | _ => false end | None => false end.

Lemma emptied_run es : emptied es = true -> exists r, handle_all es sample_node = Some r /\ elements (measurement_queue_ r) = [].
Proof. unfold emptied. destruct (handle_all es sample_node) as [r|]; [|done]. destruct (elements _) eqn:E; [|done]. intros _. by exists r. Qed.

Lemma arrival_order_irrelevant_witness : exists r r', handle_all late_run sample_node = Some r /\ handle_all timely_run sample_node = Some r' /\
  estimate (base (filter_ r)) = estimate (base (filter_ r')).
Proof.
  destruct (emptied_run late_run) as (r & E & Hq); [vm_compute; reflexivity|]. destruct (emptied_run timely_run) as (r' & E' & Hq'); [vm_compute; reflexivity|].
  exists r, r'. split; [exact E|]. split; [exact E'|].
  apply (arrival_order_irrelevant sample_node late_run timely_run r r').
  - exact sample_idle.
  - repeat constructor; try done; apply position_ok.
  - repeat constructor; try done; apply position_ok.
  - apply check_run_ok. vm_compute. reflexivity.
  - apply check_run_ok. vm_compute. reflexivity.
  - exact E.
  - exact E'.
  - exact Hq.
  - exact Hq'.
  - apply perm_skip, perm_swap.
  - apply (bool_decide_eq_true_1 (NoDup [10; 30; 20])). vm_compute. reflexivity.
Defined.

(** A node whose history holds the measurement of time 10 only. *)
Definition short_node : RosFilter FilterBase :=
  update sample_node sample_filter (queue_empty : queue) [position_at 10 1] [mkFilterState (vzero STATE_SIZE) (midentity STATE_SIZE) (six f_zero) 10 0].

Lemma short_history_repeats_witness : elements (measurement_queue_ (fst (revertTo 4 short_node))) ≡ₚ [position_at 10 1].
Proof.
  apply (short_history_repeats short_node (mkFilterState (vzero STATE_SIZE) (midentity STATE_SIZE) (six f_zero) 10 0) (position_at 10 1) 5); [reflexivity|reflexivity|reflexivity|cbn; lia].
Defined.

Lemma nonfinite_components_ignored_witness : ekf_correct (mkMeasurement 10 f_one 0 (anew 15 true) (six f_zero) (anew 15 S754_nan) (midentity 15)) sample_filter =
  ekf_correct (mkMeasurement 10 f_one 0 (anew 15 false) (six f_zero) (anew 15 S754_nan) (midentity 15)) sample_filter.
Proof. apply (nonfinite_components_ignored (mkMeasurement 10 f_one 0 (anew 15 true) (six f_zero) (anew 15 S754_nan) (midentity 15)) sample_filter). by split_and!. Defined.

(** Braking from 10 to 0, with the limits 1 to accelerate and 1/2 to brake. *)
Lemma computeControlAcceleration_bounded_witness :
  let a := computeControlAcceleration (f_of_Z 10) f_zero f_one f_one f_half f_one in fle (SFopp f_half) a = true /\ fle a f_half = true.
Proof.
  destruct (computeControlAcceleration_bounded (f_of_Z 10) f_zero f_one f_one f_half f_one) as (H & _); [vm_compute; reflexivity..|].
  destruct H as (H1 & H2 & _); [vm_compute; reflexivity|]. split; [exact H1|exact H2].
Defined.

(** ** An unscented filter *)

#[export] Instance plain_rclcpp : Rclcpp := {| seconds := toSec |}.

Definition sample_ukf : Ukf :=
  mkUkf sample_filter f_zero (anew sigma_count (vzero STATE_SIZE)) (mzero STATE_SIZE STATE_SIZE) (anew sigma_count f_one) (anew sigma_count f_one) true.

Lemma sample_ukf_ok : ukf_ok sample_ukf.
Proof. split; [by split|split; [done|repeat constructor]|done|done]. Qed.

Lemma ukf_ignores_control_witness : exists u1 u2, ukf_predict 10 5 sample_ukf = Some u1 /\
  ukf_predict 10 5 (set_ukf_base sample_ukf (setControl sample_filter (six f_one) 7)) = Some u2 /\ estimate (ukf_base u1) = estimate (ukf_base u2) /\ sigma_points_ u1 = sigma_points_ u2.
Proof. apply (ukf_ignores_control 10 5 sample_ukf (six f_one) 7); [exact sample_ukf_ok|reflexivity]. Defined.

Lemma yaw_wraps_first_axis_witness : exists sd', wrap_differences [StateMemberYaw] [f_one] (vzero STATE_SIZE) = Some ([normalize_angle f_one], sd') /\
  aget sd' StateMemberX = Some (normalize_angle f_zero) /\ (forall i, i <> StateMemberX -> aget sd' i = aget (vzero STATE_SIZE) i).
Proof. apply (yaw_wraps_first_axis f_one f_zero (vzero STATE_SIZE)); reflexivity. Defined.

(** The measurements of a node of either filter are integrated in the order of
    their times. *)
Definition sample_ukf_node : RosFilter Ukf :=
  mkRosFilter sample_ukf (queue_empty : queue) [] [] true false false 1000 (six f_zero) 0 0 100 (midentity STATE_SIZE) (midentity STATE_SIZE) true true.

Lemma sample_ukf_idle : idle_node sample_ukf_node.
Proof. split; [split; [exact sample_ukf_ok|done|done]|done..]. Qed.

(** ** An estimator *)

#[export] Instance sample_buffer : CircularBuffer EstimatorState := list_buffer.
#[export] Instance sample_buffer_laws : CircularBufferLaws sample_buffer := list_buffer_ok.
#[export] Instance plain_duration : RclcppDuration := {| from_seconds x := default 0 (f_trunc (fmul x (f_of_Z 1000000000))) |}.

Definition state_at (t : Z) : EstimatorState := mkEstimatorState (f_of_Z t) (vzero STATE_SIZE) (midentity STATE_SIZE).
Definition sample_estimator (n : Z) (ts : list Z) : Estimator FilterBase := mkEstimator ((n, state_at <$> ts) : buffer) sample_filter.

Lemma setState_keeps_order_witness : let e := sample_estimator 2 [1; 3] in exists full, in_stamp_order full /\ full ≡ₚ state_at 2 :: cb_elements (state_buffer_ e) /\
  cb_elements (state_buffer_ (est_setState (state_at 2) e)) = tail full.
Proof.
  destruct (setState_keeps_order (state_at 2) (sample_estimator 2 [1; 3])) as (_ & full & Hf & Hp & E).
  - split; [|by repeat constructor]. repeat constructor; vm_compute; reflexivity.
  - vm_compute. reflexivity.
  - intros newest E. injection E as <-. vm_compute. reflexivity.
  - exists full. split; [exact Hf|]. split; [exact Hp|]. exact E.
Defined.

Lemma getState_answers_witness : exists st e', getState (f_of_Z 2) (state_at 0) (sample_estimator 2 [1; 3]) = Some (Interpolation, st, e').
Proof.
  destruct (getState_answers (f_of_Z 2) (state_at 0) (sample_estimator 2 [1; 3])) as (result & st & e' & E & _ & _ & H').
  - repeat constructor; try done; vm_compute; eexists; reflexivity.
  - reflexivity.
  - exact (fresh_ok _ (idle_filter _ sample_idle)).
  - assert (Hr : result = Interpolation); [|exists st, e'; by rewrite <- Hr].
    assert (Ef : (fun r => fst (fst r)) <$> getState (f_of_Z 2) (state_at 0) (sample_estimator 2 [1; 3]) = Some Interpolation) by (vm_compute; reflexivity).
    rewrite E in Ef. by injection Ef.
Defined.
