(* ===== verification/NavFn.v ===== *)
(** The navigation function planner ([nav2_navfn_planner/navfn.cpp],
    [navfn.hpp]): costs, wave propagation from the goal by Dijkstra or A*, and
    descent of the potential from the start. *)

From S2P Require Import Prelude Floats Bresenham.

Definition COST_UNKNOWN_ROS : Z := 255.
Definition COST_OBS : Z := 254.
Definition COST_OBS_ROS : Z := 253.
Definition COST_NEUTRAL : Z := 50.
Definition PRIORITYBUFSIZE : Z := 10000.

(** A decimal literal [n / d], which the division rounds correctly. *)
Definition dlit (n d : Z) : spec_float := fdiv (f_of_Z n) (f_of_Z d).
Definition COST_FACTOR : spec_float := dlit 8 10.
Definition INVSQRT2 : spec_float := dlit 707106781 1000000000.
Definition POT_HIGH : spec_float := f_of_Z 10000000000.
(** The same value in the [float] array of potentials. *)
Definition POT_HIGH_f : spec_float := s_of_f POT_HIGH.

(** ** The object

    The three priority buffers are the lists of the cells pushed on them: the
    pointers [curP], [nextP] and [overP] with the counters [curPe], [nextPe]
    and [overPe]; what lies beyond a counter is never read. *)
Record NavFn := mkNavFn {
  nx : Z;
  ny : Z;
  ns : Z;
  costarr : list Z;
  potarr : list spec_float;
  pending : list bool;
  gradx : list spec_float;
  grady : list spec_float;
  nobs : Z;
  curP : list Z;
  nextP : list Z;
  overP : list Z;
  curT : spec_float;
  priInc : spec_float;
  goal : Z * Z;
  start : Z * Z;
  pathx : list spec_float;
  pathy : list spec_float;
  npath : Z;
  npathbuf : Z;
  last_path_cost_ : spec_float;
  pathStep : spec_float;
}.

(** Functional updates of the fields that change together. *)
Definition set_arrays (nav : NavFn) (cost : list Z) (pot gx gy : list spec_float) : NavFn :=
  mkNavFn (nx nav) (ny nav) (ns nav) cost pot (pending nav) gx gy (nobs nav) (curP nav) (nextP nav) (overP nav)
    (curT nav) (priInc nav) (goal nav) (start nav) (pathx nav) (pathy nav) (npath nav) (npathbuf nav)
    (last_path_cost_ nav) (pathStep nav).
Definition set_queues (nav : NavFn) (pend : list bool) (cur next over : list Z) : NavFn :=
  mkNavFn (nx nav) (ny nav) (ns nav) (costarr nav) (potarr nav) pend (gradx nav) (grady nav) (nobs nav)
    cur next over (curT nav) (priInc nav) (goal nav) (start nav) (pathx nav) (pathy nav) (npath nav)
    (npathbuf nav) (last_path_cost_ nav) (pathStep nav).
Definition set_curT (nav : NavFn) (t : spec_float) : NavFn :=
  mkNavFn (nx nav) (ny nav) (ns nav) (costarr nav) (potarr nav) (pending nav) (gradx nav) (grady nav) (nobs nav)
    (curP nav) (nextP nav) (overP nav) t (priInc nav) (goal nav) (start nav) (pathx nav) (pathy nav) (npath nav)
    (npathbuf nav) (last_path_cost_ nav) (pathStep nav).
Definition set_nobs (nav : NavFn) (n : Z) : NavFn :=
  mkNavFn (nx nav) (ny nav) (ns nav) (costarr nav) (potarr nav) (pending nav) (gradx nav) (grady nav) n
    (curP nav) (nextP nav) (overP nav) (curT nav) (priInc nav) (goal nav) (start nav) (pathx nav) (pathy nav)
    (npath nav) (npathbuf nav) (last_path_cost_ nav) (pathStep nav).
Definition set_ends (nav : NavFn) (g s : Z * Z) : NavFn :=
  mkNavFn (nx nav) (ny nav) (ns nav) (costarr nav) (potarr nav) (pending nav) (gradx nav) (grady nav) (nobs nav)
    (curP nav) (nextP nav) (overP nav) (curT nav) (priInc nav) g s (pathx nav) (pathy nav) (npath nav)
    (npathbuf nav) (last_path_cost_ nav) (pathStep nav).
Definition set_last_cost (nav : NavFn) (c : spec_float) : NavFn :=
  mkNavFn (nx nav) (ny nav) (ns nav) (costarr nav) (potarr nav) (pending nav) (gradx nav) (grady nav) (nobs nav)
    (curP nav) (nextP nav) (overP nav) (curT nav) (priInc nav) (goal nav) (start nav) (pathx nav) (pathy nav)
    (npath nav) (npathbuf nav) c (pathStep nav).
Definition set_path (nav : NavFn) (xs ys : list spec_float) (n buf : Z) : NavFn :=
  mkNavFn (nx nav) (ny nav) (ns nav) (costarr nav) (potarr nav) (pending nav) (gradx nav) (grady nav) (nobs nav)
    (curP nav) (nextP nav) (overP nav) (curT nav) (priInc nav) (goal nav) (start nav) xs ys n buf
    (last_path_cost_ nav) (pathStep nav).

Definition set_pot (nav : NavFn) (pot : list spec_float) : NavFn :=
  set_arrays nav (costarr nav) pot (gradx nav) (grady nav).
Definition set_cost (nav : NavFn) (cost : list Z) : NavFn :=
  set_arrays nav cost (potarr nav) (gradx nav) (grady nav).
Definition set_grad (nav : NavFn) (gx gy : list spec_float) : NavFn :=
  set_arrays nav (costarr nav) (potarr nav) gx gy.

Section navfn.
(** Uninitialised [float] memory, and the two overloads of [hypot]. *)
Context (junk : Z -> spec_float) (hypot hypotf : spec_float -> spec_float -> spec_float).

Definition fresh_floats (n : Z) : list spec_float := junk <$> zrange 0 n.

(** [nx * ny] is an [int]. *)
Definition setNavArr (nav : NavFn) (xs ys : Z) : option NavFn :=
  let n := xs * ys in
  _ ← assert_ub ((0 <=? n) && (n <? 2 ^ 31));
  Some (mkNavFn xs ys n (anew n 0) (fresh_floats n) (anew n false) (fresh_floats n) (fresh_floats n) (nobs nav)
    (curP nav) (nextP nav) (overP nav) (curT nav) (priInc nav) (goal nav) (start nav) (pathx nav) (pathy nav)
    (npath nav) (npathbuf nav) (last_path_cost_ nav) (pathStep nav)).

(** The constructor; the fields it leaves unset are given by [nav0]. *)
Definition NavFn_new (nav0 : NavFn) (xs ys : Z) : option NavFn :=
  nav ← setNavArr nav0 xs ys;
  Some (mkNavFn (nx nav) (ny nav) (ns nav) (costarr nav) (potarr nav) (pending nav) (gradx nav) (grady nav)
    (nobs nav) (curP nav) (nextP nav) (overP nav) (curT nav) (s_of_Z (2 * COST_NEUTRAL)) (0, 0) (0, 0) [] [] 0 0
    (last_path_cost_ nav) (s_of_f f_half)).

Definition setGoal (nav : NavFn) (g : Z * Z) : NavFn := set_ends nav g (start nav).
Definition setStart (nav : NavFn) (g : Z * Z) : NavFn := set_ends nav (goal nav) g.

(** ** Costs *)

(** [v = COST_NEUTRAL + COST_FACTOR * v], capped below an obstacle. *)
Definition scale_cost (v : Z) : option Z :=
  v ← f_to_s32 (fadd (f_of_Z COST_NEUTRAL) (fmul COST_FACTOR (f_of_Z v)));
  Some (if COST_OBS <=? v then COST_OBS - 1 else v).

(** One cell of a ROS map, and of a map read from a file. *)
Definition ros_cost (allow_unknown : bool) (v : Z) : option Z :=
  if v <? COST_OBS_ROS then v ← scale_cost v; Some (u8 v)
  else if (v =? COST_UNKNOWN_ROS) && allow_unknown then Some (COST_OBS - 1)
  else Some COST_OBS.

Definition pgm_cost (nx ny i j v : Z) : option Z :=
  if (i <? 7) || (ny - 8 <? i) || (j <? 7) || (nx - 8 <? j) then Some COST_OBS
  else if v <? COST_OBS_ROS then v ← scale_cost v; Some (u8 v)
  else if v =? COST_UNKNOWN_ROS then Some (COST_OBS - 1)
  else Some COST_OBS.

(** [cmap] and [cm] advance together, one cell at a time. *)
Definition setCostmap (nav : NavFn) (cmap : list Z) (isROS allow_unknown : bool) : option NavFn :=
  st ← for_range 0 (ny nav) (fun i st =>
         for_range 0 (nx nav) (fun j '(k, cm) =>
           v ← aget cmap k;
           c ← (if isROS then ros_cost allow_unknown v else pgm_cost (nx nav) (ny nav) i j v);
           cm ← aset cm k c;
           Some (k + 1, cm)) st) (0, costarr nav);
  Some (set_cost nav (snd st)).

(** ** Priority buffers *)

(** The test of the three [push] macros; [buf] is the buffer pushed on. *)
Definition push_ok (nav : NavFn) (buf : list Z) (n : Z) : option bool :=
  if (0 <=? n) && (n <? ns nav) then
    p ← aget (pending nav) n;
    if p : bool then Some false
    else
      c ← aget (costarr nav) n;
      Some ((c <? COST_OBS) && (alen buf <? PRIORITYBUFSIZE))
  else Some false.

Definition push_cur (nav : NavFn) (n : Z) : option NavFn :=
  b ← push_ok nav (curP nav) n;
  if b : bool then
    p ← aset (pending nav) n true; Some (set_queues nav p (curP nav ++ [n]) (nextP nav) (overP nav))
  else Some nav.
Definition push_next (nav : NavFn) (n : Z) : option NavFn :=
  b ← push_ok nav (nextP nav) n;
  if b : bool then
    p ← aset (pending nav) n true; Some (set_queues nav p (curP nav) (nextP nav ++ [n]) (overP nav))
  else Some nav.
Definition push_over (nav : NavFn) (n : Z) : option NavFn :=
  b ← push_ok nav (overP nav) n;
  if b : bool then
    p ← aset (pending nav) n true; Some (set_queues nav p (curP nav) (nextP nav) (overP nav ++ [n]))
  else Some nav.

Definition initCost (nav : NavFn) (k : Z) (v : spec_float) : option NavFn :=
  pot ← aset (potarr nav) k v;
  let nav := set_pot nav pot in
  nav ← push_cur nav (k + 1);
  nav ← push_cur nav (k - 1);
  nav ← push_cur nav (k - nx nav);
  push_cur nav (k + nx nav).

(** ** Set-up *)

(** [for (i = 0; i < n; i++, pc += step) pc[0] = v], from the index [at_]. *)
Definition fill (at_ step n v : Z) (l : list Z) : option (list Z) :=
  for_range 0 n (fun i l => aset l (at_ + i * step) v) l.

Definition setupNavFn (nav : NavFn) (keepit : bool) : option NavFn :=
  st ← for_range 0 (ns nav) (fun i '(pot, cost, gx, gy) =>
         pot ← aset pot i POT_HIGH_f;
         cost ← (if negb keepit then aset cost i COST_NEUTRAL else Some cost);
         gy ← aset gy i f_zero;
         gx ← aset gx i f_zero;
         Some (pot, cost, gx, gy)) (potarr nav, costarr nav, gradx nav, grady nav);
  let '(pot, cost, gx, gy) := st in
  cost ← fill 0 1 (nx nav) COST_OBS cost;
  cost ← fill ((ny nav - 1) * nx nav) 1 (nx nav) COST_OBS cost;
  cost ← fill 0 (nx nav) (ny nav) COST_OBS cost;
  cost ← fill (nx nav - 1) (nx nav) (ny nav) COST_OBS cost;
  pend ← for_range 0 (ns nav) (fun i p => aset p i false) (pending nav);
  let nav := set_curT (set_queues (set_arrays nav cost pot gx gy) pend [] [] []) (s_of_Z COST_OBS) in
  let k := fst (goal nav) + snd (goal nav) * nx nav in
  nav ← initCost nav k f_zero;
  ntot ← for_range 0 (ns nav) (fun i ntot =>
           c ← aget (costarr nav) i; Some (if COST_OBS <=? c then ntot + 1 else ntot)) 0;
  Some (set_nobs nav ntot).

(** ** Propagation *)

(** The planar wave update from the four neighbours. *)
Definition wave_pot (l r u d : spec_float) (cost : Z) : spec_float :=
  let tc := if flt l r then l else r in
  let ta := if flt u d then u else d in
  let hf := s_of_Z cost in
  let dc := ssub tc ta in
  let '(dc, ta) := if flt dc f_zero then (SFopp dc, tc) else (dc, ta) in
  if fge dc hf then sadd ta hf
  else
    let d := f_of_s (sdiv dc hf) in
    let v := s_of_f (fadd (fadd (fmul (fmul (SFopp (dlit 2301 10000)) d) d) (fmul (dlit 5307 10000) d))
                       (dlit 7040 10000)) in
    sadd ta (smul hf v).

Definition edge_cost (c : Z) : spec_float := s_of_f (fmul INVSQRT2 (f_of_s (s_of_Z c))).

(** The neighbours that the new potential can lower are pushed: on the next
    buffer below the threshold, on the overflow buffer above it. *)
Definition push_neighbours (nav : NavFn) (n : Z) (pot l r u d le re ue de : spec_float) : option NavFn :=
  let push := if flt pot (curT nav) then push_next else push_over in
  nav ← (if fgt l (sadd pot le) then push nav (n - 1) else Some nav);
  nav ← (if fgt r (sadd pot re) then push nav (n + 1) else Some nav);
  nav ← (if fgt u (sadd pot ue) then push nav (n - nx nav) else Some nav);
  if fgt d (sadd pot de) then push nav (n + nx nav) else Some nav.

(** [updateCell] and [updateCellAstar]; [heuristic] is what A* adds to the
    potential before it chooses a buffer. *)
Definition update_cell (heuristic : NavFn -> Z -> spec_float -> spec_float) (nav : NavFn) (n : Z) : option NavFn :=
  l ← aget (potarr nav) (n - 1);
  r ← aget (potarr nav) (n + 1);
  u ← aget (potarr nav) (n - nx nav);
  d ← aget (potarr nav) (n + nx nav);
  c ← aget (costarr nav) n;
  if c <? COST_OBS then
    let pot := wave_pot l r u d c in
    old ← aget (potarr nav) n;
    if flt pot old then
      cl ← aget (costarr nav) (n - 1);
      cr ← aget (costarr nav) (n + 1);
      cu ← aget (costarr nav) (n - nx nav);
      cd ← aget (costarr nav) (n + nx nav);
      p ← aset (potarr nav) n pot;
      push_neighbours (set_pot nav p) n (heuristic nav n pot) l r u d
        (edge_cost cl) (edge_cost cr) (edge_cost cu) (edge_cost cd)
    else Some nav
  else Some nav.

Definition updateCell : NavFn -> Z -> option NavFn := update_cell (fun _ _ pot => pot).

(** [hypot(...) * COST_NEUTRAL] as a [float]. *)
Definition cell_dist (dx dy : Z) : spec_float :=
  s_of_f (fmul (hypot (f_of_Z dx) (f_of_Z dy)) (f_of_s (s_of_Z COST_NEUTRAL))).

Definition updateCellAstar : NavFn -> Z -> option NavFn :=
  update_cell (fun nav n pot =>
    let x := Z.rem n (nx nav) in
    let y := Z.quot n (nx nav) in
    sadd pot (cell_dist (x - fst (start nav)) (y - snd (start nav)))).

(** One cycle: clear the pending flags of the current buffer, update its
    cells, swap with the next buffer, and with the overflow buffer when it is
    empty, raising the threshold. *)
Definition clear_pending (nav : NavFn) : option NavFn :=
  p ← run_cells (fun p n => aset p n false) (curP nav) (pending nav);
  Some (set_queues nav p (curP nav) (nextP nav) (overP nav)).

Definition swap_buffers (nav : NavFn) : NavFn :=
  match nextP nav with
  | [] => set_curT (set_queues nav (pending nav) (overP nav) [] []) (sadd (curT nav) (priInc nav))
  | next => set_queues nav (pending nav) next [] (overP nav)
  end.

Definition prop_cycle (update : NavFn -> Z -> option NavFn) (nav : NavFn) : option NavFn :=
  nav ← clear_pending nav;
  nav ← run_cells update (curP nav) nav;
  Some (swap_buffers nav).

Definition start_cell (nav : NavFn) : Z := snd (start nav) * nx nav + fst (start nav).

(** The main loop: the cycle reached and the state. *)
Definition prop_loop (update : NavFn -> Z -> option NavFn) (cycles : Z) (atStart : bool) (nav : NavFn) :
    option (Z * NavFn) :=
  loop (S (Z.to_nat cycles)) (fun '(cycle, nav) =>
    if cycle <? cycles then
      match curP nav, nextP nav with
      | [], [] => Some (Break (cycle, nav))
      | _, _ =>
          nav ← prop_cycle update nav;
          if atStart then
            p ← aget (potarr nav) (start_cell nav);
            if flt (f_of_s p) POT_HIGH then Some (Break (cycle, nav)) else Some (Next (cycle + 1, nav))
          else Some (Next (cycle + 1, nav))
      end
    else Some (Break (cycle, nav))) (0, nav).

Definition propNavFnDijkstra (nav : NavFn) (cycles : Z) (atStart : bool) : option (bool * NavFn) :=
  r ← prop_loop updateCell cycles atStart nav;
  Some (fst r <? cycles, snd r).

Definition propNavFnAstar (nav : NavFn) (cycles : Z) : option (bool * NavFn) :=
  let dist := cell_dist (fst (goal nav) - fst (start nav)) (snd (goal nav) - snd (start nav)) in
  let nav := set_curT nav (sadd dist (curT nav)) in
  r ← prop_loop updateCellAstar cycles true nav;
  let nav := snd r in
  p ← aget (potarr nav) (start_cell nav);
  Some (flt (f_of_s p) POT_HIGH, set_last_cost nav p).

Definition cycle_bound (nav : NavFn) : Z := Z.max (Z.quot (nx nav * ny nav) 20) (nx nav + ny nav).

Definition calcNavFnDijkstra (nav : NavFn) (atStart : bool) : option (bool * NavFn) :=
  nav ← setupNavFn nav true; propNavFnDijkstra nav (cycle_bound nav) atStart.

Definition calcNavFnAstar (nav : NavFn) : option (bool * NavFn) :=
  nav ← setupNavFn nav true; propNavFnAstar nav (cycle_bound nav).
End navfn.

(** ** Invariants *)

(** The arrays have a cell per position. *)
Record sized (nav : NavFn) : Prop := {
  sz_nx : 0 < nx nav;
  sz_ny : 0 < ny nav;
  sz_ns : ns nav = nx nav * ny nav;
  sz_max : ns nav < 2 ^ 31;
  sz_cost : alen (costarr nav) = ns nav;
  sz_pot : alen (potarr nav) = ns nav;
  sz_pend : alen (pending nav) = ns nav;
  sz_gx : alen (gradx nav) = ns nav;
  sz_gy : alen (grady nav) = ns nav;
}.

(** A cell the wave can enter. *)
Definition free (nav : NavFn) (n : Z) : Prop := exists c, aget (costarr nav) n = Some c /\ c < COST_OBS.

(** The border of the map is made of obstacles. *)
Definition bordered (nav : NavFn) : Prop :=
  forall x y, 0 <= x < nx nav -> 0 <= y < ny nav ->
    x = 0 \/ x = nx nav - 1 \/ y = 0 \/ y = ny nav - 1 -> ~ free nav (y * nx nav + x).

(** The cells waiting in the buffers [q] are free, distinct, and exactly those
    flagged as pending. *)
Record queued (nav : NavFn) (q : list Z) : Prop := {
  qu_nodup : NoDup q;
  qu_free : Forall (free nav) q;
  qu_pending n : aget (pending nav) n = Some true <-> n ∈ q;
}.

Lemma free_range nav n : sized nav -> free nav n -> 0 <= n < ns nav.
Proof. intros [] (c & E & _). apply aget_bounds in E. lia. Qed.

Lemma free_interior nav n :
  sized nav -> bordered nav -> free nav n ->
  0 <= n - nx nav /\ 0 <= n - 1 /\ n + 1 < ns nav /\ n + nx nav < ns nav /\ 0 <= n < ns nav.
Proof.
  intros Hs Hb Hf. pose proof (free_range _ _ Hs Hf) as Hn. destruct Hs.
  pose proof (Z.div_mod n (nx nav) ltac:(lia)) as E.
  pose proof (Z.mod_pos_bound n (nx nav) sz_nx0) as Hx.
  assert (0 <= n / nx nav < ny nav) as Hy.
  { split; [apply Z.div_pos; lia | apply Z.div_lt_upper_bound; lia]. }
  assert (n / nx nav * nx nav + n mod nx nav = n) as En by lia.
  assert (~ (n mod nx nav = 0 \/ n mod nx nav = nx nav - 1 \/ n / nx nav = 0 \/ n / nx nav = ny nav - 1)) as Hc.
  { intros Hc. apply (Hb _ _ Hx Hy Hc). by rewrite En. }
  assert (1 <= n / nx nav <= ny nav - 2) as Hy2 by lia. nia.
Qed.

(** What propagation may change: potentials go down, in free cells only. *)
Record evolves (nav nav' : NavFn) : Prop := {
  ev_nx : nx nav' = nx nav;
  ev_ny : ny nav' = ny nav;
  ev_ns : ns nav' = ns nav;
  ev_cost : costarr nav' = costarr nav;
  ev_grad : gradx nav' = gradx nav /\ grady nav' = grady nav;
  ev_goal : goal nav' = goal nav;
  ev_start : start nav' = start nav;
  ev_pend : alen (pending nav') = alen (pending nav);
  ev_len : alen (potarr nav') = alen (potarr nav);
  ev_pot n p : aget (potarr nav) n = Some p ->
    exists p', aget (potarr nav') n = Some p' /\ (p' = p \/ flt p' p = true /\ free nav n);
}.

Lemma evolves_refl nav : evolves nav nav.
Proof. constructor; try done. intros n p E. exists p. by split; [|left]. Qed.

Lemma evolves_trans nav1 nav2 nav3 : evolves nav1 nav2 -> evolves nav2 nav3 -> evolves nav1 nav3.
Proof.
  intros H1 H2. constructor.
  1-4, 6-9: (etrans; [apply H2|apply H1]).
  - destruct (ev_grad _ _ H1), (ev_grad _ _ H2). split; congruence.
  - intros n p E. destruct (ev_pot _ _ H1 n p E) as (p1 & E1 & C1).
    destruct (ev_pot _ _ H2 n p1 E1) as (p2 & E2 & C2). exists p2. split; [done|].
    assert (free nav2 n -> free nav1 n) as Hf by (unfold free; by rewrite (ev_cost _ _ H1)).
    destruct C1 as [->|[C1 F1]], C2 as [->|[C2 F2]]; [by left|right; auto|right; auto|].
    right. split; [by eapply flt_trans|auto].
Qed.

Lemma evolves_free nav nav' n : evolves nav nav' -> free nav n <-> free nav' n.
Proof. intros H. unfold free. by rewrite (ev_cost _ _ H). Qed.

Lemma evolves_sized nav nav' : evolves nav nav' -> sized nav -> sized nav'.
Proof.
  intros [H1 H2 H3 H4 [H5 H5'] _ _ H6 H7 _] []. constructor; rewrite ?H1, ?H2, ?H3, ?H4, ?H5, ?H5'; congruence || lia.
Qed.

Lemma evolves_bordered nav nav' : evolves nav nav' -> bordered nav -> bordered nav'.
Proof.
  intros H Hb x y. rewrite (ev_nx _ _ H), (ev_ny _ _ H). intros Hx Hy Hc.
  rewrite <- (evolves_free nav nav' _ H). by apply Hb.
Qed.

(** ** Pushing *)

Lemma set_queues_evolves nav p cur next over :
  alen p = alen (pending nav) -> evolves nav (set_queues nav p cur next over).
Proof. intros Hp. constructor; try done. intros n q E. exists q. by split; [|left]. Qed.

(** The test succeeds exactly on free cells that are not pending, while the
    buffer has room. *)
Lemma push_ok_spec nav buf n :
  sized nav -> exists b, push_ok nav buf n = Some b /\
    (b = true -> 0 <= n < ns nav /\ free nav n /\ aget (pending nav) n = Some false).
Proof.
  intros []. unfold push_ok.
  destruct ((0 <=? n) && (n <? ns nav)) eqn:B; [|by exists false]. zbool.
  destruct (aget_is_Some (pending nav) n ltac:(lia)) as [p Ep]. rewrite Ep. mred.
  destruct p; [by exists false|].
  destruct (aget_is_Some (costarr nav) n ltac:(lia)) as [c Ec]. rewrite Ec. mred.
  eexists. split; [done|]. intros Hb. zbool. split; [done|]. split; [by exists c; split; [|lia]|done].
Qed.

Lemma queued_push nav q q' p n cur next over :
  sized nav -> queued nav q -> 0 <= n < ns nav -> free nav n -> aget (pending nav) n = Some false ->
  aset (pending nav) n true = Some p -> q' ≡ₚ n :: q -> queued (set_queues nav p cur next over) q'.
Proof.
  intros Hs [Hnd Hfr Hpe] Hn Hf Ep Es Hq. assert (n ∉ q) as Hnot.
  { intros Hin. apply Hpe in Hin. by rewrite Ep in Hin. }
  constructor; simpl.
  - rewrite Hq. by apply NoDup_cons.
  - rewrite Hq. by constructor.
  - intros k. rewrite (aget_aset _ _ _ _ k Es), Hq, elem_of_cons.
    destruct (Z.eqb_spec n k) as [<-|Hne]; [split; [by left|done]|].
    rewrite Hpe. split; [by right|]. by intros [->|?].
Qed.

(** The three pushes share this step; [place] puts the cell in its buffer. *)
Lemma push_step nav buf n q (place : list bool -> NavFn) (q' : list Z) cur next over :
  sized nav -> queued nav q -> place = (fun p => set_queues nav p cur next over) -> q' ≡ₚ n :: q ->
  exists nav', (b ← push_ok nav buf n;
                if b : bool then p ← aset (pending nav) n true; Some (place p) else Some nav) = Some nav' /\
    evolves nav nav' /\ ((nav' = nav) \/ (exists p, nav' = place p /\ queued nav' q')).
Proof.
  intros Hs Hq -> Hperm. destruct (push_ok_spec nav buf n Hs) as (b & -> & Hb). mred.
  destruct b; [|exists nav; split; [done|]; split; [apply evolves_refl|by left]].
  destruct (Hb eq_refl) as (Hn & Hf & Ep).
  pose proof (aset_Some (pending nav) n true ltac:(destruct Hs; lia)) as Es. rewrite Es. mred.
  eexists. split; [done|]. split; [by apply set_queues_evolves, (aset_len _ _ _ _ Es)|].
  right. eexists. split; [done|]. by eapply queued_push.
Qed.

Lemma push_next_ok nav n :
  sized nav -> queued nav (nextP nav ++ overP nav) ->
  exists nav', push_next nav n = Some nav' /\ evolves nav nav' /\ curP nav' = curP nav /\ curT nav' = curT nav /\
    queued nav' (nextP nav' ++ overP nav').
Proof.
  intros Hs Hq. unfold push_next.
  destruct (push_step nav (nextP nav) n _ (fun p => set_queues nav p (curP nav) (nextP nav ++ [n]) (overP nav))
    ((nextP nav ++ [n]) ++ overP nav) _ _ _ Hs Hq eq_refl) as (nav' & -> & Hev & H).
  { rewrite <- app_assoc. simpl. by rewrite <- Permutation_middle. }
  exists nav'. split; [done|]. split; [done|]. destruct H as [->|(p & -> & H)]; done.
Qed.

Lemma push_over_ok nav n :
  sized nav -> queued nav (nextP nav ++ overP nav) ->
  exists nav', push_over nav n = Some nav' /\ evolves nav nav' /\ curP nav' = curP nav /\ curT nav' = curT nav /\
    queued nav' (nextP nav' ++ overP nav').
Proof.
  intros Hs Hq. unfold push_over.
  destruct (push_step nav (overP nav) n _ (fun p => set_queues nav p (curP nav) (nextP nav) (overP nav ++ [n]))
    (nextP nav ++ overP nav ++ [n]) _ _ _ Hs Hq eq_refl) as (nav' & -> & Hev & H).
  { rewrite app_assoc, (Permutation_app_comm _ [n]). done. }
  exists nav'. split; [done|]. split; [done|]. destruct H as [->|(p & -> & H)]; done.
Qed.

(** The state within a cycle. *)
Record working (nav : NavFn) : Prop := {
  wk_sized : sized nav;
  wk_border : bordered nav;
  wk_queued : queued nav (nextP nav ++ overP nav);
}.

(** A step within a cycle: it keeps the current buffer. *)
Definition steps_to (nav nav' : NavFn) : Prop :=
  evolves nav nav' /\ curP nav' = curP nav /\ curT nav' = curT nav /\ working nav'.

Lemma steps_trans nav1 nav2 nav3 : steps_to nav1 nav2 -> steps_to nav2 nav3 -> steps_to nav1 nav3.
Proof.
  intros (H1 & C1 & T1 & _) (H2 & C2 & T2 & W). split; [by eapply evolves_trans|]. repeat split; congruence || apply W.
Qed.

Lemma push_steps nav n (low : bool) :
  working nav -> exists nav', (if low then push_next else push_over) nav n = Some nav' /\ steps_to nav nav'.
Proof.
  intros [Hs Hb Hq].
  assert (exists nav', (if low then push_next else push_over) nav n = Some nav' /\ evolves nav nav' /\
    curP nav' = curP nav /\ curT nav' = curT nav /\ queued nav' (nextP nav' ++ overP nav')) as (nav' & E & Hev & Hc & Ht & Hq')
    by (destruct low; [by apply push_next_ok | by apply push_over_ok]).
  exists nav'. split; [done|]. split; [done|]. split; [done|]. split; [done|].
  constructor; [by eapply evolves_sized | by eapply evolves_bordered | done].
Qed.

Lemma push_if_steps nav n (low b : bool) :
  working nav ->
  exists nav', (if b then (if low then push_next else push_over) nav n else Some nav) = Some nav' /\ steps_to nav nav'.
Proof.
  intros Hw. destruct b; [by apply push_steps|]. exists nav. split; [done|].
  split; [apply evolves_refl|]. repeat split; apply Hw.
Qed.

Lemma push_neighbours_ok nav n pot l r u d le re ue de :
  working nav -> exists nav', push_neighbours nav n pot l r u d le re ue de = Some nav' /\ steps_to nav nav'.
Proof.
  intros Hw. unfold push_neighbours. set (low := flt pot (curT nav)).
  destruct (push_if_steps nav (n - 1) low (fgt l (sadd pot le)) Hw) as (nav1 & -> & S1). mred.
  destruct (push_if_steps nav1 (n + 1) low (fgt r (sadd pot re))) as (nav2 & -> & S2); [apply S1|]. mred.
  destruct (push_if_steps nav2 (n - nx nav2) low (fgt u (sadd pot ue))) as (nav3 & -> & S3); [apply S2|]. mred.
  destruct (push_if_steps nav3 (n + nx nav3) low (fgt d (sadd pot de))) as (nav4 & -> & S4); [apply S3|].
  exists nav4. split; [done|]. eapply steps_trans; [|exact S4]. eapply steps_trans; [|exact S3].
  by eapply steps_trans.
Qed.

(** ** One cell *)

Lemma set_pot_steps nav n old pot p :
  working nav -> free nav n -> aget (potarr nav) n = Some old -> flt pot old = true ->
  aset (potarr nav) n pot = Some p -> steps_to nav (set_pot nav p).
Proof.
  intros [Hs Hb Hq] Hf Eo Hlt Es. assert (evolves nav (set_pot nav p)) as Hev.
  { constructor; try done; [by apply (aset_len _ _ _ _ Es)|]. intros k q Eq. simpl.
    rewrite (aget_aset _ _ _ _ k Es). destruct (Z.eqb_spec n k) as [<-|]; [|by exists q; split; [|left]].
    rewrite Eo in Eq. injection Eq as <-. exists pot. split; [done|]. by right. }
  split; [done|]. split; [done|]. split; [done|].
  constructor; [by eapply evolves_sized | by eapply evolves_bordered | destruct Hq; by constructor].
Qed.

Lemma update_cell_ok heuristic nav n :
  working nav -> free nav n -> exists nav', update_cell heuristic nav n = Some nav' /\ steps_to nav nav'.
Proof.
  intros Hw Hf. pose proof Hw as [Hs Hb Hq].
  destruct (free_interior nav n Hs Hb Hf) as (H1 & H2 & H3 & H4 & H5).
  assert (steps_to nav nav) as Hrefl by (split; [apply evolves_refl|done]).
  pose proof (sz_nx _ Hs). pose proof (sz_pot _ Hs) as Hp. pose proof (sz_cost _ Hs) as Hc.
  assert (forall k, 0 <= k < ns nav -> exists v, aget (potarr nav) k = Some v) as Gp
    by (intros; apply aget_is_Some; lia).
  assert (forall k, 0 <= k < ns nav -> exists v, aget (costarr nav) k = Some v) as Gc
    by (intros; apply aget_is_Some; lia).
  unfold update_cell.
  destruct (Gp (n - 1) ltac:(lia)) as [l ->], (Gp (n + 1) ltac:(lia)) as [r ->],
    (Gp (n - nx nav) ltac:(lia)) as [u ->], (Gp (n + nx nav) ltac:(lia)) as [d ->]. mred.
  destruct Hf as (c & Ec & Hlt). rewrite Ec. mred. rewrite (proj2 (Z.ltb_lt _ _) Hlt).
  destruct (Gp n ltac:(lia)) as [old Eo]. rewrite Eo. mred.
  destruct (flt (wave_pot l r u d c) old) eqn:Hpot; [|by exists nav].
  destruct (Gc (n - 1) ltac:(lia)) as [cl ->], (Gc (n + 1) ltac:(lia)) as [cr ->],
    (Gc (n - nx nav) ltac:(lia)) as [cu ->], (Gc (n + nx nav) ltac:(lia)) as [cd ->]. mred.
  pose proof (aset_Some (potarr nav) n (wave_pot l r u d c) ltac:(lia)) as Es. rewrite Es. mred.
  pose proof (set_pot_steps nav n old _ _ Hw (ex_intro _ c (conj Ec Hlt)) Eo Hpot Es) as S1.
  destruct (push_neighbours_ok (set_pot nav (<[Z.to_nat n:=wave_pot l r u d c]> (potarr nav))) n
    (heuristic nav n (wave_pot l r u d c)) l r u d (edge_cost cl) (edge_cost cr) (edge_cost cu) (edge_cost cd))
    as (nav' & -> & S2); [apply S1|].
  exists nav'. split; [done|]. by eapply steps_trans.
Qed.

(** ** One cycle *)

(** The state between two cycles: nothing is left in the next buffer, and the
    overflow buffer is only kept behind cells to visit. *)
Record ready (nav : NavFn) : Prop := {
  rd_sized : sized nav;
  rd_border : bordered nav;
  rd_next : nextP nav = [];
  rd_over : curP nav = [] -> overP nav = [];
  rd_queued : queued nav (curP nav ++ overP nav);
}.

(** Clearing the flags of the cells of the current buffer. *)
Lemma clear_flags pend cur :
  (forall n, n ∈ cur -> 0 <= n < alen pend) ->
  exists pend', run_cells (fun p n => aset p n false) cur pend = Some pend' /\ alen pend' = alen pend /\
    forall n, aget pend' n = if bool_decide (n ∈ cur) then Some false else aget pend n.
Proof.
  revert pend. induction cur as [|k cur IH]; intros pend Hr; cbn [run_cells].
  - exists pend. split; [done|]. split; [done|]. intros n. by rewrite bool_decide_eq_false_2 by apply not_elem_of_nil.
  - pose proof (aset_Some pend k false ltac:(apply Hr; by left)) as Es. rewrite Es. mred.
    pose proof (aset_len _ _ _ _ Es) as Hl.
    destruct (IH (<[Z.to_nat k := false]> pend)) as (pend' & E & Hl' & Hg).
    { intros n Hn. rewrite Hl. apply Hr. by right. }
    exists pend'. split; [done|]. split; [congruence|]. intros n. rewrite Hg, (aget_aset _ _ _ _ n Es).
    destruct (Z.eqb_spec k n) as [<-|Hne].
    + rewrite (bool_decide_eq_true_2 (k ∈ k :: cur)) by (by left). by case_bool_decide.
    + rewrite (bool_decide_ext (n ∈ k :: cur) (n ∈ cur)); [done|]. rewrite elem_of_cons.
      split; [by intros [->|?]|by right].
Qed.

Lemma clear_pending_ok nav :
  ready nav -> exists nav', clear_pending nav = Some nav' /\ evolves nav nav' /\ curP nav' = curP nav /\ working nav'.
Proof.
  intros [Hs Hb Hn _ [Hnd Hfr Hpe]]. unfold clear_pending.
  apply Forall_app in Hfr as [Hfc Hfo]. apply NoDup_app in Hnd as (Hnc & Hdis & Hno).
  destruct (clear_flags (pending nav) (curP nav)) as (pend & -> & Hl & Hg).
  { intros n Hin. rewrite (sz_pend _ Hs). apply free_range; [done|]. exact (proj1 (Forall_forall _ _) Hfc n Hin). }
  mred. eexists. split; [done|]. pose proof (set_queues_evolves nav pend (curP nav) (nextP nav) (overP nav) Hl) as Hev.
  split; [done|]. split; [done|].
  constructor; [by eapply evolves_sized | by eapply evolves_bordered|]. simpl. rewrite Hn. simpl.
  constructor; [done|done|]. intros n. simpl. rewrite Hg. case_bool_decide as C.
  - split; [done|]. intros Hin. by destruct (Hdis n C).
  - rewrite Hpe, elem_of_app. tauto.
Qed.

Lemma run_update_ok heuristic cells nav :
  working nav -> Forall (free nav) cells ->
  exists nav', run_cells (update_cell heuristic) cells nav = Some nav' /\ steps_to nav nav'.
Proof.
  revert nav. induction cells as [|n cells IH]; intros nav Hw HF; simpl.
  - exists nav. split; [done|]. split; [apply evolves_refl|done].
  - apply Forall_cons in HF as [Hf HF].
    destruct (update_cell_ok heuristic nav n Hw Hf) as (nav1 & -> & S1). mred.
    destruct (IH nav1) as (nav2 & E & S2); [apply S1| |].
    { eapply Forall_impl; [exact HF|]. intros k. by apply (evolves_free nav nav1 k (proj1 S1)). }
    exists nav2. split; [done|]. by eapply steps_trans.
Qed.

Lemma swap_ready nav : working nav -> ready (swap_buffers nav) /\ evolves nav (swap_buffers nav).
Proof.
  intros [Hs Hb Hq]. assert (evolves nav (swap_buffers nav)) as Hev.
  { unfold swap_buffers. destruct (nextP nav); constructor; try done; intros n p E; exists p; by split; [|left]. }
  split; [|done]. constructor; [by eapply evolves_sized | by eapply evolves_bordered | | |];
    unfold swap_buffers in *; destruct (nextP nav) as [|n0 next] eqn:En; try done; destruct Hq.
  - simpl. rewrite app_nil_r. by constructor.
  - by constructor.
Qed.

Lemma prop_cycle_ok heuristic nav :
  ready nav -> exists nav', prop_cycle (update_cell heuristic) nav = Some nav' /\ evolves nav nav' /\ ready nav'.
Proof.
  intros Hr. unfold prop_cycle. destruct (clear_pending_ok nav Hr) as (nav1 & -> & E1 & Hc & W1). mred.
  destruct (run_update_ok heuristic (curP nav1) nav1 W1) as (nav2 & -> & S2).
  { rewrite Hc. eapply Forall_impl; [|intros k; apply (evolves_free nav nav1 k E1)].
    destruct Hr as [_ _ _ _ [_ Hfr _]]. by apply Forall_app in Hfr as [? _]. }
  mred. destruct S2 as (E2 & _ & _ & W2). destruct (swap_ready nav2 W2) as [Hr3 E3].
  eexists. split; [done|]. split; [|done]. eapply evolves_trans; [exact E1|]. by eapply evolves_trans.
Qed.

(** ** The main loop *)

(** No cell is left in the buffers. *)
Definition idle (nav : NavFn) : Prop := curP nav = [] /\ nextP nav = [] /\ overP nav = [].

Lemma prop_loop_ok heuristic cycles atStart nav :
  ready nav -> (atStart = true -> 0 <= start_cell nav < ns nav) ->
  exists cycle nav', prop_loop (update_cell heuristic) cycles atStart nav = Some (cycle, nav') /\
    evolves nav nav' /\ ready nav' /\
    (cycle < cycles -> idle nav' \/
       atStart = true /\ exists p, aget (potarr nav') (start_cell nav') = Some p /\ flt (f_of_s p) POT_HIGH = true).
Proof.
  intros Hr Hst. unfold prop_loop.
  match goal with |- context [loop _ ?b _] => set (body := b) end.
  destruct (loop_inv (fun '(c, n) => evolves nav n /\ ready n)
    (fun '(c, n) => evolves nav n /\ ready n /\ (c < cycles -> idle n \/ atStart = true /\
       exists p, aget (potarr n) (start_cell n) = Some p /\ flt (f_of_s p) POT_HIGH = true))
    (fun '(c, n) => Z.to_nat (cycles - c)) body) with (fuel := S (Z.to_nat cycles)) (s := (0, nav))
    as ([c n] & -> & H).
  - intros [c n] [Hev Hrd]. unfold body. destruct (Z.ltb_spec c cycles) as [Hlt|Hge].
    + destruct (curP n) as [|k cur] eqn:Ec.
      { pose proof (rd_next _ Hrd) as En. rewrite En. eexists. split; [done|]. split; [done|]. split; [done|]. left. pose proof (rd_over _ Hrd Ec). by split_and!. }
      destruct (prop_cycle_ok heuristic n Hrd) as (n' & -> & Hev' & Hrd'). mred.
      pose proof (evolves_trans _ _ _ Hev Hev') as Hev2.
      destruct atStart; [|eexists; split; [done|]; split; [done|lia]].
      destruct (aget_is_Some (potarr n') (start_cell n')) as [p Ep].
      { rewrite (sz_pot _ (rd_sized _ Hrd')). unfold start_cell.
        rewrite (ev_start _ _ Hev2), (ev_nx _ _ Hev2), (ev_ns _ _ Hev2). by apply Hst. }
      rewrite Ep. mred. destruct (flt (f_of_s p) POT_HIGH) eqn:Hp.
      * eexists. split; [done|]. split; [done|]. split; [done|]. intros _. right. split; [done|]. by exists p.
      * eexists. split; [done|]. split; [done|lia].
    + eexists. split; [done|]. split; [done|]. split; [done|]. lia.
  - split; [apply evolves_refl|done].
  - lia.
  - exists c, n. by split.
Qed.

(** ** Set-up *)

Lemma fill_spec at_ step n v l :
  0 <= n -> (forall i, 0 <= i < n -> 0 <= at_ + i * step < alen l) ->
  exists l', fill at_ step n v l = Some l' /\ alen l' = alen l /\
    (forall i, 0 <= i < n -> aget l' (at_ + i * step) = Some v) /\
    (forall k, aget l' k = Some v /\ (exists i, 0 <= i < n /\ k = at_ + i * step) \/ aget l' k = aget l k).
Proof.
  intros Hn Hr. unfold fill.
  apply (for_range_inv (fun m l' => alen l' = alen l /\ (forall i, 0 <= i < m -> aget l' (at_ + i * step) = Some v) /\
    (forall k, aget l' k = Some v /\ (exists i, 0 <= i < m /\ k = at_ + i * step) \/ aget l' k = aget l k))
    (fun i l => aset l (at_ + i * step) v) 0 n l); [done| |].
  - split; [done|]. split; [lia|]. intros k. by right.
  - intros m l1 Hm (Hl & H1 & H2).
    pose proof (aset_Some l1 (at_ + m * step) v ltac:(rewrite Hl; by apply Hr)) as Es.
    eexists. split; [exact Es|]. split; [by rewrite (aset_len _ _ _ _ Es)|]. split.
    + intros i Hi. rewrite (aget_aset _ _ _ _ _ Es).
      destruct (Z.eqb_spec (at_ + m * step) (at_ + i * step)); [done|]. apply H1.
      destruct (decide (i = m)) as [->|]; [done|lia].
    + intros k. rewrite (aget_aset _ _ _ _ _ Es). destruct (Z.eqb_spec (at_ + m * step) k) as [<-|].
      * left. split; [done|]. exists m. split; [lia|done].
      * destruct (H2 k) as [[E (i & Hi & ->)]|E]; [left; split; [done|exists i; split; [lia|done]]|by right].
Qed.

(** The border of a [w] by [h] grid. *)
Definition on_border (w h x y : Z) : Prop := x = 0 \/ x = w - 1 \/ y = 0 \/ y = h - 1.
#[export] Instance on_border_dec w h x y : Decision (on_border w h x y).
Proof. unfold on_border. apply _. Defined.

Lemma fill_row w h r l :
  0 < w -> 0 <= r < h -> alen l = w * h ->
  exists l', fill (r * w) 1 w COST_OBS l = Some l' /\ alen l' = alen l /\
    forall x y, 0 <= x < w -> 0 <= y < h ->
      aget l' (y * w + x) = if bool_decide (y = r) then Some COST_OBS else aget l (y * w + x).
Proof.
  intros Hw Hr Hl. destruct (fill_spec (r * w) 1 w COST_OBS l) as (l' & -> & L & A & B); [lia|intros; nia|].
  exists l'. split; [done|]. split; [done|]. intros x y Hx Hy. case_bool_decide as C.
  - subst. rewrite <- (A x Hx). f_equal. lia.
  - destruct (B (y * w + x)) as [[_ (i & Hi & E)]|E]; [|done].
    destruct (index_inj w x y i r); [done|done|lia|done].
Qed.

Lemma fill_col w h c l :
  0 < h -> 0 <= c < w -> alen l = w * h ->
  exists l', fill c w h COST_OBS l = Some l' /\ alen l' = alen l /\
    forall x y, 0 <= x < w -> 0 <= y < h ->
      aget l' (y * w + x) = if bool_decide (x = c) then Some COST_OBS else aget l (y * w + x).
Proof.
  intros Hh Hc Hl. destruct (fill_spec c w h COST_OBS l) as (l' & -> & L & A & B); [lia|intros; nia|].
  exists l'. split; [done|]. split; [done|]. intros x y Hx Hy. case_bool_decide as C.
  - subst. rewrite <- (A y Hy). f_equal. lia.
  - destruct (B (y * w + x)) as [[_ (i & Hi & E)]|E]; [|done].
    destruct (index_inj w x y c i); [done|done|lia|done].
Qed.

Lemma border_fill w h cost :
  0 < w -> 0 < h -> alen cost = w * h ->
  exists cost', (c ← fill 0 1 w COST_OBS cost; c ← fill ((h - 1) * w) 1 w COST_OBS c;
                 c ← fill 0 w h COST_OBS c; fill (w - 1) w h COST_OBS c) = Some cost' /\
    alen cost' = w * h /\
    forall x y, 0 <= x < w -> 0 <= y < h ->
      aget cost' (y * w + x)
      = if bool_decide (on_border w h x y) then Some COST_OBS else aget cost (y * w + x).
Proof.
  intros Hw Hh Hl.
  destruct (fill_row w h 0 cost) as (c1 & E1 & L1 & H1); [lia..|]. change (0 * w) with 0 in E1. rewrite E1. mred.
  destruct (fill_row w h (h - 1) c1) as (c2 & -> & L2 & H2); [lia..|]. mred.
  destruct (fill_col w h 0 c2) as (c3 & -> & L3 & H3); [lia..|]. mred.
  destruct (fill_col w h (w - 1) c3) as (c4 & -> & L4 & H4); [lia..|].
  exists c4. split; [done|]. split; [lia|]. intros x y Hx Hy. rewrite H4, H3, H2, H1 by done.
  unfold on_border. repeat case_bool_decide; done || lia.
Qed.

(** The first loop of the set-up. *)
Lemma reset_arrays (keepit : bool) n pot cost gx gy :
  0 <= n -> alen pot = n -> alen cost = n -> alen gx = n -> alen gy = n ->
  exists pot' cost' gx' gy', for_range 0 n (fun i '(pot, cost, gx, gy) =>
         pot ← aset pot i POT_HIGH_f;
         cost ← (if negb keepit then aset cost i COST_NEUTRAL else Some cost);
         gy ← aset gy i f_zero;
         gx ← aset gx i f_zero;
         Some (pot, cost, gx, gy)) (pot, cost, gx, gy) = Some (pot', cost', gx', gy') /\
    alen pot' = n /\ alen cost' = n /\ alen gx' = n /\ alen gy' = n /\
    forall k, 0 <= k < n -> aget pot' k = Some POT_HIGH_f /\
      aget cost' k = if keepit then aget cost k else Some COST_NEUTRAL.
Proof.
  intros Hn Hp Hc Hx Hy. match goal with |- context [for_range 0 n ?b _] => set (body := b) end.
  destruct (for_range_inv (fun m '(pot', cost', gx', gy') =>
    alen pot' = n /\ alen cost' = n /\ alen gx' = n /\ alen gy' = n /\
    forall k, 0 <= k < n -> (k < m -> aget pot' k = Some POT_HIGH_f) /\
      aget cost' k = if keepit then aget cost k else if k <? m then Some COST_NEUTRAL else aget cost k)
    body 0 n (pot, cost, gx, gy)) as ([[[pot' cost'] gx'] gy'] & -> & L1 & L2 & L3 & L4 & H); [done| | |].
  - do 4 (split; [done|]). intros k Hk. split; [lia|]. rewrite (proj2 (Z.ltb_ge k 0)) by lia. by destruct keepit.
  - intros m [[[p c] x] y] Hm (L1 & L2 & L3 & L4 & H). unfold body.
    pose proof (aset_Some p m POT_HIGH_f ltac:(lia)) as Ep. rewrite Ep. mred.
    assert (exists c', (if negb keepit then aset c m COST_NEUTRAL else Some c) = Some c' /\ alen c' = n /\
      forall k, aget c' k = if keepit then aget c k else if m =? k then Some COST_NEUTRAL else aget c k)
      as (c' & -> & Lc & Hgc).
    { destruct keepit; simpl; [by exists c|].
      pose proof (aset_Some c m COST_NEUTRAL ltac:(lia)) as Ec. eexists. split; [exact Ec|].
      split; [by rewrite (aset_len _ _ _ _ Ec)|]. intros k. by apply aget_aset. }
    mred. pose proof (aset_Some y m f_zero ltac:(lia)) as Ey. rewrite Ey. mred.
    pose proof (aset_Some x m f_zero ltac:(lia)) as Ex. rewrite Ex. mred.
    eexists. split; [done|]. split; [by rewrite (aset_len _ _ _ _ Ep)|]. split; [done|].
    split; [by rewrite (aset_len _ _ _ _ Ex)|]. split; [by rewrite (aset_len _ _ _ _ Ey)|].
    intros k Hk. destruct (H k Hk) as [Hpk Hck]. rewrite Hgc, (aget_aset _ _ _ _ k Ep), Hck. split.
    + intros Hlt. destruct (Z.eqb_spec m k); [done|]. apply Hpk. lia.
    + destruct keepit; [done|]. destruct (Z.eqb_spec m k), (Z.ltb_spec k m), (Z.ltb_spec k (m + 1)); done || lia.
  - exists pot', cost', gx', gy'. split; [done|]. do 4 (split; [done|]). intros k Hk.
    destruct (H k Hk) as [H1 H2]. split; [apply H1; lia|]. rewrite H2. by rewrite (proj2 (Z.ltb_lt k n)) by lia.
Qed.

Lemma clear_all_flags n pend :
  0 <= n -> alen pend = n ->
  exists pend', for_range 0 n (fun i p => aset p i false) pend = Some pend' /\ alen pend' = n /\
    forall k, aget pend' k <> Some true.
Proof.
  intros Hn Hl. destruct (for_range_inv (fun m p => alen p = n /\ forall k, 0 <= k < m -> aget p k = Some false)
    (fun i p => aset p i false) 0 n pend) as (p & -> & L & H); [done| | |].
  - split; [done|]. lia.
  - intros m p Hm [L H]. pose proof (aset_Some p m false ltac:(lia)) as E. eexists. split; [exact E|].
    split; [by rewrite (aset_len _ _ _ _ E)|]. intros k Hk. rewrite (aget_aset _ _ _ _ k E).
    destruct (Z.eqb_spec m k); [done|]. apply H. lia.
  - exists p. split; [done|]. split; [done|]. intros k E. pose proof (aget_bounds _ _ _ E).
    rewrite H in E by lia. done.
Qed.

Lemma push_cur_ok nav n :
  sized nav -> overP nav = [] -> queued nav (curP nav) ->
  exists nav', push_cur nav n = Some nav' /\ evolves nav nav' /\ nextP nav' = nextP nav /\ overP nav' = [] /\
    potarr nav' = potarr nav /\ queued nav' (curP nav').
Proof.
  intros Hs Ho Hq. unfold push_cur.
  destruct (push_step nav (curP nav) n _ (fun p => set_queues nav p (curP nav ++ [n]) (nextP nav) (overP nav))
    (curP nav ++ [n]) _ _ _ Hs Hq eq_refl) as (nav' & -> & Hev & H).
  { by rewrite (Permutation_app_comm _ [n]). }
  exists nav'. split; [done|]. split; [done|]. destruct H as [->|(p & -> & H)]; done.
Qed.

Lemma initCost_ok nav k v :
  sized nav -> 0 <= k < ns nav -> nextP nav = [] -> overP nav = [] -> queued nav (curP nav) ->
  exists nav' pot, initCost nav k v = Some nav' /\ aset (potarr nav) k v = Some pot /\ potarr nav' = pot /\
    evolves (set_pot nav pot) nav' /\ nextP nav' = [] /\ overP nav' = [] /\ queued nav' (curP nav').
Proof.
  intros Hs Hk Hn Ho Hq. unfold initCost.
  pose proof (aset_Some (potarr nav) k v ltac:(destruct Hs; lia)) as Es. rewrite Es. mred.
  set (nav0 := set_pot nav _).
  assert (sized nav0) as Hs0 by (destruct Hs; constructor; try done; simpl; by rewrite (aset_len _ _ _ _ Es)).
  assert (queued nav0 (curP nav0)) as Hq0 by (destruct Hq; by constructor).
  destruct (push_cur_ok nav0 (k + 1) Hs0 Ho Hq0) as (nav1 & -> & E1 & N1 & O1 & P1 & Q1). mred.
  pose proof (evolves_sized _ _ E1 Hs0) as Hs1.
  destruct (push_cur_ok nav1 (k - 1) Hs1 O1 Q1) as (nav2 & -> & E2 & N2 & O2 & P2 & Q2). mred.
  pose proof (evolves_sized _ _ E2 Hs1) as Hs2.
  destruct (push_cur_ok nav2 (k - nx nav2) Hs2 O2 Q2) as (nav3 & -> & E3 & N3 & O3 & P3 & Q3). mred.
  pose proof (evolves_sized _ _ E3 Hs2) as Hs3.
  destruct (push_cur_ok nav3 (k + nx nav3) Hs3 O3 Q3) as (nav4 & -> & E4 & N4 & O4 & P4 & Q4).
  exists nav4. eexists. split; [done|]. split; [done|]. split; [by rewrite P4, P3, P2, P1|].
  split; [|split; [rewrite N4, N3, N2, N1; exact Hn|done]].
  eapply evolves_trans; [exact E1|]. eapply evolves_trans; [exact E2|]. by eapply evolves_trans.
Qed.

Definition goal_cell (nav : NavFn) : Z := fst (goal nav) + snd (goal nav) * nx nav.

(** The state after the set-up: costs with a border of obstacles, the goal at
    potential zero and every other cell unreached. *)
Record set_up (nav nav' : NavFn) (keepit : bool) : Prop := {
  su_ready : ready nav';
  su_nx : nx nav' = nx nav;
  su_ny : ny nav' = ny nav;
  su_ns : ns nav' = ns nav;
  su_goal : goal nav' = goal nav;
  su_start : start nav' = start nav;
  su_cost x y : 0 <= x < nx nav -> 0 <= y < ny nav ->
    aget (costarr nav') (y * nx nav + x) =
      if bool_decide (on_border (nx nav) (ny nav) x y) then Some COST_OBS
      else if keepit then aget (costarr nav) (y * nx nav + x) else Some COST_NEUTRAL;
  su_pot n : 0 <= n < ns nav ->
    aget (potarr nav') n = Some (if n =? goal_cell nav then f_zero else POT_HIGH_f);
}.

Lemma count_obstacles cost n :
  alen cost = n -> 0 <= n ->
  exists t, for_range 0 n (fun i ntot => c ← aget cost i; Some (if COST_OBS <=? c then ntot + 1 else ntot)) 0 = Some t.
Proof.
  intros Hl Hn. destruct (for_range_inv (fun _ (_ : Z) => True)
    (fun i ntot => c ← aget cost i; Some (if COST_OBS <=? c then ntot + 1 else ntot)) 0 n 0) as (t & E & _);
    [done|done| |by exists t].
  intros i t Hi _. destruct (aget_is_Some cost i ltac:(lia)) as [c ->]. mred. by eexists.
Qed.

Lemma setupNavFn_ok nav keepit :
  sized nav -> 0 <= goal_cell nav < ns nav ->
  exists nav', setupNavFn nav keepit = Some nav' /\ set_up nav nav' keepit.
Proof.
  intros Hs Hg. pose proof Hs as []. unfold setupNavFn.
  destruct (reset_arrays keepit (ns nav) (potarr nav) (costarr nav) (gradx nav) (grady nav))
    as (pot & cost & gx & gy & -> & Lp & Lc & Lx & Ly & Harr); [nia|done..|]. mred.
  destruct (border_fill (nx nav) (ny nav) cost) as (cost' & Eb & Lc' & Hb); [done|done|congruence|].
  destruct (clear_all_flags (ns nav) (pending nav)) as (pend & Ep & Lpe & Hpe); [nia|done|].
  (* the four fills, then the flags *)
  destruct (fill 0 1 (nx nav) COST_OBS cost) as [f1|]; [|done]. rewrite mbind_Some in Eb; mred.
  destruct (fill ((ny nav - 1) * nx nav) 1 (nx nav) COST_OBS f1) as [f2|]; [|done]. rewrite mbind_Some in Eb; mred.
  destruct (fill 0 (nx nav) (ny nav) COST_OBS f2) as [f3|]; [|done]. rewrite mbind_Some in Eb; mred.
  rewrite Eb. mred. rewrite Ep. mred. cbv zeta.
  match goal with |- context [initCost ?a _ _] => set (nav0 := a) end.
  assert (sized nav0) as Hs0 by (constructor; simpl; done || congruence).
  destruct (initCost_ok nav0 (goal_cell nav) f_zero Hs0) as (nav1 & pot1 & E1 & Es & Hp1 & Ev & N1 & O1 & Q1);
    [done|done|done| |].
  { constructor; [constructor|constructor|]. intros n. split; [intros E; by destruct (Hpe n)|by intros ?%not_elem_of_nil]. }
  change (fst (goal nav0) + snd (goal nav0) * nx nav0) with (goal_cell nav). rewrite E1. mred.
  assert (sized (set_pot nav0 pot1)) as Hs1.
  { destruct Hs0. constructor; try done. simpl. by rewrite (aset_len _ _ _ _ Es). }
  pose proof (evolves_sized _ _ Ev Hs1) as Hsz.
  destruct (count_obstacles (costarr nav1) (ns nav1)) as (t & ->); [apply Hsz|destruct Hsz; nia|]. mred.
  assert (bordered (set_pot nav0 pot1)) as Hbo.
  { intros x y Hx Hy Hc (c & Ec & Hlt). simpl in *. rewrite Hb, bool_decide_eq_true_2 in Ec by done.
    injection Ec as <-. lia. }
  pose proof (evolves_bordered _ _ Ev Hbo) as Hbo1.
  eexists. split; [done|]. constructor; simpl; try apply Ev.
  - destruct Hsz. constructor; [constructor; done|exact Hbo1|exact N1|intros _; exact O1|].
    simpl. rewrite O1, app_nil_r. destruct Q1. by constructor.
  - intros x y Hx Hy. rewrite (ev_cost _ _ Ev). simpl. rewrite Hb by done.
    case_bool_decide; [done|]. apply Harr. rewrite sz_ns0. by apply index_bound.
  - intros n Hn. rewrite Hp1, (aget_aset _ _ _ _ n Es). rewrite Z.eqb_sym.
    destruct (n =? goal_cell nav); [done|]. by apply Harr.
Qed.

(** ** Properties *)

Definition initial_pot (nav : NavFn) (n : Z) : spec_float := if n =? goal_cell nav then f_zero else POT_HIGH_f.

(** What a propagation from the goal leaves: a consistent state, obstacles
    unreached, and no potential above its initial value. *)
Record propagated (nav nav' : NavFn) : Prop := {
  pr_ready : ready nav';
  pr_nx : nx nav' = nx nav;
  pr_ns : ns nav' = ns nav;
  pr_start : start nav' = start nav;
  pr_border x y : 0 <= x < nx nav -> 0 <= y < ny nav -> on_border (nx nav) (ny nav) x y ->
    aget (costarr nav') (y * nx nav + x) = Some COST_OBS;
  pr_inner x y : 0 <= x < nx nav -> 0 <= y < ny nav -> ~ on_border (nx nav) (ny nav) x y ->
    aget (costarr nav') (y * nx nav + x) = aget (costarr nav) (y * nx nav + x);
  pr_obstacle n : 0 <= n < ns nav -> ~ free nav' n -> aget (potarr nav') n = Some (initial_pot nav n);
  pr_down n : 0 <= n < ns nav -> exists p, aget (potarr nav') n = Some p /\
    (p = initial_pot nav n \/ flt p (initial_pot nav n) = true);
}.

Lemma evolves_propagated nav nav1 nav2 :
  sized nav -> set_up nav nav1 true -> evolves nav1 nav2 -> ready nav2 -> propagated nav nav2.
Proof.
  intros Hs Hu Hev Hr. assert (forall n, 0 <= n < ns nav -> exists p, aget (potarr nav2) n = Some p /\
      (p = initial_pot nav n \/ flt p (initial_pot nav n) = true /\ free nav2 n)) as Hp.
  { intros n Hn. destruct (ev_pot _ _ Hev n _ (su_pot _ _ _ Hu n Hn)) as (p & E & C). exists p. split; [done|].
    destruct C as [->|[C Hf]]; [by left|]. right. split; [done|]. by apply (evolves_free nav1 nav2). }
  constructor; [done| | | | | | |].
  - rewrite (ev_nx _ _ Hev). apply Hu.
  - rewrite (ev_ns _ _ Hev). apply Hu.
  - rewrite (ev_start _ _ Hev). apply Hu.
  - intros x y Hx Hy Hb. rewrite (ev_cost _ _ Hev), (su_cost _ _ _ Hu x y Hx Hy). by rewrite bool_decide_eq_true_2.
  - intros x y Hx Hy Hb. rewrite (ev_cost _ _ Hev), (su_cost _ _ _ Hu x y Hx Hy). by rewrite bool_decide_eq_false_2.
  - intros n Hn Hf. destruct (Hp n Hn) as (p & E & [->|[_ C]]); done.
  - intros n Hn. destruct (Hp n Hn) as (p & E & C). exists p. split; [done|]. tauto.
Qed.

(** C28. Dijkstra propagation is safe on every map: whatever the costs, the
    border of obstacles keeps every access in the arrays, no cell is in two
    buffers at once, obstacle cells keep their initial potential, the others
    only go down, and the answer true means that none of the three buffers of
    the wave has a cell left, or that it has reached the start. *)
Theorem calcNavFnDijkstra_safe (nav : NavFn) (atStart : bool) :
  sized nav -> 0 <= goal_cell nav < ns nav -> (atStart = true -> 0 <= start_cell nav < ns nav) ->
  exists b nav', calcNavFnDijkstra nav atStart = Some (b, nav') /\ propagated nav nav' /\
    (b = true -> idle nav' \/
       atStart = true /\ exists p, aget (potarr nav') (start_cell nav') = Some p /\ flt (f_of_s p) POT_HIGH = true).
Proof.
  intros Hs Hg Hst. unfold calcNavFnDijkstra.
  destruct (setupNavFn_ok nav true Hs Hg) as (nav1 & -> & Hu). mred.
  unfold propNavFnDijkstra, updateCell.
  destruct (prop_loop_ok (fun _ _ pot => pot) (cycle_bound nav1) atStart nav1) as (c & nav2 & -> & Hev & Hr & Hend).
  - apply Hu.
  - intros Ha. unfold start_cell. rewrite (su_start _ _ _ Hu), (su_nx _ _ _ Hu), (su_ns _ _ _ Hu). by apply Hst.
  - mred. simpl. eexists _, nav2. split; [done|]. split; [by eapply evolves_propagated|].
    intros Hb. apply Hend. by apply Z.ltb_lt.
Qed.

(** A* propagation is safe in the same way, whatever the distance
    heuristic computes, and answers true exactly when the start has a finite
    potential, which it records as the cost of the path. *)
Theorem calcNavFnAstar_safe (hypot : spec_float -> spec_float -> spec_float) (nav : NavFn) :
  sized nav -> 0 <= goal_cell nav < ns nav -> 0 <= start_cell nav < ns nav ->
  exists b nav' p, calcNavFnAstar hypot nav = Some (b, nav') /\ propagated nav nav' /\
    aget (potarr nav') (start_cell nav) = Some p /\ last_path_cost_ nav' = p /\
    b = flt (f_of_s p) POT_HIGH.
Proof.
  intros Hs Hg Hst. unfold calcNavFnAstar.
  destruct (setupNavFn_ok nav true Hs Hg) as (nav1 & -> & Hu). mred.
  unfold propNavFnAstar, updateCellAstar. cbv zeta.
  match goal with |- context [prop_loop (update_cell ?h) _ true ?n] => set (heur := h); set (nav1' := n) end.
  assert (ready nav1') as Hr1.
  { destruct (su_ready _ _ _ Hu) as [[] Hb Hn Ho []]. constructor; [by constructor | exact Hb | exact Hn | exact Ho | by constructor]. }
  assert (evolves nav1 nav1') as Hev1.
  { constructor; try done. intros n p E. exists p. by split; [|left]. }
  destruct (prop_loop_ok heur (cycle_bound nav1) true nav1') as (c & nav2 & -> & Hev & Hr & _); [done| |].
  { intros _. unfold start_cell. simpl. rewrite (su_start _ _ _ Hu), (su_nx _ _ _ Hu), (su_ns _ _ _ Hu). done. }
  mred. simpl snd. pose proof (evolves_trans _ _ _ Hev1 Hev) as Hev2.
  pose proof (evolves_propagated nav nav1 nav2 Hs Hu Hev2 Hr) as Hp.
  assert (start_cell nav2 = start_cell nav) as Ec.
  { unfold start_cell. by rewrite (pr_start _ _ Hp), (pr_nx _ _ Hp). }
  rewrite Ec. destruct (pr_down _ _ Hp (start_cell nav) Hst) as (p & E & _). rewrite E. mred.
  eexists _, _, p. split; [done|]. split; [|done].
  destruct Hp as [[[] Hb Hn Ho []] ? ? ? ? ? ? ?]. constructor; try done.
Qed.

(** A 5 by 4 map with a wall, the goal at (1, 1) and the start at (3, 2). *)
Definition example_nav : NavFn :=
  mkNavFn 5 4 20 [50; 50; 50; 50; 50;  50; 50; 254; 50; 50;  50; 50; 50; 50; 50;  50; 50; 50; 50; 50]
    (anew 20 f_zero) (anew 20 false) (anew 20 f_zero) (anew 20 f_zero) 0 [] [] [] f_zero
    (s_of_Z 100) (1, 1) (3, 2) [] [] 0 0 f_zero f_half.

Lemma example_nav_sized : sized example_nav.
Proof. constructor; vm_compute; try reflexivity; discriminate. Qed.

Lemma calcNavFnDijkstra_safe_witness :
  exists nav', calcNavFnDijkstra example_nav true = Some (true, nav') /\
    aget (potarr nav') 7 = Some POT_HIGH_f.
Proof.
  destruct (calcNavFnDijkstra_safe example_nav true example_nav_sized) as (b & nav' & E & Hp & _);
    [vm_compute; intuition discriminate | intros _; vm_compute; intuition discriminate |].
  exists nav'. assert (b = true) as ->.
  { assert (fst <$> calcNavFnDijkstra example_nav true = Some b) as Eb by (by rewrite E).
    vm_compute in Eb. by injection Eb. }
  split; [exact E|]. rewrite (pr_obstacle _ _ Hp 7); [reflexivity | vm_compute; intuition discriminate |].
  intros (c & Ec & Hc). change 7 with (1 * nx example_nav + 2) in Ec.
  rewrite (pr_inner _ _ Hp) in Ec; [|vm_compute; intuition discriminate..|unfold on_border; simpl; lia].
  vm_compute in Ec. injection Ec as <-. unfold COST_OBS in Hc. lia.
Defined.

(** The distance as the root of the sum of squares, for the examples. *)
Definition hypot_root (x y : spec_float) : spec_float := fsqrt (fadd (fmul x x) (fmul y y)).

Lemma calcNavFnAstar_safe_witness :
  exists nav' p, calcNavFnAstar hypot_root example_nav = Some (true, nav') /\
    aget (potarr nav') 13 = Some p /\ last_path_cost_ nav' = p.
Proof.
  destruct (calcNavFnAstar_safe hypot_root example_nav example_nav_sized) as (b & nav' & p & E & _ & Hp & Hl & Hb);
    [vm_compute; intuition discriminate..|].
  exists nav', p. assert (b = true) as ->.
  { assert (fst <$> calcNavFnAstar hypot_root example_nav = Some b) as Eb by (by rewrite E).
    vm_compute in Eb. by injection Eb. }
  split; [exact E|]. split; [exact Hp|exact Hl].
Defined.

(** ** Costs *)

Definition translated (allow_unknown : bool) (v : Z) : Z :=
  if v <? COST_OBS_ROS then COST_NEUTRAL + 4 * v / 5
  else if (v =? COST_UNKNOWN_ROS) && allow_unknown then COST_OBS - 1 else COST_OBS.

Definition scale_ok (v : Z) : bool :=
  match scale_cost v with Some c => c =? COST_NEUTRAL + 4 * v / 5 | None => false end.

Lemma scale_table : forallb scale_ok (zrange 0 COST_OBS_ROS) = true.
Proof. vm_compute. reflexivity. Qed.

Lemma scale_cost_exact v : 0 <= v < COST_OBS_ROS -> scale_cost v = Some (COST_NEUTRAL + 4 * v / 5).
Proof.
  intros Hv. pose proof scale_table as H. rewrite forallb_forall in H.
  specialize (H v (proj1 (list_elem_of_In _ _) (proj2 (elem_of_zrange 0 COST_OBS_ROS v) Hv))).
  unfold scale_ok in H. destruct (scale_cost v); [|done]. by apply Z.eqb_eq in H as ->.
Qed.

Lemma translated_range b v : 0 <= v < 256 -> COST_NEUTRAL <= translated b v <= COST_OBS.
Proof.
  intros Hv. unfold translated, COST_OBS_ROS, COST_NEUTRAL, COST_OBS, COST_UNKNOWN_ROS.
  destruct (Z.ltb_spec v 253); [Z.div_mod_to_equations; lia|]. destruct (_ && _); lia.
Qed.

Lemma ros_cost_exact b v : 0 <= v < 256 -> ros_cost b v = Some (translated b v).
Proof.
  intros Hv. pose proof (translated_range b v Hv) as Hr. unfold ros_cost, translated in *.
  destruct (Z.ltb_spec v COST_OBS_ROS).
  - rewrite scale_cost_exact by lia. mred. unfold u8. rewrite Z.mod_small; [done|].
    unfold COST_NEUTRAL, COST_OBS in *. lia.
  - by destruct (_ && _).
Qed.

Lemma copy_costs b cmap w h i c :
  alen cmap = w * h -> alen c = w * h -> 0 <= w -> 0 <= i < h -> Forall (fun v => 0 <= v < 256) cmap ->
  (forall k v, 0 <= k < i * w -> aget cmap k = Some v -> aget c k = Some (translated b v)) ->
  exists c', for_range 0 w (fun _ '(k, cm) => v ← aget cmap k; c ← ros_cost b v; cm ← aset cm k c; Some (k + 1, cm))
      (i * w, c) = Some ((i + 1) * w, c') /\ alen c' = w * h /\
    (forall k v, 0 <= k < (i + 1) * w -> aget cmap k = Some v -> aget c' k = Some (translated b v)).
Proof.
  intros Hm Hc Hw Hi HF Hold. match goal with |- context [for_range 0 w ?f _] => set (body := f) end.
  destruct (for_range_inv (fun j '(k, c1) => k = i * w + j /\ alen c1 = w * h /\
    (forall k v, 0 <= k < i * w + j -> aget cmap k = Some v -> aget c1 k = Some (translated b v)))
    body 0 w (i * w, c)) as ([k c'] & E & -> & L & H); [done| | |].
  - rewrite Z.add_0_r. done.
  - intros j [k c1] Hj (-> & L1 & H1). unfold body. pose proof (index_bound w h j i Hj Hi).
    destruct (aget_is_Some cmap (i * w + j) ltac:(lia)) as [v Ev]. rewrite Ev. mred.
    rewrite ros_cost_exact by (apply (proj1 (Forall_forall _ _) HF); by eapply aget_elem). mred.
    pose proof (aset_Some c1 (i * w + j) (translated b v) ltac:(lia)) as Es. rewrite Es. mred.
    eexists. split; [done|]. split; [lia|]. split; [by rewrite (aset_len _ _ _ _ Es)|].
    intros k v' Hk Ek. rewrite (aget_aset _ _ _ _ k Es).
    destruct (Z.eqb_spec (i * w + j) k) as [<-|]; [by simplify_eq|]. apply H1; [lia|done].
  - exists c'. rewrite E. replace (i * w + w) with ((i + 1) * w) in * by lia. done.
Qed.

(** [setCostmap] translates a ROS costmap cell by cell: a cost below the
    inscribed one becomes 50 + 4/5 of it, exactly and never capped, so that
    costs keep their order below an obstacle; the inscribed and lethal costs
    become obstacles, and unknown space the highest traversable cost or an
    obstacle. *)
Theorem setCostmap_translates (nav : NavFn) (cmap : list Z) (allow_unknown : bool) :
  sized nav -> alen cmap = ns nav -> Forall (fun v => 0 <= v < 256) cmap ->
  exists c, setCostmap nav cmap true allow_unknown = Some (set_cost nav c) /\ sized (set_cost nav c) /\
    (forall n v, aget cmap n = Some v -> aget c n = Some (translated allow_unknown v)) /\
    (forall v v', 0 <= v <= v' -> v' < COST_OBS_ROS ->
       COST_NEUTRAL <= translated allow_unknown v <= translated allow_unknown v' /\
       translated allow_unknown v' < COST_OBS - 1).
Proof.
  intros Hs Hm HF. pose proof Hs as []. unfold setCostmap.
  match goal with |- context [for_range 0 (ny nav) ?f _] => set (body := f) end.
  destruct (for_range_inv (fun i '(k, c) => k = i * nx nav /\ alen c = nx nav * ny nav /\
    (forall k v, 0 <= k < i * nx nav -> aget cmap k = Some v -> aget c k = Some (translated allow_unknown v)))
    body 0 (ny nav) (0, costarr nav)) as ([k c] & -> & -> & L & H); [lia| | |].
  - split; [done|]. split; [congruence|]. lia.
  - intros i [k c] Hi (-> & L & H). unfold body.
    destruct (copy_costs allow_unknown cmap (nx nav) (ny nav) i c) as (c' & -> & L' & H'); [lia..|done|done|].
    eexists. split; [done|]. done.
  - mred. exists c. simpl. split; [done|]. split; [constructor; simpl; done || lia|]. split.
    + intros n v E. apply H; [|done]. apply aget_bounds in E. lia.
    + intros v v' Hv Hv'. unfold translated.
      rewrite !(proj2 (Z.ltb_lt _ _)) by lia. unfold COST_NEUTRAL, COST_OBS, COST_OBS_ROS in *.
      Z.div_mod_to_equations. lia.
Qed.

Lemma setCostmap_translates_witness :
  exists c, setCostmap example_nav (anew 20 252) true true = Some (set_cost example_nav c) /\ aget c 6 = Some 251.
Proof.
  destruct (setCostmap_translates example_nav (anew 20 252) true example_nav_sized) as (c & E & _ & H & _);
    [reflexivity | repeat constructor; discriminate |].
  exists c. split; [exact E|]. apply (H 6 252). reflexivity.
Defined.
