(* ===== verification/NavFnPath.v ===== *)
(** Path extraction of the navigation function planner ([calcPath] and
    [gradCell] of navfn.cpp). *)

From S2P Require Import Prelude Floats Bresenham NavFn.

Section path.
(** The [float] overload of [hypot]. *)
Context (hypotf : spec_float -> spec_float -> spec_float).

(** [p < POT_HIGH] for a [float]; the constant is a [double]. *)
Definition low (p : spec_float) : bool := flt (f_of_s p) POT_HIGH.
Definition high (p : spec_float) : bool := fge (f_of_s p) POT_HIGH.

(** ** Gradient of a cell *)

(** Away from an obstacle, along one axis. *)
Definition obstacle_side (nav : NavFn) (a b : Z) : option spec_float :=
  pa ← aget (potarr nav) a;
  if low pa then Some (s_of_Z (- COST_OBS))
  else
    pb ← aget (potarr nav) b;
    Some (if low pb then s_of_Z COST_OBS else f_zero).

(** The sum of the differences to the two sides of an axis. *)
Definition slope (nav : NavFn) (cv : spec_float) (a b : Z) : option spec_float :=
  pa ← aget (potarr nav) a;
  let d := if low pa then sadd f_zero (ssub pa cv) else f_zero in
  pb ← aget (potarr nav) b;
  Some (if low pb then sadd d (ssub cv pb) else d).

Definition gradCell (nav : NavFn) (n : Z) : option (spec_float * NavFn) :=
  gx ← aget (gradx nav) n;
  gy ← aget (grady nav) n;
  if fgt (sadd gx gy) f_zero then Some (s_of_Z 1, nav)
  else if (n <? nx nav) || (ns nav - nx nav <? n) then Some (f_zero, nav)
  else
    cv ← aget (potarr nav) n;
    d ← (if high cv then
           dx ← obstacle_side nav (n - 1) (n + 1);
           dy ← obstacle_side nav (n - nx nav) (n + nx nav);
           Some (dx, dy)
         else
           dx ← slope nav cv (n - 1) (n + 1);
           dy ← slope nav cv (n - nx nav) (n + nx nav);
           Some (dx, dy));
    let '(dx, dy) := d in
    let norm := hypotf dx dy in
    if fgt norm f_zero then
      let norm := s_of_f (fdiv f_one (f_of_s norm)) in
      gxs ← aset (gradx nav) n (smul norm dx);
      gys ← aset (grady nav) n (smul norm dy);
      Some (norm, set_grad nav gxs gys)
    else Some (norm, nav).

(** ** Descent *)

(** The position: a cell and an offset from it. *)
Record Walk := mkWalk { stc : Z; wdx : spec_float; wdy : spec_float }.

Definition nearest_point (nav : NavFn) (w : Walk) : option Z :=
  rx ← f_to_s32 (fround (wdx w));
  ry ← f_to_s32 (smul (s_of_Z (nx nav)) (fround (wdy w)));
  Some (Z.max 0 (Z.min (nx nav * ny nav - 1) (stc w + rx + ry))).

(** Appends a point to the path arrays. *)
Definition add_point (nav : NavFn) (x y : spec_float) : option NavFn :=
  xs ← aset (pathx nav) (npath nav) x;
  ys ← aset (pathy nav) (npath nav) y;
  Some (set_path nav xs ys (npath nav + 1) (npathbuf nav)).

Definition oscillates (nav : NavFn) : option bool :=
  if 2 <? npath nav then
    x1 ← aget (pathx nav) (npath nav - 1); x3 ← aget (pathx nav) (npath nav - 3);
    if feq x1 x3 then
      y1 ← aget (pathy nav) (npath nav - 1); y3 ← aget (pathy nav) (npath nav - 3);
      Some (feq y1 y3)
    else Some false
  else Some false.

(** [potarr[a] >= POT_HIGH || potarr[b] >= POT_HIGH || ...], from the left. *)
Fixpoint any_high (nav : NavFn) (cells : list Z) : option bool :=
  match cells with
  | [] => Some false
  | n :: cells => p ← aget (potarr nav) n; if high p then Some true else any_high nav cells
  end.

(** The lowest of the neighbours; [minp] is an [int]. *)
Fixpoint lowest (nav : NavFn) (cells : list Z) (minc minp : Z) : option Z :=
  match cells with
  | [] => Some minc
  | n :: cells =>
      p ← aget (potarr nav) n;
      if flt p (s_of_Z minp) then v ← f_to_s32 p; lowest nav cells n v
      else lowest nav cells minc minp
  end.

Definition around (nav : NavFn) (s : Z) : list Z :=
  let nxt := s + nx nav in
  let prv := s - nx nav in
  [prv - 1; prv; prv + 1; s - 1; s + 1; nxt - 1; nxt; nxt + 1].

(** Follows the grid: one of the eight neighbours, or failure. *)
Definition follow_grid (nav : NavFn) (w : Walk) : option (option Walk) :=
  p ← aget (potarr nav) (stc w);
  minp ← f_to_s32 p;
  c ← lowest nav (around nav (stc w)) (stc w) minp;
  p ← aget (potarr nav) c;
  if high p then Some None else Some (Some (mkWalk c f_zero f_zero)).

(** [(1.0 - t) * a + t * b], computed in double precision. *)
Definition blend (t a b : spec_float) : spec_float :=
  s_of_f (fadd (fmul (fsub f_one (f_of_s t)) (f_of_s a)) (fmul (f_of_s t) (f_of_s b))).

(** Follows the interpolated gradient. *)
Definition follow_gradient (nav : NavFn) (w : Walk) : option (option (NavFn * Walk)) :=
  let s := stc w in
  let snx := s + nx nav in
  r ← gradCell nav s; let nav := snd r in
  r ← gradCell nav (s + 1); let nav := snd r in
  r ← gradCell nav snx; let nav := snd r in
  r ← gradCell nav (snx + 1); let nav := snd r in
  gx0 ← aget (gradx nav) s; gx1 ← aget (gradx nav) (s + 1);
  gx2 ← aget (gradx nav) snx; gx3 ← aget (gradx nav) (snx + 1);
  gy0 ← aget (grady nav) s; gy1 ← aget (grady nav) (s + 1);
  gy2 ← aget (grady nav) snx; gy3 ← aget (grady nav) (snx + 1);
  let x := blend (wdy w) (blend (wdx w) gx0 gx1) (blend (wdx w) gx2 gx3) in
  let y := blend (wdy w) (blend (wdx w) gy0 gy1) (blend (wdx w) gy2 gy3) in
  if feq x f_zero && feq y f_zero then Some None
  else
    let ss := sdiv (pathStep nav) (hypotf x y) in
    let dx := sadd (wdx w) (smul x ss) in
    let dy := sadd (wdy w) (smul y ss) in
    let '(s, dx) := if fgt (f_of_s dx) f_one then (s + 1, s_of_f (fsub (f_of_s dx) f_one)) else (s, dx) in
    let '(s, dx) := if flt (f_of_s dx) (f_of_Z (-1)) then (s - 1, s_of_f (fadd (f_of_s dx) f_one)) else (s, dx) in
    let '(s, dy) := if fgt (f_of_s dy) f_one then (s + nx nav, s_of_f (fsub (f_of_s dy) f_one)) else (s, dy) in
    let '(s, dy) := if flt (f_of_s dy) (f_of_Z (-1)) then (s - nx nav, s_of_f (fadd (f_of_s dy) f_one)) else (s, dy) in
    Some (Some (nav, mkWalk s dx dy)).

(** One round: the answer, or the next position. *)
Definition path_step (nav : NavFn) (w : Walk) : option (NavFn * (Z + Walk)) :=
  k ← nearest_point nav w;
  p ← aget (potarr nav) k;
  if flt p (s_of_Z COST_NEUTRAL) then
    nav ← add_point nav (s_of_Z (fst (goal nav))) (s_of_Z (snd (goal nav)));
    Some (nav, inl (npath nav))
  else if (stc w <? nx nav) || (ns nav - nx nav <? stc w) then Some (nav, inl 0)
  else
    nav ← add_point nav (sadd (s_of_Z (Z.rem (stc w) (nx nav))) (wdx w))
            (sadd (s_of_Z (Z.quot (stc w) (nx nav))) (wdy w));
    oscillation_detected ← oscillates nav;
    let s := stc w in
    let stcnx := s + nx nav in
    let stcpx := s - nx nav in
    h ← any_high nav [s; s + 1; s - 1; stcnx; stcnx + 1; stcnx - 1; stcpx; stcpx + 1; stcpx - 1];
    if h || oscillation_detected then
      r ← follow_grid nav w;
      Some (nav, match r with None => inl 0 | Some w => inr w end)
    else
      r ← follow_gradient nav w;
      match r with
      | None => Some (nav, inl 0)
      | Some (nav, w) => Some (nav, inr w)
      end.

(** The path buffers hold at least [n] points; [junk] fills fresh memory. *)
Definition grow_path (junk : Z -> spec_float) (nav : NavFn) (n : Z) : NavFn :=
  if npathbuf nav <? n then set_path nav (fresh_floats junk n) (fresh_floats junk n) (npath nav) n else nav.

Definition calcPath (junk : Z -> spec_float) (nav : NavFn) (n : Z) (st : option (Z * Z)) : option (Z * NavFn) :=
  let nav := grow_path junk nav n in
  let st := match st with Some st => st | None => start nav end in
  let w := mkWalk (snd st * nx nav + fst st) f_zero f_zero in
  let nav := set_path nav (pathx nav) (pathy nav) 0 (npathbuf nav) in
  r ← loop (S (Z.to_nat n)) (fun '(i, nav, w, res) =>
        if i <? n then
          r ← path_step nav w;
          match snd r with
          | inl len => Some (Break (i, fst r, w, Some len))
          | inr w => Some (Next (i + 1, fst r, w, None))
          end
        else Some (Break (i, nav, w, Some 0))) (0, nav, w, None);
  let '(_, nav, _, res) := r in
  Some (default 0 res, nav).
End path.

(** ** Laws *)

(** What the gradient does not touch. *)
Definition same_path (nav nav' : NavFn) : Prop :=
  goal nav' = goal nav /\ npath nav' = npath nav /\ pathx nav' = pathx nav /\ pathy nav' = pathy nav /\
  potarr nav' = potarr nav.

Lemma gradCell_path hypotf nav n r nav' : gradCell hypotf nav n = Some (r, nav') -> same_path nav nav'.
Proof.
  unfold gradCell. intros H.
  destruct (aget (gradx nav) n); [|done]. rewrite mbind_Some in H.
  destruct (aget (grady nav) n); [|done]. rewrite mbind_Some in H.
  destruct (fgt _ _); [by injection H as <- <-|]. destruct (_ || _); [by injection H as <- <-|].
  destruct (aget (potarr nav) n) as [cv|]; [|done]. rewrite mbind_Some in H.
  destruct (if high cv then _ else _) as [[dx dy]|]; [|done]. rewrite mbind_Some in H.
  destruct (fgt (hypotf dx dy) f_zero); [|by injection H as <- <-].
  destruct (aset (gradx nav) n _); [|done]. rewrite mbind_Some in H.
  destruct (aset (grady nav) n _); [|done]. rewrite mbind_Some in H. by injection H as <- <-.
Qed.

Lemma same_path_trans nav1 nav2 nav3 : same_path nav1 nav2 -> same_path nav2 nav3 -> same_path nav1 nav3.
Proof. intros (?&?&?&?&?) (?&?&?&?&?). repeat split; congruence. Qed.

Lemma follow_gradient_path hypotf nav w nav' w' :
  follow_gradient hypotf nav w = Some (Some (nav', w')) -> same_path nav nav'.
Proof.
  unfold follow_gradient. intros H.
  destruct (gradCell hypotf nav (stc w)) as [[r1 nav1]|] eqn:E1; [|done]. rewrite mbind_Some in H. cbn [snd] in H.
  destruct (gradCell hypotf nav1 _) as [[r2 nav2]|] eqn:E2; [|done]. rewrite mbind_Some in H. cbn [snd] in H.
  destruct (gradCell hypotf nav2 _) as [[r3 nav3]|] eqn:E3; [|done]. rewrite mbind_Some in H. cbn [snd] in H.
  destruct (gradCell hypotf nav3 _) as [[r4 nav4]|] eqn:E4; [|done]. rewrite mbind_Some in H. cbn [snd] in H.
  apply gradCell_path in E1, E2, E3, E4.
  assert (same_path nav nav4) as Hs by eauto using same_path_trans.
  do 8 (match type of H with (aget ?l ?k ≫= _) = _ => destruct (aget l k) end; [|done]; rewrite mbind_Some in H).
  cbv zeta in H. destruct (_ && _); [done|].
  repeat match type of H with
    | context [if fgt ?a f_one then _ else _] => destruct (fgt a f_one)
    | context [if flt ?a (f_of_Z (-1)) then _ else _] => destruct (flt a (f_of_Z (-1)))
    end; by injection H as <- <-.
Qed.

(** A point was appended. *)
Lemma add_point_spec nav x y nav' :
  add_point nav x y = Some nav' ->
  goal nav' = goal nav /\ npath nav' = npath nav + 1 /\ nx nav' = nx nav /\
  aget (pathx nav') (npath nav) = Some x /\ aget (pathy nav') (npath nav) = Some y.
Proof.
  unfold add_point. intros H.
  destruct (aset (pathx nav) (npath nav) x) as [xs|] eqn:Ex; [|done]. rewrite mbind_Some in H.
  destruct (aset (pathy nav) (npath nav) y) as [ys|] eqn:Ey; [|done]. rewrite mbind_Some in H. injection H as <-.
  simpl. rewrite (aget_aset _ _ _ _ _ Ex), (aget_aset _ _ _ _ _ Ey), Z.eqb_refl. done.
Qed.

(** What one round does to the path: it appends a point; an answer that is not
    zero is the number of points, the last one being the goal. *)
Definition round_ok (nav nav' : NavFn) (r : Z + Walk) : Prop :=
  goal nav' = goal nav /\
  match r with
  | inl len => len = 0 \/ len = npath nav + 1 /\ npath nav' = len /\
      aget (pathx nav') (len - 1) = Some (s_of_Z (fst (goal nav))) /\
      aget (pathy nav') (len - 1) = Some (s_of_Z (snd (goal nav)))
  | inr _ => npath nav' = npath nav + 1
  end.

Lemma path_step_round hypotf nav w nav' r : path_step hypotf nav w = Some (nav', r) -> round_ok nav nav' r.
Proof.
  unfold path_step, round_ok. intros H.
  destruct (nearest_point nav w) as [k|]; [|done]. rewrite mbind_Some in H.
  destruct (aget (potarr nav) k) as [p|]; [|done]. rewrite mbind_Some in H.
  destruct (flt p _).
  { destruct (add_point nav _ _) as [nav1|] eqn:Ea; [|done]. rewrite mbind_Some in H. injection H as <- <-.
    apply add_point_spec in Ea as (Hg & Hn & _ & Hx & Hy). split; [done|]. right. split; [done|]. split; [done|].
    rewrite Hn, Z.add_simpl_r. done. }
  destruct (_ || _); [injection H as <- <-; by split; [|left]|].
  destruct (add_point nav _ _) as [nav1|] eqn:Ea; [|done]. rewrite mbind_Some in H.
  apply add_point_spec in Ea as (Hg & Hn & _). 
  destruct (oscillates nav1) as [osc|]; [|done]. rewrite mbind_Some in H.
  destruct (any_high nav1 _) as [h|]; [|done]. rewrite mbind_Some in H.
  destruct (h || osc).
  - destruct (follow_grid nav1 w) as [[w'|]|]; [| |done]; rewrite mbind_Some in H; injection H as <- <-;
      (split; [done|]); [done|by left].
  - destruct (follow_gradient hypotf nav1 w) as [[[nav2 w']|]|] eqn:Ef; [| |done]; rewrite mbind_Some in H;
      injection H as <- <-; [|by split; [|left]].
    apply follow_gradient_path in Ef as (? & ? & _). split; congruence.
Qed.

(** ** Definedness *)

(** The positions the descent goes through. *)
Inductive visits (hypotf : spec_float -> spec_float -> spec_float) (nav : NavFn) (w : Walk) : NavFn -> Walk -> Prop :=
| visits_here : visits hypotf nav w nav w
| visits_next nav1 w1 nav2 w2 :
    visits hypotf nav w nav1 w1 -> path_step hypotf nav1 w1 = Some (nav2, inr w2) -> visits hypotf nav w nav2 w2.

(** A cell that is not on the border, and one the descent gives up on. *)
Definition interior (nav : NavFn) (s : Z) : Prop :=
  exists x y, s = y * nx nav + x /\ 1 <= x <= nx nav - 2 /\ 1 <= y <= ny nav - 2.
Definition inside (nav : NavFn) (s : Z) : Prop :=
  s < nx nav \/ ns nav - nx nav < s \/ interior nav s.

Lemma interior_facts nav s :
  sized nav -> interior nav s ->
  nx nav < s < ns nav - nx nav - 1 /\
  (ns nav - nx nav < s + nx nav \/ s + nx nav + nx nav < ns nav) /\
  (ns nav - nx nav < s + nx nav + 1 \/ s + nx nav + 1 + nx nav < ns nav).
Proof.
  intros [] (x & y & -> & Hx & Hy). split; [nia|].
  destruct (decide (y = ny nav - 2)) as [->|]; [split; left; nia|split; right; nia].
Qed.

(** What a round needs besides the arrays: the offset rounds to an [int], and
    so does the potential of the cell. *)
Definition convertible (nav : NavFn) (w : Walk) : Prop :=
  is_Some (nearest_point nav w) /\
  forall p, aget (potarr nav) (stc w) = Some p -> is_Some (f_to_s32 p).

Definition paths_ok (nav : NavFn) (n : Z) : Prop := n <= alen (pathx nav) /\ n <= alen (pathy nav).

Lemma any_high_defined nav cells :
  sized nav -> Forall (fun k => 0 <= k < ns nav) cells -> is_Some (any_high nav cells).
Proof.
  intros Hs. induction 1 as [|k cells Hk _ IH]; simpl; [done|].
  destruct (aget_is_Some (potarr nav) k ltac:(destruct Hs; lia)) as [p ->]. mred. by destruct (high p).
Qed.

(** Below an [int], a potential is an [int] when rounded towards zero. *)
Definition below_ok (nav : NavFn) : Prop :=
  forall k p m, aget (potarr nav) k = Some p -> is_s32 m -> flt p (s_of_Z m) = true -> is_Some (f_to_s32 p).

Lemma lowest_defined nav cells minc minp :
  sized nav -> below_ok nav -> Forall (fun k => 0 <= k < ns nav) cells -> 0 <= minc < ns nav -> is_s32 minp ->
  exists c, lowest nav cells minc minp = Some c /\ 0 <= c < ns nav.
Proof.
  intros Hs Hb HF. revert minc minp. induction HF as [|k cells Hk _ IH]; intros minc minp Hc Hm; simpl; [by exists minc|].
  destruct (aget_is_Some (potarr nav) k ltac:(destruct Hs; lia)) as [p Ep]. rewrite Ep. mred.
  destruct (flt p (s_of_Z minp)) eqn:El; [|by apply IH].
  destruct (Hb k p minp Ep Hm El) as [v Ev]. rewrite Ev. mred. apply IH; [done|]. by apply f_to_s32_inv in Ev as [_ ?].
Qed.

Lemma gradCell_defined hypotf nav n :
  sized nav -> 0 <= n < ns nav -> n < nx nav \/ ns nav - nx nav < n \/ n + nx nav < ns nav ->
  exists r nav', gradCell hypotf nav n = Some (r, nav') /\ sized nav' /\ nx nav' = nx nav /\ ns nav' = ns nav.
Proof.
  intros Hs Hn Hi. pose proof Hs as []. unfold gradCell.
  destruct (aget_is_Some (gradx nav) n ltac:(lia)) as [gx ->].
  destruct (aget_is_Some (grady nav) n ltac:(lia)) as [gy ->]. mred.
  destruct (fgt _ _); [by eexists _, _|].
  destruct ((n <? nx nav) || (ns nav - nx nav <? n)) eqn:B; [by eexists _, _|]. zbool.
  destruct (aget_is_Some (potarr nav) n ltac:(lia)) as [cv ->]. mred.
  assert (forall k, 0 <= k < ns nav -> exists p, aget (potarr nav) k = Some p) as G
    by (intros; apply aget_is_Some; lia).
  destruct (G (n - 1) ltac:(lia)) as [pl El], (G (n + 1) ltac:(nia)) as [pr Er],
    (G (n - nx nav) ltac:(lia)) as [pu Eu], (G (n + nx nav) ltac:(lia)) as [pd Ed].
  assert (exists d, (if high cv then
           dx ← obstacle_side nav (n - 1) (n + 1); dy ← obstacle_side nav (n - nx nav) (n + nx nav); Some (dx, dy)
         else
           dx ← slope nav cv (n - 1) (n + 1); dy ← slope nav cv (n - nx nav) (n + nx nav); Some (dx, dy)) = Some d)
    as [[dx dy] ->].
  { destruct (high cv); unfold obstacle_side, slope; rewrite El, Er, Eu, Ed; mred; [|by eexists].
    destruct (low pl), (low pu); mred; by eexists. }
  mred. destruct (fgt _ _); [|by eexists _, _].
  match goal with |- context [aset (gradx nav) n ?v] => pose proof (aset_Some (gradx nav) n v ltac:(lia)) as Ex end.
  rewrite Ex. mred.
  match goal with |- context [aset (grady nav) n ?v] => pose proof (aset_Some (grady nav) n v ltac:(lia)) as Ey end.
  rewrite Ey. mred. eexists _, _. split; [done|]. split; [|done].
  pose proof (aset_len _ _ _ _ Ex). pose proof (aset_len _ _ _ _ Ey).
  constructor; cbn [set_grad set_arrays nx ny ns costarr potarr pending gradx grady]; congruence || done.
Qed.

Lemma follow_gradient_defined hypotf nav w :
  sized nav -> interior nav (stc w) ->
  exists r, follow_gradient hypotf nav w = Some r /\
    match r with None => True | Some (nav', _) => sized nav' /\ nx nav' = nx nav /\ ns nav' = ns nav end.
Proof.
  intros Hs (Hi & Hd1 & Hd2)%interior_facts; [|done]. unfold follow_gradient. pose proof (sz_nx _ Hs).
  destruct (gradCell_defined hypotf nav (stc w) Hs) as (r1 & n1 & -> & S1 & X1 & N1); [lia..|]. mred. cbn [snd].
  destruct (gradCell_defined hypotf n1 (stc w + 1) S1) as (r2 & n2 & -> & S2 & X2 & N2); [lia..|]. mred. cbn [snd].
  destruct (gradCell_defined hypotf n2 (stc w + nx nav) S2) as (r3 & n3 & -> & S3 & X3 & N3); [lia..|]. mred. cbn [snd].
  destruct (gradCell_defined hypotf n3 (stc w + nx nav + 1) S3) as (r4 & n4 & -> & S4 & X4 & N4); [lia..|]. mred. cbn [snd].
  assert (forall k, 0 <= k < ns n4 -> exists g, aget (gradx n4) k = Some g) as Gx
    by (destruct S4; intros; apply aget_is_Some; lia).
  assert (forall k, 0 <= k < ns n4 -> exists g, aget (grady n4) k = Some g) as Gy
    by (destruct S4; intros; apply aget_is_Some; lia).
  destruct (Gx (stc w) ltac:(lia)) as [? ->], (Gx (stc w + 1) ltac:(lia)) as [? ->],
    (Gx (stc w + nx nav) ltac:(lia)) as [? ->], (Gx (stc w + nx nav + 1) ltac:(lia)) as [? ->],
    (Gy (stc w) ltac:(lia)) as [? ->], (Gy (stc w + 1) ltac:(lia)) as [? ->],
    (Gy (stc w + nx nav) ltac:(lia)) as [? ->], (Gy (stc w + nx nav + 1) ltac:(lia)) as [? ->]. mred.
  cbv zeta. destruct (_ && _); [by eexists|].
  repeat match goal with
    | |- context [if fgt ?a f_one then _ else _] => destruct (fgt a f_one)
    | |- context [if flt ?a (f_of_Z (-1)) then _ else _] => destruct (flt a (f_of_Z (-1)))
    end; eexists; (split; [done|]); (split; [done|]); lia.
Qed.

Lemma around_range nav s :
  sized nav -> nx nav < s < ns nav - nx nav - 1 ->
  Forall (fun k => 0 <= k < ns nav) (s :: around nav s) .
Proof. intros [] Hi. unfold around. repeat constructor; lia. Qed.

Lemma follow_grid_defined nav w :
  sized nav -> below_ok nav -> nx nav < stc w < ns nav - nx nav - 1 ->
  (forall p, aget (potarr nav) (stc w) = Some p -> is_Some (f_to_s32 p)) -> is_Some (follow_grid nav w).
Proof.
  intros Hs Hb Hi Hc. unfold follow_grid. pose proof Hs as [].
  pose proof (around_range nav (stc w) Hs Hi) as HF. apply Forall_cons in HF as [_ HF].
  destruct (aget_is_Some (potarr nav) (stc w) ltac:(lia)) as [p Ep]. rewrite Ep. mred.
  destruct (Hc p Ep) as [v Ev]. rewrite Ev. mred. apply f_to_s32_inv in Ev as [_ Hv].
  destruct (lowest_defined nav _ (stc w) v Hs Hb HF ltac:(lia) Hv) as (c & -> & Hcr). mred.
  destruct (aget_is_Some (potarr nav) c ltac:(lia)) as [q ->]. mred. by destruct (high q).
Qed.

(** The state of the descent: sized arrays, room for the points to come. *)
Record walking (n i : Z) (nav : NavFn) : Prop := {
  wl_sized : sized nav;
  wl_below : below_ok nav;
  wl_paths : paths_ok nav n;
  wl_npath : npath nav = i;
}.

Lemma add_point_defined nav n i x y :
  walking n i nav -> 0 <= i < n ->
  exists nav', add_point nav x y = Some nav' /\ walking n (i + 1) nav' /\ nx nav' = nx nav /\ ny nav' = ny nav /\
    ns nav' = ns nav /\ potarr nav' = potarr nav.
Proof.
  intros [Hs Hb [Hx Hy] Hn] Hi. unfold add_point.
  pose proof (aset_Some (pathx nav) (npath nav) x ltac:(lia)) as Ex. rewrite Ex. mred.
  pose proof (aset_Some (pathy nav) (npath nav) y ltac:(lia)) as Ey. rewrite Ey. mred.
  eexists. split; [done|]. split; [|done]. constructor; [destruct Hs; by constructor|done| |simpl; lia].
  unfold paths_ok. simpl. rewrite (aset_len _ _ _ _ Ex), (aset_len _ _ _ _ Ey). lia.
Qed.

Lemma oscillates_defined nav n i : walking n i nav -> 0 <= i <= n -> is_Some (oscillates nav).
Proof.
  intros [Hs Hb [Hx Hy] Hn] Hi. unfold oscillates. destruct (Z.ltb_spec 2 (npath nav)); [|done].
  destruct (aget_is_Some (pathx nav) (npath nav - 1) ltac:(lia)) as [? ->].
  destruct (aget_is_Some (pathx nav) (npath nav - 3) ltac:(lia)) as [? ->]. mred.
  destruct (aget_is_Some (pathy nav) (npath nav - 1) ltac:(lia)) as [? ->].
  destruct (aget_is_Some (pathy nav) (npath nav - 3) ltac:(lia)) as [? ->]. mred. by destruct (feq _ _).
Qed.

Lemma nearest_range nav w k : sized nav -> nearest_point nav w = Some k -> 0 <= k < ns nav.
Proof.
  intros [] E. unfold nearest_point in E.
  destruct (f_to_s32 (fround (wdx w))); [|done]. rewrite mbind_Some in E.
  destruct (f_to_s32 (smul _ _)); [|done]. rewrite mbind_Some in E. injection E as <-. nia.
Qed.

Lemma path_step_defined hypotf n i nav w :
  walking n i nav -> 0 <= i < n -> convertible nav w -> inside nav (stc w) ->
  exists nav' r, path_step hypotf nav w = Some (nav', r) /\
    match r with inl _ => True | inr _ => walking n (i + 1) nav' end.
Proof.
  intros Hw Hi [[k Ek] Hconv] Hin. pose proof Hw as [Hs Hb Hp Hn]. unfold path_step. rewrite Ek. mred.
  pose proof (nearest_range nav w k Hs Ek) as Hk.
  destruct (aget_is_Some (potarr nav) k ltac:(destruct Hs; lia)) as [p ->]. mred.
  destruct (flt p _).
  { destruct (add_point_defined nav n i (s_of_Z (fst (goal nav))) (s_of_Z (snd (goal nav))) Hw Hi)
      as (nav' & -> & _). mred. by eexists _, _. }
  destruct ((stc w <? nx nav) || (ns nav - nx nav <? stc w)) eqn:B; [by eexists _, _|]. zbool.
  match goal with |- context [add_point nav ?x ?y] => destruct (add_point_defined nav n i x y Hw Hi)
    as (nav1 & -> & Hw1 & Hx1 & Hy1 & Hs1 & Hp1) end. mred.
  destruct (oscillates_defined nav1 n (i + 1) Hw1 ltac:(lia)) as [osc ->]. mred. cbv zeta. pose proof Hw1 as [S1 B1 P1 N1].
  assert (interior nav1 (stc w)) as Hint.
  { destruct Hin as [?|[?|(x & y & Hin)]]; [lia|lia|]. exists x, y. by rewrite Hx1, Hy1. }
  destruct (interior_facts nav1 (stc w) S1 Hint) as [Hi1 _].
  pose proof (around_range nav1 (stc w) S1 Hi1) as HF. unfold around in HF.
  destruct (any_high_defined nav1 [stc w; stc w + 1; stc w - 1; stc w + nx nav1; stc w + nx nav1 + 1;
    stc w + nx nav1 - 1; stc w - nx nav1; stc w - nx nav1 + 1; stc w - nx nav1 - 1] S1) as [h ->].
  { rewrite !Forall_cons in *. intuition. }
  mred. destruct (h || osc).
  - destruct (follow_grid_defined nav1 w S1 B1 Hi1) as [[w'|] ->]; [by rewrite Hp1|..]; mred; by eexists _, _.
  - destruct (follow_gradient_defined hypotf nav1 w S1 Hint) as (r & Ef & Hr). rewrite Ef. mred.
    destruct r as [[nav2 w2]|]; [|by eexists _, _]. eexists _, _. split; [done|].
    pose proof (follow_gradient_path _ _ _ _ _ Ef) as (_ & Hn2 & Hx2 & Hy2 & Hp2).
    constructor; [apply Hr | | unfold paths_ok in *; by rewrite Hx2, Hy2 | lia].
    unfold below_ok. by rewrite Hp2.
Qed.

(** The position [calcPath] starts from, its buffers grown. *)
Definition path_start (junk : Z -> spec_float) (nav : NavFn) (n : Z) (st : option (Z * Z)) : NavFn * Walk :=
  let nav := grow_path junk nav n in
  let st := match st with Some st => st | None => start nav end in
  (set_path nav (pathx nav) (pathy nav) 0 (npathbuf nav), mkWalk (snd st * nx nav + fst st) f_zero f_zero).

Lemma path_start_walking junk nav n st :
  sized nav -> below_ok nav -> alen (pathx nav) = npathbuf nav -> alen (pathy nav) = npathbuf nav -> 0 <= n ->
  walking n 0 (fst (path_start junk nav n st)).
Proof.
  intros Hs Hb Hx Hy Hn. unfold path_start, grow_path.
  assert (alen (fresh_floats junk n) = n) as Hf.
  { unfold alen, fresh_floats. rewrite length_fmap, zrange_length. lia. }
  destruct (Z.ltb_spec (npathbuf nav) n); simpl; (constructor; [destruct Hs; by constructor|done| |done]);
    unfold paths_ok; simpl; lia.
Qed.

Lemma calcPath_result hypotf junk nav n st len nav' :
  calcPath hypotf junk nav n st = Some (len, nav') ->
  len = 0 \/ 0 < len <= n /\ npath nav' = len /\
  aget (pathx nav') (len - 1) = Some (s_of_Z (fst (goal nav))) /\
  aget (pathy nav') (len - 1) = Some (s_of_Z (snd (goal nav))).
Proof.
  unfold calcPath. intros H.
  match type of H with context [loop _ ?b ?s] => set (body := b) in H; set (s0 := s) in H end.
  destruct (loop _ body s0) as [[[[i nav1] w1] res]|] eqn:E; [|done]. rewrite mbind_Some in H. injection H as <- <-.
  revert E. apply (loop_post (fun '(i, nv, w, res) => 0 <= i /\ npath nv = i /\ goal nv = goal nav /\ res = None)
    (fun '(i, nv, w, res) => default 0 res = 0 \/ 0 < default 0 res <= n /\ npath nv = default 0 res /\
       aget (pathx nv) (default 0 res - 1) = Some (s_of_Z (fst (goal nav))) /\
       aget (pathy nv) (default 0 res - 1) = Some (s_of_Z (snd (goal nav))))).
  - intros [[[j nv] w] rs] c (Hj & Hn & Hg & ->) Hb. unfold body in Hb.
    destruct (Z.ltb_spec j n); [|injection Hb as <-; by left].
    destruct (path_step hypotf nv w) as [[nv' r]|] eqn:Es; [|done]. rewrite mbind_Some in Hb. cbn [fst snd] in Hb.
    apply path_step_round in Es as [Hg' Hr]. destruct r as [l|w']; injection Hb as <-.
    + rewrite Hg in *. simpl. destruct Hr as [->|(-> & ? & ? & ?)]; [by left|]. right. split; [lia|]. done.
    + split; [lia|]. split; [congruence|]. split; [congruence|done].
  - unfold s0. unfold grow_path. by destruct (npathbuf nav <? n).
Qed.

Lemma calcPath_defined hypotf junk nav n st :
  let '(nav0, w0) := path_start junk nav n st in
  walking n 0 nav0 -> 0 <= n ->
  (forall nav1 w1, visits hypotf nav0 w0 nav1 w1 -> convertible nav1 w1 /\ inside nav1 (stc w1)) ->
  is_Some (calcPath hypotf junk nav n st).
Proof.
  destruct (path_start junk nav n st) as [nav0 w0] eqn:E0. intros Hw Hn Hv. unfold calcPath, path_start in *.
  injection E0 as E1 E2. cbv zeta. rewrite E1, E2.
  match goal with |- context [loop _ ?b _] => set (body := b) end.
  destruct (loop_inv (fun '(i, nv, w, res) => 0 <= i <= n /\ walking n i nv /\ visits hypotf nav0 w0 nv w)
    (fun _ => True) (fun '(i, nv, w, res) => Z.to_nat (n - i)) body)
    with (fuel := S (Z.to_nat n)) (s := (0, nav0, w0, @None Z)) as ([[[i nv] w] res] & -> & _).
  - intros [[[i nv] w] res] (Hi & Hwi & Hvis). unfold body. destruct (Z.ltb_spec i n); [|by eexists].
    destruct (Hv nv w Hvis) as [Hc Hin].
    destruct (path_step_defined hypotf n i nv w Hwi ltac:(lia) Hc Hin) as (nv' & r & Es & Hr). rewrite Es. mred. cbn [fst snd].
    destruct r as [l|w']; [by eexists|]. eexists. split; [done|]. split; [|lia]. split; [lia|]. split; [done|].
    by eapply visits_next.
  - split; [lia|]. split; [done|]. constructor.
  - lia.
  - mred. done.
Qed.

(** C29. [calcPath] ends after at most [n] rounds. As long as the positions it
    goes through are not on the side borders of the map and their offsets and
    potentials convert to integers, it returns: either zero, or the number of points stored, at most [n], of which the last is
    the goal. *)
Theorem calcPath_returns_path (hypotf : spec_float -> spec_float -> spec_float) (junk : Z -> spec_float)
    (nav : NavFn) (n : Z) (st : option (Z * Z)) :
  sized nav -> below_ok nav -> alen (pathx nav) = npathbuf nav -> alen (pathy nav) = npathbuf nav -> 0 <= n ->
  (forall nav1 w1, visits hypotf (fst (path_start junk nav n st)) (snd (path_start junk nav n st)) nav1 w1 ->
     convertible nav1 w1 /\ inside nav1 (stc w1)) ->
  exists len nav', calcPath hypotf junk nav n st = Some (len, nav') /\
    (len = 0 \/ 0 < len <= n /\ npath nav' = len /\
     aget (pathx nav') (len - 1) = Some (s_of_Z (fst (goal nav))) /\
     aget (pathy nav') (len - 1) = Some (s_of_Z (snd (goal nav)))).
Proof.
  intros Hs Hb Hx Hy Hn Hv. pose proof (path_start_walking junk nav n st Hs Hb Hx Hy Hn) as Hw.
  pose proof (calcPath_defined hypotf junk nav n st) as Hd.
  destruct (path_start junk nav n st) as [nav0 w0]. destruct (Hd Hw Hn Hv) as [[len nav'] E].
  exists len, nav'. split; [done|]. by eapply calcPath_result.
Qed.

(** ** An example *)

(** The map of [example_nav], potential 100 everywhere but at the goal. *)
Definition example_pots : NavFn :=
  set_ends (set_pot example_nav (<[6%nat := f_zero]> (anew 20 (s_of_Z 100)))) (1, 1) (2, 1).

Lemma example_pots_sized : sized example_pots.
Proof. constructor; vm_compute; try reflexivity; discriminate. Qed.

Definition fits_int (p : spec_float) : bool := match f_to_s32 p with Some _ => true | None => false end.

Lemma fits_all l : forallb fits_int l = true -> Forall (fun p => is_Some (f_to_s32 p)) l.
Proof.
  intros H. apply Forall_forall. intros p Hp. rewrite forallb_forall in H.
  specialize (H p (proj1 (list_elem_of_In _ _) Hp)). unfold fits_int in H. by destruct (f_to_s32 p).
Qed.

Lemma example_pots_below : below_ok example_pots.
Proof.
  intros k p m E _ _. apply aget_elem in E.
  assert (Forall (fun p => is_Some (f_to_s32 p)) (potarr example_pots)) as HF.
  { apply fits_all. vm_compute. reflexivity. }
  exact (proj1 (Forall_forall _ _) HF p E).
Qed.

Definition example_start : NavFn * Walk := path_start (fun _ => f_zero) example_pots 10 None.

(** The position after one round. *)
Definition example_second : NavFn * Walk :=
  match path_step hypot_root (fst example_start) (snd example_start) with
  | Some (nav, inr w) => (nav, w)
  | _ => example_start
  end.

Lemma example_second_answers :
  exists nav, path_step hypot_root (fst example_second) (snd example_second) = Some (nav, inl 2).
Proof. eexists. vm_compute. reflexivity. Qed.

Lemma example_visits nav w :
  visits hypot_root (fst example_start) (snd example_start) nav w ->
  (nav, w) = example_start \/ (nav, w) = example_second.
Proof.
  induction 1 as [|nav1 w1 nav2 w2 _ IH E]; [left; symmetry; apply surjective_pairing|].
  destruct IH as [IH|IH].
  - right. unfold example_second. rewrite <- IH. cbn [fst snd]. rewrite E. reflexivity.
  - exfalso. replace nav1 with (fst example_second) in E by (by rewrite <- IH).
    replace w1 with (snd example_second) in E by (by rewrite <- IH).
    destruct example_second_answers as [nav' E']. rewrite E' in E. discriminate E.
Qed.

Definition conv_check (nav : NavFn) (w : Walk) : bool :=
  match nearest_point nav w, aget (potarr nav) (stc w) with
  | Some _, Some p => fits_int p
  | _, _ => false
  end.

Lemma conv_check_ok nav w : conv_check nav w = true -> convertible nav w.
Proof.
  unfold conv_check, convertible, fits_int. destruct (nearest_point nav w); [|done].
  destruct (aget (potarr nav) (stc w)) as [p|]; [|done]. intros H. split; [done|]. intros q [= <-].
  by destruct (f_to_s32 p).
Qed.

Lemma example_visits_ok nav w :
  visits hypot_root (fst example_start) (snd example_start) nav w -> convertible nav w /\ inside nav (stc w).
Proof.
  intros [E|E]%example_visits.
  - replace nav with (fst example_start) by (by rewrite <- E). replace w with (snd example_start) by (by rewrite <- E).
    split; [apply conv_check_ok; vm_compute; reflexivity|].
    right. right. exists 2, 1. vm_compute. intuition discriminate.
  - replace nav with (fst example_second) by (by rewrite <- E). replace w with (snd example_second) by (by rewrite <- E).
    split; [apply conv_check_ok; vm_compute; reflexivity|].
    right. right. exists 2, 1. vm_compute. intuition discriminate.
Qed.

Lemma calcPath_returns_path_witness :
  exists nav', calcPath hypot_root (fun _ => f_zero) example_pots 10 None = Some (2, nav') /\
    aget (pathx nav') 1 = Some (s_of_Z 1) /\ aget (pathy nav') 1 = Some (s_of_Z 1).
Proof.
  destruct (calcPath_returns_path hypot_root (fun _ => f_zero) example_pots 10 None example_pots_sized
    example_pots_below eq_refl eq_refl ltac:(lia) example_visits_ok) as (len & nav' & E & H).
  assert (len = 2) as ->.
  { assert (fst <$> calcPath hypot_root (fun _ => f_zero) example_pots 10 None = Some len) as El by (by rewrite E).
    vm_compute in El. by injection El. }
  exists nav'. split; [exact E|]. destruct H as [H|(_ & _ & Hx & Hy)]; [lia|]. split; [exact Hx|exact Hy].
Defined.

(** The bounds test of [calcPath] lets cells of the side borders through:
    from the cell (0, 1) it reads the potential before the first one, and from
    the cell (0, ny - 1) the one after the last. *)
Theorem calcPath_border_unsafe :
  exists nav, sized nav /\ alen (pathx nav) = npathbuf nav /\ alen (pathy nav) = npathbuf nav /\
    Forall (fun p => is_Some (f_to_s32 p)) (potarr nav) /\
    calcPath hypot_root (fun _ => f_zero) nav 10 (Some (0, 1)) = None /\
    calcPath hypot_root (fun _ => f_zero) nav 10 (Some (0, ny nav - 1)) = None.
Proof.
  exists (set_pot example_pots (anew 20 (s_of_Z 100))).
  split; [constructor; vm_compute; try reflexivity; discriminate|]. do 2 (split; [reflexivity|]).
  split; [apply fits_all; vm_compute; reflexivity|]. split; vm_compute; reflexivity.
Qed.
