(* ===== verification/ActionServer.v ===== *)
(** The action server of nav2_util (simple_action_server.hpp): one goal being
    executed by a worker thread, one pending, and the thread of the callbacks
    of ROS. A step is what a thread does under the mutex; the steps of the
    threads interleave at will. The goal handles, of rclcpp_action, are an
    interface. *)

From stdpp Require Import gmap relations.
From S2P Require Import Prelude.

(** ** Goal handles *)

(** The state of a [ServerGoalHandle] and its transitions; [None] is the
    exception of a transition that the state does not allow. *)
Class GoalHandle (H : Type) := {
  goal_new : H;
  goal_active : H -> bool;
  goal_canceling : H -> bool;
  goal_cancel : H -> H;
  goal_succeed : H -> option H;
  goal_abort : H -> option H;
  goal_canceled : H -> option H;
}.

(** What rclcpp_action documents: a new goal is active, a goal being canceled
    still is; an active goal can succeed or be aborted, and one being canceled
    can become canceled; it is then no longer active. *)
Class GoalHandleLaws H `{GoalHandle H} : Prop := {
  new_active : goal_active goal_new = true;
  canceling_active h : goal_canceling h = true -> goal_active h = true;
  cancel_active h : goal_active h = true -> goal_active (goal_cancel h) = true;
  succeed_ends h : goal_active h = true -> exists h', goal_succeed h = Some h' /\ goal_active h' = false;
  abort_ends h : goal_active h = true -> exists h', goal_abort h = Some h' /\ goal_active h' = false;
  canceled_ends h : goal_canceling h = true -> exists h', goal_canceled h = Some h' /\ goal_active h' = false;
}.

(** ** The code *)

(** Where the worker thread is: at the test of its loop, in the callback of the
    user, back from it or with its exception, past its last look at the
    pending goal, or gone. *)
Inductive Worker := Checking | Executing | Finishing | Failing | Leaving | Ended.

Section server.
Context {H : Type} `{GoalHandle H}.

(** Whether a completion callback was given. *)
Context (completion_callback : bool).

(** [worker] is [execution_future_]. [goals] are the handles made so far,
    [arriving] the ones [handle_goal] accepted and [handle_accepted] has not
    been given yet, [completions] the calls of the completion callback. *)
Record Server := mkServer {
  server_active : bool;
  stop_execution : bool;
  preempt_requested : bool;
  current_handle : option nat;
  pending_handle : option nat;
  worker : option Worker;
  goals : gmap nat H;
  arriving : gset nat;
  completions : nat;
}.

Definition set_flags (s : Server) (active stop : bool) : Server :=
  mkServer active stop (preempt_requested s) (current_handle s) (pending_handle s) (worker s) (goals s) (arriving s) (completions s).
Definition set_preempt (s : Server) (b : bool) : Server :=
  mkServer (server_active s) (stop_execution s) b (current_handle s) (pending_handle s) (worker s) (goals s) (arriving s) (completions s).
Definition set_current (s : Server) (p : option nat) : Server :=
  mkServer (server_active s) (stop_execution s) (preempt_requested s) p (pending_handle s) (worker s) (goals s) (arriving s) (completions s).
Definition set_pending (s : Server) (p : option nat) : Server :=
  mkServer (server_active s) (stop_execution s) (preempt_requested s) (current_handle s) p (worker s) (goals s) (arriving s) (completions s).
Definition set_worker (s : Server) (w : Worker) : Server :=
  mkServer (server_active s) (stop_execution s) (preempt_requested s) (current_handle s) (pending_handle s) (Some w) (goals s) (arriving s) (completions s).
Definition set_goal (s : Server) (g : nat) (h : H) : Server :=
  mkServer (server_active s) (stop_execution s) (preempt_requested s) (current_handle s) (pending_handle s) (worker s) (<[g := h]> (goals s)) (arriving s) (completions s).
Definition set_arriving (s : Server) (a : gset nat) : Server :=
  mkServer (server_active s) (stop_execution s) (preempt_requested s) (current_handle s) (pending_handle s) (worker s) (goals s) a (completions s).
Definition count_completion (s : Server) : Server :=
  mkServer (server_active s) (stop_execution s) (preempt_requested s) (current_handle s) (pending_handle s) (worker s) (goals s) (arriving s) (S (completions s)).

Definition is_active (s : Server) (p : option nat) : bool :=
  match p with Some g => match goals s !! g with Some h => goal_active h | None => false end | None => false end.

Definition is_canceling (s : Server) (g : nat) : bool :=
  match goals s !! g with Some h => goal_canceling h | None => false end.

(** A transition of a handle. *)
Definition transition (s : Server) (g : nat) (f : H -> option H) : option Server :=
  h ← goals s !! g; h ← f h; Some (set_goal s g h).

(** [terminate] on the handle [g]; the caller resets the slot. *)
Definition end_goal (s : Server) (g : nat) : option Server :=
  transition s g (fun h => if goal_canceling h then goal_canceled h else goal_abort h).

Definition terminate_current (s : Server) : option Server :=
  match current_handle s with
  | Some g => if is_active s (Some g) then s ← end_goal s g; Some (set_current s None) else Some s
  | None => Some s
  end.

Definition terminate_pending (s : Server) : option Server :=
  match pending_handle s with
  | Some g => if is_active s (Some g) then s ← end_goal s g; Some (set_pending s None) else Some s
  | None => Some s
  end.

Definition terminate_all (s : Server) : option Server :=
  s ← terminate_current s; s ← terminate_pending s; Some (set_preempt s false).

Definition terminate_pending_goal (s : Server) : option Server :=
  if is_active s (pending_handle s) then s ← terminate_pending s; Some (set_preempt s false) else Some s.

(** The goal accepted, null when there is none. *)
Definition accept_pending_goal (s : Server) : option (Server * option nat) :=
  if negb (is_active s (pending_handle s)) then Some (s, None)
  else
    s ← match current_handle s with
        | Some g => if is_active s (Some g) && negb (bool_decide (current_handle s = pending_handle s)) then transition s g goal_abort else Some s
        | None => Some s
        end;
    let s := set_preempt (set_pending (set_current s (pending_handle s)) None) false in
    Some (s, current_handle s).

Definition succeeded_current (s : Server) : option Server :=
  match current_handle s with
  | Some g => if is_active s (Some g) then s ← transition s g goal_succeed; Some (set_current s None) else Some s
  | None => Some s
  end.

Definition get_current_goal (s : Server) : option nat := if is_active s (current_handle s) then current_handle s else None.
Definition get_pending_goal (s : Server) : option nat := if is_active s (pending_handle s) then pending_handle s else None.
Definition is_server_active (s : Server) : bool := server_active s.
Definition is_preempt_requested (s : Server) : bool := preempt_requested s.

Definition is_cancel_requested (s : Server) : bool :=
  match current_handle s with
  | None => false
  | Some c => match pending_handle s with Some p => is_canceling s p | None => is_canceling s c end
  end.

Definition is_running (s : Server) : bool :=
  match worker s with Some Ended | None => false | Some _ => true end.

(** The handle that the feedback goes to. *)
Definition publish_feedback (s : Server) : option nat := if is_active s (current_handle s) then current_handle s else None.

(** *** Callbacks of ROS *)

Definition handle_goal (s : Server) : bool := server_active s.

Definition handle_cancel (s : Server) (g : nat) : bool := is_active s (Some g).

Definition handle_accepted (s : Server) (handle : nat) : option Server :=
  if is_active s (current_handle s) || is_running s then
    s ← (if is_active s (pending_handle s) then terminate_pending s else Some s);
    Some (set_preempt (set_pending s (Some handle)) true)
  else
    s ← (if is_active s (pending_handle s) then s ← terminate_pending s; Some (set_preempt s false) else Some s);
    Some (set_worker (set_current s (Some handle)) Checking).

(** *** The worker thread, [work] *)

(** The call of the completion callback; without one it throws. *)
Definition call_completion (s : Server) : Server * bool := if completion_callback then (count_completion s, true) else (s, false).

Definition work_check (ok : bool) (s : Server) : Server :=
  set_worker s (if ok && negb (stop_execution s) && is_active s (current_handle s) then Executing else Leaving).

Definition work_failed (s : Server) : option Server :=
  s ← terminate_all s; Some (set_worker (fst (call_completion s)) Leaving).

Definition work_finished (s : Server) : option Server :=
  if stop_execution s then s ← terminate_all s; Some (set_worker (fst (call_completion s)) Leaving)
  else
    '(s, returned) ← (if is_active s (current_handle s) then s ← terminate_current s; Some (call_completion s) else Some (s, true));
    if negb (returned : bool) then Some (set_worker s Leaving)
    else if is_active s (pending_handle s) then '(s, _) ← accept_pending_goal s; Some (set_worker s Checking)
    else Some (set_worker s Leaving).

(** *** Lifecycle *)

Definition activate (s : Server) : Server := set_flags s true false.

(** [deactivate] up to its wait, and a round of the wait after the timeout. *)
Definition deactivate (s : Server) : Server := set_flags s false true.

Definition deactivate_expired (s : Server) : option Server :=
  s ← terminate_all s; Some (if completion_callback then fst (call_completion s) else s).

(** ** Steps *)

(** What the user's callback may call. *)
Inductive Operation := TerminateCurrent | TerminatePending | TerminateAll | AcceptPending | SucceededCurrent.

Definition perform (op : Operation) (s : Server) : option Server :=
  match op with
  | TerminateCurrent => terminate_current s
  | TerminatePending => terminate_pending_goal s
  | TerminateAll => terminate_all s
  | AcceptPending => fst <$> accept_pending_goal s
  | SucceededCurrent => succeeded_current s
  end.

Inductive Event :=
| Offer (g : nat) | Arrive (g : nat) | Cancel (g : nat) | Check (ok : bool) | Call (op : Operation) | Return | Raise | Finish | Fail | Leave
| Activate | Deactivate | Expire.

Inductive step : Event -> Server -> Server -> Prop :=
| step_offer s g : goals s !! g = None -> handle_goal s = true -> step (Offer g) s (set_arriving (set_goal s g goal_new) ({[g]} ∪ arriving s))
| step_arrive s g s' : g ∈ arriving s -> handle_accepted s g = Some s' -> step (Arrive g) s (set_arriving s' (arriving s' ∖ {[g]}))
| step_cancel s g h : goals s !! g = Some h -> handle_cancel s g = true -> step (Cancel g) s (set_goal s g (goal_cancel h))
| step_check s ok : worker s = Some Checking -> step (Check ok) s (work_check ok s)
| step_call s op s' : worker s = Some Executing -> perform op s = Some s' -> step (Call op) s s'
| step_return s : worker s = Some Executing -> step Return s (set_worker s Finishing)
| step_raise s : worker s = Some Executing -> step Raise s (set_worker s Failing)
| step_finish s s' : worker s = Some Finishing -> work_finished s = Some s' -> step Finish s s'
| step_fail s s' : worker s = Some Failing -> work_failed s = Some s' -> step Fail s s'
| step_leave s : worker s = Some Leaving -> step Leave s (set_worker s Ended)
| step_activate s : step Activate s (activate s)
| step_deactivate s : step Deactivate s (deactivate s)
| step_expire s s' : stop_execution s = true -> is_running s = true -> deactivate_expired s = Some s' -> step Expire s s'.

Definition any_step (s s' : Server) : Prop := exists e, step e s s'.

Definition initial : Server := mkServer false false false None None None ∅ ∅ 0.
End server.
#[global] Arguments Server H : clear implicits.

(** ** The goals that the server holds *)

Ltac fields := cbn [server_active stop_execution preempt_requested current_handle pending_handle worker goals arriving completions
  set_flags set_preempt set_current set_pending set_worker set_goal set_arriving count_completion] in *.

Section invariant.
Context {H : Type} `{GH : GoalHandle H} {GL : GoalHandleLaws H} (completion_callback : bool).
Implicit Types (s : Server H) (g k : nat).

(** Every active goal is current, pending or on its way to the server; the
    pending goal is active, and a preemption is requested exactly when there
    is one. *)
Record server_ok s : Prop := {
  ok_current g : current_handle s = Some g -> is_Some (goals s !! g);
  ok_pending g : pending_handle s = Some g -> is_active s (Some g) = true;
  ok_preempt : preempt_requested s = bool_decide (pending_handle s <> None);
  ok_distinct g : current_handle s = Some g -> pending_handle s <> Some g;
  ok_arriving g : g ∈ arriving s -> is_active s (Some g) = true /\ current_handle s <> Some g /\ pending_handle s <> Some g;
  ok_active g : is_active s (Some g) = true -> current_handle s = Some g \/ pending_handle s = Some g \/ g ∈ arriving s;
}.

Lemma is_active_set_goal s g h k : is_active (set_goal s g h) (Some k) = if decide (k = g) then goal_active h else is_active s (Some k).
Proof. unfold is_active. fields. destruct (decide (k = g)) as [->|]; [by rewrite lookup_insert_eq|by rewrite lookup_insert_ne]. Qed.

Lemma active_goal s g : is_active s (Some g) = true -> exists h, goals s !! g = Some h /\ goal_active h = true.
Proof. unfold is_active. destruct (goals s !! g) as [h|]; [|done]. by exists h. Qed.

(** Two states with the same goals and slots. *)
Lemma server_ok_same s s' : server_ok s -> goals s' = goals s -> current_handle s' = current_handle s -> pending_handle s' = pending_handle s ->
  preempt_requested s' = preempt_requested s -> arriving s' = arriving s -> server_ok s'.
Proof.
  intros [] Eg Ec Ep Er Ea. split; unfold is_active in *; rewrite ?Eg, ?Ec, ?Ep, ?Er, ?Ea; assumption.
Qed.

(** A goal that ends leaves its slot. *)
Lemma server_ok_end_current s g h : server_ok s -> current_handle s = Some g -> goal_active h = false -> server_ok (set_current (set_goal s g h) None).
Proof.
  intros [] Ec Hh. assert (Hact : forall k, is_active (set_current (set_goal s g h) None) (Some k) = if decide (k = g) then false else is_active s (Some k)).
  { intros k. rewrite <- Hh. apply is_active_set_goal. }
  split; fields; try done.
  - intros k Hk. rewrite Hact. destruct (decide (k = g)) as [->|]; [|by apply ok_pending0]. by apply ok_distinct0 in Ec.
  - intros k Hk. rewrite Hact. destruct (ok_arriving0 k Hk) as (Ha & Hc & Hp). destruct (decide (k = g)) as [->|]; [congruence|done].
  - intros k. rewrite Hact. destruct (decide (k = g)) as [->|Hne]; [done|]. intros Ha. destruct (ok_active0 k Ha) as [Hc|Hpa]; [congruence|by right].
Qed.

Lemma server_ok_end_pending s g h : server_ok s -> pending_handle s = Some g -> goal_active h = false -> server_ok (set_preempt (set_pending (set_goal s g h) None) false).
Proof.
  intros [] Ep Hh. assert (Hact : forall k, is_active (set_preempt (set_pending (set_goal s g h) None) false) (Some k) = if decide (k = g) then false else is_active s (Some k)).
  { intros k. rewrite <- Hh. apply is_active_set_goal. }
  split; fields; try done.
  - intros k Hk. destruct (decide (k = g)) as [->|Hne]; [by rewrite lookup_insert_eq|rewrite lookup_insert_ne by done; by apply ok_current0].
  - intros k Hk. rewrite Hact. destruct (ok_arriving0 k Hk) as (Ha & Hc & Hp). destruct (decide (k = g)) as [->|]; [congruence|done].
  - intros k. rewrite Hact. destruct (decide (k = g)) as [->|Hne]; [done|]. intros Ha. destruct (ok_active0 k Ha) as [Hc|[Hp|Hr]]; [by left|congruence|by right; right].
Qed.

(** *** What each function does *)

Lemma end_goal_spec s g : is_active s (Some g) = true -> exists h, end_goal s g = Some (set_goal s g h) /\ goal_active h = false.
Proof using GL.
  intros Ha. destruct (active_goal s g Ha) as (h & Eh & Hh). unfold end_goal, transition. rewrite Eh. mred. destruct (goal_canceling h) eqn:Hc.
  - destruct (canceled_ends h Hc) as (h' & -> & Hh'). mred. by exists h'.
  - destruct (abort_ends h Hh) as (h' & -> & Hh'). mred. by exists h'.
Qed.

(** The current goal ended, if it was active. *)
Definition current_ended s s' : Prop :=
  (is_active s (current_handle s) = false /\ s' = s) \/
  exists g h, current_handle s = Some g /\ is_active s (Some g) = true /\ goal_active h = false /\ s' = set_current (set_goal s g h) None.

Lemma terminate_current_spec s : exists s', terminate_current s = Some s' /\ current_ended s s'.
Proof using GL.
  unfold terminate_current, current_ended. destruct (current_handle s) as [g|]; [|eexists; split; [done|by left]].
  destruct (is_active s (Some g)) eqn:Ha; [|eexists; split; [done|by left]].
  destruct (end_goal_spec s g Ha) as (h & -> & Hh). mred. eexists. split; [done|]. right. by exists g, h.
Qed.

Lemma succeeded_current_spec s : exists s', succeeded_current s = Some s' /\ current_ended s s'.
Proof using GL.
  unfold succeeded_current, current_ended. destruct (current_handle s) as [g|]; [|eexists; split; [done|by left]].
  destruct (is_active s (Some g)) eqn:Ha; [|eexists; split; [done|by left]].
  destruct (active_goal s g Ha) as (h & Eh & Hh). unfold transition. rewrite Eh. mred. destruct (succeed_ends h Hh) as (h' & -> & Hh'). mred.
  eexists. split; [done|]. right. by exists g, h'.
Qed.

Lemma current_ended_ok s s' : server_ok s -> current_ended s s' -> server_ok s'.
Proof. intros Hs [[_ ->]|(g & h & Ec & _ & Hh & ->)]; [done|by apply server_ok_end_current]. Qed.

Lemma current_ended_frame s s' : current_ended s s' ->
  server_active s' = server_active s /\ stop_execution s' = stop_execution s /\ preempt_requested s' = preempt_requested s /\ pending_handle s' = pending_handle s /\
  worker s' = worker s /\ arriving s' = arriving s /\ is_active s' (current_handle s') = false.
Proof. intros [[Ha ->]|(g & h & Ec & _ & Hh & ->)]; fields; split_and!; done. Qed.

(** The pending goal ended, if there was one. *)
Lemma terminate_pending_spec s : server_ok s ->
  exists s', terminate_pending s = Some s' /\
    (pending_handle s = None /\ s' = s \/ exists g h, pending_handle s = Some g /\ goal_active h = false /\ s' = set_pending (set_goal s g h) None).
Proof using GL.
  intros [] . unfold terminate_pending. destruct (pending_handle s) as [g|]; [|eexists; split; [done|by left]]. pose proof (ok_pending0 g eq_refl) as Ha. rewrite Ha.
  destruct (end_goal_spec s g Ha) as (h & -> & Hh). mred. eexists. split; [done|]. right. by exists g, h.
Qed.

Lemma preempt_false s : server_ok s -> pending_handle s = None -> set_preempt s false = s.
Proof. intros Hs Hp. pose proof (ok_preempt s Hs) as E. rewrite Hp in E. cbn in E. destruct s. fields. by rewrite E. Qed.

(** Goals that ended stay so, no goal disappears, and the goals that arrive are
    new. *)
Definition ended s g : Prop := is_Some (goals s !! g) /\ is_active s (Some g) = false.

Record progress s s' : Prop := {
  pr_known g : is_Some (goals s !! g) -> is_Some (goals s' !! g);
  pr_ended g : ended s g -> ended s' g;
  pr_arriving g : g ∈ arriving s' -> g ∈ arriving s \/ goals s !! g = None;
}.

Lemma progress_refl s : progress s s.
Proof. split; auto. Qed.

Lemma progress_trans s1 s2 s3 : progress s1 s2 -> progress s2 s3 -> progress s1 s3.
Proof.
  intros [K1 E1 A1] [K2 E2 A2]. split; [auto..|]. intros g Hg. destruct (A2 g Hg) as [Ha|Hn]; [by apply A1|].
  right. destruct (goals s1 !! g) as [h|] eqn:E; [|done]. destruct (K1 g ltac:(by eexists)) as [h' Eh]. congruence.
Qed.

Lemma progress_set_goal s s' g h : goals s' = <[g := h]> (goals s) -> arriving s' = arriving s -> (is_active s (Some g) = true \/ goal_active h = false) -> progress s s'.
Proof.
  intros Eg Ea Hh. split.
  - intros k Hk. rewrite Eg. destruct (decide (k = g)) as [->|]; [rewrite lookup_insert_eq; by eexists|by rewrite lookup_insert_ne].
  - intros k [Hk Hi]. unfold ended, is_active in *. rewrite Eg. destruct (decide (k = g)) as [->|]; [|by rewrite lookup_insert_ne].
    rewrite lookup_insert_eq. split; [by eexists|]. destruct Hh as [Hh|Hh]; [congruence|done].
  - intros k. rewrite Ea. by left.
Qed.

Lemma progress_same s s' : goals s' = goals s -> arriving s' ⊆ arriving s -> progress s s'.
Proof. intros Eg Ea. split; unfold ended, is_active; rewrite ?Eg; [done|done|]. intros g Hg. left. set_solver. Qed.

(** A goal known to the server and not on its way to it is in a slot or ended. *)
Lemma held_or_ended s g : server_ok s -> is_Some (goals s !! g) -> g ∉ arriving s -> current_handle s <> Some g \/ is_active s (current_handle s) = false ->
  pending_handle s <> Some g -> ended s g.
Proof.
  intros Hs Hk Ha Hc Hp. split; [done|]. destruct (is_active s (Some g)) eqn:E; [|done]. destruct (ok_active s Hs g E) as [H1|[H1|H1]]; [|done..].
  destruct Hc as [Hc|Hc]; [done|]. rewrite H1 in Hc. congruence.
Qed.

Lemma current_ended_progress s s' : current_ended s s' -> progress s s'.
Proof. intros [[_ ->]|(g & h & _ & Ha & Hh & ->)]; [apply progress_refl|]. apply (progress_set_goal _ _ g h); [done|done|by left]. Qed.

(** What a function leaves alone. *)
Definition same_thread s s' : Prop :=
  server_active s' = server_active s /\ stop_execution s' = stop_execution s /\ worker s' = worker s /\ arriving s' = arriving s.

Lemma end_pending_spec s : server_ok s ->
  exists s', (s1 ← terminate_pending s; Some (set_preempt s1 false)) = Some s' /\ server_ok s' /\ progress s s' /\ same_thread s s' /\
    pending_handle s' = None /\ current_handle s' = current_handle s /\ is_active s' (current_handle s) = is_active s (current_handle s).
Proof using GL.
  intros Hs. destruct (terminate_pending_spec s Hs) as (s1 & -> & [[Hp ->]|(g & h & Ep & Hh & ->)]); mred; eexists; (split; [done|]).
  - rewrite preempt_false by done. split_and!; try done. apply progress_refl.
  - split; [by apply server_ok_end_pending|]. split; [apply (progress_set_goal _ _ g h); [done|done|by right]|]. split; [done|]. split; [done|]. split; [done|].
    destruct (current_handle s) as [c|] eqn:Ec; [|done]. assert (c <> g) by (intros ->; by apply (ok_distinct s Hs g)).
    change (is_active (set_goal s g h) (Some c) = is_active s (Some c)). rewrite is_active_set_goal. by rewrite decide_False.
Qed.

Lemma terminate_all_spec s : server_ok s ->
  exists s', terminate_all s = Some s' /\ server_ok s' /\ progress s s' /\ same_thread s s' /\ pending_handle s' = None /\ is_active s' (current_handle s') = false.
Proof using GL.
  intros Hs. unfold terminate_all. destruct (terminate_current_spec s) as (s1 & -> & Hc). mred. pose proof (current_ended_ok s s1 Hs Hc) as Hs1.
  destruct (current_ended_frame s s1 Hc) as (F1 & F2 & _ & _ & F3 & F4 & Hi). destruct (end_pending_spec s1 Hs1) as (s2 & -> & Hs2 & Hpr & (G1 & G2 & G3 & G4) & Hp & Ec & Ha).
  exists s2. split; [done|]. split; [done|]. split; [by apply (progress_trans _ s1); [apply current_ended_progress|]|]. split; [unfold same_thread; split_and!; congruence|].
  split; [done|]. by rewrite Ec, Ha.
Qed.

Lemma accept_pending_goal_spec s : server_ok s ->
  exists s' r, accept_pending_goal s = Some (s', r) /\ server_ok s' /\ progress s s' /\ same_thread s s' /\ pending_handle s' = None /\
    match pending_handle s with None => s' = s | Some p => current_handle s' = Some p /\ r = Some p /\ is_active s' (Some p) = true end.
Proof using GL.
  intros Hs. unfold accept_pending_goal. destruct (pending_handle s) as [p|] eqn:Ep; [|eexists _, _; split; [done|]; split_and!; try done; apply progress_refl].
  pose proof (ok_pending s Hs p Ep) as Hp. rewrite Hp. cbn [negb]. pose proof (fun g Ec => ok_distinct s Hs g Ec) as Hd.
  assert (Hdone : forall s1, progress s s1 -> same_thread s s1 -> pending_handle s1 = Some p -> is_active s1 (Some p) = true ->
     (forall g, is_active s1 (Some g) = true -> g = p \/ g ∈ arriving s) -> (forall g, g ∈ arriving s -> is_active s1 (Some g) = true) ->
     server_ok (set_preempt (set_pending (set_current s1 (Some p)) None) false) /\ progress s (set_preempt (set_pending (set_current s1 (Some p)) None) false) /\
     is_active (set_preempt (set_pending (set_current s1 (Some p)) None) false) (Some p) = true).
  { intros s1 Hpr (F1 & F2 & F3 & F4) Ep1 Ha1 Hact Harr. split; [|split; [|exact Ha1]]; [split; unfold is_active in *; fields; try done|].
    - intros g [= <-]. destruct (goals s1 !! p); [by eexists|done].
    - intros g Hg. rewrite F4 in Hg. split; [by apply Harr|]. split; [|done]. intros [= <-]. by apply (ok_arriving s Hs p) in Hg as (_ & _ & Hn).
    - intros g Hg. destruct (Hact g Hg) as [->|Hin]; [by left|]. right; right. by rewrite F4.
    - apply (progress_trans _ s1); [done|]. by apply progress_same. }
  assert (Hothers : forall g, is_active s (Some g) = true -> current_handle s <> Some g -> g = p \/ g ∈ arriving s).
  { intros g Hg Hc. destruct (ok_active s Hs g Hg) as [|[|]]; [done|left; congruence|by right]. }
  destruct (current_handle s) as [c|] eqn:Ec.
  - assert (Hcp : c <> p) by (intros ->; by apply (Hd p)). rewrite (bool_decide_eq_false_2 (Some c = Some p)) by congruence. cbn [negb]. rewrite andb_true_r.
    destruct (is_active s (Some c)) eqn:Hac.
    + destruct (active_goal s c Hac) as (h & Eh & Hh). unfold transition. rewrite Eh. mred. destruct (abort_ends h Hh) as (h' & -> & Hh'). mred.
      eexists _, _. split; [done|]. fields. rewrite Ep. destruct (Hdone (set_goal s c h')) as (H1 & H2 & H3); try done.
      * apply (progress_set_goal _ _ c h'); [done|done|by left].
      * rewrite is_active_set_goal. by rewrite decide_False.
      * intros g. rewrite is_active_set_goal. destruct (decide (g = c)) as [->|]; [congruence|]. intros Hg. apply Hothers; [done|congruence].
      * intros g Hg. rewrite is_active_set_goal. destruct (ok_arriving s Hs g Hg) as (Ha & Hc & _). rewrite decide_False; [done|]. congruence.
    + mred. eexists _, _. split; [done|]. rewrite Ep. destruct (Hdone s) as (H1 & H2 & H3); try done; [apply progress_refl|..].
      * intros g Hg. apply Hothers; [done|]. intros [= ->]. congruence.
      * intros g Hg. by apply (ok_arriving s Hs g).
  - mred. eexists _, _. split; [done|]. rewrite Ep. destruct (Hdone s) as (H1 & H2 & H3); try done; [apply progress_refl|..].
    + intros g Hg. by apply Hothers.
    + intros g Hg. by apply (ok_arriving s Hs g).
Qed.

(** The goal [g] moves from the goals on their way to a slot of its own. *)
Lemma server_ok_slot s s' g : server_ok s -> g ∈ arriving s -> goals s' = goals s -> arriving s' = arriving s ∖ {[g]} -> preempt_requested s' = bool_decide (pending_handle s' <> None) ->
  (current_handle s' = Some g /\ is_active s (current_handle s) = false /\ pending_handle s' = pending_handle s \/
   pending_handle s' = Some g /\ pending_handle s = None /\ current_handle s' = current_handle s) ->
  server_ok s'.
Proof.
  intros Hs Hg Eg Ea Er Hslot. destruct (ok_arriving s Hs g Hg) as (Hga & Hgc & Hgp). destruct (active_goal s g Hga) as (h & Eh & _).
  assert (Hact : forall p, is_active s' p = is_active s p) by (intros p; unfold is_active; by rewrite Eg). destruct Hs.
  split; try done.
  - intros k Hk. rewrite Eg. destruct Hslot as [(E & _ & _)|(_ & _ & E)]; rewrite E in Hk; [injection Hk as <-; by eexists|by apply ok_current0].
  - intros k Hk. rewrite Hact. destruct Hslot as [(_ & _ & E)|(E & _ & _)]; rewrite E in Hk; [by apply ok_pending0|by injection Hk as <-].
  - intros k Hc Hp. destruct Hslot as [(E & _ & E2)|(E & _ & E2)]; rewrite E in *; rewrite E2 in *; [injection Hc as <-; by apply Hgp|injection Hp as <-; by apply Hgc].
  - intros k. rewrite Ea, elem_of_difference, elem_of_singleton. intros [Hk Hne]. destruct (ok_arriving0 k Hk) as (H1 & H2 & H3). rewrite Hact. split; [done|].
    destruct Hslot as [(E & _ & E2)|(E & _ & E2)]; rewrite E, E2; (split; [congruence|congruence]).
  - intros k. rewrite Hact, Ea, elem_of_difference, elem_of_singleton. intros Hk. destruct (decide (k = g)) as [->|Hne].
    + destruct Hslot as [(E & _ & _)|(E & _ & _)]; auto.
    + destruct (ok_active0 k Hk) as [Hc|[Hp|Hin]]; [|destruct Hslot as [(_ & _ & E)|(_ & E & _)]; rewrite ?E; [by right; left|congruence]|by right; right].
      destruct Hslot as [(_ & E & _)|(_ & _ & E)]; [rewrite Hc in E; congruence|rewrite E; by left].
Qed.

(** A goal that arrives takes the free slot; a pending goal it finds ends. *)
Lemma handle_accepted_spec s g : server_ok s -> g ∈ arriving s ->
  exists s1, handle_accepted s g = Some s1 /\ let s' := set_arriving s1 (arriving s1 ∖ {[g]}) in
    server_ok s' /\ progress s s' /\ server_active s' = server_active s /\ stop_execution s' = stop_execution s /\
    if is_active s (current_handle s) || is_running s then
      pending_handle s' = Some g /\ current_handle s' = current_handle s /\ worker s' = worker s /\ is_active s' (current_handle s) = is_active s (current_handle s)
    else current_handle s' = Some g /\ is_active s' (Some g) = true /\ worker s' = Some Checking /\ pending_handle s' = None.
Proof using GL.
  intros Hs Hg. destruct (end_pending_spec s Hs) as (s2 & E2 & Hs2 & Hpr & (F1 & F2 & F3 & F4) & Hp & Ec & Ha).
  assert (Hpend : is_active s (pending_handle s) = bool_decide (pending_handle s <> None)).
  { destruct (pending_handle s) as [p|] eqn:Ep; [rewrite bool_decide_eq_true_2 by done; by apply (ok_pending s Hs)|by rewrite bool_decide_eq_false_2 by auto]. }
  assert (Hga : is_active s2 (Some g) = true).
  { assert (Hin : g ∈ arriving s2) by (by rewrite F4). by apply (ok_arriving s2 Hs2). }
  unfold handle_accepted. destruct (is_active s (current_handle s) || is_running s) eqn:Eb.
  - (* the preemption flag is set whatever it was *)
    assert (E3 : exists s1, (if is_active s (pending_handle s) then terminate_pending s else Some s) = Some s1 /\ set_preempt s1 false = s2).
    { rewrite Hpend. case_bool_decide as Hn.
      - destruct (terminate_pending s) as [s1|]; [|done]. cbn in E2. injection E2 as <-. by exists s1.
      - exists s. split; [done|]. unfold terminate_pending in E2. rewrite Hn in E2. cbn in E2. by injection E2. }
    destruct E3 as (s1 & -> & Es). mred. eexists. split; [done|]. fields.
    assert (Hpr' : progress s (set_arriving (set_preempt (set_pending s1 (Some g)) true) (arriving s1 ∖ {[g]}))).
    { apply (progress_trans _ s2); [done|]. subst s2. apply progress_same; fields; [done|set_solver]. }
    subst s2. fields. split.
    + apply (server_ok_slot (set_preempt s1 false) _ g Hs2); fields; rewrite ?F4; try done. by right.
    + split; [done|]. split_and!; try done; congruence.
  - assert (E3 : (if is_active s (pending_handle s) then s1 ← terminate_pending s; Some (set_preempt s1 false) else Some s) = Some s2).
    { rewrite Hpend. case_bool_decide as Hn; [done|]. unfold terminate_pending in E2. rewrite Hn in E2. cbn in E2. injection E2 as <-.
      by rewrite preempt_false. }
    rewrite E3. mred. eexists. split; [done|]. fields. apply orb_false_iff in Eb as [Eb _].
    split; [apply (server_ok_slot s2 _ g Hs2); fields; rewrite ?F4; try done; [by rewrite (ok_preempt s2 Hs2)|left; split; [done|split; [by rewrite Ec, Ha|done]]]|].
    split; [apply (progress_trans _ s2); [done|]; apply progress_same; fields; [done|set_solver]|]. split_and!; try done; congruence.
Qed.

(** The calls of the user's callback. *)
Lemma perform_spec op s : server_ok s -> exists s', perform op s = Some s' /\ server_ok s' /\ progress s s' /\ same_thread s s'.
Proof using GL.
  intros Hs. assert (Hc : forall s', current_ended s s' -> server_ok s' /\ progress s s' /\ same_thread s s').
  { intros s' Hc. destruct (current_ended_frame s s' Hc) as (F1 & F2 & _ & _ & F3 & F4 & _). split; [by apply (current_ended_ok s)|]. split; [by apply current_ended_progress|done]. }
  destruct op; cbn [perform].
  - destruct (terminate_current_spec s) as (s' & -> & H'). eexists. split; [done|]. by apply Hc.
  - unfold terminate_pending_goal. destruct (is_active s (pending_handle s)); [|eexists; split; [done|]; split; [done|]; split; [apply progress_refl|done]].
    destruct (end_pending_spec s Hs) as (s' & -> & H1 & H2 & H3 & _). eexists. by split.
  - destruct (terminate_all_spec s Hs) as (s' & -> & H1 & H2 & H3 & _). eexists. by split.
  - destruct (accept_pending_goal_spec s Hs) as (s' & r & -> & H1 & H2 & H3 & _). eexists. by split.
  - destruct (succeeded_current_spec s) as (s' & -> & H'). eexists. split; [done|]. by apply Hc.
Qed.

Lemma call_completion_same s : let s' := fst (call_completion completion_callback s) in
  goals s' = goals s /\ current_handle s' = current_handle s /\ pending_handle s' = pending_handle s /\ preempt_requested s' = preempt_requested s /\
  arriving s' = arriving s /\ server_active s' = server_active s /\ stop_execution s' = stop_execution s /\ worker s' = worker s.
Proof. unfold call_completion. by destruct completion_callback. Qed.

(** A change of the fields that the goals do not depend on. *)
Definition other_fields s s' : Prop :=
  goals s' = goals s /\ current_handle s' = current_handle s /\ pending_handle s' = pending_handle s /\ preempt_requested s' = preempt_requested s /\ arriving s' = arriving s.

Lemma other_fields_ok s s' : other_fields s s' -> server_ok s -> server_ok s' /\ progress s s' /\ forall p, is_active s' p = is_active s p.
Proof.
  intros (E1 & E2 & E3 & E4 & E5) Hs. split; [by apply (server_ok_same s)|]. split; [apply progress_same; [done|by rewrite E5]|]. intros p. unfold is_active. by rewrite E1.
Qed.

(** The end of a round of the worker: with an exception or a request to stop
    every goal ends; otherwise the current one does, and the pending one, if
    any, takes its place. *)
Lemma work_failed_spec s : server_ok s -> exists s', work_failed completion_callback s = Some s' /\ server_ok s' /\ progress s s' /\
  pending_handle s' = None /\ is_active s' (current_handle s') = false /\ worker s' = Some Leaving /\ stop_execution s' = stop_execution s.
Proof using GL.
  intros Hs. unfold work_failed. destruct (terminate_all_spec s Hs) as (s1 & -> & H1 & H2 & (_ & F2 & _) & Hp & Ha). mred. eexists. split; [done|].
  destruct (call_completion_same s1) as (E1 & E2 & E3 & E4 & E5 & E6 & E7 & E8). destruct (other_fields_ok s1 (set_worker (fst (call_completion completion_callback s1)) Leaving)) as (G1 & G2 & G3); [done..|].
  split; [done|]. split; [by apply (progress_trans _ s1)|]. split; [by fields; rewrite E3|]. split; [fields; rewrite E2; by rewrite G3|]. split; [done|]. fields. congruence.
Qed.

(** The worker looks at the pending goal. *)
Lemma take_pending_spec s : server_ok s -> is_active s (current_handle s) = false ->
  exists s', (if is_active s (pending_handle s) then '(s, _) ← accept_pending_goal s; Some (set_worker s Checking) else Some (set_worker s Leaving)) = Some s' /\
    server_ok s' /\ progress s s' /\ stop_execution s' = stop_execution s /\ pending_handle s' = None /\
    (worker s' = Some Leaving /\ is_active s' (current_handle s') = false \/
     worker s' = Some Checking /\ current_handle s' = pending_handle s /\ is_active s' (current_handle s') = true).
Proof using GL.
  intros Hs Hc. destruct (pending_handle s) as [p|] eqn:Ep.
  - pose proof (ok_pending s Hs p Ep) as Hp. rewrite Hp. destruct (accept_pending_goal_spec s Hs) as (s1 & r & -> & H1 & H2 & (_ & F & _) & H3 & H4). mred. rewrite Ep in H4.
    destruct (other_fields_ok s1 (set_worker s1 Checking)) as (G1 & G2 & G3); [done..|]. eexists. split; [done|]. split; [done|]. split; [by apply (progress_trans _ s1)|]. split; [done|]. split; [done|].
    right. fields. destruct H4 as (Ec & _ & Ha). by rewrite G3, Ec.
  - destruct (other_fields_ok s (set_worker s Leaving)) as (G1 & G2 & G3); [done..|]. eexists. split; [done|]. split; [done|]. split; [done|]. split; [done|]. split; [done|].
    left. fields. by rewrite G3.
Qed.

Lemma work_finished_spec s : server_ok s ->
  exists s', work_finished completion_callback s = Some s' /\ server_ok s' /\ progress s s' /\ stop_execution s' = stop_execution s /\
    (pending_handle s' = None \/ completion_callback = false /\ pending_handle s' = pending_handle s) /\
    (worker s' = Some Leaving /\ is_active s' (current_handle s') = false \/
     worker s' = Some Checking /\ current_handle s' = pending_handle s /\ is_active s' (current_handle s') = true).
Proof using GL.
  intros Hs. unfold work_finished. destruct (stop_execution s) eqn:Estop.
  - destruct (work_failed_spec s Hs) as (s' & E & H1 & H2 & H3 & H4 & H5 & H6). unfold work_failed in E. exists s'. split; [exact E|]. split_and!; try done; [congruence|by left|by left].
  - assert (Htake : forall s1, server_ok s1 -> progress s s1 -> stop_execution s1 = false -> pending_handle s1 = pending_handle s -> is_active s1 (current_handle s1) = false ->
      exists s', (if is_active s1 (pending_handle s1) then '(s, _) ← accept_pending_goal s1; Some (set_worker s Checking) else Some (set_worker s1 Leaving)) = Some s' /\
        server_ok s' /\ progress s s' /\ stop_execution s' = false /\ (pending_handle s' = None \/ completion_callback = false /\ pending_handle s' = pending_handle s) /\
        (worker s' = Some Leaving /\ is_active s' (current_handle s') = false \/ worker s' = Some Checking /\ current_handle s' = pending_handle s /\ is_active s' (current_handle s') = true)).
    { intros s1 Hs1 Hpr Est Ep Hc. destruct (take_pending_spec s1 Hs1 Hc) as (s' & E & H1 & H2 & H3 & H4 & H5). exists s'. rewrite <- Ep.
      split; [exact E|]. split; [done|]. split; [by apply (progress_trans _ s1)|]. split; [congruence|]. split; [by left|done]. }
    destruct (is_active s (current_handle s)) eqn:Hc.
    + destruct (terminate_current_spec s) as (s1 & -> & Hend). mred. pose proof (current_ended_ok s s1 Hs Hend) as Hs1. pose proof (current_ended_progress s s1 Hend) as Hpr.
      destruct (current_ended_frame s s1 Hend) as (_ & F2 & _ & F3 & _ & _ & Hi). destruct (call_completion_same s1) as (E1 & E2 & E3 & E4 & E5 & E6 & E7 & E8).
      destruct (other_fields_ok s1 (fst (call_completion completion_callback s1))) as (G1 & G2 & G3); [done..|]. unfold call_completion in *. destruct completion_callback; cbn [fst snd negb] in *.
      * apply Htake; [done|by apply (progress_trans _ s1)|congruence|congruence|by rewrite E2, G3].
      * destruct (other_fields_ok s1 (set_worker s1 Leaving)) as (K1 & K2 & K3); [done..|]. eexists. split; [done|]. split; [done|]. split; [by apply (progress_trans _ s1)|].
        split; [fields; congruence|]. split; [by right|]. left. fields. by rewrite K3.
    + mred. cbn [negb]. apply Htake; try done. apply progress_refl.
Qed.

(** ** Reachable states *)

Lemma initial_ok : server_ok (initial (H := H)).
Proof. by split. Qed.

Lemma step_ok e s s' : server_ok s -> step completion_callback e s s' -> server_ok s' /\ progress s s'.
Proof using GL.
  intros Hs Hst. destruct Hst as [s g En Hg|s g s' Hg E|s g h En Hc|s ok Hw|s op s' Hw E|s Hw|s Hw|s s' Hw E|s s' Hw E|s Hw|s|s|s s' _ _ E].
  - assert (Hact : forall k, is_active (set_arriving (set_goal s g goal_new) ({[g]} ∪ arriving s)) (Some k) = if decide (k = g) then true else is_active s (Some k)).
    { intros k. pose proof (is_active_set_goal s g goal_new k) as E. rewrite new_active in E. exact E. }
    assert (Hout : is_active s (Some g) = false) by (unfold is_active; by rewrite En). destruct Hs. split.
    + split; fields; try done.
      * intros k Hk. destruct (decide (k = g)) as [->|]; [rewrite lookup_insert_eq; by eexists|rewrite lookup_insert_ne by done; by apply ok_current0].
      * intros k Hk. rewrite Hact. destruct (decide (k = g)); [done|by apply ok_pending0].
      * intros k. rewrite Hact, elem_of_union, elem_of_singleton. destruct (decide (k = g)) as [->|Hne]; [|intros [|Hk]; [done|by apply ok_arriving0]]. intros _. split; [done|]. split.
        -- intros Hk. destruct (ok_current0 g Hk). congruence.
        -- intros Hk. specialize (ok_pending0 g Hk). congruence.
      * intros k. rewrite Hact, elem_of_union, elem_of_singleton. destruct (decide (k = g)) as [->|]; [by auto|]. intros Hk. destruct (ok_active0 k Hk) as [|[|]]; auto.
    + split; fields.
      * intros k Hk. destruct (decide (k = g)) as [->|]; [rewrite lookup_insert_eq; by eexists|by rewrite lookup_insert_ne].
      * intros k [Hk Hi]. assert (k <> g) by (intros ->; rewrite En in Hk; by destruct Hk). split; [fields; by rewrite lookup_insert_ne|]. rewrite Hact. by rewrite decide_False.
      * intros k. rewrite elem_of_union, elem_of_singleton. intros [->|]; auto.
  - destruct (handle_accepted_spec s g Hs Hg) as (s1 & E1 & H1 & H2 & _). rewrite E in E1. injection E1 as <-. done.
  - unfold handle_cancel in Hc. pose proof Hc as Hc'. unfold is_active in Hc'. rewrite En in Hc'. apply cancel_active in Hc'.
    assert (Hact : forall p, is_active (set_goal s g (goal_cancel h)) p = is_active s p).
    { intros [k|]; [|done]. rewrite is_active_set_goal. destruct (decide (k = g)) as [->|]; [by rewrite Hc|done]. }
    split; [|by apply (progress_set_goal _ _ g (goal_cancel h)); [..|by left]]. destruct Hs. split; fields; try done.
    + intros k Hk. destruct (decide (k = g)) as [->|]; [rewrite lookup_insert_eq; by eexists|rewrite lookup_insert_ne by done; by apply ok_current0].
    + intros k Hk. rewrite Hact. by apply ok_pending0.
    + intros k Hk. rewrite Hact. by apply ok_arriving0.
    + intros k Hk. rewrite Hact in Hk. by apply ok_active0.
  - destruct (other_fields_ok s (work_check ok s)) as (G1 & G2 & _); [done..|]. by split.
  - destruct (perform_spec op s Hs) as (s1 & E1 & H1 & H2 & _). rewrite E in E1. injection E1 as <-. done.
  - destruct (other_fields_ok s (set_worker s Finishing)) as (G1 & G2 & _); [done..|]. by split.
  - destruct (other_fields_ok s (set_worker s Failing)) as (G1 & G2 & _); [done..|]. by split.
  - destruct (work_finished_spec s Hs) as (s1 & E1 & H1 & H2 & _). rewrite E in E1. injection E1 as <-. done.
  - destruct (work_failed_spec s Hs) as (s1 & E1 & H1 & H2 & _). rewrite E in E1. injection E1 as <-. done.
  - destruct (other_fields_ok s (set_worker s Ended)) as (G1 & G2 & _); [done..|]. by split.
  - destruct (other_fields_ok s (activate s)) as (G1 & G2 & _); [done..|]. by split.
  - destruct (other_fields_ok s (deactivate s)) as (G1 & G2 & _); [done..|]. by split.
  - unfold deactivate_expired in E. destruct (terminate_all_spec s Hs) as (s1 & E1 & H1 & H2 & _). rewrite E1 in E. cbn in E. injection E as <-.
    destruct (call_completion_same s1) as (F1 & F2 & F3 & F4 & F5 & _). destruct (other_fields_ok s1 (fst (call_completion completion_callback s1))) as (G1 & G2 & _); [done..|].
    destruct completion_callback; split; try done. by apply (progress_trans _ s1).
Qed.

Lemma reachable_ok s : rtc (any_step completion_callback) initial s -> server_ok s.
Proof using GL. revert s. apply rtc_ind_r; [apply initial_ok|]. intros s s' _ [e Hst] Hs. by apply (step_ok e s s' Hs). Qed.

Lemma reachable_progress s s' : server_ok s -> rtc (any_step completion_callback) s s' -> server_ok s' /\ progress s s'.
Proof using GL.
  intros Hs Hr. induction Hr as [s|s1 s2 s3 [e Hst] _ IH]; [split; [done|apply progress_refl]|].
  destruct (step_ok e s1 s2 Hs Hst) as [Hs2 Hp]. destruct (IH Hs2) as [Hs3 Hp']. split; [done|]. by apply (progress_trans _ s2).
Qed.

(** ** Safety *)

(** C19. Whatever the threads do, every goal that is neither ended nor on its
    way to the server is the current or the pending one, the pending one is
    active and its preemption requested; no function of the server throws on
    a transition of a goal; and a goal that ended never runs again. *)
Theorem action_server_safe s : rtc (any_step completion_callback) initial s ->
  server_ok s /\
  (forall op, is_Some (perform op s)) /\ (forall g, g ∈ arriving s -> is_Some (handle_accepted s g)) /\
  is_Some (work_finished completion_callback s) /\ is_Some (work_failed completion_callback s) /\ is_Some (deactivate_expired completion_callback s) /\
  forall s' g, rtc (any_step completion_callback) s s' -> ended s g -> ended s' g.
Proof using GL.
  intros Hr. pose proof (reachable_ok s Hr) as Hs. split; [done|]. split_and!.
  - intros op. destruct (perform_spec op s Hs) as (s' & -> & _). by eexists.
  - intros g Hg. destruct (handle_accepted_spec s g Hs Hg) as (s' & -> & _). by eexists.
  - destruct (work_finished_spec s Hs) as (s' & -> & _). by eexists.
  - destruct (work_failed_spec s Hs) as (s' & -> & _). by eexists.
  - unfold deactivate_expired. destruct (terminate_all_spec s Hs) as (s' & -> & _). by eexists.
  - intros s' g Hr' Hg. by apply (reachable_progress s s' Hs Hr').
Qed.

(** ** The slots across a step *)

Lemma perform_pending op s s' : server_ok s -> perform op s = Some s' -> pending_handle s' = pending_handle s \/ pending_handle s' = None.
Proof using GL.
  intros Hs. destruct op; cbn [perform].
  - destruct (terminate_current_spec s) as (s1 & -> & Hc). intros [= <-]. left. by apply current_ended_frame in Hc as (_ & _ & _ & -> & _).
  - unfold terminate_pending_goal. destruct (is_active s (pending_handle s)); [|intros [= <-]; by left].
    destruct (end_pending_spec s Hs) as (s1 & -> & _ & _ & _ & Hp & _). intros [= <-]. by right.
  - destruct (terminate_all_spec s Hs) as (s1 & -> & _ & _ & _ & Hp & _). intros [= <-]. by right.
  - destruct (accept_pending_goal_spec s Hs) as (s1 & r & -> & _ & _ & _ & Hp & _). intros [= <-]. by right.
  - destruct (succeeded_current_spec s) as (s1 & -> & Hc). intros [= <-]. left. by apply current_ended_frame in Hc as (_ & _ & _ & -> & _).
Qed.
End invariant.


(** ** Every goal ends *)

Section liveness.
Context {H : Type} `{GH : GoalHandle H} {GL : GoalHandleLaws H} (completion_callback : bool).
Implicit Types (s : Server H) (g k n m : nat).

(** Places where the worker still looks at the pending goal. *)
Definition engaged s : bool := match worker s with Some (Checking | Executing | Finishing | Failing) => true | _ => false end.

(** Neither a shutdown of ROS nor a deactivation. *)
Definition undisturbed (e : Event) : Prop := match e with Check false | Deactivate | Expire => False | _ => True end.

(** The worker has a goal to run, and runs when there is one. *)
Record live s : Prop := {
  live_ok : server_ok s;
  live_stop : stop_execution s = false;
  live_checking : worker s = Some Checking -> is_active s (current_handle s) = true;
  live_idle : engaged s = false -> is_active s (current_handle s) = false;
}.

Lemma initial_live : live initial.
Proof. by split; [apply initial_ok|..]. Qed.

(** The worker where it was, and the current goal as active as it was. *)
Lemma same_live s s' : live s -> server_ok s' -> stop_execution s' = stop_execution s -> worker s' = worker s ->
  is_active s' (current_handle s') = is_active s (current_handle s) -> live s'.
Proof. intros [] Hs' Est Ew Ea. split; unfold engaged in *; rewrite ?Ew, ?Ea, ?Est; done. Qed.

(** The worker moves. *)
Lemma moved_live s s' w : live s -> server_ok s' -> stop_execution s' = false -> worker s' = Some w ->
  match w with
  | Checking => is_active s' (current_handle s') = true
  | Leaving | Ended => is_active s' (current_handle s') = false
  | _ => True
  end -> live s'.
Proof. intros _ Hs' Est Ew Hw. split; unfold engaged; rewrite ?Ew; [done|done|by intros [= ->]|by destruct w]. Qed.

Lemma arrive_live s g s1 : live s -> g ∈ arriving s -> handle_accepted s g = Some s1 -> live (set_arriving s1 (arriving s1 ∖ {[g]})).
Proof using GL.
  intros Hl Hg E. destruct (handle_accepted_spec s g (live_ok s Hl) Hg) as (s2 & E2 & Hs & _ & _ & Est & Hif). rewrite E in E2. injection E2 as <-.
  destruct (_ || _) in Hif.
  - destruct Hif as (_ & Ec & Ew & Ha). apply (same_live s); try done. by rewrite Ec.
  - destruct Hif as (Ec & Ha & Ew & _). apply (moved_live s _ Checking); try done; [by rewrite Est; apply Hl|]. by rewrite Ec.
Qed.

Lemma step_live e s s' : live s -> undisturbed e -> step completion_callback e s s' -> live s'.
Proof using GL.
  intros Hl Hu Hst. destruct (step_ok completion_callback e s s' (live_ok s Hl) Hst) as [Hs' _]. pose proof Hl as [Hs Est Hc Hi].
  destruct Hst as [s g En Hg|s g s' Hg E|s g h En Hc'|s ok Hw|s op s' Hw E|s Hw|s Hw|s s' Hw E|s s' Hw E|s Hw|s|s|s s' _ _ E]; try done.
  - apply (same_live s); try done. change (is_active (set_goal s g goal_new) (current_handle s) = is_active s (current_handle s)).
    destruct (current_handle s) as [c|] eqn:Ec; [|done]. rewrite is_active_set_goal, decide_False; [done|]. intros ->. destruct (ok_current s Hs g Ec). congruence.
  - by apply (arrive_live s).
  - apply (same_live s); try done. change (is_active (set_goal s g (goal_cancel h)) (current_handle s) = is_active s (current_handle s)).
    destruct (current_handle s) as [c|]; [|done]. rewrite is_active_set_goal. unfold handle_cancel in Hc'. destruct (decide (c = g)) as [->|]; [|done].
    rewrite Hc'. unfold is_active in Hc'. rewrite En in Hc'. by apply cancel_active.
  - destruct ok; [|done]. apply (moved_live s _ Executing); try done. unfold work_check. cbn. by rewrite Est, Hc.
  - destruct (perform_spec op s Hs) as (s1 & E1 & _ & _ & (_ & F2 & F3 & _)). rewrite E in E1. injection E1 as <-. apply (moved_live s _ Executing); try done; congruence.
  - destruct (work_finished_spec completion_callback s Hs) as (s1 & E1 & _ & _ & F & _ & Hor). rewrite E in E1. injection E1 as <-.
    destruct Hor as [[Ew Ha]|(Ew & _ & Ha)]; eapply (moved_live s); try done; congruence.
  - destruct (work_failed_spec completion_callback s Hs) as (s1 & E1 & _ & _ & _ & Ha & Ew & F). rewrite E in E1. injection E1 as <-. eapply (moved_live s); try done; congruence.
  - apply (moved_live s _ Ended); try done. apply Hi. unfold engaged. by rewrite Hw.
Qed.

(** A goal that is neither on its way nor pending is current, or ended. *)
Lemma current_or_ended s g : server_ok s -> is_Some (goals s !! g) -> g ∉ arriving s -> pending_handle s <> Some g ->
  current_handle s = Some g /\ is_active s (Some g) = true \/ ended s g.
Proof.
  intros Hs Hk Ha Hp. destruct (is_active s (Some g)) eqn:E; [|by right]. left. destruct (ok_active s Hs g E) as [|[|]]; done.
Qed.

(** The worker's thread comes closer to the end of its round. *)
Definition rank s : nat := match worker s with Some Checking => 2 | Some Executing => 1 | _ => 0 end.

Definition round_ends (e : option Event) : Prop := e = Some Finish \/ e = Some Fail.

(** The pending goal after a step is the one before, or arrives. *)
Lemma step_pending e s s' g : server_ok s -> undisturbed e -> step completion_callback e s s' -> pending_handle s' = Some g ->
  (completion_callback = true -> ~ round_ends (Some e)) /\ (pending_handle s = Some g \/ g ∈ arriving s).
Proof using GL.
  intros Hs Hu Hst Hp. assert (Hno : forall e', e' <> Finish -> e' <> Fail -> ~ round_ends (Some e')) by (intros e' H1 H2 [E|E]; congruence).
  destruct Hst as [s k En Hg|s k s' Hk E|s k h En Hc'|s ok Hw|s op s' Hw E|s Hw|s Hw|s s' Hw E|s s' Hw E|s Hw|s|s|s s' _ _ E]; try done; try (split; [intros _; by apply Hno|]); fields; auto.
  - destruct (handle_accepted_spec s k Hs Hk) as (s1 & E1 & _ & _ & _ & _ & H1). rewrite E in E1. injection E1 as <-. fields.
    destruct (_ || _) in H1; [destruct H1 as [H1 _]|destruct H1 as (_ & _ & _ & H1)]; rewrite H1 in Hp; [|done]. injection Hp as <-. by right.
  - destruct (perform_pending op s s' Hs E) as [E1|E1]; rewrite E1 in Hp; [by left|done].
  - destruct (work_finished_spec completion_callback s Hs) as (s1 & E1 & _ & _ & _ & [Hn|[Hcb Hn]] & _); rewrite E in E1; injection E1 as <-; rewrite Hn in Hp; [done|]. split; [congruence|by left].
  - destruct (work_failed_spec completion_callback s Hs) as (s1 & E1 & _ & _ & Hn & _). rewrite E in E1. injection E1 as <-. by rewrite Hn in Hp.
Qed.

(** The worker keeps its place, or its round ends, or it comes closer. *)
Lemma step_engaged e s s' : live s -> undisturbed e -> step completion_callback e s s' -> engaged s = true ->
  round_ends (Some e) \/ engaged s' = true /\ (worker s' = worker s \/ (rank s' < rank s)%nat).
Proof using GL.
  intros [Hs Est Hc _] Hu Hst He. unfold engaged, rank in *.
  destruct Hst as [s k En Hg|s k s' Hk E|s k h En Hc'|s ok Hw|s op s' Hw E|s Hw|s Hw|s s' Hw E|s s' Hw E|s Hw|s|s|s s' _ _ E]; try done;
    try (by left; left); try (by left; right); right.
  all: try (by split; [|left]).
  - destruct (handle_accepted_spec s k Hs Hk) as (s1 & E1 & _ & _ & _ & _ & H1). rewrite E in E1. injection E1 as <-.
    assert (Hr : is_running s = true) by (unfold is_running; by destruct (worker s) as [[]|]). rewrite Hr, orb_true_r in H1.
    destruct H1 as (_ & _ & -> & _). auto.
  - destruct ok; [|done]. unfold work_check. rewrite Est, Hc by done. rewrite Hw. cbn. split; [done|]. right. lia.
  - destruct (perform_spec op s Hs) as (s1 & E1 & _ & _ & (_ & _ & F3 & _)). rewrite E in E1. injection E1 as <-. rewrite F3. auto.
  - rewrite Hw. split; [done|right]. cbn. lia.
  - rewrite Hw. split; [done|right]. cbn. lia.
  - by rewrite Hw in He.
Qed.

(** The end of a round takes the current goal out of its slot. *)
Lemma round_ends_current e s s' g : live s -> step completion_callback e s s' -> round_ends (Some e) -> current_handle s = Some g ->
  ~ (current_handle s' = Some g /\ is_active s' (Some g) = true).
Proof using GL.
  intros [Hs _ _ _] Hst He Ec [Ec' Ha]. destruct Hst as [| | | | | | |s s' Hw E|s s' Hw E| | | |]; try (destruct He; discriminate).
  - destruct (work_finished_spec completion_callback s Hs) as (s1 & E1 & _ & _ & _ & _ & [[_ Hi]|(_ & Hp & _)]); rewrite E in E1; injection E1 as <-; [congruence|].
    apply (ok_distinct s Hs g Ec). congruence.
  - destruct (work_failed_spec completion_callback s Hs) as (s1 & E1 & _ & _ & _ & Hi & _). rewrite E in E1. injection E1 as <-. congruence.
Qed.

(** *** Executions *)

(** An execution is a sequence of states in which every state comes from the
    one before by a step, or nothing happens. *)
Record execution (σ : nat -> Server H) (ε : nat -> option Event) : Prop := {
  ex_start : σ 0%nat = initial;
  ex_step n : match ε n with None => σ (S n) = σ n | Some e => step completion_callback e (σ n) (σ (S n)) /\ undisturbed e end;
}.

(** The worker's thread is scheduled, and the callback of the user returns or
    raises: the worker does not stay in one place of its loop. *)
Definition fair (σ : nat -> Server H) : Prop := forall n, engaged (σ n) = true -> exists m, (n <= m)%nat /\ worker (σ m) <> worker (σ n).

Section execution.
Context (σ : nat -> Server H) (ε : nat -> option Event) (Hex : execution σ ε).

Lemma execution_live n : live (σ n).
Proof using GL Hex.
  induction n as [|n IH]; [rewrite (ex_start _ _ Hex); apply initial_live|].
  pose proof (ex_step _ _ Hex n) as Hst. destruct (ε n) as [e|]; [destruct Hst as [Hst Hu]; by apply (step_live e (σ n))|by rewrite Hst].
Qed.

Lemma execution_progress n d : progress (σ n) (σ (n + d)%nat).
Proof using GL Hex.
  induction d as [|d IH]; [rewrite Nat.add_0_r; apply progress_refl|]. rewrite Nat.add_succ_r. apply (progress_trans _ _ _ IH).
  pose proof (ex_step _ _ Hex (n + d)) as Hst. destruct (ε (n + d)%nat) as [e|]; [|rewrite Hst; apply progress_refl].
  destruct Hst as [Hst _]. by apply (step_ok completion_callback e _ _ (live_ok _ (execution_live _)) Hst).
Qed.

Lemma leaves_place d : forall n, engaged (σ n) = true -> worker (σ (n + d)%nat) <> worker (σ n) ->
  exists k, (n <= k)%nat /\ (round_ends (ε k) \/ engaged (σ (S k)) = true /\ (rank (σ (S k)) < rank (σ n))%nat).
Proof using GL Hex.
  induction d as [|d IH]; intros n He Hw; [rewrite Nat.add_0_r in Hw; congruence|].
  rewrite Nat.add_succ_r, <- Nat.add_succ_l in Hw.
  assert (Hs : round_ends (ε n) \/ engaged (σ (S n)) = true /\ (worker (σ (S n)) = worker (σ n) \/ (rank (σ (S n)) < rank (σ n))%nat)).
  { pose proof (ex_step _ _ Hex n) as Hst. destruct (ε n) as [e|]; [|rewrite Hst; auto]. destruct Hst as [Hst Hu]. apply step_engaged; [apply execution_live|done..]. }
  destruct Hs as [Hs|[He' [Ew|Hr]]]; [exists n; auto| |exists n; auto].
  destruct (IH (S n) He') as (k & Hk & Hor); [congruence|]. exists k. split; [lia|]. unfold rank in *. rewrite Ew in Hor. exact Hor.
Qed.

Lemma round_terminates r : fair σ -> forall n, engaged (σ n) = true -> (rank (σ n) <= r)%nat -> exists m, (n <= m)%nat /\ round_ends (ε m).
Proof using GL Hex.
  intros Hf. induction r as [r IH] using lt_wf_ind. intros n He Hr. destruct (Hf n He) as (m & Hm & Hw). replace m with (n + (m - n))%nat in Hw by lia.
  destruct (leaves_place _ n He Hw) as (k & Hk & [Hend|[He' Hr']]); [by exists k|].
  destruct (IH (rank (σ (S k)))) with (n := S k) as (m' & Hm' & Hend); [lia|done|lia|]. exists m'. split; [lia|done].
Qed.

(** A step keeps a goal in its slot, moves it from the pending slot to the
    current one, or ends it. *)
Lemma execution_slot n g : is_active (σ n) (Some g) = true -> g ∉ arriving (σ n) ->
  (is_active (σ (S n)) (Some g) = true /\ g ∉ arriving (σ (S n)) /\
    (current_handle (σ (S n)) = Some g /\ (current_handle (σ n) = Some g -> ~ round_ends (ε n)) \/
     pending_handle (σ (S n)) = Some g /\ pending_handle (σ n) = Some g /\ (completion_callback = true -> ~ round_ends (ε n)))) \/
  ended (σ (S n)) g.
Proof using GL Hex.
  intros Ha Hn. pose proof (live_ok _ (execution_live n)) as Hs. pose proof (live_ok _ (execution_live (S n))) as Hs'.
  pose proof (execution_progress n 1) as Hp. rewrite Nat.add_1_r in Hp.
  assert (Hk : is_Some (goals (σ n) !! g)) by (destruct (active_goal _ _ Ha) as (h & -> & _); by eexists).
  assert (Hn' : g ∉ arriving (σ (S n))).
  { intros Hin. destruct (pr_arriving _ _ Hp g Hin) as [|E]; [done|]. rewrite E in Hk. by destruct Hk. }
  destruct (is_active (σ (S n)) (Some g)) eqn:Ha'; [left|right; split; [by apply (pr_known _ _ Hp)|done]]. split; [done|]. split; [done|].
  pose proof (ex_step _ _ Hex n) as Hst. destruct (ok_active _ Hs' g Ha') as [Hc|[Hpe|]]; [left|right|done].
  - split; [done|]. intros Hc0 He. destruct (ε n) as [e|]; [|destruct He; discriminate]. destruct Hst as [Hst Hu].
    by apply (round_ends_current e _ _ g (execution_live n) Hst He Hc0).
  - split; [done|]. destruct (ε n) as [e|].
    + destruct Hst as [Hst Hu]. destruct (step_pending e _ _ g Hs Hu Hst Hpe) as [He [|]]; done.
    + rewrite Hst in Hpe. split; [done|]. intros _ [|]; discriminate.
Qed.

Lemma current_goal_ends d : forall n g, is_active (σ n) (Some g) = true -> current_handle (σ n) = Some g -> round_ends (ε (n + d)%nat) ->
  exists m, (n <= m)%nat /\ ended (σ m) g.
Proof using GL Hex.
  induction d as [|d IH]; intros n g Ha Hc He; pose proof (live_ok _ (execution_live n)) as Hs.
  all: assert (Hn : g ∉ arriving (σ n)) by (intros Hin; by apply (ok_arriving _ Hs) in Hin as (_ & Hin & _)).
  all: destruct (execution_slot n g Ha Hn) as [(Ha' & _ & [[Hc' Hne]|(_ & Hp & _)])|Hend]; [|by apply (ok_distinct _ Hs g) in Hc|exists (S n); split; [lia|done]].
  - rewrite Nat.add_0_r in He. by apply Hne in He.
  - destruct (IH (S n) g Ha' Hc') as (m & Hm & Hend); [by rewrite Nat.add_succ_l, <- Nat.add_succ_r|]. exists m. split; [lia|done].
Qed.

Lemma pending_goal_moves d : completion_callback = true -> forall n g, pending_handle (σ n) = Some g -> round_ends (ε (n + d)%nat) ->
  exists m, (n <= m)%nat /\ (ended (σ m) g \/ is_active (σ m) (Some g) = true /\ current_handle (σ m) = Some g).
Proof using GL Hex.
  intros Hcb. induction d as [|d IH]; intros n g Hp He; pose proof (live_ok _ (execution_live n)) as Hs; pose proof (ok_pending _ Hs g Hp) as Ha.
  all: assert (Hn : g ∉ arriving (σ n)) by (intros Hin; by apply (ok_arriving _ Hs) in Hin as (_ & _ & Hin)).
  all: destruct (execution_slot n g Ha Hn) as [(Ha' & _ & [[Hc' _]|(Hp' & _ & Hne)])|Hend]; [exists (S n); split; [lia|by right]| |exists (S n); split; [lia|by left]].
  - rewrite Nat.add_0_r in He. by apply Hne in He.
  - destruct (IH (S n) g Hp') as (m & Hm & Hend); [by rewrite Nat.add_succ_l, <- Nat.add_succ_r|]. exists m. split; [lia|done].
Qed.
End execution.

(** C22. While ROS runs and nobody deactivates the server, if the worker's
    thread is scheduled and the user's callback always comes back, then every
    goal that the server runs ends: it succeeds, is canceled or is aborted, and
    stays so. In a server made with a completion callback so does every goal
    that is pending while the worker is in its loop. *)
Theorem every_goal_ends (σ : nat -> Server H) (ε : nat -> option Event) n g : execution σ ε -> fair σ ->
  (current_handle (σ n) = Some g \/ completion_callback = true /\ pending_handle (σ n) = Some g /\ engaged (σ n) = true) ->
  exists m, (n <= m)%nat /\ forall m', (m <= m')%nat -> ended (σ m') g.
Proof using GL.
  intros Hex Hf Hg. assert (Hgoal : exists m, (n <= m)%nat /\ ended (σ m) g).
  - assert (Hcur : forall n, is_active (σ n) (Some g) = true -> current_handle (σ n) = Some g -> exists m, (n <= m)%nat /\ ended (σ m) g).
    { intros n' Ha Hc. assert (He : engaged (σ n') = true).
      { destruct (engaged (σ n')) eqn:He; [done|]. apply (live_idle _ (execution_live _ _ Hex n')) in He. congruence. }
      destruct (round_terminates _ _ Hex 2 Hf n' He) as (m & Hm & Hend); [unfold rank; destruct (worker (σ n')) as [[]|]; lia|].
      apply (current_goal_ends _ _ Hex (m - n') n' g Ha Hc). by replace (n' + (m - n'))%nat with m by lia. }
    destruct Hg as [Hc|(Hcb & Hp & He)].
    + destruct (is_active (σ n) (Some g)) eqn:Ha; [by apply Hcur|]. exists n. split; [lia|]. split; [|done]. by apply (ok_current _ (live_ok _ (execution_live _ _ Hex n))).
    + destruct (round_terminates _ _ Hex 2 Hf n He) as (m & Hm & Hend); [unfold rank; destruct (worker (σ n)) as [[]|]; lia|].
      destruct (pending_goal_moves _ _ Hex (m - n) Hcb n g Hp) as (m1 & Hm1 & [Hend1|[Ha Hc]]); [by replace (n + (m - n))%nat with m by lia|by exists m1|].
      destruct (Hcur m1 Ha Hc) as (m2 & Hm2 & Hend2). exists m2. split; [lia|done].
  - destruct Hgoal as (m & Hm & Hend). exists m. split; [done|]. intros m' Hm'. replace m' with (m + (m' - m))%nat by lia.
    by apply (pr_ended _ _ (execution_progress _ _ Hex m (m' - m))).
Qed.
End liveness.

(** ** Executions by evaluation *)

Section replay.
Context {H : Type} `{GH : GoalHandle H} (completion_callback : bool).

(** The step of an event, [None] when it cannot happen. *)
Definition exec (e : Event) (s : Server H) : option (Server H) :=
  let at_ w (r : option (Server H)) := match worker s, w with
    | Some Checking, Checking | Some Executing, Executing | Some Finishing, Finishing | Some Failing, Failing | Some Leaving, Leaving => r
    | _, _ => None end in
  match e with
  | Offer g => match goals s !! g with None => if handle_goal s then Some (set_arriving (set_goal s g goal_new) ({[g]} ∪ arriving s)) else None | Some _ => None end
  | Arrive g => if bool_decide (g ∈ arriving s) then s' ← handle_accepted s g; Some (set_arriving s' (arriving s' ∖ {[g]})) else None
  | Cancel g => h ← goals s !! g; if handle_cancel s g then Some (set_goal s g (goal_cancel h)) else None
  | Check ok => at_ Checking (Some (work_check ok s))
  | Call op => at_ Executing (perform op s)
  | Return => at_ Executing (Some (set_worker s Finishing))
  | Raise => at_ Executing (Some (set_worker s Failing))
  | Finish => at_ Finishing (work_finished completion_callback s)
  | Fail => at_ Failing (work_failed completion_callback s)
  | Leave => at_ Leaving (Some (set_worker s Ended))
  | Activate => Some (activate s)
  | Deactivate => Some (deactivate s)
  | Expire => if stop_execution s && is_running s then deactivate_expired completion_callback s else None
  end.

Fixpoint replay (es : list Event) (s : Server H) : option (Server H) :=
  match es with [] => Some s | e :: es => s ← exec e s; replay es s end.

Lemma exec_step e s s' : exec e s = Some s' -> step completion_callback e s s'.
Proof.
  destruct e; cbn [exec].
  - destruct (goals s !! g) eqn:En; [done|]. destruct (handle_goal s) eqn:Hg; [|done]. intros [= <-]. by constructor.
  - case_bool_decide as Hg; [|done]. destruct (handle_accepted s g) eqn:E; [|done]. intros [= <-]. by constructor.
  - destruct (handle_cancel s g) eqn:Hc; destruct (goals s !! g) as [h|] eqn:En; try done. mred. intros [= <-]. by constructor.
  - destruct (worker s) as [[]|] eqn:Hw; try done. intros [= <-]. by constructor.
  - destruct (worker s) as [[]|] eqn:Hw; try done. intros E. by constructor.
  - destruct (worker s) as [[]|] eqn:Hw; try done. intros [= <-]. by constructor.
  - destruct (worker s) as [[]|] eqn:Hw; try done. intros [= <-]. by constructor.
  - destruct (worker s) as [[]|] eqn:Hw; try done. intros E. by constructor.
  - destruct (worker s) as [[]|] eqn:Hw; try done. intros E. by constructor.
  - destruct (worker s) as [[]|] eqn:Hw; try done. intros [= <-]. by constructor.
  - intros [= <-]. by constructor.
  - intros [= <-]. by constructor.
  - destruct (stop_execution s) eqn:Est; [|done]. destruct (is_running s) eqn:Hr; [|done]. intros E. by constructor.
Qed.

Lemma replay_reachable es s s' : replay es s = Some s' -> rtc (any_step completion_callback) s s'.
Proof.
  revert s. induction es as [|e es IH]; intros s; [intros [= <-]; apply rtc_refl|]. cbn [replay]. destruct (exec e s) as [s1|] eqn:E; [|done]. intros Hr.
  apply (rtc_l _ _ s1); [exists e; by apply exec_step|by apply IH].
Qed.

(** The sequence of states of a list of events, in which nothing happens after
    the last. *)
Definition trace (es : list Event) (n : nat) : Server H := default initial (replay (take n es) initial).

Lemma replay_snoc es e s : replay (es ++ [e]) s = (s1 ← replay es s; exec e s1).
Proof. revert s. induction es as [|e' es IH]; intros s; cbn [replay app]; [cbn; by destruct (exec e s)|]. destruct (exec e' s) as [s1|]; [apply IH|done]. Qed.

Lemma replay_take es n s s' : replay es s = Some s' -> is_Some (replay (take n es) s).
Proof.
  revert n s. induction es as [|e es IH]; intros [|n] s; cbn [replay take]; try (by intros; eexists). destruct (exec e s); [apply IH|done].
Qed.
End replay.

Lemma trace_execution {H} `{GoalHandle H} es (s : Server H) : replay true es initial = Some s -> Forall undisturbed es -> execution true (trace true es) (fun n => es !! n).
Proof.
  intros Hr Hu. split; [done|]. intros n. unfold trace. destruct (es !! n) as [e|] eqn:En.
  - split; [|by rewrite Forall_lookup in Hu; apply (Hu n)]. apply exec_step. rewrite (take_S_r es n e En).
    destruct (replay_take true es (S n) initial s Hr) as [s2 E2]. rewrite (take_S_r es n e En) in E2. rewrite E2. rewrite replay_snoc in E2.
    by destruct (replay true (take n es) initial).
  - apply lookup_ge_None in En. by rewrite !take_ge by lia.
Qed.

Lemma trace_fair {H} `{GoalHandle H} es : engaged (trace true es (length es)) = false -> fair (trace true es).
Proof.
  intros He n Hn. destruct (decide (length es <= n)%nat) as [Hl|Hl].
  - exfalso. unfold trace in Hn, He. rewrite take_ge in Hn, He by lia. congruence.
  - exists (length es). split; [lia|]. intros E. unfold engaged in *. rewrite E in He. congruence.
Qed.

(** ** Goals that the server loses *)

Section losses.
Context {H : Type} `{GH : GoalHandle H} {GL : GoalHandleLaws H} (completion_callback : bool).
Implicit Types (s : Server H) (g : nat).

(** No worker, and the current goal active. *)
Definition stranded g s : Prop := server_ok s /\ worker s = Some Ended /\ current_handle s = Some g /\ is_active s (Some g) = true.

Lemma stranded_step g s s' : stranded g s -> any_step completion_callback s s' -> stranded g s'.
Proof using GL.
  intros (Hs & Hw & Hc & Ha) [e Hst]. destruct (step_ok completion_callback e s s' Hs Hst) as [Hs' _].
  split; [done|]. destruct Hst as [s k En Hg|s k s' Hk E|s k h En Hc'| | | | | | | | | |s s' _ Hr E]; try congruence; try (by split_and!).
  - fields. split; [done|]. split; [done|]. change (is_active (set_goal s k goal_new) (Some g) = true). rewrite is_active_set_goal.
    destruct (decide (g = k)) as [->|]; [apply new_active|done].
  - destruct (handle_accepted_spec s k Hs Hk) as (s1 & E1 & _ & _ & _ & _ & H1). rewrite E in E1. injection E1 as <-.
    rewrite Hc, Ha in H1. cbn [orb] in H1. destruct H1 as (_ & Ec & Ew & Ea). split_and!; congruence.
  - fields. split; [done|]. split; [done|]. rewrite is_active_set_goal. destruct (decide (g = k)) as [->|]; [|done].
    unfold is_active in Ha. rewrite En in Ha. by apply cancel_active.
  - unfold is_running in Hr. by rewrite Hw in Hr.
Qed.

Lemma stranded_forever g s s' : stranded g s -> rtc (any_step completion_callback) s s' -> stranded g s'.
Proof using GL. intros Hg Hr. induction Hr as [|s1 s2 s3 Hst _ IH]; [done|]. by apply IH, (stranded_step g s1). Qed.

(** No worker and no current goal, but a pending one. *)
Definition lost g s : Prop := server_ok s /\ worker s = Some Ended /\ is_active s (current_handle s) = false /\ pending_handle s = Some g.

Lemma lost_step g s s' : lost g s -> any_step completion_callback s s' -> lost g s' \/ ended s' g.
Proof using GL.
  intros (Hs & Hw & Hc & Hp) [e Hst]. destruct (step_ok completion_callback e s s' Hs Hst) as [Hs' Hpr]. pose proof (ok_pending s Hs g Hp) as Ha.
  assert (Hk : is_Some (goals s' !! g)) by (apply (pr_known s s' Hpr); destruct (active_goal s g Ha) as (h & -> & _); by eexists).
  destruct Hst as [s k En Hg|s k s' Hk' E|s k h En Hc'| | | | | | | | | |s s' _ Hr E]; try congruence; try (by left; split_and!).
  - left. split; [done|]. split; [done|]. split; [|done]. change (is_active (set_goal s k goal_new) (current_handle s) = false).
    destruct (current_handle s) as [c|] eqn:Ec; [|done]. rewrite is_active_set_goal, decide_False; [done|]. intros ->. destruct (ok_current s Hs k Ec). congruence.
  - right. destruct (handle_accepted_spec s k Hs Hk') as (s1 & E1 & _ & _ & _ & _ & H1). rewrite E in E1. injection E1 as <-.
    unfold is_running in H1. rewrite Hc, Hw in H1. cbn [orb] in H1. destruct H1 as (Ec & _ & _ & Hn). destruct (ok_arriving s Hs k Hk') as (_ & _ & Hne).
    apply held_or_ended; [done|done| |left|by rewrite Hn].
    + intros Hin. unfold is_active in Ha. destruct (pr_arriving _ _ Hpr g Hin) as [Hin'|En]; [|by rewrite En in Ha].
      by apply (ok_arriving s Hs) in Hin' as (_ & _ & Hn').
    + rewrite Ec. congruence.
  - left. split; [done|]. split; [done|]. split; [|done]. change (is_active (set_goal s k (goal_cancel h)) (current_handle s) = false).
    destruct (current_handle s) as [c|] eqn:Ec; [|done]. rewrite is_active_set_goal. unfold handle_cancel in Hc'. destruct (decide (c = k)) as [->|]; congruence.
  - unfold is_running in Hr. by rewrite Hw in Hr.
Qed.

Lemma lost_forever g s s' : lost g s -> rtc (any_step completion_callback) s s' -> lost g s' \/ ended s' g.
Proof using GL.
  intros Hg Hr. induction Hr as [|s1 s2 s3 Hst Hr IH]; [by left|]. destruct (lost_step g s1 s2 Hg Hst) as [Hl|He]; [by apply IH|].
  right. destruct Hg as (Hs1 & _). destruct Hst as [e Hst]. destruct (step_ok completion_callback e s1 s2 Hs1 Hst) as [Hs2 _].
  by apply (reachable_progress completion_callback s2 s3 Hs2 Hr).
Qed.
End losses.

(** ** The states of a goal of rclcpp_action *)

Inductive GoalState := EXECUTING | CANCELING | SUCCEEDED | CANCELED | ABORTED.

#[global] Instance goal_state : GoalHandle GoalState := {|
  goal_new := EXECUTING;
  goal_active h := match h with EXECUTING | CANCELING => true | _ => false end;
  goal_canceling h := match h with CANCELING => true | _ => false end;
  goal_cancel h := match h with EXECUTING => CANCELING | _ => h end;
  goal_succeed h := match h with EXECUTING | CANCELING => Some SUCCEEDED | _ => None end;
  goal_abort h := match h with EXECUTING | CANCELING => Some ABORTED | _ => None end;
  goal_canceled h := match h with CANCELING => Some CANCELED | _ => None end;
|}.

#[global] Instance goal_state_laws : GoalHandleLaws GoalState.
Proof. split; [done|by intros []|by intros []|intros []|intros []|intros []]; intros E; try discriminate E; by eexists. Qed.

(** A goal executed, another that preempts it and is canceled. *)
Definition two_goals : list Event :=
  [Activate; Offer 0; Arrive 0; Check true; Offer 1; Arrive 1; Call AcceptPending; Cancel 1; Return; Finish; Leave].

Example two_goals_run : (s ← replay true two_goals (initial (H := GoalState)); Some (goals s !! 0%nat, goals s !! 1%nat, current_handle s, completions s)) =
  Some (Some ABORTED, Some CANCELED, None, 1%nat).
Proof. vm_compute. reflexivity. Qed.

Lemma every_goal_ends_witness : exists m, (6 <= m)%nat /\ forall m', (m <= m')%nat -> ended (trace (H := GoalState) true two_goals m') 1.
Proof.
  apply (every_goal_ends true (trace true two_goals) (fun n => two_goals !! n)).
  - eapply trace_execution; [vm_compute; reflexivity|]. repeat constructor.
  - apply trace_fair. vm_compute. reflexivity.
  - right. split_and!; vm_compute; reflexivity.
Defined.

Lemma action_server_safe_witness : exists s, replay true two_goals (initial (H := GoalState)) = Some s /\ server_ok s.
Proof.
  eexists. split; [vm_compute; reflexivity|]. apply (action_server_safe true). apply (replay_reachable true two_goals). vm_compute. reflexivity.
Defined.

(** A goal that arrives when the worker has looked at the pending goal
    for the last time, but its thread is not done, stays pending with nobody
    to run it, and the next goal to arrive aborts it. *)
Theorem pending_goal_lost : exists s : Server GoalState, rtc (any_step true) initial s /\ server_active s = true /\ preempt_requested s = true /\
  pending_handle s = Some 1%nat /\ is_active s (Some 1%nat) = true /\
  forall s', rtc (any_step true) s s' -> pending_handle s' = Some 1%nat /\ is_running s' = false \/ ended s' 1.
Proof.
  pose (es := [Activate; Offer 0; Arrive 0; Check true; Call SucceededCurrent; Return; Finish; Offer 1; Arrive 1; Leave]).
  destruct (replay true es (initial (H := GoalState))) as [s|] eqn:E; [|vm_compute in E; discriminate]. exists s.
  pose proof (replay_reachable true es _ _ E) as Hr. split; [done|].
  assert (Hl : lost 1 s) by (split; [by apply (reachable_ok true)|]; vm_compute in E; injection E as <-; by split_and!).
  split; [|split]; [vm_compute in E; by injection E as <-..|].
  destruct Hl as (Hs & Hw & Hc & Hp). split; [done|]. split; [by apply (ok_pending s Hs)|].
  intros s' Hr'. destruct (lost_forever true 1 s s') as [(_ & Hw' & _ & Hp')|]; [done|done| |by right]. left. split; [done|]. unfold is_running. by rewrite Hw'.
Qed.

(** A deactivation between the arrival of a goal and the first test of
    its worker leaves the goal current and active; activated again, the server
    never executes a goal any more. *)
Theorem deactivate_strands_goals : exists s : Server GoalState, rtc (any_step true) initial s /\ server_active s = true /\ stop_execution s = false /\
  forall s', rtc (any_step true) s s' -> current_handle s' = Some 0%nat /\ is_active s' (Some 0%nat) = true /\ is_running s' = false.
Proof.
  pose (es := [Activate; Offer 0; Arrive 0; Deactivate; Check true; Leave; Activate]).
  destruct (replay true es (initial (H := GoalState))) as [s|] eqn:E; [|vm_compute in E; discriminate]. exists s.
  pose proof (replay_reachable true es _ _ E) as Hr. split; [done|].
  assert (Hl : stranded 0 s) by (split; [by apply (reachable_ok true)|]; vm_compute in E; injection E as <-; by split_and!).
  split; [|split]; [vm_compute in E; by injection E as <-..|].
  intros s' Hr'. destruct (stranded_forever true 0 s s' Hl Hr') as (_ & Hw & Hc & Ha). split; [done|]. split; [done|]. unfold is_running. by rewrite Hw.
Qed.
