(* ===== verification/LifecycleManager.v ===== *)
(** The lifecycle manager ([nav2_lifecycle_manager/lifecycle_manager.cpp]): it
    brings the managed nodes up and down in order, watches their bonds, and
    restarts them after a crash. *)

From stdpp Require Import gmap strings.
From S2P Require Import Prelude.

(** ** Lifecycle states and transitions *)

Inductive Transition :=
| TRANSITION_CONFIGURE
| TRANSITION_CLEANUP
| TRANSITION_ACTIVATE
| TRANSITION_DEACTIVATE
| TRANSITION_UNCONFIGURED_SHUTDOWN.

Inductive State :=
| PRIMARY_STATE_UNCONFIGURED
| PRIMARY_STATE_INACTIVE
| PRIMARY_STATE_ACTIVE
| PRIMARY_STATE_FINALIZED
| PRIMARY_STATE_UNKNOWN
| TRANSITION_STATE (id : Z).

#[export] Instance Transition_eq_dec : EqDecision Transition.
Proof. solve_decision. Defined.
#[export] Instance State_eq_dec : EqDecision State.
Proof. solve_decision. Defined.

Definition transition_state_map_ (t : Transition) : State :=
  match t with
  | TRANSITION_CONFIGURE => PRIMARY_STATE_INACTIVE
  | TRANSITION_CLEANUP => PRIMARY_STATE_UNCONFIGURED
  | TRANSITION_ACTIVATE => PRIMARY_STATE_ACTIVE
  | TRANSITION_DEACTIVATE => PRIMARY_STATE_INACTIVE
  | TRANSITION_UNCONFIGURED_SHUTDOWN => PRIMARY_STATE_FINALIZED
  end.

(** ** The outside world *)

(** The answer of a service call, or the [std::runtime_error] it throws. *)
Inductive answer (A : Type) := Answer (a : A) | Throws.
Arguments Answer {A} _.
Arguments Throws {A}.

(** The two services of a lifecycle node. *)
Inductive Service := CHANGE_STATE | GET_STATE.

#[export] Instance Service_eq_dec : EqDecision Service.
Proof. solve_decision. Defined.

(** The managed nodes, their bonds and the clock, as the manager sees them
    through [rclcpp] and [bond]. [wait_for_service] waits for a bounded time;
    [await_service] is the unbounded loop of [ServiceClient::invoke], false
    when the context was shut down meanwhile; [send_change_state] and
    [send_get_state] send the request and spin until the reply, [None] when
    none came; then [waitUntilFormed] and [isBroken] of the bonds,
    [rclcpp::ok()] and [now()]. *)
Class World (W : Type) := {
  wait_for_service : Service -> string -> W -> bool * W;
  await_service : Service -> string -> W -> bool * W;
  send_change_state : string -> Transition -> W -> option bool * W;
  send_get_state : string -> W -> option State * W;
  waitUntilFormed : string -> W -> bool * W;
  isBroken : string -> W -> bool * W;
  ok : W -> bool * W;
  now : W -> Z * W;
}.

(** ** The service client of a node *)

Section client.
Context {W : Type} `{World W}.

(** [invoke] with a response to fill: whether a reply came, not what it says. *)
Definition invoke_change_state (n : string) (t : Transition) (w : W) : answer bool * W :=
  let '(there, w) := await_service CHANGE_STATE n w in
  if negb there then (Throws, w)
  else
    let '(reply, w) := send_change_state n t w in
    match reply with
    | None => (Answer false, w)
    | Some _ => (Answer true, w)
    end.

(** [invoke] that returns the response throws when none came. *)
Definition invoke_get_state (n : string) (w : W) : answer State * W :=
  let '(there, w) := await_service GET_STATE n w in
  if negb there then (Throws, w)
  else
    let '(reply, w) := send_get_state n w in
    match reply with
    | None => (Throws, w)
    | Some st => (Answer st, w)
    end.

Definition change_state (n : string) (t : Transition) (w : W) : answer bool * W :=
  let '(there, w) := wait_for_service CHANGE_STATE n w in
  if negb there then (Throws, w) else invoke_change_state n t w.

Definition get_state (n : string) (w : W) : answer State * W :=
  let '(there, w) := wait_for_service GET_STATE n w in
  if negb there then (Throws, w) else invoke_get_state n w.
End client.

#[local] Arguments change_state : simpl never.
#[local] Arguments get_state : simpl never.

(** ** The manager *)

(** A client of [node_map_] is [false] when its pointer was reset; a bond of
    [bond_map_] is never NULL while it is in the map. *)
Record LifecycleManager := mkManager {
  node_names_ : list string;
  node_map_ : gmap string bool;
  bond_map_ : gset string;
  system_active_ : bool;
  bond_timer_ : bool;
  bond_respawn_timer_ : bool;
  bond_respawn_start_time_ : Z;
  bond_timeout_ : Z;
  bond_respawn_max_duration_ : Z;
  attempt_respawn_reconnection_ : bool;
}.

(** The manager, the world, and the calls of [change_state] made so far. *)
Record Sys (W : Type) := mkSys { mgr : LifecycleManager; env : W; calls : list (string * Transition) }.
Arguments mkSys {W}. Arguments mgr {W}. Arguments env {W}. Arguments calls {W}.

Definition set_mgr {W} (s : Sys W) (m : LifecycleManager) : Sys W := mkSys m (env s) (calls s).
Definition set_env {W} (s : Sys W) (w : W) : Sys W := mkSys (mgr s) w (calls s).
Definition log_call {W} (s : Sys W) (c : string * Transition) : Sys W := mkSys (mgr s) (env s) (calls s ++ [c]).

Definition set_bonds (m : LifecycleManager) (b : gset string) : LifecycleManager :=
  mkManager (node_names_ m) (node_map_ m) b (system_active_ m) (bond_timer_ m) (bond_respawn_timer_ m)
    (bond_respawn_start_time_ m) (bond_timeout_ m) (bond_respawn_max_duration_ m) (attempt_respawn_reconnection_ m).
Definition set_active (m : LifecycleManager) (b : bool) : LifecycleManager :=
  mkManager (node_names_ m) (node_map_ m) (bond_map_ m) b (bond_timer_ m) (bond_respawn_timer_ m)
    (bond_respawn_start_time_ m) (bond_timeout_ m) (bond_respawn_max_duration_ m) (attempt_respawn_reconnection_ m).
Definition set_timer (m : LifecycleManager) (b : bool) : LifecycleManager :=
  mkManager (node_names_ m) (node_map_ m) (bond_map_ m) (system_active_ m) b (bond_respawn_timer_ m)
    (bond_respawn_start_time_ m) (bond_timeout_ m) (bond_respawn_max_duration_ m) (attempt_respawn_reconnection_ m).
Definition set_respawn (m : LifecycleManager) (b : bool) (t : Z) : LifecycleManager :=
  mkManager (node_names_ m) (node_map_ m) (bond_map_ m) (system_active_ m) (bond_timer_ m) b t
    (bond_timeout_ m) (bond_respawn_max_duration_ m) (attempt_respawn_reconnection_ m).
Definition set_clients (m : LifecycleManager) (names : list string) (clients : gmap string bool) : LifecycleManager :=
  mkManager names clients (bond_map_ m) (system_active_ m) (bond_timer_ m) (bond_respawn_timer_ m)
    (bond_respawn_start_time_ m) (bond_timeout_ m) (bond_respawn_max_duration_ m) (attempt_respawn_reconnection_ m).

Section manager.
Context {W : Type} `{World W}.

(** Each client waits for its server without bound; here it is up. *)
Definition createLifecycleServiceClients (s : Sys W) : Sys W :=
  let m := mgr s in
  set_mgr s (set_clients m (node_names_ m) (foldl (fun c n => <[n := true]> c) (node_map_ m) (node_names_ m))).

(** The pointers are reset, the keys stay. *)
Definition destroyLifecycleServiceClients (s : Sys W) : Sys W :=
  let m := mgr s in
  set_mgr s (set_clients m (node_names_ m) ((fun _ => false) <$> node_map_ m)).

Definition createBondConnection (s : Sys W) (node_name : string) : bool * Sys W :=
  let m := mgr s in
  if bool_decide (node_name ∉ bond_map_ m) && (0 <? bond_timeout_ m) then
    let s := set_mgr s (set_bonds m ({[node_name]} ∪ bond_map_ m)) in
    let '(formed, w) := waitUntilFormed node_name (env s) in
    (formed, set_env s w)
  else (true, s).

(** A NULL client cannot be called. *)
Definition changeStateForNode (s : Sys W) (node_name : string) (transition : Transition) :
    option (answer bool * Sys W) :=
  match node_map_ (mgr s) !! node_name with
  | Some true =>
      let s := log_call s (node_name, transition) in
      let '(a, w) := change_state node_name transition (env s) in
      let s := set_env s w in
      match a with
      | Throws => Some (Throws, s)
      | Answer false => Some (Answer false, s)
      | Answer true =>
          let '(st, w) := get_state node_name (env s) in
          let s := set_env s w in
          match st with
          | Throws => Some (Throws, s)
          | Answer st =>
              if negb (bool_decide (st = transition_state_map_ transition)) then Some (Answer false, s)
              else
                match transition with
                | TRANSITION_ACTIVATE =>
                    let '(b, s) := createBondConnection s node_name in Some (Answer b, s)
                | TRANSITION_DEACTIVATE =>
                    Some (Answer true, set_mgr s (set_bonds (mgr s) (bond_map_ (mgr s) ∖ {[node_name]})))
                | _ => Some (Answer true, s)
                end
          end
      end
  | _ => None
  end.

(** The loop over the nodes; an exception ends it. *)
Fixpoint change_nodes (names : list string) (transition : Transition) (hard_change : bool) (s : Sys W) :
    option (bool * Sys W) :=
  match names with
  | [] => Some (true, s)
  | n :: names =>
      r ← changeStateForNode s n transition;
      match fst r with
      | Throws => Some (false, snd r)
      | Answer b =>
          if negb b && negb hard_change then Some (false, snd r)
          else change_nodes names transition hard_change (snd r)
      end
  end.

(** In the order of the list to bring the nodes up, in reverse to take them down. *)
Definition order_of (transition : Transition) (names : list string) : list string :=
  match transition with
  | TRANSITION_CONFIGURE | TRANSITION_ACTIVATE => names
  | _ => rev names
  end.

Definition changeStateForAllNodes (s : Sys W) (transition : Transition) (hard_change : bool) : option (bool * Sys W) :=
  change_nodes (order_of transition (node_names_ (mgr s))) transition hard_change s.

Definition shutdownAllNodes (s : Sys W) : option (Sys W) :=
  r ← changeStateForAllNodes s TRANSITION_DEACTIVATE false;
  r ← changeStateForAllNodes (snd r) TRANSITION_CLEANUP false;
  r ← changeStateForAllNodes (snd r) TRANSITION_UNCONFIGURED_SHUTDOWN false;
  Some (snd r).

Definition createBondTimer (m : LifecycleManager) : LifecycleManager :=
  if bond_timeout_ m <=? 0 then m else set_timer m true.
Definition destroyBondTimer (m : LifecycleManager) : LifecycleManager :=
  if bond_timer_ m then set_timer m false else m.

(** [a && b] of two transitions of all the nodes, from left to right. *)
Definition change_both (s : Sys W) (t1 t2 : Transition) (hard_change : bool) : option (bool * Sys W) :=
  r ← changeStateForAllNodes s t1 hard_change;
  if fst r : bool then changeStateForAllNodes (snd r) t2 hard_change else Some (false, snd r).

Definition startup (s : Sys W) : option (bool * Sys W) :=
  r ← change_both s TRANSITION_CONFIGURE TRANSITION_ACTIVATE false;
  if negb (fst r) then Some (false, snd r)
  else Some (true, set_mgr (snd r) (createBondTimer (set_active (mgr (snd r)) true))).

Definition shutdown (s : Sys W) : option (bool * Sys W) :=
  let s := set_mgr s (destroyBondTimer (set_active (mgr s) false)) in
  s ← shutdownAllNodes s;
  Some (true, destroyLifecycleServiceClients s).

Definition reset (s : Sys W) (hard_reset : bool) : option (bool * Sys W) :=
  let s := set_mgr s (destroyBondTimer (set_active (mgr s) false)) in
  r ← change_both s TRANSITION_DEACTIVATE TRANSITION_CLEANUP hard_reset;
  if negb (fst r) && negb hard_reset then Some (false, snd r) else Some (true, snd r).

Definition pause (s : Sys W) : option (bool * Sys W) :=
  let s := set_mgr s (destroyBondTimer (set_active (mgr s) false)) in
  changeStateForAllNodes s TRANSITION_DEACTIVATE false.

Definition resume (s : Sys W) : option (bool * Sys W) :=
  r ← changeStateForAllNodes s TRANSITION_ACTIVATE false;
  if negb (fst r) then Some (false, snd r)
  else Some (true, set_mgr (snd r) (createBondTimer (set_active (mgr (snd r)) true))).

Definition onRclPreshutdown (s : Sys W) : Sys W :=
  let m := destroyBondTimer (mgr s) in
  set_mgr s (set_bonds (set_clients m [] ∅) ∅).

(** Reading a bond that is not in the map dereferences NULL. *)
Fixpoint check_bonds (names : list string) (s : Sys W) : option (Sys W) :=
  match names with
  | [] => Some s
  | n :: names =>
      let '(b, w) := ok (env s) in
      let s := set_env s w in
      if negb b then Some s
      else
        _ ← assert_ub (bool_decide (n ∈ bond_map_ (mgr s)));
        let '(broken, w) := isBroken n (env s) in
        let s := set_env s w in
        if broken : bool then
          r ← reset s true;
          let m := set_bonds (mgr (snd r)) ∅ in
          let m := if attempt_respawn_reconnection_ m
                   then set_respawn m true (bond_respawn_start_time_ m) else m in
          Some (set_mgr (snd r) m)
        else check_bonds names s
  end.

Definition checkBondConnections (s : Sys W) : option (Sys W) :=
  if negb (system_active_ (mgr s)) then Some s
  else
    let '(b, w) := ok (env s) in
    let s := set_env s w in
    if negb b || bool_decide (bond_map_ (mgr s) = ∅) then Some s
    else check_bonds (node_names_ (mgr s)) s.

(** The number of servers that answer, up to the first that does not; none
    when the context is shut down meanwhile. *)
Fixpoint count_live (names : list string) (live : Z) (s : Sys W) : option (option Z * Sys W) :=
  match names with
  | [] => Some (Some live, s)
  | n :: names =>
      let '(b, w) := ok (env s) in
      let s := set_env s w in
      if negb b then Some (None, s)
      else
        match node_map_ (mgr s) !! n with
        | Some true =>
            let '(st, w) := get_state n (env s) in
            let s := set_env s w in
            match st with
            | Answer _ => count_live names (live + 1) s
            | Throws => Some (Some live, s)
            end
        | _ => None
        end
  end.

Definition checkBondRespawnConnection (s : Sys W) : option (Sys W) :=
  let '(t, w) := now (env s) in
  let s := if bond_respawn_start_time_ (mgr s) =? 0
           then set_env (set_mgr s (set_respawn (mgr s) (bond_respawn_timer_ (mgr s)) t)) w else s in
  let stop s := set_mgr s (set_respawn (mgr s) false 0) in
  let '(is_ok, w) := if system_active_ (mgr s) then (true, env s) else ok (env s) in
  let s := set_env s w in
  if system_active_ (mgr s) || negb is_ok || bool_decide (node_names_ (mgr s) = []) then Some (stop s)
  else
    r ← count_live (node_names_ (mgr s)) 0 s;
    let s := snd r in
    match fst r with
    | None => Some s
    | Some live =>
        if live =? alen (node_names_ (mgr s)) then
          r ← startup (stop s); Some (snd r)
        else
          let '(t, w) := now (env s) in
          let s := set_env s w in
          if bond_respawn_max_duration_ (mgr s) <=? t - bond_respawn_start_time_ (mgr s) then Some (stop s)
          else Some s
    end.

(** ** Requests *)

Inductive Command := STARTUP | RESET | SHUTDOWN | PAUSE | RESUME.

Definition managerCallback (s : Sys W) (c : Command) : option (bool * Sys W) :=
  match c with
  | STARTUP => startup s
  | RESET => reset s false
  | SHUTDOWN => shutdown s
  | PAUSE => pause s
  | RESUME => resume s
  end.

Definition isActiveCallback (s : Sys W) : bool := system_active_ (mgr s).

(** ** The events of the service thread *)

(** The manager when its service thread starts: the parameters read, the
    clients created. The durations are the parameters already converted,
    [timeout] in milliseconds and [max_duration] in nanoseconds. *)
Definition construct (names : list string) (timeout max_duration : Z) (attempt : bool) (w : W) : Sys W :=
  createLifecycleServiceClients
    (mkSys (mkManager names ∅ ∅ false false false 0 timeout max_duration attempt) w []).

(** [Outside w] is whatever happens to the nodes between two callbacks. *)
Inductive Event :=
| Autostart
| Request (c : Command)
| BondTimer
| RespawnTimer
| Preshutdown
| Outside (w : W).

(** A timer that was reset does not fire. *)
Definition enabled (s : Sys W) (e : Event) : bool :=
  match e with
  | BondTimer => bond_timer_ (mgr s)
  | RespawnTimer => bond_respawn_timer_ (mgr s)
  | _ => true
  end.

Definition handle (s : Sys W) (e : Event) : option (Sys W) :=
  match e with
  | Autostart => r ← startup s; Some (snd r)
  | Request c => r ← managerCallback s c; Some (snd r)
  | BondTimer => checkBondConnections s
  | RespawnTimer => checkBondRespawnConnection s
  | Preshutdown => Some (onRclPreshutdown s)
  | Outside w => Some (set_env s w)
  end.

(** The callbacks run one at a time: they share a mutually exclusive group. *)
Inductive step : Sys W -> Sys W -> Prop :=
| step_event s e s' :
    e <> Request SHUTDOWN -> enabled s e = true -> handle s e = Some s' -> step s s'.

(** ** What a pass over the nodes does *)

(** Every node has a client that may be called. *)
Definition clients_ok (m : LifecycleManager) : Prop :=
  Forall (fun n => node_map_ m !! n = Some true) (node_names_ m).

(** What a transition may do to the set of bonds. *)
Record bond_effect (t : Transition) (m : LifecycleManager) (b : gset string) : Prop := {
  effect_up : t <> TRANSITION_DEACTIVATE -> bond_map_ m ⊆ b;
  effect_down : t <> TRANSITION_ACTIVATE -> b ⊆ bond_map_ m;
}.

Lemma bond_effect_refl t m : bond_effect t m (bond_map_ m).
Proof. by split. Qed.

Lemma bond_effect_trans t m b1 b2 :
  bond_effect t m b1 -> bond_effect t (set_bonds m b1) b2 -> bond_effect t m b2.
Proof. intros [U1 D1] [U2 D2]. split; intros Ht; [specialize (U1 Ht); specialize (U2 Ht)|specialize (D1 Ht); specialize (D2 Ht)]; cbn in *; set_solver. Qed.

Lemma createBondConnection_spec s n :
  exists b s' B, createBondConnection s n = (b, s') /\ calls s' = calls s /\ mgr s' = set_bonds (mgr s) B /\
    bond_map_ (mgr s) ⊆ B /\ (0 < bond_timeout_ (mgr s) -> n ∈ B).
Proof.
  destruct s as [m w l]. unfold createBondConnection; cbn.
  case_bool_decide as Hn; cbn; [destruct (0 <? bond_timeout_ m) eqn:Ht|].
  - destruct (waitUntilFormed n w) as [b w'] eqn:E. eexists b, _, _. split; [done|]. cbn. repeat split; set_solver.
  - eexists true, _, (bond_map_ m). split; [done|]. cbn. destruct m; cbn in *. repeat split; [done|lia].
  - eexists true, _, (bond_map_ m). split; [done|]. cbn. destruct m; cbn in *. repeat split; [done|].
    intros _. destruct (decide (n ∈ bond_map_0)); naive_solver.
Qed.

(** A branch that leaves the bonds of [m] alone. *)
#[local] Ltac stay_tac m :=
  eexists _, _, (bond_map_ m); split; [reflexivity|]; cbn; split_and!; [done|by destruct m|by split|done].

Lemma changeStateForNode_spec s n t :
  node_map_ (mgr s) !! n = Some true ->
  exists a s' B, changeStateForNode s n t = Some (a, s') /\ calls s' = calls s ++ [(n, t)] /\
    mgr s' = set_bonds (mgr s) B /\ bond_effect t (mgr s) B /\
    (a = Answer true -> t = TRANSITION_ACTIVATE -> 0 < bond_timeout_ (mgr s) -> n ∈ B).
Proof.
  intros Hn. destruct s as [m w l]. unfold changeStateForNode; cbn in *. rewrite Hn.
  destruct (change_state n t w) as [[[]|] w1]; cbn; [|by stay_tac m|by stay_tac m].
  destruct (get_state n w1) as [[st|] w2]; cbn; [|by stay_tac m].
  case_bool_decide as Hs; cbn; [|by stay_tac m].
  destruct t; cbn; try by stay_tac m.
  - edestruct createBondConnection_spec as (b & s' & B & E & Ec & Em & HB & Hin). rewrite E.
    eexists _, s', B. split; [done|]. rewrite Ec. cbn in *. repeat split; auto. done.
  - eexists _, _, _. split; [done|]. cbn. repeat split; [done| |done]. set_solver.
Qed.

Lemma set_bonds_twice m b1 b2 : set_bonds (set_bonds m b1) b2 = set_bonds m b2.
Proof. by destruct m. Qed.

(** A pass over [names] asks the first [k] of them, in order; it asks all of
    them when it succeeds. *)
Lemma change_nodes_spec names t hard s :
  Forall (fun n => node_map_ (mgr s) !! n = Some true) names ->
  exists b s' B k, change_nodes names t hard s = Some (b, s') /\
    calls s' = calls s ++ map (fun n => (n, t)) (take k names) /\
    mgr s' = set_bonds (mgr s) B /\ bond_effect t (mgr s) B /\
    (b = true -> (length names <= k)%nat) /\
    (b = true -> hard = false -> t = TRANSITION_ACTIVATE -> 0 < bond_timeout_ (mgr s) ->
       Forall (fun n => n ∈ B) names).
Proof.
  revert s. induction names as [|n names IH]; intros s Hc.
  { eexists true, s, (bond_map_ (mgr s)), 0%nat. cbn. rewrite app_nil_r.
    split_and!; [done|done|by destruct s as [[] ? ?]|apply bond_effect_refl|lia|by constructor]. }
  apply Forall_cons in Hc as [Hn Hc]. cbn [change_nodes].
  destruct (changeStateForNode_spec s n t Hn) as (a & s1 & B1 & -> & Hcalls & Hm & He & Ha). cbn.
  assert (Hstop : exists B k, calls s1 = calls s ++ map (fun n => (n, t)) (take k (n :: names)) /\
      mgr s1 = set_bonds (mgr s) B /\ bond_effect t (mgr s) B) by by exists B1, 1%nat.
  destruct a as [b|]; [destruct (negb b && negb hard) eqn:Eb|].
  - destruct Hstop as (B & k & ? & ? & ?). by eexists false, s1, B, k.
  - destruct (IH s1) as (b' & s' & B & k & -> & Hk & Hm' & He' & Hall & Hin).
    { by rewrite Hm. }
    rewrite Hm in Hm', He', Hin. rewrite set_bonds_twice in Hm'.
    eexists b', s', B, (S k). split_and!; [done| |done| |cbn; intros Hb; specialize (Hall Hb); lia|].
    + rewrite Hk, Hcalls, <- app_assoc. done.
    + by eapply bond_effect_trans.
    + intros -> Hh -> Ht. subst hard. constructor; [|by apply Hin].
      apply (effect_up _ _ _ He'); [done|]. cbn. apply Ha; [|done|done]. by destruct b.
  - destruct Hstop as (B & k & ? & ? & ?). by eexists false, s1, B, k.
Qed.

(** The requests of a pass over all the nodes. *)
Definition requests (t : Transition) (names : list string) : list (string * Transition) :=
  map (fun n => (n, t)) (order_of t names).

Lemma order_of_Permutation t names : order_of t names ≡ₚ names.
Proof. destruct t; cbn; try done; symmetry; apply Permutation_rev. Qed.

Lemma changeStateForAllNodes_spec s t hard :
  clients_ok (mgr s) ->
  exists b s' B l, changeStateForAllNodes s t hard = Some (b, s') /\
    calls s' = calls s ++ l /\ l `prefix_of` requests t (node_names_ (mgr s)) /\
    mgr s' = set_bonds (mgr s) B /\ bond_effect t (mgr s) B /\
    (b = true -> l = requests t (node_names_ (mgr s))) /\
    (b = true -> hard = false -> t = TRANSITION_ACTIVATE -> 0 < bond_timeout_ (mgr s) ->
       Forall (fun n => n ∈ B) (node_names_ (mgr s))).
Proof.
  intros Hc. unfold changeStateForAllNodes, requests.
  destruct (change_nodes_spec (order_of t (node_names_ (mgr s))) t hard s) as (b & s' & B & k & -> & Hk & Hm & He & Hall & Hin).
  { by rewrite order_of_Permutation. }
  eexists b, s', B, _. split_and!; [done|exact Hk| |done|done| |].
  - exists (map (fun n => (n, t)) (drop k (order_of t (node_names_ (mgr s))))). by rewrite <- map_app, take_drop.
  - intros Hb. by rewrite take_ge by auto.
  - intros. rewrite <- (order_of_Permutation t). auto.
Qed.

Lemma change_both_spec s t1 t2 hard :
  clients_ok (mgr s) ->
  exists b s' B l, change_both s t1 t2 hard = Some (b, s') /\ calls s' = calls s ++ l /\
    l `prefix_of` requests t1 (node_names_ (mgr s)) ++ requests t2 (node_names_ (mgr s)) /\
    mgr s' = set_bonds (mgr s) B /\
    (t1 <> TRANSITION_DEACTIVATE -> t2 <> TRANSITION_DEACTIVATE -> bond_map_ (mgr s) ⊆ B) /\
    (b = true -> l = requests t1 (node_names_ (mgr s)) ++ requests t2 (node_names_ (mgr s))) /\
    (b = true -> hard = false -> t2 = TRANSITION_ACTIVATE -> 0 < bond_timeout_ (mgr s) ->
       Forall (fun n => n ∈ B) (node_names_ (mgr s))).
Proof.
  intros Hc. unfold change_both.
  destruct (changeStateForAllNodes_spec s t1 hard Hc) as (b1 & s1 & B1 & l1 & -> & Hl1 & Hp1 & Hm1 & He1 & Hb1 & _).
  cbn. destruct b1.
  - rewrite (Hb1 eq_refl) in Hl1.
    destruct (changeStateForAllNodes_spec s1 t2 hard) as (b2 & s2 & B2 & l2 & -> & Hl2 & Hp2 & Hm2 & He2 & Hb2 & Hin).
    { by rewrite Hm1. }
    rewrite Hm1 in Hp2, Hm2, He2, Hb2, Hin. cbn in Hp2, Hb2, Hin.
    eexists b2, s2, B2, _. split_and!; [done|by rewrite Hl2, Hl1, <- app_assoc|by apply prefix_app| |..].
    + by rewrite Hm2, set_bonds_twice.
    + intros N1 N2. etrans; [exact (effect_up _ _ _ He1 N1)|exact (effect_up _ _ _ He2 N2)].
    + intros Hb. by rewrite Hb2.
    + done.
  - eexists false, s1, B1, l1. split_and!; [done|done|by apply prefix_app_r|done| |done|done].
    intros N1 _. exact (effect_up _ _ _ He1 N1).
Qed.

Lemma mgr_set_mgr (s : Sys W) m : mgr (set_mgr s m) = m.
Proof. done. Qed.

(** ** What each operation does *)

(** The manager after the nodes are up, with the bonds [B]. *)
Definition brought_up (m : LifecycleManager) (B : gset string) : LifecycleManager :=
  createBondTimer (set_active (set_bonds m B) true).

(** The manager while the nodes are taken down, with the bonds [B]. *)
Definition taken_down (m : LifecycleManager) (B : gset string) : LifecycleManager :=
  set_bonds (destroyBondTimer (set_active m false)) B.

Lemma startup_spec s :
  clients_ok (mgr s) ->
  exists b s' B l, startup s = Some (b, s') /\ calls s' = calls s ++ l /\
    l `prefix_of` requests TRANSITION_CONFIGURE (node_names_ (mgr s)) ++ requests TRANSITION_ACTIVATE (node_names_ (mgr s)) /\
    bond_map_ (mgr s) ⊆ B /\
    if b : bool then
      l = requests TRANSITION_CONFIGURE (node_names_ (mgr s)) ++ requests TRANSITION_ACTIVATE (node_names_ (mgr s)) /\
      mgr s' = brought_up (mgr s) B /\
      (0 < bond_timeout_ (mgr s) -> Forall (fun n => n ∈ B) (node_names_ (mgr s)))
    else mgr s' = set_bonds (mgr s) B.
Proof.
  intros Hc. unfold startup.
  destruct (change_both_spec s TRANSITION_CONFIGURE TRANSITION_ACTIVATE false Hc)
    as (b & s1 & B & l & -> & Hl & Hp & Hm & HB & Hb & Hin). cbn.
  specialize (HB ltac:(done) ltac:(done)).
  destruct b; cbn; [eexists true, _, B, l|eexists false, _, B, l].
  - split_and!; [done|done|done|done|by apply Hb|by cbn; rewrite Hm|by apply Hin].
  - by split_and!.
Qed.

Lemma resume_spec s :
  clients_ok (mgr s) ->
  exists b s' B l, resume s = Some (b, s') /\ calls s' = calls s ++ l /\
    l `prefix_of` requests TRANSITION_ACTIVATE (node_names_ (mgr s)) /\
    bond_map_ (mgr s) ⊆ B /\
    if b : bool then
      l = requests TRANSITION_ACTIVATE (node_names_ (mgr s)) /\ mgr s' = brought_up (mgr s) B /\
      (0 < bond_timeout_ (mgr s) -> Forall (fun n => n ∈ B) (node_names_ (mgr s)))
    else mgr s' = set_bonds (mgr s) B.
Proof.
  intros Hc. unfold resume.
  destruct (changeStateForAllNodes_spec s TRANSITION_ACTIVATE false Hc)
    as (b & s1 & B & l & -> & Hl & Hp & Hm & He & Hb & Hin). cbn.
  pose proof (effect_up _ _ _ He ltac:(done)) as HB.
  destruct b; cbn; [eexists true, _, B, l|eexists false, _, B, l].
  - split_and!; [done|done|done|done|by apply Hb|by cbn; rewrite Hm|by apply Hin].
  - by split_and!.
Qed.

Lemma clients_ok_down m : clients_ok m -> clients_ok (destroyBondTimer (set_active m false)).
Proof. unfold destroyBondTimer. by destruct (bond_timer_ _). Qed.

Lemma node_names_down m : node_names_ (destroyBondTimer (set_active m false)) = node_names_ m.
Proof. unfold destroyBondTimer. by destruct (bond_timer_ _). Qed.

Lemma reset_spec s hard :
  clients_ok (mgr s) ->
  exists b s' B l, reset s hard = Some (b, s') /\ calls s' = calls s ++ l /\
    mgr s' = taken_down (mgr s) B /\
    l `prefix_of` requests TRANSITION_DEACTIVATE (node_names_ (mgr s)) ++ requests TRANSITION_CLEANUP (node_names_ (mgr s)) /\
    (hard = true -> b = true) /\
    (hard = false -> b = true ->
      l = requests TRANSITION_DEACTIVATE (node_names_ (mgr s)) ++ requests TRANSITION_CLEANUP (node_names_ (mgr s))).
Proof.
  intros Hc. unfold reset.
  destruct (change_both_spec (set_mgr s (destroyBondTimer (set_active (mgr s) false)))
    TRANSITION_DEACTIVATE TRANSITION_CLEANUP hard) as (b & s1 & B & l & -> & Hl & Hp & Hm & _ & Hb & _).
  { by apply clients_ok_down. }
  rewrite mgr_set_mgr, node_names_down in *. cbn.
  destruct b, hard; cbn; eexists _, _, B, l; split_and!; try done; intros; by apply Hb.
Qed.

Lemma pause_spec s :
  clients_ok (mgr s) ->
  exists b s' B l, pause s = Some (b, s') /\ calls s' = calls s ++ l /\
    mgr s' = taken_down (mgr s) B /\
    l `prefix_of` requests TRANSITION_DEACTIVATE (node_names_ (mgr s)) /\
    (b = true -> l = requests TRANSITION_DEACTIVATE (node_names_ (mgr s))).
Proof.
  intros Hc. unfold pause.
  destruct (changeStateForAllNodes_spec (set_mgr s (destroyBondTimer (set_active (mgr s) false)))
    TRANSITION_DEACTIVATE false) as (b & s1 & B & l & -> & Hl & Hp & Hm & _ & Hb & _).
  { by apply clients_ok_down. }
  rewrite mgr_set_mgr, node_names_down in *. by eexists _, _, B, l.
Qed.

(** ** The invariant *)

#[local] Arguments startup : simpl never.
#[local] Arguments reset : simpl never.
#[local] Arguments requests : simpl never.
#[local] Arguments pause : simpl never.
#[local] Arguments resume : simpl never.
#[local] Arguments shutdown : simpl never.
#[local] Arguments changeStateForAllNodes : simpl never.

Record Inv (m : LifecycleManager) : Prop := {
  inv_clients : clients_ok m;
  inv_timer : bond_timer_ m = true -> system_active_ m = true /\ 0 < bond_timeout_ m;
  inv_bonds : system_active_ m = true -> 0 < bond_timeout_ m -> Forall (fun n => n ∈ bond_map_ m) (node_names_ m);
}.

Lemma Inv_brought_up m B :
  Inv m -> (0 < bond_timeout_ m -> Forall (fun n => n ∈ B) (node_names_ m)) -> Inv (brought_up m B).
Proof.
  intros [Hc Ht Hb] HB. unfold brought_up, createBondTimer. cbn. destruct (bond_timeout_ m <=? 0) eqn:E; split; cbn; auto with lia.
  intros Hbt. by destruct (Ht Hbt).
Qed.

Lemma Inv_taken_down m B : clients_ok m -> Inv (taken_down m B).
Proof.
  intros Hc. unfold taken_down, destroyBondTimer. cbn. destruct (bond_timer_ m) eqn:E; split; cbn; try done; congruence.
Qed.

Lemma Inv_set_bonds m B : Inv m -> bond_map_ m ⊆ B -> Inv (set_bonds m B).
Proof.
  intros [Hc Ht Hb] HB. split; cbn; auto. intros Ha H0. eapply Forall_impl; [by apply Hb|]. cbn. set_solver.
Qed.

Lemma Inv_set_respawn m b t : Inv m -> Inv (set_respawn m b t).
Proof. by intros [? ? ?]. Qed.

Lemma Inv_inactive m : clients_ok m -> system_active_ m = false -> bond_timer_ m = false -> Inv m.
Proof. intros ? Ha Ht. split; [done|congruence|congruence]. Qed.

(** What the manager is left with after a hard reset for a broken bond. *)
Definition after_broken (m : LifecycleManager) : LifecycleManager :=
  let m := taken_down m ∅ in
  if attempt_respawn_reconnection_ m then set_respawn m true (bond_respawn_start_time_ m) else m.

Lemma Inv_after_broken m : clients_ok m -> Inv (after_broken m).
Proof.
  intros Hc. unfold after_broken. cbn. destruct (attempt_respawn_reconnection_ _); [apply Inv_set_respawn|]; by apply Inv_taken_down.
Qed.

(** The requests of a reset that may stop early. *)
Definition down_requests (names : list string) : list (string * Transition) :=
  requests TRANSITION_DEACTIVATE names ++ requests TRANSITION_CLEANUP names.

Lemma check_bonds_spec names s :
  clients_ok (mgr s) -> Forall (fun n => n ∈ bond_map_ (mgr s)) names ->
  exists s', check_bonds names s = Some s' /\
    ((mgr s' = mgr s /\ calls s' = calls s) \/
     (mgr s' = after_broken (mgr s) /\
      exists l, calls s' = calls s ++ l /\ l `prefix_of` down_requests (node_names_ (mgr s)))) /\
    ((forall w, fst (ok w) = true) -> Exists (fun n => forall w, fst (isBroken n w) = true) names ->
      mgr s' = after_broken (mgr s)) /\
    ((forall n w, fst (isBroken n w) = false) -> mgr s' = mgr s).
Proof.
  revert s. induction names as [|n names IH]; intros s Hc Hb; cbn.
  { eexists. split; [done|]. split_and!; [by left| |done]. intros _ Hx. by apply Exists_nil in Hx. }
  apply Forall_cons in Hb as [Hn Hb].
  destruct (ok (env s)) as [[] w] eqn:Ew; cbn.
  2: { eexists. split; [done|]. split_and!; [by left| |done]. intros Hok. specialize (Hok (env s)). by rewrite Ew in Hok. }
  rewrite bool_decide_true by done. cbn.
  destruct (isBroken n w) as [[] w'] eqn:Eb; cbn.
  - match goal with |- context [reset ?x true] => destruct (reset_spec x true Hc) as (b & s' & B & l & -> & Hl & Hm & Hp & _) end. cbn.
    assert (Ha : (if attempt_respawn_reconnection_ (mgr s') then
        set_respawn (set_bonds (mgr s') ∅) true (bond_respawn_start_time_ (mgr s')) else set_bonds (mgr s') ∅) = after_broken (mgr s)).
    { rewrite Hm. unfold after_broken, taken_down. cbn. by destruct (attempt_respawn_reconnection_ _). }
    rewrite Ha. eexists. split; [done|]. cbn. split_and!; [right; eauto|done|]. intros Hbr. specialize (Hbr n w). by rewrite Eb in Hbr.
  - match goal with |- context [check_bonds names ?x] => destruct (IH x Hc Hb) as (s' & -> & Hd & Hx & Hok) end. eexists. split; [done|]. split_and!; [done| |done].
    intros H1 H2. apply Hx; [done|]. apply Exists_cons in H2 as [H2|H2]; [|done]. specialize (H2 w). by rewrite Eb in H2.
Qed.

Lemma checkBondConnections_spec s :
  Inv (mgr s) -> bond_timer_ (mgr s) = true ->
  exists s', checkBondConnections s = Some s' /\
    ((mgr s' = mgr s /\ calls s' = calls s) \/
     (mgr s' = after_broken (mgr s) /\
      exists l, calls s' = calls s ++ l /\ l `prefix_of` down_requests (node_names_ (mgr s)))) /\
    ((forall w, fst (ok w) = true) -> Exists (fun n => forall w, fst (isBroken n w) = true) (node_names_ (mgr s)) ->
      mgr s' = after_broken (mgr s)) /\
    ((forall n w, fst (isBroken n w) = false) -> mgr s' = mgr s).
Proof.
  intros [Hc Ht Hb] Hbt. destruct (Ht Hbt) as [Ha Hto]. specialize (Hb Ha Hto).
  unfold checkBondConnections. rewrite Ha. cbn.
  destruct (ok (env s)) as [[] w] eqn:Ew; cbn.
  2: { eexists. split; [done|]. split_and!; [by left| |done]. intros Hok. specialize (Hok (env s)). by rewrite Ew in Hok. }
  case_bool_decide as He; [|by apply (check_bonds_spec _ (set_env s w))].
  eexists. split; [done|]. split_and!; [by left| |done].
  intros _ Hx. apply Exists_exists in Hx as (n & Hn & _).
  pose proof (proj1 (Forall_forall _ _) Hb n Hn) as Hin. set_solver.
Qed.

Lemma count_live_spec names live s :
  Forall (fun n => node_map_ (mgr s) !! n = Some true) names ->
  exists r s', count_live names live s = Some (r, s') /\ mgr s' = mgr s /\ calls s' = calls s.
Proof.
  revert live s. induction names as [|n names IH]; intros live s Hc; cbn; [by eauto|].
  apply Forall_cons in Hc as [Hn Hc].
  destruct (ok (env s)) as [[] w]; cbn; [|by eauto].
  rewrite Hn. destruct (get_state n w) as [[st|] w']; cbn; [|by eauto].
  match goal with |- context [count_live names _ ?x] => exact (IH (live + 1) x Hc) end.
Qed.

Lemma startup_Inv s : Inv (mgr s) -> exists b s', startup s = Some (b, s') /\ Inv (mgr s').
Proof.
  intros HI. destruct (startup_spec s (inv_clients _ HI)) as (b & s' & B & l & -> & _ & _ & HB & Hb).
  eexists b, s'. split; [done|]. destruct b.
  - destruct Hb as (_ & -> & Hin). by apply Inv_brought_up.
  - rewrite Hb. by apply Inv_set_bonds.
Qed.

Lemma resume_Inv s : Inv (mgr s) -> exists b s', resume s = Some (b, s') /\ Inv (mgr s').
Proof.
  intros HI. destruct (resume_spec s (inv_clients _ HI)) as (b & s' & B & l & -> & _ & _ & HB & Hb).
  eexists b, s'. split; [done|]. destruct b.
  - destruct Hb as (_ & -> & Hin). by apply Inv_brought_up.
  - rewrite Hb. by apply Inv_set_bonds.
Qed.

Lemma checkBondRespawnConnection_Inv s :
  Inv (mgr s) -> exists s', checkBondRespawnConnection s = Some s' /\ Inv (mgr s').
Proof.
  intros HI. unfold checkBondRespawnConnection. destruct (now (env s)) as [t w].
  set (s1 := if bond_respawn_start_time_ (mgr s) =? 0 then _ else s).
  assert (HI1 : Inv (mgr s1)). { unfold s1. destruct (_ =? 0); [|done]. by apply Inv_set_respawn. }
  clearbody s1. destruct (if system_active_ (mgr s1) then _ else _) as [is_ok w1].
  set (s2 := set_env s1 w1). assert (HI2 : Inv (mgr s2)) by done. clearbody s2. cbv zeta.
  destruct (system_active_ (mgr s2) || _ || _).
  { eexists. split; [done|]. by apply Inv_set_respawn. }
  destruct (count_live_spec (node_names_ (mgr s2)) 0 s2 (inv_clients _ HI2)) as (r & s3 & -> & Hm & _). cbn.
  rewrite <- Hm in HI2. destruct r as [live|]; [|by eauto].
  destruct (live =? _).
  - destruct (startup_Inv (set_mgr s3 (set_respawn (mgr s3) false 0))) as (b & s' & -> & HI'); [by apply Inv_set_respawn|]. by eauto.
  - destruct (now (env s3)) as [t' w']. destruct (_ <=? _); eexists; (split; [done|]); [by apply Inv_set_respawn|done].
Qed.

Lemma shutdown_spec s :
  clients_ok (mgr s) ->
  exists s', shutdown s = Some (true, s') /\ node_names_ (mgr s') = node_names_ (mgr s) /\
    node_map_ (mgr s') = (fun _ => false) <$> node_map_ (mgr s) /\
    system_active_ (mgr s') = false /\ bond_timer_ (mgr s') = false /\
    bond_respawn_timer_ (mgr s') = bond_respawn_timer_ (mgr s).
Proof.
  intros Hc. unfold shutdown, shutdownAllNodes.
  set (s0 := set_mgr s _).
  assert (Hc0 : clients_ok (mgr s0)) by by apply clients_ok_down.
  destruct (changeStateForAllNodes_spec s0 TRANSITION_DEACTIVATE false Hc0) as (b1 & s1 & B1 & l1 & -> & _ & _ & Hm1 & _). cbn.
  destruct (changeStateForAllNodes_spec s1 TRANSITION_CLEANUP false) as (b2 & s2 & B2 & l2 & -> & _ & _ & Hm2 & _); [by rewrite Hm1|]. cbn.
  destruct (changeStateForAllNodes_spec s2 TRANSITION_UNCONFIGURED_SHUTDOWN false) as (b3 & s3 & B3 & l3 & -> & _ & _ & Hm3 & _);
    [by rewrite Hm2, Hm1|]. cbn.
  eexists. split; [done|]. cbn. rewrite Hm3, Hm2, Hm1. cbn. unfold destroyBondTimer. cbn. destruct (bond_timer_ (mgr s)) eqn:E; cbn; by rewrite ?E.
Qed.

Lemma handle_Inv s e :
  Inv (mgr s) -> enabled s e = true ->
  exists s', handle s e = Some s' /\ (e <> Request SHUTDOWN -> Inv (mgr s')).
Proof.
  intros HI He. pose proof (inv_clients _ HI) as Hc. destruct e as [|[]| | | |w]; cbn in *.
  - destruct (startup_Inv s HI) as (b & s' & -> & HI'). by eexists.
  - destruct (startup_Inv s HI) as (b & s' & -> & HI'). by eexists.
  - destruct (reset_spec s false Hc) as (b & s' & B & l & -> & _ & Hm & _). eexists. split; [done|]. cbn. rewrite Hm. intros _. by apply Inv_taken_down.
  - destruct (shutdown_spec s Hc) as (s' & -> & _). by eexists.
  - destruct (pause_spec s Hc) as (b & s' & B & l & -> & _ & Hm & _). eexists. split; [done|]. cbn. rewrite Hm. intros _. by apply Inv_taken_down.
  - destruct (resume_Inv s HI) as (b & s' & -> & HI'). by eexists.
  - destruct (checkBondConnections_spec s HI He) as (s' & -> & [[Hm _]|[Hm _]] & _); eexists; (split; [done|]); intros _; rewrite Hm; [done|by apply Inv_after_broken].
  - destruct (checkBondRespawnConnection_Inv s HI) as (s' & -> & HI'). by eexists.
  - eexists. split; [done|]. intros _. unfold onRclPreshutdown, destroyBondTimer.
    destruct (bond_timer_ (mgr s)) eqn:E; split; cbn; intros; try congruence; by constructor.
  - by eexists.
Qed.

Lemma createLifecycleServiceClients_ok s : clients_ok (mgr (createLifecycleServiceClients s)).
Proof.
  destruct s as [m w l]. unfold clients_ok, createLifecycleServiceClients. cbn.
  enough (Hx : forall names (c : gmap string bool) n, n ∈ names \/ c !! n = Some true ->
    foldl (fun c n => <[n := true]> c) c names !! n = Some true).
  { apply Forall_forall. intros n Hn. apply Hx. by left. }
  induction names as [|x names IH]; intros c n Hn; cbn; [by destruct Hn as [Hn%elem_of_nil|]|].
  apply IH. destruct Hn as [[->|Hn]%elem_of_cons|Hn]; [right; by simplify_map_eq|by left|right].
  destruct (decide (n = x)) as [->|]; by simplify_map_eq.
Qed.

Lemma reachable_Inv names timeout max_duration attempt w s :
  rtc step (construct names timeout max_duration attempt w) s -> Inv (mgr s).
Proof.
  assert (HI : Inv (mgr (construct names timeout max_duration attempt w))).
  { apply Inv_inactive; [apply createLifecycleServiceClients_ok|done|done]. }
  intros Hr. induction Hr as [|s1 s2 s3 Hst _ IH]; [done|].
  apply IH. destruct Hst as [s1 e s2 Hne Hen Hh].
  destruct (handle_Inv s1 e HI Hen) as (s' & Hs' & HI'). rewrite Hh in Hs'. injection Hs' as <-. auto.
Qed.

(** ** A hard change and exceptions *)

Lemma changeStateForNode_answers s n t a s' :
  (forall w, fst (change_state n t w) <> Throws) -> (forall w, fst (get_state n w) <> Throws) ->
  changeStateForNode s n t = Some (a, s') -> a <> Throws.
Proof.
  intros H1 H2. unfold changeStateForNode. destruct (node_map_ (mgr s) !! n) as [[]|]; [|by intros..].
  cbn. specialize (H1 (env s)). destruct (change_state n t (env s)) as [[[]|] w1]; cbn in *; [|by intros [= <- _]|done].
  specialize (H2 w1). destruct (get_state n w1) as [[st|] w2]; cbn in *; [|done].
  destruct (negb _); [by intros [= <- _]|]. destruct t; try by intros [= <- _].
  destruct (createBondConnection _ n) as [b s2]. by intros [= <- _].
Qed.

Lemma changeStateForNode_throws s n t a s' :
  fst (change_state n t (env s)) = Throws -> changeStateForNode s n t = Some (a, s') -> a = Throws.
Proof.
  intros H1. unfold changeStateForNode. destruct (node_map_ (mgr s) !! n) as [[]|]; [|by intros..].
  cbn. destruct (change_state n t (env s)) as [[[]|] w1]; cbn in *; [done|done|by intros [= <- _]].
Qed.

(** A condition [G] on the world outlasts the requests [t] to the nodes. *)
Definition outlasts (G : W -> Prop) (t : Transition) : Prop :=
  forall x w, G w -> G (snd (change_state x t w)) /\ G (snd (get_state x w)).

Lemma changeStateForNode_outlasts G s n t a s' :
  outlasts G t -> t <> TRANSITION_ACTIVATE -> G (env s) -> changeStateForNode s n t = Some (a, s') -> G (env s').
Proof.
  intros HG Ht Hs. unfold changeStateForNode. destruct (node_map_ (mgr s) !! n) as [[]|]; [|by intros..].
  cbn. destruct (HG n (env s) Hs) as [H1 _]. destruct (change_state n t (env s)) as [[[]|] w1]; cbn in *; [|by intros [= _ <-]..].
  destruct (HG n w1 H1) as [_ H2]. destruct (get_state n w1) as [[st|] w2]; cbn in *; [|by intros [= _ <-]].
  destruct (negb _); [by intros [= _ <-]|]. destruct t; try done; by intros [= _ <-].
Qed.

Lemma change_nodes_hard names t s :
  Forall (fun n => node_map_ (mgr s) !! n = Some true) names ->
  Forall (fun n => (forall w, fst (change_state n t w) <> Throws) /\ (forall w, fst (get_state n w) <> Throws)) names ->
  exists s' B, change_nodes names t true s = Some (true, s') /\
    calls s' = calls s ++ map (fun n => (n, t)) names /\ mgr s' = set_bonds (mgr s) B.
Proof.
  revert s. induction names as [|n names IH]; intros s Hc Ha; cbn.
  { eexists s, (bond_map_ (mgr s)). rewrite app_nil_r. by destruct s as [[] ? ?]. }
  apply Forall_cons in Hc as [Hn Hc]. apply Forall_cons in Ha as [[Ha1 Ha2] Ha].
  destruct (changeStateForNode_spec s n t Hn) as (a & s1 & B1 & E1 & Hcalls & Hm & _ & _).
  pose proof (changeStateForNode_answers _ _ _ _ _ Ha1 Ha2 E1) as Hat. rewrite E1. cbn.
  destruct a as [b|]; [|done]. rewrite andb_false_r.
  destruct (IH s1) as (s' & B & -> & Hk & Hm'); [by rewrite Hm|done|].
  eexists s', B. split_and!; [done|by rewrite Hk, Hcalls, <- app_assoc|by rewrite Hm', Hm, set_bonds_twice].
Qed.

Lemma change_nodes_throws G l1 n l2 t hard s :
  Forall (fun n => node_map_ (mgr s) !! n = Some true) (l1 ++ n :: l2) ->
  outlasts G t -> t <> TRANSITION_ACTIVATE -> G (env s) -> (forall w, G w -> fst (change_state n t w) = Throws) ->
  exists s' l, change_nodes (l1 ++ n :: l2) t hard s = Some (false, s') /\
    calls s' = calls s ++ l /\ l `prefix_of` map (fun n => (n, t)) (l1 ++ [n]).
Proof.
  intros Hc HG Hna Hs Ht. revert s Hc Hs. induction l1 as [|x l1 IH]; intros s Hc Hs; apply Forall_cons in Hc as [Hn Hc]; cbn.
  - destruct (changeStateForNode_spec s n t Hn) as (a & s1 & B1 & E1 & Hcalls & _).
    pose proof (changeStateForNode_throws _ _ _ _ _ (Ht _ Hs) E1) as ->. rewrite E1. by eexists s1, _.
  - destruct (changeStateForNode_spec s x t Hn) as (a & s1 & B1 & E1 & Hcalls & Hm & _).
    pose proof (changeStateForNode_outlasts _ _ _ _ _ _ HG Hna Hs E1) as Hs1. rewrite E1. cbn.
    assert (Hone : [(x, t)] `prefix_of` (x, t) :: map (fun n => (n, t)) (l1 ++ [n])) by by eexists.
    destruct a as [b|]; [destruct (negb b && negb hard)|]; [by eexists s1, _| |by eexists s1, _].
    destruct (IH s1) as (s' & l & -> & Hk & Hp); [by rewrite Hm|done|].
    eexists s', ((x, t) :: l). split_and!; [done|by rewrite Hk, Hcalls, <- app_assoc|by apply prefix_cons].
Qed.

(** ** Properties *)

(** C18. From construction, under every sequence of requests, timer callbacks,
    shutdown of the context and changes of the nodes that does not contain a
    SHUTDOWN request: every callback that may run next completes (no client and
    no bond is used through a NULL pointer), the bond timer only runs while the
    system is reported active, and while it is every managed node has a bond
    to watch (when bonds are enabled). *)
Theorem lifecycle_safe names timeout max_duration attempt w s :
  rtc step (construct names timeout max_duration attempt w) s ->
  (forall e, enabled s e = true -> is_Some (handle s e)) /\
  (bond_timer_ (mgr s) = true -> isActiveCallback s = true) /\
  (isActiveCallback s = true -> 0 < bond_timeout_ (mgr s) ->
     Forall (fun n => n ∈ bond_map_ (mgr s)) (node_names_ (mgr s))).
Proof.
  intros Hr%reachable_Inv. split_and!; [|apply (inv_timer _ Hr)|apply (inv_bonds _ Hr)].
  intros e He. destruct (handle_Inv s e Hr He) as (s' & -> & _). by eexists.
Qed.

(** C23. Bring-up: [startup] asks the nodes to configure, in the order of the
    list, then to activate in the same order. When it answers true the whole
    sequence was sent, the system is active, and with bonds enabled the timer
    runs and every node has its bond; when it answers false it stopped at a
    prefix of the sequence and the manager is as before but for bonds formed
    on the way. *)
Theorem startup_order s :
  clients_ok (mgr s) ->
  exists b s' l, startup s = Some (b, s') /\ calls s' = calls s ++ l /\
    let wanted := map (fun n => (n, TRANSITION_CONFIGURE)) (node_names_ (mgr s)) ++
                  map (fun n => (n, TRANSITION_ACTIVATE)) (node_names_ (mgr s)) in
    l `prefix_of` wanted /\ bond_map_ (mgr s) ⊆ bond_map_ (mgr s') /\
    if b : bool then
      l = wanted /\ isActiveCallback s' = true /\
      (0 < bond_timeout_ (mgr s) -> bond_timer_ (mgr s') = true /\
         Forall (fun n => n ∈ bond_map_ (mgr s')) (node_names_ (mgr s)))
    else mgr s' = set_bonds (mgr s) (bond_map_ (mgr s')).
Proof.
  intros Hc. destruct (startup_spec s Hc) as (b & s' & B & l & -> & Hl & Hp & HB & Hb).
  eexists b, s', l. split; [done|]. split; [done|]. split; [done|]. destruct b.
  - destruct Hb as (-> & Hm & Hin). unfold isActiveCallback. rewrite Hm. unfold brought_up, createBondTimer. cbn.
    destruct (bond_timeout_ (mgr s) <=? 0) eqn:E; cbn; split_and!; try done; intros; [lia|auto].
  - by rewrite Hb.
Qed.

(** Take-down: [pause] deactivates the nodes and [reset] deactivates and
    then cleans them up, always last node first; from the first instant the
    system is reported inactive and the bond timer is gone. True means that
    every request was sent; false, that the pass stopped at a prefix. *)
Theorem takedown_order s :
  clients_ok (mgr s) ->
  let down t := map (fun n => (n, t)) (rev (node_names_ (mgr s))) in
  (exists b s' l, pause s = Some (b, s') /\ calls s' = calls s ++ l /\
     l `prefix_of` down TRANSITION_DEACTIVATE /\ (b = true -> l = down TRANSITION_DEACTIVATE) /\
     isActiveCallback s' = false /\ bond_timer_ (mgr s') = false) /\
  (exists b s' l, reset s false = Some (b, s') /\ calls s' = calls s ++ l /\
     l `prefix_of` down TRANSITION_DEACTIVATE ++ down TRANSITION_CLEANUP /\
     (b = true -> l = down TRANSITION_DEACTIVATE ++ down TRANSITION_CLEANUP) /\
     isActiveCallback s' = false /\ bond_timer_ (mgr s') = false).
Proof.
  intros Hc.
  assert (Hdown : forall m B, system_active_ (taken_down m B) = false /\ bond_timer_ (taken_down m B) = false).
  { intros m B. unfold taken_down, destroyBondTimer. cbn. by destruct (bond_timer_ m) eqn:E. }
  split.
  - destruct (pause_spec s Hc) as (b & s' & B & l & -> & Hl & Hm & Hp & Hb). eexists b, s', l.
    unfold isActiveCallback. rewrite Hm. by destruct (Hdown (mgr s) B).
  - destruct (reset_spec s false Hc) as (b & s' & B & l & -> & Hl & Hm & Hp & _ & Hb). eexists b, s', l.
    unfold isActiveCallback. rewrite Hm. destruct (Hdown (mgr s) B). split_and!; auto.
Qed.

(** A hard reset always answers true. It asks every node to deactivate and
    to clean up, whatever the nodes answer, as long as no call throws; but when
    the client of a node [n] throws and goes on throwing (its server is gone),
    the pass ends there: the nodes before [n] in the list are not even asked to
    deactivate, and no node is asked to clean up. *)
Theorem hard_reset_scope s before n after :
  clients_ok (mgr s) -> node_names_ (mgr s) = before ++ n :: after ->
  exists s' l, reset s true = Some (true, s') /\ calls s' = calls s ++ l /\
    ((forall x t w, fst (change_state x t w) <> Throws) -> (forall x w, fst (get_state x w) <> Throws) ->
       l = map (fun x => (x, TRANSITION_DEACTIVATE)) (rev (node_names_ (mgr s))) ++
           map (fun x => (x, TRANSITION_CLEANUP)) (rev (node_names_ (mgr s)))) /\
    (forall G, outlasts G TRANSITION_DEACTIVATE -> G (env s) ->
       (forall w, G w -> fst (change_state n TRANSITION_DEACTIVATE w) = Throws) ->
       l `prefix_of` map (fun x => (x, TRANSITION_DEACTIVATE)) (rev after ++ [n])).
Proof.
  intros Hc Hn.
  destruct (reset_spec s true Hc) as (b & s' & B & l & E & Hl & _ & _ & Hb & _).
  rewrite (Hb eq_refl) in E. eexists s', l. split; [done|]. split; [done|].
  unfold reset, change_both, changeStateForAllNodes in E. cbn [order_of] in E.
  set (s0 := set_mgr s _) in E.
  assert (Hn0 : node_names_ (mgr s0) = node_names_ (mgr s)) by apply node_names_down.
  assert (Hc0 : Forall (fun n => node_map_ (mgr s0) !! n = Some true) (rev (node_names_ (mgr s)))).
  { rewrite <- Hn0, <- Permutation_rev. by apply clients_ok_down. }
  assert (Hcalls : calls s0 = calls s /\ env s0 = env s) by done. destruct Hcalls as [Hcalls Henv].
  rewrite Hn0 in E. clearbody s0. split.
  - intros H1 H2.
    assert (Ha : forall t, Forall (fun n => (forall w, fst (change_state n t w) <> Throws) /\ (forall w, fst (get_state n w) <> Throws))
      (rev (node_names_ (mgr s)))) by (intros t; apply Forall_forall; auto).
    destruct (change_nodes_hard _ _ s0 Hc0 (Ha TRANSITION_DEACTIVATE)) as (s1 & B1 & E1 & Hk1 & Hm1). rewrite E1 in E.
    cbn in E. rewrite Hm1 in E. cbn [set_bonds node_names_] in E. rewrite Hn0 in E.
    destruct (change_nodes_hard (rev (node_names_ (mgr s))) TRANSITION_CLEANUP s1) as (s2 & B2 & E2 & Hk2 & _); [by rewrite Hm1|apply Ha|].
    rewrite E2 in E. cbn in E. injection E as <-.
    rewrite Hk2, Hk1, Hcalls, <- app_assoc in Hl. by apply app_inv_head in Hl.
  - intros G HG Hs Ht. rewrite <- Henv in Hs. rewrite Hn, rev_app_distr in E, Hc0. cbn [rev] in E, Hc0. rewrite <- app_assoc in E, Hc0. cbn [app] in E, Hc0.
    destruct (change_nodes_throws G _ _ _ _ true s0 Hc0 HG ltac:(done) Hs Ht) as (s1 & l1 & E1 & Hk1 & Hp). rewrite E1 in E. cbn in E.
    injection E as <-. rewrite Hk1, Hcalls in Hl. apply app_inv_head in Hl. by subst l1.
Qed.

(** SHUTDOWN completes and answers true, and resets the clients of the
    nodes without ever creating them again: from then on every request of the
    manager that finds a node in its list, and a respawn timer still pending,
    goes through a NULL client. *)
Theorem shutdown_disables_manager s :
  clients_ok (mgr s) -> node_names_ (mgr s) <> [] ->
  exists s', shutdown s = Some (true, s') /\ isActiveCallback s' = false /\ bond_timer_ (mgr s') = false /\
    (forall c, managerCallback s' c = None) /\
    bond_respawn_timer_ (mgr s') = bond_respawn_timer_ (mgr s) /\
    ((forall w, fst (ok w) = true) -> checkBondRespawnConnection s' = None).
Proof.
  intros Hc Hne. destruct (shutdown_spec s Hc) as (s' & -> & Hnames & Hmap & Ha & Ht & Hr).
  assert (Hnull : forall n, n ∈ node_names_ (mgr s') -> node_map_ (mgr s') !! n = Some false).
  { intros n Hn. rewrite Hnames in Hn. pose proof (proj1 (Forall_forall _ _) Hc n Hn) as E. cbn in E. by rewrite Hmap, lookup_fmap, E. }
  assert (Hpass : forall t hard m, node_names_ m = node_names_ (mgr s') -> node_map_ m = node_map_ (mgr s') ->
    changeStateForAllNodes (set_mgr s' m) t hard = None).
  { intros t hard m H1 H2. unfold changeStateForAllNodes. rewrite mgr_set_mgr, H1.
    destruct (order_of t (node_names_ (mgr s'))) as [|n l] eqn:El.
    - apply (f_equal length) in El. rewrite order_of_Permutation, Hnames in El. by destruct (node_names_ (mgr s)).
    - cbn. unfold changeStateForNode. rewrite mgr_set_mgr, H2, Hnull; [done|]. rewrite <- (order_of_Permutation t), El. by left. }
  assert (Hself : set_mgr s' (mgr s') = s') by by destruct s'.
  assert (Hoff : destroyBondTimer (set_active (mgr s') false) = mgr s').
  { unfold destroyBondTimer. cbn. rewrite Ht. destruct (mgr s'). cbn in *. by subst. }
  eexists. split_and!; [done|done|done| |done|].
  - intros c. destruct c; cbn; unfold startup, reset, shutdown, pause, resume, shutdownAllNodes, change_both;
      rewrite ?Hoff, ?Hself, <- Hself, Hpass; done.
  - intros Hok. unfold checkBondRespawnConnection. destruct (now (env s')) as [t w].
    set (s1 := if bond_respawn_start_time_ (mgr s') =? 0 then _ else s').
    assert (Hs1 : node_names_ (mgr s1) = node_names_ (mgr s') /\ node_map_ (mgr s1) = node_map_ (mgr s') /\ system_active_ (mgr s1) = false)
      by (unfold s1; by destruct (_ =? 0)).
    destruct Hs1 as (H1 & H2 & H3). clearbody s1. rewrite H3. pose proof (Hok (env s1)) as Hok1.
    destruct (ok (env s1)) as [b w1]. cbn in Hok1. subst b. cbn. rewrite H3, H1, Hnames. cbn.
    rewrite bool_decide_false by done. destruct (node_names_ (mgr s)) as [|n l]; [done|]. cbn.
    specialize (Hok w1). destruct (ok w1) as [b w2]. cbn in Hok. subst b. cbn.
    rewrite H2, Hnull; [done|]. rewrite Hnames. by left.
Qed.

(** The bond check, which always completes: when the bond of some node is
    broken while the context is up, the system is taken down (reported
    inactive, no bond, no bond timer) with nothing but the requests of a reset,
    and the respawn timer is armed exactly when reconnection is asked for or it
    was armed before; when no bond is broken, nothing changes. *)
Theorem bond_check_reacts s :
  Inv (mgr s) -> bond_timer_ (mgr s) = true ->
  exists s' l, checkBondConnections s = Some s' /\ calls s' = calls s ++ l /\
    l `prefix_of` map (fun n => (n, TRANSITION_DEACTIVATE)) (rev (node_names_ (mgr s))) ++
                  map (fun n => (n, TRANSITION_CLEANUP)) (rev (node_names_ (mgr s))) /\
    ((forall w, fst (ok w) = true) -> Exists (fun n => forall w, fst (isBroken n w) = true) (node_names_ (mgr s)) ->
       isActiveCallback s' = false /\ bond_timer_ (mgr s') = false /\ bond_map_ (mgr s') = ∅ /\
       bond_respawn_timer_ (mgr s') = attempt_respawn_reconnection_ (mgr s) || bond_respawn_timer_ (mgr s)) /\
    ((forall n w, fst (isBroken n w) = false) -> mgr s' = mgr s).
Proof.
  intros HI Ht. destruct (checkBondConnections_spec s HI Ht) as (s' & -> & Hd & Hx & Hok).
  assert (Hl : exists l, calls s' = calls s ++ l /\ l `prefix_of` down_requests (node_names_ (mgr s))).
  { destruct Hd as [[_ Hc]|[_ Hc]]; [|done]. exists []. rewrite app_nil_r. split; [done|apply prefix_nil]. }
  destruct Hl as (l & Hl & Hp). eexists s', l. split_and!; [done|done|done| |done].
  intros H1 H2. unfold isActiveCallback. rewrite (Hx H1 H2). unfold after_broken, taken_down, destroyBondTimer. cbn. rewrite Ht. cbn.
  by destruct (attempt_respawn_reconnection_ (mgr s)).
Qed.
End manager.

(** ** A concrete fleet *)

(** Nodes that follow the lifecycle, except that [b] crashes once it is active:
    its bond breaks and its server no longer answers a deactivation. *)
#[local] Notation Fleet := (gmap string State).

Definition next_state (t : Transition) (st : State) : option State :=
  match t, st with
  | TRANSITION_CONFIGURE, PRIMARY_STATE_UNCONFIGURED => Some PRIMARY_STATE_INACTIVE
  | TRANSITION_CLEANUP, PRIMARY_STATE_INACTIVE => Some PRIMARY_STATE_UNCONFIGURED
  | TRANSITION_ACTIVATE, PRIMARY_STATE_INACTIVE => Some PRIMARY_STATE_ACTIVE
  | TRANSITION_DEACTIVATE, PRIMARY_STATE_ACTIVE => Some PRIMARY_STATE_INACTIVE
  | TRANSITION_UNCONFIGURED_SHUTDOWN, PRIMARY_STATE_UNCONFIGURED => Some PRIMARY_STATE_FINALIZED
  | _, _ => None
  end.

#[local] Instance Fleet_world : World Fleet := {
  wait_for_service srv n w :=
    (negb (bool_decide (n = "b"%string /\ srv = CHANGE_STATE /\ w !! n = Some PRIMARY_STATE_ACTIVE)), w);
  await_service srv n w := (true, w);
  send_change_state n t w :=
    match w !! n ≫= next_state t with
    | Some st => (Some true, <[n := st]> w)
    | None => (Some false, w)
    end;
  send_get_state n w := (w !! n, w);
  waitUntilFormed n w := (true, w);
  isBroken n w := (bool_decide (n = "b"%string), w);
  ok w := (true, w);
  now w := (1, w);
}.

Definition fleet0 : Fleet := {["a"%string := PRIMARY_STATE_UNCONFIGURED; "b"%string := PRIMARY_STATE_UNCONFIGURED]}.

Definition managed0 : Sys Fleet := construct ["a"%string; "b"%string] 4000 10000000000 true fleet0.

Definition managed1 : Sys Fleet := default managed0 (handle managed0 Autostart).

Example managed1_active :
  isActiveCallback managed1 = true /\ calls managed1 =
    [("a"%string, TRANSITION_CONFIGURE); ("b"%string, TRANSITION_CONFIGURE);
     ("a"%string, TRANSITION_ACTIVATE); ("b"%string, TRANSITION_ACTIVATE)].
Proof. by vm_compute. Qed.

Lemma managed1_reachable : rtc step managed0 managed1.
Proof. apply rtc_once, (step_event _ Autostart); [done|done|vm_compute; reflexivity]. Qed.

Lemma managed0_clients : clients_ok (mgr managed0).
Proof. apply createLifecycleServiceClients_ok. Qed.

Lemma lifecycle_safe_witness : is_Some (handle managed1 BondTimer).
Proof. apply (lifecycle_safe _ _ _ _ _ _ managed1_reachable). vm_compute. reflexivity. Defined.

Lemma startup_order_witness : exists b s' l, startup managed0 = Some (b, s') /\ calls s' = calls managed0 ++ l.
Proof.
  destruct (startup_order managed0 managed0_clients) as (b & s' & l & E & Hl & _). exists b, s', l. split; [exact E|exact Hl].
Defined.

Lemma takedown_order_witness : exists b s', pause managed1 = Some (b, s') /\ isActiveCallback s' = false.
Proof.
  destruct (takedown_order managed1 (inv_clients _ (reachable_Inv _ _ _ _ _ _ managed1_reachable)))
    as ((b & s' & l & E & _ & _ & _ & Ha & _) & _). exists b, s'. split; [exact E|exact Ha].
Defined.

Lemma crash_throws (w : Fleet) t : w !! "b"%string = Some PRIMARY_STATE_ACTIVE -> change_state "b"%string t w = (Throws, w).
Proof. intros Hw. unfold change_state. cbn. by rewrite bool_decide_true. Qed.

Lemma crash_outlasts : outlasts (fun w : Fleet => w !! "b"%string = Some PRIMARY_STATE_ACTIVE) TRANSITION_DEACTIVATE.
Proof.
  intros x w Hw. split.
  - destruct (decide (x = "b"%string)) as [->|Hx]; [by rewrite crash_throws|].
    unfold change_state, invoke_change_state. cbn. rewrite bool_decide_false by naive_solver. cbn.
    destruct (w !! x ≫= _); cbn; [by rewrite lookup_insert_ne|done].
  - unfold get_state, invoke_get_state. cbn. rewrite bool_decide_false by naive_solver. cbn. by destruct (w !! x).
Qed.

Lemma hard_reset_scope_witness :
  exists s' l, reset managed1 true = Some (true, s') /\ calls s' = calls managed1 ++ l /\
    l `prefix_of` [("b"%string, TRANSITION_DEACTIVATE)].
Proof.
  destruct (hard_reset_scope managed1 ["a"%string] "b"%string [] (inv_clients _ (reachable_Inv _ _ _ _ _ _ managed1_reachable)))
    as (s' & l & E & Hl & _ & Hp); [vm_compute; reflexivity|]. exists s', l. split; [exact E|]. split; [exact Hl|].
  apply (Hp (fun w => w !! "b"%string = Some PRIMARY_STATE_ACTIVE)).
  - exact crash_outlasts.
  - vm_compute. reflexivity.
  - intros w Hw. rewrite (crash_throws w _ Hw). reflexivity.
Defined.

Lemma shutdown_disables_manager_witness :
  exists s', shutdown managed1 = Some (true, s') /\ managerCallback s' STARTUP = None /\ checkBondRespawnConnection s' = None.
Proof.
  destruct (shutdown_disables_manager managed1 (inv_clients _ (reachable_Inv _ _ _ _ _ _ managed1_reachable)))
    as (s' & E & _ & _ & Hx & _ & Hr); [vm_compute; discriminate|]. exists s'. split; [exact E|].
  split; [exact (Hx STARTUP)|exact (Hr (fun w => eq_refl))].
Defined.

Lemma bond_check_reacts_witness :
  exists s', checkBondConnections managed1 = Some s' /\ isActiveCallback s' = false /\ bond_respawn_timer_ (mgr s') = true.
Proof.
  destruct (bond_check_reacts managed1 (reachable_Inv _ _ _ _ _ _ managed1_reachable))
    as (s' & l & E & _ & _ & Hx & _); [vm_compute; reflexivity|]. exists s'. split; [exact E|].
  destruct (Hx (fun w => eq_refl)) as (Ha & _ & _ & Hr).
  - replace (node_names_ (mgr managed1)) with ["a"%string; "b"%string] by (vm_compute; reflexivity).
    right. left. intros w. reflexivity.
  - split; [exact Ha|]. rewrite Hr. vm_compute. reflexivity.
Defined.
