(* ===== verification/ControlNodes.v ===== *)
(** The control nodes of the behavior trees
    ([nav2_behavior_tree/plugins/control]): recovery, round robin and pipeline
    sequence, over children of which nothing is assumed. *)

From S2P Require Import Prelude.

(** ** The base class *)

Inductive NodeStatus := IDLE | RUNNING | SUCCESS | FAILURE.

#[export] Instance NodeStatus_eq_dec : EqDecision NodeStatus.
Proof. solve_decision. Defined.

(** What a node calls of [BT::ControlNode] and of its children, over the state
    [W] of the rest of the tree. A child's tick throws when it is [None]. *)
Class ControlNode (W : Type) := {
  child_executeTick : Z -> W -> option NodeStatus * W;
  base_haltChild : Z -> W -> W;
  base_haltChildren : W -> W;
  base_halt : W -> W;
  base_setStatus : NodeStatus -> W -> W;
}.

(** What the node did to its children: [HaltAll] is [haltChildren] or the
    [halt] of the base class. *)
Inductive Event :=
| Tick (i : Z) (st : option NodeStatus)
| HaltChild (i : Z)
| HaltAll.

(** A node, the tree around it, and its events so far. *)
Record Run (N W : Type) := mkRun { node : N; tree : W; trace : list Event }.
Arguments mkRun {N W}. Arguments node {N W}. Arguments tree {N W}. Arguments trace {N W}.

(** How a tick ends: with a status or with an exception. *)
Inductive Outcome := Returned (st : NodeStatus) | Thrown.

Section base.
Context {N W : Type} `{ControlNode W}.

Definition set_node (r : Run N W) (n : N) : Run N W := mkRun n (tree r) (trace r).

(** [children_nodes_[i]->executeTick()], for one of [count] children. *)
Definition tick_child (count i : Z) (r : Run N W) : option (option NodeStatus * Run N W) :=
  _ ← assert_ub ((0 <=? i) && (i <? count));
  let '(st, w) := child_executeTick i (tree r) in
  Some (st, mkRun (node r) w (trace r ++ [Tick i st])).

Definition haltChild (i : Z) (r : Run N W) : Run N W :=
  mkRun (node r) (base_haltChild i (tree r)) (trace r ++ [HaltChild i]).

Definition haltChildren (r : Run N W) : Run N W :=
  mkRun (node r) (base_haltChildren (tree r)) (trace r ++ [HaltAll]).

Definition halt (r : Run N W) : Run N W :=
  mkRun (node r) (base_halt (tree r)) (trace r ++ [HaltAll]).

Definition setStatus (st : NodeStatus) (r : Run N W) : Run N W :=
  mkRun (node r) (base_setStatus st (tree r)) (trace r).
End base.

(** ** Recovery node *)

Record RecoveryNode := mkRecovery {
  rn_children_count : Z;
  rn_current_child_idx_ : Z;
  rn_number_of_retries_ : Z;
  rn_retry_count_ : Z;
}.

(** The number of retries is the value of the port, one when it has none. *)
Definition RecoveryNode_new (children_count : Z) (port : option Z) : RecoveryNode :=
  mkRecovery children_count 0 (default 1 port) 0.

(** ** Round robin node *)

Record RoundRobinNode := mkRoundRobin {
  rr_children_count : Z;
  rr_current_child_idx_ : Z;
  rr_num_failed_children_ : Z;
}.

Definition RoundRobinNode_new (children_count : Z) : RoundRobinNode := mkRoundRobin children_count 0 0.

(** ** Pipeline sequence *)

Record PipelineSequence := mkPipeline {
  ps_children_count : Z;
  ps_last_child_ticked_ : Z;
}.

Definition PipelineSequence_new (children_count : Z) : PipelineSequence := mkPipeline children_count 0.

Section nodes.
Context {W : Type} `{ControlNode W}.

Definition recovery_move (r : Run RecoveryNode W) (idx retries : Z) : Run RecoveryNode W :=
  let n := node r in set_node r (mkRecovery (rn_children_count n) idx (rn_number_of_retries_ n) retries).

Definition recovery_halt (r : Run RecoveryNode W) : Run RecoveryNode W := recovery_move (halt r) 0 0.

(** One round of the loop of [RecoveryNode::tick]: an outcome when it returns. *)
Definition recovery_round (s : Run RecoveryNode W * option Outcome) :
    option (ctl (Run RecoveryNode W * option Outcome)) :=
  let r := fst s in
  let n := node r in
  let idx := rn_current_child_idx_ n in
  if negb ((idx <? rn_children_count n) && (rn_retry_count_ n <=? rn_number_of_retries_ n)) then
    Some (Break (r, None))
  else
    t ← tick_child (rn_children_count n) idx r;
    let r := snd t in
    match fst t with
    | None => Some (Break (r, Some Thrown))
    | Some st =>
        if idx =? 0 then
          match st with
          | SUCCESS => Some (Break (recovery_halt r, Some (Returned SUCCESS)))
          | FAILURE =>
              if rn_retry_count_ n <? rn_number_of_retries_ n then
                Some (Next (recovery_move (haltChild 0 r) (u32 (idx + 1)) (rn_retry_count_ n), None))
              else Some (Break (recovery_halt r, Some (Returned FAILURE)))
          | RUNNING => Some (Break (r, Some (Returned RUNNING)))
          | IDLE => Some (Break (r, Some Thrown))
          end
        else if idx =? 1 then
          match st with
          | SUCCESS =>
              Some (Next (recovery_move (haltChild 1 r) (u32 (idx - 1)) (u32 (rn_retry_count_ n + 1)), None))
          | FAILURE => Some (Break (recovery_halt r, Some (Returned FAILURE)))
          | RUNNING => Some (Break (r, Some (Returned RUNNING)))
          | IDLE => Some (Break (r, Some Thrown))
          end
        else Some (Next (r, None))
    end.

(** Rounds left: two per retry left, and the attempt under way. *)
Definition recovery_fuel (n : RecoveryNode) : nat :=
  Z.to_nat (2 * (rn_number_of_retries_ n - rn_retry_count_ n) + 3).

Definition recovery_tick (r : Run RecoveryNode W) : option (Outcome * Run RecoveryNode W) :=
  if negb (rn_children_count (node r) =? 2) then Some (Thrown, r)
  else
    let r := setStatus RUNNING r in
    s ← loop (recovery_fuel (node r)) recovery_round (r, None);
    match snd s with
    | Some out => Some (out, fst s)
    | None => Some (Returned FAILURE, recovery_halt (fst s))
    end.

Definition rr_move (r : Run RoundRobinNode W) (idx failed : Z) : Run RoundRobinNode W :=
  set_node r (mkRoundRobin (rr_children_count (node r)) idx failed).

Definition rr_halt (r : Run RoundRobinNode W) : Run RoundRobinNode W := rr_move (halt r) 0 0.

(** The index after [idx], wrapping around to the first child. *)
Definition rr_next (n : RoundRobinNode) : Z :=
  let idx := u32 (rr_current_child_idx_ n + 1) in
  if rr_children_count n <=? idx then 0 else idx.

Definition rr_round (s : Run RoundRobinNode W * option Outcome) :
    option (ctl (Run RoundRobinNode W * option Outcome)) :=
  let r := fst s in
  let n := node r in
  if negb (rr_num_failed_children_ n <? rr_children_count n) then Some (Break (r, None))
  else
    t ← tick_child (rr_children_count n) (rr_current_child_idx_ n) r;
    let r := snd t in
    match fst t with
    | None => Some (Break (r, Some Thrown))
    | Some SUCCESS => Some (Break (haltChildren (rr_move r (rr_next n) 0), Some (Returned SUCCESS)))
    | Some FAILURE => Some (Next (rr_move r (rr_next n) (u32 (rr_num_failed_children_ n + 1)), None))
    | Some RUNNING => Some (Break (r, Some (Returned RUNNING)))
    | Some IDLE => Some (Break (r, Some Thrown))
    end.

Definition rr_tick (r : Run RoundRobinNode W) : option (Outcome * Run RoundRobinNode W) :=
  let r := setStatus RUNNING r in
  s ← loop (S (Z.to_nat (rr_children_count (node r) - rr_num_failed_children_ (node r)))) rr_round (r, None);
  match snd s with
  | Some out => Some (out, fst s)
  | None => Some (Returned FAILURE, rr_halt (fst s))
  end.

Definition ps_set_last (r : Run PipelineSequence W) (last : Z) : Run PipelineSequence W :=
  set_node r (mkPipeline (ps_children_count (node r)) last).

Definition ps_halt (r : Run PipelineSequence W) : Run PipelineSequence W := ps_set_last (halt r) 0.

Definition ps_round (s : Z * Run PipelineSequence W * option Outcome) :
    option (ctl (Z * Run PipelineSequence W * option Outcome)) :=
  let '(i, r, _) := s in
  let n := node r in
  if negb (i <? ps_children_count n) then Some (Break (i, r, None))
  else
    t ← tick_child (ps_children_count n) i r;
    let r := snd t in
    match fst t with
    | None => Some (Break (i, r, Some Thrown))
    | Some FAILURE => Some (Break (i, ps_set_last (haltChildren r) 0, Some (Returned FAILURE)))
    | Some SUCCESS => Some (Next (i + 1, r, None))
    | Some RUNNING =>
        if ps_last_child_ticked_ n <=? i then Some (Break (i, ps_set_last r i, Some (Returned RUNNING)))
        else Some (Next (i + 1, r, None))
    | Some IDLE => Some (Break (i, r, Some Thrown))
    end.

Definition ps_tick (r : Run PipelineSequence W) : option (Outcome * Run PipelineSequence W) :=
  s ← loop (S (Z.to_nat (ps_children_count (node r)))) ps_round (0, r, None);
  let '(_, r, out) := s in
  match out with
  | Some out => Some (out, r)
  | None => Some (Returned SUCCESS, ps_set_last (haltChildren r) 0)
  end.
End nodes.

#[local] Arguments tick_child : simpl never.

(** ** What the children did since the last reset *)

Definition since_step (acc : list (Z * NodeStatus)) (e : Event) : list (Z * NodeStatus) :=
  match e with
  | Tick i (Some st) => acc ++ [(i, st)]
  | HaltAll => []
  | _ => acc
  end.

(** The answers of the children after the last [HaltAll]. *)
Definition since (l : list Event) : list (Z * NodeStatus) := foldl since_step [] l.

(** How often child [i] answered [st] since then. *)
Definition times (i : Z) (st : NodeStatus) (l : list Event) : Z :=
  alen (filter (fun p => p = (i, st)) (since l)).

Lemma since_snoc l e : since (l ++ [e]) = since_step (since l) e.
Proof. unfold since. by rewrite foldl_app. Qed.

Lemma times_tick i st l j st' :
  times i st (l ++ [Tick j (Some st')]) = times i st l + (if decide ((j, st') = (i, st)) then 1 else 0).
Proof.
  unfold times. rewrite since_snoc. cbn [since_step]. rewrite filter_app, filter_cons, filter_nil.
  unfold alen. rewrite length_app. destruct (decide _); cbn; lia.
Qed.

Lemma times_halt_child i st l j : times i st (l ++ [HaltChild j]) = times i st l.
Proof. unfold times. by rewrite since_snoc. Qed.

Lemma times_throw i st l j : times i st (l ++ [Tick j None]) = times i st l.
Proof. unfold times. by rewrite since_snoc. Qed.

Lemma times_halt_all i st l : times i st (l ++ [HaltAll]) = 0.
Proof. unfold times. by rewrite since_snoc. Qed.

Create Rewrite HintDb control.
#[export] Hint Rewrite times_tick times_halt_child times_throw times_halt_all : control.

(** Counts the last events. *)
Ltac count := autorewrite with control; repeat first [rewrite decide_True by congruence | rewrite decide_False by congruence]; try lia.

Lemma tick_child_some {N W} `{ControlNode W} count i (r : Run N W) :
  0 <= i < count ->
  exists st w, tick_child count i r = Some (st, mkRun (node r) w (trace r ++ [Tick i st])).
Proof.
  intros Hi. unfold tick_child. rewrite assert_ub_true by lia. mred.
  destruct (child_executeTick i (tree r)) as [st w]. by eexists _, _.
Qed.

(** ** Recovery node *)

Section recovery.
Context {W : Type} `{ControlNode W}.
Context (retries : Z) (Hretries : 0 <= retries < 2 ^ 32).

(** Between two ticks: the retry count is the number of recoveries that
    succeeded, and every one of them answered a failure of the first child. *)
Record recovery_inv (r : Run RecoveryNode W) : Prop := {
  ri_two : rn_children_count (node r) = 2;
  ri_retries : rn_number_of_retries_ (node r) = retries;
  ri_count : 0 <= rn_retry_count_ (node r) <= retries;
  ri_idx : rn_current_child_idx_ (node r) = 0 \/
           rn_current_child_idx_ (node r) = 1 /\ rn_retry_count_ (node r) < retries;
  ri_recovered : times 1 SUCCESS (trace r) = rn_retry_count_ (node r);
  ri_failed : times 0 FAILURE (trace r) = rn_retry_count_ (node r) + rn_current_child_idx_ (node r);
}.

(** How a tick may end, and with which events. *)
Definition recovery_outcome (out : Outcome) (r : Run RecoveryNode W) : Prop :=
  match out with
  | Returned SUCCESS =>
      node r = mkRecovery 2 0 retries 0 /\
      exists l, trace r = l ++ [Tick 0 (Some SUCCESS); HaltAll] /\
        times 0 FAILURE l = times 1 SUCCESS l /\ times 1 SUCCESS l <= retries
  | Returned FAILURE =>
      node r = mkRecovery 2 0 retries 0 /\
      exists l i, trace r = l ++ [Tick i (Some FAILURE); HaltAll] /\
        (i = 0 /\ times 0 FAILURE l = retries /\ times 1 SUCCESS l = retries \/
         i = 1 /\ times 0 FAILURE l = times 1 SUCCESS l + 1 /\ times 1 SUCCESS l < retries)
  | Returned RUNNING =>
      exists l, trace r = l ++ [Tick (rn_current_child_idx_ (node r)) (Some RUNNING)]
  | Returned IDLE => False
  | Thrown =>
      exists l st, trace r = l ++ [Tick (rn_current_child_idx_ (node r)) st] /\ (st = None \/ st = Some IDLE)
  end.

Lemma recovery_inv_event (r : Run RecoveryNode W) w l :
  recovery_inv r -> times 1 SUCCESS l = times 1 SUCCESS (trace r) -> times 0 FAILURE l = times 0 FAILURE (trace r) ->
  recovery_inv (mkRun (node r) w l).
Proof. intros [] H1 H2. split; cbn; congruence. Qed.

Lemma recovery_inv_reset (r : Run RecoveryNode W) :
  node r = mkRecovery 2 0 retries 0 -> times 1 SUCCESS (trace r) = 0 -> times 0 FAILURE (trace r) = 0 -> recovery_inv r.
Proof. intros Hn H1 H2. split; rewrite Hn; cbn; auto; lia. Qed.

Lemma recovery_halt_inv r : recovery_inv r -> recovery_inv (recovery_halt r).
Proof. intros []. apply recovery_inv_reset; cbn; [congruence|count..]. Qed.

(** The measure: rounds left. *)
Definition recovery_left (n : RecoveryNode) : nat :=
  Z.to_nat (2 * (rn_number_of_retries_ n - rn_retry_count_ n) + 1 - rn_current_child_idx_ n).

(** The goal of a round that returns: outcome, invariant and longer trace. *)
Definition recovery_ends (l0 : list Event) (s : Run RecoveryNode W * option Outcome) : Prop :=
  exists o, snd s = Some o /\ recovery_outcome o (fst s) /\ recovery_inv (fst s) /\ l0 `prefix_of` trace (fst s).

Definition recovery_goes (l0 : list Event) (r : Run RecoveryNode W) (c : ctl (Run RecoveryNode W * option Outcome)) : Prop :=
  match c with
  | Next s' => (recovery_inv (fst s') /\ l0 `prefix_of` trace (fst s')) /\
               (recovery_left (node (fst s')) < recovery_left (node r))%nat
  | Break s' => recovery_ends l0 s'
  end.

(** A child that runs, is idle or throws ends the round and changes nothing. *)
Lemma recovery_stays l0 r w st o :
  recovery_inv r -> l0 `prefix_of` trace r ->
  st = Some RUNNING /\ o = Returned RUNNING \/ (st = None \/ st = Some IDLE) /\ o = Thrown ->
  recovery_ends l0 (mkRun (node r) w (trace r ++ [Tick (rn_current_child_idx_ (node r)) st]), Some o).
Proof.
  intros HI Hp Hst. exists o. split; [done|]. split; [|split; [|by apply prefix_app_r]].
  - destruct Hst as [[-> ->]|[Hst ->]]; cbn; [by eexists|by eexists _, _].
  - apply recovery_inv_event; [done| |]; destruct Hst as [[-> _]|[[->| ->] _]]; count.
Qed.

(** A round that resets the node ends it with the counts at zero. *)
Lemma recovery_resets l0 n w l e o :
  rn_children_count n = 2 -> rn_number_of_retries_ n = retries -> l0 `prefix_of` l ->
  (let r := recovery_halt (mkRun n w (l ++ [e])) in recovery_outcome o r) ->
  recovery_ends l0 (recovery_halt (mkRun n w (l ++ [e])), Some o).
Proof.
  intros H1 H2 Hp Ho. exists o. split; [done|]. split; [done|]. split.
  - apply recovery_inv_reset; cbn; [congruence|count..].
  - cbn. rewrite <- app_assoc. by apply prefix_app_r.
Qed.

Lemma recovery_round_first l0 k w l o :
  let r := mkRun (mkRecovery 2 0 retries k) w l in
  recovery_inv r -> l0 `prefix_of` l -> exists c, recovery_round (r, o) = Some c /\ recovery_goes l0 r c.
Proof.
  intros r HI Hp. subst r. pose proof HI as [_ _ Hk _ H1 H0]. cbn in Hk, H1, H0. unfold recovery_round. cbn.
  rewrite (proj2 (Z.leb_le k retries)) by lia. cbn.
  match goal with |- context [tick_child 2 0 ?x] => destruct (tick_child_some 2 0 x) as (st & w' & ->); [lia|] end. cbn.
  destruct st as [[]|].
  - eexists. split; [done|]. apply (recovery_stays _ _ _ _ _ HI Hp). auto.
  - eexists. split; [done|]. apply (recovery_stays _ _ _ _ _ HI Hp). auto.
  - eexists. split; [done|]. apply recovery_resets; [done..|]. split; [done|].
    exists l. cbn. rewrite <- app_assoc. split; [done|lia].
  - destruct (k <? retries) eqn:Ek; (eexists; split; [done|]).
    + change (u32 (0 + 1)) with 1. split; [split; [|cbn; rewrite <- app_assoc; by apply prefix_app_r]|unfold recovery_left; cbn; lia].
      split; cbn; [done|done|lia|right; lia|count|count].
    + apply recovery_resets; [done..|]. split; [done|]. exists l, 0. cbn. rewrite <- app_assoc. split; [done|left; lia].
  - eexists. split; [done|]. apply (recovery_stays _ _ _ _ _ HI Hp). auto.
Qed.

Lemma recovery_round_second l0 k w l o :
  let r := mkRun (mkRecovery 2 1 retries k) w l in
  recovery_inv r -> l0 `prefix_of` l -> exists c, recovery_round (r, o) = Some c /\ recovery_goes l0 r c.
Proof.
  intros r HI Hp. subst r. pose proof HI as [_ _ Hk Hi H1 H0]. cbn in Hk, Hi, H1, H0. unfold recovery_round. cbn.
  rewrite (proj2 (Z.leb_le k retries)) by lia. cbn.
  match goal with |- context [tick_child 2 1 ?x] => destruct (tick_child_some 2 1 x) as (st & w' & ->); [lia|] end. cbn.
  assert (Hu : u32 (k + 1) = k + 1) by (apply u32_small; unfold is_u32; lia).
  destruct st as [[]|]; (eexists; split; [done|]).
  - apply (recovery_stays _ _ _ _ _ HI Hp). auto.
  - apply (recovery_stays _ _ _ _ _ HI Hp). auto.
  - cbn. rewrite Hu. change (u32 (1 - 1)) with 0.
    split; [split; [|cbn; rewrite <- app_assoc; by apply prefix_app_r]|unfold recovery_left; cbn; lia].
    split; cbn; [done|done|lia|by left|count|count].
  - apply recovery_resets; [done..|]. split; [done|]. exists l, 1. cbn. rewrite <- app_assoc. split; [done|right; lia].
  - apply (recovery_stays _ _ _ _ _ HI Hp). auto.
Qed.

Lemma recovery_tick_spec r :
  recovery_inv r -> exists s, recovery_tick r = Some s /\ recovery_outcome (fst s) (snd s) /\
    recovery_inv (snd s) /\ trace r `prefix_of` trace (snd s).
Proof.
  intros HI. unfold recovery_tick. rewrite (ri_two _ HI). cbn [Z.eqb Pos.eqb negb].
  destruct (loop_inv (fun s => recovery_inv (fst s) /\ trace r `prefix_of` trace (fst s)) (recovery_ends (trace r))
    (fun s => recovery_left (node (fst s))) recovery_round)
    with (fuel := recovery_fuel (node (setStatus RUNNING r))) (s := (setStatus RUNNING r, @None Outcome))
    as ([r' out] & -> & o & Hout & Ho & HI' & Hp).
  - intros [[[c i n k] w l] o] [HJ Hp]. pose proof HJ as [Hc Hn _ Hi _ _]. cbn in Hc, Hn, Hi, Hp. subst c n.
    destruct Hi as [->|[-> _]]; [exact (recovery_round_first _ _ _ _ _ HJ Hp)|exact (recovery_round_second _ _ _ _ _ HJ Hp)].
  - split; [|done]. by apply recovery_inv_event.
  - pose proof HI as [_ _ Hk Hi _ _]. unfold recovery_left, recovery_fuel. cbn [fst node setStatus]. pose proof (ri_retries _ HI). lia.
  - cbn in Hout. subst out. by eexists.
Qed.

(** What may happen to a recovery node: a tick, a halt of its parent, or
    anything in the rest of the tree. *)
Inductive recovery_step : Run RecoveryNode W -> Run RecoveryNode W -> Prop :=
| recovery_step_tick r out r' : recovery_tick r = Some (out, r') -> recovery_step r r'
| recovery_step_halt r : recovery_step r (recovery_halt r)
| recovery_step_other r w : recovery_step r (mkRun (node r) w (trace r)).

Lemma recovery_reachable port w r :
  default 1 port = retries -> rtc recovery_step (mkRun (RecoveryNode_new 2 port) w []) r -> recovery_inv r.
Proof.
  intros Hport Hr.
  assert (HI : recovery_inv (mkRun (RecoveryNode_new 2 port) w [])).
  { apply recovery_inv_reset; [|done|done]. unfold RecoveryNode_new. cbn. by rewrite Hport. }
  induction Hr as [|r1 r2 r3 Hst _ IH]; [done|]. apply IH. destruct Hst as [r out r' E|r|r w'].
  - destruct (recovery_tick_spec r HI) as (s & E' & _ & HI' & _). rewrite E in E'. by injection E' as <-.
  - by apply recovery_halt_inv.
  - by apply recovery_inv_event.
Qed.
End recovery.

(** ** Round robin node *)

Section round_robin.
Context {W : Type} `{ControlNode W}.
Context (n : Z) (Hn : 0 <= n < 2 ^ 32).

(** [k] children in a row from [idx], each of which failed. *)
Definition rr_failures (idx : Z) (k : nat) : list Event :=
  (fun j : nat => Tick ((idx + Z.of_nat j) mod n) (Some FAILURE)) <$> seq 0 k.

Lemma rr_failures_S idx k :
  rr_failures idx (S k) = rr_failures idx k ++ [Tick ((idx + Z.of_nat k) mod n) (Some FAILURE)].
Proof. unfold rr_failures. by rewrite seq_S, fmap_app. Qed.

Lemma rr_next_mod failed idx : 0 <= idx < n -> rr_next (mkRoundRobin n idx failed) = (idx + 1) mod n.
Proof.
  intros Hi. unfold rr_next. cbn [rr_current_child_idx_ rr_children_count].
  rewrite u32_small by (unfold is_u32; lia). destruct (Z.leb_spec n (idx + 1)).
  - replace (idx + 1) with n by lia. by rewrite Z_mod_same_full.
  - by rewrite Z.mod_small by lia.
Qed.

(** The [failed] children before the current one, cyclically, failed since the
    last reset. *)
Definition rr_failed_before (r : Run RoundRobinNode W) : Prop :=
  forall j, 0 <= j < rr_num_failed_children_ (node r) ->
    ((rr_current_child_idx_ (node r) - 1 - j) mod n, FAILURE) ∈ since (trace r).

Record rr_inv (r : Run RoundRobinNode W) : Prop := {
  rri_count : rr_children_count (node r) = n;
  rri_idx : 0 <= rr_current_child_idx_ (node r);
  rri_in : rr_current_child_idx_ (node r) < n \/ rr_current_child_idx_ (node r) = 0;
  rri_failed : 0 <= rr_num_failed_children_ (node r) <= n;
  rri_before : rr_failed_before r;
}.

Lemma rr_inv_reset r idx : node r = mkRoundRobin n idx 0 -> 0 <= idx -> idx < n \/ idx = 0 -> rr_inv r.
Proof. intros E H1 H2. split; unfold rr_failed_before; rewrite E; cbn; [done|done|done|lia|intros; lia]. Qed.

Lemma rr_inv_event r w l :
  rr_inv r -> (forall x, x ∈ since (trace r) -> x ∈ since l) -> rr_inv (mkRun (node r) w l).
Proof. intros [] Hl. split; cbn; try done. intros j Hj. apply Hl. auto. Qed.

Lemma since_tick_mono l i st x : x ∈ since l -> x ∈ since (l ++ [Tick i st]).
Proof. intros Hx. rewrite since_snoc. destruct st; cbn; [apply elem_of_app; by left|done]. Qed.

Lemma rr_inv_failed w w' l idx failed :
  rr_inv (mkRun (mkRoundRobin n idx failed) w l) -> failed < n ->
  rr_inv (mkRun (mkRoundRobin n ((idx + 1) mod n) (u32 (failed + 1))) w' (l ++ [Tick idx (Some FAILURE)])).
Proof.
  intros [_ Hi Hin Hf Hb] Hlt. cbn in *. pose proof (Z.mod_pos_bound (idx + 1) n ltac:(lia)).
  rewrite u32_small by (unfold is_u32; lia). split; cbn; [done|lia|lia|lia|].
  intros j Hj. cbn in *. rewrite since_snoc. cbn. apply elem_of_app.
  replace (((idx + 1) mod n - 1 - j) mod n) with ((idx - 1 - (j - 1)) mod n).
  2: { replace ((idx + 1) mod n - 1 - j) with ((idx + 1) mod n - (1 + j)) by lia. rewrite Zminus_mod_idemp_l. f_equal. lia. }
  destruct (decide (j = 0)) as [->|Hj0].
  - right. replace (idx - 1 - (0 - 1)) with idx by lia. rewrite Z.mod_small by lia. by left.
  - left. apply Hb. cbn. lia.
Qed.

(** How a tick from the index [idx] and [failed] failures may end after [k]
    more of them. *)
Definition rr_outcome (l : list Event) (idx failed : Z) (k : nat) (out : Outcome) (r : Run RoundRobinNode W) : Prop :=
  let here := (idx + Z.of_nat k) mod n in
  match out with
  | Returned SUCCESS =>
      node r = mkRoundRobin n ((here + 1) mod n) 0 /\
      trace r = l ++ rr_failures idx k ++ [Tick here (Some SUCCESS); HaltAll]
  | Returned FAILURE =>
      failed + Z.of_nat k = n /\ node r = mkRoundRobin n 0 0 /\ trace r = l ++ rr_failures idx k ++ [HaltAll] /\
      (forall i, 0 <= i < n -> (i, FAILURE) ∈ since (l ++ rr_failures idx k))
  | Returned RUNNING =>
      node r = mkRoundRobin n here (failed + Z.of_nat k) /\
      trace r = l ++ rr_failures idx k ++ [Tick here (Some RUNNING)]
  | Returned IDLE => False
  | Thrown =>
      node r = mkRoundRobin n here (failed + Z.of_nat k) /\
      exists st, trace r = l ++ rr_failures idx k ++ [Tick here st] /\ (st = None \/ st = Some IDLE)
  end.

(** Rounds of the loop, [k] of them done. *)
Definition rr_going (w0 : Run RoundRobinNode W) (k : nat) (r : Run RoundRobinNode W) : Prop :=
  let idx := rr_current_child_idx_ (node w0) in
  let failed := rr_num_failed_children_ (node w0) in
  node r = mkRoundRobin n ((idx + Z.of_nat k) mod n) (failed + Z.of_nat k) /\
  trace r = trace w0 ++ rr_failures idx k /\ rr_inv r.

Definition rr_ended (r0 : Run RoundRobinNode W) (s : Run RoundRobinNode W * option Outcome) : Prop :=
  exists k, match snd s with
    | Some o => rr_outcome (trace r0) (rr_current_child_idx_ (node r0)) (rr_num_failed_children_ (node r0)) k o (fst s) /\ rr_inv (fst s)
    | None => rr_going r0 k (fst s) /\ rr_num_failed_children_ (node (fst s)) = n
    end.

Lemma rr_round_spec r0 k r o :
  rr_going r0 k r ->
  exists c, rr_round (r, o) = Some c /\
    match c with
    | Next s' => rr_going r0 (S k) (fst s') /\ rr_num_failed_children_ (node (fst s')) = rr_num_failed_children_ (node r) + 1 /\
                 rr_num_failed_children_ (node r) < n
    | Break s' => rr_ended r0 s'
    end.
Proof.
  intros (En & Et & HI). unfold rr_round. cbn [fst]. rewrite En. cbn [rr_num_failed_children_ rr_children_count rr_current_child_idx_].
  set (idx := rr_current_child_idx_ (node r0)) in *. set (failed := rr_num_failed_children_ (node r0)) in *.
  set (here := (idx + Z.of_nat k) mod n) in *. pose proof (rri_failed _ HI) as Hf. rewrite En in Hf. cbn in Hf.
  destruct (Z.ltb_spec (failed + Z.of_nat k) n) as [Hlt|Hge]; cbn [negb].
  2: { eexists. split; [done|]. exists k. split; [done|]. cbn. rewrite En. cbn. lia. }
  assert (Hh : 0 <= here < n) by (apply Z.mod_pos_bound; lia).
  destruct (tick_child_some n here r Hh) as (st & w & ->). mred. cbn [fst snd]. rewrite En, Et.
  assert (HS : node r = mkRoundRobin n here (failed + Z.of_nat k)) by done.
  assert (Hstay : forall st, rr_inv (mkRun (mkRoundRobin n here (failed + Z.of_nat k)) w ((trace r0 ++ rr_failures idx k) ++ [Tick here st]))).
  { intros st'. rewrite <- HS, <- Et. apply rr_inv_event; [done|]. intros x. apply since_tick_mono. }
  destruct st as [[]|]; (eexists; split; [done|]).
  - exists k. split; [|apply Hstay]. split; [done|]. exists (Some IDLE). cbn. rewrite <- app_assoc. by split; [|right].
  - exists k. split; [|apply Hstay]. split; [done|]. cbn. by rewrite <- app_assoc.
  - cbn. unfold rr_move, haltChildren, set_node. cbn. rewrite rr_next_mod by done. exists k. split.
    + split; [done|]. cbn. by rewrite <- !app_assoc.
    + eapply rr_inv_reset; [done| |]; pose proof (Z.mod_pos_bound (here + 1) n ltac:(lia)); lia.
  - cbn. unfold rr_move, set_node. cbn. rewrite rr_next_mod by done. split; [|cbn; rewrite u32_small by (unfold is_u32; lia); lia].
    split; [|split].
    + cbn. unfold here. rewrite Zplus_mod_idemp_l, u32_small by (unfold is_u32; lia). f_equal; [f_equal|]; lia.
    + by rewrite rr_failures_S, app_assoc.
    + apply (rr_inv_failed (tree r)); [|done]. rewrite <- HS, <- Et. by destruct r.
  - exists k. split; [|apply Hstay]. split; [done|]. exists None. cbn. rewrite <- app_assoc. by split; [|left].
Qed.

Lemma rr_going_start r : rr_inv r -> rr_going r 0 (setStatus RUNNING r).
Proof.
  intros HI. pose proof HI as [Hc Hi Hin Hf _]. split; [|split; [cbn; by rewrite app_nil_r|by apply rr_inv_event]].
  cbn. destruct (node r) as [c i f]. cbn in *. subst c. f_equal; [|lia].
  destruct Hin as [Hin| ->]; [by rewrite Z.add_0_r, Z.mod_small|done].
Qed.

(** All the children failed: the counter shows it, and so do the answers. *)
Lemma rr_all_failed r idx :
  rr_inv r -> node r = mkRoundRobin n idx n -> forall i, 0 <= i < n -> (i, FAILURE) ∈ since (trace r).
Proof.
  intros HI E i Hi. pose proof (rri_before _ HI) as Hb. unfold rr_failed_before in Hb. rewrite E in Hb. cbn in Hb.
  specialize (Hb ((idx - 1 - i) mod n) (Z.mod_pos_bound (idx - 1 - i) n ltac:(lia))).
  rewrite Zminus_mod_idemp_r in Hb. replace (idx - 1 - (idx - 1 - i)) with i in Hb by lia. by rewrite Z.mod_small in Hb by lia.
Qed.

Lemma rr_tick_spec r :
  rr_inv r -> exists k s, rr_tick r = Some s /\
    rr_outcome (trace r) (rr_current_child_idx_ (node r)) (rr_num_failed_children_ (node r)) k (fst s) (snd s) /\ rr_inv (snd s).
Proof.
  intros HI. pose proof (rr_going_start r HI) as Hs. pose proof HI as [Hc _ _ Hf _]. unfold rr_tick.
  destruct (loop_inv (fun s => exists k, rr_going r k (fst s)) (rr_ended r)
    (fun s => Z.to_nat (n - rr_num_failed_children_ (node (fst s)))) rr_round)
    with (fuel := S (Z.to_nat (rr_children_count (node (setStatus RUNNING r)) - rr_num_failed_children_ (node (setStatus RUNNING r)))))
         (s := (setStatus RUNNING r, @None Outcome)) as ([r' out] & -> & k & Hk).
  - intros [r1 o] [k Hk]. destruct (rr_round_spec r k r1 o Hk) as (c & E & Hgo). exists c. split; [done|].
    destruct c as [s'|s']; [|done]. destruct Hgo as (Hg & E1 & Hlt). split; [by eexists|]. cbn [fst]. lia.
  - by eexists.
  - cbn. lia.
  - exists k. cbn in Hk. mred. destruct out as [o|]; [by eexists|].
    destruct Hk as ((En & Et & HI') & Hall). eexists. split; [done|]. cbn [fst snd]. rewrite En in Hall. cbn in Hall.
    split; [|apply (rr_inv_reset _ 0); [cbn; by rewrite En|lia|lia]].
    split; [done|]. split; [cbn; by rewrite En|]. split; [cbn; by rewrite Et, <- app_assoc|].
    rewrite <- Et. rewrite Hall in En. by apply (rr_all_failed _ _ HI' En).
Qed.

(** A tick, a halt of the parent, or anything in the rest of the tree. *)
Inductive rr_step : Run RoundRobinNode W -> Run RoundRobinNode W -> Prop :=
| rr_step_tick r out r' : rr_tick r = Some (out, r') -> rr_step r r'
| rr_step_halt r : rr_step r (rr_halt r)
| rr_step_other r w : rr_step r (mkRun (node r) w (trace r)).

Lemma rr_reachable w r : rtc rr_step (mkRun (RoundRobinNode_new n) w []) r -> rr_inv r.
Proof.
  intros Hr. assert (HI : rr_inv (mkRun (RoundRobinNode_new n) w [])) by (by apply (rr_inv_reset _ 0); [|lia|right]).
  induction Hr as [|r1 r2 r3 Hst _ IH]; [done|]. apply IH. destruct Hst as [r out r' E|r|r w'].
  - destruct (rr_tick_spec r HI) as (k & s & E' & _ & HI'). rewrite E in E'. by injection E' as <-.
  - apply (rr_inv_reset _ 0); [|lia|by right]. cbn. by rewrite (rri_count _ HI).
  - by apply rr_inv_event.
Qed.
End round_robin.

(** ** Pipeline sequence *)

Section pipeline.
Context {W : Type} `{ControlNode W}.
Context (n : Z) (Hn : 0 <= n).

(** The children from the first one on, each with its answer. *)
Definition ps_ticks (sts : list NodeStatus) : list Event := imap (fun i st => Tick (Z.of_nat i) (Some st)) sts.

Lemma ps_ticks_snoc sts st : ps_ticks (sts ++ [st]) = ps_ticks sts ++ [Tick (alen sts) (Some st)].
Proof. unfold ps_ticks, alen. rewrite imap_app. cbn. by rewrite Nat.add_0_r. Qed.

(** Every child before the last one ticked has succeeded since the last reset. *)
Record ps_inv (r : Run PipelineSequence W) : Prop := {
  psi_count : ps_children_count (node r) = n;
  psi_last : 0 <= ps_last_child_ticked_ (node r);
  psi_in : ps_last_child_ticked_ (node r) < n \/ ps_last_child_ticked_ (node r) = 0;
  psi_done : forall j, 0 <= j < ps_last_child_ticked_ (node r) -> (j, SUCCESS) ∈ since (trace r);
}.

Lemma ps_inv_reset r : node r = mkPipeline n 0 -> ps_inv r.
Proof. intros E. split; rewrite E; cbn; [done|lia|by right|intros; lia]. Qed.

Lemma ps_inv_event r w l :
  ps_inv r -> (forall x, x ∈ since (trace r) -> x ∈ since l) -> ps_inv (mkRun (node r) w l).
Proof. intros [] Hl. split; cbn; try done. auto. Qed.

(** The round of child [i], after the answers [sts] of the ones before. *)
Record ps_going (r0 : Run PipelineSequence W) (sts : list NodeStatus) (i : Z) (r : Run PipelineSequence W) : Prop := {
  psg_i : i = alen sts;
  psg_le : i <= n;
  psg_node : node r = node r0;
  psg_trace : trace r = trace r0 ++ ps_ticks sts;
  psg_ok : forall j st, aget sts j = Some st -> st = SUCCESS \/ st = RUNNING /\ j < ps_last_child_ticked_ (node r0);
  psg_done : forall j, 0 <= j < Z.max i (ps_last_child_ticked_ (node r0)) -> (j, SUCCESS) ∈ since (trace r);
}.

(** How a tick may end. *)
Definition ps_outcome (r0 : Run PipelineSequence W) (sts : list NodeStatus) (out : Outcome) (r : Run PipelineSequence W) : Prop :=
  (forall j st, aget sts j = Some st -> st = SUCCESS \/ st = RUNNING /\ j < ps_last_child_ticked_ (node r0)) /\
  match out with
  | Returned SUCCESS =>
      alen sts = n /\ node r = mkPipeline n 0 /\ trace r = trace r0 ++ ps_ticks sts ++ [HaltAll] /\
      (forall i, 0 <= i < n -> (i, SUCCESS) ∈ since (trace r0 ++ ps_ticks sts))
  | Returned FAILURE =>
      alen sts < n /\ node r = mkPipeline n 0 /\ trace r = trace r0 ++ ps_ticks (sts ++ [FAILURE]) ++ [HaltAll]
  | Returned RUNNING =>
      ps_last_child_ticked_ (node r0) <= alen sts < n /\ node r = mkPipeline n (alen sts) /\
      trace r = trace r0 ++ ps_ticks (sts ++ [RUNNING])
  | Returned IDLE => False
  | Thrown =>
      alen sts < n /\ node r = node r0 /\
      exists st, trace r = trace r0 ++ ps_ticks sts ++ [Tick (alen sts) st] /\ (st = None \/ st = Some IDLE)
  end.

(** The next child is asked after an answer that lets the tick go on. *)
Lemma ps_going_next r0 sts i r w st :
  ps_going r0 sts i r -> i < n -> st = SUCCESS \/ st = RUNNING /\ i < ps_last_child_ticked_ (node r0) ->
  ps_going r0 (sts ++ [st]) (i + 1) (mkRun (node r) w (trace r ++ [Tick i (Some st)])).
Proof.
  intros [Hi Hle Hnode Ht Hok Hd] Hlt Hst. split; cbn.
  - unfold alen in *. rewrite length_app. cbn. lia.
  - lia.
  - done.
  - by rewrite ps_ticks_snoc, <- Hi, Ht, app_assoc.
  - intros j y [E|[-> ->]]%aget_snoc; [by apply (Hok j)|]. rewrite <- Hi. destruct Hst as [->|[-> ?]]; auto.
  - intros j Hj. destruct (decide (j < Z.max i (ps_last_child_ticked_ (node r0)))) as [Hlt'|Hge].
    + apply since_tick_mono, Hd. lia.
    + assert (j = i) as -> by lia. rewrite since_snoc. cbn. apply elem_of_app. right.
      destruct Hst as [->|[_ ?]]; [by left|lia].
Qed.

Definition ps_ended (r0 : Run PipelineSequence W) (r : Run PipelineSequence W) (out : option Outcome) : Prop :=
  exists sts, match out with
    | Some o => ps_outcome r0 sts o r /\ ps_inv r
    | None => ps_going r0 sts n r
    end.

Lemma ps_round_spec r0 sts i r o :
  ps_inv r0 -> ps_going r0 sts i r ->
  exists c, ps_round (i, r, o) = Some c /\
    match c with
    | Next (i', r', _) => i' = i + 1 /\ i < n /\ exists sts', ps_going r0 sts' i' r'
    | Break (_, r', out) => ps_ended r0 r' out
    end.
Proof.
  intros HI HG. pose proof HI as [Hc Hl Hin Hd0]. pose proof HG as [Hi Hle Hnode Ht Hok Hd].
  unfold ps_round. rewrite Hnode, Hc.
  destruct (Z.ltb_spec i n) as [Hlt|Hge]; cbn [negb].
  2: { eexists. split; [done|]. exists sts. by replace n with i by lia. }
  destruct (tick_child_some n i r) as (st & w & ->); [unfold alen in Hi; lia|]. mred. cbn [fst snd].
  assert (Hnode' : ps_children_count (node r0) = n) by done.
  assert (Hstay : forall st, ps_inv (mkRun (node r) w (trace r ++ [Tick i st]))).
  { intros st'. rewrite Hnode. split; cbn; try done. intros j Hj. apply since_tick_mono, Hd. lia. }
  assert (Hthrow : forall st, st = None \/ st = Some IDLE ->
    ps_ended r0 (mkRun (node r) w (trace r ++ [Tick i st])) (Some Thrown)).
  { intros st' Hst'. exists sts. split; [split; [done|]|apply Hstay]. split; [lia|]. split; [done|].
    exists st'. cbn. by rewrite Ht, <- Hi, <- app_assoc. }
  destruct st as [[]|].
  - eexists. split; [done|]. apply Hthrow. by right.
  - destruct (Z.leb_spec (ps_last_child_ticked_ (node r0)) i) as [Hge|Hge]; (eexists; split; [done|]).
    + exists sts. unfold ps_set_last, set_node. cbn. rewrite Hnode, Hnode'. split; [split; [done|]|].
      * cbn. rewrite ps_ticks_snoc, Ht, <- Hi, app_assoc. split; [lia|done].
      * split; cbn; [done|unfold alen in Hi; lia|lia|]. intros j Hj. apply since_tick_mono, Hd. lia.
    + split; [done|]. split; [done|]. eexists. apply (ps_going_next _ _ _ _ _ _ HG); auto.
  - eexists. split; [done|]. split; [done|]. split; [done|]. eexists. apply (ps_going_next _ _ _ _ _ _ HG); auto.
  - eexists. split; [done|]. exists sts. unfold ps_set_last, haltChildren, set_node. cbn. rewrite Hnode, Hnode'. split; [split; [done|]|].
    + cbn. rewrite ps_ticks_snoc, Ht, <- Hi, <- !app_assoc. split; [lia|done].
    + by apply ps_inv_reset.
  - eexists. split; [done|]. apply Hthrow. by left.
Qed.

Lemma ps_tick_spec r :
  ps_inv r -> exists sts s, ps_tick r = Some s /\ ps_outcome r sts (fst s) (snd s) /\ ps_inv (snd s).
Proof.
  intros HI. pose proof (psi_count _ HI) as Hc. unfold ps_tick.
  destruct (loop_inv (fun '(i, r', _) => 0 <= i /\ exists sts, ps_going r sts i r') (fun '(_, r', out) => ps_ended r r' out)
    (fun '(i, _, _) => Z.to_nat (n - i)) ps_round)
    with (fuel := S (Z.to_nat (ps_children_count (node r)))) (s := (0, r, @None Outcome)) as ([[i r'] out] & -> & sts & Hs).
  - intros [[i r'] o] [Hi [sts Hg]]. destruct (ps_round_spec r sts i r' o HI Hg) as (c & E & Hgo). exists c. split; [done|].
    destruct c as [[[i' r1] o']|[[i' r1] out]]; [|done]. destruct Hgo as (-> & Hlt & Hs). split; [|lia]. split; [lia|done].
  - split; [lia|]. exists []. split; cbn; try done; [by rewrite app_nil_r|intros j st E; apply aget_bounds in E; unfold alen in E; cbn in E; lia|intros j Hj; apply (psi_done _ HI); lia].
  - lia.
  - mred. destruct out as [o|]; [by eexists sts, _|]. exists sts. eexists. split; [done|]. cbn [fst snd].
    destruct Hs as [Hi Hle Hnode Ht Hok Hd]. split; [split; [done|]|].
    + split; [done|]. cbn. rewrite Hnode, Hc. split; [done|]. split; [by rewrite Ht, <- app_assoc|].
      intros j Hj. rewrite <- Ht. apply Hd. lia.
    + apply ps_inv_reset. cbn. by rewrite Hnode, Hc.
Qed.

(** A tick, a halt of the parent, or anything in the rest of the tree. *)
Inductive ps_step : Run PipelineSequence W -> Run PipelineSequence W -> Prop :=
| ps_step_tick r out r' : ps_tick r = Some (out, r') -> ps_step r r'
| ps_step_halt r : ps_step r (ps_halt r)
| ps_step_other r w : ps_step r (mkRun (node r) w (trace r)).

Lemma ps_reachable w r : rtc ps_step (mkRun (PipelineSequence_new n) w []) r -> ps_inv r.
Proof.
  intros Hr. assert (HI : ps_inv (mkRun (PipelineSequence_new n) w [])) by by apply ps_inv_reset.
  induction Hr as [|r1 r2 r3 Hst _ IH]; [done|]. apply IH. destruct Hst as [r out r' E|r|r w'].
  - destruct (ps_tick_spec r HI) as (sts & s & E' & _ & HI'). rewrite E in E'. by injection E' as <-.
  - apply ps_inv_reset. cbn. by rewrite (psi_count _ HI).
  - by apply ps_inv_event.
Qed.
End pipeline.

(** ** Properties *)

(** C30. The recovery node, from construction and through any sequence of
    ticks, halts and changes of the rest of the tree: between two ticks its
    first child has failed at most [number_of_retries] times since the last
    reset. The next tick ends, and [recovery_outcome] says how: SUCCESS exactly
    when the first child just succeeded; FAILURE when the first child failed
    once more after all the retries were used, each by a recovery that
    succeeded, or when the recovery failed; both reset the node; RUNNING and
    exceptions leave it at the child that gave them. *)
Theorem recovery_bounded {W} `{ControlNode W} (port : option Z) (w : W) (r : Run RecoveryNode W) :
  0 <= default 1 port < 2 ^ 32 ->
  rtc recovery_step (mkRun (RecoveryNode_new 2 port) w []) r ->
  times 0 FAILURE (trace r) <= default 1 port /\ times 1 SUCCESS (trace r) <= default 1 port /\
  exists out r', recovery_tick r = Some (out, r') /\ trace r `prefix_of` trace r' /\
    recovery_outcome (default 1 port) out r'.
Proof.
  intros Hr Hst. pose proof (recovery_reachable _ Hr _ _ _ eq_refl Hst) as HI.
  destruct (recovery_tick_spec _ Hr _ HI) as ([out r'] & E & Ho & _ & Hp).
  pose proof HI as [_ _ Hk Hi H1 H0]. split; [|split; [lia|by exists out, r']]. destruct Hi as [Hi|[Hi Hlt]]; rewrite Hi in H0; lia.
Qed.

(** The round robin node, from construction and through any sequence of
    ticks, halts and changes of the rest of the tree: a tick ends after [k]
    failures of consecutive children (cyclically, from the current one) with
    the outcome of [rr_outcome]: SUCCESS of the next one, after which the node
    will start from its successor; RUNNING of the next one, where it will
    resume; FAILURE only when every child has failed since the last reset, with
    the node reset; an exception otherwise. *)
Theorem round_robin_cycles {W} `{ControlNode W} (n : Z) (w : W) (r : Run RoundRobinNode W) :
  0 <= n < 2 ^ 32 ->
  rtc rr_step (mkRun (RoundRobinNode_new n) w []) r ->
  exists k out r', rr_tick r = Some (out, r') /\
    rr_outcome n (trace r) (rr_current_child_idx_ (node r)) (rr_num_failed_children_ (node r)) k out r'.
Proof.
  intros Hn Hst. pose proof (rr_reachable _ Hn _ _ Hst) as HI.
  destruct (rr_tick_spec _ Hn _ HI) as (k & [out r'] & E & Ho & _). by exists k, out, r'.
Qed.

(** The pipeline sequence, from construction and through any sequence of
    ticks, halts and changes of the rest of the tree: a tick asks the children
    in order from the first one, goes on after a success, and after a RUNNING
    only for the children before the last one ticked; it ends as [ps_outcome]
    says: SUCCESS only when every child has succeeded since the last reset,
    FAILURE at the first failure (both halt the children and reset the node),
    RUNNING at a child no earlier than the last one ticked, which it becomes. *)
Theorem pipeline_advances {W} `{ControlNode W} (n : Z) (w : W) (r : Run PipelineSequence W) :
  0 <= n -> rtc ps_step (mkRun (PipelineSequence_new n) w []) r ->
  (forall j, 0 <= j < ps_last_child_ticked_ (node r) -> (j, SUCCESS) ∈ since (trace r)) /\
  exists sts out r', ps_tick r = Some (out, r') /\ ps_outcome n r sts out r'.
Proof.
  intros Hn Hst. pose proof (ps_reachable n Hn _ _ Hst) as HI. split; [exact (psi_done _ _ HI)|].
  destruct (ps_tick_spec n Hn _ HI) as (sts & [out r'] & E & Ho & _). by exists sts, out, r'.
Qed.

(** ** A concrete tree *)

(** The children answer what a script says. *)
#[local] Instance Script : ControlNode (list NodeStatus) := {
  child_executeTick i w := match w with [] => (Some RUNNING, []) | st :: w => (Some st, w) end;
  base_haltChild i w := w;
  base_haltChildren w := w;
  base_halt w := w;
  base_setStatus st w := w;
}.

Example recovery_example :
  (fun s => (fst s, trace (snd s))) <$>
    recovery_tick (mkRun (RecoveryNode_new 2 None) [FAILURE; SUCCESS; FAILURE] []) =
  Some (Returned FAILURE,
    [Tick 0 (Some FAILURE); HaltChild 0; Tick 1 (Some SUCCESS); HaltChild 1; Tick 0 (Some FAILURE); HaltAll]).
Proof. vm_compute. reflexivity. Qed.

Example pipeline_example :
  (fun s => (fst s, node (snd s))) <$>
    ps_tick (mkRun (mkPipeline 3 1) [RUNNING; SUCCESS; RUNNING] []) = Some (Returned RUNNING, mkPipeline 3 2).
Proof. vm_compute. reflexivity. Qed.

Lemma recovery_bounded_witness :
  exists out r', recovery_tick (mkRun (RecoveryNode_new 2 None) [FAILURE; SUCCESS; FAILURE] []) = Some (out, r') /\
    recovery_outcome 1 out r'.
Proof.
  destruct (recovery_bounded None [FAILURE; SUCCESS; FAILURE] _ ltac:(cbn; lia) (rtc_refl _ _))
    as (_ & _ & out & r' & E & _ & Ho). exists out, r'. split; [exact E|exact Ho].
Defined.

Lemma round_robin_cycles_witness :
  exists k out r', rr_tick (mkRun (RoundRobinNode_new 3) [FAILURE; SUCCESS] []) = Some (out, r') /\
    rr_outcome 3 [] 0 0 k out r'.
Proof.
  destruct (round_robin_cycles 3 [FAILURE; SUCCESS] _ ltac:(lia) (rtc_refl _ _)) as (k & out & r' & E & Ho).
  exists k, out, r'. split; [exact E|exact Ho].
Defined.

Lemma pipeline_advances_witness :
  exists sts out r', ps_tick (mkRun (PipelineSequence_new 3) [SUCCESS; RUNNING] []) = Some (out, r') /\
    ps_outcome 3 (mkRun (PipelineSequence_new 3) [SUCCESS; RUNNING] []) sts out r'.
Proof.
  destruct (pipeline_advances 3 [SUCCESS; RUNNING] _ ltac:(lia) (rtc_refl _ _)) as (_ & sts & out & r' & E & Ho).
  exists sts, out, r'. split; [exact E|exact Ho].
Defined.
